(* ===== verification/_CoqProject ===== *)
-Q . S2P
Prelude.v
GoTime.v
NetAddr.v
GoIO.v
GoStrings.v
ControlFrame.v
Packet.v
Framing.v
FlowControl.v
PortPolicy.v
ConfigVNet.v
Router.v
Authentication.v
Session.v
SourceLimiter.v
ConfigUDP.v
ConfigForward.v
LinkBroker.v
UdpLimiter.v
UdpBinding.v
UdpAssociations.v
UdpBindingSafety.v
IPFilter.v
ForwardRegistry.v
ProxyPlane.v
ConfigProxy.v
ProxyRegistry.v
MirrorTcp.v
ProxyPlacement.v
MirrorRegistry.v
ProxySystem.v
ProxyExamples.v
MirrorJoins.v
ProxyPermissions.v
MirrorCopies.v
MirrorResponses.v
MirrorLifetime.v
PeerWire.v
HttpRequests.v
HttpSafety.v
PeerEndpoint.v
PeerFlows.v
PeerPaths.v
PeerSafety.v
PoolBroker.v
PoolProps.v
PoolQueues.v
PoolSafety.v
ServerVNet.v
ServerRuntime.v
ServerPeers.v
ServerWorlds.v
ServerPolicy.v
ServerSafety.v
SecureRecords.v
SecureStreams.v
TokenHandshake.v
TokenAuth.v
ConfigurationSync.v
ConfigurationAtomic.v
ClientForwards.v
ClientForwardSafety.v
ManagedConfig.v
ConfigurationReload.v
ReloadApply.v
ReloadSafety.v
ManagedRollout.v
ManagedSafety.v
