(* ===== verification/Prelude.v ===== *)
(** * Portway: a verification development

    Portway is a reverse proxy and virtual network: clients behind a NAT keep a
    control connection to a server; the server accepts visitors for the TCP,
    UDP and HTTP proxies that clients declare, opens data links to the clients,
    lets clients reach targets next to the server (Forwards), and routes IPv4
    packets between the members of a virtual network.  This library models the
    parts of the program that decide something (who is let in, what is routed
    where, which limits hold, what is released when) and proves what makes them
    correct.  All paths below are under src/internal.

    ** Files

    Foundations
    - [Prelude]: results of fallible calls, record update, iteration over Go
      maps in any order ([go_range]), counter maps and their agreement with a
      table ([counts], [tally]), tactics and the hint database [portway].
    - [GoTime], [NetAddr], [GoIO], [GoStrings]: what the code uses of the Go
      packages time, net/netip, io, encoding/binary and strings.  Text syntax of
      addresses is the type class [NetipText]; a reader is the bytes to come and
      the error that ends them, a writer a type class.

    Wire formats
    - [ControlFrame] (protocol/control.go): framing of control messages.
    - [Framing] (proxy/udp/framing.go, vnet/frame.go): datagrams on a link
      stream, packet records on a VNet channel.
    - [Packet] (vnet/packet): IPv4 parsing, flow keys, channel selection.
    - [PeerWire] (vnet/peer/peer_wire.go, peer_identity.go): signals, datagrams
      and certificate names of direct paths.

    The token transport (transport/tcp/token)
    - [TokenHandshake], [TokenAuth]: the mutual handshake and what its success
      means.
    - [SecureRecords], [SecureStreams]: the encrypted record stream, its
      authenticity and its round trip over partial reads and writes.

    Configuration
    - [PortPolicy] (config/forward.go, vnet/router.go): port ranges.
    - [ConfigVNet] (config/vnetwork.go), [ConfigUDP] (config/udp.go),
      [ConfigForward] (config/forward.go), [ConfigProxy] (config): data and
      validation.
    - [ProxyPermissions] (config/permissions.go, proxy_mirror.go,
      managed_conflicts.go, server/authorization.go): what governed and managed
      clients may declare.

    Identity and admission
    - [Authentication] (authentication/authentication.go): token snapshots and
      generations.
    - [SourceLimiter] (authentication/source_limiter.go): blocking of sources
      after failed attempts.
    - [Session] (session/registry.go): control sessions and their recovery.
    - [IPFilter] (security/ipfilter): the source address deny list.

    Data links and proxies
    - [LinkBroker] (link/broker.go): offers, tickets, binding, cancellation.
    - [UdpLimiter] (proxy/udp/limiter.go): capacity of UDP associations.
    - [UdpBinding], [UdpAssociations], [UdpBindingSafety] (proxy/udp/binding.go):
      the associations of a UDP proxy and their tasks, over [UdpLimiter].
    - [ProxyPlane], [ProxyRegistry], [ProxyPlacement], [ProxySystem],
      [ProxyExamples] (proxy/registry): bindings, ports, domains, reservations,
      mirror groups, registrations in two phases, activation and suspension.
    - [HttpRequests], [HttpSafety] (proxy/registry/http.go, proxy/http/binding.go,
      config/http.go): routing of public requests by host and their capacity,
      over [ProxySystem].
    - [MirrorTcp], [MirrorCopies], [MirrorResponses], [MirrorLifetime]
      (proxy/mirror): one visitor of a mirror group; [MirrorRegistry],
      [MirrorJoins] (proxy/registry/mirror_tcp.go): the sessions the registry
      keeps and what they are told.

    Forwards
    - [ForwardRegistry] (forward/registry): declarations, leases and links of
      Forwards on the server, over [LinkBroker], [UdpLimiter] and [ConfigForward].
    - [ClientForwards], [ClientForwardSafety] (client/forward_manager.go,
      forward_capacity.go): visitors, offers and links on the client.

    Virtual network
    - [FlowControl] (vnet/internal/flowcontrol/admission.go): the quota and the
      token bucket of a pair of nodes; float64 is the binary64 of SpecFloat.
    - [Router] (vnet/router.go): routing policy and flow table.
    - [PoolBroker], [PoolProps], [PoolQueues], [PoolSafety] (vnet/pool.go,
      pool_queue.go): channel pools and their packet queues.
    - [PeerEndpoint], [PeerFlows], [PeerPaths], [PeerSafety]
      (vnet/peer/peer_endpoint.go, peer_flow.go): direct paths on a client.
    - [ServerVNet], [ServerRuntime], [ServerPeers], [ServerWorlds],
      [ServerPolicy], [ServerSafety] (server/vnetwork*.go): the server's runtime, which composes
      [Router], [PoolBroker] and the coordination of direct paths.

    Configuration of clients and of the server
    - [ConfigurationSync], [ConfigurationAtomic] (server/configuration_sync*.go):
      one request declares the proxies and Forwards of a session.
    - [ManagedConfig], [ManagedRollout], [ManagedSafety] (protocol/managed.go,
      server/managed_*.go, client/managed_rollout.go): the two rounds that bring
      a generation to a managed client.
    - [ConfigurationReload], [ReloadApply], [ReloadSafety]
      (server/configuration_reload.go, configuration_prepare.go): comparing,
      publishing and retiring on a reload.

    ** How the code is modelled

    A struct is a record with the fields of the source, a method a function
    from the receiver's state to its result and new state.  A mutex-protected
    method is one such function.  Where a call consists of several critical
    sections, each is its own function, and the theorems range over their
    interleavings: as a step relation or a step function on a system state
    ([LinkBroker], [Router], [ForwardRegistry], [ProxySystem], [MirrorTcp],
    [PeerEndpoint], [PoolBroker], [ServerRuntime], [ClientForwards],
    [ManagedRollout], [UdpBinding], [HttpRequests]), or as lists of operations or commands
    ([Session], [SourceLimiter], [UdpLimiter], [IPFilter], [ReloadApply]).  A
    goroutine is a program counter or the list of steps it has still to take.
    Objects shared by pointer live in a heap and tables hold references.
    Effects on the outside (callbacks, messages, closed connections) are emitted
    events; what the outside decides (whether a write fails, what a read
    returns, when a timer fires) is part of the action.  The clock is an
    argument.  Maps are [gmap]; a loop over one takes its order from a
    [go_range] over which the theorems quantify.  Machine integers are [Z] with
    [wrap] where the code can wrap.  Code outside the repository is a parameter:
    SHA-256, HMAC, HKDF, AES-GCM, base64, random bytes, JSON, reflect.DeepEqual,
    the golang-toolkit collection helpers, the prefix table of package bart and
    the platform datagram limit, each with the documented behaviour a theorem
    needs as a named law or hypothesis, and with a concrete instance in the
    examples at the end of the file.

    ** What is proved

    - [Router]: the flow table and its counters agree in every history and
      never exceed their limits; a packet reaches a client or the server only
      from its owner and only if the policy in force exposes the service, the
      answer to a delivered packet is delivered, and replacing the policy or
      removing a client drops exactly the flows that lose their authority.
    - [LinkBroker]: limits and counters in every interleaving; a stream is
      attached only with the right identity and an unexpired, unused ticket; a
      reservation is closed exactly once; cancelling a session and shutting
      down leave nothing behind.
    - [Session]: who may register or resume, that recovery ends at its deadline
      and that failed resumptions do not extend it, that sweeping and revoking
      affect exactly the sessions they should.
    - [UdpLimiter]: counters equal the leases they stand for although leases
      are activated and closed in two critical sections; limits and rates hold;
      nothing leaks.  [UdpBindingSafety]: the tasks of a binding keep to what
      the limiter assumes, so the limits hold without that assumption; a lease
      is closed once, when both tasks of its association are over; a binding
      whose wait group is empty holds nothing.
    - [Authentication], [SourceLimiter], [IPFilter]: which credentials survive
      a reload, permanence of revocation, blocking exactly after the configured
      failures, exactness of the deny list, and that a reload closes every
      connection it newly denies.
    - [ProxySystem], [ProxyPermissions]: whatever is reloaded while
      registrations are in flight, the tables of domains and proxies lead to
      each other, a reserved port or domain is routed to nobody else and an
      applied registration installs exactly what it declares; the tables of
      ports lead to each other as long as no registration is published that
      was in flight at a replacement of the mirror groups; governed clients
      stay within their permissions.  [HttpSafety]: a request
      is served only by the owner of its host, the counters of requests are
      exact and bounded, and the spellings of a host lead to one domain.
    - The mirror files: every member receives the visitor's input since it
      joined (a refinement of an abstract feed), only the Primary answers, a
      cancelled session ends, and activations reach exactly the live sessions.
    - [ForwardRegistry], [ClientForwardSafety]: revocation is complete whatever
      is in flight; no link of a client is lost or released twice, visitors come
      to an end, and offers bind on both sides.
    - [PeerSafety], [PoolSafety], [ServerSafety]: accounting and authority of
      direct flows and packets, activation of a pool only when every place is
      claimed and acknowledged, no stale offer of a direct path, and equality of
      the direct path's port policy with the relay's.
    - [SecureStreams], [TokenAuth]: what is read is a prefix of what the peer
      wrote, whatever the network delivers; a completed handshake means that the
      two sides agree on token, nonces and keys.
    - [ConfigurationAtomic], [ManagedSafety], [ReloadSafety]: configurations are
      applied as a whole or not at all, server and client agree on every
      generation, and registered sessions are authenticated by records in use.
    - [ConfigForward], [PortPolicy], [ConfigVNet]: client rules only narrow the
      server's, the matching rule is unique, managed Forwards are allowed, the
      binary search agrees with the linear one, valid configurations give
      routers.
    - [ControlFrame], [Framing], [Packet], [PeerWire]: round trips, exact
      acceptance conditions, no index out of range on any input.

    Five theorems exhibit runs in which the code does not do what it means to:
    [ProxyExamples.mirror_group_race] (mirror groups are not rechecked for ports
    a registration opened itself), [ProxyPermissions.omitted_schemes_unchecked]
    (a declaration without schemes escapes the check of the permitted schemes),
    [MirrorCopies.closing_primary_gap] (a Primary that is being closed may get a
    copy with a hole), [ServerSafety.replaced_sessions_keep_pair] (a direct path
    survives the replacement of both its sessions) and
    [ManagedSafety.suspended_session_reactivated] (a failed rollout reactivates
    a session that was suspended meanwhile).

    ** Bounds and fuel

    The loop that completes partial writes ([GoIO.writeAll]) and the binary
    search ([PortPolicy.search]) recurse on the length of what is left, by well
    founded recursion; the trimming of [IPFilter] has the length of the text as
    fuel, which [trim_complete] shows to be enough; sixteen digits are fuel
    enough for the hexadecimal text of a 64-bit number; reading a stream to its
    end has one unit of fuel per byte and one for the end.  Everything else is
    structural.  Termination of goroutines is by measures: a rank of at most
    twelve for a visitor of [ClientForwards], a weight of the remaining threads
    in [MirrorLifetime].  Generation and registration counters of 64 bits are
    assumed not to wrap.

    ** Not modelled

    Sockets and their copy loops, TLS, QUIC, TUN devices and routes of the
    operating systems, the user-space TCP/IP stack, the HTTP transports and
    their rewriting of headers, YAML loading and file watching, certificates,
    logging, statistics and the command lines: input and output, or thin layers
    over third-party code.  The control loops of client and server are modelled
    only where they hand messages to a modelled component. *)

From Stdlib Require Export ZArith Lia.
From stdpp Require Export base tactics numbers strings gmap fin_maps option list.

(** ** Results: a Go function returning [(value, error)] *)

Inductive result (E A : Type) : Type :=
| Ok (a : A)
| Err (e : E).
Arguments Ok {E A} a.
Arguments Err {E A} e.

Declare Scope portway_scope.
Delimit Scope portway_scope with pw.

Notation "'let!' x ':=' c 'in' k" :=
  (match c with Ok x => k | Err e => Err e end)
  (at level 10, x pattern, c at level 100, k at level 200) : portway_scope.

Definition is_ok {E A} (r : result E A) : bool :=
  match r with Ok _ => true | Err _ => false end.

#[export] Instance result_eq_dec {E A} `{EqDecision E, EqDecision A} :
  EqDecision (result E A).
Proof. solve_decision. Defined.

(** The value of an option that is known to have one. *)
Definition is_some {A} (x : option A) : bool := match x with Some _ => true | None => false end.

Definition from_some {A} (x : option A) : is_some x = true → A :=
  match x with
  | Some a => λ _, a
  | None => λ H, match Bool.diff_false_true H with end
  end.

Lemma from_some_eq {A} (x : option A) H : x = Some (from_some x H).
Proof. by destruct x. Qed.

Lemma pair_snd {A B} (p : A * B) b : snd p = b → p = (fst p, b).
Proof. by destruct p; intros <-. Qed.

(** ** Record update

    A record [R] declares its eta expansion once as an instance of [Eta]; the
    update of any field is then derived by abstracting the projection out of
    that expansion. *)

Class Eta (R : Type) := eta_expand : R → R.
Class Upd {R T : Type} (p : R → T) := upd : (T → T) → R → R.
Arguments upd {R T} p {_} f r /.

Ltac derive_upd p :=
  match type of p with
  | ?R → ?T =>
      let f := fresh "f" in
      let r := fresh "r" in
      refine (fun (f : T → T) (r : R) => _);
      let body := eval hnf in (eta_expand r) in
      match eval pattern (p r) in body with
      | ?F _ => let t := eval cbv beta in (F (f (p r))) in exact t
      end
  end.

#[export] Hint Extern 0 (Upd ?p) => derive_upd p : typeclass_instances.

Notation "r '<|' p ':=' v '|>'" := (upd p (λ _, v) r)
  (at level 1, p at next level) : portway_scope.

#[global] Open Scope portway_scope.

(** ** Proof automation *)

(** Split every [if], [match] and [decide] that blocks the goal or a
    hypothesis, then clean up. *)
Ltac crush_match :=
  repeat (case_match || case_decide || case_bool_decide);
  simplify_eq/=.

(** Turn boolean comparisons on [Z] into the propositions they decide. *)
Ltac bool_to_prop :=
  repeat match goal with
  | H : (_ && _) = true |- _ => apply andb_true_iff in H as [? ?]
  | H : (_ || _) = false |- _ => apply orb_false_iff in H as [? ?]
  | H : (_ && _) = false |- _ => apply andb_false_iff in H
  | H : (_ || _) = true |- _ => apply orb_true_iff in H
  | H : negb _ = true |- _ => apply negb_true_iff in H
  | H : negb _ = false |- _ => apply negb_false_iff in H
  | H : (_ =? _)%Z = true |- _ => apply Z.eqb_eq in H
  | H : (_ =? _)%Z = false |- _ => apply Z.eqb_neq in H
  | H : (_ <? _)%Z = true |- _ => apply Z.ltb_lt in H
  | H : (_ <? _)%Z = false |- _ => apply Z.ltb_ge in H
  | H : (_ <=? _)%Z = true |- _ => apply Z.leb_le in H
  | H : (_ <=? _)%Z = false |- _ => apply Z.leb_gt in H
  | H : bool_decide _ = true |- _ => apply bool_decide_eq_true in H
  | H : bool_decide _ = false |- _ => apply bool_decide_eq_false in H
  end.

(** Arithmetic closer used after [bool_to_prop]. *)
Ltac zsolve := bool_to_prop; simpl in *; try lia.

Create HintDb portway.

(** ** Machine integers *)

(** Unsigned wrap-around at a given width. *)
Definition wrap (w z : Z) : Z := (z `mod` 2 ^ w)%Z.
Abbreviation u8 := (wrap 8).
Abbreviation u16 := (wrap 16).
Abbreviation u32 := (wrap 32).
Abbreviation u64 := (wrap 64).

Lemma wrap_range w z : (0 <= w)%Z → (0 <= wrap w z < 2 ^ w)%Z.
Proof. intros ?. apply Z.mod_pos_bound. lia. Qed.

Lemma wrap_small w z : (0 <= z < 2 ^ w)%Z → wrap w z = z.
Proof. apply Z.mod_small. Qed.

(** Incrementing a wrapping counter always changes it. *)
Lemma wrap_succ_ne w z : (0 < w)%Z → (0 <= z < 2 ^ w)%Z → wrap w (z + 1) ≠ z.
Proof.
  intros Hw Hz. unfold wrap.
  assert (2 <= 2 ^ w)%Z by (change 2%Z with (2 ^ 1)%Z at 1; apply Z.pow_le_mono_r; lia).
  destruct (decide (z + 1 = 2 ^ w)%Z) as [E|].
  - rewrite E, Z.mod_same by lia. lia.
  - rewrite Z.mod_small; lia.
Qed.

(** ** Iterating over a Go map

    The order of [for key, value := range m] is unspecified.  A loop over a
    map is modelled as a loop over the list that an iteration order chooses;
    theorems quantify over every order. *)
Record go_range (K V : Type) `{Countable K} := {
  range_of :> gmap K V → list (K * V);
  range_of_perm m : range_of m ≡ₚ map_to_list m
}.
Arguments range_of {K V _ _} _ _.
Arguments range_of_perm {K V _ _} _ _.

(** The order used when a model is executed. *)
Definition any_range {K V} `{Countable K} : go_range K V :=
  {| range_of := map_to_list; range_of_perm m := reflexivity _ |}.

Section range.
Context {K V : Type} `{Countable K} (ρ : go_range K V).
Implicit Types m : gmap K V.

Lemma range_elem m k v : (k, v) ∈ ρ m ↔ m !! k = Some v.
Proof. by rewrite range_of_perm, elem_of_map_to_list. Qed.

Lemma range_NoDup m : NoDup (ρ m).*1.
Proof. rewrite range_of_perm. apply NoDup_fst_map_to_list. Qed.

Lemma range_length m : length (ρ m) = size m.
Proof. rewrite range_of_perm. apply length_map_to_list. Qed.

(** A loop that deletes the current key when a condition holds. *)
Definition delete_when (P : K → V → bool) (l : list (K * V)) m : gmap K V :=
  foldl (λ m '(k, v), if P k v then delete k m else m) m l.

Lemma delete_when_lookup P l m k :
  NoDup l.*1 →
  (∀ k v, (k, v) ∈ l → m !! k = Some v) →
  delete_when P l m !! k =
    match m !! k with
    | Some v => if decide (k ∈ l.*1) then if P k v then None else Some v
                else Some v
    | None => None
    end.
Proof.
  revert m. induction l as [|[k' v'] l IH]; intros m Hnd Hin; simpl.
  { by destruct (m !! k). }
  apply NoDup_cons in Hnd as [Hk' Hnd]; simpl in *.
  assert (Hk'v : m !! k' = Some v') by (apply Hin; left).
  assert (Hl : ∀ k v, (k, v) ∈ l →
    (if P k' v' then delete k' m else m) !! k = Some v).
  { intros k0 v0 H0.
    assert (k' ≠ k0) by (intros ->; apply Hk', list_elem_of_fmap; by exists (k0, v0)).
    destruct (P k' v'); [rewrite lookup_delete_ne by done|]; apply Hin; by right. }
  rewrite (IH _ Hnd Hl).
  destruct (decide (k = k')) as [->|Hne].
  - rewrite Hk'v, (decide_True (P := k' ∈ _ :: _)) by left.
    destruct (P k' v'); [by rewrite lookup_delete_eq|].
    rewrite Hk'v. by rewrite decide_False.
  - assert (Heq : (if P k' v' then delete k' m else m) !! k = m !! k)
      by (destruct (P k' v'); [by rewrite lookup_delete_ne|done]).
    rewrite Heq. destruct (m !! k) as [v|]; [|done].
    destruct (decide (k ∈ l.*1)) as [Hm|Hm].
    + by rewrite decide_True by (by right).
    + rewrite decide_False; [done|]. by intros [?|?]%elem_of_cons.
Qed.

Lemma delete_when_subseteq P l m : delete_when P l m ⊆ m.
Proof.
  revert m. induction l as [|[k v] l IH]; intros m; simpl; [done|].
  etrans; [apply IH|]. destruct (P k v); [apply delete_subseteq|done].
Qed.

(** An entry the condition spares survives the loop. *)
Lemma delete_when_spares P l m k v :
  (∀ v', (k, v') ∈ l → P k v' = false) → m !! k = Some v → delete_when P l m !! k = Some v.
Proof.
  revert m. induction l as [|[k' v'] l IH]; intros m HP Hm; simpl; [done|].
  apply IH; [intros; apply HP; by right|].
  destruct (P k' v') eqn:E; [|done].
  rewrite lookup_delete_ne; [done|]. intros ->. rewrite HP in E; [done|by left].
Qed.

(** A loop that rewrites or deletes the current entry: over the whole map it
    maps [f], whatever the order. *)
Definition update_each (f : K → V → option V) (l : list (K * V)) m : gmap K V :=
  foldl (λ m '(k, v), partial_alter (λ _, f k v) k m) m l.

Lemma update_each_lookup f l m k :
  NoDup l.*1 → (∀ k v, (k, v) ∈ l → m !! k = Some v) →
  update_each f l m !! k = if decide (k ∈ l.*1) then m !! k ≫= f k else m !! k.
Proof.
  revert m. induction l as [|[k' v'] l IH]; intros m Hnd Hin; simpl.
  { done. }
  apply NoDup_cons in Hnd as [Hk' Hnd]; simpl in *.
  rewrite IH; [|done|]; cycle 1.
  { intros k0 v0 H0. rewrite lookup_partial_alter_ne; [apply Hin; by right|].
    intros ->. apply Hk', list_elem_of_fmap. by exists (k0, v0). }
  destruct (decide (k = k')) as [->|Hne].
  - rewrite (decide_False (P := k' ∈ l.*1)) by done.
    rewrite (decide_True (P := k' ∈ k' :: _)) by left.
    rewrite lookup_partial_alter_eq. by rewrite (Hin k' v') by left.
  - rewrite lookup_partial_alter_ne by done. destruct (decide (k ∈ l.*1)).
    + by rewrite decide_True by (by right).
    + rewrite decide_False; [done|]. by intros [?|?]%elem_of_cons.
Qed.

Lemma update_each_range f m k : update_each f (ρ m) m !! k = m !! k ≫= f k.
Proof.
  rewrite update_each_lookup by (first [apply range_NoDup | intros ??; by rewrite range_elem]).
  case_decide as Hk; [done|]. destruct (m !! k) as [v|] eqn:E; [|done].
  destruct Hk. apply list_elem_of_fmap. exists (k, v). by rewrite range_elem.
Qed.

(** Over the whole map such a loop is a filter, whatever the order. *)
Lemma delete_when_range P m :
  delete_when P (ρ m) m = filter (λ p, P p.1 p.2 = false) m.
Proof.
  apply map_eq. intros k.
  rewrite delete_when_lookup by
    (first [apply range_NoDup | intros ??; by rewrite range_elem]).
  rewrite map_lookup_filter. destruct (m !! k) as [v|] eqn:Hk; simpl; [|done].
  rewrite decide_True by (apply list_elem_of_fmap; exists (k, v); by rewrite range_elem).
  by destruct (P k v).
Qed.
End range.

(** ** Occupancy counters

    Several components keep, beside a table of items, maps from a key (client,
    binding, address, ...) to the number of items charged to that key, with no
    entry for zero.  [tally] is the number itself; [counts] says that such a
    map agrees with the table. *)

Section counter_maps.
Context {K : Type} `{Countable K}.
Implicit Types (m : gmap K Z) (k : K).
Local Open Scope Z_scope.

(** A Go map read: an absent key yields the zero value. *)
Definition count_get m k : Z := default 0 (m !! k).
Definition count_incr m k : gmap K Z := <[k := count_get m k + 1]> m.
Definition count_decr m k : gmap K Z :=
  if count_get m k <=? 1 then delete k m else <[k := count_get m k - 1]> m.

Definition positive m : Prop := ∀ k n, m !! k = Some n → 0 < n.

Lemma positive_empty : positive ∅.
Proof. intros ??. by rewrite lookup_empty. Qed.

Lemma positive_get m k : positive m → 0 <= count_get m k.
Proof.
  intros Hp. unfold count_get. destruct (m !! k) eqn:E; simpl; [|lia].
  apply Hp in E. lia.
Qed.

Lemma count_incr_get m k k' :
  count_get (count_incr m k) k' = count_get m k' + (if decide (k = k') then 1 else 0).
Proof.
  unfold count_incr, count_get at 1. rewrite lookup_insert.
  case_decide; subst; simpl; [done|]. unfold count_get. lia.
Qed.

Lemma count_decr_get m k k' :
  positive m →
  count_get (count_decr m k) k' =
    if decide (k = k') then Z.max 0 (count_get m k' - 1) else count_get m k'.
Proof.
  intros Hp. pose proof (positive_get _ k Hp). unfold count_decr.
  destruct (Z.leb_spec (count_get m k) 1); unfold count_get at 1.
  - rewrite lookup_delete. case_decide; subst; simpl; [lia|done].
  - rewrite lookup_insert. case_decide; subst; simpl; [lia|done].
Qed.

Lemma count_incr_positive m k : positive m → positive (count_incr m k).
Proof.
  intros Hp k' n. unfold count_incr. rewrite lookup_insert.
  pose proof (positive_get _ k Hp). case_decide; intros; simplify_eq; [lia|eauto].
Qed.

Lemma count_decr_positive m k : positive m → positive (count_decr m k).
Proof.
  intros Hp k' n. unfold count_decr. destruct (Z.leb_spec (count_get m k) 1).
  - rewrite lookup_delete. case_decide; [done|apply Hp].
  - rewrite lookup_insert. case_decide; intros; simplify_eq; [lia|eauto].
Qed.
End counter_maps.

#[export] Hint Resolve positive_empty count_incr_positive count_decr_positive : portway.

Section tally.
Context {I A K : Type} `{Countable I} `{Countable K}.
Context (charged : I → A → K → Prop) `{∀ i a k, Decision (charged i a k)}.
Implicit Types (items : gmap I A) (m : gmap K Z).
Local Open Scope Z_scope.

Definition tally items (k : K) : Z :=
  Z.of_nat (size (filter (λ p, charged p.1 p.2 k) items)).

Definition charge (i : I) (a : A) (k : K) : Z :=
  if decide (charged i a k) then 1 else 0.

Lemma tally_empty k : tally ∅ k = 0.
Proof. unfold tally. by rewrite map_filter_empty, map_size_empty. Qed.

Lemma tally_nonneg items k : 0 <= tally items k.
Proof. unfold tally. lia. Qed.

Lemma charge_range i a k : 0 <= charge i a k <= 1.
Proof. unfold charge. case_decide; lia. Qed.

Lemma tally_insert items i a k :
  items !! i = None → tally (<[i := a]> items) k = tally items k + charge i a k.
Proof.
  intros Hi. unfold tally, charge. case_decide.
  - rewrite map_filter_insert_True by done. rewrite map_size_insert_None; [lia|].
    apply map_lookup_filter_None. by left.
  - rewrite map_filter_insert_not'; [lia|done|]. intros y. by rewrite Hi.
Qed.

Lemma tally_delete items i a k :
  items !! i = Some a → tally (delete i items) k = tally items k - charge i a k.
Proof.
  intros Hi. rewrite <- (insert_delete_id items i a Hi) at 2.
  rewrite tally_insert by apply lookup_delete_eq. lia.
Qed.

Lemma tally_replace items i a a' k :
  items !! i = Some a →
  tally (<[i := a']> items) k = tally items k - charge i a k + charge i a' k.
Proof.
  intros Hi. rewrite <- insert_delete_eq.
  rewrite tally_insert by apply lookup_delete_eq. by erewrite tally_delete by done.
Qed.

Lemma tally_replace_same items i a a' k :
  items !! i = Some a → (charged i a k ↔ charged i a' k) →
  tally (<[i := a']> items) k = tally items k.
Proof.
  intros Hi Hc. rewrite (tally_replace _ _ a) by done. unfold charge.
  repeat case_decide; tauto || lia.
Qed.

Lemma tally_le_size items k : tally items k <= Z.of_nat (size items).
Proof. unfold tally. pose proof (map_size_filter (λ p, charged p.1 p.2 k) items). lia. Qed.

Definition counts m items : Prop :=
  positive m ∧ ∀ k, count_get m k = tally items k.

Lemma counts_empty : counts ∅ ∅.
Proof.
  split; [apply positive_empty|]. intros k. rewrite tally_empty.
  unfold count_get. by rewrite lookup_empty.
Qed.

Lemma counts_get m items k : counts m items → count_get m k = tally items k.
Proof. intros [_ Hk]. apply Hk. Qed.

Lemma counts_add m items i a k :
  counts m items → items !! i = None → (∀ k', charged i a k' ↔ k = k') →
  counts (count_incr m k) (<[i := a]> items).
Proof.
  intros [Hp Hk] Hi Hc. split; [by apply count_incr_positive|]. intros k'.
  rewrite count_incr_get, tally_insert, Hk by done. unfold charge.
  destruct (decide (k = k')) as [->|]; [rewrite decide_True|rewrite decide_False];
    rewrite ?Hc; done.
Qed.

Lemma counts_remove m items i a k :
  counts m items → items !! i = Some a → (∀ k', charged i a k' ↔ k = k') →
  counts (count_decr m k) (delete i items).
Proof.
  intros [Hp Hk] Hi Hc. split; [by apply count_decr_positive|]. intros k'.
  rewrite count_decr_get by done. rewrite (tally_delete _ _ a), Hk by done.
  pose proof (tally_nonneg (delete i items) k') as Hn.
  rewrite (tally_delete _ _ a) in Hn by done. unfold charge in *.
  destruct (decide (k = k')) as [->|].
  - rewrite decide_True in * by (by apply Hc). lia.
  - rewrite decide_False in * by (by rewrite Hc). lia.
Qed.

(** The same for an item charged to two keys, which may coincide. *)
Lemma counts_add_two m items i a k1 k2 :
  counts m items → items !! i = None → (∀ k', charged i a k' ↔ k1 = k' ∨ k2 = k') →
  counts (if decide (k2 = k1) then count_incr m k1 else count_incr (count_incr m k1) k2)
    (<[i := a]> items).
Proof.
  intros [Hp Hk] Hi Hc. split; [case_decide; eauto with portway|]. intros k'.
  rewrite tally_insert, <- Hk by done. unfold charge.
  destruct (decide (k2 = k1)) as [->|]; rewrite ?count_incr_get.
  - repeat case_decide; naive_solver lia.
  - repeat case_decide; naive_solver lia.
Qed.

Lemma counts_remove_two m items i a k1 k2 :
  counts m items → items !! i = Some a → (∀ k', charged i a k' ↔ k1 = k' ∨ k2 = k') →
  counts (if decide (k2 = k1) then count_decr m k1 else count_decr (count_decr m k1) k2)
    (delete i items).
Proof.
  intros [Hp Hk] Hi Hc. split; [case_decide; eauto with portway|]. intros k'.
  pose proof (tally_nonneg (delete i items) k') as Hn.
  rewrite (tally_delete _ _ a), <- Hk in Hn by done.
  rewrite (tally_delete _ _ a), <- Hk by done. unfold charge in *.
  destruct (decide (k2 = k1)) as [->|]; rewrite ?count_decr_get by eauto with portway.
  - repeat case_decide; naive_solver lia.
  - repeat case_decide; naive_solver lia.
Qed.

(** Rewriting an item in place leaves counters alone when its charges agree. *)
Lemma counts_replace m items i a a' :
  counts m items → items !! i = Some a →
  (∀ k, charged i a k ↔ charged i a' k) →
  counts m (<[i := a']> items).
Proof.
  intros [Hp Hk] Hi Hc. split; [done|]. intros k.
  by rewrite (tally_replace_same _ _ a) by done.
Qed.
End tally.

(** ** Sums *)

Section sums.
Local Open Scope Z_scope.

(** The sum of an amount per item. *)
Definition sum_of {A} (f : nat → A → Z) (items : gmap nat A) : Z :=
  map_fold (λ i a n, f i a + n)%Z 0%Z items.

Lemma sum_of_insert {A} (f : nat → A → Z) items i a :
  items !! i = None → sum_of f (<[i := a]> items) = f i a + sum_of f items.
Proof.
  intros Hi. unfold sum_of. apply (map_fold_insert_L (λ i a n, f i a + n)); [|done].
  intros. lia.
Qed.

Lemma sum_of_frame {A} (f f' : nat → A → Z) items :
  (∀ j a, items !! j = Some a → f' j a = f j a) → sum_of f' items = sum_of f items.
Proof.
  induction items as [|i a items Hi IH] using map_ind; intros Hf; [done|].
  rewrite !sum_of_insert, IH by (try done; intros j b Hj; apply Hf; by rewrite lookup_insert_ne by congruence).
  rewrite Hf; [done|by rewrite lookup_insert_eq].
Qed.

Lemma sum_of_zero {A} (f : nat → A → Z) items :
  (∀ j a, items !! j = Some a → f j a = 0) → sum_of f items = 0.
Proof.
  intros Hf. rewrite (sum_of_frame (λ _ _, 0)) by done. clear Hf.
  induction items as [|i a items Hi IH] using map_ind; [done|]. by rewrite sum_of_insert.
Qed.

Lemma sum_of_set {A} (f f' : nat → A → Z) items i a' :
  (∀ j a, j ≠ i → items !! j = Some a → f' j a = f j a) →
  sum_of f' (<[i := a']> items) = sum_of f items - default 0 (f i <$> items !! i) + f' i a'.
Proof.
  intros Hf.
  assert (Hd : sum_of f' (delete i items) = sum_of f (delete i items)).
  { apply sum_of_frame. intros j a Hj. apply lookup_delete_Some in Hj as [? Hj]. apply Hf; congruence. }
  rewrite <- insert_delete_eq, sum_of_insert, Hd by apply lookup_delete_eq.
  destruct (items !! i) as [a|] eqn:Ei; simpl.
  - rewrite <- (insert_delete_id items i a Ei) at 2. rewrite sum_of_insert by apply lookup_delete_eq. lia.
  - rewrite delete_id by done. lia.
Qed.

(** Replacing an element of a list changes a sum by the difference. *)
Lemma sum_list_insert {A} (f : A → nat) (l : list A) i x y :
  l !! i = Some x → (sum_list_with f (<[i := y]> l) + f x = sum_list_with f l + f y)%nat.
Proof.
  revert i. induction l as [|a l IH]; intros [|i] Hi; simplify_eq/=; [lia|]. specialize (IH _ Hi). lia.
Qed.
End sums.
