(* ===== verification/GoTime.v ===== *)
(** * Go's [time] package, as far as the modelled code uses it

    A [time.Time] is the number of nanoseconds since the zero value of the
    type (January 1, year 1), so that the zero value is [0], [IsZero] is an
    equality test and [Truncate], which rounds relative to the zero time, is a
    plain remainder.  A [time.Duration] is a signed 64-bit nanosecond count;
    [Sub] saturates at its bounds as documented.  [Add] is unbounded: the
    representable range of [time.Time] spans far more than the durations the
    program adds. *)

From S2P Require Import Prelude.

Local Open Scope Z_scope.

Abbreviation Time := Z (only parsing).
Abbreviation Duration := Z (only parsing).

Definition Nanosecond : Duration := 1.
Definition Millisecond : Duration := 1000000.
Definition Second : Duration := 1000000000.
Definition Minute : Duration := 60 * Second.

Definition maxDuration : Duration := 2 ^ 63 - 1.
Definition minDuration : Duration := - 2 ^ 63.

(** The zero value [time.Time{}]. *)
Definition zero_time : Time := 0.

Definition IsZero (t : Time) : bool := t =? zero_time.
Definition Before (t u : Time) : bool := t <? u.
Definition After (t u : Time) : bool := u <? t.
Definition Add (t : Time) (d : Duration) : Time := t + d.
Definition Sub (t u : Time) : Duration := Z.max minDuration (Z.min maxDuration (t - u)).
Definition Truncate (t : Time) (d : Duration) : Time := if d <=? 0 then t else t - t `mod` d.

(** [t.UnixMilli()]; the Unix epoch is 62135596800 seconds after the zero time. *)
Definition unixEpoch : Time := 62135596800 * Second.
Definition UnixMilli (t : Time) : Z := (t - unixEpoch) / Millisecond.

(** Comparing a saturated difference with a duration in range is comparing
    the times. *)
Lemma Sub_ge t u d : minDuration < d <= maxDuration → d <= Sub t u ↔ u + d <= t.
Proof. unfold Sub. lia. Qed.

Lemma Sub_leb t u d :
  minDuration < d <= maxDuration → (d <=? Sub t u) = (Add u d <=? t).
Proof.
  intros Hd. pose proof (Sub_ge t u d Hd). unfold Add.
  destruct (Z.leb_spec d (Sub t u)), (Z.leb_spec (u + d) t); lia || done.
Qed.

Lemma Truncate_window t d : 0 < d → Truncate t d <= t < Truncate t d + d.
Proof.
  intros Hd. unfold Truncate. rewrite (proj2 (Z.leb_gt d 0)) by done.
  pose proof (Z.mod_pos_bound t d Hd). lia.
Qed.

(** Two instants are in the same window exactly when they truncate alike. *)
Lemma Truncate_same t u d :
  0 < d → Truncate t d = Truncate u d ↔ t / d = u / d.
Proof.
  intros Hd. unfold Truncate. rewrite (proj2 (Z.leb_gt d 0)) by done.
  pose proof (Z.div_mod t d ltac:(lia)). pose proof (Z.div_mod u d ltac:(lia)). nia.
Qed.

#[export] Hint Resolve Truncate_window : portway.
