(* ===== verification/NetAddr.v ===== *)
(** * Go's [byte] and [net/netip.Addr], as far as the modelled code uses them

    An address is the zero value, an IPv4 address of four bytes, or an IPv6
    address of sixteen bytes with a zone.  [Compare] orders by bit length,
    then by numeric value, then by zone. *)

From Stdlib Require Export Init.Byte.
From Stdlib Require Import Strings.Byte Strings.Ascii.
From S2P Require Import Prelude.

Local Open Scope Z_scope.

(** ** Bytes *)

#[export] Instance byte_eq_dec : EqDecision byte := Byte.byte_eq_dec.
#[export] Program Instance byte_countable : Countable byte :=
  inj_countable Byte.to_N Byte.of_N _.
Next Obligation. intros b. apply Byte.of_to_N. Qed.

Definition byte_val (b : byte) : Z := Z.of_N (Byte.to_N b).
(** Conversion of an integer to [byte] keeps its low eight bits. *)
Definition byte_of (z : Z) : byte := default x00 (Byte.of_N (Z.to_N (u8 z))).

#[global] Arguments byte_val b : simpl never.
#[global] Arguments byte_of z : simpl never.

Lemma byte_val_range b : 0 <= byte_val b < 256.
Proof. unfold byte_val. pose proof (Byte.to_N_bounded b). lia. Qed.

Lemma byte_of_val b : byte_of (byte_val b) = b.
Proof.
  pose proof (byte_val_range b). unfold byte_of. rewrite wrap_small by (simpl; lia).
  unfold byte_val. by rewrite N2Z.id, Byte.of_to_N.
Qed.

Lemma byte_val_of z : byte_val (byte_of z) = u8 z.
Proof.
  pose proof (wrap_range 8 z ltac:(lia)) as Hr. change (2 ^ 8) with 256 in Hr.
  unfold byte_of, byte_val. destruct (Byte.of_N (Z.to_N (u8 z))) as [b|] eqn:E; simpl.
  - apply Byte.to_of_N in E. rewrite E. lia.
  - apply Byte.of_N_None_iff in E. lia.
Qed.

Lemma byte_val_inj a b : byte_val a = byte_val b → a = b.
Proof. intros E. rewrite <- (byte_of_val a), <- (byte_of_val b). by rewrite E. Qed.

(** ** Addresses *)

(** [[4]byte] *)
Record ip4 := IP4 { oct0 : byte; oct1 : byte; oct2 : byte; oct3 : byte }.

#[export] Instance ip4_eq_dec : EqDecision ip4.
Proof. solve_decision. Defined.
#[export] Program Instance ip4_countable : Countable ip4 :=
  inj_countable' (λ a, (oct0 a, oct1 a, oct2 a, oct3 a))
                 (λ '(a, b, c, d), IP4 a b c d) _.
Next Obligation. by intros []. Qed.

Definition ip4_val (a : ip4) : Z :=
  ((byte_val (oct0 a) * 256 + byte_val (oct1 a)) * 256 + byte_val (oct2 a)) * 256
  + byte_val (oct3 a).

Lemma ip4_val_range a : 0 <= ip4_val a < 2 ^ 32.
Proof.
  destruct a as [a b c d]. unfold ip4_val; simpl.
  pose proof (byte_val_range a). pose proof (byte_val_range b).
  pose proof (byte_val_range c). pose proof (byte_val_range d). lia.
Qed.

Lemma ip4_val_inj a b : ip4_val a = ip4_val b → a = b.
Proof.
  destruct a as [a0 a1 a2 a3], b as [b0 b1 b2 b3]. unfold ip4_val; simpl. intros E.
  pose proof (byte_val_range a0). pose proof (byte_val_range a1).
  pose proof (byte_val_range a2). pose proof (byte_val_range a3).
  pose proof (byte_val_range b0). pose proof (byte_val_range b1).
  pose proof (byte_val_range b2). pose proof (byte_val_range b3).
  f_equal; apply byte_val_inj; lia.
Qed.

Inductive Addr :=
| AddrZero
| Addr4 (a : ip4)
| Addr6 (value : Z) (zone : string).

#[export] Instance addr_eq_dec : EqDecision Addr.
Proof. solve_decision. Defined.
#[export] Program Instance addr_countable : Countable Addr :=
  inj_countable'
    (λ a, match a with
          | AddrZero => inl tt
          | Addr4 a => inr (inl a)
          | Addr6 v z => inr (inr (v, z))
          end)
    (λ s, match s with
          | inl _ => AddrZero
          | inr (inl a) => Addr4 a
          | inr (inr (v, z)) => Addr6 v z
          end) _.
Next Obligation. by intros []. Qed.

Definition IsValid (a : Addr) : bool := match a with AddrZero => false | _ => true end.
Definition Is4 (a : Addr) : bool := match a with Addr4 _ => true | _ => false end.
(** [::ffff:0:0/96] *)
Definition Is4In6 (a : Addr) : bool :=
  match a with Addr6 v _ => Z.shiftr v 32 =? 0xffff | _ => false end.

Definition ip4_of_val (v : Z) : ip4 :=
  IP4 (byte_of (Z.shiftr v 24)) (byte_of (Z.shiftr v 16)) (byte_of (Z.shiftr v 8)) (byte_of v).

Definition Unmap (a : Addr) : Addr :=
  match a with
  | Addr6 v _ => if Is4In6 a then Addr4 (ip4_of_val v) else a
  | _ => a
  end.

(** [As4] panics ([None]) on the zero value and on a proper IPv6 address. *)
Definition As4 (a : Addr) : option ip4 :=
  match Unmap a with Addr4 b => Some b | _ => None end.

Definition BitLen (a : Addr) : Z :=
  match a with AddrZero => 0 | Addr4 _ => 32 | Addr6 _ _ => 128 end.

Definition string_compare (s t : string) : comparison := String.compare s t.

Definition Compare (a b : Addr) : comparison :=
  match BitLen a ?= BitLen b with
  | Eq =>
      match a, b with
      | Addr4 x, Addr4 y => ip4_val x ?= ip4_val y
      | Addr6 v z, Addr6 w y =>
          match v ?= w with Eq => string_compare z y | c => c end
      | _, _ => Eq
      end
  | c => c
  end.

Definition Less (a b : Addr) : bool :=
  match Compare a b with Lt => true | _ => false end.

Lemma Unmap_4 a : Unmap (Addr4 a) = Addr4 a.
Proof. done. Qed.

Lemma Unmap_idem a : Unmap (Unmap a) = Unmap a.
Proof.
  destruct a as [|a|v z]; [done|done|]. unfold Unmap at 2 3.
  destruct (Is4In6 (Addr6 v z)) eqn:E; [done|]. unfold Unmap. by rewrite E.
Qed.

Lemma Is4_inv a : Is4 a = true → ∃ x, a = Addr4 x.
Proof. destruct a; naive_solver. Qed.

Lemma Is4_As4 a : Is4 a = true → is_Some (As4 a).
Proof. intros [x ->]%Is4_inv. by exists x. Qed.

Lemma Less_4 x y : Less (Addr4 x) (Addr4 y) = (ip4_val x <? ip4_val y).
Proof. unfold Less, Compare; simpl. unfold Z.ltb. by destruct (ip4_val x ?= ip4_val y). Qed.

Lemma Compare_4 x y : Compare (Addr4 x) (Addr4 y) = (ip4_val x ?= ip4_val y).
Proof. done. Qed.

(** ** Prefixes *)

Record Prefix := { PrefixAddr : Addr; PrefixBits : Z }.

#[export] Instance prefix_eq_dec : EqDecision Prefix.
Proof. solve_decision. Defined.

Definition hasZone (a : Addr) : bool :=
  match a with Addr6 _ z => negb (bool_decide (z = "")) | _ => false end.

Definition addr_num (a : Addr) : Z :=
  match a with AddrZero => 0 | Addr4 x => ip4_val x | Addr6 v _ => v end.

(** Whether the network part of [addr] is that of the prefix.  Addresses of
    different families, the zero value and addresses with a zone are outside
    every prefix. *)
Definition Contains (p : Prefix) (addr : Addr) : bool :=
  IsValid (PrefixAddr p) && IsValid addr && negb (hasZone addr) &&
  (BitLen (PrefixAddr p) =? BitLen addr) &&
  (Z.shiftr (addr_num (PrefixAddr p)) (BitLen addr - PrefixBits p) =?
   Z.shiftr (addr_num addr) (BitLen addr - PrefixBits p)).

(** A prefix as [netip.ParsePrefix] returns it. *)
Definition prefix_ok (p : Prefix) : Prop :=
  IsValid (PrefixAddr p) = true ∧ hasZone (PrefixAddr p) = false ∧
  0 <= PrefixBits p <= BitLen (PrefixAddr p).

Lemma Contains_spec p a :
  Contains p a = true ↔
    IsValid (PrefixAddr p) = true ∧ IsValid a = true ∧ hasZone a = false ∧
    BitLen (PrefixAddr p) = BitLen a ∧
    Z.shiftr (addr_num (PrefixAddr p)) (BitLen a - PrefixBits p) =
    Z.shiftr (addr_num a) (BitLen a - PrefixBits p).
Proof.
  unfold Contains. rewrite !andb_true_iff, negb_true_iff, !Z.eqb_eq. tauto.
Qed.

Lemma Contains_self p : prefix_ok p → Contains p (PrefixAddr p) = true.
Proof. intros (? & ? & ?). apply Contains_spec. done. Qed.

(** Agreement on the first bits implies agreement on fewer. *)
Lemma shiftr_coarser x y n m :
  0 <= n <= m → Z.shiftr x n = Z.shiftr y n → Z.shiftr x m = Z.shiftr y m.
Proof.
  intros Hnm E. replace m with (n + (m - n)) by lia.
  rewrite <- !Z.shiftr_shiftr by lia. by rewrite E.
Qed.

(** A longer prefix whose base lies in a shorter one is contained in it. *)
Lemma Contains_trans outer inner a :
  prefix_ok outer → prefix_ok inner →
  Contains outer (PrefixAddr inner) = true → PrefixBits outer <= PrefixBits inner →
  Contains inner a = true → Contains outer a = true.
Proof.
  intros (? & ? & ?) (? & ? & ?). rewrite !Contains_spec.
  intros (? & ? & ? & Hlen & Eo) Hbits (? & ? & ? & Hlen' & Ei).
  split_and!; [done|done|done|congruence|]. rewrite Hlen' in Eo. rewrite Eo.
  eapply shiftr_coarser; [|exact Ei]. lia.
Qed.

(** Two prefixes that share an address are nested. *)
Lemma Contains_overlap p q a :
  prefix_ok p → prefix_ok q → Contains p a = true → Contains q a = true →
  Contains p (PrefixAddr q) = true ∨ Contains q (PrefixAddr p) = true.
Proof.
  intros (Vp & Zp & Bp) (Vq & Zq & Bq). rewrite !Contains_spec.
  intros (_ & Va & Za & Lp & Ep) (_ & _ & _ & Lq & Eq).
  rewrite Lp, Lq in *. destruct (Z.le_ge_cases (PrefixBits p) (PrefixBits q)).
  - left. split_and!; [done|done|done|done|]. rewrite Ep.
    symmetry. eapply shiftr_coarser; [|exact Eq]. lia.
  - right. split_and!; [done|done|done|done|]. rewrite Eq.
    symmetry. eapply shiftr_coarser; [|exact Ep]. lia.
Qed.

(** The address with its host bits cleared, as [Prefix.Masked] has it. *)
Definition mask_val (len bits v : Z) : Z := Z.shiftl (Z.shiftr v (len - bits)) (len - bits).

Definition Masked (p : Prefix) : Prefix :=
  match PrefixAddr p with
  | AddrZero => p
  | Addr4 a => {| PrefixAddr := Addr4 (ip4_of_val (mask_val 32 (PrefixBits p) (ip4_val a)));
                  PrefixBits := PrefixBits p |}
  | Addr6 v z => {| PrefixAddr := Addr6 (mask_val 128 (PrefixBits p) v) z;
                    PrefixBits := PrefixBits p |}
  end.

(** RFC 1918 and RFC 4193 addresses. *)
Definition IsPrivate (a : Addr) : bool :=
  match a with
  | Addr4 (IP4 a b _ _) =>
      (byte_val a =? 10) || ((byte_val a =? 172) && (Z.land (byte_val b) 0xf0 =? 16)) ||
      ((byte_val a =? 192) && (byte_val b =? 168))
  | Addr6 v _ => Z.land (Z.shiftr v 120) 0xfe =? 0xfc
  | AddrZero => false
  end.

(** ** Text

    The textual syntax of addresses and prefixes.  The theorems hold for every
    parser and printer whose prefixes are well formed. *)
Class NetipText := {
  ParseAddr : string → option Addr;
  AddrString : Addr → string;
  ParsePrefix : string → option Prefix;
  PrefixString : Prefix → string;
  ParsePrefix_ok s p : ParsePrefix s = Some p → prefix_ok p
}.

(** A concrete syntax: dotted quads, and a quad followed by a prefix length. *)
Module Dotted.
Definition digit (c : Ascii.ascii) : option Z :=
  let n := Z.of_N (Ascii.N_of_ascii c) in
  if (48 <=? n) && (n <=? 57) then Some (n - 48) else None.

Fixpoint decimal (acc : Z) (cs : list Ascii.ascii) : option Z :=
  match cs with
  | [] => Some acc
  | c :: cs => d ← digit c; decimal (acc * 10 + d) cs
  end.

(** A number of at most [max], without a leading zero. *)
Definition number (max : Z) (cs : list Ascii.ascii) : option Z :=
  match cs with
  | [] => None
  | [c] => digit c
  | c :: _ =>
    if bool_decide (digit c = Some 0) then None
    else v ← decimal 0 cs; if v <=? max then Some v else None
  end.

Fixpoint split_on (sep : Ascii.ascii) (cur cs : list Ascii.ascii) : list (list Ascii.ascii) :=
  match cs with
  | [] => [rev cur]
  | c :: cs =>
    if Ascii.eqb c sep then rev cur :: split_on sep [] cs else split_on sep (c :: cur) cs
  end.

Definition parse_quad (cs : list Ascii.ascii) : option ip4 :=
  match split_on "."%char [] cs with
  | [a; b; c; d] =>
    a ← number 255 a; b ← number 255 b; c ← number 255 c; d ← number 255 d;
    Some (IP4 (byte_of a) (byte_of b) (byte_of c) (byte_of d))
  | _ => None
  end.

Definition parse_addr (s : string) : option Addr :=
  Addr4 <$> parse_quad (String.list_ascii_of_string s).

Definition parse_prefix (s : string) : option Prefix :=
  match split_on "/"%char [] (String.list_ascii_of_string s) with
  | [q; n] =>
    a ← parse_quad q; n ← number 32 n;
    if (0 <=? n) && (n <=? 32) then Some {| PrefixAddr := Addr4 a; PrefixBits := n |} else None
  | _ => None
  end.

Definition digits (z : Z) : string :=
  let d n := String (Ascii.ascii_of_N (Z.to_N (48 + n))) "" in
  if z <? 10 then d z
  else if z <? 100 then (d (z / 10) +:+ d (z `mod` 10))%string
  else (d (z / 100) +:+ d ((z / 10) `mod` 10) +:+ d (z `mod` 10))%string.

Definition print_addr (a : Addr) : string :=
  match a with
  | Addr4 (IP4 a b c d) =>
      (digits (byte_val a) +:+ "." +:+ digits (byte_val b) +:+ "." +:+
       digits (byte_val c) +:+ "." +:+ digits (byte_val d))%string
  | _ => ""
  end.

Definition print_prefix (p : Prefix) : string :=
  (print_addr (PrefixAddr p) +:+ "/" +:+ digits (PrefixBits p))%string.

Lemma parse_prefix_ok s p : parse_prefix s = Some p → prefix_ok p.
Proof.
  unfold parse_prefix. destruct (split_on _ _ _) as [|q [|n [|]]]; try done.
  destruct (parse_quad q) as [a|]; simpl; [|done]. destruct (number 32 n) as [k|]; simpl; [|done].
  destruct (_ && _) eqn:E; [|done]. bool_to_prop. intros; simplify_eq.
  split_and!; simpl; done || lia.
Qed.

#[export] Instance text : NetipText :=
  {| ParseAddr := parse_addr; AddrString := print_addr; ParsePrefix := parse_prefix;
     PrefixString := print_prefix; ParsePrefix_ok := parse_prefix_ok |}.
End Dotted.
