(* ===== verification/GoIO.v ===== *)
(** * Byte streams: big-endian integers, [io.Reader], [io.Writer]

    [encoding/binary.BigEndian] is modelled by [be_encode]/[be_decode].  A
    reader is the bytes still to come together with the error that follows
    them; [ReadFull] is [io.ReadFull].  A writer is an instance of the class
    [Writer]: the contract of [io.Writer] and the bytes it has accepted so
    far.  [writeAll] is the loop that [internal/protocol], [internal/vnet] and
    [internal/proxy/udp] each define (with different errors for a write that
    makes no progress). *)

From Equations Require Import Equations.
From S2P Require Import Prelude NetAddr.

Local Open Scope Z_scope.

(** ** Big-endian integers *)

Definition be_decode (bs : list byte) : Z := foldl (λ acc b, acc * 256 + byte_val b) 0 bs.

Fixpoint be_encode (n : nat) (z : Z) : list byte :=
  match n with
  | O => []
  | S n => be_encode n (z / 256) ++ [byte_of z]
  end.

Lemma be_decode_app bs cs :
  be_decode (bs ++ cs) = be_decode bs * 256 ^ Z.of_nat (length cs) + be_decode cs.
Proof.
  unfold be_decode. rewrite foldl_app. generalize (foldl (λ acc b, acc * 256 + byte_val b) 0 bs).
  induction cs as [|c cs IH] using rev_ind; intros acc; simpl; [lia|].
  rewrite !foldl_app, length_app; simpl. rewrite IH.
  rewrite Nat2Z.inj_add, Z.pow_add_r by lia. change (256 ^ Z.of_nat 1) with 256. lia.
Qed.

Lemma length_be_encode n z : length (be_encode n z) = n.
Proof. revert z. induction n; intros z; simpl; [done|]. rewrite length_app, IHn. simpl. lia. Qed.

Lemma be_decode_encode n z : be_decode (be_encode n z) = z `mod` 256 ^ Z.of_nat n.
Proof.
  revert z. induction n as [|n IH]; intros z.
  { change (be_decode (be_encode 0 z)) with 0. by rewrite Z.mod_1_r. }
  cbn [be_encode]. rewrite be_decode_app, IH. cbn [length].
  change (256 ^ Z.of_nat 1) with 256.
  change (be_decode [byte_of z]) with (byte_val (byte_of z)).
  rewrite byte_val_of. unfold wrap. change (2 ^ 8) with 256.
  rewrite Nat2Z.inj_succ, Z.pow_succ_r by lia.
  rewrite Z.rem_mul_r by lia. lia.
Qed.

Lemma be_decode_range bs : 0 <= be_decode bs < 256 ^ Z.of_nat (length bs).
Proof.
  induction bs as [|b bs IH] using rev_ind; [done|].
  rewrite be_decode_app, length_app, Nat2Z.inj_add, Z.pow_add_r by lia. cbn [length].
  change (256 ^ Z.of_nat 1) with 256. change (be_decode [b]) with (byte_val b).
  pose proof (byte_val_range b). lia.
Qed.

Lemma be_decode_inj bs cs : length bs = length cs → be_decode bs = be_decode cs → bs = cs.
Proof.
  revert cs. induction bs as [|b bs IH] using rev_ind; intros cs.
  { destruct cs; [done|discriminate]. }
  destruct cs as [|c cs _] using rev_ind; rewrite !length_app; simpl; [lia|].
  rewrite !be_decode_app. cbn [length]. change (256 ^ Z.of_nat 1) with 256.
  change (be_decode [b]) with (byte_val b). change (be_decode [c]) with (byte_val c).
  intros Hl E. pose proof (byte_val_range b). pose proof (byte_val_range c).
  f_equal; [apply IH; lia|]. f_equal. apply byte_val_inj. lia.
Qed.

Definition Uint16 (bs : list byte) : Z := be_decode (take 2 bs).
Definition Uint32 (bs : list byte) : Z := be_decode (take 4 bs).
Definition Uint64 (bs : list byte) : Z := be_decode (take 8 bs).
Definition PutUint16 (v : Z) : list byte := be_encode 2 (u16 v).
Definition PutUint32 (v : Z) : list byte := be_encode 4 (u32 v).
Definition PutUint64 (v : Z) : list byte := be_encode 8 (u64 v).

#[global] Arguments PutUint16 v : simpl never.
#[global] Arguments PutUint32 v : simpl never.
#[global] Arguments PutUint64 v : simpl never.
#[global] Arguments Uint16 bs : simpl never.
#[global] Arguments Uint32 bs : simpl never.
#[global] Arguments Uint64 bs : simpl never.

Lemma Uint16_Put v rest : 0 <= v < 2 ^ 16 → Uint16 (PutUint16 v ++ rest) = v.
Proof.
  intros. unfold Uint16, PutUint16. rewrite wrap_small by done.
  rewrite take_app_le by (rewrite length_be_encode; lia).
  rewrite take_ge by (rewrite length_be_encode; lia).
  rewrite be_decode_encode. by apply Z.mod_small.
Qed.

Lemma Uint32_Put v rest : 0 <= v < 2 ^ 32 → Uint32 (PutUint32 v ++ rest) = v.
Proof.
  intros. unfold Uint32, PutUint32. rewrite wrap_small by done.
  rewrite take_app_le by (rewrite length_be_encode; lia).
  rewrite take_ge by (rewrite length_be_encode; lia).
  rewrite be_decode_encode. by apply Z.mod_small.
Qed.

Lemma length_PutUint16 v : length (PutUint16 v) = 2%nat.
Proof. apply length_be_encode. Qed.
Lemma length_PutUint32 v : length (PutUint32 v) = 4%nat.
Proof. apply length_be_encode. Qed.
Lemma length_PutUint64 v : length (PutUint64 v) = 8%nat.
Proof. apply length_be_encode. Qed.

(** [copy(buffer[offset:], bs)] where the bytes fit. *)
Definition put_at (offset : nat) (bs packet : list byte) : list byte :=
  take offset packet ++ bs ++ drop (offset + length bs) packet.

Lemma put_at_all bs buffer : length bs = length buffer → put_at 0 bs buffer = bs.
Proof. intros E. unfold put_at. simpl. rewrite drop_ge by lia. apply app_nil_r. Qed.

(** ** Errors of the [io] package and of the connection underneath *)

Inductive io_error :=
| ErrEOF
| ErrUnexpectedEOF
| ErrShortWrite
| ErrNoProgress
| ErrConn (code : Z).

#[export] Instance io_error_eq_dec : EqDecision io_error.
Proof. solve_decision. Defined.

(** ** Readers *)

Record Reader := { pending : list byte; failure : io_error }.

(** [io.ReadFull(reader, buffer)] with [len(buffer) = n]. *)
Definition ReadFull (n : nat) (r : Reader) : Reader * result io_error (list byte) :=
  if decide (n <= length (pending r))%nat then
    ({| pending := drop n (pending r); failure := failure r |}, Ok (take n (pending r)))
  else
    ({| pending := []; failure := failure r |},
     Err (match pending r, failure r with
          | _ :: _, ErrEOF => ErrUnexpectedEOF
          | _, e => e
          end)).

Lemma ReadFull_app n bs rest e :
  length bs = n →
  ReadFull n {| pending := bs ++ rest; failure := e |} =
    ({| pending := rest; failure := e |}, Ok bs).
Proof.
  intros <-. unfold ReadFull; simpl.
  rewrite decide_True by (rewrite length_app; lia).
  by rewrite drop_app_length, take_app_length.
Qed.

Lemma ReadFull_ok n r r' bs :
  ReadFull n r = (r', Ok bs) →
  length bs = n ∧ pending r = bs ++ pending r' ∧ failure r' = failure r.
Proof.
  unfold ReadFull. case_decide; intros; simplify_eq/=.
  rewrite length_take, take_drop. split_and!; [lia|done..].
Qed.

(** ** Writers *)

(** What the loop relies on: [Write(p)] reports how many bytes it took, and
    they are a prefix of [p].  ([io.Writer] also asks for an error when fewer
    bytes are taken; the loop does not need that.) *)
Class Writer (W : Type) := {
  Write : W → list byte → W * nat * option io_error;
  written : W → list byte;
  Write_spec w p w' n err :
    Write w p = (w', n, err) →
    (n <= length p)%nat ∧ written w' = written w ++ take n p
}.

Section writeAll.
Context {W : Type} `{Writer W} (no_progress : io_error).

Equations? writeAll (w : W) (data : list byte) : W * option io_error
  by wf (length data) lt :=
  writeAll w [] := (w, None);
  writeAll w (b :: rest) with Write w (b :: rest) => {
    | ((w', _), Some err) := (w', Some err);
    | ((w', 0%nat), None) := (w', Some no_progress);
    | ((w', S n), None) := writeAll w' (drop n rest)
  }.
Proof. rewrite length_drop. simpl. lia. Qed.

(** The loop returns for every writer; it succeeds exactly when the whole
    buffer was taken, and on failure a prefix of it was. *)
Lemma writeAll_spec w data w' err :
  writeAll w data = (w', err) →
  ∃ n, (n <= length data)%nat ∧ written w' = written w ++ take n data ∧
       (err = None → n = length data).
Proof.
  revert w' err. funelim (writeAll w data); intros w2 err2; try (rewrite <- Heqcall);
    intros E; simplify_eq.
  all: try (match goal with
    HW : Write _ _ = _ |- _ => destruct (Write_spec _ _ _ _ _ HW) as [Hle Hw] end).
  - exists 0%nat. by rewrite app_nil_r.
  - eexists. split_and!; [exact Hle|exact Hw|done].
  - exists 0%nat. split_and!; [lia|done|done].
  - match goal with IH : ∀ _ _, writeAll _ _ = _ → _ |- _ => apply IH in E end.
    destruct E as (k & Hk & Hw2 & Hall). exists (S n + k)%nat.
    rewrite length_drop in Hk, Hall. simpl in Hle |- *. rewrite Hw2, Hw. simpl.
    split_and!; [lia| |intros ?; rewrite Hall by done; lia].
    rewrite <- app_assoc. f_equal. simpl. f_equal. by rewrite take_take_drop.
Qed.

Lemma writeAll_ok w data w' :
  writeAll w data = (w', None) → written w' = written w ++ data.
Proof.
  intros (n & _ & Hw & Hn)%writeAll_spec. rewrite Hw, Hn by done. by rewrite firstn_all.
Qed.
End writeAll.

(** ** A concrete writer: a connection that accepts a bounded number of bytes *)

Record Sink := { accepted : list byte; room : nat }.

Definition sink_write (w : Sink) (p : list byte) : Sink * nat * option io_error :=
  if decide (length p <= room w)%nat
  then ({| accepted := accepted w ++ p; room := room w - length p |}, length p, None)
  else ({| accepted := accepted w ++ take (room w) p; room := 0 |}, room w, Some (ErrConn 0)).

Lemma sink_write_spec w p w' n err :
  sink_write w p = (w', n, err) →
  (n <= length p)%nat ∧ accepted w' = accepted w ++ take n p.
Proof.
  unfold sink_write. case_decide; intros; simplify_eq/=.
  - split; [lia|by rewrite firstn_all].
  - split; [lia|done].
Qed.

#[export] Instance sink_writer : Writer Sink :=
  {| Write := sink_write; written := accepted; Write_spec := sink_write_spec |}.
