(* ===== verification/GoStrings.v ===== *)
(** * Strings: what the code uses of the package strings *)

From Stdlib Require Import Ascii.
From S2P Require Import Prelude.

(** [strings.Split(s, sep)] for a one-byte separator *)
Fixpoint Split (sep : ascii) (s : string) : list string :=
  match s with
  | EmptyString => [EmptyString]
  | String c rest =>
    if Ascii.eqb c sep then EmptyString :: Split sep rest
    else match Split sep rest with
         | part :: parts => String c part :: parts
         | [] => [String c EmptyString]
         end
  end.

(** [strings.HasPrefix], [strings.TrimPrefix], [strings.HasSuffix] *)
Fixpoint HasPrefix (s prefix : string) : bool :=
  match prefix, s with
  | EmptyString, _ => true
  | String p prefix, String c s => Ascii.eqb p c && HasPrefix s prefix
  | String _ _, EmptyString => false
  end.

Fixpoint drop_string (n : nat) (s : string) : string :=
  match n, s with
  | S n, String _ s => drop_string n s
  | _, _ => s
  end.

Definition TrimPrefix (s prefix : string) : string :=
  if HasPrefix s prefix then drop_string (String.length prefix) s else s.

Definition HasSuffix (s suffix : string) : bool :=
  bool_decide (String.length suffix <= String.length s)%nat &&
  String.eqb (drop_string (String.length s - String.length suffix) s) suffix.

Definition ContainsByte (s : string) (cs : list ascii) : bool :=
  existsb (λ c, bool_decide (c ∈ cs)) (String.list_ascii_of_string s).

(** [strings.TrimSuffix] *)
Definition TrimSuffix (s suffix : string) : string :=
  if HasSuffix s suffix then String.substring 0 (String.length s - String.length suffix) s else s.

(** ** Lemmas *)

Lemma HasPrefix_spec s prefix : HasPrefix s prefix = true ↔ ∃ t, s = (prefix ++ t)%string.
Proof.
  revert s. induction prefix as [|p prefix IH]; intros s; cbn [HasPrefix].
  { split; [intros _; by exists s|intros _; by destruct s]. }
  destruct s as [|c s]; [split; [done|intros [t Ht]; discriminate]|]. cbn [HasPrefix]. rewrite andb_true_iff, IH, Ascii.eqb_eq. split.
  - intros [-> [t ->]]. by exists t.
  - intros [t [= -> ->]]. split; [done|by exists t].
Qed.

Lemma drop_string_app s t : drop_string (String.length s) (s ++ t) = t.
Proof. induction s as [|c s IH]; [by destruct t|]. exact IH. Qed.

Lemma HasPrefix_app prefix t : HasPrefix (prefix ++ t) prefix = true.
Proof. apply HasPrefix_spec. by exists t. Qed.

Lemma TrimPrefix_app prefix t : TrimPrefix (prefix ++ t) prefix = t.
Proof. unfold TrimPrefix. by rewrite HasPrefix_app, drop_string_app. Qed.

Lemma string_length_app s t : String.length (s ++ t) = (String.length s + String.length t)%nat.
Proof. induction s as [|c s IH]; [done|]. exact (f_equal S IH). Qed.

Lemma drop_string_split n s : (n ≤ String.length s)%nat → s = (String.substring 0 n s ++ drop_string n s)%string.
Proof.
  revert s. induction n as [|n IH]; intros s Hn; [by destruct s|]. destruct s as [|c s]; [cbn in Hn; lia|]. cbn in Hn.
  apply (f_equal (String c)), IH. lia.
Qed.

Lemma substring_app s t : String.substring 0 (String.length s) (s ++ t) = s.
Proof. induction s as [|c s IH]; [by destruct t|]. exact (f_equal (String c) IH). Qed.

Lemma HasSuffix_spec s suffix : HasSuffix s suffix = true ↔ ∃ t, s = (t ++ suffix)%string.
Proof.
  unfold HasSuffix. rewrite andb_true_iff, bool_decide_eq_true, String.eqb_eq. split.
  - intros [Hl Hd]. exists (String.substring 0 (String.length s - String.length suffix) s). rewrite <- Hd at 2.
    apply drop_string_split. lia.
  - intros [t ->]. rewrite string_length_app. split; [lia|].
    replace (String.length t + String.length suffix - String.length suffix)%nat with (String.length t) by lia.
    apply drop_string_app.
Qed.

Lemma TrimSuffix_app t suffix : TrimSuffix (t ++ suffix) suffix = t.
Proof.
  unfold TrimSuffix. assert (Hs : HasSuffix (t ++ suffix) suffix = true) by (apply HasSuffix_spec; by exists t). rewrite Hs.
  rewrite string_length_app. replace (String.length t + String.length suffix - String.length suffix)%nat with (String.length t) by lia.
  apply substring_app.
Qed.
