(* ===== verification/ControlFrame.v ===== *)
(** * Control frames ([internal/protocol/control.go], [protocol.go])

    A control message is one frame: a twelve byte header (magic, version,
    encoding, flags, big-endian payload length) and a JSON envelope.  The JSON
    encoder and decoder of [encoding/json] are the class [EnvelopeCodec]; the
    framing, the header checks, the length limits and the request-ID check are
    the definitions below. *)

From Stdlib Require Import Ascii.
From S2P Require Import Prelude NetAddr GoIO.

Local Open Scope Z_scope.

Definition Magic : list byte := [x50; x54; x57; x59].
Definition CoreVersion : Z := 1.
Definition controlHeaderSize : nat := 12.
Definition controlEncodingJSON : Z := 1.
Definition maxControlPayloadBytes : Z := 1024 * 1024.
Definition maxRequestIDBytes : Z := 128.

(** ** Roles *)

Inductive Role := RoleUnknown | RoleControl | RoleData.
#[export] Instance role_eq_dec : EqDecision Role.
Proof. solve_decision. Defined.

Definition Role_Valid (role : Role) : bool :=
  bool_decide (role = RoleControl) || bool_decide (role = RoleData).

(** ** Envelopes and errors *)

Record Envelope := {
  Type_ : string;
  RequestID : string;
  Payload : list byte
}.

#[export] Instance envelope_eq_dec : EqDecision Envelope.
Proof. solve_decision. Defined.

Inductive RequestIDError :=
| RequestIDRequired
| RequestIDTooLong
| RequestIDCharacter.

(** The reasons wrapped with [ErrInvalidControlMessage]. *)
Inductive InvalidReason :=
| BadMagic
| BadVersion
| BadEncoding
| BadFlags
| BadPayloadLength
| BadEnvelope
| TrailingValue
| MissingType
| BadRequestID (e : RequestIDError)
| MissingPayload
| BadPayload.

Inductive ControlError :=
| ErrIO (e : io_error)
| ErrRequestID (e : RequestIDError)
| ErrEncodePayload
| ErrEncodeEnvelope
| ErrPayloadTooLarge
| ErrInvalidControlMessage (reason : InvalidReason).

#[export] Instance request_id_error_eq_dec : EqDecision RequestIDError.
Proof. solve_decision. Defined.
#[export] Instance invalid_reason_eq_dec : EqDecision InvalidReason.
Proof. solve_decision. Defined.
#[export] Instance control_error_eq_dec : EqDecision ControlError.
Proof. solve_decision. Defined.

(** ** Request identifiers *)

Definition is_base64url (c : ascii) : bool :=
  let n := Z.of_N (N_of_ascii c) in
  ((97 <=? n) && (n <=? 122)) || ((65 <=? n) && (n <=? 90)) ||
  ((48 <=? n) && (n <=? 57)) || (n =? 45) || (n =? 95).

Fixpoint request_characters (s : string) : option RequestIDError :=
  match s with
  | EmptyString => None
  | String c s => if is_base64url c then request_characters s else Some RequestIDCharacter
  end.

Definition ValidateRequestID (requestID : string) : option RequestIDError :=
  if bool_decide (requestID = "") then Some RequestIDRequired
  else if maxRequestIDBytes <? Z.of_nat (String.length requestID) then Some RequestIDTooLong
  else request_characters requestID.

(** ** The JSON codec *)

(** What [decoder.Decode] finds after the first value. *)
Inductive Trailing := TrailingEOF | TrailingJSON | TrailingError.

Class EnvelopeCodec (P : Type) := {
  (** [json.Marshal] of a payload and of an envelope *)
  marshal_payload : P → option (list byte);
  marshal_envelope : Envelope → option (list byte);
  (** strict [Decode] of one value, with the input left over *)
  decode_envelope : list byte → option (Envelope * list byte);
  decode_trailing : list byte → Trailing;
  (** envelopes whose strings and payload [encoding/json] reproduces *)
  json_faithful : Envelope → Prop;
  decode_marshal e bs :
    json_faithful e → marshal_envelope e = Some bs →
    bs ≠ [] ∧ ∃ rest, decode_envelope bs = Some (e, rest) ∧ decode_trailing rest = TrailingEOF
}.

(** ** Writing *)

Definition control_header (envelopeBytes : list byte) : list byte :=
  Magic ++ [byte_of CoreVersion; byte_of controlEncodingJSON; x00; x00]
  ++ PutUint32 (Z.of_nat (length envelopeBytes)).

Section codec.
Context {P : Type} `{EnvelopeCodec P}.

Section write.
Context {W : Type} `{Writer W}.

Definition WriteControlWithRequestID
    (writer : W) (messageType requestID : string) (payload : P) :
    W * option ControlError :=
  match (if bool_decide (requestID = "") then None else ValidateRequestID requestID) with
  | Some e => (writer, Some (ErrRequestID e))
  | None =>
  match marshal_payload payload with
  | None => (writer, Some ErrEncodePayload)
  | Some payloadBytes =>
  match marshal_envelope {| Type_ := messageType; RequestID := requestID;
                            Payload := payloadBytes |} with
  | None => (writer, Some ErrEncodeEnvelope)
  | Some envelopeBytes =>
    if maxControlPayloadBytes <? Z.of_nat (length envelopeBytes)
    then (writer, Some ErrPayloadTooLarge)
    else
      match writeAll ErrShortWrite writer (control_header envelopeBytes) with
      | (writer, Some e) => (writer, Some (ErrIO e))
      | (writer, None) =>
        match writeAll ErrShortWrite writer envelopeBytes with
        | (writer, Some e) => (writer, Some (ErrIO e))
        | (writer, None) => (writer, None)
        end
      end
  end
  end
  end.

Definition WriteControl (writer : W) (messageType : string) (payload : P) :
    W * option ControlError :=
  WriteControlWithRequestID writer messageType "" payload.
End write.

(** ** Reading *)

Definition decode_control (payload : list byte) : result ControlError Envelope :=
  match decode_envelope payload with
  | None => Err (ErrInvalidControlMessage BadEnvelope)
  | Some (envelope, rest) =>
    match decode_trailing rest with
    | TrailingJSON => Err (ErrInvalidControlMessage TrailingValue)
    | TrailingError => Err (ErrInvalidControlMessage BadEnvelope)
    | TrailingEOF =>
      if bool_decide (Type_ envelope = "") then Err (ErrInvalidControlMessage MissingType)
      else if bool_decide (RequestID envelope = "") then Ok envelope
      else match ValidateRequestID (RequestID envelope) with
           | Some e => Err (ErrInvalidControlMessage (BadRequestID e))
           | None => Ok envelope
           end
    end
  end.

Definition ReadControl (reader : Reader) : Reader * result ControlError Envelope :=
  match ReadFull controlHeaderSize reader with
  | (reader, Err e) => (reader, Err (ErrIO e))
  | (reader, Ok header) =>
    if negb (bool_decide (take 4 header = Magic))
    then (reader, Err (ErrInvalidControlMessage BadMagic))
    else if negb (bool_decide (header !! 4%nat = Some (byte_of CoreVersion)))
    then (reader, Err (ErrInvalidControlMessage BadVersion))
    else if negb (bool_decide (header !! 5%nat = Some (byte_of controlEncodingJSON)))
    then (reader, Err (ErrInvalidControlMessage BadEncoding))
    else if negb (Uint16 (drop 6 header) =? 0)
    then (reader, Err (ErrInvalidControlMessage BadFlags))
    else
      let payloadLength := Uint32 (drop 8 header) in
      if (payloadLength =? 0) || (maxControlPayloadBytes <? payloadLength)
      then (reader, Err (ErrInvalidControlMessage BadPayloadLength))
      else
        match ReadFull (Z.to_nat payloadLength) reader with
        | (reader, Err e) => (reader, Err (ErrIO e))
        | (reader, Ok payload) => (reader, decode_control payload)
        end
  end.
End codec.

(** Strict decoding of a message payload into a destination of type [D]. *)
Definition DecodePayload {D : Type}
    (decode : list byte → option (D * list byte)) (trailing : list byte → Trailing)
    (envelope : Envelope) : result ControlError D :=
  if bool_decide (Payload envelope = []) then Err (ErrInvalidControlMessage MissingPayload)
  else match decode (Payload envelope) with
       | None => Err (ErrInvalidControlMessage BadPayload)
       | Some (destination, rest) =>
         match trailing rest with
         | TrailingEOF => Ok destination
         | TrailingJSON => Err (ErrInvalidControlMessage TrailingValue)
         | TrailingError => Err (ErrInvalidControlMessage BadPayload)
         end
       end.

(** ** Lemmas *)

Lemma length_control_header bs : length (control_header bs) = controlHeaderSize.
Proof. unfold control_header. rewrite !length_app, length_PutUint32. done. Qed.

(** A frame whose payload length is in range passes every header check. *)
Lemma ReadControl_frame `{EnvelopeCodec P} bs rest e :
  bs ≠ [] → Z.of_nat (length bs) <= maxControlPayloadBytes →
  ReadControl {| pending := control_header bs ++ bs ++ rest; failure := e |} =
    ({| pending := rest; failure := e |}, decode_control bs).
Proof.
  intros Hne Hlen. unfold ReadControl.
  rewrite ReadFull_app by apply length_control_header. unfold control_header.
  assert (0 < Z.of_nat (length bs)) by (destruct bs; [done|simpl; lia]).
  assert (Hu : Uint32 (drop 8 (Magic ++
    [byte_of CoreVersion; byte_of controlEncodingJSON; x00; x00] ++
    PutUint32 (Z.of_nat (length bs)))) = Z.of_nat (length bs)).
  { match goal with |- Uint32 ?l = Z.of_nat ?n =>
      change l with (PutUint32 (Z.of_nat n)) end.
    rewrite <- (app_nil_r (PutUint32 _)). apply Uint32_Put.
    unfold maxControlPayloadBytes in Hlen. lia. }
  rewrite Hu. rewrite !bool_decide_eq_true_2 by done. simpl negb. cbv iota.
  change (Uint16 _ =? 0) with true. simpl negb. cbv iota zeta.
  rewrite (proj2 (Z.eqb_neq _ _)), (proj2 (Z.ltb_ge _ _)) by lia. simpl orb. cbv iota.
  rewrite ReadFull_app by lia. done.
Qed.

Lemma request_characters_spec s :
  request_characters s = None ↔ Forall (λ c, is_base64url c = true) (String.list_ascii_of_string s).
Proof.
  induction s as [|c s IH]; simpl; [by split|].
  rewrite Forall_cons, <- IH. destruct (is_base64url c); [tauto|].
  split; [done|by intros [? _]].
Qed.

(** A twelve byte header that passes the checks is the header of its length. *)
Lemma header_canonical header :
  length header = controlHeaderSize → take 4 header = Magic →
  header !! 4%nat = Some (byte_of CoreVersion) →
  header !! 5%nat = Some (byte_of controlEncodingJSON) →
  Uint16 (drop 6 header) = 0 →
  header = Magic ++ [byte_of CoreVersion; byte_of controlEncodingJSON; x00; x00]
           ++ PutUint32 (Uint32 (drop 8 header)).
Proof.
  intros Hlen Hm Hv He Hf.
  destruct header as [|m0 [|m1 [|m2 [|m3 [|v [|en [|f0 [|f1 [|l0 [|l1 [|l2 [|l3 [|]]]]]]]]]]]]];
    try discriminate.
  simpl in Hm, Hv, He. simplify_eq.
  assert (Hp : [l0; l1; l2; l3] = PutUint32 (Uint32 [l0; l1; l2; l3])).
  { unfold PutUint32, Uint32. apply be_decode_inj; [by rewrite length_be_encode|].
    pose proof (be_decode_range [l0; l1; l2; l3]). rewrite be_decode_encode.
    rewrite wrap_small by done. by rewrite Z.mod_small. }
  assert (Hz : [f0; f1] = [x00; x00]) by (apply be_decode_inj; [done|exact Hf]).
  simplify_eq. change (drop 8 _) with [l0; l1; l2; l3]. rewrite <- Hp, <- Hm. done.
Qed.

Section properties.
Context {P : Type} `{EnvelopeCodec P}.

Lemma ReadControl_inv r r' e :
  ReadControl r = (r', Ok e) →
  ∃ bs, pending r = control_header bs ++ bs ++ pending r' ∧ failure r' = failure r ∧
        0 < Z.of_nat (length bs) <= maxControlPayloadBytes ∧ decode_control bs = Ok e.
Proof.
  unfold ReadControl. destruct (ReadFull controlHeaderSize r) as [r1 [header|]] eqn:E1; [|done].
  apply ReadFull_ok in E1 as (Hl & Hp & Hf).
  repeat (case_bool_decide; [|done]; simpl).
  destruct (Z.eqb_spec (Uint16 (drop 6 header)) 0) as [Hz|]; [|done]; simpl.
  destruct (_ || _) eqn:Hr; [done|].
  destruct (ReadFull _ r1) as [r2 [bs|]] eqn:E2; [|done]. intros ?; simplify_eq.
  apply ReadFull_ok in E2 as (Hl2 & Hp2 & Hf2).
  assert (Hrange := be_decode_range (take 4 (drop 8 header))).
  change (be_decode (take 4 (drop 8 header))) with (Uint32 (drop 8 header)) in Hrange.
  exists bs. bool_to_prop. split_and!; [|congruence|lia|lia|done].
  rewrite Hp, Hp2. f_equal. rewrite (header_canonical header) by done.
  unfold control_header. rewrite Hl2. by rewrite Z2Nat.id by lia.
Qed.

(** ** Streams of messages *)

Definition Message : Type := string * string * P.

Definition envelope_of (m : Message) : option Envelope :=
  let '(t, id, p) := m in
  bs ← marshal_payload p; Some {| Type_ := t; RequestID := id; Payload := bs |}.

Fixpoint write_messages {W} `{Writer W} (w : W) (ms : list Message) : W * option ControlError :=
  match ms with
  | [] => (w, None)
  | (t, id, p) :: ms =>
    match WriteControlWithRequestID w t id p with
    | (w, Some e) => (w, Some e)
    | (w, None) => write_messages w ms
    end
  end.

Fixpoint read_messages (n : nat) (r : Reader) : Reader * result ControlError (list Envelope) :=
  match n with
  | O => (r, Ok [])
  | S n =>
    match ReadControl r with
    | (r, Err e) => (r, Err e)
    | (r, Ok m) =>
      match read_messages n r with
      | (r, Err e) => (r, Err e)
      | (r, Ok ms) => (r, Ok (m :: ms))
      end
    end
  end.

(** One written message is one frame that decodes to its envelope. *)
Lemma WriteControl_frame {W} `{Writer W} w t id p w' :
  WriteControlWithRequestID w t id p = (w', None) →
  t ≠ "" → (∀ m, envelope_of (t, id, p) = Some m → json_faithful m) →
  ∃ m bs, envelope_of (t, id, p) = Some m ∧
    written w' = written w ++ control_header bs ++ bs ∧
    ∀ rest e, ReadControl {| pending := control_header bs ++ bs ++ rest; failure := e |} =
              ({| pending := rest; failure := e |}, Ok m).
Proof.
  unfold WriteControlWithRequestID. intros Hw Ht Hj.
  destruct (if bool_decide (id = "") then None else ValidateRequestID id) eqn:Hid; [done|].
  destruct (marshal_payload p) as [pb|] eqn:Hp; [|done].
  destruct (marshal_envelope _) as [bs|] eqn:He; [|done].
  destruct (_ <? _) eqn:Hlen; [done|]. bool_to_prop.
  destruct (writeAll _ w _) as [w1 [|]] eqn:W1; [done|].
  destruct (writeAll _ w1 _) as [w2 [|]] eqn:W2; [done|]. simplify_eq.
  apply writeAll_ok in W1, W2.
  assert (Hm : envelope_of (t, id, p) =
    Some {| Type_ := t; RequestID := id; Payload := pb |}) by (simpl; by rewrite Hp).
  destruct (decode_marshal _ _ (Hj _ Hm) He) as (Hne & rest & Hd & Htr).
  eexists _, bs. split_and!; [exact Hm|by rewrite W2, W1, <- app_assoc|].
  intros rest' e. rewrite ReadControl_frame by done. unfold decode_control.
  rewrite Hd, Htr. simpl. rewrite bool_decide_eq_false_2 by done.
  destruct (bool_decide (id = "")); [done|]. by rewrite Hid.
Qed.

Lemma write_messages_frames {W} `{Writer W} ms : ∀ w w',
  write_messages w ms = (w', None) →
  Forall (λ m, m.1.1 ≠ "" ∧ ∀ v, envelope_of m = Some v → json_faithful v) ms →
  ∃ es bytes, mapM envelope_of ms = Some es ∧ written w' = written w ++ bytes ∧
    ∀ rest e, read_messages (length ms) {| pending := bytes ++ rest; failure := e |} =
              ({| pending := rest; failure := e |}, Ok es).
Proof.
  induction ms as [|[[t id] p] ms IH]; intros w w' Hw Hok; simpl in Hw.
  { simplify_eq. exists [], []. by rewrite app_nil_r. }
  apply Forall_cons in Hok as [[Ht Hj] Hok].
  destruct (WriteControlWithRequestID w t id p) as [w1 [|]] eqn:E; [done|].
  destruct (WriteControl_frame _ _ _ _ _ E Ht Hj) as (m & bs & Hm & Hw1 & Hr).
  destruct (IH _ _ Hw Hok) as (es & bytes & Hes & Hw2 & Hrs).
  exists (m :: es), (control_header bs ++ bs ++ bytes).
  split_and!; [cbn [mapM]; by rewrite Hm; simpl; rewrite Hes| |].
  - rewrite Hw2, Hw1. by rewrite <- !app_assoc.
  - intros rest e. cbn [length read_messages]. rewrite <- !app_assoc, Hr. by rewrite Hrs.
Qed.
End properties.

Section claims.
Context {P : Type} `{EnvelopeCodec P}.

(** Control messages written one after another on a connection are read
    back, one by one and unchanged, whatever bytes follow them. *)
Theorem control_stream_roundtrip {W} `{Writer W} (ms : list Message) (w w' : W) :
  write_messages w ms = (w', None) →
  Forall (λ m, m.1.1 ≠ "" ∧ ∀ v, envelope_of m = Some v → json_faithful v) ms →
  ∃ es bytes, mapM envelope_of ms = Some es ∧ written w' = written w ++ bytes ∧
    ∀ rest e, read_messages (length ms) {| pending := bytes ++ rest; failure := e |} =
              ({| pending := rest; failure := e |}, Ok es).
Proof. apply write_messages_frames. Qed.

(** The reader accepts a frame exactly when the input starts with the
    header the writer emits for a payload of 1 byte to 1 MiB, followed by
    that payload, and the payload decodes; it then consumes exactly that
    frame. *)
Theorem read_control_accepts r r' e :
  ReadControl r = (r', Ok e) ↔
  ∃ bs, pending r = control_header bs ++ bs ++ pending r' ∧ failure r' = failure r ∧
        0 < Z.of_nat (length bs) <= maxControlPayloadBytes ∧ decode_control bs = Ok e.
Proof.
  split; [apply ReadControl_inv|]. intros (bs & Hp & Hf & [Hpos Hle] & Hd).
  destruct r as [p f], r' as [p' f']; cbn [pending failure] in *; subst. rewrite ReadControl_frame; try done.
  - by rewrite Hd.
  - intros ->. simpl in Hpos. lia.
Qed.

(** Whatever the peer sends, one call consumes a prefix of the input of
    at most twelve bytes plus 1 MiB: a length field cannot make the reader
    take more. *)
Theorem read_control_bounded r :
  let '(r', _) := ReadControl r in
  ∃ consumed, pending r = consumed ++ pending r' ∧
    Z.of_nat (length consumed) <= Z.of_nat controlHeaderSize + maxControlPayloadBytes.
Proof.
  assert (Hfull : ∀ n r1 r2 o, ReadFull n r1 = (r2, o) →
    ∃ c, pending r1 = c ++ pending r2 ∧ (length c <= n)%nat).
  { intros n r1 r2 o. unfold ReadFull. case_decide; intros; simplify_eq/=.
    - exists (take n (pending r1)). rewrite take_drop, length_take. split; [done|lia].
    - exists (pending r1). rewrite app_nil_r. split; [done|lia]. }
  unfold ReadControl. destruct (ReadFull controlHeaderSize r) as [r1 o] eqn:E1.
  apply Hfull in E1 as (c1 & Hp1 & Hl1).
  assert (Hdone : ∃ consumed, pending r = consumed ++ pending r1 ∧
    Z.of_nat (length consumed) <= Z.of_nat controlHeaderSize + maxControlPayloadBytes).
  { exists c1. split; [done|]. unfold maxControlPayloadBytes. lia. }
  destruct o as [header|]; [|done]. do 4 (destruct (negb _); [done|]). cbv zeta.
  destruct (_ || _) eqn:Hr; [done|]. bool_to_prop.
  destruct (ReadFull _ r1) as [r2 o2] eqn:E2. apply Hfull in E2 as (c2 & Hp2 & Hl2).
  assert (∃ consumed, pending r = consumed ++ pending r2 ∧
    Z.of_nat (length consumed) <= Z.of_nat controlHeaderSize + maxControlPayloadBytes).
  { exists (c1 ++ c2). rewrite Hp1, Hp2, <- app_assoc, length_app. split; [done|].
    unfold maxControlPayloadBytes in *. lia. }
  by destruct o2.
Qed.
End claims.

(** A request identifier is accepted exactly when it has 1 to 128
    characters, all of the unpadded Base64URL alphabet. *)
Theorem validate_request_id_spec id :
  ValidateRequestID id = None ↔
  (1 <= String.length id <= 128)%nat ∧
  Forall (λ c, is_base64url c = true) (String.list_ascii_of_string id).
Proof.
  unfold ValidateRequestID. rewrite <- request_characters_spec.
  case_bool_decide; subst; simpl; [split; [done|lia]|].
  assert (1 <= String.length id)%nat by (destruct id; [done|simpl; lia]).
  unfold maxRequestIDBytes. destruct (Z.ltb_spec 128 (Z.of_nat (String.length id))).
  - split; [done|lia].
  - split; [split; [lia|done]|tauto].
Qed.

(** ** Witnesses *)

Definition ping : Envelope := {| Type_ := "ping"; RequestID := "r1"; Payload := [x7b; x7d] |}.

(** A codec that knows one envelope. *)
#[local] Instance ping_codec : EnvelopeCodec unit.
Proof.
  refine {|
    marshal_payload _ := Some [x7b; x7d];
    marshal_envelope e := if bool_decide (e = ping) then Some [x2a; x2a] else None;
    decode_envelope bs := if bool_decide (bs = [x2a; x2a]) then Some (ping, []) else None;
    decode_trailing bs := if bool_decide (bs = []) then TrailingEOF else TrailingJSON;
    json_faithful _ := True
  |}.
  intros e bs _. case_bool_decide; intros; simplify_eq. split; [done|]. by exists [].
Defined.

Lemma control_stream_roundtrip_witness :
  ∃ es bytes, mapM envelope_of [("ping", "r1", tt); ("ping", "r1", tt)] = Some es ∧
    bytes = accepted (fst (write_messages {| accepted := []; room := 100 |}
                             [("ping", "r1", tt); ("ping", "r1", tt)])) ∧
    read_messages 2 {| pending := bytes ++ [x00]; failure := ErrEOF |} =
      ({| pending := [x00]; failure := ErrEOF |}, Ok es).
Proof.
  destruct (control_stream_roundtrip [("ping", "r1", tt); ("ping", "r1", tt)]
    {| accepted := []; room := 100 |}
    (fst (write_messages {| accepted := []; room := 100 |}
            [("ping", "r1", tt); ("ping", "r1", tt)])))
    as (es & bytes & Hes & Hw & Hr).
  - vm_compute. reflexivity.
  - repeat constructor; done.
  - exists es, bytes. split; [exact Hes|]. split; [symmetry; exact Hw|apply Hr].
Defined.
