(* ===== verification/Packet.v ===== *)
(** * IPv4 packets and flow identity ([internal/vnet/packet])

    [ParseIPv4] validates one unfragmented TCP or UDP packet; indexing outside
    the packet would panic in Go and is the error [PacketPanic] here, which
    the theorems exclude.  [MakeKey] and [ChannelIndex] identify a flow
    independently of its direction. *)

From S2P Require Import Prelude NetAddr GoIO.

Local Open Scope Z_scope.

Definition ipv4MinimumHeaderLength : Z := 20.
Definition ProtocolTCP : Z := 6.
Definition ProtocolUDP : Z := 17.

Record Flow := {
  Protocol : Z;
  SourceIP : Addr;
  SourcePort : Z;
  DestinationIP : Addr;
  DestinationPort : Z;
  TCPFlags : Z
}.

#[export] Instance flow_eq_dec : EqDecision Flow.
Proof. solve_decision. Defined.

Definition IsTCPStart (flow : Flow) : bool :=
  (Protocol flow =? ProtocolTCP) && negb (Z.land (TCPFlags flow) 0x02 =? 0)
  && (Z.land (TCPFlags flow) 0x10 =? 0).

Definition IsTCPReset (flow : Flow) : bool :=
  (Protocol flow =? ProtocolTCP) && negb (Z.land (TCPFlags flow) 0x04 =? 0).

Inductive PacketError :=
| InvalidHeader
| InvalidHeaderLength
| TotalLengthMismatch
| Fragmented
| UnsupportedProtocol
| TruncatedTransport
| ZeroPort
| InvalidTCPHeaderLength
| InvalidUDPLength
| PacketPanic.

#[export] Instance packet_error_eq_dec : EqDecision PacketError.
Proof. solve_decision. Defined.

(** [packet[i]] *)
Definition index (packet : list byte) (i : Z) : result PacketError Z :=
  if i <? 0 then Err PacketPanic
  else match packet !! Z.to_nat i with
       | Some b => Ok (byte_val b)
       | None => Err PacketPanic
       end.

(** [binary.BigEndian.Uint16(packet[i : i+2])] *)
Definition uint16_at (packet : list byte) (i : Z) : result PacketError Z :=
  let! hi := index packet i in
  let! lo := index packet (i + 1) in
  Ok (hi * 256 + lo).

(** [netip.AddrFrom4([4]byte(packet[i : i+4]))] *)
Definition addr_at (packet : list byte) (i : Z) : result PacketError Addr :=
  let! a := index packet i in
  let! b := index packet (i + 1) in
  let! c := index packet (i + 2) in
  let! d := index packet (i + 3) in
  Ok (Addr4 (IP4 (byte_of a) (byte_of b) (byte_of c) (byte_of d))).

Definition ParseIPv4 (packet : list byte) : result PacketError Flow :=
  let len := Z.of_nat (length packet) in
  if len <? ipv4MinimumHeaderLength then Err InvalidHeader else
  let! b0 := index packet 0 in
  if negb (Z.shiftr b0 4 =? 4) then Err InvalidHeader else
  let headerLength := Z.land b0 0x0f * 4 in
  if (headerLength <? ipv4MinimumHeaderLength) || (len <? headerLength)
  then Err InvalidHeaderLength else
  let! totalLength := uint16_at packet 2 in
  if negb (totalLength =? len) then Err TotalLengthMismatch else
  let! fragment := uint16_at packet 6 in
  if negb (Z.land fragment 0x3fff =? 0) then Err Fragmented else
  let! protocol := index packet 9 in
  if negb (protocol =? ProtocolTCP) && negb (protocol =? ProtocolUDP)
  then Err UnsupportedProtocol else
  let minimumTransportLength := if protocol =? ProtocolTCP then 20 else 8 in
  if totalLength <? headerLength + minimumTransportLength then Err TruncatedTransport else
  let! sourceIP := addr_at packet 12 in
  let! sourcePort := uint16_at packet headerLength in
  let! destinationIP := addr_at packet 16 in
  let! destinationPort := uint16_at packet (headerLength + 2) in
  if (sourcePort =? 0) || (destinationPort =? 0) then Err ZeroPort else
  let flow flags := {| Protocol := protocol; SourceIP := sourceIP; SourcePort := sourcePort;
                       DestinationIP := destinationIP; DestinationPort := destinationPort;
                       TCPFlags := flags |} in
  if protocol =? ProtocolTCP then
    let! offset := index packet (headerLength + 12) in
    let tcpHeaderLength := Z.shiftr offset 4 * 4 in
    if (tcpHeaderLength <? 20) || (totalLength <? headerLength + tcpHeaderLength)
    then Err InvalidTCPHeaderLength else
    let! flags := index packet (headerLength + 13) in
    Ok (flow flags)
  else
    let! udpLength := uint16_at packet (headerLength + 4) in
    if (udpLength <? 8) || negb (headerLength + udpLength =? totalLength)
    then Err InvalidUDPLength else
    Ok (flow 0).

(** ** Flow identity *)

Record Key := {
  KeyProtocol : Z;
  FirstIP : ip4;
  FirstPort : Z;
  SecondIP : ip4;
  SecondPort : Z
}.

#[export] Instance key_eq_dec : EqDecision Key.
Proof. solve_decision. Defined.
#[export] Instance key_countable : Countable Key.
Proof.
  refine (inj_countable'
    (λ k, (KeyProtocol k, FirstIP k, FirstPort k, SecondIP k, SecondPort k))
    (λ '(p, a, x, b, y), {| KeyProtocol := p; FirstIP := a; FirstPort := x;
                            SecondIP := b; SecondPort := y |}) _).
  by intros [].
Defined.

Definition endpointLess (leftIP : Addr) (leftPort : Z) (rightIP : Addr) (rightPort : Z) : bool :=
  match Compare leftIP rightIP with
  | Lt => true
  | Eq => leftPort <? rightPort
  | Gt => false
  end.

(** The endpoints of a flow, the smaller one first. *)
Definition ordered_endpoints (flow : Flow) : (Addr * Z) * (Addr * Z) :=
  let first := (SourceIP flow, SourcePort flow) in
  let second := (DestinationIP flow, DestinationPort flow) in
  if endpointLess second.1 second.2 first.1 first.2 then (second, first) else (first, second).

(** [As4] panics unless both addresses are IPv4 (or mapped). *)
Definition MakeKey (flow : Flow) : option Key :=
  let '((firstIP, firstPort), (secondIP, secondPort)) := ordered_endpoints flow in
  first ← As4 firstIP;
  second ← As4 secondIP;
  Some {| KeyProtocol := Protocol flow; FirstIP := first; FirstPort := firstPort;
          SecondIP := second; SecondPort := secondPort |}.

Definition ip4_bytes (a : ip4) : list byte := [oct0 a; oct1 a; oct2 a; oct3 a].

(** The thirteen byte encoding that [ChannelIndex] hashes and that
    [peerFlowKey] uses as a map key. *)
Definition key_bytes (k : Key) : list byte :=
  [byte_of (KeyProtocol k)] ++ ip4_bytes (FirstIP k) ++ PutUint16 (FirstPort k)
  ++ ip4_bytes (SecondIP k) ++ PutUint16 (SecondPort k).

Inductive ChannelError := ChannelCount | ChannelFlow | ChannelPanic.

Section channel.
(** [sha256.Sum256] *)
Context (sha256 : list byte → list byte).

Definition ChannelIndex (flow : Flow) (channelCount : Z) : result ChannelError Z :=
  if (channelCount =? 0) || (8 <? channelCount) then Err ChannelCount
  else if negb (Is4 (SourceIP flow)) || negb (Is4 (DestinationIP flow)) ||
          (negb (Protocol flow =? ProtocolTCP) && negb (Protocol flow =? ProtocolUDP))
  then Err ChannelFlow
  else match MakeKey flow with
       | None => Err ChannelPanic
       | Some key => Ok (u8 (Uint64 (sha256 (key_bytes key)) `mod` channelCount))
       end.
End channel.

(** The same packet seen from the other end. *)
Definition reverse_flow (flow : Flow) (flags : Z) : Flow :=
  {| Protocol := Protocol flow;
     SourceIP := DestinationIP flow; SourcePort := DestinationPort flow;
     DestinationIP := SourceIP flow; DestinationPort := SourcePort flow;
     TCPFlags := flags |}.

(** A flow as [ParseIPv4] produces it. *)
Definition wf_flow (flow : Flow) : Prop :=
  Is4 (SourceIP flow) = true ∧ Is4 (DestinationIP flow) = true ∧
  (Protocol flow = ProtocolTCP ∨ Protocol flow = ProtocolUDP) ∧
  0 < SourcePort flow < 2 ^ 16 ∧ 0 < DestinationPort flow < 2 ^ 16 ∧
  0 <= TCPFlags flow < 2 ^ 8.

(** ** Parsing lemmas *)

Lemma index_in_range packet i :
  0 <= i < Z.of_nat (length packet) →
  ∃ b, packet !! Z.to_nat i = Some b ∧ index packet i = Ok (byte_val b).
Proof.
  intros Hi. unfold index. rewrite (proj2 (Z.ltb_ge i 0)) by lia.
  destruct (lookup_lt_is_Some_2 packet (Z.to_nat i)) as [b Hb]; [lia|].
  exists b. by rewrite Hb.
Qed.

Lemma uint16_at_in_range packet i :
  0 <= i → i + 1 < Z.of_nat (length packet) →
  ∃ v, uint16_at packet i = Ok v ∧ 0 <= v < 2 ^ 16.
Proof.
  intros. unfold uint16_at.
  destruct (index_in_range packet i) as (a & _ & ->); [lia|].
  destruct (index_in_range packet (i + 1)) as (b & _ & ->); [lia|].
  pose proof (byte_val_range a). pose proof (byte_val_range b). eexists. split; [done|lia].
Qed.

Lemma addr_at_in_range packet i :
  0 <= i → i + 3 < Z.of_nat (length packet) → ∃ a, addr_at packet i = Ok (Addr4 a).
Proof.
  intros. unfold addr_at.
  destruct (index_in_range packet i) as (a & _ & ->); [lia|].
  destruct (index_in_range packet (i + 1)) as (b & _ & ->); [lia|].
  destruct (index_in_range packet (i + 2)) as (c & _ & ->); [lia|].
  destruct (index_in_range packet (i + 3)) as (d & _ & ->); [lia|].
  by eexists.
Qed.

(** Take the next read of the parser, which is in range. *)
Ltac parse_step :=
  match goal with
  | |- match (match ?c with Ok _ => _ | Err _ => _ end) with Ok _ => _ | Err _ => _ end =>
      lazymatch c with
      | index ?p ?i =>
          let b := fresh "b" in
          destruct (index_in_range p i) as (b & _ & ->); [lia|];
          pose proof (byte_val_range b)
      | uint16_at ?p ?i =>
          let v := fresh "v" in
          destruct (uint16_at_in_range p i) as (v & -> & ?); [lia|lia|]
      | addr_at ?p ?i =>
          let a := fresh "a" in
          destruct (addr_at_in_range p i) as (a & ->); [lia|lia|]
      end
  end.

Lemma ParseIPv4_wf packet :
  match ParseIPv4 packet with
  | Ok flow => wf_flow flow
  | Err e => e ≠ PacketPanic
  end.
Proof.
  unfold ParseIPv4. cbv zeta. unfold ipv4MinimumHeaderLength.
  destruct (Z.ltb_spec (Z.of_nat (length packet)) 20); [done|].
  parse_step. destruct (negb _); [done|].
  set (hl := Z.land (byte_val b) 15 * 4).
  destruct (_ || _) eqn:Hhl; [done|]. bool_to_prop.
  parse_step. destruct (negb (v =? _)) eqn:Hv; [done|]. bool_to_prop. subst v.
  parse_step. destruct (negb _); [done|].
  parse_step. destruct (negb (byte_val b0 =? _) && _) eqn:Hp; [done|].
  assert (Hproto : byte_val b0 = ProtocolTCP ∨ byte_val b0 = ProtocolUDP).
  { bool_to_prop. destruct Hp; bool_to_prop; auto. }
  destruct (_ <? hl + _) eqn:Ht; [done|]. bool_to_prop.
  assert (hl + 8 <= Z.of_nat (length packet)) by (destruct (_ =? _) in Ht; lia).
  do 4 parse_step. destruct (_ || _) eqn:Hz; [done|]. bool_to_prop.
  destruct (Z.eqb_spec (byte_val b0) ProtocolTCP) as [Htcp|Htcp].
  - parse_step. destruct (_ || _); [done|]. parse_step.
    unfold wf_flow; simpl. split_and!; done || lia || auto.
  - parse_step. destruct (_ || _); [done|].
    unfold wf_flow; simpl. split_and!; done || lia || auto.
Qed.

(** ** Flow identity lemmas *)

Definition endpoints (flow : Flow) : (Addr * Z) * (Addr * Z) :=
  ((SourceIP flow, SourcePort flow), (DestinationIP flow, DestinationPort flow)).

Lemma wf_flow_ip4 flow :
  wf_flow flow → ∃ s d, SourceIP flow = Addr4 s ∧ DestinationIP flow = Addr4 d.
Proof. intros (Hs & Hd & _). apply Is4_inv in Hs as [s ?], Hd as [d ?]. eauto. Qed.

(** An endpoint as a number: the comparison of endpoints is a comparison of
    numbers. *)
Definition endpoint_rank (a : ip4) (port : Z) : Z := ip4_val a * 2 ^ 16 + port.

Lemma endpointLess_rank a p b q :
  0 <= p < 2 ^ 16 → 0 <= q < 2 ^ 16 →
  endpointLess (Addr4 a) p (Addr4 b) q = (endpoint_rank a p <? endpoint_rank b q).
Proof.
  intros. unfold endpointLess, endpoint_rank. rewrite Compare_4.
  destruct (Z.compare_spec (ip4_val a) (ip4_val b)), (Z.ltb_spec p q);
    destruct (Z.ltb_spec (ip4_val a * 2 ^ 16 + p) (ip4_val b * 2 ^ 16 + q)); lia.
Qed.

Lemma endpoint_rank_inj a p b q :
  0 <= p < 2 ^ 16 → 0 <= q < 2 ^ 16 →
  endpoint_rank a p = endpoint_rank b q → a = b ∧ p = q.
Proof.
  unfold endpoint_rank. intros. assert (ip4_val a = ip4_val b ∧ p = q) as [E ->] by lia.
  split; [by apply ip4_val_inj|done].
Qed.

Lemma MakeKey_total flow : wf_flow flow → is_Some (MakeKey flow).
Proof.
  intros (s & d & Hs & Hd)%wf_flow_ip4. unfold MakeKey, ordered_endpoints.
  rewrite Hs, Hd; simpl. destruct (endpointLess _ _ _ _); simpl; eauto.
Qed.

Lemma MakeKey_cases flow s d :
  wf_flow flow → SourceIP flow = Addr4 s → DestinationIP flow = Addr4 d →
  let k x p y q := {| KeyProtocol := Protocol flow; FirstIP := x; FirstPort := p;
                      SecondIP := y; SecondPort := q |} in
  MakeKey flow =
    if endpoint_rank d (DestinationPort flow) <? endpoint_rank s (SourcePort flow)
    then Some (k d (DestinationPort flow) s (SourcePort flow))
    else Some (k s (SourcePort flow) d (DestinationPort flow)).
Proof.
  intros (_ & _ & _ & ? & ? & _) Hs Hd. unfold MakeKey, ordered_endpoints.
  rewrite Hs, Hd; cbn [fst snd]. rewrite endpointLess_rank by lia.
  by destruct (_ <? _).
Qed.

Lemma wf_reverse flow flags :
  wf_flow flow → 0 <= flags < 2 ^ 8 → wf_flow (reverse_flow flow flags).
Proof. intros (? & ? & ? & ? & ? & ?) ?. repeat split; simpl; done || lia. Qed.

Lemma MakeKey_reverse flow flags :
  wf_flow flow → 0 <= flags < 2 ^ 8 → MakeKey (reverse_flow flow flags) = MakeKey flow.
Proof.
  intros Hwf Hflags. destruct (wf_flow_ip4 _ Hwf) as (s & d & Hs & Hd).
  rewrite (MakeKey_cases flow s d), (MakeKey_cases (reverse_flow flow flags) d s)
    by (done || by apply wf_reverse). simpl.
  destruct Hwf as (_ & _ & _ & ? & ? & _).
  destruct (Z.ltb_spec (endpoint_rank s (SourcePort flow)) (endpoint_rank d (DestinationPort flow))),
    (Z.ltb_spec (endpoint_rank d (DestinationPort flow)) (endpoint_rank s (SourcePort flow)));
    try done; try lia.
  destruct (endpoint_rank_inj s (SourcePort flow) d (DestinationPort flow)) as [-> ->]; lia || done.
Qed.

Lemma length_key_bytes k : length (key_bytes k) = 13%nat.
Proof. unfold key_bytes. rewrite !length_app, !length_PutUint16. done. Qed.

(** [testpacket.IPv4]: the packet builder of the source tree. *)
Definition IPv4 (protocol : Z) (sourceIP : ip4) (sourcePort : Z)
    (destinationIP : ip4) (destinationPort : Z) : list byte :=
  let size : nat := if protocol =? 6 then 40%nat else if protocol =? 17 then 28%nat else 24%nat in
  let packet := replicate size x00 in
  let len := Z.of_nat (length packet) in
  let packet := put_at 0 [x45] packet in
  let packet := put_at 2 (PutUint16 len) packet in
  let packet := put_at 8 [x40] packet in
  let packet := put_at 9 [byte_of protocol] packet in
  let packet := put_at 12 (ip4_bytes sourceIP) packet in
  let packet := put_at 16 (ip4_bytes destinationIP) packet in
  let packet := put_at 20 (PutUint16 sourcePort) packet in
  let packet := put_at 22 (PutUint16 destinationPort) packet in
  if protocol =? 6 then put_at 33 [x02] (put_at 32 [x50] packet)
  else if protocol =? 17 then put_at 24 (PutUint16 (len - 20)) packet
  else packet.

Lemma uint16_bytes v :
  0 <= v < 2 ^ 16 →
  ∃ hi lo, PutUint16 v = [hi; lo] ∧ byte_val hi * 256 + byte_val lo = v.
Proof.
  intros Hv. exists (byte_of (v / 256)), (byte_of v). unfold PutUint16.
  rewrite wrap_small by done. split; [done|]. rewrite !byte_val_of. unfold wrap.
  change (2 ^ 8) with 256. rewrite (Z.mod_small (v / 256)).
  - pose proof (Z.div_mod v 256). lia.
  - split; [apply Z.div_pos; lia|apply Z.div_lt_upper_bound; lia].
Qed.

(** ** Theorems *)

(** Parsing is memory safe on every input (no index is out of range), and
    an accepted packet yields an IPv4 TCP or UDP flow with non-zero ports. *)
Theorem parse_ipv4_safe packet :
  match ParseIPv4 packet with
  | Ok flow => wf_flow flow
  | Err e => e ≠ PacketPanic
  end.
Proof. apply ParseIPv4_wf. Qed.

(** A built TCP or UDP packet parses to the flow it was built for; a TCP
    packet is recognised as the start of a flow. *)
Theorem parse_ipv4_roundtrip protocol s sp d dp :
  protocol = ProtocolTCP ∨ protocol = ProtocolUDP →
  0 < sp < 2 ^ 16 → 0 < dp < 2 ^ 16 →
  ParseIPv4 (IPv4 protocol s sp d dp) =
    Ok {| Protocol := protocol; SourceIP := Addr4 s; SourcePort := sp;
          DestinationIP := Addr4 d; DestinationPort := dp;
          TCPFlags := if protocol =? ProtocolTCP then 2 else 0 |}.
Proof.
  intros Hp Hs Hd. destruct s as [s0 s1 s2 s3], d as [d0 d1 d2 d3].
  destruct (uint16_bytes sp) as (sh & sl & Esp & Hsp); [lia|].
  destruct (uint16_bytes dp) as (dh & dl & Edp & Hdp); [lia|].
  destruct Hp as [-> | ->]; unfold IPv4; rewrite Esp, Edp; unfold ParseIPv4, uint16_at, addr_at, index;
    simpl; rewrite Hsp, Hdp; rewrite (proj2 (Z.eqb_neq sp 0)), (proj2 (Z.eqb_neq dp 0)) by lia;
    simpl; rewrite !byte_of_val; done.
Qed.

(** Two parsed packets have the same key exactly when they have the same
    protocol and the same two endpoints, in either direction. *)
Theorem make_key_identity f g :
  wf_flow f → wf_flow g →
  MakeKey f = MakeKey g ↔
    Protocol f = Protocol g ∧
    (endpoints f = endpoints g ∨ endpoints f = ((endpoints g).2, (endpoints g).1)).
Proof.
  intros Hf Hg.
  destruct (wf_flow_ip4 _ Hf) as (s & d & Hs & Hd), (wf_flow_ip4 _ Hg) as (s' & d' & Hs' & Hd').
  unfold endpoints. split.
  - rewrite (MakeKey_cases f s d), (MakeKey_cases g s' d') by done. simpl.
    rewrite Hs, Hd, Hs', Hd'. do 2 case_match; intros E; injection E as -> -> -> -> ->; split; auto.
  - assert (Hflags : 0 <= TCPFlags f < 2 ^ 8) by apply Hf.
    intros [Hp [E|E]]; injection E as E1 E2 E3 E4;
      [|rewrite <- (MakeKey_reverse g (TCPFlags f)) by done];
      unfold MakeKey, ordered_endpoints; simpl; by rewrite Hp, E1, E2, E3, E4.
Qed.

(** Both directions of a flow use the same channel, and its index is below
    the channel count (1 to 8), whatever the hash function. *)
Theorem channel_index_stable sha256 flow flags channelCount :
  wf_flow flow → 0 <= flags < 2 ^ 8 → 1 <= channelCount <= 8 →
  ∃ i, ChannelIndex sha256 flow channelCount = Ok i ∧
       ChannelIndex sha256 (reverse_flow flow flags) channelCount = Ok i ∧
       0 <= i < channelCount.
Proof.
  intros Hwf Hfl Hc. unfold ChannelIndex.
  rewrite (proj2 (Z.eqb_neq channelCount 0)), (proj2 (Z.ltb_ge 8 channelCount)) by lia.
  rewrite MakeKey_reverse by done. destruct (MakeKey_total _ Hwf) as [k ->].
  destruct Hwf as (H1 & H2 & Hp & _). cbn [SourceIP DestinationIP Protocol reverse_flow].
  rewrite H1, H2. simpl.
  assert (negb (Protocol flow =? ProtocolTCP) && negb (Protocol flow =? ProtocolUDP) = false) as ->.
  { destruct Hp as [-> | ->]; done. }
  simpl. eexists. split_and!; [done|done|..];
  assert (Hm := Z.mod_pos_bound (Uint64 (sha256 (key_bytes k))) channelCount ltac:(lia));
  rewrite wrap_small; lia.
Qed.

(** ** Witnesses *)

Definition addr_a : ip4 := IP4 xac x14 x00 x02.
Definition addr_b : ip4 := IP4 xac x14 x00 x03.
Definition flow_ab : Flow :=
  {| Protocol := ProtocolTCP; SourceIP := Addr4 addr_a; SourcePort := 50000;
     DestinationIP := Addr4 addr_b; DestinationPort := 443; TCPFlags := 2 |}.

Lemma flow_ab_wf : wf_flow flow_ab.
Proof. repeat split; try done. by left. Qed.

Lemma parse_ipv4_roundtrip_witness :
  ParseIPv4 (IPv4 ProtocolTCP addr_a 50000 addr_b 443) = Ok flow_ab.
Proof. apply (parse_ipv4_roundtrip ProtocolTCP addr_a 50000 addr_b 443); [left; reflexivity|lia|lia]. Defined.

Lemma make_key_identity_witness :
  MakeKey flow_ab = MakeKey (reverse_flow flow_ab 16).
Proof.
  apply (make_key_identity flow_ab (reverse_flow flow_ab 16)).
  - exact flow_ab_wf.
  - apply wf_reverse; [exact flow_ab_wf|lia].
  - split; [reflexivity|right; reflexivity].
Defined.

Lemma channel_index_stable_witness :
  ∃ i, ChannelIndex (λ bs, bs) flow_ab 4 = Ok i ∧
       ChannelIndex (λ bs, bs) (reverse_flow flow_ab 16) 4 = Ok i ∧ 0 <= i < 4.
Proof. apply (channel_index_stable (λ bs, bs) flow_ab 16 4); [exact flow_ab_wf|lia|lia]. Defined.
