(* ===== verification/Framing.v ===== *)
(** * Datagram and packet records ([internal/proxy/udp/framing.go],
      [internal/vnet/frame.go])

    UDP payloads and VNet packets travel over byte streams as length-prefixed
    records.  Each component has its own header, limits and errors. *)

From S2P Require Import Prelude NetAddr GoIO.

Local Open Scope Z_scope.

(** ** UDP datagrams *)

Module Datagram.

Definition frameHeaderSize : nat := 4.

Inductive Error :=
| ErrInvalidFrame
| ErrIO (e : io_error).

#[export] Instance error_eq_dec : EqDecision Error.
Proof. solve_decision. Defined.

(** [io.ReadFull] of a payload: a clean end of stream inside a record is
  unexpected. *)
Definition read_payload (n : nat) (reader : Reader) : Reader * result Error (list byte) :=
match ReadFull n reader with
| (reader, Ok payload) => (reader, Ok payload)
| (reader, Err ErrEOF) => (reader, Err (ErrIO ErrUnexpectedEOF))
| (reader, Err e) => (reader, Err (ErrIO e))
end.

Definition readDatagramLength (reader : Reader) (maxSize : Z) : Reader * result Error Z :=
match ReadFull frameHeaderSize reader with
| (reader, Err e) => (reader, Err (ErrIO e))
| (reader, Ok header) =>
  let length := Uint32 header in
  if u64 maxSize <? u64 length then (reader, Err ErrInvalidFrame)
  else (reader, Ok length)
end.

Definition ReadDatagram (reader : Reader) (maxSize : Z) : Reader * result Error (list byte) :=
match readDatagramLength reader maxSize with
| (reader, Err e) => (reader, Err e)
| (reader, Ok length) => read_payload (Z.to_nat length) reader
end.

(** [capacity] is [cap(buffer)] of the caller's storage. *)
Definition ReadDatagramInto (reader : Reader) (capacity maxSize : Z) :
  Reader * result Error (list byte) :=
match readDatagramLength reader maxSize with
| (reader, Err e) => (reader, Err e)
| (reader, Ok length) =>
  if capacity <? length then (reader, Err ErrInvalidFrame)
  else read_payload (Z.to_nat length) reader
end.

Section write.
Context {W : Type} `{Writer W}.

Definition io_result (r : W * option io_error) : W * option Error :=
  (r.1, ErrIO <$> r.2).

Definition WriteDatagram (writer : W) (payload : list byte) (maxSize : Z) : W * option Error :=
  if maxSize <? Z.of_nat (length payload) then (writer, Some ErrInvalidFrame)
  else
    match writeAll ErrNoProgress writer (PutUint32 (Z.of_nat (length payload))) with
    | (writer, Some e) => (writer, Some (ErrIO e))
    | (writer, None) => io_result (writeAll ErrNoProgress writer payload)
    end.

(** [buffer] is the storage behind the slice: its length is its capacity. *)
Definition writeDatagramBuffer (writer : W) (payload : list byte) (maxSize : Z)
    (buffer : list byte) : W * option Error :=
  if maxSize <? Z.of_nat (length payload) then (writer, Some ErrInvalidFrame)
  else
    let size := (frameHeaderSize + length payload)%nat in
    let buffer := if decide (length buffer < size)%nat then replicate size x00 else buffer in
    let buffer := take size buffer in
    let buffer := put_at 0 (PutUint32 (Z.of_nat (length payload))) buffer in
    let buffer := put_at frameHeaderSize payload buffer in
    io_result (writeAll ErrNoProgress writer buffer).

Record DatagramWriter := { writer : W; maxSize : Z; buffer : list byte }.

Definition NewDatagramWriter (w : W) (maxSize : Z) : DatagramWriter :=
  {| writer := w; maxSize := maxSize;
     buffer := replicate (frameHeaderSize + Z.to_nat maxSize) x00 |}.

Definition DatagramWriter_Write (dw : DatagramWriter) (payload : list byte) :
    DatagramWriter * option Error :=
  let '(w, err) := writeDatagramBuffer (writer dw) payload (maxSize dw) (buffer dw) in
  ({| writer := w; maxSize := maxSize dw; buffer := buffer dw |}, err).
End write.

(** The record of a datagram on the wire. *)
Definition frame (payload : list byte) : list byte :=
PutUint32 (Z.of_nat (length payload)) ++ payload.

Lemma buffer_frame (payload buffer : list byte) :
(frameHeaderSize + length payload <= length buffer)%nat →
put_at frameHeaderSize payload
  (put_at 0 (PutUint32 (Z.of_nat (length payload)))
     (take (frameHeaderSize + length payload) buffer)) = frame payload.
Proof.
intros Hl. unfold put_at at 2. rewrite take_0. cbn [app Nat.add].
rewrite length_PutUint32. unfold put_at, frame.
rewrite take_app_length' by (by rewrite length_PutUint32). f_equal.
rewrite drop_ge; [by rewrite app_nil_r|].
rewrite length_app, length_drop, length_take, length_PutUint32. unfold frameHeaderSize in *. lia.
Qed.

Lemma ReadDatagram_frame payload rest e maxSize :
Z.of_nat (length payload) <= maxSize < 2 ^ 63 → Z.of_nat (length payload) < 2 ^ 32 →
ReadDatagram {| pending := frame payload ++ rest; failure := e |} maxSize =
  ({| pending := rest; failure := e |}, Ok payload).
Proof.
intros Hm Hl. unfold ReadDatagram, readDatagramLength, frame. rewrite <- app_assoc.
rewrite ReadFull_app by apply length_PutUint32.
rewrite <- (app_nil_r (PutUint32 _)), Uint32_Put by lia.
rewrite !wrap_small by lia. rewrite (proj2 (Z.ltb_ge _ _)) by lia.
unfold read_payload. by rewrite ReadFull_app by lia.
Qed.

Lemma written_frame {W} `{Writer W} (w w' : W) payload buffer maxSize :
writeDatagramBuffer w payload maxSize buffer = (w', None) →
written w' = written w ++ frame payload ∧ Z.of_nat (length payload) <= maxSize.
Proof.
unfold writeDatagramBuffer. destruct (Z.ltb_spec maxSize (Z.of_nat (length payload))); [done|].
cbv zeta. rewrite buffer_frame by (case_decide; rewrite ?length_replicate; lia).
unfold io_result. destruct (writeAll _ w _) as [w1 [|]] eqn:E; simpl; [done|].
intros; simplify_eq. apply writeAll_ok in E. done.
Qed.

(** ** Theorems *)

(** The pooled-buffer writer and the plain writer put exactly the same
  bytes on the connection when they succeed, for every payload, limit and
  previous buffer content. *)
Theorem buffered_write_equiv {W} `{Writer W} (w w1 w2 : W) payload limit storage :
WriteDatagram w payload limit = (w1, None) →
writeDatagramBuffer w payload limit storage = (w2, None) →
written w1 = written w2.
Proof.
intros H1 [H2 _]%written_frame. rewrite H2. revert H1. unfold WriteDatagram.
case_match; [done|].
destruct (writeAll _ w _) as [w3 [|]] eqn:E3; [done|].
unfold io_result. destruct (writeAll _ w3 _) as [w4 [|]] eqn:E4; simpl; [done|].
intros; simplify_eq. apply writeAll_ok in E3, E4. rewrite E4, E3. by rewrite <- app_assoc.
Qed.

(** A datagram sent through a [DatagramWriter] is received whole, with its
  boundary, by a reader with the same limit. *)
Theorem datagram_roundtrip {W} `{Writer W} (dw dw' : DatagramWriter) payload rest e :
DatagramWriter_Write dw payload = (dw', None) → maxSize dw < 2 ^ 32 →
∃ bytes, written (writer dw') = written (writer dw) ++ bytes ∧
  ReadDatagram {| pending := bytes ++ rest; failure := e |} (maxSize dw) =
    ({| pending := rest; failure := e |}, Ok payload).
Proof.
unfold DatagramWriter_Write. destruct (writeDatagramBuffer _ _ _ _) as [w err] eqn:E.
intros ? Hm; simplify_eq. apply written_frame in E as [Hw Hl]. simpl.
exists (frame payload). split; [done|]. apply ReadDatagram_frame; lia.
Qed.

Definition sink0 : Sink := {| accepted := []; room := 64 |}.

Lemma buffered_write_equiv_witness :
written (fst (WriteDatagram sink0 [x01; x02] 16)) =
written (fst (writeDatagramBuffer sink0 [x01; x02] 16 [xff; xff; xff; xff; xff; xff; xff])).
Proof.
apply (buffered_write_equiv sink0 _ _ [x01; x02] 16 [xff; xff; xff; xff; xff; xff; xff]);
  vm_compute; reflexivity.
Defined.

Lemma datagram_roundtrip_witness :
∃ bytes, bytes = [x00; x00; x00; x02; x01; x02] ∧
  ReadDatagram {| pending := bytes ++ [xaa]; failure := ErrEOF |} 16 =
    ({| pending := [xaa]; failure := ErrEOF |}, Ok [x01; x02]).
Proof.
destruct (datagram_roundtrip (NewDatagramWriter sink0 16)
  (fst (DatagramWriter_Write (NewDatagramWriter sink0 16) [x01; x02]))
  [x01; x02] [xaa] ErrEOF) as (bytes & Hw & Hr).
- vm_compute. reflexivity.
- vm_compute. reflexivity.
- exists bytes. split; [|exact Hr]. vm_compute in Hw. symmetry. exact Hw.
Defined.

End Datagram.

(** ** VNet packet records *)

Module PacketRecord.

Definition packetFrameVersion : Z := 1.
Definition packetFrameHeaderSize : nat := 4.

Inductive Error :=
| ErrInvalidPacket
| ErrIO (e : io_error).

Definition WritePacket {W} `{Writer W} (writer : W) (packet : list byte) (mtu : Z) :
  W * option Error :=
if (Z.of_nat (length packet) =? 0) || (mtu <? Z.of_nat (length packet))
then (writer, Some ErrInvalidPacket)
else
  let header := [byte_of packetFrameVersion; x00] ++ PutUint16 (Z.of_nat (length packet)) in
  match writeAll ErrShortWrite writer header with
  | (writer, Some e) => (writer, Some (ErrIO e))
  | (writer, None) =>
    match writeAll ErrShortWrite writer packet with
    | (writer, Some e) => (writer, Some (ErrIO e))
    | (writer, None) => (writer, None)
    end
  end.

Definition ReadPacket (reader : Reader) (mtu : Z) : Reader * result Error (list byte) :=
match ReadFull packetFrameHeaderSize reader with
| (reader, Err e) => (reader, Err (ErrIO e))
| (reader, Ok header) =>
  if negb (bool_decide (header !! 0%nat = Some (byte_of packetFrameVersion))) ||
     negb (bool_decide (header !! 1%nat = Some x00))
  then (reader, Err ErrInvalidPacket)
  else
    let length := Uint16 (drop 2 header) in
    if (length =? 0) || (mtu <? length) then (reader, Err ErrInvalidPacket)
    else
      match ReadFull (Z.to_nat length) reader with
      | (reader, Ok packet) => (reader, Ok packet)
      | (reader, Err ErrEOF) => (reader, Err (ErrIO ErrUnexpectedEOF))
      | (reader, Err e) => (reader, Err (ErrIO e))
      end
end.

(** A packet that fits the 16-bit MTU and is written to a VNet channel is
  read back unchanged, and the reader stops at the end of its record. *)
Theorem packet_record_roundtrip {W} `{Writer W} (w w' : W) packet mtu rest e :
WritePacket w packet mtu = (w', None) → mtu < 2 ^ 16 →
∃ bytes, written w' = written w ++ bytes ∧
  ReadPacket {| pending := bytes ++ rest; failure := e |} mtu =
    ({| pending := rest; failure := e |}, Ok packet).
Proof.
unfold WritePacket. destruct (_ || _) eqn:Hr; [done|]. bool_to_prop.
destruct (writeAll _ w _) as [w1 [|]] eqn:E1; [done|].
destruct (writeAll _ w1 _) as [w2 [|]] eqn:E2; [done|]. intros ? Hm; simplify_eq.
apply writeAll_ok in E1, E2. eexists. split; [by rewrite E2, E1, <- app_assoc|].
rewrite <- app_assoc. unfold ReadPacket.
rewrite ReadFull_app by (by rewrite length_app, length_PutUint16).
rewrite !bool_decide_eq_true_2 by done. cbn [negb orb]. cbv zeta.
change (drop 2 (_ ++ ?x)) with x.
rewrite <- (app_nil_r (PutUint16 _)), Uint16_Put by lia.
rewrite (proj2 (Z.eqb_neq _ _)), (proj2 (Z.ltb_ge _ _)) by lia. cbn [orb].
by rewrite ReadFull_app by lia.
Qed.

Lemma packet_record_roundtrip_witness :
∃ bytes, bytes = [x01; x00; x00; x03; x07; x08; x09] ∧
  ReadPacket {| pending := bytes ++ [x01]; failure := ErrEOF |} 1280 =
    ({| pending := [x01]; failure := ErrEOF |}, Ok [x07; x08; x09]).
Proof.
destruct (packet_record_roundtrip {| accepted := []; room := 9 |}
  (fst (WritePacket {| accepted := []; room := 9 |} [x07; x08; x09] 1280))
  [x07; x08; x09] 1280 [x01] ErrEOF) as (bytes & Hw & Hr).
- vm_compute. reflexivity.
- lia.
- exists bytes. split; [|exact Hr]. vm_compute in Hw. symmetry. exact Hw.
Defined.

End PacketRecord.
