(* ===== verification/FlowControl.v ===== *)
(** * New-flow admission ([internal/vnet/internal/flowcontrol/admission.go])

    Each unordered pair of virtual addresses has a bucket: the number of live
    flows and a token balance that refills with time.  The balance is a
    [float64]; it is modelled by the binary64 operations of [SpecFloat], so
    that rounding is the machine's. *)

From Stdlib Require Import SpecFloat.
From S2P Require Import Prelude GoTime NetAddr Packet.

Local Open Scope Z_scope.

(** ** [float64] *)

Abbreviation float64 := spec_float.

Definition f64_of_int (z : Z) : float64 := binary_normalize 53 1024 z 0 false.
Definition f64_add (x y : float64) : float64 := SFadd 53 1024 x y.
Definition f64_sub (x y : float64) : float64 := SFsub 53 1024 x y.
Definition f64_mul (x y : float64) : float64 := SFmul 53 1024 x y.
Definition f64_div (x y : float64) : float64 := SFdiv 53 1024 x y.
Definition f64_lt (x y : float64) : bool := SFltb x y.

#[global] Arguments f64_of_int z : simpl never.
#[global] Arguments f64_add x y : simpl never.
#[global] Arguments f64_sub x y : simpl never.
#[global] Arguments f64_mul x y : simpl never.
#[global] Arguments f64_div x y : simpl never.
#[global] Arguments f64_lt x y : simpl never.

(** The builtin [min] of a finite positive constant and a value: NaN wins. *)
Definition f64_min (c x : float64) : float64 :=
  match x with
  | S754_nan => S754_nan
  | _ => if f64_lt x c then x else c
  end.

(** [time.Duration.Seconds] *)
Definition Seconds (d : Duration) : float64 :=
  f64_add (f64_of_int (Z.quot d Second)) (f64_div (f64_of_int (Z.rem d Second)) (f64_of_int 1000000000)).

(** ** Admission *)

Definition MaximumPairFlows : Z := 1024.
Definition NewFlowBurst : Z := 256.
Definition newFlowsPerSecond : Z := 128.
Definition TCPFlowIdle : Duration := 5 * Minute.
Definition UDPFlowIdle : Duration := Minute.

Inductive FlowError := ErrFlowCapacity | ErrFlowRate | FlowPanic.

#[export] Instance flow_error_eq_dec : EqDecision FlowError.
Proof. solve_decision. Defined.

Abbreviation nodePair := (ip4 * ip4)%type.

Record pairAdmission := {
  count : Z;
  tokens : float64;
  updated : Time
}.

Record Admission := {
  pairs : gmap nodePair pairAdmission;
  nextCleanup : Time
}.
#[export] Instance eta_pairAdmission : Eta pairAdmission :=
  λ r, {| count := count r; tokens := tokens r; updated := updated r |}.
#[export] Instance eta_Admission : Eta Admission :=
  λ r, {| pairs := pairs r; nextCleanup := nextCleanup r |}.

Definition empty_admission : Admission := {| pairs := ∅; nextCleanup := zero_time |}.

Definition makeNodePair (first second : Addr) : option nodePair :=
  let '(first, second) := if Less second first then (second, first) else (first, second) in
  a ← As4 first; b ← As4 second; Some (a, b).

(** A bucket with no flow whose balance has had time to refill. *)
Definition idle_bucket (now : Time) (state : pairAdmission) : bool :=
  (count state =? 0) && ((NewFlowBurst / newFlowsPerSecond) * Second <=? Sub now (updated state)).

(** [state.tokens] after the refill for the time since [state.updated] *)
Definition refill (now : Time) (state : pairAdmission) : pairAdmission :=
  if After now (updated state) then
    {| count := count state;
       tokens := f64_min (f64_of_int NewFlowBurst)
                   (f64_add (tokens state)
                      (f64_mul (Seconds (Sub now (updated state))) (f64_of_int newFlowsPerSecond)));
       updated := now |}
  else state.

Definition fresh_bucket (now : Time) : pairAdmission :=
  {| count := 0; tokens := f64_of_int NewFlowBurst; updated := now |}.

(** The second half of [Admit]: charge one flow to the chosen bucket. *)
Definition admit_bucket (key : nodePair) (state : pairAdmission) (now : Time)
    (admission : Admission) : Admission * option FlowError :=
  if MaximumPairFlows <=? count state then (admission, Some ErrFlowCapacity)
  else
    let state := refill now state in
    if f64_lt (tokens state) (f64_of_int 1) then
      (admission <| pairs := <[key := state]> (pairs admission) |>, Some ErrFlowRate)
    else
      let state := {| count := count state + 1;
                      tokens := f64_sub (tokens state) (f64_of_int 1);
                      updated := updated state |} in
      (admission <| pairs := <[key := state]> (pairs admission) |>, None).

Section admission.
Context (ρ : go_range nodePair pairAdmission).

(** The periodic removal of idle buckets. *)
Definition cleanup (now : Time) (admission : Admission) : Admission :=
  if Before now (nextCleanup admission) then admission
  else {| pairs := delete_when (λ _ state, idle_bucket now state)
                     (ρ (pairs admission)) (pairs admission);
          nextCleanup := Add now Second |}.

Definition Admit (flow : Flow) (now : Time) (maximumBuckets : Z) (admission : Admission) :
    Admission * option FlowError :=
  let admission := cleanup now admission in
  match makeNodePair (SourceIP flow) (DestinationIP flow) with
  | None => (admission, Some FlowPanic)
  | Some key =>
    match pairs admission !! key with
    | Some state => admit_bucket key state now admission
    | None =>
      if maximumBuckets <=? Z.of_nat (size (pairs admission))
      then (admission, Some ErrFlowCapacity)
      else admit_bucket key (fresh_bucket now) now admission
    end
  end.
End admission.

(** Returning capacity; [None] is a panic. *)
Definition Release (first second : Addr) (admission : Admission) : option Admission :=
  key ← makeNodePair first second;
  match pairs admission !! key with
  | Some state =>
    if 0 <? count state
    then Some (admission <| pairs := <[key := state <| count := count state - 1 |>]> (pairs admission) |>)
    else Some admission
  | None => Some admission
  end.

Definition Count (first second : Addr) (admission : Admission) : option Z :=
  key ← makeNodePair first second;
  Some (default 0 (count <$> pairs admission !! key)).

(** ** Lemmas *)

(** The live-flow count of a bucket, zero when there is none. *)
Definition live (admission : Admission) (key : nodePair) : Z :=
  default 0 (count <$> pairs admission !! key).

Lemma makeNodePair_4 a b :
  makeNodePair (Addr4 a) (Addr4 b) =
    Some (if ip4_val b <? ip4_val a then (b, a) else (a, b)).
Proof. unfold makeNodePair. rewrite Less_4. by destruct (_ <? _). Qed.

Lemma makeNodePair_comm a b : makeNodePair (Addr4 a) (Addr4 b) = makeNodePair (Addr4 b) (Addr4 a).
Proof.
  rewrite !makeNodePair_4. destruct (Z.ltb_spec (ip4_val b) (ip4_val a)),
    (Z.ltb_spec (ip4_val a) (ip4_val b)); try done; try lia.
  by rewrite (ip4_val_inj a b) by lia.
Qed.

(** Counts are within the quota and every bucket has a sane balance. *)
Definition bucket_ok (state : pairAdmission) : Prop :=
  0 <= count state <= MaximumPairFlows.

Definition admission_ok (admission : Admission) : Prop :=
  map_Forall (λ _, bucket_ok) (pairs admission).

Lemma cleanup_pairs ρ now admission :
  pairs (cleanup ρ now admission) =
    if Before now (nextCleanup admission) then pairs admission
    else filter (λ p, idle_bucket now p.2 = false) (pairs admission).
Proof. unfold cleanup. case_match; [done|]. simpl. by rewrite delete_when_range. Qed.

(** Cleaning up never forgets a live flow. *)
Lemma cleanup_live ρ now admission key : live (cleanup ρ now admission) key = live admission key.
Proof.
  unfold live. rewrite cleanup_pairs. case_match; [done|].
  rewrite map_lookup_filter. destruct (pairs admission !! key) as [s|]; simpl; [|done].
  destruct (idle_bucket now s) eqn:Hi; simpl; [|done].
  unfold idle_bucket in Hi. bool_to_prop. done.
Qed.

Lemma cleanup_ok ρ now admission : admission_ok admission → admission_ok (cleanup ρ now admission).
Proof.
  intros Hok k s. rewrite cleanup_pairs. case_match; [apply Hok|].
  intros [? _]%map_lookup_filter_Some. by apply (Hok k).
Qed.

Lemma refill_count now state : count (refill now state) = count state.
Proof. unfold refill. by case_match. Qed.

(** What an admission step may do: stay within the quota, and change the live
    count of at most the given pair, by one, exactly when it succeeds. *)
Definition admits (key : nodePair) (before after : Admission) (err : option FlowError) : Prop :=
  admission_ok after ∧
  (∀ k, live after k = live before k + (if decide (err = None ∧ k = key) then 1 else 0)) ∧
  (err = None → live before key < MaximumPairFlows) ∧ err ≠ Some FlowPanic.

Lemma admit_refused key admission err :
  admission_ok admission → err ≠ None → err ≠ Some FlowPanic → admits key admission admission err.
Proof.
  intros. split_and!; [done| |done|done]. intros k. rewrite decide_False by (by intros [? _]). lia.
Qed.

Lemma live_insert admission key s k :
  live (admission <| pairs := <[key := s]> (pairs admission) |>) k =
    if decide (k = key) then count s else live admission k.
Proof. unfold live; simpl. rewrite lookup_insert. repeat case_decide; naive_solver. Qed.

Lemma admission_ok_insert admission key s :
  admission_ok admission → bucket_ok s →
  admission_ok (admission <| pairs := <[key := s]> (pairs admission) |>).
Proof. intros. by apply map_Forall_insert_2. Qed.

Lemma admit_bucket_spec key state now admission admission' err :
  admit_bucket key state now admission = (admission', err) →
  admission_ok admission → bucket_ok state → live admission key = count state →
  admits key admission admission' err.
Proof.
  unfold admit_bucket. intros E Hok Hb Hlive.
  destruct (Z.leb_spec MaximumPairFlows (count state)) as [|Hlt].
  { simplify_eq. by apply admit_refused. }
  cbv zeta in E. unfold bucket_ok in Hb. destruct (f64_lt _ _); simplify_eq.
  all: split_and!; try done.
  all: try (apply admission_ok_insert; [done|]; unfold bucket_ok; simpl; rewrite refill_count; lia).
  - intros k. rewrite live_insert, refill_count, (decide_False (P := _ ∧ _)) by (by intros [? _]).
    case_decide; subst; lia.
  - intros k. rewrite live_insert; simpl. rewrite refill_count.
    destruct (decide (k = key)) as [->|];
      [rewrite decide_True by done|rewrite decide_False by (by intros [_ ?])]; lia.
  - by rewrite Hlive.
Qed.

Lemma Admit_spec ρ flow now maximum admission admission' err key :
  Admit ρ flow now maximum admission = (admission', err) →
  makeNodePair (SourceIP flow) (DestinationIP flow) = Some key →
  admission_ok admission → admits key admission admission' err.
Proof.
  unfold Admit. intros E Hkey Hok. rewrite Hkey in E.
  apply (cleanup_ok ρ now) in Hok.
  assert (Hc : ∀ k, live (cleanup ρ now admission) k = live admission k) by apply cleanup_live.
  enough (admits key (cleanup ρ now admission) admission' err) as (? & Hl & Hq & ?).
  { split_and!; [done| |by rewrite <- Hc|done]. intros k. by rewrite <- Hc. }
  set (adm := cleanup ρ now admission) in *. clearbody adm.
  destruct (pairs adm !! key) as [state|] eqn:Hs.
  - eapply admit_bucket_spec; [done|done|by apply (Hok key)|]. unfold live. by rewrite Hs.
  - destruct (maximum <=? _); [simplify_eq; by apply admit_refused|].
    eapply admit_bucket_spec; [done|done| |]; [unfold bucket_ok, MaximumPairFlows; simpl; lia|].
    unfold live. by rewrite Hs.
Qed.

Lemma Release_spec first second key admission :
  makeNodePair first second = Some key → admission_ok admission →
  ∃ admission', Release first second admission = Some admission' ∧ admission_ok admission' ∧
    ∀ k, live admission' k = if decide (k = key) then Z.max 0 (live admission k - 1) else live admission k.
Proof.
  intros Hkey Hok. unfold Release. rewrite Hkey. cbn [mbind option_bind].
  destruct (pairs admission !! key) as [state|] eqn:Hs; cycle 1.
  { exists admission. split_and!; [done|done|]. intros k. case_decide; subst; [|done].
    unfold live. by rewrite Hs. }
  pose proof (Hok _ _ Hs) as Hb. unfold bucket_ok in Hb.
  assert (Hlive : live admission key = count state) by (unfold live; by rewrite Hs).
  destruct (Z.ltb_spec 0 (count state)).
  - eexists. split_and!; [done|apply admission_ok_insert; [done|unfold bucket_ok; simpl; lia]|].
    intros k. rewrite live_insert; simpl. case_decide; subst; lia.
  - exists admission. split_and!; [done|done|]. intros k. case_decide; subst; lia.
Qed.

(** ** The burst

    From a full bucket the balance counts down through the integers exactly:
    every value from 256 to 0 is representable and the subtraction is exact. *)

Definition spend (n : nat) : float64 := Nat.iter n (λ t, f64_sub t (f64_of_int 1)) (f64_of_int NewFlowBurst).

Lemma spend_exact :
  forallb (λ n, bool_decide (n = 256%nat) || negb (f64_lt (spend n) (f64_of_int 1)))
    (seq 0 257) = true ∧ f64_lt (spend 256) (f64_of_int 1) = true.
Proof. split; vm_compute; reflexivity. Qed.

Lemma spend_positive n : (n < 256)%nat → f64_lt (spend n) (f64_of_int 1) = false.
Proof.
  intros Hn. pose proof (proj1 spend_exact) as H. rewrite forallb_forall in H.
  specialize (H n). rewrite in_seq in H. specialize (H ltac:(lia)).
  rewrite bool_decide_eq_false_2 in H by lia. by destruct (f64_lt _ _).
Qed.

(** The bucket after [n] admissions at one instant. *)
Definition burst_bucket (now : Time) (n : nat) : pairAdmission :=
  {| count := Z.of_nat n; tokens := spend n; updated := now |}.

Lemma refill_same now state : updated state = now → refill now state = state.
Proof. intros <-. unfold refill, After. by rewrite Z.ltb_irrefl. Qed.

Lemma burst_open now n : (n < 256)%nat → (MaximumPairFlows <=? count (burst_bucket now n)) = false.
Proof. intros. cbn [count burst_bucket]. unfold MaximumPairFlows. apply Z.leb_gt. lia. Qed.

Lemma admit_burst key now n admission :
  (n < 256)%nat →
  admit_bucket key (burst_bucket now n) now admission =
    (admission <| pairs := <[key := burst_bucket now (S n)]> (pairs admission) |>, None).
Proof.
  intros Hn. unfold admit_bucket. rewrite burst_open, refill_same by done.
  cbn [tokens count updated burst_bucket]. rewrite spend_positive by done. cbv zeta.
  unfold burst_bucket. rewrite Nat2Z.inj_succ. reflexivity.
Qed.

Lemma admit_burst_exhausted key now admission :
  snd (admit_bucket key (burst_bucket now 256) now admission) = Some ErrFlowRate.
Proof.
  unfold admit_bucket. rewrite refill_same by done. cbn [tokens count updated burst_bucket].
  rewrite (proj2 spend_exact). reflexivity.
Qed.

(** Repeated admission of one flow at one instant. *)
Fixpoint admit_repeatedly (ρ : go_range nodePair pairAdmission) (flow : Flow) (now : Time)
    (maximum : Z) (n : nat) (admission : Admission) : Admission * list (option FlowError) :=
  match n with
  | O => (admission, [])
  | S n =>
    let '(admission, err) := Admit ρ flow now maximum admission in
    let '(admission, errs) := admit_repeatedly ρ flow now maximum n admission in
    (admission, err :: errs)
  end.

Lemma admit_repeatedly_app ρ flow now maximum a b x y xs :
  admit_repeatedly ρ flow now maximum a x = (y, xs) →
  snd (admit_repeatedly ρ flow now maximum (a + b) x) =
  xs ++ snd (admit_repeatedly ρ flow now maximum b y).
Proof.
  revert x xs. induction a as [|a IH]; intros x xs Ha; simpl in *; [by simplify_eq|].
  destruct (Admit ρ flow now maximum x) as [x1 e1].
  destruct (admit_repeatedly ρ flow now maximum a x1) as [x2 es] eqn:E2. simplify_eq.
  specialize (IH _ _ E2). destruct (admit_repeatedly ρ flow now maximum (a + b) x1).
  simpl in *. by rewrite IH.
Qed.

Section burst.
Context (ρ : go_range nodePair pairAdmission) (flow : Flow) (now : Time) (maximum : Z).
Context (key : nodePair) (Hkey : makeNodePair (SourceIP flow) (DestinationIP flow) = Some key).

(** No cleanup is due and the bucket has seen [k] admissions at [now]. *)
Definition bursting (k : nat) (admission : Admission) : Prop :=
  Before now (nextCleanup admission) = true ∧
  pairs admission !! key = Some (burst_bucket now k).

Lemma Admit_bursting k admission :
  bursting k admission →
  Admit ρ flow now maximum admission = admit_bucket key (burst_bucket now k) now admission.
Proof. intros [Hc Hk]. unfold Admit, cleanup. by rewrite Hc, Hkey, Hk. Qed.

Lemma burst_succeeds n k admission :
  bursting k admission → (k + n <= 256)%nat →
  ∃ admission', admit_repeatedly ρ flow now maximum n admission = (admission', replicate n None) ∧
                bursting (k + n) admission'.
Proof.
  revert k admission. induction n as [|n IH]; intros k admission Hb Hle; simpl.
  { exists admission. rewrite Nat.add_0_r. done. }
  rewrite (Admit_bursting k), admit_burst by (done || lia).
  destruct (IH (S k) (admission <| pairs := <[key := burst_bucket now (S k)]> (pairs admission) |>))
    as (admission' & E & Hb'); [|lia|].
  { destruct Hb as [Hc _]. split; [done|]. cbn [pairs upd]. by rewrite lookup_insert_eq. }
  rewrite E. exists admission'. split; [done|]. by rewrite Nat.add_succ_r.
Qed.

Lemma burst_fails n admission :
  bursting 256 admission →
  snd (admit_repeatedly ρ flow now maximum n admission) = replicate n (Some ErrFlowRate).
Proof.
  revert admission. induction n as [|n IH]; intros admission Hb; simpl; [done|].
  rewrite (Admit_bursting 256) by done.
  pose proof (admit_burst_exhausted key now admission) as He.
  destruct (admit_bucket key (burst_bucket now 256) now admission) as [adm err] eqn:E.
  simpl in He. subst err.
  assert (Hadm : bursting 256 adm).
  { unfold admit_bucket in E. rewrite refill_same in E by done.
    cbn [tokens burst_bucket] in E. rewrite (proj2 spend_exact) in E.
    destruct Hb as [Hc Hk]. destruct (MaximumPairFlows <=? _); simplify_eq.
    split; [done|]. cbn [pairs upd]. by rewrite lookup_insert_eq. }
  specialize (IH adm Hadm). destruct (admit_repeatedly _ _ _ _ n adm). simpl in *. by rewrite IH.
Qed.
End burst.

(** ** Theorems *)

(** Admission never exceeds the quota of a pair, never loses or invents a
    live flow, and charges exactly the pair of the flow, exactly when it
    succeeds; other pairs keep their counts even when idle buckets are
    cleaned up in any order. *)
Theorem admit_accounts ρ flow now maximum admission key :
  makeNodePair (SourceIP flow) (DestinationIP flow) = Some key →
  admission_ok admission →
  let '(admission', err) := Admit ρ flow now maximum admission in
  admits key admission admission' err.
Proof.
  intros. destruct (Admit ρ flow now maximum admission) as [admission' err] eqn:E.
  by eapply Admit_spec.
Qed.

(** At one instant a pair without a bucket gets exactly 256 new flows: the
    first 256 attempts succeed and every further one fails with the rate
    error, with the machine's floating-point balance. *)
Theorem admit_burst_bound ρ flow now maximum n admission key :
  makeNodePair (SourceIP flow) (DestinationIP flow) = Some key →
  pairs admission !! key = None →
  Z.of_nat (size (pairs admission)) < maximum →
  snd (admit_repeatedly ρ flow now maximum n admission) =
    replicate (Nat.min n 256) None ++ replicate (n - 256) (Some ErrFlowRate).
Proof.
  intros Hkey Hnone Hmax. destruct n as [|n]; [done|].
  cbn [admit_repeatedly]. unfold Admit at 1. rewrite Hkey.
  set (adm := cleanup ρ now admission).
  assert (Hpairs : pairs adm !! key = None ∧ Z.of_nat (size (pairs adm)) < maximum).
  { unfold adm. rewrite cleanup_pairs. case_match; [done|].
    split; [apply map_lookup_filter_None; by left|].
    pose proof (map_size_filter (λ p, idle_bucket now p.2 = false) (pairs admission)). lia. }
  assert (Hclean : Before now (nextCleanup adm) = true).
  { unfold adm, cleanup. destruct (Before now (nextCleanup admission)) eqn:E; [done|].
    unfold Before, Add, Second; simpl. lia. }
  clearbody adm. destruct Hpairs as [-> Hsize]. rewrite (proj2 (Z.leb_gt _ _)) by done.
  change (fresh_bucket now) with (burst_bucket now 0). rewrite admit_burst by lia.
  set (adm1 := upd _ _ adm).
  assert (Hb : bursting now key 1 adm1)
    by (split; [done|]; cbn [pairs upd adm1]; by rewrite lookup_insert_eq).
  destruct (decide (n <= 255)%nat) as [Hn|Hn].
  - destruct (burst_succeeds ρ flow now maximum key Hkey n 1 adm1 Hb ltac:(lia)) as (adm' & -> & _).
    cbn [snd]. rewrite Nat.min_l by lia. replace (S n - 256)%nat with 0%nat by lia.
    cbn [replicate]. by rewrite app_nil_r.
  - destruct (burst_succeeds ρ flow now maximum key Hkey 255 1 adm1 Hb ltac:(lia)) as (adm' & E & Hb').
    cbn [Nat.add] in Hb'.
    pose proof (admit_repeatedly_app ρ flow now maximum 255 (n - 255) _ _ _ E) as Hsplit.
    replace (255 + (n - 255))%nat with n in Hsplit by lia.
    rewrite (burst_fails ρ flow now maximum key Hkey _ adm' Hb') in Hsplit.
    destruct (admit_repeatedly ρ flow now maximum n adm1) as [x es]. cbn [snd] in Hsplit |- *.
    rewrite Hsplit. rewrite Nat.min_r by lia.
    replace (S n - 256)%nat with (n - 255)%nat by lia. reflexivity.
Qed.

Lemma empty_admission_ok : admission_ok empty_admission.
Proof. apply map_Forall_empty. Qed.

Lemma admit_accounts_witness :
  snd (Admit any_range flow_ab 5 16 empty_admission) = None ∧
  admits (addr_a, addr_b) empty_admission
    (fst (Admit any_range flow_ab 5 16 empty_admission))
    (snd (Admit any_range flow_ab 5 16 empty_admission)).
Proof.
  split; [vm_compute; reflexivity|].
  pose proof (admit_accounts any_range flow_ab 5 16 empty_admission (addr_a, addr_b)
    ltac:(vm_compute; reflexivity) empty_admission_ok) as H.
  destruct (Admit any_range flow_ab 5 16 empty_admission) as [admission' err]. exact H.
Defined.

Lemma admit_burst_bound_witness :
  snd (admit_repeatedly any_range flow_ab 5 16 258 empty_admission) =
    replicate 256 None ++ replicate 2 (Some ErrFlowRate).
Proof.
  apply (admit_burst_bound any_range flow_ab 5 16 258 empty_admission (addr_a, addr_b));
    vm_compute; reflexivity.
Defined.
