(* ===== verification/PortPolicy.v ===== *)
(** * Port ranges ([internal/config/forward.go], [sort.Search],
      [internal/vnet/router.go: allows], [internal/vnet/peer/peer_flow.go:
      peerPortAllowed])

    Port allowlists are validated once to be sorted and disjoint; the packet
    path then looks ports up by binary search.  This file relates the two. *)

From Equations Require Import Equations.
From S2P Require Import Prelude.

Local Open Scope Z_scope.

Record PortRange := { Start : Z; End_ : Z }.

#[export] Instance port_range_eq_dec : EqDecision PortRange.
Proof. solve_decision. Defined.

Definition in_range (port : Z) (r : PortRange) : bool :=
  (Start r <=? port) && (port <=? End_ r).

Inductive RangeError := RangeInvalid (index : nat) | RangeUnsorted.

(** The loop of [validateSortedPortRanges]; [previousEnd] is [None] before the
    first range ([index > 0] fails). *)
Fixpoint validate_ranges_from (index : nat) (previousEnd : option Z) (ranges : list PortRange) :
    option RangeError :=
  match ranges with
  | [] => None
  | r :: ranges =>
    if (Start r =? 0) || (End_ r =? 0) || (End_ r <? Start r) then Some (RangeInvalid index)
    else if (match previousEnd with Some e => Start r <=? e | None => false end)
    then Some RangeUnsorted
    else validate_ranges_from (S index) (Some (End_ r)) ranges
  end.

Definition validateSortedPortRanges (ranges : list PortRange) : option RangeError :=
  validate_ranges_from 0 None ranges.

(** [peerPortAllowed], the inner loop of [MatchingForwardRule],
    [mirrorPublicIncludesPort]: a linear scan. *)
Definition port_in_ranges (port : Z) (ranges : list PortRange) : bool :=
  existsb (in_range port) ranges.

Definition portRangesAreSubset (child parent : list PortRange) : bool :=
  forallb (λ c, existsb (λ p, (Start p <=? Start c) && (End_ c <=? End_ p)) parent) child.

Lemma midpoint i j : (i < j)%nat → (i <= (i + j) / 2 < j)%nat.
Proof.
  intros. split; [apply Nat.div_le_lower_bound; lia|apply Nat.Div0.div_lt_upper_bound; lia].
Qed.

(** [sort.Search(n, f)]: the smallest index in [[i, j)] where [f] holds, by
    bisection, assuming [f] is monotone. *)
Equations? search (f : nat → bool) (i j : nat) : nat by wf (j - i)%nat lt :=
  search f i j with decide (i < j)%nat => {
    | left Hlt with f ((i + j) / 2)%nat => {
      | true := search f i ((i + j) / 2)%nat;
      | false := search f (S ((i + j) / 2)) j
    };
    | right _ := i
  }.
Proof. all: pose proof (midpoint i j Hlt); lia. Qed.

Definition sort_Search (n : nat) (f : nat → bool) : nat := search f 0 n.

(** [ranges[index].End >= port], by position. *)
Definition end_reaches (ranges : list PortRange) (port : Z) (i : nat) : bool :=
  match ranges !! i with Some r => port <=? End_ r | None => false end.

(** The lookup of [endpointPolicy.allows]. *)
Definition search_ranges (ranges : list PortRange) (port : Z) : bool :=
  let index := sort_Search (length ranges) (end_reaches ranges port) in
  match ranges !! index with
  | Some r => Start r <=? port
  | None => false
  end.

(** ** Lemmas *)

(** Bisection finds the boundary of a monotone predicate. *)
Lemma search_spec f i j :
  (i <= j)%nat → (∀ a b, (i <= a <= b)%nat → (b < j)%nat → f a = true → f b = true) →
  (i <= search f i j <= j)%nat ∧
  (∀ k, (i <= k < search f i j)%nat → f k = false) ∧
  ((search f i j < j)%nat → f (search f i j) = true).
Proof.
  funelim (search f i j); intros Hij Hmono; try rewrite <- Heqcall.
  - split_and!; [lia|lia|lia|lia].
  - assert (Hm : (i <= (i + j) / 2 < j)%nat) by (by apply midpoint).
    destruct H as (Hr & Hlo & Hhi); [lia|intros a b ??; apply (Hmono a b); lia|].
    split_and!; [lia|lia|done|]. intros _.
    destruct (decide (search f i ((i + j) / 2) < (i + j) / 2)%nat) as [?|]; [by apply Hhi|].
    by replace (search f i ((i + j) / 2)) with ((i + j) / 2)%nat by lia.
  - assert (Hm : (i <= (i + j) / 2 < j)%nat) by (by apply midpoint).
    destruct H as (Hr & Hlo & Hhi); [lia|intros a b ??; apply (Hmono a b); lia|].
    split_and!; [lia|lia| |done]. intros k Hk.
    destruct (decide (k <= (i + j) / 2)%nat); [|apply Hlo; lia].
    destruct (f k) eqn:E; [|done].
    assert (f ((i + j) / 2)%nat = true) by (apply (Hmono k); done || lia). congruence.
Qed.

(** Sorted and disjoint: each range starts after the previous one ends. *)
Definition sorted_ranges (ranges : list PortRange) : Prop :=
  ∀ i j r s, ranges !! i = Some r → ranges !! j = Some s → (i < j)%nat → End_ r < Start s.

Definition proper_ranges (ranges : list PortRange) : Prop :=
  Forall (λ r, Start r <= End_ r) ranges.

Lemma validate_ranges_from_spec index previous ranges :
  validate_ranges_from index previous ranges = None →
  sorted_ranges ranges ∧ proper_ranges ranges ∧
  Forall (λ r, match previous with Some e => e < Start r | None => True end) ranges.
Proof.
  revert index previous. induction ranges as [|r ranges IH]; intros index previous; simpl.
  { intros _. split_and!; [intros ????; by rewrite lookup_nil|constructor|constructor]. }
  destruct (_ || _) eqn:Hbad; [done|]. bool_to_prop.
  destruct (match previous with Some e => _ | None => _ end) eqn:Hprev; [done|].
  intros (Hs & Hp & Hf)%IH.
  rewrite Forall_forall in Hf.
  split_and!.
  - intros i j a b Ha Hb Hij. destruct j as [|j]; [lia|]. simpl in Hb.
    destruct i as [|i]; simpl in Ha.
    + simplify_eq. apply Hf. by apply list_elem_of_lookup_2 in Hb.
    + eapply Hs; [done..|lia].
  - constructor; [lia|done].
  - assert (Hr : match previous with Some e => e < Start r | None => True end).
    { destruct previous; [|done]. bool_to_prop. done. }
    constructor; [done|]. apply Forall_forall. intros s Hs'. specialize (Hf s Hs').
    destruct previous; [|done]. lia.
Qed.

Lemma validateSortedPortRanges_ok ranges :
  validateSortedPortRanges ranges = None → sorted_ranges ranges ∧ proper_ranges ranges.
Proof. intros (? & ? & _)%validate_ranges_from_spec. done. Qed.

Lemma port_in_ranges_spec port ranges :
  port_in_ranges port ranges = true ↔ ∃ r, r ∈ ranges ∧ Start r <= port <= End_ r.
Proof.
  unfold port_in_ranges. rewrite existsb_exists. unfold in_range.
  setoid_rewrite andb_true_iff. setoid_rewrite Z.leb_le. setoid_rewrite list_elem_of_In.
  naive_solver.
Qed.

Lemma search_ranges_linear ranges port :
  sorted_ranges ranges → proper_ranges ranges →
  search_ranges ranges port = port_in_ranges port ranges.
Proof.
  intros Hs Hp. unfold search_ranges, sort_Search.
  assert (Hmono : ∀ a b, (0 <= a <= b)%nat → (b < length ranges)%nat →
    end_reaches ranges port a = true → end_reaches ranges port b = true).
  { intros a b Hab Hb. unfold end_reaches.
    destruct (lookup_lt_is_Some_2 ranges a) as [r Hr]; [lia|].
    destruct (lookup_lt_is_Some_2 ranges b) as [s Hs']; [lia|]. rewrite Hr, Hs'.
    destruct (decide (a = b)) as [->|]; [by simplify_eq|].
    pose proof (Hs a b r s Hr Hs' ltac:(lia)).
    pose proof (proj1 (Forall_lookup _ _) Hp b s Hs'). simpl in *. lia. }
  destruct (search_spec (end_reaches ranges port) 0 (length ranges)) as (Hr & Hlo & Hhi); [lia|done|].
  set (k := search (end_reaches ranges port) 0 (length ranges)) in *.
  destruct (ranges !! k) as [r|] eqn:Hk.
  - pose proof (lookup_lt_Some _ _ _ Hk) as Hlt. specialize (Hhi Hlt).
    unfold end_reaches in Hhi. rewrite Hk in Hhi. apply Z.leb_le in Hhi.
    apply eq_true_iff_eq. rewrite port_in_ranges_spec, Z.leb_le. split.
    + intros Hst. exists r. split; [by apply list_elem_of_lookup_2 in Hk|lia].
    + intros (s & [i Hi]%list_elem_of_lookup & Hin).
      destruct (Nat.lt_trichotomy i k) as [Hik|[->|Hik]].
      * specialize (Hlo i ltac:(lia)). unfold end_reaches in Hlo. rewrite Hi in Hlo. lia.
      * simplify_eq. lia.
      * pose proof (Hs k i r s Hk Hi Hik). lia.
  - symmetry. apply not_true_is_false. rewrite port_in_ranges_spec.
    intros (s & [i Hi]%list_elem_of_lookup & Hin).
    apply lookup_ge_None in Hk. pose proof (lookup_lt_Some _ _ _ Hi).
    specialize (Hlo i ltac:(lia)). unfold end_reaches in Hlo. rewrite Hi in Hlo. lia.
Qed.

Lemma portRangesAreSubset_spec child parent port :
  portRangesAreSubset child parent = true →
  port_in_ranges port child = true → port_in_ranges port parent = true.
Proof.
  unfold portRangesAreSubset. rewrite forallb_forall, !port_in_ranges_spec.
  intros Hsub (r & Hr & Hin). specialize (Hsub r ltac:(by apply list_elem_of_In)).
  apply existsb_exists in Hsub as (p & Hp & Hle). bool_to_prop.
  exists p. split; [by apply list_elem_of_In|lia].
Qed.

(** ** Theorems *)

(** On every list of ranges that validation accepts, the binary search of
    the packet path decides exactly membership in one of the ranges. *)
Theorem port_lookup_correct ranges port :
  validateSortedPortRanges ranges = None →
  search_ranges ranges port = true ↔ ∃ r, r ∈ ranges ∧ Start r <= port <= End_ r.
Proof.
  intros [Hs Hp]%validateSortedPortRanges_ok.
  rewrite search_ranges_linear by done. apply port_in_ranges_spec.
Qed.

Lemma port_lookup_correct_witness :
  search_ranges [{| Start := 22; End_ := 22 |}; {| Start := 80; End_ := 443 |}] 100 = true ↔
  ∃ r, r ∈ [{| Start := 22; End_ := 22 |}; {| Start := 80; End_ := 443 |}] ∧
       Start r <= 100 <= End_ r.
Proof. apply port_lookup_correct. vm_compute. reflexivity. Defined.
