(* ===== verification/ConfigVNet.v ===== *)
(** * Virtual network configuration ([internal/config/vnetwork.go])

    The data of the [virtual_network] section and its validation. *)

From Stdlib Require Import Ascii.
From S2P Require Import Prelude NetAddr PortPolicy.

Local Open Scope Z_scope.

(** ** Identifiers ([internal/config/validation.go])

    [clientIDPattern] is [^[A-Za-z0-9._-]{1,64}$] and [resourceNamePattern] is
    [^[a-z0-9][a-z0-9_-]{0,63}$]. *)

Definition ascii_z (c : ascii) : Z := Z.of_N (N_of_ascii c).
Definition is_lower (c : ascii) : bool := (97 <=? ascii_z c) && (ascii_z c <=? 122).
Definition is_upper (c : ascii) : bool := (65 <=? ascii_z c) && (ascii_z c <=? 90).
Definition is_digit (c : ascii) : bool := (48 <=? ascii_z c) && (ascii_z c <=? 57).
Definition is_one_of (cs : list ascii) (c : ascii) : bool := bool_decide (c ∈ cs).

Definition ValidateClientID (clientID : string) : bool :=
  let cs := String.list_ascii_of_string clientID in
  (1 <=? Z.of_nat (length cs)) && (Z.of_nat (length cs) <=? 64) &&
  forallb (λ c, is_upper c || is_lower c || is_digit c || is_one_of ["."; "_"; "-"]%char c) cs.

Definition ValidateResourceName (name : string) : bool :=
  match String.list_ascii_of_string name with
  | [] => false
  | c :: cs =>
    (is_lower c || is_digit c) && (Z.of_nat (length cs) <=? 63) &&
    forallb (λ c, is_lower c || is_digit c || is_one_of ["_"; "-"]%char c) cs
  end.

(** ** Data *)

Record VNetPortPermissions := { PortsTCP : list PortRange; PortsUDP : list PortRange }.

Record VNetNodeConfig := {
  NodeClientID : string;
  NodeIP : string;
  NodePorts : VNetPortPermissions
}.

Record VirtualNetworkConfig := {
  Enabled : bool;
  NetworkMode : string;
  CIDR : string;
  ServerIP : string;
  PacketChannels : Z;
  ServerPorts : VNetPortPermissions;
  Nodes : list VNetNodeConfig
}.

Definition hardMaxVNetPacketChannels : Z := 8.
Definition hardMaxVNetNodes : Z := 256.

Inductive HostError := HostNotCanonical | HostOutsideCIDR | HostUnusable.

Inductive VNetError :=
| BadNetworkMode
| BadCIDR
| PublicCIDR
| SmallCIDR
| BadServerIP (e : HostError)
| BadPacketChannels
| TooManyNodes
| BadServerPorts (e : RangeError)
| BadNodeClientID (index : nat)
| DuplicateNodeClientID (index : nat)
| BadNodeIP (index : nat) (e : HostError)
| DuplicateNodeIP (index : nat)
| BadNodePorts (index : nat) (e : RangeError)
| NoPorts.

Definition ipv4Broadcast (p : Prefix) : option Addr :=
  base ← As4 (PrefixAddr p);
  let hostBits := 32 - PrefixBits p in
  let value := Z.lor (ip4_val base) (u32 (u32 (Z.shiftl 1 hostBits) - 1)) in
  Some (Addr4 (IP4 (byte_of (Z.shiftr value 24)) (byte_of (Z.shiftr value 16))
                   (byte_of (Z.shiftr value 8)) (byte_of value))).

Definition vnetPortsConfigured (ports : VNetPortPermissions) : bool :=
  negb (bool_decide (PortsTCP ports = [])) || negb (bool_decide (PortsUDP ports = [])).

Definition validateVNetPorts (ports : VNetPortPermissions) : option RangeError :=
  match validateSortedPortRanges (PortsTCP ports) with
  | Some e => Some e
  | None => validateSortedPortRanges (PortsUDP ports)
  end.

Definition EffectiveVNetNetworkMode (configuration : VirtualNetworkConfig) : string :=
  if bool_decide (NetworkMode configuration = "") then "tun" else NetworkMode configuration.

(** The first node of a client. *)
Definition VNetNode (configuration : VirtualNetworkConfig) (clientID : string) :
    option VNetNodeConfig :=
  List.find (λ node, bool_decide (NodeClientID node = clientID)) (Nodes configuration).

Section text.
Context `{NetipText}.

Definition parseVNetHost (prefix : Prefix) (source : string) : result HostError Addr :=
  match ParseAddr source with
  | None => Err HostNotCanonical
  | Some address =>
    if negb (Is4 address) || negb (bool_decide (AddrString address = source))
    then Err HostNotCanonical
    else if negb (Contains prefix address) then Err HostOutsideCIDR
    else if bool_decide (address = PrefixAddr prefix) ||
            bool_decide (Some address = ipv4Broadcast prefix)
    then Err HostUnusable
    else Ok address
  end.

(** The loop over [configuration.Nodes]; [clientIDs] and [addresses] are the
    keys seen so far. *)
Fixpoint validate_nodes (prefix : Prefix) (index : nat) (clientIDs : gset string)
    (addresses : gset Addr) (hasPorts : bool) (nodes : list VNetNodeConfig) :
    result VNetError bool :=
  match nodes with
  | [] => Ok hasPorts
  | node :: nodes =>
    if negb (ValidateClientID (NodeClientID node)) then Err (BadNodeClientID index)
    else if bool_decide (NodeClientID node ∈ clientIDs) then Err (DuplicateNodeClientID index)
    else match parseVNetHost prefix (NodeIP node) with
    | Err e => Err (BadNodeIP index e)
    | Ok address =>
      if bool_decide (address ∈ addresses) then Err (DuplicateNodeIP index)
      else match validateVNetPorts (NodePorts node) with
      | Some e => Err (BadNodePorts index e)
      | None =>
        validate_nodes prefix (S index) ({[NodeClientID node]} ∪ clientIDs)
          ({[address]} ∪ addresses) (hasPorts || vnetPortsConfigured (NodePorts node)) nodes
      end
    end
  end.

Definition validateVirtualNetworkConfig (configuration : VirtualNetworkConfig) : option VNetError :=
  if negb (bool_decide (NetworkMode configuration = "")) &&
     negb (bool_decide (NetworkMode configuration = "tun")) &&
     negb (bool_decide (NetworkMode configuration = "loopback"))
  then Some BadNetworkMode
  else match ParsePrefix (CIDR configuration) with
  | None => Some BadCIDR
  | Some prefix =>
    if negb (Is4 (PrefixAddr prefix)) || negb (bool_decide (prefix = Masked prefix)) ||
       negb (bool_decide (PrefixString prefix = CIDR configuration))
    then Some BadCIDR
    else if negb (IsPrivate (PrefixAddr prefix)) then Some PublicCIDR
    else if 30 <? PrefixBits prefix then Some SmallCIDR
    else match parseVNetHost prefix (ServerIP configuration) with
    | Err e => Some (BadServerIP e)
    | Ok serverIP =>
      if (PacketChannels configuration <? 1) ||
         (hardMaxVNetPacketChannels <? PacketChannels configuration)
      then Some BadPacketChannels
      else if hardMaxVNetNodes <? Z.of_nat (length (Nodes configuration)) then Some TooManyNodes
      else match validateVNetPorts (ServerPorts configuration) with
      | Some e => Some (BadServerPorts e)
      | None =>
        match validate_nodes prefix 0 ∅ {[serverIP]}
                (vnetPortsConfigured (ServerPorts configuration)) (Nodes configuration) with
        | Err e => Some e
        | Ok hasPorts =>
          if Enabled configuration && negb hasPorts then Some NoPorts else None
        end
      end
    end
  end.
End text.
