(* ===== verification/Router.v ===== *)
(** * The VNet router ([internal/vnet/router.go])

    The router owns the policy (which address belongs to whom and which ports
    each address serves) and the table of authorised flows, with occupancy
    counters per address and an admission bucket per address pair.  All
    methods run under one mutex, so each is one atomic transition. *)

From S2P Require Import Prelude GoTime NetAddr GoIO Packet FlowControl PortPolicy ConfigVNet.

Local Open Scope Z_scope.

Definition routerCleanupBatchSize : Z := 256.
Definition routerMaximumNodeFlows : Z := 4096.

Inductive RouteError :=
| ErrPacket (e : PacketError)
| ErrSourceRejected
| ErrTargetUnavailable
| ErrFlowRejected
| ErrFlow (e : FlowError)
| ErrChannel (e : ChannelError)
| RoutePanic.

Inductive DestinationKind := DestinationServer | DestinationClient.

Record Destination := {
  PolicyGeneration : Z;
  Kind : DestinationKind;
  DestClientID : string;
  VirtualIP : Addr;
  DestChannelIndex : Z
}.

Record endpointPolicy := {
  clientID : string;
  tcp : list PortRange;
  udp : list PortRange
}.

Record routingPolicy := {
  enabled : bool;
  serverIP : Addr;
  packetChannels : Z;
  byIP : gmap Addr endpointPolicy;
  byClientID : gmap string Addr
}.

Record flowState := {
  serviceIP : Addr;
  servicePort : Z;
  protocol : Z;
  expiresAt : Time
}.

Record Router := {
  policyGeneration : Z;
  admission : Admission;
  capacityRejected : Z;
  rateRejected : Z;
  policyRejected : Z;
  policy : routingPolicy;
  flows : gmap Key flowState;
  nodeFlows : gmap Addr Z;
  maxFlows : Z;
  tcpIdle : Duration;
  udpIdle : Duration;
  nextCleanup : Time;
  nextCapacityCleanup : Time
}.

#[export] Instance eta_flowState : Eta flowState := λ s,
  {| serviceIP := serviceIP s; servicePort := servicePort s; protocol := protocol s;
     expiresAt := expiresAt s |}.
#[export] Instance eta_Router : Eta Router := λ r,
  {| policyGeneration := policyGeneration r; admission := admission r;
     capacityRejected := capacityRejected r; rateRejected := rateRejected r;
     policyRejected := policyRejected r; policy := policy r; flows := flows r;
     nodeFlows := nodeFlows r; maxFlows := maxFlows r; tcpIdle := tcpIdle r;
     udpIdle := udpIdle r; nextCleanup := nextCleanup r;
     nextCapacityCleanup := nextCapacityCleanup r |}.

(** ** Policy *)

Definition newEndpointPolicy (clientID : string) (ports : VNetPortPermissions) : endpointPolicy :=
  {| clientID := clientID; tcp := PortsTCP ports; udp := PortsUDP ports |}.

Definition allows (target : endpointPolicy) (proto port : Z) : bool :=
  if proto =? ProtocolTCP then search_ranges (tcp target) port
  else if negb (proto =? ProtocolUDP) then false
  else search_ranges (udp target) port.

Definition serviceAllowed (p : routingPolicy) (address : Addr) (proto port : Z) : bool :=
  match byIP p !! address with
  | Some target => allows target proto port
  | None => false
  end.

Section policy.
Context `{NetipText}.

Fixpoint add_nodes (p : routingPolicy) (nodes : list VNetNodeConfig) : option routingPolicy :=
  match nodes with
  | [] => Some p
  | node :: nodes =>
    match ParseAddr (NodeIP node) with
    | None => None
    | Some address =>
      if negb (Is4 address) || bool_decide (NodeClientID node = "") then None
      else match byIP p !! address, byClientID p !! NodeClientID node with
      | None, None =>
        add_nodes {| enabled := enabled p; serverIP := serverIP p;
                     packetChannels := packetChannels p;
                     byIP := <[address := newEndpointPolicy (NodeClientID node) (NodePorts node)]> (byIP p);
                     byClientID := <[NodeClientID node := address]> (byClientID p) |} nodes
      | _, _ => None
      end
    end
  end.

Definition buildRoutingPolicy (configuration : VirtualNetworkConfig) : option routingPolicy :=
  match ParseAddr (ServerIP configuration) with
  | None => None
  | Some server =>
    if negb (Is4 server) || (PacketChannels configuration <? 1) || (8 <? PacketChannels configuration)
    then None
    else add_nodes
      {| enabled := Enabled configuration; serverIP := server;
         packetChannels := u8 (PacketChannels configuration);
         byIP := {[server := newEndpointPolicy "" (ServerPorts configuration)]};
         byClientID := ∅ |} (Nodes configuration)
  end.

Definition NewRouter (configuration : VirtualNetworkConfig) (maxFlows : Z) : option Router :=
  p ← buildRoutingPolicy configuration;
  if maxFlows <? 1 then None
  else Some {| policyGeneration := 0; admission := empty_admission;
               capacityRejected := 0; rateRejected := 0; policyRejected := 0;
               policy := p; flows := ∅; nodeFlows := ∅; maxFlows := maxFlows;
               tcpIdle := TCPFlowIdle; udpIdle := UDPFlowIdle;
               nextCleanup := zero_time; nextCapacityCleanup := zero_time |}.
End policy.

(** ** The flow table *)

Definition first_addr (key : Key) : Addr := Addr4 (FirstIP key).
Definition second_addr (key : Key) : Addr := Addr4 (SecondIP key).

(** [AddrFrom4] never fails [As4], so the release cannot panic. *)
Definition removeFlowLocked (key : Key) (router : Router) : Router :=
  match flows router !! key with
  | None => router
  | Some _ =>
    let first := first_addr key in
    let second := second_addr key in
    let nodes := count_decr (nodeFlows router) first in
    router <| flows := delete key (flows router) |>
           <| admission := default (admission router) (Release first second (admission router)) |>
           <| nodeFlows := if decide (second = first) then nodes else count_decr nodes second |>
  end.

Definition expired (now : Time) (state : flowState) : bool := negb (Before now (expiresAt state)).

(** A loop over (part of) the table that removes the flows satisfying [P]. *)
Definition remove_flows (P : Key → flowState → bool) (l : list (Key * flowState)) (router : Router) :
    Router :=
  foldl (λ router '(key, state), if P key state then removeFlowLocked key router else router) router l.

(** At least one entry is inspected, at most [limit]. *)
Definition removeExpiredLocked (ρ : go_range Key flowState) (now : Time) (limit : Z)
    (router : Router) : Router :=
  remove_flows (λ _ state, expired now state)
    (take (Z.to_nat (Z.max 1 limit)) (ρ (flows router))) router.

Definition reject_policy (router : Router) : Router :=
  router <| policyRejected := u64 (policyRejected router + 1) |>.
Definition reject_capacity (router : Router) : Router :=
  router <| capacityRejected := u64 (capacityRejected router + 1) |>.
Definition reject_rate (router : Router) : Router :=
  router <| rateRejected := u64 (rateRejected router + 1) |>.

(** ** Policy changes *)

Section changes.
Context `{NetipText} (ρ : go_range Key flowState).

(** Whether a flow survives the replacement of the policy. *)
Definition retained (previous p : routingPolicy) (key : Key) (state : flowState) : bool :=
  let owner (q : routingPolicy) a := default "" (clientID <$> byIP q !! a) in
  enabled p &&
  bool_decide (is_Some (byIP p !! first_addr key)) &&
  bool_decide (is_Some (byIP p !! second_addr key)) &&
  bool_decide (owner p (first_addr key) = owner previous (first_addr key)) &&
  bool_decide (owner p (second_addr key) = owner previous (second_addr key)) &&
  serviceAllowed p (serviceIP state) (protocol state) (servicePort state).

Definition ApplyPolicy (configuration : VirtualNetworkConfig) (router : Router) : option Router :=
  p ← buildRoutingPolicy configuration;
  let previous := policy router in
  let router := router <| policy := p |>
                       <| policyGeneration := u64 (policyGeneration router + 1) |> in
  Some (remove_flows (λ key state, negb (retained previous p key state)) (ρ (flows router)) router).

Definition RemoveClient (client : string) (router : Router) : Router :=
  match byClientID (policy router) !! client with
  | None => router
  | Some clientIP =>
    let router := router <| policyGeneration := u64 (policyGeneration router + 1) |> in
    match As4 clientIP with
    | None => router
    | Some address =>
      remove_flows (λ key _, bool_decide (FirstIP key = address) || bool_decide (SecondIP key = address))
        (ρ (flows router)) router
    end
  end.
End changes.

(** ** Routing *)

Record Orders := {
  order_cleanup : go_range Key flowState;
  order_capacity : go_range Key flowState;
  order_admission : go_range nodePair pairAdmission
}.

Section routing.
Context (sha256 : list byte → list byte) (o : Orders).

Definition atCapacity (flow : Flow) (router : Router) : option bool :=
  if (maxFlows router <=? Z.of_nat (size (flows router))) ||
     (routerMaximumNodeFlows <=? count_get (nodeFlows router) (SourceIP flow)) ||
     (routerMaximumNodeFlows <=? count_get (nodeFlows router) (DestinationIP flow))
  then Some true
  else c ← Count (SourceIP flow) (DestinationIP flow) (admission router);
       Some (MaximumPairFlows <=? c).

(** Periodic cleanup of a batch of flows. *)
Definition cleanup_batch (now : Time) (router : Router) : Router :=
  if IsZero (nextCleanup router) || negb (Before now (nextCleanup router)) then
    (removeExpiredLocked (order_cleanup o) now routerCleanupBatchSize router)
      <| nextCleanup := Add now Second |>
  else router.

(** Cleanup of the whole table, at most once a second, when it is full. *)
Definition cleanup_capacity (now : Time) (router : Router) : Router :=
  if Before now (nextCapacityCleanup router) then router
  else (removeExpiredLocked (order_capacity o) now (maxFlows router) router)
         <| nextCapacityCleanup := Add now Second |>.

(** Drop the flow if it has expired or its service is no longer allowed. *)
Definition refresh_flow (key : Key) (now : Time) (router : Router) : Router * option flowState :=
  match flows router !! key with
  | None => (router, None)
  | Some state =>
    if expired now state ||
       negb (serviceAllowed (policy router) (serviceIP state) (protocol state) (servicePort state))
    then (removeFlowLocked key router, None)
    else (router, Some state)
  end.

(** Make room for a new flow. *)
Definition ensure_capacity (flow : Flow) (now : Time) (router : Router) :
    Router * result RouteError unit :=
  match atCapacity flow router with
  | None => (router, Err RoutePanic)
  | Some false => (router, Ok ())
  | Some true =>
    let router := cleanup_capacity now router in
    match atCapacity flow router with
    | None => (router, Err RoutePanic)
    | Some false => (router, Ok ())
    | Some true => (reject_capacity router, Err (ErrFlow ErrFlowCapacity))
    end
  end.

(** The branch of [routeLocked] for a flow that is not in the table. *)
Definition open_flow (key : Key) (target : endpointPolicy) (flow : Flow) (now : Time)
    (router : Router) : Router * result RouteError flowState :=
  if (Protocol flow =? ProtocolTCP) && negb (IsTCPStart flow) then
    (reject_policy router, Err ErrFlowRejected)
  else if negb (allows target (Protocol flow) (DestinationPort flow)) then
    (reject_policy router, Err ErrFlowRejected)
  else
    match ensure_capacity flow now router with
    | (router, Err e) => (router, Err e)
    | (router, Ok _) =>
      let '(adm, err) := Admit (order_admission o) flow now (maxFlows router) (admission router) in
      let router := router <| admission := adm |> in
      match err with
      | Some ErrFlowRate => (reject_rate router, Err (ErrFlow ErrFlowRate))
      | Some ErrFlowCapacity => (reject_capacity router, Err (ErrFlow ErrFlowCapacity))
      | Some FlowPanic => (router, Err RoutePanic)
      | None =>
        let state := {| serviceIP := DestinationIP flow; servicePort := DestinationPort flow;
                        protocol := Protocol flow; expiresAt := zero_time |} in
        let nodes := count_incr (nodeFlows router) (SourceIP flow) in
        let nodes := if decide (DestinationIP flow = SourceIP flow) then nodes
                     else count_incr nodes (DestinationIP flow) in
        (router <| nodeFlows := nodes |> <| flows := <[key := state]> (flows router) |>, Ok state)
      end
    end.

(** Extend or end the flow and choose the destination. *)
Definition deliver (key : Key) (target : endpointPolicy) (flow : Flow) (now : Time)
    (state : flowState) (router : Router) : Router * result RouteError Destination :=
  let idle := if Protocol flow =? ProtocolTCP then tcpIdle router else udpIdle router in
  let state := state <| expiresAt := Add now idle |> in
  let router := if IsTCPReset flow then removeFlowLocked key router
                else router <| flows := <[key := state]> (flows router) |> in
  match ChannelIndex sha256 flow (packetChannels (policy router)) with
  | Err e => (router, Err (ErrChannel e))
  | Ok channel =>
    let toServer := bool_decide (DestinationIP flow = serverIP (policy router)) in
    (router, Ok {| PolicyGeneration := policyGeneration router;
                   Kind := if toServer then DestinationServer else DestinationClient;
                   DestClientID := if toServer then "" else clientID target;
                   VirtualIP := DestinationIP flow;
                   DestChannelIndex := channel |})
  end.

Definition routeLocked (flow : Flow) (now : Time) (router : Router) :
    Router * result RouteError Destination :=
  if negb (enabled (policy router)) then (reject_policy router, Err ErrFlowRejected)
  else match byIP (policy router) !! DestinationIP flow with
  | None => (reject_policy router, Err ErrTargetUnavailable)
  | Some target =>
    let router := cleanup_batch now router in
    match MakeKey flow with
    | None => (router, Err RoutePanic)
    | Some key =>
      match refresh_flow key now router with
      | (router, Some state) => deliver key target flow now state router
      | (router, None) =>
        match open_flow key target flow now router with
        | (router, Err e) => (router, Err e)
        | (router, Ok state) => deliver key target flow now state router
        end
      end
    end
  end.

Definition RouteClientPacket (client : string) (packet : list byte) (now : Time) (router : Router) :
    Router * result RouteError Destination :=
  match ParseIPv4 packet with
  | Err e => (router, Err (ErrPacket e))
  | Ok flow =>
    if bool_decide (byClientID (policy router) !! client = Some (SourceIP flow))
    then routeLocked flow now router
    else (reject_policy router, Err ErrSourceRejected)
  end.

Definition AuthorizePeerFlow (client : string) (flow : Flow) (now : Time) (router : Router) :
    Router * result RouteError Destination :=
  if negb (Is4 (SourceIP flow)) || negb (Is4 (DestinationIP flow)) ||
     (negb (Protocol flow =? ProtocolTCP) && negb (Protocol flow =? ProtocolUDP))
  then (router, Err (ErrPacket InvalidHeader))
  else if bool_decide (byClientID (policy router) !! client = Some (SourceIP flow))
  then routeLocked flow now router
  else (reject_policy router, Err ErrSourceRejected).

Definition RouteServerPacket (packet : list byte) (now : Time) (router : Router) :
    Router * result RouteError Destination :=
  match ParseIPv4 packet with
  | Err e => (router, Err (ErrPacket e))
  | Ok flow =>
    if bool_decide (SourceIP flow = serverIP (policy router))
    then routeLocked flow now router
    else (reject_policy router, Err ErrSourceRejected)
  end.
End routing.

(** Rejects queued packets authorised before a policy publication. *)
Definition IsCurrent (destination : Destination) (router : Router) : bool :=
  enabled (policy router) && (policyGeneration router =? PolicyGeneration destination).

(** ** Invariant *)

Definition pair_of (key : Key) : nodePair :=
  if ip4_val (SecondIP key) <? ip4_val (FirstIP key) then (SecondIP key, FirstIP key)
  else (FirstIP key, SecondIP key).

(** What a flow is charged to: its two addresses, and their pair. *)
Definition node_charged (key : Key) (_ : flowState) (a : Addr) : Prop :=
  first_addr key = a ∨ second_addr key = a.
Definition pair_charged (key : Key) (_ : flowState) (p : nodePair) : Prop := pair_of key = p.

#[export] Instance node_charged_dec key s a : Decision (node_charged key s a).
Proof. unfold node_charged. apply _. Defined.
#[export] Instance pair_charged_dec key s p : Decision (pair_charged key s p).
Proof. unfold pair_charged. apply _. Defined.

(** The counters of the router agree with its table and respect the limits. *)
Record accounts (r : Router) : Prop := {
  acc_nodes : counts node_charged (nodeFlows r) (flows r);
  acc_pairs p : live (admission r) p = tally pair_charged (flows r) p;
  acc_admission : admission_ok (admission r);
  acc_size : Z.of_nat (size (flows r)) <= maxFlows r;
  acc_node_limit a : tally node_charged (flows r) a <= routerMaximumNodeFlows
}.

(** A flow the policy authorises: its service is one of its two endpoints, at
    an address the policy knows, on an allowed port. *)
Record flow_ok (p : routingPolicy) (key : Key) (state : flowState) : Prop := {
  fo_enabled : enabled p = true;
  fo_allowed : serviceAllowed p (serviceIP state) (protocol state) (servicePort state) = true;
  fo_first : is_Some (byIP p !! first_addr key);
  fo_second : is_Some (byIP p !! second_addr key);
  fo_protocol : protocol state = KeyProtocol key;
  fo_service : (serviceIP state = first_addr key ∧ servicePort state = FirstPort key) ∨
               (serviceIP state = second_addr key ∧ servicePort state = SecondPort key)
}.

(** What [buildRoutingPolicy] guarantees. *)
Record policy_ok (p : routingPolicy) : Prop := {
  po_channels : 1 <= packetChannels p <= 8;
  po_server : ∃ e, byIP p !! serverIP p = Some e ∧ clientID e = "";
  po_server4 : Is4 (serverIP p) = true;
  po_client c a : byClientID p !! c = Some a →
    Is4 a = true ∧ a ≠ serverIP p ∧ c ≠ "" ∧ ∃ e, byIP p !! a = Some e ∧ clientID e = c;
  po_owner a e : byIP p !! a = Some e → a ≠ serverIP p → byClientID p !! clientID e = Some a
}.

Record router_ok (r : Router) : Prop := {
  ro_accounts : accounts r;
  ro_flows : map_Forall (flow_ok (policy r)) (flows r);
  ro_policy : policy_ok (policy r);
  ro_generation : 0 <= policyGeneration r < 2 ^ 64;
  ro_idle : 0 < tcpIdle r ∧ 0 < udpIdle r
}.

(** The fields an operation on the flow table leaves alone. *)
Record same_settings (r r' : Router) : Prop := {
  ss_policy : policy r' = policy r;
  ss_generation : policyGeneration r' = policyGeneration r;
  ss_max : maxFlows r' = maxFlows r;
  ss_tcp : tcpIdle r' = tcpIdle r;
  ss_udp : udpIdle r' = udpIdle r
}.

#[export] Instance same_settings_preorder : PreOrder same_settings.
Proof. split; [by constructor|]. intros ??? [] []. constructor; congruence. Qed.

(** *** Removing flows *)

Lemma pair_of_spec key : makeNodePair (first_addr key) (second_addr key) = Some (pair_of key).
Proof. apply makeNodePair_4. Qed.

Lemma removeFlow_flows key r : flows (removeFlowLocked key r) = delete key (flows r).
Proof.
  unfold removeFlowLocked. destruct (flows r !! key) eqn:E; [done|].
  by rewrite delete_id.
Qed.

Lemma removeFlow_settings key r : same_settings r (removeFlowLocked key r).
Proof. unfold removeFlowLocked. by destruct (flows r !! key). Qed.

Lemma removeFlow_accounts key r : accounts r → accounts (removeFlowLocked key r).
Proof.
  intros Hacc. destruct (flows r !! key) as [state|] eqn:Hkey; cycle 1.
  { unfold removeFlowLocked. by rewrite Hkey. }
  destruct (Release_spec (first_addr key) (second_addr key) (pair_of key) (admission r))
    as (adm & Hrel & Hok & Hlive); [apply pair_of_spec|apply Hacc|].
  unfold removeFlowLocked. rewrite Hkey, Hrel; simpl.
  constructor; cbn [flows nodeFlows admission maxFlows upd].
  - eapply counts_remove_two; [apply Hacc|done|]. done.
  - intros p. rewrite Hlive, (tally_delete pair_charged _ _ state) by done.
    pose proof (tally_nonneg pair_charged (delete key (flows r)) p) as Hn.
    rewrite (tally_delete pair_charged _ _ state) in Hn by done.
    rewrite <- (acc_pairs _ Hacc) in *. unfold charge, pair_charged in *.
    repeat case_decide; subst; try done; lia.
  - done.
  - pose proof (acc_size _ Hacc). rewrite map_size_delete, Hkey; simpl. lia.
  - intros a. pose proof (acc_node_limit _ Hacc a).
    rewrite (tally_delete node_charged _ _ state) by done.
    pose proof (charge_range node_charged key state a). lia.
Qed.

Lemma remove_flows_flows P l r : flows (remove_flows P l r) = delete_when P l (flows r).
Proof.
  unfold remove_flows, delete_when. revert r.
  induction l as [|[k s] l IH]; intros r; simpl; [done|].
  rewrite IH. destruct (P k s); [by rewrite removeFlow_flows|done].
Qed.

Lemma remove_flows_settings P l r : same_settings r (remove_flows P l r).
Proof.
  unfold remove_flows. revert r. induction l as [|[k s] l IH]; intros r; simpl; [done|].
  etrans; [|apply IH]. destruct (P k s); [apply removeFlow_settings|done].
Qed.

Lemma remove_flows_accounts P l r : accounts r → accounts (remove_flows P l r).
Proof.
  unfold remove_flows. revert r. induction l as [|[k s] l IH]; intros r Hr; simpl; [done|].
  apply IH. destruct (P k s); [by apply removeFlow_accounts|done].
Qed.

(** A smaller table with the same settings keeps the invariant. *)
Lemma router_ok_shrink r r' :
  router_ok r → same_settings r r' → accounts r' → flows r' ⊆ flows r → router_ok r'.
Proof.
  intros [_ Hf Hp Hg Hi] [Ep Eg _ Et Eu] Hacc Hsub. constructor; rewrite ?Ep, ?Eg, ?Et, ?Eu; try done.
  intros k s Hk. apply Hf. by eapply lookup_weaken.
Qed.

Lemma remove_flows_ok P l r : router_ok r → router_ok (remove_flows P l r).
Proof.
  intros Hr. eapply router_ok_shrink; [done|apply remove_flows_settings| |].
  - by apply remove_flows_accounts, Hr.
  - rewrite remove_flows_flows. apply delete_when_subseteq.
Qed.

Lemma removeFlow_ok key r : router_ok r → router_ok (removeFlowLocked key r).
Proof.
  intros Hr. eapply router_ok_shrink; [done|apply removeFlow_settings| |].
  - by apply removeFlow_accounts, Hr.
  - rewrite removeFlow_flows. apply delete_subseteq.
Qed.

(** Updates of fields outside the invariant. *)
Lemma router_ok_frame r r' :
  router_ok r → same_settings r r' → flows r' = flows r → admission r' = admission r →
  nodeFlows r' = nodeFlows r → router_ok r'.
Proof.
  intros Hr Hs Ef Ea En. eapply router_ok_shrink; [done|done| |by rewrite Ef].
  destruct Hr as [[] _ _ _ _], Hs as [_ _ Em _ _]. by constructor; rewrite ?Ef, ?Ea, ?En, ?Em.
Qed.

Ltac frame := eapply router_ok_frame; [eassumption|by constructor|done..].

Lemma cleanup_batch_spec o now r :
  router_ok r →
  router_ok (cleanup_batch o now r) ∧ same_settings r (cleanup_batch o now r) ∧
  flows (cleanup_batch o now r) ⊆ flows r ∧
  (∀ k s, flows r !! k = Some s → expired now s = false → flows (cleanup_batch o now r) !! k = Some s).
Proof.
  intros Hr. unfold cleanup_batch. destruct (_ || _); [|by split_and!].
  unfold removeExpiredLocked.
  set (l := take _ _). set (r' := remove_flows _ _ _).
  assert (Hr' : router_ok r') by (by apply remove_flows_ok).
  assert (Hs : same_settings r r') by apply remove_flows_settings.
  assert (Hf : flows r' = delete_when (λ _ s, expired now s) l (flows r)) by apply remove_flows_flows.
  split_and!.
  - frame.
  - etrans; [exact Hs|by constructor].
  - change (flows r' ⊆ flows r). rewrite Hf. apply delete_when_subseteq.
  - change (∀ k s, flows r !! k = Some s → expired now s = false → flows r' !! k = Some s).
    intros k s Hk He. rewrite Hf. apply delete_when_spares; [|done].
    intros s' Hin. apply elem_of_take in Hin as (i & Hin%list_elem_of_lookup_2 & _).
    apply range_elem in Hin. by simplify_eq.
Qed.

Lemma cleanup_capacity_spec o now r :
  router_ok r →
  router_ok (cleanup_capacity o now r) ∧ same_settings r (cleanup_capacity o now r) ∧
  flows (cleanup_capacity o now r) ⊆ flows r.
Proof.
  intros Hr. unfold cleanup_capacity. destruct (Before _ _); [by split_and!|].
  unfold removeExpiredLocked. set (r' := remove_flows _ _ _).
  assert (Hr' : router_ok r') by (by apply remove_flows_ok).
  split_and!; [frame|etrans; [apply remove_flows_settings|by constructor]|].
  change (flows r' ⊆ flows r). unfold r'. rewrite remove_flows_flows. apply delete_when_subseteq.
Qed.

Lemma refresh_flow_spec key now r r' active :
  refresh_flow key now r = (r', active) → router_ok r →
  router_ok r' ∧ same_settings r r' ∧ flows r' ⊆ flows r ∧ flows r' !! key = active ∧
  (∀ s, active = Some s → r' = r ∧ expired now s = false).
Proof.
  unfold refresh_flow. intros E Hr.
  destruct (flows r !! key) as [s|] eqn:Hk; [|simplify_eq; by split_and!].
  destruct (expired now s || _) eqn:He; simplify_eq.
  - split_and!; [by apply removeFlow_ok|apply removeFlow_settings| | |done];
      rewrite removeFlow_flows; [apply delete_subseteq|by rewrite lookup_delete_eq].
  - bool_to_prop. split_and!; [done..|]. intros ? [= ->]. done.
Qed.

(** *** Opening a flow *)

(** A flow [AuthorizePeerFlow] or [ParseIPv4] lets through. *)
Definition v4_flow (flow : Flow) : Prop :=
  Is4 (SourceIP flow) = true ∧ Is4 (DestinationIP flow) = true ∧
  (Protocol flow = ProtocolTCP ∨ Protocol flow = ProtocolUDP).

Lemma wf_v4_flow flow : wf_flow flow → v4_flow flow.
Proof. intros (? & ? & ? & _). done. Qed.

Definition key_matches (flow : Flow) (key : Key) : Prop :=
  KeyProtocol key = Protocol flow ∧
  ((first_addr key = SourceIP flow ∧ FirstPort key = SourcePort flow ∧
    second_addr key = DestinationIP flow ∧ SecondPort key = DestinationPort flow) ∨
   (first_addr key = DestinationIP flow ∧ FirstPort key = DestinationPort flow ∧
    second_addr key = SourceIP flow ∧ SecondPort key = SourcePort flow)).

Lemma MakeKey_matches flow :
  v4_flow flow → ∃ key, MakeKey flow = Some key ∧ key_matches flow key ∧
    makeNodePair (SourceIP flow) (DestinationIP flow) = Some (pair_of key).
Proof.
  intros (Hs & Hd & _). apply Is4_inv in Hs as [s Hs], Hd as [d Hd].
  unfold MakeKey, ordered_endpoints, key_matches. rewrite Hs, Hd; simpl.
  destruct (endpointLess _ _ _ _); simpl; (eexists; split_and!; [done|done|by auto|]).
  - rewrite makeNodePair_comm. by rewrite <- pair_of_spec.
  - by rewrite <- pair_of_spec.
Qed.

(** The reasons for which a new flow is refused. *)
Definition refusal (e : RouteError) : Prop :=
  e = ErrFlowRejected ∨ e = ErrFlow ErrFlowCapacity ∨ e = ErrFlow ErrFlowRate.

(** What [atCapacity] returns when it does not panic. *)
Definition full (flow : Flow) (pair : nodePair) (r : Router) : bool :=
  (maxFlows r <=? Z.of_nat (size (flows r))) ||
  (routerMaximumNodeFlows <=? count_get (nodeFlows r) (SourceIP flow)) ||
  (routerMaximumNodeFlows <=? count_get (nodeFlows r) (DestinationIP flow)) ||
  (MaximumPairFlows <=? live (admission r) pair).

Lemma atCapacity_full flow pair r :
  makeNodePair (SourceIP flow) (DestinationIP flow) = Some pair →
  atCapacity flow r = Some (full flow pair r).
Proof.
  intros Hpair. unfold atCapacity, full, Count. rewrite Hpair.
  destruct (_ || _ || _); [done|]. by rewrite orb_false_l.
Qed.

Lemma ensure_capacity_spec o flow pair now r r' res :
  ensure_capacity o flow now r = (r', res) →
  makeNodePair (SourceIP flow) (DestinationIP flow) = Some pair → router_ok r →
  router_ok r' ∧ same_settings r r' ∧ flows r' ⊆ flows r ∧
  match res with
  | Ok _ => full flow pair r' = false
  | Err e => e = ErrFlow ErrFlowCapacity
  end.
Proof.
  unfold ensure_capacity. intros E Hpair Hr. rewrite (atCapacity_full _ _ _ Hpair) in E.
  destruct (full flow pair r) eqn:Hfull; [|by simplify_eq].
  destruct (cleanup_capacity_spec o now r Hr) as (Hr1 & Hs1 & Hf1).
  cbv zeta in E. set (r1 := cleanup_capacity o now r) in *. clearbody r1.
  rewrite (atCapacity_full _ _ _ Hpair) in E.
  destruct (full flow pair r1) eqn:Hfull1; simplify_eq; [|done].
  split_and!; [frame|etrans; [done|by constructor]|done|done].
Qed.

Lemma key_charges flow key state :
  key_matches flow key →
  ∀ a, node_charged key state a ↔ SourceIP flow = a ∨ DestinationIP flow = a.
Proof. intros [_ Hm] a. unfold node_charged. destruct Hm as [(-> & _ & -> & _)|(-> & _ & -> & _)]; tauto. Qed.

(** The tables with one more flow. *)
Lemma open_accounts r flow key state adm :
  accounts r → flows r !! key = None → key_matches flow key →
  full flow (pair_of key) r = false → admission_ok adm →
  (∀ p, live adm p = live (admission r) p + (if decide (p = pair_of key) then 1 else 0)) →
  accounts
    (r <| admission := adm |>
       <| nodeFlows := if decide (DestinationIP flow = SourceIP flow)
                       then count_incr (nodeFlows r) (SourceIP flow)
                       else count_incr (count_incr (nodeFlows r) (SourceIP flow)) (DestinationIP flow) |>
       <| flows := <[key := state]> (flows r) |>).
Proof.
  intros Hacc Hkey Hm Hfull Hadm Hlive. unfold full in Hfull. bool_to_prop.
  pose proof (acc_nodes _ Hacc) as Hn. pose proof (key_charges flow key state Hm) as Hc.
  rewrite !(counts_get _ _ _ _ Hn) in *.
  constructor; simpl.
  - by eapply counts_add_two.
  - intros p. rewrite Hlive, tally_insert, <- (acc_pairs _ Hacc) by done.
    unfold charge, pair_charged. repeat case_decide; subst; done.
  - done.
  - rewrite map_size_insert_None by done. lia.
  - intros a. rewrite tally_insert by done. unfold charge. case_decide as Ha.
    + apply Hc in Ha as [<-|<-]; lia.
    + pose proof (acc_node_limit _ Hacc a). lia.
Qed.

Lemma Admit_accounts o flow key now r adm err :
  Admit o flow now (maxFlows r) (admission r) = (adm, err) →
  makeNodePair (SourceIP flow) (DestinationIP flow) = Some (pair_of key) → accounts r →
  admission_ok adm ∧ err ≠ Some FlowPanic ∧
  (∀ p, live adm p = live (admission r) p + (if decide (err = None ∧ p = pair_of key) then 1 else 0)).
Proof.
  intros E Hpair Hacc.
  destruct (Admit_spec _ _ _ _ _ _ _ _ E Hpair (acc_admission _ Hacc)) as (? & ? & _ & ?). done.
Qed.

(** A refused admission may touch the token balance only. *)
Lemma router_ok_admission r r' :
  router_ok r → same_settings r r' → flows r' = flows r → nodeFlows r' = nodeFlows r →
  admission_ok (admission r') → (∀ p, live (admission r') p = live (admission r) p) → router_ok r'.
Proof.
  intros Hr Hs Ef En Ha Hl. eapply router_ok_shrink; [done|done| |by rewrite Ef].
  destruct Hr as [[] _ _ _ _], Hs as [_ _ Em _ _]. constructor; rewrite ?Ef, ?En, ?Em; try done.
  intros p. by rewrite Hl.
Qed.

Definition new_state (flow : Flow) : flowState :=
  {| serviceIP := DestinationIP flow; servicePort := DestinationPort flow;
     protocol := Protocol flow; expiresAt := zero_time |}.

Lemma new_state_ok p flow key target state :
  enabled p = true → byIP p !! DestinationIP flow = Some target →
  is_Some (byIP p !! SourceIP flow) → key_matches flow key →
  allows target (Protocol flow) (DestinationPort flow) = true →
  state = new_state flow → flow_ok p key state.
Proof.
  intros Hen Ht Hs [Hp Hm] Ha ->. constructor; simpl; try done.
  - unfold serviceAllowed. by rewrite Ht.
  - destruct Hm as [(-> & _)|(-> & _)]; eauto.
  - destruct Hm as [(_ & _ & -> & _)|(_ & _ & -> & _)]; eauto.
  - destruct Hm as [(_ & _ & -> & ->)|(-> & -> & _)]; auto.
Qed.

Lemma open_flow_spec o key target flow now r r' res :
  open_flow o key target flow now r = (r', res) → router_ok r →
  makeNodePair (SourceIP flow) (DestinationIP flow) = Some (pair_of key) → key_matches flow key →
  flows r !! key = None → enabled (policy r) = true →
  byIP (policy r) !! DestinationIP flow = Some target → is_Some (byIP (policy r) !! SourceIP flow) →
  router_ok r' ∧ same_settings r r' ∧
  match res with
  | Ok state => state = new_state flow ∧ flows r' !! key = Some state ∧
                allows target (Protocol flow) (DestinationPort flow) = true
  | Err e => refusal e
  end.
Proof.
  unfold open_flow. intros E Hr Hpair Hm Hkey Hen Ht Hsrc.
  destruct (_ && _); [simplify_eq; split_and!; [frame|by constructor|by left]|].
  destruct (allows target _ _) eqn:Hallow; cbn [negb] in E;
    [|simplify_eq; split_and!; [frame|by constructor|by left]].
  destruct (ensure_capacity o flow now r) as [r1 res1] eqn:Hcap.
  destruct (ensure_capacity_spec _ _ _ _ _ _ _ Hcap Hpair Hr) as (Hr1 & Hs1 & Hf1 & Hres1).
  destruct res1 as [[]|e1]; [|simplify_eq; unfold refusal; by auto].
  destruct (Admit _ flow now _ _) as [adm err] eqn:Hadm.
  destruct (Admit_accounts _ _ _ _ _ _ _ Hadm Hpair (ro_accounts _ Hr1)) as (Ha & Hnp & Hlive).
  destruct err as [e|]; cbv zeta in E.
  - assert (Hl : ∀ p, live adm p = live (admission r1) p).
    { intros p. rewrite Hlive, decide_False by (by intros [? _]). lia. }
    destruct e; simplify_eq; (split_and!;
      [eapply (router_ok_admission r1); done || by constructor|etrans; [done|by constructor]|
       unfold refusal; by auto]).
  - simplify_eq. split_and!; [|etrans; [done|by constructor]|done|apply lookup_insert_eq|done].
    assert (Hk1 : flows r1 !! key = None) by (eapply lookup_weaken_None; [exact Hkey|exact Hf1]).
    constructor; try apply Hr1.
    + apply (open_accounts r1 flow key (new_state flow) adm); try done; [apply Hr1|].
      intros p. rewrite Hlive. repeat case_decide; naive_solver.
    + cbn [flows policy upd]. apply map_Forall_insert_2; [|apply Hr1].
      eapply new_state_ok; try done; rewrite (ss_policy _ _ Hs1); done.
Qed.

(** *** Delivery *)

Lemma ChannelIndex_ok sha256 flow n key :
  v4_flow flow → 1 <= n <= 8 → MakeKey flow = Some key →
  ∃ i, ChannelIndex sha256 flow n = Ok i ∧ 0 <= i < n.
Proof.
  intros (Hs & Hd & Hp) Hn Hk. unfold ChannelIndex.
  rewrite (proj2 (Z.eqb_neq n 0)), (proj2 (Z.ltb_ge 8 n)) by lia. rewrite Hs, Hd, Hk; cbn [negb orb].
  replace (negb (Protocol flow =? ProtocolTCP) && negb (Protocol flow =? ProtocolUDP)) with false
    by (destruct Hp as [-> | ->]; reflexivity).
  eexists. split; [done|].
  pose proof (Z.mod_pos_bound (Uint64 (sha256 (key_bytes key))) n ltac:(lia)).
  rewrite wrap_small; lia.
Qed.

Definition idle_of (flow : Flow) (r : Router) : Duration :=
  if Protocol flow =? ProtocolTCP then tcpIdle r else udpIdle r.

(** Where a packet for [flow] is sent under policy [p]. *)
Definition owner_is (p : routingPolicy) (a : Addr) (dest : Destination) : Prop :=
  VirtualIP dest = a ∧
  ((a = serverIP p ∧ Kind dest = DestinationServer ∧ DestClientID dest = "") ∨
   (a ≠ serverIP p ∧ Kind dest = DestinationClient ∧ byClientID p !! DestClientID dest = Some a)).

Lemma deliver_spec sha256 key target flow now state r r' res :
  deliver sha256 key target flow now state r = (r', res) → router_ok r → v4_flow flow →
  MakeKey flow = Some key → flows r !! key = Some state →
  byIP (policy r) !! DestinationIP flow = Some target →
  router_ok r' ∧ same_settings r r' ∧
  flows r' = (if IsTCPReset flow then delete key (flows r)
              else <[key := state <| expiresAt := Add now (idle_of flow r) |>]> (flows r)) ∧
  ∃ dest, res = Ok dest ∧ owner_is (policy r) (DestinationIP flow) dest ∧
    PolicyGeneration dest = policyGeneration r ∧
    0 <= DestChannelIndex dest < packetChannels (policy r).
Proof.
  unfold deliver. intros E Hr Hv4 Hmk Hkey Ht. cbv zeta in E.
  set (r1 := if IsTCPReset flow then _ else _) in E.
  assert (router_ok r1 ∧ same_settings r r1 ∧
    flows r1 = (if IsTCPReset flow then delete key (flows r)
      else <[key := state <| expiresAt := Add now (idle_of flow r) |>]> (flows r))) as (Hr1 & Hs1 & Hf1).
  { unfold r1. destruct (IsTCPReset flow).
    { split_and!; [by apply removeFlow_ok|apply removeFlow_settings|apply removeFlow_flows]. }
    split_and!; [|by constructor|done]. constructor; try apply Hr.
    - destruct (ro_accounts _ Hr) as [Hn Hp ? Hz Hl]. constructor; cbn [flows nodeFlows admission maxFlows upd].
      + by eapply counts_replace.
      + intros p. by rewrite (tally_replace_same pair_charged _ _ state) by done.
      + done.
      + rewrite map_size_insert_Some by done. done.
      + intros a. by rewrite (tally_replace_same node_charged _ _ state) by done.
    - cbn [flows policy upd]. apply map_Forall_insert_2; [|apply Hr].
      destruct (ro_flows _ Hr _ _ Hkey). by constructor. }
  clearbody r1. destruct Hs1 as [Ep Eg Em Et Eu]. rewrite Ep, Eg in E.
  destruct (ChannelIndex_ok sha256 flow (packetChannels (policy r)) key) as (i & Hi & Hbound);
    [done|apply Hr|done|].
  rewrite Hi in E. simplify_eq. split_and!; [done|by constructor|done|].
  eexists. split_and!; [done| |done|simpl; lia|simpl; lia].
  split; [done|]. simpl. case_bool_decide as Hsrv; [by left|right].
  split_and!; [done|done|]. by eapply po_owner; [apply Hr|..].
Qed.

(** *** Routing *)

(** Why a packet of [flow] may be delivered at [now]: its destination is an
    allowed service, or it belongs to a live flow whose service is its
    source. *)
Definition permitted (r : Router) (flow : Flow) (now : Time) : Prop :=
  serviceAllowed (policy r) (DestinationIP flow) (Protocol flow) (DestinationPort flow) = true ∨
  (serviceAllowed (policy r) (SourceIP flow) (Protocol flow) (SourcePort flow) = true ∧
   ∃ key state, MakeKey flow = Some key ∧ flows r !! key = Some state ∧
     now < expiresAt state ∧ serviceIP state = SourceIP flow ∧ servicePort state = SourcePort flow).

Definition authorised (r : Router) (flow : Flow) (now : Time) (dest : Destination) : Prop :=
  enabled (policy r) = true ∧ permitted r flow now ∧
  owner_is (policy r) (DestinationIP flow) dest ∧
  PolicyGeneration dest = policyGeneration r ∧
  0 <= DestChannelIndex dest < packetChannels (policy r).

Lemma live_flow_permitted r flow key state now :
  router_ok r → MakeKey flow = Some key → key_matches flow key → flows r !! key = Some state →
  expired now state = false → permitted r flow now.
Proof.
  intros Hr Hmk [Hp Hm] Hk He. destruct (ro_flows _ Hr _ _ Hk) as [_ Ha _ _ Hproto Hsrv].
  unfold permitted. unfold expired, Before in He. bool_to_prop.
  rewrite Hproto, Hp in Ha.
  assert ((serviceIP state = SourceIP flow ∧ servicePort state = SourcePort flow) ∨
          (serviceIP state = DestinationIP flow ∧ servicePort state = DestinationPort flow))
    as [[Hi Ho]|[Hi Ho]] by (destruct Hm as [(<- & <- & <- & <-)|(<- & <- & <- & <-)]; tauto).
  - right. rewrite <- Hi, <- Ho. split; [done|]. by exists key, state.
  - left. by rewrite <- Hi, <- Ho.
Qed.

Lemma routeLocked_spec sha256 o flow now r r' res :
  routeLocked sha256 o flow now r = (r', res) → router_ok r → v4_flow flow →
  is_Some (byIP (policy r) !! SourceIP flow) →
  router_ok r' ∧ same_settings r r' ∧
  match res with
  | Ok dest => authorised r flow now dest
  | Err e => e = ErrTargetUnavailable ∨ refusal e
  end.
Proof.
  unfold routeLocked. intros E Hr Hv4 Hsrc.
  destruct (enabled (policy r)) eqn:Hen; cbn [negb] in E;
    [|simplify_eq; split_and!; [frame|by constructor|by right; left]].
  destruct (byIP (policy r) !! DestinationIP flow) as [target|] eqn:Ht;
    [|simplify_eq; split_and!; [frame|by constructor|by left]].
  destruct (cleanup_batch_spec o now r Hr) as (Hr1 & Hs1 & Hf1 & _).
  cbv zeta in E. set (r1 := cleanup_batch o now r) in *. clearbody r1.
  destruct (MakeKey_matches flow Hv4) as (key & Hmk & Hm & Hpair). rewrite Hmk in E.
  destruct (refresh_flow key now r1) as [r2 active] eqn:Href.
  destruct (refresh_flow_spec _ _ _ _ _ Href Hr1) as (Hr2 & Hs2 & Hf2 & Hk2 & Hlive).
  assert (Hs : same_settings r r2) by (by etrans). pose proof (ss_policy _ _ Hs) as Ep.
  destruct active as [state|].
  - destruct (Hlive state eq_refl) as [-> He].
    destruct (deliver_spec _ _ _ _ _ _ _ _ _ E Hr1 Hv4 Hmk Hk2) as (Hr3 & Hs3 & _ & d & -> & Ho & Hg & Hc);
      [by rewrite Ep|].
    split_and!; [done|by etrans|]. rewrite Ep in *. rewrite (ss_generation _ _ Hs) in Hg.
    split_and!; [done| |done|done|lia|lia].
    apply (live_flow_permitted r flow key state); try done. by eapply lookup_weaken.
  - destruct (open_flow o key target flow now r2) as [r3 res3] eqn:Hopen.
    destruct (open_flow_spec _ _ _ _ _ _ _ _ Hopen) as (Hr3 & Hs3 & Hres3); rewrite ?Ep; try done.
    destruct res3 as [state|e]; [|simplify_eq; split_and!; [done|by etrans|by right]].
    destruct Hres3 as (_ & Hk3 & Ha). assert (Hs' : same_settings r r3) by (by etrans).
    destruct (deliver_spec _ _ _ _ _ _ _ _ _ E Hr3 Hv4 Hmk Hk3) as (Hr4 & Hs4 & _ & d & -> & Ho & Hg & Hc);
      [by rewrite (ss_policy _ _ Hs')|].
    rewrite (ss_policy _ _ Hs'), (ss_generation _ _ Hs') in *.
    split_and!; [done|by etrans|]. split_and!; [done| |done|done|lia|lia].
    left. unfold serviceAllowed. by rewrite Ht.
Qed.

Lemma client_address_known p c a :
  policy_ok p → byClientID p !! c = Some a → is_Some (byIP p !! a).
Proof. intros Hp Hc. apply (po_client _ Hp) in Hc as (_ & _ & _ & e & -> & _). eauto. Qed.

(** What every routing entry point guarantees about its result, for a packet
    whose source must satisfy [owns]. *)
Definition routed (r r' : Router) (now : Time) (accepts : Flow → Prop) (owns : Flow → Prop)
    (res : result RouteError Destination) : Prop :=
  router_ok r' ∧ same_settings r r' ∧
  match res with
  | Ok dest => ∃ flow, accepts flow ∧ owns flow ∧ authorised r flow now dest
  | Err e => (∃ e', e = ErrPacket e' ∧ e' ≠ PacketPanic) ∨ e = ErrSourceRejected ∨
             e = ErrTargetUnavailable ∨ refusal e
  end.

Lemma route_owned sha256 o flow now r (accepts owns : Flow → Prop) `{Decision (owns flow)} :
  router_ok r → accepts flow → v4_flow flow → (owns flow → is_Some (byIP (policy r) !! SourceIP flow)) →
  let out := if bool_decide (owns flow) then routeLocked sha256 o flow now r
             else (reject_policy r, Err ErrSourceRejected) in
  routed r (fst out) now accepts owns (snd out).
Proof.
  intros Hr Hacc Hv4 Hsrc. simpl. case_bool_decide as Hown.
  - destruct (routeLocked sha256 o flow now r) as [r' res] eqn:E.
    destruct (routeLocked_spec _ _ _ _ _ _ _ E Hr Hv4) as (Hr' & Hs & Hres); [by apply Hsrc|].
    split_and!; [done|done|]. simpl. destruct res; naive_solver.
  - split_and!; [simpl; frame|by constructor|simpl; auto].
Qed.

Lemma refused_packet r now accepts owns e :
  router_ok r → e ≠ PacketPanic → routed r r now accepts owns (Err (ErrPacket e)).
Proof. intros. split_and!; [done|done|]. left. by exists e. Qed.

Lemma RouteClientPacket_spec sha256 o client packet now r r' res :
  RouteClientPacket sha256 o client packet now r = (r', res) → router_ok r →
  routed r r' now (λ flow, ParseIPv4 packet = Ok flow)
    (λ flow, byClientID (policy r) !! client = Some (SourceIP flow)) res.
Proof.
  unfold RouteClientPacket. intros E Hr. pose proof (ParseIPv4_wf packet) as Hwf.
  destruct (ParseIPv4 packet) as [flow|e] eqn:Hparse; [|simplify_eq; by apply refused_packet].
  epose proof (route_owned sha256 o flow now r (λ f, Ok flow = Ok f)
    (λ f, byClientID (policy r) !! client = Some (SourceIP f)) Hr) as H.
  simpl in H. rewrite E in H. apply H; [done|by apply wf_v4_flow|].
  intros. by eapply client_address_known; [apply Hr|].
Qed.

Lemma AuthorizePeerFlow_spec sha256 o client flow now r r' res :
  AuthorizePeerFlow sha256 o client flow now r = (r', res) → router_ok r →
  routed r r' now (λ f, f = flow ∧ v4_flow flow)
    (λ f, byClientID (policy r) !! client = Some (SourceIP f)) res.
Proof.
  unfold AuthorizePeerFlow. intros E Hr.
  destruct (_ || _) eqn:Hbad; [simplify_eq; by apply refused_packet|].
  assert (v4_flow flow).
  { bool_to_prop. split_and!; [done|done|]. destruct H0; bool_to_prop; auto. }
  epose proof (route_owned sha256 o flow now r (λ f, f = flow ∧ v4_flow flow)
    (λ f, byClientID (policy r) !! client = Some (SourceIP f)) Hr) as Hroute.
  simpl in Hroute. rewrite E in Hroute. apply Hroute; [done|done|].
  intros. by eapply client_address_known; [apply Hr|].
Qed.

Lemma RouteServerPacket_spec sha256 o packet now r r' res :
  RouteServerPacket sha256 o packet now r = (r', res) → router_ok r →
  routed r r' now (λ flow, ParseIPv4 packet = Ok flow) (λ flow, SourceIP flow = serverIP (policy r)) res.
Proof.
  unfold RouteServerPacket. intros E Hr. pose proof (ParseIPv4_wf packet) as Hwf.
  destruct (ParseIPv4 packet) as [flow|e] eqn:Hparse; [|simplify_eq; by apply refused_packet].
  epose proof (route_owned sha256 o flow now r (λ f, Ok flow = Ok f)
    (λ f, SourceIP f = serverIP (policy r)) Hr) as H.
  simpl in H. rewrite E in H. apply H; [done|by apply wf_v4_flow|].
  intros ->. destruct (po_server _ (ro_policy _ Hr)) as (e & -> & _). eauto.
Qed.

(** *** Policies *)

Section policy_lemmas.
Context `{NetipText}.

Lemma add_nodes_ok nodes : ∀ p p',
  add_nodes p nodes = Some p' → policy_ok p →
  policy_ok p' ∧ enabled p' = enabled p ∧ serverIP p' = serverIP p.
Proof.
  induction nodes as [|node nodes IH]; intros p p' E Hp; simpl in E; [by simplify_eq|].
  destruct (ParseAddr (NodeIP node)) as [a|]; [|done].
  destruct (negb (Is4 a) || _) eqn:Hbad; [done|]. bool_to_prop.
  destruct (byIP p !! a) as [|] eqn:Ha; [done|].
  destruct (byClientID p !! NodeClientID node) as [|] eqn:Hc; [done|].
  apply IH in E; [exact E|]. destruct Hp as [Hch (es & Hes & Hid) Hs4 Hcl Hown].
  assert (a ≠ serverIP p) by congruence.
  constructor; simpl; try done.
  - exists es. by rewrite lookup_insert_ne.
  - intros c b. rewrite lookup_insert. case_decide; intros; simplify_eq.
    + split_and!; try done. eexists. by rewrite lookup_insert_eq.
    + destruct (Hcl c b) as (? & ? & ? & e & He & ?); [done|].
      split_and!; try done. exists e. rewrite lookup_insert_ne by congruence. done.
  - intros b e. rewrite lookup_insert. case_decide; intros; simplify_eq; simpl.
    + by rewrite lookup_insert_eq.
    + pose proof (Hown _ _ ltac:(done) ltac:(done)).
      rewrite lookup_insert_ne; [done|]. congruence.
Qed.

Lemma buildRoutingPolicy_ok configuration p :
  buildRoutingPolicy configuration = Some p →
  policy_ok p ∧ enabled p = Enabled configuration ∧ ParseAddr (ServerIP configuration) = Some (serverIP p).
Proof.
  unfold buildRoutingPolicy. destruct (ParseAddr _) as [server|]; [|done].
  destruct (_ || _) eqn:Hbad; [done|]. bool_to_prop.
  intros E. apply add_nodes_ok in E as (? & -> & ->); [done|].
  constructor; simpl.
  - rewrite wrap_small; lia.
  - eexists. by rewrite lookup_singleton_eq.
  - done.
  - intros ??. by rewrite lookup_empty.
  - intros a e [<- _]%lookup_singleton_Some. done.
Qed.

Lemma ApplyPolicy_spec ρ configuration r r' :
  ApplyPolicy ρ configuration r = Some r' → router_ok r →
  router_ok r' ∧ policyGeneration r' = u64 (policyGeneration r + 1) ∧ maxFlows r' = maxFlows r ∧
  buildRoutingPolicy configuration = Some (policy r') ∧
  flows r' = filter (λ p, retained (policy r) (policy r') p.1 p.2 = true) (flows r).
Proof.
  unfold ApplyPolicy. intros E Hr.
  destruct (buildRoutingPolicy configuration) as [p|] eqn:Hb; [|done].
  apply buildRoutingPolicy_ok in Hb as Hp. destruct Hp as (Hp & _).
  cbn [mbind option_bind] in E. cbv zeta in E. simplify_eq.
  set (r1 := upd policyGeneration _ _). set (P := λ key state, negb _). set (l := ρ _).
  destruct (remove_flows_settings P l r1) as [Ep Eg Em Et Eu].
  assert (Hf : flows (remove_flows P l r1) =
    filter (λ q, retained (policy r) p q.1 q.2 = true) (flows r)).
  { rewrite remove_flows_flows. change (flows r1) with (flows r).
    unfold l. rewrite delete_when_range. apply map_filter_ext. intros k s _. unfold P; simpl.
    by destruct (retained _ _ _ _). }
  rewrite Ep, Eg, Em. split_and!; try done. constructor.
  - apply remove_flows_accounts. destruct (ro_accounts _ Hr). by constructor.
  - rewrite Hf, Ep. intros k s [Hk Hret]%map_lookup_filter_Some. simpl in Hret.
    destruct (ro_flows _ Hr _ _ Hk). unfold retained in Hret. bool_to_prop. by constructor.
  - rewrite Ep. done.
  - rewrite Eg. apply wrap_range. lia.
  - rewrite Et, Eu. apply Hr.
Qed.

Lemma RemoveClient_spec ρ client r :
  router_ok r →
  let r' := RemoveClient ρ client r in
  router_ok r' ∧ policy r' = policy r ∧
  match byClientID (policy r) !! client with
  | None => r' = r
  | Some address =>
    policyGeneration r' = u64 (policyGeneration r + 1) ∧
    flows r' = filter (λ p, ¬ node_charged p.1 p.2 address) (flows r)
  end.
Proof.
  intros Hr. unfold RemoveClient.
  destruct (byClientID (policy r) !! client) as [a|] eqn:Hc; [|done].
  pose proof (po_client _ (ro_policy _ Hr) _ _ Hc) as (Ha & _).
  apply Is4_inv in Ha as [x ->]. change (As4 (Addr4 x)) with (Some x). cbv beta iota zeta.
  set (r1 := upd policyGeneration _ _).
  set (P := λ (key : Key) (_ : flowState),
    bool_decide (FirstIP key = x) || bool_decide (SecondIP key = x)).
  set (l := ρ _).
  assert (Hr1 : router_ok r1).
  { destruct Hr as [[] ? ? ? ?]. constructor; [by constructor|done|done| |done].
    apply wrap_range. lia. }
  destruct (remove_flows_settings P l r1) as [Ep Eg Em Et Eu].
  split_and!; [by apply remove_flows_ok|done|done|].
  rewrite remove_flows_flows. unfold l. rewrite delete_when_range.
  apply map_filter_ext. intros k s _. unfold P, node_charged, first_addr, second_addr; simpl.
  rewrite orb_false_iff, !bool_decide_eq_false. naive_solver.
Qed.

Lemma NewRouter_ok configuration maximum r :
  NewRouter configuration maximum = Some r → router_ok r ∧ maxFlows r = maximum.
Proof.
  unfold NewRouter. destruct (buildRoutingPolicy configuration) as [p|] eqn:Hb; [|done].
  apply buildRoutingPolicy_ok in Hb as (Hp & _). cbn [mbind option_bind].
  destruct (Z.ltb_spec maximum 1); [done|]. intros ?; simplify_eq. split; [|done].
  constructor; simpl; try done. constructor; try done; cbn [flows maxFlows].
  rewrite map_size_empty. lia.
Qed.
End policy_lemmas.

(** ** Histories

    Every method holds the mutex for its whole body, so a history of the
    router is a sequence of calls; time, packets, hash values and iteration
    orders are arbitrary. *)
Section histories.
Context `{NetipText}.

Inductive router_step (r : Router) : Router → Prop :=
| step_apply ρ configuration r' :
    ApplyPolicy ρ configuration r = Some r' → router_step r r'
| step_remove ρ client : router_step r (RemoveClient ρ client r)
| step_client sha256 o client packet now :
    router_step r (fst (RouteClientPacket sha256 o client packet now r))
| step_peer sha256 o client flow now :
    router_step r (fst (AuthorizePeerFlow sha256 o client flow now r))
| step_server sha256 o packet now :
    router_step r (fst (RouteServerPacket sha256 o packet now r)).

Definition reachable (r : Router) : Prop :=
  ∃ configuration maximum r0, NewRouter configuration maximum = Some r0 ∧ rtc router_step r0 r.

Lemma router_step_ok r r' : router_step r r' → router_ok r → router_ok r' ∧ maxFlows r' = maxFlows r.
Proof.
  intros Hstep Hr. destruct Hstep.
  - match goal with H : ApplyPolicy _ _ _ = _ |- _ => by apply ApplyPolicy_spec in H as (? & _ & ? & _) end.
  - destruct (RemoveClient_spec ρ client r Hr) as (? & _). split; [done|].
    unfold RemoveClient. repeat case_match; try done.
    by rewrite (ss_max _ _ (remove_flows_settings _ _ _)).
  - destruct (RouteClientPacket _ _ _ _ _ _) as [r' res] eqn:E.
    by apply RouteClientPacket_spec in E as (? & [] & _).
  - destruct (AuthorizePeerFlow _ _ _ _ _ _) as [r' res] eqn:E.
    by apply AuthorizePeerFlow_spec in E as (? & [] & _).
  - destruct (RouteServerPacket _ _ _ _ _) as [r' res] eqn:E.
    by apply RouteServerPacket_spec in E as (? & [] & _).
Qed.

Lemma steps_ok r0 r : rtc router_step r0 r → router_ok r0 → router_ok r ∧ maxFlows r = maxFlows r0.
Proof.
  induction 1 as [|x y z Hxy _ IH]; [done|]. intros Hx.
  apply router_step_ok in Hxy as [Hy <-]; [|done]. by apply IH.
Qed.

Lemma reachable_ok r : reachable r → router_ok r.
Proof. intros (c & m & r0 & [Hr0 _]%NewRouter_ok & Hs). by apply (steps_ok r0). Qed.
End histories.

(** *** Flows stay open *)

Lemma routeLocked_records sha256 o flow key now r r' dest :
  routeLocked sha256 o flow now r = (r', Ok dest) → router_ok r → v4_flow flow →
  is_Some (byIP (policy r) !! SourceIP flow) → MakeKey flow = Some key → IsTCPReset flow = false →
  ∃ state, flows r' !! key = Some state ∧ expiresAt state = Add now (idle_of flow r).
Proof.
  unfold routeLocked. intros E Hr Hv4 Hsrc Hmk Hrst.
  destruct (enabled (policy r)) eqn:Hen; [cbn [negb] in E|done].
  destruct (byIP (policy r) !! DestinationIP flow) as [target|] eqn:Ht; [|done].
  destruct (cleanup_batch_spec o now r Hr) as (Hr1 & Hs1 & _).
  cbv zeta in E. set (r1 := cleanup_batch o now r) in *. clearbody r1.
  destruct (MakeKey_matches flow Hv4) as (key' & Hmk' & Hm & Hpair). simplify_eq. rewrite Hmk in E.
  destruct (refresh_flow key now r1) as [r2 active] eqn:Href.
  destruct (refresh_flow_spec _ _ _ _ _ Href Hr1) as (Hr2 & Hs2 & _ & Hk2 & _).
  assert (Hs : same_settings r r2) by (by etrans). pose proof (ss_policy _ _ Hs) as Ep.
  assert (∃ state r3, same_settings r r3 ∧ router_ok r3 ∧ flows r3 !! key = Some state ∧
    deliver sha256 key target flow now state r3 = (r', Ok dest)) as (state & r3 & Hs3 & Hr3 & Hk3 & Hd).
  { destruct active as [state|]; [by exists state, r2|].
    destruct (open_flow o key target flow now r2) as [r3 [state|e]] eqn:Hopen; [|done].
    destruct (open_flow_spec _ _ _ _ _ _ _ _ Hopen) as (? & ? & _ & ? & _); rewrite ?Ep; try done.
    exists state, r3. split_and!; [by etrans|done..]. }
  apply deliver_spec in Hd as (_ & _ & Hf & _); try done; [|by rewrite (ss_policy _ _ Hs3)].
  rewrite Hf, Hrst, lookup_insert_eq. eexists. split; [done|]. cbn [expiresAt upd].
  unfold idle_of. by rewrite (ss_tcp _ _ Hs3), (ss_udp _ _ Hs3).
Qed.

Lemma routeLocked_live sha256 o flow key state now r :
  router_ok r → v4_flow flow → MakeKey flow = Some key → flows r !! key = Some state →
  now < expiresAt state →
  ∃ dest, snd (routeLocked sha256 o flow now r) = Ok dest ∧ authorised r flow now dest.
Proof.
  intros Hr Hv4 Hmk Hk Hlt.
  destruct (MakeKey_matches flow Hv4) as (key' & Hmk' & Hm & Hpair). simplify_eq.
  destruct (ro_flows _ Hr _ _ Hk) as [Hen Hallow Hfst Hsnd _ _].
  assert (is_Some (byIP (policy r) !! SourceIP flow) ∧ is_Some (byIP (policy r) !! DestinationIP flow))
    as [Hsrc [target Ht]] by (destruct Hm as [_ [(<- & _ & <- & _)|(<- & _ & <- & _)]]; done).
  destruct (routeLocked sha256 o flow now r) as [r' res] eqn:E.
  destruct (routeLocked_spec _ _ _ _ _ _ _ E Hr Hv4 Hsrc) as (_ & _ & Hres).
  cbn [snd]. enough (∃ d, res = Ok d) as [d ->] by (by exists d).
  unfold routeLocked in E. rewrite Hen, Ht in E. cbn [negb] in E. cbv zeta in E.
  destruct (cleanup_batch_spec o now r Hr) as (Hr1 & Hs1 & _ & Hspare).
  set (r1 := cleanup_batch o now r) in *. clearbody r1. rewrite Hmk in E.
  assert (He : expired now state = false) by (unfold expired, Before; apply negb_false_iff, Z.ltb_lt; done).
  specialize (Hspare _ _ Hk He). unfold refresh_flow in E.
  rewrite Hspare, He, (ss_policy _ _ Hs1), Hallow in E. cbn [negb orb] in E.
  apply deliver_spec in E as (_ & _ & _ & d & -> & _); try done; [eauto|].
  by rewrite (ss_policy _ _ Hs1).
Qed.

(** *** Validated configurations *)

Section validated.
Context `{NetipText}.

Lemma parseVNetHost_ok prefix source a :
  parseVNetHost prefix source = Ok a → ParseAddr source = Some a ∧ Is4 a = true.
Proof.
  unfold parseVNetHost. destruct (ParseAddr source) as [b|]; [|done].
  destruct (_ || _) eqn:Hbad; [done|]. destruct (negb (Contains _ _)); [done|].
  destruct (bool_decide (b = _) || _); [done|].
  intros [= <-]. apply orb_false_iff in Hbad as [?%negb_false_iff _]. done.
Qed.

Lemma add_nodes_monotone nodes : ∀ p p',
  add_nodes p nodes = Some p' → byIP p ⊆ byIP p' ∧ byClientID p ⊆ byClientID p'.
Proof.
  induction nodes as [|node nodes IH]; intros p p' E; simpl in E; [by simplify_eq|].
  destruct (ParseAddr (NodeIP node)) as [a|]; [|done]. destruct (_ || _); [done|].
  destruct (byIP p !! a) eqn:Ha; [done|]. destruct (byClientID p !! _) eqn:Hc; [done|].
  apply IH in E as [Hi Hj]; simpl in *.
  split; (etrans; [by apply insert_subseteq|done]).
Qed.

Lemma add_nodes_enabled nodes : ∀ p p', add_nodes p nodes = Some p' → enabled p' = enabled p.
Proof.
  induction nodes as [|node nodes IH]; intros q q' E; simpl in E; [by simplify_eq|].
  repeat case_match; simplify_eq; by apply IH in E.
Qed.

(** Every node of the list is entered with its own ports. *)
Lemma add_nodes_complete nodes : ∀ p p',
  add_nodes p nodes = Some p' →
  Forall (λ node, ∃ a, ParseAddr (NodeIP node) = Some a ∧
    byClientID p' !! NodeClientID node = Some a ∧
    byIP p' !! a = Some (newEndpointPolicy (NodeClientID node) (NodePorts node))) nodes.
Proof.
  induction nodes as [|node nodes IH]; intros p p' E; [constructor|]. simpl in E.
  destruct (ParseAddr (NodeIP node)) as [a|] eqn:Hparse; [|done]. destruct (_ || _); [done|].
  destruct (byIP p !! a) eqn:Ha; [done|]. destruct (byClientID p !! _) eqn:Hc; [done|].
  constructor; [|by eapply IH]. apply add_nodes_monotone in E as [Hi Hj]; simpl in *.
  exists a. split_and!; [done|eapply lookup_weaken; [apply lookup_insert_eq|done]..].
Qed.

Lemma ValidateClientID_nonempty : ValidateClientID "" = false.
Proof. reflexivity. Qed.

(** Validation and policy construction reject the same duplicates. *)
Lemma validated_nodes_added prefix nodes : ∀ index ids addresses ports b p,
  validate_nodes prefix index ids addresses ports nodes = Ok b →
  (∀ c, is_Some (byClientID p !! c) ↔ c ∈ ids) →
  (∀ a, is_Some (byIP p !! a) ↔ a ∈ addresses) →
  is_Some (add_nodes p nodes) ∧ Forall (λ node, validateVNetPorts (NodePorts node) = None) nodes.
Proof.
  induction nodes as [|node nodes IH]; intros index ids addresses ports b p E Hids Haddr; simpl in *.
  { split; [eauto|constructor]. }
  destruct (negb (ValidateClientID _)) eqn:Hvalid; [done|].
  case_bool_decide as Hid; [done|].
  destruct (parseVNetHost prefix (NodeIP node)) as [a|] eqn:Hhost; [|done].
  apply parseVNetHost_ok in Hhost as [-> Ha4].
  case_bool_decide as Hin; [done|].
  destruct (validateVNetPorts (NodePorts node)) eqn:Hports; [done|].
  assert (NodeClientID node ≠ "").
  { intros Hempty. rewrite Hempty, ValidateClientID_nonempty in Hvalid. done. }
  rewrite Ha4, bool_decide_eq_false_2 by done. cbn [negb orb].
  rewrite <- Haddr, <- eq_None_not_Some in Hin. rewrite <- Hids, <- eq_None_not_Some in Hid.
  rewrite Hin, Hid. edestruct IH as [Hadd Hall]; [exact E| | |split; [exact Hadd|by constructor]].
  - intros c. simpl. rewrite lookup_insert_is_Some', elem_of_union, elem_of_singleton, <- Hids.
    intuition congruence.
  - intros c. simpl. rewrite lookup_insert_is_Some', elem_of_union, elem_of_singleton, <- Haddr.
    intuition congruence.
Qed.

Lemma valid_ports_lookup e ports proto port :
  validateVNetPorts ports = None → e = newEndpointPolicy (clientID e) ports →
  allows e proto port = true ↔
  (proto = ProtocolTCP ∧ port_in_ranges port (PortsTCP ports) = true) ∨
  (proto = ProtocolUDP ∧ port_in_ranges port (PortsUDP ports) = true).
Proof.
  unfold validateVNetPorts. destruct (validateSortedPortRanges (PortsTCP ports)) eqn:Ht; [done|].
  intros Hu He. apply validateSortedPortRanges_ok in Ht as [??], Hu as [??].
  unfold allows. rewrite He; simpl. rewrite !search_ranges_linear by done.
  assert (ProtocolTCP ≠ ProtocolUDP) by done.
  destruct (Z.eqb_spec proto ProtocolTCP), (Z.eqb_spec proto ProtocolUDP); simpl;
    intuition congruence.
Qed.
End validated.

(** ** Theorems *)

(** C1: in every history of calls, the counters of the router are exact (one
    per flow for each of its addresses and for its address pair), the table
    holds at most the configured number of flows, no address has more than
    4096 and no pair more than 1024, and every flow in the table is authorised
    by the current policy. *)
Theorem router_invariant `{NetipText} configuration maximum r0 r :
  NewRouter configuration maximum = Some r0 → rtc router_step r0 r →
  Z.of_nat (size (flows r)) <= maximum ∧
  (∀ a, count_get (nodeFlows r) a = tally node_charged (flows r) a ∧
        count_get (nodeFlows r) a <= routerMaximumNodeFlows) ∧
  (∀ p, live (admission r) p = tally pair_charged (flows r) p ∧
        live (admission r) p <= MaximumPairFlows) ∧
  map_Forall (flow_ok (policy r)) (flows r).
Proof.
  intros [Hr0 <-]%NewRouter_ok Hs. destruct (steps_ok r0 r Hs Hr0) as [[[Hn Hp Ha Hz Hl] Hf _ _ _] <-].
  split_and!; [done| | |done].
  - intros a. rewrite (counts_get _ _ _ a Hn). done.
  - intros p. split; [done|]. unfold live. destruct (pairs _ !! p) as [b|] eqn:Hb; [|done].
    apply (Ha p b Hb).
Qed.

(** C2: a packet from a client is delivered only if it parses, its source is
    the address the policy assigns to that client, the network is enabled,
    and either its destination is an allowed service or it answers a live flow
    that was opened towards its allowed source; it then goes to the owner of
    the destination address on an existing channel, stamped with the current
    policy generation.  Every refusal is one of the documented errors, never a
    panic. *)
Theorem client_packet_authorised `{NetipText} sha256 o client packet now r r' res :
  reachable r → RouteClientPacket sha256 o client packet now r = (r', res) →
  match res with
  | Ok dest => ∃ flow, ParseIPv4 packet = Ok flow ∧
      byClientID (policy r) !! client = Some (SourceIP flow) ∧ authorised r flow now dest
  | Err e => (∃ e', e = ErrPacket e' ∧ e' ≠ PacketPanic) ∨ e = ErrSourceRejected ∨
             e = ErrTargetUnavailable ∨ refusal e
  end.
Proof. intros Hr E. by apply RouteClientPacket_spec in E as (_ & _ & ?); [|apply reachable_ok]. Qed.

(** Once a client's packet is delivered to another client, the answering
    packet (same addresses and ports swapped) sent by that client within the
    idle time of the protocol is delivered back to the first client, whether
    or not any service of the first client is allowed. *)
Theorem reply_delivered `{NetipText} sha256 o o' client packet reply flow flags now now' r r' dest :
  reachable r →
  RouteClientPacket sha256 o client packet now r = (r', Ok dest) →
  ParseIPv4 packet = Ok flow → IsTCPReset flow = false → Kind dest = DestinationClient →
  ParseIPv4 reply = Ok (reverse_flow flow flags) → 0 <= flags < 2 ^ 8 →
  now' < Add now (idle_of flow r) →
  ∃ dest', snd (RouteClientPacket sha256 o' (DestClientID dest) reply now' r') = Ok dest' ∧
    Kind dest' = DestinationClient ∧ DestClientID dest' = client.
Proof.
  intros Hr%reachable_ok E Hparse Hrst Hkind Hreply Hflags Hnow.
  pose proof (RouteClientPacket_spec _ _ _ _ _ _ _ _ E Hr) as (Hr' & Hs & f & Hf & Hown & Hauth).
  assert (f = flow) as -> by congruence. clear Hf. pose proof (ParseIPv4_wf packet) as Hwf. rewrite Hparse in Hwf.
  destruct (MakeKey_total flow Hwf) as [key Hmk].
  pose proof (wf_v4_flow _ Hwf) as Hv4.
  destruct Hauth as (_ & _ & (_ & [(_ & ? & _)|(Hne & _ & Hdest)]) & _); [congruence|].
  unfold RouteClientPacket in E. rewrite Hparse in E. rewrite bool_decide_eq_true_2 in E by done.
  destruct (routeLocked_records _ _ _ key _ _ _ _ E Hr Hv4) as (state & Hk & Hexp);
    [by eapply client_address_known; [apply Hr|]|done|done|].
  unfold RouteClientPacket. rewrite Hreply. rewrite bool_decide_eq_true_2
    by (by rewrite (ss_policy _ _ Hs)).
  destruct (routeLocked_live sha256 o' (reverse_flow flow flags) key state now' r')
    as (d & Hd & Hauth); [done|by apply wf_v4_flow, wf_reverse|by rewrite MakeKey_reverse|done|lia|].
  exists d. split; [done|]. destruct Hauth as (_ & _ & (_ & Howner) & _).
  cbn [DestinationIP reverse_flow] in Howner. rewrite (ss_policy _ _ Hs) in Howner.
  destruct (po_client _ (ro_policy _ Hr) _ _ Hown) as (_ & Hns & _ & e & He & <-).
  destruct Howner as [(? & _)|(_ & Hk' & Hd')]; [done|]. split; [done|].
  destruct (po_client _ (ro_policy _ Hr) _ _ Hd') as (_ & _ & _ & e' & He' & <-). by simplify_eq.
Qed.

(** Replacing the policy keeps exactly the flows whose two addresses have
    the owners they had and whose service the new policy still allows, and
    invalidates every destination stamped before. *)
Theorem apply_policy_revokes `{NetipText} ρ configuration r r' :
  reachable r → ApplyPolicy ρ configuration r = Some r' →
  buildRoutingPolicy configuration = Some (policy r') ∧
  (∀ key state, flows r' !! key = Some state ↔
     flows r !! key = Some state ∧ retained (policy r) (policy r') key state = true) ∧
  (∀ dest, IsCurrent dest r = true → IsCurrent dest r' = false).
Proof.
  intros Hr%reachable_ok E. destruct (ApplyPolicy_spec _ _ _ _ E Hr) as (_ & Hg & _ & Hp & Hf).
  split_and!; [done|intros; by rewrite Hf, map_lookup_filter_Some|].
  intros dest Hcur. unfold IsCurrent in *. bool_to_prop. rewrite Hg.
  apply andb_false_intro2, Z.eqb_neq.
  pose proof (wrap_succ_ne 64 (policyGeneration r) ltac:(lia) (ro_generation _ Hr)). lia.
Qed.

(** Removing a client drops exactly the flows that involve its address,
    keeps the policy and invalidates every destination stamped before;
    removing an unknown client changes nothing. *)
Theorem remove_client_revokes `{NetipText} ρ client r :
  reachable r →
  let r' := RemoveClient ρ client r in
  match byClientID (policy r) !! client with
  | None => r' = r
  | Some address =>
    policy r' = policy r ∧
    (∀ key state, flows r' !! key = Some state ↔
       flows r !! key = Some state ∧ first_addr key ≠ address ∧ second_addr key ≠ address) ∧
    (∀ dest, IsCurrent dest r = true → IsCurrent dest r' = false)
  end.
Proof.
  intros Hr%reachable_ok. destruct (RemoveClient_spec ρ client r Hr) as (_ & Hp & Hm).
  cbv zeta. destruct (byClientID (policy r) !! client) as [a|]; [|done]. destruct Hm as [Hg Hf].
  split_and!; [done| |].
  - intros key state. rewrite Hf, map_lookup_filter_Some. unfold node_charged; simpl. naive_solver.
  - intros dest Hcur. unfold IsCurrent in *. bool_to_prop. rewrite Hg.
    apply andb_false_intro2, Z.eqb_neq.
    pose proof (wrap_succ_ne 64 (policyGeneration r) ltac:(lia) (ro_generation _ Hr)). lia.
Qed.

(** Every configuration that validation accepts gives a router, and its
    policy is the configuration: each node's client owns the node's address,
    and a port of that address is served exactly when it lies in one of the
    ranges configured for the protocol. *)
Theorem valid_configuration_routed `{NetipText} configuration maximum :
  validateVirtualNetworkConfig configuration = None → 1 <= maximum →
  ∃ r, NewRouter configuration maximum = Some r ∧ enabled (policy r) = Enabled configuration ∧
    ∀ node, node ∈ Nodes configuration → ∃ a,
      ParseAddr (NodeIP node) = Some a ∧ byClientID (policy r) !! NodeClientID node = Some a ∧
      ∀ proto port, serviceAllowed (policy r) a proto port = true ↔
        (proto = ProtocolTCP ∧ port_in_ranges port (PortsTCP (NodePorts node)) = true) ∨
        (proto = ProtocolUDP ∧ port_in_ranges port (PortsUDP (NodePorts node)) = true).
Proof.
  unfold validateVirtualNetworkConfig. intros Hvalid Hmax.
  destruct (_ && _) in Hvalid; [done|]. destruct (ParsePrefix _) as [prefix|]; [|done].
  destruct (_ || _) in Hvalid; [done|]. destruct (negb _) in Hvalid; [done|].
  destruct (30 <? _) in Hvalid; [done|].
  destruct (parseVNetHost prefix (ServerIP configuration)) as [server|] eqn:Hserver; [|done].
  apply parseVNetHost_ok in Hserver as [Hparse H4].
  destruct (_ || _) eqn:Hch in Hvalid; [done|]. destruct (hardMaxVNetNodes <? _); [done|].
  destruct (validateVNetPorts (ServerPorts configuration)); [done|].
  destruct (validate_nodes _ _ _ _ _ _) as [b|] eqn:Hnodes; [|done]. clear Hvalid.
  unfold NewRouter, buildRoutingPolicy. rewrite Hparse, H4. unfold hardMaxVNetPacketChannels in Hch.
  cbn [negb orb]. rewrite Hch. set (p0 := Build_routingPolicy _ _ _ _ _).
  destruct (validated_nodes_added _ _ _ _ _ _ _ p0 Hnodes) as [[p Hp] Hports].
  { intros c. unfold p0; simpl. rewrite lookup_empty, is_Some_alt. set_solver. }
  { intros a. unfold p0; simpl. rewrite elem_of_singleton, lookup_singleton.
    case_decide; subst; [naive_solver|]. split; [by intros []|done]. }
  pose proof (add_nodes_enabled _ _ _ Hp) as Hen.
  rewrite Hp. cbn [mbind option_bind]. rewrite (proj2 (Z.ltb_ge maximum 1)) by lia.
  eexists. split_and!; [done|done|]. cbn [policy]. intros node Hnode.
  apply add_nodes_complete in Hp. rewrite Forall_forall in Hp, Hports.
  destruct (Hp node Hnode) as (a & Ha & Hc & Hi). exists a. split_and!; [done|done|].
  intros proto port. unfold serviceAllowed. rewrite Hi.
  apply valid_ports_lookup; [by apply Hports|done].
Qed.

(** ** Witnesses *)

Definition tcp_only (port : Z) : VNetPortPermissions :=
  {| PortsTCP := [{| Start := port; End_ := port |}]; PortsUDP := [] |}.

Definition demo_config : VirtualNetworkConfig :=
  {| Enabled := true; NetworkMode := "tun"; CIDR := "172.20.0.0/24"; ServerIP := "172.20.0.1";
     PacketChannels := 2; ServerPorts := tcp_only 22;
     Nodes := [{| NodeClientID := "a"; NodeIP := "172.20.0.2"; NodePorts := tcp_only 443 |};
               {| NodeClientID := "b"; NodeIP := "172.20.0.3"; NodePorts := tcp_only 80 |}] |}.

Definition demo_orders : Orders :=
  {| order_cleanup := any_range; order_capacity := any_range; order_admission := any_range |}.

(** A packet of client [a] to the service of client [b], and its answer. *)
Definition demo_packet : list byte := IPv4 ProtocolTCP addr_a 40000 addr_b 80.
Definition demo_reply : list byte := IPv4 ProtocolTCP addr_b 80 addr_a 40000.
Definition demo_hash (_ : list byte) : list byte := replicate 32 x00.

Lemma demo_config_accepted : is_some (NewRouter (H := Dotted.text) demo_config 16) = true.
Proof. vm_compute. reflexivity. Qed.

Definition demo_router : Router := from_some _ demo_config_accepted.

Lemma demo_router_new : NewRouter (H := Dotted.text) demo_config 16 = Some demo_router.
Proof. apply from_some_eq. Qed.

Lemma demo_router_reachable : reachable (H := Dotted.text) demo_router.
Proof. exists demo_config, 16, demo_router. split; [apply demo_router_new|done]. Qed.

Definition demo_dest : Destination :=
  {| PolicyGeneration := 0; Kind := DestinationClient; DestClientID := "b";
     VirtualIP := Addr4 addr_b; DestChannelIndex := 0 |}.

(** The router after client [a]'s packet. *)
Definition demo_opened : Router :=
  fst (RouteClientPacket demo_hash demo_orders "a" demo_packet Second demo_router).

Lemma demo_delivery :
  RouteClientPacket demo_hash demo_orders "a" demo_packet Second demo_router =
    (demo_opened, Ok demo_dest).
Proof.
  assert (Hdest : snd (RouteClientPacket demo_hash demo_orders "a" demo_packet Second demo_router) =
    Ok demo_dest) by (vm_compute; reflexivity).
  unfold demo_opened. exact (pair_snd _ _ Hdest).
Qed.

Lemma router_invariant_witness :
  Z.of_nat (size (flows demo_opened)) <= 16 ∧
  (∀ a, count_get (nodeFlows demo_opened) a = tally node_charged (flows demo_opened) a ∧
        count_get (nodeFlows demo_opened) a <= routerMaximumNodeFlows) ∧
  (∀ p, live (admission demo_opened) p = tally pair_charged (flows demo_opened) p ∧
        live (admission demo_opened) p <= MaximumPairFlows) ∧
  map_Forall (flow_ok (policy demo_opened)) (flows demo_opened).
Proof.
  apply (router_invariant (H := Dotted.text) demo_config 16 demo_router).
  - apply demo_router_new.
  - apply rtc_once. apply (step_client (H := Dotted.text)).
Defined.

Lemma client_packet_authorised_witness :
  ∃ flow, ParseIPv4 demo_packet = Ok flow ∧
    byClientID (policy demo_router) !! "a" = Some (SourceIP flow) ∧
    authorised demo_router flow Second demo_dest.
Proof.
  apply (client_packet_authorised (H := Dotted.text) demo_hash demo_orders "a" demo_packet Second
    demo_router demo_opened (Ok demo_dest)).
  - apply demo_router_reachable.
  - apply demo_delivery.
Defined.

Lemma reply_delivered_witness :
  ∃ dest', snd (RouteClientPacket demo_hash demo_orders "b" demo_reply (2 * Second) demo_opened) = Ok dest' ∧
    Kind dest' = DestinationClient ∧ DestClientID dest' = "a".
Proof.
  apply (reply_delivered (H := Dotted.text) demo_hash demo_orders demo_orders "a" demo_packet demo_reply
    {| Protocol := ProtocolTCP; SourceIP := Addr4 addr_a; SourcePort := 40000;
       DestinationIP := Addr4 addr_b; DestinationPort := 80; TCPFlags := 2 |} 2
    Second (2 * Second) demo_router demo_opened demo_dest).
  - apply demo_router_reachable.
  - apply demo_delivery.
  - vm_compute. reflexivity.
  - reflexivity.
  - reflexivity.
  - vm_compute. reflexivity.
  - lia.
  - vm_compute. reflexivity.
Defined.

(** The same network with client [b] removed. *)
Definition demo_without_b : VirtualNetworkConfig :=
  {| Enabled := true; NetworkMode := "tun"; CIDR := "172.20.0.0/24"; ServerIP := "172.20.0.1";
     PacketChannels := 2; ServerPorts := tcp_only 22;
     Nodes := [{| NodeClientID := "a"; NodeIP := "172.20.0.2"; NodePorts := tcp_only 443 |}] |}.

Lemma demo_policy_accepted :
  is_some (ApplyPolicy (H := Dotted.text) any_range demo_without_b demo_opened) = true.
Proof. vm_compute. reflexivity. Qed.

Lemma apply_policy_revokes_witness :
  IsCurrent demo_dest (from_some _ demo_policy_accepted) = false.
Proof.
  apply (apply_policy_revokes (H := Dotted.text) any_range demo_without_b demo_opened).
  - exists demo_config, 16, demo_router. split; [apply demo_router_new|].
    apply rtc_once. apply (step_client (H := Dotted.text)).
  - apply from_some_eq.
  - vm_compute. reflexivity.
Defined.

Lemma remove_client_revokes_witness :
  byClientID (policy demo_router) !! "b" = Some (Addr4 addr_b) ∧
  IsCurrent demo_dest (RemoveClient any_range "b" demo_router) = false.
Proof.
  assert (Hb : byClientID (policy demo_router) !! "b" = Some (Addr4 addr_b))
    by (vm_compute; reflexivity).
  split; [exact Hb|].
  pose proof (remove_client_revokes (H := Dotted.text) any_range "b" demo_router
    demo_router_reachable) as Hrev.
  cbv zeta in Hrev. rewrite Hb in Hrev. apply Hrev. vm_compute. reflexivity.
Defined.

Lemma valid_configuration_routed_witness :
  ∃ r, NewRouter (H := Dotted.text) demo_config 16 = Some r ∧ enabled (policy r) = true.
Proof.
  destruct (valid_configuration_routed (H := Dotted.text) demo_config 16) as (r & Hr & He & _).
  - vm_compute. reflexivity.
  - lia.
  - exists r. split; [exact Hr|exact He].
Defined.
