(* ===== verification/Authentication.v ===== *)
(** * Authentication records ([internal/authentication/authentication.go])

    A snapshot maps the digest of each token to its record; the store
    publishes snapshots and hands out generation numbers, so that a context
    obtained from an older publication can be recognised as revoked. *)

From S2P Require Import Prelude NetAddr.

Local Open Scope Z_scope.

Abbreviation digest := (list byte).

Definition ModeShared : string := "shared_token".
Definition ModeGoverned : string := "governed".
Definition ModeManaged : string := "managed".

Record Context := {
  Mode : string;
  ContextClientID : string;
  CredentialID : digest;
  Generation : Z
}.
#[export] Instance eta_Context : Eta Context := λ c,
  {| Mode := Mode c; ContextClientID := ContextClientID c; CredentialID := CredentialID c;
     Generation := Generation c |}.
#[export] Instance context_eq_dec : EqDecision Context.
Proof. solve_decision. Defined.

Record AuthRecord := { RecordContext : Context; Token : string }.
#[export] Instance eta_AuthRecord : Eta AuthRecord := λ r,
  {| RecordContext := RecordContext r; Token := Token r |}.

(** A non-nil snapshot: its [records]. *)
Abbreviation Snapshot := (gmap digest AuthRecord).

Record Store := { current : Snapshot; nextGeneration : Z }.

(** The generic collection helpers of [golang-toolkit/util/coll]; [None] is a
    nil result. *)
Class Coll := {
  MapCollect {K V} `{Countable K} : gmap K V → (K → V → K * V) → option (gmap K V);
  MapFilterToSlice {K V A} `{Countable K} : gmap K V → (K → V → option A) → option (list A);
  MapCollect_lookup {K V} `{Countable K} (m : gmap K V) f k :
    (∀ k v, fst (f k v) = k) → default ∅ (MapCollect m f) !! k = (λ v, snd (f k v)) <$> m !! k;
  MapFilterToSlice_elem {K V A} `{Countable K} (m : gmap K V) (f : K → V → option A) a :
    a ∈ default [] (MapFilterToSlice m f) ↔ ∃ k v, m !! k = Some v ∧ f k v = Some a
}.

Section authentication.
(** [sha256.Sum256] of the bytes of a token *)
Context (sha256 : string → digest).

Definition Selector (token : string) : digest := sha256 token.

Fixpoint index_records (index : Snapshot) (records : list AuthRecord) : option Snapshot :=
  match records with
  | [] => Some index
  | record :: records =>
    let selector := Selector (Token record) in
    match index !! selector with
    | Some _ => None
    | None =>
      index_records (<[selector := record <| RecordContext :=
                        (RecordContext record) <| CredentialID := selector |> |>]> index) records
    end
  end.

Definition NewSnapshot (records : list AuthRecord) : option Snapshot := index_records ∅ records.

Definition same_identity (record : AuthRecord) (context : Context) : bool :=
  bool_decide (Mode (RecordContext record) = Mode context) &&
  bool_decide (ContextClientID (RecordContext record) = ContextClientID context).

Definition IsCurrent (snapshot : option Snapshot) (context : Context) : bool :=
  match snapshot with
  | None => false
  | Some records =>
    match records !! CredentialID context with
    | None => false
    | Some record => same_identity record context &&
                     (Generation (RecordContext record) =? Generation context)
    end
  end.

Definition ContainsRecord (snapshot : option Snapshot) (context : Context) : bool :=
  match snapshot with
  | None => false
  | Some records =>
    match records !! CredentialID context with
    | None => false
    | Some record => same_identity record context
    end
  end.

Definition Resolve (snapshot : option Snapshot) (selector : list byte) : option AuthRecord :=
  match snapshot with
  | None => None
  | Some records => if bool_decide (length selector = 32%nat) then records !! selector else None
  end.

(** [subtle.ConstantTimeCompare] is equality. *)
Definition ContainsToken (snapshot : option Snapshot) (token : string) : bool :=
  match snapshot with
  | None => false
  | Some records =>
    match records !! Selector token with
    | None => false
    | Some record => bool_decide (Token record = token)
    end
  end.

Section store.
Context `{Coll}.

Definition Contexts (snapshot : option Snapshot) : list Context :=
  match snapshot with
  | None => []
  | Some records => default [] (MapFilterToSlice records (λ _ record, Some (RecordContext record)))
  end.

Definition set_generation (generation : Z) (record : AuthRecord) : AuthRecord :=
  record <| RecordContext := (RecordContext record) <| Generation := generation |> |>.

Definition withGeneration (generation : Z) (records : Snapshot) : Snapshot :=
  default ∅ (MapCollect records (λ selector record, (selector, set_generation generation record))).

Definition NewStore (snapshot : Snapshot) : Store :=
  let generation := u64 (0 + 1) in
  {| current := withGeneration generation snapshot; nextGeneration := generation |}.
End store.

(** One iteration of the loop of [ReplaceRevoking]. *)
Definition carry (previous : Snapshot) (rotated : gset digest)
    (acc : Snapshot * Z) (entry : digest * AuthRecord) : Snapshot * Z :=
  let '(records, next) := acc in
  let '(selector, record) := entry in
  let fresh := (<[selector := set_generation (u64 (next + 1)) record]> records, u64 (next + 1)) in
  match previous !! selector with
  | Some old =>
    if same_identity old (RecordContext record) && negb (bool_decide (selector ∈ rotated)) then
      (<[selector := set_generation (Generation (RecordContext old)) record]> records, next)
    else fresh
  | None => fresh
  end.

Definition ReplaceRevoking (ρ : go_range digest AuthRecord) (snapshot : Snapshot)
    (revoked : list Context) (store : Store) : Store :=
  let rotated : gset digest := list_to_set (CredentialID <$> revoked) in
  let '(records, next) :=
    foldl (carry (current store) rotated) (∅, nextGeneration store) (ρ snapshot) in
  {| current := records; nextGeneration := next |}.

Definition Replace (ρ : go_range digest AuthRecord) (snapshot : Snapshot) (store : Store) : Store :=
  ReplaceRevoking ρ snapshot [] store.

Definition Store_Resolve (store : Store) (selector : list byte) : option AuthRecord :=
  Resolve (Some (current store)) selector.
Definition Store_IsCurrent (store : Store) (context : Context) : bool :=
  IsCurrent (Some (current store)) context.
End authentication.

(** ** Lemmas *)

Section snapshots.
Context (sha256 : string → digest).

Definition stamped (record : AuthRecord) : AuthRecord :=
  record <| RecordContext := (RecordContext record) <| CredentialID := Selector sha256 (Token record) |> |>.

Lemma index_records_spec records : ∀ index s,
  index_records sha256 index records = Some s →
  index ⊆ s ∧
  (∀ r, r ∈ records → s !! Selector sha256 (Token r) = Some (stamped r)) ∧
  (∀ k r', s !! k = Some r' → index !! k = Some r' ∨ ∃ r, r ∈ records ∧ r' = stamped r).
Proof.
  induction records as [|r records IH]; intros index s E; simpl in E.
  { simplify_eq. split_and!; [done|by intros ? ?%elem_of_nil|auto]. }
  destruct (index !! _) eqn:Hidx; [done|]. apply IH in E as (Hsub & Hin & Hout).
  assert (Hr : s !! Selector sha256 (Token r) = Some (stamped r)).
  { eapply lookup_weaken; [apply lookup_insert_eq|done]. }
  split_and!.
  - etrans; [by apply insert_subseteq|done].
  - intros r' [->|]%elem_of_cons; auto.
  - intros k r' Hk. apply Hout in Hk as [Hk|(x & ? & ->)].
    + rewrite lookup_insert in Hk. case_decide; simplify_eq; [right; exists r; by split; [left|]|auto].
    + right. exists x. split; [by right|done].
Qed.
End snapshots.

Section publications.
Context (previous : Snapshot) (rotated : gset digest).

(** Whether a record of the next snapshot keeps the generation it had. *)
Definition kept (selector : digest) (record : AuthRecord) : option Z :=
  match previous !! selector with
  | Some old =>
    if same_identity old (RecordContext record) && negb (bool_decide (selector ∈ rotated))
    then Some (Generation (RecordContext old)) else None
  | None => None
  end.

(** What the loop publishes for one record: the kept generation, or one
    above every generation handed out before. *)
Definition published (next next' : Z) (selector : digest) (record r' : AuthRecord) : Prop :=
  ∃ g, r' = set_generation g record ∧
    match kept selector record with Some g' => g = g' | None => next < g <= next' end.

Lemma carry_spec acc next selector record acc' next' :
  carry previous rotated (acc, next) (selector, record) = (acc', next') →
  0 <= next → next + 1 < 2 ^ 64 →
  next <= next' <= next + 1 ∧
  ∃ r', acc' = <[selector := r']> acc ∧ published next next' selector record r'.
Proof.
  unfold carry, published, kept. intros E Hn Hov.
  assert (Hw : u64 (next + 1) = next + 1) by (apply wrap_small; lia). rewrite Hw in E.
  destruct (previous !! selector) as [old|]; [destruct (_ && _)|]; simplify_eq;
    (split; [lia|]; eexists; split; [done|]; eexists; split; [done|done || lia]).
Qed.

Lemma carry_all_spec l : ∀ acc next acc' next',
  foldl (carry previous rotated) (acc, next) l = (acc', next') →
  NoDup l.*1 → 0 <= next → next + Z.of_nat (length l) < 2 ^ 64 →
  next <= next' <= next + Z.of_nat (length l) ∧
  (∀ k, k ∉ l.*1 → acc' !! k = acc !! k) ∧
  (∀ k r, (k, r) ∈ l → ∃ r', acc' !! k = Some r' ∧ published next next' k r r').
Proof.
  induction l as [|[k r] l IH]; intros acc next acc' next' E Hnd Hn Hov; simpl in E.
  { simplify_eq. split_and!; [lia|simpl; lia|done|by intros ?? ?%elem_of_nil]. }
  simpl in Hov, Hnd. apply NoDup_cons in Hnd as [Hk Hnd].
  change (foldl (carry previous rotated) (carry previous rotated (acc, next) (k, r)) l = (acc', next')) in E.
  destruct (carry previous rotated (acc, next) (k, r)) as [acc1 next1] eqn:Hc.
  apply carry_spec in Hc as (Hn1 & r1 & -> & g & Hr1 & Hg1); [|lia|lia].
  apply IH in E as (Hn' & Hout & Hin); [|done|lia|lia].
  split_and!; [lia|simpl; lia| |].
  - intros k'. simpl. rewrite not_elem_of_cons. intros [? ?].
    rewrite Hout by done. by rewrite lookup_insert_ne.
  - intros k' r' [[= -> ->]|Hin']%elem_of_cons.
    + exists r1. rewrite Hout by done. rewrite lookup_insert_eq. split; [done|].
      exists g. split; [done|]. destruct (kept k r); [done|lia].
    + apply Hin in Hin' as (x & Hx & g' & Hx' & Hg'). exists x. split; [done|].
      exists g'. split; [done|]. destruct (kept k' r'); [done|lia].
Qed.
End publications.

(** Generations handed out so far bound the generations in use. *)
Record store_ok (s : Store) : Prop := {
  so_next : 0 <= nextGeneration s < 2 ^ 64;
  so_records : map_Forall (λ _ r, Generation (RecordContext r) <= nextGeneration s) (current s)
}.

Lemma ReplaceRevoking_spec ρ snapshot revoked s :
  store_ok s → nextGeneration s + Z.of_nat (size snapshot) < 2 ^ 64 →
  let s' := ReplaceRevoking ρ snapshot revoked s in
  store_ok s' ∧ nextGeneration s <= nextGeneration s' ∧
  ∀ k, match snapshot !! k with
       | Some r => ∃ r', current s' !! k = Some r' ∧
           published (current s) (list_to_set (CredentialID <$> revoked))
             (nextGeneration s) (nextGeneration s') k r r'
       | None => current s' !! k = None
       end.
Proof.
  intros Hs Hov. unfold ReplaceRevoking. cbv zeta. set (rotated := list_to_set _).
  destruct (foldl _ _ _) as [records next] eqn:E.
  apply carry_all_spec in E as (Hn & Hout & Hin);
    [|apply range_NoDup|apply Hs|by rewrite range_length].
  cbn [current nextGeneration]. rewrite range_length in Hn.
  assert (Hcases : ∀ k, match snapshot !! k with
    | Some r => ∃ r', records !! k = Some r' ∧
        published (current s) rotated (nextGeneration s) next k r r'
    | None => records !! k = None end).
  { intros k. destruct (snapshot !! k) as [r|] eqn:Hk.
    - apply Hin. by apply range_elem.
    - rewrite Hout; [apply lookup_empty|]. intros ([k' r] & -> & Hkr)%list_elem_of_fmap.
      apply range_elem in Hkr. simpl in Hk. congruence. }
  split_and!; [|lia|done]. constructor; simpl; [pose proof (so_next _ Hs); lia|].
  intros k r' Hk. specialize (Hcases k). destruct (snapshot !! k) as [r|]; [|congruence].
  destruct Hcases as (x & Hx & g & -> & Hg). simplify_eq. cbn [RecordContext Generation set_generation upd].
  unfold kept in Hg. destruct (current s !! k) as [old|] eqn:Hold; [destruct (_ && _)|]; [|lia|lia].
  subst g. pose proof (so_records _ Hs _ _ Hold) as Hle. cbn in Hle |- *. lia.
Qed.

Lemma same_identity_spec r c :
  same_identity r c = true ↔
  Mode (RecordContext r) = Mode c ∧ ContextClientID (RecordContext r) = ContextClientID c.
Proof. unfold same_identity. rewrite andb_true_iff, !bool_decide_eq_true. done. Qed.

Lemma IsCurrent_spec m c :
  IsCurrent (Some m) c = true ↔
  ∃ r, m !! CredentialID c = Some r ∧ same_identity r c = true ∧
       Generation (RecordContext r) = Generation c.
Proof.
  simpl. destruct (m !! CredentialID c) as [r|]; [|naive_solver].
  rewrite andb_true_iff, Z.eqb_eq. naive_solver.
Qed.

Lemma ContainsRecord_spec m c :
  ContainsRecord (Some m) c = true ↔ ∃ r, m !! CredentialID c = Some r ∧ same_identity r c = true.
Proof. simpl. destruct (m !! CredentialID c) as [r|]; naive_solver. Qed.

Lemma set_generation_identity g r c : same_identity (set_generation g r) c = same_identity r c.
Proof. done. Qed.

(** A context that is current after a publication either was current before,
    or carries a generation handed out by that publication. *)
Lemma ReplaceRevoking_current ρ snapshot revoked s c :
  store_ok s → nextGeneration s + Z.of_nat (size snapshot) < 2 ^ 64 →
  Generation c <= nextGeneration s →
  Store_IsCurrent (ReplaceRevoking ρ snapshot revoked s) c = true ↔
  Store_IsCurrent s c = true ∧ ContainsRecord (Some snapshot) c = true ∧
  CredentialID c ∉ CredentialID <$> revoked.
Proof.
  intros Hs Hov Hg. destruct (ReplaceRevoking_spec ρ snapshot revoked s Hs Hov) as (_ & _ & Hcases).
  unfold Store_IsCurrent. rewrite !IsCurrent_spec, ContainsRecord_spec.
  specialize (Hcases (CredentialID c)).
  destruct (snapshot !! CredentialID c) as [r|] eqn:Hr; [|naive_solver].
  destruct Hcases as (r' & -> & g & -> & Hkept). unfold kept in Hkept. split.
  - intros (x & [= <-] & Hid & Hgen). rewrite set_generation_identity in Hid. cbn in Hgen.
    destruct (current s !! CredentialID c) as [old|] eqn:Hold; [|lia].
    destruct (_ && _) eqn:Hk; [|lia]. subst g. bool_to_prop.
    rewrite same_identity_spec in *. rewrite elem_of_list_to_set in *.
    split_and!; [exists old|exists r|done]; split_and!; try done; rewrite ?same_identity_spec; naive_solver congruence.
  - intros ((old & Hold & Hido & Hgo) & (x & [= <-] & Hidr) & Hrot).
    eexists. split_and!; [done|done|]. cbn. rewrite Hold in Hkept.
    rewrite same_identity_spec in *.
    rewrite (proj2 (same_identity_spec old (RecordContext r))) in Hkept by naive_solver congruence.
    rewrite bool_decide_eq_false_2 in Hkept by (by rewrite elem_of_list_to_set). simpl in Hkept. congruence.
Qed.

(** Publications, as long as the generation counter does not overflow. *)
Inductive store_step (s : Store) : Store → Prop :=
| step_replace ρ snapshot revoked :
    nextGeneration s + Z.of_nat (size snapshot) < 2 ^ 64 →
    store_step s (ReplaceRevoking ρ snapshot revoked s).

Lemma store_step_ok s s' : store_step s s' → store_ok s → store_ok s' ∧ nextGeneration s <= nextGeneration s'.
Proof. intros [ρ snapshot revoked Hov] Hs. by destruct (ReplaceRevoking_spec ρ snapshot revoked s Hs Hov) as (? & ? & _). Qed.

Lemma NewStore_ok `{Coll} snapshot : store_ok (NewStore snapshot).
Proof.
  constructor; [done|]. intros k r. unfold NewStore, withGeneration; cbn [current nextGeneration].
  rewrite MapCollect_lookup by done. intros (r0 & _ & ->)%fmap_Some. done.
Qed.

(** ** Theorems *)

(** A snapshot contains exactly the tokens it was built from, and the
    digest of each of them resolves to its record, stamped with that digest. *)
Theorem snapshot_tokens (sha256 : string → digest) records s :
  NewSnapshot sha256 records = Some s →
  (∀ token, ContainsToken sha256 (Some s) token = true ↔ token ∈ Token <$> records) ∧
  (∀ r, r ∈ records → length (sha256 (Token r)) = 32%nat →
     ∃ r', Resolve (Some s) (Selector sha256 (Token r)) = Some r' ∧ Token r' = Token r ∧
       RecordContext r' = (RecordContext r) <| CredentialID := Selector sha256 (Token r) |>).
Proof.
  intros E. apply index_records_spec in E as (_ & Hin & Hout). split.
  - intros token. simpl. rewrite list_elem_of_fmap. split.
    + destruct (s !! Selector sha256 token) as [r'|] eqn:Hr; [|done]. rewrite bool_decide_eq_true.
      intros <-. apply Hout in Hr as [?|(r & Hr & ->)]; [set_solver|]. by exists r.
    + intros (r & -> & Hr). rewrite (Hin r Hr). by apply bool_decide_eq_true_2.
  - intros r Hr Hlen. exists (stamped sha256 r). split_and!; [|done|done].
    unfold Resolve. rewrite bool_decide_eq_true_2 by done. by apply Hin.
Qed.

(** Publishing a snapshot keeps a current context current exactly when
    the snapshot still holds its credential with the same mode and client and
    the credential is not among the revoked ones, whatever the order in which
    the records are visited. *)
Theorem replace_revokes ρ snapshot revoked s c :
  store_ok s → nextGeneration s + Z.of_nat (size snapshot) < 2 ^ 64 →
  Store_IsCurrent s c = true →
  Store_IsCurrent (ReplaceRevoking ρ snapshot revoked s) c = true ↔
  ContainsRecord (Some snapshot) c = true ∧ CredentialID c ∉ CredentialID <$> revoked.
Proof.
  intros Hs Hov Hc. rewrite ReplaceRevoking_current; [naive_solver|done|done|].
  apply IsCurrent_spec in Hc as (r & Hr & _ & <-). by apply (so_records _ Hs) in Hr.
Qed.

(** Revocation is permanent: a context issued before and no longer
    current never becomes current again, even if its token is configured
    again later. *)
Theorem revocation_permanent s s' c :
  store_ok s → Generation c <= nextGeneration s → Store_IsCurrent s c = false →
  rtc store_step s s' → Store_IsCurrent s' c = false.
Proof.
  intros Hs Hg Hc Hsteps. revert Hs Hg Hc. induction Hsteps as [|s1 s2 s3 Hstep _ IH]; [done|].
  intros Hs Hg Hc. destruct (store_step_ok _ _ Hstep Hs) as [Hs2 Hle].
  apply IH; [done|lia|]. destruct Hstep as [ρ snapshot revoked Hov].
  apply not_true_is_false. rewrite ReplaceRevoking_current by done. naive_solver congruence.
Qed.

(** ** Witnesses *)

(** The laws of [Coll] hold of the obvious loops. *)
Module LoopColl.
Definition map_collect {K V} `{Countable K} (m : gmap K V) (f : K → V → K * V) : option (gmap K V) :=
  Some (map_fold (λ k v acc, <[fst (f k v) := snd (f k v)]> acc) ∅ m).

Definition map_filter_to_slice {K V A} `{Countable K} (m : gmap K V) (f : K → V → option A) :
    option (list A) :=
  Some (omap (λ '(k, v), f k v) (map_to_list m)).

Lemma map_collect_lookup {K V} `{Countable K} (m : gmap K V) f k :
  (∀ k v, fst (f k v) = k) → default ∅ (map_collect m f) !! k = (λ v, snd (f k v)) <$> m !! k.
Proof.
  intros Hf. simpl. revert k.
  apply (map_fold_weak_ind (λ acc m, ∀ k, acc !! k = (λ v, snd (f k v)) <$> m !! k)).
  - intros k. by rewrite !lookup_empty.
  - intros i v m' acc Hi IH k. rewrite Hf, !lookup_insert. case_decide; subst; [done|apply IH].
Qed.

Lemma map_filter_to_slice_elem {K V A} `{Countable K} (m : gmap K V) (f : K → V → option A) a :
  a ∈ default [] (map_filter_to_slice m f) ↔ ∃ k v, m !! k = Some v ∧ f k v = Some a.
Proof.
  simpl. rewrite list_elem_of_omap. split.
  - intros ([k v] & Hkv%elem_of_map_to_list & ?). eauto.
  - intros (k & v & ? & ?). exists (k, v). by rewrite elem_of_map_to_list.
Qed.

#[export] Instance coll : Coll :=
  {| MapCollect K V _ _ := map_collect; MapFilterToSlice K V A _ _ := map_filter_to_slice;
     MapCollect_lookup K V _ _ := map_collect_lookup;
     MapFilterToSlice_elem K V A _ _ := map_filter_to_slice_elem |}.
End LoopColl.

Module DemoAuth.
(** A stand-in for the hash: the token padded to 32 bytes. *)
Definition pad_hash (token : string) : digest :=
  take 32 ((λ c, byte_of (Z.of_N (Ascii.N_of_ascii c))) <$> String.list_ascii_of_string token
           ++ replicate 32 Ascii.zero).

Definition account (client token : string) : AuthRecord :=
  {| RecordContext := {| Mode := ModeGoverned; ContextClientID := client;
                         CredentialID := []; Generation := 0 |};
     Token := token |}.

Definition accounts := [account "a" "token-a"; account "b" "token-b"].

Lemma accounts_accepted : is_some (NewSnapshot pad_hash accounts) = true.
Proof. vm_compute. reflexivity. Qed.

Definition snapshot : Snapshot := from_some _ accounts_accepted.
Definition store : Store := NewStore (H := LoopColl.coll) snapshot.

Definition context_a : Context :=
  {| Mode := ModeGoverned; ContextClientID := "a"; CredentialID := pad_hash "token-a"; Generation := 1 |}.

Lemma store_is_ok : store_ok store.
Proof. apply NewStore_ok. Qed.
End DemoAuth.

Lemma snapshot_tokens_witness :
  ContainsToken DemoAuth.pad_hash (Some DemoAuth.snapshot) "token-b" = true ↔
  "token-b" ∈ Token <$> DemoAuth.accounts.
Proof.
  apply (snapshot_tokens DemoAuth.pad_hash DemoAuth.accounts DemoAuth.snapshot).
  apply from_some_eq.
Defined.

Lemma replace_revokes_witness :
  Store_IsCurrent (ReplaceRevoking any_range DemoAuth.snapshot [DemoAuth.context_a] DemoAuth.store)
    DemoAuth.context_a = true ↔
  ContainsRecord (Some DemoAuth.snapshot) DemoAuth.context_a = true ∧
  CredentialID DemoAuth.context_a ∉ CredentialID <$> [DemoAuth.context_a].
Proof.
  apply replace_revokes.
  - apply DemoAuth.store_is_ok.
  - vm_compute. reflexivity.
  - vm_compute. reflexivity.
Defined.

Lemma revocation_permanent_witness :
  let s := ReplaceRevoking any_range DemoAuth.snapshot [DemoAuth.context_a] DemoAuth.store in
  Store_IsCurrent (ReplaceRevoking any_range DemoAuth.snapshot [] s) DemoAuth.context_a = false.
Proof.
  intros s.
  apply (revocation_permanent s).
  - apply (store_step_ok DemoAuth.store); [|apply DemoAuth.store_is_ok].
    constructor. vm_compute. reflexivity.
  - vm_compute. discriminate.
  - vm_compute. reflexivity.
  - apply rtc_once. constructor. vm_compute. reflexivity.
Defined.
