(* ===== verification/Session.v ===== *)
(** * Client sessions ([internal/session/registry.go, state.go])

    One record per client: its current session, the state of that session, and
    the instant at which it was suspended.  Every method runs under the
    registry's mutex and is one atomic transition. *)

From S2P Require Import Prelude GoTime NetAddr Authentication.

Local Open Scope Z_scope.

Definition RecoveryWindow : Duration := Minute.

Inductive state := stateInitializing | stateActive | stateSuspended.
#[export] Instance state_eq_dec : EqDecision state.
Proof. solve_decision. Defined.

(** A [net.Conn]: an opaque handle, [None] for nil. *)
Abbreviation Conn := (option Z).

Record clientRecord := {
  clientID : string;
  sessionID : string;
  previousSessionID : string;
  state_of : state;
  connection : Conn;
  lastHeartbeatAt : Time;
  lastHeartbeatSequence : Z;
  suspendedAt : Time;
  authentication : Context
}.
#[export] Instance eta_clientRecord : Eta clientRecord := λ r,
  {| clientID := clientID r; sessionID := sessionID r; previousSessionID := previousSessionID r;
     state_of := state_of r; connection := connection r; lastHeartbeatAt := lastHeartbeatAt r;
     lastHeartbeatSequence := lastHeartbeatSequence r; suspendedAt := suspendedAt r;
     authentication := authentication r |}.

Record ExpiredClient := {
  ExpiredClientID : string;
  ExpiredSessionID : string;
  ExpiredConnection : Conn;
  ExpiredAuthentication : Context
}.
#[export] Instance expired_client_eq_dec : EqDecision ExpiredClient.
Proof. solve_decision. Defined.

Record Client := { ClientID : string; SessionID : string }.
#[export] Instance client_eq_dec : EqDecision Client.
Proof. solve_decision. Defined.

Record Stats := { Initializing : Z; Active_ : Z; Suspended : Z }.

Inductive SessionErrorCode :=
| SessionErrorClientIDAlreadyOnline
| SessionErrorClientIDRecoveryPending
| SessionErrorResumeSessionMismatch
| SessionErrorSessionExpired
| SessionErrorAuthenticationFailed
| SessionErrorServerCapacityReached.
#[export] Instance session_error_code_eq_dec : EqDecision SessionErrorCode.
Proof. solve_decision. Defined.

(** The human-readable [Message] is left out. *)
Record SessionError := { Code : SessionErrorCode; Retryable : bool }.

Record Registry := { clients : gmap string clientRecord; maxClients : Z }.
#[export] Instance eta_Registry : Eta Registry := λ r,
  {| clients := clients r; maxClients := maxClients r |}.

Definition NewRegistryWithLimit (maxClients : Z) : Registry :=
  {| clients := ∅; maxClients := maxClients |}.
Definition NewRegistry : Registry := NewRegistryWithLimit 0.

(** [registry.clients[clientID]] is a pointer: an update through it. *)
Definition set_record (client : string) (record : clientRecord) (registry : Registry) : Registry :=
  registry <| clients := <[client := record]> (clients registry) |>.

Definition recovery_elapsed (now : Time) (record : clientRecord) : bool :=
  negb (IsZero (suspendedAt record)) && (RecoveryWindow <=? Sub now (suspendedAt record)).

Record Registered := { resumed : bool; created : bool; previousConnection : Conn }.

Definition session_error (code : SessionErrorCode) (retryable : bool) : result SessionError Registered :=
  Err {| Code := code; Retryable := retryable |}.

Definition new_record (client session : string) (conn : Conn) (now : Time) (auth : Context) :
    clientRecord :=
  {| clientID := client; sessionID := session; previousSessionID := "";
     state_of := stateInitializing; connection := conn; lastHeartbeatAt := now;
     lastHeartbeatSequence := 0; suspendedAt := zero_time; authentication := auth |}.

(** The record after a successful resumption. *)
Definition resume_record (resume session : string) (conn : Conn) (now : Time) (auth : Context)
    (record : clientRecord) : clientRecord :=
  record <| previousSessionID := resume |> <| sessionID := session |>
         <| state_of := stateInitializing |> <| connection := conn |>
         <| lastHeartbeatAt := now |> <| lastHeartbeatSequence := 0 |> <| authentication := auth |>.

Definition RegisterAuthenticated (client resume session : string) (conn : Conn) (now : Time)
    (auth : Context) (registry : Registry) : Registry * result SessionError Registered :=
  match clients registry !! client with
  | None =>
    if negb (bool_decide (resume = "")) then
      (registry, session_error SessionErrorSessionExpired true)
    else if (0 <? maxClients registry) &&
            (maxClients registry <=? Z.of_nat (size (clients registry))) then
      (registry, session_error SessionErrorServerCapacityReached true)
    else
      (set_record client (new_record client session conn now auth) registry,
       Ok {| resumed := false; created := true; previousConnection := None |})
  | Some record =>
    if negb (bool_decide (authentication record = auth)) then
      (registry, session_error SessionErrorAuthenticationFailed false)
    else if negb (bool_decide (resume = "")) && recovery_elapsed now record then
      (registry, session_error SessionErrorSessionExpired true)
    else match state_of record with
    | stateInitializing =>
      if bool_decide (resume = "") || bool_decide (resume = sessionID record) ||
         bool_decide (resume = previousSessionID record)
      then (registry, session_error SessionErrorClientIDRecoveryPending true)
      else (registry, session_error SessionErrorClientIDAlreadyOnline false)
    | stateActive =>
      if negb (bool_decide (resume = "")) && bool_decide (resume = sessionID record)
      then (registry, session_error SessionErrorClientIDRecoveryPending true)
      else (registry, session_error SessionErrorClientIDAlreadyOnline false)
    | stateSuspended =>
      if bool_decide (resume = "") then
        (registry, session_error SessionErrorClientIDRecoveryPending true)
      else if negb (bool_decide (resume = sessionID record)) &&
              negb (bool_decide (resume = previousSessionID record)) then
        (registry, session_error SessionErrorResumeSessionMismatch false)
      else
        (set_record client (resume_record resume session conn now auth record) registry,
         Ok {| resumed := true; created := false; previousConnection := connection record |})
    end
  end.

Definition Register (client resume session : string) (conn : Conn) (now : Time) (registry : Registry) :
    Registry * result SessionError Registered :=
  RegisterAuthenticated client resume session conn now
    {| Mode := ModeShared; ContextClientID := ""; CredentialID := replicate 32 x00; Generation := 0 |}
    registry.

Definition Activate (client session : string) (now : Time) (registry : Registry) : Registry * bool :=
  match clients registry !! client with
  | None => (registry, false)
  | Some record =>
    if negb (bool_decide (sessionID record = session)) ||
       negb (bool_decide (state_of record = stateInitializing)) then (registry, false)
    else if recovery_elapsed now record then (registry, false)
    else (set_record client
            (record <| state_of := stateActive |> <| previousSessionID := "" |>
                    <| lastHeartbeatAt := now |> <| lastHeartbeatSequence := 0 |>
                    <| suspendedAt := zero_time |>) registry, true)
  end.

Definition expired_client (client : string) (record : clientRecord) : ExpiredClient :=
  {| ExpiredClientID := client; ExpiredSessionID := sessionID record;
     ExpiredConnection := connection record; ExpiredAuthentication := authentication record |}.

Definition revoked_by (contexts : list Context) (record : clientRecord) : bool :=
  bool_decide ((CredentialID (authentication record), Generation (authentication record)) ∈
    (λ context, (CredentialID context, Generation context)) <$> contexts).

Definition revoke_one (contexts : list Context) (acc : Registry * list ExpiredClient)
    (entry : string * clientRecord) : Registry * list ExpiredClient :=
  let '(registry, revoked) := acc in
  let '(client, record) := entry in
  if revoked_by contexts record then
    (registry <| clients := delete client (clients registry) |>,
     revoked ++ [expired_client client record])
  else (registry, revoked).

Definition RevokeAuthentication (ρ : go_range string clientRecord) (contexts : list Context)
    (registry : Registry) : Registry * list ExpiredClient :=
  foldl (revoke_one contexts) (registry, []) (ρ (clients registry)).

(** Returns [(accepted, reactivated)]. *)
Definition Heartbeat (client session : string) (sequence : Z) (now : Time) (registry : Registry) :
    Registry * (bool * bool) :=
  match clients registry !! client with
  | None => (registry, (false, false))
  | Some record =>
    if negb (bool_decide (sessionID record = session)) ||
       bool_decide (state_of record = stateInitializing) ||
       (sequence =? 0) || (sequence <=? lastHeartbeatSequence record) then
      (registry, (false, false))
    else if bool_decide (state_of record = stateSuspended) &&
            (RecoveryWindow <=? Sub now (suspendedAt record)) then
      (registry, (false, false))
    else
      (set_record client
         (record <| state_of := stateActive |> <| lastHeartbeatAt := now |>
                 <| lastHeartbeatSequence := sequence |> <| suspendedAt := zero_time |>) registry,
       (true, bool_decide (state_of record = stateSuspended)))
  end.

Definition Active (client session : string) (registry : Registry) : bool :=
  match clients registry !! client with
  | None => false
  | Some record => bool_decide (sessionID record = session) && bool_decide (state_of record = stateActive)
  end.

Definition Disconnect (client session : string) (now : Time) (registry : Registry) : Registry :=
  match clients registry !! client with
  | None => registry
  | Some record =>
    if negb (bool_decide (sessionID record = session)) then registry
    else if bool_decide (state_of record = stateSuspended) then registry
    else set_record client
           (record <| state_of := stateSuspended |>
                   <| suspendedAt := if IsZero (suspendedAt record) then now else suspendedAt record |>)
           registry
  end.

Definition Remove (client session : string) (registry : Registry) : Registry :=
  match clients registry !! client with
  | None => registry
  | Some record =>
    if bool_decide (sessionID record = session)
    then registry <| clients := delete client (clients registry) |>
    else registry
  end.

(** What a sweep decides for one record. *)
Inductive Verdict := Suspend | Expire | Keep.
#[export] Instance verdict_eq_dec : EqDecision Verdict.
Proof. solve_decision. Defined.

Definition verdict (now : Time) (heartbeatTimeout : Duration) (record : clientRecord) : Verdict :=
  if bool_decide (state_of record = stateActive) &&
     (heartbeatTimeout <=? Sub now (lastHeartbeatAt record)) then Suspend
  else if recovery_elapsed now record then Expire
  else Keep.

Definition suspend_record (now : Time) (record : clientRecord) : clientRecord :=
  record <| state_of := stateSuspended |> <| suspendedAt := now |>.

Definition sweep_one (now : Time) (heartbeatTimeout : Duration)
    (acc : Registry * list Client * list ExpiredClient) (entry : string * clientRecord) :
    Registry * list Client * list ExpiredClient :=
  let '(registry, suspended, expired) := acc in
  let '(client, record) := entry in
  match verdict now heartbeatTimeout record with
  | Suspend => (set_record client (suspend_record now record) registry,
                suspended ++ [{| ClientID := client; SessionID := sessionID record |}], expired)
  | Expire => (registry <| clients := delete client (clients registry) |>, suspended,
               expired ++ [expired_client client record])
  | Keep => (registry, suspended, expired)
  end.

Definition Sweep (ρ : go_range string clientRecord) (now : Time) (heartbeatTimeout : Duration)
    (registry : Registry) : Registry * list Client * list ExpiredClient :=
  foldl (sweep_one now heartbeatTimeout) (registry, [], []) (ρ (clients registry)).

Definition SnapshotStats (registry : Registry) : Stats :=
  map_fold (λ _ record stats,
    match state_of record with
    | stateInitializing => {| Initializing := Initializing stats + 1; Active_ := Active_ stats;
                              Suspended := Suspended stats |}
    | stateActive => {| Initializing := Initializing stats; Active_ := Active_ stats + 1;
                        Suspended := Suspended stats |}
    | stateSuspended => {| Initializing := Initializing stats; Active_ := Active_ stats;
                           Suspended := Suspended stats + 1 |}
    end) {| Initializing := 0; Active_ := 0; Suspended := 0 |} (clients registry).

(** ** Histories

    A history is a list of calls, each with the clock reading it used. *)
Inductive Op :=
| OpRegister (client resume session : string) (conn : Conn) (now : Time) (auth : Context)
| OpActivate (client session : string) (now : Time)
| OpRevoke (ρ : go_range string clientRecord) (contexts : list Context)
| OpHeartbeat (client session : string) (sequence : Z) (now : Time)
| OpDisconnect (client session : string) (now : Time)
| OpRemove (client session : string)
| OpSweep (ρ : go_range string clientRecord) (now : Time) (heartbeatTimeout : Duration).

Definition apply_op (op : Op) (r : Registry) : Registry :=
  match op with
  | OpRegister client resume session conn now auth =>
      fst (RegisterAuthenticated client resume session conn now auth r)
  | OpActivate client session now => fst (Activate client session now r)
  | OpRevoke ρ contexts => fst (RevokeAuthentication ρ contexts r)
  | OpHeartbeat client session sequence now => fst (Heartbeat client session sequence now r)
  | OpDisconnect client session now => Disconnect client session now r
  | OpRemove client session => Remove client session r
  | OpSweep ρ now timeout => fst (fst (Sweep ρ now timeout r))
  end.

(** Clocks are past the zero instant. *)
Definition timely (op : Op) : Prop :=
  match op with
  | OpRegister _ _ _ _ now _ | OpActivate _ _ now | OpHeartbeat _ _ _ now
  | OpDisconnect _ _ now | OpSweep _ now _ => zero_time < now
  | _ => True
  end.

(** Whether the call puts a session with this identifier into the registry. *)
Definition issues (session : string) (op : Op) : Prop :=
  match op with OpRegister _ _ s _ _ _ => s = session | _ => False end.

Definition run (ops : list Op) (r : Registry) : Registry := foldl (λ r op, apply_op op r) r ops.

(** ** Sweeping and revoking *)

Definition sweep_record (now : Time) (timeout : Duration) (record : clientRecord) : option clientRecord :=
  match verdict now timeout record with
  | Suspend => Some (suspend_record now record)
  | Expire => None
  | Keep => Some record
  end.

Definition report_suspended (now : Time) (timeout : Duration) (entry : string * clientRecord) : option Client :=
  match verdict now timeout entry.2 with
  | Suspend => Some {| ClientID := entry.1; SessionID := sessionID entry.2 |}
  | _ => None
  end.

Definition report_expired (now : Time) (timeout : Duration) (entry : string * clientRecord) :
    option ExpiredClient :=
  match verdict now timeout entry.2 with
  | Expire => Some (expired_client entry.1 entry.2)
  | _ => None
  end.

Lemma sweep_reports now timeout l : ∀ r s e,
  snd (fst (foldl (sweep_one now timeout) (r, s, e) l)) = s ++ omap (report_suspended now timeout) l ∧
  snd (foldl (sweep_one now timeout) (r, s, e) l) = e ++ omap (report_expired now timeout) l ∧
  maxClients (fst (fst (foldl (sweep_one now timeout) (r, s, e) l))) = maxClients r.
Proof.
  induction l as [|[k v] l IH]; intros r s e; [by rewrite !app_nil_r|].
  cbn [foldl]. unfold sweep_one at 2 4 6. simpl omap.
  unfold report_suspended at 1, report_expired at 1. cbn [fst snd].
  destruct (verdict now timeout v);
    match goal with |- context [foldl _ (?r1, ?s1, ?e1) l] => destruct (IH r1 s1 e1) as (-> & -> & ->) end;
    rewrite <- ?app_assoc; done.
Qed.

Lemma sweep_clients now timeout l : ∀ r s e,
  NoDup l.*1 → (∀ k v, (k, v) ∈ l → clients r !! k = Some v) →
  clients (fst (fst (foldl (sweep_one now timeout) (r, s, e) l))) =
    update_each (λ _, sweep_record now timeout) l (clients r).
Proof.
  induction l as [|[k v] l IH]; intros r s e Hnd Hin; [done|].
  apply NoDup_cons in Hnd as [Hk Hnd]. pose proof (Hin k v ltac:(left)) as Hkv.
  assert (Hrest : ∀ m f, m = partial_alter (λ _, f) k (clients r) →
    ∀ k0 v0, (k0, v0) ∈ l → m !! k0 = Some v0).
  { intros m f -> k0 v0 H0. rewrite lookup_partial_alter_ne; [apply Hin; by right|].
    intros <-. apply Hk. apply list_elem_of_fmap. by exists (k, v0). }
  unfold update_each. cbn [foldl]. fold (update_each (λ _ : string, sweep_record now timeout)).
  unfold sweep_one at 2. unfold sweep_record at 2.
  destruct (verdict now timeout v); rewrite IH; try done; try (by eapply Hrest).
  - rewrite <- Hkv, partial_alter_self. done.
  - intros k0 v0 H0. apply Hin. by right.
Qed.

Lemma Sweep_clients ρ now timeout r k :
  clients (fst (fst (Sweep ρ now timeout r))) !! k = clients r !! k ≫= sweep_record now timeout.
Proof.
  unfold Sweep. rewrite sweep_clients;
    [|apply range_NoDup|intros ??; by rewrite range_elem].
  by rewrite update_each_range.
Qed.

Definition report_revoked (contexts : list Context) (entry : string * clientRecord) :
    option ExpiredClient :=
  if revoked_by contexts entry.2 then Some (expired_client entry.1 entry.2) else None.

Lemma revoke_fold contexts l : ∀ r acc,
  let out := foldl (revoke_one contexts) (r, acc) l in
  clients (fst out) = delete_when (λ _ record, revoked_by contexts record) l (clients r) ∧
  maxClients (fst out) = maxClients r ∧ snd out = acc ++ omap (report_revoked contexts) l.
Proof.
  induction l as [|[k v] l IH]; intros r acc; [by rewrite app_nil_r|].
  unfold delete_when. cbn [foldl]. fold (delete_when (λ (_ : string) record, revoked_by contexts record)).
  cbv zeta. unfold revoke_one at 2 4 6. simpl omap. unfold report_revoked at 1. cbn [fst snd].
  destruct (revoked_by contexts v).
  - destruct (IH (r <| clients := delete k (clients r) |>) (acc ++ [expired_client k v]))
      as (-> & -> & ->). by rewrite <- app_assoc.
  - apply IH.
Qed.

Lemma Revoke_spec ρ contexts r :
  let out := RevokeAuthentication ρ contexts r in
  clients (fst out) = filter (λ p, revoked_by contexts p.2 = false) (clients r) ∧
  maxClients (fst out) = maxClients r ∧
  snd out ≡ₚ omap (report_revoked contexts) (map_to_list (clients r)).
Proof.
  cbv zeta. unfold RevokeAuthentication.
  destruct (revoke_fold contexts (ρ (clients r)) r []) as (-> & -> & ->).
  rewrite delete_when_range. split_and!; [done|done|]. simpl. by rewrite range_of_perm.
Qed.

(** ** Invariant *)

Record record_ok (client : string) (record : clientRecord) : Prop := {
  ko_client : clientID record = client;
  ko_active : state_of record = stateActive → suspendedAt record = zero_time;
  ko_suspended : state_of record = stateSuspended → suspendedAt record ≠ zero_time
}.

Record registry_ok (r : Registry) : Prop := {
  go_records : map_Forall record_ok (clients r);
  go_capacity : 0 < maxClients r → Z.of_nat (size (clients r)) <= maxClients r
}.

Lemma set_record_ok client record r :
  registry_ok r → is_Some (clients r !! client) → record_ok client record →
  registry_ok (set_record client record r).
Proof.
  intros [Hr Hc] Hin Hok. constructor; simpl.
  - by apply map_Forall_insert_2.
  - intros Hmax. rewrite map_size_insert. destruct Hin as [? ->]. by apply Hc.
Qed.

Lemma shrink_ok r m :
  registry_ok r → (∀ k v, m !! k = Some v → record_ok k v) → dom m ⊆ dom (clients r) →
  ∀ r', clients r' = m → maxClients r' = maxClients r → registry_ok r'.
Proof.
  intros [Hr Hc] Hm Hdom r' <- Hmax. constructor; [done|].
  rewrite Hmax. intros ?. pose proof (Hc ltac:(done)). rewrite <- !size_dom in *.
  pose proof (subseteq_size _ _ Hdom). lia.
Qed.

Lemma apply_op_ok op r : timely op → registry_ok r → registry_ok (apply_op op r).
Proof.
  intros Ht Hr. destruct op as [c resume s conn now auth|c s now|ρ ctx|c s n now|c s now|c s|ρ now tm]; simpl.
  - unfold RegisterAuthenticated. destruct (clients r !! c) as [rec|] eqn:Hc.
    + pose proof (go_records _ Hr _ _ Hc) as [H1 _ _]. repeat case_match; try done.
      apply set_record_ok; [done|by eexists|]. by constructor.
    + case_match; [done|]. case_match eqn:Hcap; [done|]. constructor; simpl.
      * apply map_Forall_insert_2; [by constructor|apply Hr].
      * intros Hmax. rewrite map_size_insert_None by done.
        apply andb_false_iff in Hcap as [Hcap|Hcap]; bool_to_prop; lia.
  - unfold Activate. destruct (clients r !! c) as [rec|] eqn:Hc; [|done].
    pose proof (go_records _ Hr _ _ Hc) as [H1 _ _]. repeat case_match; try done.
    apply set_record_ok; [done|by eexists|]. by constructor.
  - destruct (Revoke_spec ρ ctx r) as (Hcl & Hmax & _).
    eapply shrink_ok; [exact Hr| | |exact Hcl|exact Hmax].
    + intros k v [? _]%map_lookup_filter_Some. by apply Hr.
    + apply dom_filter_subseteq.
  - unfold Heartbeat. destruct (clients r !! c) as [rec|] eqn:Hc; [|done].
    pose proof (go_records _ Hr _ _ Hc) as [H1 _ _]. repeat case_match; try done.
    apply set_record_ok; [done|by eexists|]. by constructor.
  - unfold Disconnect. destruct (clients r !! c) as [rec|] eqn:Hc; [|done].
    pose proof (go_records _ Hr _ _ Hc) as [H1 _ _]. case_match; [done|]. case_match; [done|].
    apply set_record_ok; [done|by eexists|]. constructor; simpl; [done|done|].
    intros _. destruct (IsZero (suspendedAt rec)) eqn:Hz; [simpl in Ht; lia|].
    unfold IsZero in Hz. by apply Z.eqb_neq in Hz.
  - unfold Remove. destruct (clients r !! c) as [rec|] eqn:Hc; [|done]. case_match; [|done].
    eapply shrink_ok; [exact Hr| |apply subseteq_dom, delete_subseteq|done|done].
    intros k v [_ ?]%lookup_delete_Some. by apply Hr.
  - eapply (shrink_ok r _ Hr); [| |done|apply sweep_reports].
    + intros k v. rewrite Sweep_clients. intros (v0 & Hv0 & Hv)%bind_Some.
      pose proof (go_records _ Hr _ _ Hv0) as [H1 H2 H3]. unfold sweep_record in Hv.
      destruct (verdict now tm v0); simplify_eq; constructor; try done.
      intros _. simpl in *. lia.
    + intros k. rewrite !elem_of_dom, Sweep_clients. 
      destruct (clients r !! k); [by eexists|by intros []].
Qed.

Lemma run_ok ops r : Forall timely ops → registry_ok r → registry_ok (run ops r).
Proof.
  unfold run. revert r. induction ops as [|op ops IH]; intros r Ht Hr; simpl; [done|].
  inversion Ht; subst. apply IH; [done|]. by apply apply_op_ok.
Qed.

Lemma NewRegistry_ok limit : registry_ok (NewRegistryWithLimit limit).
Proof. constructor; simpl; [done|]. rewrite map_size_empty. lia. Qed.

(** ** One client across a call *)

(** How a call may change the record of one client that is there before and
    after. *)
Inductive transition (op : Op) (a : clientRecord) : clientRecord → Prop :=
| tr_same : transition op a a
| tr_resume resume session conn now auth :
    state_of a = stateSuspended → issues session op →
    transition op a (resume_record resume session conn now auth a)
| tr_activate now :
    state_of a = stateInitializing → recovery_elapsed now a = false →
    transition op a (a <| state_of := stateActive |> <| previousSessionID := "" |>
                    <| lastHeartbeatAt := now |> <| lastHeartbeatSequence := 0 |>
                    <| suspendedAt := zero_time |>)
| tr_heartbeat sequence now :
    state_of a ≠ stateInitializing → lastHeartbeatSequence a < sequence →
    transition op a (a <| state_of := stateActive |> <| lastHeartbeatAt := now |>
                    <| lastHeartbeatSequence := sequence |> <| suspendedAt := zero_time |>)
| tr_disconnect now :
    state_of a ≠ stateSuspended →
    transition op a (a <| state_of := stateSuspended |>
                    <| suspendedAt := if IsZero (suspendedAt a) then now else suspendedAt a |>)
| tr_suspend now : state_of a = stateActive → transition op a (suspend_record now a).

Lemma set_record_lookup client record r c :
  clients (set_record client record r) !! c = if decide (client = c) then Some record else clients r !! c.
Proof. unfold set_record; simpl. by rewrite lookup_insert. Qed.

Lemma apply_op_transition op r c a b :
  clients r !! c = Some a → clients (apply_op op r) !! c = Some b → transition op a b.
Proof.
  intros Ha Hb.
  destruct op as [c' resume s conn now auth|c' s now|ρ ctx|c' s n now|c' s now|c' s|ρ now tm];
    cbn [apply_op] in Hb.
  - unfold RegisterAuthenticated in Hb. destruct (clients r !! c') as [rec|] eqn:Hc.
    + repeat case_match; cbn [fst] in Hb; try (simplify_eq; constructor).
      rewrite set_record_lookup in Hb. case_decide; simplify_eq; by constructor.
    + repeat case_match; cbn [fst] in Hb; try (simplify_eq; constructor).
      rewrite set_record_lookup in Hb. case_decide; simplify_eq; constructor.
  - unfold Activate in Hb. destruct (clients r !! c') as [rec|] eqn:Hc; [|simplify_eq/=; constructor].
    destruct (_ || _) eqn:Hg; [simplify_eq/=; constructor|].
    destruct (recovery_elapsed now rec) eqn:He; cbn [fst] in Hb; [simplify_eq; constructor|].
    rewrite set_record_lookup in Hb. case_decide; simplify_eq; [|constructor].
    bool_to_prop. by constructor.
  - destruct (Revoke_spec ρ ctx r) as (Hcl & _). rewrite Hcl in Hb.
    apply map_lookup_filter_Some in Hb as [? _]. simplify_eq. constructor.
  - unfold Heartbeat in Hb. destruct (clients r !! c') as [rec|] eqn:Hc; [|simplify_eq/=; constructor].
    destruct (_ || _) eqn:Hg; [simplify_eq/=; constructor|].
    destruct (_ && _); cbn [fst] in Hb; [simplify_eq; constructor|].
    rewrite set_record_lookup in Hb. case_decide; simplify_eq; [|constructor].
    bool_to_prop. by constructor.
  - unfold Disconnect in Hb. destruct (clients r !! c') as [rec|] eqn:Hc; [|simplify_eq/=; constructor].
    case_match; [simplify_eq; constructor|]. case_bool_decide; [simplify_eq; constructor|].
    rewrite set_record_lookup in Hb. case_decide; simplify_eq; by constructor.
  - unfold Remove in Hb. destruct (clients r !! c') as [rec|] eqn:Hc; [|simplify_eq/=; constructor].
    case_match; [|simplify_eq; constructor]. simpl in Hb.
    apply lookup_delete_Some in Hb as [_ ?]. simplify_eq. constructor.
  - rewrite Sweep_clients, Ha in Hb. simpl in Hb. unfold sweep_record, verdict in Hb.
    destruct (_ && _) eqn:Hv; [|destruct (recovery_elapsed now a); simplify_eq; constructor].
    bool_to_prop. simplify_eq. by constructor.
Qed.

Lemma apply_op_created op r c b :
  clients r !! c = None → clients (apply_op op r) !! c = Some b → issues (sessionID b) op.
Proof.
  intros Ha Hb.
  destruct op as [c' resume s conn now auth|c' s now|ρ ctx|c' s n now|c' s now|c' s|ρ now tm];
    cbn [apply_op] in Hb.
  - unfold RegisterAuthenticated in Hb. repeat case_match; cbn [fst] in Hb; try congruence;
      rewrite set_record_lookup in Hb; case_decide; simplify_eq; done.
  - unfold Activate in Hb. repeat case_match; cbn [fst] in Hb; try congruence.
    rewrite set_record_lookup in Hb. case_decide; simplify_eq.
  - destruct (Revoke_spec ρ ctx r) as (Hcl & _). rewrite Hcl in Hb.
    apply map_lookup_filter_Some in Hb as [? _]. congruence.
  - unfold Heartbeat in Hb. repeat case_match; cbn [fst] in Hb; try congruence.
    rewrite set_record_lookup in Hb. case_decide; simplify_eq.
  - unfold Disconnect in Hb. repeat case_match; try congruence;
      rewrite set_record_lookup in Hb; case_decide; simplify_eq.
  - unfold Remove in Hb. repeat case_match; try congruence. simpl in Hb.
    apply lookup_delete_Some in Hb as [_ ?]. congruence.
  - by rewrite Sweep_clients, Ha in Hb.
Qed.

Lemma recovery_elapsed_spec now record :
  suspendedAt record ≠ zero_time → suspendedAt record + RecoveryWindow <= now →
  recovery_elapsed now record = true.
Proof.
  intros Hz Hle. unfold recovery_elapsed. rewrite Sub_leb by done. unfold IsZero, Add.
  rewrite (proj2 (Z.eqb_neq _ _) Hz). simpl. by apply Z.leb_le.
Qed.

(** A suspension instant changes only by activation. *)
Lemma transition_suspension op c a b :
  transition op a b → record_ok c a → suspendedAt a ≠ zero_time → state_of b ≠ stateActive →
  suspendedAt b = suspendedAt a.
Proof.
  intros Ht [_ Hact _] Hz Hb. destruct Ht; cbn in *; try done.
  - unfold IsZero. by rewrite (proj2 (Z.eqb_neq _ _) Hz).
  - by apply Hact in H.
Qed.

(** The heartbeat counter of a session that has left initialization only
    grows. *)
Definition past (session : string) (sequence : Z) (c : string) (r : Registry) : Prop :=
  ∀ a, clients r !! c = Some a → sessionID a = session →
    state_of a ≠ stateInitializing ∧ sequence <= lastHeartbeatSequence a.

Lemma past_preserved op session sequence c r :
  ¬ issues session op → past session sequence c r → past session sequence c (apply_op op r).
Proof.
  intros Hop Hpast b Hb Hs. destruct (clients r !! c) as [a|] eqn:Ha; cycle 1.
  { apply apply_op_created in Hb; [|done]. congruence. }
  pose proof (apply_op_transition _ _ _ _ _ Ha Hb) as Ht. specialize (Hpast a Ha).
  destruct Ht; cbn in *; try congruence; destruct (Hpast Hs); split; done || lia || congruence.
Qed.

(** ** Theorems *)

(** In every history, a bounded registry never holds more clients than
    its limit; an active session has no suspension instant and a suspended
    one always has one. *)
Theorem session_invariant limit ops :
  Forall timely ops →
  let r := run ops (NewRegistryWithLimit limit) in
  (0 < maxClients r → Z.of_nat (size (clients r)) <= maxClients r) ∧ map_Forall record_ok (clients r).
Proof. intros Ht. destruct (run_ok ops _ Ht (NewRegistry_ok limit)). done. Qed.

(** Registration succeeds in exactly two cases: an unknown client without
    a resume identifier while there is room, and a suspended client, with the
    same authentication, naming its current or previous session before the
    recovery window has elapsed.  A takeover returns the connection it
    displaces and keeps the suspension instant. *)
Theorem register_takeover client resume session conn now auth r r' ok :
  RegisterAuthenticated client resume session conn now auth r = (r', Ok ok) →
  (clients r !! client = None ∧ resume = "" ∧
   (0 < maxClients r → Z.of_nat (size (clients r)) < maxClients r) ∧
   r' = set_record client (new_record client session conn now auth) r ∧ resumed ok = false) ∨
  (∃ record, clients r !! client = Some record ∧ state_of record = stateSuspended ∧
     authentication record = auth ∧ resume ≠ "" ∧
     (resume = sessionID record ∨ resume = previousSessionID record) ∧
     (suspendedAt record = zero_time ∨ now < suspendedAt record + RecoveryWindow) ∧
     resumed ok = true ∧ previousConnection ok = connection record ∧
     ∃ record', r' = set_record client record' r ∧ state_of record' = stateInitializing ∧
       sessionID record' = session ∧ suspendedAt record' = suspendedAt record).
Proof.
  unfold RegisterAuthenticated. destruct (clients r !! client) as [record|] eqn:Hc; cycle 1.
  { case_match eqn:Hres; [done|]. case_match eqn:Hcap; [done|]. intros ?; simplify_eq. left.
    bool_to_prop. split_and!; try done. intros. destruct Hcap; bool_to_prop; lia. }
  case_match eqn:Hauth; [done|]. case_match eqn:Hwin; [done|].
  case_match eqn:Hst; [by repeat case_match|by repeat case_match|].
  case_bool_decide as Hres; [done|]. case_match eqn:Hid; [done|]. intros ?; simplify_eq. right.
  exists record. cbn [negb andb] in Hwin.
  apply negb_false_iff, bool_decide_eq_true in Hauth.
  split_and!; try done.
  - apply andb_false_iff in Hid as [Hid|Hid]; bool_to_prop; auto.
  - unfold recovery_elapsed in Hwin. rewrite Sub_leb in Hwin by done.
    apply andb_false_iff in Hwin as [Hwin|Hwin]; unfold IsZero, Add in Hwin; bool_to_prop; [left|right; lia].
    done.
  - by eexists.
Qed.

(** C6: once the recovery window of a suspension has elapsed, the session can
    no longer come back: no registration of the client succeeds, activation
    and heartbeats are refused, and a sweep removes the record and reports it
    as expired. *)
Theorem recovery_deadline ρ client record now timeout r :
  registry_ok r → clients r !! client = Some record →
  suspendedAt record ≠ zero_time → suspendedAt record + RecoveryWindow <= now →
  (∀ resume session conn auth,
     is_ok (snd (RegisterAuthenticated client resume session conn now auth r)) = false) ∧
  (∀ session, Activate client session now r = (r, false)) ∧
  (∀ session sequence, Heartbeat client session sequence now r = (r, (false, false))) ∧
  (let '(r', _, expired) := Sweep ρ now timeout r in
   clients r' !! client = None ∧ expired_client client record ∈ expired).
Proof.
  intros Hr Hc Hz Hle. pose proof (recovery_elapsed_spec _ _ Hz Hle) as He.
  destruct (go_records _ Hr _ _ Hc) as [_ Hact _].
  split_and!.
  - intros. unfold RegisterAuthenticated. rewrite Hc, He.
    destruct (negb _); [done|]. rewrite andb_true_r. case_match eqn:Hres; [done|]. bool_to_prop.
    subst. destruct (state_of record); by repeat case_match.
  - intros. unfold Activate. rewrite Hc, He. by destruct (_ || _).
  - intros. unfold Heartbeat. rewrite Hc. destruct (_ || _) eqn:Hg; [done|].
    bool_to_prop. case_bool_decide as Hs.
    + by unfold recovery_elapsed in He; apply andb_true_iff in He as [_ ->].
    + destruct (state_of record) eqn:Hst; [done|by destruct Hz; apply Hact|done].
  - assert (Hv : verdict now timeout record = Expire).
    { unfold verdict. rewrite bool_decide_eq_false_2, He; [done|]. intros ?. by apply Hz, Hact. }
    pose proof (Sweep_clients ρ now timeout r client) as Hcl.
    destruct (sweep_reports now timeout (ρ (clients r)) r [] []) as (_ & Hrep & _).
    fold (Sweep ρ now timeout r) in Hrep. destruct (Sweep ρ now timeout r) as [[r' s] e].
    cbn [fst snd] in *. rewrite Hcl, Hc. simpl. unfold sweep_record. rewrite Hv. split; [done|].
    rewrite Hrep. simpl. apply list_elem_of_omap. exists (client, record).
    rewrite range_elem. unfold report_expired; simpl. by rewrite Hv.
Qed.

(** C7: failed resumptions never extend a suspension: along any history in
    which the client keeps a record and never becomes active, the suspension
    instant stays what it was, however often it is resumed and disconnected. *)
Theorem suspension_not_extended client record ops r :
  registry_ok r → Forall timely ops → clients r !! client = Some record →
  suspendedAt record ≠ zero_time →
  (∀ n, ∃ a, clients (run (take n ops) r) !! client = Some a ∧ state_of a ≠ stateActive) →
  ∃ b, clients (run ops r) !! client = Some b ∧ suspendedAt b = suspendedAt record.
Proof.
  intros Hr Ht Hc Hz. revert r record Hr Hc Hz.
  induction ops as [|op ops IH]; intros r a Hr Hc Hz Hall; [by exists a|].
  inversion Ht; subst. pose proof (apply_op_ok op r ltac:(done) Hr) as Hr'.
  destruct (Hall 1%nat) as (b & Hb & Hact).
  change (clients (apply_op op r) !! client = Some b) in Hb.
  assert (Hsb : suspendedAt b = suspendedAt a).
  { eapply transition_suspension; try done; [by eapply apply_op_transition|by apply (go_records _ Hr)]. }
  destruct (IH ltac:(done) (apply_op op r) b) as (z & Hz' & Hsz); [done|done|congruence| |].
  - intros n. apply (Hall (S n)).
  - exists z. split; [done|congruence].
Qed.

(** Calls that name a session other than the client's current one change
    nothing: a late cleanup or heartbeat of a superseded session cannot
    disturb its successor. *)
Theorem stale_session_ignored client session record sequence now r :
  clients r !! client = Some record → sessionID record ≠ session →
  Activate client session now r = (r, false) ∧
  Heartbeat client session sequence now r = (r, (false, false)) ∧
  Disconnect client session now r = r ∧ Remove client session r = r ∧
  Active client session r = false.
Proof.
  intros Hc Hs. unfold Activate, Heartbeat, Disconnect, Remove, Active. rewrite Hc.
  by rewrite !bool_decide_eq_false_2 by done.
Qed.

(** An accepted heartbeat can never be replayed: after it, along every
    history in which the session identifier is not issued again, a heartbeat
    of that session with the same or a smaller sequence number is refused. *)
Theorem heartbeat_replay_rejected client session sequence now r flag ops sequence' now' :
  snd (Heartbeat client session sequence now r) = (true, flag) →
  Forall (λ op, ¬ issues session op) ops → sequence' <= sequence →
  let r' := run ops (fst (Heartbeat client session sequence now r)) in
  Heartbeat client session sequence' now' r' = (r', (false, false)).
Proof.
  intros Hacc Hops Hle.
  assert (Hpast : past session sequence client (fst (Heartbeat client session sequence now r))).
  { unfold Heartbeat in *. destruct (clients r !! client) as [a|] eqn:Ha; [|done].
    destruct (_ || _) eqn:Hg in *; [done|]. destruct (_ && _) in *; [done|].
    intros b. cbn [fst]. rewrite set_record_lookup, decide_True by done.
    intros [= <-] _. cbn. split; [done|lia]. }
  cbv zeta. set (r1 := fst _) in *. clearbody r1. clear Hacc.
  assert (Hend : past session sequence client (run ops r1)).
  { revert r1 Hpast. induction Hops as [|op ops Hop _ IH]; intros r1 Hpast; [done|].
    simpl. apply IH. by apply past_preserved. }
  unfold Heartbeat. destruct (clients (run ops r1) !! client) as [a|] eqn:Ha; [|done].
  destruct (decide (sessionID a = session)) as [Hs|Hs];
    [|by rewrite (bool_decide_eq_false_2 _ Hs)].
  destruct (Hend a Ha Hs) as [_ Hseq].
  rewrite (proj2 (Z.leb_le sequence' (lastHeartbeatSequence a))) by lia. by rewrite orb_true_r.
Qed.

(** A sweep suspends exactly the active sessions whose heartbeat timed out
    and removes exactly the suspended ones whose window elapsed, each reported
    once, whatever the order in which the table is visited. *)
Theorem sweep_exact ρ now timeout r :
  let '(r', suspended, expired) := Sweep ρ now timeout r in
  (∀ c, clients r' !! c = clients r !! c ≫= sweep_record now timeout) ∧
  suspended ≡ₚ omap (report_suspended now timeout) (map_to_list (clients r)) ∧
  expired ≡ₚ omap (report_expired now timeout) (map_to_list (clients r)).
Proof.
  pose proof (Sweep_clients ρ now timeout r) as Hcl.
  destruct (sweep_reports now timeout (ρ (clients r)) r [] []) as (Hs & He & _).
  fold (Sweep ρ now timeout r) in Hs, He. destruct (Sweep ρ now timeout r) as [[r' s] e].
  cbn [fst snd] in *. rewrite Hs, He. simpl. by rewrite range_of_perm.
Qed.

(** Revoking credentials removes exactly the sessions authenticated by
    them in that generation, and returns each of them once. *)
Theorem revoke_exact ρ contexts r :
  let '(r', revoked) := RevokeAuthentication ρ contexts r in
  (∀ c record, clients r' !! c = Some record ↔
     clients r !! c = Some record ∧
     ¬ ∃ context, context ∈ contexts ∧ CredentialID context = CredentialID (authentication record) ∧
         Generation context = Generation (authentication record)) ∧
  revoked ≡ₚ omap (report_revoked contexts) (map_to_list (clients r)).
Proof.
  destruct (Revoke_spec ρ contexts r) as (Hcl & _ & Hrep).
  destruct (RevokeAuthentication ρ contexts r) as [r' revoked]. cbn [fst snd] in *.
  split; [|done]. intros c record. rewrite Hcl, map_lookup_filter_Some. cbn [snd].
  unfold revoked_by. rewrite bool_decide_eq_false, list_elem_of_fmap.
  split; intros [Hin Hnot]; (split; [done|]); intros (x & H1 & H2); apply Hnot; exists x.
  - destruct H2 as [-> ->]. done.
  - by injection H1 as -> ->.
Qed.

(** ** Witnesses *)

Module DemoSession.
Definition auth : Context :=
  {| Mode := ModeShared; ContextClientID := ""; CredentialID := []; Generation := 1 |}.

(** Registered, activated, disconnected at 10 s, resumed at 30 s and dropped
    again at 50 s, before activation. *)
Definition start : list Op :=
  [OpRegister "c" "" "s1" (Some 1) (5 * Second) auth; OpActivate "c" "s1" (6 * Second);
   OpDisconnect "c" "s1" (10 * Second)].
Definition retry : list Op :=
  [OpRegister "c" "s1" "s2" (Some 2) (30 * Second) auth; OpDisconnect "c" "s2" (50 * Second)].

Definition suspended : Registry := run start (NewRegistryWithLimit 8).

Lemma suspended_ok : registry_ok suspended.
Proof. apply run_ok; [|apply NewRegistry_ok]. repeat constructor; done. Qed.

Definition record : clientRecord :=
  {| clientID := "c"; sessionID := "s1"; previousSessionID := ""; state_of := stateSuspended;
     connection := Some 1; lastHeartbeatAt := 6 * Second; lastHeartbeatSequence := 0;
     suspendedAt := 10 * Second; authentication := auth |}.

Lemma suspended_record : clients suspended !! "c" = Some record.
Proof. vm_compute. reflexivity. Qed.

Definition active : Registry := run (take 2 start) (NewRegistryWithLimit 8).
End DemoSession.

Lemma session_invariant_witness :
  let r := run DemoSession.start (NewRegistryWithLimit 8) in
  (0 < maxClients r → Z.of_nat (size (clients r)) <= maxClients r) ∧ map_Forall record_ok (clients r).
Proof. apply session_invariant. repeat constructor; done. Defined.

Lemma register_takeover_witness :
  let out := RegisterAuthenticated "c" "s1" "s2" (Some 2) (30 * Second) DemoSession.auth
               DemoSession.suspended in
  ∃ ok, snd out = Ok ok ∧ resumed ok = true ∧ previousConnection ok = Some 1.
Proof.
  intros out.
  assert (Hok : snd out = Ok {| resumed := true; created := false; previousConnection := Some 1 |})
    by (vm_compute; reflexivity).
  eexists. split; [exact Hok|].
  destruct (register_takeover "c" "s1" "s2" (Some 2) (30 * Second) DemoSession.auth
    DemoSession.suspended (fst out) _ (pair_snd out _ Hok)) as [(_ & ? & _)|(record & Hr & H)].
  - discriminate.
  - rewrite DemoSession.suspended_record in Hr. injection Hr as <-. split; apply H.
Defined.

Lemma recovery_deadline_witness :
  clients (fst (fst (Sweep any_range (70 * Second) (20 * Second) DemoSession.suspended))) !! "c" = None.
Proof.
  pose proof (recovery_deadline any_range "c" DemoSession.record (70 * Second) (20 * Second)
    DemoSession.suspended DemoSession.suspended_ok DemoSession.suspended_record
    ltac:(done) ltac:(done)) as (_ & _ & _ & Hs).
  destruct (Sweep any_range (70 * Second) (20 * Second) DemoSession.suspended) as [[r' s] e].
  apply Hs.
Defined.

Lemma suspension_not_extended_witness :
  ∃ b, clients (run DemoSession.retry DemoSession.suspended) !! "c" = Some b ∧
    suspendedAt b = 10 * Second.
Proof.
  apply (suspension_not_extended "c" DemoSession.record DemoSession.retry DemoSession.suspended).
  - apply DemoSession.suspended_ok.
  - repeat constructor; done.
  - apply DemoSession.suspended_record.
  - done.
  - intros [|[|[|n]]]; eexists; (split; [vm_compute; reflexivity|done]).
Defined.

Lemma stale_session_ignored_witness :
  Disconnect "c" "s0" (60 * Second) DemoSession.suspended = DemoSession.suspended.
Proof.
  apply (stale_session_ignored "c" "s0" DemoSession.record 1 (60 * Second) DemoSession.suspended).
  - apply DemoSession.suspended_record.
  - done.
Defined.

Lemma heartbeat_replay_rejected_witness :
  let r' := run [OpHeartbeat "c" "s1" 7 (9 * Second)]
              (fst (Heartbeat "c" "s1" 5 (8 * Second) DemoSession.active)) in
  Heartbeat "c" "s1" 5 (12 * Second) r' = (r', (false, false)).
Proof.
  apply (heartbeat_replay_rejected "c" "s1" 5 (8 * Second) DemoSession.active false).
  - vm_compute. reflexivity.
  - repeat constructor. by intros [].
  - lia.
Defined.
