(* ===== verification/SourceLimiter.v ===== *)
(** * Authentication failure limiter ([internal/authentication/source_limiter.go])

    Failures are tracked per source address, in a map bounded by evicting the
    least recently used source.  [container/list] is the list of addresses
    from the least to the most recently used; an entry's [element] is its
    position in that list, found by address. *)

From S2P Require Import Prelude GoTime NetAddr.

Local Open Scope Z_scope.

Definition defaultMaximumTrackedSources : Z := 4096.
Definition defaultMaximumFailures : Z := 10.
Definition defaultFailureWindow : Duration := Minute.
Definition defaultBlockDuration : Duration := Minute.

Record sourceFailureEntry := {
  address : Addr;
  windowStart : Time;
  failures : Z;
  blockedUntil : Time
}.
#[export] Instance eta_sourceFailureEntry : Eta sourceFailureEntry := λ e,
  {| address := address e; windowStart := windowStart e; failures := failures e;
     blockedUntil := blockedUntil e |}.

Record SourceFailureLimiter := {
  entries : gmap Addr sourceFailureEntry;
  recency : list Addr;
  maximumSources : Z;
  maximumFailures : Z;
  window : Duration;
  blockDuration : Duration
}.
#[export] Instance eta_SourceFailureLimiter : Eta SourceFailureLimiter := λ l,
  {| entries := entries l; recency := recency l; maximumSources := maximumSources l;
     maximumFailures := maximumFailures l; window := window l; blockDuration := blockDuration l |}.

Definition newSourceFailureLimiter (maximumSources maximumFailures : Z) (window blockDuration : Duration) :
    SourceFailureLimiter :=
  {| entries := ∅; recency := []; maximumSources := maximumSources;
     maximumFailures := maximumFailures; window := window; blockDuration := blockDuration |}.

Definition NewSourceFailureLimiter : SourceFailureLimiter :=
  newSourceFailureLimiter defaultMaximumTrackedSources defaultMaximumFailures
    defaultFailureWindow defaultBlockDuration.

(** [list.Remove] and [list.MoveToBack] of the element holding [a] *)
Definition list_Remove (a : Addr) (l : list Addr) : list Addr := filter (λ b, b ≠ a) l.
Definition MoveToBack (a : Addr) (l : list Addr) : list Addr := list_Remove a l ++ [a].

Definition removeLocked (entry : sourceFailureEntry) (limiter : SourceFailureLimiter) :
    SourceFailureLimiter :=
  limiter <| entries := delete (address entry) (entries limiter) |>
          <| recency := list_Remove (address entry) (recency limiter) |>.

Definition touch (a : Addr) (limiter : SourceFailureLimiter) : SourceFailureLimiter :=
  limiter <| recency := MoveToBack a (recency limiter) |>.

Definition Allow (source : Addr) (now : Time) (limiter : SourceFailureLimiter) :
    SourceFailureLimiter * bool :=
  if negb (IsValid source) then (limiter, false)
  else
    let a := Unmap source in
    match entries limiter !! a with
    | None => (limiter, true)
    | Some entry =>
      let limiter := touch a limiter in
      if Before now (blockedUntil entry) then (limiter, false)
      else if window limiter <=? Sub now (windowStart entry) then (removeLocked entry limiter, true)
      else (limiter, true)
    end.

(** The eviction loop: [None] when the list is empty, where [Front()] is nil
    and the dereference panics. *)
Fixpoint evict (order : list Addr) (limiter : SourceFailureLimiter) : option SourceFailureLimiter :=
  if Z.of_nat (size (entries limiter)) <? maximumSources limiter then Some limiter
  else match order with
  | [] => None
  | oldest :: order =>
    match entries limiter !! oldest with
    | Some entry => evict order (removeLocked entry limiter)
    | None => None
    end
  end.

(** The failure counted against an entry, old or new. *)
Definition count_failure (now : Time) (limiter : SourceFailureLimiter) (entry : sourceFailureEntry) :
    sourceFailureEntry :=
  let entry := entry <| failures := failures entry + 1 |> in
  if maximumFailures limiter <=? failures entry
  then entry <| blockedUntil := Add now (blockDuration limiter) |> else entry.

Definition reset_window (now : Time) (limiter : SourceFailureLimiter) (entry : sourceFailureEntry) :
    sourceFailureEntry :=
  if negb (Before now (blockedUntil entry)) && (window limiter <=? Sub now (windowStart entry))
  then entry <| windowStart := now |> <| failures := 0 |> <| blockedUntil := zero_time |>
  else entry.

Definition RecordFailure (source : Addr) (now : Time) (limiter : SourceFailureLimiter) :
    option SourceFailureLimiter :=
  if negb (IsValid source) then Some limiter
  else
    let a := Unmap source in
    match entries limiter !! a with
    | None =>
      limiter ← evict (recency limiter) limiter;
      let entry := {| address := a; windowStart := now; failures := 0; blockedUntil := zero_time |} in
      Some (limiter <| recency := recency limiter ++ [a] |>
                    <| entries := <[a := count_failure now limiter entry]> (entries limiter) |>)
    | Some entry =>
      let limiter := touch a limiter in
      let entry := count_failure now limiter (reset_window now limiter entry) in
      Some (limiter <| entries := <[a := entry]> (entries limiter) |>)
    end.

Definition RecordSuccess (source : Addr) (limiter : SourceFailureLimiter) : SourceFailureLimiter :=
  if negb (IsValid source) then limiter
  else match entries limiter !! Unmap source with
       | Some entry => removeLocked entry limiter
       | None => limiter
       end.

(** ** Invariant *)

Definition entry_ok (l : SourceFailureLimiter) (a : Addr) (e : sourceFailureEntry) : Prop :=
  address e = a ∧ 0 < failures e ∧
  (failures e < maximumFailures l → blockedUntil e = zero_time).

Record limiter_ok (l : SourceFailureLimiter) : Prop := {
  lo_order : NoDup (recency l);
  lo_tracked a : a ∈ recency l ↔ is_Some (entries l !! a);
  lo_entries : map_Forall (entry_ok l) (entries l);
  lo_bound : Z.of_nat (size (entries l)) <= maximumSources l;
  lo_positive : 1 <= maximumSources l
}.

Lemma list_Remove_elem a b l : b ∈ list_Remove a l ↔ b ∈ l ∧ b ≠ a.
Proof. unfold list_Remove. rewrite list_elem_of_filter. tauto. Qed.

Lemma list_Remove_NoDup a l : NoDup l → NoDup (list_Remove a l).
Proof. apply NoDup_filter. Qed.

Lemma MoveToBack_elem a b l : a ∈ l → b ∈ MoveToBack a l ↔ b ∈ l.
Proof.
  intros Ha. unfold MoveToBack. rewrite elem_of_app, list_Remove_elem, list_elem_of_singleton.
  destruct (decide (b = a)); naive_solver.
Qed.

Lemma MoveToBack_NoDup a l : NoDup l → NoDup (MoveToBack a l).
Proof.
  intros Hl. unfold MoveToBack. apply NoDup_app. split_and!; [by apply list_Remove_NoDup| |apply NoDup_singleton].
  intros b [_ Hb]%list_Remove_elem ->%list_elem_of_singleton. done.
Qed.

Lemma list_Remove_head a l : NoDup (a :: l) → list_Remove a (a :: l) = l.
Proof.
  intros [Ha _]%NoDup_cons. unfold list_Remove. rewrite filter_cons_False by auto.
  induction l as [|b l IH]; [done|]. apply not_elem_of_cons in Ha as [? ?].
  rewrite filter_cons_True by done. by rewrite IH.
Qed.

(** The most recently used source is moved, not added. *)
Lemma touch_ok a l : limiter_ok l → is_Some (entries l !! a) → limiter_ok (touch a l).
Proof.
  intros [Ho Ht He Hb Hp] Ha. constructor; simpl; try done.
  - by apply MoveToBack_NoDup.
  - intros b. rewrite MoveToBack_elem by (by apply Ht). apply Ht.
Qed.

Lemma removeLocked_ok e l :
  limiter_ok l → is_Some (entries l !! address e) → limiter_ok (removeLocked e l).
Proof.
  intros [Ho Ht He Hb Hp] [x Hx]. constructor; simpl; try done.
  - by apply list_Remove_NoDup.
  - intros b. rewrite list_Remove_elem, Ht, lookup_delete_is_Some. naive_solver.
  - by apply map_Forall_delete.
  - rewrite map_size_delete, Hx; simpl. lia.
Qed.

(** Eviction ends, makes room and removes the oldest sources. *)
Lemma evict_spec order : ∀ l,
  limiter_ok l → order = recency l →
  ∃ l', evict order l = Some l' ∧ limiter_ok l' ∧ entries l' ⊆ entries l ∧
    Z.of_nat (size (entries l')) < maximumSources l' ∧
    (maximumSources l' = maximumSources l ∧ maximumFailures l' = maximumFailures l ∧
     window l' = window l ∧ blockDuration l' = blockDuration l).
Proof.
  induction order as [|a order IH]; intros l Hl Hord; simpl;
    destruct (Z.ltb_spec (Z.of_nat (size (entries l))) (maximumSources l)); try (by exists l).
  - exfalso. destruct Hl as [_ Ht _ _ Hp]. rewrite <- Hord in Ht.
    assert (entries l = ∅) as Hempty.
    { apply map_empty. intros b. apply eq_None_not_Some. rewrite <- Ht. apply not_elem_of_nil. }
    rewrite Hempty, map_size_empty in *. lia.
  - destruct (proj1 (lo_tracked _ Hl a)) as [e He]; [rewrite <- Hord; left|]. rewrite He.
    destruct (lo_entries _ Hl _ _ He) as [Hadd _].
    destruct (IH (removeLocked e l)) as (l' & -> & Hl' & Hsub & Hsz & Hset).
    + apply removeLocked_ok; [done|rewrite Hadd; eauto].
    + simpl. rewrite Hadd, <- Hord. symmetry. apply list_Remove_head. rewrite Hord. apply Hl.
    + exists l'. split_and!; try done; try apply Hset. etrans; [exact Hsub|apply delete_subseteq].
Qed.

Lemma count_failure_ok now l a e :
  address e = a → 0 <= failures e → (failures e < maximumFailures l → blockedUntil e = zero_time) →
  entry_ok l a (count_failure now l e).
Proof.
  intros Ha Hf Hb. unfold count_failure. simpl.
  destruct (Z.leb_spec (maximumFailures l) (failures e + 1)); unfold entry_ok; simpl;
    split_and!; done || lia.
Qed.

Lemma reset_window_entry now l a e :
  entry_ok l a e →
  let e' := reset_window now l e in
  address e' = a ∧ 0 <= failures e' ∧ (failures e' < maximumFailures l → blockedUntil e' = zero_time).
Proof.
  intros (Ha & Hf & Hb). unfold reset_window. cbv zeta.
  destruct (_ && _); simpl; split_and!; done || lia.
Qed.

Lemma RecordFailure_ok source now l :
  limiter_ok l → ∃ l', RecordFailure source now l = Some l' ∧ limiter_ok l'.
Proof.
  intros Hl. unfold RecordFailure. destruct (negb _); [by exists l|].
  set (a := Unmap source). destruct (entries l !! a) as [e|] eqn:Ha.
  - eexists. split; [done|].
    destruct (touch_ok a l Hl ltac:(eauto)) as [Ho Ht He Hb Hp]. constructor; simpl in *; try done.
    + intros b. rewrite Ht, lookup_insert_is_Some'. naive_solver.
    + apply map_Forall_insert_2; [|done].
      destruct (reset_window_entry now (touch a l) a e) as (? & ? & ?); [by apply (lo_entries _ Hl)|].
      by apply (count_failure_ok now (touch a l)).
    + by rewrite map_size_insert_Some by done.
  - destruct (evict_spec (recency l) l Hl eq_refl) as (l1 & -> & [Ho Ht He Hb Hp] & Hsub & Hsz & Hset).
    cbn [mbind option_bind]. eexists. split; [done|].
    assert (Hfresh : entries l1 !! a = None) by (eapply lookup_weaken_None; [exact Ha|exact Hsub]).
    constructor; simpl; try done.
    + apply NoDup_app. split_and!; [done| |apply NoDup_singleton].
      intros b Hb' ->%list_elem_of_singleton. apply Ht in Hb' as [? ?]. congruence.
    + intros b. rewrite elem_of_app, list_elem_of_singleton, Ht, lookup_insert_is_Some'. naive_solver.
    + apply map_Forall_insert_2; [|done]. by apply (count_failure_ok now l1).
    + rewrite map_size_insert_None by done. lia.
Qed.

Lemma Allow_ok source now l : limiter_ok l → limiter_ok (fst (Allow source now l)).
Proof.
  intros Hl. unfold Allow. destruct (negb _); [done|].
  destruct (entries l !! Unmap source) as [e|] eqn:He; [|done]. cbv zeta.
  assert (Ht : limiter_ok (touch (Unmap source) l)) by (apply touch_ok; eauto).
  destruct (Before _ _); [done|]. destruct (_ <=? _); [|done]. cbn [fst].
  apply removeLocked_ok; [done|]. destruct (lo_entries _ Hl _ _ He) as [-> _]. simpl. eauto.
Qed.

Lemma RecordSuccess_ok source l : limiter_ok l → limiter_ok (RecordSuccess source l).
Proof.
  intros Hl. unfold RecordSuccess. destruct (negb _); [done|].
  destruct (entries l !! Unmap source) as [e|] eqn:He; [|done].
  apply removeLocked_ok; [done|]. destruct (lo_entries _ Hl _ _ He) as [-> _]. eauto.
Qed.

(** Histories of calls; [None] is a panic. *)
Inductive LimiterOp := OpAllow (source : Addr) (now : Time) | OpFailure (source : Addr) (now : Time)
                     | OpSuccess (source : Addr).

Definition apply_limiter (op : LimiterOp) (l : SourceFailureLimiter) : option SourceFailureLimiter :=
  match op with
  | OpAllow source now => Some (fst (Allow source now l))
  | OpFailure source now => RecordFailure source now l
  | OpSuccess source => Some (RecordSuccess source l)
  end.

Fixpoint run_limiter (ops : list LimiterOp) (l : SourceFailureLimiter) : option SourceFailureLimiter :=
  match ops with
  | [] => Some l
  | op :: ops => l ← apply_limiter op l; run_limiter ops l
  end.

Lemma apply_limiter_ok op l : limiter_ok l → ∃ l', apply_limiter op l = Some l' ∧ limiter_ok l'.
Proof.
  intros Hl. destruct op; simpl.
  - eexists. split; [done|by apply Allow_ok].
  - by apply RecordFailure_ok.
  - eexists. split; [done|by apply RecordSuccess_ok].
Qed.

Lemma run_limiter_ok ops : ∀ l, limiter_ok l → ∃ l', run_limiter ops l = Some l' ∧ limiter_ok l'.
Proof.
  induction ops as [|op ops IH]; intros l Hl; simpl; [by exists l|].
  destruct (apply_limiter_ok op l Hl) as (l1 & -> & Hl1). by apply IH.
Qed.

Lemma apply_limiter_settings op l l' :
  apply_limiter op l = Some l' → limiter_ok l → maximumSources l' = maximumSources l.
Proof.
  intros E Hl. destruct op as [source now|source now|source]; simpl in E.
  - simplify_eq. unfold Allow. by repeat case_match.
  - unfold RecordFailure in E. destruct (negb _); [by simplify_eq|].
    destruct (entries l !! _); [by simplify_eq|].
    destruct (evict_spec (recency l) l Hl eq_refl) as (l1 & Hev & _ & _ & _ & Hm & _).
    rewrite Hev in E. simpl in E. by simplify_eq.
  - simplify_eq. unfold RecordSuccess. by repeat case_match.
Qed.

Lemma run_limiter_settings ops : ∀ l l',
  run_limiter ops l = Some l' → limiter_ok l → maximumSources l' = maximumSources l.
Proof.
  induction ops as [|op ops IH]; intros l l' E Hl; simpl in E; [by simplify_eq|].
  destruct (apply_limiter_ok op l Hl) as (l1 & E1 & Hl1). rewrite E1 in E. simpl in E.
  rewrite (IH _ _ E Hl1). by eapply apply_limiter_settings.
Qed.

Lemma new_limiter_ok sources maximum window block :
  1 <= sources → limiter_ok (newSourceFailureLimiter sources maximum window block).
Proof.
  intros. constructor; simpl; try done; [constructor| |rewrite map_size_empty; lia].
  intros a. rewrite lookup_empty, elem_of_nil. split; [done|by intros []].
Qed.

(** *** A burst of failures from one source *)

Definition record_failures (source : Addr) (times : list Time) (l : SourceFailureLimiter) :
    option SourceFailureLimiter :=
  run_limiter (OpFailure source <$> times) l.

(** The entry of [a] after [n] failures since [start], the last one at [last]. *)
Definition failed (l : SourceFailureLimiter) (a : Addr) (start last : Time) (n : Z) : sourceFailureEntry :=
  {| address := a; windowStart := start; failures := n;
     blockedUntil := if n <? maximumFailures l then zero_time else Add last (blockDuration l) |}.

(** The limits of a limiter, which no call changes. *)
Definition limits_of (l : SourceFailureLimiter) := (maximumFailures l, window l, blockDuration l).

Lemma failed_limits l l' a start last n :
  limits_of l' = limits_of l → failed l' a start last n = failed l a start last n.
Proof. intros [= E1 E2 E3]. unfold failed. by rewrite E1, E3. Qed.

Lemma count_failed l a start now n e :
  address e = a → windowStart e = start → failures e = n → blockedUntil e = zero_time →
  count_failure now l e = failed l a start now (n + 1).
Proof.
  intros <- <- <- Hb. unfold count_failure, failed; simpl.
  destruct (Z.leb_spec (maximumFailures l) (failures e + 1)), (Z.ltb_spec (failures e + 1) (maximumFailures l));
    try lia; [done|]. destruct e; simpl in *. by subst.
Qed.

Lemma RecordFailure_first source now l :
  limiter_ok l → IsValid source = true → entries l !! Unmap source = None →
  ∃ l', RecordFailure source now l = Some l' ∧ limits_of l' = limits_of l ∧
    entries l' !! Unmap source = Some (failed l (Unmap source) now now 1).
Proof.
  intros Hl Hv Ha. unfold RecordFailure. rewrite Hv, Ha. cbn [negb].
  destruct (evict_spec (recency l) l Hl eq_refl) as (l1 & -> & _ & _ & _ & _ & E1 & E2 & E3).
  assert (Hlim : limits_of l1 = limits_of l) by (unfold limits_of; by rewrite E1, E2, E3).
  cbn [mbind option_bind]. eexists. split_and!; [done|done|]. cbn [entries upd].
  rewrite lookup_insert_eq. f_equal. rewrite <- (failed_limits l l1) by done.
  by apply (count_failed l1 _ now now 0).
Qed.

Lemma RecordFailure_next source start last now n l :
  IsValid source = true → entries l !! Unmap source = Some (failed l (Unmap source) start last n) →
  n < maximumFailures l → Sub now start < window l →
  ∃ l', RecordFailure source now l = Some l' ∧ limits_of l' = limits_of l ∧
    entries l' !! Unmap source = Some (failed l (Unmap source) start now (n + 1)).
Proof.
  intros Hv Ha Hn Hw. unfold RecordFailure. rewrite Hv, Ha. cbn [negb]. cbv zeta.
  set (a := Unmap source) in *. set (l1 := touch a l). set (e := failed l a start last n).
  assert (Hkeep : reset_window now l1 e = e).
  { unfold reset_window. simpl. rewrite (proj2 (Z.leb_gt (window l) (Sub now start))) by lia.
    by rewrite andb_false_r. }
  rewrite Hkeep. eexists. split_and!; [done|done|]. cbn [entries upd]. rewrite lookup_insert_eq.
  f_equal. rewrite (count_failed l1 a start now n); try done.
  unfold e, failed; simpl. by rewrite (proj2 (Z.ltb_lt _ _) Hn).
Qed.

Lemma last_cons_default {A} (l : list A) : ∀ x d, List.last (x :: l) d = List.last l x.
Proof. induction l as [|y l IH]; intros x d; [done|]. rewrite (IH y x). apply (IH y d). Qed.

Lemma record_failures_more source start times : ∀ last n l,
  limiter_ok l → IsValid source = true →
  entries l !! Unmap source = Some (failed l (Unmap source) start last n) →
  n + Z.of_nat (length times) <= maximumFailures l →
  Forall (λ now, Sub now start < window l) times →
  ∃ l', record_failures source times l = Some l' ∧ limits_of l' = limits_of l ∧
    entries l' !! Unmap source =
      Some (failed l (Unmap source) start (List.last times last) (n + Z.of_nat (length times))).
Proof.
  induction times as [|now times IH]; intros last n l Hl Hv Ha Hn Hw.
  { exists l. rewrite Z.add_0_r. done. }
  inversion Hw as [|? ? Hnow Hrest]; subst. cbn [length] in Hn.
  destruct (RecordFailure_next source start last now n l) as (l1 & E1 & Hlim & Ha1); [done|done|lia|done|].
  destruct (RecordFailure_ok source now l Hl) as (l1' & E1' & Hl1). rewrite E1 in E1'. injection E1' as <-.
  unfold limits_of in Hlim. injection Hlim as Em Ew Eb.
  destruct (IH now (n + 1) l1) as (l2 & E2 & Hlim2 & Ha2).
  - done.
  - done.
  - rewrite Ha1. f_equal. symmetry. apply failed_limits. unfold limits_of. congruence.
  - rewrite Em. lia.
  - rewrite Ew. done.
  - exists l2. unfold record_failures in *. cbn [fmap list_fmap run_limiter apply_limiter].
    rewrite E1. cbn [mbind option_bind]. split_and!; [done|rewrite Hlim2; unfold limits_of; congruence|].
    rewrite Ha2. f_equal. rewrite (failed_limits l l1) by (unfold limits_of; congruence).
    f_equal; [by rewrite last_cons_default|simpl; lia].
Qed.

(** ** Theorems *)

(** Whatever the calls and their times, the limiter never panics, tracks
    at most the configured number of sources, and its recency list holds each
    tracked source exactly once. *)
Theorem limiter_bounded sources maximum window block ops :
  1 <= sources →
  ∃ l, run_limiter ops (newSourceFailureLimiter sources maximum window block) = Some l ∧
    Z.of_nat (size (entries l)) <= sources ∧
    NoDup (recency l) ∧ (∀ a, a ∈ recency l ↔ is_Some (entries l !! a)).
Proof.
  intros Hs. pose proof (new_limiter_ok sources maximum window block Hs) as Hnew.
  destruct (run_limiter_ok ops _ Hnew) as (l & E & [Ho Ht _ Hb _]).
  rewrite (run_limiter_settings _ _ _ E Hnew) in Hb. by exists l.
Qed.

(** An untracked source that fails the configured number of times within
    one window is refused until the block duration after the last failure, and
    allowed again from then on. *)
Theorem failures_block source start times l now :
  limiter_ok l → IsValid source = true → entries l !! Unmap source = None →
  1 + Z.of_nat (length times) = maximumFailures l →
  Forall (λ t, Sub t start < window l) times →
  ∃ l', record_failures source (start :: times) l = Some l' ∧
    snd (Allow source now l') = negb (Before now (Add (List.last times start) (blockDuration l))).
Proof.
  intros Hl Hv Ha Hn Hw.
  destruct (RecordFailure_first source start l Hl Hv Ha) as (l1 & E1 & Hlim & Ha1).
  destruct (RecordFailure_ok source start l Hl) as (l1' & E1' & Hl1). rewrite E1 in E1'. injection E1' as <-.
  unfold limits_of in Hlim. injection Hlim as Em Ew Eb.
  destruct (record_failures_more source start times start 1 l1) as (l2 & E2 & _ & Ha2);
    [done|done| |lia|by rewrite Ew|].
  { rewrite Ha1. f_equal. symmetry. apply failed_limits. unfold limits_of. congruence. }
  exists l2. split.
  - unfold record_failures in *. cbn [fmap list_fmap run_limiter apply_limiter]. by rewrite E1.
  - unfold Allow. rewrite Hv, Ha2. cbn [negb]. cbv zeta. unfold failed at 1.
    cbn [blockedUntil windowStart]. rewrite Em, Eb, (proj2 (Z.ltb_ge (1 + Z.of_nat (length times)) (maximumFailures l))) by lia.
    destruct (Before _ _); [done|]. by destruct (_ <=? _).
Qed.

(** A source is refused only while it is blocked, which takes at least
    the configured number of recorded failures. *)
Theorem refused_only_after_failures source now l :
  limiter_ok l → zero_time <= now → IsValid source = true → snd (Allow source now l) = false →
  ∃ entry, entries l !! Unmap source = Some entry ∧
    maximumFailures l <= failures entry ∧ now < blockedUntil entry.
Proof.
  intros Hl Hnow Hv. unfold Allow. rewrite Hv. cbn [negb].
  destruct (entries l !! Unmap source) as [e|] eqn:He; [|done]. cbv zeta.
  destruct (Before now (blockedUntil e)) eqn:Hb; [|by destruct (_ <=? _)]. intros _.
  exists e. unfold Before in Hb. apply Z.ltb_lt in Hb.
  destruct (lo_entries _ Hl _ _ He) as (_ & _ & Hz). split_and!; [done| |done].
  destruct (Z.lt_ge_cases (failures e) (maximumFailures l)) as [Hlt|]; [|done].
  rewrite (Hz Hlt) in Hb. unfold zero_time in *. lia.
Qed.

(** A successful authentication forgets the failures of its source, and
    of no other source. *)
Theorem success_forgives source now l :
  limiter_ok l → IsValid source = true →
  snd (Allow source now (RecordSuccess source l)) = true ∧
  (∀ other, Unmap other ≠ Unmap source →
     entries (RecordSuccess source l) !! Unmap other = entries l !! Unmap other).
Proof.
  intros Hl Hv. unfold RecordSuccess. rewrite Hv. cbn [negb].
  destruct (entries l !! Unmap source) as [e|] eqn:He; cycle 1.
  { split; [|done]. unfold Allow. by rewrite Hv, He. }
  destruct (lo_entries _ Hl _ _ He) as [Ha _]. split.
  - unfold Allow. rewrite Hv. cbn [negb entries removeLocked upd]. by rewrite Ha, lookup_delete_eq.
  - intros other Hne. cbn [entries removeLocked upd]. by rewrite Ha, lookup_delete_ne by done.
Qed.

(** ** Witnesses *)

Definition demo_source : Addr := Addr4 (IP4 x01 x02 x03 x04).

Lemma limiter_bounded_witness :
  ∃ l, run_limiter [OpFailure demo_source Second; OpFailure (Addr4 (IP4 x01 x02 x03 x05)) Second]
         (newSourceFailureLimiter 1 3 Minute Minute) = Some l ∧
    Z.of_nat (size (entries l)) <= 1 ∧
    NoDup (recency l) ∧ (∀ a, a ∈ recency l ↔ is_Some (entries l !! a)).
Proof. apply limiter_bounded. lia. Defined.

Lemma failures_block_witness :
  ∃ l', record_failures demo_source [Second; 2 * Second; 3 * Second]
          (newSourceFailureLimiter 4 3 Minute Minute) = Some l' ∧
    snd (Allow demo_source Minute l') =
      negb (Before Minute (Add (List.last [2 * Second; 3 * Second] Second) Minute)).
Proof.
  apply (failures_block demo_source Second [2 * Second; 3 * Second]
    (newSourceFailureLimiter 4 3 Minute Minute)).
  - apply new_limiter_ok. lia.
  - reflexivity.
  - reflexivity.
  - reflexivity.
  - repeat constructor; done.
Defined.

Definition blocked_limiter : SourceFailureLimiter :=
  default NewSourceFailureLimiter
    (record_failures demo_source [Second; 2 * Second; 3 * Second] (newSourceFailureLimiter 4 3 Minute Minute)).

Lemma blocked_limiter_ok : limiter_ok blocked_limiter.
Proof.
  destruct (run_limiter_ok (OpFailure demo_source <$> [Second; 2 * Second; 3 * Second])
    (newSourceFailureLimiter 4 3 Minute Minute)) as (l & E & Hl).
  - apply new_limiter_ok. lia.
  - unfold blocked_limiter, record_failures. by rewrite E.
Qed.

Lemma refused_only_after_failures_witness :
  ∃ entry, entries blocked_limiter !! Unmap demo_source = Some entry ∧
    maximumFailures blocked_limiter <= failures entry ∧ Minute < blockedUntil entry.
Proof.
  apply (refused_only_after_failures demo_source Minute blocked_limiter).
  - apply blocked_limiter_ok.
  - done.
  - reflexivity.
  - vm_compute. reflexivity.
Defined.

Lemma success_forgives_witness :
  snd (Allow demo_source Minute (RecordSuccess demo_source blocked_limiter)) = true.
Proof. apply (success_forgives demo_source Minute blocked_limiter); [apply blocked_limiter_ok|reflexivity]. Defined.
