(* ===== verification/ConfigUDP.v ===== *)
(** * UDP limits ([internal/config/udp.go, forward_udp.go])

    The resource limits of the UDP runtimes and their validation, and the
    mapping of the limits to the wire names of the Forward protocol. *)

From S2P Require Import Prelude GoTime.

Local Open Scope Z_scope.

Record UDPConfig := {
  AssociationIdleTimeout : Duration;
  LinkWriteTimeout : Duration;
  MaxDatagramSize : Z;
  MaxAssociations : Z;
  MaxAssociationsPerClient : Z;
  MaxAssociationsPerProxy : Z;
  MaxAssociationsPerSourceIP : Z;
  MaxPendingAssociations : Z;
  MaxPendingAssociationsPerClient : Z;
  MaxPendingAssociationsPerProxy : Z;
  MaxNewAssociationsPerSecond : Z;
  MaxNewAssociationsPerSecondPerClient : Z;
  MaxNewAssociationsPerSecondPerProxy : Z;
  MaxQueuedDatagramsPerAssociation : Z;
  MaxQueuedBytesPerAssociation : Z;
  MaxQueuedBytes : Z
}.
#[export] Instance udp_config_eq_dec : EqDecision UDPConfig.
Proof. solve_decision. Defined.

Definition zero_UDPConfig : UDPConfig :=
  {| AssociationIdleTimeout := 0; LinkWriteTimeout := 0; MaxDatagramSize := 0; MaxAssociations := 0;
     MaxAssociationsPerClient := 0; MaxAssociationsPerProxy := 0; MaxAssociationsPerSourceIP := 0;
     MaxPendingAssociations := 0; MaxPendingAssociationsPerClient := 0;
     MaxPendingAssociationsPerProxy := 0; MaxNewAssociationsPerSecond := 0;
     MaxNewAssociationsPerSecondPerClient := 0; MaxNewAssociationsPerSecondPerProxy := 0;
     MaxQueuedDatagramsPerAssociation := 0; MaxQueuedBytesPerAssociation := 0; MaxQueuedBytes := 0 |}.

Definition DefaultUDPConfig : UDPConfig :=
  {| AssociationIdleTimeout := 60 * Second;
     LinkWriteTimeout := 3 * Second;
     MaxDatagramSize := 8 * 1024;
     MaxAssociations := 4096;
     MaxAssociationsPerClient := 512;
     MaxAssociationsPerProxy := 256;
     MaxAssociationsPerSourceIP := 64;
     MaxPendingAssociations := 1024;
     MaxPendingAssociationsPerClient := 128;
     MaxPendingAssociationsPerProxy := 64;
     MaxNewAssociationsPerSecond := 1000;
     MaxNewAssociationsPerSecondPerClient := 200;
     MaxNewAssociationsPerSecondPerProxy := 100;
     MaxQueuedDatagramsPerAssociation := 32;
     MaxQueuedBytesPerAssociation := 256 * 1024;
     MaxQueuedBytes := 64 * 1024 * 1024 |}.

Definition udpMinAssociationIdleTimeout : Duration := 5 * Second.
Definition udpMaxAssociationIdleTimeout : Duration := 10 * Minute.
Definition udpMinLinkWriteTimeout : Duration := 100 * Millisecond.
Definition udpMaxLinkWriteTimeout : Duration := 30 * Second.
Definition udpHardMaxDatagramSize : Z := 65507.
Definition udpHardMaxAssociations : Z := 4096.
Definition udpHardMaxAssociationsPerClient : Z := 512.
Definition udpHardMaxAssociationsPerProxy : Z := 256.
Definition udpHardMaxAssociationsPerSourceIP : Z := 1024.
Definition udpHardMaxPendingAssociations : Z := 1024.
Definition udpHardMaxPendingAssociationsPerClient : Z := 128.
Definition udpHardMaxPendingAssociationsPerProxy : Z := 64.
Definition udpHardMaxNewAssociationsPerSecond : Z := 10000.
Definition udpHardMaxNewAssociationsPerSecondPerClient : Z := 2000.
Definition udpHardMaxNewAssociationsPerSecondPerProxy : Z := 1000.
Definition udpHardMaxQueuedDatagramsPerAssociation : Z := 256.
Definition udpHardMaxQueuedBytesPerAssociation : Z := 4 * 1024 * 1024.
Definition udpHardMaxQueuedBytes : Z := 512 * 1024 * 1024.

Inductive UDPError :=
| BadIdleTimeout
| BadWriteTimeout
| BadLimit (name : string)
| NoPlatformLimit
| OverPlatformLimit
| BadAssociationSubLimits
| BadPendingSubLimits
| BadRateSubLimits
| BadQueueSubLimits.

(** The table of limits: name, value, minimum, maximum. *)
Definition udp_limits (c : UDPConfig) : list (string * Z * Z * Z) :=
  [("max_datagram_size", MaxDatagramSize c, 1, udpHardMaxDatagramSize);
   ("max_associations", MaxAssociations c, 1, udpHardMaxAssociations);
   ("max_associations_per_client", MaxAssociationsPerClient c, 1, udpHardMaxAssociationsPerClient);
   ("max_associations_per_proxy", MaxAssociationsPerProxy c, 1, udpHardMaxAssociationsPerProxy);
   ("max_associations_per_source_ip", MaxAssociationsPerSourceIP c, 1, udpHardMaxAssociationsPerSourceIP);
   ("max_pending_associations", MaxPendingAssociations c, 1, udpHardMaxPendingAssociations);
   ("max_pending_associations_per_client", MaxPendingAssociationsPerClient c, 1,
      udpHardMaxPendingAssociationsPerClient);
   ("max_pending_associations_per_proxy", MaxPendingAssociationsPerProxy c, 1,
      udpHardMaxPendingAssociationsPerProxy);
   ("max_new_associations_per_second", MaxNewAssociationsPerSecond c, 1,
      udpHardMaxNewAssociationsPerSecond);
   ("max_new_associations_per_second_per_client", MaxNewAssociationsPerSecondPerClient c, 1,
      udpHardMaxNewAssociationsPerSecondPerClient);
   ("max_new_associations_per_second_per_proxy", MaxNewAssociationsPerSecondPerProxy c, 1,
      udpHardMaxNewAssociationsPerSecondPerProxy);
   ("max_queued_datagrams_per_association", MaxQueuedDatagramsPerAssociation c, 1,
      udpHardMaxQueuedDatagramsPerAssociation);
   ("max_queued_bytes_per_association", MaxQueuedBytesPerAssociation c, udpHardMaxDatagramSize,
      udpHardMaxQueuedBytesPerAssociation);
   ("max_queued_bytes", MaxQueuedBytes c, udpHardMaxDatagramSize, udpHardMaxQueuedBytes)].

Fixpoint first_bad_limit (limits : list (string * Z * Z * Z)) : option string :=
  match limits with
  | [] => None
  | (name, value, min, max) :: limits =>
    if (value <? min) || (max <? value) then Some name else first_bad_limit limits
  end.

Section udp.
(** [platformUDPMaxDatagramSize]: asks the operating system; [None] is an
    error. *)
Context (platformUDPMaxDatagramSize : option Z).

Definition validateUDPConfig (c : UDPConfig) : option UDPError :=
  if (AssociationIdleTimeout c <? udpMinAssociationIdleTimeout) ||
     (udpMaxAssociationIdleTimeout <? AssociationIdleTimeout c) then Some BadIdleTimeout
  else if (LinkWriteTimeout c <? udpMinLinkWriteTimeout) ||
          (udpMaxLinkWriteTimeout <? LinkWriteTimeout c) then Some BadWriteTimeout
  else match first_bad_limit (udp_limits c) with
  | Some name => Some (BadLimit name)
  | None =>
    match platformUDPMaxDatagramSize with
    | None => Some NoPlatformLimit
    | Some platformMaximum =>
      if platformMaximum <? MaxDatagramSize c then Some OverPlatformLimit
      else if (MaxAssociations c <? MaxAssociationsPerClient c) ||
              (MaxAssociations c <? MaxAssociationsPerProxy c) ||
              (MaxAssociations c <? MaxAssociationsPerSourceIP c) then Some BadAssociationSubLimits
      else if (MaxPendingAssociations c <? MaxPendingAssociationsPerClient c) ||
              (MaxPendingAssociations c <? MaxPendingAssociationsPerProxy c)
      then Some BadPendingSubLimits
      else if (MaxNewAssociationsPerSecond c <? MaxNewAssociationsPerSecondPerClient c) ||
              (MaxNewAssociationsPerSecond c <? MaxNewAssociationsPerSecondPerProxy c)
      then Some BadRateSubLimits
      else if MaxQueuedBytes c <? MaxQueuedBytesPerAssociation c then Some BadQueueSubLimits
      else None
    end
  end.

Definition ValidateUDPConfig (c : UDPConfig) : option UDPError := validateUDPConfig c.
End udp.

(** ** Wire names of the Forward protocol ([protocol.ForwardUDPConfig]) *)

Record ForwardUDPConfig := {
  WireAssociationIdleTimeout : Duration;
  WireLinkWriteTimeout : Duration;
  WireMaxDatagramSize : Z;
  WireMaxAssociations : Z;
  WireMaxAssociationsPerClient : Z;
  MaxAssociationsPerForward : Z;
  WireMaxAssociationsPerSourceIP : Z;
  WireMaxPendingAssociations : Z;
  WireMaxPendingAssociationsPerClient : Z;
  MaxPendingAssociationsPerForward : Z;
  WireMaxNewAssociationsPerSecond : Z;
  WireMaxNewAssociationsPerSecondPerClient : Z;
  MaxNewAssociationsPerSecondPerForward : Z;
  WireMaxQueuedDatagramsPerAssociation : Z;
  WireMaxQueuedBytesPerAssociation : Z;
  WireMaxQueuedBytes : Z
}.

Definition ForwardUDPProtocolConfig (c : UDPConfig) : ForwardUDPConfig :=
  {| WireAssociationIdleTimeout := AssociationIdleTimeout c;
     WireLinkWriteTimeout := LinkWriteTimeout c;
     WireMaxDatagramSize := MaxDatagramSize c;
     WireMaxAssociations := MaxAssociations c;
     WireMaxAssociationsPerClient := MaxAssociationsPerClient c;
     MaxAssociationsPerForward := MaxAssociationsPerProxy c;
     WireMaxAssociationsPerSourceIP := MaxAssociationsPerSourceIP c;
     WireMaxPendingAssociations := MaxPendingAssociations c;
     WireMaxPendingAssociationsPerClient := MaxPendingAssociationsPerClient c;
     MaxPendingAssociationsPerForward := MaxPendingAssociationsPerProxy c;
     WireMaxNewAssociationsPerSecond := MaxNewAssociationsPerSecond c;
     WireMaxNewAssociationsPerSecondPerClient := MaxNewAssociationsPerSecondPerClient c;
     MaxNewAssociationsPerSecondPerForward := MaxNewAssociationsPerSecondPerProxy c;
     WireMaxQueuedDatagramsPerAssociation := MaxQueuedDatagramsPerAssociation c;
     WireMaxQueuedBytesPerAssociation := MaxQueuedBytesPerAssociation c;
     WireMaxQueuedBytes := MaxQueuedBytes c |}.

Definition ForwardUDPConfigFromProtocol (c : ForwardUDPConfig) : UDPConfig :=
  {| AssociationIdleTimeout := WireAssociationIdleTimeout c;
     LinkWriteTimeout := WireLinkWriteTimeout c;
     MaxDatagramSize := WireMaxDatagramSize c;
     MaxAssociations := WireMaxAssociations c;
     MaxAssociationsPerClient := WireMaxAssociationsPerClient c;
     MaxAssociationsPerProxy := MaxAssociationsPerForward c;
     MaxAssociationsPerSourceIP := WireMaxAssociationsPerSourceIP c;
     MaxPendingAssociations := WireMaxPendingAssociations c;
     MaxPendingAssociationsPerClient := WireMaxPendingAssociationsPerClient c;
     MaxPendingAssociationsPerProxy := MaxPendingAssociationsPerForward c;
     MaxNewAssociationsPerSecond := WireMaxNewAssociationsPerSecond c;
     MaxNewAssociationsPerSecondPerClient := WireMaxNewAssociationsPerSecondPerClient c;
     MaxNewAssociationsPerSecondPerProxy := MaxNewAssociationsPerSecondPerForward c;
     MaxQueuedDatagramsPerAssociation := WireMaxQueuedDatagramsPerAssociation c;
     MaxQueuedBytesPerAssociation := WireMaxQueuedBytesPerAssociation c;
     MaxQueuedBytes := WireMaxQueuedBytes c |}.

(** ** Lemmas *)

(** No limit is lost or exchanged on the wire. *)
Lemma forward_udp_roundtrip c : ForwardUDPConfigFromProtocol (ForwardUDPProtocolConfig c) = c.
Proof. by destruct c. Qed.

Lemma first_bad_limit_none limits :
  first_bad_limit limits = None ↔
  Forall (λ '(_, value, min, max), min <= value <= max) limits.
Proof.
  induction limits as [|[[[name value] min] max] limits IH]; simpl; [by split; constructor|].
  rewrite Forall_cons, <- IH. destruct (_ || _) eqn:E; bool_to_prop.
  - split; [done|]. intros [? _]. destruct E; bool_to_prop; lia.
  - split; [|by intros [_ ?]]. split; [lia|done].
Qed.

(** What the runtimes rely on. *)
Record udp_config_ok (c : UDPConfig) : Prop := {
  uo_datagram : 1 <= MaxDatagramSize c <= udpHardMaxDatagramSize;
  uo_associations : 1 <= MaxAssociations c <= udpHardMaxAssociations;
  uo_client : 1 <= MaxAssociationsPerClient c <= MaxAssociations c;
  uo_proxy : 1 <= MaxAssociationsPerProxy c <= MaxAssociations c;
  uo_source : 1 <= MaxAssociationsPerSourceIP c <= MaxAssociations c;
  uo_pending : 1 <= MaxPendingAssociations c <= udpHardMaxPendingAssociations;
  uo_pending_client : 1 <= MaxPendingAssociationsPerClient c <= MaxPendingAssociations c;
  uo_pending_proxy : 1 <= MaxPendingAssociationsPerProxy c <= MaxPendingAssociations c;
  uo_rate : 1 <= MaxNewAssociationsPerSecond c <= udpHardMaxNewAssociationsPerSecond;
  uo_rate_client : 1 <= MaxNewAssociationsPerSecondPerClient c <= MaxNewAssociationsPerSecond c;
  uo_rate_proxy : 1 <= MaxNewAssociationsPerSecondPerProxy c <= MaxNewAssociationsPerSecond c;
  uo_datagrams : 1 <= MaxQueuedDatagramsPerAssociation c <= udpHardMaxQueuedDatagramsPerAssociation;
  uo_bytes : MaxDatagramSize c <= MaxQueuedBytesPerAssociation c <= MaxQueuedBytes c;
  uo_total_bytes : MaxQueuedBytes c <= udpHardMaxQueuedBytes
}.

Lemma validateUDPConfig_ok platform c : validateUDPConfig platform c = None → udp_config_ok c.
Proof.
  unfold validateUDPConfig. destruct (_ || _); [done|]. destruct (_ || _); [done|].
  destruct (first_bad_limit _) eqn:Hl; [done|]. apply first_bad_limit_none in Hl.
  unfold udp_limits in Hl. rewrite !Forall_cons in Hl. destruct_and! Hl. cbv beta iota in *.
  destruct platform as [m|]; [|done]. case_match; [done|].
  case_match eqn:Hassoc; [done|]. case_match eqn:Hpend; [done|].
  case_match eqn:Hrate; [done|]. case_match eqn:Hqueue; [done|]. intros _.
  bool_to_prop. constructor; lia.
Qed.
