(* ===== verification/ConfigForward.v ===== *)
(** * Forward rules ([internal/config/forward.go])

    The server-wide allowlist of Forward targets, the narrower rules of
    governed and managed clients, and the checks that relate them. *)

From S2P Require Import Prelude GoTime NetAddr PortPolicy ConfigVNet ConfigUDP.

Local Open Scope Z_scope.

Inductive ForwardType := ForwardTypeTCP | ForwardTypeUDP | ForwardTypeOther (name : string).
#[export] Instance forward_type_eq_dec : EqDecision ForwardType.
Proof. solve_decision. Defined.

Record ForwardIPRule := {
  IPRange : string;
  RuleTCP : list PortRange;
  RuleUDP : list PortRange
}.
#[export] Instance forward_rule_eq_dec : EqDecision ForwardIPRule.
Proof. solve_decision. Defined.

Record EndpointConfig := { EndpointIP : string; EndpointPort : Z }.

Record ForwardConfig := {
  ForwardName : string;
  Type_ : ForwardType;
  Listen : EndpointConfig;
  Target : EndpointConfig
}.

Record ForwardServerConfig := {
  ForwardEnabled : bool;
  Rules : list ForwardIPRule;
  ForwardUDP : UDPConfig;
  Configured : bool
}.

(** The parts of the client records and of the server configuration that the
    Forward checks read. *)
Record ManagedClientConfig := {
  ManagedRules : list ForwardIPRule;
  ManagedForwards : list ForwardConfig
}.

Record ServerConfig := {
  Forwards : ForwardServerConfig;
  GovernedClients : gmap string (list ForwardIPRule);
  ManagedClients : gmap string ManagedClientConfig
}.

Definition hardMaxBindingsPerClient : Z := 128.

Inductive ForwardError :=
| TooManyForwards
| BadForwardName (index : nat)
| DuplicateForwardName (index : nat)
| BadForwardType (index : nat)
| BadListenIP (index : nat)
| BadListenPort (index : nat)
| BadTargetIP (index : nat)
| BadTargetPort (index : nat)
| DuplicateListener (index : nat)
| ProxyNameClash (index : nat)
| EmptyRules
| BadIPRange (index : nat)
| NoPortRanges (index : nat)
| BadPortRanges (index : nat) (e : RangeError)
| OverlappingRules (index previousIndex : nat)
| BadUDP (e : UDPError)
| NotSubset (client : string) (index : nat)
| TargetNotAllowed (client : string) (index : nat).

Definition EffectiveForwardUDPConfig (configuration : ForwardServerConfig) : UDPConfig :=
  if bool_decide (ForwardUDP configuration = zero_UDPConfig) then DefaultUDPConfig
  else ForwardUDP configuration.

(** The position of the first earlier prefix that overlaps. *)
Fixpoint overlapping (prefix : Prefix) (previousIndex : nat) (prefixes : list Prefix) : option nat :=
  match prefixes with
  | [] => None
  | previous :: prefixes =>
    if Contains previous (PrefixAddr prefix) || Contains prefix (PrefixAddr previous)
    then Some previousIndex else overlapping prefix (S previousIndex) prefixes
  end.

Definition rule_ranges (forwardType : ForwardType) (rule : ForwardIPRule) : option (list PortRange) :=
  match forwardType with
  | ForwardTypeTCP => Some (RuleTCP rule)
  | ForwardTypeUDP => Some (RuleUDP rule)
  | ForwardTypeOther _ => None
  end.

(** [netip.Prefix{}], which a failed parse returns *)
Definition zero_prefix : Prefix := {| PrefixAddr := AddrZero; PrefixBits := -1 |}.

Section forward.
Context `{NetipText}.

(** A listener is identified by type, address and port. *)
Abbreviation listener_key := (ForwardType * string * Z)%type.

Fixpoint validate_forwards_from (index : nat) (names : list string) (listeners : list listener_key)
    (forwards : list ForwardConfig) : option ForwardError :=
  match forwards with
  | [] => None
  | forward :: forwards =>
    if negb (ValidateResourceName (ForwardName forward)) then Some (BadForwardName index)
    else if bool_decide (ForwardName forward ∈ names) then Some (DuplicateForwardName index)
    else match Type_ forward with
    | ForwardTypeOther _ => Some (BadForwardType index)
    | _ =>
      match ParseAddr (EndpointIP (Listen forward)) with
      | None => Some (BadListenIP index)
      | Some listenAddress =>
        if negb (bool_decide (AddrString listenAddress = EndpointIP (Listen forward)))
        then Some (BadListenIP index)
        else if EndpointPort (Listen forward) =? 0 then Some (BadListenPort index)
        else match ParseAddr (EndpointIP (Target forward)) with
        | None => Some (BadTargetIP index)
        | Some targetAddress =>
          if negb (bool_decide (AddrString targetAddress = EndpointIP (Target forward)))
          then Some (BadTargetIP index)
          else if EndpointPort (Target forward) =? 0 then Some (BadTargetPort index)
          else
            let listener := (Type_ forward, AddrString listenAddress, EndpointPort (Listen forward)) in
            if bool_decide (listener ∈ listeners) then Some (DuplicateListener index)
            else validate_forwards_from (S index) (ForwardName forward :: names)
                   (listener :: listeners) forwards
        end
      end
    end
  end.

Definition validateForwards (forwards : list ForwardConfig) : option ForwardError :=
  if hardMaxBindingsPerClient <? Z.of_nat (length forwards) then Some TooManyForwards
  else validate_forwards_from 0 [] [] forwards.

Fixpoint name_clash (index : nat) (names : list string) (forwards : list ForwardConfig) :
    option ForwardError :=
  match forwards with
  | [] => None
  | forward :: forwards =>
    if bool_decide (ForwardName forward ∈ names) then Some (ProxyNameClash index)
    else name_clash (S index) names forwards
  end.

(** Of the proxies only their names are read. *)
Definition validateProxyForwardNames (proxyNames : list string) (forwards : list ForwardConfig) :
    option ForwardError := name_clash 0 proxyNames forwards.

Fixpoint validate_rules_from (index : nat) (prefixes : list Prefix) (rules : list ForwardIPRule) :
    option ForwardError :=
  match rules with
  | [] => None
  | rule :: rules =>
    match ParsePrefix (IPRange rule) with
    | None => Some (BadIPRange index)
    | Some prefix =>
      if negb (bool_decide (PrefixString prefix = IPRange rule)) ||
         negb (bool_decide (prefix = Masked prefix)) then Some (BadIPRange index)
      else if bool_decide (RuleTCP rule = []) && bool_decide (RuleUDP rule = [])
      then Some (NoPortRanges index)
      else match validateSortedPortRanges (RuleTCP rule) with
      | Some e => Some (BadPortRanges index e)
      | None =>
        match validateSortedPortRanges (RuleUDP rule) with
        | Some e => Some (BadPortRanges index e)
        | None =>
          match overlapping prefix 0 prefixes with
          | Some previousIndex => Some (OverlappingRules index previousIndex)
          | None => validate_rules_from (S index) (prefixes ++ [prefix]) rules
          end
        end
      end
    end
  end.

Definition validateForwardRules (rules : list ForwardIPRule) : option ForwardError :=
  validate_rules_from 0 [] rules.

Definition validateForwardServerConfig (platform : option Z) (configuration : ForwardServerConfig) :
    option ForwardError :=
  if Configured configuration && bool_decide (Rules configuration = []) then Some EmptyRules
  else if ForwardEnabled configuration && bool_decide (Rules configuration = []) then Some EmptyRules
  else match validateForwardRules (Rules configuration) with
  | Some e => Some e
  | None => BadUDP <$> validateUDPConfig platform (EffectiveForwardUDPConfig configuration)
  end.

(** The loop of [MatchingForwardRule]: the first rule whose prefix contains
    the address decides. *)
Fixpoint first_match (address : Addr) (forwardType : ForwardType) (targetPort : Z)
    (rules : list ForwardIPRule) : option ForwardIPRule :=
  match rules with
  | [] => None
  | rule :: rules =>
    match ParsePrefix (IPRange rule) with
    | Some prefix =>
      if Contains prefix address then
        match rule_ranges forwardType rule with
        | Some ranges => if port_in_ranges targetPort ranges then Some rule else None
        | None => None
        end
      else first_match address forwardType targetPort rules
    | None => first_match address forwardType targetPort rules
    end
  end.

Definition MatchingForwardRule (rules : list ForwardIPRule) (forwardType : ForwardType)
    (targetIP : string) (targetPort : Z) : option ForwardIPRule :=
  match ParseAddr targetIP with
  | None => None
  | Some address =>
    if targetPort =? 0 then None else first_match address forwardType targetPort rules
  end.

Definition ForwardTargetAllowed (rules : list ForwardIPRule) (forwardType : ForwardType)
    (targetIP : string) (targetPort : Z) : bool :=
  is_some (MatchingForwardRule rules forwardType targetIP targetPort).

Definition parse_or_zero (s : string) : Prefix := default zero_prefix (ParsePrefix s).

(** Whether one global rule covers the child rule. *)
Definition covers (childRule globalRule : ForwardIPRule) : bool :=
  let childPrefix := parse_or_zero (IPRange childRule) in
  let globalPrefix := parse_or_zero (IPRange globalRule) in
  negb (negb (Contains globalPrefix (PrefixAddr childPrefix)) ||
        (PrefixBits childPrefix <? PrefixBits globalPrefix)) &&
  negb (negb (portRangesAreSubset (RuleTCP childRule) (RuleTCP globalRule)) ||
        negb (portRangesAreSubset (RuleUDP childRule) (RuleUDP globalRule))).

Fixpoint uncovered (global : list ForwardIPRule) (childIndex : nat) (child : list ForwardIPRule) :
    option nat :=
  match child with
  | [] => None
  | childRule :: child =>
    if existsb (covers childRule) global then uncovered global (S childIndex) child
    else Some childIndex
  end.

Definition validateForwardRuleSubset (global child : list ForwardIPRule) : option nat :=
  uncovered global 0 child.

Definition effective_rules (configuration : ServerConfig) (client : ManagedClientConfig) :
    list ForwardIPRule :=
  if bool_decide (ManagedRules client = []) then Rules (Forwards configuration)
  else ManagedRules client.

Fixpoint first_denied (rules : list ForwardIPRule) (index : nat) (forwards : list ForwardConfig) :
    option nat :=
  match forwards with
  | [] => None
  | forward :: forwards =>
    if ForwardTargetAllowed rules (Type_ forward) (EndpointIP (Target forward))
         (EndpointPort (Target forward))
    then first_denied rules (S index) forwards else Some index
  end.

Definition check_governed (configuration : ServerConfig) (entry : string * list ForwardIPRule) :
    option ForwardError :=
  NotSubset entry.1 <$> validateForwardRuleSubset (Rules (Forwards configuration)) entry.2.

Definition check_managed (configuration : ServerConfig) (entry : string * ManagedClientConfig) :
    option ForwardError :=
  match validateForwardRuleSubset (Rules (Forwards configuration)) (ManagedRules entry.2) with
  | Some index => Some (NotSubset entry.1 index)
  | None => TargetNotAllowed entry.1 <$>
              first_denied (effective_rules configuration entry.2) 0 (ManagedForwards entry.2)
  end.

(** The first error of a loop. *)
Fixpoint first_error {A} (f : A → option ForwardError) (l : list A) : option ForwardError :=
  match l with
  | [] => None
  | a :: l => match f a with Some e => Some e | None => first_error f l end
  end.

Definition validateForwardConfiguration (ρg : go_range string (list ForwardIPRule))
    (ρm : go_range string ManagedClientConfig) (configuration : ServerConfig) : option ForwardError :=
  match first_error (check_governed configuration) (ρg (GovernedClients configuration)) with
  | Some e => Some e
  | None => first_error (check_managed configuration) (ρm (ManagedClients configuration))
  end.

Definition ValidateForwardConfiguration (platform : option Z)
    (ρg : go_range string (list ForwardIPRule)) (ρm : go_range string ManagedClientConfig)
    (configuration : ServerConfig) : option ForwardError :=
  match validateForwardServerConfig platform (Forwards configuration) with
  | Some e => Some e
  | None => validateForwardConfiguration ρg ρm configuration
  end.
End forward.

(** ** Lemmas *)

Section forward_lemmas.
Context `{NetipText}.

(** Prefixes neither of which contains the base of the other. *)
Definition apart (p q : Prefix) : Prop :=
  Contains p (PrefixAddr q) = false ∧ Contains q (PrefixAddr p) = false.

Lemma overlapping_none prefix i prefixes :
  overlapping prefix i prefixes = None → Forall (λ previous, apart previous prefix) prefixes.
Proof.
  revert i. induction prefixes as [|q prefixes IH]; intros i; simpl; [constructor|].
  destruct (_ || _) eqn:E; [done|]. apply orb_false_iff in E. intros ?%IH. by constructor.
Qed.

(** Prefixes that are apart share no address. *)
Lemma apart_disjoint p q a :
  prefix_ok p → prefix_ok q → apart p q → Contains p a = true → Contains q a = true → False.
Proof.
  intros Hp Hq [H1 H2] Ha Hb. destruct (Contains_overlap p q a Hp Hq Ha Hb); congruence.
Qed.

(** What validation guarantees of one rule. *)
Definition rule_ok (rule : ForwardIPRule) (prefix : Prefix) : Prop :=
  ParsePrefix (IPRange rule) = Some prefix ∧ PrefixString prefix = IPRange rule ∧
  prefix = Masked prefix ∧ validateSortedPortRanges (RuleTCP rule) = None ∧
  validateSortedPortRanges (RuleUDP rule) = None.

Lemma validate_rules_spec rules : ∀ index prefixes,
  validate_rules_from index prefixes rules = None →
  ∃ ps, Forall2 rule_ok rules ps ∧ ForallOrdPairs apart ps ∧
    Forall (λ p, Forall (λ q, apart q p) prefixes) ps.
Proof.
  induction rules as [|rule rules IH]; intros index prefixes E; simpl in E.
  { exists []. split_and!; constructor. }
  destruct (ParsePrefix (IPRange rule)) as [p|] eqn:Hp; [|done].
  destruct (negb _ || _) eqn:Hcanon; [done|]. destruct (bool_decide _ && _); [done|].
  destruct (validateSortedPortRanges (RuleTCP rule)) eqn:Ht; [done|].
  destruct (validateSortedPortRanges (RuleUDP rule)) eqn:Hu; [done|].
  destruct (overlapping p 0 prefixes) eqn:Ho; [done|].
  apply overlapping_none in Ho. apply IH in E as (ps & Hps & Hpairs & Hprev).
  bool_to_prop. exists (p :: ps). split_and!.
  - by constructor.
  - constructor; [|done]. eapply Forall_impl; [exact Hprev|]. intros q Hq.
    apply Forall_app in Hq as [_ Hq]. by inversion Hq.
  - constructor; [done|]. eapply Forall_impl; [exact Hprev|]. by intros q [? _]%Forall_app.
Qed.

(** A rule that authorises a concrete target. *)
Definition authorises (rule : ForwardIPRule) (address : Addr) (forwardType : ForwardType)
    (port : Z) : Prop :=
  ∃ prefix ranges, ParsePrefix (IPRange rule) = Some prefix ∧ Contains prefix address = true ∧
    rule_ranges forwardType rule = Some ranges ∧ port_in_ranges port ranges = true.

Lemma first_match_sound address t port rules rule :
  first_match address t port rules = Some rule → rule ∈ rules ∧ authorises rule address t port.
Proof.
  induction rules as [|r rules IH]; simpl; [done|].
  destruct (ParsePrefix (IPRange r)) as [p|] eqn:Hp; [destruct (Contains p address) eqn:Hc|].
  - destruct (rule_ranges t r) as [ranges|] eqn:Hr; [|done].
    destruct (port_in_ranges port ranges) eqn:Hin; [|done]. intros [= <-].
    split; [left|]. by exists p, ranges.
  - intros [? ?]%IH. split; [by right|done].
  - intros [? ?]%IH. split; [by right|done].
Qed.

Lemma rule_ok_prefix rule p : rule_ok rule p → prefix_ok p.
Proof. intros (Hp & _). by eapply ParsePrefix_ok. Qed.

Lemma first_match_complete address t port rules ps rule :
  Forall2 rule_ok rules ps → ForallOrdPairs apart ps →
  rule ∈ rules → authorises rule address t port → first_match address t port rules = Some rule.
Proof.
  intros Hall. induction Hall as [|r p rules ps Hr Hall IH]; intros Hap Hin Hauth; simpl;
    [by apply elem_of_nil in Hin|].
  inversion Hap as [|? ? Hfst Hrest]; subst. destruct Hauth as (q & ranges & Hq & Hc & Hrr & Hport).
  pose proof Hr as (Hp & _). rewrite Hp.
  apply elem_of_cons in Hin as [->|Hin].
  - rewrite Hp in Hq. injection Hq as <-. by rewrite Hc, Hrr, Hport.
  - destruct (Contains p address) eqn:Hpc; cycle 1.
    { apply IH; [done|done|]. by exists q, ranges. }
    exfalso. apply list_elem_of_lookup in Hin as [i Hi].
    destruct (Forall2_lookup_l _ _ _ _ _ Hall Hi) as (q' & Hq' & Hok).
    pose proof Hok as (Hp' & _). rewrite Hp' in Hq. injection Hq as ->.
    rewrite Forall_forall in Hfst.
    eapply (apart_disjoint p q address); [by eapply rule_ok_prefix..| |done|done].
    apply Hfst. by apply list_elem_of_lookup_2 in Hq'.
Qed.

Lemma covers_authorises child global address t port :
  covers child global = true → authorises child address t port → authorises global address t port.
Proof.
  unfold covers. cbv zeta. intros Hcov (p & ranges & Hp & Hc & Hr & Hport). bool_to_prop.
  unfold parse_or_zero in *. rewrite Hp in *. cbn [default] in *.
  destruct (ParsePrefix (IPRange global)) as [q|] eqn:Hq; cbn [default] in *; [|done].
  assert (Contains q address = true).
  { eapply (Contains_trans q p); try done; by eapply ParsePrefix_ok. }
  assert (∃ ranges', rule_ranges t global = Some ranges' ∧ port_in_ranges port ranges' = true)
    as (ranges' & ? & ?).
  { destruct t; simpl in *; simplify_eq; eexists; (split; [done|]); by eapply portRangesAreSubset_spec. }
  by exists q, ranges'.
Qed.

Lemma uncovered_none global child : ∀ index,
  uncovered global index child = None → Forall (λ rule, existsb (covers rule) global = true) child.
Proof.
  induction child as [|rule child IH]; intros index E; simpl in E; [constructor|].
  destruct (existsb _ _) eqn:Hc; [|done]. constructor; [done|by eapply IH].
Qed.

Lemma matching_spec rules t ip port :
  validateForwardRules rules = None →
  ∀ rule, MatchingForwardRule rules t ip port = Some rule ↔
    ∃ address, ParseAddr ip = Some address ∧ port ≠ 0 ∧ rule ∈ rules ∧ authorises rule address t port.
Proof.
  intros (ps & Hps & Hap & _)%validate_rules_spec rule. unfold MatchingForwardRule.
  destruct (ParseAddr ip) as [a|]; [|naive_solver].
  destruct (Z.eqb_spec port 0); [naive_solver|]. split.
  - intros [? ?]%first_match_sound. by exists a.
  - intros (? & [= <-] & _ & ? & ?). by eapply first_match_complete.
Qed.

Lemma subset_allows global child t ip port :
  validateForwardRules global = None → validateForwardRuleSubset global child = None →
  ForwardTargetAllowed child t ip port = true → ForwardTargetAllowed global t ip port = true.
Proof.
  intros Hg Hsub%uncovered_none. unfold ForwardTargetAllowed.
  destruct (MatchingForwardRule child t ip port) as [rule|] eqn:Hm; [|done]. intros _.
  unfold MatchingForwardRule in Hm. destruct (ParseAddr ip) as [a|] eqn:Ha; [|done].
  destruct (Z.eqb_spec port 0); [done|]. apply first_match_sound in Hm as [Hin Hauth].
  rewrite Forall_forall in Hsub. specialize (Hsub _ Hin).
  apply existsb_exists in Hsub as (g & Hgin%list_elem_of_In & Hcov).
  rewrite (proj2 (matching_spec global t ip port Hg g)); [done|].
  exists a. split_and!; try done. by eapply covers_authorises.
Qed.

Lemma first_error_none {A} (f : A → option ForwardError) l a :
  first_error f l = None → a ∈ l → f a = None.
Proof.
  induction l as [|b l IH]; simpl; [by intros _ ?%elem_of_nil|].
  destruct (f b) eqn:Hb; [done|]. intros ? [->|?]%elem_of_cons; auto.
Qed.

Lemma first_denied_none rules forwards forward : ∀ index,
  first_denied rules index forwards = None → forward ∈ forwards →
  ForwardTargetAllowed rules (Type_ forward) (EndpointIP (Target forward))
    (EndpointPort (Target forward)) = true.
Proof.
  induction forwards as [|f forwards IH]; intros index E Hin; [by apply elem_of_nil in Hin|].
  simpl in E. destruct (ForwardTargetAllowed rules (Type_ f) _ _) eqn:Ha; [|done].
  apply elem_of_cons in Hin as [->|Hin]; [done|by eapply IH].
Qed.
End forward_lemmas.

(** ** Theorems *)

(** On validated rules the first match is the only match: a rule is
    returned exactly when it is one of the rules and authorises the target, so
    the outcome does not depend on the order of the rules. *)
Theorem matching_rule_unique `{NetipText} rules forwardType targetIP targetPort :
  validateForwardRules rules = None →
  (∀ rule, MatchingForwardRule rules forwardType targetIP targetPort = Some rule ↔
     ∃ address, ParseAddr targetIP = Some address ∧ targetPort ≠ 0 ∧ rule ∈ rules ∧
       authorises rule address forwardType targetPort) ∧
  (∀ rules', rules' ≡ₚ rules → validateForwardRules rules' = None →
     MatchingForwardRule rules' forwardType targetIP targetPort =
     MatchingForwardRule rules forwardType targetIP targetPort).
Proof.
  intros Hv. split; [by apply matching_spec|]. intros rules' Hperm Hv'.
  apply option_eq. intros rule. rewrite !matching_spec by done. by setoid_rewrite Hperm.
Qed.

(** C10: the rules of a client can only narrow the server's: whatever target
    the client's rules allow, the server-wide rules allow as well. *)
Theorem client_rules_narrow `{NetipText} global child forwardType targetIP targetPort :
  validateForwardRules global = None → validateForwardRuleSubset global child = None →
  ForwardTargetAllowed child forwardType targetIP targetPort = true →
  ForwardTargetAllowed global forwardType targetIP targetPort = true.
Proof. apply subset_allows. Qed.

(** In a validated configuration every Forward that the server pushes to
    a managed client targets something the server-wide rules allow, whichever
    order the client tables were checked in. *)
Theorem managed_forwards_allowed `{NetipText} platform ρg ρm configuration clientID client forward :
  ValidateForwardConfiguration platform ρg ρm configuration = None →
  ManagedClients configuration !! clientID = Some client → forward ∈ ManagedForwards client →
  ForwardTargetAllowed (Rules (Forwards configuration)) (Type_ forward)
    (EndpointIP (Target forward)) (EndpointPort (Target forward)) = true.
Proof.
  unfold ValidateForwardConfiguration, validateForwardServerConfig, validateForwardConfiguration.
  intros E Hclient Hforward. destruct (Configured _ && _) in E; [done|].
  destruct (ForwardEnabled _ && _) in E; [done|].
  destruct (validateForwardRules _) eqn:Hrules; [done|].
  destruct (BadUDP <$> _); [done|]. destruct (first_error _ (ρg _)); [done|].
  apply (first_error_none _ _ (clientID, client)) in E; [|by apply range_elem].
  unfold check_managed in E. cbn [fst snd] in E.
  destruct (validateForwardRuleSubset _ _) eqn:Hsub; [done|].
  destruct (first_denied _ _ _) eqn:Hden; [done|].
  pose proof (first_denied_none _ _ _ _ Hden Hforward) as Hallow. unfold effective_rules in Hallow.
  destruct (bool_decide (ManagedRules client = [])); [done|]. by eapply subset_allows.
Qed.

(** ** Witnesses *)

Definition wide_rule : ForwardIPRule :=
  {| IPRange := "10.0.0.0/8"; RuleTCP := [{| Start := 1; End_ := 1024 |}]; RuleUDP := [] |}.
Definition other_rule : ForwardIPRule :=
  {| IPRange := "192.168.0.0/16"; RuleTCP := [{| Start := 443; End_ := 443 |}]; RuleUDP := [] |}.
Definition narrow_rule : ForwardIPRule :=
  {| IPRange := "10.1.0.0/16"; RuleTCP := [{| Start := 80; End_ := 80 |}]; RuleUDP := [] |}.

Lemma matching_rule_unique_witness :
  MatchingForwardRule (H := Dotted.text) [other_rule; wide_rule] ForwardTypeTCP "10.1.2.3" 80 =
  MatchingForwardRule (H := Dotted.text) [wide_rule; other_rule] ForwardTypeTCP "10.1.2.3" 80.
Proof.
  apply (matching_rule_unique (H := Dotted.text) [wide_rule; other_rule] ForwardTypeTCP "10.1.2.3" 80).
  - vm_compute. reflexivity.
  - apply Permutation_swap.
  - vm_compute. reflexivity.
Defined.

Lemma client_rules_narrow_witness :
  ForwardTargetAllowed (H := Dotted.text) [wide_rule; other_rule] ForwardTypeTCP "10.1.2.3" 80 = true.
Proof.
  apply (client_rules_narrow (H := Dotted.text) [wide_rule; other_rule] [narrow_rule]).
  - vm_compute. reflexivity.
  - vm_compute. reflexivity.
  - vm_compute. reflexivity.
Defined.

Definition demo_forward : ForwardConfig :=
  {| ForwardName := "web"; Type_ := ForwardTypeTCP;
     Listen := {| EndpointIP := "127.0.0.1"; EndpointPort := 8080 |};
     Target := {| EndpointIP := "10.1.2.3"; EndpointPort := 80 |} |}.

Definition demo_server : ServerConfig :=
  {| Forwards := {| ForwardEnabled := true; Rules := [wide_rule; other_rule];
                    ForwardUDP := zero_UDPConfig; Configured := true |};
     GovernedClients := ∅;
     ManagedClients := {[ "m" := {| ManagedRules := [narrow_rule]; ManagedForwards := [demo_forward] |} ]} |}.

Lemma managed_forwards_allowed_witness :
  ForwardTargetAllowed (H := Dotted.text) [wide_rule; other_rule] ForwardTypeTCP "10.1.2.3" 80 = true.
Proof.
  apply (managed_forwards_allowed (H := Dotted.text) (Some 65507) any_range any_range demo_server "m"
    {| ManagedRules := [narrow_rule]; ManagedForwards := [demo_forward] |} demo_forward).
  - vm_compute. reflexivity.
  - reflexivity.
  - left.
Defined.
