(* ===== verification/LinkBroker.v ===== *)
(** * Logical links ([internal/link/broker.go, limits.go])

    A link is offered (pending), bound by a data stream that presents its
    ticket (active) and finished.  The broker holds the two tables with six
    occupancy counters under one mutex; what happens outside the mutex (the
    reservation, the callbacks, the control messages, the connection) is
    emitted as events, in the order of the code.  A method with several
    critical sections is split at the points where it releases the mutex. *)

From S2P Require Import Prelude GoTime NetAddr Authentication.

Local Open Scope Z_scope.

Definition pendingTimeout : Duration := 10 * Second.
Definition maxPending : Z := 1024.
Definition maxPendingPerClient : Z := 128.
Definition maxPendingPerProxy : Z := 64.
Definition maxActive : Z := 4096.
Definition maxActivePerClient : Z := 512.
Definition maxActivePerProxy : Z := 256.

Definition LinkDirectionProxy : string := "proxy".
Definition LinkDirectionForward : string := "forward".

Inductive LinkErrorCode :=
| LinkErrorLocalDialFailed
| LinkErrorInvalidBinding
| LinkErrorTargetDialFailed
| LinkErrorOther (code : string).
#[export] Instance link_error_code_eq_dec : EqDecision LinkErrorCode.
Proof. solve_decision. Defined.

(** [Writer] and [Reservation] are nil or not; a reservation is identified
    with the link it was handed over for. *)
Record Target := {
  ClientID : string;
  SessionID : string;
  BindingName : string;
  TrafficType : string;
  BindingID : string;
  Writer : bool;
  MaxDatagramSize : Z;
  WriteTimeout : Duration;
  Authentication : Context;
  MaxActiveLinks : Z;
  Direction : string;
  Reservation : bool
}.

(** Which of the callbacks and channels of a pending link are not nil. *)
Record Callbacks := { onCancel : bool; ready : bool; handler : bool; handlerFactory : bool }.

Record brokerPendingLink := {
  target : Target;
  linkID : string;
  ticketDigest : digest;
  expiresAt : Time;
  callbacks : Callbacks
}.

(** [net.ErrClosed], [context.Canceled], [context.DeadlineExceeded], ... *)
Inductive Reason :=
| Canceled
| DeadlineExceeded
| ErrClosed
| WriteFailed
| ReportedFailure (code : LinkErrorCode)
| PrepareError
| ContextError.
#[export] Instance reason_eq_dec : EqDecision Reason.
Proof. solve_decision. Defined.

Inductive Event :=
| ReservationActivated (link : string)
| ReservationClosed (link : string)
| Cancelled (link : string)                      (* onCancel *)
| Ready (link : string) (err : option Reason)    (* the send on ready; [None] is a connection *)
| Notice (link : string) (forward : bool)        (* cancel_link or cancel_forward_link *)
| ConnectionClosed (link : string)
| BindResult (link : string) (err : option LinkErrorCode)
| ActivatedCallback (link : string)
| Cleanup (link : string)
| HandlerRun (link : string).
#[export] Instance event_eq_dec : EqDecision Event.
Proof. solve_decision. Defined.

(** The connection of an active link is identified with the link. *)
Record Broker := {
  pending : gmap string brokerPendingLink;
  active : gmap string Target;
  pendingClients : gmap string Z;
  pendingBindings : gmap string Z;
  activeClients : gmap string Z;
  activeBindings : gmap string Z;
  pendingDirections : gmap string Z;
  activeDirections : gmap string Z;
  closed : bool;
  sendSlots : Z
}.
#[export] Instance eta_Broker : Eta Broker := λ b,
  {| pending := pending b; active := active b; pendingClients := pendingClients b;
     pendingBindings := pendingBindings b; activeClients := activeClients b;
     activeBindings := activeBindings b; pendingDirections := pendingDirections b;
     activeDirections := activeDirections b; closed := closed b; sendSlots := sendSlots b |}.

Definition NewBroker : Broker :=
  {| pending := ∅; active := ∅; pendingClients := ∅; pendingBindings := ∅; activeClients := ∅;
     activeBindings := ∅; pendingDirections := ∅; activeDirections := ∅; closed := false;
     sendSlots := 0 |}.

(** ** Counters *)

Definition normalizeLinkDirection (direction : string) : string :=
  if bool_decide (direction = "") then LinkDirectionProxy else direction.

Definition nul : string := String Ascii.zero "".
Definition brokerBindingKey (t : Target) : string := (ClientID t +:+ nul +:+ BindingName t)%string.
Definition brokerDirectionKey (t : Target) : string :=
  (ClientID t +:+ nul +:+ normalizeLinkDirection (Direction t))%string.

Definition decrementBrokerCount (counts : gmap string Z) (key : string) : gmap string Z :=
  count_decr counts key.

Definition incrementPendingLocked (t : Target) (b : Broker) : Broker :=
  b <| pendingClients := count_incr (pendingClients b) (ClientID t) |>
    <| pendingBindings := count_incr (pendingBindings b) (brokerBindingKey t) |>
    <| pendingDirections := count_incr (pendingDirections b) (brokerDirectionKey t) |>.

Definition decrementPendingLocked (t : Target) (b : Broker) : Broker :=
  b <| pendingClients := decrementBrokerCount (pendingClients b) (ClientID t) |>
    <| pendingBindings := decrementBrokerCount (pendingBindings b) (brokerBindingKey t) |>
    <| pendingDirections := decrementBrokerCount (pendingDirections b) (brokerDirectionKey t) |>.

Definition incrementActiveLocked (t : Target) (b : Broker) : Broker :=
  b <| activeClients := count_incr (activeClients b) (ClientID t) |>
    <| activeBindings := count_incr (activeBindings b) (brokerBindingKey t) |>
    <| activeDirections := count_incr (activeDirections b) (brokerDirectionKey t) |>.

Definition decrementActiveLocked (t : Target) (b : Broker) : Broker :=
  b <| activeClients := decrementBrokerCount (activeClients b) (ClientID t) |>
    <| activeBindings := decrementBrokerCount (activeBindings b) (brokerBindingKey t) |>
    <| activeDirections := decrementBrokerCount (activeDirections b) (brokerDirectionKey t) |>.

Definition limitReachedLocked (t : Target) (b : Broker) : bool :=
  if (maxPending <=? Z.of_nat (size (pending b))) ||
     (maxActive <=? Z.of_nat (size (pending b)) + Z.of_nat (size (active b))) then true
  else
    let pendingClient := count_get (pendingClients b) (ClientID t) in
    let pendingBinding := count_get (pendingBindings b) (brokerBindingKey t) in
    let activeClient := count_get (activeClients b) (ClientID t) in
    let activeBinding := count_get (activeBindings b) (brokerBindingKey t) in
    let pendingDirection := count_get (pendingDirections b) (brokerDirectionKey t) in
    let activeDirection := count_get (activeDirections b) (brokerDirectionKey t) in
    (maxPendingPerClient <=? pendingClient) ||
    (maxPendingPerProxy <=? pendingBinding) ||
    ((0 <? MaxActiveLinks t) && (MaxActiveLinks t <=? pendingDirection + activeDirection)) ||
    (maxActivePerClient <=? pendingClient + activeClient) ||
    (maxActivePerProxy <=? pendingBinding + activeBinding).

(** ** Offering a link *)

Inductive BrokerError :=
| ErrCapacityReached
| ErrRandom
| ErrWrite
| ErrBind (code : LinkErrorCode)
| ErrDelivery (reason : Reason).

Record OpenLink := {
  OfferLinkID : string;
  ProxyName : string;
  ProxyType : string;
  OfferBindingID : string;
  Ticket : string;
  ExpiresAtUnixMS : Z;
  OfferMaxDatagramSize : Z;
  WriteTimeoutMS : Z
}.

(** [time.Time.UnixMilli] and [time.Duration.Milliseconds] *)
Definition unixEpoch : Time := 62135596800 * Second.
Definition UnixMilli (t : Time) : Z := (t - unixEpoch) / Millisecond.
Definition Milliseconds (d : Duration) : Z := Z.quot d Millisecond.

(** What [newBrokerLinkCredentials] draws: link identifier, ticket, digest of
    the ticket's bytes; [None] when the random source fails. *)
Record Credentials := { credLinkID : string; credTicket : string; credDigest : digest }.

Definition remove_pending (link : string) (p : brokerPendingLink) (b : Broker) : Broker :=
  decrementPendingLocked (target p) (b <| pending := delete link (pending b) |>).

(** The second critical section of [createPending]. *)
Definition commit_pending (t : Target) (cb : Callbacks) (creds : Credentials) (now : Time) (b : Broker) :
    Broker * result BrokerError OpenLink :=
  if closed b || limitReachedLocked t b then (b, Err ErrCapacityReached)
  else
    let expiry := Add now pendingTimeout in
    let p := {| target := t; linkID := credLinkID creds; ticketDigest := credDigest creds;
                expiresAt := expiry; callbacks := cb |} in
    let b := incrementPendingLocked t (b <| pending := <[credLinkID creds := p]> (pending b) |>) in
    (b, Ok {| OfferLinkID := credLinkID creds; ProxyName := BindingName t; ProxyType := TrafficType t;
              OfferBindingID := BindingID t; Ticket := credTicket creds;
              ExpiresAtUnixMS := UnixMilli expiry;
              OfferMaxDatagramSize := u32 (MaxDatagramSize t);
              WriteTimeoutMS := u32 (Milliseconds (WriteTimeout t)) |}).

Definition createPending (t : Target) (cb : Callbacks) (creds : option Credentials) (now : Time)
    (b : Broker) : Broker * result BrokerError OpenLink :=
  if closed b || limitReachedLocked t b then (b, Err ErrCapacityReached)
  else match creds with
  | None => (b, Err ErrRandom)
  | Some creds => commit_pending t cb creds now b
  end.

(** ** Cancelling *)

(** What the owner of a pending link does after removing it. *)
Definition release_pending (link : string) (p : brokerPendingLink) (reason : Reason) : list Event :=
  (if Reservation (target p) then [ReservationClosed link] else []) ++
  (if onCancel (callbacks p) then [Cancelled link] else []) ++
  (if ready (callbacks p) then [Ready link (Some reason)] else []).

Definition notifyCancellation (t : Target) (link : string) : list Event :=
  if negb (Writer t) then []
  else [Notice link (bool_decide (normalizeLinkDirection (Direction t) = LinkDirectionForward))].

Definition cancel (link : string) (notify : bool) (reason : Reason) (b : Broker) : Broker * list Event :=
  match pending b !! link with
  | None => (b, [])
  | Some p =>
    (remove_pending link p b,
     release_pending link p reason ++ (if notify then notifyCancellation (target p) link else []))
  end.

Definition cancelMatching (link : string) (reason : Reason) (allowed : option (Target → bool))
    (b : Broker) : Broker * list Event :=
  let permits t := match allowed with None => true | Some f => f t end in
  match active b !! link with
  | Some t => if permits t then (b, [ConnectionClosed link]) else (b, [])
  | None =>
    match pending b !! link with
    | None => (b, [])
    | Some p =>
      if permits (target p) then
        (remove_pending link p b,
         release_pending link p reason ++ notifyCancellation (target p) link)
      else (b, [])
    end
  end.

Definition cancelAny (link : string) (reason : Reason) (b : Broker) : Broker * list Event :=
  cancelMatching link reason None b.
Definition CancelLink (link : string) (b : Broker) : Broker * list Event :=
  cancelAny link Canceled b.
Definition CancelForwardLink (client session link : string) (b : Broker) : Broker * list Event :=
  cancelMatching link Canceled
    (Some (λ t, bool_decide (ClientID t = client) && bool_decide (SessionID t = session) &&
                bool_decide (normalizeLinkDirection (Direction t) = LinkDirectionForward))) b.

(** A sequence of cancellations. *)
Fixpoint cancel_all (links : list string) (reason : Reason) (b : Broker) : Broker * list Event :=
  match links with
  | [] => (b, [])
  | link :: links =>
    let '(b, events) := cancel link false reason b in
    let '(b, events') := cancel_all links reason b in
    (b, events ++ events')
  end.

Section sweeping.
Context (ρp : go_range string brokerPendingLink) (ρa : go_range string Target).

(** Collect under the mutex, then cancel and close without it. *)
Definition cancel_where (P : Target → bool) (reason : Reason) (b : Broker) : Broker * list Event :=
  let pendingIDs := omap (λ '(link, p), if P (target p) then Some link else None) (ρp (pending b)) in
  let connections := omap (λ '(link, t), if P t then Some link else None) (ρa (active b)) in
  let '(b, events) := cancel_all pendingIDs reason b in
  (b, events ++ (ConnectionClosed <$> connections)).

Definition CancelSession (client session : string) (b : Broker) : Broker * list Event :=
  cancel_where (λ t, bool_decide (ClientID t = client) && bool_decide (SessionID t = session)) Canceled b.

Definition CancelBinding (bindingID : string) (b : Broker) : Broker * list Event :=
  cancel_where (λ t, bool_decide (BindingID t = bindingID)) Canceled b.

(** The function [closeOnce] runs; a second [Close] only waits. *)
Definition Close (b : Broker) : Broker * list Event :=
  if closed b then (b, []) else cancel_where (λ _, true) ErrClosed (b <| closed := true |>).
End sweeping.

Definition ReportFailure (client session link : string) (code : LinkErrorCode) (b : Broker) :
    Broker * list Event :=
  match pending b !! link with
  | None => (b, [])
  | Some p =>
    if bool_decide (ClientID (target p) = client) && bool_decide (SessionID (target p) = session)
    then cancel link false (ReportedFailure code) b
    else (b, [])
  end.

(** ** Binding a data stream *)

Record BindLink := {
  BindClientID : string;
  BindSessionID : string;
  BindLinkID : string;
  BindProxyType : string;
  BindBindingID : string;
  BindTicket : string;
  BindDirection : string
}.

(** The conditions under which a binding names the pending link. *)
Definition binding_matches (binding : BindLink) (auth : Context) (ticket : digest)
    (p : brokerPendingLink) : bool :=
  bool_decide (ClientID (target p) = BindClientID binding) &&
  bool_decide (SessionID (target p) = BindSessionID binding) &&
  bool_decide (TrafficType (target p) = BindProxyType binding) &&
  bool_decide (BindingID (target p) = BindBindingID binding) &&
  bool_decide (Authentication (target p) = auth) &&
  bool_decide (normalizeLinkDirection (Direction (target p)) =
               normalizeLinkDirection (BindDirection binding)) &&
  bool_decide (ticket = ticketDigest p).

Definition rejectBinding (link : string) (code : LinkErrorCode) : list Event :=
  [BindResult link (Some code)].

Inductive BindOutcome := Rejected | Promoted (p : brokerPendingLink).

(** The critical section of [BindWithActivation], given the digest of the
    presented ticket, with what follows when it does not promote the link. *)
Definition bind_section (binding : BindLink) (auth : Context) (ticket : digest) (now : Time)
    (b : Broker) : Broker * list Event * BindOutcome :=
  let link := BindLinkID binding in
  let reject := rejectBinding link LinkErrorInvalidBinding in
  match pending b !! link with
  | None => (b, reject, Rejected)
  | Some p =>
    if negb (Before now (expiresAt p)) then
      (remove_pending link p b, release_pending link p DeadlineExceeded ++ reject, Rejected)
    else if negb (binding_matches binding auth ticket p) then (b, reject, Rejected)
    else
      let b := remove_pending link p b in
      (incrementActiveLocked (target p) (b <| active := <[link := target p]> (active b) |>), [], Promoted p)
  end.

(** What the environment does during delivery. *)
Inductive Preparation :=
| PrepareOk (returnsHandler returnsCleanup : bool)
| PrepareFailed (returnsCleanup : bool).

Record Delivery := {
  preparation : Preparation;      (* [handlerFactory] *)
  hasActivated : bool;            (* [onActivated != nil] *)
  writeAccepted : bool;           (* the accepting [bind_result] is written *)
  deadlineCleared : bool;         (* [SetDeadline] *)
  contextAlive : bool             (* [linkContext.Err() == nil] *)
}.

Inductive DeliveryResult := Served | DeliveryFailed (reason : Reason) | BlockedForever.

(** [failDelivery] *)
Definition fail_delivery (link : string) (cb : Callbacks) (reason : Reason) : list Event :=
  [ConnectionClosed link] ++ (if onCancel cb then [Cancelled link] else []) ++
  (if ready cb then [Ready link (Some reason)] else []).

(** From the acceptance of the binding to the end of the stream. *)
Definition serve (link : string) (p : brokerPendingLink) (hasHandler : bool) (d : Delivery) :
    list Event * DeliveryResult :=
  let activated := if hasActivated d then [ActivatedCallback link] else [] in
  if negb (writeAccepted d) then
    (activated ++ fail_delivery link (callbacks p) WriteFailed, DeliveryFailed WriteFailed)
  else
    let accepted := activated ++ [BindResult link None] in
    if negb (deadlineCleared d) then
      (accepted ++ fail_delivery link (callbacks p) WriteFailed, DeliveryFailed WriteFailed)
    else if negb (contextAlive d) then
      (accepted ++ fail_delivery link (callbacks p) ContextError, DeliveryFailed ContextError)
    else
      let reserved := if Reservation (target p) then [ReservationActivated link] else [] in
      if hasHandler then (accepted ++ reserved ++ [HandlerRun link; ConnectionClosed link], Served)
      else if ready (callbacks p) then (accepted ++ reserved ++ [Ready link None], Served)
      else (accepted ++ reserved, BlockedForever).

(** Everything between promotion and the deferred [finish]: the body, then
    the deferred cleanup and [managed.Close]. *)
Definition deliver (link : string) (p : brokerPendingLink) (d : Delivery) : list Event * DeliveryResult :=
  let deferred (cleanup : bool) := (if cleanup then [Cleanup link] else []) ++ [ConnectionClosed link] in
  if handlerFactory (callbacks p) then
    match preparation d with
    | PrepareFailed cleanup =>
      let code := if bool_decide (Direction (target p) = LinkDirectionForward)
                  then LinkErrorTargetDialFailed else LinkErrorLocalDialFailed in
      (rejectBinding link code ++ fail_delivery link (callbacks p) PrepareError ++ deferred cleanup,
       DeliveryFailed PrepareError)
    | PrepareOk returnsHandler cleanup =>
      let '(events, res) := serve link p returnsHandler d in (events ++ deferred cleanup, res)
    end
  else
    let '(events, res) := serve link p (handler (callbacks p)) d in (events ++ deferred false, res).

Definition finish (link : string) (b : Broker) : Broker * list Event :=
  match active b !! link with
  | None => (b, [])
  | Some t =>
    (decrementActiveLocked t (b <| active := delete link (active b) |>),
     if Reservation t then [ReservationClosed link] else [])
  end.

Section bind.
(** [base64.RawURLEncoding.DecodeString] and [sha256.Sum256] *)
Context (DecodeString : string → option (list byte)) (sha256 : list byte → digest).

(** The whole call when nothing runs in between. *)
Definition BindWithActivation (binding : BindLink) (auth : Context) (now : Time) (d : Delivery)
    (b : Broker) : Broker * list Event * option BrokerError :=
  let link := BindLinkID binding in
  let invalid := ErrBind LinkErrorInvalidBinding in
  match DecodeString (BindTicket binding) with
  | None => (b, rejectBinding link LinkErrorInvalidBinding, Some invalid)
  | Some ticket =>
    if negb (bool_decide (length ticket = 32%nat)) then
      (b, rejectBinding link LinkErrorInvalidBinding, Some invalid)
    else
      match bind_section binding auth (sha256 ticket) now b with
      | (b, events, Rejected) => (b, events, Some invalid)
      | (b, events, Promoted p) =>
        let '(delivered, res) := deliver link p d in
        let '(b, finished) := finish link b in
        (b, events ++ delivered ++ finished,
         match res with DeliveryFailed reason => Some (ErrDelivery reason) | _ => None end)
      end
  end.
End bind.

(** ** The opening methods *)

(** [request]: offer, then write the offer on the control connection. *)
Definition request (t : Target) (cb : Callbacks) (creds : option Credentials) (now : Time)
    (written : bool) (b : Broker) : Broker * list Event * result BrokerError string :=
  match createPending t cb creds now b with
  | (b, Err e) => (b, [], Err e)
  | (b, Ok offer) =>
    if written then (b, [], Ok (OfferLinkID offer))
    else let '(b, events) := cancel (OfferLinkID offer) false WriteFailed b in
         (b, events, Err ErrWrite)
  end.

Definition stream_callbacks (hasCancel : bool) : Callbacks :=
  {| onCancel := hasCancel; ready := false; handler := true; handlerFactory := false |}.
Definition open_callbacks : Callbacks :=
  {| onCancel := false; ready := true; handler := false; handlerFactory := false |}.
Definition offer_callbacks : Callbacks :=
  {| onCancel := false; ready := false; handler := false; handlerFactory := true |}.

Definition ServeStream (t : Target) (hasCancel : bool) (creds : option Credentials) (now : Time)
    (written : bool) (b : Broker) : Broker * list Event * result BrokerError string :=
  request t (stream_callbacks hasCancel) creds now written b.

Definition OfferStream (t : Target) (creds : option Credentials) (now : Time) (b : Broker) :
    Broker * result BrokerError OpenLink :=
  createPending t offer_callbacks creds now b.

(** The first critical section of [ServeStreamAsync]: a send slot, or refusal. *)
Definition acquire_send (b : Broker) : option Broker :=
  if closed b then None
  else if sendSlots b <? maxPending then Some (b <| sendSlots := sendSlots b + 1 |>) else None.

Definition releaseSend (b : Broker) : Broker := b <| sendSlots := sendSlots b - 1 |>.

(** Up to the start of the sending goroutine. *)
Definition ServeStreamAsync (t : Target) (hasCancel : bool) (creds : option Credentials) (now : Time)
    (b : Broker) : Broker * result BrokerError string :=
  match acquire_send b with
  | None => (b, Err ErrCapacityReached)
  | Some b =>
    match createPending t (stream_callbacks hasCancel) creds now b with
    | (b, Err e) => (releaseSend b, Err e)
    | (b, Ok offer) => (b, Ok (OfferLinkID offer))
    end
  end.

(** The goroutine: write the offer, cancel on failure, release the slot. *)
Definition send_offer (link : string) (written : bool) (b : Broker) : Broker * list Event :=
  let '(b, events) := if written then (b, []) else cancel link false WriteFailed b in
  (releaseSend b, events).

(** ** Statistics *)

Record Stats := { StatPending : Z; StatActive : Z; ForwardPending : Z; ForwardActive : Z }.

Definition is_forward (t : Target) : bool := bool_decide (Direction t = LinkDirectionForward).

Definition SnapshotStats (b : Broker) : Stats :=
  {| StatPending := Z.of_nat (size (pending b)); StatActive := Z.of_nat (size (active b));
     ForwardPending := map_fold (λ _ p n, if is_forward (target p) then n + 1 else n) 0 (pending b);
     ForwardActive := map_fold (λ _ t n, if is_forward t then n + 1 else n) 0 (active b) |}.

(** ** Invariant of the tables *)

(** An item is charged to the key computed from it. *)
Definition keyed {A} (key : A → string) (_ : string) (a : A) (k : string) : Prop := key a = k.
#[export] Instance keyed_dec {A} (key : A → string) i a k : Decision (keyed key i a k).
Proof. unfold keyed. apply _. Defined.

Abbreviation pending_tally key b := (tally (keyed (λ p, key (target p))) (pending b)).
Abbreviation active_tally key b := (tally (keyed key) (active b)).

Record broker_ok (b : Broker) : Prop := {
  bo_pending_clients : counts (keyed (λ p, ClientID (target p))) (pendingClients b) (pending b);
  bo_pending_bindings : counts (keyed (λ p, brokerBindingKey (target p))) (pendingBindings b) (pending b);
  bo_pending_directions :
    counts (keyed (λ p, brokerDirectionKey (target p))) (pendingDirections b) (pending b);
  bo_active_clients : counts (keyed ClientID) (activeClients b) (active b);
  bo_active_bindings : counts (keyed brokerBindingKey) (activeBindings b) (active b);
  bo_active_directions : counts (keyed brokerDirectionKey) (activeDirections b) (active b);
  bo_pending : Z.of_nat (size (pending b)) <= maxPending;
  bo_total : Z.of_nat (size (pending b)) + Z.of_nat (size (active b)) <= maxActive;
  bo_pending_client k : pending_tally ClientID b k <= maxPendingPerClient;
  bo_pending_binding k : pending_tally brokerBindingKey b k <= maxPendingPerProxy;
  bo_client k : pending_tally ClientID b k + active_tally ClientID b k <= maxActivePerClient;
  bo_binding k : pending_tally brokerBindingKey b k + active_tally brokerBindingKey b k <= maxActivePerProxy;
  bo_disjoint link : is_Some (pending b !! link) → active b !! link = None
}.

Lemma NewBroker_ok : broker_ok NewBroker.
Proof.
  constructor; simpl; intros; rewrite ?tally_empty, ?map_size_empty; try done; apply counts_empty.
Qed.

(** Deleting an item lowers a tally by its charge. *)
Lemma keyed_delete {A} (key : A → string) (m : gmap string A) i a k :
  m !! i = Some a →
  tally (keyed key) (delete i m) k = tally (keyed key) m k - (if decide (key a = k) then 1 else 0).
Proof. intros Hi. rewrite (tally_delete _ _ _ a) by done. unfold charge, keyed. by repeat case_decide. Qed.

Lemma keyed_insert {A} (key : A → string) (m : gmap string A) i a k :
  m !! i = None →
  tally (keyed key) (<[i := a]> m) k = tally (keyed key) m k + (if decide (key a = k) then 1 else 0).
Proof. intros Hi. rewrite tally_insert by done. unfold charge, keyed. by repeat case_decide. Qed.

Lemma size_delete_Z {A} (m : gmap string A) i a :
  m !! i = Some a → Z.of_nat (size (delete i m)) = Z.of_nat (size m) - 1.
Proof.
  intros Hi. rewrite map_size_delete, Hi. simpl.
  assert (size m ≠ 0%nat) by (intros E%map_size_empty_inv; by rewrite E, lookup_empty in Hi). lia.
Qed.

Lemma size_insert_Z {A} (m : gmap string A) i (a : A) :
  m !! i = None → Z.of_nat (size (<[i := a]> m)) = Z.of_nat (size m) + 1.
Proof. intros Hi. rewrite map_size_insert_None by done. lia. Qed.

Lemma remove_pending_ok link p b :
  broker_ok b → pending b !! link = Some p → broker_ok (remove_pending link p b).
Proof.
  intros Hb Hp. unfold remove_pending, decrementPendingLocked, decrementBrokerCount.
  constructor; cbn [pending active pendingClients pendingBindings pendingDirections activeClients
                    activeBindings activeDirections upd]; try apply Hb.
  - by apply (counts_remove _ _ _ _ p); [apply Hb|..].
  - by apply (counts_remove _ _ _ _ p); [apply Hb|..].
  - by apply (counts_remove _ _ _ _ p); [apply Hb|..].
  - rewrite (size_delete_Z _ _ p) by done. pose proof (bo_pending _ Hb). lia.
  - rewrite (size_delete_Z _ _ p) by done. pose proof (bo_total _ Hb). lia.
  - intros k. rewrite (keyed_delete _ _ _ p) by done. pose proof (bo_pending_client _ Hb k).
    case_decide; lia.
  - intros k. rewrite (keyed_delete _ _ _ p) by done. pose proof (bo_pending_binding _ Hb k).
    case_decide; lia.
  - intros k. rewrite (keyed_delete _ _ _ p) by done. pose proof (bo_client _ Hb k).
    case_decide; lia.
  - intros k. rewrite (keyed_delete _ _ _ p) by done. pose proof (bo_binding _ Hb k).
    case_decide; lia.
  - intros l. rewrite lookup_delete_is_Some. intros [_ ?]. by apply (bo_disjoint _ Hb).
Qed.

(** Promotion: the charges move from the pending to the active tables. *)
Definition promote (link : string) (p : brokerPendingLink) (b : Broker) : Broker :=
  let b := remove_pending link p b in
  incrementActiveLocked (target p) (b <| active := <[link := target p]> (active b) |>).

Lemma promote_ok link p b :
  broker_ok b → pending b !! link = Some p → broker_ok (promote link p b).
Proof.
  intros Hb Hp. pose proof (remove_pending_ok link p b Hb Hp) as Hr.
  assert (Hfresh : active b !! link = None) by (apply (bo_disjoint _ Hb); eauto).
  unfold promote, incrementActiveLocked. cbv zeta.
  constructor; cbn [pending active pendingClients pendingBindings pendingDirections activeClients
                    activeBindings activeDirections remove_pending decrementPendingLocked upd];
    try apply Hr; try apply Hb.
  - by apply counts_add; [apply Hb|..].
  - by apply counts_add; [apply Hb|..].
  - by apply counts_add; [apply Hb|..].
  - rewrite (size_delete_Z _ _ p), size_insert_Z by done. pose proof (bo_total _ Hb). lia.
  - intros k. rewrite (keyed_delete _ _ _ p), keyed_insert by done. pose proof (bo_client _ Hb k). lia.
  - intros k. rewrite (keyed_delete _ _ _ p), keyed_insert by done. pose proof (bo_binding _ Hb k). lia.
  - intros l. rewrite lookup_delete_is_Some. intros [Hne Hl].
    rewrite lookup_insert_ne by done. by apply (bo_disjoint _ Hb).
Qed.

Lemma finish_ok link b : broker_ok b → broker_ok (fst (finish link b)).
Proof.
  intros Hb. unfold finish. destruct (active b !! link) as [t|] eqn:Ht; [|done]. cbn [fst].
  unfold decrementActiveLocked, decrementBrokerCount.
  constructor; cbn [pending active pendingClients pendingBindings pendingDirections activeClients
                    activeBindings activeDirections upd]; try apply Hb.
  - by apply (counts_remove _ _ _ _ t); [apply Hb|..].
  - by apply (counts_remove _ _ _ _ t); [apply Hb|..].
  - by apply (counts_remove _ _ _ _ t); [apply Hb|..].
  - rewrite (size_delete_Z _ _ t) by done. pose proof (bo_total _ Hb). lia.
  - intros k. rewrite (keyed_delete ClientID _ _ t) by done. pose proof (bo_client _ Hb k).
    case_decide; lia.
  - intros k. rewrite (keyed_delete brokerBindingKey _ _ t) by done. pose proof (bo_binding _ Hb k).
    case_decide; lia.
  - intros l Hl. apply lookup_delete_None. right. by apply (bo_disjoint _ Hb).
Qed.

(** Room for one more link of a target. *)
Lemma limit_free t b :
  broker_ok b → limitReachedLocked t b = false →
  Z.of_nat (size (pending b)) < maxPending ∧
  Z.of_nat (size (pending b)) + Z.of_nat (size (active b)) < maxActive ∧
  pending_tally ClientID b (ClientID t) < maxPendingPerClient ∧
  pending_tally brokerBindingKey b (brokerBindingKey t) < maxPendingPerProxy ∧
  pending_tally ClientID b (ClientID t) + active_tally ClientID b (ClientID t) < maxActivePerClient ∧
  pending_tally brokerBindingKey b (brokerBindingKey t)
    + active_tally brokerBindingKey b (brokerBindingKey t) < maxActivePerProxy ∧
  (0 < MaxActiveLinks t →
   pending_tally brokerDirectionKey b (brokerDirectionKey t)
     + active_tally brokerDirectionKey b (brokerDirectionKey t) < MaxActiveLinks t).
Proof.
  intros Hb. unfold limitReachedLocked.
  destruct (_ || _) eqn:Hsize; [done|]. cbv zeta.
  rewrite !(counts_get _ _ _ _ (bo_pending_clients _ Hb)), !(counts_get _ _ _ _ (bo_pending_bindings _ Hb)),
    !(counts_get _ _ _ _ (bo_pending_directions _ Hb)), !(counts_get _ _ _ _ (bo_active_clients _ Hb)),
    !(counts_get _ _ _ _ (bo_active_bindings _ Hb)), !(counts_get _ _ _ _ (bo_active_directions _ Hb)).
  intros Hlim. apply orb_false_iff in Hlim as [Hlim ?]. apply orb_false_iff in Hlim as [Hlim ?].
  apply orb_false_iff in Hlim as [Hlim Hdir]. apply orb_false_iff in Hlim as [? ?].
  apply andb_false_iff in Hdir. bool_to_prop. split_and!; lia.
Qed.

Lemma commit_ok t cb creds now b offer :
  broker_ok b → pending b !! credLinkID creds = None → active b !! credLinkID creds = None →
  snd (commit_pending t cb creds now b) = Ok offer → broker_ok (fst (commit_pending t cb creds now b)).
Proof.
  intros Hb Hp Ha. unfold commit_pending. destruct (closed b); [done|]. cbn [orb].
  destruct (limitReachedLocked t b) eqn:Hlim; [done|]. intros _. cbn [fst].
  destruct (limit_free t b Hb Hlim) as (? & ? & ? & ? & ? & ? & _).
  unfold incrementPendingLocked. set (p := Build_brokerPendingLink _ _ _ _ _).
  constructor; cbn [pending active pendingClients pendingBindings pendingDirections activeClients
                    activeBindings activeDirections upd]; try apply Hb.
  - by apply counts_add; [apply Hb|..].
  - by apply counts_add; [apply Hb|..].
  - by apply counts_add; [apply Hb|..].
  - rewrite size_insert_Z by done. lia.
  - rewrite size_insert_Z by done. lia.
  - intros k. rewrite keyed_insert by done. pose proof (bo_pending_client _ Hb k).
    case_decide; simpl in *; subst; lia.
  - intros k. rewrite keyed_insert by done. pose proof (bo_pending_binding _ Hb k).
    case_decide; simpl in *; subst; lia.
  - intros k. rewrite keyed_insert by done. pose proof (bo_client _ Hb k).
    case_decide; simpl in *; subst; lia.
  - intros k. rewrite keyed_insert by done. pose proof (bo_binding _ Hb k).
    case_decide; simpl in *; subst; lia.
  - intros l. rewrite lookup_insert. case_decide; [by subst|]. apply (bo_disjoint _ Hb).
Qed.

(** ** Interleavings

    The critical sections of all goroutines interleave freely.  A stream
    between its promotion and its [finish] is in [serving], with a flag saying
    whether delivery is over; [issued] remembers every link ever offered.  Link
    identifiers are 128 random bits: an offer uses one that was never used. *)

Record System := {
  broker : Broker;
  trace : list Event;
  serving : gmap string (brokerPendingLink * bool);
  issued : gmap string brokerPendingLink
}.
#[export] Instance eta_System : Eta System := λ s,
  {| broker := broker s; trace := trace s; serving := serving s; issued := issued s |}.

(** The three ways the opening methods set up a link. *)
Definition wf_callbacks (cb : Callbacks) : Prop := ready cb = negb (handler cb || handlerFactory cb).

Definition emit (b : Broker) (events : list Event) (s : System) : System :=
  s <| broker := b |> <| trace := trace s ++ events |>.

Inductive system_step (s : System) : System → Prop :=
| step_offer t cb creds now b offer p :
    commit_pending t cb creds now (broker s) = (b, Ok offer) → wf_callbacks cb →
    issued s !! credLinkID creds = None → pending b !! credLinkID creds = Some p →
    system_step s (s <| broker := b |> <| issued := <[credLinkID creds := p]> (issued s) |>)
| step_reject binding auth ticket now b events :
    bind_section binding auth ticket now (broker s) = (b, events, Rejected) →
    system_step s (emit b events s)
| step_promote binding auth ticket now b events p :
    bind_section binding auth ticket now (broker s) = (b, events, Promoted p) →
    system_step s ((emit b events s) <| serving := <[BindLinkID binding := (p, false)]> (serving s) |>)
| step_deliver link p d events res :
    serving s !! link = Some (p, false) → deliver link p d = (events, res) → res ≠ BlockedForever →
    system_step s ((emit (broker s) events s) <| serving := <[link := (p, true)]> (serving s) |>)
| step_finish link p b events :
    serving s !! link = Some (p, true) → finish link (broker s) = (b, events) →
    system_step s ((emit b events s) <| serving := delete link (serving s) |>)
| step_cancel link notify reason b events :
    cancel link notify reason (broker s) = (b, events) → system_step s (emit b events s)
| step_cancel_matching link reason allowed b events :
    cancelMatching link reason allowed (broker s) = (b, events) → system_step s (emit b events s)
| step_close : system_step s (emit ((broker s) <| closed := true |>) [] s)
| step_close_connection link t :
    active (broker s) !! link = Some t → system_step s (emit (broker s) [ConnectionClosed link] s)
| step_acquire b : acquire_send (broker s) = Some b → system_step s (emit b [] s)
| step_release : 0 < sendSlots (broker s) → system_step s (emit (releaseSend (broker s)) [] s).

Definition initial : System := {| broker := NewBroker; trace := []; serving := ∅; issued := ∅ |}.

(** *** Counting events *)

Definition link_of (e : Event) : string :=
  match e with
  | ReservationActivated l | ReservationClosed l | Cancelled l | Ready l _ | Notice l _
  | ConnectionClosed l | BindResult l _ | ActivatedCallback l | Cleanup l | HandlerRun l => l
  end.

Definition is_close (e : Event) : bool := match e with ReservationClosed _ => true | _ => false end.
Definition is_ready (e : Event) : bool := match e with Ready _ _ => true | _ => false end.

(** How many events of a kind concern a link. *)
Definition occurrences (P : Event → bool) (link : string) (events : list Event) : nat :=
  length (List.filter (λ e, P e && bool_decide (link_of e = link)) events).

Lemma occurrences_app P l e1 e2 : occurrences P l (e1 ++ e2) = (occurrences P l e1 + occurrences P l e2)%nat.
Proof. unfold occurrences. by rewrite List.filter_app, length_app. Qed.

Lemma occurrences_about P l l' events :
  Forall (λ e, link_of e = l) events → l' ≠ l → occurrences P l' events = 0%nat.
Proof.
  intros Hall Hne. unfold occurrences. induction Hall as [|e events He _ IH]; [done|]. simpl.
  rewrite bool_decide_eq_false_2 by congruence. by rewrite andb_false_r.
Qed.

(** Count on a concrete list. *)
Ltac count_events :=
  unfold occurrences; simpl; rewrite ?bool_decide_eq_true_2 by done; simpl; done.

Lemma release_about link p reason : Forall (λ e, link_of e = link) (release_pending link p reason).
Proof. unfold release_pending. rewrite !Forall_app. split_and!; case_match; repeat constructor. Qed.

Lemma release_count link p reason :
  occurrences is_close link (release_pending link p reason) = (if Reservation (target p) then 1 else 0)%nat ∧
  occurrences is_ready link (release_pending link p reason) = (if ready (callbacks p) then 1 else 0)%nat.
Proof.
  unfold release_pending.
  destruct (Reservation (target p)), (onCancel (callbacks p)), (ready (callbacks p)); split;
    count_events.
Qed.

(** Events that neither close a reservation nor answer the requester. *)
Definition quiet (events : list Event) : Prop :=
  Forall (λ e, is_close e = false ∧ is_ready e = false) events.

Lemma occurrences_quiet P l events :
  quiet events → P = is_close ∨ P = is_ready → occurrences P l events = 0%nat.
Proof.
  intros Hq HP. unfold occurrences. induction Hq as [|e events [Hc Hr] _ IH]; [done|]. simpl.
  by destruct HP; subst P; rewrite ?Hc, ?Hr.
Qed.

Lemma notify_quiet t link : quiet (notifyCancellation t link).
Proof. unfold notifyCancellation, quiet. case_match; repeat constructor. Qed.

Lemma notify_about t link : Forall (λ e, link_of e = link) (notifyCancellation t link).
Proof. unfold notifyCancellation. case_match; repeat constructor. Qed.

Lemma serve_about link p h d : Forall (λ e, link_of e = link) (fst (serve link p h d)).
Proof.
  unfold serve, fail_delivery. repeat case_match; cbn [fst]; rewrite ?Forall_app, ?Forall_cons; done.
Qed.

Lemma deliver_about link p d : Forall (λ e, link_of e = link) (fst (deliver link p d)).
Proof.
  unfold deliver. cbv zeta.
  destruct (handlerFactory (callbacks p)); [destruct (preparation d) as [h c|c]|].
  - pose proof (serve_about link p h d). destruct (serve link p h d). cbn [fst] in *.
    rewrite !Forall_app. split_and!; [done|case_match; repeat constructor|repeat constructor].
  - cbn [fst]. unfold rejectBinding, fail_delivery.
    rewrite !Forall_app, ?Forall_cons. split_and!; try done; case_match; repeat constructor.
  - pose proof (serve_about link p (handler (callbacks p)) d). destruct (serve _ _ _ d). cbn [fst] in *.
    rewrite !Forall_app. split_and!; [done|constructor|repeat constructor].
Qed.

Lemma serve_count link p h d :
  (ready (callbacks p) = true → h = false) → snd (serve link p h d) ≠ BlockedForever →
  occurrences is_close link (fst (serve link p h d)) = 0%nat ∧
  occurrences is_ready link (fst (serve link p h d)) = (if ready (callbacks p) then 1 else 0)%nat.
Proof.
  intros Hh. unfold serve, fail_delivery. cbv zeta.
  destruct (ready (callbacks p)); [rewrite (Hh eq_refl)|destruct h];
    destruct (hasActivated d), (writeAccepted d), (deadlineCleared d), (contextAlive d),
      (onCancel (callbacks p)), (Reservation (target p)); cbn [negb fst snd];
    intros ?; try done; split; count_events.
Qed.

Lemma deliver_count link p d :
  wf_callbacks (callbacks p) → snd (deliver link p d) ≠ BlockedForever →
  occurrences is_close link (fst (deliver link p d)) = 0%nat ∧
  occurrences is_ready link (fst (deliver link p d)) = (if ready (callbacks p) then 1 else 0)%nat.
Proof.
  intros Hwf. unfold deliver, wf_callbacks in *. cbv zeta.
  assert (Hdef : ∀ c : bool, quiet ((if c then [Cleanup link] else []) ++ [ConnectionClosed link])).
  { intros []; repeat constructor. }
  assert (Happ : ∀ (c : bool) P ev, P = is_close ∨ P = is_ready →
    occurrences P link (ev ++ (if c then [Cleanup link] else []) ++ [ConnectionClosed link])
      = occurrences P link ev).
  { intros c P ev HP. rewrite occurrences_app, (occurrences_quiet _ _ _ (Hdef c) HP). lia. }
  destruct (handlerFactory (callbacks p)) eqn:Hf.
  - rewrite orb_true_r in Hwf. simpl in Hwf. destruct (preparation d) as [h c|c].
    + intros Hres. destruct (serve link p h d) as [ev res] eqn:Hs.
      destruct (serve_count link p h d) as [H1 H2]; [by rewrite Hwf|by rewrite Hs in *|].
      rewrite Hs in H1, H2. cbn [fst] in *. rewrite !Happ by auto. done.
    + intros _. cbn [fst]. unfold fail_delivery, rejectBinding. rewrite Hwf.
      destruct (onCancel (callbacks p)), c; split; count_events.
  - intros Hres. destruct (serve link p (handler (callbacks p)) d) as [ev res] eqn:Hs.
    destruct (serve_count link p (handler (callbacks p)) d) as [H1 H2].
    + intros Hr. rewrite Hr in Hwf. by destruct (handler (callbacks p)).
    + by rewrite Hs in *.
    + rewrite Hs in H1, H2. cbn [fst] in *. rewrite !(Happ false) by auto. done.
Qed.

(** *** The invariant of the system *)

Definition settled (s : System) (link : string) : bool :=
  negb (is_some (pending (broker s) !! link)) && negb (is_some (serving s !! link)).

(** Whether the outcome of a link has been reported to its requester. *)
Definition answered (s : System) (link : string) : bool :=
  match serving s !! link with
  | Some (_, delivered) => delivered
  | None => negb (is_some (pending (broker s) !! link))
  end.

Definition expected_closes (s : System) (link : string) : nat :=
  match issued s !! link with
  | Some p => if Reservation (target p) && settled s link then 1 else 0
  | None => 0
  end.

Definition expected_answers (s : System) (link : string) : nat :=
  match issued s !! link with
  | Some p => if ready (callbacks p) && answered s link then 1 else 0
  | None => 0
  end.

Record system_ok (s : System) : Prop := {
  so_broker : broker_ok (broker s);
  so_pending l p : pending (broker s) !! l = Some p → issued s !! l = Some p ∧ serving s !! l = None;
  so_serving l p d : serving s !! l = Some (p, d) →
    issued s !! l = Some p ∧ active (broker s) !! l = Some (target p);
  so_active l : is_Some (active (broker s) !! l) → is_Some (serving s !! l);
  so_callbacks l p : issued s !! l = Some p → wf_callbacks (callbacks p);
  so_closes l : occurrences is_close l (trace s) = expected_closes s l;
  so_answers l : occurrences is_ready l (trace s) = expected_answers s l
}.

Lemma initial_ok : system_ok initial.
Proof.
  constructor; simpl.
  - apply NewBroker_ok.
  - intros l p. by rewrite lookup_empty.
  - intros l p d. by rewrite lookup_empty.
  - intros l. rewrite lookup_empty. by intros [].
  - intros l p. by rewrite lookup_empty.
  - intros l. unfold expected_closes; simpl. by rewrite lookup_empty.
  - intros l. unfold expected_answers; simpl. by rewrite lookup_empty.
Qed.

(** A step that leaves the tables alone and emits quiet events. *)
Lemma system_ok_quiet s b events :
  system_ok s → broker_ok b → pending b = pending (broker s) → active b = active (broker s) →
  quiet events → system_ok (emit b events s).
Proof.
  intros [H1 H2 H3 H4 H5 H6 H7] Hb Ep Ea Hq. constructor; cbn [broker trace serving issued emit upd];
    rewrite ?Ep, ?Ea; try done.
  - intros l. rewrite occurrences_app, H6, (occurrences_quiet is_close) by auto.
    unfold expected_closes, settled; cbn [broker serving issued emit upd]. rewrite Ep. lia.
  - intros l. rewrite occurrences_app, H7, (occurrences_quiet is_ready) by auto.
    unfold expected_answers, answered; cbn [broker serving issued emit upd]. rewrite Ep. lia.
Qed.

(** Removing a pending link releases it and answers its requester. *)
Lemma system_ok_remove s link p reason events :
  system_ok s → pending (broker s) !! link = Some p →
  quiet events → Forall (λ e, link_of e = link) events →
  system_ok (emit (remove_pending link p (broker s)) (release_pending link p reason ++ events) s).
Proof.
  intros [H1 H2 H3 H4 H5 H6 H7] Hp Hq Habout. destruct (H2 _ _ Hp) as [Hiss Hserv].
  destruct (release_count link p reason) as [Hc Hr].
  assert (Hp' : ∀ l, pending (remove_pending link p (broker s)) !! l =
    if decide (link = l) then None else pending (broker s) !! l).
  { intros l. cbn [remove_pending decrementPendingLocked pending upd]. by rewrite lookup_delete. }
  constructor; cbn [broker trace serving issued emit upd].
  - by apply remove_pending_ok.
  - intros l q. rewrite Hp'. case_decide; [done|apply H2].
  - done.
  - done.
  - done.
  - intros l. rewrite !occurrences_app, H6, (occurrences_quiet is_close _ events) by auto.
    unfold expected_closes, settled; cbn [broker serving issued emit upd]. rewrite Hp'.
    destruct (decide (link = l)) as [<-|Hne].
    + rewrite Hc, Hiss, Hp, Hserv. by destruct (Reservation (target p)).
    + rewrite (occurrences_about _ link) by (done || apply release_about). lia.
  - intros l. rewrite !occurrences_app, H7, (occurrences_quiet is_ready _ events) by auto.
    unfold expected_answers, answered; cbn [broker serving issued emit upd]. rewrite Hp'.
    destruct (decide (link = l)) as [<-|Hne].
    + rewrite Hr, Hiss, Hp, Hserv. by destruct (ready (callbacks p)).
    + rewrite (occurrences_about _ link) by (done || apply release_about). lia.
Qed.

Lemma commit_tables t cb creds now b b' offer :
  commit_pending t cb creds now b = (b', Ok offer) →
  limitReachedLocked t b = false ∧ closed b = false ∧ active b' = active b ∧
  ∃ p, target p = t ∧ callbacks p = cb ∧ ticketDigest p = credDigest creds ∧
    expiresAt p = Add now pendingTimeout ∧ pending b' = <[credLinkID creds := p]> (pending b).
Proof.
  unfold commit_pending. destruct (closed b); [done|]. cbn [orb].
  destruct (limitReachedLocked t b); [done|]. cbv zeta. intros; simplify_eq.
  split_and!; try done. eexists. split_and!; [| | | |reflexivity]; done.
Qed.

Lemma system_ok_offer s t cb creds now b offer p :
  system_ok s → commit_pending t cb creds now (broker s) = (b, Ok offer) → wf_callbacks cb →
  issued s !! credLinkID creds = None → pending b !! credLinkID creds = Some p →
  system_ok (s <| broker := b |> <| issued := <[credLinkID creds := p]> (issued s) |>).
Proof.
  intros [H1 H2 H3 H4 H5 H6 H7] E Hwf Hfresh Hp.
  destruct creds as [id tk dg]; cbn [credLinkID] in *. set (creds := Build_Credentials id tk dg) in *.
  assert (Hnp : pending (broker s) !! id = None).
  { destruct (pending (broker s) !! id) eqn:Hq; [|done]. apply H2 in Hq as [? _]. congruence. }
  assert (Hns : serving s !! id = None).
  { destruct (serving s !! id) as [[q d]|] eqn:Hq; [|done]. apply H3 in Hq as [? _]. congruence. }
  assert (Hna : active (broker s) !! id = None).
  { destruct (active (broker s) !! id) eqn:Hq; [|done].
    destruct (H4 id) as [? ?]; [by rewrite Hq|congruence]. }
  pose proof (commit_ok t cb creds now (broker s) offer H1 Hnp Hna) as Hok. rewrite E in Hok.
  cbn [fst snd] in Hok.
  destruct (commit_tables _ _ _ _ _ _ _ E) as (_ & _ & Ea & q & _ & Hcb & _ & _ & Ep).
  change (credLinkID creds) with id in Ep. rewrite Ep, lookup_insert_eq in Hp. simplify_eq.
  constructor; cbn [broker trace serving issued upd]; rewrite ?Ea, ?Ep.
  - by apply Hok.
  - intros l r. rewrite !lookup_insert. case_decide; [intros; simplify_eq; done|apply H2].
  - intros l r d Hs. rewrite lookup_insert_ne; [by apply H3 with d|].
    intros <-. congruence.
  - done.
  - intros l r. rewrite lookup_insert. case_decide; [intros; by simplify_eq|apply H5].
  - intros l. rewrite H6. unfold expected_closes, settled; cbn [broker serving issued upd].
    rewrite Ep, !lookup_insert. case_decide; [subst|done]. rewrite Hfresh. by rewrite andb_false_r.
  - intros l. rewrite H7. unfold expected_answers, answered; cbn [broker serving issued upd].
    rewrite Ep, !lookup_insert. case_decide; [subst|done]. rewrite Hfresh, Hns. by rewrite andb_false_r.
Qed.

Lemma system_ok_promote s link p :
  system_ok s → pending (broker s) !! link = Some p →
  system_ok ((emit (promote link p (broker s)) [] s) <| serving := <[link := (p, false)]> (serving s) |>).
Proof.
  intros [H1 H2 H3 H4 H5 H6 H7] Hp. destruct (H2 _ _ Hp) as [Hiss Hserv].
  assert (Ep : ∀ l, pending (promote link p (broker s)) !! l =
    if decide (link = l) then None else pending (broker s) !! l).
  { intros l. cbn [promote remove_pending decrementPendingLocked incrementActiveLocked pending upd].
    by rewrite lookup_delete. }
  assert (Ea : active (promote link p (broker s)) = <[link := target p]> (active (broker s))) by done.
  constructor; cbn [broker trace serving issued emit upd]; rewrite ?Ea, ?app_nil_r.
  - by apply promote_ok.
  - intros l q. rewrite Ep, lookup_insert. case_decide; [done|apply H2].
  - intros l q d. rewrite !lookup_insert. case_decide; [intros; simplify_eq; done|apply H3].
  - intros l. rewrite !lookup_insert. case_decide; [eauto|apply H4].
  - done.
  - intros l. rewrite H6. unfold expected_closes, settled; cbn [broker serving issued emit upd].
    rewrite Ep, lookup_insert. case_decide; [subst|done]. by rewrite Hp.
  - intros l. rewrite H7. unfold expected_answers, answered; cbn [broker serving issued emit upd].
    rewrite Ep, lookup_insert. case_decide; [subst|done]. by rewrite Hserv, Hp.
Qed.

Lemma system_ok_deliver s link p d events res :
  system_ok s → serving s !! link = Some (p, false) → deliver link p d = (events, res) →
  res ≠ BlockedForever →
  system_ok ((emit (broker s) events s) <| serving := <[link := (p, true)]> (serving s) |>).
Proof.
  intros [H1 H2 H3 H4 H5 H6 H7] Hs E Hres. destruct (H3 _ _ _ Hs) as [Hiss Hact].
  destruct (deliver_count link p d (H5 _ _ Hiss)) as [Hc Hr]; [by rewrite E|].
  pose proof (deliver_about link p d) as Habout. rewrite E in Hc, Hr, Habout. cbn [fst] in *.
  assert (Hnp : pending (broker s) !! link = None).
  { destruct (pending (broker s) !! link) eqn:Hq; [|done]. apply H2 in Hq as [_ ?]. congruence. }
  constructor; cbn [broker trace serving issued emit upd]; try done.
  - intros l q Hq. rewrite lookup_insert_ne; [by apply H2|]. intros <-. congruence.
  - intros l q e. rewrite lookup_insert. case_decide; [intros; simplify_eq; done|apply H3].
  - intros l Hl. rewrite lookup_insert. case_decide; [eauto|by apply H4].
  - intros l. rewrite occurrences_app, H6.
    unfold expected_closes, settled; cbn [broker serving issued emit upd]. rewrite lookup_insert.
    case_decide; [subst|rewrite (occurrences_about _ link) by done; lia]. rewrite Hc, Hs. simpl. lia.
  - intros l. rewrite occurrences_app, H7.
    unfold expected_answers, answered; cbn [broker serving issued emit upd]. rewrite lookup_insert.
    case_decide; [subst|rewrite (occurrences_about _ link) by done; lia].
    rewrite Hr, Hs, Hiss. by rewrite andb_false_r, andb_true_r.
Qed.

Lemma system_ok_finish s link p b events :
  system_ok s → serving s !! link = Some (p, true) → finish link (broker s) = (b, events) →
  system_ok ((emit b events s) <| serving := delete link (serving s) |>).
Proof.
  intros [H1 H2 H3 H4 H5 H6 H7] Hs E. destruct (H3 _ _ _ Hs) as [Hiss Hact].
  pose proof (finish_ok link (broker s) H1) as Hok. unfold finish in E, Hok. rewrite Hact in E, Hok.
  injection E as <- <-. cbn [fst] in Hok. set (b := decrementActiveLocked _ _) in *.
  assert (Hnp : pending (broker s) !! link = None).
  { destruct (pending (broker s) !! link) eqn:Hq; [|done]. apply H2 in Hq as [_ ?]. congruence. }
  assert (Ep : pending b = pending (broker s)) by done.
  assert (Ea : active b = delete link (active (broker s))) by done.
  assert (Habout : Forall (λ e, link_of e = link) (if Reservation (target p) then [ReservationClosed link] else []))
    by (case_match; repeat constructor).
  constructor; cbn [broker trace serving issued emit upd]; rewrite ?Ep, ?Ea.
  - done.
  - intros l q Hq. rewrite lookup_delete_ne; [by apply H2|]. intros <-. congruence.
  - intros l q d [Hne Hl]%lookup_delete_Some. rewrite lookup_delete_ne by done. by apply H3 with d.
  - intros l. rewrite !lookup_delete_is_Some. intros [? ?]. split; [done|by apply H4].
  - done.
  - intros l. rewrite occurrences_app, H6.
    unfold expected_closes, settled; cbn [broker serving issued emit upd]. rewrite Ep, lookup_delete.
    case_decide; [subst|rewrite (occurrences_about _ link) by done; lia].
    rewrite Hiss, Hs, Hnp. simpl. destruct (Reservation (target p)); count_events.
  - intros l. rewrite occurrences_app, H7.
    unfold expected_answers, answered; cbn [broker serving issued emit upd]. rewrite Ep, lookup_delete.
    case_decide; [subst|rewrite (occurrences_about _ link) by done; lia].
    rewrite Hiss, Hs, Hnp. cbn [is_some negb]. rewrite andb_true_r.
    replace (occurrences is_ready l _) with 0%nat; [lia|]. destruct (Reservation (target p)); count_events.
Qed.

Lemma bind_section_cases binding auth ticket now b b' events outcome :
  bind_section binding auth ticket now b = (b', events, outcome) →
  let link := BindLinkID binding in
  match outcome with
  | Promoted p =>
      pending b !! link = Some p ∧ Before now (expiresAt p) = true ∧
      binding_matches binding auth ticket p = true ∧ b' = promote link p b ∧ events = []
  | Rejected =>
      (b' = b ∧ events = rejectBinding link LinkErrorInvalidBinding) ∨
      ∃ p, pending b !! link = Some p ∧ Before now (expiresAt p) = false ∧
        b' = remove_pending link p b ∧
        events = release_pending link p DeadlineExceeded ++ rejectBinding link LinkErrorInvalidBinding
  end.
Proof.
  unfold bind_section. cbv zeta. destruct (pending b !! BindLinkID binding) as [p|] eqn:Hp.
  - destruct (Before now (expiresAt p)) eqn:He; cbn [negb].
    + destruct (binding_matches binding auth ticket p) eqn:Hm; cbn [negb]; intros; simplify_eq; auto.
    + intros; simplify_eq. right. by exists p.
  - intros; simplify_eq. by left.
Qed.

Lemma system_step_ok s s' : system_step s s' → system_ok s → system_ok s'.
Proof.
  intros Hstep Hs. pose proof (so_broker _ Hs) as Hb. destruct Hstep.
  - by eapply system_ok_offer.
  - apply bind_section_cases in H as [(-> & ->)|(p & Hp & _ & -> & ->)].
    + apply system_ok_quiet; try done. repeat constructor.
    + apply system_ok_remove; try done; repeat constructor.
  - apply bind_section_cases in H as (Hp & _ & _ & -> & ->). by apply system_ok_promote.
  - by eapply system_ok_deliver.
  - by eapply system_ok_finish.
  - unfold cancel in H. destruct (pending (broker s) !! link) as [p|] eqn:Hp; simplify_eq;
      [|apply system_ok_quiet; try done; constructor].
    apply system_ok_remove; try done; case_match;
      first [apply notify_quiet | apply notify_about | constructor].
  - unfold cancelMatching in H. cbv zeta in H. destruct (active (broker s) !! link) as [t|] eqn:Ha.
    { destruct (match allowed with None => _ | Some f => _ end); simplify_eq;
        apply system_ok_quiet; try done; repeat constructor. }
    destruct (pending (broker s) !! link) as [p|] eqn:Hp;
      [|simplify_eq; apply system_ok_quiet; try done; constructor].
    destruct (match allowed with None => _ | Some f => _ end); simplify_eq;
      [|apply system_ok_quiet; try done; constructor].
    apply system_ok_remove; try done; [apply notify_quiet|apply notify_about].
  - apply system_ok_quiet; try done; [|constructor]. destruct Hb. by constructor.
  - apply system_ok_quiet; try done. repeat constructor.
  - unfold acquire_send in H. repeat case_match; simplify_eq.
    apply system_ok_quiet; try done; [|constructor]. destruct Hb. by constructor.
  - apply system_ok_quiet; try done; [|constructor]. destruct Hb. by constructor.
Qed.

Lemma steps_system_ok s s' : rtc system_step s s' → system_ok s → system_ok s'.
Proof. induction 1; [done|]. intros. by eauto using system_step_ok. Qed.

(** ** Cancelling several links *)

Lemma cancel_lookup link notify reason b l :
  pending (fst (cancel link notify reason b)) !! l =
    if decide (link = l) then None else pending b !! l.
Proof.
  unfold cancel. destruct (pending b !! link) as [p|] eqn:Hp; cbn [fst].
  - cbn [remove_pending decrementPendingLocked pending upd]. by rewrite lookup_delete.
  - case_decide; by subst.
Qed.

Lemma cancel_frame link notify reason b :
  active (fst (cancel link notify reason b)) = active b ∧ closed (fst (cancel link notify reason b)) = closed b.
Proof. unfold cancel. by destruct (pending b !! link). Qed.

Lemma cancel_ok link notify reason b : broker_ok b → broker_ok (fst (cancel link notify reason b)).
Proof.
  intros Hb. unfold cancel. destruct (pending b !! link) as [p|] eqn:Hp; cbn [fst]; [|done].
  by apply remove_pending_ok.
Qed.

Lemma cancel_all_spec links reason : ∀ b,
  broker_ok b →
  let b' := fst (cancel_all links reason b) in
  broker_ok b' ∧ active b' = active b ∧ closed b' = closed b ∧
  (∀ l, pending b' !! l = if decide (l ∈ links) then None else pending b !! l).
Proof.
  induction links as [|link links IH]; intros b Hb; [done|].
  cbn [cancel_all]. pose proof (cancel_ok link false reason b Hb) as Hb1.
  pose proof (cancel_frame link false reason b) as [Ea Ec].
  pose proof (cancel_lookup link false reason b) as Hl.
  destruct (cancel link false reason b) as [b1 ev1]. cbn [fst] in *.
  destruct (IH b1 Hb1) as (Hb2 & Ea2 & Ec2 & Hl2).
  destruct (cancel_all links reason b1) as [b2 ev2]. cbn [fst] in *.
  split_and!; [done|congruence|congruence|]. intros l. rewrite Hl2, Hl.
  destruct (decide (link = l)) as [->|Hne].
  - rewrite (decide_True (P := l ∈ l :: links)) by left. by case_decide.
  - repeat case_decide; try done; exfalso; set_solver.
Qed.

Lemma cancel_where_spec ρp ρa P reason b :
  broker_ok b →
  let b' := fst (cancel_where ρp ρa P reason b) in
  broker_ok b' ∧ active b' = active b ∧ closed b' = closed b ∧
  pending b' = filter (λ p, P (target p.2) = false) (pending b) ∧
  (∀ l t, active b !! l = Some t → P t = true →
     ConnectionClosed l ∈ snd (cancel_where ρp ρa P reason b)).
Proof.
  intros Hb. unfold cancel_where. cbv zeta.
  set (ids := omap _ (ρp (pending b))). set (conns := omap _ (ρa (active b))).
  destruct (cancel_all_spec ids reason b Hb) as (Hb' & Ea & Ec & Hl).
  destruct (cancel_all ids reason b) as [b1 ev]. cbn [fst snd] in *.
  split_and!; try done.
  - apply map_eq. intros l. rewrite Hl, map_lookup_filter.
    assert (Hids : l ∈ ids ↔ ∃ p, pending b !! l = Some p ∧ P (target p) = true).
    { unfold ids. rewrite list_elem_of_omap. split.
      - intros ([l' p] & Hin%range_elem & Hp). destruct (P (target p)) eqn:HP; [|done].
        simplify_eq. by exists p.
      - intros (p & Hp & HP). exists (l, p). rewrite range_elem. by rewrite HP. }
    destruct (pending b !! l) as [p|] eqn:Hp; simpl; [|by case_decide].
    destruct (P (target p)) eqn:HP.
    + rewrite decide_True; [done|]. apply Hids. by exists p.
    + rewrite decide_False; [done|]. intros (q & ? & ?)%Hids. congruence.
  - intros l t Ht HP. apply elem_of_app. right. apply list_elem_of_fmap. exists l. split; [done|].
    unfold conns. rewrite list_elem_of_omap. exists (l, t). rewrite range_elem. by rewrite HP.
Qed.

(** A link that has left the pending table never returns to it. *)
Lemma remove_pending_lookup link p b l :
  pending (remove_pending link p b) !! l = if decide (link = l) then None else pending b !! l.
Proof. cbn [remove_pending decrementPendingLocked pending upd]. by rewrite lookup_delete. Qed.

Lemma step_pending s s' link q :
  system_step s s' → issued s !! link = Some q →
  issued s' !! link = Some q ∧
  (pending (broker s') !! link = None ∨ pending (broker s') !! link = pending (broker s) !! link).
Proof.
  intros Hstep Hiss.
  assert (Hrem : ∀ l p, pending (remove_pending l p (broker s)) !! link = None ∨
    pending (remove_pending l p (broker s)) !! link = pending (broker s) !! link).
  { intros l p. rewrite remove_pending_lookup. case_decide; auto. }
  destruct Hstep; cbn [broker issued emit upd].
  - assert (credLinkID creds ≠ link) by congruence. rewrite lookup_insert_ne by done.
    split; [done|]. right.
    match goal with H : commit_pending _ _ _ _ _ = _ |- _ =>
      apply commit_tables in H as (_ & _ & _ & x & _ & _ & _ & _ & ->) end.
    by rewrite lookup_insert_ne.
  - split; [done|].
    match goal with H : bind_section _ _ _ _ _ = _ |- _ =>
      apply bind_section_cases in H as [(-> & _)|(p & _ & _ & -> & _)] end; auto.
  - split; [done|].
    match goal with H : bind_section _ _ _ _ _ = _ |- _ =>
      apply bind_section_cases in H as (_ & _ & _ & -> & _) end. apply Hrem.
  - auto.
  - split; [done|]. right.
    match goal with H : finish _ _ = _ |- _ => unfold finish in H end. by case_match; simplify_eq.
  - split; [done|].
    match goal with H : cancel _ _ _ _ = _ |- _ => unfold cancel in H end. case_match; simplify_eq; auto.
  - split; [done|].
    match goal with H : cancelMatching _ _ _ _ = _ |- _ => unfold cancelMatching in H end.
    repeat case_match; simplify_eq; auto.
  - auto.
  - auto.
  - split; [done|].
    match goal with H : acquire_send _ = _ |- _ => unfold acquire_send in H end.
    repeat case_match; simplify_eq; auto.
  - auto.
Qed.

Lemma gone_forever s s' link q :
  rtc system_step s s' → issued s !! link = Some q →
  pending (broker s) !! link = None → pending (broker s') !! link = None.
Proof.
  intros Hsteps. induction Hsteps as [|s1 s2 s3 Hstep _ IH]; [done|]. intros Hiss Hgone.
  destruct (step_pending _ _ _ _ Hstep Hiss) as [? [?|?]]; apply IH; congruence.
Qed.

(** ** Theorems *)

(** C3: in every interleaving of offers, bindings, cancellations, deliveries
    and shutdown, the six occupancy counters (pending and active links by
    client, by binding and by direction) equal the number of links in the
    tables, and the limits of the broker hold: 1024 pending links, 4096 links in
    all, per client 128 pending and 512 in all, per binding 64 pending and 256
    in all. *)
Theorem broker_limits s :
  rtc system_step initial s →
  let b := broker s in
  Z.of_nat (size (pending b)) <= maxPending ∧
  Z.of_nat (size (pending b)) + Z.of_nat (size (active b)) <= maxActive ∧
  (∀ k, count_get (pendingClients b) k = pending_tally ClientID b k ∧
        count_get (pendingClients b) k <= maxPendingPerClient ∧
        count_get (activeClients b) k = active_tally ClientID b k ∧
        count_get (pendingClients b) k + count_get (activeClients b) k <= maxActivePerClient) ∧
  (∀ k, count_get (pendingBindings b) k = pending_tally brokerBindingKey b k ∧
        count_get (pendingBindings b) k <= maxPendingPerProxy ∧
        count_get (activeBindings b) k = active_tally brokerBindingKey b k ∧
        count_get (pendingBindings b) k + count_get (activeBindings b) k <= maxActivePerProxy) ∧
  (∀ k, count_get (pendingDirections b) k = pending_tally brokerDirectionKey b k ∧
        count_get (activeDirections b) k = active_tally brokerDirectionKey b k).
Proof.
  intros Hs. destruct (so_broker _ (steps_system_ok _ _ Hs initial_ok)).
  cbv zeta. split_and!; try done; intros k;
    rewrite ?(counts_get _ _ _ _ bo_pending_clients0), ?(counts_get _ _ _ _ bo_pending_bindings0),
      ?(counts_get _ _ _ _ bo_active_clients0), ?(counts_get _ _ _ _ bo_active_bindings0),
      ?(counts_get _ _ _ _ bo_pending_directions0), ?(counts_get _ _ _ _ bo_active_directions0); done.
Qed.

(** C5: the reservation handed over with a link is closed exactly once, when
    the link has left both tables, and never while it is pending or being
    served; a requester waiting for the link is answered exactly once, with
    the connection or with an error, whatever races between binding,
    cancellation, expiry and shutdown. *)
Theorem link_settled_once s link p :
  rtc system_step initial s → issued s !! link = Some p →
  occurrences is_close link (trace s) =
    (if Reservation (target p) && settled s link then 1 else 0)%nat ∧
  occurrences is_ready link (trace s) =
    (if ready (callbacks p) && answered s link then 1 else 0)%nat.
Proof.
  intros Hs Hp. destruct (steps_system_ok _ _ Hs initial_ok) as [_ _ _ _ _ Hc Ha].
  rewrite Hc, Ha. unfold expected_closes, expected_answers. by rewrite Hp.
Qed.

(** C4: a data stream is attached to a link exactly when the link is pending
    and has not expired, and the binding repeats the client, session, traffic
    type, binding, authentication context and direction of the offer and
    presents a ticket with the right digest; the link then moves from the
    pending to the active table.  A refused stream is told so; when the link has
    expired, it leaves the pending table, its reservation is closed and its
    requester answered, and otherwise the broker is unchanged. *)
Theorem bind_authorised binding auth ticket now b b' events outcome :
  bind_section binding auth ticket now b = (b', events, outcome) →
  let link := BindLinkID binding in
  let refusal := [BindResult link (Some LinkErrorInvalidBinding)] in
  (∀ p, outcome = Promoted p ↔
    pending b !! link = Some p ∧ now < expiresAt p ∧
    ClientID (target p) = BindClientID binding ∧ SessionID (target p) = BindSessionID binding ∧
    TrafficType (target p) = BindProxyType binding ∧ BindingID (target p) = BindBindingID binding ∧
    Authentication (target p) = auth ∧ ticketDigest p = ticket ∧
    normalizeLinkDirection (Direction (target p)) = normalizeLinkDirection (BindDirection binding)) ∧
  match outcome with
  | Promoted p => pending b' = delete link (pending b) ∧ active b' = <[link := target p]> (active b) ∧ events = []
  | Rejected =>
    match pending b !! link with
    | Some p =>
      if bool_decide (expiresAt p <= now)
      then pending b' = delete link (pending b) ∧ active b' = active b ∧ events = release_pending link p DeadlineExceeded ++ refusal
      else b' = b ∧ events = refusal
    | None => b' = b ∧ events = refusal
    end
  end.
Proof.
  intros E link refusal. unfold bind_section in E. cbv zeta in E. fold link in E.
  destruct (pending b !! link) as [q|] eqn:Hq; cycle 1.
  { simplify_eq. split; [|done]. intros p. split; [done|by intros (? & _)]. }
  unfold Before in E. destruct (Z.ltb_spec now (expiresAt q)) as [Hlt|Hge]; cbn [negb] in E; cycle 1.
  { simplify_eq. rewrite bool_decide_eq_true_2 by done. split; [|done]. intros p. split; [done|]. intros (? & ? & _). simplify_eq. lia. }
  rewrite bool_decide_eq_false_2 by lia.
  destruct (binding_matches binding auth ticket q) eqn:Hm; cbn [negb] in E; simplify_eq.
  - unfold binding_matches in Hm. bool_to_prop. split; [|done]. intros p. split; [|by intros (? & _); simplify_eq].
    intros; simplify_eq. split_and!; done.
  - split; [|done]. intros p. split; [done|]. intros (? & _ & H1 & H2 & H3 & H4 & H5 & H6 & H7). simplify_eq.
    unfold binding_matches in Hm. by rewrite !bool_decide_eq_true_2 in Hm.
Qed.

(** A ticket is good for one stream: once a link has been offered and has
    left the pending table, by promotion, cancellation or expiry, every later
    binding for it is refused and changes nothing, in every interleaving. *)
Theorem ticket_single_use s s' p binding auth ticket now :
  rtc system_step initial s → issued s !! BindLinkID binding = Some p →
  pending (broker s) !! BindLinkID binding = None → rtc system_step s s' →
  bind_section binding auth ticket now (broker s') =
    (broker s', [BindResult (BindLinkID binding) (Some LinkErrorInvalidBinding)], Rejected).
Proof.
  intros Hs Hiss Hgone Hsteps. unfold bind_section. cbv zeta.
  by rewrite (gone_forever _ _ _ _ Hsteps Hiss Hgone).
Qed.

(** A successful offer leaves the client within the number of active
    links its policy allows for that direction, and a stream that repeats the
    offer and presents its ticket before the expiry is attached to it. *)
Theorem offer_then_bind t cb creds now b b' offer binding now' :
  broker_ok b → pending b !! credLinkID creds = None → active b !! credLinkID creds = None →
  createPending t cb (Some creds) now b = (b', Ok offer) →
  BindLinkID binding = OfferLinkID offer → BindClientID binding = ClientID t →
  BindSessionID binding = SessionID t → BindProxyType binding = ProxyType offer →
  BindBindingID binding = OfferBindingID offer →
  normalizeLinkDirection (BindDirection binding) = normalizeLinkDirection (Direction t) →
  now' < now + pendingTimeout →
  (0 < MaxActiveLinks t →
   count_get (pendingDirections b') (brokerDirectionKey t) +
   count_get (activeDirections b') (brokerDirectionKey t) <= MaxActiveLinks t) ∧
  ∃ p, snd (bind_section binding (Authentication t) (credDigest creds) now' b') = Promoted p ∧ target p = t.
Proof.
  intros Hb Hp Ha E Hid Hc Hse Hpt Hbid Hdir Hnow.
  assert (Ecommit : commit_pending t cb creds now b = (b', Ok offer)).
  { unfold createPending in E. by destruct (closed b || _). }
  destruct (commit_tables _ _ _ _ _ _ _ Ecommit) as (Hlim & Hcl & Ea & p & <- & Hcb & Htk & Hexp & Ep).
  pose proof (limit_free _ _ Hb Hlim) as (_ & _ & _ & _ & _ & _ & Hdirlim).
  pose proof (commit_ok (target p) cb creds now b offer Hb Hp Ha) as Hok. rewrite Ecommit in Hok.
  specialize (Hok eq_refl). cbn [fst] in Hok. split.
  - intros Hmax. specialize (Hdirlim Hmax).
    rewrite (counts_get _ _ _ _ (bo_pending_directions _ Hok)), (counts_get _ _ _ _ (bo_active_directions _ Hok)).
    rewrite Ep, Ea, keyed_insert by done. case_decide; lia.
  - unfold commit_pending in Ecommit. rewrite Hcl, Hlim in Ecommit. cbn [orb] in Ecommit.
    injection Ecommit as _ <-. cbn in Hid, Hpt, Hbid. exists p. split; [|done].
    unfold bind_section. cbv zeta. rewrite Hid, Ep, lookup_insert_eq. unfold Before, Add in *.
    rewrite Hexp, (proj2 (Z.ltb_lt now' (now + pendingTimeout))) by done. cbn [negb].
    unfold binding_matches. rewrite Hc, Hse, Hpt, Hbid, Hdir, Htk.
    by rewrite !bool_decide_eq_true_2 by done.
Qed.

(** Cancelling a session retires exactly the pending links of that
    session, closes the connection of every active one, and touches no link
    of any other session, whatever order the tables are visited in. *)
Theorem cancel_session_complete ρp ρa client session b :
  broker_ok b →
  let '(b', events) := CancelSession ρp ρa client session b in
  broker_ok b' ∧ active b' = active b ∧
  (∀ l p, pending b' !! l = Some p ↔
     pending b !! l = Some p ∧ ¬ (ClientID (target p) = client ∧ SessionID (target p) = session)) ∧
  (∀ l t, active b !! l = Some t → ClientID t = client → SessionID t = session →
     ConnectionClosed l ∈ events).
Proof.
  intros Hb. unfold CancelSession. set (P := λ t : Target, _ && _).
  destruct (cancel_where_spec ρp ρa P Canceled b Hb) as (Hb' & Ha & _ & Hp & Hc).
  destruct (cancel_where ρp ρa P Canceled b) as [b' events]. cbn [fst snd] in *.
  assert (HP : ∀ t, P t = true ↔ ClientID t = client ∧ SessionID t = session).
  { intros t. unfold P. by rewrite andb_true_iff, !bool_decide_eq_true. }
  split_and!; [done|done| |].
  - intros l p. rewrite Hp, map_lookup_filter_Some. cbn [snd].
    by rewrite <- (HP (target p)), not_true_iff_false.
  - intros l t Ht Hcl Hse. apply (Hc l t Ht). by apply HP.
Qed.

(** Shutting the broker down empties the pending table, closes every
    active connection, and from then on refuses every offer and every send. *)
Theorem close_drains ρp ρa b :
  broker_ok b → closed b = false →
  let '(b', events) := Close ρp ρa b in
  pending b' = ∅ ∧ active b' = active b ∧
  (∀ l t, active b !! l = Some t → ConnectionClosed l ∈ events) ∧
  (∀ t cb creds now, createPending t cb creds now b' = (b', Err ErrCapacityReached)) ∧
  acquire_send b' = None.
Proof.
  intros Hb Hcl. unfold Close. rewrite Hcl. set (b1 := b <| closed := true |>).
  assert (Hb1 : broker_ok b1) by (destruct Hb; by constructor).
  destruct (cancel_where_spec ρp ρa (λ _, true) ErrClosed b1 Hb1) as (_ & Ha & Hc & Hp & Hconn).
  destruct (cancel_where ρp ρa (λ _, true) ErrClosed b1) as [b' events]. cbn [fst snd] in *.
  split_and!.
  - rewrite Hp. apply map_empty. intros l. apply map_lookup_filter_None. right. by intros.
  - done.
  - intros l t Ht. by apply (Hconn l t).
  - intros. unfold createPending. by rewrite Hc.
  - unfold acquire_send. by rewrite Hc.
Qed.

(** A client can cancel only Forward links of its own session; for any
    other link the call has no effect at all. *)
Theorem cancel_forward_owned client session link b :
  let owned t := ClientID t = client ∧ SessionID t = session ∧
                 normalizeLinkDirection (Direction t) = LinkDirectionForward in
  (∀ t, active b !! link = Some t → ¬ owned t) →
  (∀ p, pending b !! link = Some p → ¬ owned (target p)) →
  CancelForwardLink client session link b = (b, []).
Proof.
  intros owned Ha Hp. unfold CancelForwardLink, cancelMatching. cbv zeta.
  assert (HP : ∀ t, ¬ owned t → bool_decide (ClientID t = client) && bool_decide (SessionID t = session) &&
    bool_decide (normalizeLinkDirection (Direction t) = LinkDirectionForward) = false).
  { intros t Hno. apply not_true_iff_false. rewrite !andb_true_iff, !bool_decide_eq_true.
    intros [[? ?] ?]. by apply Hno. }
  destruct (active b !! link) as [t|] eqn:Ht; [by rewrite HP by (by apply Ha)|].
  destruct (pending b !! link) as [p|] eqn:Hq; [by rewrite HP by (by apply Hp)|done].
Qed.

(** ** Witnesses *)

Module DemoBroker.
Definition auth : Context :=
  {| Mode := ModeShared; ContextClientID := ""; CredentialID := []; Generation := 1 |}.
Definition tgt : Target :=
  {| ClientID := "c"; SessionID := "s"; BindingName := "web"; TrafficType := "tcp"; BindingID := "b1";
     Writer := true; MaxDatagramSize := 0; WriteTimeout := 0; Authentication := auth;
     MaxActiveLinks := 4; Direction := ""; Reservation := true |}.
Definition creds : Credentials := {| credLinkID := "l1"; credTicket := "t"; credDigest := [x01] |}.
Definition link : brokerPendingLink :=
  {| target := tgt; linkID := "l1"; ticketDigest := [x01]; expiresAt := Add Second pendingTimeout;
     callbacks := open_callbacks |}.
Definition offer : OpenLink :=
  {| OfferLinkID := "l1"; ProxyName := "web"; ProxyType := "tcp"; OfferBindingID := "b1"; Ticket := "t";
     ExpiresAtUnixMS := UnixMilli (Add Second pendingTimeout); OfferMaxDatagramSize := 0;
     WriteTimeoutMS := 0 |}.
Definition binding : BindLink :=
  {| BindClientID := "c"; BindSessionID := "s"; BindLinkID := "l1"; BindProxyType := "tcp";
     BindBindingID := "b1"; BindTicket := "t"; BindDirection := "proxy" |}.

Definition offered : Broker := fst (commit_pending tgt open_callbacks creds Second NewBroker).
Lemma offered_eq : commit_pending tgt open_callbacks creds Second NewBroker = (offered, Ok offer).
Proof. apply (pair_snd (commit_pending tgt open_callbacks creds Second NewBroker)). vm_compute. reflexivity. Qed.

Lemma offered_ok : broker_ok offered.
Proof.
  apply (commit_ok tgt open_callbacks creds Second NewBroker offer); [apply NewBroker_ok|done|done|].
  by rewrite offered_eq.
Qed.

(** The link offered, then cancelled. *)
Definition sys1 : System :=
  initial <| broker := offered |> <| issued := <["l1" := link]> (issued initial) |>.
Definition sys2 : System :=
  emit (fst (cancel "l1" true Canceled offered)) (snd (cancel "l1" true Canceled offered)) sys1.

Lemma run1 : rtc system_step initial sys1.
Proof.
  apply rtc_once. apply (step_offer initial tgt open_callbacks creds Second offered offer link).
  - apply offered_eq.
  - reflexivity.
  - reflexivity.
  - vm_compute. reflexivity.
Qed.

Lemma run2 : rtc system_step initial sys2.
Proof.
  eapply rtc_r; [apply run1|]. apply (step_cancel sys1 "l1" true Canceled). reflexivity.
Qed.
End DemoBroker.

Lemma broker_limits_witness : Z.of_nat (size (pending DemoBroker.offered)) <= maxPending.
Proof. apply (broker_limits DemoBroker.sys1). apply DemoBroker.run1. Defined.

Lemma link_settled_once_witness :
  occurrences is_close "l1" (trace DemoBroker.sys2) = 1%nat ∧
  occurrences is_ready "l1" (trace DemoBroker.sys2) = 1%nat.
Proof.
  apply (link_settled_once DemoBroker.sys2 "l1" DemoBroker.link).
  - apply DemoBroker.run2.
  - reflexivity.
Defined.

Lemma bind_authorised_witness :
  snd (bind_section DemoBroker.binding DemoBroker.auth [x01] (2 * Second) DemoBroker.offered) =
    Promoted DemoBroker.link.
Proof.
  set (out := bind_section DemoBroker.binding DemoBroker.auth [x01] (2 * Second) DemoBroker.offered).
  apply (bind_authorised DemoBroker.binding DemoBroker.auth [x01] (2 * Second) DemoBroker.offered
    (fst (fst out)) (snd (fst out)) (snd out)).
  - fold out. destruct out as [[? ?] ?]. reflexivity.
  - split_and!; reflexivity.
Defined.

Lemma ticket_single_use_witness :
  bind_section DemoBroker.binding DemoBroker.auth [x01] (2 * Second) (broker DemoBroker.sys2) =
    (broker DemoBroker.sys2, [BindResult "l1" (Some LinkErrorInvalidBinding)], Rejected).
Proof.
  apply (ticket_single_use DemoBroker.sys2 DemoBroker.sys2 DemoBroker.link DemoBroker.binding).
  - apply DemoBroker.run2.
  - reflexivity.
  - vm_compute. reflexivity.
  - apply rtc_refl.
Defined.

Lemma offer_then_bind_witness :
  ∃ p, snd (bind_section DemoBroker.binding DemoBroker.auth [x01] (2 * Second) DemoBroker.offered) =
    Promoted p ∧ target p = DemoBroker.tgt.
Proof.
  apply (offer_then_bind DemoBroker.tgt open_callbacks DemoBroker.creds Second NewBroker DemoBroker.offered
    DemoBroker.offer DemoBroker.binding (2 * Second)).
  - apply NewBroker_ok.
  - reflexivity.
  - reflexivity.
  - apply DemoBroker.offered_eq.
  - reflexivity.
  - reflexivity.
  - reflexivity.
  - reflexivity.
  - reflexivity.
  - reflexivity.
  - reflexivity.
Defined.

Lemma cancel_session_complete_witness :
  pending (fst (CancelSession any_range any_range "c" "s" DemoBroker.offered)) !! "l1" = None.
Proof.
  pose proof (cancel_session_complete any_range any_range "c" "s" DemoBroker.offered DemoBroker.offered_ok)
    as Hc.
  destruct (CancelSession any_range any_range "c" "s" DemoBroker.offered) as [b' events].
  destruct Hc as (_ & _ & Hp & _). cbn [fst].
  destruct (pending b' !! "l1") as [p|] eqn:E; [|reflexivity].
  exfalso. apply Hp in E as [E Hno]. apply Hno.
  assert (p = DemoBroker.link) as -> by (vm_compute in E; injection E as <-; reflexivity).
  split; reflexivity.
Defined.

Lemma close_drains_witness : pending (fst (Close any_range any_range DemoBroker.offered)) = ∅.
Proof.
  pose proof (close_drains any_range any_range DemoBroker.offered DemoBroker.offered_ok eq_refl) as Hc.
  destruct (Close any_range any_range DemoBroker.offered) as [b' events]. apply Hc.
Defined.

Lemma cancel_forward_owned_witness :
  CancelForwardLink "c" "s" "l1" DemoBroker.offered = (DemoBroker.offered, []).
Proof.
  apply cancel_forward_owned.
  - intros t Ht. discriminate Ht.
  - intros p Hp. assert (p = DemoBroker.link) as -> by (vm_compute in Hp; injection Hp as <-; reflexivity).
    intros (_ & _ & Hd). discriminate Hd.
Defined.
