(* ===== verification/UdpLimiter.v ===== *)
(** * UDP association accounting ([internal/proxy/udp/limiter.go])

    The process-wide limiter of UDP associations and the leases it hands out.
    [Activate] and [Close] of a lease update the lease under the mutex of the
    lease and the limiter under the mutex of the limiter, in two critical
    sections between which any other call may run; [ReserveQueue] and
    [ReleaseQueue] hold both.  Each critical section is a function here, and
    [exec] runs one of them on the shared state, so that a list of commands is
    an interleaving of the calls of any number of goroutines. *)

From S2P Require Import Prelude GoTime NetAddr ConfigUDP.

Local Open Scope Z_scope.

(** ** Rates *)

Record rateCounter := { window : Time; count : Z }.
#[export] Instance rate_counter_eta : Eta rateCounter := λ r, {| window := window r; count := count r |}.

Definition zero_rate : rateCounter := {| window := zero_time; count := 0 |}.

Definition rateAllowed (counter : rateCounter) (now : Time) (limit : Z) : bool :=
  let w := Truncate now Second in
  if negb (window counter =? w) then 0 <? limit else count counter <? limit.

(** Reading an absent key of the map yields the zero counter. *)
Definition rate_get (counters : gmap string rateCounter) (key : string) : rateCounter :=
  default zero_rate (counters !! key).

Definition mapRateAllowed (counters : gmap string rateCounter) (key : string) (now : Time)
    (limit : Z) : bool :=
  rateAllowed (rate_get counters key) now limit.

Definition incrementRate (counter : rateCounter) (now : Time) : rateCounter :=
  let w := Truncate now Second in
  if negb (window counter =? w) then {| window := w; count := 1 |}
  else counter <| count := count counter + 1 |>.

(** ** The limiter *)

Record Limiter := {
  configuration : UDPConfig;
  total : Z;
  pending : Z;
  queuedBytes : Z;
  clients : gmap string Z;
  pendingClients : gmap string Z;
  proxies : gmap string Z;
  pendingProxies : gmap string Z;
  sources : gmap Addr Z;
  globalRate : rateCounter;
  clientRates : gmap string rateCounter;
  proxyRates : gmap string rateCounter;
  rateCleanupWindow : Time
}.
#[export] Instance limiter_eta : Eta Limiter := λ l,
  {| configuration := configuration l; total := total l; pending := pending l;
     queuedBytes := queuedBytes l; clients := clients l; pendingClients := pendingClients l;
     proxies := proxies l; pendingProxies := pendingProxies l; sources := sources l;
     globalRate := globalRate l; clientRates := clientRates l; proxyRates := proxyRates l;
     rateCleanupWindow := rateCleanupWindow l |}.

Record Stats := { Associations : Z; PendingAssociations : Z; QueuedBytes : Z }.

Definition SnapshotStats (l : Limiter) : Stats :=
  {| Associations := total l; PendingAssociations := pending l; QueuedBytes := queuedBytes l |}.

Definition NewLimiter (c : UDPConfig) : Limiter :=
  {| configuration := c; total := 0; pending := 0; queuedBytes := 0; clients := ∅;
     pendingClients := ∅; proxies := ∅; pendingProxies := ∅; sources := ∅; globalRate := zero_rate;
     clientRates := ∅; proxyRates := ∅; rateCleanupWindow := zero_time |}.

Definition UpdateConfiguration (c : UDPConfig) (l : Limiter) : Limiter := l <| configuration := c |>.

Record AssociationLease := {
  clientID : string;
  proxyKey : string;
  source : Addr;
  lease_pending : bool;
  queued : Z;
  closed : bool
}.
#[export] Instance lease_eta : Eta AssociationLease := λ l,
  {| clientID := clientID l; proxyKey := proxyKey l; source := source l;
     lease_pending := lease_pending l; queued := queued l; closed := closed l |}.

Section cleanup.
Context (ρ : go_range string rateCounter).

Definition stale (w : Time) (_ : string) (counter : rateCounter) : bool := negb (window counter =? w).

Definition cleanupRates (now : Time) (l : Limiter) : Limiter :=
  let w := Truncate now Second in
  if rateCleanupWindow l =? w then l
  else
    let l := l <| rateCleanupWindow := w |> in
    let l := l <| clientRates := delete_when (stale w) (ρ (clientRates l)) (clientRates l) |> in
    l <| proxyRates := delete_when (stale w) (ρ (proxyRates l)) (proxyRates l) |>.

Definition proxy_key (client proxyName : string) : string :=
  (client ++ String (Ascii.ascii_of_nat 0) proxyName)%string.

Definition refused (client key : string) (src : Addr) (now : Time) (l : Limiter) : bool :=
  let c := configuration l in
  (MaxAssociations c <=? total l) ||
  (MaxAssociationsPerClient c <=? count_get (clients l) client) ||
  (MaxAssociationsPerProxy c <=? count_get (proxies l) key) ||
  (IsValid src && (MaxAssociationsPerSourceIP c <=? count_get (sources l) src)) ||
  (MaxPendingAssociations c <=? pending l) ||
  (MaxPendingAssociationsPerClient c <=? count_get (pendingClients l) client) ||
  (MaxPendingAssociationsPerProxy c <=? count_get (pendingProxies l) key) ||
  negb (rateAllowed (globalRate l) now (MaxNewAssociationsPerSecond c)) ||
  negb (mapRateAllowed (clientRates l) client now (MaxNewAssociationsPerSecondPerClient c)) ||
  negb (mapRateAllowed (proxyRates l) key now (MaxNewAssociationsPerSecondPerProxy c)).

Definition charge_association (client key : string) (src : Addr) (now : Time) (l : Limiter) : Limiter :=
  let l := l <| globalRate := incrementRate (globalRate l) now |> in
  let l := l <| clientRates :=
    <[client := incrementRate (rate_get (clientRates l) client) now]> (clientRates l) |> in
  let l := l <| proxyRates :=
    <[key := incrementRate (rate_get (proxyRates l) key) now]> (proxyRates l) |> in
  let l := l <| total := total l + 1 |> in
  let l := l <| pending := pending l + 1 |> in
  let l := l <| clients := count_incr (clients l) client |> in
  let l := l <| pendingClients := count_incr (pendingClients l) client |> in
  let l := l <| proxies := count_incr (proxies l) key |> in
  let l := l <| pendingProxies := count_incr (pendingProxies l) key |> in
  if IsValid src then l <| sources := count_incr (sources l) src |> else l.

Definition acquire (client proxyName : string) (src : Addr) (now : Time) (l : Limiter) :
    option AssociationLease * Limiter :=
  let src := Unmap src in
  let key := proxy_key client proxyName in
  let l := cleanupRates now l in
  if refused client key src now l then (None, l)
  else
    (Some {| clientID := client; proxyKey := key; source := src; lease_pending := true;
             queued := 0; closed := false |},
     charge_association client key src now l).

Definition Acquire (client proxyName : string) (src : Addr) (now : Time) (l : Limiter) :=
  acquire client proxyName src now l.

Definition AcquireWithoutSource (client name : string) (now : Time) (l : Limiter) :=
  acquire client name AddrZero now l.
End cleanup.

(** ** The leases *)

Definition decrement {K} `{Countable K} (values : gmap K Z) (key : K) : gmap K Z := count_decr values key.

(** The part of [Activate] under the mutex of the lease: [None] returns at
    once, otherwise the part under the mutex of the limiter follows. *)
Definition Activate_lease (lease : AssociationLease) : option AssociationLease :=
  if closed lease || negb (lease_pending lease) then None
  else Some (lease <| lease_pending := false |>).

Definition Activate_limiter (lease : AssociationLease) (l : Limiter) : Limiter :=
  let l := l <| pending := pending l - 1 |> in
  let l := l <| pendingClients := decrement (pendingClients l) (clientID lease) |> in
  l <| pendingProxies := decrement (pendingProxies l) (proxyKey lease) |>.

Definition ReserveQueue (size : Z) (lease : AssociationLease) (l : Limiter) :
    bool * AssociationLease * Limiter :=
  if closed lease || (MaxQueuedBytesPerAssociation (configuration l) <? queued lease + size)
  then (false, lease, l)
  else if MaxQueuedBytes (configuration l) <? queuedBytes l + size then (false, lease, l)
  else (true, lease <| queued := queued lease + size |>, l <| queuedBytes := queuedBytes l + size |>).

Definition ReleaseQueue (size : Z) (lease : AssociationLease) (l : Limiter) : AssociationLease * Limiter :=
  if closed lease then (lease, l)
  else (lease <| queued := queued lease - size |>, l <| queuedBytes := queuedBytes l - size |>).

(** The part of [Close] under the mutex of the lease, with the local variables
    [pending] and [queued] it hands to the part under the mutex of the
    limiter. *)
Definition Close_lease (lease : AssociationLease) : option (AssociationLease * (bool * Z)) :=
  if closed lease then None
  else
    let lease := lease <| closed := true |> in
    Some (lease <| queued := 0 |>, (lease_pending lease, queued lease)).

Definition Close_limiter (lease : AssociationLease) (was_pending : bool) (was_queued : Z) (l : Limiter) :
    Limiter :=
  let l := l <| total := total l - 1 |> in
  let l := l <| clients := decrement (clients l) (clientID lease) |> in
  let l := l <| proxies := decrement (proxies l) (proxyKey lease) |> in
  let l := if IsValid (source lease)
           then l <| sources := decrement (sources l) (source lease) |> else l in
  let l := if was_pending
           then Activate_limiter lease l else l in
  l <| queuedBytes := queuedBytes l - was_queued |>.

(** ** The shared state and its interleavings *)

(** [activating] holds the leases whose [Activate] is between its two critical
    sections, [closing] those whose [Close] is, with the locals of that call.
    [granted] records the successful acquisitions. *)
Record World := {
  limiter : Limiter;
  leases : gmap nat AssociationLease;
  activating : gset nat;
  closing : gmap nat (bool * Z);
  granted : list (Time * string * string)
}.
#[export] Instance world_eta : Eta World := λ w,
  {| limiter := limiter w; leases := leases w; activating := activating w; closing := closing w;
     granted := granted w |}.

Definition start (c : UDPConfig) : World :=
  {| limiter := NewLimiter c; leases := ∅; activating := ∅; closing := ∅; granted := [] |}.

Inductive command :=
| DoAcquire (client proxyName : string) (src : Addr) (now : Time)
| DoActivate (lease : nat)
| FinishActivate (lease : nat)
| DoReserve (lease : nat) (size : Z)
| DoRelease (lease : nat) (size : Z)
| DoClose (lease : nat)
| FinishClose (lease : nat)
| DoConfigure (c : UDPConfig).

Section world.
Context (ρ : go_range string rateCounter).

(** A command that names a lease nobody holds, or the second half of a call
    that is not under way, does nothing. *)
Definition exec (w : World) (cmd : command) : World :=
  match cmd with
  | DoAcquire client name src now =>
    match acquire ρ client name src now (limiter w) with
    | (None, l) => w <| limiter := l |>
    | (Some lease, l) =>
      let w := w <| limiter := l |> in
      let w := w <| leases := <[fresh (dom (leases w)) := lease]> (leases w) |> in
      w <| granted := (now, client, proxyKey lease) :: granted w |>
    end
  | DoActivate i =>
    match leases w !! i ≫= Activate_lease with
    | Some lease => (w <| leases := <[i := lease]> (leases w) |>) <| activating := {[i]} ∪ activating w |>
    | None => w
    end
  | FinishActivate i =>
    match leases w !! i with
    | Some lease =>
      if decide (i ∈ activating w)
      then (w <| limiter := Activate_limiter lease (limiter w) |>) <| activating := activating w ∖ {[i]} |>
      else w
    | None => w
    end
  | DoReserve i size =>
    match leases w !! i with
    | Some lease =>
      let '(_, lease, l) := ReserveQueue size lease (limiter w) in
      (w <| limiter := l |>) <| leases := <[i := lease]> (leases w) |>
    | None => w
    end
  | DoRelease i size =>
    match leases w !! i with
    | Some lease =>
      let '(lease, l) := ReleaseQueue size lease (limiter w) in
      (w <| limiter := l |>) <| leases := <[i := lease]> (leases w) |>
    | None => w
    end
  | DoClose i =>
    match leases w !! i ≫= Close_lease with
    | Some (lease, locals) =>
      (w <| leases := <[i := lease]> (leases w) |>) <| closing := <[i := locals]> (closing w) |>
    | None => w
    end
  | FinishClose i =>
    match leases w !! i, closing w !! i with
    | Some lease, Some (was_pending, was_queued) =>
      (w <| limiter := Close_limiter lease was_pending was_queued (limiter w) |>)
        <| closing := delete i (closing w) |>
    | _, _ => w
    end
  | DoConfigure c => w <| limiter := UpdateConfiguration c (limiter w) |>
  end.

Definition run (w : World) (cmds : list command) : World := foldl exec w cmds.
End world.

(** ** What the counters count *)

(** An item of a table is charged to at most one key. *)
Definition charged_by {A K} (f : nat → A → option K) (i : nat) (a : A) (k : K) : Prop := f i a = Some k.
#[export] Instance charged_by_dec {A K} `{EqDecision K} (f : nat → A → option K) i a k :
  Decision (charged_by f i a k).
Proof. unfold charged_by. apply _. Defined.

Definition one_if {K} `{EqDecision K} (o : option K) (k : K) : Z := if decide (o = Some k) then 1 else 0.

Section ledger.
Context {A K : Type} `{Countable K}.
Implicit Types (f : nat → A → option K) (items : gmap nat A) (m : gmap K Z).

Lemma tally_frame f f' items k :
  (∀ j a, items !! j = Some a → f' j a = f j a) →
  tally (charged_by f') items k = tally (charged_by f) items k.
Proof.
  intros Hf. unfold tally. do 2 f_equal. apply map_filter_ext.
  intros j a Ha. unfold charged_by. simpl. by rewrite Hf.
Qed.

(** Writing one item, while the charges of the others stay. *)
Lemma tally_set f f' items i a' k :
  (∀ j a, j ≠ i → items !! j = Some a → f' j a = f j a) →
  tally (charged_by f') (<[i := a']> items) k =
    tally (charged_by f) items k - one_if (items !! i ≫= f i) k + one_if (f' i a') k.
Proof.
  intros Hf.
  assert (Hd : tally (charged_by f') (delete i items) k = tally (charged_by f) (delete i items) k).
  { apply tally_frame. intros j a Hj. apply lookup_delete_Some in Hj as [? Hj]. apply Hf; congruence. }
  rewrite <- insert_delete_eq, tally_insert by apply lookup_delete_eq. rewrite Hd.
  unfold charge, charged_by, one_if. destruct (items !! i) as [a|] eqn:Ei; simpl.
  - rewrite (tally_delete _ _ _ a) by done. unfold charge, charged_by. repeat case_decide; first [lia | congruence].
  - rewrite delete_id by done. repeat case_decide; simplify_eq; lia.
Qed.

Lemma counts_set_same f f' m items i a' :
  counts (charged_by f) m items →
  (∀ j a, j ≠ i → items !! j = Some a → f' j a = f j a) →
  items !! i ≫= f i = f' i a' →
  counts (charged_by f') m (<[i := a']> items).
Proof.
  intros [Hp Hk] Hf Hi. split; [done|]. intros k. rewrite (tally_set f) by done. rewrite Hi, Hk. lia.
Qed.

Lemma counts_set_incr f f' m items i a' key :
  counts (charged_by f) m items →
  (∀ j a, j ≠ i → items !! j = Some a → f' j a = f j a) →
  items !! i ≫= f i = None → f' i a' = Some key →
  counts (charged_by f') (count_incr m key) (<[i := a']> items).
Proof.
  intros [Hp Hk] Hf Ho Hn. split; [by apply count_incr_positive|]. intros k.
  rewrite count_incr_get, (tally_set f), Hk by done. rewrite Ho, Hn. unfold one_if.
  repeat case_decide; first [lia | congruence].
Qed.

Lemma counts_set_decr f f' m items i a' key :
  counts (charged_by f) m items →
  (∀ j a, j ≠ i → items !! j = Some a → f' j a = f j a) →
  items !! i ≫= f i = Some key → f' i a' = None →
  counts (charged_by f') (count_decr m key) (<[i := a']> items).
Proof.
  intros [Hp Hk] Hf Ho Hn. split; [by apply count_decr_positive|]. intros k.
  pose proof (tally_nonneg (charged_by f') (<[i := a']> items) k) as Hge.
  rewrite count_decr_get by done. rewrite (tally_set f), Ho, Hn in Hge by done.
  rewrite (tally_set f), Hk by done. rewrite Ho, Hn. unfold one_if in *.
  repeat case_decide; first [lia | congruence].
Qed.
End ledger.

(** The leases selected by [h], charged to a key of theirs. *)
Definition charged_if {K} (h : nat → AssociationLease → bool) (key : AssociationLease → option K)
    (i : nat) (a : AssociationLease) : option K :=
  if h i a then key a else None.

Definition source_key (a : AssociationLease) : option Addr :=
  if IsValid (source a) then Some (source a) else None.

Abbreviation number h items := (tally (charged_by (charged_if h (λ _, Some tt))) items tt).
Abbreviation number_of_client h items k := (tally (charged_by (charged_if h (λ a, Some (clientID a)))) items k).
Abbreviation number_of_proxy h items k := (tally (charged_by (charged_if h (λ a, Some (proxyKey a)))) items k).
Abbreviation number_of_source h items k := (tally (charged_by (charged_if h source_key)) items k).

(** A total and two counter maps agree with the selected leases. *)
Record books_ok (t : Z) (cs ps : gmap string Z) (h : nat → AssociationLease → bool)
    (items : gmap nat AssociationLease) : Prop := {
  bk_total : t = number h items;
  bk_clients : counts (charged_by (charged_if h (λ a, Some (clientID a)))) cs items;
  bk_proxies : counts (charged_by (charged_if h (λ a, Some (proxyKey a)))) ps items
}.

Definition sources_ok (ss : gmap Addr Z) (h : nat → AssociationLease → bool)
    (items : gmap nat AssociationLease) : Prop :=
  counts (charged_by (charged_if h source_key)) ss items.

Definition same_identity (a a' : AssociationLease) : Prop :=
  clientID a' = clientID a ∧ proxyKey a' = proxyKey a ∧ source a' = source a.

Definition frame_off {B} (i : nat) (items : gmap nat AssociationLease)
    (h h' : nat → AssociationLease → B) : Prop :=
  ∀ j a, j ≠ i → items !! j = Some a → h' j a = h j a.

Section books.
Context (items : gmap nat AssociationLease) (i : nat) (h h' : nat → AssociationLease → bool).
Context (Hframe : frame_off i items h h').

Local Lemma charged_if_frame {K} (key : AssociationLease → option K) j a :
  j ≠ i → items !! j = Some a → charged_if h' key j a = charged_if h key j a.
Proof using Hframe. intros. unfold charged_if. by rewrite (Hframe j a). Qed.

Local Lemma number_set a' :
  number h' (<[i := a']> items) =
    number h items - (if default false (h i <$> items !! i) then 1 else 0) + (if h' i a' then 1 else 0).
Proof using Hframe.
  rewrite (tally_set (charged_if h (λ _, Some tt))) by apply charged_if_frame.
  unfold charged_if, one_if. destruct (items !! i) as [a|]; simpl;
    repeat case_match; repeat case_decide; first [done | congruence].
Qed.

Lemma books_same t cs ps a a' :
  books_ok t cs ps h items → items !! i = Some a → same_identity a a' → h' i a' = h i a →
  books_ok t cs ps h' (<[i := a']> items).
Proof using Hframe.
  intros [Ht Hc Hp] Hi (Ec & Ep & _) Eh. constructor.
  - rewrite number_set, Hi, Ht, Eh. simpl. lia.
  - eapply counts_set_same; [done|apply charged_if_frame|].
    rewrite Hi. simpl. unfold charged_if. by rewrite Eh, Ec.
  - eapply counts_set_same; [done|apply charged_if_frame|].
    rewrite Hi. simpl. unfold charged_if. by rewrite Eh, Ep.
Qed.

Lemma books_drop t cs ps a a' :
  books_ok t cs ps h items → items !! i = Some a → h i a = true → h' i a' = false →
  books_ok (t - 1) (count_decr cs (clientID a)) (count_decr ps (proxyKey a)) h' (<[i := a']> items).
Proof using Hframe.
  intros [Ht Hc Hp] Hi Eh Eh'. constructor.
  - rewrite number_set, Hi, Ht, Eh'. simpl. rewrite Eh. lia.
  - eapply counts_set_decr; [done|apply charged_if_frame|..].
    + rewrite Hi. simpl. unfold charged_if. by rewrite Eh.
    + unfold charged_if. by rewrite Eh'.
  - eapply counts_set_decr; [done|apply charged_if_frame|..].
    + rewrite Hi. simpl. unfold charged_if. by rewrite Eh.
    + unfold charged_if. by rewrite Eh'.
Qed.

Lemma books_add t cs ps a' client key :
  books_ok t cs ps h items → items !! i = None → h' i a' = true →
  clientID a' = client → proxyKey a' = key →
  books_ok (t + 1) (count_incr cs client) (count_incr ps key) h' (<[i := a']> items).
Proof using Hframe.
  intros [Ht Hc Hp] Hi Eh' <- <-. constructor.
  - rewrite number_set, Hi, Ht, Eh'. simpl. lia.
  - eapply counts_set_incr; [done|apply charged_if_frame|by rewrite Hi|].
    unfold charged_if. by rewrite Eh'.
  - eapply counts_set_incr; [done|apply charged_if_frame|by rewrite Hi|].
    unfold charged_if. by rewrite Eh'.
Qed.

Lemma sources_same ss a a' :
  sources_ok ss h items → items !! i = Some a → same_identity a a' → h' i a' = h i a →
  sources_ok ss h' (<[i := a']> items).
Proof using Hframe.
  intros Hs Hi (_ & _ & Es) Eh. eapply counts_set_same; [done|apply charged_if_frame|].
  rewrite Hi. simpl. unfold charged_if, source_key. by rewrite Eh, Es.
Qed.

Lemma sources_drop ss a a' :
  sources_ok ss h items → items !! i = Some a → h i a = true → h' i a' = false →
  sources_ok (if IsValid (source a) then count_decr ss (source a) else ss) h' (<[i := a']> items).
Proof using Hframe.
  intros Hs Hi Eh Eh'. destruct (IsValid (source a)) eqn:Ev.
  - eapply counts_set_decr; [done|apply charged_if_frame|..].
    + rewrite Hi. simpl. unfold charged_if, source_key. by rewrite Eh, Ev.
    + unfold charged_if. by rewrite Eh'.
  - eapply counts_set_same; [done|apply charged_if_frame|].
    rewrite Hi. simpl. unfold charged_if, source_key. by rewrite Eh, Eh', Ev.
Qed.

Lemma sources_add ss a' src :
  sources_ok ss h items → items !! i = None → h' i a' = true → source a' = src →
  sources_ok (if IsValid src then count_incr ss src else ss) h' (<[i := a']> items).
Proof using Hframe.
  intros Hs Hi Eh' <-. destruct (IsValid (source a')) eqn:Ev.
  - eapply counts_set_incr; [done|apply charged_if_frame|by rewrite Hi|].
    unfold charged_if, source_key. by rewrite Eh', Ev.
  - eapply counts_set_same; [done|apply charged_if_frame|].
    rewrite Hi. unfold charged_if, source_key. by rewrite Eh', Ev.
Qed.
End books.

(** ** Invariant of the shared state *)

(** A lease occupies the limiter from [Acquire] to the second half of its
    [Close]. *)
Definition held (cl : gmap nat (bool * Z)) (i : nat) (a : AssociationLease) : bool :=
  negb (closed a) || is_some (cl !! i).

(** It occupies the pending counters until the second half of [Activate], or
    of [Close] if that came first. *)
Definition waiting (ac : gset nat) (cl : gmap nat (bool * Z)) (i : nat) (a : AssociationLease) : bool :=
  (negb (closed a) && lease_pending a) || bool_decide (i ∈ ac) ||
  match cl !! i with Some (p, _) => p | None => false end.

Definition bytes_of (cl : gmap nat (bool * Z)) (i : nat) (a : AssociationLease) : Z :=
  if closed a then match cl !! i with Some (_, q) => q | None => 0 end else queued a.

Record world_ok (w : World) : Prop := {
  wo_held : books_ok (total (limiter w)) (clients (limiter w)) (proxies (limiter w))
    (held (closing w)) (leases w);
  wo_sources : sources_ok (sources (limiter w)) (held (closing w)) (leases w);
  wo_waiting : books_ok (pending (limiter w)) (pendingClients (limiter w)) (pendingProxies (limiter w))
    (waiting (activating w) (closing w)) (leases w);
  wo_bytes : queuedBytes (limiter w) = sum_of (bytes_of (closing w)) (leases w);
  wo_activating i : i ∈ activating w → ∃ a, leases w !! i = Some a ∧ lease_pending a = false;
  wo_closing i p q : closing w !! i = Some (p, q) →
    ∃ a, leases w !! i = Some a ∧ closed a = true ∧ lease_pending a = p
}.

Lemma start_ok c : world_ok (start c).
Proof.
  constructor; cbn; [| |  |done|intros i Hi; set_solver|intros i p q; by rewrite lookup_empty].
  - constructor; [by rewrite tally_empty|apply counts_empty..].
  - apply counts_empty.
  - constructor; [by rewrite tally_empty|apply counts_empty..].
Qed.

Definition same_off (i : nat) (ac ac' : gset nat) (cl cl' : gmap nat (bool * Z)) : Prop :=
  ∀ j, j ≠ i → (j ∈ ac' ↔ j ∈ ac) ∧ cl' !! j = cl !! j.

Section frames.
Context (i : nat) (items : gmap nat AssociationLease) (cl cl' : gmap nat (bool * Z)).
Context (Hcl : ∀ j, j ≠ i → cl' !! j = cl !! j).

Lemma held_frame : frame_off i items (held cl) (held cl').
Proof using Hcl. intros j a Hj _. unfold held. by rewrite Hcl. Qed.

Lemma bytes_frame : frame_off i items (bytes_of cl) (bytes_of cl').
Proof using Hcl. intros j a Hj _. unfold bytes_of. by rewrite Hcl. Qed.

Lemma waiting_frame ac ac' :
  same_off i ac ac' cl cl' → frame_off i items (waiting ac cl) (waiting ac' cl').
Proof using.
  intros Hoff j a Hj _. unfold waiting. rewrite (proj2 (Hoff j Hj)).
  by rewrite (bool_decide_ext (j ∈ ac') (j ∈ ac)) by apply (Hoff j Hj).
Qed.
End frames.

Lemma same_off_closing i ac ac' cl cl' :
  same_off i ac ac' cl cl' → ∀ j, j ≠ i → cl' !! j = cl !! j.
Proof. intros Hoff j Hj. apply (Hoff j Hj). Qed.
#[export] Hint Resolve held_frame waiting_frame bytes_frame same_off_closing : portway.

Lemma same_off_refl i ac cl : same_off i ac ac cl cl.
Proof. by intros j _. Qed.
#[export] Hint Resolve same_off_refl : portway.

#[export] Hint Extern 1 (same_identity _ _) => repeat split : portway.

(** Apply a lemma on books: the books themselves and the lease come from the
    context, the frame from the hints. *)
Ltac books lemma :=
  eapply lemma; cycle 1; [eassumption | eassumption | ..]; try (by eauto with portway).

Section step.
Context (ρ : go_range string rateCounter).
Implicit Types w : World.

Lemma acquire_cases client name src now l :
  (∃ l', acquire ρ client name src now l = (None, l') ∧ l' = cleanupRates ρ now l) ∨
  (refused client (proxy_key client name) (Unmap src) now (cleanupRates ρ now l) = false ∧
   acquire ρ client name src now l =
     (Some {| clientID := client; proxyKey := proxy_key client name; source := Unmap src;
              lease_pending := true; queued := 0; closed := false |},
      charge_association client (proxy_key client name) (Unmap src) now (cleanupRates ρ now l))).
Proof. unfold acquire. destruct (refused _ _ _ _ _); eauto. Qed.

(** Cleaning rates changes nothing but the rates. *)
Lemma cleanupRates_keeps now l :
  ∃ cr pr rw, cleanupRates ρ now l =
    l <| clientRates := cr |> <| proxyRates := pr |> <| rateCleanupWindow := rw |>.
Proof.
  unfold cleanupRates. destruct (_ =? _).
  - exists (clientRates l), (proxyRates l), (rateCleanupWindow l). by destruct l.
  - by eexists _, _, _.
Qed.

(** Rates and configuration are not part of the books. *)
Lemma world_ok_limiter w cr pr rw c :
  world_ok w →
  world_ok (w <| limiter := (limiter w) <| configuration := c |> <| clientRates := cr |>
                                        <| proxyRates := pr |> <| rateCleanupWindow := rw |> |>).
Proof. intros [????]. by constructor. Qed.

Lemma charge_books client key src now l :
  let l' := charge_association client key src now l in
  total l' = total l + 1 ∧ pending l' = pending l + 1 ∧
  clients l' = count_incr (clients l) client ∧ proxies l' = count_incr (proxies l) key ∧
  pendingClients l' = count_incr (pendingClients l) client ∧
  pendingProxies l' = count_incr (pendingProxies l) key ∧
  sources l' = (if IsValid src then count_incr (sources l) src else sources l) ∧
  queuedBytes l' = queuedBytes l ∧ configuration l' = configuration l.
Proof. unfold charge_association. by destruct (IsValid src). Qed.

Lemma acquire_ok w client name src now :
  world_ok w → world_ok (exec ρ w (DoAcquire client name src now)).
Proof.
  intros Hw. cbn [exec].
  destruct (cleanupRates_keeps now (limiter w)) as (cr & pr & rw & El).
  assert (Hw' : world_ok (w <| limiter := cleanupRates ρ now (limiter w) |>))
    by (rewrite El; apply (world_ok_limiter w cr pr rw (configuration (limiter w)) Hw)).
  destruct (acquire_cases client name src now (limiter w)) as [(l' & -> & ->)|[_ ->]]; [done|].
  generalize dependent (cleanupRates ρ now (limiter w)). intros l _ Hw'.
  destruct (charge_books client (proxy_key client name) (Unmap src) now l)
    as (Et & Ep & Ec & Ex & Epc & Epx & Es & Eq & _).
  destruct Hw' as [Hh Hs Hp Hb Ha Hcl]. cbn [limiter leases activating closing granted upd] in *.
  set (i := fresh (dom (leases w))).
  assert (Hi : leases w !! i = None) by (apply not_elem_of_dom, is_fresh).
  constructor; cbn [limiter leases activating closing granted upd].
  - rewrite Et, Ec, Ex. books books_add.
  - rewrite Es. books sources_add.
  - rewrite Ep, Epc, Epx. books books_add.
  - rewrite Eq, Hb, (sum_of_set (bytes_of (closing w))) by (eapply bytes_frame; eauto with portway).
    rewrite Hi. unfold bytes_of. simpl. lia.
  - intros j Hj. destruct (Ha j Hj) as (a & Hja & ?). exists a. by rewrite lookup_insert_ne by congruence.
  - intros j p q Hj. destruct (Hcl j p q Hj) as (a & Hja & ?). exists a. by rewrite lookup_insert_ne by congruence.
Qed.

Lemma activate_ok w i : world_ok w → world_ok (exec ρ w (DoActivate i)).
Proof.
  intros Hw. cbn [exec]. destruct (leases w !! i) as [a|] eqn:Hi; simpl; [|done].
  unfold Activate_lease. destruct (closed a || negb (lease_pending a)) eqn:E; [done|].
  apply orb_false_iff in E as [Hc Hpend]. apply negb_false_iff in Hpend.
  destruct Hw as [Hh Hs Hp Hb Ha Hcl].
  assert (Hoff : same_off i (activating w) ({[i]} ∪ activating w) (closing w) (closing w))
    by (intros j ?; set_solver).
  assert (Hncl : closing w !! i = None).
  { destruct (closing w !! i) as [[p q]|] eqn:Ecl; [|done].
    destruct (Hcl _ _ _ Ecl) as (a' & ? & ? & _). congruence. }
  constructor; cbn [limiter leases activating closing granted upd].
  - books books_same.
  - books sources_same.
  - books books_same. unfold waiting. cbn.
    rewrite Hc, Hpend, (bool_decide_eq_true_2 (i ∈ {[i]} ∪ _)) by set_solver. done.
  - rewrite Hb, (sum_of_set (bytes_of (closing w))) by (eapply bytes_frame; eauto with portway).
    rewrite Hi. unfold bytes_of. cbn. rewrite Hc. lia.
  - intros j. rewrite lookup_insert. case_decide; [by eexists|]. intros Hj. apply Ha. set_solver.
  - intros j p q Hj. rewrite lookup_insert_ne by congruence. eauto.
Qed.

Lemma finish_activate_ok w i : world_ok w → world_ok (exec ρ w (FinishActivate i)).
Proof.
  intros Hw. cbn [exec]. destruct (leases w !! i) as [a|] eqn:Hi; [|done].
  case_decide as Hact; [|done]. destruct Hw as [Hh Hs Hp Hb Ha Hcl].
  assert (Hoff : same_off i (activating w) (activating w ∖ {[i]}) (closing w) (closing w))
    by (intros j ?; set_solver).
  destruct (Ha i Hact) as (a' & ? & Hpend). simplify_eq.
  assert (Hncl : match closing w !! i with Some (p, _) => p | None => false end = false).
  { destruct (closing w !! i) as [[p q]|] eqn:Ecl; [|done].
    destruct (Hcl _ _ _ Ecl) as (a' & ? & ? & <-). congruence. }
  constructor; cbn [limiter leases activating closing granted upd Activate_limiter]; try done.
  - cbn. rewrite <- (insert_id (leases w) i a Hi). books books_drop.
    + unfold waiting. by rewrite (bool_decide_eq_true_2 (i ∈ _)), orb_true_r by done.
    + unfold waiting. rewrite Hpend, Hncl, bool_decide_eq_false_2 by set_solver. by rewrite andb_false_r.
  - intros j Hj. apply Ha. set_solver.
Qed.

(** Changing the queued bytes of an open lease and of the limiter alike. *)
Lemma requeue_ok w i a d :
  world_ok w → leases w !! i = Some a → closed a = false →
  world_ok (w <| limiter := (limiter w) <| queuedBytes := queuedBytes (limiter w) + d |> |>
              <| leases := <[i := a <| queued := queued a + d |>]> (leases w) |>).
Proof.
  intros [Hh Hs Hp Hb Ha Hcl] Hi Hc.
  constructor; cbn [limiter leases activating closing granted total pending queuedBytes clients
                    pendingClients proxies pendingProxies sources upd].
  - books books_same.
  - books sources_same.
  - books books_same.
  - rewrite Hb, (sum_of_set (bytes_of (closing w))) by (eapply bytes_frame; eauto with portway).
    rewrite Hi. unfold bytes_of. cbn. rewrite Hc. lia.
  - intros j Hj. rewrite lookup_insert. case_decide; subst; [|by apply Ha].
    destruct (Ha j Hj) as (a' & ? & ?). simplify_eq. by eexists.
  - intros j p q Hj. destruct (Hcl _ _ _ Hj) as (a' & ? & ? & ?).
    rewrite lookup_insert_ne by congruence. by exists a'.
Qed.

Lemma rewrite_ok w i a :
  world_ok w → leases w !! i = Some a →
  world_ok (w <| limiter := limiter w |> <| leases := <[i := a]> (leases w) |>).
Proof. intros Hw Hi. destruct w. cbn in *. by rewrite insert_id. Qed.

Lemma reserve_ok w i size : world_ok w → world_ok (exec ρ w (DoReserve i size)).
Proof.
  intros Hw. cbn [exec]. destruct (leases w !! i) as [a|] eqn:Hi; [|done].
  unfold ReserveQueue. destruct (closed a) eqn:Hc; simpl orb.
  { by apply rewrite_ok. }
  destruct (_ <? _); [by apply rewrite_ok|]. destruct (_ <? _); [by apply rewrite_ok|].
  by apply (requeue_ok w i a size).
Qed.

Lemma release_ok w i size : world_ok w → world_ok (exec ρ w (DoRelease i size)).
Proof.
  intros Hw. cbn [exec]. destruct (leases w !! i) as [a|] eqn:Hi; [|done].
  unfold ReleaseQueue. destruct (closed a) eqn:Hc; [by apply rewrite_ok|].
  by apply (requeue_ok w i a (- size)).
Qed.

Lemma close_ok w i : world_ok w → world_ok (exec ρ w (DoClose i)).
Proof.
  intros Hw. cbn [exec]. destruct (leases w !! i) as [a|] eqn:Hi; simpl; [|done].
  unfold Close_lease. destruct (closed a) eqn:Hc; [done|].
  destruct Hw as [Hh Hs Hp Hb Ha Hcl].
  assert (Hncl : closing w !! i = None).
  { destruct (closing w !! i) as [[p q]|] eqn:Ecl; [|done].
    destruct (Hcl _ _ _ Ecl) as (a' & ? & ? & _). congruence. }
  assert (Hoff : same_off i (activating w) (activating w) (closing w)
    (<[i := (lease_pending a, queued a)]> (closing w)))
    by (intros j ?; by rewrite lookup_insert_ne).
  constructor; cbn [limiter leases activating closing granted upd lease_pending queued].
  - books books_same. unfold held. cbn. by rewrite Hc, lookup_insert_eq.
  - books sources_same. unfold held. cbn. by rewrite Hc, lookup_insert_eq.
  - books books_same. unfold waiting. cbn. rewrite Hc, Hncl, lookup_insert_eq. simpl.
    by destruct (lease_pending a), (bool_decide _).
  - rewrite Hb, (sum_of_set (bytes_of (closing w))) by (eapply bytes_frame; eauto with portway).
    rewrite Hi. cbn [fmap option_fmap option_map default]. unfold bytes_of at 3 4. cbn.
    rewrite Hc, lookup_insert_eq. lia.
  - intros j Hj. rewrite lookup_insert. case_decide; subst; [|by apply Ha].
    destruct (Ha j Hj) as (a' & ? & ?). simplify_eq. by eexists.
  - intros j p q. rewrite !lookup_insert. case_decide; [|apply Hcl]. intros. simplify_eq. by eexists.
Qed.

Lemma close_books a p q l :
  let l' := Close_limiter a p q l in
  total l' = total l - 1 ∧ clients l' = count_decr (clients l) (clientID a) ∧
  proxies l' = count_decr (proxies l) (proxyKey a) ∧
  sources l' = (if IsValid (source a) then count_decr (sources l) (source a) else sources l) ∧
  pending l' = (if p then pending l - 1 else pending l) ∧
  pendingClients l' = (if p then count_decr (pendingClients l) (clientID a) else pendingClients l) ∧
  pendingProxies l' = (if p then count_decr (pendingProxies l) (proxyKey a) else pendingProxies l) ∧
  queuedBytes l' = queuedBytes l - q ∧ configuration l' = configuration l.
Proof. unfold Close_limiter. by destruct (IsValid (source a)), p. Qed.

Lemma finish_close_ok w i : world_ok w → world_ok (exec ρ w (FinishClose i)).
Proof.
  intros Hw. cbn [exec]. destruct (leases w !! i) as [a|] eqn:Hi; [|done].
  destruct (closing w !! i) as [[p q]|] eqn:Hcli; [|done].
  destruct Hw as [Hh Hs Hp Hb Ha Hcl].
  destruct (Hcl _ _ _ Hcli) as (a' & Hi' & Hc & Hpend). assert (a' = a) as -> by congruence. clear Hi'.
  assert (Hoff : same_off i (activating w) (activating w) (closing w) (delete i (closing w)))
    by (intros j ?; by rewrite lookup_delete_ne).
  assert (Eh : held (closing w) i a = true) by (unfold held; by rewrite Hcli, orb_true_r).
  assert (Eh' : held (delete i (closing w)) i a = false)
    by (unfold held; by rewrite lookup_delete_eq, Hc).
  pose proof (insert_id (leases w) i a Hi) as Hid.
  destruct (close_books a p q (limiter w)) as (Et & Ec & Ex & Es & Ep & Epc & Epx & Eq & _).
  constructor; cbn [limiter leases activating closing granted upd].
  - rewrite <- Hid, Et, Ec, Ex. books books_drop.
  - rewrite <- Hid, Es. books sources_drop.
  - rewrite <- Hid, Ep, Epc, Epx. destruct p.
    + assert (i ∉ activating w) by (intros Hin; destruct (Ha i Hin) as (? & ? & ?); congruence).
      books books_drop; unfold waiting; rewrite ?Hcli, ?lookup_delete_eq, ?Hc, ?orb_true_r; cbn;
        rewrite ?bool_decide_eq_false_2; done.
    + books books_same. unfold waiting. by rewrite Hcli, lookup_delete_eq.
  - rewrite Eq, Hb. rewrite <- Hid at 2.
    rewrite (sum_of_set (bytes_of (closing w))) by (eapply bytes_frame; eauto with portway).
    rewrite Hi. cbn [fmap option_fmap option_map default]. unfold bytes_of at 3 4.
    rewrite Hc, Hcli, lookup_delete_eq. simpl. lia.
  - done.
  - intros j p' q' [? ?]%lookup_delete_Some. eauto.
Qed.

Lemma exec_ok w cmd : world_ok w → world_ok (exec ρ w cmd).
Proof.
  intros Hw. destruct cmd as [| | | | | | |c];
    eauto using acquire_ok, activate_ok, finish_activate_ok, reserve_ok, release_ok, close_ok, finish_close_ok.
  by destruct Hw; constructor.
Qed.

Lemma run_world_ok w cmds : world_ok w → world_ok (run ρ w cmds).
Proof. revert w. induction cmds as [|cmd cmds IH]; simpl; eauto using exec_ok. Qed.

(** ** Limits *)

(** What the callers keep to: sizes are lengths of payloads, and a payload is
    released once, after it was reserved. *)
Definition permitted (w : World) (cmd : command) : bool :=
  match cmd with
  | DoReserve _ size => 0 <=? size
  | DoRelease i size =>
    (0 <=? size) &&
    match leases w !! i with Some a => closed a || (size <=? queued a) | None => true end
  | DoConfigure _ => false
  | _ => true
  end.

Fixpoint disciplined (w : World) (cmds : list command) : bool :=
  match cmds with
  | [] => true
  | cmd :: cmds => permitted w cmd && disciplined (exec ρ w cmd) cmds
  end.

Record limits_ok (c : UDPConfig) (w : World) : Prop := {
  lo_configuration : configuration (limiter w) = c;
  lo_total : total (limiter w) <= MaxAssociations c;
  lo_clients k : count_get (clients (limiter w)) k <= MaxAssociationsPerClient c;
  lo_proxies k : count_get (proxies (limiter w)) k <= MaxAssociationsPerProxy c;
  lo_sources k : count_get (sources (limiter w)) k <= MaxAssociationsPerSourceIP c;
  lo_pending : pending (limiter w) <= MaxPendingAssociations c;
  lo_pending_clients k : count_get (pendingClients (limiter w)) k <= MaxPendingAssociationsPerClient c;
  lo_pending_proxies k : count_get (pendingProxies (limiter w)) k <= MaxPendingAssociationsPerProxy c;
  lo_bytes : queuedBytes (limiter w) <= MaxQueuedBytes c;
  lo_lease i a : leases w !! i = Some a → 0 <= queued a <= MaxQueuedBytesPerAssociation c;
  lo_closing i p q : closing w !! i = Some (p, q) → 0 <= q <= MaxQueuedBytesPerAssociation c
}.

Lemma count_incr_le {K} `{Countable K} (m : gmap K Z) k n :
  count_get m k < n → (∀ k', count_get m k' <= n) → ∀ k', count_get (count_incr m k) k' <= n.
Proof. intros ? Hm k'. rewrite count_incr_get. specialize (Hm k'). case_decide; subst; lia. Qed.

Lemma count_decr_le {K} `{Countable K} (m : gmap K Z) k n :
  positive m → (∀ k', count_get m k' <= n) → ∀ k', count_get (count_decr m k) k' <= n.
Proof.
  intros Hp Hm k'. rewrite count_decr_get by done. pose proof (positive_get _ k' Hp).
  specialize (Hm k'). case_decide; lia.
Qed.

Lemma refused_false client key src now l :
  refused client key src now l = false →
  let c := configuration l in
  total l < MaxAssociations c ∧ count_get (clients l) client < MaxAssociationsPerClient c ∧
  count_get (proxies l) key < MaxAssociationsPerProxy c ∧
  (IsValid src = true → count_get (sources l) src < MaxAssociationsPerSourceIP c) ∧
  pending l < MaxPendingAssociations c ∧
  count_get (pendingClients l) client < MaxPendingAssociationsPerClient c ∧
  count_get (pendingProxies l) key < MaxPendingAssociationsPerProxy c ∧
  rateAllowed (globalRate l) now (MaxNewAssociationsPerSecond c) = true ∧
  rateAllowed (rate_get (clientRates l) client) now (MaxNewAssociationsPerSecondPerClient c) = true ∧
  rateAllowed (rate_get (proxyRates l) key) now (MaxNewAssociationsPerSecondPerProxy c) = true.
Proof.
  unfold refused, mapRateAllowed. intros E. bool_to_prop.
  repeat split; try done; try lia.
  intros Hv. match goal with H : _ ∨ _ |- _ => destruct H end; [congruence|by bool_to_prop].
Qed.

Lemma start_limits c : udp_config_ok c → limits_ok c (start c).
Proof.
  intros Hc. destruct Hc. constructor; cbn; intros; unfold count_get; rewrite ?lookup_empty in *; simpl; try done; try lia.
Qed.

Lemma acquire_limits c w client name src now :
  limits_ok c w → udp_config_ok c → limits_ok c (exec ρ w (DoAcquire client name src now)).
Proof.
  intros Hl Hc. cbn [exec].
  destruct (cleanupRates_keeps now (limiter w)) as (cr & pr & rw & El).
  assert (Hl' : limits_ok c (w <| limiter := cleanupRates ρ now (limiter w) |>))
    by (rewrite El; by destruct Hl; constructor).
  destruct (acquire_cases client name src now (limiter w)) as [(l' & -> & ->)|[Hr ->]]; [done|].
  generalize dependent (cleanupRates ρ now (limiter w)). intros l _ Hl' Hr.
  destruct (charge_books client (proxy_key client name) (Unmap src) now l)
    as (Et & Ep & Ec & Ex & Epc & Epx & Es & Eq & Ecf).
  apply refused_false in Hr as (? & ? & ? & Hsrc & ? & ? & ? & _).
  destruct Hl' as [Hcf ??????????]. cbn [limiter leases activating closing granted upd] in *.
  rewrite Hcf in *.
  constructor; cbn [limiter leases activating closing granted upd];
    rewrite ?Et, ?Ep, ?Ec, ?Ex, ?Epc, ?Epx, ?Es, ?Eq, ?Ecf; try done; try lia;
    try (by apply count_incr_le).
  - destruct (IsValid (Unmap src)); [apply count_incr_le; auto|done].
  - intros i a. rewrite lookup_insert. case_decide; [|eauto].
    intros. simplify_eq. cbn. destruct Hc. lia.
Qed.

Lemma requeue_limits c w i a d :
  limits_ok c w → leases w !! i = Some a →
  0 <= queued a + d <= MaxQueuedBytesPerAssociation c →
  queuedBytes (limiter w) + d <= MaxQueuedBytes c →
  limits_ok c (w <| limiter := (limiter w) <| queuedBytes := queuedBytes (limiter w) + d |> |>
                 <| leases := <[i := a <| queued := queued a + d |>]> (leases w) |>).
Proof.
  intros [??????????] Hi Hq Hb. constructor; cbn; try done.
  intros j b. rewrite lookup_insert. case_decide; [|eauto]. intros. simplify_eq. by cbn.
Qed.

Lemma rewrite_limits c w i a :
  limits_ok c w → leases w !! i = Some a →
  limits_ok c (w <| limiter := limiter w |> <| leases := <[i := a]> (leases w) |>).
Proof. intros Hw Hi. destruct w. cbn in *. by rewrite insert_id. Qed.

Lemma queue_limits c w cmd :
  limits_ok c w → permitted w cmd = true →
  match cmd with DoReserve _ _ | DoRelease _ _ => True | _ => False end →
  limits_ok c (exec ρ w cmd).
Proof.
  intros Hl Hd Hcmd. destruct cmd as [| | |i size|i size| | |]; try done; cbn [exec permitted] in *;
    destruct (leases w !! i) as [a|] eqn:Hi; try done; bool_to_prop.
  - pose proof (lo_lease _ _ Hl i a Hi). pose proof (lo_configuration _ _ Hl) as <-.
    unfold ReserveQueue. destruct (closed a || _) eqn:E; [by apply rewrite_limits|].
    destruct (MaxQueuedBytes _ <? _) eqn:E'; [by apply rewrite_limits|]. bool_to_prop.
    apply (requeue_limits _ w i a size); [done|done|lia|lia].
  - pose proof (lo_lease _ _ Hl i a Hi). pose proof (lo_bytes _ _ Hl).
    unfold ReleaseQueue. destruct (closed a) eqn:Hc; [by apply rewrite_limits|].
    simpl in *. bool_to_prop. apply (requeue_limits _ w i a (- size)); [done|done|lia|lia].
Qed.

Lemma lease_limits c w cmd :
  world_ok w → limits_ok c w →
  match cmd with DoActivate _ | DoClose _ => True | _ => False end →
  limits_ok c (exec ρ w cmd).
Proof.
  intros Hw Hl Hcmd. destruct cmd as [|i| | | |i| |]; try done; cbn [exec];
    destruct (leases w !! i) as [a|] eqn:Hi; try done; cbn [mbind option_bind];
    pose proof (lo_lease _ _ Hl i a Hi) as Hq.
  - unfold Activate_lease. destruct (closed a || _); [done|]. destruct Hl.
    constructor; cbn [limiter leases activating closing upd]; try done.
    intros j b. rewrite lookup_insert. case_decide; [|eauto]. intros. by simplify_eq.
  - unfold Close_lease. destruct (closed a); [done|]. destruct Hl.
    constructor; cbn [limiter leases activating closing upd lease_pending queued]; try done.
    + intros j b. rewrite lookup_insert. case_decide; [|eauto]. intros. simplify_eq. cbn. lia.
    + intros j p q. rewrite lookup_insert. case_decide; [|eauto]. intros. simplify_eq. lia.
Qed.

Lemma settle_limits c w cmd :
  world_ok w → limits_ok c w →
  match cmd with FinishActivate _ | FinishClose _ => True | _ => False end →
  limits_ok c (exec ρ w cmd).
Proof.
  intros [[_ [Hpc _] [Hpx _]] [Hps _] [_ [Hwc _] [Hwx _]] _ _ _] Hl Hcmd.
  destruct cmd as [| |i| | | |i|]; try done; cbn [exec];
    destruct (leases w !! i) as [a|] eqn:Hi; try done.
  - case_decide; [|done]. destruct Hl.
    constructor; cbn; try done; try lia; by apply count_decr_le.
  - destruct (closing w !! i) as [[p q]|] eqn:Hcl; [|done].
    pose proof (lo_closing _ _ Hl i p q Hcl). destruct Hl.
    destruct (close_books a p q (limiter w)) as (Et & Ec & Ex & Es & Ep & Epc & Epx & Eq & Ecf).
    constructor; cbn [limiter leases activating closing upd];
      rewrite ?Et, ?Ec, ?Ex, ?Es, ?Ep, ?Epc, ?Epx, ?Eq, ?Ecf; try done; try lia;
      try (destruct p, (IsValid (source a)); by (lia || done || apply count_decr_le)).
    intros j p' q' [? ?]%lookup_delete_Some. eauto.
Qed.

Lemma exec_limits c w cmd :
  udp_config_ok c → world_ok w → limits_ok c w → permitted w cmd = true → limits_ok c (exec ρ w cmd).
Proof.
  intros Hc Hw Hl Hp. destruct cmd; try done;
    eauto using acquire_limits, queue_limits, lease_limits, settle_limits.
Qed.

Lemma run_limits c w cmds :
  udp_config_ok c → world_ok w → limits_ok c w → disciplined w cmds = true → limits_ok c (run ρ w cmds).
Proof.
  intros Hc. revert w. induction cmds as [|cmd cmds IH]; simpl; intros w Hw Hl Hd; [done|].
  bool_to_prop. apply IH; auto using exec_ok, exec_limits.
Qed.
End step.

(** ** Rates *)

Abbreviation grant := (Time * string * string)%type (only parsing).
Definition grant_window (g : Time * string * string) : Time := Truncate g.1.1 Second.

(** The grants of window [W] that satisfy [sel]. *)
Definition grants_in (sel : Time * string * string → bool) (W : Time) (gs : list (Time * string * string)) : Z :=
  Z.of_nat (length (filter (λ g, sel g = true ∧ grant_window g = W) gs)).

Definition by_client (k : string) (g : Time * string * string) : bool := bool_decide (g.1.2 = k).
Definition by_proxy (k : string) (g : Time * string * string) : bool := bool_decide (g.2 = k).

(** A counter agrees with the history at the current window [W]. *)
Record rate_ok (r : rateCounter) (sel : Time * string * string → bool) (limit : Z)
    (gs : list (Time * string * string)) (W : Time) : Prop := {
  ro_current : (if window r =? W then count r else 0) = grants_in sel W gs;
  ro_past : window r <= W;
  ro_limit W' : grants_in sel W' gs <= limit;
  ro_future W' : W < W' → grants_in sel W' gs = 0
}.

Lemma grants_in_cons sel W g gs :
  grants_in sel W (g :: gs) =
    grants_in sel W gs + (if decide (sel g = true ∧ grant_window g = W) then 1 else 0).
Proof. unfold grants_in. rewrite filter_cons. case_decide; simpl; lia. Qed.

Lemma rate_advance r sel limit gs W W' :
  rate_ok r sel limit gs W → W <= W' → rate_ok r sel limit gs W'.
Proof.
  intros [Hc Hp Hl Hf] HW. destruct (decide (W = W')) as [->|]; [done|]. constructor; try done; try lia.
  - rewrite Hf by lia. by rewrite (proj2 (Z.eqb_neq _ _)) by lia.
  - intros. apply Hf. lia.
Qed.

Lemma rate_forget r sel limit gs W :
  0 <= W → window r ≠ W → rate_ok r sel limit gs W → rate_ok zero_rate sel limit gs W.
Proof.
  intros HW Hr [Hc Hp Hl Hf]. constructor; try done. rewrite <- Hc.
  rewrite (proj2 (Z.eqb_neq (window r) W)) by done. by destruct (window zero_rate =? W).
Qed.

Lemma rate_grant r sel limit gs g W :
  rate_ok r sel limit gs W → grant_window g = W → sel g = true →
  rateAllowed r g.1.1 limit = true → rate_ok (incrementRate r g.1.1) sel limit (g :: gs) W.
Proof.
  unfold rateAllowed, incrementRate. change (Truncate g.1.1 Second) with (grant_window g).
  intros [Hc Hp Hl Hf] Hg Hs Ha. rewrite Hg in *.
  assert (Hnow : grants_in sel W (g :: gs) = grants_in sel W gs + 1)
    by (rewrite grants_in_cons, decide_True by done; lia).
  assert (Hother : ∀ W', W' ≠ W → grants_in sel W' (g :: gs) = grants_in sel W' gs)
    by (intros W' HW'; rewrite grants_in_cons, decide_False by (intros [_ ?]; congruence); lia).
  constructor.
  - rewrite Hnow, <- Hc. destruct (window r =? W) eqn:E; cbn; [by rewrite E|by rewrite Z.eqb_refl].
  - destruct (window r =? W); cbn; lia.
  - intros W'. destruct (decide (W' = W)) as [->|]; [|by rewrite Hother].
    rewrite Hnow, <- Hc. destruct (window r =? W); simpl in Ha; bool_to_prop; lia.
  - intros W' HW'. rewrite Hother by lia. by apply Hf.
Qed.

Lemma rate_other r sel limit gs g W :
  rate_ok r sel limit gs W → sel g = false → rate_ok r sel limit (g :: gs) W.
Proof.
  intros [Hc Hp Hl Hf] Hs.
  assert (E : ∀ W', grants_in sel W' (g :: gs) = grants_in sel W' gs)
    by (intros W'; rewrite grants_in_cons, decide_False by (intros [? _]; congruence); lia).
  constructor; intros; rewrite ?E; auto.
Qed.

Record rates_ok (c : UDPConfig) (w : World) (t : Time) : Prop := {
  rs_configuration : configuration (limiter w) = c;
  rs_global : rate_ok (globalRate (limiter w)) (λ _, true) (MaxNewAssociationsPerSecond c)
    (granted w) (Truncate t Second);
  rs_client k : rate_ok (rate_get (clientRates (limiter w)) k) (by_client k)
    (MaxNewAssociationsPerSecondPerClient c) (granted w) (Truncate t Second);
  rs_proxy k : rate_ok (rate_get (proxyRates (limiter w)) k) (by_proxy k)
    (MaxNewAssociationsPerSecondPerProxy c) (granted w) (Truncate t Second)
}.

(** The instants passed to [Acquire] never go back. *)
Fixpoint clocked (t : Time) (cmds : list command) : bool :=
  match cmds with
  | [] => true
  | DoAcquire _ _ _ now :: cmds => (t <=? now) && clocked now cmds
  | _ :: cmds => clocked t cmds
  end.

Definition is_configure (cmd : command) : bool := match cmd with DoConfigure _ => true | _ => false end.

Lemma Truncate_mono t u : 0 <= t → t <= u → 0 <= Truncate t Second <= Truncate u Second.
Proof.
  intros Ht Hu. unfold Truncate. change (Second <=? 0) with false. cbv iota.
  pose proof (Z.div_mod t Second ltac:(done)). pose proof (Z.div_mod u Second ltac:(done)).
  assert (0 <= t / Second) by (apply Z.div_pos; done).
  assert (t / Second <= u / Second) by (apply Z.div_le_mono; done). change Second with 1000000000 in *. lia.
Qed.


Section rates.
Context (ρ : go_range string rateCounter) (c : UDPConfig).

Lemma cleanup_rate_get now l k :
  let W := Truncate now Second in
  let forgets old new := new = old ∨ (new = zero_rate ∧ window old ≠ W) in
  forgets (rate_get (clientRates l) k) (rate_get (clientRates (cleanupRates ρ now l)) k) ∧
  forgets (rate_get (proxyRates l) k) (rate_get (proxyRates (cleanupRates ρ now l)) k).
Proof.
  intros W forgets. unfold cleanupRates. destruct (_ =? _); [by split; left|].
  assert (Hm : ∀ m, forgets (rate_get m k) (rate_get (delete_when (stale W) (ρ m) m) k)).
  { intros m. unfold forgets, rate_get. rewrite delete_when_range, map_lookup_filter.
    destruct (m !! k) as [r|]; simpl; [|by left]. unfold stale. case_guard as Hg; simpl; [by left|].
    right. split; [done|]. intros Hw. apply Hg. by rewrite Hw, Z.eqb_refl. }
  split; apply Hm.
Qed.

Lemma cleanup_rates w t now :
  0 <= t → t <= now → rates_ok c w t →
  rates_ok c (w <| limiter := cleanupRates ρ now (limiter w) |>) now.
Proof.
  intros Ht Hn [Hcf Hg Hc Hp]. destruct (Truncate_mono t now Ht Hn) as [HW0 HW].
  destruct (cleanupRates_keeps ρ now (limiter w)) as (cr & pr & rw & El).
  constructor; cbn [limiter granted upd].
  - by rewrite El.
  - rewrite El. cbn. by eapply rate_advance.
  - intros k. pose proof (rate_advance _ _ _ _ _ _ (Hc k) HW).
    destruct (cleanup_rate_get now (limiter w) k) as [[->|[-> ?]] _]; [done|].
    eapply rate_forget; [|done..]. lia.
  - intros k. pose proof (rate_advance _ _ _ _ _ _ (Hp k) HW).
    destruct (cleanup_rate_get now (limiter w) k) as [_ [->|[-> ?]]]; [done|].
    eapply rate_forget; [|done..]. lia.
Qed.

Lemma rate_get_insert m k k' r :
  rate_get (<[k := r]> m) k' = if decide (k = k') then r else rate_get m k'.
Proof. unfold rate_get. rewrite lookup_insert. by case_decide. Qed.

Lemma charge_rates client key src now l :
  let l' := charge_association client key src now l in
  configuration l' = configuration l ∧ globalRate l' = incrementRate (globalRate l) now ∧
  clientRates l' = <[client := incrementRate (rate_get (clientRates l) client) now]> (clientRates l) ∧
  proxyRates l' = <[key := incrementRate (rate_get (proxyRates l) key) now]> (proxyRates l).
Proof. unfold charge_association. by destruct (IsValid src). Qed.

Lemma rate_keyed m (key : Time * string * string → string) k0 k limit gs g now :
  (∀ k, rate_ok (rate_get m k) (λ g, bool_decide (key g = k)) limit gs (Truncate now Second)) →
  key g = k0 → g.1.1 = now → rateAllowed (rate_get m k0) now limit = true →
  rate_ok (rate_get (<[k0 := incrementRate (rate_get m k0) now]> m) k)
    (λ g, bool_decide (key g = k)) limit (g :: gs) (Truncate now Second).
Proof.
  intros Hm Hk <- Ha. rewrite rate_get_insert. case_decide; subst.
  - apply rate_grant; [done|done| |done]. by apply bool_decide_eq_true.
  - apply rate_other; [done|]. by apply bool_decide_eq_false.
Qed.

Lemma acquire_rates w t client name src now :
  0 <= t → t <= now → rates_ok c w t →
  rates_ok c (exec ρ w (DoAcquire client name src now)) now.
Proof.
  intros Ht Hn Hr. apply (cleanup_rates _ _ now Ht Hn) in Hr. cbn [exec].
  destruct (acquire_cases ρ client name src now (limiter w)) as [(l' & -> & ->)|[Href ->]]; [done|].
  generalize dependent (cleanupRates ρ now (limiter w)). intros l [Hcf Hg Hc Hp] Href.
  apply refused_false in Href as (_ & _ & _ & _ & _ & _ & _ & Hag & Hac & Hap).
  destruct (charge_rates client (proxy_key client name) (Unmap src) now l) as (Ecf & Eg & Ec & Ep).
  cbn [limiter granted upd] in *. rewrite Hcf in *.
  constructor; cbn [limiter granted proxyKey leases upd]; rewrite ?Ecf, ?Eg, ?Ec, ?Ep.
  - done.
  - by apply (rate_grant _ _ _ _ (now, client, _)).
  - intros k. by apply (rate_keyed _ (λ g, g.1.2)).
  - intros k. by apply (rate_keyed _ (λ g, g.2)).
Qed.

(** No other step touches a rate. *)
Lemma other_rates w cmd :
  match cmd with DoAcquire _ _ _ _ | DoConfigure _ => True
  | _ =>
    configuration (limiter (exec ρ w cmd)) = configuration (limiter w) ∧
    globalRate (limiter (exec ρ w cmd)) = globalRate (limiter w) ∧
    clientRates (limiter (exec ρ w cmd)) = clientRates (limiter w) ∧
    proxyRates (limiter (exec ρ w cmd)) = proxyRates (limiter w) ∧
    granted (exec ρ w cmd) = granted w
  end.
Proof.
  destruct cmd as [|i|i|i size|i size|i|i|]; try done; cbn [exec];
    destruct (leases w !! i) as [a|]; try done; cbn [mbind option_bind].
  - by destruct (Activate_lease a).
  - by case_decide.
  - unfold ReserveQueue. destruct (closed a || _); [done|]. by destruct (_ <? _).
  - unfold ReleaseQueue. by destruct (closed a).
  - by destruct (Close_lease a) as [[??]|].
  - destruct (closing w !! i) as [[p q]|]; [|done]. unfold Close_limiter.
    by destruct (IsValid (source a)), p.
Qed.

Lemma other_rates_ok w cmd t :
  match cmd with DoAcquire _ _ _ _ | DoConfigure _ => False | _ => True end →
  rates_ok c w t → rates_ok c (exec ρ w cmd) t.
Proof.
  intros Hcmd [Hcf Hg Hc Hp].
  assert (E := other_rates w cmd). destruct cmd; try done; destruct E as (? & E1 & E2 & E3 & E4);
    constructor; rewrite ?E1, ?E2, ?E3, ?E4; done || congruence.
Qed.

Lemma run_rates w t cmds :
  0 <= t → rates_ok c w t → forallb (λ cmd, negb (is_configure cmd)) cmds = true →
  clocked t cmds = true → ∃ t', 0 <= t' ∧ rates_ok c (run ρ w cmds) t'.
Proof.
  revert w t. induction cmds as [|cmd cmds IH]; intros w t Ht Hw Hs Hc; [by exists t|].
  cbn [run foldl forallb] in *. apply andb_true_iff in Hs as [Hs1 Hs2].
  destruct cmd as [client name src now| | | | | | |]; try done; cbn [clocked] in Hc;
    try (by apply (IH _ t); [|apply other_rates_ok|..]).
  bool_to_prop. apply (IH _ now); [lia| |done|done]. by apply (acquire_rates w t); [|lia|].
Qed.

Lemma start_rate sel limit : 1 <= limit → rate_ok zero_rate sel limit [] 0.
Proof. intros. by constructor; intros; [..|unfold grants_in; simpl; lia|]. Qed.

Lemma start_rates : udp_config_ok c → rates_ok c (start c) 0.
Proof.
  intros [ ]. constructor; cbn [limiter granted start NewLimiter]; [done|apply start_rate; lia|..];
    intros k; apply start_rate; lia.
Qed.
End rates.

(** Nothing selected, nothing counted. *)
Lemma tally_none {K} `{Countable K} h (key : AssociationLease → option K) items k :
  (∀ i a, items !! i = Some a → h i a = false) →
  tally (charged_by (charged_if h key)) items k = 0.
Proof.
  intros Hn. rewrite (tally_frame (λ _ _, None)).
  - unfold tally. rewrite (proj2 (map_empty_filter _ _)); [done|]. by intros i a _.
  - intros i a Hi. unfold charged_if. by rewrite Hn.
Qed.

Lemma counts_none {K} `{Countable K} h (key : AssociationLease → option K) (m : gmap K Z) items :
  counts (charged_by (charged_if h key)) m items →
  (∀ i a, items !! i = Some a → h i a = false) → m = ∅.
Proof.
  intros [Hp Hk] Hn. apply map_empty. intros k. destruct (m !! k) as [n|] eqn:E; [|done].
  specialize (Hk k). rewrite tally_none in Hk by done. unfold count_get in Hk. rewrite E in Hk.
  simpl in Hk. apply Hp in E. lia.
Qed.

(** ** Theorems *)

Section theorems.
Context (ρ : go_range string rateCounter).

(** C8: whatever the interleaving of acquisitions, activations, queue
    reservations, closes and configuration changes, each counter of the
    limiter is the number of leases it stands for: the totals and the
    per-client, per-proxy and per-source counters count the leases between
    their [Acquire] and the end of their [Close], the pending counters those
    between their [Acquire] and the end of their [Activate] or [Close], and
    the queued bytes are the sum over the leases.  In particular a lease is
    never released twice, and [Activate] racing with [Close] gives back the
    pending slot once. *)
Theorem lease_accounting c cmds :
  let w := run ρ (start c) cmds in
  let l := limiter w in
  SnapshotStats l =
    {| Associations := number (held (closing w)) (leases w);
       PendingAssociations := number (waiting (activating w) (closing w)) (leases w);
       QueuedBytes := sum_of (bytes_of (closing w)) (leases w) |} ∧
  (∀ k, count_get (clients l) k = number_of_client (held (closing w)) (leases w) k ∧
        count_get (proxies l) k = number_of_proxy (held (closing w)) (leases w) k ∧
        count_get (pendingClients l) k =
          number_of_client (waiting (activating w) (closing w)) (leases w) k ∧
        count_get (pendingProxies l) k =
          number_of_proxy (waiting (activating w) (closing w)) (leases w) k) ∧
  (∀ k, count_get (sources l) k = number_of_source (held (closing w)) (leases w) k).
Proof using Type.
  intros w l. destruct (run_world_ok ρ (start c) cmds (start_ok c)) as [[Ht Hc Hp] Hs [Ht' Hc' Hp'] Hb _ _].
  fold w in Ht, Hc, Hp, Hs, Ht', Hc', Hp', Hb. fold l in Ht, Hc, Hp, Hs, Ht', Hc', Hp', Hb.
  split; [unfold SnapshotStats; by rewrite Ht, Ht', Hb|]. split.
  - intros k. by rewrite (counts_get _ _ _ _ Hc), (counts_get _ _ _ _ Hp), (counts_get _ _ _ _ Hc'),
      (counts_get _ _ _ _ Hp').
  - intros k. apply (counts_get _ _ _ _ Hs).
Qed.

(** When every lease has been closed and no call is under way, nothing
    is left behind: the counters are zero and the counter maps empty, so the
    limiter leaks neither capacity nor memory. *)
Theorem closed_leases_release_all c cmds :
  let w := run ρ (start c) cmds in
  let l := limiter w in
  closing w = ∅ → activating w = ∅ → (∀ i a, leases w !! i = Some a → closed a = true) →
  SnapshotStats l = {| Associations := 0; PendingAssociations := 0; QueuedBytes := 0 |} ∧
  clients l = ∅ ∧ proxies l = ∅ ∧ sources l = ∅ ∧ pendingClients l = ∅ ∧ pendingProxies l = ∅.
Proof using Type.
  intros w l Hcl Hac Hclosed.
  destruct (run_world_ok ρ (start c) cmds (start_ok c)) as [[Ht Hc Hp] Hs [Ht' Hc' Hp'] Hb _ _].
  fold w in Ht, Hc, Hp, Hs, Ht', Hc', Hp', Hb. fold l in Ht, Hc, Hp, Hs, Ht', Hc', Hp', Hb.
  rewrite Hcl in Ht, Hc, Hp, Hs, Ht', Hc', Hp', Hb. rewrite Hac in Ht', Hc', Hp'.
  assert (Hh : ∀ i a, leases w !! i = Some a → held ∅ i a = false)
    by (intros i a Hi; unfold held; by rewrite (Hclosed i a Hi)).
  assert (Hw : ∀ i a, leases w !! i = Some a → waiting ∅ ∅ i a = false)
    by (intros i a Hi; unfold waiting; by rewrite (Hclosed i a Hi)).
  assert (Hz : sum_of (bytes_of ∅) (leases w) = 0).
  { apply sum_of_zero. intros i a Hi. unfold bytes_of. by rewrite (Hclosed i a Hi). }
  rewrite tally_none in Ht by done. rewrite tally_none in Ht' by done.
  split; [unfold SnapshotStats; by rewrite Ht, Ht', Hb, Hz|].
  repeat split; eapply counts_none; eauto.
Qed.

(** C9: under a validated configuration that stays in force, and callers
    that release what they reserved, no interleaving exceeds a limit:
    associations in total, per client, per proxy and per source address,
    pending ones in total, per client and per proxy, and queued bytes per
    association and in total. *)
Theorem association_limits platform c cmds :
  validateUDPConfig platform c = None → disciplined ρ (start c) cmds = true →
  limits_ok c (run ρ (start c) cmds).
Proof using Type.
  intros Hc Hd. apply validateUDPConfig_ok in Hc. apply run_limits; auto using start_ok, start_limits.
Qed.

(** Under a validated configuration that stays in force and a clock that
    does not go back, at most the configured number of associations is
    granted in any one-second window, in total, per client and per proxy. *)
Theorem association_rates platform c cmds W k :
  validateUDPConfig platform c = None →
  forallb (λ cmd, negb (is_configure cmd)) cmds = true → clocked 0 cmds = true →
  let gs := granted (run ρ (start c) cmds) in
  grants_in (λ _, true) W gs <= MaxNewAssociationsPerSecond c ∧
  grants_in (by_client k) W gs <= MaxNewAssociationsPerSecondPerClient c ∧
  grants_in (by_proxy k) W gs <= MaxNewAssociationsPerSecondPerProxy c.
Proof using Type.
  intros Hc Hs Ht. apply validateUDPConfig_ok in Hc.
  destruct (run_rates ρ c (start c) 0 cmds ltac:(done) (start_rates c Hc) Hs Ht) as (t & _ & [_ Hg Hcl Hp]).
  split_and!; [apply (ro_limit _ _ _ _ _ Hg)|apply (ro_limit _ _ _ _ _ (Hcl k))|apply (ro_limit _ _ _ _ _ (Hp k))].
Qed.
End theorems.

(** ** Examples *)

(** Two visitors; the first association is activated while it is being closed,
    in the middle of both calls. *)
Definition example_commands : list command :=
  [DoAcquire "node" "dns" (Addr4 (IP4 xc0 x00 x02 x01)) 5000000000;
   DoAcquire "node" "dns" (Addr4 (IP4 xc0 x00 x02 x02)) 5000000001;
   DoReserve 0 100; DoActivate 0; DoClose 0; FinishClose 0; FinishActivate 0;
   DoReserve 1 40; DoRelease 1 40; DoClose 1; FinishClose 1].

Definition narrow_config : UDPConfig := {|
  AssociationIdleTimeout := 60 * Second; LinkWriteTimeout := 3 * Second; MaxDatagramSize := 1200;
  MaxAssociations := 2; MaxAssociationsPerClient := 2; MaxAssociationsPerProxy := 2;
  MaxAssociationsPerSourceIP := 1; MaxPendingAssociations := 2; MaxPendingAssociationsPerClient := 2;
  MaxPendingAssociationsPerProxy := 2; MaxNewAssociationsPerSecond := 2;
  MaxNewAssociationsPerSecondPerClient := 2; MaxNewAssociationsPerSecondPerProxy := 2;
  MaxQueuedDatagramsPerAssociation := 4; MaxQueuedBytesPerAssociation := 65507; MaxQueuedBytes := 65507 |}.

(** A third visitor is refused while the two associations live, and again when
    they are gone but the window is not over. *)
Definition crowded_commands : list command :=
  DoAcquire "node" "dns" (Addr4 (IP4 xc0 x00 x02 x01)) 5000000000 ::
  DoAcquire "node" "dns" (Addr4 (IP4 xc0 x00 x02 x02)) 5000000001 ::
  DoAcquire "node" "dns" (Addr4 (IP4 xc0 x00 x02 x03)) 5000000002 ::
  [DoClose 0; FinishClose 0; DoClose 1; FinishClose 1;
   DoAcquire "node" "dns" (Addr4 (IP4 xc0 x00 x02 x03)) 5000000003].

Lemma closed_leases_release_all_witness :
  clients (limiter (run any_range (start DefaultUDPConfig) example_commands)) = ∅.
Proof.
  apply (closed_leases_release_all any_range DefaultUDPConfig example_commands).
  - vm_compute. reflexivity.
  - vm_compute. reflexivity.
  - change (map_Forall (λ _ a, closed a = true)
      (leases (run any_range (start DefaultUDPConfig) example_commands))).
    apply (bool_decide_unpack _). vm_compute. exact I.
Defined.

Lemma association_limits_witness :
  limits_ok narrow_config (run any_range (start narrow_config) crowded_commands).
Proof. apply (association_limits any_range (Some 65507)); vm_compute; reflexivity. Defined.

Lemma association_rates_witness :
  grants_in (λ _, true) 5000000000 (granted (run any_range (start narrow_config) crowded_commands)) = 2 ∧
  grants_in (λ _, true) 5000000000 (granted (run any_range (start narrow_config) crowded_commands))
    <= MaxNewAssociationsPerSecond narrow_config.
Proof.
  split; [vm_compute; reflexivity|].
  refine (proj1 (association_rates any_range (Some 65507) narrow_config crowded_commands 5000000000
                   "node" _ _ _)); vm_compute; reflexivity.
Defined.
