(* ===== verification/UdpBinding.v ===== *)
(** * UDP proxies: the associations of a binding ([internal/proxy/udp/binding.go])

    A binding keeps one association for every visitor address: a lease of the
    limiter, a bounded queue and two tasks, the one that asks the broker for a
    link ([start]) and the one that serves it ([forward]).  Datagrams, sweeps,
    suspensions, the source filter, the broker and the tasks themselves may
    close it at any time.

    A goroutine is the list of the steps it has still to take; a step is one
    critical section or one blocking operation.  [sync.Once] blocks callers
    until its body is over.  Of the broker the model has what [LinkBroker]
    promises: a link that is admitted is cancelled once or served once, not
    both.  The limiter is that of [UdpLimiter]; other bindings share it. *)

From S2P Require Import Prelude GoTime NetAddr ConfigUDP UdpLimiter.

Local Open Scope Z_scope.

Abbreviation AddrPort := (Addr * Z)%type.

(** A [sync.Once]: its body is at a stage, or over. *)
Inductive Once := Fresh | Stage (n : nat) | Over.
#[export] Instance once_eq_dec : EqDecision Once.
Proof. solve_decision. Defined.

(** What the broker has made of the link. *)
Inductive Brokered := NotAsked | LinkPending | LinkServed | LinkCancelled.
#[export] Instance brokered_eq_dec : EqDecision Brokered.
Proof. solve_decision. Defined.

(** [as_joined] says that it entered the table; [as_released] counts the calls
    of [releaseSource], [as_dones] how often [done] was closed. *)
Record Association := {
  as_source : AddrPort;
  as_joined : bool;
  as_queue : list (list byte);
  as_cancelled : bool;
  as_closing : bool;
  as_last : Time;
  as_close : Once;
  as_released : Z;
  as_start : bool;
  as_forward : bool;
  as_finish : Once;
  as_dones : Z;
  as_broker : Brokered;
  as_stream : bool;
  as_writeError : bool;
  as_writerDone : bool
}.
#[export] Instance eta_Association : Eta Association := λ a,
  {| as_source := as_source a; as_joined := as_joined a; as_queue := as_queue a; as_cancelled := as_cancelled a; as_closing := as_closing a;
     as_last := as_last a; as_close := as_close a; as_released := as_released a; as_start := as_start a; as_forward := as_forward a;
     as_finish := as_finish a; as_dones := as_dones a; as_broker := as_broker a; as_stream := as_stream a; as_writeError := as_writeError a;
     as_writerDone := as_writerDone a |}.

Definition newAssociation (source : AddrPort) (joined : bool) (now : Time) : Association :=
  {| as_source := source; as_joined := joined; as_queue := []; as_cancelled := false; as_closing := false; as_last := now; as_close := Fresh;
     as_released := 0; as_start := false; as_forward := false; as_finish := Fresh; as_dones := 0; as_broker := NotAsked; as_stream := false;
     as_writeError := false; as_writerDone := false |}.

(** The steps; [fresh] marks the first datagram of a new association. *)
Inductive Instr :=
| Handle (source : AddrPort) (payload : list byte)
| CheckRoom (i : nat) (payload : list byte) (fresh : bool)
| Reserve (i : nat) (payload : list byte) (fresh : bool)
| Push (i : nat) (payload : list byte) (fresh : bool)
| Unreserve (i : nat) (payload : list byte) (fresh : bool)
| Touch (i : nat)
| StartLink (i : nat)
| Complete (i : nat) (start : bool)
| Finish (i : nat)
| FinishStage (i : nat)
| CancelAssociation (i : nat)
| CloseLease (i : nat)
| CloseLeaseRest (i : nat)
| CloseAssociation (i : nat)
| CloseStage (i : nat)
| ActivateLease (i : nat)
| ActivateLeaseRest (i : nat)
| StartWriter (i : nat)
| ReadLoop (i : nat)
| Respond (i : nat)
| PollErrors (i : nat)
| CloseStream (i : nat)
| AwaitWriter (i : nat)
| WriterLoop (i : nat)
| Unqueue (i : nat) (payload : list byte)
| WriteOut (i : nat) (payload : list byte)
| FailWriter (i : nat)
| EndWriter (i : nat)
| SweepTable (cutoff : Time)
| CloseIfIdle (i : nat) (cutoff : Time)
| SuspendAll
| AwaitDone (i : nat)
| CloseOnce
| CancelBinding
| EndClose
| AwaitAll.

(** What the world answers: a time, whether an operation succeeds, and for a
    datagram the time, the target of the binding and the source filter. *)
Inductive Answer := Go | At (now : Time) | Result (ok : bool) | Resolved (now : Time) (target : option (string * string)) (admits : bool).

(** [group] is the part of the wait group that counts associations. *)
Record Binding := {
  limits : UdpLimiter.World;
  associations : gmap nat Association;
  table : gmap AddrPort nat;
  stopped : bool;
  closeOnce : Once;
  responseEnabled : bool;
  group : Z;
  routines : gmap nat (list Instr)
}.
#[export] Instance eta_Binding : Eta Binding := λ b,
  {| limits := limits b; associations := associations b; table := table b; stopped := stopped b; closeOnce := closeOnce b; responseEnabled := responseEnabled b; group := group b; routines := routines b |}.

Definition size_of (payload : list byte) : Z := Z.of_nat (length payload).

Section binding.
Context (c : UDPConfig) (ρ : go_range string rateCounter) (ρt : go_range AddrPort nat).

Definition update (i : nat) (f : Association → Association) (b : Binding) : Binding :=
  match associations b !! i with Some a => b <| associations := <[i := f a]> (associations b) |> | None => b end.

Definition command (cmd : UdpLimiter.command) (b : Binding) : Binding := b <| limits := exec ρ (limits b) cmd |>.

(** [enqueue] has failed. *)
Definition enqueue_failed (i : nat) (fresh : bool) : list Instr :=
  if fresh then [CloseAssociation i; Complete i true; Complete i false] else [].

Definition room (a : Association) : bool := Z.of_nat (length (as_queue a)) <? MaxQueuedDatagramsPerAssociation c.

(** [HandleDatagram] under the mutex of the binding. *)
Definition HandleDatagram (source : AddrPort) (payload : list byte) (now : Time) (target : option (string * string)) (admits : bool) (b : Binding) :
    list Instr * Binding :=
  if stopped b then ([], b)
  else
    match table b !! source with
    | Some i => ([CheckRoom i payload false], b)
    | None =>
      match target with
      | None => ([], b)
      | Some (client, name) =>
        let i := fresh (dom (leases (limits b))) in
        let granted := is_some (fst (Acquire ρ client name source.1 now (limiter (limits b)))) in
        let b := command (DoAcquire client name source.1 now) b in
        if negb granted then ([], b)
        else
          let b := b <| associations := <[i := newAssociation source admits now]> (associations b) |> in
          if admits then ([CheckRoom i payload true], b <| table := <[source := i]> (table b) |> <| group := group b + 1 |>)
          else ([CancelAssociation i; CloseLease i; CloseLeaseRest i], b)
      end
    end.

(** The body of [Close]: mark, cancel, leave the table, release the source. *)
Definition remove (i : nat) (b : Binding) : Binding :=
  match associations b !! i with
  | Some a => if bool_decide (table b !! as_source a = Some i) then b <| table := delete (as_source a) (table b) |> else b
  | None => b
  end.

Definition close_stage (i : nat) (n : nat) (b : Binding) : list Instr * Binding :=
  match n with
  | 0%nat => ([CloseStage i], update i (λ a, a <| as_closing := true |> <| as_close := Stage 1 |>) b)
  | 1%nat => ([CloseStage i], update i (λ a, a <| as_cancelled := true |> <| as_close := Stage 2 |>) b)
  | 2%nat => ([CloseStage i], update i (λ a, a <| as_close := Stage 3 |>) (remove i b))
  | _ => ([], update i (λ a, a <| as_released := as_released a + 1 |> <| as_close := Over |>) b)
  end.

(** The body of [finishOnce]: close the lease in its two sections, close [done],
    leave the wait group. *)
Definition finish_stage (i : nat) (n : nat) (b : Binding) : list Instr * Binding :=
  match n with
  | 0%nat => ([FinishStage i], update i (λ a, a <| as_finish := Stage 1 |>) (command (DoClose i) b))
  | 1%nat => ([FinishStage i], update i (λ a, a <| as_finish := Stage 2 |>) (command (FinishClose i) b))
  | 2%nat => ([FinishStage i], update i (λ a, a <| as_dones := as_dones a + 1 |> <| as_finish := Stage 3 |>) b)
  | _ => ([], update i (λ a, a <| as_finish := Over |>) (b <| group := group b - 1 |>))
  end.

Definition complete (i : nat) (start : bool) (a : Association) (b : Binding) : list Instr * Binding :=
  let a := if start then a <| as_start := true |> else a <| as_forward := true |> in
  (if as_start a && as_forward a then [Finish i] else [], b <| associations := <[i := a]> (associations b) |>).

Definition touch (now : Time) (a : Association) : Association := if as_closing a then a else a <| as_last := now |>.

Definition close_if_idle (i : nat) (cutoff : Time) (a : Association) (b : Binding) : list Instr * Binding :=
  if as_closing a || (cutoff <? as_last a) then ([], b)
  else ([CloseAssociation i], update i (λ a, a <| as_closing := true |>) b).

(** One step of a goroutine about an association: what it does next, the
    goroutine it starts, and the new state.  [None] blocks. *)
Definition step_on (ins : Instr) (i : nat) (ch : Answer) (a : Association) (b : Binding) : option (list Instr * list Instr * Binding) :=
  let ret p : option (list Instr * list Instr * Binding) := Some (p.1, [], p.2) in
  match ins, ch with
  | CheckRoom _ p fresh, Go => ret (if room a then [Reserve i p fresh] else enqueue_failed i fresh, b)
  | Reserve _ p fresh, Go =>
    match leases (limits b) !! i with
    | Some l =>
      let ok := (ReserveQueue (size_of p) l (limiter (limits b))).1.1 in
      ret (if ok then [Push i p fresh] else enqueue_failed i fresh, command (DoReserve i (size_of p)) b)
    | None => None
    end
  | Push _ p fresh, Go =>
    ret (if room a then (Touch i :: (if fresh then [StartLink i; Complete i true] else []), update i (λ a, a <| as_queue := as_queue a ++ [p] |>) b)
         else ([Unreserve i p fresh], b))
  | Unreserve _ p fresh, Go => ret (enqueue_failed i fresh, command (DoRelease i (size_of p)) b)
  | Touch _, At now => ret ([], update i (touch now) b)
  | StartLink _, Result ok =>
    ret (if as_cancelled a || negb ok then ([CloseAssociation i; Complete i false], b) else ([], update i (λ a, a <| as_broker := LinkPending |>) b))
  | Complete _ start, Go => ret (complete i start a b)
  | Finish _, Go =>
    match as_finish a with
    | Fresh => ret ([FinishStage i], update i (λ a, a <| as_finish := Stage 0 |>) b)
    | Stage _ => None
    | Over => ret ([], b)
    end
  | FinishStage _, Go => match as_finish a with Stage n => ret (finish_stage i n b) | _ => None end
  | CancelAssociation _, Go => ret ([], update i (λ a, a <| as_cancelled := true |>) b)
  | CloseLease _, Go => ret ([], command (DoClose i) b)
  | CloseLeaseRest _, Go => ret ([], command (FinishClose i) b)
  | CloseAssociation _, Go =>
    match as_close a with
    | Fresh => ret ([CloseStage i], update i (λ a, a <| as_close := Stage 0 |>) b)
    | Stage _ => None
    | Over => ret ([], b)
    end
  | CloseStage _, Go => match as_close a with Stage n => ret (close_stage i n b) | _ => None end
  | ActivateLease _, Go => ret ([], command (DoActivate i) b)
  | ActivateLeaseRest _, Go => ret ([], command (FinishActivate i) b)
  | StartWriter _, Go => Some ([], [WriterLoop i], b)
  | ReadLoop _, Result ok => ret (if ok && as_stream a then [Respond i] else [], b)
  | Respond _, Result ok => ret (if negb (responseEnabled b) || ok then [Touch i; PollErrors i] else [], b)
  | PollErrors _, Go => ret (if as_writeError a then [] else [ReadLoop i], b)
  | CloseStream _, Go => ret ([], update i (λ a, a <| as_stream := false |>) b)
  | AwaitWriter _, Go => if as_writerDone a then ret ([], b) else None
  | WriterLoop _, Result true =>
    match as_queue a with
    | p :: q => ret ([Unqueue i p; WriteOut i p], update i (λ a, a <| as_queue := q |>) b)
    | [] => None
    end
  | WriterLoop _, Result false => if as_cancelled a then ret ([FailWriter i], b) else None
  | Unqueue _ p, Go => ret ([], command (DoRelease i (size_of p)) b)
  | WriteOut _ p, Result ok => ret (if ok && as_stream a then [Touch i; WriterLoop i] else [FailWriter i], b)
  | FailWriter _, Go => ret ([CloseStream i; EndWriter i], update i (λ a, a <| as_writeError := true |>) b)
  | EndWriter _, Go => ret ([], update i (λ a, a <| as_writerDone := true |>) b)
  | CloseIfIdle _ cutoff, Go => ret (close_if_idle i cutoff a b)
  | AwaitDone _, Go => if 0 <? as_dones a then ret ([], b) else None
  | _, _ => None
  end.

Definition subject (ins : Instr) : option nat :=
  match ins with
  | Handle _ _ | SweepTable _ | SuspendAll | CloseOnce | CancelBinding | EndClose | AwaitAll => None
  | CheckRoom i _ _ | Reserve i _ _ | Push i _ _ | Unreserve i _ _ | Touch i | StartLink i | Complete i _ | Finish i | FinishStage i
  | CancelAssociation i | CloseLease i | CloseLeaseRest i | CloseAssociation i | CloseStage i | ActivateLease i | ActivateLeaseRest i
  | StartWriter i | ReadLoop i | Respond i | PollErrors i | CloseStream i | AwaitWriter i | WriterLoop i | Unqueue i _ | WriteOut i _
  | FailWriter i | EndWriter i | CloseIfIdle i _ | AwaitDone i => Some i
  end.

Definition values (b : Binding) : list nat := (ρt (table b)).*2.

(** Cancelling the context of the binding cancels those derived from it. *)
Definition cancel_binding (b : Binding) : Binding :=
  b <| stopped := true |> <| associations := (λ a, a <| as_cancelled := true |>) <$> associations b |>.

Definition step_binding (ins : Instr) (ch : Answer) (b : Binding) : option (list Instr * Binding) :=
  match ins, ch with
  | Handle source payload, Resolved now target admits => Some (HandleDatagram source payload now target admits b)
  | SweepTable cutoff, Go => Some ((λ i, CloseIfIdle i cutoff) <$> values b, b)
  | SuspendAll, Go => Some ((CloseAssociation <$> values b) ++ (AwaitDone <$> values b), b)
  | CloseOnce, Go =>
    match closeOnce b with
    | Fresh => Some ([CancelBinding; SuspendAll; EndClose], b <| closeOnce := Stage 0 |>)
    | Stage _ => None
    | Over => Some ([], b)
    end
  | CancelBinding, Go => Some ([], cancel_binding b)
  | EndClose, Go => Some ([], b <| closeOnce := Over |>)
  | AwaitAll, Go => if group b =? 0 then Some ([], b) else None
  | _, _ => None
  end.

Definition step_instr (ins : Instr) (ch : Answer) (b : Binding) : option (list Instr * list Instr * Binding) :=
  match subject ins with
  | Some i => match associations b !! i with Some a => step_on ins i ch a b | None => None end
  | None => (λ p, (p.1, [], p.2)) <$> step_binding ins ch b
  end.

(** ** The system *)

Definition spawn (l : list Instr) (b : Binding) : Binding :=
  match l with [] => b | _ => b <| routines := <[fresh (dom (routines b)) := l]> (routines b) |> end.

(** [forward]: the deferred calls run at the end, in reverse. *)
Definition forward (i : nat) : list Instr :=
  [ActivateLease i; ActivateLeaseRest i; StartWriter i; ReadLoop i; CancelAssociation i; CloseStream i; AwaitWriter i; CloseAssociation i; Complete i false].

Inductive Event :=
| Datagram (source : AddrPort) (payload : list byte)
| Tick (cutoff : Time)
| Suspend
| CloseBinding
| CancelLink (i : nat)
| BindLink (i : nat)
| EndLink (i : nat)
| EndContext (i : nat)
| Deny (i : nat)
| SetResponseEnabled (enabled : bool)
| Elsewhere (cmd : UdpLimiter.command)
| Run (t : nat) (ch : Answer).

(** The lease a command of another binding is about. *)
Definition foreign (cmd : UdpLimiter.command) (b : Binding) : bool :=
  match cmd with
  | DoAcquire _ _ _ _ | DoConfigure _ => true
  | DoActivate i | FinishActivate i | DoReserve i _ | DoRelease i _ | DoClose i | FinishClose i => negb (is_some (associations b !! i))
  end.

Definition on_link (i : nat) (s : Brokered) (f : Association → Association) (l : list Instr) (b : Binding) : option Binding :=
  match associations b !! i with
  | Some a => if bool_decide (as_broker a = s) then Some (spawn l (update i f b)) else None
  | None => None
  end.

Definition step (e : Event) (b : Binding) : option Binding :=
  match e with
  | Datagram source payload => Some (spawn [Handle source payload] b)
  | Tick cutoff => Some (spawn [SweepTable cutoff] b)
  | Suspend => Some (spawn [SuspendAll] b)
  | CloseBinding => Some (spawn [CloseOnce; AwaitAll] b)
  | CancelLink i => on_link i LinkPending (λ a, a <| as_broker := LinkCancelled |>) [CloseAssociation i; Complete i false] b
  | BindLink i => on_link i LinkPending (λ a, a <| as_broker := LinkServed |> <| as_stream := true |>) (forward i) b
  | EndLink i => on_link i LinkServed id [CancelAssociation i; CloseStream i] b
  | EndContext i =>
    match associations b !! i with Some a => if as_cancelled a && bool_decide (as_broker a = LinkServed) then Some (spawn [CloseStream i] b) else None | None => None end
  | Deny i => match associations b !! i with Some a => if as_joined a && (as_released a =? 0) then Some (spawn [CloseAssociation i] b) else None | None => None end
  | SetResponseEnabled enabled => Some (b <| responseEnabled := enabled |>)
  | Elsewhere cmd => if permitted (limits b) cmd && foreign cmd b then Some (command cmd b) else None
  | Run t ch =>
    match routines b !! t with
    | Some (ins :: rest) =>
      match step_instr ins ch b with
      | Some (next, started, b) => Some (spawn started (b <| routines := <[t := next ++ rest]> (routines b) |>))
      | None => None
      end
    | _ => None
    end
  end.

Definition begin : Binding :=
  {| limits := UdpLimiter.start c; associations := ∅; table := ∅; stopped := false; closeOnce := Fresh; responseEnabled := true; group := 0; routines := ∅ |}.

Inductive reachable : Binding → Prop :=
| reach_begin : reachable begin
| reach_event b e b' : reachable b → step e b = Some b' → reachable b'.
End binding.
