(* ===== verification/UdpAssociations.v ===== *)
(** * UDP proxies: one step about an association

    What the goroutines have still to do about an association is counted by
    kind: reports to make, bodies of [sync.Once] to finish, a lease to close,
    bytes to give back.  The state of the association and of its lease agree
    with these counts ([assoc_ok]), and every step of a goroutine keeps it so
    and runs only commands the limiter permits ([step_on_ok]). *)

From S2P Require Import Prelude GoTime NetAddr ConfigUDP UdpLimiter UdpBinding.

Local Open Scope Z_scope.

(** ** What the steps still to come amount to *)

(** Whether the end of [start] or of [forward] is still to be reported, the
    bodies of the two [sync.Once], a lease still to be closed, and bytes that
    are reserved but not in the queue. *)
Inductive Kind := KStart | KForward | KFin | KClose | KFinish | KLease | KBytes.

Definition load (k : Kind) (ins : Instr) : Z :=
  match k, ins with
  | (KStart | KForward), (CheckRoom _ _ true | Reserve _ _ true) => 1
  | KStart, Complete _ true | KForward, (StartLink _ | Complete _ false) => 1
  | (KStart | KForward), (Push _ _ true | Unreserve _ _ true) => 1
  | KFin, Finish _ | KClose, CloseStage _ | KFinish, FinishStage _ | KLease, CloseLease _ => 1
  | KBytes, (Push _ p _ | Unreserve _ p _ | Unqueue _ p) => size_of p
  | _, _ => 0
  end.

Definition weight (k : Kind) (i : nat) (ins : Instr) : Z := if decide (subject ins = Some i) then load k ins else 0.
Definition total_weight (k : Kind) (i : nat) (l : list Instr) : Z := foldr (λ ins n, weight k i ins + n) 0 l.
Definition cnt (k : Kind) (i : nat) (m : gmap nat (list Instr)) : Z := sum_of (λ _ l, total_weight k i l) m.

Lemma load_nonneg k ins : 0 <= load k ins.
Proof. destruct k, ins; cbn [load]; repeat match goal with |- context [if ?x then _ else _] => destruct x end; unfold size_of; lia. Qed.

Lemma weight_nonneg k i ins : 0 <= weight k i ins.
Proof. unfold weight. case_decide; [apply load_nonneg|lia]. Qed.

Lemma total_cons k i ins l : total_weight k i (ins :: l) = weight k i ins + total_weight k i l.
Proof. done. Qed.

Lemma total_nil k i : total_weight k i [] = 0.
Proof. done. Qed.

Lemma total_nonneg k i l : 0 <= total_weight k i l.
Proof. induction l as [|ins l IH]; [done|]. rewrite total_cons. pose proof (weight_nonneg k i ins). lia. Qed.

Lemma total_app k i l l' : total_weight k i (l ++ l') = total_weight k i l + total_weight k i l'.
Proof. induction l as [|ins l IH]; [done|]. cbn [app]. rewrite !total_cons, IH. lia. Qed.

Lemma total_elsewhere k i j l : Forall (λ ins, subject ins = Some j) l → i ≠ j → total_weight k i l = 0.
Proof.
  intros Hl Hne. induction Hl as [|ins l E _ IH]; [done|]. rewrite total_cons, IH. unfold weight. by rewrite decide_False by congruence.
Qed.

Lemma sum_of_nonneg {A} (f : nat → A → Z) m : (∀ i a, 0 <= f i a) → 0 <= sum_of f m.
Proof. intros Hf. induction m as [|i a m Hi IH] using map_ind; [done|]. rewrite sum_of_insert by done. specialize (Hf i a). lia. Qed.

Lemma sum_of_ge {A} (f : nat → A → Z) m i a : (∀ i a, 0 <= f i a) → m !! i = Some a → f i a <= sum_of f m.
Proof.
  intros Hf Hi. rewrite <- (insert_delete_id m i a Hi), sum_of_insert by apply lookup_delete_eq. pose proof (sum_of_nonneg f (delete i m) Hf). lia.
Qed.

Lemma cnt_nonneg k i m : 0 <= cnt k i m.
Proof. apply sum_of_nonneg. intros. apply total_nonneg. Qed.

Lemma cnt_set k i m t l l' : m !! t = Some l → cnt k i (<[t := l']> m) = cnt k i m - total_weight k i l + total_weight k i l'.
Proof. intros Ht. unfold cnt. rewrite (sum_of_set (λ _ l, total_weight k i l)) by done. by rewrite Ht. Qed.

Lemma cnt_spawn k i l b : cnt k i (routines (spawn l b)) = cnt k i (routines b) + total_weight k i l.
Proof.
  unfold spawn. destruct l as [|ins l]; [cbn; lia|]. cbn [routines upd]. unfold cnt.
  rewrite sum_of_insert; [lia|]. apply not_elem_of_dom, is_fresh.
Qed.

(** A closing of [i] comes before the report that its [forward] is over. *)
Definition is_close (i : nat) (ins : Instr) : bool :=
  match ins with CloseAssociation j | CloseStage j => bool_decide (j = i) | _ => false end.
Definition reports (i : nat) (ins : Instr) : bool := match ins with Complete j false => bool_decide (j = i) | _ => false end.
Fixpoint guarded (i : nat) (l : list Instr) : bool :=
  match l with [] => true | ins :: l => is_close i ins || (negb (reports i ins) && guarded i l) end.

Lemma guarded_app i l l' : guarded i l = true → guarded i l' = true → guarded i (l ++ l') = true.
Proof. intros Hl Hl'. induction l as [|ins l IH]; [done|]. cbn in *. destruct (is_close i ins), (reports i ins); cbn in *; auto. Qed.

Lemma guarded_none i l : Forall (λ ins, reports i ins = false) l → guarded i l = true.
Proof. induction 1 as [|ins l E _ IH]; [done|]. cbn. rewrite E, IH. by destruct (is_close i ins). Qed.

Lemma b2z_range x : 0 <= Z.b2z x <= 1.
Proof. destruct x; cbn; lia. Qed.

(** ** One association *)

Definition past (m : nat) (o : Once) : bool := match o with Fresh => false | Stage n => (m <=? n)%nat | Over => true end.
Definition at_work (o : Once) : Z := match o with Stage _ => 1 | _ => 0 end.
Definition bytes_in (q : list (list byte)) : Z := foldr (λ p n, size_of p + n) 0 q.

Lemma bytes_in_snoc q p : bytes_in (q ++ [p]) = bytes_in q + size_of p.
Proof. induction q as [|x q IH]; cbn; [lia|]. unfold bytes_in in *. rewrite IH. lia. Qed.

(** The state of an association, of its lease, and the loads of the steps about
    it agree. *)
Record assoc_ok (a : Association) (l : AssociationLease) (n : Kind → Z) : Prop := {
  ak_start : n KStart = Z.b2z (as_joined a && negb (as_start a));
  ak_forward : n KForward + Z.b2z (bool_decide (as_broker a = LinkPending)) = Z.b2z (as_joined a && negb (as_forward a));
  ak_fin : n KFin + Z.b2z (negb (bool_decide (as_finish a = Fresh))) = Z.b2z (as_joined a && as_start a && as_forward a);
  ak_close : n KClose = at_work (as_close a);
  ak_finish : n KFinish = at_work (as_finish a);
  ak_lease : n KLease + Z.b2z (closed l) = Z.b2z (negb (as_joined a) || past 1 (as_finish a));
  ak_dones : as_dones a = Z.b2z (past 3 (as_finish a));
  ak_released : as_released a = Z.b2z (bool_decide (as_close a = Over));
  ak_bytes : closed l = false → queued l = bytes_in (as_queue a) + n KBytes;
  ak_over : as_forward a = true → as_close a = Over;
  ak_refused : n KLease <= Z.b2z (negb (as_joined a))
}.

Definition core (a : Association) :=
  (as_joined a, as_queue a, as_close a, as_released a, (as_start a, as_forward a, as_finish a, as_dones a, as_broker a)).

Lemma assoc_frame a a' l l' n n' : assoc_ok a l n → core a' = core a → closed l' = closed l → queued l' = queued l → (∀ k, n' k = n k) → assoc_ok a' l' n'.
Proof.
  intros [] E Ec Eq En. injection E as E1 E2 E3 E4 E5 E6 E7 E8 E9. constructor; rewrite ?En, ?Ec, ?Eq, ?E1, ?E2, ?E3, ?E4, ?E5, ?E6, ?E7, ?E8, ?E9; done.
Qed.

Definition removed (a : Association) : bool := past 3 (as_close a).
Definition awaited (a : Association) : Z := Z.b2z (as_joined a && negb (bool_decide (as_finish a = Over))).

(** ** Leases *)

Definition about (cmd : UdpLimiter.command) : option nat :=
  match cmd with
  | DoActivate i | FinishActivate i | DoReserve i _ | DoRelease i _ | DoClose i | FinishClose i => Some i
  | DoAcquire _ _ _ _ | DoConfigure _ => None
  end.

Section safety.
Context (c : UDPConfig) (ρ : go_range string rateCounter) (ρt : go_range AddrPort nat).

Lemma exec_other cmd w j l : about cmd ≠ Some j → leases w !! j = Some l → leases (exec ρ w cmd) !! j = Some l.
Proof using Type.
  intros Hne Hj. destruct cmd; cbn [exec about] in *.
  - destruct (acquire _ _ _ _ _ _) as [[lease|] lim]; [|done]. cbn. rewrite lookup_insert_ne; [done|].
    intros E. apply (is_fresh (dom (leases w))). rewrite E. by apply elem_of_dom_2 in Hj.
  - destruct (leases w !! lease ≫= _); [|done]. cbn. rewrite lookup_insert_ne by congruence. done.
  - destruct (leases w !! lease); [|done]. by case_decide.
  - destruct (leases w !! lease); [|done]. destruct (ReserveQueue _ _ _) as [[??]?]. cbn. rewrite lookup_insert_ne by congruence. done.
  - destruct (leases w !! lease); [|done]. destruct (ReleaseQueue _ _ _) as [??]. cbn. rewrite lookup_insert_ne by congruence. done.
  - destruct (leases w !! lease ≫= _) as [[??]|]; [|done]. cbn. rewrite lookup_insert_ne by congruence. done.
  - destruct (leases w !! lease); [|done]. by destruct (closing w !! lease) as [[??]|].
  - done.
Qed.

Lemma exec_settles cmd w i l : leases w !! i = Some l → (cmd = DoActivate i ∨ cmd = FinishActivate i ∨ cmd = FinishClose i) →
  ∃ l', leases (exec ρ w cmd) !! i = Some l' ∧ closed l' = closed l ∧ queued l' = queued l.
Proof using Type.
  intros Hi [->|[->| ->]]; cbn [exec]; rewrite Hi; cbn [mbind option_bind].
  - unfold Activate_lease. destruct (_ || _); [eauto|]. cbn. rewrite lookup_insert_eq. eexists. split; [done|]. done.
  - case_decide; cbn; eauto.
  - destruct (closing w !! i) as [[??]|]; cbn; eauto.
Qed.

Lemma exec_closes w i l : leases w !! i = Some l → ∃ l', leases (exec ρ w (DoClose i)) !! i = Some l' ∧ closed l' = true.
Proof using Type.
  intros Hi. cbn [exec]. rewrite Hi. cbn [mbind option_bind]. unfold Close_lease. destruct (closed l) eqn:E; [eauto|].
  cbn. rewrite lookup_insert_eq. eexists. split; [done|]. done.
Qed.

Lemma exec_reserves w i l size : leases w !! i = Some l →
  let ok := (ReserveQueue size l (limiter w)).1.1 in
  ∃ l', leases (exec ρ w (DoReserve i size)) !! i = Some l' ∧ closed l' = closed l ∧ queued l' = queued l + (if ok then size else 0).
Proof using Type.
  intros Hi. cbn [exec]. rewrite Hi. unfold ReserveQueue. destruct (closed l || _); [|destruct (_ <? _)]; cbn; rewrite lookup_insert_eq;
    eexists; (split; [done|]); split; cbn; (done || lia).
Qed.

Lemma exec_releases w i l size : leases w !! i = Some l →
  ∃ l', leases (exec ρ w (DoRelease i size)) !! i = Some l' ∧ closed l' = closed l ∧ (closed l = false → queued l' = queued l - size).
Proof using Type.
  intros Hi. cbn [exec]. rewrite Hi. unfold ReleaseQueue. destruct (closed l) eqn:E; cbn; rewrite lookup_insert_eq;
    eexists; (split; [done|]); split; cbn; try done.
Qed.

(** ** One step about an association *)

Definition local_ok (ins : Instr) (i : nat) (a : Association) (b : Binding) (n : Kind → Z) (rest next started : list Instr) (b1 : Binding) : Prop :=
  ∃ a' l', routines b1 = routines b ∧ associations b1 = <[i := a']> (associations b) ∧ leases (limits b1) !! i = Some l' ∧
    (limits b1 = limits b ∨ ∃ cmd, about cmd = Some i ∧ permitted (limits b) cmd = true ∧ limits b1 = exec ρ (limits b) cmd) ∧
    assoc_ok a' l' (λ k, n k - weight k i ins + total_weight k i (next ++ started)) ∧
    Forall (λ x, subject x = Some i) (next ++ started) ∧
    as_source a' = as_source a ∧ as_joined a' = as_joined a ∧
    (∀ src x, table b1 !! src = Some x → table b !! src = Some x ∧ (x = i → removed a' = false)) ∧
    group b1 = group b + awaited a' - awaited a ∧
    (as_close a = Over → as_close a' = Over) ∧ (as_close a' = Over ∨ guarded i (next ++ rest) = true) ∧ guarded i started = true.

Section local.
Context (ins : Instr) (i : nat) (a : Association) (b : Binding) (n : Kind → Z) (rest : list Instr) (l : AssociationLease).
Context (Hsub : subject ins = Some i) (Ha : associations b !! i = Some a) (Hl : leases (limits b) !! i = Some l).
Context (Hok : assoc_ok a l n) (Hn : ∀ k, weight k i ins <= n k).
Context (Htab : ∀ src, table b !! src = Some i → as_source a = src ∧ removed a = false).
Context (Hguard : as_close a = Over ∨ guarded i (ins :: rest) = true).

Lemma weight_own k x : subject x = Some i → weight k i x = load k x.
Proof using Type. intros E. unfold weight. by rewrite decide_True. Qed.

(** What is left of the guard when the step itself is neither a closing nor a report. *)
Lemma guard_next next : is_close i ins = false → guarded i next = true → as_close a = Over ∨ guarded i (next ++ rest) = true.
Proof using Hguard.
  intros Ec Hx. destruct Hguard as [?|Hg]; [by left|right]. cbn in Hg. rewrite Ec in Hg. apply andb_true_iff in Hg as [_ Hg]. by apply guarded_app.
Qed.

Lemma update_own f : update i f b = b <| associations := <[i := f a]> (associations b) |>.
Proof using Ha. unfold update. by rewrite Ha. Qed.

Lemma local_update f next started : (∀ x, x ∈ next ++ started → subject x = Some i) →
  assoc_ok (f a) l (λ k, n k - weight k i ins + total_weight k i (next ++ started)) →
  as_source (f a) = as_source a → as_joined (f a) = as_joined a → removed (f a) = removed a → awaited (f a) = awaited a →
  (as_close a = Over → as_close (f a) = Over) → (as_close (f a) = Over ∨ guarded i (next ++ rest) = true) → guarded i started = true →
  local_ok ins i a b n rest next started (update i f b).
Proof using Ha Hl Htab.
  intros Hs Hok' E1 E2 E3 E4 E5 Hg Hg'. rewrite update_own. exists (f a), l. cbn. split_and!; try done.
  - by left.
  - by apply Forall_forall.
  - intros src x Hx. split; [done|]. intros ->. rewrite E3. by apply (Htab src).
  - rewrite E4. lia.
Qed.

Lemma local_command cmd next l' : about cmd = Some i → permitted (limits b) cmd = true → leases (exec ρ (limits b) cmd) !! i = Some l' →
  (∀ x, x ∈ next → subject x = Some i) → assoc_ok a l' (λ k, n k - weight k i ins + total_weight k i (next ++ [])) →
  (as_close a = Over ∨ guarded i (next ++ rest) = true) → local_ok ins i a b n rest next [] (command ρ cmd b).
Proof using Ha Htab.
  intros Hab Hp Hl' Hs Hok' Hg. exists a, l'. cbn. rewrite app_nil_r in *. split_and!; try done.
  - by rewrite insert_id.
  - right. eauto.
  - by apply Forall_forall.
  - intros src x Hx. split; [done|]. intros ->. by apply (Htab src).
  - lia.
Qed.

(** Steps that leave everything as it is but for what the model does not relate. *)
Lemma local_quiet f next started : (∀ x, x ∈ next ++ started → subject x = Some i) → core (f a) = core a → as_source (f a) = as_source a →
  (∀ k, total_weight k i (next ++ started) = load k ins) → is_close i ins = false → guarded i next = true → guarded i started = true →
  local_ok ins i a b n rest next started (update i f b).
Proof using Hsub Ha Hl Hok Htab Hguard.
  intros Hs Ec Esrc Hk Hic Hg Hg'. injection Ec as E1 E2 E3 E4 E5 E6 E7 E8 E9. apply local_update; try done.
  - eapply assoc_frame; [exact Hok|unfold core; congruence|done|done|]. intros k. cbn. rewrite Hk, weight_own by done. lia.
  - unfold removed. by rewrite E3.
  - unfold awaited. by rewrite E1, E7.
  - by rewrite E3.
  - rewrite E3. by apply guard_next.
Qed.

Lemma local_same next started : (∀ x, x ∈ next ++ started → subject x = Some i) →
  (∀ k, total_weight k i (next ++ started) = load k ins) → is_close i ins = false → guarded i next = true → guarded i started = true →
  local_ok ins i a b n rest next started b.
Proof using Hsub Ha Hl Hok Htab Hguard.
  intros Hs Hk Hic Hg Hg'. assert (E : update i (λ a, a) b = b).
  { rewrite update_own. rewrite insert_id by done. by destruct b. }
  rewrite <- E at 2. by apply local_quiet.
Qed.
End local.

(** What is known before a step. *)
Record ready (ins : Instr) (i : nat) (a : Association) (b : Binding) (n : Kind → Z) (rest : list Instr) (l : AssociationLease) : Prop := {
  rd_subject : subject ins = Some i;
  rd_assoc : associations b !! i = Some a;
  rd_lease : leases (limits b) !! i = Some l;
  rd_ok : assoc_ok a l n;
  rd_load k : weight k i ins <= n k;
  rd_table src : table b !! src = Some i → as_source a = src ∧ removed a = false;
  rd_guard : as_close a = Over ∨ guarded i (ins :: rest) = true
}.

Ltac subjects := let x := fresh "x" in let Hx := fresh in intros x Hx; cbn [app enqueue_failed] in Hx;
  repeat (apply elem_of_cons in Hx as [->|Hx]; [done|]); by apply elem_of_nil in Hx.
Ltac weigh := rewrite ?app_nil_r; cbn [app enqueue_failed]; rewrite ?total_cons, ?total_nil, ?weight_own by done.
Ltac weights := let k := fresh "k" in intros k; weigh; destruct k; cbn [load]; lia.
Ltac guards := cbn [guarded app is_close reports enqueue_failed negb andb orb]; rewrite ?bool_decide_true by done; try done.

Ltac stay := cbn [fst snd]; eapply local_same; [done|done|done|done|done|done|subjects|weights|done|guards|guards].
Ltac keep := cbn [fst snd]; eapply local_quiet; [done|done|done|done|done|done|subjects|done|done|weights|done|guards|guards].

Lemma load_le ins i a b n rest l k : ready ins i a b n rest l → load k ins <= n k.
Proof using Type. intros []. rewrite <- (weight_own i) by done. done. Qed.

Lemma bytes_in_nonneg q : 0 <= bytes_in q.
Proof using Type. induction q as [|p q IH]; [done|]. change (bytes_in (p :: q)) with (size_of p + bytes_in q). unfold size_of. lia. Qed.

Lemma release_permitted ins i a b n rest l p : ready ins i a b n rest l → load KBytes ins = size_of p → permitted (limits b) (DoRelease i (size_of p)) = true.
Proof using Type.
  intros R E. pose proof (load_le _ _ _ _ _ _ _ KBytes R) as Hle. destruct R as [_ _ Hl Hok _ _ _]. pose proof (bytes_in_nonneg (as_queue a)).
  cbn. rewrite Hl. apply andb_true_iff. split; [unfold size_of; apply Z.leb_le; lia|]. destruct (closed l) eqn:Ecl; [done|]. cbn. apply Z.leb_le.
  rewrite (ak_bytes _ _ _ Hok Ecl). lia.
Qed.

(** The steps that put a datagram into the queue. *)
Lemma enqueue_step_ok ins i a b n rest l ch next started b1 :
  (∃ p fresh, ins = CheckRoom i p fresh ∨ ins = Reserve i p fresh ∨ ins = Push i p fresh ∨ ins = Unreserve i p fresh) → ready ins i a b n rest l →
  step_on c ρ ins i ch a b = Some (next, started, b1) → local_ok ins i a b n rest next started b1.
Proof using Type.
  intros (p & fr & [->|[->|[->| ->]]]) R; pose proof R as [Hsub Ha Hl Hok Hn Htab Hguard]; cbn [step_on]; destruct ch; try done.
  - intros [= <- <- <-]. destruct (room c a), fr; stay.
  - rewrite Hl. intros [= <- <- <-]. destruct (exec_reserves (limits b) i l (size_of p) Hl) as (l' & Hl' & Ec & Eq).
    assert (Hp : permitted (limits b) (DoReserve i (size_of p)) = true) by (cbn; unfold size_of; apply Z.leb_le; lia).
    destruct (ReserveQueue _ _ _).1.1, fr; (eapply local_command; [done|done|done|exact Hp|exact Hl'|subjects| |eapply guard_next; [done|done|guards]]);
      (destruct Hok; constructor; rewrite ?Ec, ?Eq; weigh; cbn [load]; try lia; try done; intros Hcl; specialize (ak_bytes0 Hcl); lia).
  - intros [= <- <- <-]. destruct (room c a); [|destruct fr; stay].
    destruct fr; cbn [fst snd]; (eapply local_update; [done|done|done|subjects| |done..|eapply guard_next; [done|done|guards]|done]);
      (destruct Hok; constructor; cbn [as_joined as_queue as_close as_released as_start as_forward as_finish as_dones as_broker upd]; weigh; cbn [load]; try lia; try done;
       intros Hcl; specialize (ak_bytes0 Hcl); rewrite bytes_in_snoc; lia).
  - intros [= <- <- <-]. destruct (exec_releases (limits b) i l (size_of p) Hl) as (l' & Hl' & Ec & Eq).
    pose proof (release_permitted _ _ _ _ _ _ _ p R eq_refl) as Hp.
    destruct fr; (eapply local_command; [done|done|done|exact Hp|exact Hl'|subjects| |eapply guard_next; [done|done|guards]]);
      (destruct Hok; constructor; rewrite ?Ec; weigh; cbn [load]; try lia; try done; intros Hcl; specialize (ak_bytes0 Hcl); rewrite Eq by done; lia).
Qed.

Ltac fields := cbn [as_source as_joined as_queue as_close as_released as_start as_forward as_finish as_dones as_broker upd].
Ltac bools := repeat match goal with
  | H : context [bool_decide ?P] |- _ => destruct (bool_decide P) | |- context [bool_decide ?P] => destruct (bool_decide P) end;
  repeat match goal with | H : context [as_joined ?a] |- _ => destruct (as_joined a) | H : context [as_start ?a] |- _ => destruct (as_start a)
  | H : context [as_forward ?a] |- _ => destruct (as_forward a) end; cbn [Z.b2z andb orb negb] in *; try lia.

(** The reports of the two tasks. *)
Lemma complete_ok i start a b n rest l : ready (Complete i start) i a b n rest l →
  let p := complete i start a b in local_ok (Complete i start) i a b n rest p.1 [] p.2.
Proof using Type.
  intros R p. pose proof (load_le _ _ _ _ _ _ _ KStart R) as H1. pose proof (load_le _ _ _ _ _ _ _ KForward R) as H2.
  destruct R as [Hsub Ha Hl Hok Hn Htab Hguard].
  set (f := λ a, if start then a <| as_start := true |> else a <| as_forward := true |>).
  assert (Ep : p = (if as_start (f a) && as_forward (f a) then [Finish i] else [], update i f b)) by (unfold p, complete, update; by rewrite Ha).
  assert (Hover : start = false → as_close a = Over).
  { intros ->. destruct Hguard as [?|Hg]; [done|]. cbn in Hg. by rewrite bool_decide_true in Hg. }
  rewrite Ep. cbn [fst snd]. eapply local_update; [done|done|done| | | | | | | | |done].
  - destruct (as_start (f a) && as_forward (f a)); subjects.
  - pose proof (b2z_range (bool_decide (as_broker a = LinkPending))). destruct Hok as [K1 K2 K3 K4 K5 K6 K7 K8 K9 K10 K11].
    unfold f. destruct start, (as_joined a) eqn:Ej, (as_start a) eqn:Es, (as_forward a) eqn:Ef; cbn [andb negb orb Z.b2z load] in *; try (exfalso; lia);
      fields; rewrite ?Es, ?Ef; cbn [andb]; constructor; fields; rewrite ?Ej, ?Es, ?Ef; weigh; cbn [load andb negb orb Z.b2z]; try lia; try done; try (intros Hcl; specialize (K9 Hcl); lia);
      intros _; by apply Hover.
  - unfold f. by destruct start.
  - unfold f. by destruct start.
  - unfold f. by destruct start.
  - unfold f. by destruct start.
  - unfold f. by destruct start.
  - unfold f. destruct start; [|left; by apply Hover]. fields. destruct (_ && _); (eapply (guard_next _ _ _ _ Hguard); [done|guards]).
Qed.

Lemma remove_frame i b : routines (remove i b) = routines b ∧ limits (remove i b) = limits b ∧ associations (remove i b) = associations b ∧ group (remove i b) = group b.
Proof using Type. unfold remove. destruct (associations b !! i) as [a|]; [|done]. by destruct (bool_decide (table b !! as_source a = Some i)). Qed.

(** The body of [closeOnce]. *)
Lemma close_stage_ok i a b n rest l m : ready (CloseStage i) i a b n rest l → as_close a = Stage m →
  let p := close_stage i m b in local_ok (CloseStage i) i a b n rest p.1 [] p.2.
Proof using Type.
  intros [Hsub Ha Hl Hok Hn Htab Hguard] Em p. pose proof Hok as [K1 K2 K3 K4 K5 K6 K7 K8 K9 K10 K11]. rewrite Em in *. cbn [at_work] in *.
  assert (Hf : as_forward a = false) by (destruct (as_forward a); [by specialize (K10 eq_refl)|done]).
  assert (Hr : as_released a = 0) by (rewrite K8; by rewrite bool_decide_false).
  destruct m as [|[|[|m]]]; cbn [close_stage p fst snd].
  - eapply local_update; [done|done|done|subjects| |done|done|unfold removed; by rewrite Em|done|by rewrite Em|right; guards|done].
    constructor; fields; weigh; cbn [load at_work]; try lia; try done; try (by rewrite Hr); try (intros Hcl; specialize (K9 Hcl); lia); congruence.
  - eapply local_update; [done|done|done|subjects| |done|done|unfold removed; by rewrite Em|done|by rewrite Em|right; guards|done].
    constructor; fields; weigh; cbn [load at_work]; try lia; try done; try (by rewrite Hr); try (intros Hcl; specialize (K9 Hcl); lia); congruence.
  - set (a' := a <| as_close := Stage 3 |>).
    destruct (remove_frame i b) as (Er & El & Ea & Eg).
    assert (Eb : update i (λ a, a <| as_close := Stage 3 |>) (remove i b) = (remove i b) <| associations := <[i := a']> (associations b) |>)
      by (unfold update; by rewrite Ea, Ha).
    rewrite Eb. exists a', l. split_and!; cbn [routines associations limits group upd]; rewrite ?Er, ?El, ?Eg; try done.
    + by left.
    + constructor; unfold a'; fields; weigh; cbn [load at_work]; try lia; try done; try (by rewrite Hr); try (intros Hcl; specialize (K9 Hcl); lia); congruence.
    + by repeat constructor.
    + intros src x Hx. cbn [table upd] in Hx. unfold remove in Hx. rewrite Ha in Hx. destruct (bool_decide (table b !! as_source a = Some i)) eqn:Et; cbn [table upd] in Hx.
      * apply lookup_delete_Some in Hx as [Hne Hx]. split; [done|]. intros ->. exfalso. apply Hne. by apply (Htab src).
      * split; [done|]. intros ->. destruct (Htab _ Hx) as [E _]. apply bool_decide_eq_false in Et. rewrite E in Et. done.
    + unfold a', awaited. fields. lia.
    + by rewrite Em.
    + right. guards.
  - eapply local_update; [done|done|done|subjects| |done|done| |done|done|by left|done].
    + constructor; fields; weigh; cbn [load at_work]; try lia; try done; try (by rewrite Hr); intros Hcl; specialize (K9 Hcl); lia.
    + unfold removed. rewrite Em. cbn. by destruct m.
Qed.

(** A step that runs a command of the limiter and changes the association. *)
Lemma local_both ins i a b n rest l cmd f next l' : ready ins i a b n rest l → about cmd = Some i → permitted (limits b) cmd = true →
  leases (exec ρ (limits b) cmd) !! i = Some l' → (∀ x, x ∈ next → subject x = Some i) →
  assoc_ok (f a) l' (λ k, n k - weight k i ins + total_weight k i (next ++ [])) →
  as_source (f a) = as_source a → as_joined (f a) = as_joined a → as_close (f a) = as_close a → awaited (f a) = awaited a →
  is_close i ins = false → guarded i next = true → local_ok ins i a b n rest next [] (update i f (command ρ cmd b)).
Proof using Type.
  intros [Hsub Ha Hl Hok Hn Htab Hguard] Hab Hp Hl' Hs Hok' E1 E2 E3 E4 Hic Hg. unfold update. cbn [command associations upd]. rewrite Ha.
  exists (f a), l'. rewrite app_nil_r in *. split_and!; cbn [routines associations limits group upd]; try done.
  - right. eauto.
  - by apply Forall_forall.
  - intros src x Hx. split; [done|]. intros ->. unfold removed. rewrite E3. by apply (Htab src).
  - cbn. rewrite E4. lia.
  - by rewrite E3.
  - rewrite E3. by eapply guard_next.
Qed.

Lemma stage_fresh m : bool_decide (Stage m = Fresh) = false.
Proof using Type. by apply bool_decide_false. Qed.
Lemma over_fresh : bool_decide (Over = Fresh) = false.
Proof using Type. by apply bool_decide_false. Qed.

(** The body of [finishOnce]. *)
Lemma finish_stage_ok i a b n rest l m : ready (FinishStage i) i a b n rest l → as_finish a = Stage m →
  let p := finish_stage ρ i m b in local_ok (FinishStage i) i a b n rest p.1 [] p.2.
Proof using Type.
  intros R Em p. pose proof R as [Hsub Ha Hl Hok Hn Htab Hguard]. pose proof Hok as [K1 K2 K3 K4 K5 K6 K7 K8 K9 K10 K11]. rewrite Em in *. cbn [at_work] in *.
  assert (Hnn : ∀ k, 0 <= n k) by (intros k; etrans; [apply (weight_nonneg k i (FinishStage i))|apply Hn]).
  pose proof (Hnn KFin). pose proof (Hnn KLease). pose proof (b2z_range (closed l)). rewrite bool_decide_false in K3 by done.
  destruct (as_joined a) eqn:Ej; [|cbn in K3; lia]. cbn [andb negb orb] in *.
  destruct m as [|[|[|m]]]; cbn [finish_stage p fst snd].
  - destruct (exec_closes (limits b) i l Hl) as (l' & Hl' & Ec).
    eapply local_both; [exact R|done|done|exact Hl'|subjects| |done|done|done|unfold awaited; fields; by rewrite Em|done|guards].
    constructor; fields; rewrite ?Ej, ?Ec; weigh; rewrite ?stage_fresh, ?over_fresh; cbn in *; try lia; done.
  - destruct (exec_settles (FinishClose i) (limits b) i l Hl (or_intror (or_intror eq_refl))) as (l' & Hl' & Ec & Eq).
    eapply local_both; [exact R|done|done|exact Hl'|subjects| |done|done|done|unfold awaited; fields; by rewrite Em|done|guards].
    constructor; fields; rewrite ?Ej, ?Ec, ?Eq; weigh; rewrite ?stage_fresh, ?over_fresh; cbn in *; try lia; try done; intros Hcl; specialize (K9 Hcl); lia.
  - eapply local_update; [done|done|done|subjects| |done|done|done|unfold awaited; fields; by rewrite Em|done|eapply guard_next; [done|done|guards]|done].
    constructor; fields; rewrite ?Ej; weigh; rewrite ?stage_fresh, ?over_fresh; cbn in *; try lia; try done; intros Hcl; specialize (K9 Hcl); lia.
  - unfold update. cbn [associations upd]. rewrite Ha. eexists _, l. split_and!; cbn [routines associations limits group table upd]; try done.
    + by left.
    + constructor; fields; rewrite ?Ej; weigh; rewrite ?stage_fresh, ?over_fresh; cbn in *; try lia; try done; intros Hcl; specialize (K9 Hcl); lia.
    + intros src x Hx. split; [done|]. intros ->. by apply (Htab src).
    + unfold awaited. fields. rewrite Em, Ej, (bool_decide_true (Over = Over)), (bool_decide_false (Stage _ = Over)) by done. cbn. lia.
Qed.

(** Closing again what is closed. *)
Lemma closed_again i a b n rest l : ready (CloseAssociation i) i a b n rest l → as_close a = Over → local_ok (CloseAssociation i) i a b n rest [] [] b.
Proof using Type.
  intros [Hsub Ha Hl Hok Hn Htab Hguard] Eo. assert (E : update i (λ a, a) b = b).
  { rewrite (update_own _ _ _ Ha), insert_id by done. by destruct b. }
  rewrite <- E at 2. eapply local_update; [done|done|done|subjects| |done|done|done|done|done|by left|done].
  eapply assoc_frame; [exact Hok|done|done|done|]. intros k. cbn beta. weigh. destruct k; cbn [load]; lia.
Qed.

(** Steps that run one command of the limiter and leave the association. *)
Lemma settle_step ins i a b n rest l cmd : ready ins i a b n rest l → cmd = DoActivate i ∨ cmd = FinishActivate i ∨ cmd = FinishClose i →
  is_close i ins = false → (∀ k, load k ins = 0) → local_ok ins i a b n rest [] [] (command ρ cmd b).
Proof using Type.
  intros [Hsub Ha Hl Hok Hn Htab Hguard] Hcmd Hic H0. destruct (exec_settles cmd (limits b) i l Hl Hcmd) as (l' & Hl' & Ec & Eq).
  eapply local_command; [done|done|by destruct Hcmd as [->|[->| ->]]|by destruct Hcmd as [->|[->| ->]]|exact Hl'|subjects| |eapply guard_next; [done|done|guards]].
  eapply assoc_frame; [exact Hok|done|done|done|]. intros k. cbn beta. weigh. rewrite H0. lia.
Qed.

(** Asking the broker for a link. *)
Lemma start_link_ok i a b n rest l : ready (StartLink i) i a b n rest l →
  local_ok (StartLink i) i a b n rest [] [] (update i (λ a, a <| as_broker := LinkPending |>) b).
Proof using Type.
  intros R. pose proof (load_le _ _ _ _ _ _ _ KForward R) as H1. pose proof R as [Hsub Ha Hl Hok Hn Htab Hguard]. cbn [load] in H1.
  eapply local_update; [done|done|done|subjects| |done|done|done|done|done|eapply guard_next; [done|done|guards]|done].
  destruct Hok as [K1 K2 K3 K4 K5 K6 K7 K8 K9 K10 K11]. constructor; fields; weigh; cbn [load]; try lia; try done; [|intros Hcl; specialize (K9 Hcl); lia].
  rewrite (bool_decide_true (LinkPending = LinkPending)) by done. pose proof (b2z_range (bool_decide (as_broker a = LinkPending))).
  pose proof (b2z_range (as_joined a && negb (as_forward a))). cbn in *. lia.
Qed.

(** Entering the bodies of the two [sync.Once]. *)
Lemma finish_begins i a b n rest l : ready (Finish i) i a b n rest l → as_finish a = Fresh →
  local_ok (Finish i) i a b n rest [FinishStage i] [] (update i (λ a, a <| as_finish := Stage 0 |>) b).
Proof using Type.
  intros R Ef. pose proof R as [Hsub Ha Hl Hok Hn Htab Hguard].
  eapply local_update; [done|done|done|subjects| |done|done|done|unfold awaited; fields; by rewrite Ef|done|eapply guard_next; [done|done|guards]|done].
  destruct Hok as [K1 K2 K3 K4 K5 K6 K7 K8 K9 K10 K11]. rewrite Ef in *. rewrite bool_decide_true in K3 by done.
  constructor; fields; weigh; rewrite ?stage_fresh; cbn in *; try lia; try done; intros Hcl; specialize (K9 Hcl); lia.
Qed.

Lemma close_begins i a b n rest l : ready (CloseAssociation i) i a b n rest l → as_close a = Fresh →
  local_ok (CloseAssociation i) i a b n rest [CloseStage i] [] (update i (λ a, a <| as_close := Stage 0 |>) b).
Proof using Type.
  intros R Ec. pose proof R as [Hsub Ha Hl Hok Hn Htab Hguard].
  eapply local_update; [done|done|done|subjects| |done|done|unfold removed; fields; by rewrite Ec|done|by rewrite Ec|right; guards|done].
  destruct Hok as [K1 K2 K3 K4 K5 K6 K7 K8 K9 K10 K11]. rewrite Ec in *.
  constructor; fields; weigh; cbn in *; try lia; try done; [intros Hcl; specialize (K9 Hcl); lia|].
  intros Hf. by specialize (K10 Hf).
Qed.

Lemma finish_not_over i a b n rest l : ready (Finish i) i a b n rest l → as_finish a ≠ Over.
Proof using Type.
  intros R E. pose proof (load_le _ _ _ _ _ _ _ KFin R) as H1. destruct R as [_ _ _ Hok _ _ _]. pose proof (ak_fin _ _ _ Hok) as K. rewrite E in K.
  rewrite bool_decide_false in K by done. cbn in *. pose proof (b2z_range (as_joined a && as_start a && as_forward a)). lia.
Qed.

Lemma close_lease_ok i a b n rest l : ready (CloseLease i) i a b n rest l → local_ok (CloseLease i) i a b n rest [] [] (command ρ (DoClose i) b).
Proof using Type.
  intros R. pose proof (load_le _ _ _ _ _ _ _ KLease R) as H1. pose proof R as [Hsub Ha Hl Hok Hn Htab Hguard]. cbn [load] in H1.
  destruct (exec_closes (limits b) i l Hl) as (l' & Hl' & Ec).
  eapply local_command; [done|done|done|done|exact Hl'|subjects| |eapply guard_next; [done|done|guards]].
  destruct Hok as [K1 K2 K3 K4 K5 K6 K7 K8 K9 K10 K11]. constructor; rewrite ?Ec; weigh; cbn [load]; try lia; try done.
  pose proof (b2z_range (negb (as_joined a) || past 1 (as_finish a))). pose proof (b2z_range (closed l)). cbn in *. lia.
Qed.

(** The writer takes a datagram, then gives its bytes back. *)
Lemma pop_ok i a b n rest l p q : ready (WriterLoop i) i a b n rest l → as_queue a = p :: q →
  local_ok (WriterLoop i) i a b n rest [Unqueue i p; WriteOut i p] [] (update i (λ a, a <| as_queue := q |>) b).
Proof using Type.
  intros R Eq. pose proof R as [Hsub Ha Hl Hok Hn Htab Hguard].
  eapply local_update; [done|done|done|subjects| |done|done|done|done|done|eapply guard_next; [done|done|guards]|done].
  destruct Hok as [K1 K2 K3 K4 K5 K6 K7 K8 K9 K10 K11]. rewrite Eq in *. constructor; fields; weigh; cbn [load]; try lia; try done.
  intros Hcl; specialize (K9 Hcl). change (bytes_in (p :: q)) with (size_of p + bytes_in q) in K9. lia.
Qed.

Lemma unqueue_ok i a b n rest l p : ready (Unqueue i p) i a b n rest l → local_ok (Unqueue i p) i a b n rest [] [] (command ρ (DoRelease i (size_of p)) b).
Proof using Type.
  intros R. pose proof R as [Hsub Ha Hl Hok Hn Htab Hguard]. destruct (exec_releases (limits b) i l (size_of p) Hl) as (l' & Hl' & Ec & Eq).
  pose proof (release_permitted _ _ _ _ _ _ _ p R eq_refl) as Hp.
  eapply local_command; [done|done|done|exact Hp|exact Hl'|subjects| |eapply guard_next; [done|done|guards]].
  destruct Hok; constructor; rewrite ?Ec; weigh; cbn [load]; try lia; try done. intros Hcl; specialize (ak_bytes0 Hcl); rewrite Eq by done; lia.
Qed.

(** Every step about an association. *)
Lemma step_on_ok ins i ch a b n rest l next started b1 : ready ins i a b n rest l → step_on c ρ ins i ch a b = Some (next, started, b1) →
  local_ok ins i a b n rest next started b1.
Proof using Type.
  intros R. pose proof (rd_subject _ _ _ _ _ _ _ R) as Hs.
  destruct ins; try done; injection Hs as ->;
    try (intros E; eapply enqueue_step_ok; [|exact R|exact E]; eexists _, _; tauto); pose proof R as [Hsub Ha Hl Hok Hn Htab Hguard]; cbn [step_on];
    destruct ch; try done; rewrite <- ?surjective_pairing.
  - (* Touch *) intros [= <- <- <-]. eapply local_quiet; [done|done|done|done|done|done|subjects| | |weights|done|guards|guards]; unfold touch; by destruct (as_closing a).
  - (* StartLink *) intros [= <- <- <-]. destruct (as_cancelled a || negb ok); cbn [fst snd]; [stay|by eapply start_link_ok].
  - (* Complete *) intros [= <- <- <-]. by eapply complete_ok.
  - (* Finish *) destruct (as_finish a) eqn:Ef; [|done|by destruct (finish_not_over _ _ _ _ _ _ R)]. intros [= <- <- <-]. by eapply finish_begins.
  - (* FinishStage *) destruct (as_finish a) eqn:Ef; [done| |done]. intros [= <- <- <-]. by eapply finish_stage_ok.
  - (* CancelAssociation *) intros [= <- <- <-]. keep.
  - (* CloseLease *) intros [= <- <- <-]. by eapply close_lease_ok.
  - (* CloseLeaseRest *) intros [= <- <- <-]. eapply settle_step; [exact R|tauto|done|by intros []].
  - (* CloseAssociation *) destruct (as_close a) eqn:Ec; [|done|]; intros [= <- <- <-]; [by eapply close_begins|by eapply closed_again].
  - (* CloseStage *) destruct (as_close a) eqn:Ec; [done| |done]. intros [= <- <- <-]. by eapply close_stage_ok.
  - (* ActivateLease *) intros [= <- <- <-]. eapply settle_step; [exact R|tauto|done|by intros []].
  - (* ActivateLeaseRest *) intros [= <- <- <-]. eapply settle_step; [exact R|tauto|done|by intros []].
  - (* StartWriter *) intros [= <- <- <-]. stay.
  - (* ReadLoop *) intros [= <- <- <-]. destruct (ok && as_stream a); stay.
  - (* Respond *) intros [= <- <- <-]. destruct (negb (responseEnabled b) || ok); stay.
  - (* PollErrors *) intros [= <- <- <-]. destruct (as_writeError a); stay.
  - (* CloseStream *) intros [= <- <- <-]. keep.
  - (* AwaitWriter *) destruct (as_writerDone a); [|done]. intros [= <- <- <-]. stay.
  - (* WriterLoop *) destruct ok; [destruct (as_queue a) as [|p q] eqn:Eq; [done|]|destruct (as_cancelled a); [|done]]; intros [= <- <- <-]; [by eapply pop_ok|stay].
  - (* Unqueue *) intros [= <- <- <-]. by eapply unqueue_ok.
  - (* WriteOut *) intros [= <- <- <-]. destruct (ok && as_stream a); stay.
  - (* FailWriter *) intros [= <- <- <-]. keep.
  - (* EndWriter *) intros [= <- <- <-]. keep.
  - (* CloseIfIdle *) intros [= <- <- <-]. unfold close_if_idle. destruct (as_closing a || (cutoff <? as_last a)); [stay|keep].
  - (* AwaitDone *) destruct (0 <? as_dones a); [|done]. intros [= <- <- <-]. stay.
Qed.
End safety.
