(* ===== verification/UdpBindingSafety.v ===== *)
(** * UDP proxies: leases, queues and the end of a binding

    Every association is settled once: its lease is given back when both of its
    tasks are over and not before, whoever closes it and whatever is under way;
    the bytes its lease accounts for are those in its queue and in the hands of
    a goroutine.  This discharges what [UdpLimiter] assumes of its callers. *)

From S2P Require Import Prelude GoTime NetAddr ConfigUDP UdpLimiter UdpBinding UdpAssociations.

Local Open Scope Z_scope.

Section binding_safety.
Context (c : UDPConfig) (ρ : go_range string rateCounter) (ρt : go_range AddrPort nat).

Definition guards_hold (b : Binding) : Prop :=
  ∀ t l i a, routines b !! t = Some l → associations b !! i = Some a → as_close a = Over ∨ guarded i l = true.

Definition entry_ok (b : Binding) (i : nat) : Prop :=
  match associations b !! i with
  | Some a => ∃ l, leases (limits b) !! i = Some l ∧ assoc_ok a l (λ k, cnt k i (routines b))
  | None => ∀ k, cnt k i (routines b) = 0
  end.

Record binding_ok (b : Binding) : Prop := {
  bo_world : world_ok (limits b);
  bo_limits : limits_ok c (limits b);
  bo_entry i : entry_ok b i;
  bo_table src i : table b !! src = Some i → ∃ a, associations b !! i = Some a ∧ as_source a = src ∧ as_joined a = true ∧ removed a = false;
  bo_group : group b = sum_of (λ _ a, awaited a) (associations b);
  bo_guards : guards_hold b
}.

(** ** Goroutines *)

(** Steps that weigh nothing report nothing. *)
Definition light (l : list Instr) : Prop := Forall (λ ins, ∀ k, load k ins = 0) l.

Lemma light_weight k i l : light l → total_weight k i l = 0.
Proof using Type.
  induction 1 as [|ins l E _ IH]; [done|]. rewrite total_cons, IH. unfold weight. case_decide; [by rewrite E|done].
Qed.

Lemma total_zero_guarded i l : total_weight KForward i l = 0 → guarded i l = true.
Proof using Type.
  intros H. apply guarded_none. induction l as [|ins l IH]; [constructor|]. rewrite total_cons in H.
  pose proof (weight_nonneg KForward i ins). pose proof (total_nonneg KForward i l). constructor; [|apply IH; lia].
  destruct (reports i ins) eqn:E; [|done]. exfalso. destruct ins; try done. cbn in E. destruct start; [done|]. apply bool_decide_eq_true in E as ->.
  assert (E : weight KForward i (Complete i false) = 1) by (unfold weight; by rewrite decide_True). lia.
Qed.

Lemma light_guarded i l : light l → guarded i l = true.
Proof using Type. intros Hl. by apply total_zero_guarded, light_weight. Qed.

Lemma cnt_zero_guarded i m t l : cnt KForward i m = 0 → m !! t = Some l → guarded i l = true.
Proof using Type.
  intros H Ht. apply total_zero_guarded. pose proof (total_nonneg KForward i l).
  pose proof (sum_of_ge (λ _ l, total_weight KForward i l) m t l (λ _ l, total_nonneg KForward i l) Ht). unfold cnt in H. cbn in *. lia.
Qed.

Lemma spawn_routine l b t x : routines (spawn l b) !! t = Some x → routines b !! t = Some x ∨ x = l.
Proof using Type.
  unfold spawn. destruct l as [|ins l]; [by left|]. cbn [routines upd]. rewrite lookup_insert. case_decide; [intros [= <-]; by right|by left].
Qed.

Lemma spawn_frame l b : limits (spawn l b) = limits b ∧ associations (spawn l b) = associations b ∧ table (spawn l b) = table b ∧ group (spawn l b) = group b.
Proof using Type. by destruct l. Qed.

(** A step of a goroutine: what it has still to do, and the one it starts. *)
Lemma cnt_step k i b t ins rest next started : routines b !! t = Some (ins :: rest) →
  cnt k i (routines (spawn started (b <| routines := <[t := next ++ rest]> (routines b) |>))) =
  cnt k i (routines b) - weight k i ins + total_weight k i (next ++ started).
Proof using Type.
  intros Ht. rewrite cnt_spawn. cbn [routines upd]. rewrite (cnt_set _ _ _ _ _ _ Ht), !total_app, total_cons. lia.
Qed.

(** ** Transitions *)

(** Nothing changes but goroutines, which keep their weight, and what is not
    related. *)
Lemma ok_frame b b' : binding_ok b → limits b' = limits b → table b' = table b → group b' = group b →
  (∀ i, core <$> (associations b' !! i) = core <$> (associations b !! i)) →
  (∀ i, as_source <$> (associations b' !! i) = as_source <$> (associations b !! i)) →
  (∀ k i, cnt k i (routines b') = cnt k i (routines b)) → guards_hold b' → binding_ok b'.
Proof using Type.
  intros [Hw Hl He Ht Hg Hgu] El Et Eg Ec Es Ek Hgu'. constructor; rewrite ?El, ?Et, ?Eg; try done.
  - intros i. specialize (He i). specialize (Ec i). unfold entry_ok in *. rewrite El. destruct (associations b !! i) as [a|], (associations b' !! i) as [a'|]; try done.
    + destruct He as (l & ? & Hok). exists l. split; [done|]. injection Ec as C1 C2 C3 C4 C5 C6 C7 C8 C9. eapply assoc_frame; [exact Hok|unfold core; congruence|done|done|]. intros k. cbn. apply Ek.
    + intros k. rewrite Ek. apply He.
  - intros src i Hi. destruct (Ht src i Hi) as (a & Ha & E1 & E2 & E3). specialize (Ec i). specialize (Es i). rewrite Ha in Ec, Es.
    destruct (associations b' !! i) as [a'|]; [|done]. exists a'. injection Ec as C1 C2 C3 C4 C5 C6 C7 C8 C9. injection Es as Es. unfold removed. rewrite C3. split_and!; (done || congruence).
  - rewrite Hg. assert (E : (λ a, awaited a) <$> associations b' = (λ a, awaited a) <$> associations b).
    { apply map_eq. intros i. specialize (Ec i). rewrite !lookup_fmap. destruct (associations b !! i), (associations b' !! i); try done. cbn in *.
      injection Ec as C1 C2 C3 C4 C5 C6 C7 C8 C9. unfold awaited. by rewrite C1, C7. }
    assert (Hs : ∀ m : gmap nat Association, sum_of (λ _ a, awaited a) m = sum_of (λ _ z, z) ((λ a, awaited a) <$> m)).
    { intros m. induction m as [|i a m Hi IH] using map_ind; [done|]. rewrite fmap_insert, !sum_of_insert, IH; [done|by rewrite lookup_fmap, Hi|done]. }
    by rewrite !Hs, E.
Qed.

(** One association changes, with its lease and the steps about it. *)
Lemma ok_change b b' i a a' l' : binding_ok b → associations b !! i = Some a → associations b' = <[i := a']> (associations b) →
  world_ok (limits b') → limits_ok c (limits b') → leases (limits b') !! i = Some l' →
  (∀ j l, j ≠ i → leases (limits b) !! j = Some l → leases (limits b') !! j = Some l) →
  assoc_ok a' l' (λ k, cnt k i (routines b')) → (∀ j k, j ≠ i → cnt k j (routines b') = cnt k j (routines b)) →
  as_source a' = as_source a → as_joined a' = as_joined a →
  (∀ src x, table b' !! src = Some x → table b !! src = Some x ∧ (x = i → removed a' = false)) →
  group b' = group b + awaited a' - awaited a → guards_hold b' → binding_ok b'.
Proof using Type.
  intros [Hw Hl He Ht Hg Hgu] Ha Ea Hw' Hl' Hi' Hj' Hok Hk Es Ej Htab Hgr Hgu'. constructor; try done.
  - intros j. unfold entry_ok. rewrite Ea, lookup_insert. case_decide as Eji; [subst j; by exists l'|]. specialize (He j). unfold entry_ok in He.
    destruct (associations b !! j) as [x|].
    + destruct He as (l & ? & Hokj). exists l. split; [by apply Hj'|]. eapply assoc_frame; [exact Hokj|done|done|done|]. intros k. cbn. by apply Hk.
    + intros k. rewrite Hk by done. apply He.
  - intros src j Hj. destruct (Htab src j Hj) as [Hj0 Hr]. destruct (Ht src j Hj0) as (x & Hx & E1 & E2 & E3). rewrite Ea, lookup_insert. case_decide as Eji; [|by exists x].
    subst j. rewrite Ha in Hx. injection Hx as <-. exists a'. split_and!; [done|congruence|congruence|by apply Hr].
  - rewrite Ea, (sum_of_set (λ _ a, awaited a)) by done. rewrite Ha, Hgr, Hg. cbn. lia.
Qed.

(** A new goroutine that weighs nothing. *)
Lemma spawn_light l b : light l → binding_ok b → binding_ok (spawn l b).
Proof using Type.
  intros Hl Hb. destruct (spawn_frame l b) as (E1 & E2 & E3 & E4). eapply ok_frame; [exact Hb|done|done|done|by intros; rewrite E2|by intros; rewrite E2| |].
  - intros k i. rewrite cnt_spawn, light_weight by done. lia.
  - intros t x i a Hx Ha. rewrite E2 in Ha. destruct (spawn_routine _ _ _ _ Hx) as [Hx'| ->]; [by eapply (bo_guards b Hb)|right; by apply light_guarded].
Qed.

Hypothesis Hconfig : udp_config_ok c.

Lemma head_load k i b t ins rest : routines b !! t = Some (ins :: rest) → weight k i ins <= cnt k i (routines b).
Proof using Type.
  intros Ht. pose proof (sum_of_ge (λ _ l, total_weight k i l) _ t _ (λ _ l, total_nonneg k i l) Ht) as H. cbn beta in H. rewrite total_cons in H.
  pose proof (total_nonneg k i rest). unfold cnt. lia.
Qed.

Lemma entry_lease b i a : binding_ok b → associations b !! i = Some a → ∃ l, leases (limits b) !! i = Some l ∧ assoc_ok a l (λ k, cnt k i (routines b)).
Proof using Type. intros Hb Ha. pose proof (bo_entry b Hb i) as H. unfold entry_ok in H. by rewrite Ha in H. Qed.

(** A goroutine takes a step about an association. *)
Lemma run_on b t ch ins rest i a next started b1 : binding_ok b → routines b !! t = Some (ins :: rest) → subject ins = Some i →
  associations b !! i = Some a → step_on c ρ ins i ch a b = Some (next, started, b1) →
  binding_ok (spawn started (b1 <| routines := <[t := next ++ rest]> (routines b1) |>)).
Proof using Hconfig.
  intros Hb Ht Hs Ha E. destruct (entry_lease b i a Hb Ha) as (l & Hl & Hok).
  assert (R : ready ins i a b (λ k, cnt k i (routines b)) rest l).
  { constructor; try done.
    - intros k. by eapply head_load.
    - intros src Hi. destruct (bo_table b Hb src i Hi) as (x & Hx & ? & _ & ?). rewrite Ha in Hx. by injection Hx as <-.
    - by eapply (bo_guards b Hb). }
  destruct (step_on_ok c ρ _ _ _ _ _ _ _ _ _ _ _ R E) as (a' & l' & Er & Ea & Hl' & Hlim & Hok' & Hsub & Esrc & Ej & Htab & Eg & Ho & Hgn & Hgs).
  destruct (spawn_frame started (b1 <| routines := <[t := next ++ rest]> (routines b1) |>)) as (F1 & F2 & F3 & F4).
  assert (Hcnt : ∀ k j, cnt k j (routines (spawn started (b1 <| routines := <[t := next ++ rest]> (routines b1) |>))) =
    cnt k j (routines b) - weight k j ins + total_weight k j (next ++ started)) by (intros k j; rewrite (cnt_step _ _ _ _ ins) by (by rewrite Er); by rewrite Er).
  eapply (ok_change b _ i a a' l'); [done|done|by rewrite F2| | |by rewrite F1| | | |done|done|by rewrite F3|by rewrite F4|].
  - rewrite F1. cbn. destruct Hlim as [->|(cmd & _ & _ & ->)]; [apply Hb|apply exec_ok, Hb].
  - rewrite F1. cbn. destruct Hlim as [->|(cmd & _ & Hp & ->)]; [apply Hb|]. by apply exec_limits; [done|apply Hb|apply Hb|].
  - intros j x Hj Hx. rewrite F1. cbn. destruct Hlim as [->|(cmd & Hc & _ & ->)]; [done|]. apply exec_other; [congruence|done].
  - eapply assoc_frame; [exact Hok'|done|done|done|]. intros k. cbn beta. apply Hcnt.
  - intros j k Hj. rewrite Hcnt, (total_elsewhere k j i) by done. unfold weight. rewrite decide_False by congruence. lia.
  - intros t' x j y Hx Hy. rewrite F2 in Hy. cbn in Hy. rewrite Ea in Hy.
    assert (Hold : ∀ z, associations b !! j = Some z → as_close z = Over → as_close y = Over).
    { intros z Hz Hov. rewrite lookup_insert in Hy. case_decide; [|congruence]. subst j. injection Hy as <-. rewrite Ha in Hz. injection Hz as <-. by apply Ho. }
    assert (Hsome : is_Some (associations b !! j)) by (rewrite lookup_insert in Hy; case_decide; subst; eauto). destruct Hsome as [z Hz].
    destruct (spawn_routine _ _ _ _ Hx) as [Hx'| ->].
    + cbn in Hx'. rewrite lookup_insert in Hx'. case_decide as Et; [injection Hx' as <-|].
      * destruct (decide (j = i)) as [->|Hne]; [rewrite lookup_insert_eq in Hy; by injection Hy as <-|].
        destruct (bo_guards b Hb t _ j z Ht Hz) as [Hov|Hgd]; [left; by eapply Hold|]. right.
        cbn in Hgd. apply Forall_app in Hsub as [Hsn _]. apply guarded_app.
        -- apply total_zero_guarded. by eapply total_elsewhere.
        -- destruct (is_close j ins) eqn:Ec; [|by apply andb_true_iff in Hgd as [_ ?]]. destruct ins; try done; cbn in Ec; apply bool_decide_eq_true in Ec; cbn in Hs; congruence.
      * rewrite Er in Hx'. destruct (bo_guards b Hb t' x j z Hx' Hz) as [Hov|?]; [left; by eapply Hold|by right].
    + destruct (decide (j = i)) as [->|Hne]; [by right|]. right. apply total_zero_guarded. apply Forall_app in Hsub as [_ Hsn]. by eapply total_elsewhere.
Qed.

(** A goroutine takes a step that is not about one association, and so is not
    weighed. *)
Lemma run_light t ins rest next b1 : binding_ok b1 → routines b1 !! t = Some (ins :: rest) → subject ins = None → light next →
  binding_ok (b1 <| routines := <[t := next ++ rest]> (routines b1) |>).
Proof using Type.
  intros Hb Ht Hs Hn. eapply ok_frame; [exact Hb|done|done|done|done|done| |].
  - intros k i. cbn [routines upd]. rewrite (cnt_set _ _ _ _ _ _ Ht), total_app, total_cons, (light_weight k i next) by done. unfold weight. rewrite decide_False by congruence. lia.
  - intros t' x j y Hx Hy. cbn in Hx, Hy. rewrite lookup_insert in Hx. case_decide as Et; [injection Hx as <-|by eapply (bo_guards b1 Hb)].
    destruct (bo_guards b1 Hb t _ j y Ht Hy) as [?|Hg]; [by left|right]. apply guarded_app; [by apply light_guarded|]. cbn in Hg.
    destruct (is_close j ins) eqn:Ec; [by destruct ins|]. by apply andb_true_iff in Hg as [_ ?].
Qed.

(** A command of the limiter about no association of the binding. *)
Lemma ok_command cmd b : binding_ok b → permitted (limits b) cmd = true → foreign cmd b = true → binding_ok (command ρ cmd b).
Proof using Hconfig.
  intros Hb Hp Hf. constructor; cbn; try apply Hb.
  - apply exec_ok, Hb.
  - by apply exec_limits; [done|apply Hb|apply Hb|].
  - intros i. pose proof (bo_entry b Hb i) as He. unfold entry_ok in *. cbn. destruct (associations b !! i) as [a|] eqn:Ea; [|done].
    destruct He as (l & Hl & Hok). exists l. split; [|done]. apply exec_other; [|done]. intros Hab.
    destruct cmd; cbn in Hab, Hf; try done; injection Hab as ->; by rewrite Ea in Hf.
Qed.

(** What the broker does to a link. *)
Lemma ok_link b i a f l lease : binding_ok b → associations b !! i = Some a → leases (limits b) !! i = Some lease → (∀ x, x ∈ l → subject x = Some i) →
  assoc_ok (f a) lease (λ k, cnt k i (routines b) + total_weight k i l) → as_source (f a) = as_source a → as_joined (f a) = as_joined a →
  as_close (f a) = as_close a → as_finish (f a) = as_finish a → guarded i l = true → binding_ok (spawn l (update i f b)).
Proof using Type.
  intros Hb Ha Hl Hs Hok E1 E2 E3 E4 Hg. rewrite (update_own i a b Ha). set (b1 := b <| associations := _ |>).
  destruct (spawn_frame l b1) as (F1 & F2 & F3 & F4). assert (Hsl : Forall (λ ins, subject ins = Some i) l) by (by apply Forall_forall).
  eapply (ok_change b _ i a (f a) lease); [done|done|by rewrite F2|by rewrite F1; apply Hb|by rewrite F1; apply Hb|by rewrite F1|by rewrite F1| | |done|done| | |].
  - eapply assoc_frame; [exact Hok|done|done|done|]. intros k. cbn beta. by rewrite cnt_spawn.
  - intros j k Hj. rewrite cnt_spawn, (total_elsewhere k j i) by done. cbn. lia.
  - rewrite F3. intros src x Hx. split; [done|]. intros ->. destruct (bo_table b Hb src i Hx) as (y & Hy & _ & _ & Hr). rewrite Ha in Hy. injection Hy as <-.
    unfold removed in *. by rewrite E3.
  - rewrite F4. unfold awaited. rewrite E2, E4. cbn. lia.
  - intros t x j y Hx Hy. rewrite F2 in Hy. cbn in Hy.
    destruct (spawn_routine _ _ _ _ Hx) as [Hx'| ->].
    + cbn in Hx'. rewrite lookup_insert in Hy. case_decide as Eji; [|by eapply (bo_guards b Hb)]. subst j. injection Hy as <-. rewrite E3. by eapply (bo_guards b Hb).
    + right. destruct (decide (j = i)) as [->|Hne]; [done|]. apply total_zero_guarded. by eapply total_elsewhere.
Qed.

Lemma acquire_grants w client name src now : is_some (Acquire ρ client name src now (limiter w)).1 = true →
  ∃ l, leases (exec ρ w (DoAcquire client name src now)) !! fresh (dom (leases w)) = Some l ∧ closed l = false ∧ queued l = 0.
Proof using Type.
  unfold Acquire. cbn [exec]. destruct (acquire_cases ρ client name src now (limiter w)) as [(l' & -> & _)|[_ ->]]; [done|]. intros _. cbn. rewrite lookup_insert_eq. eauto.
Qed.

Lemma fresh_unused b : binding_ok b → associations b !! fresh (dom (leases (limits b))) = None.
Proof using Type.
  intros Hb. destruct (associations b !! _) as [a|] eqn:Ea; [|done]. destruct (entry_lease b _ a Hb Ea) as (l & Hl & _).
  destruct (is_fresh (dom (leases (limits b)))). by apply elem_of_dom_2 in Hl.
Qed.

(** A new association; its first goroutine has the whole of its work ahead. *)
Lemma ok_create b b' t ins rest next i a l : binding_ok b → routines b !! t = Some (ins :: rest) → subject ins = None →
  associations b !! i = None → associations b' = <[i := a]> (associations b) → routines b' = <[t := next ++ rest]> (routines b) →
  world_ok (limits b') → limits_ok c (limits b') → leases (limits b') !! i = Some l →
  (∀ j x, leases (limits b) !! j = Some x → leases (limits b') !! j = Some x) →
  assoc_ok a l (λ k, total_weight k i next) → Forall (λ x, subject x = Some i) next → guarded i next = true →
  (∀ src x, table b' !! src = Some x → table b !! src = Some x ∨ x = i ∧ as_source a = src ∧ as_joined a = true ∧ removed a = false) →
  group b' = group b + awaited a → binding_ok b'.
Proof using Type.
  intros Hb Ht Hs Hnone Ea Er Hw Hl Hi Hj Hok Hsub Hg Htab Hgr.
  assert (H0 : ∀ k, cnt k i (routines b) = 0) by (intros k; pose proof (bo_entry b Hb i) as He; unfold entry_ok in He; rewrite Hnone in He; apply He).
  assert (Hins : ∀ k j, weight k j ins = 0) by (intros k j; unfold weight; by rewrite decide_False by congruence).
  assert (Hcnt : ∀ k j, cnt k j (routines b') = cnt k j (routines b) + total_weight k j next)
    by (intros k j; rewrite Er, (cnt_set _ _ _ _ _ _ Ht), total_app, total_cons, Hins; lia).
  constructor; try done.
  - intros j. unfold entry_ok. rewrite Ea, lookup_insert. case_decide as Eji.
    + subst j. exists l. split; [done|]. eapply assoc_frame; [exact Hok|done|done|done|]. intros k. cbn beta. rewrite Hcnt, H0. lia.
    + assert (Hc : ∀ k, cnt k j (routines b') = cnt k j (routines b)) by (intros k; rewrite Hcnt, (total_elsewhere k j i) by done; lia).
      pose proof (bo_entry b Hb j) as He. unfold entry_ok in He. destruct (associations b !! j) as [x|]; [|intros k; by rewrite Hc].
      destruct He as (y & Hy & Hoky). exists y. split; [by apply Hj|]. by eapply assoc_frame.
  - intros src j Hx. destruct (Htab src j Hx) as [Hold|(-> & ? & ? & ?)]; [|exists a; rewrite Ea, lookup_insert_eq; by split_and!].
    destruct (bo_table b Hb src j Hold) as (y & Hy & ?). exists y. rewrite Ea, lookup_insert_ne by congruence. done.
  - rewrite Ea, sum_of_insert, Hgr, (bo_group b Hb) by done. lia.
  - intros t' x j y Hx Hy. rewrite Er, lookup_insert in Hx. rewrite Ea, lookup_insert in Hy.
    assert (Hold : ∀ x', routines b !! t' = Some x' → as_close y = Over ∨ guarded j x' = true).
    { intros x' Hx'. destruct (decide (i = j)) as [<-|]; [right; by eapply cnt_zero_guarded|by eapply (bo_guards b Hb)]. }
    destruct (decide (t = t')) as [<-|]; [|by apply Hold]. injection Hx as <-. destruct (Hold _ Ht) as [?|Hgd]; [by left|right]. apply guarded_app.
    + destruct (decide (j = i)) as [->|?]; [done|]. apply total_zero_guarded. by eapply total_elsewhere.
    + cbn in Hgd. destruct (is_close j ins) eqn:Ec; [by destruct ins|]. by apply andb_true_iff in Hgd as [_ ?].
Qed.

Ltac own := let x := fresh in let Hx := fresh in intros x Hx; repeat (apply elem_of_cons in Hx as [->|Hx]; [done|]); by apply elem_of_nil in Hx.
Ltac lights := repeat constructor; by intros [].

(** A datagram arrives. *)
Lemma datagram_ok b t rest src payload now target admits : binding_ok b → routines b !! t = Some (Handle src payload :: rest) →
  let p := HandleDatagram ρ src payload now target admits b in binding_ok (p.2 <| routines := <[t := p.1 ++ rest]> (routines p.2) |>).
Proof using Hconfig.
  intros Hb Ht p. unfold p, HandleDatagram.
  destruct (stopped b); [eapply run_light; [done|exact Ht|done|constructor]|].
  destruct (table b !! src) as [i|] eqn:Etab; [eapply run_light; [done|exact Ht|done|lights]|].
  destruct target as [[client name]|]; [|eapply run_light; [done|exact Ht|done|constructor]].
  set (i := fresh (dom (leases (limits b)))). destruct (is_some _) eqn:Egr; cbn [negb].
  2: { cbn [fst snd]. eapply run_light; [by apply ok_command|exact Ht|done|constructor]. }
  destruct (acquire_grants (limits b) client name src.1 now Egr) as (l & Hl & Ecl & Eq).
  assert (Hw : world_ok (exec ρ (limits b) (DoAcquire client name src.1 now))) by apply exec_ok, Hb.
  assert (Hlim : limits_ok c (exec ρ (limits b) (DoAcquire client name src.1 now))) by (apply exec_limits; [done|apply Hb|apply Hb|done]).
  assert (Hkeep : ∀ j x, leases (limits b) !! j = Some x → leases (exec ρ (limits b) (DoAcquire client name src.1 now)) !! j = Some x) by (intros; by apply exec_other).
  destruct admits; cbn [fst snd]; eapply (ok_create b _ t (Handle src payload) rest _ i _ l);
    [done|exact Ht|done|by apply fresh_unused|done|done|done|done|done|done| |by repeat constructor|done| |
     |done|exact Ht|done|by apply fresh_unused|done|done|done|done|done|done| |by repeat constructor|done| |].
  - constructor; rewrite ?total_cons, ?total_nil, ?weight_own by done; cbn; rewrite ?Ecl, ?Eq; done.
  - intros s x Hx. cbn in Hx. rewrite lookup_insert in Hx. case_decide as Es; [|by left]. injection Hx as <-. right. by rewrite Es.
  - cbn. done.
  - constructor; rewrite ?total_cons, ?total_nil, ?weight_own by done; cbn; rewrite ?Ecl, ?Eq; done.
  - by left.
  - cbn. lia.
Qed.

Lemma ok_cancel b : binding_ok b → binding_ok (cancel_binding b).
Proof using Type.
  intros Hb. assert (Hla : ∀ i, associations (cancel_binding b) !! i = (λ a, a <| as_cancelled := true |>) <$> associations b !! i) by (intros; apply lookup_fmap).
  eapply ok_frame; [exact Hb|done|done|done| | |done|].
  - intros i. rewrite Hla. by destruct (associations b !! i).
  - intros i. rewrite Hla. by destruct (associations b !! i).
  - intros t l i a Hl Ha. rewrite Hla in Ha. destruct (associations b !! i) as [x|] eqn:Ex; [|done]. injection Ha as <-. by eapply (bo_guards b Hb t l i x).
Qed.

(** Whether it was closed is not related. *)
Lemma ok_once b o : binding_ok b → binding_ok (b <| closeOnce := o |>).
Proof using Type. intros Hb. eapply ok_frame; try done. apply Hb. Qed.

Lemma light_fmap {A} (f : A → Instr) l : (∀ x k, load k (f x) = 0) → light (f <$> l).
Proof using Type. intros Hf. apply Forall_fmap, Forall_forall. intros x _ k. apply Hf. Qed.

Lemma run_binding b t ch ins rest next b1 : binding_ok b → routines b !! t = Some (ins :: rest) → subject ins = None →
  step_binding ρ ρt ins ch b = Some (next, b1) → binding_ok (b1 <| routines := <[t := next ++ rest]> (routines b1) |>).
Proof using Hconfig.
  intros Hb Ht Hs. destruct ins; try done; destruct ch; try done; cbn [step_binding].
  - intros [= E]. pose proof (datagram_ok b t rest source payload now target admits Hb Ht) as H. by rewrite E in H.
  - intros [= <- <-]. eapply run_light; [done|exact Ht|done|]. apply light_fmap. by intros ? [].
  - intros [= <- <-]. eapply run_light; [done|exact Ht|done|]. apply Forall_app. split; apply light_fmap; by intros ? [].
  - destruct (closeOnce b); [|done|]; intros [= <- <-]; (eapply run_light; [by try apply ok_once|exact Ht|done|lights]).
  - intros [= <- <-]. eapply run_light; [by apply ok_cancel|exact Ht|done|constructor].
  - intros [= <- <-]. eapply run_light; [by apply ok_once|exact Ht|done|constructor].
  - destruct (group b =? 0); [|done]. intros [= <- <-]. eapply run_light; [done|exact Ht|done|constructor].
Qed.

(** The broker cancels a pending link, or hands it to [forward]. *)
Lemma link_ends b i a f l : binding_ok b → associations b !! i = Some a → as_broker a = LinkPending → (∀ x, x ∈ l → subject x = Some i) →
  guarded i l = true → (∀ k, total_weight k i l = match k with KForward => 1 | _ => 0 end) →
  (∃ s g, s ≠ LinkPending ∧ f a = (a <| as_broker := s |>) <| as_stream := g |>) → binding_ok (spawn l (update i f b)).
Proof using Type.
  intros Hb Ha Ep Hs Hg Hk (s & g & Hne & Ef). destruct (entry_lease b i a Hb Ha) as (lease & Hl & [K1 K2 K3 K4 K5 K6 K7 K8 K9 K10 K11]).
  eapply (ok_link b i a f l lease); try done; try (by rewrite Ef).
  rewrite Ep in K2. rewrite bool_decide_true in K2 by done.
  constructor; rewrite ?Ef; cbn [as_joined as_queue as_close as_released as_start as_forward as_finish as_dones as_broker upd]; rewrite ?Hk; try lia; try done.
  - rewrite (bool_decide_false (s = LinkPending)) by done. cbn [Z.b2z] in *. lia.
  - intros Hc. rewrite (K9 Hc). lia.
Qed.

Lemma event_ok e b b' : binding_ok b → step c ρ ρt e b = Some b' → binding_ok b'.
Proof using Hconfig.
  intros Hb. destruct e as [src payload|cutoff| | |i|i|i|i|i|enabled|cmd|t ch]; cbn [step].
  - intros <-%(inj Some). apply spawn_light; [lights|done].
  - intros <-%(inj Some). apply spawn_light; [lights|done].
  - intros <-%(inj Some). apply spawn_light; [lights|done].
  - intros <-%(inj Some). apply spawn_light; [lights|done].
  - unfold on_link. destruct (associations b !! i) as [a|] eqn:Ea; [|done]. destruct (bool_decide (as_broker a = _)) eqn:Ep; [|done]. intros <-%(inj Some).
    apply bool_decide_eq_true in Ep. eapply link_ends; [done|exact Ea|done|own|cbn; by rewrite bool_decide_true| |by eexists LinkCancelled, (as_stream a)].
    intros k. rewrite !total_cons, total_nil, !weight_own by done. by destruct k.
  - unfold on_link. destruct (associations b !! i) as [a|] eqn:Ea; [|done]. destruct (bool_decide (as_broker a = _)) eqn:Ep; [|done]. intros <-%(inj Some).
    apply bool_decide_eq_true in Ep. eapply link_ends; [done|exact Ea|done|unfold forward; own|cbn; by rewrite bool_decide_true| |by eexists LinkServed, true].
    intros k. unfold forward. rewrite !total_cons, total_nil, !weight_own by done. by destruct k.
  - unfold on_link. destruct (associations b !! i) as [a|] eqn:Ea; [|done]. destruct (bool_decide (as_broker a = _)) eqn:Ep; [|done]. intros <-%(inj Some).
    assert (E : update i id b = b) by (rewrite (update_own i a b Ea), insert_id by done; by destruct b). rewrite E. apply spawn_light; [lights|done].
  - destruct (associations b !! i) as [a|]; [|done]. destruct (_ && _); [|done]. intros <-%(inj Some). apply spawn_light; [lights|done].
  - destruct (associations b !! i) as [a|]; [|done]. destruct (_ && _); [|done]. intros <-%(inj Some). apply spawn_light; [lights|done].
  - intros <-%(inj Some). eapply ok_frame; try done. apply Hb.
  - destruct (_ && _) eqn:E; [|done]. intros <-%(inj Some). apply andb_true_iff in E as [Hp Hf]. by apply ok_command.
  - destruct (routines b !! t) as [[|ins rest]|] eqn:Et; [done| |done]. unfold step_instr. destruct (subject ins) as [i|] eqn:Es.
    + destruct (associations b !! i) as [a|] eqn:Ea; [|done]. destruct (step_on _ _ _ _ _ _ _) as [[[next started] b1]|] eqn:E; [|done]. intros <-%(inj Some). by eapply run_on.
    + destruct (step_binding _ _ _ _ _) as [[next b1]|] eqn:E; [|done]. intros <-%(inj Some). cbn [spawn]. by eapply run_binding.
Qed.

Lemma begin_ok : binding_ok (begin c).
Proof using Hconfig.
  constructor; [apply start_ok|by apply start_limits|intros i; unfold entry_ok; cbn; by rewrite lookup_empty|intros src i; cbn; by rewrite lookup_empty|done|].
  intros t l i a. cbn. by rewrite lookup_empty.
Qed.

Lemma binding_reachable_ok b : reachable c ρ ρt b → binding_ok b.
Proof using Hconfig. induction 1 as [|b e b' _ IH E]; [apply begin_ok|by eapply event_ok]. Qed.

(** A closed lease of an association that entered the table. *)
Lemma settled b i a l : binding_ok b → associations b !! i = Some a → leases (limits b) !! i = Some l → as_joined a = true → past 1 (as_finish a) = true →
  as_start a = true ∧ as_forward a = true ∧ as_broker a ≠ LinkPending ∧ as_close a = Over ∧ closed l = true.
Proof using Type.
  intros Hb Ha Hl Ej Hp. destruct (entry_lease b i a Hb Ha) as (l' & Hl' & [K1 K2 K3 K4 K5 K6 K7 K8 K9 K10 K11]). rewrite Hl in Hl'. injection Hl' as <-.
  rewrite Ej, Hp in *. cbn [negb andb orb Z.b2z] in *. pose proof (cnt_nonneg KFin i (routines b)). pose proof (cnt_nonneg KForward i (routines b)).
  pose proof (cnt_nonneg KLease i (routines b)).
  rewrite bool_decide_false in K3 by (by destruct (as_finish a)). destruct (as_start a), (as_forward a); cbn [negb andb Z.b2z] in *; try lia.
  split_and!; [done|done| |by apply K10|].
  - intros Ep. rewrite Ep, bool_decide_true in K2 by done. cbn in K2. lia.
  - destruct (closed l); [done|]. cbn in K6. lia.
Qed.

Lemma released_of b i a : binding_ok b → associations b !! i = Some a → as_close a = Over → as_released a = 1 ∧ ∀ src, table b !! src ≠ Some i.
Proof using Type.
  intros Hb Ha Eo. destruct (entry_lease b i a Hb Ha) as (l & _ & Hok). rewrite (ak_released _ _ _ Hok), Eo, bool_decide_true by done. split; [done|].
  intros src Hs. destruct (bo_table b Hb src i Hs) as (x & Hx & _ & _ & Hr). rewrite Ha in Hx. injection Hx as <-. unfold removed in Hr. by rewrite Eo in Hr.
Qed.

Lemma sum_zero_each {A} (f : nat → A → Z) m i a : (∀ i a, 0 <= f i a) → sum_of f m = 0 → m !! i = Some a → f i a = 0.
Proof using Type. intros Hf H0 Hi. pose proof (sum_of_ge f m i a Hf Hi). specialize (Hf i a). lia. Qed.

(** ** The length of a queue *)

Definition queue_length (a : Association) : Z := Z.of_nat (length (as_queue a)).

(** The queues of [b1] are those of [b], or no longer than the limit. *)
Definition queues_from (b b1 : Binding) : Prop :=
  ∀ j a', associations b1 !! j = Some a' → queue_length a' <= MaxQueuedDatagramsPerAssociation c ∨
    ∃ a, associations b !! j = Some a ∧ queue_length a' <= queue_length a.

Lemma queues_same b b1 : associations b1 = associations b → queues_from b b1.
Proof using Type. intros E j a' Hj. rewrite E in Hj. right. by exists a'. Qed.

Lemma queues_update i f b : (∀ a, associations b !! i = Some a → queue_length (f a) <= MaxQueuedDatagramsPerAssociation c ∨ queue_length (f a) <= queue_length a) →
  queues_from b (update i f b).
Proof using Type.
  intros Hf. unfold update. destruct (associations b !! i) as [a|] eqn:Ea; [|by apply queues_same]. intros j a'. cbn. rewrite lookup_insert.
  case_decide as Eij; [subst j; intros [= <-]; destruct (Hf a eq_refl); eauto|]. right. by exists a'.
Qed.

Lemma queues_keep i f b : (∀ a, as_queue (f a) = as_queue a) → queues_from b (update i f b).
Proof using Type. intros Hf. apply queues_update. intros a _. right. unfold queue_length. by rewrite Hf. Qed.

Lemma queues_over i f b b0 : associations b0 = associations b → (∀ a, as_queue (f a) = as_queue a) → queues_from b (update i f b0).
Proof using Type. intros E Hf. pose proof (queues_keep i f b0 Hf) as Hq. unfold queues_from in *. by rewrite E in Hq. Qed.

Lemma queues_remove i f b : (∀ a, as_queue (f a) = as_queue a) → queues_from b (update i f (remove i b)).
Proof using Type.
  intros Hf. apply queues_over; [|done]. by destruct (remove_frame i b) as (_ & _ & Ea & _).
Qed.

Lemma queues_complete i start a b : associations b !! i = Some a → queues_from b (complete i start a b).2.
Proof using Type.
  intros Ha. unfold complete. cbn. intros j a'. cbn. rewrite lookup_insert. case_decide as Eij; [subst j|intros Hj; right; by exists a'].
  intros [= <-]. right. exists a. split; [done|]. unfold queue_length. by destruct start.
Qed.

Lemma step_on_queues ins i ch a b next started b1 : associations b !! i = Some a → step_on c ρ ins i ch a b = Some (next, started, b1) → queues_from b b1.
Proof using Type.
  intros Ha E. destruct ins, ch; cbn [step_on] in E; try done; repeat case_match; try done; injection E as <- <- <-; cbn [fst snd];
    try (by apply queues_same); try (by apply queues_keep); try (by apply queues_complete).
  1-2: apply queues_update; intros x Hx; left; rewrite Ha in Hx; injection Hx as <-; unfold queue_length; cbn; rewrite length_app; cbn;
    match goal with H : room c _ = true |- _ => unfold room in H; apply Z.ltb_lt in H end; lia.
  - apply queues_keep. intros x. unfold touch. by destruct (as_closing x).
  - destruct n as [|[|[|n]]]; cbn [finish_stage snd]; apply queues_over; done.
  - destruct n as [|[|[|n]]]; cbn [close_stage snd]; first [by apply queues_remove|by apply queues_keep].
  - apply queues_update. intros x Hx. right. rewrite Ha in Hx. injection Hx as <-. unfold queue_length. cbn. match goal with H : as_queue _ = _ |- _ => rewrite H end. cbn. lia.
  - unfold close_if_idle. destruct (as_closing a || (cutoff <? as_last a)); [by apply queues_same|by apply queues_keep].
Qed.

Definition queues_bounded (b : Binding) : Prop := ∀ i a, associations b !! i = Some a → queue_length a <= MaxQueuedDatagramsPerAssociation c.

Lemma queues_bounded_from b b1 : queues_bounded b → queues_from b b1 → queues_bounded b1.
Proof using Type. intros Hb Hq j a' Hj. destruct (Hq j a' Hj) as [?|(a & Ha & ?)]; [done|]. specialize (Hb j a Ha). lia. Qed.

Lemma spawn_queues l b : queues_from b (spawn l b).
Proof using Type. apply queues_same. apply (spawn_frame l b). Qed.

Lemma step_binding_queues ins ch b next b1 : step_binding ρ ρt ins ch b = Some (next, b1) → queues_from b b1.
Proof using Hconfig.
  destruct ins, ch; cbn [step_binding]; try done.
  - intros E%(inj Some). apply (f_equal snd) in E. cbn [snd] in E. rewrite <- E. clear E. unfold HandleDatagram.
    destruct (stopped b); [by apply queues_same|]. destruct (table b !! source); [by apply queues_same|]. destruct target as [[client name]|]; [|by apply queues_same].
    destruct (is_some _); cbn [negb]; [|by apply queues_same]. intros j a' Hj. destruct admits; cbn in Hj; rewrite lookup_insert in Hj;
      (case_decide; [injection Hj as <-; left; unfold queue_length; cbn; pose proof (uo_datagrams c Hconfig); lia|right; by exists a']).
  - intros [= _ <-]. by apply queues_same.
  - intros [= _ <-]. by apply queues_same.
  - destruct (closeOnce b); [|done|]; intros [= _ <-]; by apply queues_same.
  - intros [= _ <-]. intros j a' Hj. cbn in Hj. rewrite lookup_fmap in Hj. destruct (associations b !! j) as [a|] eqn:Ea; [|done]. injection Hj as <-. right. by exists a.
  - intros [= _ <-]. by apply queues_same.
  - destruct (group b =? 0); [|done]. intros [= _ <-]. by apply queues_same.
Qed.

Lemma event_queues e b b' : queues_bounded b → step c ρ ρt e b = Some b' → queues_bounded b'.
Proof using Hconfig.
  intros Hb. assert (Hl : ∀ i s f l b', (∀ a, as_queue (f a) = as_queue a) → on_link i s f l b = Some b' → queues_bounded b').
  { intros i s f l b1 Hf. unfold on_link. destruct (associations b !! i) as [a|]; [|done]. destruct (bool_decide _); [|done]. intros <-%(inj Some).
    eapply queues_bounded_from; [|apply spawn_queues]. eapply queues_bounded_from; [exact Hb|by apply queues_keep]. }
  destruct e as [src payload|cutoff| | |i|i|i|i|i|enabled|cmd|t ch]; cbn [step].
  1-4: intros <-%(inj Some); by eapply queues_bounded_from; [|apply spawn_queues].
  1-3: by apply Hl.
  1-2: destruct (associations b !! i); [|done]; destruct (_ && _); [|done]; intros <-%(inj Some); by eapply queues_bounded_from; [|apply spawn_queues].
  - by intros <-%(inj Some).
  - destruct (_ && _); [|done]. by intros <-%(inj Some).
  - destruct (routines b !! t) as [[|ins rest]|]; [done| |done]. destruct (step_instr c ρ ρt ins ch b) as [[[next started] b1]|] eqn:E; [|done]. intros <-%(inj Some).
    eapply queues_bounded_from; [|apply spawn_queues]. eapply (queues_bounded_from b1); [|by apply queues_same]. eapply queues_bounded_from; [exact Hb|].
    unfold step_instr in E. destruct (subject ins) as [i|].
    + destruct (associations b !! i) as [a|] eqn:Ea; [|done]. by eapply step_on_queues.
    + destruct (step_binding ρ ρt ins ch b) as [[next' b2]|] eqn:Es; [|done]. injection E as _ _ <-. by eapply step_binding_queues.
Qed.

Lemma reachable_queued b : reachable c ρ ρt b → queues_bounded b.
Proof using Hconfig. induction 1 as [|b e b' _ IH E]; [intros i a; cbn; by rewrite lookup_empty|by eapply event_queues]. Qed.
End binding_safety.

(** ** Theorems *)

Section binding_theorems.
Context (platform : option Z) (c : UDPConfig) (ρ : go_range string rateCounter) (ρt : go_range AddrPort nat) (b : Binding).
Hypotheses (Hvalid : validateUDPConfig platform c = None) (Hreach : reachable c ρ ρt b).

Local Lemma here : binding_ok c b.
Proof using Hvalid Hreach. apply (binding_reachable_ok c ρ ρt); [by eapply validateUDPConfig_ok|done]. Qed.

(** C36: however datagrams, sweeps, suspensions, denials, the broker and the tasks
    of the associations interleave, the configured limits on what is held at one
    time are kept: associations in total, per client, per proxy and per source,
    pending ones in total, per client and per proxy, queued bytes in total and
    per association, and queued datagrams per association.  The bytes an open
    lease accounts for are those in the queue of its association and those a
    goroutine holds on the way in or out, so what the limiter assumes of its
    callers is a consequence of the code here.  (The rates of new associations
    are the limiter's own and need a clock that does not go back.) *)
Theorem binding_within_limits :
  limits_ok c (limits b) ∧
  ∀ i a, associations b !! i = Some a →
    Z.of_nat (length (as_queue a)) <= MaxQueuedDatagramsPerAssociation c ∧
    ∃ l, leases (limits b) !! i = Some l ∧
      (closed l = false → queued l = bytes_in (as_queue a) + cnt KBytes i (routines b)).
Proof using Hvalid Hreach.
  split; [apply here|]. intros i a Ha. split.
  - apply (reachable_queued c ρ ρt (validateUDPConfig_ok _ _ Hvalid) b Hreach i a Ha).
  - destruct (entry_lease c b i a here Ha) as (l & Hl & Hok). exists l. split; [done|apply Hok].
Qed.

(** C37: an association is settled once: [done] is closed at most once and its
    source released at most once, and its lease is closed only when both the
    task that asks for a link and the one that serves it are over, no link is
    pending at the broker, the source is released and the table no longer
    leads to it; when [done] is closed, so is the lease. *)
Theorem association_settled_once i a l :
  associations b !! i = Some a → leases (limits b) !! i = Some l → as_joined a = true →
  0 <= as_dones a <= 1 ∧ 0 <= as_released a <= 1 ∧
  (closed l = true → as_start a = true ∧ as_forward a = true ∧ as_broker a ≠ LinkPending ∧ as_released a = 1 ∧ ∀ src, table b !! src ≠ Some i) ∧
  (0 < as_dones a → closed l = true).
Proof using Hvalid Hreach.
  intros Ha Hl Ej. destruct (entry_lease c b i a here Ha) as (l' & Hl' & Hok). rewrite Hl in Hl'. injection Hl' as <-.
  rewrite (ak_dones _ _ _ Hok), (ak_released _ _ _ Hok). split_and!; try apply b2z_range.
  - intros Hc. assert (Hp : past 1 (as_finish a) = true).
    { pose proof (ak_lease _ _ _ Hok) as K. rewrite Hc, Ej in K. cbn in K. pose proof (cnt_nonneg KLease i (routines b)). destruct (past 1 (as_finish a)); [done|cbn in K; lia]. }
    destruct (settled c b i a l here Ha Hl Ej Hp) as (? & ? & ? & Eo & _). destruct (released_of c b i a here Ha Eo) as [Er Ht].
    rewrite <- (ak_released _ _ _ Hok). done.
  - intros Hd. assert (Hp : past 1 (as_finish a) = true) by (destruct (as_finish a) as [|[|[|[|n]]]|]; cbn in *; (done || lia)).
    by apply (settled c b i a l here Ha Hl Ej Hp).
Qed.

(** C38: when [Close] of the binding returns from the wait group nothing is left:
    the table is empty, and every association that ever entered it has closed
    its lease, closed [done] and released its source exactly once. *)
Theorem binding_drained : group b = 0 →
  table b = ∅ ∧
  ∀ i a, associations b !! i = Some a → as_joined a = true →
    as_dones a = 1 ∧ as_released a = 1 ∧ ∃ l, leases (limits b) !! i = Some l ∧ closed l = true.
Proof using Hvalid Hreach.
  intros Hg. rewrite (bo_group c b here) in Hg.
  assert (Hover : ∀ i a, associations b !! i = Some a → as_joined a = true → as_finish a = Over).
  { intros i a Ha Ej. pose proof (sum_zero_each (λ _ a, awaited a) _ i a (λ _ a, proj1 (b2z_range _)) Hg Ha) as H. cbn in H. unfold awaited in H. rewrite Ej in H.
    destruct (bool_decide (as_finish a = Over)) eqn:E; [by apply bool_decide_eq_true in E|done]. }
  assert (Hset : ∀ i a, associations b !! i = Some a → as_joined a = true → ∃ l, leases (limits b) !! i = Some l ∧ closed l = true ∧ as_close a = Over).
  { intros i a Ha Ej. destruct (entry_lease c b i a here Ha) as (l & Hl & _). exists l. split; [done|].
    destruct (settled c b i a l here Ha Hl Ej) as (_ & _ & _ & ? & ?); [by rewrite (Hover i a Ha Ej)|done]. }
  split.
  - apply map_eq. intros src. rewrite lookup_empty. destruct (table b !! src) as [i|] eqn:E; [|done]. exfalso.
    destruct (bo_table c b here src i E) as (a & Ha & _ & Ej & Hr). destruct (Hset i a Ha Ej) as (_ & _ & _ & Eo). unfold removed in Hr. by rewrite Eo in Hr.
  - intros i a Ha Ej. destruct (Hset i a Ha Ej) as (l & Hl & Hc & Eo). destruct (entry_lease c b i a here Ha) as (l' & _ & Hok).
    rewrite (ak_dones _ _ _ Hok), (ak_released _ _ _ Hok), (Hover i a Ha Ej), Eo, bool_decide_true by done. eauto.
Qed.
End binding_theorems.

(** ** A visitor whose link is served, and a second one whose link is cancelled
    while the binding closes *)

Fixpoint play (c : UDPConfig) (es : list Event) (b : Binding) : option Binding :=
  match es with [] => Some b | e :: es => step c any_range any_range e b ≫= play c es end.

Lemma play_reachable c es b b' : reachable c any_range any_range b → play c es b = Some b' → reachable c any_range any_range b'.
Proof.
  revert b. induction es as [|e es IH]; cbn; intros b Hb; [by intros [= <-]|]. destruct (step c any_range any_range e b) as [b1|] eqn:E; [|done]. cbn.
  apply IH. by eapply reach_event.
Qed.

Definition visitor (n : byte) : AddrPort := (Addr4 (IP4 xc0 x00 x02 n), 4000).
Definition arrival (t : nat) (n : byte) : list Event :=
  [Datagram (visitor n) [x01; x02; x03]; Run t (Resolved 5000000000 (Some ("node"%string, "dns"%string)) true); Run t Go; Run t Go; Run t Go; Run t (At 5000000001);
   Run t (Result true); Run t Go].

(** The writer has taken the datagram from the queue but not given back its
    bytes. *)
Definition busy_events : list Event :=
  arrival 0 x01 ++ [BindLink 0; Run 1 Go; Run 1 Go; Run 1 Go; Run 2 (Result true)].

Definition closing_events : list Event :=
  busy_events ++ [Run 2 Go; Run 2 (Result true); Run 2 (At 5000000002)] ++ arrival 3 x02 ++
  [CloseBinding; Run 4 Go; Run 4 Go; Run 4 Go] ++ replicate 10 (Run 4 Go) ++
  [CancelLink 1; Run 5 Go; Run 5 Go; Run 5 Go] ++ replicate 4 (Run 5 Go) ++
  [Run 1 (Result false); Run 1 Go; Run 1 Go; Run 2 (Result false); Run 2 Go; Run 2 Go; Run 2 Go; Run 1 Go] ++ replicate 7 (Run 1 Go) ++ replicate 4 (Run 4 Go).

Definition busy : Binding := from_some _ (ltac:(vm_compute; reflexivity) : is_some (play narrow_config busy_events (begin narrow_config)) = true).
Definition drained : Binding := from_some _ (ltac:(vm_compute; reflexivity) : is_some (play narrow_config closing_events (begin narrow_config)) = true).

Lemma busy_binding_reachable : reachable narrow_config any_range any_range busy.
Proof. eapply play_reachable; [apply reach_begin|apply (from_some_eq _ _)]. Qed.
Lemma drained_binding_reachable : reachable narrow_config any_range any_range drained.
Proof. eapply play_reachable; [apply reach_begin|apply (from_some_eq _ _)]. Qed.

Lemma binding_within_limits_witness : queuedBytes (limiter (limits busy)) = 3 ∧ limits_ok narrow_config (limits busy).
Proof.
  split; [vm_compute; reflexivity|].
  apply (binding_within_limits (Some 65507) narrow_config any_range any_range busy ltac:(vm_compute; reflexivity) busy_binding_reachable).
Defined.

Lemma association_settled_once_witness : ∃ a l, associations drained !! 1%nat = Some a ∧ leases (limits drained) !! 1%nat = Some l ∧ as_broker a = LinkCancelled ∧
  closed l = true ∧ as_released a = 1.
Proof.
  assert (Ha : is_some (associations drained !! 1%nat) = true) by (vm_compute; reflexivity).
  assert (Hl : is_some (leases (limits drained) !! 1%nat) = true) by (vm_compute; reflexivity).
  exists (from_some _ Ha), (from_some _ Hl).
  assert (Hc : closed (from_some _ Hl) = true) by (vm_compute; reflexivity).
  split; [apply from_some_eq|]. split; [apply from_some_eq|]. split; [vm_compute; reflexivity|]. split; [exact Hc|].
  apply (association_settled_once (Some 65507) narrow_config any_range any_range drained ltac:(vm_compute; reflexivity) drained_binding_reachable 1 (from_some _ Ha) (from_some _ Hl));
    [apply from_some_eq|apply from_some_eq|vm_compute; reflexivity|exact Hc].
Defined.

Lemma binding_drained_witness : size (associations drained) = 2%nat ∧ table drained = ∅.
Proof.
  split; [vm_compute; reflexivity|].
  apply (binding_drained (Some 65507) narrow_config any_range any_range drained ltac:(vm_compute; reflexivity) drained_binding_reachable).
  vm_compute. reflexivity.
Defined.
