(* ===== verification/IPFilter.v ===== *)
(** * Source address deny list ([internal/security/ipfilter])

    Parsing of the deny file, the lookup of source addresses, the table of
    live sources that a reload closes when a new rule matches them, and the
    trusted client address header.  The prefix table (package bart) is a type
    class with the documented behaviour of its operations. *)

From S2P Require Import Prelude NetAddr GoStrings.

Local Open Scope Z_scope.

(** ** Text: the functions of package strings the code uses *)

Definition newline : Ascii.ascii := Ascii.ascii_of_nat 10.
Definition carriage : Ascii.ascii := Ascii.ascii_of_nat 13.
Definition hash : Ascii.ascii := Ascii.ascii_of_nat 35.
Definition comma : Ascii.ascii := Ascii.ascii_of_nat 44.

(** [strings.ReplaceAll(s, "\r\n", "\n")] *)
Fixpoint replace_crlf (s : string) : string :=
  match s with
  | EmptyString => EmptyString
  | String c rest =>
    match rest with
    | String d rest' =>
      if Ascii.eqb c carriage && Ascii.eqb d newline then String newline (replace_crlf rest')
      else String c (replace_crlf rest)
    | EmptyString => String c EmptyString
    end
  end.

(** The UTF-8 encodings of the code points with the White_Space property,
    which is what [unicode.IsSpace] tests. *)
Definition space_encodings : list (list Ascii.ascii) :=
  List.map (List.map Ascii.ascii_of_nat)
    ([[9]; [10]; [11]; [12]; [13]; [32]; [0xc2; 0x85]; [0xc2; 0xa0]; [0xe1; 0x9a; 0x80];
      [0xe2; 0x80; 0x80]; [0xe2; 0x80; 0x81]; [0xe2; 0x80; 0x82]; [0xe2; 0x80; 0x83];
      [0xe2; 0x80; 0x84]; [0xe2; 0x80; 0x85]; [0xe2; 0x80; 0x86]; [0xe2; 0x80; 0x87];
      [0xe2; 0x80; 0x88]; [0xe2; 0x80; 0x89]; [0xe2; 0x80; 0x8a]; [0xe2; 0x80; 0xa8];
      [0xe2; 0x80; 0xa9]; [0xe2; 0x80; 0xaf]; [0xe2; 0x81; 0x9f]; [0xe3; 0x80; 0x80]])%nat.

Fixpoint strip_prefix (enc s : list Ascii.ascii) : option (list Ascii.ascii) :=
  match enc, s with
  | [], _ => Some s
  | e :: enc, c :: s => if Ascii.eqb e c then strip_prefix enc s else None
  | _ :: _, [] => None
  end.

Fixpoint strip_one (encs : list (list Ascii.ascii)) (s : list Ascii.ascii) : option (list Ascii.ascii) :=
  match encs with
  | [] => None
  | enc :: encs => match strip_prefix enc s with Some rest => Some rest | None => strip_one encs s end
  end.

(** Every round removes at least one byte, so the length is enough fuel. *)
Fixpoint trim (fuel : nat) (encs : list (list Ascii.ascii)) (s : list Ascii.ascii) : list Ascii.ascii :=
  match fuel, strip_one encs s with
  | S fuel, Some rest => trim fuel encs rest
  | _, _ => s
  end.

Lemma strip_prefix_length enc s rest :
  strip_prefix enc s = Some rest → length s = (length enc + length rest)%nat.
Proof.
  revert s. induction enc as [|e enc IH]; intros [|c s]; simpl; try by intros [= <-].
  destruct (Ascii.eqb e c); [|done]. intros Hs. by rewrite (IH _ Hs).
Qed.

Lemma strip_one_length encs s rest :
  Forall (λ enc, enc ≠ []) encs → strip_one encs s = Some rest → (length rest < length s)%nat.
Proof.
  induction 1 as [|enc encs Henc _ IH]; simpl; [done|].
  destruct (strip_prefix enc s) eqn:E; [|exact IH]. intros [= <-]. apply strip_prefix_length in E.
  destruct enc; simpl in *; [done|lia].
Qed.

(** Nothing is left to trim. *)
Lemma trim_complete encs fuel s :
  Forall (λ enc, enc ≠ []) encs → (length s <= fuel)%nat → strip_one encs (trim fuel encs s) = None.
Proof.
  intros Hencs. revert s. induction fuel as [|fuel IH]; intros s Hs; simpl;
    destruct (strip_one encs s) as [rest|] eqn:E; try done;
    apply strip_one_length in E as Hl; try done; [lia|]. apply IH. lia.
Qed.

(** [strings.TrimSpace] *)
Definition TrimSpace (s : string) : string :=
  let l := String.list_ascii_of_string s in
  let l := trim (length l) space_encodings l in
  let l := trim (length l) (List.map (@rev Ascii.ascii) space_encodings) (rev l) in
  String.string_of_list_ascii (rev l).

Definition has_prefix (c : Ascii.ascii) (s : string) : bool :=
  match s with String d _ => Ascii.eqb d c | EmptyString => false end.

(** ** Rules *)

Inductive FilterError :=
| BadMappedLength
| BadRule
| FileError
| FileTooLarge
| LineError (line : nat) (e : FilterError)
| TooManyRules.

(** [netip.PrefixFrom]: drops the zone; a length out of range becomes -1. *)
Definition withoutZone (a : Addr) : Addr := match a with Addr6 v _ => Addr6 v "" | _ => a end.
Definition PrefixFrom (a : Addr) (bits : Z) : Prefix :=
  {| PrefixAddr := withoutZone a;
     PrefixBits := if (bits <? 0) || (BitLen a <? bits) then -1 else bits |}.

Definition maxFileSize : Z := 4 * 1024 * 1024.
Definition maxRuleCount : Z := 100000.
Definition readLimit : Z := maxFileSize + 1.

(** [bart.Lite]: a set of prefixes with longest-prefix-match lookup. *)
Class PrefixTable (T : Type) := {
  table_empty : T;
  table_insert : Prefix → T → T;
  table_contains : T → Addr → bool;
  table_empty_contains a : table_contains table_empty a = false;
  table_insert_contains p t a :
    prefix_ok p → hasZone a = false →
    table_contains (table_insert p t) a = Contains p a || table_contains t a
}.

(** [close] stands for the function that closes the connection. *)
Record trackedSource := { address : Addr; close : nat }.
#[export] Instance tracked_source_eq_dec : EqDecision trackedSource.
Proof. solve_decision. Defined.

Section filter.
Context `{NetipText} {T : Type} `{PrefixTable T}.
(** [sha256.Sum256] *)
Context {D : Type} `{EqDecision D} (sha256 : string → D) (zero_digest : D).

Definition parseRule (rule : string) : result FilterError Prefix :=
  match ParsePrefix rule with
  | Some prefix =>
    let address := PrefixAddr prefix in
    let bits := PrefixBits prefix in
    if Is4In6 address then
      if bits <? 96 then Err BadMappedLength
      else Ok (Masked (PrefixFrom (Unmap address) (bits - 96)))
    else Ok (Masked (PrefixFrom address bits))
  | None =>
    match ParseAddr rule with
    | None => Err BadRule
    | Some address =>
      let address := Unmap address in
      Ok (PrefixFrom address (BitLen address))
    end
  end.

Record ruleSnapshot := { prefixes : T; digest : D; count : Z }.

Definition emptySnapshot : ruleSnapshot :=
  {| prefixes := table_empty; digest := zero_digest; count := 0 |}.

(** The loop over the lines; [index] is that of the first of [lines]. *)
Fixpoint load_lines (index : nat) (lines : list string) (t : T) (seen : gset string) :
    result FilterError (T * gset string) :=
  match lines with
  | [] => Ok (t, seen)
  | line :: lines =>
    let rule := TrimSpace line in
    if bool_decide (rule = "") || has_prefix hash rule then load_lines (S index) lines t seen
    else match parseRule rule with
         | Err e => Err (LineError (S index) e)
         | Ok prefix =>
           let normalized := PrefixString prefix in
           if bool_decide (normalized ∈ seen) then load_lines (S index) lines t seen
           else if maxRuleCount <=? Z.of_nat (size seen) then Err TooManyRules
           else load_lines (S index) lines (table_insert prefix t) ({[normalized]} ∪ seen)
         end
  end.

Definition content_lines (content : string) : list string := Split newline (replace_crlf content).

(** [file] is what opening and reading the file yields, [None] an error. *)
Definition loadSnapshot (file : option string) : result FilterError ruleSnapshot :=
  match file with
  | None => Err FileError
  | Some bytes =>
    let content := String.substring 0 (Z.to_nat readLimit) bytes in
    if maxFileSize <? Z.of_nat (String.length content) then Err FileTooLarge
    else
      let! (t, seen) := load_lines 0 (content_lines content) table_empty ∅ in
      Ok {| prefixes := t; digest := sha256 content; count := Z.of_nat (size seen) |}
  end.

(** ** Live sources *)

Record Filter := {
  path : string;
  snapshot : ruleSnapshot;
  nextSourceID : Z;
  sources : gmap Z trackedSource;
  lastError : option FilterError
}.

Definition Enabled (f : Filter) : bool := negb (bool_decide (path f = "")).

Definition New (file_path : string) (file : option string) : result FilterError Filter :=
  let f := {| path := file_path; snapshot := emptySnapshot; nextSourceID := 0; sources := ∅;
              lastError := None |} in
  if bool_decide (file_path = "") then Ok f
  else
    let! s := loadSnapshot file in
    Ok {| path := file_path; snapshot := s; nextSourceID := 0; sources := ∅; lastError := None |}.

Definition DeniedFor (f : Filter) (a : Addr) : bool :=
  if negb (IsValid a) then true else table_contains (prefixes (snapshot f)) (Unmap a).

(** The result is the identifier the release function deletes, [None] for a
    release function that does nothing. *)
Definition RegisterFor (a : Addr) (closeConnection : nat) (f : Filter) : bool * option Z * Filter :=
  if negb (Enabled f) then (true, None, f)
  else if negb (IsValid a) then (false, None, f)
  else
    let a := Unmap a in
    if table_contains (prefixes (snapshot f)) a then (false, None, f)
    else
      let sourceID := u64 (nextSourceID f + 1) in
      (true, Some sourceID,
       {| path := path f; snapshot := snapshot f; nextSourceID := sourceID;
          sources := <[sourceID := {| address := a; close := closeConnection |}]> (sources f);
          lastError := lastError f |}).

Definition release (sourceID : Z) (f : Filter) : Filter :=
  {| path := path f; snapshot := snapshot f; nextSourceID := nextSourceID f;
     sources := delete sourceID (sources f); lastError := lastError f |}.

(** A release function, or the one that does nothing. *)
Definition release_one (f : Filter) (r : option Z) : Filter :=
  match r with Some i => release i f | None => f end.

Definition set_error (e : option FilterError) (f : Filter) : Filter :=
  {| path := path f; snapshot := snapshot f; nextSourceID := nextSourceID f; sources := sources f;
     lastError := e |}.

Context (ρ : go_range Z trackedSource).

(** The connections to close are returned; they are closed after the lock is
    released. *)
Definition reload (file : option string) (f : Filter) : list nat * Filter :=
  match loadSnapshot file with
  | Err e => ([], set_error (Some e) f)
  | Ok s =>
    if decide (digest (snapshot f) = digest s) then ([], set_error None f)
    else
      (close <$> ((ρ (sources f)).*2 ≫= λ source,
         if table_contains (prefixes s) (address source) then [source] else []),
       {| path := path f; snapshot := s; nextSourceID := nextSourceID f; sources := sources f;
          lastError := None |})
  end.

(** ** The trusted header *)

Inductive HeaderError := HeaderMissing | HeaderEmptyItem | HeaderInvalidIP | HeaderNoIP.

Fixpoint header_items (parts : list string) (seen : gset Addr) (addresses : list Addr) :
    result HeaderError (gset Addr * list Addr) :=
  match parts with
  | [] => Ok (seen, addresses)
  | part :: parts =>
    let source := TrimSpace part in
    if bool_decide (source = "") then Err HeaderEmptyItem
    else match ParseAddr source with
         | None => Err HeaderInvalidIP
         | Some a =>
           let a := Unmap a in
           if bool_decide (a ∈ seen) then header_items parts seen addresses
           else header_items parts ({[a]} ∪ seen) (addresses ++ [a])
         end
  end.

Fixpoint header_values (values : list string) (seen : gset Addr) (addresses : list Addr) :
    result HeaderError (gset Addr * list Addr) :=
  match values with
  | [] => Ok (seen, addresses)
  | value :: values =>
    let! (seen, addresses) := header_items (Split comma value) seen addresses in
    header_values values seen addresses
  end.

Definition parseHTTPSourceHeader (values : list string) : result HeaderError (list Addr) :=
  match values with
  | [] => Err HeaderMissing
  | _ =>
    let! (_, addresses) := header_values values ∅ [] in
    match addresses with [] => Err HeaderNoIP | _ => Ok addresses end
  end.

(** The registration loop of [HTTPHandler]: [Some] are the release functions
    of the admitted request; a refused one releases what it registered. *)
Fixpoint register_chain (addresses : list Addr) (connection : nat) (releases : list (option Z))
    (f : Filter) : option (list (option Z)) * Filter :=
  match addresses with
  | [] => (Some releases, f)
  | a :: addresses =>
    match RegisterFor a connection f with
    | (false, _, f) =>
      (None, foldl release_one f releases)
    | (true, r, f) => register_chain addresses connection (releases ++ [r]) f
    end
  end.
End filter.

(** ** Rules and the addresses they deny *)

(** The IPv4-mapped form of an IPv4 address. *)
Definition to_mapped (a : Addr) : Addr :=
  match a with Addr4 x => Addr6 (Z.shiftl 0xffff 32 + ip4_val x) "" | _ => a end.

(** An address as the filter looks it up. *)
Definition plain (a : Addr) : Prop := IsValid a = true ∧ hasZone a = false ∧ Unmap a = a.

Lemma shiftr_shiftl_same v k : 0 <= k → Z.shiftr (Z.shiftl (Z.shiftr v k) k) k = Z.shiftr v k.
Proof.
  intros. rewrite (Z.shiftl_mul_pow2 _ k), (Z.shiftr_div_pow2 (_ * _) k) by lia.
  apply Z.div_mul. lia.
Qed.

Lemma mask_val_range len bits v :
  0 <= bits <= len → 0 <= v < 2 ^ len → 0 <= mask_val len bits v < 2 ^ len.
Proof.
  intros Hb Hv. unfold mask_val. rewrite Z.shiftl_mul_pow2, Z.shiftr_div_pow2 by lia.
  pose proof (Z.div_mod v (2 ^ (len - bits)) ltac:(lia)).
  pose proof (Z.mod_pos_bound v (2 ^ (len - bits)) ltac:(lia)).
  assert (0 <= v / 2 ^ (len - bits)) by (apply Z.div_pos; lia). nia.
Qed.

Lemma ip4_val_of_val v : ip4_val (ip4_of_val v) = u32 v.
Proof.
  unfold ip4_val, ip4_of_val, wrap. simpl. rewrite !byte_val_of. unfold wrap.
  rewrite !Z.shiftr_div_pow2 by lia. change (2 ^ 24) with 16777216. change (2 ^ 16) with 65536.
  change (2 ^ 8) with 256. change (2 ^ 32) with 4294967296.
  assert (E1 : v / 65536 = v / 256 / 256) by (by rewrite Z.div_div).
  assert (E2 : v / 16777216 = v / 256 / 256 / 256) by (by rewrite !Z.div_div).
  assert (E3 : v / 4294967296 = v / 256 / 256 / 256 / 256) by (by rewrite !Z.div_div).
  rewrite (Z.mod_eq v 4294967296), E1, E2, E3 by lia.
  rewrite (Z.mod_eq (v / 256 / 256 / 256)), (Z.mod_eq (v / 256 / 256)), (Z.mod_eq (v / 256)), (Z.mod_eq v)
    by lia. lia.
Qed.

(** Masking does not change what a prefix contains. *)
Lemma Masked_Contains p a : prefix_ok p → Contains (Masked p) a = Contains p a.
Proof.
  destruct p as [[|x|v z] bits]; intros (Hv & _ & Hb); simpl in *; try done.
  - unfold Contains, Masked. cbn [PrefixAddr PrefixBits IsValid BitLen addr_num].
    rewrite ip4_val_of_val, wrap_small by (apply mask_val_range; [lia|apply ip4_val_range]).
    destruct (32 =? BitLen a) eqn:E; [|by rewrite !andb_false_r]. bool_to_prop. rewrite <- E.
    unfold mask_val. by rewrite shiftr_shiftl_same by lia.
  - unfold Contains, Masked. cbn [PrefixAddr PrefixBits IsValid BitLen addr_num].
    destruct (128 =? BitLen a) eqn:E; [|by rewrite !andb_false_r]. bool_to_prop. rewrite <- E.
    unfold mask_val. by rewrite shiftr_shiftl_same by lia.
Qed.

Lemma Masked_ok p : prefix_ok p → prefix_ok (Masked p).
Proof. by destruct p as [[|x|v z] bits]. Qed.

Lemma PrefixFrom_ok a bits : IsValid a = true → 0 <= bits <= BitLen a → prefix_ok (PrefixFrom a bits).
Proof.
  intros Hv Hb. unfold PrefixFrom. rewrite (proj2 (Z.ltb_ge bits 0)), (proj2 (Z.ltb_ge (BitLen a) bits)) by lia.
  by destruct a.
Qed.

Lemma PrefixFrom_bits a bits : 0 <= bits <= BitLen a → PrefixBits (PrefixFrom a bits) = bits.
Proof.
  intros Hb. unfold PrefixFrom. by rewrite (proj2 (Z.ltb_ge bits 0)), (proj2 (Z.ltb_ge (BitLen a) bits)) by lia.
Qed.

Lemma PrefixFrom_id p : prefix_ok p → PrefixFrom (PrefixAddr p) (PrefixBits p) = p.
Proof.
  destruct p as [a bits]. intros (_ & Hz & Hb). cbn [PrefixAddr PrefixBits] in *. unfold PrefixFrom.
  rewrite (proj2 (Z.ltb_ge bits 0)), (proj2 (Z.ltb_ge (BitLen a) bits)) by lia.
  destruct a as [|x|v z]; [done|done|]. cbn in Hz |- *.
  by apply negb_false_iff, bool_decide_eq_true in Hz as ->.
Qed.

(** A full-length prefix contains its address and nothing else. *)
Lemma PrefixFrom_host b a :
  IsValid b = true → plain a → Contains (PrefixFrom b (BitLen b)) a = true ↔ withoutZone b = a.
Proof.
  intros Hb (Hv & Hz & _). rewrite Contains_spec.
  rewrite PrefixFrom_bits by (destruct b; simpl; lia).
  destruct b as [|x|v z]; simpl in *; [done|..]; destruct a as [|y|w y]; simpl in *; try done;
    rewrite ?Z.shiftr_0_r.
  - split; [|by intros [= ->]]. intros (_ & _ & _ & _ & E). by apply ip4_val_inj in E as ->.
  - naive_solver.
  - naive_solver.
  - apply negb_false_iff, bool_decide_eq_true in Hz as ->. split; [|by intros [= ->]].
    by intros (_ & _ & _ & _ & ->).
Qed.

(** An IPv4 prefix and its IPv4-mapped form contain corresponding addresses. *)
Lemma mapped_Contains v z bits a :
  Is4In6 (Addr6 v z) = true → 96 <= bits <= 128 → plain a →
  Contains (PrefixFrom (Addr4 (ip4_of_val v)) (bits - 96)) a = true ↔
  Contains {| PrefixAddr := Addr6 v z; PrefixBits := bits |} (to_mapped a) = true.
Proof.
  intros Hm Hb (Hv & Hz & Hu). unfold Is4In6 in Hm. apply Z.eqb_eq in Hm.
  rewrite !Contains_spec, PrefixFrom_bits by (simpl; lia).
  destruct a as [|x|w y]; cbn [to_mapped PrefixAddr PrefixBits PrefixFrom withoutZone IsValid BitLen addr_num hasZone];
    [done|..].
  - pose proof (ip4_val_range x).
    rewrite ip4_val_of_val. replace (32 - (bits - 96)) with (128 - bits) by lia.
    set (k := 128 - bits). assert (0 <= k <= 32) by lia.
    assert (Hsplit : ∀ y, 0 <= y < 2 ^ 32 →
      Z.shiftr (Z.shiftl 0xffff 32 + y) k = 0xffff * 2 ^ (32 - k) + Z.shiftr y k).
    { intros y Hy. rewrite Z.shiftl_mul_pow2, !Z.shiftr_div_pow2 by lia.
      replace (2 ^ 32) with (2 ^ (32 - k) * 2 ^ k) by (rewrite <- Z.pow_add_r by lia; f_equal; lia).
      rewrite Z.mul_assoc, Z.div_add_l by lia. done. }
    assert (Ev : v = Z.shiftl 0xffff 32 + u32 v).
    { rewrite <- Hm. rewrite Z.shiftl_mul_pow2, Z.shiftr_div_pow2 by lia. unfold wrap.
      rewrite (Z.div_mod v (2 ^ 32)) at 1 by lia. lia. }
    rewrite (Hsplit (ip4_val x)) by done. rewrite Ev at 2.
    rewrite (Hsplit (u32 v)) by (apply (wrap_range 32); lia).
    generalize (Z.shiftr (u32 v) k), (Z.shiftr (ip4_val x) k). intros m n.
    split; intros (_ & _ & _ & _ & E); (split_and!; [done..|lia]).
  - split; [by intros (_ & _ & _ & ? & _)|]. intros (_ & _ & _ & _ & E). exfalso.
    assert (Is4In6 (Addr6 w y) = true) as Hw.
    { unfold Is4In6. apply Z.eqb_eq. rewrite <- Hm. symmetry. eapply shiftr_coarser; [|exact E]. lia. }
    unfold Unmap in Hu. by rewrite Hw in Hu.
Qed.

Lemma Ok_inj {E A} (x y : A) : Ok (E := E) x = Ok y → x = y.
Proof. by intros [= ->]. Qed.

Section rules.
Context `{NetipText} {T : Type} `{PrefixTable T}.

(** What a rule means: a CIDR denies the addresses in it, an IPv4-mapped CIDR
    those whose mapped form is in it, a single address itself. *)
Definition rule_denies (rule : string) (a : Addr) : Prop :=
  match ParsePrefix rule with
  | Some p => Contains p (if Is4In6 (PrefixAddr p) then to_mapped a else a) = true
  | None => match ParseAddr rule with Some b => withoutZone (Unmap b) = a | None => False end
  end.

(** A parsed address is valid. *)
Definition parses_valid : Prop := ∀ s b, ParseAddr s = Some b → IsValid b = true.

Lemma parseRule_spec rule p :
  parses_valid → parseRule rule = Ok p →
  prefix_ok p ∧ ∀ a, plain a → Contains p a = true ↔ rule_denies rule a.
Proof.
  unfold parseRule, rule_denies. intros Hparse.
  destruct (ParsePrefix rule) as [q|] eqn:Eq.
  - apply ParsePrefix_ok in Eq as Hq. destruct q as [b bits]. cbn [PrefixAddr PrefixBits].
    destruct (Hq) as (_ & _ & Hb). cbn [PrefixAddr PrefixBits] in Hb.
    destruct (Is4In6 b) eqn:E4.
    + destruct b as [|x|v z]; try done. destruct (bits <? 96) eqn:E; [done|]. intros <-%Ok_inj.
      bool_to_prop. unfold Unmap. rewrite E4. cbn [BitLen] in Hb.
      assert (Hok : prefix_ok (PrefixFrom (Addr4 (ip4_of_val v)) (bits - 96)))
        by (apply PrefixFrom_ok; simpl; [done|lia]).
      split; [exact (Masked_ok _ Hok)|]. intros a Ha. rewrite (Masked_Contains _ _ Hok).
      apply mapped_Contains; [exact E4|lia|exact Ha].
    + intros <-%Ok_inj. pose proof (PrefixFrom_id {| PrefixAddr := b; PrefixBits := bits |} Hq) as Eid.
      cbn [PrefixAddr PrefixBits] in Eid. rewrite Eid.
      split; [exact (Masked_ok _ Hq)|]. intros a Ha. by rewrite (Masked_Contains _ _ Hq).
  - destruct (ParseAddr rule) as [b|] eqn:Eb; [|done]. intros <-%Ok_inj. apply Hparse in Eb.
    assert (Hv : IsValid (Unmap b) = true) by (unfold Unmap; destruct b; try done; by destruct (Is4In6 _)).
    split; [apply PrefixFrom_ok; [done|destruct (Unmap b); simpl; lia]|].
    intros a Ha. by apply PrefixFrom_host.
Qed.

(** The rules of a file: its lines, trimmed, without blanks and comments. *)
Definition is_rule (rule : string) : bool := negb (bool_decide (rule = "") || has_prefix hash rule).
Definition rules_of (lines : list string) : list string := filter (λ r, is_rule r = true) (TrimSpace <$> lines).

(** Rules with the same normalised text are the same prefix. *)
Definition print_unique (rules : list string) : Prop :=
  ∀ r r' p p', r ∈ rules → r' ∈ rules → parseRule r = Ok p → parseRule r' = Ok p' →
    PrefixString p = PrefixString p' → p = p'.

Lemma rules_of_cons line lines :
  rules_of (line :: lines) =
    if is_rule (TrimSpace line) then TrimSpace line :: rules_of lines else rules_of lines.
Proof.
  unfold rules_of. rewrite fmap_cons, filter_cons.
  destruct (is_rule (TrimSpace line)); by case_decide.
Qed.

Section load.
Context (Hparse : parses_valid) (all : list string) (Hunique : print_unique all).
Context (a : Addr) (Ha : plain a).

(** Every rule whose text was seen is in the table. *)
Definition covered (t : T) (seen : gset string) : Prop :=
  ∀ r p, r ∈ all → parseRule r = Ok p → PrefixString p ∈ seen → Contains p a = true →
    table_contains t a = true.

Lemma load_lines_spec index lines t seen t' seen' :
  rules_of lines ⊆ all → covered t seen → load_lines index lines t seen = Ok (t', seen') →
  (table_contains t' a = true ↔
    table_contains t a = true ∨ ∃ r, r ∈ rules_of lines ∧ rule_denies r a).
Proof using Hparse Hunique Ha.
  revert index t seen. induction lines as [|line lines IH]; intros index t seen Hall Hcov; cbn [load_lines].
  { intros [= <- <-]. split; [by left|]. intros [?|(r & Hr & _)]; [done|]. by apply elem_of_nil in Hr. }
  rewrite rules_of_cons in *. unfold is_rule in *.
  destruct (bool_decide _ || _) eqn:Er; cbn [negb] in *; [by apply IH|].
  destruct (parseRule (TrimSpace line)) as [p|e] eqn:Ep; [|done].
  destruct (parseRule_spec _ _ Hparse Ep) as [Hpok Hden].
  assert (Hin : TrimSpace line ∈ all) by (apply Hall; left).
  assert (Hall' : rules_of lines ⊆ all) by (intros r Hr; apply Hall; by right).
  clear Er. case_bool_decide as Hseen.
  - intros Hl. rewrite (IH _ _ _ Hall' Hcov Hl). setoid_rewrite elem_of_cons. split; [naive_solver|].
    intros [?|(r & [->|Hr] & Hd)]; [by left| |by eauto].
    left. eapply Hcov; [done..|]. by apply Hden.
  - assert (Hcov' : covered (table_insert p t) ({[PrefixString p]} ∪ seen)).
    { intros r q Hr Hq Hs Hc. rewrite table_insert_contains by (done || apply Ha).
      apply orb_true_iff. apply elem_of_union in Hs as [Hs%elem_of_singleton|Hs].
      - left. by rewrite <- (Hunique _ _ _ _ Hr Hin Hq Ep Hs).
      - right. by eapply Hcov. }
    destruct (_ <=? _); [done|]. intros Hl. rewrite (IH _ _ _ Hall' Hcov' Hl).
    rewrite table_insert_contains by (done || apply Ha). rewrite orb_true_iff, (Hden a Ha).
    setoid_rewrite elem_of_cons. naive_solver.
Qed.
End load.

Lemma load_lines_size index lines t seen t' seen' :
  load_lines index lines t seen = Ok (t', seen') → Z.of_nat (size seen) <= maxRuleCount →
  Z.of_nat (size seen') <= maxRuleCount.
Proof.
  revert index t seen. induction lines as [|line lines IH]; intros index t seen; cbn [load_lines].
  { by intros [= <- <-]. }
  destruct (_ || _); [eauto|]. destruct (parseRule _) as [p|e]; [|done].
  case_bool_decide as Hs; [eauto|]. destruct (_ <=? _) eqn:E; [done|]. bool_to_prop. intros Hl _.
  eapply IH; [done|]. rewrite size_union by set_solver. rewrite size_singleton. lia.
Qed.

Context {D : Type} (sha256 : string → D).

Lemma loadSnapshot_inv bytes s :
  loadSnapshot sha256 (Some bytes) = Ok s →
  ∃ content t seen, content = String.substring 0 (Z.to_nat readLimit) bytes ∧
    Z.of_nat (String.length content) <= maxFileSize ∧
    load_lines 0 (content_lines content) table_empty ∅ = Ok (t, seen) ∧
    s = {| prefixes := t; digest := sha256 content; count := Z.of_nat (size seen) |}.
Proof.
  unfold loadSnapshot. set (content := String.substring _ _ _).
  destruct (_ <? _) eqn:E; [done|]. bool_to_prop.
  destruct (load_lines _ _ _ _) as [[t seen]|] eqn:El; [|done]. intros [= <-]. by eexists _, _, _.
Qed.
End rules.

Lemma substring_whole n s : (String.length (String.substring 0 n s) < n)%nat → String.substring 0 n s = s.
Proof.
  revert s. induction n as [|n IH]; intros [|c s]; simpl; try lia; [done|].
  intros Hl. by rewrite IH by lia.
Qed.

(** ** Interleavings of registrations, releases and reloads *)

Section tracking.
Context `{NetipText} {T : Type} `{PrefixTable T}.
Context {D : Type} `{EqDecision D} (sha256 : string → D) (zero_digest : D).
Context (ρ : go_range Z trackedSource).

(** [to_close] are the connections a reload selected and has not closed yet,
    [closed] those it closed; [accepted] and [released] record the calls. *)
Record World := {
  filter_of : Filter (T := T) (D := D);
  to_close : list nat;
  closed : list nat;
  accepted : list (Z * trackedSource);
  released : gset Z
}.

Definition start (f : Filter) : World :=
  {| filter_of := f; to_close := []; closed := []; accepted := []; released := ∅ |}.

Inductive command :=
| DoRegister (a : Addr) (connection : nat)
| DoRelease (sourceID : Z)
| DoReload (file : option string)
| DoClose.

Definition exec (w : World) (cmd : command) : World :=
  match cmd with
  | DoRegister a c =>
    match RegisterFor a c (filter_of w) with
    | (true, Some i, f) =>
      {| filter_of := f; to_close := to_close w; closed := closed w;
         accepted := (i, {| address := Unmap a; close := c |}) :: accepted w; released := released w |}
    | (_, _, f) =>
      {| filter_of := f; to_close := to_close w; closed := closed w; accepted := accepted w;
         released := released w |}
    end
  | DoRelease i =>
    if decide (i ∈ (accepted w).*1) then
      {| filter_of := release i (filter_of w); to_close := to_close w; closed := closed w;
         accepted := accepted w; released := {[i]} ∪ released w |}
    else w
  | DoReload file =>
    let '(cs, f) := reload sha256 ρ file (filter_of w) in
    {| filter_of := f; to_close := to_close w ++ cs; closed := closed w; accepted := accepted w;
       released := released w |}
  | DoClose =>
    match to_close w with
    | c :: cs =>
      {| filter_of := filter_of w; to_close := cs; closed := c :: closed w; accepted := accepted w;
         released := released w |}
    | [] => w
    end
  end.

Definition run (w : World) (cmds : list command) : World := foldl exec w cmds.

(** [n] bounds the registrations so far. *)
Record tracked_ok (n : Z) (w : World) : Prop := {
  to_next : 0 <= nextSourceID (filter_of w) <= n;
  to_ids i s : (i, s) ∈ accepted w → 1 <= i <= nextSourceID (filter_of w);
  to_released i : i ∈ released w → i ∈ (accepted w).*1;
  to_live i s : (i, s) ∈ accepted w → i ∉ released w → sources (filter_of w) !! i = Some s;
  to_denied i s :
    sources (filter_of w) !! i = Some s →
    table_contains (prefixes (snapshot (filter_of w))) (address s) = true →
    close s ∈ to_close w ++ closed w
}.

Lemma register_ok n w a c :
  tracked_ok n w → n + 1 < 2 ^ 64 → tracked_ok (n + 1) (exec w (DoRegister a c)).
Proof.
  intros [Hn Hi Hr Hl Hd] Hb. cbn [exec].
  assert (Hweak : tracked_ok (n + 1)
    {| filter_of := filter_of w; to_close := to_close w; closed := closed w; accepted := accepted w;
       released := released w |}) by (constructor; cbn; try done; lia).
  unfold RegisterFor. destruct (negb (Enabled _)); [done|]. destruct (negb (IsValid a)); [done|].
  destruct (table_contains _ _) eqn:Ec; [done|].
  set (i := u64 (nextSourceID (filter_of w) + 1)).
  assert (Ei : i = nextSourceID (filter_of w) + 1) by (apply wrap_small; lia). clearbody i.
  assert (Hfresh : i ∉ (accepted w).*1)
    by (intros ([j s] & -> & Hj)%list_elem_of_fmap; apply Hi in Hj; simpl in *; lia).
  constructor; cbn; [lia|..].
  - intros j s [[= -> ->]|Hj]%elem_of_cons; [lia|]. apply Hi in Hj. lia.
  - intros j Hj. right. by apply Hr.
  - intros j s [[= -> ->]|Hj]%elem_of_cons Hrel; [by rewrite lookup_insert_eq|].
    rewrite lookup_insert_ne; [by apply Hl|]. intros <-. apply Hi in Hj. lia.
  - intros j s. rewrite lookup_insert. case_decide; [|by apply Hd].
    intros [= <-]. simpl. congruence.
Qed.

Lemma release_tracked n w i : tracked_ok n w → tracked_ok n (exec w (DoRelease i)).
Proof.
  intros [Hn Hi Hr Hl Hd]. cbn [exec]. case_decide as Hin; [|done]. constructor; cbn; try done.
  - intros j [->%elem_of_singleton|Hj]%elem_of_union; [done|by apply Hr].
  - intros j s Hj [Hne Hrel]%not_elem_of_union. rewrite lookup_delete_ne by set_solver. by apply Hl.
  - intros j s [_ Hj]%lookup_delete_Some. by apply (Hd j).
Qed.

Lemma reload_tracked n w file : tracked_ok n w → tracked_ok n (exec w (DoReload file)).
Proof.
  intros [Hn Hi Hr Hl Hd]. cbn [exec]. unfold reload.
  destruct (loadSnapshot sha256 file) as [s|e].
  2: { constructor; cbn; rewrite ?app_nil_r; done. }
  case_decide as Ed; [constructor; cbn; rewrite ?app_nil_r; done|].
  constructor; cbn; try done.
  intros i src Hsrc Hc. apply elem_of_app. left. apply elem_of_app. right.
  apply list_elem_of_fmap. exists src. split; [done|]. apply list_elem_of_bind.
  exists src. rewrite Hc. split; [by left|].
  apply list_elem_of_fmap. exists (i, src). by rewrite range_elem.
Qed.

Lemma close_tracked n w : tracked_ok n w → tracked_ok n (exec w DoClose).
Proof.
  intros [Hn Hi Hr Hl Hd]. cbn [exec]. destruct (to_close w) as [|c cs] eqn:E; [by constructor; rewrite ?E|].
  constructor; cbn; try done. intros i s Hs Hc. specialize (Hd i s Hs Hc). set_solver.
Qed.

Lemma run_tracked n w cmds :
  tracked_ok n w → n + Z.of_nat (length cmds) < 2 ^ 64 →
  tracked_ok (n + Z.of_nat (length cmds)) (run w cmds).
Proof.
  revert n w. induction cmds as [|cmd cmds IH]; intros n w Hw Hb; simpl in *.
  { by rewrite Z.add_0_r. }
  replace (n + Z.of_nat (S (length cmds))) with ((n + 1) + Z.of_nat (length cmds)) by lia.
  apply IH; [|lia]. destruct cmd; [by apply register_ok; [|lia]|..].
  all: enough (tracked_ok n (exec w _)) as [] by (constructor; try done; lia);
    eauto using release_tracked, reload_tracked, close_tracked.
Qed.

Lemma start_tracked f p file :
  New sha256 zero_digest p file = Ok f → tracked_ok 0 (start f).
Proof.
  unfold New. intros Hf.
  assert (nextSourceID f = 0 ∧ sources f = ∅) as [En Es].
  { case_bool_decide; [by simplify_eq|]. destruct (loadSnapshot _ _); by simplify_eq. }
  constructor; cbn; try (by intros ?? ?%elem_of_nil); try (by intros ? ?%elem_of_empty).
  - by rewrite En.
  - intros i s. by rewrite Es, lookup_empty.
Qed.
End tracking.

(** ** The trusted header *)

Section header.
Context `{NetipText} {T : Type} `{PrefixTable T} {D : Type}.

(** The addresses the items of a header stand for. *)
Definition item_address (part : string) (a : Addr) : Prop :=
  ∃ b, ParseAddr (TrimSpace part) = Some b ∧ a = Unmap b.

Definition listed (seen : gset Addr) (addresses : list Addr) : Prop :=
  NoDup addresses ∧ ∀ a, a ∈ seen ↔ a ∈ addresses.

Lemma header_items_spec parts seen addresses seen' addresses' :
  header_items parts seen addresses = Ok (seen', addresses') → listed seen addresses →
  listed seen' addresses' ∧
  (∀ part, part ∈ parts → ∃ a, item_address part a) ∧
  ∀ a, a ∈ addresses' ↔ a ∈ addresses ∨ ∃ part, part ∈ parts ∧ item_address part a.
Proof.
  revert seen addresses. induction parts as [|part parts IH]; intros seen addresses; cbn [header_items].
  { intros [= <- <-] Hl. split; [done|]. split; [by intros ? ?%elem_of_nil|].
    intros a. split; [by left|]. intros [?|(part & ?%elem_of_nil & _)]; done. }
  case_bool_decide; [done|]. destruct (ParseAddr (TrimSpace part)) as [b|] eqn:Eb; [|done].
  assert (Hitem : ∀ a, item_address part a ↔ a = Unmap b).
  { intros a. unfold item_address. rewrite Eb. naive_solver. }
  case_bool_decide as Hseen; intros Hrec Hl.
  - destruct (IH _ _ Hrec Hl) as (Hl' & Hall & Hmem). split; [done|]. setoid_rewrite elem_of_cons.
    split; [intros ? [->|?]; [exists (Unmap b); by apply Hitem|by apply Hall]|].
    intros a. rewrite Hmem. split; [naive_solver|].
    intros [?|(? & [->|?] & Ha)]; [by left| |by eauto].
    apply Hitem in Ha as ->. left. by apply Hl.
  - assert (Hl2 : listed ({[Unmap b]} ∪ seen) (addresses ++ [Unmap b])).
    { destruct Hl as [Hnd Hs]. split.
      - apply NoDup_app. split; [done|]. split; [|by apply NoDup_singleton].
        intros x Hx ->%list_elem_of_singleton. by apply Hseen, Hs.
      - intros a. rewrite elem_of_union, elem_of_singleton, elem_of_app, list_elem_of_singleton, Hs. tauto. }
    destruct (IH _ _ Hrec Hl2) as (Hl' & Hall & Hmem). split; [done|]. setoid_rewrite elem_of_cons.
    split; [intros ? [->|?]; [exists (Unmap b); by apply Hitem|by apply Hall]|].
    intros a. rewrite Hmem, elem_of_app, list_elem_of_singleton. split.
    + intros [[?|Ha]|(? & ? & ?)]; [by left| |by eauto]. right. exists part. split; [by left|by apply Hitem].
    + intros [?|(? & [->|?] & Ha)]; [by left; left| |by eauto]. apply Hitem in Ha. by left; right.
Qed.

Lemma header_values_spec values seen addresses seen' addresses' :
  header_values values seen addresses = Ok (seen', addresses') → listed seen addresses →
  NoDup addresses' ∧
  (∀ value part, value ∈ values → part ∈ Split comma value → ∃ a, item_address part a) ∧
  ∀ a, a ∈ addresses' ↔
    a ∈ addresses ∨ ∃ value part, value ∈ values ∧ part ∈ Split comma value ∧ item_address part a.
Proof.
  revert seen addresses. induction values as [|value values IH]; intros seen addresses; cbn [header_values].
  { intros [= <- <-] [Hnd _]. split; [done|]. split; [by intros ? ? ?%elem_of_nil|].
    intros a. split; [by left|]. intros [?|(? & ? & ?%elem_of_nil & _)]; done. }
  destruct (header_items _ _ _) as [[seen1 addresses1]|] eqn:Ei; [|done]. intros Hrec Hl.
  destruct (header_items_spec _ _ _ _ _ Ei Hl) as (Hl1 & Hall1 & Hmem1).
  destruct (IH _ _ Hrec Hl1) as (Hnd & Hall & Hmem). split; [done|]. setoid_rewrite elem_of_cons. split.
  - intros v part [->|Hv]; eauto.
  - intros a. rewrite Hmem, Hmem1. split.
    + intros [[?|(p & ? & ?)]|(v & p & ? & ? & ?)]; [by left|right; exists value, p; naive_solver|].
      right. exists v, p. naive_solver.
    + intros [?|(v & p & [->|?] & ? & ?)]; [by left; left|left; right; by exists p|].
      right. by exists v, p.
Qed.

(** ** The registration chain of a request *)

(** Identifiers in use are at most the last one handed out. *)
Definition ids_ok (f : Filter (T := T) (D := D)) : Prop :=
  0 <= nextSourceID f ∧ ∀ i, is_Some (sources f !! i) → i <= nextSourceID f.

Definition denied_any (f : Filter (T := T) (D := D)) (addresses : list Addr) : Prop :=
  ∃ a, a ∈ addresses ∧ DeniedFor f a = true.

Lemma release_all_sources releases (f : Filter (T := T) (D := D)) i :
  sources (foldl release_one f releases) !! i =
    if decide (Some i ∈ releases) then None else sources f !! i.
Proof.
  revert f. induction releases as [|[j|] releases IH]; intros f; cbn [foldl release_one].
  - by rewrite decide_False by apply not_elem_of_nil.
  - rewrite IH. cbn. rewrite lookup_delete.
    destruct (decide (j = i)) as [->|].
    + rewrite (decide_True (P := Some i ∈ Some i :: _)) by left. by case_decide.
    + repeat case_decide; set_solver.
  - rewrite IH. repeat case_decide; set_solver.
Qed.

Lemma register_chain_spec addresses c releases f0 f :
  Enabled f = true → ids_ok f → snapshot f = snapshot f0 →
  nextSourceID f + Z.of_nat (length addresses) < 2 ^ 64 →
  (∀ i, nextSourceID f0 < i ↔ nextSourceID f < i ∨ Some i ∈ releases) →
  (∀ i, i <= nextSourceID f0 → sources f !! i = sources f0 !! i) → ids_ok f0 →
  match register_chain addresses c releases f with
  | (Some _, _) => ¬ denied_any f0 addresses
  | (None, f') => denied_any f0 addresses ∧ sources f' = sources f0
  end.
Proof.
  revert releases f. induction addresses as [|a addresses IH];
    intros releases f He [Hge Hids] Hsnap Hb Hrel Hold Hok0; cbn [register_chain].
  { intros (a & ?%elem_of_nil & _). done. }
  unfold RegisterFor. rewrite He. cbn [negb].
  assert (Hden : DeniedFor f0 a = if negb (IsValid a) then true
                 else table_contains (prefixes (snapshot f)) (Unmap a))
    by (unfold DeniedFor; by rewrite Hsnap).
  assert (Hback : sources (foldl release_one f releases) = sources f0).
  { apply map_eq. intros i. rewrite release_all_sources. case_decide as Hi.
    - symmetry. apply eq_None_not_Some. intros Hs. apply (proj2 Hok0) in Hs.
      assert (nextSourceID f0 < i) by (apply Hrel; by right). lia.
    - destruct (decide (i <= nextSourceID f0)) as [?|Hn]; [by apply Hold|].
      assert (nextSourceID f < i) by (destruct (proj1 (Hrel i) ltac:(lia)); done).
      transitivity (@None trackedSource); [apply eq_None_not_Some; intros Hs; apply Hids in Hs; lia|].
      symmetry. apply eq_None_not_Some. intros Hs. apply (proj2 Hok0) in Hs. lia. }
  destruct (negb (IsValid a)) eqn:Ev; [split; [exists a; split; [left|done]|done]|].
  destruct (table_contains _ _) eqn:Ec; [split; [exists a; split; [left|done]|done]|].
  cbn [length] in Hb. rewrite (wrap_small 64) by lia.
  assert (Hnext : nextSourceID f0 <= nextSourceID f).
  { destruct (decide (nextSourceID f < nextSourceID f0)) as [Hlt|]; [|lia].
    pose proof (proj2 (Hrel (nextSourceID f0)) (or_introl Hlt)). lia. }
  match goal with |- context [register_chain addresses c ?r ?g] =>
    assert (Hrec : match register_chain addresses c r g with
                   | (Some _, _) => ¬ denied_any f0 addresses
                   | (None, f') => denied_any f0 addresses ∧ sources f' = sources f0
                   end)
  end.
  { apply IH; cbn [nextSourceID sources snapshot]; try done; try lia.
    - split; cbn; [lia|]. intros i. rewrite lookup_insert. case_decide; [lia|]. intros ?%Hids. lia.
    - intros i. rewrite elem_of_app, list_elem_of_singleton, Hrel. split.
      + intros [?|?]; [|by right; left]. destruct (decide (i = nextSourceID f + 1)) as [->|]; [by right; right|].
        left. lia.
      + intros [?|[?|[= ->]]]; [left; lia|by right|left; lia].
    - intros i Hi. rewrite lookup_insert_ne by lia. by apply Hold. }
  destruct (register_chain addresses c _ _) as [[rs|] f'].
  - intros (b & [->|Hb']%elem_of_cons & Hbd); [congruence|]. apply Hrec. by exists b.
  - destruct Hrec as [(b & ? & ?) ?]. split; [|done]. exists b. split; [by right|done].
Qed.
End header.

(** ** Theorems *)

Section theorems.
Context `{NetipText} {T : Type} `{PrefixTable T}.
Context {D : Type} `{EqDecision D} (sha256 : string → D) (zero_digest : D).

(** After loading a deny file, an address without a zone is denied
    exactly when it is invalid or some line of the file denies it: a CIDR
    that contains it, an IPv4-mapped CIDR that contains its mapped form, or
    the address itself in either form.  Dropping lines whose normalised text
    was seen before loses nothing, and at most 100,000 rules are kept. *)
Theorem deny_list_exact bytes s (f : Filter (T := T) (D := D)) a :
  parses_valid → print_unique (rules_of (content_lines bytes)) →
  loadSnapshot sha256 (Some bytes) = Ok s → snapshot f = s → hasZone a = false →
  (DeniedFor f a = true ↔
    IsValid a = false ∨ ∃ r, r ∈ rules_of (content_lines bytes) ∧ rule_denies r (Unmap a)) ∧
  count s <= maxRuleCount.
Proof using Type.
  intros Hparse Huniq Hload Hs Hz.
  destruct (loadSnapshot_inv _ _ _ Hload) as (content & t & seen & Ec & Hlen & Hl & Es).
  assert (Hwhole : content = bytes)
    by (subst content; apply substring_whole; unfold readLimit in *; lia).
  rewrite Hwhole in Hl. clear Ec Hwhole. split.
  - unfold DeniedFor. destruct (IsValid a) eqn:Ev; simpl; [|naive_solver].
    assert (Ha : plain (Unmap a)).
    { split_and!; [| |apply Unmap_idem]; unfold Unmap; destruct a as [|x|v z]; try done;
        by destruct (Is4In6 (Addr6 v z)). }
    rewrite Hs, Es. cbn [prefixes].
    assert (Hcov : covered (rules_of (content_lines bytes)) (Unmap a) table_empty ∅)
      by (intros ??????; set_solver).
    rewrite (load_lines_spec Hparse _ Huniq (Unmap a) Ha _ _ _ _ _ _ (reflexivity _) Hcov Hl).
    rewrite table_empty_contains. naive_solver.
  - rewrite Es. eapply load_lines_size; [exact Hl|]. by rewrite size_empty.
Qed.

(** A reload cannot leave a denied connection open.  Whatever the
    interleaving of registrations, releases, reloads and closes, a connection
    that was accepted and not released, and whose address the rules in force
    deny, has been closed by a reload or is about to be. *)
Theorem denied_sources_closed (ρ : go_range Z trackedSource) p file f cmds i src :
  New sha256 zero_digest p file = Ok f → Z.of_nat (length cmds) < 2 ^ 64 →
  let w := run sha256 ρ (start f) cmds in
  (i, src) ∈ accepted w → i ∉ released w →
  table_contains (prefixes (snapshot (filter_of w))) (address src) = true →
  close src ∈ to_close w ++ closed w.
Proof using Type.
  intros Hf Hb w Hin Hrel Hden. apply start_tracked in Hf.
  apply (run_tracked sha256 ρ 0 _ cmds) in Hf; [|done]. destruct Hf as [_ _ _ Hl Hd]. eauto.
Qed.

(** A client address header is accepted only if every comma-separated
    item of every value is an address; the result lists each address once,
    in normal form, and nothing else. *)
Theorem header_addresses values addresses :
  parseHTTPSourceHeader values = Ok addresses →
  addresses ≠ [] ∧ NoDup addresses ∧
  (∀ value part, value ∈ values → part ∈ Split comma value → ∃ a, item_address part a) ∧
  ∀ a, a ∈ addresses ↔ ∃ value part, value ∈ values ∧ part ∈ Split comma value ∧ item_address part a.
Proof using Type.
  unfold parseHTTPSourceHeader. destruct values as [|v vs]; [done|].
  destruct (header_values _ _ _) as [[seen as']|] eqn:E; [|done].
  destruct as' as [|a as0]; [done|]. intros [= <-].
  destruct (header_values_spec _ _ _ _ _ E) as (Hnd & Hall & Hmem).
  { split; [constructor|]. intros b. by rewrite elem_of_empty, elem_of_nil. }
  split_and!; [done|done|done|]. intros b. rewrite Hmem. split; [|by right].
  by intros [?%elem_of_nil|?].
Qed.

(** A request is served only if none of its addresses is denied; a
    refused request leaves no registration behind. *)
Theorem request_chain_admission (f : Filter (T := T) (D := D)) addresses c :
  Enabled f = true → ids_ok f → nextSourceID f + Z.of_nat (length addresses) < 2 ^ 64 →
  match register_chain addresses c [] f with
  | (Some _, _) => ¬ denied_any f addresses
  | (None, f') => denied_any f addresses ∧ sources f' = sources f
  end.
Proof using Type.
  intros He Hok Hb. apply register_chain_spec; try done.
  intros i. split; [by left|]. by intros [?|?%elem_of_nil].
Qed.
End theorems.

(** ** Examples *)

(** A prefix table by linear search. *)
#[export] Program Instance list_table : PrefixTable (list Prefix) :=
  {| table_empty := []; table_insert p t := p :: t; table_contains t a := existsb (λ p, Contains p a) t |}.
Solve Obligations with done.

Section examples.
Local Existing Instance Dotted.text.

Definition sample_file : string :=
  String.concat (String newline EmptyString)
    ["# blocked networks"; "10.0.0.0/8 "; ""; " 192.0.2.7"; "10.1.2.3/8"].

Definition identity_digest : string → string := λ s, s.

Definition sample_snapshot : ruleSnapshot (T := list Prefix) (D := string) :=
  {| prefixes := [PrefixFrom (Addr4 (IP4 xc0 x00 x02 x07)) 32; PrefixFrom (Addr4 (IP4 x0a x00 x00 x00)) 8];
     digest := sample_file; count := 2 |}.

Definition sample_filter : Filter (T := list Prefix) (D := string) :=
  {| path := "deny.txt"; snapshot := sample_snapshot; nextSourceID := 0; sources := ∅; lastError := None |}.

Lemma sample_loads : loadSnapshot identity_digest (Some sample_file) = Ok sample_snapshot.
Proof. vm_compute. reflexivity. Qed.

Lemma dotted_parses_valid : parses_valid.
Proof. intros s b. cbn. unfold Dotted.parse_addr. destruct (Dotted.parse_quad _); by intros [= <-]. Qed.

Lemma deny_list_exact_witness :
  DeniedFor sample_filter (Addr4 (IP4 x0a x09 x08 x07)) = true ∧
  ∃ r, r ∈ rules_of (content_lines sample_file) ∧ rule_denies r (Addr4 (IP4 x0a x09 x08 x07)).
Proof.
  split; [vm_compute; reflexivity|].
  pose proof (deny_list_exact identity_digest sample_file sample_snapshot sample_filter
    (Addr4 (IP4 x0a x09 x08 x07)) dotted_parses_valid) as Hexact.
  destruct Hexact as [[Hd _] _].
  - intros r r' p p' Hr Hr' Hp Hp'.
    assert (Hrules : rules_of (content_lines sample_file) = ["10.0.0.0/8"; "192.0.2.7"; "10.1.2.3/8"])
      by (vm_compute; reflexivity).
    rewrite Hrules in Hr, Hr'.
    rewrite !elem_of_cons in Hr, Hr'. rewrite elem_of_nil in Hr, Hr'.
    destruct Hr as [->|[->|[->|[]]]], Hr' as [->|[->|[->|[]]]]; vm_compute in Hp; vm_compute in Hp';
      apply Ok_inj in Hp; apply Ok_inj in Hp'; subst p p'; intros E; vm_compute in E; done.
  - apply sample_loads.
  - reflexivity.
  - reflexivity.
  - destruct Hd as [Hd|Hd]; [vm_compute; reflexivity|discriminate Hd|exact Hd].
Defined.

(** A connection is accepted, then a reload denies its network. *)
Definition sample_commands : list command :=
  [DoRegister (Addr4 (IP4 xc6 x33 x64 x01)) 7; DoReload (Some "198.51.100.0/24"); DoClose].

Lemma denied_sources_closed_witness :
  let w := run identity_digest any_range (start sample_filter) sample_commands in
  (7 : nat)%nat ∈ to_close w ++ closed w.
Proof.
  refine (denied_sources_closed identity_digest "" any_range "deny.txt" (Some sample_file) sample_filter
    sample_commands 1 {| address := Addr4 (IP4 xc6 x33 x64 x01); close := 7 |} _ _ _ _ _).
  - vm_compute. reflexivity.
  - vm_compute. reflexivity.
  - apply (bool_decide_unpack _). vm_compute. exact I.
  - apply (bool_decide_unpack _). vm_compute. exact I.
  - vm_compute. reflexivity.
Defined.

Lemma header_addresses_witness :
  parseHTTPSourceHeader ["10.0.0.1, 192.0.2.7"; "10.0.0.1"] =
    Ok [Addr4 (IP4 x0a x00 x00 x01); Addr4 (IP4 xc0 x00 x02 x07)] ∧
  NoDup [Addr4 (IP4 x0a x00 x00 x01); Addr4 (IP4 xc0 x00 x02 x07)].
Proof.
  split; [vm_compute; reflexivity|].
  apply (header_addresses ["10.0.0.1, 192.0.2.7"; "10.0.0.1"]). vm_compute. reflexivity.
Defined.

Lemma request_chain_admission_witness :
  denied_any sample_filter [Addr4 (IP4 xc6 x33 x64 x01); Addr4 (IP4 x0a x00 x00 x01)].
Proof.
  refine (proj1 (request_chain_admission sample_filter
    [Addr4 (IP4 xc6 x33 x64 x01); Addr4 (IP4 x0a x00 x00 x01)] 7 _ _ _)).
  - reflexivity.
  - split; [done|]. intros i [s Hs]. discriminate Hs.
  - vm_compute. reflexivity.
Defined.
End examples.
