(* ===== verification/ForwardRegistry.v ===== *)
(** * Forward declarations ([internal/forward/registry], the Forward policy of
      [internal/server/authorization.go])

    A client declares the Forwards of its session; the registry publishes them
    as one immutable generation per synchronisation, keeps for each binding
    whether the current policy allows its target, and creates links in the
    broker for the visitors of the client.  A set of bindings is identified by
    its address, since a commit compares pointers: [sets] is the heap of sets,
    [sessions] maps a session to the address of its published set.  The broker
    is the one of [LinkBroker], the UDP accounting that of [UdpLimiter], the
    policy the one of [ConfigForward]. *)

From S2P Require Import Prelude GoTime NetAddr Authentication ConfigVNet ConfigUDP UdpLimiter ConfigForward LinkBroker.

Local Open Scope Z_scope.

(** ** The policy of the server *)

Record ForwardDeclaration := {
  DeclarationName : string;
  DeclarationType : ForwardType;
  TargetIP : string;
  TargetPort : Z
}.
#[export] Instance declaration_eq_dec : EqDecision ForwardDeclaration.
Proof. solve_decision. Defined.

(** [(configured, active)] *)
Abbreviation Policy := (Context → ForwardDeclaration → bool * bool) (only parsing).

Section policy.
Context `{NetipText}.

Definition target_allowed (rules : list ForwardIPRule) (d : ForwardDeclaration) : bool :=
  ForwardTargetAllowed rules (DeclarationType d) (TargetIP d) (TargetPort d).

Definition forwardPolicy (configuration : ServerConfig) (auth : Context) (d : ForwardDeclaration) :
    bool * bool :=
  let enabled := ForwardEnabled (Forwards configuration) in
  if negb (target_allowed (Rules (Forwards configuration)) d) then (false, false)
  else if bool_decide (Mode auth = ModeShared) then (true, enabled)
  else if bool_decide (Mode auth = ModeGoverned) then
    match GovernedClients configuration !! ContextClientID auth with
    | None => (false, false)
    | Some rules => let configured := target_allowed rules d in (configured, configured && enabled)
    end
  else if bool_decide (Mode auth = ModeManaged) then
    match ManagedClients configuration !! ContextClientID auth with
    | None => (false, false)
    | Some client =>
      if bool_decide (ManagedRules client = []) then (true, enabled)
      else let configured := target_allowed (ManagedRules client) d in (configured, configured && enabled)
    end
  else (false, false).

(** Reading an absent client yields a record without rules. *)
Definition clientForwardRules (configuration : ServerConfig) (auth : Context) : list ForwardIPRule :=
  if bool_decide (Mode auth = ModeGoverned) then
    default [] (GovernedClients configuration !! ContextClientID auth)
  else if bool_decide (Mode auth = ModeManaged) then
    default [] (ManagedRules <$> ManagedClients configuration !! ContextClientID auth)
  else [].

(** [MatchingForwardRule] as the pair it returns; [None] stands for the zero
    rule and [false]. *)
Definition match_rule (rules : list ForwardIPRule) (d : ForwardDeclaration) : option ForwardIPRule :=
  MatchingForwardRule rules (DeclarationType d) (TargetIP d) (TargetPort d).

Definition forwardPolicyChanged (current candidate : ServerConfig) (auth : Context)
    (d : ForwardDeclaration) : bool :=
  if bool_decide (DeclarationType d = ForwardTypeUDP) &&
     negb (bool_decide (EffectiveForwardUDPConfig (Forwards current) =
                        EffectiveForwardUDPConfig (Forwards candidate))) then true
  else
    let currentGlobal := match_rule (Rules (Forwards current)) d in
    let candidateGlobal := match_rule (Rules (Forwards candidate)) d in
    let currentAllowed := ForwardEnabled (Forwards current) && is_some currentGlobal in
    let candidateAllowed := ForwardEnabled (Forwards candidate) && is_some candidateGlobal in
    if negb (Bool.eqb currentAllowed candidateAllowed) ||
       negb (bool_decide (currentGlobal = candidateGlobal)) then true
    else
      let currentRules := clientForwardRules current auth in
      let candidateRules := clientForwardRules candidate auth in
      if bool_decide (Mode auth = ModeShared) then false
      else if bool_decide (Mode auth = ModeManaged) && bool_decide (currentRules = []) &&
              bool_decide (candidateRules = []) then false
      else negb (bool_decide (match_rule currentRules d = match_rule candidateRules d)).
End policy.

(** ** The registry *)

Definition HardMaxBindingsPerClient : Z := 128.

Inductive ForwardErrorCode :=
| ForwardErrorInvalidRequest
| ForwardErrorInvalidForward
| ForwardErrorSessionInactive
| ForwardErrorTargetNotAllowed
| ForwardErrorLimitExceeded
| ForwardErrorBindingInvalid.

Record ForwardError := { Code : ForwardErrorCode; ErrorForward : string }.
Definition forwardError (code : ForwardErrorCode) (name : string) : ForwardError :=
  {| Code := code; ErrorForward := name |}.

(** [writer] is the control connection of the session, [None] for nil. *)
Record binding := {
  owner_client : string;
  owner_session : string;
  bindingID : string;
  declaration : ForwardDeclaration;
  writer : option nat;
  authentication : Context;
  maxActiveLinks : Z;
  is_active : bool
}.
#[export] Instance eta_binding : Eta binding := λ b,
  {| owner_client := owner_client b; owner_session := owner_session b; bindingID := bindingID b;
     declaration := declaration b; writer := writer b; authentication := authentication b;
     maxActiveLinks := maxActiveLinks b; is_active := is_active b |}.

Abbreviation sessionKey := (string * string)%type (only parsing).
Abbreviation bindingSet := (gmap string binding) (only parsing).

Record Registry := {
  sessions : gmap (string * string) nat;
  sets : gmap nat (gmap string binding);
  udpLimiter : Limiter;
  registry_closed : bool
}.
#[export] Instance eta_Registry : Eta Registry := λ r,
  {| sessions := sessions r; sets := sets r; udpLimiter := udpLimiter r;
     registry_closed := registry_closed r |}.

Definition New (udpConfig : UDPConfig) : Registry :=
  {| sessions := ∅; sets := ∅; udpLimiter := NewLimiter udpConfig; registry_closed := false |}.

(** The set at an address; the empty set for the bindings of [&bindingSet{}]. *)
Definition set_at (r : Registry) (a : nat) : gmap string binding := default ∅ (sets r !! a).

Definition bindingLocked (client session name : string) (r : Registry) : option binding :=
  a ← sessions r !! (client, session); set_at r a !! name.

Section validate.
Context `{NetipText}.

Fixpoint validate_declarations (policy : Context → ForwardDeclaration → bool * bool) (auth : Context)
    (declarations : list ForwardDeclaration) (names : gset string) : option ForwardError :=
  match declarations with
  | [] => None
  | d :: declarations =>
    let canonical := match ParseAddr (TargetIP d) with
                     | Some address => bool_decide (AddrString address = TargetIP d)
                     | None => false
                     end in
    if negb (ValidateResourceName (DeclarationName d)) || (TargetPort d =? 0) || negb canonical then
      Some (forwardError ForwardErrorInvalidForward (DeclarationName d))
    else if negb (bool_decide (DeclarationType d = ForwardTypeTCP) ||
                  bool_decide (DeclarationType d = ForwardTypeUDP)) then
      Some (forwardError ForwardErrorInvalidForward (DeclarationName d))
    else if bool_decide (DeclarationName d ∈ names) then
      Some (forwardError ForwardErrorInvalidForward (DeclarationName d))
    else if negb (fst (policy auth d)) then
      Some (forwardError ForwardErrorTargetNotAllowed (DeclarationName d))
    else validate_declarations policy auth declarations ({[DeclarationName d]} ∪ names)
  end.

Definition Validate (policy : Context → ForwardDeclaration → bool * bool) (auth : Context)
    (declarations : list ForwardDeclaration) : option ForwardError :=
  if HardMaxBindingsPerClient <? Z.of_nat (length declarations) then
    Some (forwardError ForwardErrorLimitExceeded "")
  else validate_declarations policy auth declarations ∅.

(** ** Synchronisation *)

Record ForwardResult := {
  ResultName : string;
  ResultType : ForwardType;
  ResultBindingID : string;
  ResultActive : bool;
  ResultUDP : option ForwardUDPConfig
}.

(** [tx_live] is [registry != nil]; [tx_retire] says that the retirement of
    the replaced set is still to be run. *)
Record SyncTransaction := {
  tx_live : bool;
  tx_session : string * string;
  tx_next : gmap string binding;
  tx_previous : nat;
  tx_results : list ForwardResult;
  tx_retire : bool
}.

(** The loop of [BeginSync]: [ids] are the identifiers drawn, [None] when the
    random source fails. *)
Fixpoint prepare (policy : Context → ForwardDeclaration → bool * bool) (udpConfig : UDPConfig)
    (client session : string) (w : option nat) (auth : Context) (limit : Z)
    (ids : list (option string)) (declarations : list ForwardDeclaration)
    (next : gmap string binding) (results : list ForwardResult) {struct declarations} :
    result ForwardError (gmap string binding * list ForwardResult) :=
  match declarations with
  | [] => Ok (next, results)
  | d :: declarations =>
    match ids with
    | Some id :: ids =>
      let active := snd (policy auth d) in
      let b := {| owner_client := client; owner_session := session; bindingID := id; declaration := d;
                  writer := w; authentication := auth; maxActiveLinks := limit; is_active := active |} in
      let res := {| ResultName := DeclarationName d; ResultType := DeclarationType d;
                    ResultBindingID := id; ResultActive := active;
                    ResultUDP := if bool_decide (DeclarationType d = ForwardTypeUDP)
                                 then Some (ForwardUDPProtocolConfig udpConfig) else None |} in
      prepare policy udpConfig client session w auth limit ids declarations
        (<[DeclarationName d := b]> next) (results ++ [res])
    | _ => Err (forwardError ForwardErrorInvalidRequest (DeclarationName d))
    end
  end.

(** The address of the session's set, a new empty one if there is none. *)
Definition reserve (key : string * string) (r : Registry) : nat * Registry :=
  match sessions r !! key with
  | Some a => (a, r)
  | None =>
    let a := fresh (dom (sets r)) in
    (a, r <| sets := <[a := ∅]> (sets r) |> <| sessions := <[key := a]> (sessions r) |>)
  end.

Definition BeginSync (policy : Context → ForwardDeclaration → bool * bool) (udpConfig : UDPConfig)
    (client session : string) (w : option nat) (auth : Context) (limit : Z)
    (ids : list (option string)) (declarations : list ForwardDeclaration) (r : Registry) :
    result ForwardError SyncTransaction * Registry :=
  match Validate policy auth declarations with
  | Some e => (Err e, r)
  | None =>
    if registry_closed r then (Err (forwardError ForwardErrorSessionInactive ""), r)
    else
      let '(previous, r) := reserve (client, session) r in
      match prepare policy udpConfig client session w auth limit ids declarations ∅ [] with
      | Err e => (Err e, r)
      | Ok (next, results) =>
        (Ok {| tx_live := true; tx_session := (client, session); tx_next := next;
               tx_previous := previous; tx_results := results; tx_retire := false |}, r)
      end
  end.
End validate.

Definition drop_transaction (t : SyncTransaction) : SyncTransaction :=
  {| tx_live := false; tx_session := tx_session t; tx_next := tx_next t; tx_previous := tx_previous t;
     tx_results := tx_results t; tx_retire := tx_retire t |}.

Definition Rollback (t : SyncTransaction) : SyncTransaction := drop_transaction t.

Definition matchesPreviousLocked (t : SyncTransaction) (r : Registry) : bool :=
  bool_decide (sessions r !! tx_session t = Some (tx_previous t)).

(** A prepared binding whose policy is what it was at preparation. *)
Definition still_current (policy : Context → ForwardDeclaration → bool * bool) (_ : string) (b : binding) :
    Prop :=
  policy (authentication b) (declaration b) = (true, is_active b).

#[export] Instance still_current_dec policy n b : Decision (still_current policy n b).
Proof. unfold still_current. apply _. Defined.

(** [companion] is the result of the companion publication, [None] for nil. *)
Definition CommitWith (policy : Context → ForwardDeclaration → bool * bool) (companion : option bool)
    (t : SyncTransaction) (r : Registry) : bool * SyncTransaction * Registry :=
  if negb (tx_live t) then (false, t, r)
  else if registry_closed r || negb (matchesPreviousLocked t r) then (false, drop_transaction t, r)
  else if negb (bool_decide (map_Forall (still_current policy) (tx_next t))) then
    (false, drop_transaction t, r)
  else if bool_decide (companion = Some false) then (false, t, r)
  else
    let a := fresh (dom (sets r)) in
    (true,
     {| tx_live := false; tx_session := tx_session t; tx_next := tx_next t; tx_previous := tx_previous t;
        tx_results := tx_results t; tx_retire := true |},
     r <| sets := <[a := tx_next t]> (sets r) |> <| sessions := <[tx_session t := a]> (sessions r) |>).

(** The identifiers of a set, in the order of a loop over it. *)
Definition set_ids (ρ : go_range string binding) (s : gmap string binding) : list string :=
  bindingID <$> (ρ s).*2.

(** [Retire]: the bindings whose links are cancelled, once. *)
Definition Retire (ρ : go_range string binding) (t : SyncTransaction) (r : Registry) :
    list string * SyncTransaction :=
  if tx_retire t then
    (set_ids ρ (set_at r (tx_previous t)),
     {| tx_live := tx_live t; tx_session := tx_session t; tx_next := tx_next t;
        tx_previous := tx_previous t; tx_results := tx_results t; tx_retire := false |})
  else ([], t).

(** The critical sections of [Remove] and [Close]: the bindings whose links
    are cancelled afterwards are returned. *)
Definition Remove (ρ : go_range string binding) (client session : string) (r : Registry) :
    list string * Registry :=
  (match sessions r !! (client, session) with
   | Some a => set_ids ρ (set_at r a)
   | None => []
   end,
   r <| sessions := delete (client, session) (sessions r) |>).

Definition CloseRegistry (ρ : go_range string binding) (ρs : go_range (string * string) nat)
    (r : Registry) : list string * Registry :=
  ((ρs (sessions r)).*2 ≫= λ a, set_ids ρ (set_at r a),
   r <| registry_closed := true |> <| sessions := ∅ |>).

(** [Commit] retires what it replaced on the way out; [Sync] is a whole
    synchronisation.  The bindings whose links are cancelled are returned. *)
Definition Commit (ρ : go_range string binding) (policy : Context → ForwardDeclaration → bool * bool)
    (t : SyncTransaction) (r : Registry) : bool * list string * SyncTransaction * Registry :=
  let '(ok, t, r) := CommitWith policy None t r in
  let '(retired, t) := Retire ρ t r in
  (ok, retired, t, r).

Definition Sync `{NetipText} (ρ : go_range string binding)
    (policy : Context → ForwardDeclaration → bool * bool) (udpConfig : UDPConfig)
    (client session : string) (w : option nat) (auth : Context) (limit : Z)
    (ids : list (option string)) (declarations : list ForwardDeclaration) (r : Registry) :
    result ForwardError (list ForwardResult) * list string * Registry :=
  match BeginSync policy udpConfig client session w auth limit ids declarations r with
  | (Err e, r) => (Err e, [], r)
  | (Ok t, r) =>
    let '(ok, retired, _, r) := Commit ρ policy t r in
    if negb ok then (Err (forwardError ForwardErrorSessionInactive ""), retired, r)
    else (Ok (tx_results t), retired, r)
  end.

(** [SnapshotStats]: bindings, active bindings, TCP bindings, UDP bindings. *)
Definition count_binding (acc : Z * Z * Z * Z) (b : binding) : Z * Z * Z * Z :=
  let '(bindings, actives, tcp, udp) := acc in
  let actives := if is_active b then actives + 1 else actives in
  if bool_decide (DeclarationType (declaration b) = ForwardTypeTCP) then (bindings, actives, tcp + 1, udp)
  else if bool_decide (DeclarationType (declaration b) = ForwardTypeUDP) then (bindings, actives, tcp, udp + 1)
  else (bindings, actives, tcp, udp).

Definition count_set (ρ : go_range string binding) (acc : Z * Z * Z * Z) (s : gmap string binding) :
    Z * Z * Z * Z :=
  let '(bindings, actives, tcp, udp) := acc in
  foldl count_binding (bindings + Z.of_nat (size s), actives, tcp, udp) (ρ s).*2.

Definition ForwardStats (ρ : go_range string binding) (ρs : go_range (string * string) nat) (r : Registry) :
    Z * Z * Z * Z :=
  foldl (λ acc a, count_set ρ acc (set_at r a)) (0, 0, 0, 0) (ρs (sessions r)).*2.

(** ** Publishing a policy *)

Inductive policyNotice :=
| ForwardBindingRevoked (name : string) (type : ForwardType) (id : string) (generation : Z)
| ForwardBindingActivated (name : string) (type : ForwardType) (id : string) (generation : Z)
    (udp : option ForwardUDPConfig).

Abbreviation PolicyNotifications := (gmap (option nat) (list policyNotice)) (only parsing).

Definition add (w : option nat) (notice : policyNotice) (notifications : gmap (option nat) (list policyNotice)) :
    gmap (option nat) (list policyNotice) :=
  <[w := default [] (notifications !! w) ++ [notice]]> notifications.

Section apply_policy.
Context (policy : Context → ForwardDeclaration → bool * bool)
        (affectedPolicy : Context → ForwardDeclaration → bool)
        (configuration : UDPConfig) (generation : Z).

(** The effects of the loop body on one binding: its new state, whether its
    links are cancelled, and the notices to its client. *)
Definition refresh (b : binding) : binding :=
  b <| is_active := snd (policy (authentication b) (declaration b)) |>.

Definition is_affected (b : binding) : bool :=
  affectedPolicy (authentication b) (declaration b) || negb (snd (policy (authentication b) (declaration b))).

Definition notices (b : binding) : list policyNotice :=
  let active := snd (policy (authentication b) (declaration b)) in
  let changed := affectedPolicy (authentication b) (declaration b) in
  let d := declaration b in
  (if is_active b && (negb active || changed)
   then [ForwardBindingRevoked (DeclarationName d) (DeclarationType d) (bindingID b) generation] else []) ++
  (if active && (negb (is_active b) || changed)
   then [ForwardBindingActivated (DeclarationName d) (DeclarationType d) (bindingID b) generation
           (if bool_decide (DeclarationType d = ForwardTypeUDP)
            then Some (ForwardUDPProtocolConfig configuration) else None)] else []).

Definition notify (notifications : gmap (option nat) (list policyNotice)) (b : binding) :
    gmap (option nat) (list policyNotice) :=
  foldl (λ n notice, add (writer b) notice n) notifications (notices b).

Context (ρ : go_range string binding) (ρs : go_range (string * string) nat).

(** The inner loop over the bindings of one set. *)
Definition apply_set (acc : list string * gmap (option nat) (list policyNotice) * gmap nat (gmap string binding))
    (a : nat) : list string * gmap (option nat) (list policyNotice) * gmap nat (gmap string binding) :=
  let '(affected, notifications, heap) := acc in
  let s := default ∅ (heap !! a) in
  (affected ++ (bindingID <$> filter (λ b, is_affected b = true) (ρ s).*2),
   foldl notify notifications (ρ s).*2,
   <[a := update_each (λ _ b, Some (refresh b)) (ρ s) s]> heap).

(** The critical section of [ApplyPolicy]; the links of the returned bindings
    are cancelled after it. *)
Definition ApplyPolicy (r : Registry) :
    list string * gmap (option nat) (list policyNotice) * Registry :=
  let r := r <| udpLimiter := UpdateConfiguration configuration (udpLimiter r) |> in
  let '(affected, notifications, heap) :=
    foldl apply_set ([], ∅, sets r) (ρs (sessions r)).*2 in
  (affected, notifications, r <| sets := heap |>).
End apply_policy.

(** ** Delivering the notices of a publication

    What the world answers to the sender of one session: whether the context
    has ended when the session is considered, then before the [i]-th notice
    whether it has ended and whether the write succeeded, and whether the
    context ended the stream before the sender stopped watching it. *)

Definition maxPolicyNotificationSessions : Z := 256.

Record SenderWorld := {
  done_at_start : bool;
  done_before : nat → bool;
  write_ok : nat → bool;
  done_late : bool
}.

(** The notices written and whether the stream was closed. *)
Fixpoint send_notices (w : SenderWorld) (i : nat) (notices : list policyNotice) : list policyNotice * bool :=
  match notices with
  | [] => ([], done_late w)
  | notice :: notices =>
    if done_before w i then ([], true)
    else if negb (write_ok w i) then ([], true)
    else let '(sent, closed) := send_notices w (S i) notices in (notice :: sent, closed)
  end.

(** The loop that starts the senders, one for each session with a stream. *)
Fixpoint Deliver (world : nat → SenderWorld) (started : Z)
    (sessions : list (option nat * list policyNotice)) : list (nat * (list policyNotice * bool)) :=
  match sessions with
  | [] => []
  | (None, _) :: sessions => Deliver world started sessions
  | (Some w, notices) :: sessions =>
    if (started =? maxPolicyNotificationSessions) || done_at_start (world w)
    then (w, ([], true)) :: Deliver world started sessions
    else (w, send_notices (world w) 0 notices) :: Deliver world (started + 1) sessions
  end.

(** ** Offering a link *)

Record RequestForwardLink := {
  RequestID : string;
  RequestName : string;
  RequestType : ForwardType;
  RequestBindingID : string
}.

Record ForwardLinkOffer := {
  OfferRequestID : string;
  ForwardLinkID : string;
  ForwardOfferName : string;
  ForwardOfferType : ForwardType;
  ForwardBindingID : string;
  ForwardTicket : string;
  ForwardExpiresAtUnixMS : Z;
  OfferError : option ForwardError
}.

Definition rejectedOffer (request : RequestForwardLink) (code : ForwardErrorCode) : ForwardLinkOffer :=
  {| OfferRequestID := RequestID request; ForwardLinkID := ""; ForwardOfferName := RequestName request;
     ForwardOfferType := RequestType request; ForwardBindingID := RequestBindingID request;
     ForwardTicket := ""; ForwardExpiresAtUnixMS := 0;
     OfferError := Some (forwardError code (RequestName request)) |}.

Definition type_string (t : ForwardType) : string :=
  match t with ForwardTypeTCP => "tcp" | ForwardTypeUDP => "udp" | ForwardTypeOther s => s end.

(** Closing a lease outside the limiter's calls: both halves of [Close]. *)
Definition close_lease (lease : AssociationLease) (l : Limiter) : Limiter :=
  match Close_lease lease with
  | Some (lease, (was_pending, was_queued)) => Close_limiter lease was_pending was_queued l
  | None => l
  end.

Definition offer_target (client session : string) (request : RequestForwardLink) (current : binding)
    (reserved : bool) : LinkBroker.Target :=
  {| ClientID := client; SessionID := session; BindingName := RequestName request;
     TrafficType := type_string (RequestType request); BindingID := RequestBindingID request;
     Writer := is_some (writer current); MaxDatagramSize := 0; WriteTimeout := 0;
     Authentication := authentication current; MaxActiveLinks := maxActiveLinks current;
     Direction := LinkDirectionForward; Reservation := reserved |}.

Section offer.
Context (ρr : go_range string rateCounter).
Context (policy : Context → ForwardDeclaration → bool * bool).

(** The part under the read lock: the offer with the lease behind it. *)
Definition Offer_locked (client session : string) (request : RequestForwardLink) (now : Time)
    (creds : option Credentials) (r : Registry) (b : Broker) :
    result (ForwardErrorCode * option AssociationLease) (OpenLink * option AssociationLease)
    * Registry * Broker :=
  match bindingLocked client session (RequestName request) r with
  | None => (Err (ForwardErrorBindingInvalid, None), r, b)
  | Some current =>
    if negb (is_active current) || negb (bool_decide (bindingID current = RequestBindingID request)) ||
       negb (bool_decide (DeclarationType (declaration current) = RequestType request))
    then (Err (ForwardErrorBindingInvalid, None), r, b)
    else if negb (snd (policy (authentication current) (declaration current)))
    then (Err (ForwardErrorTargetNotAllowed, None), r, b)
    else
      let '(reservation, l) :=
        if bool_decide (RequestType request = ForwardTypeUDP)
        then match AcquireWithoutSource ρr client (RequestName request) now (udpLimiter r) with
             | (None, l) => (None, l)
             | (Some lease, l) => (Some (Some lease), l)
             end
        else (Some None, udpLimiter r) in
      let r := r <| udpLimiter := l |> in
      match reservation with
      | None => (Err (ForwardErrorLimitExceeded, None), r, b)
      | Some lease =>
        match OfferStream (offer_target client session request current (is_some lease)) creds now b with
        | (b, Ok offer) => (Ok (offer, lease), r, b)
        | (b, Err ErrCapacityReached) => (Err (ForwardErrorLimitExceeded, lease), r, b)
        | (b, Err _) => (Err (ForwardErrorInvalidRequest, lease), r, b)
        end
      end
  end.

Definition release_lease (lease : option AssociationLease) (r : Registry) : Registry :=
  match lease with
  | Some lease => r <| udpLimiter := close_lease lease (udpLimiter r) |>
  | None => r
  end.

(** The whole call; [activeBefore] and [activeAfter] are what [sessionActive]
    answers at its two evaluations. *)
Definition Offer (client session : string) (request : RequestForwardLink) (now : Time)
    (creds : option Credentials) (activeBefore activeAfter : bool) (r : Registry) (b : Broker) :
    ForwardLinkOffer * Registry * Broker * list Event :=
  if negb activeBefore then (rejectedOffer request ForwardErrorSessionInactive, r, b, [])
  else
    match Offer_locked client session request now creds r b with
    | (Err (code, lease), r, b) => (rejectedOffer request code, release_lease lease r, b, [])
    | (Ok (offer, lease), r, b) =>
      if negb activeAfter then
        let '(b, events) := CancelForwardLink client session (OfferLinkID offer) b in
        let r := if bool_decide (ReservationClosed (OfferLinkID offer) ∈ events)
                 then release_lease lease r else r in
        (rejectedOffer request ForwardErrorSessionInactive, r, b, events)
      else
        ({| OfferRequestID := RequestID request; ForwardLinkID := OfferLinkID offer;
            ForwardOfferName := RequestName request; ForwardOfferType := RequestType request;
            ForwardBindingID := RequestBindingID request; ForwardTicket := Ticket offer;
            ForwardExpiresAtUnixMS := ExpiresAtUnixMS offer; OfferError := None |}, r, b, [])
    end.

(** [authorize] of [handlerFactory], run by the broker before the target is
    dialled; [current] is the binding as it was when the link was offered. *)
Definition authorize (sessionActive : bool) (current : binding) (r : Registry) : bool :=
  sessionActive && negb (registry_closed r) &&
  match bindingLocked (owner_client current) (owner_session current)
          (DeclarationName (declaration current)) r with
  | Some registered => is_active registered && bool_decide (bindingID registered = bindingID current)
  | None => false
  end &&
  snd (policy (authentication current) (declaration current)).
End offer.

(** ** The policy *)

Section policy_lemmas.
Context `{NetipText}.

(** What the rules of a client add to those of the server. *)
Definition client_allows (configuration : ServerConfig) (auth : Context) (d : ForwardDeclaration) : Prop :=
  Mode auth = ModeShared ∨
  (Mode auth = ModeGoverned ∧ ∃ rules,
     GovernedClients configuration !! ContextClientID auth = Some rules ∧ target_allowed rules d = true) ∨
  (Mode auth = ModeManaged ∧ ∃ client,
     ManagedClients configuration !! ContextClientID auth = Some client ∧
     target_allowed (effective_rules configuration client) d = true).

Lemma forwardPolicy_spec configuration auth d :
  (fst (forwardPolicy configuration auth d) = true ↔
     target_allowed (Rules (Forwards configuration)) d = true ∧ client_allows configuration auth d) ∧
  snd (forwardPolicy configuration auth d) =
    fst (forwardPolicy configuration auth d) && ForwardEnabled (Forwards configuration).
Proof.
  unfold forwardPolicy, client_allows, effective_rules.
  destruct (target_allowed (Rules (Forwards configuration)) d) eqn:Hg; cbn [negb];
    [|split; [|done]; split; [done|by intros [? _]]].
  destruct (bool_decide (Mode auth = ModeShared)) eqn:Es; bool_to_prop.
  { split; [|done]. split; [|done]. intros _. split; [done|by left]. }
  destruct (bool_decide (Mode auth = ModeGoverned)) eqn:Eg; bool_to_prop.
  { destruct (GovernedClients configuration !! _) as [rules|] eqn:Hc; cbn [fst snd]; (split; [|done]); split.
    - intros Ht. split; [done|]. right. left. eauto.
    - intros [_ [?|[(_ & rules' & ? & ?)|(Hm & _)]]]; [done|congruence|]. rewrite Eg in Hm. discriminate Hm.
    - done.
    - intros [_ [?|[(_ & rules' & ? & ?)|(Hm & _)]]]; [done|congruence|]. rewrite Eg in Hm. discriminate Hm. }
  destruct (bool_decide (Mode auth = ModeManaged)) eqn:Em; bool_to_prop.
  2: { split; [|done]. split; [done|]. by intros [_ [?|[[? _]|[? _]]]]. }
  destruct (ManagedClients configuration !! _) as [client|] eqn:Hc; cbn [fst snd].
  2: { split; [|done]. split; [done|]. by intros [_ [?|[[? _]|(_ & c & ? & _)]]]. }
  destruct (bool_decide (ManagedRules client = [])) eqn:El; cbn [fst snd].
  - split; [|done]. split; [|done]. intros _. split; [done|]. right. right. split; [done|].
    exists client. by rewrite El.
  - split; [|done]. split.
    + intros Ht. split; [done|]. right. right. split; [done|]. exists client. by rewrite El.
    + intros [_ [?|[[? _]|(_ & client' & ? & Ht)]]]; [done|congruence|]. simplify_eq. by rewrite El in Ht.
Qed.
End policy_lemmas.

(** ** Publication *)

(** An address of a published set is allocated. *)
Definition allocated (r : Registry) : Prop :=
  ∀ key a, sessions r !! key = Some a → is_Some (sets r !! a).

(** A published binding that the policy allows at present. *)
Definition live (r : Registry) (id : string) : Prop :=
  ∃ key a name b, sessions r !! key = Some a ∧ set_at r a !! name = Some b ∧
    bindingID b = id ∧ is_active b = true.

Lemma set_at_insert r a s a' x y z :
  set_at {| sessions := x; sets := <[a := s]> (sets r); udpLimiter := y; registry_closed := z |} a' =
    if decide (a = a') then s else set_at r a'.
Proof. unfold set_at. cbn. rewrite lookup_insert. by case_decide. Qed.

Lemma fresh_set r key a : allocated r → sessions r !! key = Some a → fresh (dom (sets r)) ≠ a.
Proof.
  intros Hr Ha E. apply (is_fresh (dom (sets r))). rewrite E. apply elem_of_dom. by eapply Hr.
Qed.

Lemma set_ids_elem ρ s name b : s !! name = Some b → bindingID b ∈ set_ids ρ s.
Proof.
  intros Hb. unfold set_ids. apply list_elem_of_fmap. exists b. split; [done|].
  apply list_elem_of_fmap. exists (name, b). by rewrite range_elem.
Qed.

Lemma reserve_spec key r a r' :
  reserve key r = (a, r') → allocated r →
  allocated r' ∧ sessions r' !! key = Some a ∧ (∀ id, live r id → live r' id) ∧
  dom (sets r) ⊆ dom (sets r') ∧ (∀ key', key' ≠ key → sessions r' !! key' = sessions r !! key') ∧
  (∀ a', a' ∈ dom (sets r) → set_at r' a' = set_at r a') ∧
  (sessions r !! key = Some a ∨ sessions r !! key = None ∧ (a ∉ dom (sets r))).
Proof.
  unfold reserve. intros E Hr. destruct (sessions r !! key) as [a0|] eqn:Hk.
  { injection E as <- <-. split_and!; auto. }
  injection E as <- <-. set (a := fresh (dom (sets r))). pose proof (is_fresh (dom (sets r))) as Hf. fold a in Hf.
  assert (Hset : ∀ a', a' ∈ dom (sets r) → set_at ((r <| sets := <[a := ∅]> (sets r) |>)
      <| sessions := <[key := a]> (sessions r) |>) a' = set_at r a').
  { intros a' Ha'. cbn. rewrite set_at_insert. case_decide; [congruence|done]. }
  split_and!.
  - intros k b. cbn. rewrite !lookup_insert. case_decide; [intros; simplify_eq; by rewrite decide_True|].
    intros Hb. case_decide; [done|]. by eapply Hr.
  - cbn. by rewrite lookup_insert_eq.
  - intros id (k & b & name & x & Hkb & Hx & ? & ?). exists k, b, name, x.
    split; [cbn; rewrite lookup_insert_ne by congruence; done|].
    rewrite Hset by (apply elem_of_dom; by eapply Hr). done.
  - cbn. set_solver.
  - intros k' Hne. cbn. by rewrite lookup_insert_ne.
  - done.
  - by right.
Qed.

Lemma commit_spec policy companion t r ok t' r' :
  CommitWith policy companion t r = (ok, t', r') → allocated r →
  allocated r' ∧ tx_previous t' = tx_previous t ∧
  if ok then
    tx_live t = true ∧ registry_closed r = false ∧ sessions r !! tx_session t = Some (tx_previous t) ∧
    map_Forall (still_current policy) (tx_next t) ∧ tx_retire t' = true ∧
    (∃ a, (a ∉ dom (sets r)) ∧ dom (sets r') = {[a]} ∪ dom (sets r) ∧
      sessions r' = <[tx_session t := a]> (sessions r) ∧ set_at r' a = tx_next t ∧
      (∀ a', a' ∈ dom (sets r) → set_at r' a' = set_at r a'))
  else r' = r.
Proof.
  unfold CommitWith. intros E Hr. destruct (tx_live t) eqn:Hl; cbn [negb] in E; [|by simplify_eq].
  destruct (registry_closed r || negb (matchesPreviousLocked t r)) eqn:Hc; [by simplify_eq|].
  apply orb_false_iff in Hc as [Hc Hm]. apply negb_false_iff, bool_decide_eq_true in Hm.
  destruct (negb (bool_decide (map_Forall _ _))) eqn:Hp; [by simplify_eq|].
  apply negb_false_iff, bool_decide_eq_true in Hp.
  destruct (bool_decide (companion = Some false)); [by simplify_eq|].
  injection E as <- <- <-. set (a := fresh (dom (sets r))).
  pose proof (is_fresh (dom (sets r))) as Hf. fold a in Hf.
  split_and!; try done.
  - intros k b. cbn. rewrite !lookup_insert. case_decide; [intros; simplify_eq; by rewrite decide_True|].
    intros Hb. case_decide; [done|]. by eapply Hr.
  - exists a. split_and!; [done|cbn; by rewrite dom_insert_L|done| |].
    + cbn. rewrite set_at_insert. by rewrite decide_True.
    + intros a' Ha'. cbn. rewrite set_at_insert. case_decide; [congruence|done].
Qed.

Section apply_lemmas.
Context (policy : Context → ForwardDeclaration → bool * bool)
        (affectedPolicy : Context → ForwardDeclaration → bool)
        (configuration : UDPConfig) (generation : Z).
Context (ρ : go_range string binding) (ρs : go_range (string * string) nat).

Abbreviation hget heap a := (default (∅ : gmap string binding) (heap !! a)).

Lemma refresh_idem b : refresh policy (refresh policy b) = refresh policy b.
Proof. by destruct b. Qed.

Lemma refresh_affected b : is_affected policy affectedPolicy (refresh policy b) = is_affected policy affectedPolicy b.
Proof. by destruct b. Qed.

Lemma apply_fold_spec l : ∀ affected notifications heap affected' notifications' heap',
  foldl (apply_set policy affectedPolicy configuration generation ρ) (affected, notifications, heap) l
    = (affected', notifications', heap') →
  (∀ a name, hget heap' a !! name =
     if decide (a ∈ l) then refresh policy <$> hget heap a !! name else hget heap a !! name) ∧
  dom heap ⊆ dom heap' ∧
  (∀ id, id ∈ affected' ↔ id ∈ affected ∨
     ∃ a name b, a ∈ l ∧ hget heap a !! name = Some b ∧ bindingID b = id ∧
       is_affected policy affectedPolicy b = true).
Proof.
  induction l as [|a0 l IH]; intros affected notifications heap affected' notifications' heap'; cbn [foldl].
  { intros [= <- <- <-]. split_and!; [intros a name; by rewrite decide_False by apply not_elem_of_nil|done|].
    intros id. split; [by left|]. by intros [?|(? & ? & ? & ?%elem_of_nil & _)]. }
  cbn [apply_set]. set (s := hget heap a0).
  set (heap1 := <[a0 := update_each (λ _ b, Some (refresh policy b)) (ρ s) s]> heap). intros E.
  assert (H1 : ∀ a name, hget heap1 a !! name =
    if decide (a0 = a) then refresh policy <$> hget heap a !! name else hget heap a !! name).
  { intros a name. unfold heap1. rewrite lookup_insert. case_decide; [subst a0|done].
    cbn [from_option id]. rewrite (update_each_range ρ _ s). fold s. by destruct (s !! name). }
  destruct (IH _ _ _ _ _ _ E) as (Hh & Hd & Haff). split_and!.
  - intros a name. rewrite Hh, H1.
    destruct (decide (a0 = a)) as [->|Hne].
    + rewrite (decide_True (P := a ∈ a :: l)) by left. case_decide; [|done].
      destruct (hget heap a !! name) as [b|]; [|done]. cbn. by rewrite refresh_idem.
    + destruct (decide (a ∈ l)); [by rewrite decide_True by (by right)|].
      rewrite decide_False; [done|]. intros [?|?]%elem_of_cons; congruence.
  - etrans; [|exact Hd]. unfold heap1. rewrite dom_insert. set_solver.
  - intros id. rewrite Haff, elem_of_app, list_elem_of_fmap. split.
    + intros [[?|(b & -> & [Hb Hin]%list_elem_of_filter)]|(a & name & b & Ha & Hb & ? & ?)].
      * by left.
      * apply list_elem_of_fmap in Hin as ([name b'] & -> & Hin%range_elem). right.
        exists a0, name, b'. split; [left|done].
      * right. rewrite H1 in Hb. destruct (decide (a0 = a)) as [->|].
        -- destruct (hget heap a !! name) as [b0|] eqn:Hb0; [|done]. injection Hb as <-.
           exists a, name, b0. rewrite refresh_affected in *. split_and!; [by left|done..].
        -- exists a, name, b. split; [by right|done].
    + intros [?|(a & name & b & [->|Ha]%elem_of_cons & Hb & Hid & Hf)]; [by left; left| |].
      * left. right. exists b. split; [done|]. apply list_elem_of_filter. split; [done|].
        apply list_elem_of_fmap. exists (name, b). split; [done|]. by apply range_elem.
      * destruct (decide (a0 = a)) as [->|].
        -- right. exists a, name, (refresh policy b). rewrite refresh_affected, H1, decide_True, Hb by done.
           split_and!; [done|done|by destruct b|done].
        -- right. exists a, name, b. rewrite H1, decide_False by done. done.
Qed.

(** What publishing a policy does to the published bindings. *)
Lemma ForwardPolicy_spec r affected notifications r' :
  ApplyPolicy policy affectedPolicy configuration generation ρ ρs r = (affected, notifications, r') →
  sessions r' = sessions r ∧ registry_closed r' = registry_closed r ∧ dom (sets r) ⊆ dom (sets r') ∧
  (∀ key a name, sessions r !! key = Some a →
     set_at r' a !! name = refresh policy <$> set_at r a !! name) ∧
  (∀ id, id ∈ affected ↔ ∃ key a name b, sessions r !! key = Some a ∧ set_at r a !! name = Some b ∧
     bindingID b = id ∧ is_affected policy affectedPolicy b = true).
Proof.
  unfold ApplyPolicy. cbn [udpLimiter sets sessions upd].
  destruct (foldl _ _ _) as [[aff notes] heap] eqn:E. intros [= <- <- <-].
  destruct (apply_fold_spec _ _ _ _ _ _ _ E) as (Hh & Hd & Haff).
  assert (Hin : ∀ a, a ∈ (ρs (sessions r)).*2 ↔ ∃ key, sessions r !! key = Some a).
  { intros a. rewrite list_elem_of_fmap. split.
    - intros ([key a'] & -> & Hk%range_elem). by exists key.
    - intros (key & Hk). exists (key, a). by rewrite range_elem. }
  split_and!; [done|done|done| |].
  - intros key a name Ha. unfold set_at. cbn. rewrite Hh, decide_True; [done|]. apply Hin. by exists key.
  - intros id. rewrite Haff. split.
    + intros [?%elem_of_nil|(a & name & b & [key Hk]%Hin & Hb & ? & ?)]; [done|]. by exists key, a, name, b.
    + intros (key & a & name & b & Hk & Hb & ? & ?). right. exists a, name, b.
      split_and!; [apply Hin; by exists key|done..].
Qed.
End apply_lemmas.

(** ** Notices *)

Lemma add_lookup w notice n w' :
  default [] (add w notice n !! w') = default [] (n !! w') ++ (if decide (w = w') then [notice] else []).
Proof.
  unfold add. rewrite lookup_insert. case_decide; [by subst|]. by rewrite app_nil_r.
Qed.

Lemma adds_lookup w l n w' :
  default [] (foldl (λ n notice, add w notice n) n l !! w') =
  default [] (n !! w') ++ (if decide (w = w') then l else []).
Proof.
  revert n. induction l as [|x l IH]; intros n; cbn [foldl]; [case_decide; by rewrite app_nil_r|].
  rewrite IH, add_lookup, <- app_assoc. by case_decide.
Qed.

Section notice_lemmas.
Context (policy : Context → ForwardDeclaration → bool * bool)
        (affectedPolicy : Context → ForwardDeclaration → bool)
        (configuration : UDPConfig) (generation : Z).
Context (ρ : go_range string binding).
Abbreviation notices_of := (notices policy affectedPolicy configuration generation).

Lemma notify_lookup n l w :
  default [] (foldl (notify policy affectedPolicy configuration generation) n l !! w) =
  default [] (n !! w) ++ (filter (λ b, writer b = w) l ≫= notices_of).
Proof.
  revert n. induction l as [|b l IH]; intros n; cbn [foldl]; [by rewrite app_nil_r|].
  rewrite IH. unfold notify at 1. rewrite adds_lookup, <- app_assoc. f_equal.
  rewrite filter_cons. by case_decide.
Qed.

(** Every notice of a binding of a visited set is recorded for its stream. *)
Lemma apply_fold_notices l : ∀ affected n heap affected' n' heap',
  foldl (apply_set policy affectedPolicy configuration generation ρ) (affected, n, heap) l = (affected', n', heap') →
  (∀ w notice, notice ∈ default [] (n !! w) → notice ∈ default [] (n' !! w)) ∧
  (∀ a name b notice, a ∈ l → default (∅ : gmap string binding) (heap !! a) !! name = Some b →
     notice ∈ notices_of b → notice ∈ default [] (n' !! writer b)).
Proof.
  induction l as [|a0 l IH]; intros affected n heap affected' n' heap'; cbn [foldl].
  { intros [= <- <- <-]. split; [done|]. by intros a name b notice ?%elem_of_nil. }
  cbn [apply_set]. intros [Hmono Hall]%IH. split.
  - intros w notice Hn. apply Hmono. rewrite notify_lookup. apply elem_of_app. by left.
  - intros a name b notice Ha Hb Hn. destruct (decide (a = a0)) as [->|Hne].
    + apply Hmono. rewrite notify_lookup. apply elem_of_app. right. apply list_elem_of_bind. exists b.
      split; [done|]. apply list_elem_of_filter. split; [done|]. apply list_elem_of_fmap. exists (name, b).
      by rewrite range_elem.
    + apply elem_of_cons in Ha as [?|Ha]; [done|]. eapply Hall; [done| |done].
      by rewrite lookup_insert_ne.
Qed.

Lemma ApplyPolicy_notices ρs r affected notifications r' key a name b notice :
  ApplyPolicy policy affectedPolicy configuration generation ρ ρs r = (affected, notifications, r') →
  sessions r !! key = Some a → set_at r a !! name = Some b → notice ∈ notices_of b →
  ∃ l, notifications !! writer b = Some l ∧ notice ∈ l.
Proof.
  unfold ApplyPolicy. cbn [udpLimiter sets sessions upd].
  destruct (foldl _ _ _) as [[aff notes] heap] eqn:E. intros [= <- <- <-] Hk Hb Hn.
  destruct (apply_fold_notices _ _ _ _ _ _ _ E) as [_ Hall].
  assert (Hin : notice ∈ default [] (notes !! writer b)).
  { eapply Hall; [|exact Hb|done]. apply list_elem_of_fmap. exists (key, a). by rewrite range_elem. }
  destruct (notes !! writer b) as [l|]; [by exists l|]. by apply elem_of_nil in Hin.
Qed.
End notice_lemmas.

Lemma send_notices_spec w i l : let '(sent, closed) := send_notices w i l in sent = l ∨ closed = true.
Proof.
  revert i. induction l as [|x l IH]; intros i; cbn [send_notices]; [by left|].
  destruct (done_before w i); [by right|]. destruct (negb (write_ok w i)); [by right|].
  specialize (IH (S i)). destruct (send_notices w (S i) l) as [sent closed].
  destruct IH as [->| ->]; [by left|by right].
Qed.

Lemma Deliver_spec world started l w notices :
  (Some w, notices) ∈ l → ∃ sent closed, (w, (sent, closed)) ∈ Deliver world started l ∧
    (sent = notices ∨ closed = true).
Proof.
  revert started. induction l as [|[[w'|] notices'] l IH]; intros started; cbn [Deliver].
  - by intros ?%elem_of_nil.
  - intros [[= <- <-]|Hin]%elem_of_cons.
    + destruct (_ || _); [exists [], true; split; [left|by right]|].
      pose proof (send_notices_spec (world w) 0 notices) as Hs.
      destruct (send_notices (world w) 0 notices) as [sent closed]. exists sent, closed. split; [left|done].
    + destruct (_ || _); edestruct IH as (sent & closed & ? & ?); try done; exists sent, closed;
        (split; [by right|done]).
  - intros [?|Hin]%elem_of_cons; [done|]. by apply IH.
Qed.

(** ** Liveness of bindings across the operations *)

Lemma begin_live `{NetipText} policy udp client session w auth limit ids declarations r res r' :
  BeginSync policy udp client session w auth limit ids declarations r = (res, r') → allocated r →
  allocated r' ∧ ∀ id, live r id → live r' id.
Proof.
  unfold BeginSync. destruct (Validate _ _ _); [by intros [= <- <-]|].
  destruct (registry_closed r); [by intros [= <- <-]|].
  destruct (reserve _ _) as [a r1] eqn:Er. intros E Hr.
  destruct (reserve_spec _ _ _ _ Er Hr) as (Ha & _ & Hl & _).
  destruct (prepare _ _ _ _ _ _ _ _ _ _ _) as [[??]|]; injection E as <- <-; done.
Qed.

Lemma commit_live ρ policy companion t r ok t' r' :
  CommitWith policy companion t r = (ok, t', r') → allocated r →
  allocated r' ∧ ∀ id, live r id → live r' id ∨ id ∈ fst (Retire ρ t' r').
Proof.
  intros E Hr. destruct (commit_spec _ _ _ _ _ _ _ E Hr) as (Ha & Ep & Hok). split; [done|].
  destruct ok; [|subst; auto]. destruct Hok as (_ & _ & Hprev & _ & Hret & a & _ & _ & Es & _ & Hold).
  intros id (key & b & name & x & Hk & Hx & Hid & Hact).
  assert (Hdom : ∀ k c, sessions r !! k = Some c → c ∈ dom (sets r)) by (intros; apply elem_of_dom; by eapply Hr).
  destruct (decide (tx_session t = key)) as [<-|Hne].
  - right. rewrite Hprev in Hk. simplify_eq. unfold Retire. rewrite Hret, Ep. cbn [fst].
    eapply set_ids_elem. rewrite Hold by eauto. done.
  - left. exists key, b, name, x. rewrite Es, lookup_insert_ne by done. rewrite Hold by eauto. done.
Qed.

Lemma remove_live ρ client session r :
  allocated r → let r' := snd (Remove ρ client session r) in
  allocated r' ∧ ∀ id, live r id → live r' id ∨ id ∈ fst (Remove ρ client session r).
Proof.
  intros Hr r'. split; [intros k a; cbn; intros [_ Hk]%lookup_delete_Some; by eapply Hr|].
  intros id (key & b & name & x & Hk & Hx & Hid & Hact).
  destruct (decide ((client, session) = key)) as [<-|Hne].
  - right. cbn. rewrite Hk. subst id. by eapply set_ids_elem.
  - left. exists key, b, name, x. cbn. by rewrite lookup_delete_ne.
Qed.

Lemma close_live ρ ρs r :
  let r' := snd (CloseRegistry ρ ρs r) in
  allocated r' ∧ ∀ id, live r id → id ∈ fst (CloseRegistry ρ ρs r).
Proof.
  split; [intros k a; cbn; by rewrite lookup_empty|].
  intros id (key & b & name & x & Hk & Hx & Hid & Hact). cbn. apply list_elem_of_bind. exists b.
  split; [subst id; by eapply set_ids_elem|]. apply list_elem_of_fmap. exists (key, b). by rewrite range_elem.
Qed.

Lemma apply_live policy affectedPolicy configuration generation ρ ρs r affected notifications r' :
  ApplyPolicy policy affectedPolicy configuration generation ρ ρs r = (affected, notifications, r') →
  allocated r → allocated r' ∧ ∀ id, live r id → live r' id ∨ id ∈ affected.
Proof.
  intros E Hr. destruct (ForwardPolicy_spec _ _ _ _ _ _ _ _ _ _ E) as (Es & _ & Hd & Hset & Haff). split.
  - intros k a. rewrite Es. intros Hk. apply elem_of_dom, Hd, elem_of_dom. by eapply Hr.
  - intros id (key & b & name & x & Hk & Hx & Hid & Hact).
    destruct (snd (policy (authentication x) (declaration x))) eqn:Hp.
    + left. exists key, b, name, (refresh policy x). rewrite Es, (Hset _ _ _ Hk), Hx.
      split_and!; [done|done|by destruct x|by destruct x].
    + right. apply Haff. exists key, b, name, x. unfold is_affected. rewrite Hp, orb_true_r. done.
Qed.

(** ** Interleavings of the registry and the broker

    Publications run under the lock of the registry and cancel links
    afterwards, without it: [queue] holds the bindings still to be cancelled.
    [CancelBinding] of the broker collects the links of a binding under its own
    lock, into [cancels] and [closes], and retires them one by one; a link may
    be bound in between.  [authorised] are the links whose handler factory was
    let through, [hung_up] those whose connection was closed, and [origin] has
    for every Forward link the binding it was offered for.

    [policy_now] is what the policy function of the service answers, which
    reads the current configuration; a reload replaces it and owes the registry
    a call of [ApplyPolicy].  Whoever asks the policy while it is being replaced
    may still get an old answer; afterwards the answer is the current one. *)

Record ForwardSystem := {
  reg : Registry;
  brk : Broker;
  queue : list string;
  cancels : list string;
  closes : list string;
  authorised : gset string;
  hung_up : gset string;
  origin : gmap string binding;
  policy_now : Context → ForwardDeclaration → bool * bool;
  owed : bool
}.
#[export] Instance eta_ForwardSystem : Eta ForwardSystem := λ s,
  {| reg := reg s; brk := brk s; queue := queue s; cancels := cancels s; closes := closes s;
     authorised := authorised s; hung_up := hung_up s; origin := origin s; policy_now := policy_now s; owed := owed s |}.

Definition forward_initial (c : UDPConfig) (policy : Context → ForwardDeclaration → bool * bool) : ForwardSystem :=
  {| reg := New c; brk := NewBroker; queue := []; cancels := []; closes := []; authorised := ∅;
     hung_up := ∅; origin := ∅; policy_now := policy; owed := false |}.

(** What the policy may answer. *)
Definition answers (s : ForwardSystem) (policy : Context → ForwardDeclaration → bool * bool) : Prop :=
  owed s = false → policy = policy_now s.

(** The links of a binding that [CancelBinding] collects. *)
Definition pending_of (id : string) (b : Broker) : list string :=
  (map_to_list (filter (λ p, BindingID (target p.2) = id) (pending b))).*1.
Definition active_of (id : string) (b : Broker) : list string :=
  (map_to_list (filter (λ p, BindingID p.2 = id) (active b))).*1.

Definition publish (r : Registry) (ids : list string) (s : ForwardSystem) : ForwardSystem :=
  s <| reg := r |> <| queue := queue s ++ ids |>.

Section forward_system.
Context `{NetipText} (ρr : go_range string rateCounter) (ρ : go_range string binding)
        (ρs : go_range (string * string) nat).

Inductive forward_step (s : ForwardSystem) : ForwardSystem → Prop :=
| fs_begin policy udp client session w auth limit ids declarations res r :
    BeginSync policy udp client session w auth limit ids declarations (reg s) = (res, r) →
    forward_step s (publish r [] s)
| fs_commit policy companion t ok t' r : answers s policy →
    CommitWith policy companion t (reg s) = (ok, t', r) →
    forward_step s (publish r (fst (Retire ρ t' r)) s)
| fs_remove client session :
    forward_step s (publish (snd (Remove ρ client session (reg s))) (fst (Remove ρ client session (reg s))) s)
| fs_configure policy : forward_step s (s <| policy_now := policy |> <| owed := true |>)
| fs_apply affectedPolicy configuration generation affected notifications r :
    ApplyPolicy (policy_now s) affectedPolicy configuration generation ρ ρs (reg s) = (affected, notifications, r) →
    forward_step s (publish r affected s <| owed := false |>)
| fs_shutdown :
    forward_step s (publish (snd (CloseRegistry ρ ρs (reg s))) (fst (CloseRegistry ρ ρs (reg s))) s)
| fs_offer policy client session request now creds offer lease r b current : answers s policy →
    Offer_locked ρr policy client session request now (Some creds) (reg s) (brk s)
      = (Ok (offer, lease), r, b) →
    bindingLocked client session (RequestName request) (reg s) = Some current →
    pending (brk s) !! credLinkID creds = None → active (brk s) !! credLinkID creds = None →
    origin s !! credLinkID creds = None →
    forward_step s (s <| reg := r |> <| brk := b |> <| origin := <[credLinkID creds := current]> (origin s) |>)
| fs_bind binding auth ticket now b events outcome :
    bind_section binding auth ticket now (brk s) = (b, events, outcome) →
    forward_step s (s <| brk := b |>)
| fs_authorise policy sessionActive link t current : answers s policy →
    active (brk s) !! link = Some t → origin s !! link = Some current →
    authorize policy sessionActive current (reg s) = true →
    forward_step s (s <| authorised := {[link]} ∪ authorised s |>)
| fs_finish link : forward_step s (s <| brk := fst (finish link (brk s)) |>)
| fs_cancel link notifies reason : forward_step s (s <| brk := fst (cancel link notifies reason (brk s)) |>)
| fs_collect l1 id l2 :
    queue s = l1 ++ id :: l2 →
    forward_step s (s <| queue := l1 ++ l2 |> <| cancels := cancels s ++ pending_of id (brk s) |>
                      <| closes := closes s ++ active_of id (brk s) |>)
| fs_retire l1 link l2 :
    cancels s = l1 ++ link :: l2 →
    forward_step s (s <| cancels := l1 ++ l2 |> <| brk := fst (cancel link false Canceled (brk s)) |>)
| fs_hang_up l1 link l2 :
    closes s = l1 ++ link :: l2 →
    forward_step s (s <| closes := l1 ++ l2 |> <| hung_up := {[link]} ∪ hung_up s |>).

Record forward_ok (s : ForwardSystem) : Prop := {
  fo_allocated : allocated (reg s);
  fo_pending link p cur : pending (brk s) !! link = Some p → origin s !! link = Some cur →
    BindingID (target p) = bindingID cur ∧
    (live (reg s) (bindingID cur) ∨ bindingID cur ∈ queue s ∨ link ∈ cancels s);
  fo_active link t cur : active (brk s) !! link = Some t → origin s !! link = Some cur →
    BindingID t = bindingID cur ∧
    (link ∈ authorised s →
       live (reg s) (bindingID cur) ∨ bindingID cur ∈ queue s ∨ link ∈ closes s ∨ link ∈ hung_up s);
  fo_authorised link : link ∈ authorised s → is_Some (origin s !! link) ∧ pending (brk s) !! link = None;
  fo_disjoint link : is_Some (active (brk s) !! link) → pending (brk s) !! link = None
}.

Lemma forward_initial_ok c policy : forward_ok (forward_initial c policy).
Proof.
  constructor.
  - intros key a Hk. discriminate Hk.
  - intros link p cur Hk. discriminate Hk.
  - intros link t cur Hk. discriminate Hk.
  - intros link Hin. by apply elem_of_empty in Hin.
  - intros link [t Ht]. discriminate Ht.
Qed.

(** A publication may end the life of a binding only by queueing it. *)
Lemma publish_ok s r ids :
  forward_ok s → allocated r → (∀ id, live (reg s) id → live r id ∨ id ∈ ids) →
  forward_ok (publish r ids s).
Proof.
  intros [Ha Hp Hac Hau Hdis] Hr Hl. constructor; cbn; [done| | |done|done].
  - intros link p cur H1 H2. destruct (Hp _ _ _ H1 H2) as [E Hc]. split; [done|].
    rewrite elem_of_app. destruct Hc as [Hc|[?|?]]; [|by auto..]. destruct (Hl _ Hc); auto.
  - intros link t cur H1 H2. destruct (Hac _ _ _ H1 H2) as [E Hc]. split; [done|]. intros Hin.
    rewrite elem_of_app. destruct (Hc Hin) as [Hlv|[?|?]]; [|by auto..]. destruct (Hl _ Hlv); auto.
Qed.

(** A change of the broker that only takes links away. *)
Lemma shrink_broker_ok s b :
  forward_ok s → pending b ⊆ pending (brk s) → active b ⊆ active (brk s) → forward_ok (s <| brk := b |>).
Proof.
  intros [Ha Hp Hac Hau Hdis] Hpe Hae.
  assert (Hgone : ∀ link, pending (brk s) !! link = None → pending b !! link = None).
  { intros link Hn. destruct (pending b !! link) as [p|] eqn:E; [|done].
    by rewrite (lookup_weaken _ _ _ _ E Hpe) in Hn. }
  constructor; cbn; [done| | | |].
  - intros link p cur H1. by apply Hp, (lookup_weaken _ _ _ _ H1).
  - intros link t cur H1. by apply Hac, (lookup_weaken _ _ _ _ H1).
  - intros link Hin. destruct (Hau _ Hin) as [? Hn]. auto.
  - intros link [t Ht]. apply Hgone, Hdis. rewrite (lookup_weaken _ _ _ _ Ht Hae). by eexists.
Qed.

Lemma cancel_subseteq link notify reason b :
  pending (fst (cancel link notify reason b)) ⊆ pending b ∧ active (fst (cancel link notify reason b)) ⊆ active b.
Proof.
  split; [|by destruct (cancel_frame link notify reason b) as [-> _]].
  apply map_subseteq_spec. intros l p. rewrite cancel_lookup. by case_decide.
Qed.

Lemma finish_subseteq link b :
  pending (fst (finish link b)) ⊆ pending b ∧ active (fst (finish link b)) ⊆ active b.
Proof. unfold finish. destruct (active b !! link); [|done]. split; [done|]. cbn. apply delete_subseteq. Qed.

Lemma OfferStream_ok t creds now b b' offer :
  OfferStream t (Some creds) now b = (b', Ok offer) →
  ∃ p, target p = t ∧ pending b' = <[credLinkID creds := p]> (pending b) ∧ active b' = active b ∧
    OfferLinkID offer = credLinkID creds ∧ Ticket offer = credTicket creds ∧ ticketDigest p = credDigest creds.
Proof.
  unfold OfferStream, createPending, commit_pending.
  destruct (LinkBroker.closed b || limitReachedLocked t b) eqn:Ec; [done|].
  intros [= <- <-]. eexists (Build_brokerPendingLink t _ _ _ _). split_and!; reflexivity.
Qed.

(** An accepted offer puts a link of a live binding into the pending table. *)
Lemma Offer_locked_ok policy client session request now creds r b offer lease r' b' :
  Offer_locked ρr policy client session request now (Some creds) r b = (Ok (offer, lease), r', b') →
  ∃ current p, bindingLocked client session (RequestName request) r = Some current ∧
    is_active current = true ∧ bindingID current = RequestBindingID request ∧
    DeclarationType (declaration current) = RequestType request ∧
    snd (policy (authentication current) (declaration current)) = true ∧
    (is_some lease = bool_decide (RequestType request = ForwardTypeUDP)) ∧
    target p = offer_target client session request current (is_some lease) ∧
    sessions r' = sessions r ∧ sets r' = sets r ∧ registry_closed r' = registry_closed r ∧
    pending b' = <[credLinkID creds := p]> (pending b) ∧ active b' = active b ∧
    OfferLinkID offer = credLinkID creds ∧ Ticket offer = credTicket creds ∧ ticketDigest p = credDigest creds.
Proof.
  unfold Offer_locked. destruct (bindingLocked _ _ _ _) as [current|]; [|done].
  destruct (negb (is_active current) || _ || _) eqn:E; [done|].
  apply orb_false_iff in E as [[E1 E2]%orb_false_iff E3].
  apply negb_false_iff in E1, E2, E3. apply bool_decide_eq_true in E2, E3.
  destruct (negb (snd _)) eqn:E4; [done|]. apply negb_false_iff in E4.
  destruct (if bool_decide (RequestType request = ForwardTypeUDP) then _ else _) as [reservation l] eqn:Er.
  destruct reservation as [lease0|]; [|done].
  assert (Hl : is_some lease0 = bool_decide (RequestType request = ForwardTypeUDP)).
  { destruct (bool_decide (RequestType request = ForwardTypeUDP)); [|by simplify_eq].
    destruct (AcquireWithoutSource _ _ _ _ _) as [[le|] l0]; by simplify_eq. }
  destruct (OfferStream _ _ _ _) as [b1 [o|e]] eqn:Eo; [|by destruct e].
  intros [= <- <- <- <-]. apply OfferStream_ok in Eo as (p & ? & ? & ? & ? & ? & ?).
  exists current, p. done.
Qed.

Lemma offer_ok s policy client session request now creds offer lease r b current :
  Offer_locked ρr policy client session request now (Some creds) (reg s) (brk s) = (Ok (offer, lease), r, b) →
  bindingLocked client session (RequestName request) (reg s) = Some current →
  active (brk s) !! credLinkID creds = None → origin s !! credLinkID creds = None → forward_ok s →
  forward_ok (s <| reg := r |> <| brk := b |> <| origin := <[credLinkID creds := current]> (origin s) |>).
Proof.
  intros E Hcur Hna Hno [Ha Hp Hac Hau Hdis].
  destruct (Offer_locked_ok _ _ _ _ _ _ _ _ _ _ _ _ E)
    as (cur & p & Hb & Hact & Hid & _ & _ & _ & Ht & Es & Eh & _ & Epe & Eac & _).
  assert (cur = current) as -> by congruence.
  assert (Hlive : ∀ id, live r id ↔ live (reg s) id).
  { intros id. unfold live, set_at. by rewrite Es, Eh. }
  constructor; cbn [reg brk queue cancels closes authorised hung_up origin upd].
  - intros k a. rewrite Es, Eh. apply Ha.
  - intros link q c. rewrite Epe, !lookup_insert, Hlive. case_decide; [|apply Hp].
    intros [= <-] [= <-]. rewrite Ht. split; [done|]. left.
    unfold bindingLocked in Hb. destruct (sessions (reg s) !! (client, session)) as [a|] eqn:Hs; [|done].
    by exists (client, session), a, (RequestName request), current.
  - intros link t c. rewrite Eac, lookup_insert, Hlive. case_decide; [congruence|apply Hac].
  - intros link Hin. destruct (Hau _ Hin) as [[c Hc] Hn]. rewrite Epe, !lookup_insert.
    case_decide; [congruence|]. rewrite Hc. split; [by eexists|done].
  - intros link [t1 Ht1]. rewrite Eac in Ht1. rewrite Epe, lookup_insert. case_decide; [congruence|].
    apply Hdis. by eexists.
Qed.

Lemma bind_ok s binding auth ticket now b events outcome :
  bind_section binding auth ticket now (brk s) = (b, events, outcome) → forward_ok s →
  forward_ok (s <| brk := b |>).
Proof.
  intros E Hs. apply bind_section_cases in E. destruct outcome as [|p].
  - destruct E as [[-> _]|(p & Hp & _ & -> & _)]; [by destruct s|].
    apply shrink_broker_ok; [done| |done]. cbn. apply delete_subseteq.
  - destruct E as (Hpe & _ & _ & -> & _). destruct Hs as [Ha Hp Hac Hau Hdis].
    constructor; cbn [reg brk queue cancels closes authorised hung_up origin upd]; [done| | | |].
    + intros link q cur. cbn. intros [_ Hq]%lookup_delete_Some. by apply Hp.
    + intros link t cur. cbn. rewrite lookup_insert. case_decide as El; [|apply Hac].
      intros [= <-] Hcur. subst link. split; [by eapply Hp|].
      intros [_ Hn]%Hau. congruence.
    + intros link Hin. destruct (Hau _ Hin) as [Ho Hn]. split; [done|]. cbn.
      rewrite lookup_delete. by case_decide.
    + intros link. cbn. rewrite lookup_insert, lookup_delete. case_decide; [done|]. apply Hdis.
Qed.

Lemma authorize_live policy sessionActive cur r :
  authorize policy sessionActive cur r = true → live r (bindingID cur).
Proof.
  unfold authorize, bindingLocked. intros E. bool_to_prop.
  destruct (sessions r !! _) as [a|] eqn:Hs; [|done]. cbn [mbind option_bind] in *.
  destruct (set_at r a !! _) as [b|] eqn:Hb; [|done]. bool_to_prop.
  by exists (owner_client cur, owner_session cur), a, (DeclarationName (declaration cur)), b.
Qed.

Lemma pending_of_elem id b link p :
  pending b !! link = Some p → BindingID (target p) = id → link ∈ pending_of id b.
Proof.
  intros Hp Hid. unfold pending_of. apply list_elem_of_fmap. exists (link, p). split; [done|].
  apply elem_of_map_to_list, map_lookup_filter_Some. done.
Qed.

Lemma active_of_elem id b link t : active b !! link = Some t → BindingID t = id → link ∈ active_of id b.
Proof.
  intros Hp Hid. unfold active_of. apply list_elem_of_fmap. exists (link, t). split; [done|].
  apply elem_of_map_to_list, map_lookup_filter_Some. done.
Qed.

Lemma collect_ok s l1 id l2 :
  queue s = l1 ++ id :: l2 → forward_ok s →
  forward_ok (s <| queue := l1 ++ l2 |> <| cancels := cancels s ++ pending_of id (brk s) |>
                <| closes := closes s ++ active_of id (brk s) |>).
Proof.
  intros Eq [Ha Hp Hac Hau Hdis].
  constructor; cbn [reg brk queue cancels closes authorised hung_up origin upd]; [done| | |done|done].
  - intros link p cur H1 H2. destruct (Hp _ _ _ H1 H2) as [E Hc]. split; [done|].
    rewrite !elem_of_app. destruct (decide (bindingID cur = id)) as [<-|Hne].
    + right. right. right. by eapply pending_of_elem.
    + rewrite Eq, elem_of_app, elem_of_cons in Hc. tauto.
  - intros link t cur H1 H2. destruct (Hac _ _ _ H1 H2) as [E Hc]. split; [done|]. intros Hin.
    rewrite !elem_of_app. specialize (Hc Hin). destruct (decide (bindingID cur = id)) as [<-|Hne].
    + right. right. left. right. by eapply active_of_elem.
    + rewrite Eq, elem_of_app, elem_of_cons in Hc. tauto.
Qed.

Lemma retire_ok s l1 link l2 :
  cancels s = l1 ++ link :: l2 → forward_ok s →
  forward_ok (s <| cancels := l1 ++ l2 |> <| brk := fst (cancel link false Canceled (brk s)) |>).
Proof.
  intros Eq Hs. destruct (cancel_subseteq link false Canceled (brk s)) as [Hpe Hae].
  apply (shrink_broker_ok _ (fst (cancel link false Canceled (brk s)))) in Hs as [Ha Hp Hac Hau Hdis]; [|done..].
  constructor; cbn [reg brk queue cancels closes authorised hung_up origin upd] in *; [done| |done|done|done].
  intros l p cur H1 H2. destruct (Hp _ _ _ H1 H2) as [E Hc]. split; [done|].
  rewrite cancel_lookup in H1. case_decide; [done|].
  rewrite Eq, elem_of_app, elem_of_cons in Hc. rewrite elem_of_app.
  destruct Hc as [?|[?|[?|[?|?]]]]; auto. congruence.
Qed.

Lemma hang_up_ok s l1 link l2 :
  closes s = l1 ++ link :: l2 → forward_ok s →
  forward_ok (s <| closes := l1 ++ l2 |> <| hung_up := {[link]} ∪ hung_up s |>).
Proof.
  intros Eq [Ha Hp Hac Hau Hdis].
  constructor; cbn [reg brk queue cancels closes authorised hung_up origin upd]; [done|done| |done|done].
  intros l t cur H1 H2. destruct (Hac _ _ _ H1 H2) as [E Hc]. split; [done|]. intros Hin.
  specialize (Hc Hin). rewrite Eq, elem_of_app, elem_of_cons in Hc.
  rewrite elem_of_app, elem_of_union, elem_of_singleton. tauto.
Qed.

Lemma forward_step_ok s s' : forward_step s s' → forward_ok s → forward_ok s'.
Proof.
  intros Hstep Hs. pose proof (fo_allocated _ Hs) as Ha. destruct Hstep.
  - edestruct begin_live as [??]; [done..|]. apply publish_ok; auto.
  - edestruct commit_live as [??]; [done..|]. by apply publish_ok.
  - destruct (remove_live ρ client session (reg s) Ha) as [??]. by apply publish_ok.
  - by destruct Hs.
  - edestruct apply_live as [??]; [done..|]. destruct (publish_ok s r affected Hs) as [K1 K2 K3 K4 K5]; [done..|]. by constructor.
  - destruct (close_live ρ ρs (reg s)) as [??]. apply publish_ok; auto.
  - by eapply offer_ok.
  - by eapply bind_ok.
  - destruct Hs as [_ Hp Hac Hau Hdis]. constructor; cbn; [done|done| | |done].
    + intros l t' cur Hl Ho. destruct (Hac _ _ _ Hl Ho) as [? Hc]. split; [done|].
      intros [->%elem_of_singleton|?]%elem_of_union; [|auto]. simplify_eq. left. by eapply authorize_live.
    + intros l [->%elem_of_singleton|?]%elem_of_union; [|auto].
      split; [by eexists|]. apply Hdis. by eexists.
  - destruct (finish_subseteq link (brk s)). by apply shrink_broker_ok.
  - destruct (cancel_subseteq link notifies reason (brk s)). by apply shrink_broker_ok.
  - by apply collect_ok.
  - by apply retire_ok.
  - by apply hang_up_ok.
Qed.

Lemma forward_steps_ok s s' : rtc forward_step s s' → forward_ok s → forward_ok s'.
Proof. induction 1; [done|]. intros. by eauto using forward_step_ok. Qed.

(** *** Bindings and the current policy *)

(** Every published binding is active exactly when the policy says so. *)
Definition follows (policy : Context → ForwardDeclaration → bool * bool) (r : Registry) : Prop :=
  ∀ key a name b, sessions r !! key = Some a → set_at r a !! name = Some b →
    is_active b = snd (policy (authentication b) (declaration b)).

Lemma begin_follows policy policy' udp client session w auth limit ids declarations r res r' :
  BeginSync policy' udp client session w auth limit ids declarations r = (res, r') → allocated r → follows policy r → follows policy r'.
Proof.
  unfold BeginSync. destruct (Validate _ _ _); [by intros [= <- <-]|].
  destruct (registry_closed r); [by intros [= <- <-]|]. destruct (reserve _ _) as [a0 r1] eqn:Er. intros E Hr Hf.
  assert (r' = r1) as -> by (destruct (prepare _ _ _ _ _ _ _ _ _ _ _) as [[??]|]; by simplify_eq). clear E.
  unfold reserve in Er. destruct (sessions r !! (client, session)) as [a1|] eqn:Hk; [by simplify_eq|]. injection Er as <- <-.
  intros key a name b. cbn. rewrite lookup_insert, set_at_insert. case_decide as Ek.
  - intros [= <-]. by rewrite decide_True.
  - intros Ha. rewrite decide_False by (by eapply fresh_set). by eapply Hf.
Qed.

Lemma commit_follows policy companion t r ok t' r' :
  CommitWith policy companion t r = (ok, t', r') → allocated r → follows policy r → follows policy r'.
Proof.
  intros E Hr Hf. destruct (commit_spec _ _ _ _ _ _ _ E Hr) as (_ & _ & Hok). destruct ok; [|by subst].
  destruct Hok as (_ & _ & _ & Hcur & _ & a0 & Hfr & _ & Es & Ea & Hkeep). intros key a name b. rewrite Es, lookup_insert. case_decide.
  - intros [= <-]. rewrite Ea. intros Hb. by rewrite (Hcur _ _ Hb).
  - intros Ha. rewrite Hkeep by (apply elem_of_dom; by eapply Hr). by eapply Hf.
Qed.

Lemma apply_follows policy affectedPolicy configuration generation r affected notifications r' :
  ApplyPolicy policy affectedPolicy configuration generation ρ ρs r = (affected, notifications, r') → follows policy r'.
Proof.
  intros E. destruct (ForwardPolicy_spec _ _ _ _ _ _ _ _ _ _ E) as (Es & _ & _ & Hset & _).
  intros key a name b Ha Hb. rewrite Es in Ha. rewrite (Hset _ _ _ Ha) in Hb. destruct (set_at r a !! name) as [x|]; [|done].
  injection Hb as <-. done.
Qed.

Lemma forward_step_follows s s' : forward_step s s' → forward_ok s → (owed s = false → follows (policy_now s) (reg s)) →
  owed s' = false → follows (policy_now s') (reg s').
Proof.
  intros Hstep Hs Hf. pose proof (fo_allocated _ Hs) as Ha. destruct Hstep as
    [|policy companion t ok t' r Hans Ec|client session|policy| | |policy client session request now creds offer lease r b current Hans Eo| | | | | | |]; cbn; auto.
  - intros Ho. eapply begin_follows; eauto.
  - intros Ho. rewrite (Hans Ho) in Ec. eapply commit_follows; eauto.
  - intros Ho key a name b. cbn. rewrite lookup_delete. case_decide; [done|]. by apply Hf.
  - done.
  - intros _. by eapply apply_follows.
  - intros Ho key a name b. cbn. by rewrite lookup_empty.
  - destruct (Offer_locked_ok _ _ _ _ _ _ _ _ _ _ _ _ Eo) as (? & ? & _ & _ & _ & _ & _ & _ & _ & Es & Eh & _).
    intros Ho key a name b'. unfold set_at. rewrite Es, Eh. by apply Hf.
Qed.

Lemma forward_steps_follow s s' : rtc forward_step s s' → forward_ok s → (owed s = false → follows (policy_now s) (reg s)) →
  owed s' = false → follows (policy_now s') (reg s').
Proof. induction 1; [done|]. intros. eauto using forward_step_ok, forward_step_follows. Qed.

(** ** Generations *)

Inductive registry_step (r : Registry) : Registry → Prop :=
| rs_begin policy udp client session w auth limit ids declarations res r' :
    BeginSync policy udp client session w auth limit ids declarations r = (res, r') → registry_step r r'
| rs_commit policy companion t ok t' r' :
    CommitWith policy companion t r = (ok, t', r') → registry_step r r'
| rs_remove client session : registry_step r (snd (Remove ρ client session r))
| rs_apply policy affectedPolicy configuration generation affected notifications r' :
    ApplyPolicy policy affectedPolicy configuration generation ρ ρs r = (affected, notifications, r') →
    registry_step r r'
| rs_shutdown : registry_step r (snd (CloseRegistry ρ ρs r)).

(** A set that is no longer published for a session never is again. *)
Definition superseded (key : string * string) (a : nat) (r : Registry) : Prop :=
  allocated r ∧ a ∈ dom (sets r) ∧ sessions r !! key ≠ Some a.

Lemma begin_superseded policy udp client session w auth limit ids declarations r res r' key a :
  BeginSync policy udp client session w auth limit ids declarations r = (res, r') →
  superseded key a r → superseded key a r'.
Proof.
  unfold BeginSync. destruct (Validate _ _ _); [by intros [= <- <-]|].
  destruct (registry_closed r); [by intros [= <- <-]|].
  destruct (reserve _ _) as [a0 r1] eqn:Er. intros E (Hr & Hd & Hn).
  assert (r' = r1) as -> by (destruct (prepare _ _ _ _ _ _ _ _ _ _ _) as [[??]|]; by simplify_eq).
  destruct (reserve_spec _ _ _ _ Er Hr) as (Hr1 & Hk & _ & Hsub & Hother & _ & Hcase).
  split_and!; [done|set_solver|]. destruct (decide (key = (client, session))) as [->|Hne].
  - rewrite Hk. intros [= ->]. destruct Hcase as [?|[_ ?]]; done.
  - by rewrite Hother.
Qed.

Lemma step_superseded key a r r' : registry_step r r' → superseded key a r → superseded key a r'.
Proof.
  intros Hstep Hs. destruct (Hs) as (Hr & Hd & Hn). destruct Hstep.
  - by eapply begin_superseded.
  - destruct (commit_spec _ _ _ _ _ _ _ H0 Hr) as (Hr' & _ & Hok). destruct ok; [|by subst].
    destruct Hok as (_ & _ & _ & _ & _ & a1 & Hf & Edom & Es & _ & _).
    split_and!; [done|set_solver|]. rewrite Es, lookup_insert. case_decide; congruence.
  - destruct (remove_live ρ client session r Hr) as [Hr' _]. split_and!; [done|done|]. cbn.
    rewrite lookup_delete. by case_decide.
  - edestruct apply_live as [Hr' _]; [done..|].
    destruct (ForwardPolicy_spec _ _ _ _ _ _ _ _ _ _ H0) as (Es & _ & Hsub & _).
    split_and!; [done|set_solver|]. by rewrite Es.
  - destruct (close_live ρ ρs r) as [Hr' _]. split_and!; [done|done|]. cbn. by rewrite lookup_empty.
Qed.

Lemma steps_superseded key a r r' : rtc registry_step r r' → superseded key a r → superseded key a r'.
Proof. induction 1; [done|]. intros. by eauto using step_superseded. Qed.

Lemma step_allocated r r' : registry_step r r' → allocated r → allocated r'.
Proof.
  intros Hstep Hr. destruct Hstep.
  - by edestruct begin_live.
  - by edestruct (commit_live ρ).
  - apply (remove_live ρ client session r Hr).
  - by edestruct apply_live.
  - apply (close_live ρ ρs r).
Qed.

Lemma steps_allocated r r' : rtc registry_step r r' → allocated r → allocated r'.
Proof. induction 1; [done|]. intros. by eauto using step_allocated. Qed.

Lemma New_allocated c : allocated (New c).
Proof. intros key a Hk. discriminate Hk. Qed.

Lemma commit_superseded policy companion t r :
  superseded (tx_session t) (tx_previous t) r → fst (fst (CommitWith policy companion t r)) = false.
Proof.
  intros (Hr & _ & Hn). destruct (CommitWith policy companion t r) as [[ok t'] r'] eqn:E.
  destruct (commit_spec _ _ _ _ _ _ _ E Hr) as (_ & _ & Hok). destruct ok; [|done].
  destruct Hok as (_ & _ & Hprev & _). congruence.
Qed.

(** ** Synchronisation *)

Lemma validate_declarations_names policy auth declarations names :
  validate_declarations policy auth declarations names = None →
  NoDup (DeclarationName <$> declarations) ∧ ∀ d, d ∈ declarations → DeclarationName d ∉ names.
Proof.
  revert names. induction declarations as [|d declarations IH]; intros names; cbn [validate_declarations].
  { intros _. split; [constructor|]. by intros d ?%elem_of_nil. }
  destruct (_ || _ || _); [done|]. destruct (negb (_ || _)); [done|].
  destruct (bool_decide (DeclarationName d ∈ names)) eqn:Hd; [done|]. apply bool_decide_eq_false in Hd.
  destruct (negb _); [done|]. intros (Hnd & Hni)%IH. rewrite fmap_cons. split.
  - constructor; [|done]. intros (d' & E & Hin)%list_elem_of_fmap. apply (Hni _ Hin). set_solver.
  - intros d' [->|Hin]%elem_of_cons; [done|]. specialize (Hni _ Hin). set_solver.
Qed.

Lemma prepare_spec policy udp client session w auth limit ids declarations next results next' results' :
  prepare policy udp client session w auth limit ids declarations next results = Ok (next', results') →
  NoDup (DeclarationName <$> declarations) →
  (∀ d, d ∈ declarations → ∃ b, next' !! DeclarationName d = Some b ∧ declaration b = d ∧
     authentication b = auth) ∧
  (∀ name b, next' !! name = Some b → next !! name = Some b ∨ declaration b ∈ declarations) ∧
  (∀ name, name ∉ DeclarationName <$> declarations → next' !! name = next !! name).
Proof.
  revert ids next results. induction declarations as [|d declarations IH]; intros ids next results; cbn [prepare].
  { intros [= <- <-] _. split_and!; [by intros d ?%elem_of_nil|by left|done]. }
  destruct ids as [|[id|] ids]; [done| |done]. intros E (Hd & Hnd)%NoDup_cons.
  destruct (IH _ _ _ E Hnd) as (Hin & Hback & Hout). split_and!.
  - intros d' [->|Hd']%elem_of_cons; [|by apply Hin].
    rewrite Hout by done. rewrite lookup_insert_eq. by eexists.
  - intros name b Hb. destruct (Hback _ _ Hb) as [Hi|?]; [|right; by right].
    rewrite lookup_insert in Hi. case_decide; [|by left]. injection Hi as <-. right. left.
  - intros name Hn. rewrite fmap_cons, not_elem_of_cons in Hn. destruct Hn as [Hne Hn].
    rewrite Hout, lookup_insert_ne by done. done.
Qed.
End forward_system.

Section synchronise.
Context `{NetipText}.
Lemma validate_declarations_policy policy auth declarations names d :
  validate_declarations policy auth declarations names = None → d ∈ declarations → fst (policy auth d) = true.
Proof.
  revert names. induction declarations as [|d' declarations IH]; intros names; cbn [validate_declarations].
  { by intros _ ?%elem_of_nil. }
  destruct (_ || _ || _); [done|]. destruct (negb (_ || _)); [done|].
  destruct (bool_decide (DeclarationName d' ∈ names)); [done|].
  destruct (fst (policy auth d')) eqn:Hp; cbn [negb]; [|done].
  intros Hv [->|Hd]%elem_of_cons; [done|]. by eapply IH.
Qed.

Lemma prepare_succeeds policy udp client session w auth limit ids declarations next results :
  (length declarations ≤ length ids)%nat → Forall (λ id, is_some id = true) ids →
  ∃ out, prepare policy udp client session w auth limit ids declarations next results = Ok out.
Proof.
  revert ids next results. induction declarations as [|d declarations IH]; intros ids next results; cbn [prepare].
  { by eexists. }
  intros Hlen Hall. destruct ids as [|[id|] ids]; cbn in Hlen; [lia| |by inversion Hall].
  inversion Hall. apply IH; [lia|done].
Qed.

(** A preparation that succeeds answers for each declaration with the binding
    it has prepared. *)
Lemma prepare_answers policy udp client session w auth limit ids declarations next results next' results' :
  prepare policy udp client session w auth limit ids declarations next results = Ok (next', results') →
  NoDup (DeclarationName <$> declarations) →
  ∃ new, results' = results ++ new ∧ ResultName <$> new = DeclarationName <$> declarations ∧
    (∀ name b, next' !! name = Some b → next !! name = Some b ∨
       authentication b = auth ∧ declaration b ∈ declarations ∧ is_active b = snd (policy auth (declaration b))) ∧
    (∀ name, name ∉ DeclarationName <$> declarations → next' !! name = next !! name) ∧
    (∀ res, res ∈ new → ∃ b, next' !! ResultName res = Some b ∧ bindingID b = ResultBindingID res ∧
       is_active b = ResultActive res).
Proof.
  revert ids next results. induction declarations as [|d declarations IH]; intros ids next results; cbn [prepare].
  { intros [= <- <-] _. exists []. rewrite app_nil_r. split_and!; try done; [by left|]. by intros res ?%elem_of_nil. }
  destruct ids as [|[id|] ids]; [done| |done]. intros E (Hd & Hnd)%NoDup_cons.
  destruct (IH _ _ _ E Hnd) as (new & -> & Hnames & Hback & Hout & Hres).
  eexists (_ :: new). rewrite <- app_assoc. split; [reflexivity|].
  assert (Hnew : next' !! DeclarationName d = Some {| owner_client := client; owner_session := session;
    bindingID := id; declaration := d; writer := w; authentication := auth; maxActiveLinks := limit;
    is_active := snd (policy auth d) |}) by (rewrite Hout by done; by rewrite lookup_insert_eq).
  split_and!.
  - rewrite !fmap_cons. by rewrite Hnames.
  - intros name b Hb. destruct (Hback _ _ Hb) as [Hi|(? & ? & ?)]; [|right; split_and!; [done|by right|done]].
    rewrite lookup_insert in Hi. case_decide; [|by left]. injection Hi as <-. right. split_and!; [done|left|done].
  - intros name Hn. rewrite fmap_cons, not_elem_of_cons in Hn. destruct Hn as [Hne Hn].
    rewrite Hout, lookup_insert_ne by done. done.
  - intros res [->|Hin]%elem_of_cons; [|by apply Hres]. cbn. rewrite Hnew. by eexists.
Qed.

Lemma reserve_bindings client session r a r0 client' session' name :
  reserve (client, session) r = (a, r0) → allocated r →
  bindingLocked client' session' name r0 = bindingLocked client' session' name r.
Proof.
  intros Er Hr. pose proof (reserve_spec _ _ _ _ Er Hr) as (Hr0 & Hkey & _ & Hsub & Hother & Hold & Hcase).
  unfold bindingLocked. destruct (decide ((client', session') = (client, session))) as [->|Hne].
  - rewrite Hkey. cbn. destruct Hcase as [Hk|[Hk Hfr]]; rewrite Hk.
    + cbn. rewrite Hold; [done|]. apply elem_of_dom. by eapply Hr.
    + unfold reserve in Er. rewrite Hk in Er. injection Er as <- <-. cbn. rewrite set_at_insert.
      by rewrite decide_True.
  - rewrite Hother by done. destruct (sessions r !! (client', session')) as [a'|] eqn:Hs; [|done]. cbn.
    rewrite Hold; [done|]. apply elem_of_dom. by eapply Hr.
Qed.

(** Nothing between preparation and publication: the commit goes through. *)
Lemma commit_undisturbed policy t r :
  tx_live t = true → registry_closed r = false → sessions r !! tx_session t = Some (tx_previous t) →
  map_Forall (still_current policy) (tx_next t) →
  fst (fst (CommitWith policy None t r)) = true.
Proof.
  intros Hl Hc Hs Hp. unfold CommitWith, matchesPreviousLocked. rewrite Hl, Hc. cbn [negb orb].
  by rewrite bool_decide_eq_true_2, bool_decide_eq_true_2 by done.
Qed.
End synchronise.

(** ** Leases of refused offers *)

Lemma acquire_close_stats ρr client name now l lease l' :
  AcquireWithoutSource ρr client name now l = (Some lease, l') →
  UdpLimiter.SnapshotStats (close_lease lease l') = UdpLimiter.SnapshotStats l.
Proof.
  unfold AcquireWithoutSource. destruct (cleanupRates_keeps ρr now l) as (cr & pr & rw & El).
  destruct (acquire_cases ρr client name AddrZero now l) as [(l0 & -> & _)|[_ ->]]; [done|].
  intros [= <- <-]. unfold close_lease, Close_lease. cbn [UdpLimiter.closed lease_pending queued upd].
  unfold UdpLimiter.SnapshotStats.
  match goal with |- context [Close_limiter ?a ?p ?q ?l0] =>
    destruct (close_books a p q l0) as (-> & _ & _ & _ & -> & _ & _ & -> & _) end.
  match goal with |- context [charge_association ?c ?k ?s ?t ?l0] =>
    destruct (charge_books c k s t l0) as (-> & -> & _ & _ & _ & _ & _ & -> & _) end.
  rewrite El. cbn. f_equal; lia.
Qed.

Lemma acquire_refused_stats ρr client name now l l' :
  AcquireWithoutSource ρr client name now l = (None, l') →
  UdpLimiter.SnapshotStats l' = UdpLimiter.SnapshotStats l.
Proof.
  unfold AcquireWithoutSource. destruct (cleanupRates_keeps ρr now l) as (cr & pr & rw & El).
  destruct (acquire_cases ρr client name AddrZero now l) as [(l0 & -> & ->)|[_ ->]]; [|done].
  intros [= <-]. by rewrite El.
Qed.

(** The lease behind an answer of the locked part gives everything back. *)
Lemma Offer_locked_lease ρr policy client session request now creds r b res r' b' :
  Offer_locked ρr policy client session request now creds r b = (res, r', b') →
  let lease := match res with Ok (_, lease) => lease | Err (_, lease) => lease end in
  UdpLimiter.SnapshotStats (udpLimiter (release_lease lease r')) = UdpLimiter.SnapshotStats (udpLimiter r) ∧
  sessions r' = sessions r ∧ sets r' = sets r ∧
  match res with Ok _ => True | Err _ => pending b' = pending b ∧ active b' = active b end.
Proof.
  unfold Offer_locked. destruct (bindingLocked _ _ _ _) as [current|]; [|by intros [= <- <- <-]].
  destruct (negb (is_active current) || _ || _); [by intros [= <- <- <-]|].
  destruct (negb (snd _)); [by intros [= <- <- <-]|].
  destruct (if bool_decide (RequestType request = ForwardTypeUDP) then _ else _) as [reservation l] eqn:Er.
  destruct reservation as [lease|].
  - assert (Hl : UdpLimiter.SnapshotStats (udpLimiter (release_lease lease (r <| udpLimiter := l |>))) =
                 UdpLimiter.SnapshotStats (udpLimiter r)).
    { destruct (bool_decide _); [|by injection Er as <- <-].
      destruct (AcquireWithoutSource _ _ _ _ _) as [[le|] l0] eqn:Ea; [|done]. injection Er as <- <-.
      cbn. by eapply acquire_close_stats. }
    destruct (OfferStream _ _ _ _) as [b1 [o|e]] eqn:Eo; [by intros [= <- <- <-]|].
    assert (b1 = b) as ->.
    { unfold OfferStream, createPending, commit_pending in Eo.
      destruct (LinkBroker.closed b || limitReachedLocked _ b); [by simplify_eq|].
      destruct creds; by simplify_eq. }
    destruct e; by intros [= <- <- <-].
  - intros [= <- <- <-]. split_and!; try done. cbn.
    destruct (bool_decide _); [|done].
    destruct (AcquireWithoutSource _ _ _ _ _) as [[le|] l0] eqn:Ea; [done|]. injection Er as <-.
    by eapply acquire_refused_stats.
Qed.

Lemma cancel_forward_fresh client session request current lease link p b b' :
  pending b' = <[link := p]> (pending b) → active b' !! link = None →
  target p = offer_target client session request current lease → pending b !! link = None →
  let '(b'', events) := CancelForwardLink client session link b' in
  pending b'' = pending b ∧ active b'' = active b' ∧
  (lease = true → ReservationClosed link ∈ events).
Proof.
  intros Hp Ha Ht Hn. unfold CancelForwardLink, cancelMatching. rewrite Ha, Hp, lookup_insert_eq, Ht. cbn -[remove_pending].
  rewrite !bool_decide_eq_true_2 by done. cbn -[remove_pending].
  split_and!.
  - cbn. rewrite Hp. by rewrite delete_insert_id.
  - done.
  - intros ->. unfold release_pending. rewrite Ht. cbn. left.
Qed.

(** ** Properties *)

(** C22: whatever the interleaving of synchronisations, removals, reloads that
    replace the policy and publish it, shutdown, offers, binds and the deferred
    cancellations, once the policy of the last reload is published and the
    deferred cancellations have run no link outlives its permission: every
    pending Forward link, and every established one that was let through and
    not closed, was offered for a binding that is still published, that is
    active, and that the current policy allows. *)
Theorem revocation_complete `{NetipText} ρr ρ ρs c policy s link current :
  rtc (forward_step ρr ρ ρs) (forward_initial c policy) s →
  owed s = false → queue s = [] → cancels s = [] → closes s = [] → origin s !! link = Some current →
  (is_Some (pending (brk s) !! link) ∨
   is_Some (active (brk s) !! link) ∧ link ∈ authorised s ∧ link ∉ hung_up s) →
  ∃ key a name b, sessions (reg s) !! key = Some a ∧ set_at (reg s) a !! name = Some b ∧
    bindingID b = bindingID current ∧ is_active b = true ∧ snd (policy_now s (authentication b) (declaration b)) = true.
Proof.
  intros Hsteps Hw Hq Hca Hcl Ho Hlink.
  destruct (forward_steps_ok _ _ _ _ _ Hsteps (forward_initial_ok c policy)) as [_ Hp Hac _ _].
  assert (Hf : follows (policy_now s) (reg s)).
  { eapply forward_steps_follow; [done|apply forward_initial_ok| |done]. intros _ key a name b Hk. discriminate Hk. }
  rewrite Hq, Hca in Hp. rewrite Hq, Hcl in Hac.
  assert (live (reg s) (bindingID current)) as (key & a & name & b & Hk & Hb & Hid & Hact).
  { destruct Hlink as [[p Hl]|([t Hl] & Hin & Hhu)].
    - destruct (Hp _ _ _ Hl Ho) as [_ [?|[?%elem_of_nil|?%elem_of_nil]]]; done.
    - destruct (Hac _ _ _ Hl Ho) as [_ Hc]. destruct (Hc Hin) as [?|[?%elem_of_nil|[?%elem_of_nil|?]]]; done. }
  exists key, a, name, b. split_and!; [done..|]. by rewrite <- (Hf _ _ _ _ Hk Hb).
Qed.

(** A successful synchronisation replaces the bindings of its session, and
    only of its session, by one binding per declaration, each active exactly
    as the policy says at that moment; a refused one publishes nothing. *)
Theorem sync_publishes `{NetipText} policy policy' udp client session w auth limit ids declarations companion
    r t r1 ok t' r2 :
  allocated r →
  BeginSync policy udp client session w auth limit ids declarations r = (Ok t, r1) →
  CommitWith policy' companion t r1 = (ok, t', r2) →
  if ok then
    (∀ name b, bindingLocked client session name r2 = Some b ↔
       ∃ d, d ∈ declarations ∧ DeclarationName d = name ∧ tx_next t !! name = Some b ∧
         declaration b = d ∧ authentication b = auth ∧ policy' auth d = (true, is_active b)) ∧
    (∀ d, d ∈ declarations → is_Some (bindingLocked client session (DeclarationName d) r2)) ∧
    (∀ client' session' name, (client', session') ≠ (client, session) →
       bindingLocked client' session' name r2 = bindingLocked client' session' name r)
  else r2 = r1.
Proof.
  intros Hr Eb Ec. unfold BeginSync, Validate in Eb.
  destruct (_ <? _); [done|]. destruct (validate_declarations _ _ _ _) eqn:Ev; [done|].
  apply validate_declarations_names in Ev as [Hnd _].
  destruct (registry_closed r); [done|]. destruct (reserve _ _) as [a0 r0] eqn:Er.
  destruct (prepare _ _ _ _ _ _ _ _ _ _ _) as [[next results]|] eqn:Ep; [|done].
  injection Eb as <- <-. destruct (reserve_spec _ _ _ _ Er Hr) as (Hr0 & _ & _ & Hsub & Hother & Hold & _).
  destruct (commit_spec _ _ _ _ _ _ _ Ec Hr0) as (_ & _ & Hok). destruct ok; [|done].
  cbn [tx_next tx_session tx_previous] in *.
  destruct Hok as (_ & _ & _ & Hcur & _ & a & _ & _ & Es & Ea & Hkeep).
  destruct (prepare_spec _ _ _ _ _ _ _ _ _ _ _ _ _ Ep Hnd) as (Hin & _ & Hout).
  assert (Hb : ∀ name, bindingLocked client session name r2 = next !! name).
  { intros name. unfold bindingLocked. rewrite Es, lookup_insert_eq. cbn. by rewrite Ea. }
  split_and!.
  - intros name b. rewrite Hb. split.
    + intros Hn. destruct (decide (name ∈ DeclarationName <$> declarations)) as [Hd|Hd].
      * apply list_elem_of_fmap in Hd as (d & -> & Hd). destruct (Hin _ Hd) as (b' & Hb' & ? & ?).
        exists d. pose proof (Hcur _ _ Hn) as Hpol. unfold still_current in Hpol. simplify_eq. done.
      * by rewrite (Hout _ Hd) in Hn.
    + by intros (d & _ & _ & ? & _).
  - intros d Hd. rewrite Hb. destruct (Hin _ Hd) as (b & -> & _). by eexists.
  - intros c' s' name Hne. unfold bindingLocked. rewrite Es, lookup_insert_ne by done. rewrite Hother by done.
    destruct (sessions r !! (c', s')) as [a'|] eqn:Hs; [|done]. cbn.
    assert (a' ∈ dom (sets r)) by (apply elem_of_dom; by eapply Hr).
    rewrite Hkeep by set_solver. by rewrite Hold.
Qed.

(** An undisturbed [Sync] succeeds exactly as far as its inputs allow: with
    valid declarations, an open registry and working randomness it publishes
    them, answers in the order of the declarations with the identifier and
    state of each published binding, and retires every binding it replaced; in
    every other case it answers with an error and no published binding
    changes. *)
Theorem sync_total `{NetipText} ρ policy udp client session w auth limit ids declarations r :
  allocated r →
  match Sync ρ policy udp client session w auth limit ids declarations r with
  | (Ok results, retired, r') =>
    Validate policy auth declarations = None ∧ registry_closed r = false ∧
    ResultName <$> results = DeclarationName <$> declarations ∧
    (∀ res, res ∈ results → ∃ b, bindingLocked client session (ResultName res) r' = Some b ∧
       bindingID b = ResultBindingID res ∧ is_active b = ResultActive res) ∧
    (∀ name b, bindingLocked client session name r = Some b → bindingID b ∈ retired)
  | (Err _, retired, r') =>
    (Validate policy auth declarations ≠ None ∨ registry_closed r = true ∨
     (length ids < length declarations)%nat ∨ ¬ Forall (λ id, is_some id = true) ids) ∧
    retired = [] ∧ ∀ client' session' name, bindingLocked client' session' name r' = bindingLocked client' session' name r
  end.
Proof.
  intros Hr. unfold Sync, BeginSync.
  destruct (Validate policy auth declarations) as [e|] eqn:Ev; [split_and!; [by left|done|done]|].
  destruct (registry_closed r) eqn:Hc; [split_and!; [by right; left|done|done]|].
  destruct (reserve _ _) as [previous r0] eqn:Er.
  pose proof (reserve_spec _ _ _ _ Er Hr) as (Hr0 & Hkey & _).
  pose proof (λ c' s' n, reserve_bindings client session r previous r0 c' s' n Er Hr) as Hsame.
  assert (Hc0 : registry_closed r0 = false).
  { unfold reserve in Er. destruct (sessions r !! _); by injection Er as _ <-. }
  unfold Validate in Ev. destruct (_ <? _); [done|].
  destruct (validate_declarations_names _ _ _ _ Ev) as [Hnd _].
  destruct (prepare _ _ _ _ _ _ _ _ _ _ _) as [[next results]|e] eqn:Ep.
  2: { split_and!; [|done|done]. destruct (decide (length declarations ≤ length ids)%nat) as [Hlen|?]; [|right; right; left; lia].
       destruct (decide (Forall (λ id, is_some id = true) ids)) as [Hall|?]; [|by right; right; right].
       edestruct (prepare_succeeds policy udp client session w auth limit ids declarations ∅ []) as [? E]; [done..|].
       by rewrite E in Ep. }
  destruct (prepare_answers _ _ _ _ _ _ _ _ _ _ _ _ _ Ep Hnd) as (new & -> & Hnames & Hback & _ & Hres).
  assert (Hcur : map_Forall (still_current policy) next).
  { intros name b Hb. destruct (Hback _ _ Hb) as [?|(Ha & Hd & Hact)]; [done|]. unfold still_current.
    pose proof (validate_declarations_policy _ _ _ _ _ Ev Hd) as Hp. rewrite Ha, Hact.
    by destruct (policy auth (declaration b)) as [? ?]; cbn in *; subst. }
  unfold Commit. set (t := {| tx_live := true; tx_session := _; tx_next := next; tx_previous := previous;
    tx_results := _; tx_retire := false |}).
  pose proof (commit_undisturbed policy t r0 eq_refl Hc0 Hkey Hcur) as Hok.
  destruct (CommitWith policy None t r0) as [[ok t'] r2] eqn:Ec. cbn [fst] in Hok. subst ok.
  destruct (commit_spec _ _ _ _ _ _ _ Ec Hr0) as (_ & Hprev & _ & _ & _ & _ & Hret & a & _ & _ & Es & Ea & Hkeep).
  unfold Retire. rewrite Hret. cbn [negb app]. rewrite Hprev. cbn [tx_previous t].
  rewrite Hkeep by (apply elem_of_dom; by eapply Hr0).
  split_and!; [done|done|done| |].
  - intros res Hin. unfold bindingLocked. rewrite Es. cbn [tx_session t]. rewrite lookup_insert_eq. cbn. rewrite Ea.
    by apply Hres.
  - intros name b. rewrite <- Hsame. unfold bindingLocked. rewrite Hkey. cbn. by apply set_ids_elem.
Qed.

(** Generations do not go back: after a synchronisation of a session has
    committed, a transaction prepared against the same earlier generation is
    refused at every later moment of the registry, so the loser of a race
    between two synchronisations never overwrites the winner. *)
Theorem stale_generation_rejected `{NetipText} ρ ρs c r policy companion t t' r' later policy2 companion2 t2 :
  rtc (registry_step ρ ρs) (New c) r →
  CommitWith policy companion t r = (true, t', r') →
  rtc (registry_step ρ ρs) r' later →
  tx_session t2 = tx_session t → tx_previous t2 = tx_previous t →
  CommitWith policy2 companion2 t2 later = (false, snd (fst (CommitWith policy2 companion2 t2 later)), later).
Proof.
  intros H0 Ec Hl Es Ep. pose proof (steps_allocated _ _ _ _ H0 (New_allocated c)) as Hr.
  destruct (commit_spec _ _ _ _ _ _ _ Ec Hr) as (Hr' & _ & Hok).
  destruct Hok as (_ & _ & Hprev & _ & _ & a & Hf & Edom & Esess & _).
  assert (Hd : tx_previous t ∈ dom (sets r)) by (apply elem_of_dom; by eapply Hr).
  assert (Hs : superseded (tx_session t2) (tx_previous t2) later).
  { eapply steps_superseded; [done|]. rewrite Es, Ep. split_and!; [done|set_solver|].
    rewrite Esess, lookup_insert_eq. congruence. }
  pose proof (commit_superseded policy2 companion2 t2 later Hs) as Hfail.
  destruct (CommitWith policy2 companion2 t2 later) as [[ok t2'] r2] eqn:E. cbn in *. subst ok.
  destruct Hs as (Hall & _). by destruct (commit_spec _ _ _ _ _ _ _ E Hall) as (_ & _ & ->).
Qed.

(** [Offer] answers with a ticket only for an active session and a binding
    of that session that is published, active, of the requested type and
    identifier and allowed by the policy; the broker then holds exactly one
    more pending link, for that binding.  In every other case, the session
    expiring in between included, the answer carries an error and neither the
    published bindings, nor the links of the broker, nor the UDP accounting
    differ from before. *)
Theorem offer_outcome ρr policy client session request now creds before after r b reply r' b' events :
  pending b !! credLinkID creds = None → active b !! credLinkID creds = None →
  Offer ρr policy client session request now (Some creds) before after r b = (reply, r', b', events) →
  sessions r' = sessions r ∧ sets r' = sets r ∧ active b' = active b ∧
  match OfferError reply with
  | None =>
    before = true ∧ after = true ∧
    ∃ current p, bindingLocked client session (RequestName request) r = Some current ∧
      is_active current = true ∧ bindingID current = RequestBindingID request ∧
      DeclarationType (declaration current) = RequestType request ∧
      snd (policy (authentication current) (declaration current)) = true ∧
      pending b' = <[ForwardLinkID reply := p]> (pending b) ∧ ForwardLinkID reply = credLinkID creds ∧
      target p = offer_target client session request current (bool_decide (RequestType request = ForwardTypeUDP))
  | Some _ =>
    pending b' = pending b ∧
    UdpLimiter.SnapshotStats (udpLimiter r') = UdpLimiter.SnapshotStats (udpLimiter r)
  end.
Proof.
  intros Hp Ha. unfold Offer. destruct before; cbn [negb]; [|by intros [= <- <- <- <-]].
  destruct (Offer_locked _ _ _ _ _ _ _ _ _) as [[[[o lease]|[code lease]] r1] b1] eqn:E;
    pose proof (Offer_locked_lease _ _ _ _ _ _ _ _ _ _ _ _ E) as (Hstats & Es & Eh & Hb); cbn in Hstats.
  2: { intros [= <- <- <- <-]. destruct Hb as [-> ->].
       destruct lease; cbn in *; by split_and!. }
  destruct (Offer_locked_ok _ _ _ _ _ _ _ _ _ _ _ _ _ E)
    as (current & p & Hbind & Hact & Hid & Hty & Hpol & Hl & Ht & _ & _ & _ & Epe & Eac & Eo & _).
  destruct after; cbn [negb].
  - intros [= <- <- <- <-]. cbn. split_and!; try done. exists current, p.
    rewrite Eo, <- Hl. done.
  - assert (Hna : active b1 !! credLinkID creds = None) by (rewrite Eac; done).
    pose proof (cancel_forward_fresh client session request current (is_some lease) _ _ _ _ Epe Hna Ht Hp) as Hcf.
    rewrite Eo. destruct (CancelForwardLink _ _ _ _) as [b2 ev]. destruct Hcf as (Hp2 & Ha2 & Hev).
    intros [= <- <- <- <-]. cbn [OfferError rejectedOffer]. rewrite Ha2, Hp2, Eac.
    destruct lease as [lease|].
    + rewrite bool_decide_eq_true_2 by auto. cbn in *. split_and!; done.
    + assert (E0 : (if bool_decide (ReservationClosed (credLinkID creds) ∈ ev) then r1 else r1) = r1)
        by (case (bool_decide _); reflexivity).
      cbn [release_lease] in *. rewrite ?E0. done.
Qed.

(** Publishing a policy leaves the published bindings in place and makes
    each active exactly as the new policy says; the bindings whose links are
    cancelled are exactly those the new policy denies or whose matching rules
    changed. *)
Theorem policy_publication policy affectedPolicy configuration generation ρ ρs r affected notifications r' :
  ApplyPolicy policy affectedPolicy configuration generation ρ ρs r = (affected, notifications, r') →
  (∀ client session name,
     bindingLocked client session name r' =
       (λ b, b <| is_active := snd (policy (authentication b) (declaration b)) |>)
       <$> bindingLocked client session name r) ∧
  (∀ id, id ∈ affected ↔ ∃ client session name b, bindingLocked client session name r = Some b ∧
     bindingID b = id ∧
     (affectedPolicy (authentication b) (declaration b) = true ∨
      snd (policy (authentication b) (declaration b)) = false)).
Proof.
  intros E. destruct (ForwardPolicy_spec _ _ _ _ _ _ _ _ _ _ E) as (Es & _ & _ & Hset & Haff).
  unfold bindingLocked. split.
  - intros client session name. rewrite Es. destruct (sessions r !! _) as [a|] eqn:Hk; [|done].
    cbn. by rewrite (Hset _ _ _ Hk).
  - intros id. rewrite Haff. unfold is_affected. split.
    + intros ([client session] & a & name & b & Hk & Hb & Hid & Hf). exists client, session, name, b.
      rewrite Hk. split_and!; [done..|]. apply orb_true_iff in Hf as [?|?%negb_true_iff]; auto.
    + intros (client & session & name & b & Hb & Hid & Hf).
      destruct (sessions r !! (client, session)) as [a|] eqn:Hk; [|done].
      exists (client, session), a, name, b. split_and!; [done..|].
      apply orb_true_iff. destruct Hf as [?|Hf]; [by left|right; by rewrite Hf].
Qed.

(** No client is left with a stale view: when a policy is published and its
    notices are delivered, the control stream of every published binding whose
    state or matching rule changed is either closed or has carried the notice
    that says so. *)
Theorem policy_delivery policy affectedPolicy configuration generation ρ ρs ρn world r affected notifications r'
    client session name b w :
  ApplyPolicy policy affectedPolicy configuration generation ρ ρs r = (affected, notifications, r') →
  bindingLocked client session name r = Some b → writer b = Some w →
  let active := snd (policy (authentication b) (declaration b)) in
  (is_active b ≠ active ∨ affectedPolicy (authentication b) (declaration b) = true) →
  (is_active b = true ∨ active = true) →
  ∃ sent closed, (w, (sent, closed)) ∈ Deliver world 0 (range_of ρn notifications) ∧
    (closed = true ∨
     if active then ∃ udp, ForwardBindingActivated (DeclarationName (declaration b)) (DeclarationType (declaration b))
                             (bindingID b) generation udp ∈ sent
     else ForwardBindingRevoked (DeclarationName (declaration b)) (DeclarationType (declaration b))
            (bindingID b) generation ∈ sent).
Proof.
  intros E Hb Hw active Hch Hact. unfold bindingLocked in Hb.
  destruct (sessions r !! (client, session)) as [a|] eqn:Hk; [|done]. cbn in Hb.
  set (notice := if active
    then ForwardBindingActivated (DeclarationName (declaration b)) (DeclarationType (declaration b))
           (bindingID b) generation (if bool_decide (DeclarationType (declaration b) = ForwardTypeUDP)
            then Some (ForwardUDPProtocolConfig configuration) else None)
    else ForwardBindingRevoked (DeclarationName (declaration b)) (DeclarationType (declaration b))
           (bindingID b) generation).
  assert (Hn : notice ∈ notices policy affectedPolicy configuration generation b).
  { unfold notices. fold active. unfold notice. apply elem_of_app.
    destruct active, (is_active b), (affectedPolicy _ _); cbn; try (destruct Hch; done);
      try (destruct Hact; done); first [left; by left|right; by left]. }
  destruct (ApplyPolicy_notices _ _ _ _ _ _ _ _ _ _ _ _ _ _ _ E Hk Hb Hn) as (l & Hl & Hin).
  rewrite Hw in Hl. apply (range_elem ρn) in Hl.
  destruct (Deliver_spec world 0 _ _ _ Hl) as (sent & closed & Hd & Hor). exists sent, closed. split; [done|].
  destruct Hor as [->| ->]; [right|by left]. unfold notice in Hin. destruct active; [by eexists|done].
Qed.

(** The Forward policy of the server admits a declaration exactly when the
    server's own rules allow its target and the client's do (a shared client
    has none of its own, a governed client must be configured, a managed
    client without rules inherits the server's), and lets it carry traffic
    exactly when Forwards are enabled too. *)
Theorem forward_policy_exact `{NetipText} configuration auth d :
  (fst (forwardPolicy configuration auth d) = true ↔
     target_allowed (Rules (Forwards configuration)) d = true ∧ client_allows configuration auth d) ∧
  snd (forwardPolicy configuration auth d) =
    fst (forwardPolicy configuration auth d) && ForwardEnabled (Forwards configuration).
Proof. apply forwardPolicy_spec. Qed.

(** ** Witnesses: a managed client declares the Forward ["web"] of
    [demo_server] and asks for a link *)

Module DemoForward.
#[export] Existing Instance Dotted.text.
Definition pol : Context → ForwardDeclaration → bool * bool := forwardPolicy demo_server.
Definition auth : Context := {| Mode := ModeManaged; ContextClientID := "m"; CredentialID := [x01]; Generation := 1 |}.
Definition web : ForwardDeclaration :=
  {| DeclarationName := "web"; DeclarationType := ForwardTypeTCP; TargetIP := "10.1.2.3"; TargetPort := 80 |}.
Definition creds : Credentials := {| credLinkID := "l1"; credTicket := "t1"; credDigest := [x02] |}.
Definition request : RequestForwardLink :=
  {| RequestID := "q1"; RequestName := "web"; RequestType := ForwardTypeTCP; RequestBindingID := "b1" |}.

Definition begun := BeginSync pol zero_UDPConfig "m" "s" (Some 1%nat) auth 4 [Some "b1"] [web] (New zero_UDPConfig).
Definition tx : SyncTransaction :=
  match fst begun with
  | Ok t => t
  | Err _ => {| tx_live := false; tx_session := ("", ""); tx_next := ∅; tx_previous := 0%nat;
                tx_results := []; tx_retire := false |}
  end.
Definition committed := CommitWith pol None tx (snd begun).
Definition published : Registry := snd committed.
Definition offered := Offer_locked any_range pol "m" "s" request 1000 (Some creds) published NewBroker.
Definition current : binding :=
  {| owner_client := "m"; owner_session := "s"; bindingID := "b1"; declaration := web; writer := Some 1%nat;
     authentication := auth; maxActiveLinks := 4; is_active := true |}.

Definition s1 : ForwardSystem := publish (snd begun) [] (forward_initial zero_UDPConfig pol).
Definition s2 : ForwardSystem := publish published (fst (Retire any_range (snd (fst committed)) published)) s1.
Definition s3 : ForwardSystem :=
  s2 <| reg := snd (fst offered) |> <| brk := snd offered |> <| origin := <["l1" := current]> (origin s2) |>.

Lemma begun_eq : begun = (Ok tx, snd begun).
Proof. vm_compute. reflexivity. Qed.

Lemma committed_eq : committed = (true, snd (fst committed), published).
Proof. vm_compute. reflexivity. Qed.

Lemma run : rtc (forward_step any_range any_range any_range) (forward_initial zero_UDPConfig pol) s3.
Proof.
  eapply rtc_l; [apply (fs_begin _ _ _ (forward_initial zero_UDPConfig pol) pol zero_UDPConfig "m" "s" (Some 1%nat) auth 4 [Some "b1"] [web] _ _ begun_eq)|].
  eapply rtc_l; [apply (fs_commit _ _ _ s1 pol None tx true (snd (fst committed)) published (λ _, eq_refl) committed_eq)|].
  apply rtc_once.
  apply (fs_offer _ _ _ s2 pol "m" "s" request 1000 creds
    {| OfferLinkID := "l1"; ProxyName := "web"; ProxyType := "tcp"; OfferBindingID := "b1"; Ticket := "t1";
       ExpiresAtUnixMS := UnixMilli (Add 1000 pendingTimeout); OfferMaxDatagramSize := 0; WriteTimeoutMS := 0 |}
    None (snd (fst offered)) (snd offered) current (λ _, eq_refl));
    vm_compute; reflexivity.
Qed.
End DemoForward.

Lemma revocation_complete_witness :
  ∃ key a name b, sessions (reg DemoForward.s3) !! key = Some a ∧ set_at (reg DemoForward.s3) a !! name = Some b ∧
    bindingID b = "b1" ∧ is_active b = true ∧ snd (DemoForward.pol (authentication b) (declaration b)) = true.
Proof.
  apply (revocation_complete any_range any_range any_range zero_UDPConfig DemoForward.pol DemoForward.s3 "l1"
    DemoForward.current DemoForward.run).
  - reflexivity.
  - vm_compute. reflexivity.
  - reflexivity.
  - reflexivity.
  - reflexivity.
  - left. refine (ex_intro _ (default (Build_brokerPendingLink (offer_target "" "" DemoForward.request
      DemoForward.current false) "" [] 0 open_callbacks) (pending (brk DemoForward.s3) !! "l1")) _). vm_compute. reflexivity.
Defined.

Lemma sync_publishes_witness :
  is_Some (bindingLocked "m" "s" "web" DemoForward.published).
Proof.
  pose proof (sync_publishes DemoForward.pol DemoForward.pol zero_UDPConfig "m" "s" (Some 1%nat)
    DemoForward.auth 4 [Some "b1"] [DemoForward.web] None (New zero_UDPConfig) DemoForward.tx
    (snd DemoForward.begun) true (snd (fst DemoForward.committed)) DemoForward.published
    (New_allocated _) DemoForward.begun_eq DemoForward.committed_eq) as (_ & Hd & _).
  apply (Hd DemoForward.web). left.
Defined.

Lemma stale_generation_rejected_witness :
  fst (fst (CommitWith DemoForward.pol None DemoForward.tx DemoForward.published)) = false.
Proof.
  rewrite (stale_generation_rejected (H := Dotted.text) any_range any_range zero_UDPConfig (snd DemoForward.begun)
    DemoForward.pol None DemoForward.tx (snd (fst DemoForward.committed)) DemoForward.published
    DemoForward.published DemoForward.pol None DemoForward.tx); try reflexivity.
  - apply rtc_once, (rs_begin (H := Dotted.text) _ _ (New zero_UDPConfig) DemoForward.pol zero_UDPConfig "m" "s" (Some 1%nat)
      DemoForward.auth 4 [Some "b1"] [DemoForward.web] (Ok DemoForward.tx)). exact DemoForward.begun_eq.
Defined.

Lemma offer_outcome_witness :
  let '(reply, r, b, _) := Offer any_range DemoForward.pol "m" "s" DemoForward.request 1000
    (Some DemoForward.creds) true false DemoForward.published NewBroker in
  is_some (OfferError reply) = true ∧ pending b = ∅.
Proof.
  destruct (Offer _ _ _ _ _ _ _ _ _ _ _) as [[[reply r] b] events] eqn:E.
  assert (He : is_some (OfferError reply) = true).
  { transitivity (is_some (OfferError (fst (fst (fst (Offer any_range DemoForward.pol "m" "s"
      DemoForward.request 1000 (Some DemoForward.creds) true false DemoForward.published NewBroker)))))).
    - rewrite E. reflexivity.
    - vm_compute. reflexivity. }
  split; [exact He|].
  pose proof (offer_outcome any_range DemoForward.pol "m" "s" DemoForward.request 1000 DemoForward.creds
    true false DemoForward.published NewBroker reply r b events eq_refl eq_refl E) as (_ & _ & _ & Hout).
  destruct (OfferError reply); [|discriminate He]. destruct Hout as [Hp _]. exact Hp.
Defined.

Lemma policy_publication_witness :
  "b1" ∈ fst (fst (ApplyPolicy (λ _ _, (true, false)) (λ _ _, false) zero_UDPConfig 2 any_range any_range
    DemoForward.published)).
Proof.
  destruct (ApplyPolicy _ _ _ _ _ _ _) as [[affected notes] r'] eqn:E.
  apply (policy_publication _ _ _ _ _ _ _ _ _ _ E).
  exists "m", "s", "web", DemoForward.current. split_and!; [vm_compute; reflexivity|reflexivity|right; reflexivity].
Defined.

Lemma policy_delivery_witness :
  ∃ sent closed, (1%nat, (sent, closed)) ∈ Deliver
      (λ _, {| done_at_start := false; done_before := λ _, false; write_ok := λ _, true; done_late := false |}) 0
      (range_of any_range (snd (fst (ApplyPolicy (λ _ _, (true, false)) (λ _ _, false) zero_UDPConfig 2 any_range any_range
        DemoForward.published)))) ∧
    (closed = true ∨ ForwardBindingRevoked "web" ForwardTypeTCP "b1" 2 ∈ sent).
Proof.
  destruct (ApplyPolicy _ _ _ _ _ _ _) as [[affected notes] r'] eqn:E.
  refine (policy_delivery (λ _ _, (true, false)) (λ _ _, false) zero_UDPConfig 2 any_range any_range any_range _
    DemoForward.published affected notes r' "m" "s" "web" DemoForward.current 1%nat E _ eq_refl _ _).
  - vm_compute. reflexivity.
  - left. discriminate.
  - left. reflexivity.
Defined.

Lemma sync_total_witness :
  let '(res, retired, r') := Sync (H := Dotted.text) any_range DemoForward.pol zero_UDPConfig "m" "s" (Some 1%nat)
    DemoForward.auth 4 [Some "b2"] [DemoForward.web] DemoForward.published in
  (∃ results, res = Ok results) ∧ "b1" ∈ retired.
Proof.
  pose proof (sync_total (H := Dotted.text) any_range DemoForward.pol zero_UDPConfig "m" "s" (Some 1%nat)
    DemoForward.auth 4 [Some "b2"] [DemoForward.web] DemoForward.published) as Hs.
  destruct (Sync _ _ _ _ _ _ _ _ _ _ _) as [[res retired] r'] eqn:E.
  assert (Hok : match res with Ok _ => true | Err _ => false end = true).
  { change res with (fst (fst (res, retired, r'))). rewrite <- E. vm_compute. reflexivity. }
  destruct res as [results|e]; [|discriminate Hok]. split; [by exists results|].
  destruct Hs as (_ & _ & _ & _ & Hret).
  - apply (commit_spec _ _ _ _ _ _ _ DemoForward.committed_eq). eapply begin_live; [exact DemoForward.begun_eq|].
    apply New_allocated.
  - apply (Hret "web" DemoForward.current). vm_compute. reflexivity.
Defined.
