(* ===== verification/ProxyPlane.v ===== *)
(** * Public ports of the proxy registry ([internal/proxy/registry])

    The registry keeps the same tables twice, for TCP and for UDP: the endpoint
    that listens on a port, the binding an ordinary port belongs to, the mirror
    group of a shared port, the ports reserved by managed configuration, and
    the proxies of every client.  A [Plane] is one such copy, and the code of
    [registry.go], [sync.go], [sync_commit.go], [lifecycle.go] and
    [mirror_registry.go] that appears once per protocol is translated once.
    The [tcpProxies] of the client states are kept by client in [proxies].

    A binding never changes once it is created: the only assignment, of its
    session in [publishSync], writes the session it was created for.  A pointer
    to a binding is therefore its record, with the address it was allocated at
    ([b_addr]), and pointer equality is equality of records.  A group has one
    owner, its entry in [mirrorGroups]; pointers kept elsewhere are only
    compared with that entry, by [g_addr].  An endpoint is a listening socket
    with an identity and the port it listens on. *)

From S2P Require Import Prelude Authentication PortPolicy.

Local Open Scope Z_scope.

(** ** Data *)

Inductive ProxyType := ProxyTypeTCP | ProxyTypeHTTP | ProxyTypeUDP | ProxyTypeOther (name : string).
#[export] Instance proxy_type_eq_dec : EqDecision ProxyType.
Proof. solve_decision. Defined.

Definition HTTPPublicSchemeHTTP : string := "http".
Definition HTTPPublicSchemeHTTPS : string := "https".

Record ProxyDeclaration := {
  DeclaredName : string;
  DeclaredType : ProxyType;
  RemotePort : Z;
  Domain : string;
  PublicSchemes : list string
}.
#[export] Instance proxy_declaration_eq_dec : EqDecision ProxyDeclaration.
Proof. solve_decision. Defined.

(** [sameProxyDeclaration] compares every field. *)
Definition sameProxyDeclaration (left right : ProxyDeclaration) : bool :=
  bool_decide (DeclaredName left = DeclaredName right) &&
  bool_decide (DeclaredType left = DeclaredType right) &&
  bool_decide (RemotePort left = RemotePort right) &&
  bool_decide (Domain left = Domain right) &&
  bool_decide (PublicSchemes left = PublicSchemes right).

Record Endpoint := { ep_id : nat; ep_port : Z }.
#[export] Instance endpoint_eq_dec : EqDecision Endpoint.
Proof. solve_decision. Defined.

(** One record for the three binding types; an HTTP binding has no endpoint. *)
Record binding := {
  b_addr : nat;
  b_clientID : string;
  b_sessionID : string;
  b_bindingID : string;
  b_declaration : ProxyDeclaration;
  b_endpoint : option Endpoint
}.
#[export] Instance binding_eq_dec : EqDecision binding.
Proof. solve_decision. Defined.

Definition b_name (b : binding) : string := DeclaredName (b_declaration b).
Definition b_port (b : binding) : Z := RemotePort (b_declaration b).

Record ProxyMirrorGroupConfig := {
  MirrorName : string;
  MirrorType : ProxyType;
  MirrorPublic : list PortRange;
  PrimaryClientID : string;
  ClientIDs : list string
}.

Record ProxyMirrorConfig := {
  MirrorGoverned : list ProxyMirrorGroupConfig;
  MirrorManaged : list ProxyMirrorGroupConfig
}.

(** [Ports]: the loops run over uint32, so a range may end at 65535. *)
Definition Ports (public : list PortRange) : list Z :=
  public ≫= λ r, seqZ (Start r) (End_ r - Start r + 1).

Record mirrorGroup := {
  g_addr : nat;
  g_configuration : ProxyMirrorGroupConfig;
  g_port : Z;
  g_mode : string;
  g_endpoint : option Endpoint;
  g_members : gmap string binding;
  g_sessions : gset nat
}.
#[export] Instance eta_mirrorGroup : Eta mirrorGroup := λ g,
  {| g_addr := g_addr g; g_configuration := g_configuration g; g_port := g_port g; g_mode := g_mode g;
     g_endpoint := g_endpoint g; g_members := g_members g; g_sessions := g_sessions g |}.

Record Plane := {
  endpoints : gmap Z Endpoint;
  endpointBindings : gmap Z binding;
  mirrorGroups : gmap Z mirrorGroup;
  managedPorts : gmap Z string;
  proxies : gmap string (gmap string binding)
}.
#[export] Instance eta_Plane : Eta Plane := λ p,
  {| endpoints := endpoints p; endpointBindings := endpointBindings p; mirrorGroups := mirrorGroups p;
     managedPorts := managedPorts p; proxies := proxies p |}.

Definition empty_plane : Plane :=
  {| endpoints := ∅; endpointBindings := ∅; mirrorGroups := ∅; managedPorts := ∅; proxies := ∅ |}.

(** The proxies of one client; none for a client without a state. *)
Definition client_proxies (c : string) (p : Plane) : gmap string binding := default ∅ (proxies p !! c).

(** ** Mirror groups

    [modes] gives the authentication mode of every attached client. *)

Definition allowsMode (g : mirrorGroup) (client mode : string) : bool :=
  bool_decide (g_mode g = mode) && bool_decide (client ∈ ClientIDs (g_configuration g)).

Definition allows (g : mirrorGroup) (client : string) (modes : gmap string string) : bool :=
  match modes !! client with
  | None => false
  | Some mode => bool_decide (mode = g_mode g) && allowsMode g client mode
  end.

Definition mirrorGroupLocked (client : string) (modes : gmap string string) (port : Z) (p : Plane) :
    option mirrorGroup :=
  match mirrorGroups p !! port with
  | Some g => if allows g client modes then Some g else None
  | None => None
  end.

(** ** Registration: what can be reused *)

Inductive PlaneError := MirrorMemberNotAllowed (name : string) | PortConflict (name : string).

(** The loop over the declarations of the plane's type. *)
Fixpoint reusableEndpoints (client : string) (modes : gmap string string) (existing : gmap string binding)
    (p : Plane) (declarations : list ProxyDeclaration) (acc : gmap Z Endpoint) :
    result PlaneError (gmap Z Endpoint) :=
  match declarations with
  | [] => Ok acc
  | d :: declarations =>
    let endpoint := endpoints p !! RemotePort d in
    match mirrorGroupLocked client modes (RemotePort d) p with
    | Some g =>
      match endpoint with
      | Some e => if bool_decide (g_endpoint g = Some e)
                  then reusableEndpoints client modes existing p declarations (<[RemotePort d := e]> acc)
                  else reusableEndpoints client modes existing p declarations acc
      | None => reusableEndpoints client modes existing p declarations acc
      end
    | None =>
      if is_some (mirrorGroups p !! RemotePort d) then Err (MirrorMemberNotAllowed (DeclaredName d))
      else
        match endpoint with
        | None => reusableEndpoints client modes existing p declarations acc
        | Some e =>
          match endpointBindings p !! RemotePort d with
          | Some current =>
            if bool_decide (b_clientID current = client) &&
               bool_decide (existing !! b_name current = Some current)
            then reusableEndpoints client modes existing p declarations (<[RemotePort d := e]> acc)
            else Err (PortConflict (DeclaredName d))
          | None => Err (PortConflict (DeclaredName d))
          end
        end
    end
  end.

(** [prepareSyncEndpoints]: the ports that are not reused are listened on;
    [listen] is what the operating system answers.  The endpoints opened so
    far are returned on failure too, since rollback closes them. *)
Fixpoint prepareEndpoints (listen : Z → option Endpoint) (reusable : gmap Z Endpoint)
    (declarations : list ProxyDeclaration) (acc : gmap Z Endpoint) : option PlaneError * gmap Z Endpoint :=
  match declarations with
  | [] => (None, acc)
  | d :: declarations =>
    if is_some (reusable !! RemotePort d) then prepareEndpoints listen reusable declarations acc
    else
      match listen (RemotePort d) with
      | None => (Some (PortConflict (DeclaredName d)), acc)
      | Some e => prepareEndpoints listen reusable declarations (<[RemotePort d := e]> acc)
      end
  end.

(** ** Registration: the next bindings *)

Inductive ProxyStatus := ProxyStatusActive | ProxyStatusUnchanged.

Record ProxyResult := {
  ResultProxy : string;
  ResultStatus : ProxyStatus;
  ResultPort : Z;
  ResultDomain : string
}.

(** What the creation of bindings consumes: identifiers from the random source
    ([None] when it fails) and addresses. *)
Record Supply := { ids : list (option string); next_addr : nat }.

Definition draw (s : Supply) : option (string * nat * Supply) :=
  match ids s with
  | Some id :: rest => Some (id, next_addr s, {| ids := rest; next_addr := S (next_addr s) |})
  | _ => None
  end.

(** A binding of the same session and declaration is kept.  [keep_status] holds
    for TCP, where a binding that only changes its session is reported as
    unchanged. *)
Definition unchanged (existing : gmap string binding) (d : ProxyDeclaration) : option binding :=
  match existing !! DeclaredName d with
  | Some x => if sameProxyDeclaration (b_declaration x) d then Some x else None
  | None => None
  end.

Fixpoint prepareBindings (keep_status : bool) (client session : string) (existing : gmap string binding)
    (reusable fresh_endpoints : gmap Z Endpoint) (declarations : list ProxyDeclaration)
    (supply : Supply) (next : gmap string binding) (results : list ProxyResult) :
    result string (Supply * gmap string binding * list ProxyResult) :=
  match declarations with
  | [] => Ok (supply, next, results)
  | d :: declarations =>
    let answer status := {| ResultProxy := DeclaredName d; ResultStatus := status;
                            ResultPort := RemotePort d; ResultDomain := "" |} in
    let kept := match unchanged existing d with
                | Some x => if bool_decide (b_sessionID x = session) then Some x else None
                | None => None
                end in
    match kept with
    | Some x =>
      prepareBindings keep_status client session existing reusable fresh_endpoints declarations supply
        (<[DeclaredName d := x]> next) (results ++ [answer ProxyStatusUnchanged])
    | None =>
      let endpoint := match reusable !! RemotePort d with
                      | Some e => Some e
                      | None => fresh_endpoints !! RemotePort d
                      end in
      match draw supply with
      | None => Err (DeclaredName d)
      | Some (id, addr, supply) =>
        let b := {| b_addr := addr; b_clientID := client; b_sessionID := session; b_bindingID := id;
                    b_declaration := d; b_endpoint := endpoint |} in
        let status := if keep_status && is_some (unchanged existing d)
                      then ProxyStatusUnchanged else ProxyStatusActive in
        prepareBindings keep_status client session existing reusable fresh_endpoints declarations supply
          (<[DeclaredName d := b]> next) (results ++ [answer status])
      end
    end
  end.

(** ** Publication *)

(** Ownership is checked again for every reused endpoint. *)
Definition still_owned (client : string) (modes : gmap string string) (existing : gmap string binding)
    (p : Plane) (port : Z) (e : Endpoint) : bool :=
  let mirrorOwned :=
    match mirrorGroups p !! port with
    | Some g => bool_decide (g_endpoint g = Some e) && allows g client modes
    | None => false
    end in
  let ordinaryOwned :=
    match endpointBindings p !! port with
    | Some b => bool_decide (b_clientID b = client) && bool_decide (existing !! b_name b = Some b)
    | None => false
    end in
  bool_decide (endpoints p !! port = Some e) && (mirrorOwned || ordinaryOwned).

(** The port at which the check fails first, in the order of the loop. *)
Definition lost_port (client : string) (modes : gmap string string) (existing : gmap string binding)
    (ρe : go_range Z Endpoint) (reusable : gmap Z Endpoint) (p : Plane) : option Z :=
  head (filter (λ q, still_owned client modes existing p q.1 q.2 = false) (ρe reusable)).*1.

(** The body of the loop over the next bindings. *)
Definition publish_binding (client : string) (modes : gmap string string)
    (acc : Plane * gmap Z Endpoint) (b : binding) : Plane * gmap Z Endpoint :=
  let '(p, nextEndpoints) := acc in
  let port := b_port b in
  let p :=
    match mirrorGroupLocked client modes port p with
    | Some g =>
      let g := if bool_decide (g_endpoint g = None) then g <| g_endpoint := b_endpoint b |> else g in
      let g := g <| g_members := <[client := b]> (g_members g) |> in
      p <| mirrorGroups := <[port := g]> (mirrorGroups p) |>
        <| endpointBindings := delete port (endpointBindings p) |>
    | None => p <| endpointBindings := <[port := b]> (endpointBindings p) |>
    end in
  match b_endpoint b with
  | Some e => (p <| endpoints := <[port := e]> (endpoints p) |>, <[port := e]> nextEndpoints)
  | None => (p, nextEndpoints)
  end.

(** The body of the loop over the bindings the client had. *)
Definition retire_binding (client : string) (next : gmap string binding) (nextEndpoints : gmap Z Endpoint)
    (acc : Plane * gmap Z Endpoint) (x : binding) : Plane * gmap Z Endpoint :=
  let '(p, removed) := acc in
  let port := b_port x in
  let p :=
    match mirrorGroups p !! port with
    | Some g =>
      if bool_decide (g_members g !! client = Some x) && negb (bool_decide (next !! b_name x = Some x))
      then p <| mirrorGroups := <[port := g <| g_members := delete client (g_members g) |>]> (mirrorGroups p) |>
      else p
    | None => p
    end in
  if negb (bool_decide (nextEndpoints !! port = b_endpoint x)) && negb (is_some (mirrorGroups p !! port)) then
    let p := if bool_decide (endpoints p !! port = b_endpoint x)
             then p <| endpoints := delete port (endpoints p) |>
                    <| endpointBindings := delete port (endpointBindings p) |>
             else p in
    (p, match b_endpoint x with Some e => <[port := e]> removed | None => removed end)
  else (p, removed).

(** The part of [publishSync] for one protocol: the new plane and the
    endpoints to close. *)
Definition publishPlane (ρ : go_range string binding) (client : string) (modes : gmap string string)
    (existing next : gmap string binding) (p : Plane) : Plane * gmap Z Endpoint :=
  let '(p, nextEndpoints) := foldl (publish_binding client modes) (p, ∅) (ρ next).*2 in
  let '(p, removed) := foldl (retire_binding client next nextEndpoints) (p, ∅) (ρ existing).*2 in
  (p <| proxies := <[client := next]> (proxies p) |>, removed).

(** The bindings whose links are cancelled after publication. *)
Definition replaced (ρ : go_range string binding) (existing next : gmap string binding) : list binding :=
  (filter (λ q, next !! q.1 ≠ Some q.2) (ρ existing)).*2.

(** ** Removal *)

(** The body of the loop of [Detach]; the second component collects the
    endpoints to close, the third the mirror sessions to cancel. *)
Definition detach_binding (client : string) (acc : Plane * gmap Z Endpoint * gset nat) (b : binding) :
    Plane * gmap Z Endpoint * gset nat :=
  let '(p, closing, sessions) := acc in
  let port := b_port b in
  let ordinary :=
    if bool_decide (endpoints p !! port = b_endpoint b)
    then (p <| endpoints := delete port (endpoints p) |>
            <| endpointBindings := delete port (endpointBindings p) |>,
          match b_endpoint b with Some e => <[port := e]> closing | None => closing end, sessions)
    else acc in
  match mirrorGroups p !! port with
  | Some g =>
    if bool_decide (g_members g !! client = Some b) then
      let g := g <| g_members := delete client (g_members g) |> in
      if bool_decide (g_members g = ∅) && bool_decide (g_endpoint g = b_endpoint b)
      then (p <| mirrorGroups := <[port := g <| g_endpoint := None |>]> (mirrorGroups p) |>
              <| endpoints := delete port (endpoints p) |>,
            match b_endpoint b with Some e => <[port := e]> closing | None => closing end,
            sessions ∪ g_sessions g)
      else (p <| mirrorGroups := <[port := g]> (mirrorGroups p) |>, closing, sessions)
    else ordinary
  | None => ordinary
  end.

Definition detachPlane (ρ : go_range string binding) (client : string) (p : Plane) :
    Plane * gmap Z Endpoint * gset nat :=
  let '(p', closing, sessions) := foldl (detach_binding client) (p, ∅, ∅) (ρ (client_proxies client p)).*2 in
  (p' <| proxies := delete client (proxies p') |>, closing, sessions).

(** [Close]: the reservations are left as they are. *)
Definition closePlane (p : Plane) : Plane :=
  {| endpoints := ∅; endpointBindings := ∅; mirrorGroups := ∅; managedPorts := managedPorts p; proxies := ∅ |}.

(** ** Replacing the mirror groups *)

(** [appendGroups]: one group per port, allocated from [addr] on. *)
Definition append_port (mode : string) (c : ProxyMirrorGroupConfig) (acc : nat * gmap Z mirrorGroup) (port : Z) :
    nat * gmap Z mirrorGroup :=
  let '(addr, candidates) := acc in
  (S addr, <[port := {| g_addr := addr; g_configuration := c; g_port := port; g_mode := mode;
                        g_endpoint := None; g_members := ∅; g_sessions := ∅ |}]> candidates).

Definition appendGroups (selected : ProxyType → bool) (mode : string) (groups : list ProxyMirrorGroupConfig)
    (acc : nat * gmap Z mirrorGroup) : nat * gmap Z mirrorGroup :=
  foldl (λ acc c, if selected (MirrorType c) then foldl (append_port mode c) acc (Ports (MirrorPublic c)) else acc)
    acc groups.

Definition candidateGroups (selected : ProxyType → bool) (configuration : ProxyMirrorConfig) (addr : nat) :
    nat * gmap Z mirrorGroup :=
  appendGroups selected ModeManaged (MirrorManaged configuration)
    (appendGroups selected ModeGoverned (MirrorGoverned configuration) (addr, ∅)).

(** What a candidate takes over from the group or the binding on its port;
    [None] if the port is in use by somebody else. *)
Definition inherit (modes : gmap string string) (p : Plane) (port : Z) (candidate : mirrorGroup) : option mirrorGroup :=
  match mirrorGroups p !! port with
  | Some existing =>
    Some (candidate <| g_endpoint := g_endpoint existing |>
                    <| g_members := filter (λ q, allows candidate q.1 modes = true) (g_members existing) |>)
  | None =>
    match endpoints p !! port with
    | None => Some candidate
    | Some e =>
      match endpointBindings p !! port with
      | Some b =>
        if allows candidate (b_clientID b) modes
        then Some (candidate <| g_endpoint := Some e |>
                             <| g_members := <[b_clientID b := b]> (g_members candidate) |>)
        else None
      | None => None
      end
    end
  end.

(** The members of the old groups that no candidate keeps. *)
Definition keeps (candidates : gmap Z mirrorGroup) (port : Z) (client : string) (b : binding) : bool :=
  match candidates !! port with
  | Some candidate => bool_decide (g_members candidate !! client = Some b)
  | None => false
  end.

Definition dropped_members (ρg : go_range Z mirrorGroup) (ρ : go_range string binding)
    (candidates : gmap Z mirrorGroup) (p : Plane) : list binding :=
  ρg (mirrorGroups p) ≫= λ q, (filter (λ m, keeps candidates q.1 m.1 m.2 = false) (ρ (g_members q.2))).*2.

Definition drop_proxy (table : gmap string (gmap string binding)) (b : binding) : gmap string (gmap string binding) :=
  match table !! b_clientID b with
  | Some state => if bool_decide (state !! b_name b = Some b)
                  then <[b_clientID b := delete (b_name b) state]> table else table
  | None => table
  end.

(** The owner of live sessions stays when the mode does; [stable] holds for
    TCP only. *)
Definition keep_owner (stable : bool) (p : Plane) (port : Z) (candidate : mirrorGroup) : mirrorGroup :=
  match mirrorGroups p !! port with
  | Some old => if stable && bool_decide (g_mode old = g_mode candidate)
                then old <| g_configuration := g_configuration candidate |> <| g_members := g_members candidate |>
                else candidate
  | None => candidate
  end.

Definition vacant (g : mirrorGroup) : bool := bool_decide (g_members g = ∅) && is_some (g_endpoint g).

(** Endpoints to close: those of groups that are gone and of vacant groups. *)
Definition removed_endpoint (installed : gmap Z mirrorGroup) (port : Z) (old : mirrorGroup) :
    option Endpoint :=
  match installed !! port with None => g_endpoint old | Some _ => None end.
Definition vacant_endpoint (g : mirrorGroup) : option Endpoint := if vacant g then g_endpoint g else None.

Definition configurePlane (stable : bool) (modes : gmap string string) (ρg : go_range Z mirrorGroup)
    (ρ : go_range string binding) (candidates : gmap Z mirrorGroup) (p : Plane) :
    option (Plane * gmap Z Endpoint * list binding) :=
  if bool_decide (map_Forall (λ port g, is_Some (inherit modes p port g)) candidates) then
    let candidates := map_imap (λ port g, inherit modes p port g) candidates in
    let dropped := dropped_members ρg ρ candidates p in
    let table := foldl drop_proxy (proxies p) dropped in
    let owned := map_imap (λ port g, Some (keep_owner stable p port g)) candidates in
    let removed := map_imap (removed_endpoint owned) (mirrorGroups p) ∪ omap vacant_endpoint owned in
    let installed := (λ g, if vacant g then g <| g_endpoint := None |> else g) <$> owned in
    let occupied := omap g_endpoint installed in
    Some ({| endpoints := (occupied ∪ endpoints p) ∖ removed;
             endpointBindings := filter (λ q, occupied !! q.1 = None) (endpointBindings p);
             mirrorGroups := installed; managedPorts := managedPorts p; proxies := table |}, removed, dropped)
  else None.

(** ** The invariant *)

Definition owned (p : Plane) (b : binding) : Prop := client_proxies (b_clientID b) p !! b_name b = Some b.

Definition routed (p : Plane) (b : binding) : Prop :=
  endpointBindings p !! b_port b = Some b ∨
  ∃ g, mirrorGroups p !! b_port b = Some g ∧ g_members g !! b_clientID b = Some b.

(** Every entry of the tables leads to a binding that its client has, every
    binding of a client is reached from its port, a port is either ordinary or
    shared, and its endpoint is the one of its binding or group. *)
Record plane_ok (p : Plane) : Prop := {
  po_route port b : endpointBindings p !! port = Some b →
    mirrorGroups p !! port = None ∧ b_port b = port ∧ is_Some (b_endpoint b) ∧
    endpoints p !! port = b_endpoint b ∧ owned p b;
  po_group port g : mirrorGroups p !! port = Some g → endpoints p !! port = g_endpoint g;
  po_member port g c b : mirrorGroups p !! port = Some g → g_members g !! c = Some b →
    b_clientID b = c ∧ b_port b = port ∧ is_Some (b_endpoint b) ∧ g_endpoint g = b_endpoint b ∧ owned p b;
  po_endpoint port e : endpoints p !! port = Some e → ep_port e = port ∧
    (is_Some (mirrorGroups p !! port) ∨ is_Some (endpointBindings p !! port));
  po_owned c n b : client_proxies c p !! n = Some b → b_name b = n ∧ b_clientID b = c ∧ routed p b
}.

Lemma empty_plane_ok : plane_ok empty_plane.
Proof. constructor; cbn; intros *; unfold client_proxies; cbn; by rewrite ?lookup_empty. Qed.

Lemma closePlane_ok p : plane_ok (closePlane p).
Proof. constructor; cbn; intros *; unfold client_proxies; cbn; by rewrite ?lookup_empty. Qed.

Section plane_facts.
Context (p : Plane) (Hp : plane_ok p).

Lemma owned_client c n b : client_proxies c p !! n = Some b → owned p b.
Proof. intros Hb. destruct (po_owned _ Hp _ _ _ Hb) as (Hn & Hc & _). unfold owned. by rewrite Hc, Hn. Qed.

(** The endpoint of an owned binding is the one on its port. *)
Lemma owned_endpoint b : owned p b → is_Some (b_endpoint b) ∧ endpoints p !! b_port b = b_endpoint b.
Proof.
  intros Hb. destruct (po_owned _ Hp _ _ _ Hb) as (_ & _ & [Hr|(g & Hg & Hm)]).
  - by destruct (po_route _ Hp _ _ Hr) as (_ & _ & ? & ? & _).
  - destruct (po_member _ Hp _ _ _ _ Hg Hm) as (_ & _ & ? & ? & _). split; [done|].
    by rewrite (po_group _ Hp _ _ Hg).
Qed.

(** Two bindings of one client never share a port. *)
Lemma owned_port_unique b b' :
  owned p b → owned p b' → b_clientID b = b_clientID b' → b_port b = b_port b' → b = b'.
Proof.
  intros Hb Hb' Hc Hpo.
  destruct (po_owned _ Hp _ _ _ Hb) as (_ & _ & [Hr|(g & Hg & Hm)]);
    destruct (po_owned _ Hp _ _ _ Hb') as (_ & _ & [Hr'|(g' & Hg' & Hm')]); rewrite <- ?Hpo in *.
  - congruence.
  - destruct (po_route _ Hp _ _ Hr) as (? & _). congruence.
  - destruct (po_route _ Hp _ _ Hr') as (? & _). congruence.
  - rewrite <- ?Hc in *. congruence.
Qed.
End plane_facts.

(** ** Publication, port by port *)

Definition join (client : string) (b : binding) (g : mirrorGroup) : mirrorGroup :=
  let g := if bool_decide (g_endpoint g = None) then g <| g_endpoint := b_endpoint b |> else g in
  g <| g_members := <[client := b]> (g_members g) |>.

Definition leave (client : string) (next : gmap string binding) (x : binding) (g : mirrorGroup) : mirrorGroup :=
  if bool_decide (g_members g !! client = Some x) && negb (bool_decide (next !! b_name x = Some x))
  then g <| g_members := delete client (g_members g) |> else g.

(** The entries of a plane at one port. *)
Definition same_at (q : Z) (p p' : Plane) : Prop :=
  endpoints p' !! q = endpoints p !! q ∧ endpointBindings p' !! q = endpointBindings p !! q ∧
  mirrorGroups p' !! q = mirrorGroups p !! q.

Lemma mirrorGroupLocked_same client modes q p p' :
  mirrorGroups p' !! q = mirrorGroups p !! q → mirrorGroupLocked client modes q p' = mirrorGroupLocked client modes q p.
Proof. unfold mirrorGroupLocked. by intros ->. Qed.

Lemma publish_binding_spec client modes p ne b :
  is_Some (b_endpoint b) →
  let '(p', ne') := publish_binding client modes (p, ne) b in
  proxies p' = proxies p ∧ managedPorts p' = managedPorts p ∧
  (endpoints p' !! b_port b = b_endpoint b ∧ ne' !! b_port b = b_endpoint b ∧
   match mirrorGroupLocked client modes (b_port b) p with
   | Some g => endpointBindings p' !! b_port b = None ∧ mirrorGroups p' !! b_port b = Some (join client b g)
   | None => endpointBindings p' !! b_port b = Some b ∧ mirrorGroups p' !! b_port b = mirrorGroups p !! b_port b
   end) ∧
  ∀ q, q ≠ b_port b → same_at q p p' ∧ ne' !! q = ne !! q.
Proof.
  intros [e He]. unfold publish_binding. rewrite He.
  destruct (mirrorGroupLocked client modes (b_port b) p) as [g|] eqn:Hg; cbn.
  - split_and!; try done; try by rewrite lookup_insert_eq.
    + by rewrite lookup_delete_eq.
    + rewrite lookup_insert_eq. unfold join. by rewrite He.
    + intros q Hq. unfold same_at. cbn. by rewrite !lookup_insert_ne, lookup_delete_ne by done.
  - split_and!; try done; try by rewrite lookup_insert_eq.
    intros q Hq. unfold same_at. cbn. by rewrite !lookup_insert_ne by done.
Qed.

Lemma publish_fold_spec client modes l : ∀ p ne p' ne',
  foldl (publish_binding client modes) (p, ne) l = (p', ne') →
  NoDup (b_port <$> l) → Forall (λ b, is_Some (b_endpoint b)) l →
  proxies p' = proxies p ∧ managedPorts p' = managedPorts p ∧
  (∀ b, b ∈ l → endpoints p' !! b_port b = b_endpoint b ∧ ne' !! b_port b = b_endpoint b ∧
     match mirrorGroupLocked client modes (b_port b) p with
     | Some g => endpointBindings p' !! b_port b = None ∧ mirrorGroups p' !! b_port b = Some (join client b g)
     | None => endpointBindings p' !! b_port b = Some b ∧ mirrorGroups p' !! b_port b = mirrorGroups p !! b_port b
     end) ∧
  ∀ q, q ∉ b_port <$> l → same_at q p p' ∧ ne' !! q = ne !! q.
Proof.
  induction l as [|b l IH]; intros p ne p' ne'; cbn [foldl].
  { intros [= <- <-] _ _. split_and!; try done. by intros b ?%elem_of_nil. }
  intros E (Hb & Hnd)%NoDup_cons [He Hall]%Forall_cons.
  pose proof (publish_binding_spec client modes p ne b He) as Hone.
  destruct (publish_binding client modes (p, ne) b) as [p1 ne1]. destruct Hone as (Ep & Em & Hat & Hoff).
  destruct (IH _ _ _ _ E Hnd Hall) as (Ep' & Em' & Hin & Hout). split_and!; [congruence|congruence| |].
  - intros b' [->|Hb']%elem_of_cons.
    + destruct (Hout _ Hb) as ((-> & -> & ->) & ->). done.
    + assert (Hne : b_port b' ≠ b_port b).
      { intros Eq. apply Hb. rewrite <- Eq. by apply list_elem_of_fmap_2. }
      destruct (Hoff _ Hne) as ((_ & _ & Hg) & _).
      rewrite <- (mirrorGroupLocked_same client modes _ _ _ Hg), <- Hg. by apply Hin.
  - intros q. rewrite fmap_cons, not_elem_of_cons. intros [Hne Hq].
    destruct (Hoff _ Hne) as ((? & ? & ?) & ?), (Hout _ Hq) as ((? & ? & ?) & ?).
    unfold same_at in *. split_and!; congruence.
Qed.

(** Whether the loop over the old bindings takes the port of [x] down. *)
Definition taken_down (ne : gmap Z Endpoint) (x : binding) (p : Plane) : bool :=
  negb (bool_decide (ne !! b_port x = b_endpoint x)) && negb (is_some (mirrorGroups p !! b_port x)) &&
  bool_decide (endpoints p !! b_port x = b_endpoint x).

Definition retired_at (client : string) (next : gmap string binding) (ne : gmap Z Endpoint) (x : binding)
    (p p' : Plane) : Prop :=
  mirrorGroups p' !! b_port x = leave client next x <$> mirrorGroups p !! b_port x ∧
  endpoints p' !! b_port x = (if taken_down ne x p then None else endpoints p !! b_port x) ∧
  endpointBindings p' !! b_port x = (if taken_down ne x p then None else endpointBindings p !! b_port x).

Lemma retire_binding_spec client next ne p removed x :
  let '(p', removed') := retire_binding client next ne (p, removed) x in
  proxies p' = proxies p ∧ managedPorts p' = managedPorts p ∧ retired_at client next ne x p p' ∧
  (∀ q, q ≠ b_port x → same_at q p p' ∧ removed' !! q = removed !! q) ∧
  (∀ e, removed' !! b_port x = Some e → removed !! b_port x = Some e ∨
     b_endpoint x = Some e ∧ ne !! b_port x ≠ Some e ∧ mirrorGroups p !! b_port x = None).
Proof.
  unfold retire_binding, retired_at, taken_down, leave.
  destruct (mirrorGroups p !! b_port x) as [g|] eqn:Hg.
  - destruct (bool_decide (g_members g !! client = Some x) && _) eqn:Hl; cbn;
      rewrite ?lookup_insert_eq, ?Hg; cbn; rewrite ?andb_false_r; cbn; rewrite ?Hl;
      split_and!; try done; try (by rewrite lookup_insert_eq); try (intros e He; by left);
      intros q Hq; unfold same_at; cbn; by rewrite ?lookup_insert_ne by done.
  - cbn. rewrite Hg. cbn. rewrite andb_true_r.
    destruct (bool_decide (ne !! b_port x = b_endpoint x)) eqn:Hn; cbn.
    { split_and!; try done. intros e He. by left. }
    apply bool_decide_eq_false in Hn.
    destruct (bool_decide (endpoints p !! b_port x = b_endpoint x)) eqn:He; cbn.
    + split_and!; try done; try by rewrite lookup_delete_eq.
      * intros q Hq. unfold same_at. cbn. rewrite !lookup_delete_ne by done. split; [done|].
        destruct (b_endpoint x); [by rewrite lookup_insert_ne|done].
      * destruct (b_endpoint x) as [e0|]; [|intros e ?; by left]. rewrite lookup_insert_eq. intros e [= ->]. right. done.
    + split_and!; try done.
      * intros q Hq. split; [done|]. destruct (b_endpoint x); [by rewrite lookup_insert_ne|done].
      * destruct (b_endpoint x) as [e0|]; [|intros e ?; by left]. rewrite lookup_insert_eq. intros e [= ->]. right. done.
Qed.

Lemma retired_at_same client next ne x p0 p p' :
  same_at (b_port x) p p0 → retired_at client next ne x p0 p' → retired_at client next ne x p p'.
Proof. intros (He & Hb & Hg). unfold retired_at, taken_down. by rewrite He, Hb, Hg. Qed.

Lemma retire_fold_spec client next ne l : ∀ p removed p' removed',
  foldl (retire_binding client next ne) (p, removed) l = (p', removed') →
  NoDup (b_port <$> l) →
  proxies p' = proxies p ∧ managedPorts p' = managedPorts p ∧
  (∀ x, x ∈ l → retired_at client next ne x p p') ∧
  (∀ q, q ∉ b_port <$> l → same_at q p p') ∧
  (∀ q e, removed' !! q = Some e → removed !! q = Some e ∨
     ∃ x, x ∈ l ∧ b_port x = q ∧ b_endpoint x = Some e ∧ ne !! q ≠ Some e ∧ mirrorGroups p !! q = None).
Proof.
  induction l as [|x l IH]; intros p removed p' removed'; cbn [foldl].
  { intros [= <- <-] _. split_and!; try done; [by intros b ?%elem_of_nil|intros q e ?; by left]. }
  intros E (Hx & Hnd)%NoDup_cons. pose proof (retire_binding_spec client next ne p removed x) as Hone.
  destruct (retire_binding client next ne (p, removed) x) as [p1 removed1].
  destruct Hone as (Ep & Em & Hat & Hoff & Hrem).
  destruct (IH _ _ _ _ E Hnd) as (Ep' & Em' & Hin & Hout & Hrem'). split_and!; [congruence|congruence| | |].
  - intros y [->|Hy]%elem_of_cons.
    + destruct (Hout _ Hx) as (He & Hb & Hg). unfold retired_at in *. by rewrite He, Hb, Hg.
    + assert (Hne : b_port y ≠ b_port x) by (intros Eq; apply Hx; rewrite <- Eq; by apply list_elem_of_fmap_2).
      destruct (Hoff _ Hne) as (Hs & _). eapply retired_at_same; [done|]. by apply Hin.
  - intros q. rewrite fmap_cons, not_elem_of_cons. intros [Hne Hq].
    destruct (Hoff _ Hne) as ((? & ? & ?) & _), (Hout _ Hq) as (? & ? & ?).
    unfold same_at in *. split_and!; congruence.
  - intros q e Hq. destruct (Hrem' _ _ Hq) as [Hr|(y & Hy & Hpy & Hey & Hne & Hg)].
    + destruct (decide (q = b_port x)) as [->|Hqx].
      * destruct (Hrem _ Hr) as [?|(? & ? & ?)]; [by left|right]. exists x. split_and!; try done. left.
      * left. by rewrite <- (proj2 (Hoff _ Hqx)).
    + right. exists y. split_and!; try done; [by right|].
      assert (Hqx : q ≠ b_port x) by (intros ->; apply Hx; rewrite <- Hpy; by apply list_elem_of_fmap_2).
      destruct (Hoff _ Hqx) as ((_ & _ & Hgs) & _). by rewrite <- Hgs.
Qed.

(** ** Publication keeps the invariant *)

Definition expel (client : string) (g : mirrorGroup) : mirrorGroup :=
  g <| g_members := delete client (g_members g) |>.

Lemma expel_absent client g : g_members g !! client = None → expel client g = g.
Proof. intros Hn. unfold expel. cbn. rewrite delete_id by done. by destruct g. Qed.

(** What the preparation and the second check of ownership leave: the bindings
    to publish, on ports that are free or the client's own, and the bindings
    the client had when it prepared. *)
Record publishable (client : string) (modes : gmap string string) (existing next : gmap string binding)
    (p : Plane) : Prop := {
  pb_next n b : next !! n = Some b → b_name b = n ∧ b_clientID b = client ∧
    ∃ e, b_endpoint b = Some e ∧ ep_port e = b_port b;
  pb_ports n b n' b' : next !! n = Some b → next !! n' = Some b' → b_port b = b_port b' → b = b';
  pb_endpoint n b : next !! n = Some b →
    endpoints p !! b_port b = None ∨ endpoints p !! b_port b = b_endpoint b;
  pb_group n b : next !! n = Some b →
    mirrorGroups p !! b_port b = None ∨ is_Some (mirrorGroupLocked client modes (b_port b) p);
  pb_binding n b b0 : next !! n = Some b → endpointBindings p !! b_port b = Some b0 → b_clientID b0 = client;
  pb_existing n x : existing !! n = Some x → b_name x = n ∧ b_clientID x = client ∧ is_Some (b_endpoint x) ∧
    (owned p x ∨ ∀ b, endpointBindings p !! b_port x = Some b → b_endpoint b ≠ b_endpoint x);
  pb_existing_ports n x n' x' : existing !! n = Some x → existing !! n' = Some x' → b_port x = b_port x' → x = x';
  pb_current : client_proxies client p ⊆ existing
}.

Lemma range_value_NoDup {A} (f : binding → A) (ρ : go_range string binding) m :
  (∀ n b n' b', m !! n = Some b → m !! n' = Some b' → f b = f b' → b = b') →
  (∀ n b, m !! n = Some b → b_name b = n) → NoDup (f <$> (ρ m).*2).
Proof.
  intros Hf Hname. apply NoDup_fmap_2_strong.
  - intros b b' ([n c] & -> & Hn%range_elem)%list_elem_of_fmap ([n' c'] & -> & Hn'%range_elem)%list_elem_of_fmap.
    cbn. by apply (Hf n c n' c').
  - apply NoDup_fmap_2_strong; [|by apply NoDup_fmap_1 with fst, range_NoDup].
    intros [n b] [n' b'] Hn%range_elem Hn'%range_elem. cbn. intros ->.
    by rewrite <- (Hname _ _ Hn), <- (Hname _ _ Hn').
Qed.

Lemma range_value (ρ : go_range string binding) m b : b ∈ (ρ m).*2 ↔ ∃ n, m !! n = Some b.
Proof.
  rewrite list_elem_of_fmap. split.
  - intros ([n b'] & -> & Hn%range_elem). by exists n.
  - intros [n Hn]. exists (n, b). by rewrite range_elem.
Qed.

Section publish.
Context (ρ : go_range string binding) (client : string) (modes : gmap string string).
Context (existing next : gmap string binding) (p : Plane).
Context (Hp : plane_ok p) (Hpub : publishable client modes existing next p).

(** The second loop at a port that has just been published: nothing. *)
Lemma retire_published ne n b x p1 p2 :
  next !! n = Some b → b_port x = b_port b → endpoints p1 !! b_port b = b_endpoint b →
  ne !! b_port b = b_endpoint b →
  (∀ g, mirrorGroups p1 !! b_port b = Some g → g_members g !! client = Some b) →
  retired_at client next ne x p1 p2 → same_at (b_port b) p1 p2.
Proof using Hpub.
  intros Hb Hx He Hne Hg (Hg2 & He2 & Hb2). rewrite Hx in *.
  assert (Ht : taken_down ne x p1 = false).
  { unfold taken_down. rewrite Hx, Hne, He. destruct (bool_decide (b_endpoint b = b_endpoint x)) eqn:Eb; cbn.
    - done.
    - by rewrite andb_false_r. }
  rewrite Ht in *. split_and!; [done|done|]. rewrite Hg2.
  destruct (mirrorGroups p1 !! b_port b) as [g|] eqn:Eg; [|done]. cbn. f_equal. unfold leave.
  rewrite (Hg g eq_refl). destruct (bool_decide (Some b = Some x)) eqn:Ebx; [|done].
  apply bool_decide_eq_true in Ebx. injection Ebx as <-.
  destruct (pb_next _ _ _ _ _ Hpub _ _ Hb) as (<- & _). by rewrite bool_decide_eq_true_2.
Qed.

(** The member a client has in the group of a port is among its old bindings. *)
Lemma member_existing q g m :
  mirrorGroups p !! q = Some g → g_members g !! client = Some m →
  existing !! b_name m = Some m ∧ b_port m = q.
Proof using Hp Hpub.
  intros Hg Hm. destruct (po_member _ Hp _ _ _ _ Hg Hm) as (Hc & Hq & _ & _ & Ho). split; [|done].
  eapply lookup_weaken; [|apply (pb_current _ _ _ _ _ Hpub)]. unfold owned in Ho. by rewrite Hc in Ho.
Qed.

Lemma route_existing q b :
  endpointBindings p !! q = Some b → b_clientID b = client → existing !! b_name b = Some b ∧ b_port b = q.
Proof using Hp Hpub.
  intros Hb Hc. destruct (po_route _ Hp _ _ Hb) as (_ & Hq & _ & _ & Ho). split; [|done].
  eapply lookup_weaken; [|apply (pb_current _ _ _ _ _ Hpub)]. unfold owned in Ho. by rewrite Hc in Ho.
Qed.

(** The second loop at a port that is not published: the client leaves. *)
Definition left_at (q : Z) (p' : Plane) : Prop :=
  mirrorGroups p' !! q = expel client <$> mirrorGroups p !! q ∧
  match endpointBindings p !! q with
  | Some b0 => if decide (b_clientID b0 = client) then endpoints p' !! q = None ∧ endpointBindings p' !! q = None
               else endpoints p' !! q = endpoints p !! q ∧ endpointBindings p' !! q = Some b0
  | None => endpoints p' !! q = endpoints p !! q ∧ endpointBindings p' !! q = None
  end.

Lemma left_untouched q p' :
  (∀ n x, existing !! n = Some x → b_port x ≠ q) → same_at q p p' → left_at q p'.
Proof using Hp Hpub.
  intros Hno (He & Hb & Hg). unfold left_at. rewrite He, Hb, Hg. split.
  - destruct (mirrorGroups p !! q) as [g|] eqn:Eg; [|done]. cbn. f_equal. symmetry. apply expel_absent.
    destruct (g_members g !! client) as [m|] eqn:Em; [|done].
    destruct (member_existing _ _ _ Eg Em) as [Hx Hq]. by destruct (Hno _ _ Hx).
  - destruct (endpointBindings p !! q) as [b0|] eqn:Eb; [|done]. case_decide as Hc; [|done].
    destruct (route_existing _ _ Eb Hc) as [Hx Hq]. by destruct (Hno _ _ Hx).
Qed.

Lemma left_retired ne n x p1 p' :
  existing !! n = Some x → (∀ m b, next !! m = Some b → b_port b ≠ b_port x) →
  same_at (b_port x) p p1 → ne !! b_port x = None → retired_at client next ne x p1 p' → left_at (b_port x) p'.
Proof using Hp Hpub.
  intros Hx Hno (He1 & Hb1 & Hg1) Hne (Hg2 & He2 & Hb2).
  destruct (pb_existing _ _ _ _ _ Hpub _ _ Hx) as (Hname & Hcl & [e Hse] & Hstale).
  unfold left_at. rewrite Hg2, He2, Hb2. clear Hg2 He2 Hb2. unfold taken_down.
  rewrite Hne, He1, Hb1, Hg1, Hse, (bool_decide_eq_false_2 (None = Some e)) by done. cbn [negb andb].
  destruct (mirrorGroups p !! b_port x) as [g|] eqn:Eg; cbn [is_some negb andb].
  - split.
    + cbn. f_equal. unfold leave. destruct (bool_decide (g_members g !! client = Some x)) eqn:Em; bool_to_prop.
      * rewrite bool_decide_eq_false_2; [done|]. intros Hn. by apply (Hno _ _ Hn).
      * cbn. symmetry. apply expel_absent. destruct (g_members g !! client) as [m|] eqn:Em'; [|done].
        destruct (member_existing _ _ _ Eg Em') as [Hm Hq].
        by rewrite (pb_existing_ports _ _ _ _ _ Hpub _ _ _ _ Hm Hx Hq) in Em.
    + destruct (endpointBindings p !! b_port x) as [b0|] eqn:Eb; [|done].
      destruct (po_route _ Hp _ _ Eb) as (? & _). congruence.
  - split; [done|]. destruct (endpointBindings p !! b_port x) as [b0|] eqn:Eb.
    + destruct (po_route _ Hp _ _ Eb) as (_ & _ & _ & Hep & _).
      destruct (decide (b_clientID b0 = client)) as [Hc|Hc].
      * destruct (route_existing _ _ Eb Hc) as [Hx0 Hq].
        rewrite (pb_existing_ports _ _ _ _ _ Hpub _ _ _ _ Hx0 Hx Hq) in *.
        by rewrite bool_decide_eq_true_2 by congruence.
      * rewrite bool_decide_eq_false_2; [done|]. rewrite Hep. intros Heq.
        destruct Hstale as [Ho|Hs]; [|apply (Hs _ eq_refl); congruence].
        destruct (po_owned _ Hp _ _ _ Ho) as (_ & _ & [Hr|(g & Hg & _)]); congruence.
    + destruct (endpoints p !! b_port x) as [e'|] eqn:Ee; [|by case_bool_decide].
      destruct (po_endpoint _ Hp _ _ Ee) as (_ & [[? ?]|[? ?]]); congruence.
Qed.

Lemma publish_outcome p' removed :
  publishPlane ρ client modes existing next p = (p', removed) →
  proxies p' = <[client := next]> (proxies p) ∧ managedPorts p' = managedPorts p ∧
  (∀ n b, next !! n = Some b → endpoints p' !! b_port b = b_endpoint b ∧
     match mirrorGroupLocked client modes (b_port b) p with
     | Some g => endpointBindings p' !! b_port b = None ∧ mirrorGroups p' !! b_port b = Some (join client b g)
     | None => endpointBindings p' !! b_port b = Some b ∧ mirrorGroups p' !! b_port b = None
     end) ∧
  (∀ q, (∀ n b, next !! n = Some b → b_port b ≠ q) → left_at q p') ∧
  (∀ q e, removed !! q = Some e → endpoints p' !! q ≠ Some e ∧
     ∃ n x, existing !! n = Some x ∧ b_port x = q ∧ b_endpoint x = Some e).
Proof using Hp Hpub.
  unfold publishPlane.
  destruct (foldl (publish_binding client modes) _ _) as [p1 ne] eqn:E1.
  destruct (foldl (retire_binding client next ne) _ _) as [p2 removed2] eqn:E2.
  intros [= <- <-].
  assert (Hnd1 : NoDup (b_port <$> (ρ next).*2)).
  { apply range_value_NoDup; [apply (pb_ports _ _ _ _ _ Hpub)|]. intros n b Hb. by apply (pb_next _ _ _ _ _ Hpub). }
  assert (Hnd2 : NoDup (b_port <$> (ρ existing).*2)).
  { apply range_value_NoDup; [apply (pb_existing_ports _ _ _ _ _ Hpub)|].
    intros n b Hb. by apply (pb_existing _ _ _ _ _ Hpub). }
  assert (Hse : Forall (λ b, is_Some (b_endpoint b)) (ρ next).*2).
  { apply Forall_forall. intros b [n Hb]%range_value.
    destruct (pb_next _ _ _ _ _ Hpub _ _ Hb) as (_ & _ & e & -> & _). by eexists. }
  destruct (publish_fold_spec _ _ _ _ _ _ _ E1 Hnd1 Hse) as (Ep1 & Em1 & Hin1 & Hout1).
  destruct (retire_fold_spec _ _ _ _ _ _ _ _ E2 Hnd2) as (Ep2 & Em2 & Hin2 & Hout2 & Hrem).
  cbn [proxies managedPorts upd]. split_and!; [congruence|congruence| | |].
  - intros n b Hb. destruct (Hin1 b) as (He & Hne & Hm); [apply range_value; by eexists|].
    assert (Hs : same_at (b_port b) p1 p2).
    { destruct (decide (b_port b ∈ b_port <$> (ρ existing).*2)) as [(x & Hq & Hx)%list_elem_of_fmap|Hq]; [|by apply Hout2].
      eapply retire_published; [done|symmetry; exact Hq|done|done| |by apply Hin2].
      destruct (mirrorGroupLocked _ _ _ _) as [g0|] eqn:Hl; destruct Hm as [_ ->].
      - intros g [= <-]. cbn. by rewrite lookup_insert_eq.
      - destruct (pb_group _ _ _ _ _ Hpub _ _ Hb) as [->|[? ?]]; congruence. }
    cbn [endpoints endpointBindings mirrorGroups upd].
    destruct Hs as (-> & -> & ->). split; [done|].
    destruct (mirrorGroupLocked _ _ _ _) as [g0|] eqn:Hl; [done|]. destruct Hm as [-> ->]. split; [done|].
    destruct (pb_group _ _ _ _ _ Hpub _ _ Hb) as [->|[? ?]]; congruence.
  - intros q Hno.
    assert (Hq : q ∉ b_port <$> (ρ next).*2).
    { intros (b & -> & [n Hb]%range_value)%list_elem_of_fmap. by apply (Hno _ _ Hb). }
    destruct (Hout1 _ Hq) as [Hs1 Hne].
    destruct (decide (q ∈ b_port <$> (ρ existing).*2)) as [(x & -> & Hx)%list_elem_of_fmap|Hqx].
    + pose proof (Hin2 _ Hx) as Hr. apply range_value in Hx as [n Hx].
      by eapply left_retired.
    + apply left_untouched.
      * intros n x Hx Hpx. apply Hqx, list_elem_of_fmap. exists x. split; [done|]. apply range_value. by eexists.
      * destruct Hs1 as (? & ? & ?), (Hout2 _ Hqx) as (? & ? & ?). unfold same_at.
        cbn [endpoints endpointBindings mirrorGroups upd]. split_and!; congruence.
  - intros q e Hq. destruct (Hrem _ _ Hq) as [?|(x & Hx & <- & He & Hne & Hg)]; [done|].
    destruct (Hin2 _ Hx) as (_ & He2 & _). apply range_value in Hx as [n Hx]. split; [|by exists n, x].
    cbn. rewrite He2. unfold taken_down. rewrite He, Hg. rewrite bool_decide_eq_false_2 by done. cbn.
    by case_bool_decide.
Qed.

Lemma next_at q :
  (∃ n b, next !! n = Some b ∧ b_port b = q) ∨ (∀ n b, next !! n = Some b → b_port b ≠ q).
Proof using Type.
  destruct (decide (q ∈ b_port <$> (map_to_list next).*2)) as [Hq|Hq].
  - left. apply list_elem_of_fmap in Hq as (b & -> & ([n b'] & -> & Hb)%list_elem_of_fmap).
    apply elem_of_map_to_list in Hb. by exists n, b'.
  - right. intros n b Hb Hpb. apply Hq, list_elem_of_fmap. exists b. split; [done|].
    apply list_elem_of_fmap. exists (n, b). by rewrite elem_of_map_to_list.
Qed.

Lemma mirrorGroupLocked_some q g : mirrorGroupLocked client modes q p = Some g → mirrorGroups p !! q = Some g.
Proof using Type. unfold mirrorGroupLocked. destruct (mirrorGroups p !! q); [|done]. by destruct (allows _ _ _). Qed.

Context (p' : Plane) (removed : gmap Z Endpoint) (E : publishPlane ρ client modes existing next p = (p', removed)).

Lemma publish_owned b :
  owned p' b ↔ if decide (b_clientID b = client) then next !! b_name b = Some b else owned p b.
Proof using E Hp Hpub.
  destruct (publish_outcome _ _ E) as (Epr & _). unfold owned, client_proxies. rewrite Epr, lookup_insert.
  case_decide as Hc; [rewrite decide_True by done|rewrite decide_False by congruence]; done.
Qed.

Lemma publish_next_owned n b : next !! n = Some b → owned p' b.
Proof using E Hp Hpub.
  intros Hb. destruct (pb_next _ _ _ _ _ Hpub _ _ Hb) as (Hn & Hc & _).
  apply publish_owned. rewrite decide_True by done. by rewrite Hn.
Qed.

Lemma publish_next_routed n b : next !! n = Some b → routed p' b.
Proof using E Hp Hpub.
  intros Hb. destruct (publish_outcome _ _ E) as (_ & _ & Hnb & _). destruct (Hnb _ _ Hb) as [_ Hm].
  destruct (pb_next _ _ _ _ _ Hpub _ _ Hb) as (_ & Hc & _).
  destruct (mirrorGroupLocked _ _ _ _) as [g|]; destruct Hm as [Hr Hg]; [|by left].
  right. exists (join client b g). rewrite Hc. split; [done|]. unfold join. cbn. by rewrite lookup_insert_eq.
Qed.

(** The bindings of other clients stay where they are. *)
Lemma publish_others_routed b : b_clientID b ≠ client → routed p b → routed p' b.
Proof using E Hp Hpub.
  intros Hc Hr. destruct (publish_outcome _ _ E) as (_ & _ & Hnb & Hoff & _).
  destruct (next_at (b_port b)) as [(n & b1 & Hb1 & Hq)|Hno].
  - destruct Hr as [Hr|(g & Hg & Hm)].
    + rewrite <- Hq in Hr. by destruct (Hc (pb_binding _ _ _ _ _ Hpub _ _ _ Hb1 Hr)).
    + right. destruct (Hnb _ _ Hb1) as [_ Hmm].
      destruct (pb_group _ _ _ _ _ Hpub _ _ Hb1) as [Hnone|[g0 Hl]]; [congruence|].
      rewrite Hl in Hmm. apply mirrorGroupLocked_some in Hl. exists (join client b1 g0).
      rewrite <- Hq. split; [apply Hmm|]. unfold join. cbn. rewrite lookup_insert_ne by done.
      assert (g0 = g) as -> by congruence. by destruct (bool_decide _).
  - destruct (Hoff _ Hno) as [Hg' Hrest]. destruct Hr as [Hr|(g & Hg & Hm)].
    + left. rewrite Hr, decide_False in Hrest by done. apply Hrest.
    + right. exists (expel client g). rewrite Hg', Hg. split; [done|]. unfold expel. cbn.
      by rewrite lookup_delete_ne.
Qed.

Lemma join_endpoint n b g :
  next !! n = Some b → mirrorGroupLocked client modes (b_port b) p = Some g → g_endpoint (join client b g) = b_endpoint b.
Proof using Hp Hpub.
  intros Hb Hl%mirrorGroupLocked_some. pose proof (po_group _ Hp _ _ Hl) as He. unfold join.
  destruct (bool_decide (g_endpoint g = None)) eqn:En; cbn; [done|]. bool_to_prop.
  destruct (pb_endpoint _ _ _ _ _ Hpub _ _ Hb) as [?|?]; congruence.
Qed.

Lemma publish_plane_ok : plane_ok p'.
Proof using E Hp Hpub.
  destruct (publish_outcome _ _ E) as (Epr & _ & Hnb & Hoff & _). constructor.
  - intros q b Hb. destruct (next_at q) as [(n & b1 & Hb1 & <-)|Hno].
    + destruct (Hnb _ _ Hb1) as [He Hm]. destruct (mirrorGroupLocked _ _ _ _); destruct Hm as [Hr Hg]; [congruence|].
      assert (b = b1) as -> by congruence. destruct (pb_next _ _ _ _ _ Hpub _ _ Hb1) as (_ & _ & e & Hse & _).
      split_and!; try done; try (by eexists). by eapply publish_next_owned.
    + destruct (Hoff _ Hno) as [Hg Hrest]. destruct (endpointBindings p !! q) as [b0|] eqn:Eb; [|destruct Hrest; congruence].
      destruct (decide (b_clientID b0 = client)) as [|Hc]; [destruct Hrest; congruence|]. destruct Hrest as [He Hr].
      assert (b = b0) as -> by congruence. destruct (po_route _ Hp _ _ Eb) as (Hgn & ? & ? & ? & Ho).
      rewrite Hg, Hgn, He. split_and!; try done. apply publish_owned. by rewrite decide_False.
  - intros q g Hg. destruct (next_at q) as [(n & b1 & Hb1 & <-)|Hno].
    + destruct (Hnb _ _ Hb1) as [He Hm]. destruct (mirrorGroupLocked _ _ _ _) as [g0|] eqn:Hl; destruct Hm as [_ Hg1]; [|congruence].
      assert (g = join client b1 g0) as -> by congruence. rewrite He. symmetry. by eapply join_endpoint.
    + destruct (Hoff _ Hno) as [Hg' Hrest]. rewrite Hg in Hg'. destruct (mirrorGroups p !! q) as [g0|] eqn:Eg; [|done].
      injection Hg' as ->. rewrite <- (po_group _ Hp _ _ Eg : _ = g_endpoint (expel client g0)).
      destruct (endpointBindings p !! q) as [b0|] eqn:Eb; [|apply Hrest].
      destruct (po_route _ Hp _ _ Eb) as (? & _). congruence.
  - intros q g c b Hg Hb. destruct (next_at q) as [(n & b1 & Hb1 & <-)|Hno].
    + destruct (Hnb _ _ Hb1) as [He Hm]. destruct (mirrorGroupLocked _ _ _ _) as [g0|] eqn:Hl; destruct Hm as [_ Hg1]; [|congruence].
      assert (g = join client b1 g0) as -> by congruence. rewrite (join_endpoint _ _ _ Hb1 Hl).
      assert (Hmem : g_members (join client b1 g0) = <[client := b1]> (g_members g0)) by (unfold join; by destruct (bool_decide _)).
      rewrite Hmem, lookup_insert in Hb. case_decide as Ec.
      * injection Hb as <-. destruct (pb_next _ _ _ _ _ Hpub _ _ Hb1) as (_ & Hc & e & Hse & _).
        split_and!; try done; try congruence; try (by eexists). by eapply publish_next_owned.
      * apply mirrorGroupLocked_some in Hl. destruct (po_member _ Hp _ _ _ _ Hl Hb) as (Hc & ? & Hs & Hge & Ho).
        split_and!; try done.
        -- rewrite <- Hge, <- (po_group _ Hp _ _ Hl). destruct (pb_endpoint _ _ _ _ _ Hpub _ _ Hb1) as [Hn|Hn]; [|by rewrite Hn].
           rewrite (po_group _ Hp _ _ Hl), Hge in Hn. rewrite Hn in Hs. by destruct Hs.
        -- apply publish_owned. rewrite decide_False by congruence. done.
    + destruct (Hoff _ Hno) as [Hg' _]. rewrite Hg in Hg'. destruct (mirrorGroups p !! q) as [g0|] eqn:Eg; [|done].
      injection Hg' as ->. unfold expel in Hb. cbn in Hb. apply lookup_delete_Some in Hb as [Hc Hb].
      destruct (po_member _ Hp _ _ _ _ Eg Hb) as (? & ? & ? & ? & ?). split_and!; try done.
      apply publish_owned. rewrite decide_False by congruence. done.
  - intros q e He. destruct (next_at q) as [(n & b1 & Hb1 & <-)|Hno].
    + destruct (Hnb _ _ Hb1) as [He1 Hm]. destruct (pb_next _ _ _ _ _ Hpub _ _ Hb1) as (_ & _ & e1 & Hse & Hpo).
      split; [congruence|]. destruct (mirrorGroupLocked _ _ _ _); destruct Hm as [-> ->]; [left|right]; by eexists.
    + destruct (Hoff _ Hno) as [Hg Hrest]. destruct (endpointBindings p !! q) as [b0|] eqn:Eb.
      * destruct (decide _); destruct Hrest as [He' Hr]; [congruence|]. rewrite He' in He. rewrite Hr.
        destruct (po_endpoint _ Hp _ _ He) as [? _]. split; [done|]. right. by eexists.
      * destruct Hrest as [He' Hr]. rewrite He' in He. destruct (po_endpoint _ Hp _ _ He) as [? [[g Hgg]|[? ?]]]; [|congruence].
        split; [done|]. left. rewrite Hg, Hgg. by eexists.
  - intros c n b Hb. unfold client_proxies in Hb. rewrite Epr, lookup_insert in Hb. case_decide as Ec.
    + subst c. cbn in Hb. destruct (pb_next _ _ _ _ _ Hpub _ _ Hb) as (? & ? & _). split_and!; try done.
      by eapply publish_next_routed.
    + destruct (po_owned _ Hp _ _ _ Hb) as (? & Hc & Hr). split_and!; try done.
      apply publish_others_routed; [congruence|done].
Qed.
End publish.

(** ** Removal, port by port *)

Definition vacate (g : mirrorGroup) : mirrorGroup :=
  if bool_decide (g_members g = ∅) then g <| g_endpoint := None |> else g.

(** How an owned binding is reached. *)
Definition reached (client : string) (p : Plane) (b : binding) : Prop :=
  is_Some (b_endpoint b) ∧
  (endpointBindings p !! b_port b = Some b ∧ mirrorGroups p !! b_port b = None ∧ endpoints p !! b_port b = b_endpoint b ∨
   ∃ g, mirrorGroups p !! b_port b = Some g ∧ g_members g !! client = Some b ∧ g_endpoint g = b_endpoint b ∧
        endpoints p !! b_port b = b_endpoint b ∧ endpointBindings p !! b_port b = None).

Definition detached_at (client : string) (b : binding) (p p' : Plane) : Prop :=
  endpointBindings p' !! b_port b = None ∧
  match mirrorGroups p !! b_port b with
  | None => mirrorGroups p' !! b_port b = None ∧ endpoints p' !! b_port b = None
  | Some g => let g' := vacate (expel client g) in
              mirrorGroups p' !! b_port b = Some g' ∧ endpoints p' !! b_port b = g_endpoint g'
  end.

Lemma reached_same client p p' b : same_at (b_port b) p p' → reached client p b → reached client p' b.
Proof. intros (He & Hb & Hg). unfold reached. by rewrite He, Hb, Hg. Qed.

Lemma detached_at_same client b p0 p p' :
  same_at (b_port b) p p0 → detached_at client b p0 p' → detached_at client b p p'.
Proof. intros (He & Hb & Hg). unfold detached_at. by rewrite Hg. Qed.

Lemma detach_binding_spec client p closing sessions b :
  reached client p b →
  let '(p', closing', sessions') := detach_binding client (p, closing, sessions) b in
  proxies p' = proxies p ∧ managedPorts p' = managedPorts p ∧ detached_at client b p p' ∧
  (∀ q, q ≠ b_port b → same_at q p p' ∧ closing' !! q = closing !! q) ∧
  (∀ e, closing' !! b_port b = Some e → closing !! b_port b = Some e ∨
     b_endpoint b = Some e ∧ endpoints p' !! b_port b = None).
Proof.
  intros [[e Hse] [(Hb & Hg & He)|(g & Hg & Hm & Hge & He & Hb)]]; unfold detach_binding, detached_at; rewrite Hg.
  - rewrite He, Hse, bool_decide_eq_true_2 by done. cbn. rewrite !lookup_delete_eq. split_and!; try done.
    + intros q Hq. unfold same_at. cbn. by rewrite !lookup_delete_ne, lookup_insert_ne by done.
    + intros e0. rewrite lookup_insert_eq. intros [= ->]. by right.
  - rewrite bool_decide_eq_true_2 by done. unfold vacate, expel. cbn [g_members g_endpoint upd eta_mirrorGroup].
    destruct (bool_decide (delete client (g_members g) = ∅)) eqn:Ev; cbn [andb].
    + rewrite Hge, bool_decide_eq_true_2, Hse by done. cbn. rewrite lookup_insert_eq, lookup_delete_eq.
      split_and!; try done.
      * intros q Hq. unfold same_at. cbn. by rewrite !lookup_insert_ne, lookup_delete_ne by done.
      * intros e0. rewrite lookup_insert_eq. intros [= ->]. by right.
    + cbn. rewrite lookup_insert_eq. split_and!; try done.
      * congruence.
      * intros q Hq. unfold same_at. cbn. by rewrite lookup_insert_ne by done.
      * intros e0 ?. by left.
Qed.

Lemma detach_fold_spec client l : ∀ p closing sessions p' closing' sessions',
  foldl (detach_binding client) (p, closing, sessions) l = (p', closing', sessions') →
  NoDup (b_port <$> l) → Forall (reached client p) l →
  proxies p' = proxies p ∧ managedPorts p' = managedPorts p ∧
  (∀ b, b ∈ l → detached_at client b p p') ∧ (∀ q, q ∉ b_port <$> l → same_at q p p') ∧
  (∀ q e, closing' !! q = Some e → closing !! q = Some e ∨
     ∃ b, b ∈ l ∧ b_port b = q ∧ b_endpoint b = Some e ∧ endpoints p' !! q = None).
Proof.
  induction l as [|b l IH]; intros p closing sessions p' closing' sessions'; cbn [foldl].
  { intros [= <- <- <-] _ _. split_and!; try done; [by intros b ?%elem_of_nil|intros q e ?; by left]. }
  intros E (Hb & Hnd)%NoDup_cons [Hr Hall]%Forall_cons.
  pose proof (detach_binding_spec client p closing sessions b Hr) as Hone.
  destruct (detach_binding client (p, closing, sessions) b) as [[p1 closing1] sessions1].
  destruct Hone as (Ep & Em & Hat & Hoff & Hcl).
  assert (Hne : ∀ b', b' ∈ l → b_port b' ≠ b_port b).
  { intros b' Hb' Eq. apply Hb. rewrite <- Eq. by apply list_elem_of_fmap_2. }
  destruct (IH _ _ _ _ _ _ E Hnd) as (Ep' & Em' & Hin & Hout & Hcl').
  { apply Forall_forall. intros b' Hb'. eapply reached_same; [by apply Hoff, Hne|].
    by apply (proj1 (Forall_forall _ _) Hall). }
  split_and!; [congruence|congruence| | |].
  - intros b' [->|Hb']%elem_of_cons.
    + destruct (Hout _ Hb) as (He & Hbb & Hg). unfold detached_at in *. rewrite He, Hbb, Hg. done.
    + eapply detached_at_same; [by apply Hoff, Hne|by apply Hin].
  - intros q. rewrite fmap_cons, not_elem_of_cons. intros [Hqb Hq].
    destruct (Hoff _ Hqb) as ((? & ? & ?) & _), (Hout _ Hq) as (? & ? & ?).
    unfold same_at in *. split_and!; congruence.
  - intros q e Hq. destruct (Hcl' _ _ Hq) as [Hc|(b' & Hb' & ? & ? & ?)].
    + destruct (decide (q = b_port b)) as [->|Hqb]; [|left; by rewrite <- (proj2 (Hoff _ Hqb))].
      destruct (Hcl _ Hc) as [?|[? ?]]; [by left|right]. exists b. split_and!; try done; [left|].
      by rewrite (proj1 (Hout _ Hb)).
    + right. exists b'. split_and!; try done. by right.
Qed.

Section detach.
Context (ρ : go_range string binding) (client : string) (p : Plane) (Hp : plane_ok p).
Context (p' : Plane) (closing : gmap Z Endpoint) (sessions : gset nat).
Context (E : detachPlane ρ client p = (p', closing, sessions)).

Lemma owned_reached b : b_clientID b = client → owned p b → reached client p b.
Proof using Hp.
  intros Hc Hb. destruct (po_owned _ Hp _ _ _ Hb) as (_ & _ & [Hr|(g & Hg & Hm)]).
  - destruct (po_route _ Hp _ _ Hr) as (? & _ & ? & ? & _). split; [done|]. by left.
  - destruct (po_member _ Hp _ _ _ _ Hg Hm) as (_ & _ & ? & Hge & _). split; [done|]. right. exists g.
    rewrite Hc in Hm. split_and!; try done; [by rewrite (po_group _ Hp _ _ Hg)|].
    destruct (endpointBindings p !! b_port b) as [b0|] eqn:Eb; [|done].
    destruct (po_route _ Hp _ _ Eb) as (? & _). congruence.
Qed.

Lemma detach_outcome :
  proxies p' = delete client (proxies p) ∧ managedPorts p' = managedPorts p ∧
  (∀ n b, client_proxies client p !! n = Some b → detached_at client b p p') ∧
  (∀ q, (∀ n b, client_proxies client p !! n = Some b → b_port b ≠ q) → same_at q p p') ∧
  (∀ q e, closing !! q = Some e → endpoints p' !! q = None ∧ endpoints p !! q = Some e).
Proof using E Hp.
  unfold detachPlane in E. destruct (foldl _ _ _) as [[p1 c1] s1] eqn:E1. injection E as <- <- <-.
  assert (Hval : ∀ b, b ∈ (ρ (client_proxies client p)).*2 → b_clientID b = client ∧ owned p b).
  { intros b [n Hb]%range_value. split; [by apply (po_owned _ Hp _ _ _ Hb)|by eapply owned_client]. }
  destruct (detach_fold_spec _ _ _ _ _ _ _ _ E1) as (Ep & Em & Hin & Hout & Hcl).
  - apply range_value_NoDup.
    + intros n b n' b' Hb Hb'. destruct (po_owned _ Hp _ _ _ Hb) as (_ & ? & _), (po_owned _ Hp _ _ _ Hb') as (_ & ? & _).
      apply (owned_port_unique _ Hp); [by eapply owned_client..|congruence].
    + intros n b Hb. by apply (po_owned _ Hp _ _ _ Hb).
  - apply Forall_forall. intros b Hb. destruct (Hval _ Hb). by apply owned_reached.
  - cbn [proxies managedPorts upd]. split_and!; [congruence|done| | |].
    + intros n b Hb. apply Hin, range_value. by eexists.
    + intros q Hno. apply Hout. intros (b & -> & [n Hb]%range_value)%list_elem_of_fmap. by apply (Hno _ _ Hb).
    + intros q e Hq. destruct (Hcl _ _ Hq) as [?|(b & Hb & <- & He & ?)]; [done|]. split; [done|].
      destruct (Hval _ Hb) as [_ Ho]. destruct (owned_endpoint _ Hp _ Ho) as [_ ->]. done.
Qed.

Lemma client_at q :
  (∃ n b, client_proxies client p !! n = Some b ∧ b_port b = q) ∨
  (∀ n b, client_proxies client p !! n = Some b → b_port b ≠ q).
Proof using Type. apply next_at. Qed.

Lemma vacate_members g : g_members (vacate g) = g_members g.
Proof using Type. unfold vacate. by destruct (bool_decide _). Qed.

Lemma vacate_endpoint g c b : g_members g !! c = Some b → g_endpoint (vacate g) = g_endpoint g.
Proof using Type.
  intros Hb. unfold vacate. rewrite bool_decide_eq_false_2; [done|]. intros Hn. by rewrite Hn in Hb.
Qed.

Lemma detach_owned b : owned p' b ↔ b_clientID b ≠ client ∧ owned p b.
Proof using E Hp.
  destruct detach_outcome as (Epr & _). unfold owned, client_proxies. rewrite Epr, lookup_delete.
  case_decide as Hc; cbn; [split; [done|]; intros [? _]; congruence|]. split; [|by intros [_ ?]]. split; [congruence|done].
Qed.

Lemma detach_others_routed b : b_clientID b ≠ client → routed p b → routed p' b.
Proof using E Hp.
  intros Hc Hr. destruct detach_outcome as (_ & _ & Hin & Hout & _).
  destruct (client_at (b_port b)) as [(n & b1 & Hb1 & Hq)|Hno].
  - destruct (Hin _ _ Hb1) as [_ Hg1]. rewrite Hq in Hg1.
    destruct (po_owned _ Hp _ _ _ Hb1) as (_ & Hc1 & Hr1). unfold routed in Hr1. rewrite Hq in Hr1.
    destruct Hr as [Hr|(g & Hg & Hm)].
    + destruct Hr1 as [?|(g1 & ? & _)]; [congruence|]. destruct (po_route _ Hp _ _ Hr) as (? & _). congruence.
    + rewrite Hg in Hg1. right. exists (vacate (expel client g)). split; [apply Hg1|].
      rewrite vacate_members. unfold expel. cbn. by rewrite lookup_delete_ne.
  - destruct (Hout _ Hno) as (_ & Hb & Hg). unfold routed. by rewrite Hb, Hg.
Qed.

Lemma detach_plane_ok : plane_ok p'.
Proof using E Hp.
  destruct detach_outcome as (Epr & _ & Hin & Hout & _). constructor.
  - intros q b Hb. destruct (client_at q) as [(n & b1 & Hb1 & <-)|Hno].
    + destruct (Hin _ _ Hb1) as [? _]. congruence.
    + destruct (Hout _ Hno) as (He & Hbb & Hg). rewrite Hbb in Hb. destruct (po_route _ Hp _ _ Hb) as (? & Hq & ? & ? & Ho).
      rewrite Hg, He. split_and!; try done. apply detach_owned. split; [|done].
      intros Hc. unfold owned in Ho. rewrite Hc in Ho. by apply (Hno _ _ Ho).
  - intros q g Hg. destruct (client_at q) as [(n & b1 & Hb1 & <-)|Hno].
    + destruct (Hin _ _ Hb1) as [_ Hm]. destruct (mirrorGroups p !! b_port b1); destruct Hm; congruence.
    + destruct (Hout _ Hno) as (He & _ & Hgg). rewrite He. apply (po_group _ Hp). congruence.
  - intros q g c b Hg Hb. destruct (client_at q) as [(n & b1 & Hb1 & <-)|Hno].
    + destruct (Hin _ _ Hb1) as [_ Hm]. destruct (mirrorGroups p !! b_port b1) as [g0|] eqn:Eg; [|destruct Hm; congruence].
      destruct Hm as [Hg' _]. assert (g = vacate (expel client g0)) as -> by congruence.
      rewrite vacate_members in Hb. rewrite (vacate_endpoint _ _ _ Hb). unfold expel in Hb. cbn in Hb.
      apply lookup_delete_Some in Hb as [Hc Hb].
      destruct (po_member _ Hp _ _ _ _ Eg Hb) as (? & ? & ? & ? & ?). split_and!; try done.
      apply detach_owned. split; [congruence|done].
    + destruct (Hout _ Hno) as (_ & _ & Hgg). rewrite Hgg in Hg.
      destruct (po_member _ Hp _ _ _ _ Hg Hb) as (Hc & Hq & ? & ? & Ho). split_and!; try done.
      apply detach_owned. split; [|done]. intros Hcl. unfold owned in Ho. rewrite Hcl in Ho. by apply (Hno _ _ Ho).
  - intros q e He. destruct (client_at q) as [(n & b1 & Hb1 & <-)|Hno].
    + destruct (Hin _ _ Hb1) as [_ Hm]. destruct (mirrorGroups p !! b_port b1) as [g0|] eqn:Eg; [|destruct Hm; congruence].
      destruct Hm as [Hg' He']. rewrite Hg'. split; [|left; by eexists].
      apply (po_endpoint _ Hp). rewrite (po_group _ Hp _ _ Eg). rewrite He' in He. unfold vacate in He.
      by destruct (bool_decide _).
    + destruct (Hout _ Hno) as (He' & Hb & Hg). rewrite He' in He. rewrite Hb, Hg. by apply (po_endpoint _ Hp).
  - intros c n b Hb. unfold client_proxies in Hb. rewrite Epr, lookup_delete in Hb. case_decide; [done|].
    destruct (po_owned _ Hp _ _ _ Hb) as (? & Hc & Hr). split_and!; try done.
    apply detach_others_routed; [congruence|done].
Qed.
End detach.

(** ** Replacing the mirror groups, port by port *)

Definition settle (g : mirrorGroup) : mirrorGroup := if vacant g then g <| g_endpoint := None |> else g.

(** A candidate as [appendGroups] makes it. *)
Definition blank (candidates : gmap Z mirrorGroup) : Prop :=
  ∀ q g, candidates !! q = Some g → g_endpoint g = None ∧ g_members g = ∅ ∧ g_port g = q.

Lemma settle_members g : g_members (settle g) = g_members g.
Proof. unfold settle. by destruct (vacant g). Qed.

Lemma settle_endpoint g c b : g_members g !! c = Some b → g_endpoint (settle g) = g_endpoint g.
Proof.
  intros Hb. unfold settle, vacant. rewrite bool_decide_eq_false_2; [done|]. intros Hn. by rewrite Hn in Hb.
Qed.

Lemma drop_proxy_lookup table x c n :
  default ∅ (drop_proxy table x !! c) !! n =
  if decide (c = b_clientID x ∧ n = b_name x ∧ default ∅ (table !! c) !! n = Some x) then None
  else default ∅ (table !! c) !! n.
Proof.
  unfold drop_proxy. destruct (table !! b_clientID x) as [state|] eqn:Es.
  - destruct (bool_decide (state !! b_name x = Some x)) eqn:Eb; bool_to_prop.
    + rewrite lookup_insert. case_decide as Hc.
      * subst c. rewrite Es. cbn. rewrite lookup_delete. case_decide as Hn.
        -- subst n. by rewrite decide_True.
        -- rewrite decide_False; [done|]. intros (_ & ? & _). congruence.
      * rewrite decide_False; [done|]. intros (? & _). congruence.
    + rewrite decide_False; [done|]. intros (-> & -> & Hx). by rewrite Es in Hx.
  - rewrite decide_False; [done|]. intros (-> & _ & Hx). by rewrite Es in Hx.
Qed.

Lemma drop_fold_lookup l : ∀ table c n b,
  (∀ c n b, default (∅ : gmap string binding) (table !! c) !! n = Some b → b_clientID b = c ∧ b_name b = n) →
  default ∅ (foldl drop_proxy table l !! c) !! n = Some b ↔ default ∅ (table !! c) !! n = Some b ∧ b ∉ l.
Proof.
  induction l as [|x l IH]; intros table c n b Hk; cbn [foldl].
  { split; [|by intros [? _]]. intros Hb. split; [done|]. apply not_elem_of_nil. }
  rewrite IH.
  - rewrite drop_proxy_lookup, not_elem_of_cons. split.
    + case_decide as Hd; [by intros [? _]|]. intros [Hb Hl]. split_and!; try done. intros ->.
      apply Hd. by destruct (Hk _ _ _ Hb) as [-> ->].
    + intros (Hb & Hne & Hl). rewrite decide_False; [done|]. intros (_ & _ & ?). congruence.
  - intros c' n' b'. rewrite drop_proxy_lookup. case_decide; [done|]. apply Hk.
Qed.

Section configure.
Context (stable : bool) (modes : gmap string string) (ρg : go_range Z mirrorGroup) (ρ : go_range string binding).
Context (candidates : gmap Z mirrorGroup) (Hblank : blank candidates) (p : Plane) (Hp : plane_ok p).
Context (p' : Plane) (removed : gmap Z Endpoint) (dropped : list binding).
Context (E : configurePlane stable modes ρg ρ candidates p = Some (p', removed, dropped)).

(** What becomes of one candidate. *)
Definition installed_group (q : Z) : option mirrorGroup :=
  c ← candidates !! q; g ← inherit modes p q c; Some (settle (keep_owner stable p q g)).

Lemma configure_tables :
  (∀ q, mirrorGroups p' !! q = installed_group q) ∧
  (∀ q c, candidates !! q = Some c → is_Some (inherit modes p q c)) ∧
  proxies p' = foldl drop_proxy (proxies p) dropped ∧ managedPorts p' = managedPorts p ∧
  dropped = dropped_members ρg ρ (map_imap (λ q c, inherit modes p q c) candidates) p ∧
  (∀ q, endpointBindings p' !! q = match installed_group q ≫= g_endpoint with Some _ => None | None => endpointBindings p !! q end) ∧
  (∀ q, removed !! q = match c ← candidates !! q; inherit modes p q c with
                       | Some g => vacant_endpoint (keep_owner stable p q g)
                       | None => mirrorGroups p !! q ≫= g_endpoint
                       end) ∧
  (∀ q, endpoints p' !! q = match removed !! q with
                            | Some _ => None
                            | None => match installed_group q ≫= g_endpoint with Some e => Some e | None => endpoints p !! q end
                            end).
Proof using E.
  unfold configurePlane in E. destruct (bool_decide _) eqn:Hall; [|done]. apply bool_decide_eq_true in Hall.
  set (C := map_imap (λ q c, inherit modes p q c) candidates) in E.
  set (O := map_imap (λ q g, Some (keep_owner stable p q g)) C) in E.
  injection E as <- <- <-. cbn [mirrorGroups proxies managedPorts endpointBindings endpoints].
  assert (HC : ∀ q, C !! q = c ← candidates !! q; inherit modes p q c) by (intros q; apply map_lookup_imap).
  assert (HO : ∀ q, O !! q = g ← C !! q; Some (keep_owner stable p q g)) by (intros q; apply map_lookup_imap).
  assert (HI : ∀ q, ((λ g, if vacant g then g <| g_endpoint := None |> else g) <$> O) !! q = installed_group q).
  { intros q. rewrite lookup_fmap, HO, HC. unfold installed_group. destruct (candidates !! q) as [c|]; [|done]. cbn.
    by destruct (inherit modes p q c). }
  assert (HR : ∀ q, (map_imap (removed_endpoint O) (mirrorGroups p) ∪ omap vacant_endpoint O) !! q =
    match C !! q with Some g => vacant_endpoint (keep_owner stable p q g) | None => mirrorGroups p !! q ≫= g_endpoint end).
  { intros q. rewrite lookup_union, map_lookup_imap, lookup_omap, HO. unfold removed_endpoint.
    destruct (C !! q) as [g|] eqn:EC; cbn.
    - destruct (mirrorGroups p !! q) as [old|]; cbn; rewrite ?HO, ?EC; cbn; by destruct (vacant_endpoint _).
    - destruct (mirrorGroups p !! q) as [old|]; [|done]. cbn. rewrite HO, EC. cbn. by destruct (g_endpoint old). }
  assert (HQ : ∀ q, omap g_endpoint ((λ g, if vacant g then g <| g_endpoint := None |> else g) <$> O) !! q =
    installed_group q ≫= g_endpoint) by (intros q; by rewrite lookup_omap, HI).
  split_and!; try done.
  - intros q. destruct (installed_group q ≫= g_endpoint) as [e|] eqn:Ei.
    + apply map_lookup_filter_None. right. intros b _. cbn. rewrite HQ, Ei. done.
    + destruct (endpointBindings p !! q) as [b|] eqn:Eb.
      * apply map_lookup_filter_Some. split; [done|]. cbn. by rewrite HQ.
      * apply map_lookup_filter_None. by left.
  - intros q. by rewrite HR, HC.
  - intros q. rewrite lookup_difference. destruct ((_ ∪ omap vacant_endpoint O) !! q) as [e|]; [done|].
    rewrite lookup_union, HQ. by destruct (installed_group q ≫= g_endpoint), (endpoints p !! q).
Qed.

(** Where the members and the endpoint of an installed group come from. *)
Definition installed_from (q : Z) (g' : mirrorGroup) : Prop :=
  (∃ g0, mirrorGroups p !! q = Some g0 ∧ g_members g' ⊆ g_members g0 ∧
     (g_endpoint g' = g_endpoint g0 ∨ g_endpoint g' = None ∧ g_members g' = ∅)) ∨
  (mirrorGroups p !! q = None ∧ endpoints p !! q = None ∧ g_members g' = ∅ ∧ g_endpoint g' = None) ∨
  (∃ b e, mirrorGroups p !! q = None ∧ endpoints p !! q = Some e ∧ endpointBindings p !! q = Some b ∧
     g_members g' = {[b_clientID b := b]} ∧ g_endpoint g' = Some e).

Lemma keep_owner_members q g : g_members (keep_owner stable p q g) = g_members g.
Proof using Type. unfold keep_owner. destruct (mirrorGroups p !! q); [|done]. by destruct (_ && _). Qed.

Lemma keep_owner_endpoint q g :
  (∀ old, mirrorGroups p !! q = Some old → g_endpoint g = g_endpoint old) →
  g_endpoint (keep_owner stable p q g) = g_endpoint g.
Proof using Type.
  intros Hg. unfold keep_owner. destruct (mirrorGroups p !! q) as [old|] eqn:Eo; [|done].
  destruct (_ && _); [|done]. cbn. symmetry. by apply Hg.
Qed.

Lemma installed_origin q g' : installed_group q = Some g' → installed_from q g'.
Proof using Hblank.
  unfold installed_group, installed_from. destruct (candidates !! q) as [c|] eqn:Ec; [|done].
  destruct (Hblank _ _ Ec) as (He0 & Hm0 & _). cbn.
  destruct (inherit modes p q c) as [g|] eqn:Ei; [|done]. cbn. intros [= <-].
  rewrite settle_members, keep_owner_members. unfold inherit in Ei.
  destruct (mirrorGroups p !! q) as [g0|] eqn:Eg.
  - injection Ei as <-. left. exists g0. cbn [g_members upd eta_mirrorGroup]. split_and!; [done|apply map_filter_subseteq|].
    unfold settle, vacant. rewrite keep_owner_members. cbn [g_members upd eta_mirrorGroup].
    destruct (bool_decide (filter _ _ = ∅)) eqn:Ev; bool_to_prop.
    + destruct (is_some _) eqn:Es; cbn; [by right|]. left. etrans; [apply keep_owner_endpoint|done]. rewrite Eg. by intros old [= <-].
    + cbn. left. etrans; [apply keep_owner_endpoint|done]. rewrite Eg. by intros old [= <-].
  - right. unfold settle, vacant. rewrite keep_owner_members, keep_owner_endpoint by (intros; congruence).
    destruct (endpoints p !! q) as [e|] eqn:Ee.
    + destruct (endpointBindings p !! q) as [b|] eqn:Eb; [|done]. destruct (allows _ _ _); [|done].
      injection Ei as <-. right. exists b, e. cbn [g_members g_endpoint upd eta_mirrorGroup]. rewrite Hm0.
      rewrite bool_decide_eq_false_2 by apply insert_non_empty. cbn. rewrite keep_owner_endpoint by (intros; congruence).
      by split_and!.
    + injection Ei as <-. left. rewrite Hm0, He0, bool_decide_eq_true_2 by done. cbn.
      rewrite keep_owner_endpoint by (intros; congruence). done.
Qed.

Lemma configured_group q g' :
  installed_group q = Some g' → endpoints p' !! q = g_endpoint g' ∧ endpointBindings p' !! q = None.
Proof using E Hblank Hp.
  intros Hi. destruct configure_tables as (_ & _ & _ & _ & _ & Hb & Hr & He). rewrite He, Hb, Hi. cbn.
  assert (Hno : g_endpoint g' = None → endpoints p !! q = None ∨ is_Some (removed !! q)).
  { intros Hn. destruct (installed_origin _ _ Hi) as [(g0 & Hg0 & _ & [Heq|[_ Hem]])|[(_ & ? & _)|(b & e & _ & _ & _ & _ & Heq)]].
    - left. rewrite (po_group _ Hp _ _ Hg0). congruence.
    - rewrite (po_group _ Hp _ _ Hg0). rewrite Hr. unfold installed_group in Hi.
      destruct (candidates !! q) as [c|]; [|done]. cbn in *. destruct (inherit modes p q c) as [g|] eqn:Ei; [|done].
      injection Hi as <-. rewrite settle_members, keep_owner_members in Hem.
      unfold vacant_endpoint, vacant. rewrite keep_owner_members, Hem, bool_decide_eq_true_2 by done. cbn.
      assert (Hge : g_endpoint g = g_endpoint g0).
      { unfold inherit in Ei. rewrite Hg0 in Ei. by injection Ei as <-. }
      rewrite keep_owner_endpoint by (intros old Hold; congruence). rewrite Hge.
      destruct (g_endpoint g0); [right; by eexists|by left].
    - by left.
    - congruence. }
  split.
  - destruct (removed !! q) as [e|] eqn:Er.
    + rewrite Hr in Er. unfold installed_group in Hi. destruct (candidates !! q) as [c|]; [|done]. cbn in *.
      destruct (inherit modes p q c) as [g|]; [|done]. injection Hi as <-. unfold vacant_endpoint in Er. unfold settle.
      by destruct (vacant _).
    + destruct (g_endpoint g') as [e|]; [done|]. by destruct (Hno eq_refl) as [?|[? ?]].
  - destruct (g_endpoint g') as [e|] eqn:Eg; [done|]. destruct (endpointBindings p !! q) as [b|] eqn:Eb; [|done].
    destruct (po_route _ Hp _ _ Eb) as (Hn & _ & Hs & Hee & _).
    destruct (installed_origin _ _ Hi) as [(g0 & ? & _)|[(_ & Hnn & _)|(b0 & e & _ & _ & _ & _ & ?)]]; try congruence.
    rewrite Hee in Hnn. rewrite Hnn in Hs. by destruct Hs.
Qed.

Lemma configured_free q :
  installed_group q = None →
  endpointBindings p' !! q = endpointBindings p !! q ∧
  endpoints p' !! q = if is_some (mirrorGroups p !! q) then None else endpoints p !! q.
Proof using E Hp.
  intros Hi. destruct configure_tables as (_ & Hall & _ & _ & _ & Hb & Hr & He). rewrite He, Hb, Hi. cbn. split; [done|].
  assert (Hc : candidates !! q = None).
  { unfold installed_group in Hi. destruct (candidates !! q) as [c|] eqn:Ec; [|done]. destruct (Hall _ _ Ec) as [g Hg].
    cbn in Hi. by rewrite Hg in Hi. }
  rewrite Hr, Hc. cbn. destruct (mirrorGroups p !! q) as [g0|] eqn:Eg; cbn; [|done].
  rewrite (po_group _ Hp _ _ Eg). by destruct (g_endpoint g0).
Qed.

(** A dropped binding is a member of an old group that its candidate lost. *)
Lemma dropped_elem b :
  b ∈ dropped ↔ ∃ q g0 c, mirrorGroups p !! q = Some g0 ∧ g_members g0 !! c = Some b ∧
    ∀ g', installed_group q = Some g' → g_members g' !! c ≠ Some b.
Proof using E.
  destruct configure_tables as (_ & _ & _ & _ & -> & _). unfold dropped_members. rewrite list_elem_of_bind.
  assert (Hk : ∀ q c, keeps (map_imap (λ q c, inherit modes p q c) candidates) q c b = false ↔
    ∀ g', installed_group q = Some g' → g_members g' !! c ≠ Some b).
  { intros q c. unfold keeps, installed_group. rewrite map_lookup_imap. destruct (candidates !! q) as [cd|]; cbn; [|done].
    destruct (inherit modes p q cd) as [g|]; cbn; [|done]. rewrite bool_decide_eq_false. split.
    - intros Hn g' [= <-]. by rewrite settle_members, keep_owner_members.
    - intros Hn. specialize (Hn _ eq_refl). by rewrite settle_members, keep_owner_members in Hn. }
  split.
  - intros ([q g0] & Hb & Hg%range_elem). cbn in Hb.
    apply list_elem_of_fmap in Hb as ([c b'] & -> & [Hf Hc%range_elem]%list_elem_of_filter).
    exists q, g0, c. split_and!; try done. by apply Hk.
  - intros (q & g0 & c & Hg & Hc & Hn). exists (q, g0). rewrite range_elem. split; [|done].
    apply list_elem_of_fmap. exists (c, b). split; [done|]. apply list_elem_of_filter. rewrite range_elem. split; [|done].
    by apply Hk.
Qed.

Lemma configured_owned b : owned p' b ↔ owned p b ∧ b ∉ dropped.
Proof using E Hp.
  destruct configure_tables as (_ & _ & Epr & _). unfold owned, client_proxies. rewrite Epr. apply drop_fold_lookup.
  intros c n b' Hb'. by destruct (po_owned _ Hp _ _ _ Hb') as (? & ? & _).
Qed.

(** A dropped binding was on a shared port. *)
Lemma dropped_shared b : b ∈ dropped → ∃ g0, mirrorGroups p !! b_port b = Some g0 ∧
  g_members g0 !! b_clientID b = Some b ∧
  ∀ g', installed_group (b_port b) = Some g' → g_members g' !! b_clientID b ≠ Some b.
Proof using E Hp.
  intros (q & g0 & c & Hg & Hm & Hn)%dropped_elem. destruct (po_member _ Hp _ _ _ _ Hg Hm) as (<- & <- & _).
  by exists g0.
Qed.

Lemma configured_routed b : owned p b → b ∉ dropped → routed p' b.
Proof using E Hblank Hp.
  intros Ho Hd. destruct configure_tables as (Hg' & _). destruct (po_owned _ Hp _ _ _ Ho) as (_ & _ & Hr).
  destruct (installed_group (b_port b)) as [g'|] eqn:Hi.
  - right. exists g'. rewrite Hg'. split; [done|]. destruct Hr as [Hr|(g0 & Hg0 & Hm)].
    + destruct (po_route _ Hp _ _ Hr) as (Hn & _ & Hs & He & _).
      destruct (installed_origin _ _ Hi) as [(g0 & ? & _)|[(_ & Hnn & _)|(b0 & e & _ & _ & Hb0 & Hmem & _)]]; [congruence| |].
      * rewrite He in Hnn. rewrite Hnn in Hs. by destruct Hs.
      * rewrite Hmem. assert (b0 = b) as -> by congruence. by rewrite lookup_singleton_eq.
    + destruct (decide (g_members g' !! b_clientID b = Some b)) as [|Hne]; [done|]. destruct Hd.
      apply dropped_elem. exists (b_port b), g0, (b_clientID b). split_and!; try done.
      intros g'' Hg''. by assert (g'' = g') as -> by congruence.
  - destruct (configured_free _ Hi) as [Hb _]. left. rewrite Hb. destruct Hr as [Hr|(g0 & Hg0 & Hm)]; [done|].
    destruct Hd. apply dropped_elem. exists (b_port b), g0, (b_clientID b). split_and!; try done.
    intros g' Hg''. congruence.
Qed.

Lemma configure_plane_ok : plane_ok p'.
Proof using E Hblank Hp.
  destruct configure_tables as (Hg' & _ & Epr & _). constructor.
  - intros q b Hb. rewrite Hg'. destruct (installed_group q) as [g'|] eqn:Hi.
    { destruct (configured_group _ _ Hi). congruence. }
    destruct (configured_free _ Hi) as [Hb' He]. rewrite Hb' in Hb.
    destruct (po_route _ Hp _ _ Hb) as (Hn & Hq & Hs & Hee & Ho). rewrite He, Hn. split_and!; try done.
    apply configured_owned. split; [done|]. intros (g0 & Hg0 & _)%dropped_shared. congruence.
  - intros q g Hg. rewrite Hg' in Hg. by destruct (configured_group _ _ Hg).
  - intros q g c b Hg Hb. rewrite Hg' in Hg.
    destruct (installed_origin _ _ Hg) as [(g0 & Hg0 & Hsub & Hor)|[(_ & _ & Hem & _)|(b0 & e & Hn & He & Hb0 & Hmem & Hge)]].
    + pose proof (lookup_weaken _ _ _ _ Hb Hsub) as Hm. destruct (po_member _ Hp _ _ _ _ Hg0 Hm) as (<- & <- & ? & ? & Ho).
      destruct Hor as [Hge|[_ Hem]]; [|by rewrite Hem in Hb]. split_and!; try done; [congruence|].
      apply configured_owned. split; [done|]. intros (g1 & _ & _ & Hnm)%dropped_shared. by apply (Hnm _ Hg).
    + by rewrite Hem in Hb.
    + rewrite Hmem in Hb. apply lookup_singleton_Some in Hb as [<- <-].
      destruct (po_route _ Hp _ _ Hb0) as (_ & Hq & ? & Hee & Ho). split_and!; try done; [congruence|].
      apply configured_owned. split; [done|]. intros (g1 & Hg1 & _)%dropped_shared. congruence.
  - intros q e He. rewrite Hg'. destruct (installed_group q) as [g'|] eqn:Hi.
    + destruct (configured_group _ _ Hi) as [He' _]. rewrite He' in He. split; [|left; by eexists].
      destruct (installed_origin _ _ Hi) as [(g0 & Hg0 & _ & [Hge|[? _]])|[(_ & _ & _ & ?)|(b0 & e0 & _ & Hee & _ & _ & Hge)]]; try congruence.
      * apply (po_endpoint _ Hp). rewrite (po_group _ Hp _ _ Hg0). congruence.
      * apply (po_endpoint _ Hp). congruence.
    + destruct (configured_free _ Hi) as [Hb' He']. rewrite He' in He. rewrite Hb'.
      destruct (mirrorGroups p !! q) eqn:Eg; [done|]. destruct (po_endpoint _ Hp _ _ He) as [? [[? ?]|?]]; [congruence|].
      split; [done|by right].
  - intros c n b Hb. unfold client_proxies in Hb. rewrite Epr in Hb. apply drop_fold_lookup in Hb as [Hb Hd].
    + destruct (po_owned _ Hp _ _ _ Hb) as (? & ? & _). split_and!; try done. apply configured_routed; [|done].
      by eapply owned_client.
    + intros c' n' b' Hb'. by destruct (po_owned _ Hp _ _ _ Hb') as (? & ? & _).
Qed.
End configure.

(** ** Preparation *)

Section prepare.
Context (client : string) (modes : gmap string string) (existing : gmap string binding) (p : Plane).

(** The first check of ownership: a declared port is reused exactly when it has
    an endpoint, and a shared port must admit the client. *)
Lemma reusable_ports declarations : ∀ acc reusable,
  plane_ok p → reusableEndpoints client modes existing p declarations acc = Ok reusable →
  (∀ q e, acc !! q = Some e → endpoints p !! q = Some e) →
  (∀ q e, reusable !! q = Some e → endpoints p !! q = Some e) ∧ acc ⊆ reusable ∧
  (∀ d, d ∈ declarations → reusable !! RemotePort d = endpoints p !! RemotePort d ∧
     (mirrorGroups p !! RemotePort d = None ∨ is_Some (mirrorGroupLocked client modes (RemotePort d) p))).
Proof using Type.
  induction declarations as [|d declarations IH]; intros acc reusable Hp; cbn [reusableEndpoints].
  { intros [= <-] Hacc. split_and!; try done. by intros d ?%elem_of_nil. }
  assert (Hstep : ∀ acc', reusableEndpoints client modes existing p declarations acc' = Ok reusable →
    acc ⊆ acc' → (∀ q e, acc' !! q = Some e → endpoints p !! q = Some e) → acc' !! RemotePort d = endpoints p !! RemotePort d →
    (mirrorGroups p !! RemotePort d = None ∨ is_Some (mirrorGroupLocked client modes (RemotePort d) p)) →
    (∀ q e, reusable !! q = Some e → endpoints p !! q = Some e) ∧ acc ⊆ reusable ∧
    (∀ d', d' ∈ d :: declarations → reusable !! RemotePort d' = endpoints p !! RemotePort d' ∧
      (mirrorGroups p !! RemotePort d' = None ∨ is_Some (mirrorGroupLocked client modes (RemotePort d') p)))).
  { intros acc' E Hsub Hacc' Hd Hg. destruct (IH _ _ Hp E Hacc') as (Hre & Hs & Hall). split_and!; [done|by etrans|].
    intros d' [->|Hd']%elem_of_cons; [|by apply Hall]. split; [|done].
    destruct (endpoints p !! RemotePort d) as [e|] eqn:Ee.
    - by eapply lookup_weaken.
    - destruct (reusable !! RemotePort d) as [e|] eqn:Er; [|done]. by rewrite (Hre _ _ Er) in Ee. }
  intros E Hacc.
  assert (Hnone : endpoints p !! RemotePort d = None → acc !! RemotePort d = endpoints p !! RemotePort d).
  { intros Hn. rewrite Hn. destruct (acc !! RemotePort d) as [e|] eqn:Ea; [|done]. by rewrite (Hacc _ _ Ea) in Hn. }
  assert (Hins : ∀ e, endpoints p !! RemotePort d = Some e → acc ⊆ <[RemotePort d := e]> acc ∧
    (∀ q e', <[RemotePort d := e]> acc !! q = Some e' → endpoints p !! q = Some e') ∧
    <[RemotePort d := e]> acc !! RemotePort d = endpoints p !! RemotePort d).
  { intros e He. split_and!; [|intros q e'; rewrite lookup_insert; case_decide; [by intros [= <-]; subst|apply Hacc]|by rewrite lookup_insert_eq].
    destruct (acc !! RemotePort d) as [e'|] eqn:Ea.
    - rewrite insert_id; [done|]. rewrite Ea. rewrite (Hacc _ _ Ea) in He. congruence.
    - by apply insert_subseteq. }
  destruct (mirrorGroupLocked client modes (RemotePort d) p) as [g|] eqn:Hl.
  - pose proof (po_group _ Hp _ _ (mirrorGroupLocked_some _ _ _ _ _ Hl)) as Hge.
    assert (Hor : mirrorGroups p !! RemotePort d = None ∨ is_Some (Some g)) by (right; by eexists).
    destruct (endpoints p !! RemotePort d) as [e|] eqn:Ee.
    + rewrite bool_decide_eq_true_2 in E by done. destruct (Hins e eq_refl) as (? & ? & ?). eapply Hstep; try done.
    + eapply Hstep; try done. by apply Hnone.
  - destruct (mirrorGroups p !! RemotePort d) as [g|] eqn:Eg; cbn [is_some] in E; [done|].
    destruct (endpoints p !! RemotePort d) as [e|] eqn:Ee.
    + destruct (endpointBindings p !! RemotePort d) as [b|]; [|done]. destruct (_ && _); [|done].
      destruct (Hins e eq_refl) as (? & ? & ?). eapply Hstep; try done. by left.
    + eapply Hstep; try done; [by apply Hnone|by left].
Qed.

Lemma prepareEndpoints_spec listen reusable declarations : ∀ acc opened,
  prepareEndpoints listen reusable declarations acc = (None, opened) →
  (∀ q e, opened !! q = Some e → acc !! q = Some e ∨
     q ∈ RemotePort <$> declarations ∧ reusable !! q = None ∧ listen q = Some e) ∧
  (∀ d, d ∈ declarations → reusable !! RemotePort d = None → opened !! RemotePort d = listen (RemotePort d)) ∧
  (∀ q, q ∉ RemotePort <$> declarations → opened !! q = acc !! q).
Proof using Type.
  induction declarations as [|d declarations IH]; intros acc opened; cbn [prepareEndpoints].
  { intros [= <-]. split_and!; try done; [by left|]. by intros d ?%elem_of_nil. }
  destruct (reusable !! RemotePort d) as [e|] eqn:Er; cbn [is_some].
  - intros (H1 & H2 & H3)%IH. split_and!.
    + intros q e' Hq. destruct (H1 _ _ Hq) as [?|(? & ? & ?)]; [by left|right].
      split_and!; try done. rewrite fmap_cons. by right.
    + intros d' [->|Hd']%elem_of_cons; [congruence|by apply H2].
    + intros q. rewrite fmap_cons, not_elem_of_cons. intros [_ Hq]. by apply H3.
  - destruct (listen (RemotePort d)) as [e|] eqn:El; [|done]. intros (H1 & H2 & H3)%IH. split_and!.
    + intros q e' Hq. rewrite fmap_cons. destruct (H1 _ _ Hq) as [Hi|(? & ? & ?)]; [|right; split_and!; try done; by right].
      rewrite lookup_insert in Hi. case_decide as Hc; [|by left]. injection Hi as <-. subst q. right.
      split_and!; try done. left.
    + intros d' [->|Hd']%elem_of_cons Hr; [|by apply H2].
      destruct (decide (RemotePort d ∈ RemotePort <$> declarations)) as [(d' & Hq & Hd')%list_elem_of_fmap|Hq].
      * rewrite Hq in *. by apply H2.
      * rewrite (H3 _ Hq). by rewrite lookup_insert_eq.
    + intros q. rewrite fmap_cons, not_elem_of_cons. intros [Hne Hq]. rewrite (H3 _ Hq). by rewrite lookup_insert_ne.
Qed.

(** The binding prepared for a declaration: one the client has, or a new one
    on the endpoint of its port. *)
Definition prepared_for (session : string) (reusable opened : gmap Z Endpoint) (d : ProxyDeclaration) (b : binding) : Prop :=
  b_sessionID b = session ∧ b_declaration b = d ∧
  (existing !! DeclaredName d = Some b ∨
   b_clientID b = client ∧
   b_endpoint b = match reusable !! RemotePort d with Some e => Some e | None => opened !! RemotePort d end).

Lemma same_declaration_eq d d' : sameProxyDeclaration d d' = true → d = d'.
Proof using Type.
  unfold sameProxyDeclaration. intros E. bool_to_prop. destruct d, d'; cbn in *. congruence.
Qed.

Lemma prepareBindings_spec keep session reusable opened declarations :
  ∀ supply next results supply' next' results',
  prepareBindings keep client session existing reusable opened declarations supply next results
    = Ok (supply', next', results') →
  NoDup (DeclaredName <$> declarations) →
  (∀ n, n ∉ DeclaredName <$> declarations → next' !! n = next !! n) ∧
  (∀ d, d ∈ declarations → ∃ b, next' !! DeclaredName d = Some b ∧ prepared_for session reusable opened d b) ∧
  ∃ new, results' = results ++ new ∧ ResultProxy <$> new = DeclaredName <$> declarations.
Proof using Type.
  induction declarations as [|d declarations IH]; intros supply next results supply' next' results'; cbn [prepareBindings].
  { intros [= <- <- <-] _. split_and!; try done; [by intros d ?%elem_of_nil|]. exists []. by rewrite app_nil_r. }
  assert (Hstep : ∀ supply1 b status, prepareBindings keep client session existing reusable opened declarations supply1
      (<[DeclaredName d := b]> next) (results ++ [{| ResultProxy := DeclaredName d; ResultStatus := status;
        ResultPort := RemotePort d; ResultDomain := "" |}]) = Ok (supply', next', results') →
    prepared_for session reusable opened d b → NoDup (DeclaredName <$> d :: declarations) →
    (∀ n, n ∉ DeclaredName <$> d :: declarations → next' !! n = next !! n) ∧
    (∀ d', d' ∈ d :: declarations → ∃ b, next' !! DeclaredName d' = Some b ∧ prepared_for session reusable opened d' b) ∧
    ∃ new, results' = results ++ new ∧ ResultProxy <$> new = DeclaredName <$> d :: declarations).
  { intros supply1 b status E Hb (Hd & Hnd)%NoDup_cons.
    destruct (IH _ _ _ _ _ _ E Hnd) as (Hout & Hin & new & -> & Hnew). split_and!.
    - intros n. rewrite fmap_cons, not_elem_of_cons. intros [Hne Hn]. rewrite (Hout _ Hn). by rewrite lookup_insert_ne.
    - intros d' [->|Hd']%elem_of_cons; [|by apply Hin]. exists b. by rewrite (Hout _ Hd), lookup_insert_eq.
    - eexists (_ :: new). rewrite <- app_assoc. split; [done|]. by rewrite !fmap_cons, Hnew. }
  destruct (match unchanged existing d with Some x => _ | None => None end) as [x|] eqn:Ek.
  - intros E Hnd. eapply Hstep; [done| |done]. unfold unchanged in Ek.
    destruct (existing !! DeclaredName d) as [y|] eqn:Ey; [|done].
    destruct (sameProxyDeclaration (b_declaration y) d) eqn:Es; [|done].
    destruct (bool_decide (b_sessionID y = session)) eqn:Ese; [|done]. injection Ek as ->. bool_to_prop.
    split_and!; [done|by apply same_declaration_eq|by left].
  - destruct (draw supply) as [[[id addr] supply1]|]; [|done]. intros E Hnd. eapply Hstep; [done| |done].
    split_and!; try done. by right.
Qed.
End prepare.
