(* ===== verification/ConfigProxy.v ===== *)
(** * Proxy configuration ([internal/config])

    Domains and the limits of the public HTTP server. *)

From Stdlib Require Import Ascii.
From S2P Require Import Prelude GoTime NetAddr GoStrings ConfigVNet.

Local Open Scope Z_scope.

(** ** HTTP domains ([internal/config/http.go])

    [strings.ToLower] changes a domain when it has an upper-case ASCII letter,
    or some other upper-case letter, which the labels exclude anyway.
    [net.ParseIP] is the parser of addresses; a zone needs a colon, which is
    excluded too. *)

Definition domain_label (label : string) : bool :=
  let cs := String.list_ascii_of_string label in
  match cs with
  | [] => false
  | first :: _ =>
    (Z.of_nat (length cs) <=? 63) && negb (Ascii.eqb first "-"%char) &&
    negb (Ascii.eqb (List.last cs "-"%char) "-"%char) &&
    forallb (λ c, is_lower c || is_digit c || Ascii.eqb c "-"%char) cs
  end.

Definition ValidateHTTPDomain `{NetipText} (domain : string) : bool :=
  negb (bool_decide (domain = "")) && (Z.of_nat (String.length domain) <=? 253) &&
  forallb (λ c, negb (is_upper c)) (String.list_ascii_of_string domain) &&
  negb (HasSuffix domain ".") && negb (is_some (ParseAddr domain)) &&
  negb (ContainsByte domain [":"; "/"; "*"]%char) &&
  forallb domain_label (Split "."%char domain).
