(* ===== verification/ProxyRegistry.v ===== *)
(** * The proxy registry ([internal/proxy/registry])

    The registry owns the proxies that clients declare.  A synchronisation is
    admitted under the registration lock, prepares its listeners and bindings
    without it, and is published under it after every decision that may have
    become stale has been checked again; the resources it replaced are closed
    afterwards.  The tables of the two port-based protocols are the planes of
    [ProxyPlane]; HTTP proxies are found by domain.

    Every critical section of the registry's lock is one function on
    [Registry].  The admission of a synchronisation takes the lock several
    times, but holds the registration lock throughout, so that only the fields
    of client states can change in between: it is one function of one state. *)

From S2P Require Import Prelude GoTime NetAddr ControlFrame Authentication PortPolicy ConfigVNet ConfigProxy ProxyPlane.

Local Open Scope Z_scope.

(** ** Results *)

Inductive ErrorCode :=
| ErrorInvalidRequest
| ErrorInvalidProxy
| ErrorPortConflict
| ErrorCapacityExceeded
| ErrorSessionInactive
| ErrorPublicSchemeUnavailable
| ErrorDomainConflict
| ErrorProxyTypeNotAllowed
| ErrorRemotePortNotAllowed
| ErrorDomainNotAllowed
| ErrorPublicSchemeNotAllowed
| ErrorClientLimitExceeded
| ErrorMirrorMemberNotAllowed.
#[export] Instance error_code_eq_dec : EqDecision ErrorCode.
Proof. solve_decision. Defined.

Record RegistryError := { ErrCode : ErrorCode; ErrProxyName : string; ErrRetryable : bool }.

(** [SyncStatusUnset] is the zero value. *)
Inductive SyncStatus := SyncStatusUnset | SyncStatusApplied | SyncStatusRejected.
#[export] Instance sync_status_eq_dec : EqDecision SyncStatus.
Proof. solve_decision. Defined.

Record SyncRequest := { RequestRevision : Z; RequestProxies : list ProxyDeclaration }.

Record SyncResult := {
  ResultRevision : Z;
  Status : SyncStatus;
  ResultProxies : list ProxyResult;
  ResultError : option RegistryError
}.

Definition zero_result : SyncResult :=
  {| ResultRevision := 0; Status := SyncStatusUnset; ResultProxies := []; ResultError := None |}.

Definition rejectedSyncResult (revision : Z) (code : ErrorCode) (name : string) : SyncResult :=
  {| ResultRevision := revision; Status := SyncStatusRejected; ResultProxies := [];
     ResultError := Some {| ErrCode := code; ErrProxyName := name;
                            ErrRetryable := bool_decide (code = ErrorSessionInactive) |} |}.

Definition maxProxiesPerClient : Z := 128.
Definition maxCachedSyncRequests : Z := 16.

(** ** State *)

Record cachedSyncRequest := {
  cached_revision : Z;
  cached_fingerprint : digest;
  cached_result : SyncResult
}.

(** The proxies of a client are kept in the planes and in [httpProxies]. *)
Record clientState := {
  sessionID : string;
  active : bool;
  writer : option nat;
  revision : Z;
  fingerprint : digest;
  lastRequestID : string;
  lastResult : SyncResult;
  requestCache : gmap string cachedSyncRequest;
  requestOrder : list string;
  authentication : Context;
  maxActiveLinks : Z
}.
#[export] Instance eta_clientState : Eta clientState := λ s,
  {| sessionID := sessionID s; active := active s; writer := writer s; revision := revision s;
     fingerprint := fingerprint s; lastRequestID := lastRequestID s; lastResult := lastResult s;
     requestCache := requestCache s; requestOrder := requestOrder s; authentication := authentication s;
     maxActiveLinks := maxActiveLinks s |}.

Record Registry := {
  clients : gmap string clientState;
  tcp : Plane;
  udp : Plane;
  httpProxies : gmap string (gmap string binding);
  httpDomains : gmap string binding;
  managedHTTPDomains : gmap string string;
  httpEnabled : bool;
  httpsEnabled : bool;
  closed : bool
}.
#[export] Instance eta_Registry : Eta Registry := λ r,
  {| clients := clients r; tcp := tcp r; udp := udp r; httpProxies := httpProxies r;
     httpDomains := httpDomains r; managedHTTPDomains := managedHTTPDomains r;
     httpEnabled := httpEnabled r; httpsEnabled := httpsEnabled r; closed := closed r |}.

Definition newRegistry (httpEnabled httpsEnabled : bool) : Registry :=
  {| clients := ∅; tcp := empty_plane; udp := empty_plane; httpProxies := ∅; httpDomains := ∅;
     managedHTTPDomains := ∅; httpEnabled := httpEnabled; httpsEnabled := httpsEnabled; closed := false |}.

(** The modes of the attached clients, for the membership of mirror groups. *)
Definition modes (r : Registry) : gmap string string := (λ s, Mode (authentication s)) <$> clients r.

Definition client_http (c : string) (r : Registry) : gmap string binding := default ∅ (httpProxies r !! c).

Definition AttachAuthenticated (clientID session : string) (w : option nat) (auth : Context) (limit : Z)
    (r : Registry) : Registry :=
  r <| clients := <[clientID := {| sessionID := session; active := false; writer := w; revision := 0;
         fingerprint := replicate 32 x00; lastRequestID := ""; lastResult := zero_result; requestCache := ∅;
         requestOrder := []; authentication := auth; maxActiveLinks := limit |}]> (clients r) |>.

(** ** Validation of a declaration ([validation.go]) *)

(** [AllowsPublicScheme] *)
Definition AllowsPublicScheme (d : ProxyDeclaration) (scheme : string) : bool :=
  if bool_decide (PublicSchemes d = []) then bool_decide (scheme = HTTPPublicSchemeHTTP)
  else bool_decide (scheme ∈ PublicSchemes d).

Fixpoint valid_schemes (schemes : list string) (seen : gset string) : bool :=
  match schemes with
  | [] => true
  | scheme :: schemes =>
    if negb (bool_decide (scheme = HTTPPublicSchemeHTTP)) && negb (bool_decide (scheme = HTTPPublicSchemeHTTPS))
    then false
    else if bool_decide (scheme ∈ seen) then false
    else valid_schemes schemes ({[scheme]} ∪ seen)
  end.

Definition validPublicSchemes (schemes : list string) : bool :=
  if bool_decide (schemes = []) then true else valid_schemes schemes ∅.

(** The sets of the loop: names, TCP ports, UDP ports, domains. *)
Record Seen := { names : gset string; tcpPorts : gset Z; udpPorts : gset Z; domains : gset string }.
#[export] Instance eta_Seen : Eta Seen := λ s,
  {| names := names s; tcpPorts := tcpPorts s; udpPorts := udpPorts s; domains := domains s |}.

Section validation.
Context `{NetipText}.

(** The body of the loop up to the check of the name. *)
Definition check_declaration (http https : bool) (d : ProxyDeclaration) (seen : Seen) :
    result ErrorCode Seen :=
  if negb (ValidateResourceName (DeclaredName d)) then Err ErrorInvalidProxy
  else
    let bad_port := (RemotePort d =? 0) || negb (bool_decide (Domain d = "")) ||
                    negb (bool_decide (PublicSchemes d = [])) in
    match DeclaredType d with
    | ProxyTypeTCP =>
      if bad_port then Err ErrorInvalidProxy
      else if bool_decide (RemotePort d ∈ tcpPorts seen) then Err ErrorInvalidProxy
      else Ok (seen <| tcpPorts := {[RemotePort d]} ∪ tcpPorts seen |>)
    | ProxyTypeUDP =>
      if bad_port then Err ErrorInvalidProxy
      else if bool_decide (RemotePort d ∈ udpPorts seen) then Err ErrorInvalidProxy
      else Ok (seen <| udpPorts := {[RemotePort d]} ∪ udpPorts seen |>)
    | ProxyTypeHTTP =>
      if negb (RemotePort d =? 0) || negb (ValidateHTTPDomain (Domain d)) ||
         negb (validPublicSchemes (PublicSchemes d)) then Err ErrorInvalidProxy
      else if (AllowsPublicScheme d HTTPPublicSchemeHTTP && negb http) ||
              (AllowsPublicScheme d HTTPPublicSchemeHTTPS && negb https)
      then Err ErrorPublicSchemeUnavailable
      else if bool_decide (Domain d ∈ domains seen) then Err ErrorInvalidProxy
      else Ok (seen <| domains := {[Domain d]} ∪ domains seen |>)
    | ProxyTypeOther _ => Err ErrorInvalidProxy
    end.

Fixpoint validate_declarations (http https : bool) (declarations : list ProxyDeclaration) (seen : Seen) :
    option (ErrorCode * string) :=
  match declarations with
  | [] => None
  | d :: declarations =>
    match check_declaration http https d seen with
    | Err code => Some (code, DeclaredName d)
    | Ok seen =>
      if bool_decide (DeclaredName d ∈ names seen) then Some (ErrorInvalidProxy, DeclaredName d)
      else validate_declarations http https declarations (seen <| names := {[DeclaredName d]} ∪ names seen |>)
    end
  end.

Definition validateProxyDeclarations (declarations : list ProxyDeclaration) (http https : bool) :
    option (ErrorCode * string) :=
  validate_declarations http https declarations {| names := ∅; tcpPorts := ∅; udpPorts := ∅; domains := ∅ |}.
End validation.

(** ** Managed reservations ([reservations.go]) *)

Definition reservationConflictCode (t : ProxyType) : ErrorCode :=
  match t with ProxyTypeHTTP => ErrorDomainConflict | _ => ErrorPortConflict end.

(** A declaration of a port of a mirror group the client belongs to. *)
Definition mirror_member (clientID mode : string) (d : ProxyDeclaration) (r : Registry) : bool :=
  match DeclaredType d with
  | ProxyTypeTCP => match mirrorGroups (tcp r) !! RemotePort d with
                    | Some g => allowsMode g clientID mode | None => false end
  | ProxyTypeUDP => match mirrorGroups (udp r) !! RemotePort d with
                    | Some g => allowsMode g clientID mode | None => false end
  | _ => false
  end.

(** The empty string stands for no owner. *)
Definition reservation_owner (d : ProxyDeclaration) (r : Registry) : string :=
  match DeclaredType d with
  | ProxyTypeTCP => default "" (managedPorts (tcp r) !! RemotePort d)
  | ProxyTypeUDP => default "" (managedPorts (udp r) !! RemotePort d)
  | ProxyTypeHTTP => default "" (managedHTTPDomains r !! Domain d)
  | ProxyTypeOther _ => ""
  end.

Fixpoint managedReservationRejectionLocked (clientID mode : string) (proxies : list ProxyDeclaration)
    (r : Registry) : option (ErrorCode * string) :=
  match proxies with
  | [] => None
  | d :: proxies =>
    if mirror_member clientID mode d r then managedReservationRejectionLocked clientID mode proxies r
    else
      let owner := reservation_owner d r in
      if bool_decide (owner = "") || bool_decide (owner = clientID) && bool_decide (mode = ModeManaged)
      then managedReservationRejectionLocked clientID mode proxies r
      else Some (reservationConflictCode (DeclaredType d), DeclaredName d)
  end.

(** ** Admission ([sync.go]) *)

Definition of_type (t : ProxyType) (ds : list ProxyDeclaration) : list ProxyDeclaration :=
  filter (λ d, DeclaredType d = t) ds.

Record AdmittedSync := {
  ad_existing : gmap string binding;
  ad_existingUDP : gmap string binding;
  ad_existingHTTP : gmap string binding;
  ad_mode : string;
  ad_base : Z;
  ad_reusable : gmap Z Endpoint;
  ad_reusableUDP : gmap Z Endpoint;
  ad_fingerprint : digest
}.

(** [Cached]: an earlier answer, given again. *)
Inductive Admission :=
| Refused (code : ErrorCode) (name : string)
| Cached (answer : SyncResult)
| Proceed (a : AdmittedSync).

Definition error_name (e : PlaneError) : string :=
  match e with MirrorMemberNotAllowed name | PortConflict name => name end.

Definition plane_refusal (e : PlaneError) : Admission :=
  match e with
  | MirrorMemberNotAllowed name => Refused ErrorMirrorMemberNotAllowed name
  | PortConflict name => Refused ErrorPortConflict name
  end.

Section admission.
Context `{NetipText}.
(** [json.Marshal] of the declarations followed by [sha256.Sum256]. *)
Context (fingerprint_of : list ProxyDeclaration → option digest).

(** What the request cache and the revision decide. *)
Definition check_revision (requestID : string) (request : SyncRequest) (fp : digest) (s : clientState) :
    option Admission :=
  match requestCache s !! requestID with
  | Some cached =>
    Some (if (RequestRevision request =? cached_revision cached) && bool_decide (fp = cached_fingerprint cached)
          then Cached (cached_result cached) else Refused ErrorInvalidRequest "")
  | None =>
    if (RequestRevision request =? 0) || (RequestRevision request <? revision s)
    then Some (Refused ErrorInvalidRequest "")
    else if RequestRevision request =? revision s then
      Some (if bool_decide (fp = fingerprint s)
            then Cached (lastResult s) else Refused ErrorInvalidRequest "")
    else None
  end.

(** The ports: TCP first, then UDP. *)
Definition check_ports (clientID : string) (request : SyncRequest) (fp : digest) (s : clientState) (r : Registry) :
    Admission :=
  let existing := client_proxies clientID (tcp r) in
  let existingUDP := client_proxies clientID (udp r) in
  match reusableEndpoints clientID (modes r) existing (tcp r) (of_type ProxyTypeTCP (RequestProxies request)) ∅ with
  | Err e => plane_refusal e
  | Ok reusable =>
    match reusableEndpoints clientID (modes r) existingUDP (udp r) (of_type ProxyTypeUDP (RequestProxies request)) ∅ with
    | Err e => plane_refusal e
    | Ok reusableUDP =>
      Proceed {| ad_existing := existing; ad_existingUDP := existingUDP; ad_existingHTTP := client_http clientID r;
                 ad_mode := Mode (authentication s); ad_base := revision s; ad_reusable := reusable;
                 ad_reusableUDP := reusableUDP; ad_fingerprint := fp |}
    end
  end.

Definition admit_sync (clientID session requestID : string) (request : SyncRequest) (allowEmpty : bool)
    (r : Registry) : Admission :=
  if is_some (ValidateRequestID requestID) then Refused ErrorInvalidRequest ""
  else
    match fingerprint_of (RequestProxies request) with
    | None => Refused ErrorInvalidRequest ""
    | Some fp =>
      if closed r then Refused ErrorSessionInactive ""
      else
        match clients r !! clientID with
        | None => Refused ErrorSessionInactive ""
        | Some s =>
          if negb (bool_decide (sessionID s = session)) then Refused ErrorSessionInactive ""
          else
            match check_revision requestID request fp s with
            | Some answer => answer
            | None =>
              if maxProxiesPerClient <? Z.of_nat (length (RequestProxies request))
              then Refused ErrorCapacityExceeded ""
              else if negb allowEmpty && negb (bool_decide (Mode (authentication s) = ModeManaged)) &&
                      bool_decide (RequestProxies request = [])
              then Refused ErrorInvalidProxy ""
              else
                match validateProxyDeclarations (RequestProxies request) (httpEnabled r) (httpsEnabled r) with
                | Some (code, name) => Refused code name
                | None =>
                  match managedReservationRejectionLocked clientID (Mode (authentication s)) (RequestProxies request) r with
                  | Some (code, name) => Refused code name
                  | None => check_ports clientID request fp s r
                  end
                end
            end
        end
    end.
End admission.

(** ** Preparation

    Listeners are opened and bindings created without the registration lock;
    the operating system and the random source answer. *)

Record Preparation := {
  pr_client : string;
  pr_session : string;
  pr_requestID : string;
  pr_request : SyncRequest;
  pr_admitted : AdmittedSync;
  pr_results : list ProxyResult;
  pr_new : gmap Z Endpoint;
  pr_newUDP : gmap Z Endpoint;
  pr_next : gmap string binding;
  pr_nextUDP : gmap string binding;
  pr_nextHTTP : gmap string binding
}.

(** The bindings of HTTP proxies: kept for the same session and declaration. *)
Fixpoint prepareHTTP (clientID session : string) (existing : gmap string binding)
    (declarations : list ProxyDeclaration) (supply : Supply) (next : gmap string binding)
    (results : list ProxyResult) : result string (Supply * gmap string binding * list ProxyResult) :=
  match declarations with
  | [] => Ok (supply, next, results)
  | d :: declarations =>
    let answer status := {| ResultProxy := DeclaredName d; ResultStatus := status;
                            ResultPort := 0; ResultDomain := Domain d |} in
    let kept := match unchanged existing d with
                | Some x => if bool_decide (b_sessionID x = session) then Some x else None
                | None => None
                end in
    match kept with
    | Some x => prepareHTTP clientID session existing declarations supply
                  (<[DeclaredName d := x]> next) (results ++ [answer ProxyStatusUnchanged])
    | None =>
      match draw supply with
      | None => Err (DeclaredName d)
      | Some (id, addr, supply) =>
        prepareHTTP clientID session existing declarations supply
          (<[DeclaredName d := {| b_addr := addr; b_clientID := clientID; b_sessionID := session;
                                  b_bindingID := id; b_declaration := d; b_endpoint := None |}]> next)
          (results ++ [answer ProxyStatusActive])
      end
    end
  end.

(** A domain is free, or held by a binding the client had. *)
Definition domain_available (existing : gmap string binding) (domain : string) (r : Registry) : bool :=
  match httpDomains r !! domain with
  | Some owner => bool_decide (existing !! b_name owner = Some owner)
  | None => true
  end.

Fixpoint domain_conflict (existing : gmap string binding) (declarations : list ProxyDeclaration) (r : Registry) :
    option string :=
  match declarations with
  | [] => None
  | d :: declarations =>
    if domain_available existing (Domain d) r then domain_conflict existing declarations r
    else Some (DeclaredName d)
  end.

(** What a failed preparation leaves to close. *)
Record Failure := { fl_code : ErrorCode; fl_name : string; fl_tcp : gmap Z Endpoint; fl_udp : gmap Z Endpoint }.

(** [r] is the registry when the domains are looked up. *)
Definition prepareSync (listen listenUDP : Z → option Endpoint) (supply : Supply)
    (clientID session requestID : string) (request : SyncRequest) (a : AdmittedSync) (r : Registry) :
    result Failure Preparation :=
  let ds := RequestProxies request in
  match prepareEndpoints listen (ad_reusable a) (of_type ProxyTypeTCP ds) ∅ with
  | (Some e, opened) =>
    Err {| fl_code := ErrorPortConflict; fl_name := error_name e; fl_tcp := opened; fl_udp := ∅ |}
  | (None, opened) =>
    match prepareEndpoints listenUDP (ad_reusableUDP a) (of_type ProxyTypeUDP ds) ∅ with
    | (Some e, openedUDP) =>
      Err {| fl_code := ErrorPortConflict; fl_name := error_name e; fl_tcp := opened; fl_udp := openedUDP |}
    | (None, openedUDP) =>
      let failed name := {| fl_code := ErrorInvalidRequest; fl_name := name; fl_tcp := opened; fl_udp := openedUDP |} in
      match prepareBindings true clientID session (ad_existing a) (ad_reusable a) opened (of_type ProxyTypeTCP ds)
              supply ∅ [] with
      | Err name => Err (failed name)
      | Ok (supply, next, results) =>
        match prepareBindings false clientID session (ad_existingUDP a) (ad_reusableUDP a) openedUDP
                (of_type ProxyTypeUDP ds) supply ∅ results with
        | Err name => Err (failed name)
        | Ok (supply, nextUDP, results) =>
          match domain_conflict (ad_existingHTTP a) (of_type ProxyTypeHTTP ds) r with
          | Some name =>
            Err {| fl_code := ErrorDomainConflict; fl_name := name; fl_tcp := opened; fl_udp := openedUDP |}
          | None =>
            match prepareHTTP clientID session (ad_existingHTTP a) (of_type ProxyTypeHTTP ds) supply ∅ results with
            | Err name => Err (failed name)
            | Ok (_, nextHTTP, results) =>
              Ok {| pr_client := clientID; pr_session := session; pr_requestID := requestID; pr_request := request;
                    pr_admitted := a; pr_results := results; pr_new := opened; pr_newUDP := openedUDP;
                    pr_next := next; pr_nextUDP := nextUDP; pr_nextHTTP := nextHTTP |}
            end
          end
        end
      end
    end
  end.

(** ** Publication ([sync_commit.go], [sync_publication.go]) *)

Definition cacheSyncRequest (requestID : string) (rev : Z) (fp : digest) (res : SyncResult) (s : clientState) :
    clientState :=
  let s := if Z.of_nat (length (requestOrder s)) =? maxCachedSyncRequests then
             match requestOrder s with
             | oldest :: rest => s <| requestOrder := rest |> <| requestCache := delete oldest (requestCache s) |>
             | [] => s
             end
           else s in
  s <| requestOrder := requestOrder s ++ [requestID] |>
    <| requestCache := <[requestID := {| cached_revision := rev; cached_fingerprint := fp;
                                         cached_result := res |}]> (requestCache s) |>.

(** The declaration of a port, for the message of a conflict. *)
Definition port_name (t : ProxyType) (port : Z) (ds : list ProxyDeclaration) : string :=
  default "" (DeclaredName <$> last (filter (λ d, RemotePort d = port) (of_type t ds))).

(** The two loops over HTTP bindings: a domain the client gives up is
    forgotten if it is still its own, and the next bindings are entered. *)
Definition forget_domain (next : gmap string binding) (table : gmap string binding) (x : binding) :
    gmap string binding :=
  if negb (bool_decide (next !! b_name x = Some x)) &&
     bool_decide (table !! Domain (b_declaration x) = Some x)
  then delete (Domain (b_declaration x)) table else table.

Definition publishHTTP (ρ : go_range string binding) (existing next table : gmap string binding) :
    gmap string binding :=
  foldl (λ t b, <[Domain (b_declaration b) := b]> t) (foldl (forget_domain next) table (ρ existing).*2) (ρ next).*2.

(** What is closed and cancelled after the locks are released. *)
Record Retirement := {
  rt_endpoints : gmap Z Endpoint;
  rt_endpointsUDP : gmap Z Endpoint;
  rt_cancelled : list binding;
  rt_closed : list binding
}.

Section publication.
Context (ρ : go_range string binding) (ρe : go_range Z Endpoint).

Definition publish_rejection (pr : Preparation) (r : Registry) : option (ErrorCode * string) :=
  let a := pr_admitted pr in
  let ds := RequestProxies (pr_request pr) in
  match managedReservationRejectionLocked (pr_client pr) (ad_mode a) ds r with
  | Some e => Some e
  | None =>
    match lost_port (pr_client pr) (modes r) (ad_existing a) ρe (ad_reusable a) (tcp r) with
    | Some port => Some (ErrorPortConflict, port_name ProxyTypeTCP port ds)
    | None =>
      match lost_port (pr_client pr) (modes r) (ad_existingUDP a) ρe (ad_reusableUDP a) (udp r) with
      | Some port => Some (ErrorPortConflict, port_name ProxyTypeUDP port ds)
      | None =>
        (λ q, (ErrorDomainConflict, b_name q.2)) <$>
          head (filter (λ q, domain_available (ad_existingHTTP a) (Domain (b_declaration q.2)) r = false)
                       (ρ (pr_nextHTTP pr)))
      end
    end
  end.

Definition publishSync (pr : Preparation) (r : Registry) : SyncResult * option Retirement * Registry :=
  let a := pr_admitted pr in
  let rev := RequestRevision (pr_request pr) in
  match clients r !! pr_client pr with
  | None => (rejectedSyncResult rev ErrorSessionInactive "", None, r)
  | Some s =>
    if negb (bool_decide (sessionID s = pr_session pr)) || negb (revision s =? ad_base a)
    then (rejectedSyncResult rev ErrorSessionInactive "", None, r)
    else
      match publish_rejection pr r with
      | Some (code, name) => (rejectedSyncResult rev code name, None, r)
      | None =>
        let res := {| ResultRevision := rev; Status := SyncStatusApplied; ResultProxies := pr_results pr;
                      ResultError := None |} in
        let '(tcp', removed) := publishPlane ρ (pr_client pr) (modes r) (ad_existing a) (pr_next pr) (tcp r) in
        let '(udp', removedUDP) := publishPlane ρ (pr_client pr) (modes r) (ad_existingUDP a) (pr_nextUDP pr) (udp r) in
        let s := s <| revision := rev |> <| fingerprint := ad_fingerprint a |>
                   <| lastRequestID := pr_requestID pr |> <| lastResult := res |> in
        let s := cacheSyncRequest (pr_requestID pr) rev (ad_fingerprint a) res s in
        (res,
         Some {| rt_endpoints := removed; rt_endpointsUDP := removedUDP;
                 rt_cancelled := replaced ρ (ad_existing a) (pr_next pr) ++ replaced ρ (ad_existingUDP a) (pr_nextUDP pr);
                 rt_closed := replaced ρ (ad_existingHTTP a) (pr_nextHTTP pr) ++
                              replaced ρ (ad_existingUDP a) (pr_nextUDP pr) |},
         r <| clients := <[pr_client pr := s]> (clients r) |> <| tcp := tcp' |> <| udp := udp' |>
           <| httpDomains := publishHTTP ρ (ad_existingHTTP a) (pr_nextHTTP pr) (httpDomains r) |>
           <| httpProxies := <[pr_client pr := pr_nextHTTP pr]> (httpProxies r) |>)
      end
  end.

(** [coordinate] is [None] without a companion; a companion calls [publish]
    exactly when its own generation still stands. *)
Definition commitSync (pr : Preparation) (coordinate : option bool) (r : Registry) :
    SyncResult * option Retirement * Registry :=
  match coordinate with
  | None | Some true => publishSync pr r
  | Some false =>
    (rejectedSyncResult (RequestRevision (pr_request pr)) ErrorSessionInactive "", None, r)
  end.

Definition coordinateCachedSync (res : SyncResult) (coordinate : option bool) : SyncResult :=
  match coordinate with
  | Some false => rejectedSyncResult (ResultRevision res) ErrorSessionInactive ""
  | _ => res
  end.

(** ** Lifecycle ([lifecycle.go]) *)

Definition update_session (clientID session : string) (f : clientState → clientState) (r : Registry) : Registry :=
  match clients r !! clientID with
  | Some s => if bool_decide (sessionID s = session) then r <| clients := <[clientID := f s]> (clients r) |> else r
  | None => r
  end.

Definition Activate (clientID session : string) (r : Registry) : Registry :=
  update_session clientID session (λ s, s <| active := true |>) r.

Definition Active (clientID session : string) (r : Registry) : bool :=
  match clients r !! clientID with
  | Some s => bool_decide (sessionID s = session) && active s
  | None => false
  end.

Definition Deactivate (clientID session : string) (r : Registry) : Registry :=
  update_session clientID session (λ s, s <| active := false |>) r.

(** The links of the session are cancelled by the broker afterwards; the
    bindings returned are those whose runtimes are suspended. *)
Definition Suspend (clientID session : string) (r : Registry) : list binding * Registry :=
  match clients r !! clientID with
  | Some s =>
    if bool_decide (sessionID s = session)
    then ((ρ (client_http clientID r)).*2 ++ (ρ (client_proxies clientID (udp r))).*2, Deactivate clientID session r)
    else ([], r)
  | None => ([], r)
  end.

Definition release_domain (table : gmap string binding) (b : binding) : gmap string binding :=
  if bool_decide (table !! Domain (b_declaration b) = Some b)
  then delete (Domain (b_declaration b)) table else table.

Definition Detach (clientID session : string) (r : Registry) : option Retirement * Registry :=
  match clients r !! clientID with
  | None => (None, r)
  | Some s =>
    if negb (bool_decide (sessionID s = session)) then (None, r)
    else
      let '(tcp', closing, _) := detachPlane ρ clientID (tcp r) in
      let '(udp', closingUDP, _) := detachPlane ρ clientID (udp r) in
      let http := (ρ (client_http clientID r)).*2 in
      (Some {| rt_endpoints := closing; rt_endpointsUDP := closingUDP; rt_cancelled := [];
               rt_closed := http ++ (ρ (client_proxies clientID (udp r))).*2 |},
       r <| clients := delete clientID (clients r) |> <| tcp := tcp' |> <| udp := udp' |>
         <| httpDomains := foldl release_domain (httpDomains r) http |>
         <| httpProxies := delete clientID (httpProxies r) |>)
  end.

Definition CloseRegistry (r : Registry) : Retirement * Registry :=
  ({| rt_endpoints := endpoints (tcp r); rt_endpointsUDP := endpoints (udp r); rt_cancelled := [];
      rt_closed := (map_to_list (proxies (udp r)) ≫= λ c, (ρ c.2).*2) ++ (ρ (httpDomains r)).*2 |},
   {| clients := ∅; tcp := closePlane (tcp r); udp := closePlane (udp r); httpProxies := ∅; httpDomains := ∅;
      managedHTTPDomains := managedHTTPDomains r; httpEnabled := httpEnabled r; httpsEnabled := httpsEnabled r;
      closed := true |}).
End publication.

(** ** Visitors ([tcp.go], [udp.go], [http.go]) *)

(** The guard of [openVisitor]: the session to open a link for. *)
Definition openVisitor (b : binding) (r : Registry) : option clientState :=
  match clients r !! b_clientID b with
  | None => None
  | Some s =>
    if closed r || negb (active s) || negb (bool_decide (sessionID s = b_sessionID b)) ||
       negb (bool_decide (endpointBindings (tcp r) !! b_port b = Some b)) ||
       negb (bool_decide (client_proxies (b_clientID b) (tcp r) !! b_name b = Some b)) ||
       negb (is_some (writer s))
    then None else Some s
  end.

(** [resolveTarget] of UDP and HTTP bindings, over the table of their kind. *)
Definition resolveTarget (table : gmap string binding) (b : binding) (r : Registry) : option clientState :=
  match clients r !! b_clientID b with
  | None => None
  | Some s =>
    if negb (active s) || negb (bool_decide (sessionID s = b_sessionID b)) ||
       negb (bool_decide (table !! b_name b = Some b)) || negb (is_some (writer s))
    then None else Some s
  end.

(** The members of a mirror group that receive a datagram. *)
Definition handleMirrorDatagram (ρ : go_range string binding) (g : mirrorGroup) (r : Registry) : list binding :=
  match mirrorGroups (udp r) !! g_port g with
  | Some current =>
    if bool_decide (g_addr current = g_addr g) then
      filter (λ b, match clients r !! b_clientID b with
                   | Some s => active s && bool_decide (sessionID s = b_sessionID b) &&
                               bool_decide (client_proxies (b_clientID b) (udp r) !! b_name b = Some b)
                   | None => false
                   end = true) (ρ (g_members current)).*2
    else []
  | None => []
  end.

(** ** Mirror groups and reservations *)

Definition is_tcp (t : ProxyType) : bool := bool_decide (t = ProxyTypeTCP).

(** The candidates are built from [addr] on; both protocols are checked before
    either is changed. *)
Definition ConfigureMirrorGroups (ρg : go_range Z mirrorGroup) (ρ : go_range string binding)
    (configuration : ProxyMirrorConfig) (addr : nat) (r : Registry) : option (Retirement * Registry) :=
  let '(addr, candidates) := candidateGroups is_tcp configuration addr in
  let '(_, candidatesUDP) := candidateGroups (λ t, negb (is_tcp t)) configuration addr in
  if closed r then None
  else
    match configurePlane true (modes r) ρg ρ candidates (tcp r),
          configurePlane false (modes r) ρg ρ candidatesUDP (udp r) with
    | Some (tcp', removed, dropped), Some (udp', removedUDP, droppedUDP) =>
      Some ({| rt_endpoints := removed; rt_endpointsUDP := removedUDP; rt_cancelled := dropped;
               rt_closed := droppedUDP |},
            r <| tcp := tcp' |> <| udp := udp' |>)
    | _, _ => None
    end.

Record Reservations := {
  rv_tcp : gmap Z string;
  rv_udp : gmap Z string;
  rv_http : gmap string string
}.
#[export] Instance eta_Reservations : Eta Reservations := λ v,
  {| rv_tcp := rv_tcp v; rv_udp := rv_udp v; rv_http := rv_http v |}.

Definition mirrorPublicIncludesPort (public : list PortRange) (port : Z) : bool :=
  existsb (λ range, (Start range <=? port) && (port <=? End_ range)) public.

(** The first group of the type that has the port decides. *)
Fixpoint mirrorConfigurationAllows (groups : list ProxyMirrorGroupConfig) (t : ProxyType) (port : Z)
    (ids : list string) : bool :=
  match groups with
  | [] => false
  | g :: groups =>
    if negb (bool_decide (MirrorType g = t)) || negb (mirrorPublicIncludesPort (MirrorPublic g) port)
    then mirrorConfigurationAllows groups t port ids
    else forallb (λ id, bool_decide (id ∈ ClientIDs g)) ids
  end.

(** Whether two managed clients may share a port: by the candidate
    configuration if there is one, by the installed groups otherwise. *)
Definition may_share (mirror : option ProxyMirrorConfig) (t : ProxyType) (p : Plane) (port : Z)
    (owner clientID : string) : bool :=
  match mirror with
  | Some configuration => mirrorConfigurationAllows (MirrorManaged configuration) t port [owner; clientID]
  | None =>
    match mirrorGroups p !! port with
    | Some g => allowsMode g owner ModeManaged && allowsMode g clientID ModeManaged
    | None => false
    end
  end.

(** One proxy of a managed client; the type, the port and the domain are what
    the loop reads of it. *)
Record ManagedProxy := { ManagedType : ProxyType; ManagedPort : Z; ManagedDomain : string }.

Definition reserve_port (mirror : option ProxyMirrorConfig) (t : ProxyType) (p : Plane) (clientID : string)
    (port : Z) (table : gmap Z string) : option (gmap Z string) :=
  let owner := default "" (table !! port) in
  if negb (bool_decide (owner = "")) && negb (bool_decide (owner = clientID)) then
    if may_share mirror t p port owner clientID then Some table else None
  else Some (<[port := clientID]> table).

Definition reserve_proxy (mirror : option ProxyMirrorConfig) (r : Registry) (clientID : string)
    (acc : option Reservations) (proxy : ManagedProxy) : option Reservations :=
  v ← acc;
  match ManagedType proxy with
  | ProxyTypeTCP => t ← reserve_port mirror ProxyTypeTCP (tcp r) clientID (ManagedPort proxy) (rv_tcp v);
                    Some (v <| rv_tcp := t |>)
  | ProxyTypeUDP => t ← reserve_port mirror ProxyTypeUDP (udp r) clientID (ManagedPort proxy) (rv_udp v);
                    Some (v <| rv_udp := t |>)
  | ProxyTypeHTTP =>
    let owner := default "" (rv_http v !! ManagedDomain proxy) in
    if negb (bool_decide (owner = "")) && negb (bool_decide (owner = clientID)) then None
    else Some (v <| rv_http := <[ManagedDomain proxy := clientID]> (rv_http v) |>)
  | ProxyTypeOther _ => Some v
  end.

Definition collectReservations (mirror : option ProxyMirrorConfig) (r : Registry)
    (managed : list (string * list ManagedProxy)) : option Reservations :=
  foldl (λ acc c, foldl (reserve_proxy mirror r c.1) acc c.2) (Some {| rv_tcp := ∅; rv_udp := ∅; rv_http := ∅ |}) managed.

Definition bindingOwnedByManagedClientLocked (owner reserved : string) (r : Registry) : bool :=
  bool_decide (owner = reserved) &&
  match clients r !! owner with
  | Some s => bool_decide (Mode (authentication s) = ModeManaged)
  | None => false
  end.

(** No reserved port or domain is bound by somebody else. *)
Definition unbound {K} `{Countable K} (table : gmap K string) (routes : gmap K binding) (r : Registry) : bool :=
  bool_decide (map_Forall (λ k owner,
    match routes !! k with
    | Some b => bindingOwnedByManagedClientLocked (b_clientID b) owner r
    | None => true
    end = true) table).

(** [managed] are the clients in the order of the loop.  The reservations are
    collected before the registration lock is taken, in the state [seen]; the
    routes are compared with them under the lock. *)
Definition BeginManagedReservationUpdate (managed : list (string * list ManagedProxy))
    (mirror : option ProxyMirrorConfig) (seen r : Registry) : option Reservations :=
  v ← collectReservations mirror seen managed;
  if unbound (rv_tcp v) (endpointBindings (tcp r)) r && unbound (rv_udp v) (endpointBindings (udp r)) r &&
     unbound (rv_http v) (httpDomains r) r
  then Some v else None.

Definition CommitReservations (v : Reservations) (r : Registry) : Registry :=
  r <| tcp := (tcp r) <| managedPorts := rv_tcp v |> |> <| udp := (udp r) <| managedPorts := rv_udp v |> |>
    <| managedHTTPDomains := rv_http v |>.
