(* ===== verification/MirrorTcp.v ===== *)
(** * One visitor of a TCP mirror group ([internal/proxy/mirror])

    A [TCPSession] copies what one visitor sends to the links of all members
    of a group and returns what the Primary answers.  It is a set of threads
    around one mutex: [Serve], which reads the visitor; per client a worker
    that opens the link and replaces it when it fails; per link a writer that
    empties the queue of the member, and a reader of its responses.

    Every thread is a program counter in the state, and every critical section,
    channel operation and call on a connection is one step; [step] is the
    transition function, with the outcome of the outside world (what a read
    returns, how much of a write is accepted, whether setting a deadline fails)
    in the action.  Contexts are flags.  A channel that is only ever closed is
    a flag, or the program counter of the thread that closes it.  A timer is a
    number.  [member.close] closes [stopped] first and the connection later:
    the second half is a step of its own ([CloseConnection]).  Callers of
    [close] wait for it only where that matters ([SFanClose], [KClosing]); for
    the others the model has more interleavings than the code.

    [log] (the input that was handed out), [joined], [written], [withheld] and
    [output] record what happened and influence nothing. *)

From S2P Require Import Prelude GoTime NetAddr.

Local Open Scope Z_scope.

Definition mirrorTCPChunkSize : nat := 32 * 1024.
Definition mirrorTCPQueueDepth : nat := 32.
Definition mirrorTCPRetryInterval : Duration := Second.
Definition mirrorTCPMaxRetryInterval : Duration := 5 * Second.

(** ** Data *)

(** The fields of [link.Target] a session uses; a writer is its address. *)
Record Target := {
  ClientID : string;
  SessionID : string;
  BindingName : string;
  BindingID : string;
  Writer : nat
}.
#[export] Instance target_eq_dec : EqDecision Target.
Proof. solve_decision. Defined.

Inductive Closing := ConnOpen | ConnClosing | ConnClosed.
#[export] Instance closing_eq_dec : EqDecision Closing.
Proof. solve_decision. Defined.

Inductive ReadError := EOF | ReadFailed.
#[export] Instance read_error_eq_dec : EqDecision ReadError.
Proof. solve_decision. Defined.

(** [writeLoop] *)
Inductive WriterPc :=
| WSelect
| WDeadline (payload : list byte)
| WWrite (rest : list byte)
| WDone.
#[export] Instance writer_pc_eq_dec : EqDecision WriterPc.
Proof. solve_decision. Defined.

(** [copyResponse] and the goroutine around it.  [authority] is the Primary
    when the write was admitted. *)
Inductive ReaderPc :=
| RRead
| RAcquire (chunk : list byte) (e : option ReadError)
| RAdmit (chunk : list byte) (e : option ReadError)
| RWriting (authority : option string) (rest : list byte) (e : option ReadError)
| RRelease (failed : bool) (e : option ReadError)
| RFree (failed : bool) (e : option ReadError)
| RCheck (e : option ReadError)
| REofAcquire
| REofAdmit
| REofClose
| REofFree (eligible : bool)
| RDone.
#[export] Instance reader_pc_eq_dec : EqDecision ReaderPc.
Proof. solve_decision. Defined.

Record tcpMember := {
  target : Target;
  queue : list (list byte);
  queue_closed : bool;
  m_close : Closing;
  drainTimer : option nat;
  deadline : bool;
  half_closed : bool;
  wpc : WriterPc;
  rpc : ReaderPc;
  joined : nat;
  written : list byte;
  withheld : bool
}.
#[export] Instance eta_tcpMember : Eta tcpMember := λ m,
  {| target := target m; queue := queue m; queue_closed := queue_closed m; m_close := m_close m;
     drainTimer := drainTimer m; deadline := deadline m; half_closed := half_closed m; wpc := wpc m;
     rpc := rpc m; joined := joined m; written := written m; withheld := withheld m |}.

(** [runWorker] *)
Inductive WorkerPc :=
| KPrevious (previous : option nat)
| KGuard
| KContext (valid : bool)
| KInput
| KOpen
| KPublish
| KStart (member : nat) (previous : option nat)
| KServe (member : nat)
| KDrain (member : nat)
| KFlush (member : nat)
| KClose (member : nat)
| KClosing (member : nat)
| KAbandon (member : nat)
| KJoin (member : nat)
| KRemove (member : nat)
| KRetry
| KExit
| KDone.
#[export] Instance worker_pc_eq_dec : EqDecision WorkerPc.
Proof. solve_decision. Defined.

Record tcpWorker := {
  k_target : Target;
  k_cancelled : bool;
  initialDone : bool;
  delay : Duration;
  kpc : WorkerPc
}.
#[export] Instance eta_tcpWorker : Eta tcpWorker := λ w,
  {| k_target := k_target w; k_cancelled := k_cancelled w; initialDone := initialDone w; delay := delay w; kpc := kpc w |}.

(** [Serve]; [ready] is a channel of [AddTarget]: that of a worker, or one that
    is closed already. *)
Inductive ServePc :=
| SIdle
| SAdd (targets : list Target) (ready : list (option nat))
| SWait (ready : list (option nat))
| SLoop
| SRead
| SSnapshot (payload : list byte) (e : option ReadError)
| SFan (payload : list byte) (to : list nat) (e : option ReadError)
| SFanClose (payload : list byte) (id : nat) (rest : list nat) (e : option ReadError)
| SFanBlock (payload : list byte) (id : nat) (rest : list nat) (e : option ReadError) (changed : nat)
| SCheck (e : option ReadError)
| SClose
| SCloseQueues (to : list nat)
| SDrain
| SExit
| SCancel
| SJoin
| SDone.
#[export] Instance serve_pc_eq_dec : EqDecision ServePc.
Proof. solve_decision. Defined.

(** [primaryChanged] is a channel that is replaced when it is closed: its
    generation.  [inputDone] and [inputContext] end with [closed].  [current] is
    what the [TargetGuard] accepts.  [panicked] is a send on a closed channel
    or a second close. *)
Record TCPSession := {
  cancelled : bool;
  closed : bool;
  members : gmap string nat;
  workers : gmap string nat;
  memberReady : bool;
  responseGate : option nat;
  responseWriter : option nat;
  responseClosed : bool;
  primaryChanged : nat;
  primaryClientID : option string;
  heap : gmap nat tcpMember;
  threads : gmap nat tcpWorker;
  next_id : nat;
  timers : nat;
  visitor_deadline : bool;
  visitor_closed : bool;
  visitor_half : bool;
  spc : ServePc;
  current : gmap string Target;
  log : list byte;
  output : list (nat * option string * list byte);
  panicked : bool
}.
#[export] Instance eta_TCPSession : Eta TCPSession := λ s,
  {| cancelled := cancelled s; closed := closed s; members := members s; workers := workers s;
     memberReady := memberReady s; responseGate := responseGate s; responseWriter := responseWriter s;
     responseClosed := responseClosed s; primaryChanged := primaryChanged s; primaryClientID := primaryClientID s;
     heap := heap s; threads := threads s; next_id := next_id s; timers := timers s;
     visitor_deadline := visitor_deadline s; visitor_closed := visitor_closed s; visitor_half := visitor_half s;
     spc := spc s; current := current s; log := log s; output := output s; panicked := panicked s |}.

Definition NewTCPSession : TCPSession :=
  {| cancelled := false; closed := false; members := ∅; workers := ∅; memberReady := false;
     responseGate := None; responseWriter := None; responseClosed := false; primaryChanged := 0; primaryClientID := None;
     heap := ∅; threads := ∅; next_id := 0; timers := 0; visitor_deadline := false; visitor_closed := false;
     visitor_half := false; spc := SIdle; current := ∅; log := []; output := []; panicked := false |}.

(** ** Sections of the code *)

Definition on_member (id : nat) (f : tcpMember → tcpMember) (s : TCPSession) : TCPSession :=
  s <| heap := alter f id (heap s) |>.
Definition on_worker (w : nat) (f : tcpWorker → tcpWorker) (s : TCPSession) : TCPSession :=
  s <| threads := alter f w (threads s) |>.

Definition Cancel (s : TCPSession) : TCPSession := s <| cancelled := true |>.

Definition stopped (m : tcpMember) : bool := negb (bool_decide (m_close m = ConnOpen)).

(** [close], its first half: [closeOnce] and [stopped]. *)
Definition close (m : tcpMember) : tcpMember :=
  match m_close m with ConnOpen => m <| m_close := ConnClosing |> | _ => m end.

Definition isPrimary (s : TCPSession) (m : tcpMember) : bool :=
  bool_decide (primaryClientID s = Some (ClientID (target m))).

Definition published (s : TCPSession) (id : nat) (m : tcpMember) : bool :=
  bool_decide (members s !! ClientID (target m) = Some id).

(** [ok]: whether [SetWriteDeadline] succeeds. *)
Definition updateMemberRoleLocked (s : TCPSession) (ok : bool) (m : tcpMember) : tcpMember :=
  let m := if ok then m <| deadline := negb (isPrimary s m) |> else close m in
  m <| drainTimer := if closed s && negb (isPrimary s m) then Some (timers s) else None |>.

(** The loop over [session.members]; the calls for different members do not
    depend on each other. *)
Definition update_roles (failing : gset nat) (s : TCPSession) : TCPSession :=
  s <| heap := map_imap (λ id m, Some (if published s id m
                                       then updateMemberRoleLocked s (bool_decide (id ∉ failing)) m else m)) (heap s) |>
    <| timers := S (timers s) |>.

Definition SetPrimary (clientID : string) (failing : gset nat) (ok : bool) (s : TCPSession) : TCPSession :=
  if bool_decide (primaryClientID s = Some clientID) then s
  else
    let s := s <| primaryClientID := Some clientID |> <| primaryChanged := S (primaryChanged s) |> in
    let s := update_roles failing s in
    let s :=
      match responseWriter s ≫= λ id, heap s !! id with
      | Some writer =>
        if ok then s <| visitor_deadline := negb (bool_decide (ClientID (target writer) = clientID)) |> else Cancel s
      | None => s
      end in
    if responseClosed s then Cancel s else s.

Definition IsCurrent (s : TCPSession) (t : Target) : bool := bool_decide (current s !! ClientID t = Some t).

Definition new_worker (t : Target) (previous : option nat) : tcpWorker :=
  {| k_target := t; k_cancelled := false; initialDone := false; delay := mirrorTCPRetryInterval; kpc := KPrevious previous |}.

Definition same_generation (a b : Target) : bool :=
  bool_decide (BindingID a = BindingID b) && bool_decide (SessionID a = SessionID b) && bool_decide (Writer a = Writer b).

(** The channel that is returned is that of a worker, or a closed one. *)
Definition AddTarget (t : Target) (s : TCPSession) : TCPSession * option nat :=
  if negb (IsCurrent s t) then (s, None)
  else
    let previous := workers s !! ClientID t in
    let start :=
      if closed s || cancelled s then (s, None)
      else
        let w := next_id s in
        let s := s <| workers := <[ClientID t := w]> (workers s) |> <| next_id := S w |> in
        let s := match previous with Some p => on_worker p (λ k, k <| k_cancelled := true |>) s | None => s end in
        (s <| threads := <[w := new_worker t previous]> (threads s) |>, Some w) in
    match previous, previous ≫= λ p, threads s !! p with
    | Some p, Some k => if same_generation (k_target k) t then (s, Some p) else start
    | _, _ => start
    end.

Definition new_member (t : Target) (from : nat) : tcpMember :=
  {| target := t; queue := []; queue_closed := false; m_close := ConnOpen; drainTimer := None; deadline := false;
     half_closed := false; wpc := WSelect; rpc := RRead; joined := from; written := []; withheld := false |}.

(** [addConnection], up to the unlock: the new member and the one it replaces. *)
Definition addConnection (t : Target) (s : TCPSession) : TCPSession * option (nat * option nat) :=
  if closed s then (s, None)
  else
    let id := next_id s in
    (s <| heap := <[id := new_member t (length (log s))]> (heap s) |>
       <| members := <[ClientID t := id]> (members s) |> <| memberReady := true |> <| next_id := S id |>,
     Some (id, members s !! ClientID t)).

Definition responseEligibleLocked (s : TCPSession) (id : nat) (m : tcpMember) : bool :=
  negb (cancelled s) && published s id m && isPrimary s m && negb (stopped m).

Section session.
Context (ρ : go_range string nat).

Definition snapshotMembers (s : TCPSession) : list nat := (ρ (members s)).*2.

Definition closeInput (failing : gset nat) (s : TCPSession) : TCPSession * list nat :=
  if closed s then (s, [])
  else (update_roles failing (s <| closed := true |>), snapshotMembers s).
End session.

(** ** Threads

    A choice is the branch of a [select], or what the outside world did. *)

Inductive Choice :=
| Next                                         (* the only thing to do *)
| OnStopped | OnCancelled | OnQueue | OnDone | OnInputDone | OnReady | OnMember | OnChanged | OnTimer | OnGate
| Outcome (ok : bool)                          (* a call succeeded or failed *)
| Accept (n : nat)                             (* a connection took [n] bytes of a write *)
| Read (chunk : list byte) (e : option ReadError)
| Failing (ids : gset nat).                    (* connections on which [SetWriteDeadline] fails *)

(** A connection takes at least one byte at a time, and no more than there are. *)
Definition some_of (n : nat) (rest : list byte) : bool := bool_decide (0 < n ≤ length rest)%nat.

(** One iteration of [writeLoop] is up to four steps. *)
Definition writer_step (id : nat) (c : Choice) (s : TCPSession) : option TCPSession :=
  match heap s !! id with
  | None => None
  | Some m =>
    match wpc m, c with
    | WSelect, OnStopped => if stopped m then Some (on_member id (λ m, m <| wpc := WDone |>) s) else None
    | WSelect, OnCancelled =>
      if cancelled s then Some (on_member id (λ m, (close m) <| wpc := WDone |>) s) else None
    | WSelect, OnQueue =>
      match queue m with
      | payload :: rest => Some (on_member id (λ m, m <| queue := rest |> <| wpc := WDeadline payload |>) s)
      | [] => None
      end
    | WSelect, Outcome ok =>                   (* the queue is closed: [closeWrite] *)
      match queue m with
      | [] =>
        if negb (queue_closed m) then None
        else if ok && negb (bool_decide (m_close m = ConnClosed))
        then Some (on_member id (λ m, m <| half_closed := true |> <| wpc := WDone |>) s)
        else Some (on_member id (λ m, (close m) <| wpc := WDone |>) s)
      | _ :: _ => None
      end
    | WDeadline payload, Outcome ok =>         (* [setWriteDeadline] *)
      if ok then Some (on_member id (λ m, m <| deadline := negb (isPrimary s m) |> <| wpc := WWrite payload |>) s)
      else Some (on_member id (λ m, (close m) <| wpc := WDone |>) s)
    | WWrite rest, Accept n =>
      if bool_decide (m_close m = ConnClosed) || negb (some_of n rest) then None
      else Some (on_member id (λ m, m <| written := written m ++ take n rest |> <| wpc := WWrite (drop n rest) |>) s)
    | WWrite rest, Outcome ok =>
      if ok then if bool_decide (rest = []) then Some (on_member id (λ m, m <| wpc := WSelect |>) s) else None
      else Some (on_member id (λ m, (close m) <| wpc := WDone |>) s)
    | _, _ => None
    end
  end.

(** The goroutine of [addConnection] closes the member unless [copyResponse]
    returns true. *)
Definition reader_goto (id : nat) (pc : ReaderPc) (s : TCPSession) : TCPSession := on_member id (λ m, m <| rpc := pc |>) s.
Definition reader_fail (id : nat) (s : TCPSession) : TCPSession := on_member id (λ m, (close m) <| rpc := RDone |>) s.

(** [acquireResponse] *)
Definition acquireResponse (id : nat) (pc : ReaderPc) (c : Choice) (s : TCPSession) : option TCPSession :=
  match c with
  | OnGate => if is_some (responseGate s) then None else Some (reader_goto id pc (s <| responseGate := Some id |>))
  | OnCancelled => if cancelled s then Some (reader_fail id s) else None
  | _ => None
  end.

Definition reader_step (id : nat) (c : Choice) (s : TCPSession) : option TCPSession :=
  match heap s !! id with
  | None => None
  | Some m =>
    match rpc m with
    | RRead =>
      match c with
      | Read chunk e =>
        if bool_decide (m_close m = ConnClosed) && negb (bool_decide (chunk = [] ∧ is_Some e)) then None
        else if bool_decide (mirrorTCPChunkSize < length chunk)%nat then None
        else if negb (bool_decide (chunk = [])) && isPrimary s m then Some (reader_goto id (RAcquire chunk e) s)
        else Some (reader_goto id (RCheck e) s)
      | _ => None
      end
    | RAcquire chunk e => acquireResponse id (RAdmit chunk e) c s
    | RAdmit chunk e =>
      match c with
      | Outcome ok =>                          (* [visitor.SetWriteDeadline] *)
        if responseEligibleLocked s id m then
          if responseClosed s then Some (reader_goto id (RRelease true e) s)
          else
            let s := s <| responseWriter := Some id |> in
            if ok then Some (reader_goto id (RWriting (primaryClientID s) chunk e) (s <| visitor_deadline := false |>))
            else Some (reader_goto id (RRelease true e) s)
        else Some (reader_goto id (RRelease false e) s)
      | _ => None
      end
    | RWriting authority rest e =>
      match c with
      | Accept n =>
        if visitor_closed s || negb (some_of n rest) then None
        else Some (reader_goto id (RWriting authority (drop n rest) e)
                     (s <| output := output s ++ [(id, authority, take n rest)] |>))
      | Outcome ok =>
        if ok then if bool_decide (rest = []) then Some (reader_goto id (RRelease false e) s) else None
        else Some (reader_goto id (RRelease true e) s)
      | _ => None
      end
    | RRelease failed e =>
      match c with
      | Next =>
        let s := s <| responseWriter := None |> in
        Some (reader_goto id (RFree failed e) (if failed then Cancel s else s))
      | _ => None
      end
    | RFree failed e =>
      match c with
      | Next =>
        let s := s <| responseGate := None |> in
        Some (if failed then reader_fail id s else reader_goto id (RCheck e) s)
      | _ => None
      end
    | RCheck e =>
      match c with
      | Next =>
        match e with
        | None => Some (reader_goto id RRead s)
        | Some e => if bool_decide (e = EOF) && isPrimary s m then Some (reader_goto id REofAcquire s) else Some (reader_fail id s)
        end
      | _ => None
      end
    | REofAcquire => acquireResponse id REofAdmit c s
    | REofAdmit =>
      match c with
      | Next =>
        if responseEligibleLocked s id m then Some (reader_goto id REofClose (s <| responseClosed := true |>))
        else Some (reader_goto id (REofFree false) s)
      | _ => None
      end
    | REofClose =>
      match c with
      | Outcome ok =>                          (* [closeWrite(session.visitor)] *)
        Some (reader_goto id (REofFree true) (if ok then s <| visitor_half := true |> else Cancel s))
      | _ => None
      end
    | REofFree eligible =>
      match c with
      | Next =>
        let s := s <| responseGate := None |> in
        Some (if eligible then reader_goto id RDone s else reader_fail id s)
      | _ => None
      end
    | RDone => None
    end
  end.

(** *** Workers *)

Definition worker_goto (w : nat) (pc : WorkerPc) (s : TCPSession) : TCPSession := on_worker w (λ k, k <| kpc := pc |>) s.

Definition worker_cancelled (s : TCPSession) (k : tcpWorker) : bool := k_cancelled k || cancelled s.

(** The entry of a worker in [session.workers], if it is its own. *)
Definition forget_worker (w : nat) (k : tcpWorker) (s : TCPSession) : TCPSession :=
  if bool_decide (workers s !! ClientID (k_target k) = Some w)
  then s <| workers := delete (ClientID (k_target k)) (workers s) |> else s.

Definition member_is (P : tcpMember → bool) (id : nat) (s : TCPSession) : bool :=
  match heap s !! id with Some m => P m | None => false end.
Definition writer_done (m : tcpMember) : bool := bool_decide (wpc m = WDone).
Definition reader_done (m : tcpMember) : bool := bool_decide (rpc m = RDone).

Definition when (b : bool) (s : TCPSession) : option TCPSession := if b then Some s else None.

Definition worker_step (w : nat) (c : Choice) (s : TCPSession) : option TCPSession :=
  match threads s !! w with
  | None => None
  | Some k =>
    match kpc k with
    | KPrevious None => match c with Next => Some (worker_goto w KGuard s) | _ => None end
    | KPrevious (Some p) =>
      match c with
      | OnDone => when (match threads s !! p with Some q => bool_decide (kpc q = KDone) | None => false end) (worker_goto w KGuard s)
      | OnCancelled => when (worker_cancelled s k) (worker_goto w KExit s)
      | _ => None
      end
    | KGuard =>
      match c with
      | Next =>
        let valid := IsCurrent s (k_target k) in
        Some (worker_goto w (KContext valid) (if valid then s else forget_worker w k s))
      | _ => None
      end
    | KContext valid =>
      match c with
      | Next => Some (worker_goto w (if negb valid || worker_cancelled s k then KExit else KInput) s)
      | _ => None
      end
    | KInput => match c with Next => Some (worker_goto w (if closed s then KExit else KOpen) s) | _ => None end
    | KOpen =>
      match c with
      | Outcome ok =>
        if ok then Some (worker_goto w KPublish s)
        else Some (on_worker w (λ k, k <| initialDone := true |> <| kpc := KRetry |>) s)
      | _ => None
      end
    | KPublish =>
      match c with
      | Next =>
        match (if IsCurrent s (k_target k) && negb (worker_cancelled s k) then addConnection (k_target k) s else (s, None)) with
        | (s, Some (member, previous)) => Some (worker_goto w (KStart member previous) s)
        | (s, None) => Some (on_worker w (λ k, k <| initialDone := true |> <| kpc := KRetry |>) s)
        end
      | _ => None
      end
    | KStart member previous =>
      match c with
      | Next =>
        let s := match previous with Some p => on_member p close s | None => s end in
        Some (on_worker w (λ k, k <| initialDone := true |> <| delay := mirrorTCPRetryInterval |> <| kpc := KServe member |>) s)
      | _ => None
      end
    | KServe member =>
      match c with
      | OnStopped => when (member_is stopped member s) (worker_goto w (KClose member) s)
      | OnCancelled => when (worker_cancelled s k) (worker_goto w (KClose member) s)
      | OnInputDone => when (closed s) (worker_goto w (KDrain member) s)
      | _ => None
      end
    | KDrain member =>
      match c with
      | OnDone => when (member_is writer_done member s) (worker_goto w (KFlush member) s)
      | OnStopped => when (member_is stopped member s) (worker_goto w (KClose member) s)
      | OnCancelled => when (worker_cancelled s k) (worker_goto w (KClose member) s)
      | _ => None
      end
    | KFlush member =>
      match c with
      | OnDone => when (member_is reader_done member s) (worker_goto w (KClose member) s)
      | OnStopped => when (member_is stopped member s) (worker_goto w (KClose member) s)
      | OnCancelled => when (worker_cancelled s k) (worker_goto w (KClose member) s)
      | _ => None
      end
    | KClose member => match c with Next => Some (worker_goto w (KClosing member) (on_member member close s)) | _ => None end
    | KClosing member =>
      match c with
      | Next => when (member_is (λ m, bool_decide (m_close m = ConnClosed)) member s) (worker_goto w (KAbandon member) s)
      | _ => None
      end
    | KAbandon member =>
      match c with
      | Next => Some (worker_goto w (KJoin member) (if bool_decide (responseWriter s = Some member) then Cancel s else s))
      | _ => None
      end
    | KJoin member =>
      match c with
      | OnDone => when (member_is (λ m, writer_done m && reader_done m) member s) (worker_goto w (KRemove member) s)
      | _ => None
      end
    | KRemove member =>
      match c with
      | Next =>
        let client := ClientID (k_target k) in
        Some (worker_goto w KRetry
                (if bool_decide (members s !! client = Some member) then s <| members := delete client (members s) |> else s))
      | _ => None
      end
    | KRetry =>
      match c with
      | OnTimer => Some (on_worker w (λ k, k <| delay := Z.min (delay k * 2) mirrorTCPMaxRetryInterval |> <| kpc := KGuard |>) s)
      | OnCancelled => when (worker_cancelled s k) (worker_goto w KExit s)
      | OnInputDone => when (closed s) (worker_goto w KExit s)
      | _ => None
      end
    | KExit =>
      match c with
      | Next =>
        Some (on_worker w (λ k, k <| k_cancelled := true |> <| initialDone := true |> <| kpc := KDone |>) (forget_worker w k s))
      | _ => None
      end
    | KDone => None
    end
  end.

(** *** Serve and the other entry points *)

Definition serve_goto (pc : ServePc) (s : TCPSession) : TCPSession := s <| spc := pc |>.

Definition is_closed_channel (s : TCPSession) (ready : option nat) : bool :=
  match ready with
  | None => true
  | Some w => match threads s !! w with Some k => initialDone k | None => false end
  end.

(** A send on the queue; on a closed queue it panics. *)
Definition send (id : nat) (payload : list byte) (s : TCPSession) : TCPSession :=
  let s := if member_is queue_closed id s then s <| panicked := true |> else s in
  on_member id (λ m, m <| queue := queue m ++ [payload] |>) s.

Definition has_room (m : tcpMember) : bool := bool_decide (length (queue m) < mirrorTCPQueueDepth)%nat.

(** [enqueue], one iteration of its loop, up to the unlock.  A replica whose
    queue is full is closed; for the Primary the send blocks. *)
Definition enqueue (id : nat) (m : tcpMember) (payload : list byte) (rest : list nat) (e : option ReadError) (s : TCPSession) :
    TCPSession :=
  if negb (isPrimary s m) then
    if has_room m then serve_goto (SFan payload rest e) (send id payload s)
    else serve_goto (SFanClose payload id rest e) (on_member id close s)
  else serve_goto (SFanBlock payload id rest e (primaryChanged s)) s.

(** [close(member.queue)]; the second time it panics. *)
Definition close_queue (id : nat) (s : TCPSession) : TCPSession :=
  let s := if member_is queue_closed id s then s <| panicked := true |> else s in
  on_member id (λ m, m <| queue_closed := true |>) s.

Definition all_done (s : TCPSession) : bool := bool_decide (map_Forall (λ _ k, kpc k = KDone) (threads s)).

Section threads.
Context (ρ : go_range string nat).

Definition serve_step (c : Choice) (s : TCPSession) : option TCPSession :=
  match spc s with
  | SIdle => None
  | SAdd [] ready => match c with Next => Some (serve_goto (SWait ready) s) | _ => None end
  | SAdd (t :: targets) ready =>
    match c with
    | Next => let '(s, channel) := AddTarget t s in Some (serve_goto (SAdd targets (ready ++ [channel])) s)
    | _ => None
    end
  | SWait [] => match c with Next => Some (serve_goto SLoop s) | _ => None end
  | SWait (channel :: ready) =>
    match c with
    | OnReady => when (is_closed_channel s channel) (serve_goto (SWait ready) s)
    | OnMember => when (memberReady s) (serve_goto SLoop s)
    | OnCancelled => when (cancelled s) (serve_goto SExit s)
    | _ => None
    end
  | SLoop => match c with Next => Some (serve_goto (if cancelled s then SExit else SRead) s) | _ => None end
  | SRead =>
    match c with
    | Read chunk e =>
      if visitor_closed s && negb (bool_decide (chunk = [] ∧ e = Some ReadFailed)) then None
      else if bool_decide (mirrorTCPChunkSize < length chunk)%nat then None
      else Some (serve_goto (if bool_decide (chunk = []) then SCheck e else SSnapshot chunk e) s)
    | _ => None
    end
  | SSnapshot payload e =>
    match c with
    | Next => Some (serve_goto (SFan payload (snapshotMembers ρ s) e) (s <| log := log s ++ payload |>))
    | _ => None
    end
  | SFan payload [] e => match c with Next => Some (serve_goto (SCheck e) s) | _ => None end
  | SFan payload (id :: rest) e =>
    match c, heap s !! id with
    | Next, Some m => Some (enqueue id m payload rest e s)
    | _, _ => None
    end
  | SFanClose payload id rest e =>
    match c with
    | Next => when (member_is (λ m, bool_decide (m_close m = ConnClosed)) id s) (serve_goto (SFan payload rest e) s)
    | _ => None
    end
  | SFanBlock payload id rest e changed =>
    let proceed := serve_goto (SFan payload rest e) in
    match c with
    | OnQueue => when (member_is has_room id s) (proceed (send id payload s))
    | OnStopped => when (member_is stopped id s) (proceed (on_member id (λ m, m <| withheld := true |>) s))
    | OnCancelled => when (cancelled s) (proceed s)
    | OnChanged => when (negb (bool_decide (changed = primaryChanged s))) (serve_goto (SFan payload (id :: rest) e) s)
    | _ => None
    end
  | SCheck e =>
    match c with
    | Next => Some (serve_goto match e with None => SLoop | Some EOF => SClose | Some ReadFailed => SExit end s)
    | _ => None
    end
  | SClose =>
    match c with
    | Failing ids => let '(s, list) := closeInput ρ ids s in Some (serve_goto (SCloseQueues list) s)
    | _ => None
    end
  | SCloseQueues [] => match c with Next => Some (serve_goto SDrain s) | _ => None end
  | SCloseQueues (id :: rest) => match c with Next => Some (serve_goto (SCloseQueues rest) (close_queue id s)) | _ => None end
  | SDrain =>
    match c with
    | OnDone => when (all_done s) (serve_goto SExit s)
    | OnCancelled => when (cancelled s) (serve_goto SExit s)
    | _ => None
    end
  | SExit => match c with Failing ids => Some (serve_goto SCancel (closeInput ρ ids s).1) | _ => None end
  | SCancel => match c with Next => Some (serve_goto SJoin (Cancel s)) | _ => None end
  | SJoin => match c with OnDone => when (all_done s) (serve_goto SDone (s <| visitor_closed := true |>)) | _ => None end
  | SDone => None
  end.

Inductive Action :=
| DoCancel                                             (* [Cancel], or the context the session was made with *)
| DoSetPrimary (clientID : string) (failing : gset nat) (ok : bool)
| DoAddTarget (t : Target)
| DoServe (targets : list Target)
| SetCurrent (clientID : string) (t : option Target)   (* the registry changes *)
| ServeStep (c : Choice)
| WriterStep (id : nat) (c : Choice)
| ReaderStep (id : nat) (c : Choice)
| WorkerStep (w : nat) (c : Choice)
| CloseConnection (id : nat)                           (* the second half of [close] *)
| CloseVisitor                                         (* [context.AfterFunc(ctx, visitor.Close)] *)
| CloseCancelled (w : nat)                             (* [context.AfterFunc(worker.context, member.close)] *)
| DrainExpired (id : nat) (timer : nat).

(** The member whose [AfterFunc] is registered. *)
Definition watched (pc : WorkerPc) : option nat :=
  match pc with
  | KServe id | KDrain id | KFlush id | KClose id | KClosing id | KAbandon id => Some id
  | _ => None
  end.

Definition step (a : Action) (s : TCPSession) : option TCPSession :=
  match a with
  | DoCancel => Some (Cancel s)
  | DoSetPrimary clientID failing ok => Some (SetPrimary clientID failing ok s)
  | DoAddTarget t => Some (AddTarget t s).1
  | DoServe targets => when (bool_decide (spc s = SIdle)) (serve_goto (SAdd targets []) s)
  | SetCurrent clientID t => Some (s <| current := partial_alter (λ _, t) clientID (current s) |>)
  | ServeStep c => serve_step c s
  | WriterStep id c => writer_step id c s
  | ReaderStep id c => reader_step id c s
  | WorkerStep w c => worker_step w c s
  | CloseConnection id =>
    when (member_is (λ m, bool_decide (m_close m = ConnClosing)) id s) (on_member id (λ m, m <| m_close := ConnClosed |>) s)
  | CloseVisitor => when (cancelled s) (s <| visitor_closed := true |>)
  | CloseCancelled w =>
    match threads s !! w with
    | Some k => match watched (kpc k) with
                | Some id => when (worker_cancelled s k) (on_member id close s)
                | None => None
                end
    | None => None
    end
  | DrainExpired id timer =>
    match heap s !! id with
    | Some m => when (bool_decide (drainTimer m = Some timer) && negb (isPrimary s m)) (on_member id close s)
    | None => None
    end
  end.

Inductive reachable : TCPSession → Prop :=
| reachable_new : reachable NewTCPSession
| reachable_step s a s' : reachable s → step a s = Some s' → reachable s'.
End threads.
