(* ===== verification/ProxyPlacement.v ===== *)
(** * Where the bindings of the proxy registry are entered

    [ProxyPlane.plane_ok] says how the tables of one protocol lead to each
    other.  This file is about less, which therefore holds more often: a binding
    is entered under its own port, name and client, whatever else has happened.
    Registrations that meet a replacement of the mirror groups keep it. *)

From S2P Require Import Prelude GoTime NetAddr ControlFrame Authentication PortPolicy ConfigVNet ConfigProxy ProxyPlane.

Local Open Scope Z_scope.

(** The proxies of [c], by name, each with a listener. *)
Definition named_table (c : string) (table : gmap string binding) : Prop :=
  ∀ n b, table !! n = Some b → b_name b = n ∧ b_clientID b = c ∧ is_Some (b_endpoint b).

Record placed (p : Plane) : Prop := {
  pl_named c : named_table c (client_proxies c p);
  pl_route q b : endpointBindings p !! q = Some b → b_port b = q;
  pl_member q g c b : mirrorGroups p !! q = Some g → g_members g !! c = Some b → b_port b = q ∧ b_clientID b = c
}.

(** Who may share the ports of a plane. *)
Definition policy (g : mirrorGroup) : string * list string := (g_mode g, ClientIDs (g_configuration g)).

Definition same_policy (p p' : Plane) : Prop := ∀ q, policy <$> mirrorGroups p' !! q = policy <$> mirrorGroups p !! q.

#[global] Instance same_policy_preorder : PreOrder same_policy.
Proof. split; [done|]. intros p1 p2 p3 H1 H2 q. by rewrite H2, H1. Qed.

Lemma locked_policy c ms ms' p p' q : same_policy p p' → ms' !! c = ms !! c →
  mirrorGroups p !! q = None ∨ is_Some (mirrorGroupLocked c ms q p) →
  mirrorGroups p' !! q = None ∨ is_Some (mirrorGroupLocked c ms' q p').
Proof.
  intros Hs Hms Hq. specialize (Hs q). unfold mirrorGroupLocked in *.
  destruct (mirrorGroups p !! q) as [g|], (mirrorGroups p' !! q) as [g'|]; try done; try (by left).
  injection Hs as Em Ec. right. destruct Hq as [?|[g0 Hg]]; [done|].
  unfold allows, allowsMode in *. rewrite Hms, Em, Ec. by destruct (match ms !! c with Some _ => _ | None => _ end).
Qed.

(** A client that no group of a port admits is admitted by none with the same
    policy. *)
Lemma locked_none c ms p p' q : same_policy p p' → mirrorGroupLocked c ms q p' = None → mirrorGroupLocked c ms q p = None.
Proof.
  intros Hs. specialize (Hs q). unfold mirrorGroupLocked. destruct (mirrorGroups p !! q) as [g|], (mirrorGroups p' !! q) as [g'|]; try done.
  injection Hs as Em Ec. unfold allows, allowsMode. rewrite Em, Ec. by destruct (match ms !! c with Some _ => _ | None => _ end).
Qed.

(** The tables of ports, without the proxies of the clients. *)
Definition ports_placed (p : Plane) : Prop :=
  (∀ q b, endpointBindings p !! q = Some b → b_port b = q) ∧
  (∀ q g c b, mirrorGroups p !! q = Some g → g_members g !! c = Some b → b_port b = q ∧ b_clientID b = c).

Lemma placed_split p : placed p ↔ ports_placed p ∧ ∀ c, named_table c (client_proxies c p).
Proof. split; [by intros [H1 H2 H3]|]. intros [[H1 H2] H3]. by constructor. Qed.

(** ** Publication *)

(** The entries of a plane during a publication for [c]. *)
Record publishing (c : string) (ms : gmap string string) (ok : binding → Prop) (p p' : Plane) : Prop := {
  pg_ports : ports_placed p';
  pg_proxies : proxies p' = proxies p;
  pg_managed : managedPorts p' = managedPorts p;
  pg_policy : same_policy p p';
  pg_binding q b : endpointBindings p' !! q = Some b →
    endpointBindings p !! q = Some b ∨ ok b ∧ b_port b = q ∧ mirrorGroupLocked c ms q p = None
}.

Lemma publish_binding_placed c ms ok p acc b : publishing c ms ok p acc.1 → ok b → b_clientID b = c →
  publishing c ms ok p (publish_binding c ms acc b).1.
Proof.
  destruct acc as [p0 next]. cbn [fst]. intros [[P1 P2] P3 P4 P5 P6] Hok Hc. unfold publish_binding.
  match goal with |- context [match b_endpoint b with Some e => (?x <| endpoints := _ |>, _) | None => _ end] => set (p1 := x) end.
  assert (Hp1 : publishing c ms ok p p1).
  { subst p1. destruct (mirrorGroupLocked c ms (b_port b) p0) as [g|] eqn:Hl.
    - assert (Hg : mirrorGroups p0 !! b_port b = Some g).
      { unfold mirrorGroupLocked in Hl. destruct (mirrorGroups p0 !! b_port b) as [g'|]; [|done]. destruct (allows _ _ _); [|done]. by injection Hl as ->. }
      set (g1 := if bool_decide (g_endpoint g = None) then g <| g_endpoint := b_endpoint b |> else g).
      assert (E1 : g_members g1 = g_members g ∧ policy g1 = policy g) by (subst g1; by case_match). destruct E1 as [Em Ep].
      constructor; cbn; [split; cbn|done|done| |].
      + intros q x [_ Hx]%lookup_delete_Some. by apply P1.
      + intros q g' c' x. rewrite lookup_insert. case_decide as Hq; [|apply P2]. intros [= <-]. cbn. rewrite Em, lookup_insert.
        case_decide as Hc'; [intros [= <-]; subst; done|]. intros Hx. subst q. by eapply P2.
      + intros q. cbn. rewrite lookup_insert. case_decide as Hq; [|apply P5]. subst q. rewrite <- P5, Hg. cbn. f_equal. exact Ep.
      + intros q x [_ Hx]%lookup_delete_Some. by apply P6.
    - constructor; cbn; [split; cbn|done|done|done|].
      + intros q x. rewrite lookup_insert. case_decide; [by intros [= <-]|apply P1].
      + done.
      + intros q x. rewrite lookup_insert. case_decide as Hq; [|apply P6]. intros [= <-]. subst q. right. split_and!; [done|done|by eapply locked_none]. }
  clearbody p1. destruct Hp1 as [Q1 Q2 Q3 Q4 Q5]. destruct (b_endpoint b); by constructor.
Qed.

Lemma retire_binding_placed c ms ok p next nextEndpoints acc x : publishing c ms ok p acc.1 →
  publishing c ms ok p (retire_binding c next nextEndpoints acc x).1.
Proof.
  destruct acc as [p0 removed]. cbn [fst]. intros [[P1 P2] P3 P4 P5 P6]. unfold retire_binding.
  match goal with |- context [if negb (bool_decide (nextEndpoints !! _ = _)) && negb (is_some (mirrorGroups ?y !! _)) then _ else _] => set (p1 := y) end.
  assert (Hp1 : publishing c ms ok p p1).
  { subst p1. destruct (mirrorGroups p0 !! b_port x) as [g|] eqn:Hg; [|by constructor]. destruct (bool_decide (g_members g !! c = Some x) && _); [|by constructor].
    constructor; cbn; [split; cbn; [done|]|done|done| |done].
    - intros q g' c' y. rewrite lookup_insert. case_decide as Hq; [|apply P2]. intros [= <-]. cbn. intros [_ Hy]%lookup_delete_Some. subst q. by eapply P2.
    - intros q. cbn. rewrite lookup_insert. case_decide as Hq; [|apply P5]. subst q. by rewrite <- P5, Hg. }
  clearbody p1. destruct (_ && _); [|done]. cbn [fst]. destruct (bool_decide _); [|done]. destruct Hp1 as [[Q1 Q1'] Q2 Q3 Q4 Q5].
  constructor; cbn; [split; cbn; [|done]|done|done|done|].
  - intros q y [_ Hy]%lookup_delete_Some. by apply Q1.
  - intros q y [_ Hy]%lookup_delete_Some. by apply Q5.
Qed.

Lemma publish_placed ρ c ms existing next p : placed p → named_table c next →
  let p' := (publishPlane ρ c ms existing next p).1 in
  placed p' ∧ proxies p' = <[c := next]> (proxies p) ∧ managedPorts p' = managedPorts p ∧ same_policy p p' ∧
  ∀ q b, endpointBindings p' !! q = Some b → endpointBindings p !! q = Some b ∨
    next !! b_name b = Some b ∧ b_port b = q ∧ mirrorGroupLocked c ms q p = None.
Proof.
  intros [Hp Hn]%placed_split Hnext. cbv zeta. unfold publishPlane. set (ok := λ b, next !! b_name b = Some b).
  assert (H1 : ∀ l acc, (∀ b, b ∈ l → ok b ∧ b_clientID b = c) → publishing c ms ok p acc.1 →
    publishing c ms ok p (foldl (publish_binding c ms) acc l).1).
  { induction l as [|b l IH]; intros acc Hl Hacc; [done|]. cbn [foldl]. apply IH; [intros x Hx; apply Hl; by right|].
    destruct (Hl b) as [??]; [left|]. by apply publish_binding_placed. }
  assert (H2 : ∀ nextEndpoints l acc, publishing c ms ok p acc.1 → publishing c ms ok p (foldl (retire_binding c next nextEndpoints) acc l).1).
  { induction l as [|b l IH]; intros acc Hacc; [done|]. cbn [foldl]. by apply IH, retire_binding_placed. }
  assert (H0 : publishing c ms ok p p) by (constructor; [done|done|done|done|by left]).
  specialize (H1 (ρ next).*2 (p, ∅)). destruct (foldl (publish_binding c ms) (p, ∅) (ρ next).*2) as [p1 nextEndpoints]. cbn [fst] in H1.
  assert (Hp1 : publishing c ms ok p p1).
  { apply H1; [|done]. intros b ([n b'] & -> & Hb%range_elem)%list_elem_of_fmap. cbn. destruct (Hnext _ _ Hb) as (En & ? & _). unfold ok. by rewrite En. }
  specialize (H2 nextEndpoints (ρ existing).*2 (p1, ∅) Hp1). destruct (foldl (retire_binding _ _ _) _ _) as [p2 removed]. cbn [fst] in *.
  destruct H2 as [Q1 Q2 Q3 Q4 Q5]. split_and!; [|cbn; by rewrite Q2|done|done|done]. apply placed_split. split; [exact Q1|].
  intros c' n b. unfold client_proxies. cbn. rewrite Q2, lookup_insert. case_decide as Hc; [subst c'; apply Hnext|apply (Hn c')].
Qed.

(** What was published is entered: [b] has its port, in the table of ordinary
    routes or in the group of the port. *)
Record entered (c : string) (p : Plane) (nextEndpoints : gmap Z Endpoint) (b : binding) : Prop := {
  en_route : endpointBindings p !! b_port b = Some b ∨ ∃ g, mirrorGroups p !! b_port b = Some g ∧ g_members g !! c = Some b;
  en_endpoint : endpoints p !! b_port b = b_endpoint b;
  en_next : nextEndpoints !! b_port b = b_endpoint b
}.

Lemma publish_binding_enters c ms acc b : is_Some (b_endpoint b) →
  entered c (publish_binding c ms acc b).1 (publish_binding c ms acc b).2 b ∧
  ∀ b', b_port b' ≠ b_port b → entered c acc.1 acc.2 b' → entered c (publish_binding c ms acc b).1 (publish_binding c ms acc b).2 b'.
Proof.
  intros [e He]. destruct acc as [p next]. unfold publish_binding. rewrite He. cbn [fst snd].
  destruct (mirrorGroupLocked c ms (b_port b) p) as [g|]; cbn [fst snd].
  - split.
    + constructor; cbn; rewrite ?lookup_insert_eq; try done. right. eexists. split; [done|]. cbn. by rewrite lookup_insert_eq.
    + intros b' Hne [H1 H2 H3]. constructor; cbn; rewrite ?lookup_insert_ne, ?lookup_delete_ne by done; done.
  - split.
    + constructor; cbn; rewrite ?lookup_insert_eq; try done. by left.
    + intros b' Hne [H1 H2 H3]. constructor; cbn; rewrite ?lookup_insert_ne by done; done.
Qed.

Lemma retire_binding_enters c next nextEndpoints acc x b : next !! b_name b = Some b →
  entered c acc.1 nextEndpoints b → entered c (retire_binding c next nextEndpoints acc x).1 nextEndpoints b.
Proof.
  intros Hb. destruct acc as [p removed]. cbn [fst]. intros [H1 H2 H3]. unfold retire_binding.
  match goal with |- context [if negb (bool_decide (nextEndpoints !! _ = _)) && negb (is_some (mirrorGroups ?y !! _)) then _ else _] => set (p1 := y) end.
  assert (Hp1 : entered c p1 nextEndpoints b).
  { subst p1. destruct (mirrorGroups p !! b_port x) as [g|] eqn:Hg; [|by constructor].
    destruct (bool_decide (g_members g !! c = Some x)) eqn:Em; [|by constructor]. destruct (bool_decide (next !! b_name x = Some x)) eqn:En; [by constructor|].
    apply bool_decide_eq_true in Em. apply bool_decide_eq_false in En. cbn [andb negb]. constructor; cbn; [|done|done].
    destruct H1 as [H1|(g0 & Hg0 & Hm)]; [by left|]. right. destruct (decide (b_port x = b_port b)) as [Eq|Hne].
    - exfalso. rewrite Eq, Hg0 in Hg. injection Hg as <-. rewrite Hm in Em. injection Em as <-. done.
    - exists g0. by rewrite lookup_insert_ne. }
  clearbody p1. destruct (bool_decide (nextEndpoints !! b_port x = b_endpoint x)) eqn:Ex; [done|]. cbn [negb andb].
  destruct (negb (is_some _)); [|done]. cbn [fst]. destruct (bool_decide (endpoints p1 !! b_port x = b_endpoint x)) eqn:Ee; [|done].
  apply bool_decide_eq_false in Ex. apply bool_decide_eq_true in Ee. destruct Hp1 as [Q1 Q2 Q3].
  assert (Hne : b_port x ≠ b_port b) by (intros Eq; rewrite Eq in *; congruence).
  constructor; cbn; rewrite ?lookup_delete_ne by done; done.
Qed.

(** Every binding of a publication is routed afterwards. *)
Lemma publish_routed ρ c ms existing next p : named_table c next →
  (∀ n b n' b', next !! n = Some b → next !! n' = Some b' → b_port b = b_port b' → b = b') →
  ∀ n b, next !! n = Some b → routed (publishPlane ρ c ms existing next p).1 b.
Proof.
  intros Hnext Hports n b Hb. unfold publishPlane.
  assert (H1 : ∀ l acc, (∀ b, b ∈ l → next !! b_name b = Some b) → NoDup l →
    ∀ b, b ∈ l ∨ entered c acc.1 acc.2 b ∧ (∀ x, x ∈ l → b_port b ≠ b_port x) →
    entered c (foldl (publish_binding c ms) acc l).1 (foldl (publish_binding c ms) acc l).2 b).
  { induction l as [|x l IH]; intros acc Hl Hnd b0 Hb0; [destruct Hb0 as [?%elem_of_nil|[? _]]; done|]. cbn [foldl].
    apply NoDup_cons in Hnd as [Hx Hnd]. assert (Hlx : next !! b_name x = Some x) by (apply Hl; left).
    destruct (publish_binding_enters c ms acc x) as [He Hk]; [by apply (Hnext _ _ Hlx)|].
    apply IH; [intros y Hy; apply Hl; by right|done|]. destruct Hb0 as [[->|Hin]%elem_of_cons|[Hen Hne]]; [right|by left|right].
    - split; [done|]. intros y Hy Eq. apply Hx. assert (y = x) as <-; [|done]. eapply Hports; [apply Hl; by right|exact Hlx|done].
    - split; [apply Hk; [apply Hne; left|done]|]. intros y Hy. apply Hne. by right. }
  specialize (H1 (ρ next).*2 (p, ∅)). destruct (foldl (publish_binding c ms) (p, ∅) (ρ next).*2) as [p1 nextEndpoints]. cbn [fst snd] in H1.
  assert (Hin : ∀ y, y ∈ (ρ next).*2 → next !! b_name y = Some y).
  { intros y ([m y'] & -> & Hy%range_elem)%list_elem_of_fmap. cbn. by destruct (Hnext _ _ Hy) as (-> & _). }
  assert (Hen : entered c p1 nextEndpoints b).
  { apply H1; [done| |left; apply list_elem_of_fmap; exists (n, b); by rewrite range_elem].
    apply (NoDup_fmap_1 b_name). assert (E : b_name <$> (ρ next).*2 = (ρ next).*1); [|rewrite E; apply range_NoDup].
    rewrite <- list_fmap_compose. apply list_fmap_ext. intros i [m y] Hy. apply list_elem_of_lookup_2, range_elem in Hy. cbn. by destruct (Hnext _ _ Hy) as (-> & _). }
  assert (H2 : ∀ l acc, entered c acc.1 nextEndpoints b → entered c (foldl (retire_binding c next nextEndpoints) acc l).1 nextEndpoints b).
  { induction l as [|x l IH]; intros acc Hacc; [done|]. cbn [foldl]. apply IH, retire_binding_enters; [|done]. by destruct (Hnext _ _ Hb) as (-> & _). }
  specialize (H2 (ρ existing).*2 (p1, ∅) Hen). destruct (foldl (retire_binding _ _ _) _ _) as [p2 removed]. cbn [fst] in *.
  destruct H2 as [Hr _ _]. destruct (Hnext _ _ Hb) as (_ & Hc & _). unfold routed. cbn. destruct Hr as [?|(g & ? & ?)]; [by left|right; exists g; by rewrite Hc].
Qed.

(** ** Removal *)

(** Entries only go. *)
Record leaving (p p' : Plane) : Prop := {
  lv_groups q g' : mirrorGroups p' !! q = Some g' → ∃ g, mirrorGroups p !! q = Some g ∧ g_members g' ⊆ g_members g;
  lv_policy : same_policy p p';
  lv_routes : endpointBindings p' ⊆ endpointBindings p;
  lv_managed : managedPorts p' = managedPorts p;
  lv_proxies : proxies p' = proxies p
}.

#[global] Instance leaving_preorder : PreOrder leaving.
Proof.
  split; [intros p; constructor; [by eauto|done..]|]. intros p1 p2 p3 [A1 A2 A3 A4 A5] [B1 B2 B3 B4 B5]. constructor; [|by etrans|by etrans|congruence..].
  intros q g Hg. destruct (B1 _ _ Hg) as (g1 & Hg1 & ?), (A1 _ _ Hg1) as (g2 & ? & ?). exists g2. split; [done|by etrans].
Qed.

Lemma leaving_ports p p' : leaving p p' → ports_placed p → ports_placed p'.
Proof.
  intros [L1 _ L3 _ _] [P1 P2]. split.
  - intros q b Hb. apply P1. by eapply lookup_weaken.
  - intros q g c b Hg Hb. destruct (L1 _ _ Hg) as (g0 & Hg0 & Hs). eapply P2; [done|by eapply lookup_weaken].
Qed.

Lemma detach_binding_leaving c acc b : leaving acc.1.1 (detach_binding c acc b).1.1.
Proof.
  destruct acc as [[p closing] sessions]. unfold detach_binding. cbn [fst].
  assert (Hdel : ∀ q g g' e, mirrorGroups p !! q = Some g → g_members g' ⊆ g_members g → policy g' = policy g →
    leaving p (p <| mirrorGroups := <[q := g']> (mirrorGroups p) |> <| endpoints := e |>)).
  { intros q g g' e Hg Hs Hpo. constructor; cbn; try done.
    - intros q' x. rewrite lookup_insert. case_decide as Hq; [|by eauto]. intros [= <-]. subst q'. eauto.
    - intros q'. cbn. rewrite lookup_insert. case_decide as Hq; [|done]. subst q'. rewrite Hg. cbn. by f_equal. }
  assert (Hord : let acc' := if bool_decide (endpoints p !! b_port b = b_endpoint b)
      then (p <| endpoints := delete (b_port b) (endpoints p) |> <| endpointBindings := delete (b_port b) (endpointBindings p) |>,
            match b_endpoint b with Some e => <[b_port b := e]> closing | None => closing end, sessions) else (p, closing, sessions) in
    leaving p acc'.1.1).
  { case_bool_decide; cbn; [|done]. constructor; cbn; try done; [by eauto|apply delete_subseteq]. }
  destruct (mirrorGroups p !! b_port b) as [g|] eqn:Eg; [|exact Hord]. destruct (bool_decide (g_members g !! c = Some b)); [|exact Hord].
  destruct (bool_decide _ && bool_decide _).
  - apply (Hdel _ g); [done|apply delete_subseteq|done].
  - apply (Hdel _ g _ (endpoints p)); [done|apply delete_subseteq|done].
Qed.

Lemma detach_placed ρ c p : placed p →
  let p' := (detachPlane ρ c p).1.1 in
  placed p' ∧ proxies p' = delete c (proxies p) ∧ managedPorts p' = managedPorts p ∧ endpointBindings p' ⊆ endpointBindings p.
Proof.
  intros [Hp Hn]%placed_split. cbv zeta. unfold detachPlane.
  assert (Hf : ∀ l acc, leaving acc.1.1 (foldl (detach_binding c) acc l).1.1).
  { induction l as [|b l IH]; intros acc; [done|]. cbn [foldl]. etrans; [apply detach_binding_leaving|apply IH]. }
  specialize (Hf (ρ (client_proxies c p)).*2 (p, ∅, ∅)). destruct (foldl _ _ _) as [[p1 closing] sessions]. cbn [fst] in *.
  pose proof (leaving_ports _ _ Hf Hp) as Hp1. destruct Hf as [_ _ L3 L4 L5]. split_and!; [|cbn; by rewrite L5|done|done].
  apply placed_split. split; [exact Hp1|]. intros c' n b. unfold client_proxies. cbn. rewrite L5, lookup_delete. case_decide; [done|apply (Hn c')].
Qed.

(** ** Replacing the groups *)

Lemma drop_fold_subset l : ∀ table c n b, default (∅ : gmap string binding) (foldl drop_proxy table l !! c) !! n = Some b →
  default ∅ (table !! c) !! n = Some b.
Proof.
  induction l as [|x l IH]; intros table c n b Hb; [done|]. cbn [foldl] in Hb. apply IH in Hb. rewrite drop_proxy_lookup in Hb. by case_decide.
Qed.

Lemma kept_owner_members stable p q g : g_members (keep_owner stable p q g) = g_members g.
Proof. unfold keep_owner. repeat case_match; done. Qed.

Lemma configure_placed stable ms ρg ρ candidates p p' removed dropped : (∀ q g, candidates !! q = Some g → g_members g = ∅) →
  configurePlane stable ms ρg ρ candidates p = Some (p', removed, dropped) → placed p →
  placed p' ∧ managedPorts p' = managedPorts p ∧ endpointBindings p' ⊆ endpointBindings p.
Proof.
  intros Hblank E [[P1 P2] Hn]%placed_split. unfold configurePlane in E. destruct (bool_decide _); [|done]. apply (inj Some) in E.
  apply (f_equal (λ x, x.1.1)) in E. cbn in E. subst p'. cbn. split_and!; [|done|].
  - apply placed_split. split; [split; cbn|].
    + intros q b [Hb _]%map_lookup_filter_Some. by apply P1.
    + intros q g c b. rewrite lookup_fmap, !map_lookup_imap. destruct (candidates !! q) as [cand|] eqn:Hc; [|done]. cbn.
      destruct (inherit ms p q cand) as [inh|] eqn:Hi; [|done]. cbn. intros Hg%(inj Some) Hb.
      assert (Hm : g_members inh !! c = Some b) by (rewrite <- Hb, <- Hg; case_match; cbn; by rewrite kept_owner_members).
      unfold inherit in Hi. destruct (mirrorGroups p !! q) as [old|] eqn:Ho.
      * apply (inj Some) in Hi as <-. cbn in Hm. apply map_lookup_filter_Some in Hm as [Hm _]. by eapply P2.
      * destruct (endpoints p !! q); [|apply (inj Some) in Hi as <-; by rewrite (Hblank _ _ Hc) in Hm].
        destruct (endpointBindings p !! q) as [b0|] eqn:Hb0; [|done]. destruct (allows _ _ _); [|done]. apply (inj Some) in Hi as <-.
        cbn in Hm. rewrite (Hblank _ _ Hc) in Hm. apply lookup_insert_Some in Hm as [[<- <-]|[_ ?]]; [|done]. split; [by apply P1|done].
    + intros c n b Hb. unfold client_proxies in Hb. cbn in Hb. apply drop_fold_subset in Hb. by apply (Hn c).
  - apply map_filter_subseteq.
Qed.

Lemma close_placed p : placed (closePlane p).
Proof. constructor; cbn; [intros c n b; unfold client_proxies; cbn; by rewrite !lookup_empty|intros *; by rewrite lookup_empty..]. Qed.

Lemma empty_placed : placed empty_plane.
Proof. constructor; cbn; [intros c n b; unfold client_proxies; cbn; by rewrite !lookup_empty|intros *; by rewrite lookup_empty..]. Qed.

(** ** The sessions of a group *)

Lemma sessions_placed p q g S : mirrorGroups p !! q = Some g → placed p →
  placed (p <| mirrorGroups := <[q := g <| g_sessions := S |>]> (mirrorGroups p) |>).
Proof.
  intros Hg [H1 H2 H3]. constructor; cbn; [done|done|]. intros q' g' c b. rewrite lookup_insert. case_decide as Hq; [|apply H3].
  intros [= <-]. cbn. subst q'. by apply H3.
Qed.

Lemma sessions_policy p q g S : mirrorGroups p !! q = Some g →
  same_policy p (p <| mirrorGroups := <[q := g <| g_sessions := S |>]> (mirrorGroups p) |>).
Proof. intros Hg q'. cbn. rewrite lookup_insert. case_decide as Hq; [|done]. subst q'. by rewrite Hg. Qed.

Lemma sessions_plane_ok p q g S : mirrorGroups p !! q = Some g → plane_ok p →
  plane_ok (p <| mirrorGroups := <[q := g <| g_sessions := S |>]> (mirrorGroups p) |>).
Proof.
  intros Hg [H1 H2 H3 H4 H5]. constructor; cbn.
  - intros port b Hb. destruct (H1 _ _ Hb) as (Hn & ? & ? & ? & ?). split_and!; try done. rewrite lookup_insert_ne; [done|]. intros ->. congruence.
  - intros port g'. rewrite lookup_insert. case_decide as Hq; [|apply H2]. intros [= <-]. cbn. subst port. by apply H2.
  - intros port g' c b. rewrite lookup_insert. case_decide as Hq; [|apply H3]. intros [= <-]. cbn. subst port. by apply H3.
  - intros port e He. destruct (H4 _ _ He) as [? [?|?]]; (split; [done|]); [left|by right]. by apply lookup_insert_is_Some'; right.
  - intros c n b Hb. destruct (H5 _ _ _ Hb) as (? & ? & [Hr|(g0 & Hg0 & Hm)]); split_and!; try done; [by left|]. right. cbn.
    destruct (decide (q = b_port b)) as [->|Hne].
    + exists (g <| g_sessions := S |>). rewrite lookup_insert_eq. split; [done|]. cbn. congruence.
    + exists g0. by rewrite lookup_insert_ne.
Qed.
