(* ===== verification/MirrorRegistry.v ===== *)
(** * The registry's side of TCP mirroring ([internal/proxy/registry/mirror_tcp.go])

    The registry keeps the live sessions of every TCP mirror group, tells them
    which members exist and decides, as their [TargetGuard], which of them are
    still current.  [MirrorTcp] takes the answers of the guard from a table with
    at most one target per client; here that table is read off the registry, and
    the targets a session is given when it starts are shown to be the right
    ones; [MirrorJoins] has those it is given when a client becomes active. *)

From S2P Require Import Prelude GoTime NetAddr MirrorTcp Authentication PortPolicy ConfigProxy ProxyPlane ProxyPlacement ProxyRegistry.

Local Open Scope Z_scope.

Definition mirrorTCPMaxSessions : nat := 4096.
Definition mirrorTCPMaxSessionsPerGroup : nat := 256.

Definition mirrorTCPLinkTarget (clientID : string) (state : clientState) (w : nat) (b : binding) : MirrorTcp.Target :=
  {| MirrorTcp.ClientID := clientID; MirrorTcp.SessionID := sessionID state; MirrorTcp.BindingName := b_name b;
     MirrorTcp.BindingID := b_bindingID b; MirrorTcp.Writer := w |}.

(** The group object a session was started for, if it is still installed. *)
Definition installed_group (r : Registry) (port : Z) (addr : nat) : option mirrorGroup :=
  match mirrorGroups (tcp r) !! port with
  | Some g => if bool_decide (g_addr g = addr) then Some g else None
  | None => None
  end.

(** [mirrorTargetGuard.IsCurrent] *)
Definition IsCurrent (r : Registry) (port : Z) (addr : nat) (t : MirrorTcp.Target) : bool :=
  match installed_group r port addr, clients r !! MirrorTcp.ClientID t with
  | Some g, Some state =>
    negb (closed r) && active state && bool_decide (sessionID state = MirrorTcp.SessionID t) &&
    bool_decide (writer state = Some (MirrorTcp.Writer t)) &&
    match g_members g !! MirrorTcp.ClientID t with
    | Some b => bool_decide (b_bindingID b = MirrorTcp.BindingID t) &&
                bool_decide (client_proxies (MirrorTcp.ClientID t) (tcp r) !! MirrorTcp.BindingName t = Some b)
    | None => false
    end
  | _, _ => false
  end.

Definition session_count (groups : gmap Z mirrorGroup) : nat :=
  sum_list_with (λ q, size (g_sessions q.2)) (map_to_list groups).

(** [addMirrorTCPSession]; the session gets the Primary of the group. *)
Definition addMirrorTCPSession (port : Z) (addr session : nat) (r : Registry) : option (string * Registry) :=
  match installed_group r port addr with
  | Some g =>
    if closed r || bool_decide (mirrorTCPMaxSessionsPerGroup ≤ size (g_sessions g))%nat then None
    else if bool_decide (mirrorTCPMaxSessions ≤ session_count (mirrorGroups (tcp r)))%nat then None
    else Some (PrimaryClientID (g_configuration g),
               r <| tcp := (tcp r) <| mirrorGroups := <[port := g <| g_sessions := {[session]} ∪ g_sessions g |>]>
                                        (mirrorGroups (tcp r)) |> |>)
  | None => None
  end.

(** [removeMirrorTCPSession]; a group that is no longer installed is garbage. *)
Definition removeMirrorTCPSession (port : Z) (addr session : nat) (r : Registry) : Registry :=
  match installed_group r port addr with
  | Some g => r <| tcp := (tcp r) <| mirrorGroups := <[port := g <| g_sessions := g_sessions g ∖ {[session]} |>]>
                                      (mirrorGroups (tcp r)) |> |>
  | None => r
  end.

Section joins.
Context (ρ : go_range string binding).

(** [mirrorTCPJoinsLocked], for a client with a writer. *)
Definition joins_of (r : Registry) (clientID : string) (state : clientState) (w : nat) (b : binding) :
    list (nat * MirrorTcp.Target) :=
  match mirrorGroups (tcp r) !! b_port b with
  | Some g =>
    if allows g clientID (modes r) && bool_decide (g_members g !! clientID = Some b)
    then (λ session, (session, mirrorTCPLinkTarget clientID state w b)) <$> elements (g_sessions g)
    else []
  | None => []
  end.

Definition mirrorTCPJoinsLocked (r : Registry) (clientID : string) (state : clientState) (w : nat) :
    list (nat * MirrorTcp.Target) :=
  (ρ (client_proxies clientID (tcp r))).*2 ≫= joins_of r clientID state w.

(** [snapshotMirrorTCPTargets] *)
Definition snapshot_target (r : Registry) (m : string * binding) : option MirrorTcp.Target :=
  match clients r !! m.1 with
  | Some state =>
    if active state && bool_decide (sessionID state = b_sessionID m.2) &&
       bool_decide (client_proxies m.1 (tcp r) !! b_name m.2 = Some m.2)
    then match writer state with Some w => Some (mirrorTCPLinkTarget m.1 state w m.2) | None => None end
    else None
  | None => None
  end.

Definition snapshotMirrorTCPTargets (r : Registry) (port : Z) (addr : nat) : list MirrorTcp.Target :=
  match installed_group r port addr with
  | Some g => omap (snapshot_target r) (ρ (g_members g))
  | None => []
  end.

(** [Activate], with the sessions it notifies. *)
Definition ActivateJoins (clientID session : string) (r : Registry) : Registry * list (nat * MirrorTcp.Target) :=
  let r' := Activate clientID session r in
  match clients r !! clientID with
  | Some state =>
    if bool_decide (sessionID state = session)
    then (r', match writer state with Some w => mirrorTCPJoinsLocked r' clientID state w | None => [] end)
    else (r', [])
  | None => (r', [])
  end.

(** The end of [configureMirrorGroupsLocked]: the sessions that get a Primary
    and the members they are told of. *)
Definition primary_updates (ρg : go_range Z mirrorGroup) (r : Registry) : list (nat * string) :=
  (ρg (mirrorGroups (tcp r))).*2 ≫= λ g, (λ session, (session, PrimaryClientID (g_configuration g))) <$> elements (g_sessions g).

Definition active_joins (ρc : go_range string clientState) (r : Registry) : list (nat * MirrorTcp.Target) :=
  ρc (clients r) ≫= λ q,
    if active q.2 then match writer q.2 with Some w => mirrorTCPJoinsLocked r q.1 q.2 w | None => [] end else [].
End joins.

(** ** The guard as a table *)

(** The target of a client that the guard accepts. *)
Definition current_target (r : Registry) (g : mirrorGroup) (clientID : string) : option MirrorTcp.Target :=
  match clients r !! clientID, g_members g !! clientID with
  | Some state, Some b =>
    match writer state with
    | Some w => if active state && bool_decide (client_proxies clientID (tcp r) !! b_name b = Some b)
                then Some (mirrorTCPLinkTarget clientID state w b) else None
    | None => None
    end
  | _, _ => None
  end.

Definition current_targets (r : Registry) (port : Z) (addr : nat) : gmap string MirrorTcp.Target :=
  match installed_group r port addr with
  | Some g => if closed r then ∅ else map_imap (λ c _, current_target r g c) (g_members g)
  | None => ∅
  end.

Section guard.
Context (r : Registry) (Hp : placed (tcp r)).

Lemma installed_group_spec port addr g : installed_group r port addr = Some g ↔
  mirrorGroups (tcp r) !! port = Some g ∧ g_addr g = addr.
Proof using Type.
  unfold installed_group. destruct (mirrorGroups (tcp r) !! port) as [g'|]; [|naive_solver].
  case_bool_decide; naive_solver.
Qed.

Lemma current_targets_lookup port addr g c : installed_group r port addr = Some g → closed r = false →
  current_targets r port addr !! c = current_target r g c.
Proof using Type.
  intros Hg Hc. unfold current_targets. rewrite Hg, Hc, map_lookup_imap. unfold current_target.
  destruct (g_members g !! c); cbn; [done|]. by destruct (clients r !! c).
Qed.

Lemma current_target_spec g c t : current_target r g c = Some t ↔ ∃ state b w, clients r !! c = Some state ∧ g_members g !! c = Some b ∧
  writer state = Some w ∧ active state = true ∧ client_proxies c (tcp r) !! b_name b = Some b ∧ t = mirrorTCPLinkTarget c state w b.
Proof using Type.
  unfold current_target. split.
  - destruct (clients r !! c) as [state|]; [|done]. destruct (g_members g !! c) as [b|]; [|done].
    destruct (writer state) as [w|] eqn:Ew; [|done]. destruct (_ && _) eqn:E; [|done]. intros [= <-]. bool_to_prop. naive_solver.
  - intros (state & b & w & -> & -> & -> & -> & Hb & ->). by rewrite bool_decide_eq_true_2.
Qed.

(** The guard accepts exactly the targets of the table. *)
Lemma guard_table port addr t : IsCurrent r port addr t = true ↔ current_targets r port addr !! MirrorTcp.ClientID t = Some t.
Proof using Hp.
  unfold IsCurrent. destruct (installed_group r port addr) as [g|] eqn:Hg; cycle 1.
  { unfold current_targets. rewrite Hg, lookup_empty. done. }
  destruct (closed r) eqn:Hc.
  { unfold current_targets. rewrite Hg, Hc, lookup_empty. by destruct (clients r !! _). }
  rewrite (current_targets_lookup _ _ g) by done. rewrite current_target_spec. split.
  - destruct (clients r !! _) as [state|] eqn:Es; [|done]. destruct (g_members g !! _) as [b|] eqn:Eb; [|by rewrite andb_false_r].
    intros H. bool_to_prop. exists state, b, (MirrorTcp.Writer t).
    match goal with H : client_proxies _ _ !! _ = Some b |- _ => destruct (pl_named _ Hp _ _ _ H) as (En & _ & _); rewrite En end.
    split_and!; try done. unfold mirrorTCPLinkTarget. destruct t; cbn in *. congruence.
  - destruct t as [c se bn bi w']. cbn. intros (state & b & w & -> & -> & -> & -> & Hb & [= -> -> -> ->]). cbn.
    by rewrite !bool_decide_eq_true_2.
Qed.
End guard.

(** ** Theorems *)

Section theorems.
Context (ρ : go_range string binding).

(** The members a new mirror session is started with are exactly those its
    guard accepts at that moment, except members that were registered under an
    earlier session of their client and have not been registered again. *)
Theorem mirror_snapshot_exact r port addr t : placed (tcp r) → closed r = false →
  t ∈ snapshotMirrorTCPTargets ρ r port addr ↔
  IsCurrent r port addr t = true ∧ ∃ g b, mirrorGroups (tcp r) !! port = Some g ∧ g_members g !! MirrorTcp.ClientID t = Some b ∧
    b_sessionID b = MirrorTcp.SessionID t.
Proof using Type.
  intros Hp Hc. rewrite guard_table by done. unfold snapshotMirrorTCPTargets.
  destruct (installed_group r port addr) as [g|] eqn:Hg; cycle 1.
  { unfold current_targets. rewrite Hg, lookup_empty, elem_of_nil. naive_solver. }
  rewrite (current_targets_lookup _ _ _ g) by done. rewrite current_target_spec, list_elem_of_omap.
  apply installed_group_spec in Hg as [Hg _]. split.
  - intros ([c b] & Hin & Ht). apply range_elem in Hin. unfold snapshot_target in Ht. cbn in Ht.
    destruct (clients r !! c) as [state|] eqn:Es; [|done]. destruct (_ && _) eqn:E; [|done]. bool_to_prop.
    destruct (writer state) as [w|] eqn:Ew; [|done]. injection Ht as <-. cbn. split; [naive_solver|]. eauto.
  - destruct t as [c se bn bi w']. cbn. intros ((state & b & w & Es & Eb & Ew & Ea & Hb & [= -> -> -> ->]) & g' & b' & Hg' & Hb' & Hse).
    assert (g' = g) as -> by congruence. assert (b' = b) as -> by congruence.
    exists (c, b). rewrite range_elem. split; [done|]. unfold snapshot_target. cbn.
    by rewrite Es, Ea, Ew, !bool_decide_eq_true_2.
Qed.

Lemma joins_elem r c state w session t : (session, t) ∈ mirrorTCPJoinsLocked ρ r c state w ↔
  ∃ n b g, client_proxies c (tcp r) !! n = Some b ∧ mirrorGroups (tcp r) !! b_port b = Some g ∧ allows g c (modes r) = true ∧
    g_members g !! c = Some b ∧ session ∈ g_sessions g ∧ t = mirrorTCPLinkTarget c state w b.
Proof using Type.
  unfold mirrorTCPJoinsLocked. rewrite list_elem_of_bind. split.
  - intros (b & Hin & Hb). apply list_elem_of_fmap in Hb as ([n b'] & -> & Hb). apply range_elem in Hb. cbn in *.
    unfold joins_of in Hin. destruct (mirrorGroups (tcp r) !! b_port b') as [g|] eqn:Hg; [|by apply elem_of_nil in Hin].
    destruct (_ && _) eqn:E; [|by apply elem_of_nil in Hin]. bool_to_prop.
    apply list_elem_of_fmap in Hin as (x & [= -> ->] & Hx%elem_of_elements). exists n, b', g. by split_and!.
  - intros (n & b & g & Hb & Hg & Ha & Hm & Hs & ->). exists b. split.
    + unfold joins_of. rewrite Hg, Ha, bool_decide_eq_true_2 by done. apply list_elem_of_fmap. exists session.
      by rewrite elem_of_elements.
    + apply list_elem_of_fmap. exists (n, b). by rewrite range_elem.
Qed.

Lemma activate_fields c session r : tcp (Activate c session r) = tcp r ∧ closed (Activate c session r) = closed r ∧
  modes (Activate c session r) = modes r.
Proof using Type.
  unfold Activate, update_session, modes. destruct (clients r !! c) as [state|] eqn:E; [|done]. case_match; [|done]. cbn. split_and!; try done.
  rewrite fmap_insert. cbn. apply insert_id. by rewrite lookup_fmap, E.
Qed.

(** *** Limits *)

Definition sessions_ok (r : Registry) : Prop :=
  (session_count (mirrorGroups (tcp r)) ≤ mirrorTCPMaxSessions)%nat ∧
  map_Forall (λ _ g, size (g_sessions g) ≤ mirrorTCPMaxSessionsPerGroup)%nat (mirrorGroups (tcp r)).

Lemma session_count_insert groups port g g' : groups !! port = Some g →
  (session_count (<[port := g']> groups) + size (g_sessions g) = session_count groups + size (g_sessions g'))%nat.
Proof using Type.
  intros Hg. unfold session_count.
  rewrite <- (map_to_list_delete groups port g Hg), <- (map_to_list_delete (<[port := g']> groups) port g') by apply lookup_insert_eq.
  rewrite delete_insert_eq. cbn. lia.
Qed.

(** A mirror group never has more than 256 visitors at a time and all
    groups together no more than 4096: a session is added only below both
    limits, and removing one keeps them. *)
Theorem mirror_sessions_bounded r port addr session : sessions_ok r →
  (∀ primary r', addMirrorTCPSession port addr session r = Some (primary, r') → sessions_ok r') ∧
  sessions_ok (removeMirrorTCPSession port addr session r).
Proof using Type.
  intros [Ht Hg]. split.
  - intros primary r'. unfold addMirrorTCPSession. destruct (installed_group r port addr) as [g|] eqn:E; [|done].
    apply installed_group_spec in E as [E _]. repeat (case_match; try done). intros [= <- <-]. bool_to_prop.
    assert (Hsz : (size ({[session]} ∪ g_sessions g) ≤ S (size (g_sessions g)))%nat).
    { pose proof (size_union_alt {[session]} (g_sessions g)) as E2. rewrite size_singleton in E2.
      assert (size (g_sessions g ∖ {[session]}) ≤ size (g_sessions g))%nat by (apply subseteq_size; set_solver). lia. }
    pose proof (session_count_insert _ _ _ (g <| g_sessions := {[session]} ∪ g_sessions g |>) E) as E2. cbn in E2.
    split; cbn; [lia|]. apply map_Forall_insert_2; [cbn; lia|done].
  - unfold removeMirrorTCPSession. destruct (installed_group r port addr) as [g|] eqn:E; [|done].
    apply installed_group_spec in E as [E _].
    assert (Hsz : (size (g_sessions g ∖ {[session]}) ≤ size (g_sessions g))%nat) by (apply subseteq_size; set_solver).
    pose proof (session_count_insert _ _ _ (g <| g_sessions := g_sessions g ∖ {[session]} |>) E) as E2. cbn in E2.
    pose proof (Hg _ _ E) as Hle. cbn in Hle.
    split; cbn; [lia|]. apply map_Forall_insert_2; [cbn; lia|done].
Qed.
End theorems.

(** ** A group with one member *)

Module DemoMirrorRegistry.
Definition endpoint : Endpoint := {| ep_id := 0; ep_port := 9000 |}.
Definition web : binding :=
  {| b_addr := 1; b_clientID := "m"; b_sessionID := "s"; b_bindingID := "b";
     b_declaration := {| DeclaredName := "web"; DeclaredType := ProxyTypeTCP; RemotePort := 9000; Domain := ""; PublicSchemes := [] |};
     b_endpoint := Some endpoint |}.
Definition group : mirrorGroup :=
  {| g_addr := 2;
     g_configuration := {| MirrorName := "pair"; MirrorType := ProxyTypeTCP; MirrorPublic := [{| Start := 9000; End_ := 9000 |}];
                           PrimaryClientID := "m"; ClientIDs := ["m"] |};
     g_port := 9000; g_mode := ModeManaged; g_endpoint := Some endpoint; g_members := {["m" := web]}; g_sessions := {[7%nat]} |}.
Definition plane : Plane :=
  {| endpoints := {[9000 := endpoint]}; endpointBindings := ∅; mirrorGroups := {[9000 := group]}; managedPorts := ∅;
     proxies := {["m" := {["web" := web]}]} |}.
Definition state (live : bool) : clientState :=
  {| sessionID := "s"; active := live; writer := Some 3%nat; revision := 1; fingerprint := []; lastRequestID := "";
     lastResult := zero_result; requestCache := ∅; requestOrder := [];
     authentication := {| Mode := ModeManaged; ContextClientID := "m"; CredentialID := []; Generation := 1 |}; maxActiveLinks := 8 |}.
Definition registry (live : bool) : Registry :=
  (newRegistry false false) <| tcp := plane |> <| clients := {["m" := state live]} |>.

Lemma proxies_of c n b : client_proxies c plane !! n = Some b → c = "m" ∧ n = "web" ∧ b = web.
Proof.
  unfold client_proxies. cbn. destruct (decide (c = "m")) as [->|Hne].
  - rewrite lookup_singleton_eq. cbn. rewrite lookup_singleton_Some. naive_solver.
  - rewrite lookup_singleton_ne by done. cbn. by rewrite lookup_empty.
Qed.

Lemma plane_placed : placed plane.
Proof.
  constructor; cbn.
  - intros c n b (-> & -> & ->)%proxies_of. by split_and!.
  - intros port b. by rewrite lookup_empty.
  - intros port g c b. rewrite lookup_singleton_Some. intros [<- <-]. cbn. rewrite lookup_singleton_Some. by intros [<- <-].
Qed.
End DemoMirrorRegistry.

Lemma mirror_snapshot_exact_witness :
  mirrorTCPLinkTarget "m" (DemoMirrorRegistry.state true) 3 DemoMirrorRegistry.web ∈
    snapshotMirrorTCPTargets any_range (DemoMirrorRegistry.registry true) 9000 2.
Proof.
  apply (mirror_snapshot_exact any_range (DemoMirrorRegistry.registry true) 9000 2);
    [apply DemoMirrorRegistry.plane_placed|reflexivity|].
  split; [vm_compute; reflexivity|]. exists DemoMirrorRegistry.group, DemoMirrorRegistry.web. split_and!; vm_compute; reflexivity.
Defined.

Lemma mirror_sessions_bounded_witness : sessions_ok (removeMirrorTCPSession 9000 2 7 (DemoMirrorRegistry.registry true)).
Proof.
  apply (mirror_sessions_bounded (DemoMirrorRegistry.registry true) 9000 2 7). split.
  - apply Nat.leb_le. vm_compute. reflexivity.
  - apply map_Forall_singleton. apply Nat.leb_le. vm_compute. reflexivity.
Defined.
