(* ===== verification/ProxySystem.v ===== *)
(** * The proxy registry under concurrent registrations

    Registrations of many clients are in flight at the same time: each was
    admitted in some earlier state, has opened listeners since, and will be
    published in whatever state it then finds.  This file puts the critical
    sections of [ProxyRegistry] together into a transition system over the
    registry, the registrations in flight and the listeners that are open, and
    shows what holds in every reachable state: HTTP domains lead only to bindings
    their clients have and to all of them, no port or domain reserved for a
    managed client is routed to another one, and a registration that is applied
    routes what it declared.  For the tables of TCP and UDP ports the same holds
    as for domains as long as no registration is published that was in flight
    when the mirror groups were replaced. *)

From S2P Require Import Prelude GoTime NetAddr ControlFrame Authentication PortPolicy ConfigVNet ConfigProxy MirrorRegistry ProxyPlane ProxyPlacement ProxyRegistry.

Local Open Scope Z_scope.

(** ** Validated declarations *)

Section validated.
Context `{NetipText}.

Lemma of_type_elem t ds d : d ∈ of_type t ds ↔ DeclaredType d = t ∧ d ∈ ds.
Proof using Type. unfold of_type. by rewrite list_elem_of_filter. Qed.

Lemma of_type_cons t d ds :
  of_type t (d :: ds) = if decide (DeclaredType d = t) then d :: of_type t ds else of_type t ds.
Proof using Type. unfold of_type. by rewrite filter_cons. Qed.

Definition keys_unique (ds : list ProxyDeclaration) : Prop :=
  NoDup (DeclaredName <$> ds) ∧ NoDup (RemotePort <$> of_type ProxyTypeTCP ds) ∧
  NoDup (RemotePort <$> of_type ProxyTypeUDP ds) ∧ NoDup (Domain <$> of_type ProxyTypeHTTP ds).

(** What the loop has seen is not declared again. *)
Definition unseen (seen : Seen) (ds : list ProxyDeclaration) : Prop :=
  (∀ n, n ∈ names seen → n ∉ DeclaredName <$> ds) ∧
  (∀ q, q ∈ tcpPorts seen → q ∉ RemotePort <$> of_type ProxyTypeTCP ds) ∧
  (∀ q, q ∈ udpPorts seen → q ∉ RemotePort <$> of_type ProxyTypeUDP ds) ∧
  (∀ x, x ∈ domains seen → x ∉ Domain <$> of_type ProxyTypeHTTP ds).

Lemma validated_unique http https ds : ∀ seen,
  validate_declarations http https ds seen = None → keys_unique ds ∧ unseen seen ds.
Proof using Type.
  induction ds as [|d ds IH]; intros seen; cbn [validate_declarations].
  { intros _. split; [split_and!; constructor|split_and!; intros ? _; apply not_elem_of_nil]. }
  unfold check_declaration. destruct (negb (ValidateResourceName (DeclaredName d))); [done|].
  unfold keys_unique, unseen. rewrite !of_type_cons, !fmap_cons.
  destruct (DeclaredType d) eqn:Et; repeat (destruct (decide _); [|try done]); try done; intros E; crush_match; try done;
    bool_to_prop; apply IH in E as ((Hn & Ht & Hu & Hd) & (Sn & St & Su & Sd)); cbn in *; rewrite ?fmap_cons;
    (split; split_and!; rewrite ?NoDup_cons; try split; try done); try (by apply Sn; set_solver);
    try (by apply St; set_solver); try (by apply Su; set_solver); try (by apply Sd; set_solver);
    intros k Hk; rewrite ?not_elem_of_cons; try split; try (intros ->); try done;
    first [by apply Sn; set_solver|by apply St; set_solver|by apply Su; set_solver|by apply Sd; set_solver].
Qed.
End validated.

(** ** From preparation to publication, one plane *)

Lemma prepareEndpoints_opened listen reusable declarations : ∀ acc opened,
  prepareEndpoints listen reusable declarations acc = (None, opened) →
  (∀ q, acc !! q = None ∨ acc !! q = listen q) →
  (∀ q e, opened !! q = Some e → acc !! q = Some e ∨ q ∈ RemotePort <$> declarations ∧ listen q = Some e) ∧
  (∀ d, d ∈ declarations → reusable !! RemotePort d = None → is_Some (opened !! RemotePort d)).
Proof.
  intros acc opened E Hacc. destruct (prepareEndpoints_spec _ _ _ _ _ E) as (H1 & H2 & _). split.
  { intros q e Hq. destruct (H1 _ _ Hq) as [?|(? & _ & ?)]; auto. }
  intros d Hd Hr. rewrite (H2 _ Hd Hr). revert acc E Hacc H1. clear H2.
  induction declarations as [|d' declarations IH]; intros acc; [by apply elem_of_nil in Hd|]; cbn [prepareEndpoints].
  apply elem_of_cons in Hd as [->|Hd].
  - rewrite Hr. cbn [is_some]. intros E _ _. destruct (listen (RemotePort d')) as [e|]; [by eexists|done].
  - intros E Hacc H1. destruct (is_some (reusable !! RemotePort d')).
    + apply (IH Hd _ E Hacc). by destruct (prepareEndpoints_spec _ _ _ _ _ E).
    + destruct (listen (RemotePort d')) as [e|] eqn:El; [|done]. apply (IH Hd _ E).
      * intros q. rewrite lookup_insert. case_decide as Hq; [subst; by right|apply Hacc].
      * by destruct (prepareEndpoints_spec _ _ _ _ _ E).
Qed.

Lemma lost_port_none client modes existing (ρe : go_range Z Endpoint) reusable p q e :
  lost_port client modes existing ρe reusable p = None → reusable !! q = Some e →
  still_owned client modes existing p q e = true.
Proof.
  unfold lost_port. intros Hn Hq. destruct (still_owned client modes existing p q e) eqn:E; [done|].
  assert (Hin : (q, e) ∈ filter (λ q, still_owned client modes existing p q.1 q.2 = false) (ρe reusable)).
  { rewrite list_elem_of_filter, range_elem. done. }
  destruct (filter _ _); [by apply elem_of_nil in Hin|done].
Qed.

Section plane_preparation.
Context (client session : string) (modes : gmap string string) (p : Plane) (Hp : plane_ok p).
Context (declarations : list ProxyDeclaration).
Context (Hnames : NoDup (DeclaredName <$> declarations)) (Hports : NoDup (RemotePort <$> declarations)).
Context (reusable : gmap Z Endpoint).
(** The reused ports are still the client's, and the shared ones admit it. *)
Context (Howned : ∀ q e, reusable !! q = Some e →
  still_owned client modes (client_proxies client p) p q e = true).
Context (Hgroups : ∀ d, d ∈ declarations →
  mirrorGroups p !! RemotePort d = None ∨ is_Some (mirrorGroupLocked client modes (RemotePort d) p)).
(** The listeners that were opened are on ports the registry does not have. *)
Context (listen : Z → option Endpoint).
Context (Hlisten : ∀ q e, listen q = Some e → ep_port e = q ∧ endpoints p !! q = None).
Context (opened : gmap Z Endpoint) (Eopen : prepareEndpoints listen reusable declarations ∅ = (None, opened)).
Context (keep : bool) (supply supply' : Supply) (next : gmap string binding) (results results' : list ProxyResult).
Context (Enext : prepareBindings keep client session (client_proxies client p) reusable opened declarations supply ∅ results
  = Ok (supply', next, results')).

Lemma prepared_declared n b : next !! n = Some b →
  b_name b = n ∧ b_declaration b ∈ declarations ∧
  prepared_for client (client_proxies client p) session reusable opened (b_declaration b) b.
Proof using Hnames Enext.
  intros Hb. destruct (prepareBindings_spec _ _ _ _ _ _ _ _ _ _ _ _ _ Enext Hnames) as (Hout & Hin & _).
  destruct (decide (n ∈ DeclaredName <$> declarations)) as [(d & -> & Hd)%list_elem_of_fmap|Hn].
  - destruct (Hin _ Hd) as (b' & Hb' & Hfor). rewrite Hb in Hb'. injection Hb' as <-.
    pose proof Hfor as (_ & Ed & _). unfold b_name. by rewrite Ed.
  - by rewrite (Hout _ Hn), lookup_empty in Hb.
Qed.

(** Every prepared binding has the endpoint of its port: the one the registry
    has, or a new one on a port it does not have. *)
Lemma prepared_endpoint n b : next !! n = Some b → b_clientID b = client ∧
  ∃ e, b_endpoint b = Some e ∧ ep_port e = b_port b ∧
    (endpoints p !! b_port b = None ∧ listen (b_port b) = Some e ∨
     endpoints p !! b_port b = Some e ∧ (owned p b ∨ reusable !! b_port b = Some e)).
Proof using Hp Hnames Howned Hlisten Eopen Enext.
  intros Hb. destruct (prepared_declared _ _ Hb) as (Hn & Hd & _ & _ & [Hx|[Hc He]]).
  - pose proof (owned_client _ Hp _ _ _ Hx) as Ho. destruct (po_owned _ Hp _ _ _ Hx) as (_ & Hc & _). split; [done|].
    destruct (owned_endpoint _ Hp _ Ho) as [[e He] Hpe]. exists e. rewrite He in Hpe.
    destruct (po_endpoint _ Hp _ _ Hpe) as [? _]. split_and!; try done. right. split; [done|by left].
  - split; [done|]. change (RemotePort (b_declaration b)) with (b_port b) in He.
    destruct (reusable !! b_port b) as [e|] eqn:Er.
    + exists e. pose proof (Howned _ _ Er) as Hs. unfold still_owned in Hs. apply andb_true_iff in Hs as [Hs _].
      apply bool_decide_eq_true in Hs. destruct (po_endpoint _ Hp _ _ Hs) as [? _]. split_and!; try done. auto.
    + destruct (prepareEndpoints_opened _ _ _ _ _ Eopen) as [H1 H2]; [intros q; left; apply lookup_empty|].
      destruct (H2 _ Hd Er) as [e Ho]. change (RemotePort (b_declaration b)) with (b_port b) in Ho.
      exists e. destruct (H1 _ _ Ho) as [Hl|[_ Hl]]; [by rewrite lookup_empty in Hl|].
      destruct (Hlisten _ _ Hl) as [? ?]. rewrite He. split_and!; try done. by left.
Qed.

Lemma prepared_publishable : publishable client modes (client_proxies client p) next p.
Proof using All.
  constructor.
  - intros n b Hb. destruct (prepared_declared _ _ Hb) as (Hn & _). destruct (prepared_endpoint _ _ Hb) as (Hc & e & He & Hq & _).
    split_and!; try done. by exists e.
  - intros n b n' b' Hb Hb' Hq. destruct (prepared_declared _ _ Hb) as (Hn & Hd & _), (prepared_declared _ _ Hb') as (Hn' & Hd' & _).
    assert (E : b_declaration b = b_declaration b').
    { apply list_elem_of_lookup in Hd as [i Hi], Hd' as [j Hj].
      assert (i = j) as ->; [|congruence]. apply (NoDup_lookup _ _ _ (b_port b) Hports); rewrite list_lookup_fmap, ?Hi, ?Hj; [done|].
      by rewrite Hq. }
    unfold b_name in *. rewrite E in Hn. congruence.
  - intros n b Hb. destruct (prepared_endpoint _ _ Hb) as (_ & e & He & _ & [[? _]|[? _]]); [by left|right; congruence].
  - intros n b Hb. destruct (prepared_declared _ _ Hb) as (_ & Hd & _). by apply Hgroups.
  - intros n b b0 Hb Hb0. destruct (po_route _ Hp _ _ Hb0) as (Hg0 & _ & [e0 He0] & Hpe & _).
    destruct (prepared_endpoint _ _ Hb) as (Hc & e & He & _ & [[Hnone _]|(Hsome & [Ho|Hr])]); [congruence| |].
    + destruct (po_owned _ Hp _ _ _ Ho) as (_ & _ & [Hr|(g & Hg & _)]); congruence.
    + pose proof (Howned _ _ Hr) as Hs. unfold still_owned in Hs. rewrite Hg0, Hb0 in Hs. cbn [orb] in Hs. by bool_to_prop.
  - intros n x Hx. destruct (po_owned _ Hp _ _ _ Hx) as (Hn & Hc & _). pose proof (owned_client _ Hp _ _ _ Hx) as Ho.
    destruct (owned_endpoint _ Hp _ Ho) as [? _]. split_and!; try done. by left.
  - intros n x n' x' Hx Hx' Hq. apply (owned_port_unique _ Hp); try done; try by eapply owned_client.
    destruct (po_owned _ Hp _ _ _ Hx) as (_ & -> & _), (po_owned _ Hp _ _ _ Hx') as (_ & -> & _). done.
  - done.
Qed.
End plane_preparation.

(** ** HTTP domains *)

Definition domain_of (b : binding) : string := Domain (b_declaration b).

(** The tables of HTTP proxies lead to each other. *)
Record http_ok (r : Registry) : Prop := {
  ho_domain x b : httpDomains r !! x = Some b →
    domain_of b = x ∧ client_http (b_clientID b) r !! b_name b = Some b;
  ho_owned c n b : client_http c r !! n = Some b →
    b_name b = n ∧ b_clientID b = c ∧ httpDomains r !! domain_of b = Some b
}.

Definition keyed (table : gmap string binding) : Prop := ∀ x b, table !! x = Some b → domain_of b = x.

Lemma forget_domain_lookup next table x d b : keyed table →
  forget_domain next table x !! d = Some b ↔ table !! d = Some b ∧ ¬ (b = x ∧ next !! b_name x ≠ Some x).
Proof.
  intros Hk. unfold forget_domain. fold (domain_of x).
  destruct (decide (next !! b_name x = Some x)) as [Hn|Hn].
  { rewrite bool_decide_eq_true_2 by done. cbn. tauto. }
  rewrite bool_decide_eq_false_2 by done. cbn [negb andb].
  destruct (decide (table !! domain_of x = Some x)) as [Ht|Ht].
  - rewrite bool_decide_eq_true_2 by done. rewrite lookup_delete. case_decide as Hd; split.
    + done.
    + intros [Hb Hx]. subst d. rewrite Ht in Hb. injection Hb as <-. by destruct Hx.
    + intros Hb. split; [done|]. intros [-> _]. by apply Hd, Hk.
    + by intros [? _].
  - rewrite bool_decide_eq_false_2 by done. split; [|by intros [? _]]. intros Hb. split; [done|].
    intros [-> _]. apply Ht. by rewrite (Hk _ _ Hb).
Qed.

Lemma forget_fold_lookup next l : ∀ table d b, keyed table →
  foldl (forget_domain next) table l !! d = Some b ↔
  table !! d = Some b ∧ ¬ (b ∈ l ∧ next !! b_name b ≠ Some b).
Proof.
  induction l as [|x l IH]; intros table d b Hk; cbn [foldl].
  { split; [|by intros [? _]]. intros Hb. split; [done|]. intros [Hi _]. by apply elem_of_nil in Hi. }
  assert (Hk' : keyed (forget_domain next table x)).
  { intros y z Hz. apply (forget_domain_lookup _ _ _ _ _ Hk) in Hz as [Hz _]. by apply Hk. }
  rewrite IH, forget_domain_lookup by done.
  rewrite elem_of_cons. split.
  - intros [[Hb Hx] Hl]. split; [done|]. intros [[->|Hi] Hn]; [by apply Hx|by apply Hl].
  - intros [Hb Hn]. split_and!; [done| |].
    + intros [-> Hx]. apply Hn. split; [by left|done].
    + intros [Hi Hx]. apply Hn. split; [by right|done].
Qed.

Lemma release_forget table b : release_domain table b = forget_domain ∅ table b.
Proof. unfold release_domain, forget_domain. rewrite lookup_empty. by rewrite (bool_decide_eq_false_2 (None = _)). Qed.

Lemma release_fold_lookup l table d b : keyed table →
  foldl release_domain table l !! d = Some b ↔ table !! d = Some b ∧ b ∉ l.
Proof.
  intros Hk. assert (E : ∀ t, foldl release_domain t l = foldl (forget_domain ∅) t l).
  { clear. induction l as [|x l IH]; intros t; [done|]. cbn [foldl]. by rewrite release_forget, IH. }
  rewrite E, forget_fold_lookup by done. rewrite lookup_empty. split; intros [? Hn]; split; try done.
  - intros Hi. by apply Hn.
  - by intros [Hi _].
Qed.

Lemma enter_fold_lookup l : ∀ (table : gmap string binding) d b, NoDup (domain_of <$> l) →
  foldl (λ t b, <[Domain (b_declaration b) := b]> t) table l !! d = Some b ↔
  (b ∈ l ∧ domain_of b = d) ∨ ((d ∉ domain_of <$> l) ∧ table !! d = Some b).
Proof.
  induction l as [|x l IH]; intros table d b; cbn [foldl].
  { intros _. rewrite elem_of_nil. set_solver. }
  rewrite fmap_cons. intros [Hx Hnd]%NoDup_cons. rewrite (IH _ _ _ Hnd). rewrite elem_of_cons, not_elem_of_cons.
  fold (domain_of x). destruct (decide (d = domain_of x)) as [->|Hne].
  - rewrite lookup_insert_eq. split.
    + intros [[? ?]|[_ [= <-]]]; left; auto.
    + intros [[[->|Hi] Hd]|[[? _] _]]; [by right|by left|done].
  - rewrite lookup_insert_ne by done. split.
    + intros [[? ?]|[? ?]]; [by left; split; [right|]|by right].
    + intros [[[->|Hi] Hd]|[[_ ?] ?]]; [done|by left|by right].
Qed.

Lemma http_keyed r : http_ok r → keyed (httpDomains r).
Proof. intros Hr x b Hb. by apply (ho_domain _ Hr). Qed.

(** The bindings to publish: unique domains, each free or the client's. *)
Section publish_http.
Context (ρ : go_range string binding) (client : string) (r : Registry) (Hr : http_ok r) (next : gmap string binding).
Context (Hnext : ∀ n b, next !! n = Some b → b_name b = n ∧ b_clientID b = client).
Context (Hdomains : ∀ n b n' b', next !! n = Some b → next !! n' = Some b' → domain_of b = domain_of b' → b = b').
Context (Havail : ∀ n b, next !! n = Some b → domain_available (client_http client r) (domain_of b) r = true).

Lemma publish_http_lookup x b :
  publishHTTP ρ (client_http client r) next (httpDomains r) !! x = Some b ↔
  next !! b_name b = Some b ∧ domain_of b = x ∨ b_clientID b ≠ client ∧ httpDomains r !! x = Some b.
Proof using All.
  pose proof (http_keyed _ Hr) as Hk. unfold publishHTTP.
  rewrite enter_fold_lookup by (apply range_value_NoDup; [done|intros n c Hc; by apply (Hnext _ _ Hc)]).
  rewrite forget_fold_lookup, !range_value by done. split.
  - intros [[[n Hb] Hx]|(Hx & Hb & Hn)].
    + left. destruct (Hnext _ _ Hb) as [-> _]. done.
    + right. split; [|done]. intros Hc. destruct (ho_domain _ Hr _ _ Hb) as [<- Ho]. rewrite Hc in Ho.
      apply Hn. split; [by eexists|]. intros Hi. apply Hx, list_elem_of_fmap. exists b. split; [done|].
      rewrite range_value. by eexists.
  - intros [[Hb Hx]|[Hc Hb]]; [left; split; [by eexists|done]|right].
    split_and!; [|done|].
    + intros (b' & -> & [n Hb']%range_value)%list_elem_of_fmap. pose proof (Havail _ _ Hb') as Ha. unfold domain_available in Ha.
      rewrite Hb in Ha. bool_to_prop. by destruct (ho_owned _ Hr _ _ _ Ha) as (_ & ? & _).
    + intros [[n Hi] _]. by destruct (ho_owned _ Hr _ _ _ Hi) as (_ & ? & _).
Qed.
End publish_http.

Lemma prepareHTTP_spec client session existing declarations : ∀ supply next results supply' next' results',
  prepareHTTP client session existing declarations supply next results = Ok (supply', next', results') →
  NoDup (DeclaredName <$> declarations) →
  (∀ n, n ∉ DeclaredName <$> declarations → next' !! n = next !! n) ∧
  (∀ d, d ∈ declarations → ∃ b, next' !! DeclaredName d = Some b ∧ b_declaration b = d ∧ b_sessionID b = session ∧
     (existing !! DeclaredName d = Some b ∨ b_clientID b = client)) ∧
  ∃ new, results' = results ++ new ∧ ResultProxy <$> new = DeclaredName <$> declarations.
Proof.
  induction declarations as [|d declarations IH]; intros supply next results supply' next' results'; cbn [prepareHTTP].
  { intros [= <- <- <-] _. split_and!; try done; [by intros d ?%elem_of_nil|]. exists []. by rewrite app_nil_r. }
  assert (Hstep : ∀ supply1 b status, prepareHTTP client session existing declarations supply1
      (<[DeclaredName d := b]> next) (results ++ [{| ResultProxy := DeclaredName d; ResultStatus := status;
        ResultPort := 0; ResultDomain := Domain d |}]) = Ok (supply', next', results') →
    b_declaration b = d → b_sessionID b = session → (existing !! DeclaredName d = Some b ∨ b_clientID b = client) →
    NoDup (DeclaredName <$> d :: declarations) →
    (∀ n, n ∉ DeclaredName <$> d :: declarations → next' !! n = next !! n) ∧
    (∀ d', d' ∈ d :: declarations → ∃ b, next' !! DeclaredName d' = Some b ∧ b_declaration b = d' ∧ b_sessionID b = session ∧
      (existing !! DeclaredName d' = Some b ∨ b_clientID b = client)) ∧
    ∃ new, results' = results ++ new ∧ ResultProxy <$> new = DeclaredName <$> d :: declarations).
  { intros supply1 b status E Hd Hs Hc (Hn & Hnd)%NoDup_cons.
    destruct (IH _ _ _ _ _ _ E Hnd) as (Hout & Hin & new & -> & Hnew). split_and!.
    - intros n. rewrite fmap_cons, not_elem_of_cons. intros [Hne Hi]. rewrite (Hout _ Hi). by rewrite lookup_insert_ne.
    - intros d' [->|Hd']%elem_of_cons; [|by apply Hin]. exists b. by rewrite (Hout _ Hn), lookup_insert_eq.
    - eexists (_ :: new). rewrite <- app_assoc. split; [done|]. by rewrite !fmap_cons, Hnew. }
  destruct (match unchanged existing d with Some x => _ | None => None end) as [x|] eqn:Ek.
  - intros E Hnd. unfold unchanged in Ek. destruct (existing !! DeclaredName d) as [y|] eqn:Ey; [|done].
    destruct (sameProxyDeclaration (b_declaration y) d) eqn:Es; [|done].
    destruct (bool_decide (b_sessionID y = session)) eqn:Ese; [|done]. injection Ek as ->. bool_to_prop.
    eapply Hstep; try done; [by apply same_declaration_eq|by left].
  - destruct (draw supply) as [[[id addr] supply1]|]; [|done]. intros E Hnd. eapply Hstep; try done. by right.
Qed.

(** ** What an operation leaves of a plane *)

Section publish_effect.
Context (ρ : go_range string binding) (client : string) (ms : gmap string string).
Context (existing next : gmap string binding) (p : Plane).
Context (Hp : plane_ok p) (Hpub : publishable client ms existing next p).
Context (p' : Plane) (removed : gmap Z Endpoint) (E : publishPlane ρ client ms existing next p = (p', removed)).

Lemma publish_endpoints_from q e : endpoints p' !! q = Some e →
  endpoints p !! q = Some e ∨ ∃ n b, next !! n = Some b ∧ b_port b = q ∧ b_endpoint b = Some e.
Proof using All.
  destruct (publish_outcome _ _ _ _ _ _ Hp Hpub _ _ E) as (_ & _ & Hin & Hout & _).
  destruct (next_at next q) as [(n & b & Hb & <-)|Hno].
  - destruct (Hin _ _ Hb) as [-> _]. intros He. right. by exists n, b.
  - destruct (Hout _ Hno) as [_ Hl]. intros He. left. destruct (endpointBindings p !! q) as [b0|]; [case_decide|]; destruct Hl as [Hl _]; congruence.
Qed.

Lemma publish_bindings_from q b : endpointBindings p' !! q = Some b →
  endpointBindings p !! q = Some b ∨
  next !! b_name b = Some b ∧ b_port b = q ∧ mirrorGroupLocked client ms q p = None.
Proof using All.
  destruct (publish_outcome _ _ _ _ _ _ Hp Hpub _ _ E) as (_ & _ & Hin & Hout & _).
  destruct (next_at next q) as [(n & b1 & Hb & <-)|Hno].
  - destruct (Hin _ _ Hb) as [_ Hm]. destruct (mirrorGroupLocked _ _ _ _); destruct Hm as [-> _]; [done|].
    intros [= ->]. right. destruct (pb_next _ _ _ _ _ Hpub _ _ Hb) as (-> & _). done.
  - destruct (Hout _ Hno) as [_ Hl]. intros He. left. destruct (endpointBindings p !! q) as [b0|]; [case_decide|]; destruct Hl as [_ Hl]; congruence.
Qed.

Lemma publish_policy : same_policy p p'.
Proof using All.
  intros q. destruct (publish_outcome _ _ _ _ _ _ Hp Hpub _ _ E) as (_ & _ & Hin & Hout & _).
  destruct (next_at next q) as [(n & b1 & Hb & <-)|Hno].
  - destruct (Hin _ _ Hb) as [_ Hm]. destruct (mirrorGroupLocked _ _ _ _) as [g|] eqn:Hl; destruct Hm as [_ ->].
    + rewrite (mirrorGroupLocked_some _ _ _ _ _ Hl). cbn. unfold join. by destruct (bool_decide _).
    + destruct (pb_group _ _ _ _ _ Hpub _ _ Hb) as [->|[? ?]]; [done|congruence].
  - destruct (Hout _ Hno) as [-> _]. by destruct (mirrorGroups p !! q).
Qed.
End publish_effect.

(** One plane after a publication: [next] are the client's bindings now, and
    [sockets] the listeners it brought. *)
Record plane_published (c : string) (ms : gmap string string) (next : gmap string binding) (sockets : gmap Z Endpoint)
    (p p' : Plane) : Prop := {
  pp_ok : plane_ok p';
  pp_proxies : proxies p' = <[c := next]> (proxies p);
  pp_managed : managedPorts p' = managedPorts p;
  pp_policy : same_policy p p';
  pp_endpoint q e : endpoints p' !! q = Some e → endpoints p !! q = Some e ∨ sockets !! q = Some e;
  pp_binding q b : endpointBindings p' !! q = Some b → endpointBindings p !! q = Some b ∨
    next !! b_name b = Some b ∧ b_port b = q ∧ mirrorGroupLocked c ms q p = None;
  pp_next n b : next !! n = Some b → b_name b = n ∧ b_clientID b = c ∧ routed p' b;
  pp_others b : b_clientID b ≠ c → routed p b → routed p' b
}.

Lemma publish_plane_published ρ c ms next sockets p :
  plane_ok p → publishable c ms (client_proxies c p) next p →
  (∀ n b, next !! n = Some b → ∃ e, b_endpoint b = Some e ∧ (endpoints p !! b_port b = Some e ∨ sockets !! b_port b = Some e)) →
  plane_published c ms next sockets p (publishPlane ρ c ms (client_proxies c p) next p).1.
Proof.
  intros Hp Hpub Hse. destruct (publishPlane ρ c ms (client_proxies c p) next p) as [p' removed] eqn:E. cbn [fst].
  destruct (publish_outcome _ _ _ _ _ _ Hp Hpub _ _ E) as (Epx & Em & _). constructor; try done.
  - by eapply publish_plane_ok.
  - by eapply publish_policy.
  - intros q e He. destruct (publish_endpoints_from _ _ _ _ _ _ Hp Hpub _ _ E _ _ He) as [?|(n & b & Hb & <- & Hbe)]; [by left|].
    destruct (Hse _ _ Hb) as (e' & He' & Hor). rewrite Hbe in He'. by injection He' as <-.
  - intros q b. by eapply publish_bindings_from.
  - intros n b Hb. destruct (pb_next _ _ _ _ _ Hpub _ _ Hb) as (? & ? & _). split_and!; try done. by eapply publish_next_routed.
  - intros b. by eapply publish_others_routed.
Qed.

Section detach_effect.
Context (ρ : go_range string binding) (client : string) (p : Plane) (Hp : plane_ok p).
Context (p' : Plane) (closing : gmap Z Endpoint) (sessions : gset nat).
Context (E : detachPlane ρ client p = (p', closing, sessions)).

Lemma detach_shrinks : endpoints p' ⊆ endpoints p ∧ endpointBindings p' ⊆ endpointBindings p ∧ same_policy p p'.
Proof using All.
  destruct (detach_outcome _ _ _ Hp _ _ _ E) as (_ & _ & Hin & Hout & _).
  assert (Hat : ∀ q, (∀ e, endpoints p' !! q = Some e → endpoints p !! q = Some e) ∧
    (∀ b, endpointBindings p' !! q = Some b → endpointBindings p !! q = Some b) ∧
    policy <$> mirrorGroups p' !! q = policy <$> mirrorGroups p !! q).
  { intros q. destruct (client_at client p q) as [(n & b & Hb & <-)|Hno].
    - destruct (Hin _ _ Hb) as [Hbind Hg]. destruct (mirrorGroups p !! b_port b) as [g|] eqn:Eg.
      + destruct Hg as [-> He]. split_and!; [|by rewrite Hbind|].
        * intros e. rewrite He, (po_group _ Hp _ _ Eg). unfold vacate, expel. cbn. by destruct (bool_decide _).
        * cbn. unfold vacate, expel. by destruct (bool_decide _).
      + destruct Hg as [-> He]. split_and!; [by rewrite He|by rewrite Hbind|done].
    - destruct (Hout _ Hno) as (He & Hb & Hg). by rewrite He, Hb, Hg. }
  split_and!; [apply map_subseteq_spec; intros q; apply Hat|apply map_subseteq_spec; intros q; apply Hat|intros q; apply Hat].
Qed.
End detach_effect.

Section configure_effect.
Context (stable : bool) (ms : gmap string string) (ρg : go_range Z mirrorGroup) (ρ : go_range string binding).
Context (candidates : gmap Z mirrorGroup) (Hblank : blank candidates) (p : Plane) (Hp : plane_ok p).
Context (p' : Plane) (removed : gmap Z Endpoint) (dropped : list binding).
Context (E : configurePlane stable ms ρg ρ candidates p = Some (p', removed, dropped)).

Lemma drop_fold_absent l : ∀ table (c : string), table !! c = None → foldl drop_proxy table l !! c = None.
Proof using Type.
  induction l as [|x l IH]; intros table c Hn; [done|]. cbn [foldl]. apply IH. unfold drop_proxy.
  destruct (table !! b_clientID x) as [state|] eqn:Es; [|done]. destruct (bool_decide _); [|done].
  rewrite lookup_insert_ne by congruence. done.
Qed.

Lemma configure_shrinks :
  endpoints p' ⊆ endpoints p ∧ endpointBindings p' ⊆ endpointBindings p ∧ managedPorts p' = managedPorts p ∧
  (∀ c, proxies p !! c = None → proxies p' !! c = None).
Proof using All.
  destruct (configure_tables _ _ _ _ _ _ _ _ _ E) as (_ & _ & Epx & Em & _ & Hb & _ & He).
  split_and!; [| |done|intros c Hc; rewrite Epx; by apply drop_fold_absent].
  - apply map_subseteq_spec. intros q e. rewrite He. destruct (removed !! q); [done|].
    destruct (installed_group stable ms candidates p q) as [g'|] eqn:Ei; [cbn|done].
    destruct (g_endpoint g') as [e'|] eqn:Ee; [|done]. intros [= <-].
    destruct (installed_origin _ _ _ Hblank _ _ _ Ei) as [(g0 & Hg0 & _ & [Heq|[? _]])|[(_ & _ & _ & ?)|(b & e1 & _ & ? & _ & _ & ?)]];
      try congruence. rewrite (po_group _ Hp _ _ Hg0). congruence.
  - apply map_subseteq_spec. intros q b. rewrite Hb. by destruct (_ ≫= g_endpoint).
Qed.
End configure_effect.

Lemma append_ports_blank mode c ports : ∀ acc, blank acc.2 → blank (foldl (append_port mode c) acc ports).2.
Proof.
  induction ports as [|port ports IH]; intros [addr m] Hm; [done|]. cbn [foldl]. apply IH. cbn. intros q g.
  rewrite lookup_insert. case_decide as Hq; [|apply Hm]. by intros [= <-].
Qed.

Lemma appendGroups_blank selected mode groups : ∀ acc, blank acc.2 → blank (appendGroups selected mode groups acc).2.
Proof.
  unfold appendGroups. induction groups as [|c groups IH]; intros acc Hm; [done|]. cbn [foldl]. apply IH.
  destruct (selected _); [|done]. by apply append_ports_blank.
Qed.

Lemma candidateGroups_blank selected configuration addr : blank (candidateGroups selected configuration addr).2.
Proof. do 2 apply appendGroups_blank. intros q g. cbn. by rewrite lookup_empty. Qed.

(** ** The system *)

(** A registration in flight: what it was admitted with, and the listeners it
    has opened since. *)
Record Flight := {
  fl_client : string;
  fl_session : string;
  fl_requestID : string;
  fl_request : SyncRequest;
  fl_admitted : AdmittedSync;
  fl_sockets : gmap Z Endpoint;
  fl_socketsUDP : gmap Z Endpoint
}.
#[export] Instance eta_Flight : Eta Flight := λ f,
  {| fl_client := fl_client f; fl_session := fl_session f; fl_requestID := fl_requestID f;
     fl_request := fl_request f; fl_admitted := fl_admitted f; fl_sockets := fl_sockets f;
     fl_socketsUDP := fl_socketsUDP f |}.

(** [open] and [openUDP]: the socket the operating system has on a port.  The
    last two fields only record what happened, no operation reads them:
    [overtaken] are the registrations that were in flight when the mirror
    groups were replaced, [raced] says that one of them was published. *)
Record World := {
  reg : Registry;
  flights : gmap nat Flight;
  open : gmap Z Endpoint;
  openUDP : gmap Z Endpoint;
  overtaken : gset nat;
  raced : bool
}.
#[export] Instance eta_World : Eta World := λ w,
  {| reg := reg w; flights := flights w; open := open w; openUDP := openUDP w; overtaken := overtaken w; raced := raced w |}.

Definition start (http https : bool) : World :=
  {| reg := newRegistry http https; flights := ∅; open := ∅; openUDP := ∅; overtaken := ∅; raced := false |}.

Section system.
Context `{NetipText}.
Context (fingerprint_of : list ProxyDeclaration → option digest).
Context (ρ : go_range string binding) (ρe : go_range Z Endpoint) (ρg : go_range Z mirrorGroup).

(** The preparation of a registration, with the listeners it has opened; the
    domains are looked up in some state [seen] on the way. *)
Definition prepare_flight (f : Flight) (supply : Supply) (seen : Registry) : result Failure Preparation :=
  prepareSync (λ q, fl_sockets f !! q) (λ q, fl_socketsUDP f !! q) supply (fl_client f) (fl_session f)
    (fl_requestID f) (fl_request f) (fl_admitted f) seen.

(** Session identifiers are random: a new session is not one of a registration
    in flight.  A listener is opened only on a port where none is open.  The
    mirror groups may be replaced at any time, and sessions of mirrored
    connections come and go; a reload that replaces the groups together with the
    reservations is [step_configure] followed by [step_reserve], since
    replacing the groups only removes ordinary routes. *)
Inductive step : World → World → Prop :=
| step_attach c session writer auth limit w :
    (∀ i f, flights w !! i = Some f → fl_session f ≠ session) →
    step w (w <| reg := AttachAuthenticated c session writer auth limit (reg w) |>)
| step_activate c session w : step w (w <| reg := Activate c session (reg w) |>)
| step_suspend c session w : step w (w <| reg := (Suspend ρ c session (reg w)).2 |>)
| step_admit i c session requestID request allowEmpty a w :
    flights w !! i = None →
    admit_sync fingerprint_of c session requestID request allowEmpty (reg w) = Proceed a →
    step w (w <| flights := <[i := {| fl_client := c; fl_session := session; fl_requestID := requestID;
                   fl_request := request; fl_admitted := a; fl_sockets := ∅; fl_socketsUDP := ∅ |}]> (flights w) |>
              <| overtaken := overtaken w ∖ {[i]} |>)
| step_listen i f e w :
    flights w !! i = Some f → open w !! ep_port e = None →
    step w (w <| flights := <[i := f <| fl_sockets := <[ep_port e := e]> (fl_sockets f) |>]> (flights w) |>
              <| open := <[ep_port e := e]> (open w) |>)
| step_listen_udp i f e w :
    flights w !! i = Some f → openUDP w !! ep_port e = None →
    step w (w <| flights := <[i := f <| fl_socketsUDP := <[ep_port e := e]> (fl_socketsUDP f) |>]> (flights w) |>
              <| openUDP := <[ep_port e := e]> (openUDP w) |>)
| step_commit i f supply seen pr coordinate res retired r w :
    flights w !! i = Some f → prepare_flight f supply seen = Ok pr →
    commitSync ρ ρe pr coordinate (reg w) = (res, retired, r) →
    step w (w <| flights := delete i (flights w) |> <| reg := r |>
              <| raced := raced w || bool_decide (i ∈ overtaken w) && bool_decide (Status res = SyncStatusApplied) |>)
| step_abandon i w : step w (w <| flights := delete i (flights w) |>)
| step_close q w :
    endpoints (tcp (reg w)) !! q = None → (∀ i f, flights w !! i = Some f → fl_sockets f !! q = None) →
    step w (w <| open := delete q (open w) |>)
| step_close_udp q w :
    endpoints (udp (reg w)) !! q = None → (∀ i f, flights w !! i = Some f → fl_socketsUDP f !! q = None) →
    step w (w <| openUDP := delete q (openUDP w) |>)
| step_detach c session w : step w (w <| reg := (Detach ρ c session (reg w)).2 |>)
| step_configure configuration addr retired r w :
    ConfigureMirrorGroups ρg ρ configuration addr (reg w) = Some (retired, r) →
    step w (w <| reg := r |> <| overtaken := dom (flights w) ∪ overtaken w |>)
| step_mirror_session port addr session primary r w :
    addMirrorTCPSession port addr session (reg w) = Some (primary, r) → step w (w <| reg := r |>)
| step_mirror_ended port addr session w : step w (w <| reg := removeMirrorTCPSession port addr session (reg w) |>)
| step_reserve managed mirror seen v w :
    BeginManagedReservationUpdate managed mirror seen (reg w) = Some v →
    step w (w <| reg := CommitReservations v (reg w) |>)
| step_shutdown w : step w (w <| reg := (CloseRegistry ρ (reg w)).2 |>).

Inductive reachable (http https : bool) : World → Prop :=
| reachable_start : reachable http https (start http https)
| reachable_step w w' : reachable http https w → step w w' → reachable http https w'.

(** ** The invariant *)

(** The listeners of a plane are open; those of registrations in flight are
    open too, on other ports. *)
Record sockets_ok (p : Plane) (sockets : Flight → gmap Z Endpoint) (fs : gmap nat Flight) (open : gmap Z Endpoint) :
    Prop := {
  so_plane : endpoints p ⊆ open;
  so_flight i f : fs !! i = Some f → sockets f ⊆ open ∧ sockets f ##ₘ endpoints p;
  so_flights i f j f' : fs !! i = Some f → fs !! j = Some f' → i ≠ j → sockets f ##ₘ sockets f'
}.

(** A shared port of the declarations still admits the client. *)
Definition admissible (c : string) (ms : gmap string string) (t : ProxyType) (ds : list ProxyDeclaration) (p : Plane) : Prop :=
  ∀ d, d ∈ of_type t ds →
    mirrorGroups p !! RemotePort d = None ∨ is_Some (mirrorGroupLocked c ms (RemotePort d) p).

(** What a registration knows is current as long as its session and the
    revision it was admitted with are. *)
Definition flight_ok (f : Flight) (r : Registry) : Prop :=
  let a := fl_admitted f in
  let c := fl_client f in
  let ds := RequestProxies (fl_request f) in
  keys_unique ds ∧ ad_base a < RequestRevision (fl_request f) ∧
  ∀ s, clients r !! c = Some s → sessionID s = fl_session f →
    ad_base a ≤ revision s ∧ Mode (authentication s) = ad_mode a ∧
    admissible c (modes r) ProxyTypeTCP ds (tcp r) ∧ admissible c (modes r) ProxyTypeUDP ds (udp r) ∧
    (revision s = ad_base a →
       ad_existing a = client_proxies c (tcp r) ∧ ad_existingUDP a = client_proxies c (udp r) ∧
       ad_existingHTTP a = client_http c r).

(** A reserved port or domain is routed to its owner or to a mirror group. *)
Definition respects {K} `{Countable K} (table : gmap K string) (routes : gmap K binding) : Prop :=
  ∀ k owner b, table !! k = Some owner → owner ≠ "" → routes !! k = Some b → b_clientID b = owner.

Record reserved_ok (r : Registry) : Prop := {
  ro_tcp : respects (managedPorts (tcp r)) (endpointBindings (tcp r));
  ro_udp : respects (managedPorts (udp r)) (endpointBindings (udp r));
  ro_http : respects (managedHTTPDomains r) (httpDomains r)
}.

(** Proxies belong to attached clients. *)
Record attached_ok (r : Registry) : Prop := {
  ao_tcp c : clients r !! c = None → proxies (tcp r) !! c = None;
  ao_udp c : clients r !! c = None → proxies (udp r) !! c = None;
  ao_http c : clients r !! c = None → httpProxies r !! c = None
}.

(** What holds in every state. *)
Definition flight_kept (f : Flight) (r : Registry) : Prop :=
  let a := fl_admitted f in
  let c := fl_client f in
  keys_unique (RequestProxies (fl_request f)) ∧ ad_base a < RequestRevision (fl_request f) ∧
  named_table c (ad_existing a) ∧ named_table c (ad_existingUDP a) ∧
  ∀ s, clients r !! c = Some s → sessionID s = fl_session f →
    ad_base a ≤ revision s ∧ Mode (authentication s) = ad_mode a ∧
    (revision s = ad_base a → ad_existingHTTP a = client_http c r).

Record kept_ok (w : World) : Prop := {
  ko_tcp : placed (tcp (reg w));
  ko_udp : placed (udp (reg w));
  ko_http : http_ok (reg w);
  ko_reserved : reserved_ok (reg w);
  ko_flights i f : flights w !! i = Some f → flight_kept f (reg w)
}.

(** What holds of the ports as long as no registration in flight met a
    replacement of the groups. *)
Record tables_ok (r : Registry) : Prop := {
  to_tcp : plane_ok (tcp r);
  to_udp : plane_ok (udp r);
  to_attached : attached_ok r
}.

Record world_ok (w : World) : Prop := {
  wo_tables : tables_ok (reg w);
  wo_sockets : sockets_ok (tcp (reg w)) fl_sockets (flights w) (open w);
  wo_socketsUDP : sockets_ok (udp (reg w)) fl_socketsUDP (flights w) (openUDP w);
  wo_port q e : open w !! q = Some e → ep_port e = q;
  wo_portUDP q e : openUDP w !! q = Some e → ep_port e = q;
  wo_flights i f : flights w !! i = Some f → i ∉ overtaken w → flight_ok f (reg w)
}.

(** ** Publication *)

Record published (pr : Preparation) (s : clientState) (r r' : Registry) : Prop := {
  pd_client : clients r !! pr_client pr = Some s;
  pd_session : sessionID s = pr_session pr;
  pd_base : revision s = ad_base (pr_admitted pr);
  pd_admitted : publish_rejection ρ ρe pr r = None;
  pd_tcp : tcp r' = (publishPlane ρ (pr_client pr) (modes r) (ad_existing (pr_admitted pr)) (pr_next pr) (tcp r)).1;
  pd_udp : udp r' = (publishPlane ρ (pr_client pr) (modes r) (ad_existingUDP (pr_admitted pr)) (pr_nextUDP pr) (udp r)).1;
  pd_domains : httpDomains r' = publishHTTP ρ (ad_existingHTTP (pr_admitted pr)) (pr_nextHTTP pr) (httpDomains r);
  pd_http : httpProxies r' = <[pr_client pr := pr_nextHTTP pr]> (httpProxies r);
  pd_reserved : managedHTTPDomains r' = managedHTTPDomains r;
  pd_clients : ∃ s', clients r' = <[pr_client pr := s']> (clients r) ∧ sessionID s' = sessionID s ∧
    authentication s' = authentication s ∧ revision s' = RequestRevision (pr_request pr)
}.

Lemma cacheSyncRequest_fields requestID rev fp res s :
  sessionID (cacheSyncRequest requestID rev fp res s) = sessionID s ∧
  authentication (cacheSyncRequest requestID rev fp res s) = authentication s ∧
  revision (cacheSyncRequest requestID rev fp res s) = revision s.
Proof using Type. unfold cacheSyncRequest. destruct (_ =? _); [destruct (requestOrder s)|]; done. Qed.

(** A commit publishes and answers that it did, or changes nothing. *)
Lemma commit_cases pr coordinate r res retired r' :
  commitSync ρ ρe pr coordinate r = (res, retired, r') →
  (Status res = SyncStatusApplied ∧ ResultProxies res = pr_results pr ∧ is_Some retired ∧ coordinate ≠ Some false ∧
     ∃ s, published pr s r r') ∨
  (Status res = SyncStatusRejected ∧ retired = None ∧ r' = r).
Proof using Type.
  unfold commitSync. assert (Hpub : ∀ res retired r', publishSync ρ ρe pr r = (res, retired, r') →
    (Status res = SyncStatusApplied ∧ ResultProxies res = pr_results pr ∧ is_Some retired ∧ ∃ s, published pr s r r') ∨
    (Status res = SyncStatusRejected ∧ retired = None ∧ r' = r)).
  { clear. intros res retired r'. unfold publishSync. destruct (clients r !! pr_client pr) as [s|] eqn:Ec; [|intros [= <- <- <-]; by right].
    destruct (negb _ || negb _) eqn:Eg; [intros [= <- <- <-]; by right|].
    destruct (publish_rejection ρ ρe pr r) as [[code name]|] eqn:Er; [intros [= <- <- <-]; by right|].
    destruct (publishPlane ρ _ _ (ad_existing _) _ _) as [tcp' removed] eqn:Et.
    destruct (publishPlane ρ _ _ (ad_existingUDP _) _ _) as [udp' removedUDP] eqn:Eu.
    intros [= <- <- <-]. left. split_and!; [done|done|by eexists|]. exists s. bool_to_prop.
    constructor; try done; cbn; rewrite ?Et, ?Eu; try done. eexists. split; [done|].
    split_and!; (etrans; [apply cacheSyncRequest_fields|done]). }
  destruct coordinate as [[]|].
  - intros [(? & ? & ? & ?)|?]%Hpub; [left|by right]. split_and!; done.
  - intros [= <- <- <-]. by right.
  - intros [(? & ? & ? & ?)|?]%Hpub; [left|by right]. split_and!; done.
Qed.

(** The parts of a preparation. *)
Lemma prepare_flight_inv f supply seen pr :
  prepare_flight f supply seen = Ok pr →
  pr_client pr = fl_client f ∧ pr_session pr = fl_session f ∧ pr_request pr = fl_request f ∧
  pr_requestID pr = fl_requestID f ∧ pr_admitted pr = fl_admitted f ∧
  let ds := RequestProxies (fl_request f) in
  let a := fl_admitted f in
  ∃ s1 s2 s3 res1 res2,
  prepareEndpoints (λ q, fl_sockets f !! q) (ad_reusable a) (of_type ProxyTypeTCP ds) ∅ = (None, pr_new pr) ∧
  prepareEndpoints (λ q, fl_socketsUDP f !! q) (ad_reusableUDP a) (of_type ProxyTypeUDP ds) ∅ = (None, pr_newUDP pr) ∧
  prepareBindings true (fl_client f) (fl_session f) (ad_existing a) (ad_reusable a) (pr_new pr)
    (of_type ProxyTypeTCP ds) supply ∅ [] = Ok (s1, pr_next pr, res1) ∧
  prepareBindings false (fl_client f) (fl_session f) (ad_existingUDP a) (ad_reusableUDP a) (pr_newUDP pr)
    (of_type ProxyTypeUDP ds) s1 ∅ res1 = Ok (s2, pr_nextUDP pr, res2) ∧
  prepareHTTP (fl_client f) (fl_session f) (ad_existingHTTP a) (of_type ProxyTypeHTTP ds) s2 ∅ res2
    = Ok (s3, pr_nextHTTP pr, pr_results pr).
Proof using Type.
  unfold prepare_flight, prepareSync.
  destruct (prepareEndpoints _ (ad_reusable _) _ _) as [[e|] opened] eqn:E1; [done|].
  destruct (prepareEndpoints _ (ad_reusableUDP _) _ _) as [[e|] openedUDP] eqn:E2; [done|].
  destruct (prepareBindings true _ _ _ _ _ _ _ _ _) as [[[s1 next] res1]|] eqn:E3; [|done].
  destruct (prepareBindings false _ _ _ _ _ _ _ _ _) as [[[s2 nextUDP] res2]|] eqn:E4; [|done].
  destruct (domain_conflict _ _ _); [done|].
  destruct (prepareHTTP _ _ _ _ _ _ _) as [[[s3 nextHTTP] res3]|] eqn:E5; [|done].
  intros [= <-]. cbn. split_and!; try done. exists s1, s2, s3, res1, res2. done.
Qed.

Lemma publish_rejection_none pr r : publish_rejection ρ ρe pr r = None →
  let a := pr_admitted pr in
  managedReservationRejectionLocked (pr_client pr) (ad_mode a) (RequestProxies (pr_request pr)) r = None ∧
  lost_port (pr_client pr) (modes r) (ad_existing a) ρe (ad_reusable a) (tcp r) = None ∧
  lost_port (pr_client pr) (modes r) (ad_existingUDP a) ρe (ad_reusableUDP a) (udp r) = None ∧
  ∀ n b, pr_nextHTTP pr !! n = Some b → domain_available (ad_existingHTTP a) (domain_of b) r = true.
Proof using Type.
  unfold publish_rejection. destruct (managedReservationRejectionLocked _ _ _ _); [done|].
  destruct (lost_port _ _ (ad_existing _) _ _ _); [done|]. destruct (lost_port _ _ (ad_existingUDP _) _ _ _); [done|].
  intros Hh. split_and!; try done. intros n b Hb. destruct (domain_available _ (domain_of b) r) eqn:E; [done|].
  assert (Hin : (n, b) ∈ filter (λ q, domain_available (ad_existingHTTP (pr_admitted pr)) (Domain (b_declaration q.2)) r = false)
    (ρ (pr_nextHTTP pr))) by by rewrite list_elem_of_filter, range_elem.
  destruct (filter _ _); [by apply elem_of_nil in Hin|done].
Qed.

Lemma keys_unique_names t ds : keys_unique ds → NoDup (DeclaredName <$> of_type t ds).
Proof using Type. intros (Hn & _). unfold of_type. eapply sublist_NoDup; [exact Hn|]. apply fmap_sublist, sublist_filter. Qed.

(** The new bindings of one plane. *)
Lemma prepared_named keep c session existing reusable listen opened ds supply0 supply1 next results results' :
  prepareEndpoints listen reusable ds ∅ = (None, opened) →
  prepareBindings keep c session existing reusable opened ds supply0 ∅ results = Ok (supply1, next, results') →
  NoDup (DeclaredName <$> ds) → named_table c existing →
  named_table c next ∧ ∀ n b, next !! n = Some b → b_declaration b ∈ ds.
Proof using Type.
  intros Eo Ep Hnd Hex. destruct (prepareBindings_spec _ _ _ _ _ _ _ _ _ _ _ _ _ Ep Hnd) as (Hout & Hin & _).
  destruct (prepareEndpoints_opened _ _ _ _ _ Eo) as [_ Hop]; [intros q; left; apply lookup_empty|].
  assert (Hall : ∀ n b, next !! n = Some b → (b_name b = n ∧ b_clientID b = c ∧ is_Some (b_endpoint b)) ∧ b_declaration b ∈ ds).
  { intros n b Hb. destruct (decide (n ∈ DeclaredName <$> ds)) as [(d & -> & Hd)%list_elem_of_fmap|Hn]; [|by rewrite (Hout _ Hn), lookup_empty in Hb].
    destruct (Hin _ Hd) as (b' & Hb' & _ & Ed & Hfor). rewrite Hb in Hb'. injection Hb' as <-. split; [|by rewrite Ed].
    destruct Hfor as [Hx|[Hc He]]; [destruct (Hex _ _ Hx) as (? & ? & ?); done|]. unfold b_name. rewrite Ed. split_and!; [done|done|].
    rewrite He. destruct (reusable !! RemotePort d) eqn:Er; [done|]. by apply Hop. }
  split; intros n b Hb; by apply (Hall n b).
Qed.

Lemma prepared_ports t ds (next : gmap string binding) : keys_unique ds → t = ProxyTypeTCP ∨ t = ProxyTypeUDP →
  (∀ n b, next !! n = Some b → b_name b = n ∧ b_declaration b ∈ of_type t ds) →
  ∀ n b n' b', next !! n = Some b → next !! n' = Some b' → b_port b = b_port b' → b = b'.
Proof using Type.
  intros (_ & Ht & Hu & _) Hty Hn n b n' b' Hb Hb' Hq.
  assert (Hports : NoDup (RemotePort <$> of_type t ds)) by (by destruct Hty as [-> | ->]).
  destruct (Hn _ _ Hb) as [Hn1 Hd], (Hn _ _ Hb') as [Hn2 Hd']. apply list_elem_of_lookup in Hd as [i Hi], Hd' as [j Hj].
  assert (i = j) as ->; [apply (NoDup_lookup _ _ _ (b_port b) Hports); rewrite list_lookup_fmap, ?Hi, ?Hj; [done|by rewrite Hq]|].
  assert (E : b_declaration b = b_declaration b') by congruence. unfold b_name in *. congruence.
Qed.

(** A publication in any state. *)
Section kept_published.
Context (f : Flight) (r r' : Registry) (Hh : http_ok r) (Hf : flight_kept f r).
Context (supply : Supply) (seen : Registry) (pr : Preparation) (Epr : prepare_flight f supply seen = Ok pr).
Context (s : clientState) (Hpd : published pr s r r').

Lemma published_inv :
  pr_client pr = fl_client f ∧ pr_admitted pr = fl_admitted f ∧ pr_request pr = fl_request f ∧
  ad_existingHTTP (fl_admitted f) = client_http (fl_client f) r ∧ Mode (authentication s) = ad_mode (fl_admitted f).
Proof using Hf Epr Hpd.
  destruct (prepare_flight_inv _ _ _ _ Epr) as (Ec & Es & Eq & _ & Ea & _). destruct Hf as (_ & _ & _ & _ & Hcur).
  destruct (Hcur s) as (_ & Hm & He).
  - rewrite <- Ec. apply (pd_client _ _ _ _ Hpd).
  - rewrite <- Es. apply (pd_session _ _ _ _ Hpd).
  - split_and!; try done. apply He. rewrite <- Ea. apply (pd_base _ _ _ _ Hpd).
Qed.

Lemma published_names :
  named_table (fl_client f) (pr_next pr) ∧ named_table (fl_client f) (pr_nextUDP pr) ∧
  (∀ n b, pr_next pr !! n = Some b → b_declaration b ∈ of_type ProxyTypeTCP (RequestProxies (fl_request f))) ∧
  (∀ n b, pr_nextUDP pr !! n = Some b → b_declaration b ∈ of_type ProxyTypeUDP (RequestProxies (fl_request f))).
Proof using Hf Epr.
  destruct (prepare_flight_inv _ _ _ _ Epr) as (_ & _ & _ & _ & _ & s1 & s2 & s3 & res1 & res2 & E1 & E2 & E3 & E4 & _).
  destruct Hf as (Hk & _ & Ht & Hu & _).
  destruct (prepared_named _ _ _ _ _ _ _ _ _ _ _ _ _ E1 E3 (keys_unique_names _ _ Hk) Ht) as [??].
  destruct (prepared_named _ _ _ _ _ _ _ _ _ _ _ _ _ E2 E4 (keys_unique_names _ _ Hk) Hu) as [??]. done.
Qed.

Lemma published_next_http n b : pr_nextHTTP pr !! n = Some b →
  b_name b = n ∧ b_clientID b = fl_client f ∧ b_declaration b ∈ of_type ProxyTypeHTTP (RequestProxies (fl_request f)) ∧
  domain_available (client_http (fl_client f) r) (domain_of b) r = true.
Proof using Hh Hf Epr Hpd.
  intros Hb. destruct (prepare_flight_inv _ _ _ _ Epr) as (_ & _ & _ & _ & _ & s1 & s2 & s3 & res1 & res2 & _ & _ & _ & _ & E5).
  destruct published_inv as (Ec & Ea & Eq & Ee & _). pose proof Hf as [Hk _]. rewrite Ee in E5.
  destruct (publish_rejection_none _ _ (pd_admitted _ _ _ _ Hpd)) as (_ & _ & _ & Hav). rewrite Ea, Ee in Hav.
  destruct (prepareHTTP_spec _ _ _ _ _ _ _ _ _ _ E5 (keys_unique_names _ _ Hk)) as (Hout & Hin & _).
  destruct (decide (n ∈ DeclaredName <$> of_type ProxyTypeHTTP (RequestProxies (fl_request f)))) as [(d & -> & Hd)%list_elem_of_fmap|Hn].
  - destruct (Hin _ Hd) as (b' & Hb' & Ed & _ & Hc). rewrite Hb in Hb'. injection Hb' as <-.
    unfold b_name. rewrite Ed. split_and!; try done; [|by apply (Hav _ _ Hb)].
    destruct Hc as [Hc|Hc]; [|done]. by destruct (ho_owned _ Hh _ _ _ Hc) as (_ & ? & _).
  - by rewrite (Hout _ Hn), lookup_empty in Hb.
Qed.

Lemma published_domains x b : httpDomains r' !! x = Some b ↔
  pr_nextHTTP pr !! b_name b = Some b ∧ domain_of b = x ∨ b_clientID b ≠ fl_client f ∧ httpDomains r !! x = Some b.
Proof using Hh Hf Epr Hpd.
  destruct published_inv as (Ec & Ea & Eq & Ee & _).
  rewrite (pd_domains _ _ _ _ Hpd), Ea, Ee. apply publish_http_lookup; [exact Hh| | |].
  - intros n c Hc. by destruct (published_next_http _ _ Hc) as (? & ? & _).
  - intros n c n' c' Hc Hc' Hd. destruct (published_next_http _ _ Hc) as (Hn & _ & Hi & _), (published_next_http _ _ Hc') as (Hn' & _ & Hi' & _).
    destruct Hf as ((_ & _ & _ & Hk) & _). apply list_elem_of_lookup in Hi as [i Hi], Hi' as [j Hj].
    assert (i = j) as ->; [apply (NoDup_lookup _ _ _ (domain_of c) Hk); rewrite list_lookup_fmap, ?Hi, ?Hj; [done|by rewrite Hd]|].
    unfold b_name in *. congruence.
  - intros n c Hc. by destruct (published_next_http _ _ Hc) as (_ & _ & _ & ?).
Qed.

Lemma published_http_proxies c : client_http c r' = if decide (c = fl_client f) then pr_nextHTTP pr else client_http c r.
Proof using Hf Epr Hpd.
  destruct published_inv as (Ec & _). unfold client_http. rewrite (pd_http _ _ _ _ Hpd), Ec, lookup_insert.
  repeat case_decide; subst; done || congruence.
Qed.

Lemma published_http : http_ok r'.
Proof using Hh Hf Epr Hpd.
  constructor.
  - intros x b Hb%published_domains. rewrite published_http_proxies. destruct Hb as [[Hb Hx]|[Hc Hb]].
    + destruct (published_next_http _ _ Hb) as (_ & Hc & _). by rewrite decide_True.
    + rewrite decide_False by done. by apply (ho_domain _ Hh).
  - intros c n b. rewrite published_http_proxies. case_decide as Hc.
    + intros Hb. destruct (published_next_http _ _ Hb) as (Hn & Hc' & _). split_and!; [done|congruence|].
      apply published_domains. left. by rewrite Hn.
    + intros Hb. destruct (ho_owned _ Hh _ _ _ Hb) as (? & Hc' & ?). split_and!; try done.
      apply published_domains. right. split; congruence.
Qed.

(** A declared port that is not shared is free of reservations or reserved for
    the client. *)
Lemma published_reservation d : d ∈ RequestProxies (fl_request f) →
  mirror_member (fl_client f) (ad_mode (fl_admitted f)) d r = true ∨ reservation_owner d r = "" ∨
  reservation_owner d r = fl_client f.
Proof using Hf Epr Hpd.
  destruct published_inv as (Ec & Ea & Eq & _).
  destruct (publish_rejection_none _ _ (pd_admitted _ _ _ _ Hpd)) as (Hres & _). rewrite Ec, Ea, Eq in Hres.
  revert Hres. induction (RequestProxies (fl_request f)) as [|d' ds IH]; cbn [managedReservationRejectionLocked]; intros Hres Hd.
  { by apply elem_of_nil in Hd. }
  destruct (mirror_member _ _ d' r) eqn:Em.
  - apply elem_of_cons in Hd as [->|Hd]; [by left|by apply IH].
  - destruct (_ || _) eqn:Eo; [|done]. apply elem_of_cons in Hd as [->|Hd]; [|by apply IH]. right.
    apply orb_true_iff in Eo as [Eo|[Eo _]%andb_true_iff]; apply bool_decide_eq_true in Eo; auto.
Qed.

Lemma published_modes : modes r !! fl_client f = Some (ad_mode (fl_admitted f)).
Proof using Hf Epr Hpd.
  destruct published_inv as (Ec & _ & _ & _ & Hm). unfold modes.
  rewrite lookup_fmap, <- Ec, (pd_client _ _ _ _ Hpd). cbn. by rewrite Hm.
Qed.

Lemma locked_member q p : mirrorGroupLocked (fl_client f) (modes r) q p = None →
  match mirrorGroups p !! q with Some g => allowsMode g (fl_client f) (ad_mode (fl_admitted f)) | None => false end = false.
Proof using Hf Epr Hpd.
  unfold mirrorGroupLocked, allows. rewrite published_modes. destruct (mirrorGroups p !! q) as [g|]; [|done].
  destruct (allowsMode g _ _) eqn:Ea; [|done]. rewrite bool_decide_eq_true_2; [done|].
  unfold allowsMode in Ea. by bool_to_prop.
Qed.

(** A new route on a port is not reserved for somebody else. *)
Lemma respects_published t (pl : Registry → Plane) next :
  (∀ d, DeclaredType d = t → mirror_member (fl_client f) (ad_mode (fl_admitted f)) d r =
     match mirrorGroups (pl r) !! RemotePort d with
     | Some g => allowsMode g (fl_client f) (ad_mode (fl_admitted f)) | None => false end) →
  (∀ d, DeclaredType d = t → reservation_owner d r = default "" (managedPorts (pl r) !! RemotePort d)) →
  managedPorts (pl r') = managedPorts (pl r) →
  (∀ q b, endpointBindings (pl r') !! q = Some b → endpointBindings (pl r) !! q = Some b ∨
     next !! b_name b = Some b ∧ b_port b = q ∧ mirrorGroupLocked (fl_client f) (modes r) q (pl r) = None) →
  named_table (fl_client f) next →
  (∀ n b, next !! n = Some b → b_declaration b ∈ of_type t (RequestProxies (fl_request f))) →
  respects (managedPorts (pl r)) (endpointBindings (pl r)) → respects (managedPorts (pl r')) (endpointBindings (pl r')).
Proof using Hf Epr Hpd.
  intros Hmm Hro Hma Hbi Hna Hdecl Hres. rewrite Hma. intros q owner b Ho Hne Hb.
  destruct (Hbi _ _ Hb) as [Hb0|(Hn & <- & Hl)]; [by eapply Hres|].
  destruct (Hna _ _ Hn) as (_ & -> & _). apply Hdecl, of_type_elem in Hn as [Hty Hd].
  pose proof (published_reservation _ Hd) as Hor. rewrite Hmm, Hro in Hor by done.
  change (RemotePort (b_declaration b)) with (b_port b) in Hor. rewrite (locked_member _ _ Hl), Ho in Hor. cbn in Hor.
  by destruct Hor as [?|[?|?]].
Qed.

(** The planes after it. *)
Lemma published_placed : placed (tcp r) → placed (udp r) →
  placed (tcp r') ∧ placed (udp r') ∧ (reserved_ok r → reserved_ok r') ∧
  proxies (tcp r') = <[fl_client f := pr_next pr]> (proxies (tcp r)) ∧ proxies (udp r') = <[fl_client f := pr_nextUDP pr]> (proxies (udp r)) ∧
  (∀ n b, pr_next pr !! n = Some b → routed (tcp r') b) ∧ (∀ n b, pr_nextUDP pr !! n = Some b → routed (udp r') b).
Proof using Hh Hf Epr Hpd.
  intros Pt Pu. destruct published_inv as (Ec & _), published_names as (Nt & Nu & Dt & Du). pose proof Hf as [Hk _].
  destruct (publish_placed ρ _ (modes r) (ad_existing (pr_admitted pr)) _ _ Pt Nt) as (Pt' & Ept & Emt & _ & Bt).
  destruct (publish_placed ρ _ (modes r) (ad_existingUDP (pr_admitted pr)) _ _ Pu Nu) as (Pu' & Epu & Emu & _ & Bu).
  pose proof (publish_routed ρ _ (modes r) (ad_existing (pr_admitted pr)) _ (tcp r) Nt) as Rt.
  pose proof (publish_routed ρ _ (modes r) (ad_existingUDP (pr_admitted pr)) _ (udp r) Nu) as Ru.
  rewrite <- Ec, <- (pd_tcp _ _ _ _ Hpd) in Pt', Ept, Emt, Bt, Rt. rewrite <- Ec, <- (pd_udp _ _ _ _ Hpd) in Pu', Epu, Emu, Bu, Ru. rewrite Ec in *.
  split_and!; [done|done| |done|done| |].
  - intros [Ht Hu Hd]. constructor.
    + eapply (respects_published ProxyTypeTCP tcp); try done; intros d E; unfold mirror_member, reservation_owner; by rewrite E.
    + eapply (respects_published ProxyTypeUDP udp); try done; intros d E; unfold mirror_member, reservation_owner; by rewrite E.
    + rewrite (pd_reserved _ _ _ _ Hpd). intros x owner b Ho Hne Hb%published_domains. destruct Hb as [[Hn <-]|[_ Hb]]; [|by eapply Hd].
      destruct (published_next_http _ _ Hn) as (_ & -> & [Hty Hdd]%of_type_elem & _). pose proof (published_reservation _ Hdd) as Hres.
      unfold mirror_member, reservation_owner in Hres. rewrite Hty in Hres. unfold domain_of in Ho. rewrite Ho in Hres. cbn in Hres.
      by destruct Hres as [?|[?|?]].
  - apply Rt. eapply (prepared_ports ProxyTypeTCP); [done|by left|]. intros n b Hb. split; [by apply (Nt n)|by eapply Dt].
  - apply Ru. eapply (prepared_ports ProxyTypeUDP); [done|by right|]. intros n b Hb. split; [by apply (Nu n)|by eapply Du].
Qed.
End kept_published.

Section flight_published.
Context (f : Flight) (r r' : Registry) (Hr : tables_ok r) (Hf : flight_ok f r).
Context (Hsockets : ∀ q e, fl_sockets f !! q = Some e → ep_port e = q ∧ endpoints (tcp r) !! q = None).
Context (HsocketsUDP : ∀ q e, fl_socketsUDP f !! q = Some e → ep_port e = q ∧ endpoints (udp r) !! q = None).
Context (supply : Supply) (seen : Registry) (pr : Preparation) (Epr : prepare_flight f supply seen = Ok pr).
Context (s : clientState) (Hpd : published pr s r r').

(** What was current at admission still is. *)
Lemma published_current :
  pr_client pr = fl_client f ∧ pr_admitted pr = fl_admitted f ∧ pr_request pr = fl_request f ∧
  ad_existing (fl_admitted f) = client_proxies (fl_client f) (tcp r) ∧
  ad_existingUDP (fl_admitted f) = client_proxies (fl_client f) (udp r) ∧
  ad_existingHTTP (fl_admitted f) = client_http (fl_client f) r ∧
  Mode (authentication s) = ad_mode (fl_admitted f) ∧
  admissible (fl_client f) (modes r) ProxyTypeTCP (RequestProxies (fl_request f)) (tcp r) ∧
  admissible (fl_client f) (modes r) ProxyTypeUDP (RequestProxies (fl_request f)) (udp r).
Proof using Hf Epr Hpd.
  destruct (prepare_flight_inv _ _ _ _ Epr) as (Ec & Es & Eq & _ & Ea & _). destruct Hf as (_ & _ & Hcur).
  destruct (Hcur s) as (_ & Hm & Ht & Hu & He).
  - rewrite <- Ec. apply (pd_client _ _ _ _ Hpd).
  - rewrite <- Es. apply (pd_session _ _ _ _ Hpd).
  - destruct He as (? & ? & ?); [rewrite <- Ea; apply (pd_base _ _ _ _ Hpd)|]. split_and!; done.
Qed.

Lemma published_tcp :
  plane_published (fl_client f) (modes r) (pr_next pr) (fl_sockets f) (tcp r) (tcp r') ∧
  (∀ n b, pr_next pr !! n = Some b → b_declaration b ∈ of_type ProxyTypeTCP (RequestProxies (fl_request f))).
Proof using Hr Hf Hsockets HsocketsUDP Epr Hpd.
  destruct (prepare_flight_inv _ _ _ _ Epr) as (_ & _ & _ & _ & _ & s1 & s2 & s3 & res1 & res2 & E1 & _ & E3 & _).
  destruct published_current as (Ec & Ea & Eq & Ee & _ & _ & _ & Hadm & _). pose proof Hf as [Hk _].
  pose proof (keys_unique_names ProxyTypeTCP _ Hk) as Hnames.
  destruct (publish_rejection_none _ _ (pd_admitted _ _ _ _ Hpd)) as (_ & Hlost & _). rewrite Ec, Ea, Ee in Hlost. rewrite Ee in E3.
  assert (Howned := λ q e, lost_port_none _ _ _ _ _ _ q e Hlost). split.
  - rewrite (pd_tcp _ _ _ _ Hpd), Ec, Ea, Ee. apply publish_plane_published; [apply (to_tcp _ Hr)| |].
    + eapply prepared_publishable; [apply (to_tcp _ Hr)|done|by destruct Hk as (_ & ? & _)|done|done|exact Hsockets|done|done].
    + intros n b Hb. destruct (prepared_endpoint _ _ _ _ (to_tcp _ Hr) _ Hnames _ Howned _ Hsockets _ E1 _ _ _ _ _ _ E3 _ _ Hb)
        as (_ & e & He & _ & [[_ Hl]|[Hl _]]); exists e; auto.
  - intros n b Hb. by destruct (prepared_declared _ _ _ _ Hnames _ _ _ _ _ _ _ _ E3 _ _ Hb) as (_ & ? & _).
Qed.

Lemma published_udp :
  plane_published (fl_client f) (modes r) (pr_nextUDP pr) (fl_socketsUDP f) (udp r) (udp r') ∧
  (∀ n b, pr_nextUDP pr !! n = Some b → b_declaration b ∈ of_type ProxyTypeUDP (RequestProxies (fl_request f))).
Proof using Hr Hf Hsockets HsocketsUDP Epr Hpd.
  destruct (prepare_flight_inv _ _ _ _ Epr) as (_ & _ & _ & _ & _ & s1 & s2 & s3 & res1 & res2 & _ & E2 & _ & E4 & _).
  destruct published_current as (Ec & Ea & Eq & _ & Ee & _ & _ & _ & Hadm). pose proof Hf as [Hk _].
  pose proof (keys_unique_names ProxyTypeUDP _ Hk) as Hnames.
  destruct (publish_rejection_none _ _ (pd_admitted _ _ _ _ Hpd)) as (_ & _ & Hlost & _). rewrite Ec, Ea, Ee in Hlost. rewrite Ee in E4.
  assert (Howned := λ q e, lost_port_none _ _ _ _ _ _ q e Hlost). split.
  - rewrite (pd_udp _ _ _ _ Hpd), Ec, Ea, Ee. apply publish_plane_published; [apply (to_udp _ Hr)| |].
    + eapply prepared_publishable; [apply (to_udp _ Hr)|done|by destruct Hk as (_ & _ & ? & _)|done|done|exact HsocketsUDP|done|done].
    + intros n b Hb. destruct (prepared_endpoint _ _ _ _ (to_udp _ Hr) _ Hnames _ Howned _ HsocketsUDP _ E2 _ _ _ _ _ _ E4 _ _ Hb)
        as (_ & e & He & _ & [[_ Hl]|[Hl _]]); exists e; auto.
  - intros n b Hb. by destruct (prepared_declared _ _ _ _ Hnames _ _ _ _ _ _ _ _ E4 _ _ Hb) as (_ & ? & _).
Qed.

Lemma published_tables : tables_ok r'.
Proof using Hr Hf Hsockets HsocketsUDP Epr Hpd.
  destruct published_current as (Ec & _). destruct published_tcp as [Ht _], published_udp as [Hu _].
  destruct (pd_clients _ _ _ _ Hpd) as (s' & Ecl & _). destruct (to_attached _ Hr) as [At Au Ah].
  constructor; [apply (pp_ok _ _ _ _ _ _ Ht)|apply (pp_ok _ _ _ _ _ _ Hu)|].
  constructor; intros c; rewrite Ecl, Ec, lookup_insert; (case_decide as Hc; [done|]); intros Hn.
  - rewrite (pp_proxies _ _ _ _ _ _ Ht), lookup_insert_ne by done. by apply At.
  - rewrite (pp_proxies _ _ _ _ _ _ Hu), lookup_insert_ne by done. by apply Au.
  - rewrite (pd_http _ _ _ _ Hpd), Ec, lookup_insert_ne by done. by apply Ah.
Qed.
End flight_published.

(** ** Every step keeps the invariant *)

Lemma flight_ok_transfer f r r' : flight_ok f r →
  (∀ s', clients r' !! fl_client f = Some s' → sessionID s' = fl_session f →
     ∃ s, clients r !! fl_client f = Some s ∧ sessionID s = fl_session f ∧ authentication s' = authentication s ∧
       same_policy (tcp r) (tcp r') ∧ same_policy (udp r) (udp r') ∧
       (revision s < revision s' ∨
        revision s' = revision s ∧ client_proxies (fl_client f) (tcp r') = client_proxies (fl_client f) (tcp r) ∧
        client_proxies (fl_client f) (udp r') = client_proxies (fl_client f) (udp r) ∧
        client_http (fl_client f) r' = client_http (fl_client f) r)) →
  flight_ok f r'.
Proof using Type.
  intros (Hk & Hlt & Hcur) Hs. split_and!; [done|done|]. intros s' Hs' Hse.
  destruct (Hs _ Hs' Hse) as (s & Hs0 & Hse0 & Ha & Ht & Hu & Hrev). destruct (Hcur _ Hs0 Hse0) as (Hb & Hm & Hat & Hau & He).
  assert (Hms : modes r' !! fl_client f = modes r !! fl_client f).
  { unfold modes. rewrite !lookup_fmap, Hs', Hs0. cbn. by rewrite Ha. }
  split_and!; [lia|by rewrite Ha|intros d Hd; eapply locked_policy; [done..|by apply Hat]|
    intros d Hd; eapply locked_policy; [done..|by apply Hau]|].
  intros Hr. destruct Hrev as [?|(Er & -> & -> & ->)]; [lia|]. apply He. congruence.
Qed.

Lemma flight_ok_same f r r' : flight_ok f r →
  (∀ s', clients r' !! fl_client f = Some s' → sessionID s' = fl_session f →
     ∃ s, clients r !! fl_client f = Some s ∧ sessionID s = sessionID s' ∧ authentication s' = authentication s ∧
       revision s' = revision s) →
  mirrorGroups (tcp r') = mirrorGroups (tcp r) → mirrorGroups (udp r') = mirrorGroups (udp r) →
  proxies (tcp r') = proxies (tcp r) → proxies (udp r') = proxies (udp r) → httpProxies r' = httpProxies r →
  flight_ok f r'.
Proof using Type.
  intros Hf Hc Hgt Hgu Ht Hu Hh. eapply flight_ok_transfer; [done|]. intros s' Hs' Hse.
  destruct (Hc _ Hs' Hse) as (s & Hs & He & Ha & Hr). exists s. unfold same_policy, client_proxies, client_http.
  rewrite Hgt, Hgu, Ht, Hu, Hh. split_and!; try done; [congruence|by right].
Qed.

(** Operations that only change what a session is. *)
Lemma tables_ok_clients r r' :
  tables_ok r → tcp r' = tcp r → udp r' = udp r → httpProxies r' = httpProxies r → (∀ c, clients r' !! c = None → clients r !! c = None) → tables_ok r'.
Proof using Type.
  intros [Ht Hu [At Au Ah]] Et Eu Ep Hc. constructor; rewrite ?Et, ?Eu; try done.
  constructor; rewrite ?Et, ?Eu, ?Ep; intros c Hn; auto.
Qed.

(** In every state: registrations whose session or proxies change. *)
Lemma flight_kept_transfer f r r' : flight_kept f r →
  (∀ s', clients r' !! fl_client f = Some s' → sessionID s' = fl_session f →
     ∃ s, clients r !! fl_client f = Some s ∧ sessionID s = fl_session f ∧ authentication s' = authentication s ∧
       (revision s < revision s' ∨ revision s' = revision s ∧ client_http (fl_client f) r' = client_http (fl_client f) r)) →
  flight_kept f r'.
Proof using Type.
  intros (Hk & Hlt & Ht & Hu & Hcur) Hs. split_and!; [done..|]. intros s' Hs' Hse.
  destruct (Hs _ Hs' Hse) as (s & Hs0 & Hse0 & Ha & Hrev). destruct (Hcur _ Hs0 Hse0) as (Hb & Hm & He).
  split_and!; [lia|by rewrite Ha|]. intros Hr. destruct Hrev as [?|[Er ->]]; [lia|]. apply He. congruence.
Qed.

(** A step that changes neither the proxies nor the routes of anybody. *)
Lemma kept_clients w r' fs' : kept_ok w →
  tcp r' = tcp (reg w) → udp r' = udp (reg w) → httpProxies r' = httpProxies (reg w) → httpDomains r' = httpDomains (reg w) →
  managedHTTPDomains r' = managedHTTPDomains (reg w) → (∀ i f, fs' !! i = Some f → flight_kept f r') →
  ∀ w', reg w' = r' → flights w' = fs' → kept_ok w'.
Proof using Type.
  intros [Kt Ku [Hd Ho] [Rt Ru Rh] Kf] Et Eu Ep Ed Em Hf w' <- <-. constructor; rewrite ?Et, ?Eu; try done.
  - constructor; unfold client_http in *; rewrite Ep, Ed; done.
  - constructor; rewrite ?Et, ?Eu, ?Em, ?Ed; done.
Qed.

Lemma update_session_spec c session g r :
  (update_session c session g r = r) ∨
  ∃ s, clients r !! c = Some s ∧ sessionID s = session ∧
    update_session c session g r = r <| clients := <[c := g s]> (clients r) |>.
Proof using Type.
  unfold update_session. destruct (clients r !! c) as [s|]; [|by left].
  case_bool_decide; [right; by exists s|by left].
Qed.

Lemma update_session_ok c session g w :
  (∀ s, sessionID (g s) = sessionID s ∧ authentication (g s) = authentication s ∧ revision (g s) = revision s) →
  world_ok w → world_ok (w <| reg := update_session c session g (reg w) |>).
Proof using Type.
  intros Hg [Wt Ws Wsu Wp Wpu Wf].
  destruct (update_session_spec c session g (reg w)) as [E|(s & Hs & Hse & E)].
  { constructor; cbn; rewrite ?E; done. }
  constructor; cbn; rewrite ?E; try done.
  - eapply tables_ok_clients; try done. intros c'. cbn. rewrite lookup_insert. case_decide; [done|done].
  - intros i f Hf Hi. eapply flight_ok_same; [by apply (Wf i)| |done..]. intros s'. cbn. rewrite lookup_insert.
    case_decide as Hc; [|intros Hs' _; by exists s'].
    intros [= <-] _. destruct (Hg s) as (? & ? & ?). exists s. rewrite <- Hc. split_and!; congruence.
Qed.

Lemma update_session_kept c session g w :
  (∀ s, sessionID (g s) = sessionID s ∧ authentication (g s) = authentication s ∧ revision (g s) = revision s) →
  kept_ok w → kept_ok (w <| reg := update_session c session g (reg w) |>).
Proof using Type.
  intros Hg Hw. destruct (update_session_spec c session g (reg w)) as [E|(s & Hs & Hse & E)].
  { destruct Hw. constructor; cbn; rewrite ?E; done. }
  eapply kept_clients; [exact Hw|..|reflexivity|reflexivity]; rewrite ?E; try done. cbn.
  intros i f Hf. eapply flight_kept_transfer; [by apply (ko_flights _ Hw i)|]. intros s'. cbn. rewrite lookup_insert.
  case_decide as Hc; [|intros Hs' ?; exists s'; split_and!; [done..|by right]].
  intros [= <-] ?. destruct (Hg s) as (? & ? & ?). exists s. rewrite <- Hc. split_and!; try congruence. right. split; [congruence|done].
Qed.

Lemma attach_ok c session writer auth limit w :
  (∀ i f, flights w !! i = Some f → fl_session f ≠ session) →
  world_ok w → world_ok (w <| reg := AttachAuthenticated c session writer auth limit (reg w) |>).
Proof using Type.
  intros Hfresh [Wt Ws Wsu Wp Wpu Wf]. constructor; cbn; try done.
  - eapply tables_ok_clients; try done. intros c'. cbn. rewrite lookup_insert. by case_decide.
  - intros i f Hf Hi. eapply flight_ok_same; [by apply (Wf i)| |done..]. intros s'. cbn. rewrite lookup_insert.
    case_decide as Hc; [|intros Hs' _; by exists s']. intros [= <-]. cbn. intros Hse. by destruct (Hfresh _ _ Hf).
Qed.

Lemma attach_kept c session writer auth limit w :
  (∀ i f, flights w !! i = Some f → fl_session f ≠ session) →
  kept_ok w → kept_ok (w <| reg := AttachAuthenticated c session writer auth limit (reg w) |>).
Proof using Type.
  intros Hfresh Hw. eapply kept_clients; [exact Hw|..|reflexivity|reflexivity]; try done. cbn.
  intros i f Hf. eapply flight_kept_transfer; [by apply (ko_flights _ Hw i)|]. intros s'. cbn. rewrite lookup_insert.
  case_decide as Hc; [|intros Hs' ?; exists s'; split_and!; [done..|by right]]. intros [= <-]. cbn. intros Hse. by destruct (Hfresh _ _ Hf).
Qed.

(** The tables of sockets when registrations go or come. *)
Lemma sockets_subset p p' sockets fs fs' op :
  sockets_ok p sockets fs op → endpoints p' ⊆ endpoints p → fs' ⊆ fs → sockets_ok p' sockets fs' op.
Proof using Type.
  intros [S1 S2 S3] He Hfs. constructor; [by etrans| |].
  - intros i f Hi. destruct (S2 i f) as [? Hd]; [by eapply lookup_weaken|]. split; [done|].
    eapply map_disjoint_weaken_r; done.
  - intros i f j f' Hi Hj. apply S3; by eapply lookup_weaken.
Qed.

Lemma sockets_listen p sockets fs op i f f' e :
  sockets_ok p sockets fs op → fs !! i = Some f → op !! ep_port e = None →
  sockets f' = <[ep_port e := e]> (sockets f) →
  sockets_ok p sockets (<[i := f']> fs) (<[ep_port e := e]> op).
Proof using Type.
  intros [S1 S2 S3] Hf Hop Es.
  assert (Hsub : op ⊆ <[ep_port e := e]> op) by by apply insert_subseteq.
  assert (Hno : ∀ m, m ⊆ op → m !! ep_port e = None).
  { intros m Hm. destruct (m !! ep_port e) as [e'|] eqn:E; [|done]. by rewrite (lookup_weaken _ _ _ _ E Hm) in Hop. }
  assert (Hd : ∀ m, m ⊆ op → m ##ₘ sockets f → m ##ₘ sockets f').
  { intros m Hm Hdis. rewrite Es. apply map_disjoint_insert_r. split; [by apply Hno|done]. }
  constructor.
  - by etrans.
  - intros j g. rewrite lookup_insert. case_decide as Hj.
    + intros [= <-]. destruct (S2 _ _ Hf) as [? ?]. split; [rewrite Es; by apply insert_mono|].
      symmetry. apply Hd; [done|by symmetry].
    + intros Hg. destruct (S2 _ _ Hg) as [? ?]. split; [by etrans|done].
  - intros j g k g'. rewrite !lookup_insert. case_decide as Hj; case_decide as Hk.
    + congruence.
    + intros [= <-] Hg' _. symmetry. apply Hd; [by destruct (S2 _ _ Hg')|]. apply (S3 k g' i f); congruence.
    + intros Hg [= <-] _. apply Hd; [by destruct (S2 _ _ Hg)|]. apply (S3 j g i f); congruence.
    + intros Hg Hg' ?. by apply (S3 j g k g').
Qed.

Lemma sockets_other p sockets fs op i f f' :
  sockets_ok p sockets fs op → fs !! i = Some f → sockets f' = sockets f → sockets_ok p sockets (<[i := f']> fs) op.
Proof using Type.
  intros [S1 S2 S3] Hf Es. constructor; [done| |].
  - intros j g. rewrite lookup_insert. case_decide; [intros [= <-]; rewrite Es; by apply (S2 i)|apply S2].
  - intros j g k g'. rewrite !lookup_insert. case_decide; case_decide; try congruence.
    + intros [= <-] Hg' _. rewrite Es. apply (S3 i f k g'); congruence.
    + intros Hg [= <-] _. rewrite Es. apply (S3 j g i f); congruence.
    + intros Hg Hg' ?. by apply (S3 j g k g').
Qed.

Lemma sockets_admit p sockets fs op i f :
  sockets_ok p sockets fs op → fs !! i = None → sockets f = ∅ → sockets_ok p sockets (<[i := f]> fs) op.
Proof using Type.
  intros [S1 S2 S3] Hf Es. constructor; [done| |].
  - intros j g. rewrite lookup_insert. case_decide; [intros [= <-]; rewrite Es|apply S2].
    split; [apply map_empty_subseteq|apply map_disjoint_empty_l].
  - intros j g k g'. rewrite !lookup_insert. case_decide; case_decide; try congruence.
    + intros [= <-] _ _. rewrite Es. apply map_disjoint_empty_l.
    + intros _ [= <-] _. rewrite Es. apply map_disjoint_empty_r.
    + intros Hg Hg' ?. by apply (S3 j g k g').
Qed.

Lemma sockets_close p sockets fs op q :
  sockets_ok p sockets fs op → endpoints p !! q = None → (∀ i f, fs !! i = Some f → sockets f !! q = None) →
  sockets_ok p sockets fs (delete q op).
Proof using Type.
  intros [S1 S2 S3] Hq Hfs.
  assert (Hsub : ∀ m : gmap Z Endpoint, m ⊆ op → m !! q = None → m ⊆ delete q op).
  { intros m Hm Hn. apply map_subseteq_spec. intros k x Hx. rewrite lookup_delete_ne by congruence. by eapply lookup_weaken. }
  constructor; [by apply Hsub| |done]. intros i f Hf. destruct (S2 _ _ Hf). split; [|done]. apply Hsub; [done|by eapply Hfs].
Qed.

(** After a publication the registration's listeners are the plane's. *)
Lemma sockets_publish c ms next p p' sockets fs op i f :
  sockets_ok p sockets fs op → fs !! i = Some f → plane_published c ms next (sockets f) p p' →
  sockets_ok p' sockets (delete i fs) op.
Proof using Type.
  intros [S1 S2 S3] Hf Hpp. constructor.
  - apply map_subseteq_spec. intros q e He. destruct (pp_endpoint _ _ _ _ _ _ Hpp _ _ He) as [Hq|Hq].
    + by eapply lookup_weaken.
    + eapply lookup_weaken; [exact Hq|]. by destruct (S2 _ _ Hf).
  - intros j g. rewrite lookup_delete. case_decide as Hj; [done|]. intros Hg. destruct (S2 _ _ Hg) as [? Hd]. split; [done|].
    apply map_disjoint_spec. intros q e e' Hx Hy. destruct (pp_endpoint _ _ _ _ _ _ Hpp _ _ Hy) as [Hq|Hq].
    + by eapply map_disjoint_spec in Hd.
    + pose proof (S3 i f j g Hf Hg Hj) as Hd'. by eapply map_disjoint_spec in Hd'.
  - intros j g k g'. rewrite !lookup_delete. repeat case_decide; try done. apply S3.
Qed.

(** What an admitted registration was admitted with. *)
Lemma admit_proceed c session requestID request allowEmpty r a :
  admit_sync fingerprint_of c session requestID request allowEmpty r = Proceed a →
  validateProxyDeclarations (RequestProxies request) (httpEnabled r) (httpsEnabled r) = None ∧
  ValidateRequestID requestID = None ∧
  ∃ s fp, clients r !! c = Some s ∧ sessionID s = session ∧ closed r = false ∧ revision s < RequestRevision request ∧
    fingerprint_of (RequestProxies request) = Some fp ∧
    managedReservationRejectionLocked c (Mode (authentication s)) (RequestProxies request) r = None ∧
    check_ports c request fp s r = Proceed a.
Proof using Type.
  unfold admit_sync. destruct (ValidateRequestID requestID) eqn:Ei; cbn [is_some]; [done|].
  destruct (fingerprint_of _) as [fp|] eqn:Ef; [|done].
  destruct (closed r) eqn:Ecl; [done|]. destruct (clients r !! c) as [s|] eqn:Ec; [|done].
  destruct (negb (bool_decide _)) eqn:Es; [done|]. destruct (check_revision _ _ _ _) as [x|] eqn:Er.
  { intros ->. unfold check_revision in Er. destruct (requestCache s !! requestID) as [cr|]; [injection Er as Er; revert Er; by case (_ && _)|].
    destruct (_ || _); [done|]. destruct (_ =? _); [|done]. injection Er as Er. revert Er. by case (bool_decide _). }
  destruct (_ <? _); [done|]. destruct (_ && bool_decide (RequestProxies request = [])); [done|].
  destruct (validateProxyDeclarations _ _ _) as [[code name]|] eqn:Ev; [done|].
  destruct (managedReservationRejectionLocked _ _ _ _) as [[code name]|] eqn:Em; [done|].
  intros Hc. split; [done|]. split; [done|]. exists s, fp. apply negb_false_iff, bool_decide_eq_true in Es. split_and!; try done.
  unfold check_revision in Er. destruct (requestCache s !! requestID); [done|].
  destruct ((RequestRevision request =? 0) || (RequestRevision request <? revision s)) eqn:E1; [done|].
  destruct (RequestRevision request =? revision s) eqn:E2; [done|]. lia.
Qed.

Lemma admit_flight_ok c session requestID request allowEmpty r a sk sku :
  tables_ok r → admit_sync fingerprint_of c session requestID request allowEmpty r = Proceed a →
  flight_ok {| fl_client := c; fl_session := session; fl_requestID := requestID; fl_request := request;
               fl_admitted := a; fl_sockets := sk; fl_socketsUDP := sku |} r.
Proof using Type.
  intros Hr (Hv & _ & s & fp & Hs & Hse & _ & Hrev & _ & _ & Hp)%admit_proceed.
  apply validated_unique in Hv as [Hk _]. unfold check_ports in Hp.
  destruct (reusableEndpoints c (modes r) _ (tcp r) _ _) as [reusable|e] eqn:Et; [|by destruct e].
  destruct (reusableEndpoints c (modes r) _ (udp r) _ _) as [reusableUDP|e] eqn:Eu; [|by destruct e].
  destruct (reusable_ports _ _ _ _ _ _ _ (to_tcp _ Hr) Et) as (_ & _ & Ht); [intros q e; by rewrite lookup_empty|].
  destruct (reusable_ports _ _ _ _ _ _ _ (to_udp _ Hr) Eu) as (_ & _ & Hu); [intros q e; by rewrite lookup_empty|].
  injection Hp as <-. split_and!; [done|done|]. cbn. intros s0 Hs0 _. rewrite Hs in Hs0. injection Hs0 as <-.
  split_and!; [done|done|intros d Hd; by apply Ht|intros d Hd; by apply Hu|done].
Qed.

Lemma admit_flight_kept c session requestID request allowEmpty r a sk sku : placed (tcp r) → placed (udp r) →
  admit_sync fingerprint_of c session requestID request allowEmpty r = Proceed a →
  flight_kept {| fl_client := c; fl_session := session; fl_requestID := requestID; fl_request := request;
                 fl_admitted := a; fl_sockets := sk; fl_socketsUDP := sku |} r.
Proof using Type.
  intros Pt Pu (Hv & _ & s & fp & Hs & Hse & _ & Hrev & _ & _ & Hp)%admit_proceed.
  apply validated_unique in Hv as [Hk _]. unfold check_ports in Hp.
  destruct (reusableEndpoints c (modes r) _ (tcp r) _ _) as [reusable|e] eqn:Et; [|by destruct e].
  destruct (reusableEndpoints c (modes r) _ (udp r) _ _) as [reusableUDP|e] eqn:Eu; [|by destruct e].
  injection Hp as <-. split_and!; [done|done|apply (pl_named _ Pt)|apply (pl_named _ Pu)|]. cbn. intros s0 Hs0 _. rewrite Hs in Hs0. injection Hs0 as <-. done.
Qed.

(** The other registrations after a publication. *)
Lemma published_others_kept f g r r' pr s : flight_kept f r → pr_client pr = fl_client f → pr_request pr = fl_request f → pr_admitted pr = fl_admitted f →
  published pr s r r' → flight_kept g r → flight_kept g r'.
Proof using Type.
  intros Hf Ec Eq Ea Hpd Hg. destruct (pd_clients _ _ _ _ Hpd) as (s' & Ecl & Es' & Eau & Erev).
  eapply flight_kept_transfer; [exact Hg|]. intros s1. rewrite Ecl, Ec, lookup_insert. case_decide as Hc.
  - intros [= <-] Hse. exists s. rewrite <- Hc, <- Ec. split_and!; try done; [apply (pd_client _ _ _ _ Hpd)|congruence|].
    left. rewrite Erev, Eq, (pd_base _ _ _ _ Hpd), Ea. by destruct Hf as (_ & ? & _).
  - intros Hs1 Hse. exists s1. split_and!; try done. right. split; [done|]. unfold client_http.
    by rewrite (pd_http _ _ _ _ Hpd), Ec, lookup_insert_ne by done.
Qed.

Lemma commit_kept i f supply seen pr coordinate res retired r' w w' :
  flights w !! i = Some f → prepare_flight f supply seen = Ok pr → commitSync ρ ρe pr coordinate (reg w) = (res, retired, r') →
  kept_ok w → reg w' = r' → flights w' = delete i (flights w) → kept_ok w'.
Proof using Type.
  intros Hf Epr E Hw Er Ef. pose proof Hw as [Kt Ku Kh Kr Kf].
  destruct (commit_cases _ _ _ _ _ _ E) as [(_ & _ & _ & _ & s & Hpd)|(_ & _ & ->)].
  - destruct (published_inv _ _ _ (Kf _ _ Hf) _ _ _ Epr _ Hpd) as (Ec & Ea & Eq & _).
    destruct (published_placed _ _ _ Kh (Kf _ _ Hf) _ _ _ Epr _ Hpd Kt Ku) as (Pt & Pu & Pr & _).
    constructor; rewrite ?Er; [done|done|exact (published_http _ _ _ Kh (Kf _ _ Hf) _ _ _ Epr _ Hpd)|by apply Pr|].
    intros j g. rewrite Ef, lookup_delete. case_decide; [done|]. intros Hg.
    eapply published_others_kept; [exact (Kf _ _ Hf)|done..|by apply (Kf j)].
  - eapply kept_clients; [exact Hw|..|exact Er|exact Ef]; try done. intros j g. rewrite lookup_delete. case_decide; [done|]. apply Kf.
Qed.

Lemma proxy_commit_ok i f supply seen pr coordinate res retired r' w w' :
  flights w !! i = Some f → prepare_flight f supply seen = Ok pr → commitSync ρ ρe pr coordinate (reg w) = (res, retired, r') →
  (Status res = SyncStatusApplied → i ∉ overtaken w) → world_ok w →
  reg w' = r' → flights w' = delete i (flights w) → open w' = open w → openUDP w' = openUDP w → overtaken w' = overtaken w → world_ok w'.
Proof using Type.
  intros Hf Epr E Hov [Wt Ws Wsu Wp Wpu Wf'] Er Ef Eo Eou Eov.
  destruct (commit_cases _ _ _ _ _ _ E) as [(Hst & _ & _ & _ & s & Hpd)|(_ & _ & ->)]; cbn.
  - assert (Wf := λ j g Hg, Wf' j g Hg). specialize (Hov Hst). pose proof (Wf _ _ Hf Hov) as Hfok.
    assert (Hsk : ∀ q e, fl_sockets f !! q = Some e → ep_port e = q ∧ endpoints (tcp (reg w)) !! q = None).
    { intros q e Hq. destruct (so_flight _ _ _ _ Ws _ _ Hf) as [Hsub Hd]. split; [apply Wp; by eapply lookup_weaken|].
      by eapply map_disjoint_Some_l. }
    assert (Hsku : ∀ q e, fl_socketsUDP f !! q = Some e → ep_port e = q ∧ endpoints (udp (reg w)) !! q = None).
    { intros q e Hq. destruct (so_flight _ _ _ _ Wsu _ _ Hf) as [Hsub Hd]. split; [apply Wpu; by eapply lookup_weaken|].
      by eapply map_disjoint_Some_l. }
    destruct (published_tcp _ _ _ Wt Hfok Hsk Hsku _ _ _ Epr _ Hpd) as [Ht _].
    destruct (published_udp _ _ _ Wt Hfok Hsk Hsku _ _ _ Epr _ Hpd) as [Hu _].
    destruct (published_current _ _ _ Hfok _ _ _ Epr _ Hpd) as (Ec & Ea & Eq & _).
    destruct (pd_clients _ _ _ _ Hpd) as (s' & Ecl & Es' & Eau & Erev).
    constructor; rewrite ?Er, ?Ef, ?Eo, ?Eou, ?Eov; try done.
    + exact (published_tables _ _ _ Wt Hfok Hsk Hsku _ _ _ Epr _ Hpd).
    + by eapply sockets_publish.
    + by eapply sockets_publish.
    + intros j g. rewrite lookup_delete. case_decide as Hj; [done|]. intros Hg Hgo.
      pose proof (Wf _ _ Hg Hgo) as Hgok. eapply flight_ok_transfer; [exact Hgok|].
      pose proof (pp_policy _ _ _ _ _ _ Ht) as Hpt. pose proof (pp_policy _ _ _ _ _ _ Hu) as Hpu.
      intros s1. rewrite Ecl, Ec, lookup_insert. case_decide as Hc.
      * intros [= <-] Hse. exists s. rewrite <- Hc, <- Ec. split_and!; try done; [apply (pd_client _ _ _ _ Hpd)|congruence|].
        left. rewrite Erev, Eq, (pd_base _ _ _ _ Hpd), Ea. by destruct Hfok as (_ & ? & _).
      * intros Hs1 Hse. exists s1. split_and!; try done. right. unfold client_proxies, client_http.
        rewrite (pp_proxies _ _ _ _ _ _ Ht), (pp_proxies _ _ _ _ _ _ Hu), (pd_http _ _ _ _ Hpd), Ec, !lookup_insert_ne by done.
        done.
  - constructor; rewrite ?Er, ?Ef, ?Eo, ?Eou, ?Eov; try done.
    + eapply sockets_subset; [exact Ws|done|apply delete_subseteq].
    + eapply sockets_subset; [exact Wsu|done|apply delete_subseteq].
    + intros j g. rewrite lookup_delete. case_decide; [done|]. apply Wf'.
Qed.

Lemma respects_subset {K} `{Countable K} (table : gmap K string) (routes routes' : gmap K binding) :
  respects table routes → routes' ⊆ routes → respects table routes'.
Proof using Type. intros Hr Hs k owner b Ho Hne Hb. eapply Hr; [done..|]. by eapply lookup_weaken. Qed.

Section detached.
Context (c session : string) (r : Registry) (Hh : http_ok r) (Hr : tables_ok r) (s : clientState).
Context (Hc : clients r !! c = Some s) (Hse : sessionID s = session).

(** The planes and tables after a client has left. *)
Lemma detach_inv : ∃ p1 p2 m1 m2 s1 s2 retired r',
  detachPlane ρ c (tcp r) = (p1, m1, s1) ∧ detachPlane ρ c (udp r) = (p2, m2, s2) ∧
  Detach ρ c session r = (Some retired, r') ∧
  r' = r <| clients := delete c (clients r) |> <| tcp := p1 |> <| udp := p2 |>
         <| httpDomains := foldl release_domain (httpDomains r) (ρ (client_http c r)).*2 |>
         <| httpProxies := delete c (httpProxies r) |>.
Proof using Hc Hse.
  unfold Detach. rewrite Hc, Hse, bool_decide_eq_true_2 by done. cbn [negb].
  destruct (detachPlane ρ c (tcp r)) as [[p1 m1] s1], (detachPlane ρ c (udp r)) as [[p2 m2] s2].
  by eexists p1, p2, m1, m2, s1, s2, _, _.
Qed.

Lemma detached_domains x b :
  foldl release_domain (httpDomains r) (ρ (client_http c r)).*2 !! x = Some b ↔
  b_clientID b ≠ c ∧ httpDomains r !! x = Some b.
Proof using Hh.
  rewrite release_fold_lookup by by apply http_keyed. rewrite range_value. split.
  - intros [Hb Hn]. split; [|done]. intros Hbc. apply Hn. destruct (ho_domain _ Hh _ _ Hb) as [_ Ho]. rewrite Hbc in Ho. by eexists.
  - intros [Hbc Hb]. split; [done|]. intros [n Hi]. by destruct (ho_owned _ Hh _ _ _ Hi) as (_ & ? & _).
Qed.

Lemma detached_http c' : default ∅ (delete c (httpProxies r) !! c') = if decide (c' = c) then ∅ else client_http c' r.
Proof using Type. unfold client_http. rewrite lookup_delete. repeat case_decide; congruence || done. Qed.

Lemma detached_http_ok r' : (Detach ρ c session r).2 = r' → http_ok r'.
Proof using Hh Hc Hse.
  destruct detach_inv as (p1 & p2 & m1 & m2 & s1 & s2 & retired & r1 & E1 & E2 & -> & ->). intros <-. cbn [snd].
  constructor; cbn [httpDomains upd eta_Registry].
  - intros x b [Hbc Hb]%detached_domains. unfold client_http. cbn. rewrite detached_http, decide_False by done. by apply (ho_domain _ Hh).
  - intros c' n b. unfold client_http at 1. cbn. rewrite detached_http. case_decide; [done|]. intros Hb.
    destruct (ho_owned _ Hh _ _ _ Hb) as (? & ? & ?). split_and!; try done. apply detached_domains. split; congruence.
Qed.

Lemma detached_tables r' : (Detach ρ c session r).2 = r' → tables_ok r'.
Proof using Hr Hc Hse.
  destruct detach_inv as (p1 & p2 & m1 & m2 & s1 & s2 & retired & r1 & E1 & E2 & -> & ->). intros <-. cbn [snd].
  pose proof Hr as [Ht Hu [At Au Ah]].
  destruct (detach_outcome _ _ _ Ht _ _ _ E1) as (Ep1 & Em1 & _), (detach_outcome _ _ _ Hu _ _ _ E2) as (Ep2 & Em2 & _).
  constructor; cbn; [exact (detach_plane_ok _ _ _ Ht _ _ _ E1)|exact (detach_plane_ok _ _ _ Hu _ _ _ E2)|].
  constructor; cbn; intros c'; rewrite ?Ep1, ?Ep2, !lookup_delete; case_decide; auto.
Qed.
End detached.

Lemma detach_kept c session w : kept_ok w → kept_ok (w <| reg := (Detach ρ c session (reg w)).2 |>).
Proof using Type.
  intros [Kt Ku Kh [Rt Ru Rh] Kf].
  destruct (clients (reg w) !! c) as [s|] eqn:Ec.
  2: { unfold Detach. rewrite Ec. constructor; done. }
  destruct (decide (sessionID s = session)) as [Hse|Hse].
  2: { unfold Detach. rewrite Ec, bool_decide_eq_false_2 by done. constructor; done. }
  pose proof (detached_http_ok _ _ _ Kh _ Ec Hse _ eq_refl) as Hhttp.
  destruct (detach_inv _ _ _ _ Ec Hse) as (p1 & p2 & m1 & m2 & s1 & s2 & retired & r1 & E1 & E2 & Ed & Er).
  destruct (detach_placed ρ c (tcp (reg w)) Kt) as (Pt & _ & Mt & Bt). destruct (detach_placed ρ c (udp (reg w)) Ku) as (Pu & _ & Mu & Bu).
  rewrite E1 in Pt, Mt, Bt. rewrite E2 in Pu, Mu, Bu. cbn [fst] in *. rewrite Ed in *. cbn [snd] in *.
  constructor; cbn [reg flights upd]; [by rewrite Er|by rewrite Er|done| |].
  - rewrite Er. constructor; cbn; rewrite ?Mt, ?Mu; [by eapply respects_subset|by eapply respects_subset|].
    intros x owner b Ho Hne [_ Hb]%(detached_domains _ _ Kh). by eapply Rh.
  - intros i f Hf. eapply flight_kept_transfer; [by apply (Kf i)|]. rewrite Er. cbn. intros s'. rewrite lookup_delete. case_decide as Hcf; [done|].
    intros Hs' Hse'. exists s'. split_and!; try done. right. split; [done|]. unfold client_http. cbn. by rewrite lookup_delete_ne by done.
Qed.

Lemma detach_ok c session w : world_ok w → world_ok (w <| reg := (Detach ρ c session (reg w)).2 |>).
Proof using Type.
  intros [Wt Ws Wsu Wp Wpu Wf].
  destruct (clients (reg w) !! c) as [s|] eqn:Ec.
  2: { unfold Detach. rewrite Ec. constructor; done. }
  destruct (decide (sessionID s = session)) as [Hse|Hse].
  2: { unfold Detach. rewrite Ec, bool_decide_eq_false_2 by done. constructor; done. }
  pose proof (detached_tables _ _ _ Wt _ Ec Hse _ eq_refl) as Htab.
  destruct (detach_inv _ _ _ _ Ec Hse) as (p1 & p2 & m1 & m2 & s1 & s2 & retired & r1 & E1 & E2 & Ed & Er).
  rewrite Ed in *. cbn [snd] in *.
  destruct (detach_shrinks _ _ _ (to_tcp _ Wt) _ _ _ E1) as (He1 & _ & Hp1), (detach_shrinks _ _ _ (to_udp _ Wt) _ _ _ E2) as (He2 & _ & Hp2).
  destruct (detach_outcome _ _ _ (to_tcp _ Wt) _ _ _ E1) as (Ep1 & _), (detach_outcome _ _ _ (to_udp _ Wt) _ _ _ E2) as (Ep2 & _).
  constructor; cbn; try done; rewrite Er; cbn.
  - by eapply sockets_subset.
  - by eapply sockets_subset.
  - intros i f Hf Hi. eapply flight_ok_transfer; [by apply (Wf i)|]. cbn. intros s'. rewrite lookup_delete. case_decide as Hcf; [done|].
    intros Hs' Hse'. exists s'. split_and!; try done. right. unfold client_proxies, client_http. cbn.
    by rewrite Ep1, Ep2, !lookup_delete_ne by done.
Qed.

Lemma configure_inv configuration addr retired r r' : ConfigureMirrorGroups ρg ρ configuration addr r = Some (retired, r') →
  ∃ candidates candidatesUDP p1 m1 d1 p2 m2 d2, blank candidates ∧ blank candidatesUDP ∧
    configurePlane true (modes r) ρg ρ candidates (tcp r) = Some (p1, m1, d1) ∧
    configurePlane false (modes r) ρg ρ candidatesUDP (udp r) = Some (p2, m2, d2) ∧ r' = r <| tcp := p1 |> <| udp := p2 |>.
Proof using Type.
  unfold ConfigureMirrorGroups. intros E. pose proof (candidateGroups_blank is_tcp configuration addr) as B1.
  destruct (candidateGroups is_tcp configuration addr) as [addr1 candidates].
  pose proof (candidateGroups_blank (λ t, negb (is_tcp t)) configuration addr1) as B2.
  destruct (candidateGroups (λ t, negb (is_tcp t)) configuration addr1) as [addr2 candidatesUDP]. cbn [snd] in *.
  destruct (closed r); [done|].
  destruct (configurePlane true _ _ _ _ _) as [[[p1 m1] d1]|] eqn:E1; [|done].
  destruct (configurePlane false _ _ _ _ _) as [[[p2 m2] d2]|] eqn:E2; [|done]. injection E as <- <-.
  exists candidates, candidatesUDP, p1, m1, d1, p2, m2, d2. split_and!; done.
Qed.

Lemma configure_kept configuration addr retired r w w' : ConfigureMirrorGroups ρg ρ configuration addr (reg w) = Some (retired, r) →
  kept_ok w → reg w' = r → flights w' = flights w → kept_ok w'.
Proof using Type.
  intros (cs & csu & p1 & m1 & d1 & p2 & m2 & d2 & B1 & B2 & E1 & E2 & ->)%configure_inv [Kt Ku [Hd Ho] [Rt Ru Rh] Kf] Er Ef.
  destruct (configure_placed _ _ _ _ _ _ _ _ _ (λ q g Hg, proj1 (proj2 (B1 q g Hg))) E1 Kt) as (Pt & Mt & Bt).
  destruct (configure_placed _ _ _ _ _ _ _ _ _ (λ q g Hg, proj1 (proj2 (B2 q g Hg))) E2 Ku) as (Pu & Mu & Bu).
  constructor; rewrite ?Er, ?Ef; try done.
  constructor; cbn; rewrite ?Mt, ?Mu; [by eapply respects_subset|by eapply respects_subset|done].
Qed.

Lemma configure_ok configuration addr retired r w : ConfigureMirrorGroups ρg ρ configuration addr (reg w) = Some (retired, r) →
  world_ok w → world_ok (w <| reg := r |> <| overtaken := dom (flights w) ∪ overtaken w |>).
Proof using Type.
  intros (cs & csu & p1 & m1 & d1 & p2 & m2 & d2 & B1 & B2 & E1 & E2 & ->)%configure_inv [Wt Ws Wsu Wp Wpu Wf].
  destruct Wt as [Ht Hu [At Au Ah]].
  destruct (configure_shrinks _ _ _ _ _ B1 _ Ht _ _ _ E1) as (He1 & Hb1 & Em1 & Hx1).
  destruct (configure_shrinks _ _ _ _ _ B2 _ Hu _ _ _ E2) as (He2 & Hb2 & Em2 & Hx2).
  constructor; cbn; try done; [|by eapply sockets_subset..|].
  - constructor; cbn; try done; [exact (configure_plane_ok _ _ _ _ _ B1 _ Ht _ _ _ E1)|exact (configure_plane_ok _ _ _ _ _ B2 _ Hu _ _ _ E2)|].
    constructor; cbn; auto.
  - intros i f Hf Hi. exfalso. apply Hi, elem_of_union. left. apply elem_of_dom. by eexists.
Qed.

(** The sessions of mirrored connections. *)
Definition with_sessions (port : Z) (g : mirrorGroup) (S : gset nat) (r : Registry) : Registry :=
  r <| tcp := (tcp r) <| mirrorGroups := <[port := g <| g_sessions := S |>]> (mirrorGroups (tcp r)) |> |>.

Lemma sessions_kept port g S w : mirrorGroups (tcp (reg w)) !! port = Some g → kept_ok w → kept_ok (w <| reg := with_sessions port g S (reg w) |>).
Proof using Type.
  intros Hg [Kt Ku [Hd Ho] [Rt Ru Rh] Kf]. constructor; cbn; try done. by apply sessions_placed.
Qed.

Lemma sessions_world_ok port g S w : mirrorGroups (tcp (reg w)) !! port = Some g → world_ok w → world_ok (w <| reg := with_sessions port g S (reg w) |>).
Proof using Type.
  intros Hg [[Ht Hu [At Au Ah]] Ws Wsu Wp Wpu Wf]. constructor; cbn; try done.
  - constructor; cbn; [by apply sessions_plane_ok|done|by constructor].
  - by destruct Ws.
  - intros i f Hf Hi. eapply flight_ok_transfer; [by apply (Wf i)|]. cbn. intros s' Hs' Hse. exists s'. split_and!; try done; [by apply sessions_policy|by right].
Qed.

Lemma mirror_session_inv port addr session primary r r' : addMirrorTCPSession port addr session r = Some (primary, r') →
  ∃ g S, mirrorGroups (tcp r) !! port = Some g ∧ r' = with_sessions port g S r.
Proof using Type.
  unfold addMirrorTCPSession. destruct (MirrorRegistry.installed_group r port addr) as [g|] eqn:Hg; [|done]. apply installed_group_spec in Hg as [Hg _].
  destruct (closed r || _); [done|]. destruct (bool_decide _); [done|]. intros [= _ <-]. by eexists g, _.
Qed.

Lemma mirror_ended_inv port addr session r : removeMirrorTCPSession port addr session r = r ∨
  ∃ g S, mirrorGroups (tcp r) !! port = Some g ∧ removeMirrorTCPSession port addr session r = with_sessions port g S r.
Proof using Type.
  unfold removeMirrorTCPSession. destruct (MirrorRegistry.installed_group r port addr) as [g|] eqn:Hg; [|by left]. apply installed_group_spec in Hg as [Hg _].
  right. by eexists g, _.
Qed.

Lemma unbound_respects {K} `{Countable K} (table : gmap K string) (routes : gmap K binding) r :
  unbound table routes r = true → respects table routes.
Proof using Type.
  unfold unbound. intros Hb k owner b Ho _ Hk. apply bool_decide_eq_true in Hb. specialize (Hb _ _ Ho). cbn in Hb. rewrite Hk in Hb.
  unfold bindingOwnedByManagedClientLocked in Hb. by bool_to_prop.
Qed.

Lemma reserve_kept managed mirror seen v w :
  BeginManagedReservationUpdate managed mirror seen (reg w) = Some v →
  kept_ok w → kept_ok (w <| reg := CommitReservations v (reg w) |>).
Proof using Type.
  intros E [[] [] [Hd Ho] _ Kf]. unfold BeginManagedReservationUpdate in E.
  destruct (collectReservations _ _ _) as [v'|]; [|done]. cbn in E. destruct (_ && _) eqn:Eb; [|done]. injection E as ->.
  apply andb_true_iff in Eb as [[E1 E2]%andb_true_iff E3].
  constructor; cbn; [by constructor|by constructor|by constructor| |done]. constructor; by eapply unbound_respects.
Qed.

Lemma proxy_reserve_ok v w : world_ok w → world_ok (w <| reg := CommitReservations v (reg w) |>).
Proof using Type.
  intros [[Ht Hu [At Au Ah]] Ws Wsu Wp Wpu Wf]. constructor; cbn; try done.
  - constructor; cbn; [by destruct Ht|by destruct Hu|by constructor].
  - by destruct Ws.
  - by destruct Wsu.
Qed.

Lemma shutdown_kept w : kept_ok w → kept_ok (w <| reg := (CloseRegistry ρ (reg w)).2 |>).
Proof using Type.
  intros [Kt Ku Kh Kr Kf]. constructor; cbn; [apply close_placed|apply close_placed| | |].
  - constructor; cbn; unfold client_http; cbn; intros *; by rewrite lookup_empty.
  - constructor; cbn; intros k owner b _ _; by rewrite lookup_empty.
  - intros i f Hf. eapply flight_kept_transfer; [by apply (Kf i)|]. cbn. intros s'. by rewrite lookup_empty.
Qed.

Lemma shutdown_ok w : world_ok w → world_ok (w <| reg := (CloseRegistry ρ (reg w)).2 |>).
Proof using Type.
  intros [Wt Ws Wsu Wp Wpu Wf]. constructor; cbn; [|eapply sockets_subset; [done|apply map_empty_subseteq|done]..|exact Wp|exact Wpu|].
  - constructor; cbn; [apply closePlane_ok|apply closePlane_ok|]. constructor; cbn; intros c _; by rewrite lookup_empty.
  - intros i f Hf Hi. eapply flight_ok_transfer; [by apply (Wf i)|]. cbn. intros s'. by rewrite lookup_empty.
Qed.

Lemma start_kept http https : kept_ok (start http https).
Proof using Type.
  constructor; cbn; [apply empty_placed|apply empty_placed| | |intros *; by rewrite lookup_empty].
  - constructor; cbn; unfold client_http; cbn; intros *; by rewrite lookup_empty.
  - constructor; cbn; intros k owner b _ _; by rewrite lookup_empty.
Qed.

Lemma proxy_start_ok http https : world_ok (start http https).
Proof using Type.
  constructor; cbn; try (intros *; by rewrite lookup_empty).
  - constructor; cbn; [apply empty_plane_ok|apply empty_plane_ok|]. constructor; cbn; intros c _; by rewrite lookup_empty.
  - constructor; cbn; [done|intros *; by rewrite lookup_empty..].
  - constructor; cbn; [done|intros *; by rewrite lookup_empty..].
Qed.

(** Steps that leave the registry alone. *)
Lemma kept_flights w w' : kept_ok w → reg w' = reg w → (∀ i f, flights w' !! i = Some f → flight_kept f (reg w)) → kept_ok w'.
Proof using Type. intros Hw Er Hf. eapply kept_clients; [exact Hw|..|exact Er|reflexivity]; done. Qed.

Lemma step_kept w w' : step w w' → kept_ok w → kept_ok w'.
Proof using Type.
  intros Hstep Hw. pose proof (ko_flights _ Hw) as Kf. destruct Hstep.
  - by apply attach_kept.
  - by apply update_session_kept.
  - unfold Suspend. destruct (clients (reg w) !! c) as [s|]; [|by destruct Hw].
    destruct (bool_decide _); [by apply (update_session_kept c session)|by destruct Hw].
  - apply (kept_flights w); [done|done|]. intros j f. cbn. rewrite lookup_insert. case_decide; [|apply Kf].
    intros [= <-]. eapply admit_flight_kept; [apply Hw|apply Hw|done].
  - apply (kept_flights w); [done|done|]. intros j g. cbn. rewrite lookup_insert. case_decide; [|apply Kf]. intros [= <-]. exact (Kf _ _ H0).
  - apply (kept_flights w); [done|done|]. intros j g. cbn. rewrite lookup_insert. case_decide; [|apply Kf]. intros [= <-]. exact (Kf _ _ H0).
  - by eapply commit_kept.
  - apply (kept_flights w); [done|done|]. intros j g. cbn. rewrite lookup_delete. case_decide; [done|apply Kf].
  - by apply (kept_flights w).
  - by apply (kept_flights w).
  - by apply detach_kept.
  - by eapply configure_kept.
  - destruct (mirror_session_inv _ _ _ _ _ _ H0) as (g & S & Hg & ->). by apply sessions_kept.
  - destruct (mirror_ended_inv port addr session (reg w)) as [->|(g & S & Hg & ->)]; [by destruct Hw|by apply sessions_kept].
  - by eapply reserve_kept.
  - by apply shutdown_kept.
Qed.

Lemma step_ok w w' : step w w' → raced w' = false → world_ok w → world_ok w'.
Proof using Type.
  intros Hstep Hra Hw. destruct Hstep; cbn [raced upd] in Hra; try (by eauto using attach_ok, detach_ok, configure_ok, proxy_reserve_ok, shutdown_ok).
  - by apply update_session_ok.
  - unfold Suspend. destruct (clients (reg w) !! c) as [s|]; [|by destruct Hw].
    destruct (bool_decide _); [by apply (update_session_ok c session)|by destruct Hw].
  - destruct Hw as [Wt Ws Wsu Wp Wpu Wf]. constructor; cbn; try done; [by apply sockets_admit..|].
    intros j f. rewrite lookup_insert. case_decide as Hj; [intros [= <-] _; by eapply admit_flight_ok|]. intros Hf Hn. apply (Wf j f Hf). set_solver.
  - destruct Hw as [Wt Ws Wsu Wp Wpu Wf]. constructor; cbn; try done; [by eapply sockets_listen|by eapply sockets_other| |].
    + intros q e'. rewrite lookup_insert. case_decide; [by intros [= <-]|apply Wp].
    + intros j g. rewrite lookup_insert. case_decide; [intros [= <-]; subst; exact (Wf _ _ H0)|apply Wf].
  - destruct Hw as [Wt Ws Wsu Wp Wpu Wf]. constructor; cbn; try done; [by eapply sockets_other|by eapply sockets_listen| |].
    + intros q e'. rewrite lookup_insert. case_decide; [by intros [= <-]|apply Wpu].
    + intros j g. rewrite lookup_insert. case_decide; [intros [= <-]; subst; exact (Wf _ _ H0)|apply Wf].
  - apply orb_false_iff in Hra as [_ Hra]. eapply proxy_commit_ok; [done..| |done|done|done|done|done|done].
    intros Hst Hin. by rewrite !bool_decide_eq_true_2 in Hra.
  - destruct Hw as [Wt Ws Wsu Wp Wpu Wf]. constructor; cbn; try done;
      [eapply sockets_subset; [done..|apply delete_subseteq]|eapply sockets_subset; [done..|apply delete_subseteq]|].
    intros j g. rewrite lookup_delete. case_decide; [done|]. apply Wf.
  - destruct Hw as [Wt Ws Wsu Wp Wpu Wf]. constructor; cbn; try done; [by apply sockets_close|].
    intros k e. rewrite lookup_delete. case_decide; [done|]. apply Wp.
  - destruct Hw as [Wt Ws Wsu Wp Wpu Wf]. constructor; cbn; try done; [by apply sockets_close|].
    intros k e. rewrite lookup_delete. case_decide; [done|]. apply Wpu.
  - destruct (mirror_session_inv _ _ _ _ _ _ H0) as (g & S & Hg & ->). by apply sessions_world_ok.
  - destruct (mirror_ended_inv port addr session (reg w)) as [->|(g & S & Hg & ->)]; [by destruct Hw|by apply sessions_world_ok].
Qed.

Lemma step_raced w w' : step w w' → raced w' = false → raced w = false.
Proof using Type. intros []; cbn; try done. by intros [? _]%orb_false_iff. Qed.

Lemma reachable_kept http https w : reachable http https w → kept_ok w.
Proof using Type. induction 1 as [|w w' _ IH Hs]; [apply start_kept|by eapply step_kept]. Qed.

Lemma proxy_reachable_ok http https w : reachable http https w → raced w = false → world_ok w.
Proof using Type. induction 1 as [|w w' _ IH Hs]; intros Hr; [apply proxy_start_ok|]. eapply step_ok; [done..|]. apply IH. by eapply step_raced. Qed.

(** ** What holds of every registry *)

(** C11: The tables of routes, of proxies and of endpoints lead to each other.
    In every reachable state every HTTP route leads to a binding its client has
    and every HTTP binding of a client is routed; every ordinary route and every
    member of a mirror group is under its own port, every proxy of a client
    under its own name and client, and has an endpoint.  On the ports, in every
    state up to which no registration that was in flight at a replacement of
    the mirror groups has been published: every route leads to a binding its
    client has, every binding of a client is routed, no port is both ordinary
    and shared, and the endpoint of a port is the one of its binding or group
    (C14 shows what the publication of such a registration can do). *)
Theorem routes_owned http https w :
  reachable http https w →
  http_ok (reg w) ∧ placed (tcp (reg w)) ∧ placed (udp (reg w)) ∧
  (raced w = false → plane_ok (tcp (reg w)) ∧ plane_ok (udp (reg w))).
Proof using Type.
  intros Hw. destruct (reachable_kept _ _ _ Hw) as [? ? ? _ _]. split_and!; [done..|].
  intros Hr. by destruct (proxy_reachable_ok _ _ _ Hw Hr) as [[? ? _] _ _ _ _ _].
Qed.

(** C12: In every reachable state, whenever the mirror groups and the
    reservations were replaced, an ordinary port or a domain reserved for a
    managed client is routed to nobody else. *)
Theorem reservations_hold http https w :
  reachable http https w →
  (∀ port owner b, managedPorts (tcp (reg w)) !! port = Some owner → owner ≠ "" →
     endpointBindings (tcp (reg w)) !! port = Some b → b_clientID b = owner) ∧
  (∀ port owner b, managedPorts (udp (reg w)) !! port = Some owner → owner ≠ "" →
     endpointBindings (udp (reg w)) !! port = Some b → b_clientID b = owner) ∧
  (∀ domain owner b, managedHTTPDomains (reg w) !! domain = Some owner → owner ≠ "" →
     httpDomains (reg w) !! domain = Some b → b_clientID b = owner).
Proof using Type. intros [_ _ _ [? ? ?] _]%reachable_kept. done. Qed.

Section committed.
Context (http https : bool) (w : World) (Hw : reachable http https w).
Context (i : nat) (f : Flight) (Hf : flights w !! i = Some f).
Context (supply : Supply) (seen : Registry) (pr : Preparation) (Epr : prepare_flight f supply seen = Ok pr).
Context (coordinate : option bool) (res : SyncResult) (retired : option Retirement) (r' : Registry).
Context (E : commitSync ρ ρe pr coordinate (reg w) = (res, retired, r')).

Lemma applied_kept : Status res = SyncStatusApplied →
  ResultProxies res = pr_results pr ∧ (∃ s, published pr s (reg w) r') ∧
  proxies (tcp r') = <[fl_client f := pr_next pr]> (proxies (tcp (reg w))) ∧
  proxies (udp r') = <[fl_client f := pr_nextUDP pr]> (proxies (udp (reg w))) ∧
  (∀ n b, pr_next pr !! n = Some b → routed (tcp r') b) ∧ (∀ n b, pr_nextUDP pr !! n = Some b → routed (udp r') b) ∧
  (∀ x b, httpDomains r' !! x = Some b ↔ pr_nextHTTP pr !! b_name b = Some b ∧ domain_of b = x ∨
     b_clientID b ≠ fl_client f ∧ httpDomains (reg w) !! x = Some b) ∧
  (∀ c, client_http c r' = if decide (c = fl_client f) then pr_nextHTTP pr else client_http c (reg w)).
Proof using Hw Hf Epr E.
  intros Hst. destruct (commit_cases _ _ _ _ _ _ E) as [(_ & Hres & _ & _ & s & Hpd)|(Hno & _)]; [|congruence].
  pose proof (reachable_kept _ _ _ Hw) as [Kt Ku Kh _ Kf]. specialize (Kf _ _ Hf).
  destruct (published_placed _ _ _ Kh Kf _ _ _ Epr _ Hpd Kt Ku) as (_ & _ & _ & ? & ? & ? & ?).
  split_and!; [done|by exists s|done..| |].
  - exact (published_domains _ _ _ Kh Kf _ _ _ Epr _ Hpd).
  - exact (published_http_proxies _ _ _ Kf _ _ _ Epr _ Hpd).
Qed.

(** As long as no replacement of the groups has met a registration. *)
Lemma applied_published : raced w = false → i ∉ overtaken w → Status res = SyncStatusApplied →
  plane_published (fl_client f) (modes (reg w)) (pr_next pr) (fl_sockets f) (tcp (reg w)) (tcp r') ∧
  plane_published (fl_client f) (modes (reg w)) (pr_nextUDP pr) (fl_socketsUDP f) (udp (reg w)) (udp r').
Proof using Hw Hf Epr E.
  intros Hra Hov Hst. destruct (commit_cases _ _ _ _ _ _ E) as [(_ & _ & _ & _ & s & Hpd)|(Hno & _)]; [|congruence].
  pose proof (proxy_reachable_ok _ _ _ Hw Hra) as [Wt Ws Wsu Wp Wpu Wf]. specialize (Wf _ _ Hf Hov).
  assert (Hsk : ∀ q e, fl_sockets f !! q = Some e → ep_port e = q ∧ endpoints (tcp (reg w)) !! q = None)
    by (intros q e Hq; destruct (so_flight _ _ _ _ Ws _ _ Hf) as [Hsub Hd]; split; [apply Wp; by eapply lookup_weaken|by eapply map_disjoint_Some_l]).
  assert (Hsku : ∀ q e, fl_socketsUDP f !! q = Some e → ep_port e = q ∧ endpoints (udp (reg w)) !! q = None)
    by (intros q e Hq; destruct (so_flight _ _ _ _ Wsu _ _ Hf) as [Hsub Hd]; split; [apply Wpu; by eapply lookup_weaken|by eapply map_disjoint_Some_l]).
  split; [by destruct (published_tcp _ _ _ Wt Wf Hsk Hsku _ _ _ Epr _ Hpd)|by destruct (published_udp _ _ _ Wt Wf Hsk Hsku _ _ _ Epr _ Hpd)].
Qed.

(** The proxies of one kind are the declarations of that kind. *)
Definition declared_exactly (session : string) (ds : list ProxyDeclaration) (table : gmap string binding)
    (reached : binding → Prop) : Prop :=
  (∀ d, d ∈ ds → ∃ b, table !! DeclaredName d = Some b ∧ b_declaration b = d ∧ b_sessionID b = session ∧ reached b) ∧
  (∀ n b, table !! n = Some b → b_declaration b ∈ ds ∧ b_name b = n).

Lemma prepared_exactly session c existing reusable opened ds next keep supply0 supply1 results results' (reached : binding → Prop) :
  prepareBindings keep c session existing reusable opened ds supply0 ∅ results = Ok (supply1, next, results') →
  NoDup (DeclaredName <$> ds) → (∀ n b, next !! n = Some b → reached b) → declared_exactly session ds next reached.
Proof using Type.
  intros Ep Hnd Hre. destruct (prepareBindings_spec _ _ _ _ _ _ _ _ _ _ _ _ _ Ep Hnd) as (Hout & Hin & _). split.
  - intros d Hd. destruct (Hin _ Hd) as (b & Hb & Hs & He & _). exists b. split_and!; try done. by eapply Hre.
  - intros n b Hb. destruct (decide (n ∈ DeclaredName <$> ds)) as [(d & -> & Hd)%list_elem_of_fmap|Hn].
    + destruct (Hin _ Hd) as (b' & Hb' & _ & Hd' & _). rewrite Hb in Hb'. injection Hb' as <-. unfold b_name. by rewrite Hd'.
    + by rewrite (Hout _ Hn), lookup_empty in Hb.
Qed.

Lemma applied_exactly : Status res = SyncStatusApplied →
  let ds := RequestProxies (fl_request f) in
  declared_exactly (fl_session f) (of_type ProxyTypeTCP ds) (client_proxies (fl_client f) (tcp r')) (routed (tcp r')) ∧
  declared_exactly (fl_session f) (of_type ProxyTypeUDP ds) (client_proxies (fl_client f) (udp r')) (routed (udp r')) ∧
  declared_exactly (fl_session f) (of_type ProxyTypeHTTP ds) (client_http (fl_client f) r')
    (λ b, httpDomains r' !! domain_of b = Some b).
Proof using Hw Hf Epr E.
  intros Hst. destruct (applied_kept Hst) as (_ & _ & Ht & Hu & Rt & Ru & Hd & Hh). cbn.
  destruct (prepare_flight_inv _ _ _ _ Epr) as (_ & _ & _ & _ & _ & s1 & s2 & s3 & res1 & res2 & _ & _ & E3 & E4 & E5).
  destruct (ko_flights _ (reachable_kept _ _ _ Hw) _ _ Hf) as [Hk _]. pose proof (λ t, keys_unique_names t _ Hk) as Hn.
  unfold client_proxies. rewrite Ht, Hu, !lookup_insert_eq, Hh, decide_True by done.
  cbn [default from_option id]. split_and!; [by eapply prepared_exactly..|].
  destruct (prepareHTTP_spec _ _ _ _ _ _ _ _ _ _ E5 (Hn _)) as (Hout & Hin & _). split.
  - intros d Hd'. destruct (Hin _ Hd') as (b & Hb & Hb' & Hs & _). exists b. split_and!; try done. apply Hd. left.
    unfold b_name. by rewrite Hb'.
  - intros n b Hb. destruct (decide (n ∈ DeclaredName <$> of_type ProxyTypeHTTP (RequestProxies (fl_request f)))) as [(d & -> & Hdd)%list_elem_of_fmap|Hnn].
    + destruct (Hin _ Hdd) as (b' & Hb' & Hdec & _). rewrite Hb in Hb'. injection Hb' as <-. unfold b_name. by rewrite Hdec.
    + by rewrite (Hout _ Hnn), lookup_empty in Hb.
Qed.
End committed.

(** C13: When a registration is applied, the client's proxies are exactly the
    declarations of the request: every declared port is routed to a binding of
    the session, every declared domain too, and the client has nothing else;
    the answer lists the declarations, TCP first, then UDP, then HTTP.  It
    holds in every reachable state, whatever other clients, reloads of the
    mirror groups and of the reservations did between the admission of the
    request and its publication. *)
Theorem sync_exact http https w i f supply seen pr coordinate res retired r' :
  reachable http https w → flights w !! i = Some f → prepare_flight f supply seen = Ok pr →
  commitSync ρ ρe pr coordinate (reg w) = (res, retired, r') →
  Status res = SyncStatusApplied →
  let ds := RequestProxies (fl_request f) in
  declared_exactly (fl_session f) (of_type ProxyTypeTCP ds) (client_proxies (fl_client f) (tcp r')) (routed (tcp r')) ∧
  declared_exactly (fl_session f) (of_type ProxyTypeUDP ds) (client_proxies (fl_client f) (udp r')) (routed (udp r')) ∧
  declared_exactly (fl_session f) (of_type ProxyTypeHTTP ds) (client_http (fl_client f) r')
    (λ b, httpDomains r' !! domain_of b = Some b) ∧
  ResultProxy <$> ResultProxies res =
    DeclaredName <$> of_type ProxyTypeTCP ds ++ of_type ProxyTypeUDP ds ++ of_type ProxyTypeHTTP ds.
Proof using Type.
  intros Hw Hf Epr E Hst. destruct (applied_exactly _ _ _ Hw _ _ Hf _ _ _ Epr _ _ _ _ E Hst) as (? & ? & ?). split_and!; [done..|].
  destruct (applied_kept _ _ _ Hw _ _ Hf _ _ _ Epr _ _ _ _ E Hst) as (-> & _).
  destruct (prepare_flight_inv _ _ _ _ Epr) as (_ & _ & _ & _ & _ & s1 & s2 & s3 & res1 & res2 & _ & _ & E3 & E4 & E5).
  destruct (ko_flights _ (reachable_kept _ _ _ Hw) _ _ Hf) as [Hk _]. pose proof (λ t, keys_unique_names t _ Hk) as Hn.
  destruct (prepareBindings_spec _ _ _ _ _ _ _ _ _ _ _ _ _ E3 (Hn _)) as (_ & _ & n1 & -> & N1).
  destruct (prepareBindings_spec _ _ _ _ _ _ _ _ _ _ _ _ _ E4 (Hn _)) as (_ & _ & n2 & -> & N2).
  destruct (prepareHTTP_spec _ _ _ _ _ _ _ _ _ _ E5 (Hn _)) as (_ & _ & n3 & E3' & N3).
  rewrite E3', !fmap_app, N1, N2, N3. by rewrite <- app_assoc.
Qed.

(** A registration, whatever its outcome, leaves the proxies and the domains of
    every other client as they are; its ports stay routed as they were as long
    as no replacement of the mirror groups has met a registration. *)
Theorem sync_isolated http https w i f supply seen pr coordinate res retired r' c :
  reachable http https w → flights w !! i = Some f → prepare_flight f supply seen = Ok pr →
  commitSync ρ ρe pr coordinate (reg w) = (res, retired, r') →
  c ≠ fl_client f →
  client_proxies c (tcp r') = client_proxies c (tcp (reg w)) ∧ client_proxies c (udp r') = client_proxies c (udp (reg w)) ∧
  client_http c r' = client_http c (reg w) ∧
  (∀ x b, b_clientID b = c → httpDomains (reg w) !! x = Some b ↔ httpDomains r' !! x = Some b) ∧
  (raced w = false → i ∉ overtaken w →
     (∀ b, b_clientID b = c → routed (tcp (reg w)) b → routed (tcp r') b) ∧
     (∀ b, b_clientID b = c → routed (udp (reg w)) b → routed (udp r') b)).
Proof using Type.
  intros Hw Hf Epr E Hc. destruct (commit_cases _ _ _ _ _ _ E) as [(Hst & _)|(_ & _ & ->)]; [|split_and!; done].
  destruct (applied_kept _ _ _ Hw _ _ Hf _ _ _ Epr _ _ _ _ E Hst) as (_ & (s & Hpd) & Ht & Hu & _ & _ & Hd & Hh).
  unfold client_proxies. rewrite Ht, Hu, !lookup_insert_ne, Hh, decide_False by done.
  split_and!; try done.
  - intros x b Hb. rewrite Hd. split; [right; split; [congruence|done]|]. intros [[Hn _]|[_ ?]]; [|done].
    pose proof (reachable_kept _ _ _ Hw) as [_ _ Kh _ Kf].
    destruct (published_next_http _ _ _ Kh (Kf _ _ Hf) _ _ _ Epr _ Hpd _ _ Hn) as (_ & ? & _). congruence.
  - intros Hra Hov. destruct (applied_published _ _ _ Hw _ _ Hf _ _ _ Epr _ _ _ _ E Hra Hov Hst) as [Pt Pu]. split; intros b Hb.
    + apply (pp_others _ _ _ _ _ _ Pt). congruence.
    + apply (pp_others _ _ _ _ _ _ Pu). congruence.
Qed.

(** As long as no replacement of the mirror groups has met a registration,
    detaching a session releases all that its client had and nothing else:
    afterwards no table mentions the client, and every other client has the
    proxies and routes it had. *)
Theorem detach_releases http https w c s :
  reachable http https w → raced w = false → clients (reg w) !! c = Some s →
  let r' := (Detach ρ c (sessionID s) (reg w)).2 in
  (∀ b, b_clientID b = c →
     ¬ owned (tcp r') b ∧ ¬ routed (tcp r') b ∧ ¬ owned (udp r') b ∧ ¬ routed (udp r') b ∧
     ∀ x, httpDomains r' !! x ≠ Some b) ∧
  (∀ b, b_clientID b ≠ c →
     (owned (tcp r') b ↔ owned (tcp (reg w)) b) ∧ (routed (tcp (reg w)) b → routed (tcp r') b) ∧
     (owned (udp r') b ↔ owned (udp (reg w)) b) ∧ (routed (udp (reg w)) b → routed (udp r') b) ∧
     ∀ x, httpDomains r' !! x = Some b ↔ httpDomains (reg w) !! x = Some b).
Proof using Type.
  intros Hre Hra Hc. pose proof (ko_http _ (reachable_kept _ _ _ Hre)) as Hh. pose proof (wo_tables _ (proxy_reachable_ok _ _ _ Hre Hra)) as Hr.
  pose proof (detached_tables _ _ _ Hr _ Hc eq_refl _ eq_refl) as Hr'. cbn.
  destruct (detach_inv _ _ _ _ Hc eq_refl) as (p1 & p2 & m1 & m2 & s1 & s2 & retired & r1 & E1 & E2 & Ed & Er).
  rewrite Ed in *. cbn [snd] in *. rewrite Er in *. cbn [tcp udp httpDomains upd eta_Registry] in *.
  pose proof (detach_owned _ _ _ (to_tcp _ Hr) _ _ _ E1) as O1. pose proof (detach_owned _ _ _ (to_udp _ Hr) _ _ _ E2) as O2.
  assert (Hro : ∀ p b, plane_ok p → routed p b → owned p b).
  { clear. intros p b Hp [Hb|(g & Hg & Hm)]; [by destruct (po_route _ Hp _ _ Hb) as (_ & _ & _ & _ & ?)|].
    by destruct (po_member _ Hp _ _ _ _ Hg Hm) as (_ & _ & _ & _ & ?). }
  split; intros b Hb.
  - assert (Hn1 : ¬ owned p1 b) by (rewrite O1; tauto). assert (Hn2 : ¬ owned p2 b) by (rewrite O2; tauto).
    split_and!; try done.
    + intros Hx. apply Hn1, Hro; [apply (to_tcp _ Hr')|done].
    + intros Hx. apply Hn2, Hro; [apply (to_udp _ Hr')|done].
    + intros x [Hx _]%(detached_domains _ _ Hh). congruence.
  - split_and!.
    + rewrite O1. tauto.
    + exact (detach_others_routed _ _ _ (to_tcp _ Hr) _ _ _ E1 _ Hb).
    + rewrite O2. tauto.
    + exact (detach_others_routed _ _ _ (to_udp _ Hr) _ _ _ E2 _ Hb).
    + intros x. rewrite (detached_domains _ _ Hh). tauto.
Qed.

(** ** Repeated requests *)

Lemma size_list_to_set_le (l : list string) : (size (list_to_set l : gset string) ≤ length l)%nat.
Proof using Type.
  induction l as [|x l IH]; cbn [list_to_set length]; [done|]. rewrite size_union_alt, size_singleton.
  assert (Hle : (size ((list_to_set l : gset string) ∖ {[x]}) ≤ size (list_to_set l : gset string))%nat) by (apply subseteq_size; set_solver).
  lia.
Qed.

(** The remembered answers are those of the last requests, at most sixteen. *)
Definition cache_ok (s : clientState) : Prop :=
  Z.of_nat (length (requestOrder s)) ≤ maxCachedSyncRequests ∧ dom (requestCache s) ⊆ list_to_set (requestOrder s).

Lemma cache_request_ok requestID rev fp res s : cache_ok s → cache_ok (cacheSyncRequest requestID rev fp res s).
Proof using Type.
  unfold cache_ok, cacheSyncRequest, maxCachedSyncRequests. intros [Hl Hd].
  destruct (Z.of_nat (length (requestOrder s)) =? 16) eqn:El.
  - destruct (requestOrder s) as [|oldest rest] eqn:Eo; [done|]. cbn in *. rewrite length_app. cbn. split; [lia|].
    rewrite dom_insert, dom_delete, list_to_set_app. set_solver.
  - cbn. rewrite length_app. cbn. split; [lia|]. rewrite dom_insert, list_to_set_app. set_solver.
Qed.

Lemma clients_cached w w' :
  step w w' → (∀ c s, clients (reg w) !! c = Some s → cache_ok s) → ∀ c s, clients (reg w') !! c = Some s → cache_ok s.
Proof using Type.
  intros Hstep Hall.
  assert (Hupd : ∀ c session g c' s', (∀ s, cache_ok s → cache_ok (g s)) →
    clients (update_session c session g (reg w)) !! c' = Some s' → cache_ok s').
  { intros c session g c' s' Hg. destruct (update_session_spec c session g (reg w)) as [->|(s & Hs & _ & ->)]; [apply Hall|].
    cbn. rewrite lookup_insert. case_decide; [intros [= <-]; eauto|apply Hall]. }
  destruct Hstep; cbn; try exact Hall.
  - intros c' s. cbn. rewrite lookup_insert. case_decide; [|apply Hall]. intros [= <-]. split; [done|]. cbn. set_solver.
  - intros c' s'. by apply Hupd.
  - intros c' s'. unfold Suspend. destruct (clients (reg w) !! c) as [s|] eqn:Ec; [|apply Hall]. destruct (bool_decide _); [|apply Hall].
    by apply Hupd.
  - intros c' s'. assert (Er : r = (commitSync ρ ρe pr coordinate (reg w)).2) by by rewrite H2. rewrite Er. clear H2 Er. unfold commitSync.
    assert (Hpub : clients (publishSync ρ ρe pr (reg w)).2 !! c' = Some s' → cache_ok s').
    { unfold publishSync. destruct (clients (reg w) !! pr_client pr) as [s|] eqn:Ec; [|apply Hall].
      destruct (_ || _); [apply Hall|]. destruct (publish_rejection _ _ _ _) as [[? ?]|]; [apply Hall|].
      do 2 destruct (publishPlane _ _ _ _ _ _). cbn [snd clients upd eta_Registry]. rewrite lookup_insert.
      case_decide; [|apply Hall]. intros [= <-]. apply cache_request_ok. exact (Hall _ _ Ec). }
    by destruct coordinate as [[]|]; [|apply Hall|].
  - intros c' s'. unfold Detach. destruct (clients (reg w) !! c) as [s|] eqn:Ec; [|apply Hall].
    destruct (negb _); [apply Hall|]. do 2 destruct (detachPlane _ _ _) as [[? ?] ?]. cbn. rewrite lookup_delete.
    case_decide; [done|apply Hall].
  - apply configure_inv in H0 as (? & ? & ? & ? & ? & ? & ? & ? & _ & _ & _ & _ & ->). exact Hall.
  - destruct (mirror_session_inv _ _ _ _ _ _ H0) as (? & ? & _ & ->). exact Hall.
  - destruct (mirror_ended_inv port addr session (reg w)) as [->|(? & ? & _ & ->)]; exact Hall.
  - intros c' s'. by rewrite lookup_empty.
Qed.

(** The answers remembered for a client are bounded in every reachable
    state: at most sixteen requests, however many it has sent. *)
Theorem cache_bounded http https w c s :
  reachable http https w → clients (reg w) !! c = Some s →
  Z.of_nat (length (requestOrder s)) ≤ maxCachedSyncRequests ∧ Z.of_nat (size (requestCache s)) ≤ maxCachedSyncRequests.
Proof using Type.
  intros Hw. revert c s. assert (Hall : ∀ c s, clients (reg w) !! c = Some s → cache_ok s).
  { induction Hw as [|w w' _ IH Hs]; [intros c s; cbn; by rewrite lookup_empty|by eapply clients_cached]. }
  intros c s Hs. destruct (Hall _ _ Hs) as [Hl Hd]. split; [done|]. rewrite <- size_dom.
  pose proof (subseteq_size _ _ Hd) as Hle. pose proof (size_list_to_set_le (requestOrder s)). lia.
Qed.

Lemma cacheSyncRequest_lookup requestID rev fp res s :
  requestCache (cacheSyncRequest requestID rev fp res s) !! requestID =
  Some {| cached_revision := rev; cached_fingerprint := fp; cached_result := res |}.
Proof using Type. unfold cacheSyncRequest. cbn. by rewrite lookup_insert_eq. Qed.

Lemma applied_cached pr coordinate r res retired r' :
  commitSync ρ ρe pr coordinate r = (res, retired, r') → Status res = SyncStatusApplied →
  ∃ s', clients r' !! pr_client pr = Some s' ∧ sessionID s' = pr_session pr ∧
    requestCache s' !! pr_requestID pr = Some {| cached_revision := RequestRevision (pr_request pr);
      cached_fingerprint := ad_fingerprint (pr_admitted pr); cached_result := res |}.
Proof using Type.
  unfold commitSync. assert (Hpub : publishSync ρ ρe pr r = (res, retired, r') → Status res = SyncStatusApplied →
    ∃ s', clients r' !! pr_client pr = Some s' ∧ sessionID s' = pr_session pr ∧
    requestCache s' !! pr_requestID pr = Some {| cached_revision := RequestRevision (pr_request pr);
      cached_fingerprint := ad_fingerprint (pr_admitted pr); cached_result := res |}).
  { unfold publishSync. destruct (clients r !! pr_client pr) as [s|] eqn:Ec; [|by intros [= <- <- <-]].
    destruct (negb _ || negb _) eqn:Eg; [by intros [= <- <- <-]|].
    destruct (publish_rejection ρ ρe pr r) as [[code name]|] eqn:Er; [by intros [= <- <- <-]|].
    do 2 destruct (publishPlane _ _ _ _ _ _). intros [= <- <- <-] _. eexists. cbn [clients upd eta_Registry].
    rewrite lookup_insert_eq. split; [done|]. split; [|by rewrite cacheSyncRequest_lookup].
    etrans; [apply cacheSyncRequest_fields|]. cbn. by bool_to_prop. }
  destruct coordinate as [[]|]; [done| |done]. by intros [= <- <- <-].
Qed.

(** A request that was applied is answered again without registering
    anything, in the state it was published in: the same request by the
    recorded answer, the same identifier with another payload by a
    rejection. *)
Theorem sync_replayed f allowEmpty r0 supply seen pr coordinate r res retired r' :
  admit_sync fingerprint_of (fl_client f) (fl_session f) (fl_requestID f) (fl_request f) allowEmpty r0 = Proceed (fl_admitted f) →
  prepare_flight f supply seen = Ok pr →
  commitSync ρ ρe pr coordinate r = (res, retired, r') → Status res = SyncStatusApplied → closed r' = false →
  (∀ allowEmpty',
     admit_sync fingerprint_of (fl_client f) (fl_session f) (fl_requestID f) (fl_request f) allowEmpty' r' = Cached res) ∧
  (∀ allowEmpty' request',
     RequestRevision request' ≠ RequestRevision (fl_request f) ∨
     fingerprint_of (RequestProxies request') ≠ fingerprint_of (RequestProxies (fl_request f)) →
     admit_sync fingerprint_of (fl_client f) (fl_session f) (fl_requestID f) request' allowEmpty' r' = Refused ErrorInvalidRequest "").
Proof using Type.
  intros (_ & Hid & s & fp & _ & _ & _ & _ & Hfp & _ & Hp)%admit_proceed Epr E Hst Hcl.
  destruct (prepare_flight_inv _ _ _ _ Epr) as (Ec & Es & Eq & Ei & Ea & _).
  destruct (applied_cached _ _ _ _ _ _ E Hst) as (s' & Hs' & Hse' & Hca). rewrite Ec, Es, Eq, Ei, Ea in *.
  assert (Hafp : ad_fingerprint (fl_admitted f) = fp).
  { unfold check_ports in Hp. destruct (reusableEndpoints _ _ _ (tcp r0) _ _) as [?|e]; [|by destruct e].
    destruct (reusableEndpoints _ _ _ (udp r0) _ _) as [?|e]; [|by destruct e]. by injection Hp as <-. }
  rewrite Hafp in Hca. unfold admit_sync, check_revision. rewrite Hid. cbn [is_some]. split.
  - intros ae. rewrite Hfp, Hcl, Hs', Hse', bool_decide_eq_true_2, Hca by done. cbn. by rewrite Z.eqb_refl, bool_decide_eq_true_2.
  - intros ae request' Hdiff. destruct (fingerprint_of (RequestProxies request')) as [fp'|] eqn:Ef; [|done].
    rewrite Hcl, Hs', Hse', bool_decide_eq_true_2, Hca by done. cbn.
    destruct (RequestRevision request' =? RequestRevision (fl_request f)) eqn:Er; [|done]. cbn.
    rewrite bool_decide_eq_false_2; [done|]. intros ->. apply Z.eqb_eq in Er. destruct Hdiff as [?|Hd]; [done|]. by rewrite Hfp in Hd.
Qed.
End system.
