(* ===== verification/ProxyExamples.v ===== *)
(** * A small proxy registry

    A run of the system of [ProxySystem] with two clients, in which the
    theorems on the registry are applied, and a run in which the mirror groups
    are replaced while a registration is in flight. *)

From S2P Require Import Prelude GoTime NetAddr ControlFrame Authentication PortPolicy ConfigVNet ConfigProxy ProxyPlane ProxyRegistry ProxySystem.

Local Open Scope Z_scope.

(** ** A small registry *)

Module DemoProxy.
Definition fingerprint (ds : list ProxyDeclaration) : option digest := Some (replicate (length ds) x01).
Definition context (mode c : string) : Context :=
  {| Mode := mode; ContextClientID := c; CredentialID := []; Generation := 1 |}.
Definition tcp_proxy (name : string) (port : Z) : ProxyDeclaration :=
  {| DeclaredName := name; DeclaredType := ProxyTypeTCP; RemotePort := port; Domain := ""; PublicSchemes := [] |}.
Definition request : SyncRequest :=
  {| RequestRevision := 1;
     RequestProxies :=
       [{| DeclaredName := "site"; DeclaredType := ProxyTypeHTTP; RemotePort := 0; Domain := "a.example.com"; PublicSchemes := [] |};
        tcp_proxy "web" 9000] |}.
Definition supply : Supply := {| ids := [Some "id1"; Some "id2"; Some "id3"]; next_addr := 1 |}.
Definition attached : World :=
  (start true false) <| reg := AttachAuthenticated "b" "s2" (Some 2%nat) (context ModeShared "b") 0
    (AttachAuthenticated "a" "s1" (Some 1%nat) (context ModeShared "a") 0 (reg (start true false))) |>.
Definition nothing : AdmittedSync :=
  {| ad_existing := ∅; ad_existingUDP := ∅; ad_existingHTTP := ∅; ad_mode := ""; ad_base := 0; ad_reusable := ∅;
     ad_reusableUDP := ∅; ad_fingerprint := [] |}.
Definition admitted_with (c session : string) (q : SyncRequest) (r : Registry) : AdmittedSync :=
  match admit_sync (H := Dotted.text) fingerprint c session "r1" q false r with Proceed a => a | _ => nothing end.
Definition flight : Flight :=
  {| fl_client := "a"; fl_session := "s1"; fl_requestID := "r1"; fl_request := request;
     fl_admitted := admitted_with "a" "s1" request (reg attached); fl_sockets := ∅; fl_socketsUDP := ∅ |}.
Definition socket : Endpoint := {| ep_id := 1; ep_port := 9000 |}.
Definition listening : Flight := flight <| fl_sockets := {[9000 := socket]} |>.
Definition in_flight : World := attached <| flights := {[0%nat := listening]} |> <| open := {[9000 := socket]} |>.
Definition preparation : Preparation :=
  match prepare_flight listening supply (reg attached) with
  | Ok pr => pr
  | Err _ => {| pr_client := ""; pr_session := ""; pr_requestID := ""; pr_request := request; pr_admitted := nothing;
                pr_results := []; pr_new := ∅; pr_newUDP := ∅; pr_next := ∅; pr_nextUDP := ∅; pr_nextHTTP := ∅ |}
  end.
Definition outcome := commitSync any_range any_range preparation None (reg in_flight).
Definition applied : World := in_flight <| flights := ∅ |> <| reg := outcome.2 |>.

Lemma prepared : prepare_flight listening supply (reg attached) = Ok preparation.
Proof. vm_compute. reflexivity. Qed.

Lemma in_flight_reachable :
  reachable (H := Dotted.text) fingerprint any_range any_range any_range true false in_flight.
Proof.
  assert (H0 : reachable (H := Dotted.text) fingerprint any_range any_range any_range true false attached).
  { eapply reachable_step; [eapply reachable_step; [apply reachable_start|apply (step_attach _ _ _ _ "a" "s1" (Some 1%nat) (context ModeShared "a") 0)]|
      apply (step_attach _ _ _ _ "b" "s2" (Some 2%nat) (context ModeShared "b") 0)]; intros i f; cbn; by rewrite lookup_empty. }
  eapply reachable_step; [eapply reachable_step; [exact H0|]|].
  - apply (step_admit _ _ _ _ 0 "a" "s1" "r1" request false (admitted_with "a" "s1" request (reg attached))); [done|].
    vm_compute. reflexivity.
  - refine (eq_rect _ (λ w, step _ _ _ _ _ w) (step_listen _ _ _ _ 0 flight socket _ _ _) _ _); [done|done|].
    vm_compute. reflexivity.
Qed.

Lemma applied_reachable :
  reachable (H := Dotted.text) fingerprint any_range any_range any_range true false applied.
Proof.
  eapply reachable_step; [apply in_flight_reachable|].
  refine (eq_rect _ (λ w, step _ _ _ _ _ w) (step_commit _ _ _ _ 0 listening supply (reg attached) preparation None outcome.1.1 outcome.1.2 outcome.2 _ _ _ _) _ _);
    [done|apply prepared|vm_compute; reflexivity|]. vm_compute. reflexivity.
Qed.
End DemoProxy.

Lemma routes_owned_witness : plane_ok (tcp (reg DemoProxy.applied)) ∧
  endpointBindings (tcp (reg DemoProxy.applied)) !! 9000 ≠ None.
Proof.
  split; [|vm_compute; discriminate].
  apply (routes_owned (H := Dotted.text) DemoProxy.fingerprint any_range any_range any_range true false _ DemoProxy.applied_reachable).
  reflexivity.
Defined.

(** The port of the small registry reserved for its owner. *)
Definition DemoProxy_reserved : World :=
  DemoProxy.attached <| reg := CommitReservations {| rv_tcp := {[9000 := "m"]}; rv_udp := ∅; rv_http := ∅ |} (reg DemoProxy.attached) |>.

Lemma demo_reserved_reachable :
  reachable (H := Dotted.text) DemoProxy.fingerprint any_range any_range any_range true false DemoProxy_reserved.
Proof.
  eapply reachable_step; [|apply (step_reserve _ _ _ _ [("m", [{| ManagedType := ProxyTypeTCP; ManagedPort := 9000; ManagedDomain := "" |}])] None (reg DemoProxy.attached));
    vm_compute; reflexivity].
  eapply reachable_step; [eapply reachable_step; [apply reachable_start|
    apply (step_attach _ _ _ _ "a" "s1" (Some 1%nat) (DemoProxy.context ModeShared "a") 0)]|
    apply (step_attach _ _ _ _ "b" "s2" (Some 2%nat) (DemoProxy.context ModeShared "b") 0)]; intros i f; cbn; by rewrite lookup_empty.
Qed.

Lemma reservations_hold_witness :
  managedPorts (tcp (reg DemoProxy_reserved)) !! 9000 = Some "m" ∧
  ∀ b, endpointBindings (tcp (reg DemoProxy_reserved)) !! 9000 = Some b → b_clientID b = "m".
Proof.
  split; [reflexivity|]. intros b Hb.
  destruct (reservations_hold (H := Dotted.text) DemoProxy.fingerprint any_range any_range any_range true false _ demo_reserved_reachable)
    as (Ht & _). apply (Ht 9000 "m" b); [reflexivity|discriminate|exact Hb].
Defined.

(** ** Mirror groups installed while a registration is in flight

    Client "a" is admitted for port 9000 while no group has the port.  Before
    it publishes, the groups are replaced, and a group of another client takes
    the port; the registry has no endpoint there yet, so that the group is
    accepted. *)

Module DemoRace.
Definition group : ProxyMirrorConfig :=
  {| MirrorGoverned := [{| MirrorName := "pair"; MirrorType := ProxyTypeTCP; MirrorPublic := [{| Start := 9000; End_ := 9000 |}];
                           PrimaryClientID := "m"; ClientIDs := ["m"] |}];
     MirrorManaged := [] |}.
Definition configured : Registry :=
  match ConfigureMirrorGroups any_range any_range group 10 (reg DemoProxy.in_flight) with
  | Some (_, r) => r | None => reg DemoProxy.in_flight end.
Definition reconfigured : World := DemoProxy.in_flight <| reg := configured |> <| overtaken := {[0%nat]} |>.
Definition outcome := commitSync any_range any_range DemoProxy.preparation None configured.

Lemma reconfigured_reachable :
  reachable (H := Dotted.text) DemoProxy.fingerprint any_range any_range any_range true false reconfigured.
Proof.
  eapply reachable_step; [apply DemoProxy.in_flight_reachable|].
  destruct (ConfigureMirrorGroups any_range any_range group 10 (reg DemoProxy.in_flight)) as [[retired r]|] eqn:E; [|vm_compute in E; discriminate].
  refine (eq_rect _ (λ w, step _ _ _ _ _ w) (step_configure _ _ _ _ group 10 retired r _ E) _ _).
  unfold reconfigured, configured. rewrite E. reflexivity.
Qed.
End DemoRace.

(** The registration above, published after the groups were replaced. *)
Lemma sync_exact_witness :
  Status DemoRace.outcome.1.1 = SyncStatusApplied ∧
  ResultProxy <$> ResultProxies DemoRace.outcome.1.1 = ["web"; "site"] ∧
  declared_exactly "s1" [DemoProxy.tcp_proxy "web" 9000] (client_proxies "a" (tcp DemoRace.outcome.2)) (routed (tcp DemoRace.outcome.2)).
Proof.
  split; [vm_compute; reflexivity|].
  destruct (sync_exact (H := Dotted.text) DemoProxy.fingerprint any_range any_range any_range true false _ 0 DemoProxy.listening
    DemoProxy.supply (reg DemoProxy.attached) DemoProxy.preparation None _ _ _ DemoRace.reconfigured_reachable eq_refl
    DemoProxy.prepared (eq_trans (surjective_pairing _) (f_equal (λ x, (x, _)) (surjective_pairing _)))) as (Ht & _ & _ & Hres);
    [vm_compute; reflexivity|].
  split; [exact Hres|exact Ht].
Defined.

Lemma sync_isolated_witness :
  "b" ≠ fl_client DemoProxy.listening ∧ client_proxies "b" (tcp DemoProxy.outcome.2) = client_proxies "b" (tcp (reg DemoProxy.in_flight)).
Proof.
  split; [discriminate|].
  apply (sync_isolated (H := Dotted.text) DemoProxy.fingerprint any_range any_range any_range true false _ 0 DemoProxy.listening
    DemoProxy.supply (reg DemoProxy.attached) DemoProxy.preparation None _ _ _ "b" DemoProxy.in_flight_reachable eq_refl
    DemoProxy.prepared (eq_trans (surjective_pairing _) (f_equal (λ x, (x, _)) (surjective_pairing _)))).
  discriminate.
Defined.

Lemma detach_releases_witness :
  endpointBindings (tcp (reg DemoProxy.applied)) !! 9000 ≠ None ∧
  ∀ b, b_clientID b = "a" → ¬ routed (tcp (Detach any_range "a" "s1" (reg DemoProxy.applied)).2) b.
Proof.
  split; [vm_compute; discriminate|]. intros b Hb.
  destruct (clients (reg DemoProxy.applied) !! "a") as [s|] eqn:Es; [|vm_compute in Es; discriminate].
  assert (Hse : sessionID s = "s1").
  { assert (H : sessionID <$> clients (reg DemoProxy.applied) !! "a" = Some "s1") by (vm_compute; reflexivity).
    rewrite Es in H. by injection H. }
  rewrite <- Hse.
  apply (detach_releases (H := Dotted.text) DemoProxy.fingerprint any_range any_range any_range true false _ "a" s
    DemoProxy.applied_reachable eq_refl Es). exact Hb.
Defined.

Lemma cache_bounded_witness : ∃ s, clients (reg DemoProxy.applied) !! "a" = Some s ∧ size (requestCache s) = 1%nat ∧
  Z.of_nat (size (requestCache s)) ≤ 16.
Proof.
  destruct (clients (reg DemoProxy.applied) !! "a") as [s|] eqn:Es; [|vm_compute in Es; discriminate].
  exists s. split; [reflexivity|].
  assert (H : (λ s, size (requestCache s)) <$> clients (reg DemoProxy.applied) !! "a" = Some 1%nat) by (vm_compute; reflexivity).
  rewrite Es in H. injection H as H. split; [exact H|].
  apply (cache_bounded (H := Dotted.text) DemoProxy.fingerprint any_range any_range any_range true false _ "a" s
    DemoProxy.applied_reachable Es).
Defined.

Lemma sync_replayed_witness :
  admit_sync (H := Dotted.text) DemoProxy.fingerprint "a" "s1" "r1" DemoProxy.request false DemoProxy.outcome.2
    = Cached DemoProxy.outcome.1.1.
Proof.
  apply (sync_replayed (H := Dotted.text) DemoProxy.fingerprint any_range any_range DemoProxy.listening false (reg DemoProxy.attached)
    DemoProxy.supply (reg DemoProxy.attached) DemoProxy.preparation None (reg DemoProxy.in_flight) _ DemoProxy.outcome.1.2).
  - vm_compute. reflexivity.
  - apply DemoProxy.prepared.
  - exact (eq_trans (surjective_pairing _) (f_equal (λ x, (x, _)) (surjective_pairing _))).
  - vm_compute. reflexivity.
  - vm_compute. reflexivity.
Defined.

(** C14: The second check of a registration does not look at the mirror groups
    of the ports it opened itself.  A client that no group admits is refused
    such a port when it registers after the groups were replaced, but a
    registration admitted just before is applied: the port is then routed to
    the client although its group excludes it, and is both ordinary and
    shared. *)
Theorem mirror_group_race :
  admit_sync (H := Dotted.text) DemoProxy.fingerprint "a" "s1" "r1" DemoProxy.request false DemoRace.configured
    = Refused ErrorMirrorMemberNotAllowed "web" ∧
  Status DemoRace.outcome.1.1 = SyncStatusApplied ∧
  b_clientID <$> endpointBindings (tcp DemoRace.outcome.2) !! 9000 = Some "a" ∧
  (λ g, (ClientIDs (g_configuration g), allows g "a" (modes DemoRace.outcome.2))) <$> mirrorGroups (tcp DemoRace.outcome.2) !! 9000
    = Some (["m"], false) ∧
  ¬ plane_ok (tcp DemoRace.outcome.2).
Proof.
  split_and!; try (vm_compute; reflexivity).
  intros Hp. destruct (endpointBindings (tcp DemoRace.outcome.2) !! 9000) as [b|] eqn:Eb; [|vm_compute in Eb; discriminate].
  destruct (po_route _ Hp _ _ Eb) as (Hg & _). vm_compute in Hg. discriminate.
Qed.
