(* ===== verification/MirrorJoins.v ===== *)
(** * What the sessions of a mirror group are told when a client becomes active

    [Registry.Activate] collects, under the lock, the live sessions of the
    groups the client is a member of, and tells them of it afterwards.  Here the
    notifications are compared with the guard of the sessions, in every state the
    system of [ProxySystem] reaches. *)

From S2P Require Import Prelude GoTime NetAddr MirrorTcp Authentication PortPolicy ConfigProxy ProxyPlane ProxyPlacement ProxyRegistry MirrorRegistry ProxySystem ProxyExamples.

Local Open Scope Z_scope.

Section joins.
Context `{NetipText}.
Context (fingerprint_of : list ProxyDeclaration → option digest).
Context (ρ : go_range string binding) (ρe : go_range Z Endpoint) (ρg : go_range Z mirrorGroup).

(** The notifications for one client, in a registry where it is active. *)
Lemma joins_current r c state : placed (tcp r) → closed r = false → clients r !! c = Some state → active state = true →
  ∀ id t, (∃ w, writer state = Some w ∧ (id, t) ∈ mirrorTCPJoinsLocked ρ r c state w) ↔
    ∃ port g, mirrorGroups (tcp r) !! port = Some g ∧ id ∈ g_sessions g ∧ allows g c (modes r) = true ∧
      MirrorTcp.ClientID t = c ∧ IsCurrent r port (g_addr g) t = true.
Proof using Type.
  intros Hp Hcl Hs Hact id t. split.
  - intros (w & Hw & (n & b & g & Hb & Hg & Ha & Hm & Hin & ->)%joins_elem). exists (b_port b), g. split_and!; try done.
    apply guard_table; [done|]. cbn. rewrite (current_targets_lookup _ _ _ g) by (done || by apply installed_group_spec).
    apply current_target_spec. exists state, b, w. destruct (pl_named _ Hp _ _ _ Hb) as (-> & _). done.
  - intros (port & g & Hg & Hin & Ha & Hc & Ht). apply guard_table in Ht; [|done].
    rewrite Hc, (current_targets_lookup _ _ _ g) in Ht by (done || by apply installed_group_spec).
    apply current_target_spec in Ht as (state' & b & w & Hs' & Hm & Hw & _ & Hb & ->). cbn in *. rewrite Hs in Hs'. injection Hs' as <-.
    exists w. split; [done|]. apply joins_elem. destruct (pl_member _ Hp _ _ _ _ Hg Hm) as [Hq _]. exists (b_name b), b, g. by rewrite Hq.
Qed.

(** C18: When a client becomes active, the mirrored connections that are told
    of it are exactly the live sessions of the installed groups that admit the
    client and of which it is a current member, each with the client's own
    target: a session [id] is told of [t] if and only if it is a live session of
    an installed group that admits the client, [t] is a target of this client
    and the guard of the group accepts [t] from now on.  Nothing else of the
    registry changes; an activation for another session of the client changes
    nothing and tells nobody.  It holds in every reachable state in which the
    registry is open, also when the mirror groups were replaced while
    registrations were in flight. *)
Theorem activation_reaches_sessions http https w c session state :
  reachable fingerprint_of ρ ρe ρg http https w → closed (reg w) = false → clients (reg w) !! c = Some state →
  let '(r', joins) := ActivateJoins ρ c session (reg w) in
  (sessionID state = session →
     r' = (reg w) <| clients := <[c := state <| active := true |>]> (clients (reg w)) |> ∧
     ∀ id t, (id, t) ∈ joins ↔
       ∃ port g, mirrorGroups (tcp r') !! port = Some g ∧ id ∈ g_sessions g ∧ allows g c (modes r') = true ∧
         MirrorTcp.ClientID t = c ∧ IsCurrent r' port (g_addr g) t = true) ∧
  (sessionID state ≠ session → r' = reg w ∧ joins = []).
Proof using Type.
  intros [Hp _ _ _ _]%reachable_kept Hcl Hs. unfold ActivateJoins, Activate, update_session. rewrite Hs.
  destruct (decide (sessionID state = session)) as [Hse|Hse]; cycle 1.
  { by rewrite !bool_decide_eq_false_2. }
  rewrite !bool_decide_eq_true_2 by done. split; [|done]. intros _. split; [done|]. intros id t.
  rewrite <- (joins_current ((reg w) <| clients := <[c := state <| active := true |>]> (clients (reg w)) |>) c (state <| active := true |>))
    by (done || apply lookup_insert_eq).
  cbn [writer upd eta_clientState]. destruct (writer state) as [x|].
  - split; [|by intros (y & [= <-] & ?)]. intros Hin. by exists x.
  - split; [by intros ?%elem_of_nil|]. by intros (y & ? & _).
Qed.
End joins.

(** ** A group with one member and one visitor *)

Module DemoJoins.
Definition member : World :=
  (start true false) <| reg := AttachAuthenticated "m" "s1" (Some 3%nat) (DemoProxy.context ModeGoverned "m") 0 (reg (start true false)) |>.
Definition shared : World :=
  match ConfigureMirrorGroups any_range any_range DemoRace.group 10 (reg member) with
  | Some (_, r) => member <| reg := r |> | None => member end.
Definition request : SyncRequest := {| RequestRevision := 1; RequestProxies := [DemoProxy.tcp_proxy "web" 9000] |}.
Definition flight : Flight :=
  {| fl_client := "m"; fl_session := "s1"; fl_requestID := "r1"; fl_request := request;
     fl_admitted := DemoProxy.admitted_with "m" "s1" request (reg shared); fl_sockets := ∅; fl_socketsUDP := ∅ |}.
Definition listening : Flight := flight <| fl_sockets := {[9000 := DemoProxy.socket]} |>.
Definition in_flight : World := shared <| flights := {[0%nat := listening]} |> <| open := {[9000 := DemoProxy.socket]} |>.
Definition preparation : Preparation :=
  match prepare_flight listening DemoProxy.supply (reg shared) with Ok pr => pr | Err _ => DemoProxy.preparation end.
Definition outcome := commitSync any_range any_range preparation None (reg in_flight).
Definition applied : World := in_flight <| flights := ∅ |> <| reg := outcome.2 |>.
Definition visited : World :=
  match addMirrorTCPSession 9000 10 7 (reg applied) with Some (_, r) => applied <| reg := r |> | None => applied end.
Definition target : MirrorTcp.Target :=
  {| MirrorTcp.ClientID := "m"; MirrorTcp.SessionID := "s1"; MirrorTcp.BindingName := "web"; MirrorTcp.BindingID := "id1"; MirrorTcp.Writer := 3 |}.

Abbreviation reaches := (reachable (H := Dotted.text) DemoProxy.fingerprint any_range any_range any_range true false).
Abbreviation steps := (step (H := Dotted.text) DemoProxy.fingerprint any_range any_range any_range).

Lemma shared_reachable : reaches shared.
Proof.
  eapply reachable_step; [eapply reachable_step; [apply reachable_start|
    apply (step_attach _ _ _ _ "m" "s1" (Some 3%nat) (DemoProxy.context ModeGoverned "m") 0); intros i f; cbn; by rewrite lookup_empty]|].
  change ((start true false) <| reg := _ |>) with member. unfold shared.
  destruct (ConfigureMirrorGroups any_range any_range DemoRace.group 10 (reg member)) as [[retired r]|] eqn:E; [|vm_compute in E; discriminate].
  refine (eq_rect _ (λ w, steps _ w) (step_configure _ _ _ _ DemoRace.group 10 retired r _ E) _ _). reflexivity.
Qed.

Lemma joined_reachable : reaches applied.
Proof.
  eapply reachable_step; [eapply reachable_step; [eapply reachable_step; [apply shared_reachable|]|]|].
  - apply (step_admit _ _ _ _ 0 "m" "s1" "r1" request false (fl_admitted flight)); [done|]. vm_compute. reflexivity.
  - refine (eq_rect _ (λ w, steps _ w) (step_listen _ _ _ _ 0 flight DemoProxy.socket _ _ _) in_flight _); [done|done|]. vm_compute. reflexivity.
  - refine (eq_rect _ (λ w, steps _ w) (step_commit _ _ _ _ 0 listening DemoProxy.supply (reg shared) preparation None outcome.1.1 outcome.1.2 outcome.2 _ _ _ _) _ _);
      [done|vm_compute; reflexivity|vm_compute; reflexivity|]. vm_compute. reflexivity.
Qed.

Lemma visited_reachable : reaches visited.
Proof.
  eapply reachable_step; [apply joined_reachable|]. unfold visited.
  destruct (addMirrorTCPSession 9000 10 7 (reg applied)) as [[primary r]|] eqn:E; [|vm_compute in E; discriminate]. by eapply step_mirror_session.
Qed.
End DemoJoins.

Lemma activation_reaches_sessions_witness :
  (7%nat, DemoJoins.target) ∈ (ActivateJoins any_range "m" "s1" (reg DemoJoins.visited)).2.
Proof.
  destruct (clients (reg DemoJoins.visited) !! "m") as [s|] eqn:Es; [|vm_compute in Es; discriminate].
  assert (Hse : sessionID <$> clients (reg DemoJoins.visited) !! "m" = Some "s1") by (vm_compute; reflexivity).
  rewrite Es in Hse. injection Hse as Hse.
  assert (H := activation_reaches_sessions (H := Dotted.text) DemoProxy.fingerprint any_range any_range any_range true false DemoJoins.visited
    "m" "s1" s DemoJoins.visited_reachable eq_refl Es).
  destruct (ActivateJoins any_range "m" "s1" (reg DemoJoins.visited)) as [r' joins] eqn:E. destruct H as [H _]. destruct (H Hse) as [_ Hj].
  apply Hj. clear H Hj Es Hse. vm_compute in E. injection E as <- <-.
  eexists 9000, _. split_and!; vm_compute; reflexivity.
Defined.
