(* ===== verification/ProxyPermissions.v ===== *)
(** * Proxy permissions and mirror configuration
      ([internal/config/validation.go, permissions.go, proxy_mirror.go,
      managed_conflicts.go, declarations.go], [internal/server/authorization.go])

    What the configuration of the server says about proxies: the proxies of
    managed clients, what governed clients may declare, and the ports that
    mirror groups share.  The files are validated once when they are loaded;
    the server then checks the declarations of governed clients against their
    permissions, and reserves the ports and domains of managed clients in the
    registry. *)

From Stdlib Require Import Ascii.
From stdpp Require Import countable.
From S2P Require Import Prelude GoTime NetAddr GoStrings Authentication PortPolicy ConfigVNet ConfigForward ConfigProxy ProxyPlane ProxyRegistry ProxySystem.

Local Open Scope Z_scope.

(** ** Data *)

Record ProxyConfig := {
  ProxyName : string;
  ProxyKind : ProxyType;
  LocalIP : string;
  LocalPort : Z;
  PublicPort : Z;
  PublicDomain : string;
  Schemes : list string
}.
#[export] Instance eta_ProxyConfig : Eta ProxyConfig := λ p,
  {| ProxyName := ProxyName p; ProxyKind := ProxyKind p; LocalIP := LocalIP p; LocalPort := LocalPort p;
     PublicPort := PublicPort p; PublicDomain := PublicDomain p; Schemes := Schemes p |}.

Record HTTPPermission := { AllowedSchemes : list string; AllowedDomains : list string }.

Record ProxyPermissionLimits := {
  MaxTotal : Z; MaxTCP : Z; MaxUDP : Z; MaxHTTP : Z; MaxActiveLinks : Z
}.

Record ForwardPermissionLimits := {
  ForwardMaxTotal : Z; ForwardMaxTCP : Z; ForwardMaxUDP : Z; ForwardMaxActiveLinks : Z
}.

(** A nil pointer permits no proxy of the kind. *)
Record GovernedProxyPermissions := {
  PermittedTCP : option (list PortRange);
  PermittedUDP : option (list PortRange);
  PermittedHTTP : option HTTPPermission;
  ProxyLimits : ProxyPermissionLimits
}.
#[export] Instance eta_GovernedProxyPermissions : Eta GovernedProxyPermissions := λ p,
  {| PermittedTCP := PermittedTCP p; PermittedUDP := PermittedUDP p; PermittedHTTP := PermittedHTTP p;
     ProxyLimits := ProxyLimits p |}.

Record GovernedPermissions := {
  GovernedProxies : GovernedProxyPermissions;
  ForwardRules : list ForwardIPRule;
  ForwardLimits : ForwardPermissionLimits
}.
#[export] Instance eta_GovernedPermissions : Eta GovernedPermissions := λ p,
  {| GovernedProxies := GovernedProxies p; ForwardRules := ForwardRules p; ForwardLimits := ForwardLimits p |}.

(** The parts of [ServerConfig] that proxies depend on. *)
Record ProxyServerConfig := {
  HTTPListenAddress : string;
  HTTPSListenAddress : string;
  Mirror : ProxyMirrorConfig;
  GovernedProxyClients : gmap string GovernedPermissions;
  ManagedProxyClients : gmap string (list ProxyConfig)
}.

Definition hardMaxActiveLinksPerClient : Z := 512.
Definition maxProxyMirrorGroups : Z := 128.
Definition maxProxyMirrorMembers : Z := 32.
Definition maxProxyMirrorPorts : Z := 128.

(** [declarations.go] *)
Definition ProxyDeclaration_of (c : ProxyConfig) : ProxyDeclaration :=
  {| DeclaredName := ProxyName c; DeclaredType := ProxyKind c; RemotePort := PublicPort c;
     Domain := PublicDomain c; PublicSchemes := Schemes c |}.

(** ** Validation of proxies *)

Inductive ProxyConfigError :=
| TooManyProxies
| BadProxyName (index : nat)
| DuplicateProxyName (index : nat)
| BadProxyFields (index : nat)
| DuplicatePort (index : nat)
| BadDomain (index : nat)
| BadSchemes (index : nat)
| DuplicateDomain (index : nat)
| BadProxyType (index : nat)
| BadLocalIP (index : nat)
| BadLocalPort (index : nat).

(** [validateHTTPPublicSchemes] *)
Definition validateHTTPPublicSchemes (schemes : list string) : bool :=
  negb (bool_decide (schemes = [])) && valid_schemes schemes ∅.

Section proxies.
Context `{NetipText}.

(** An empty list of schemes becomes the default, in place. *)
Definition with_schemes (p : ProxyConfig) : ProxyConfig :=
  if bool_decide (Schemes p = []) then p <| Schemes := [HTTPPublicSchemeHTTP] |> else p.

Definition with_local (index : nat) (p : ProxyConfig) : result ProxyConfigError ProxyConfig :=
  let located :=
    if bool_decide (LocalIP p = "") then Ok (p <| LocalIP := "127.0.0.1" |>)
    else match ParseAddr (LocalIP p) with
         | Some localIP => if bool_decide (AddrString localIP = LocalIP p) then Ok p else Err (BadLocalIP index)
         | None => Err (BadLocalIP index)
         end in
  match located with
  | Err e => Err e
  | Ok p => if LocalPort p =? 0 then Err (BadLocalPort index) else Ok p
  end.

(** The switch over the type; the proxy with its schemes filled in. *)
Definition check_proxy (index : nat) (p : ProxyConfig) (seen : Seen) : result ProxyConfigError (ProxyConfig * Seen) :=
  let bad_fields := (PublicPort p =? 0) || negb (bool_decide (PublicDomain p = "")) ||
                    negb (bool_decide (Schemes p = [])) in
  match ProxyKind p with
  | ProxyTypeTCP =>
    if bad_fields then Err (BadProxyFields index)
    else if bool_decide (PublicPort p ∈ tcpPorts seen) then Err (DuplicatePort index)
    else Ok (p, seen <| tcpPorts := {[PublicPort p]} ∪ tcpPorts seen |>)
  | ProxyTypeUDP =>
    if bad_fields then Err (BadProxyFields index)
    else if bool_decide (PublicPort p ∈ udpPorts seen) then Err (DuplicatePort index)
    else Ok (p, seen <| udpPorts := {[PublicPort p]} ∪ udpPorts seen |>)
  | ProxyTypeHTTP =>
    if negb (PublicPort p =? 0) then Err (BadProxyFields index)
    else if negb (ValidateHTTPDomain (PublicDomain p)) then Err (BadDomain index)
    else
      let p := with_schemes p in
      if negb (validateHTTPPublicSchemes (Schemes p)) then Err (BadSchemes index)
      else if bool_decide (PublicDomain p ∈ domains seen) then Err (DuplicateDomain index)
      else Ok (p, seen <| domains := {[PublicDomain p]} ∪ domains seen |>)
  | ProxyTypeOther _ => Err (BadProxyType index)
  end.

Fixpoint validate_proxies_from (index : nat) (seen : Seen) (proxies : list ProxyConfig) :
    result ProxyConfigError (list ProxyConfig) :=
  match proxies with
  | [] => Ok []
  | p :: proxies =>
    if negb (ValidateResourceName (ProxyName p)) then Err (BadProxyName index)
    else if bool_decide (ProxyName p ∈ names seen) then Err (DuplicateProxyName index)
    else
      match check_proxy index p (seen <| names := {[ProxyName p]} ∪ names seen |>) with
      | Err e => Err e
      | Ok (p, seen) =>
        match with_local index p with
        | Err e => Err e
        | Ok p =>
          match validate_proxies_from (S index) seen proxies with
          | Err e => Err e
          | Ok proxies => Ok (p :: proxies)
          end
        end
      end
  end.

(** The validated proxies are the caller's, with defaults filled in. *)
Definition validateProxies (proxies : list ProxyConfig) : result ProxyConfigError (list ProxyConfig) :=
  if hardMaxBindingsPerClient <? Z.of_nat (length proxies) then Err TooManyProxies
  else validate_proxies_from 0 {| names := ∅; tcpPorts := ∅; udpPorts := ∅; domains := ∅ |} proxies.
End proxies.

(** The listeners that schemes need. *)
Definition validatePublicSchemeListener (c : ProxyServerConfig) (scheme : string) : bool :=
  if bool_decide (scheme = HTTPPublicSchemeHTTP) then negb (bool_decide (HTTPListenAddress c = ""))
  else if bool_decide (scheme = HTTPPublicSchemeHTTPS) then negb (bool_decide (HTTPSListenAddress c = ""))
  else true.

Definition validateConfiguredPublicSchemeAvailability (c : ProxyServerConfig) : bool :=
  bool_decide (map_Forall (λ _ g,
    match PermittedHTTP (GovernedProxies g) with
    | Some h => forallb (validatePublicSchemeListener c) (AllowedSchemes h)
    | None => true
    end = true) (GovernedProxyClients c)) &&
  bool_decide (map_Forall (λ _ ps,
    forallb (λ p, match ProxyKind p with
                  | ProxyTypeHTTP => forallb (validatePublicSchemeListener c) (Schemes p)
                  | _ => true
                  end) ps = true) (ManagedProxyClients c)).

(** ** Permissions of governed clients *)

(** The limits of one kind, in the order of the table. *)
Fixpoint limits_in_bounds (limits : list (Z * Z)) : bool :=
  match limits with
  | [] => true
  | (value, maximum) :: limits =>
    if (value <=? 0) || (maximum <? value) then false else limits_in_bounds limits
  end.

Definition validateGovernedLimits (p : GovernedPermissions) : bool :=
  let l := ProxyLimits (GovernedProxies p) in
  let f := ForwardLimits p in
  limits_in_bounds [(MaxTotal l, hardMaxBindingsPerClient); (MaxTCP l, hardMaxBindingsPerClient);
                    (MaxUDP l, hardMaxBindingsPerClient); (MaxHTTP l, hardMaxBindingsPerClient);
                    (MaxActiveLinks l, hardMaxActiveLinksPerClient)] &&
  negb ((MaxTotal l <? MaxTCP l) || (MaxTotal l <? MaxUDP l) || (MaxTotal l <? MaxHTTP l)) &&
  limits_in_bounds [(ForwardMaxTotal f, hardMaxBindingsPerClient); (ForwardMaxTCP f, hardMaxBindingsPerClient);
                    (ForwardMaxUDP f, hardMaxBindingsPerClient); (ForwardMaxActiveLinks f, hardMaxActiveLinksPerClient)] &&
  negb ((ForwardMaxTotal f <? ForwardMaxTCP f) || (ForwardMaxTotal f <? ForwardMaxUDP f)).

Definition permission_ranges_ok (permission : option (list PortRange)) : bool :=
  match permission with
  | Some ranges => negb (is_some (validateSortedPortRanges ranges)) && negb (bool_decide (ranges = []))
  | None => true
  end.

Fixpoint valid_patterns `{NetipText} (patterns : list string) (seen : gset string) : bool :=
  match patterns with
  | [] => true
  | pattern :: patterns =>
    let bare := if HasPrefix pattern "*." then TrimPrefix pattern "*." else pattern in
    if negb (ValidateHTTPDomain bare) then false
    else if bool_decide (pattern ∈ seen) then false
    else valid_patterns patterns ({[pattern]} ∪ seen)
  end.

Definition validateGovernedPermissions `{NetipText} (p : GovernedPermissions) : bool :=
  permission_ranges_ok (PermittedTCP (GovernedProxies p)) &&
  permission_ranges_ok (PermittedUDP (GovernedProxies p)) &&
  negb (is_some (validateForwardRules (ForwardRules p))) &&
  match PermittedHTTP (GovernedProxies p) with
  | None => validateGovernedLimits p
  | Some h =>
    negb (bool_decide (AllowedDomains h = [])) && valid_patterns (AllowedDomains h) ∅ &&
    (bool_decide (AllowedSchemes h = []) || validateHTTPPublicSchemes (AllowedSchemes h)) &&
    validateGovernedLimits p
  end.

Definition applyGovernedPermissionDefaults (p : GovernedPermissions) : GovernedPermissions :=
  match PermittedHTTP (GovernedProxies p) with
  | None => p
  | Some h =>
    if bool_decide (AllowedSchemes h = []) then
      p <| GovernedProxies := (GovernedProxies p)
           <| PermittedHTTP := Some {| AllowedSchemes := [HTTPPublicSchemeHTTP]; AllowedDomains := AllowedDomains h |} |> |>
    else p
  end.

(** [publicSchemeAllowed], [portAllowed] and [domainAllowed] of
    [authorization.go] *)
Definition publicSchemeAllowed (requested : string) (allowed : list string) : bool :=
  if bool_decide (allowed = []) then bool_decide (requested = HTTPPublicSchemeHTTP)
  else bool_decide (requested ∈ allowed).

Definition portAllowed (port : Z) (ranges : list PortRange) : bool := port_in_ranges port ranges.

Fixpoint domainAllowed (domain : string) (patterns : list string) : bool :=
  match patterns with
  | [] => false
  | pattern :: patterns =>
    if bool_decide (pattern = domain) then true
    else if negb (HasPrefix pattern "*.") then domainAllowed domain patterns
    else
      let suffix := TrimPrefix pattern "*." in
      if negb (HasSuffix domain ("." ++ suffix)%string) then domainAllowed domain patterns
      else
        let prefix := TrimSuffix domain ("." ++ suffix)%string in
        if negb (bool_decide (prefix = "")) && negb (ContainsByte prefix ["."%char]) then true
        else domainAllowed domain patterns
  end.

(** One declaration of a governed client. *)
Definition governed_declaration (p : GovernedProxyPermissions) (d : ProxyDeclaration) : option ErrorCode :=
  match DeclaredType d with
  | ProxyTypeTCP =>
    match PermittedTCP p with
    | None => Some ErrorProxyTypeNotAllowed
    | Some ranges => if portAllowed (RemotePort d) ranges then None else Some ErrorRemotePortNotAllowed
    end
  | ProxyTypeUDP =>
    match PermittedUDP p with
    | None => Some ErrorProxyTypeNotAllowed
    | Some ranges => if portAllowed (RemotePort d) ranges then None else Some ErrorRemotePortNotAllowed
    end
  | ProxyTypeHTTP =>
    match PermittedHTTP p with
    | None => Some ErrorProxyTypeNotAllowed
    | Some h =>
      if negb (domainAllowed (Domain d) (AllowedDomains h)) then Some ErrorDomainNotAllowed
      else if forallb (λ scheme, publicSchemeAllowed scheme (AllowedSchemes h)) (PublicSchemes d) then None
      else Some ErrorPublicSchemeNotAllowed
    end
  | ProxyTypeOther _ => Some ErrorProxyTypeNotAllowed
  end.

Fixpoint governed_declarations (p : GovernedProxyPermissions) (ds : list ProxyDeclaration) : option (ErrorCode * string) :=
  match ds with
  | [] => None
  | d :: ds => match governed_declaration p d with
               | Some code => Some (code, DeclaredName d)
               | None => governed_declarations p ds
               end
  end.

Definition count_type (t : ProxyType) (ds : list ProxyDeclaration) : Z := Z.of_nat (length (of_type t ds)).

Definition exceeds (limit count : Z) : bool := (0 <? limit) && (limit <? count).

Definition validateGovernedProxies (clientID : string) (request : SyncRequest) (c : ProxyServerConfig) :
    option (ErrorCode * string) :=
  match GovernedProxyClients c !! clientID with
  | None => Some (ErrorInvalidRequest, "")
  | Some governed =>
    let p := GovernedProxies governed in
    let ds := RequestProxies request in
    match governed_declarations p ds with
    | Some rejection => Some rejection
    | None =>
      let l := ProxyLimits p in
      if exceeds (MaxTotal l) (Z.of_nat (length ds)) || exceeds (MaxTCP l) (count_type ProxyTypeTCP ds) ||
         exceeds (MaxUDP l) (count_type ProxyTypeUDP ds) || exceeds (MaxHTTP l) (count_type ProxyTypeHTTP ds)
      then Some (ErrorClientLimitExceeded, "") else None
    end
  end.

(** ** Mirror groups *)

Inductive MirrorError :=
| TooManyGroups
| BadGroupName (name : string)
| DuplicateGroupName (name : string)
| BadGroupType (name : string)
| BadGroupPorts (name : string)
| TooManyGroupPorts (name : string)
| GroupPortConflict (name : string) (port : Z)
| NoPrimary (name : string)
| BadMemberCount (name : string)
| BadMember (name member : string)
| PrimaryNotMember (name : string)
| TooManyMirrorPorts
| ManagedConflict (clientID proxyName : string).

#[export] Instance proxy_type_countable : Countable ProxyType.
Proof.
  refine (inj_countable'
    (λ t, match t with
          | ProxyTypeTCP => (0%nat, "") | ProxyTypeHTTP => (1%nat, "") | ProxyTypeUDP => (2%nat, "")
          | ProxyTypeOther s => (3%nat, s) end)
    (λ p, match p with
          | (0%nat, _) => ProxyTypeTCP | (1%nat, _) => ProxyTypeHTTP | (2%nat, _) => ProxyTypeUDP
          | (_, s) => ProxyTypeOther s end) _).
  by intros [].
Defined.

(** [ports]: the group that has a public endpoint. *)
Abbreviation proxyMirrorKey := (ProxyType * Z)%type.

Definition permission_of (t : ProxyType) (p : GovernedProxyPermissions) : option (list PortRange) :=
  match t with ProxyTypeTCP => PermittedTCP p | _ => PermittedUDP p end.

Definition matches (t : ProxyType) (port : Z) (proxies : list ProxyConfig) : nat :=
  length (filter (λ p, ProxyKind p = t ∧ PublicPort p = port) proxies).

Definition validateProxyMirrorMember (mode clientID : string) (group : ProxyMirrorGroupConfig) (ports : list Z)
    (c : ProxyServerConfig) : bool :=
  if bool_decide (mode = ModeGoverned) then
    match GovernedProxyClients c !! clientID with
    | None => false
    | Some client =>
      match permission_of (MirrorType group) (GovernedProxies client) with
      | None => false
      | Some ranges => forallb (λ port, portAllowed port ranges) ports
      end
    end
  else if bool_decide (mode = ModeManaged) then
    match ManagedProxyClients c !! clientID with
    | None => false
    | Some proxies => forallb (λ port, bool_decide (matches (MirrorType group) port proxies = 1%nat)) ports
    end
  else true.

Fixpoint validate_members (mode : string) (group : ProxyMirrorGroupConfig) (ports : list Z) (c : ProxyServerConfig)
    (ids : list string) (members : gset string) : result MirrorError (gset string) :=
  match ids with
  | [] => Ok members
  | id :: ids =>
    if bool_decide (id = "") || bool_decide (id ∈ members) || negb (validateProxyMirrorMember mode id group ports c)
    then Err (BadMember (MirrorName group) id)
    else validate_members mode group ports c ids ({[id]} ∪ members)
  end.

Fixpoint claim_ports (group : ProxyMirrorGroupConfig) (ports : list Z) (table : gmap proxyMirrorKey string) :
    result MirrorError (gmap proxyMirrorKey string) :=
  match ports with
  | [] => Ok table
  | port :: ports =>
    let key := (MirrorType group, port) in
    if negb (bool_decide (default "" (table !! key) = "")) then Err (GroupPortConflict (MirrorName group) port)
    else claim_ports group ports (<[key := MirrorName group]> table)
  end.

(** The body of the loop; [names] and [ports] are shared by both modes. *)
Definition validate_group (mode : string) (c : ProxyServerConfig) (group : ProxyMirrorGroupConfig)
    (names : gset string) (ports : gmap proxyMirrorKey string) :
    result MirrorError (gset string * gmap proxyMirrorKey string) :=
  let name := MirrorName group in
  if negb (ValidateResourceName name) then Err (BadGroupName name)
  else if bool_decide (name ∈ names) then Err (DuplicateGroupName name)
  else if negb (bool_decide (MirrorType group = ProxyTypeTCP)) && negb (bool_decide (MirrorType group = ProxyTypeUDP))
  then Err (BadGroupType name)
  else if bool_decide (MirrorPublic group = []) || is_some (validateSortedPortRanges (MirrorPublic group))
  then Err (BadGroupPorts name)
  else
    let groupPorts := Ports (MirrorPublic group) in
    if maxProxyMirrorPorts <? Z.of_nat (length groupPorts) then Err (TooManyGroupPorts name)
    else
      let! ports := claim_ports group groupPorts ports in
      if bool_decide (PrimaryClientID group = "") then Err (NoPrimary name)
      else if bool_decide (ClientIDs group = []) || (maxProxyMirrorMembers <? Z.of_nat (length (ClientIDs group)))
      then Err (BadMemberCount name)
      else
        let! members := validate_members mode group groupPorts c (ClientIDs group) ∅ in
        if bool_decide (PrimaryClientID group ∈ members) then Ok ({[name]} ∪ names, ports)
        else Err (PrimaryNotMember name).

Fixpoint validateProxyMirrorGroups (mode : string) (c : ProxyServerConfig) (groups : list ProxyMirrorGroupConfig)
    (names : gset string) (ports : gmap proxyMirrorKey string) :
    result MirrorError (gset string * gmap proxyMirrorKey string) :=
  match groups with
  | [] => Ok (names, ports)
  | group :: groups =>
    let! np := validate_group mode c group names ports in
    validateProxyMirrorGroups mode c groups np.1 np.2
  end.

(** ** Conflicts between managed clients *)

(** The table key is the text "type:port"; both parts are recovered from it. *)
Definition mirrorMembers (groups : list ProxyMirrorGroupConfig) : gmap proxyMirrorKey (gset string) :=
  foldl (λ table g, foldl (λ table port, <[(MirrorType g, port) := list_to_set (ClientIDs g)]> table)
                          table (Ports (MirrorPublic g))) ∅ groups.

Record Owners := {
  ow_tcp : gmap Z string;
  ow_udp : gmap Z string;
  ow_http : gmap string string
}.
#[export] Instance eta_Owners : Eta Owners := λ o, {| ow_tcp := ow_tcp o; ow_udp := ow_udp o; ow_http := ow_http o |}.

Definition share (members : gmap proxyMirrorKey (gset string)) (key : proxyMirrorKey) (previous clientID : string) : bool :=
  let ids := default ∅ (members !! key) in
  bool_decide (previous ∈ ids) && bool_decide (clientID ∈ ids).

Definition own_proxy (members : gmap proxyMirrorKey (gset string)) (clientID : string) (p : ProxyConfig) (o : Owners) :
    result MirrorError Owners :=
  let conflict := Err (ManagedConflict clientID (ProxyName p)) in
  match ProxyKind p with
  | ProxyTypeTCP =>
    match ow_tcp o !! PublicPort p with
    | Some previous => if share members (ProxyTypeTCP, PublicPort p) previous clientID then Ok o else conflict
    | None => Ok (o <| ow_tcp := <[PublicPort p := clientID]> (ow_tcp o) |>)
    end
  | ProxyTypeUDP =>
    match ow_udp o !! PublicPort p with
    | Some previous => if share members (ProxyTypeUDP, PublicPort p) previous clientID then Ok o else conflict
    | None => Ok (o <| ow_udp := <[PublicPort p := clientID]> (ow_udp o) |>)
    end
  | ProxyTypeHTTP =>
    match ow_http o !! PublicDomain p with
    | Some _ => conflict
    | None => Ok (o <| ow_http := <[PublicDomain p := clientID]> (ow_http o) |>)
    end
  | ProxyTypeOther _ => Ok o
  end.

Fixpoint own_all (members : gmap proxyMirrorKey (gset string)) (entries : list (string * ProxyConfig)) (o : Owners) :
    result MirrorError Owners :=
  match entries with
  | [] => Ok o
  | (clientID, p) :: entries => let! o := own_proxy members clientID p o in own_all members entries o
  end.

(** The proxies of all clients; the loop runs over the sorted identifiers, any
    order of the clients here. *)
Definition managed_entries (managed : list (string * list ProxyConfig)) : list (string * ProxyConfig) :=
  managed ≫= λ c, pair c.1 <$> c.2.

Definition validateManagedClientConflicts (managed : list (string * list ProxyConfig)) (mirror : ProxyMirrorConfig) :
    option MirrorError :=
  match own_all (mirrorMembers (MirrorManaged mirror)) (managed_entries managed) {| ow_tcp := ∅; ow_udp := ∅; ow_http := ∅ |} with
  | Ok _ => None
  | Err e => Some e
  end.

(** [sorted] gives the clients in the order of their identifiers. *)
Definition validateProxyMirrorConfiguration (sorted : gmap string (list ProxyConfig) → list (string * list ProxyConfig))
    (c : ProxyServerConfig) : option MirrorError :=
  if maxProxyMirrorGroups <? Z.of_nat (length (MirrorGoverned (Mirror c)) + length (MirrorManaged (Mirror c)))
  then Some TooManyGroups
  else
    match validateProxyMirrorGroups ModeGoverned c (MirrorGoverned (Mirror c)) ∅ ∅ with
    | Err e => Some e
    | Ok (names, ports) =>
      match validateProxyMirrorGroups ModeManaged c (MirrorManaged (Mirror c)) names ports with
      | Err e => Some e
      | Ok (_, ports) =>
        if maxProxyMirrorPorts <? Z.of_nat (size ports) then Some TooManyMirrorPorts
        else validateManagedClientConflicts (sorted (ManagedProxyClients c)) (Mirror c)
      end
    end.

(** ** Managed proxies and the registry's own validation *)

Section declared.
Context `{NetipText}.

Lemma with_local_declares index p p' : with_local index p = Ok p' → ProxyDeclaration_of p' = ProxyDeclaration_of p.
Proof using Type.
  unfold with_local. destruct (bool_decide (LocalIP p = "")); [|destruct (ParseAddr (LocalIP p)); [destruct (bool_decide _)|]]; try done;
    destruct (LocalPort _ =? 0); try done; by intros [= <-].
Qed.

Definition schemes_served (http https : bool) (p : ProxyConfig) : Prop :=
  ∀ scheme, scheme ∈ Schemes p → (scheme = HTTPPublicSchemeHTTP → http = true) ∧ (scheme = HTTPPublicSchemeHTTPS → https = true).

Lemma schemes_served_available http https schemes d :
  PublicSchemes d = schemes → schemes ≠ [] →
  (∀ scheme, scheme ∈ schemes → (scheme = HTTPPublicSchemeHTTP → http = true) ∧ (scheme = HTTPPublicSchemeHTTPS → https = true)) →
  (AllowsPublicScheme d HTTPPublicSchemeHTTP && negb http) || (AllowsPublicScheme d HTTPPublicSchemeHTTPS && negb https) = false.
Proof using Type.
  intros <- Hne Hs. unfold AllowsPublicScheme. rewrite bool_decide_eq_false_2 by done. apply orb_false_iff. split.
  - case_bool_decide as Hi; [|done]. cbn. by rewrite (proj1 (Hs _ Hi) eq_refl).
  - case_bool_decide as Hi; [|done]. cbn. by rewrite (proj2 (Hs _ Hi) eq_refl).
Qed.

(** The registry accepts what the configuration accepts, and has seen the same
    ports and domains afterwards. *)
Lemma check_proxy_declared index p p' seen seen' N http https :
  ValidateResourceName (ProxyName p) = true → check_proxy index p (seen <| names := N |>) = Ok (p', seen') →
  (ProxyKind p' = ProxyTypeHTTP → schemes_served http https p') →
  ProxyName p' = ProxyName p ∧ ∃ seen1, check_declaration http https (ProxyDeclaration_of p') seen = Ok seen1 ∧
    names seen1 = names seen ∧ seen1 <| names := N |> = seen'.
Proof using Type.
  intros Hname E Hs. unfold check_proxy, check_declaration in *. cbn [tcpPorts udpPorts domains upd eta_Seen] in E.
  cbn [DeclaredName DeclaredType RemotePort Domain PublicSchemes ProxyDeclaration_of].
  destruct (ProxyKind p) eqn:Et; [| | |done].
  - destruct (_ || _) eqn:Eb; [done|]. destruct (bool_decide (PublicPort p ∈ _)) eqn:Ed; [done|]. injection E as <- <-.
    rewrite Hname, Et, Eb, Ed. split; [done|]. by eexists.
  - destruct (negb (PublicPort p =? 0)) eqn:Ep; [done|]. destruct (negb (ValidateHTTPDomain (PublicDomain p))) eqn:Ev; [done|].
    destruct (negb (validateHTTPPublicSchemes (Schemes (with_schemes p)))) eqn:Es; [done|].
    destruct (bool_decide (PublicDomain (with_schemes p) ∈ _)) eqn:Ed; [done|]. injection E as <- <-.
    assert (Hw : ProxyName (with_schemes p) = ProxyName p ∧ ProxyKind (with_schemes p) = ProxyKind p ∧
      PublicPort (with_schemes p) = PublicPort p ∧ PublicDomain (with_schemes p) = PublicDomain p).
    { unfold with_schemes. case (bool_decide _); done. }
    destruct Hw as (Wn & Wk & Wp & Wd). apply negb_false_iff in Es. unfold validateHTTPPublicSchemes in Es.
    apply andb_true_iff in Es as [Ene Evs]. apply negb_true_iff, bool_decide_eq_false in Ene.
    rewrite Wn, Wk, Wp, Hname, Et, Ep. cbn [negb]. rewrite Wd in *. rewrite Ev. unfold validPublicSchemes.
    rewrite bool_decide_eq_false_2, Evs by done. cbn [negb orb].
    erewrite schemes_served_available; [|reflexivity|done|apply Hs; congruence]. rewrite Ed. split; [done|]. by eexists.
  - destruct (_ || _) eqn:Eb; [done|]. destruct (bool_decide (PublicPort p ∈ _)) eqn:Ed; [done|]. injection E as <- <-.
    rewrite Hname, Et, Eb, Ed. split; [done|]. by eexists.
Qed.

Lemma validated_declared http https ps : ∀ index seen ps',
  validate_proxies_from index seen ps = Ok ps' →
  Forall (λ p, ProxyKind p = ProxyTypeHTTP → schemes_served http https p) ps' →
  validate_declarations http https (ProxyDeclaration_of <$> ps') seen = None ∧ length ps' = length ps.
Proof using Type.
  induction ps as [|p ps IH]; intros index seen ps'; cbn [validate_proxies_from].
  { intros [= <-]. done. }
  destruct (negb (ValidateResourceName (ProxyName p))) eqn:Hn; [done|]. apply negb_false_iff in Hn.
  destruct (bool_decide (ProxyName p ∈ names seen)) eqn:Hd; [done|].
  destruct (check_proxy _ _ _) as [[p1 seen1]|] eqn:Ec; [|done]. destruct (with_local index p1) as [p2|] eqn:El; [|done].
  destruct (validate_proxies_from (S index) seen1 ps) as [ps1|] eqn:Er; [|done]. intros [= <-] [Hp Hps]%Forall_cons.
  pose proof (with_local_declares _ _ _ El) as Ed. destruct (IH _ _ _ Er Hps) as [IH1 IH2].
  assert (Hp1 : ProxyKind p1 = ProxyTypeHTTP → schemes_served http https p1).
  { unfold ProxyDeclaration_of in Ed. unfold schemes_served in *. injection Ed as Hk1 Hk2 Hk3 Hk4 Hk5. rewrite <- Hk2, <- Hk5. done. }
  destruct (check_proxy_declared _ _ _ _ _ _ _ _ Hn Ec Hp1) as (Hname & s1 & Hcd & Hs1 & Hs1').
  rewrite fmap_cons. cbn [validate_declarations]. rewrite Ed, Hcd. cbn [DeclaredName ProxyDeclaration_of].
  rewrite Hname, Hs1, Hd. split; [|cbn; by rewrite IH2]. rewrite <- IH1. f_equal. rewrite <- Hs1'. done.
Qed.

(** The proxies of a managed client that the configuration accepts are
    accepted by the registry: the declarations made of them pass the checks of
    a registration, within the limit of a client, whenever the listeners of
    their schemes are enabled. *)
Theorem managed_proxies_declarable ps ps' http https :
  validateProxies ps = Ok ps' →
  (∀ p scheme, p ∈ ps' → ProxyKind p = ProxyTypeHTTP → scheme ∈ Schemes p →
     (scheme = HTTPPublicSchemeHTTP → http = true) ∧ (scheme = HTTPPublicSchemeHTTPS → https = true)) →
  validateProxyDeclarations (ProxyDeclaration_of <$> ps') http https = None ∧
  Z.of_nat (length (ProxyDeclaration_of <$> ps')) ≤ maxProxiesPerClient.
Proof using Type.
  unfold validateProxies. destruct (_ <? _) eqn:El; [done|]. intros E Hs.
  destruct (validated_declared http https _ _ _ _ E) as [Hv Hl].
  - apply Forall_forall. intros p Hp Hk scheme Hi. by eapply Hs.
  - split; [exact Hv|]. rewrite length_fmap, Hl. apply Z.ltb_ge in El. exact El.
Qed.
End declared.

(** ** What governed clients may publish *)

(** A pattern stands for itself, or for its domains with one more label. *)
Definition domain_matches (pattern domain : string) : Prop :=
  pattern = domain ∨
  ∃ label suffix, pattern = ("*." ++ suffix)%string ∧ domain = (label ++ "." ++ suffix)%string ∧
    label ≠ "" ∧ ContainsByte label ["."%char] = false.

Lemma app_string_inj_r s s' t : (s ++ t = s' ++ t)%string → s = s'.
Proof. intros E. rewrite <- (TrimSuffix_app s t), <- (TrimSuffix_app s' t). by rewrite E. Qed.

Lemma domain_allowed_iff domain patterns :
  domainAllowed domain patterns = true ↔ ∃ pattern, pattern ∈ patterns ∧ domain_matches pattern domain.
Proof.
  induction patterns as [|pattern patterns IH]; cbn [domainAllowed].
  { split; [done|]. intros (? & Hi & _). by apply elem_of_nil in Hi. }
  assert (Hrest : ¬ domain_matches pattern domain →
    (domainAllowed domain patterns = true ↔ ∃ p, p ∈ pattern :: patterns ∧ domain_matches p domain)).
  { intros Hno. rewrite IH. split; intros (p & Hi & Hm); exists p.
    - split; [by right|done].
    - apply elem_of_cons in Hi as [->|Hi]; [done|by split]. }
  assert (Hhere : domain_matches pattern domain → true = true ↔ ∃ p, p ∈ pattern :: patterns ∧ domain_matches p domain).
  { intros Hm. split; [|done]. intros _. exists pattern. split; [by left|done]. }
  destruct (bool_decide (pattern = domain)) eqn:Ep; [apply Hhere; left; by apply bool_decide_eq_true in Ep|].
  apply bool_decide_eq_false in Ep.
  destruct (HasPrefix pattern "*.") eqn:Eh; cbn [negb].
  2: { apply Hrest. intros [?|(l & suffix & -> & _)]; [done|]. by rewrite HasPrefix_app in Eh. }
  apply HasPrefix_spec in Eh as [suffix ->]. rewrite TrimPrefix_app.
  destruct (HasSuffix domain ("." ++ suffix)) eqn:Es; cbn [negb].
  2: { apply Hrest. intros [?|(l & t & Et & -> & _)]; [done|]. assert (t = suffix) as -> by by injection Et.
       assert (Hs : HasSuffix (l ++ "." ++ suffix) ("." ++ suffix) = true) by (apply HasSuffix_spec; by exists l). congruence. }
  apply HasSuffix_spec in Es as [l ->]. rewrite TrimSuffix_app.
  destruct (_ && _) eqn:El.
  - apply Hhere. right. exists l, suffix. bool_to_prop. done.
  - apply Hrest. intros [?|(l' & t & Et & Ed & Hne & Hnd)]; [done|]. assert (t = suffix) as -> by by injection Et.
    apply app_string_inj_r in Ed as <-. by rewrite bool_decide_eq_false_2, Hnd in El.
Qed.

(** The domains a governed client is allowed are exactly those its patterns
    stand for: the pattern itself, or one non-empty label in the place of a
    leading star. *)
Theorem domain_allowed_exact domain patterns :
  domainAllowed domain patterns = true ↔ ∃ pattern, pattern ∈ patterns ∧ domain_matches pattern domain.
Proof. apply domain_allowed_iff. Qed.

(** A declaration within the permissions. *)
Definition permitted (p : GovernedProxyPermissions) (d : ProxyDeclaration) : Prop :=
  match DeclaredType d with
  | ProxyTypeTCP => ∃ ranges, PermittedTCP p = Some ranges ∧ port_in_ranges (RemotePort d) ranges = true
  | ProxyTypeUDP => ∃ ranges, PermittedUDP p = Some ranges ∧ port_in_ranges (RemotePort d) ranges = true
  | ProxyTypeHTTP => ∃ h, PermittedHTTP p = Some h ∧
      (∃ pattern, pattern ∈ AllowedDomains h ∧ domain_matches pattern (Domain d)) ∧
      ∀ scheme, scheme ∈ PublicSchemes d → publicSchemeAllowed scheme (AllowedSchemes h) = true
  | ProxyTypeOther _ => False
  end.

Lemma governed_declaration_permitted p d : governed_declaration p d = None → permitted p d.
Proof.
  unfold governed_declaration, permitted. destruct (DeclaredType d).
  - destruct (PermittedTCP p) as [ranges|]; [|done]. destruct (portAllowed _ _) eqn:E; [|done]. intros _. by exists ranges.
  - destruct (PermittedHTTP p) as [h|]; [|done]. destruct (negb _) eqn:Ed; [done|]. destruct (forallb _ _) eqn:Ef; [|done].
    intros _. exists h. apply negb_false_iff, domain_allowed_iff in Ed. split_and!; [done|done|].
    intros scheme Hi. rewrite List.forallb_forall in Ef. by apply Ef, list_elem_of_In.
  - destruct (PermittedUDP p) as [ranges|]; [|done]. destruct (portAllowed _ _) eqn:E; [|done]. intros _. by exists ranges.
  - done.
Qed.

Definition within_limits (l : ProxyPermissionLimits) (ds : list ProxyDeclaration) : Prop :=
  (0 < MaxTotal l → Z.of_nat (length ds) ≤ MaxTotal l) ∧ (0 < MaxTCP l → count_type ProxyTypeTCP ds ≤ MaxTCP l) ∧
  (0 < MaxUDP l → count_type ProxyTypeUDP ds ≤ MaxUDP l) ∧ (0 < MaxHTTP l → count_type ProxyTypeHTTP ds ≤ MaxHTTP l).

Lemma governed_declarations_spec p ds :
  governed_declarations p ds = None ↔ Forall (λ d, governed_declaration p d = None) ds.
Proof.
  induction ds as [|d ds IH]; cbn [governed_declarations]; [split; [constructor|done]|]. rewrite Forall_cons, <- IH.
  destruct (governed_declaration p d); [split; [done|by intros [? _]]|]. tauto.
Qed.

Lemma exceeds_false limit count : exceeds limit count = false ↔ (0 < limit → count ≤ limit).
Proof. unfold exceeds. destruct (0 <? limit) eqn:E1, (limit <? count) eqn:E2; cbn; split; intros; try done; lia. Qed.

(** C19: The declarations of a governed client that the server accepts are
    within its permissions: every port in a permitted range, every domain
    matched by a permitted pattern, every scheme that is named permitted, and
    no limit exceeded. *)
Theorem governed_declarations_permitted clientID request c :
  validateGovernedProxies clientID request c = None →
  ∃ g, GovernedProxyClients c !! clientID = Some g ∧
    (∀ d, d ∈ RequestProxies request → permitted (GovernedProxies g) d) ∧
    within_limits (ProxyLimits (GovernedProxies g)) (RequestProxies request).
Proof.
  unfold validateGovernedProxies. destruct (GovernedProxyClients c !! clientID) as [g|]; [|done].
  destruct (governed_declarations _ _) as [rejection|] eqn:Eg; [done|]. destruct (_ || _) eqn:El; [done|]. intros _. exists g.
  apply governed_declarations_spec in Eg. rewrite Forall_forall in Eg. split_and!; [done| |].
  - intros d Hd. by apply governed_declaration_permitted, Eg.
  - bool_to_prop. unfold within_limits. rewrite <- !exceeds_false. done.
Qed.

Module DemoPermissions.
Definition limits : ProxyPermissionLimits := {| MaxTotal := 4; MaxTCP := 2; MaxUDP := 2; MaxHTTP := 2; MaxActiveLinks := 8 |}.
Definition https_only : GovernedPermissions :=
  {| GovernedProxies := {| PermittedTCP := Some [{| Start := 9000; End_ := 9010 |}]; PermittedUDP := None;
                           PermittedHTTP := Some {| AllowedSchemes := [HTTPPublicSchemeHTTPS]; AllowedDomains := ["*.example.com"] |};
                           ProxyLimits := limits |};
     ForwardRules := [];
     ForwardLimits := {| ForwardMaxTotal := 1; ForwardMaxTCP := 1; ForwardMaxUDP := 1; ForwardMaxActiveLinks := 1 |} |}.
Definition config : ProxyServerConfig :=
  {| HTTPListenAddress := ":80"; HTTPSListenAddress := ":443"; Mirror := {| MirrorGoverned := []; MirrorManaged := [] |};
     GovernedProxyClients := {["g" := https_only]}; ManagedProxyClients := ∅ |}.
Definition site (schemes : list string) : ProxyDeclaration :=
  {| DeclaredName := "site"; DeclaredType := ProxyTypeHTTP; RemotePort := 0; Domain := "a.example.com"; PublicSchemes := schemes |}.
Definition requests (ds : list ProxyDeclaration) : SyncRequest := {| RequestRevision := 1; RequestProxies := ds |}.
End DemoPermissions.

Lemma governed_declarations_permitted_witness :
  permitted (GovernedProxies DemoPermissions.https_only) (DemoPermissions.site [HTTPPublicSchemeHTTPS]).
Proof.
  destruct (governed_declarations_permitted "g" (DemoPermissions.requests [DemoPermissions.site [HTTPPublicSchemeHTTPS]]) DemoPermissions.config)
    as (g & Hg & Hall & _); [vm_compute; reflexivity|].
  assert (Hd : DemoPermissions.site [HTTPPublicSchemeHTTPS] ∈ [DemoPermissions.site [HTTPPublicSchemeHTTPS]]) by (apply list_elem_of_singleton; reflexivity).
  specialize (Hall _ Hd). vm_compute in Hg. injection Hg as <-. exact Hall.
Defined.

(** C20: A declaration that names no scheme is served over HTTP, but the check of
    a governed client looks only at the schemes that are named.  A client that
    is permitted HTTPS alone is refused plain HTTP when it asks for it, and
    gets it when it leaves the schemes out. *)
Theorem omitted_schemes_unchecked :
  validateGovernedPermissions (H := Dotted.text) DemoPermissions.https_only = true ∧
  publicSchemeAllowed HTTPPublicSchemeHTTP [HTTPPublicSchemeHTTPS] = false ∧
  validateGovernedProxies "g" (DemoPermissions.requests [DemoPermissions.site [HTTPPublicSchemeHTTP]]) DemoPermissions.config
    = Some (ErrorPublicSchemeNotAllowed, "site") ∧
  validateGovernedProxies "g" (DemoPermissions.requests [DemoPermissions.site []]) DemoPermissions.config = None ∧
  validateProxyDeclarations (H := Dotted.text) [DemoPermissions.site []] true true = None ∧
  AllowsPublicScheme (DemoPermissions.site []) HTTPPublicSchemeHTTP = true.
Proof. split_and!; vm_compute; reflexivity. Qed.

(** ** Validated mirror groups *)

Lemma Ports_includes public port : port ∈ Ports public ↔ mirrorPublicIncludesPort public port = true.
Proof.
  unfold Ports, mirrorPublicIncludesPort. rewrite existsb_exists, list_elem_of_bind. split.
  - intros (r & Hp & Hr). apply elem_of_seqZ in Hp. exists r. split; [by apply list_elem_of_In|]. lia.
  - intros (r & Hr & Hp). exists r. split; [apply elem_of_seqZ; lia|by apply list_elem_of_In].
Qed.

(** The public endpoints of groups. *)
Definition endpoint_keys (groups : list ProxyMirrorGroupConfig) : list proxyMirrorKey :=
  groups ≫= λ g, pair (MirrorType g) <$> Ports (MirrorPublic g).

(** What validation says of one group. *)
Definition group_ok (mode : string) (c : ProxyServerConfig) (g : ProxyMirrorGroupConfig) : Prop :=
  (MirrorType g = ProxyTypeTCP ∨ MirrorType g = ProxyTypeUDP) ∧ PrimaryClientID g ∈ ClientIDs g ∧
  NoDup (ClientIDs g) ∧ Z.of_nat (length (ClientIDs g)) ≤ maxProxyMirrorMembers ∧
  ∀ id, id ∈ ClientIDs g → validateProxyMirrorMember mode id g (Ports (MirrorPublic g)) c = true.

Lemma validate_members_spec mode g ports c ids : ∀ members members',
  validate_members mode g ports c ids members = Ok members' →
  members' = list_to_set ids ∪ members ∧ NoDup ids ∧ (∀ id, id ∈ ids → id ∉ members) ∧
  ∀ id, id ∈ ids → validateProxyMirrorMember mode id g ports c = true.
Proof.
  induction ids as [|id ids IH]; intros members members'; cbn [validate_members].
  { intros [= <-]. split_and!; [set_solver|constructor|by intros id ?%elem_of_nil..]. }
  destruct (_ || _) eqn:E; [done|]. apply orb_false_iff in E as [[_ Hnew%bool_decide_eq_false]%orb_false_iff Hok%negb_false_iff].
  intros (-> & Hnd & Hout & Hall)%IH. split_and!.
  - cbn. set_solver.
  - constructor; [|done]. intros Hi. specialize (Hout _ Hi). set_solver.
  - intros id' [->|Hi]%elem_of_cons; [done|]. specialize (Hout _ Hi). set_solver.
  - intros id' [->|Hi]%elem_of_cons; [done|by apply Hall].
Qed.

Lemma claim_ports_spec g ports : MirrorName g ≠ "" → ∀ table table',
  claim_ports g ports table = Ok table' → (∀ k name, table !! k = Some name → name ≠ "") →
  (∀ k name, table' !! k = Some name → name ≠ "") ∧
  (∀ port, port ∈ ports → table !! (MirrorType g, port) = None) ∧ NoDup ports ∧
  (∀ k, is_Some (table' !! k) ↔ is_Some (table !! k) ∨ k ∈ pair (MirrorType g) <$> ports) ∧
  size table' = (size table + length ports)%nat.
Proof.
  intros Hname. induction ports as [|port ports IH]; intros table table'; cbn [claim_ports].
  { intros [= <-] Ht. split_and!; [done|by intros port ?%elem_of_nil|constructor|intros k; cbn; rewrite elem_of_nil; tauto|cbn; lia]. }
  destruct (negb _) eqn:E; [done|]. apply negb_false_iff, bool_decide_eq_true in E. intros Hc Ht.
  assert (Hnone : table !! (MirrorType g, port) = None).
  { destruct (table !! (MirrorType g, port)) as [name|] eqn:Ek; [|done]. by destruct (Ht _ _ Ek). }
  destruct (IH _ _ Hc) as (Ht' & Hfree & Hnd & Hdom & Hsize).
  { intros k name. rewrite lookup_insert. case_decide; [by intros [= <-]|apply Ht]. }
  assert (Hp : port ∉ ports) by (intros Hi; specialize (Hfree _ Hi); by rewrite lookup_insert_eq in Hfree).
  split_and!.
  - done.
  - intros q [->|Hq]%elem_of_cons; [done|]. specialize (Hfree _ Hq). rewrite lookup_insert_None in Hfree. by destruct Hfree.
  - by constructor.
  - intros k. rewrite Hdom, lookup_insert, fmap_cons, elem_of_cons. case_decide as Hk.
    + subst k. split; [by right; left|by left].
    + split; [tauto|]. intros [?|[->|?]]; [by left|done|by right].
  - rewrite Hsize, map_size_insert_None by done. cbn. lia.
Qed.

Lemma validate_group_spec mode c g names ports names' ports' :
  validate_group mode c g names ports = Ok (names', ports') → (∀ k name, ports !! k = Some name → name ≠ "") →
  group_ok mode c g ∧ (∀ k name, ports' !! k = Some name → name ≠ "") ∧
  (∀ port, port ∈ Ports (MirrorPublic g) → ports !! (MirrorType g, port) = None) ∧ NoDup (Ports (MirrorPublic g)) ∧
  (∀ k, is_Some (ports' !! k) ↔ is_Some (ports !! k) ∨ k ∈ pair (MirrorType g) <$> Ports (MirrorPublic g)) ∧
  size ports' = (size ports + length (Ports (MirrorPublic g)))%nat.
Proof.
  unfold validate_group. destruct (negb (ValidateResourceName (MirrorName g))) eqn:En; [done|].
  destruct (bool_decide (MirrorName g ∈ names)); [done|]. destruct (negb _ && negb _) eqn:Et; [done|].
  destruct (bool_decide (MirrorPublic g = []) || _); [done|]. destruct (maxProxyMirrorPorts <? _); [done|].
  destruct (claim_ports g _ ports) as [ports1|] eqn:Ec; [|done].
  destruct (bool_decide (PrimaryClientID g = "")); [done|]. destruct (bool_decide (ClientIDs g = []) || _) eqn:El; [done|].
  destruct (validate_members _ _ _ _ _ _) as [members|] eqn:Em; [|done].
  destruct (bool_decide (PrimaryClientID g ∈ members)) eqn:Ep; [|done]. intros [= <- <-] Hports.
  assert (Hname : MirrorName g ≠ "") by (intros Hn; by rewrite Hn in En).
  destruct (claim_ports_spec _ _ Hname _ _ Ec Hports) as (H1 & H2 & H3 & H4 & H5).
  destruct (validate_members_spec _ _ _ _ _ _ _ Em) as (-> & Hnd & _ & Hall).
  split_and!; try done. apply bool_decide_eq_true in Ep. apply orb_false_iff in El as [_ El%Z.ltb_ge].
  unfold group_ok. split_and!; try done; [|set_solver].
  apply andb_false_iff in Et as [Et%negb_false_iff%bool_decide_eq_true|Et%negb_false_iff%bool_decide_eq_true]; auto.
Qed.

Lemma validate_groups_spec mode c groups : ∀ names ports names' ports',
  validateProxyMirrorGroups mode c groups names ports = Ok (names', ports') → (∀ k name, ports !! k = Some name → name ≠ "") →
  Forall (group_ok mode c) groups ∧ (∀ k name, ports' !! k = Some name → name ≠ "") ∧
  NoDup (endpoint_keys groups) ∧ (∀ k, k ∈ endpoint_keys groups → ports !! k = None) ∧
  (∀ k, is_Some (ports' !! k) ↔ is_Some (ports !! k) ∨ k ∈ endpoint_keys groups) ∧
  size ports' = (size ports + length (endpoint_keys groups))%nat.
Proof.
  induction groups as [|g groups IH]; intros names ports names' ports'; cbn [validateProxyMirrorGroups].
  { intros [= <- <-] Hp. split_and!; [constructor|done|constructor|by intros k ?%elem_of_nil|
      intros k; cbn; rewrite elem_of_nil; tauto|cbn; lia]. }
  destruct (validate_group mode c g names ports) as [[names1 ports1]|] eqn:Eg; [|done]. cbn [fst snd]. intros E Hp.
  destruct (validate_group_spec _ _ _ _ _ _ _ Eg Hp) as (Hok & Hp1 & Hfree1 & Hnd1 & Hdom1 & Hs1).
  destruct (IH _ _ _ _ E Hp1) as (Hall & Hp' & Hnd & Hfree & Hdom & Hs).
  change (endpoint_keys (g :: groups)) with ((pair (MirrorType g) <$> Ports (MirrorPublic g)) ++ endpoint_keys groups).
  assert (Hno : ∀ k, k ∈ endpoint_keys groups → k ∉ pair (MirrorType g) <$> Ports (MirrorPublic g)).
  { intros k Hk Hi. specialize (Hfree _ Hk). destruct (proj2 (Hdom1 k) (or_intror Hi)) as [? ?]. congruence. }
  split_and!.
  - by constructor.
  - done.
  - apply NoDup_app. split_and!; [by apply (NoDup_fmap_2 _)|intros k Hi Hk; by apply (Hno k)|done].
  - intros k [(port & -> & Hi)%list_elem_of_fmap|Hk]%elem_of_app; [by apply Hfree1|].
    specialize (Hfree _ Hk). destruct (ports !! k) as [x|] eqn:Ex; [|done].
    destruct (proj2 (Hdom1 k) (or_introl (ex_intro _ _ Ex))) as [? ?]. congruence.
  - intros k. rewrite Hdom, Hdom1, elem_of_app. tauto.
  - rewrite Hs, Hs1, length_app, length_fmap. lia.
Qed.

Lemma mirror_configuration_spec sorted c :
  validateProxyMirrorConfiguration sorted c = None →
  Forall (group_ok ModeGoverned c) (MirrorGoverned (Mirror c)) ∧ Forall (group_ok ModeManaged c) (MirrorManaged (Mirror c)) ∧
  NoDup (endpoint_keys (MirrorGoverned (Mirror c) ++ MirrorManaged (Mirror c))) ∧
  Z.of_nat (length (endpoint_keys (MirrorGoverned (Mirror c) ++ MirrorManaged (Mirror c)))) ≤ maxProxyMirrorPorts ∧
  validateManagedClientConflicts (sorted (ManagedProxyClients c)) (Mirror c) = None.
Proof.
  unfold validateProxyMirrorConfiguration. destruct (maxProxyMirrorGroups <? _); [done|].
  destruct (validateProxyMirrorGroups ModeGoverned _ _ _ _) as [[names ports]|] eqn:E1; [|done].
  destruct (validateProxyMirrorGroups ModeManaged _ _ _ _) as [[names' ports']|] eqn:E2; [|done].
  destruct (maxProxyMirrorPorts <? _) eqn:Es; [done|]. intros Hc.
  destruct (validate_groups_spec _ _ _ _ _ _ _ E1) as (A1 & P1 & N1 & F1 & D1 & S1); [intros k name; by rewrite lookup_empty|].
  destruct (validate_groups_spec _ _ _ _ _ _ _ E2 P1) as (A2 & _ & N2 & F2 & _ & S2).
  unfold endpoint_keys. rewrite bind_app. fold (endpoint_keys (MirrorGoverned (Mirror c))) (endpoint_keys (MirrorManaged (Mirror c))).
  split_and!; try done.
  - apply NoDup_app. split_and!; [done| |done]. intros k Hk Hk'. specialize (F2 _ Hk').
    destruct (proj2 (D1 k) (or_intror Hk)) as [? ?]. congruence.
  - rewrite length_app. rewrite S2, S1, map_size_empty in Es. apply Z.ltb_ge in Es. lia.
Qed.

(** C21: A mirror configuration that the server accepts shares every public
    endpoint in one group only and at most 128 of them; every member of a
    governed group is permitted all of its ports, every member of a managed
    group has exactly one proxy on each of them, and the primary of a group is
    one of its members. *)
Theorem mirror_configuration_valid sorted c :
  validateProxyMirrorConfiguration sorted c = None →
  NoDup (endpoint_keys (MirrorGoverned (Mirror c) ++ MirrorManaged (Mirror c))) ∧
  Z.of_nat (length (endpoint_keys (MirrorGoverned (Mirror c) ++ MirrorManaged (Mirror c)))) ≤ 128 ∧
  (∀ g, g ∈ MirrorGoverned (Mirror c) → PrimaryClientID g ∈ ClientIDs g ∧
     ∀ id port, id ∈ ClientIDs g → port ∈ Ports (MirrorPublic g) →
       ∃ client ranges, GovernedProxyClients c !! id = Some client ∧
         permission_of (MirrorType g) (GovernedProxies client) = Some ranges ∧ port_in_ranges port ranges = true) ∧
  (∀ g, g ∈ MirrorManaged (Mirror c) → PrimaryClientID g ∈ ClientIDs g ∧
     ∀ id port, id ∈ ClientIDs g → port ∈ Ports (MirrorPublic g) →
       ∃ proxies p, ManagedProxyClients c !! id = Some proxies ∧
         filter (λ p, ProxyKind p = MirrorType g ∧ PublicPort p = port) proxies = [p]).
Proof.
  intros (Hg & Hm & Hnd & Hlen & _)%mirror_configuration_spec. rewrite Forall_forall in Hg, Hm. split_and!; [done|exact Hlen| |].
  - intros g Hi. destruct (Hg _ Hi) as (_ & Hp & _ & _ & Hall). split; [done|]. intros id port Hid Hport.
    specialize (Hall _ Hid). unfold validateProxyMirrorMember in Hall. rewrite bool_decide_eq_true_2 in Hall by done.
    destruct (GovernedProxyClients c !! id) as [client|]; [|done]. destruct (permission_of _ _) as [ranges|] eqn:Er; [|done].
    exists client, ranges. split_and!; try done. rewrite List.forallb_forall in Hall. by apply Hall, list_elem_of_In.
  - intros g Hi. destruct (Hm _ Hi) as (_ & Hp & _ & _ & Hall). split; [done|]. intros id port Hid Hport.
    specialize (Hall _ Hid). unfold validateProxyMirrorMember in Hall.
    rewrite (bool_decide_eq_false_2 (ModeManaged = ModeGoverned)), bool_decide_eq_true_2 in Hall by done.
    destruct (ManagedProxyClients c !! id) as [proxies|]; [|done]. rewrite List.forallb_forall in Hall.
    assert (Hone := Hall port (proj1 (list_elem_of_In _ _) Hport)). apply bool_decide_eq_true in Hone. unfold matches in Hone.
    destruct (filter _ proxies) as [|p [|? ?]] eqn:Ef; try done. by exists proxies, p.
Qed.

(** ** Managed clients that do not conflict can be reserved for *)

(** The group of a key, if the keys of the groups are apart. *)
Lemma mirrorMembers_spec groups t port : NoDup (endpoint_keys groups) →
  mirrorMembers groups !! (t, port) =
    (λ g, list_to_set (ClientIDs g)) <$>
      head (filter (λ g, MirrorType g = t ∧ mirrorPublicIncludesPort (MirrorPublic g) port = true) groups).
Proof.
  unfold mirrorMembers. intros Hnd.
  assert (Hport : ∀ g ports (table : gmap proxyMirrorKey (gset string)),
    foldl (λ table p, <[(MirrorType g, p) := list_to_set (ClientIDs g)]> table) table ports !! (t, port) =
    if decide (MirrorType g = t ∧ port ∈ ports) then Some (list_to_set (ClientIDs g)) else table !! (t, port)).
  { intros g ports. induction ports as [|q ports IH]; intros table; cbn [foldl].
    - rewrite decide_False; [done|]. intros [_ Hi]. by apply elem_of_nil in Hi.
    - rewrite IH, lookup_insert. destruct (decide (MirrorType g = t ∧ port ∈ ports)) as [[Ht Hi]|Hn].
      + rewrite decide_True; [done|]. split; [done|by right].
      + case_decide as Hk; [injection Hk as Ht Hq; rewrite decide_True; [done|]; split; [done|subst; by left]|].
        rewrite decide_False; [done|]. intros [Ht [->|Hi]%elem_of_cons]; [|by apply Hn]. by rewrite Ht in Hk. }
  assert (Hgen : ∀ table : gmap proxyMirrorKey (gset string),
    foldl (λ table g, foldl (λ table p, <[(MirrorType g, p) := list_to_set (ClientIDs g)]> table) table (Ports (MirrorPublic g)))
      table groups !! (t, port) =
    match head (filter (λ g, MirrorType g = t ∧ mirrorPublicIncludesPort (MirrorPublic g) port = true) groups) with
    | Some g => Some (list_to_set (ClientIDs g)) | None => table !! (t, port) end).
  { induction groups as [|g groups IH]; intros table; [done|]. cbn [foldl].
    change (endpoint_keys (g :: groups)) with ((pair (MirrorType g) <$> Ports (MirrorPublic g)) ++ endpoint_keys groups) in Hnd.
    apply NoDup_app in Hnd as (_ & Hdis & Hnd). rewrite IH by done. rewrite filter_cons, Hport.
    destruct (decide (MirrorType g = t ∧ mirrorPublicIncludesPort (MirrorPublic g) port = true)) as [[Ht Hi]|Hn]; cbn [head].
    - apply Ports_includes in Hi. rewrite decide_True by done.
      destruct (head _) as [g'|] eqn:Eh; [|done]. exfalso. apply head_Some_elem_of in Eh. apply list_elem_of_filter in Eh as [[Ht' Hi'%Ports_includes] Hg'].
      apply (Hdis (t, port)); [rewrite <- Ht; by apply list_elem_of_fmap_2|].
      apply list_elem_of_bind. exists g'. split; [rewrite <- Ht'; by apply list_elem_of_fmap_2|done].
    - rewrite decide_False; [done|]. by rewrite Ports_includes. }
  rewrite Hgen, lookup_empty. by destruct (head _).
Qed.

Lemma mirror_allows_spec groups t port ids :
  mirrorConfigurationAllows groups t port ids =
    match head (filter (λ g, MirrorType g = t ∧ mirrorPublicIncludesPort (MirrorPublic g) port = true) groups) with
    | Some g => forallb (λ id, bool_decide (id ∈ ClientIDs g)) ids | None => false end.
Proof.
  induction groups as [|g groups IH]; [done|]. cbn [mirrorConfigurationAllows]. rewrite filter_cons.
  destruct (decide (MirrorType g = t ∧ _)) as [[Ht Hi]|Hn].
  - rewrite bool_decide_eq_true_2, Hi by done. done.
  - rewrite <- IH. destruct (bool_decide (MirrorType g = t)) eqn:Et; [|done]. apply bool_decide_eq_true in Et.
    destruct (mirrorPublicIncludesPort _ _); [|done]. by destruct Hn.
Qed.

Lemma share_allowed groups t port a b : NoDup (endpoint_keys groups) →
  share (mirrorMembers groups) (t, port) a b = mirrorConfigurationAllows groups t port [a; b].
Proof.
  intros Hnd. unfold share. rewrite mirrorMembers_spec, mirror_allows_spec by done. destruct (head _) as [g|]; cbn.
  - rewrite andb_true_r. f_equal; apply bool_decide_ext; by rewrite elem_of_list_to_set.
  - by rewrite bool_decide_eq_false_2 by apply not_elem_of_empty.
Qed.

Section conflicts.
Context (groups : list ProxyMirrorGroupConfig).
Let members := mirrorMembers groups.

(** Two proxies on one port are in its group; no two share a domain. *)
Definition compatible (e1 e2 : string * ProxyConfig) : Prop :=
  (ProxyKind e1.2 = ProxyTypeTCP → ProxyKind e2.2 = ProxyTypeTCP → PublicPort e1.2 = PublicPort e2.2 →
     share members (ProxyTypeTCP, PublicPort e1.2) e1.1 e2.1 = true) ∧
  (ProxyKind e1.2 = ProxyTypeUDP → ProxyKind e2.2 = ProxyTypeUDP → PublicPort e1.2 = PublicPort e2.2 →
     share members (ProxyTypeUDP, PublicPort e1.2) e1.1 e2.1 = true) ∧
  (ProxyKind e1.2 = ProxyTypeHTTP → ProxyKind e2.2 = ProxyTypeHTTP → PublicDomain e1.2 ≠ PublicDomain e2.2).

Lemma share_comm k a b : share members k a b = share members k b a.
Proof using Type. unfold share. apply andb_comm. Qed.

Lemma share_trans k a b c : share members k a b = true → share members k a c = true → share members k b c = true.
Proof using Type. unfold share. intros. bool_to_prop. by rewrite !bool_decide_eq_true_2. Qed.

Lemma compatible_sym e1 e2 : compatible e1 e2 → compatible e2 e1.
Proof using Type.
  intros (Ht & Hu & Hh). split_and!.
  - intros H1 H2 Hp. rewrite share_comm, Hp. by apply Ht.
  - intros H1 H2 Hp. rewrite share_comm, Hp. by apply Hu.
  - intros H1 H2 Hd. by apply Hh.
Qed.

(** The entries go with what is owned already. *)
Definition fits (o : Owners) (e : string * ProxyConfig) : Prop :=
  (ProxyKind e.2 = ProxyTypeTCP → ∀ previous, ow_tcp o !! PublicPort e.2 = Some previous →
     share members (ProxyTypeTCP, PublicPort e.2) previous e.1 = true) ∧
  (ProxyKind e.2 = ProxyTypeUDP → ∀ previous, ow_udp o !! PublicPort e.2 = Some previous →
     share members (ProxyTypeUDP, PublicPort e.2) previous e.1 = true) ∧
  (ProxyKind e.2 = ProxyTypeHTTP → ow_http o !! PublicDomain e.2 = None).

Lemma own_proxy_spec c p o o' : own_proxy members c p o = Ok o' →
  fits o (c, p) ∧ ∀ e, fits o' e → fits o e ∧ compatible (c, p) e.
Proof using Type.
  unfold own_proxy, fits, compatible. cbn [fst snd]. destruct (ProxyKind p) eqn:Ek.
  - destruct (ow_tcp o !! PublicPort p) as [prev|] eqn:Eo.
    + destruct (share _ _ prev c) eqn:Es; [|done]. intros [= <-]. split; [split_and!; try done; by intros _ q [= <-]|].
      intros e (Ht & Hu & Hh). split_and!; try done. intros _ Ke Hp. rewrite Hp in Es, Eo |- *. eapply share_trans; [exact Es|by apply Ht].
    + intros [= <-]. cbn. split; [split_and!; try done|]. intros e (Ht & Hu & Hh). split_and!; try done.
      * intros Ke q Hq. apply Ht; [done|]. rewrite lookup_insert_ne; [done|]. intros Hp. rewrite <- Hp in Hq. congruence.
      * intros _ Ke Hp. rewrite Hp. apply Ht; [done|]. by rewrite Hp, lookup_insert_eq.
  - destruct (ow_http o !! PublicDomain p) as [prev|] eqn:Eo; [done|]. intros [= <-]. cbn. split; [split_and!; try done|].
    intros e (Ht & Hu & Hh). split_and!; try done.
    * intros Ke. specialize (Hh Ke). by apply lookup_insert_None in Hh as [? _].
    * intros _ Ke Hd. specialize (Hh Ke). apply lookup_insert_None in Hh as [_ ?]. done.
  - destruct (ow_udp o !! PublicPort p) as [prev|] eqn:Eo.
    + destruct (share _ _ prev c) eqn:Es; [|done]. intros [= <-]. split; [split_and!; try done; by intros _ q [= <-]|].
      intros e (Ht & Hu & Hh). split_and!; try done. intros _ Ke Hp. rewrite Hp in Es, Eo |- *. eapply share_trans; [exact Es|by apply Hu].
    + intros [= <-]. cbn. split; [split_and!; try done|]. intros e (Ht & Hu & Hh). split_and!; try done.
      * intros Ke q Hq. apply Hu; [done|]. rewrite lookup_insert_ne; [done|]. intros Hp. rewrite <- Hp in Hq. congruence.
      * intros _ Ke Hp. rewrite Hp. apply Hu; [done|]. by rewrite Hp, lookup_insert_eq.
  - intros [= <-]. split; [split_and!; done|]. intros e He. split; [done|]. split_and!; done.
Qed.

Lemma own_all_compatible entries : ∀ o o', own_all members entries o = Ok o' →
  ForallOrdPairs compatible entries ∧ Forall (fits o) entries.
Proof using Type.
  induction entries as [|[c p] entries IH]; intros o o'; cbn [own_all]; [split; constructor|].
  destruct (own_proxy members c p o) as [o1|] eqn:E1; [|done]. intros [Hpairs Hfit]%IH.
  destruct (own_proxy_spec _ _ _ _ E1) as [Hhere Hlater]. rewrite Forall_forall in Hfit. split; constructor; try done.
  - apply Forall_forall. intros e He. by apply Hlater, Hfit.
  - apply Forall_forall. intros e He. by apply Hlater, Hfit.
Qed.

Lemma compatible_permutation l l' : l ≡ₚ l' → ForallOrdPairs compatible l → ForallOrdPairs compatible l'.
Proof using Type.
  induction 1 as [|e l l' Hp IH|e1 e2 l|l l' l'' _ IH1 _ IH2]; intros Hl.
  - constructor.
  - inversion Hl; subst. constructor; [by rewrite <- Hp|by apply IH].
  - inversion Hl as [|? ? Ha Hl']; subst. inversion Hl' as [|? ? Hb Hl'']; subst. apply Forall_cons in Ha as [Ha1 Ha2].
    constructor; [constructor; [by apply compatible_sym|done]|]. by constructor.
  - by apply IH2, IH1.
Qed.
End conflicts.

(** What the registry is told of a managed proxy. *)
Definition managed_proxy (p : ProxyConfig) : ManagedProxy :=
  {| ManagedType := ProxyKind p; ManagedPort := PublicPort p; ManagedDomain := PublicDomain p |}.

Definition managed_client (m : string * list ProxyConfig) : string * list ManagedProxy := (m.1, managed_proxy <$> m.2).

Section reservable.
Context (mirror : ProxyMirrorConfig) (r : Registry) (Hkeys : NoDup (endpoint_keys (MirrorManaged mirror))).
Let members := mirrorMembers (MirrorManaged mirror).

Definition owners (v : Reservations) : Owners := {| ow_tcp := rv_tcp v; ow_udp := rv_udp v; ow_http := rv_http v |}.

(** The registry's own rule: a domain may be taken twice by one client. *)
Lemma reserve_succeeds c p v : fits (MirrorManaged mirror) (owners v) (c, p) →
  ∃ v', reserve_proxy (Some mirror) r c (Some v) (managed_proxy p) = Some v' ∧
    ∀ e, fits (MirrorManaged mirror) (owners v) e → compatible (MirrorManaged mirror) (c, p) e →
      fits (MirrorManaged mirror) (owners v') e.
Proof using Hkeys.
  intros (Ht & Hu & Hh). unfold reserve_proxy. cbn [mbind option_bind managed_proxy ManagedType ManagedPort ManagedDomain].
  assert (Hport : ∀ t (table : gmap Z string) p0,
    (∀ previous, table !! PublicPort p = Some previous → share members (t, PublicPort p) previous c = true) →
    ∃ table', reserve_port (Some mirror) t p0 c (PublicPort p) table = Some table' ∧
      ∀ q previous, table' !! q = Some previous → table !! q = Some previous ∨ q = PublicPort p ∧ previous = c).
  { intros t table p0 Hs. unfold reserve_port. destruct (table !! PublicPort p) as [owner|] eqn:Eo; cbn [default from_option id].
    - destruct (negb _ && negb _); [|eexists; split; [done|]].
      + unfold may_share. rewrite <- share_allowed by done. fold members. rewrite (Hs _ eq_refl). eexists. split; [done|]. by left.
      + intros q previous. rewrite lookup_insert. case_decide; [intros [= <-]; by right|by left].
    - eexists. split; [done|]. intros q previous. rewrite lookup_insert. case_decide; [intros [= <-]; by right|by left]. }
  cbn [fst snd] in *. unfold fits, compatible. cbn [fst snd]. destruct (ProxyKind p) eqn:Ek.
  - destruct (Hport ProxyTypeTCP (rv_tcp v) (tcp r)) as (table' & -> & Hfrom); [by apply Ht|]. eexists. split; [done|]. cbn.
    intros e (Ft & Fu & Fh) (Ct & _). split_and!; try done. intros Ke previous Hq.
    destruct (Hfrom _ _ Hq) as [?|[Hp ->]]; [by apply Ft|]. rewrite Hp. by apply Ct.
  - cbn. specialize (Hh eq_refl). cbn in Hh. rewrite Hh. cbn. eexists. split; [done|]. cbn.
    intros e (Ft & Fu & Fh) (_ & _ & Ch). split_and!; try done. intros Ke. apply lookup_insert_None. split; [by apply Fh|by apply Ch].
  - destruct (Hport ProxyTypeUDP (rv_udp v) (udp r)) as (table' & -> & Hfrom); [by apply Hu|]. eexists. split; [done|]. cbn.
    intros e (Ft & Fu & Fh) (_ & Cu & _). split_and!; try done. intros Ke previous Hq.
    destruct (Hfrom _ _ Hq) as [?|[Hp ->]]; [by apply Fu|]. rewrite Hp. by apply Cu.
  - eexists. split; [done|]. intros e He _. exact He.
Qed.

Lemma reserve_all_succeeds entries : ∀ v,
  ForallOrdPairs (compatible (MirrorManaged mirror)) entries → Forall (fits (MirrorManaged mirror) (owners v)) entries →
  ∃ v', foldl (λ acc e, reserve_proxy (Some mirror) r e.1 acc (managed_proxy e.2)) (Some v) entries = Some v'.
Proof using Hkeys.
  induction entries as [|[c p] entries IH]; intros v Hc Hf; [by exists v|]. inversion Hc as [|? ? Hhere Hrest]; subst.
  apply Forall_cons in Hf as [Hfit Hf]. destruct (reserve_succeeds _ _ _ Hfit) as (v' & E & Hnext). cbn [foldl fst snd]. rewrite E.
  apply IH; [done|]. rewrite Forall_forall in *. intros e He. apply Hnext; [by apply Hf|by apply Hhere].
Qed.

Lemma collect_entries managed : ∀ acc,
  foldl (λ acc c, foldl (reserve_proxy (Some mirror) r c.1) acc c.2) acc (managed_client <$> managed) =
  foldl (λ acc e, reserve_proxy (Some mirror) r e.1 acc (managed_proxy e.2)) acc (managed_entries managed).
Proof using Type.
  induction managed as [|[c ps] managed IH]; intros acc; [done|]. rewrite fmap_cons. cbn [foldl fst snd managed_client].
  change (managed_entries ((c, ps) :: managed)) with ((pair c <$> ps) ++ managed_entries managed).
  rewrite foldl_app, IH. f_equal. clear. revert acc. induction ps as [|p ps IH]; intros acc; [done|]. rewrite !fmap_cons. cbn [foldl fst snd].
  apply IH.
Qed.
End reservable.

(** What the configuration accepts, the registry can reserve: when the
    mirror configuration and the managed clients pass their checks, collecting
    the reservations succeeds, in whatever order the clients are visited and in
    whatever state the registry is. *)
Theorem managed_clients_reservable sorted c managed r :
  validateProxyMirrorConfiguration sorted c = None → managed ≡ₚ sorted (ManagedProxyClients c) →
  ∃ v, collectReservations (Some (Mirror c)) r (managed_client <$> managed) = Some v.
Proof.
  intros (_ & _ & Hnd & _ & Hconf)%mirror_configuration_spec Hperm. unfold validateManagedClientConflicts in Hconf.
  destruct (own_all _ _ _) as [o|] eqn:Eo; [|done]. apply own_all_compatible in Eo as [Hc _].
  assert (Hkeys : NoDup (endpoint_keys (MirrorManaged (Mirror c)))).
  { unfold endpoint_keys in Hnd. rewrite bind_app in Hnd. by apply NoDup_app in Hnd as (_ & _ & ?). }
  unfold collectReservations. rewrite collect_entries. apply reserve_all_succeeds; [done| |].
  - eapply compatible_permutation; [|exact Hc]. unfold managed_entries. by rewrite Hperm.
  - apply Forall_forall. intros e _. unfold fits. cbn. split_and!; intros *; by rewrite lookup_empty.
Qed.

(** ** A small configuration *)

Module DemoManaged.
Definition web : ProxyConfig :=
  {| ProxyName := "web"; ProxyKind := ProxyTypeTCP; LocalIP := ""; LocalPort := 80; PublicPort := 9000; PublicDomain := ""; Schemes := [] |}.
Definition site : ProxyConfig :=
  {| ProxyName := "site"; ProxyKind := ProxyTypeHTTP; LocalIP := "127.0.0.1"; LocalPort := 8080; PublicPort := 0;
     PublicDomain := "m.example.com"; Schemes := [] |}.
Definition validated : list ProxyConfig :=
  [web <| LocalIP := "127.0.0.1" |>; site <| Schemes := [HTTPPublicSchemeHTTP] |>].
Definition pair_group : ProxyMirrorGroupConfig :=
  {| MirrorName := "pair"; MirrorType := ProxyTypeTCP; MirrorPublic := [{| Start := 9000; End_ := 9000 |}];
     PrimaryClientID := "m1"; ClientIDs := ["m1"; "m2"] |}.
Definition config : ProxyServerConfig :=
  {| HTTPListenAddress := ":80"; HTTPSListenAddress := ""; Mirror := {| MirrorGoverned := []; MirrorManaged := [pair_group] |};
     GovernedProxyClients := ∅; ManagedProxyClients := {["m1" := validated; "m2" := [web]]} |}.
End DemoManaged.

Lemma managed_proxies_declarable_witness :
  validateProxyDeclarations (H := Dotted.text) (ProxyDeclaration_of <$> DemoManaged.validated) true false = None.
Proof.
  apply (managed_proxies_declarable (H := Dotted.text) [DemoManaged.web; DemoManaged.site] DemoManaged.validated true false).
  - vm_compute. reflexivity.
  - intros p scheme Hp Hk Hs. repeat (apply elem_of_cons in Hp as [->|Hp]); [discriminate| |by apply elem_of_nil in Hp].
    apply elem_of_cons in Hs as [->|Hs]; [done|by apply elem_of_nil in Hs].
Defined.

Lemma mirror_configuration_valid_witness :
  ∃ proxies p, ManagedProxyClients DemoManaged.config !! "m2" = Some proxies ∧
    filter (λ p, ProxyKind p = ProxyTypeTCP ∧ PublicPort p = 9000) proxies = [p].
Proof.
  destruct (mirror_configuration_valid map_to_list DemoManaged.config) as (_ & _ & _ & Hm); [vm_compute; reflexivity|].
  apply (Hm DemoManaged.pair_group); [by left|right; by left|by left].
Defined.

Lemma managed_clients_reservable_witness :
  ∃ v, collectReservations (Some (Mirror DemoManaged.config)) (newRegistry true false)
    (managed_client <$> [("m2", [DemoManaged.web]); ("m1", DemoManaged.validated)]) = Some v.
Proof.
  apply (managed_clients_reservable map_to_list DemoManaged.config); [vm_compute; reflexivity|].
  assert (E : map_to_list (ManagedProxyClients DemoManaged.config) = [("m1", DemoManaged.validated); ("m2", [DemoManaged.web])] ∨
    map_to_list (ManagedProxyClients DemoManaged.config) = [("m2", [DemoManaged.web]); ("m1", DemoManaged.validated)])
    by (vm_compute; auto).
  destruct E as [->| ->]; [apply Permutation_swap|reflexivity].
Defined.
