(* ===== verification/MirrorCopies.v ===== *)
(** * What the members of a mirror group receive

    The steps of [MirrorTcp] keep every copy in step with the input: what a
    member has been sent, what is on its way and what is queued for it is the
    input since it joined.  Nothing is sent on a closed queue and queues are
    bounded.  One branch of [enqueue] is an exception, and the last section
    shows that it can leave a hole in a copy. *)

From S2P Require Import Prelude GoTime NetAddr MirrorTcp.

Local Open Scope Z_scope.

(** ** Definitions *)

(** What the writer has taken from the queue and the connection has not accepted. *)
Definition inflight (pc : WriterPc) : list byte :=
  match pc with WDeadline payload => payload | WWrite rest => rest | _ => [] end.

Definition on_its_way (m : tcpMember) : list byte := inflight (wpc m) ++ concat (queue m).

(** The members the current block still has to be queued for. *)
Definition recipients (pc : ServePc) : list nat :=
  match pc with SFan _ to _ => to | SFanClose _ id rest _ | SFanBlock _ id rest _ _ => id :: rest | _ => [] end.
Definition block (pc : ServePc) : list byte :=
  match pc with SFan payload _ _ | SFanClose payload _ _ _ | SFanBlock payload _ _ _ _ => payload | _ => [] end.
Definition pending (s : TCPSession) (id : nat) : list byte :=
  if bool_decide (id ∈ recipients (spc s)) then block (spc s) else [].

(** The input since a member joined. *)
Definition input_of (s : TCPSession) (m : tcpMember) : list byte := drop (joined m) (log s).

Arguments on_its_way : simpl never.
Arguments input_of : simpl never.
Arguments pending : simpl never.

(** The visitor is not read again. *)
Definition late (pc : ServePc) : bool := match pc with SRead | SSnapshot _ _ => false | _ => true end.
Definition ended (pc : ServePc) : bool :=
  match pc with SCloseQueues _ | SDrain | SExit | SCancel | SJoin | SDone => true | _ => false end.

Definition live (m : tcpMember) : Prop := withheld m = false ∧ m_close m ≠ ConnClosed ∧ wpc m ≠ WDone.

(** The members whose queues are still to be closed. *)
Definition closing (pc : ServePc) : list nat := match pc with SCloseQueues ids => ids | _ => [] end.

Definition tracked (s : TCPSession) (id : nat) (m : tcpMember) : Prop :=
  members s !! ClientID (target m) = Some id ∨ queue_closed m = true ∨ id ∈ closing (spc s).

Definition block_ok (payload : list byte) : Prop := (0 < length payload ≤ mirrorTCPChunkSize)%nat.

Record member_ok (s : TCPSession) (id : nat) (m : tcpMember) : Prop := {
  mo_id : (id < next_id s)%nat;
  mo_joined : (joined m ≤ length (log s))%nat;
  mo_queue_closed : queue_closed m = true → closed s = true;
  mo_withheld : withheld m = true → stopped m = true;
  mo_done : wpc m = WDone → half_closed m = true ∨ stopped m = true;
  mo_exact : live m → tracked s id m →
    written m ++ on_its_way m ++ pending s id = input_of s m ∨ cancelled s = true ∧ late (spc s) = true;
  mo_prefix : live m → (written m ++ on_its_way m ++ pending s id) `prefix_of` input_of s m;
  mo_written : withheld m = false → written m `prefix_of` input_of s m;
  mo_half : half_closed m = true → queue_closed m = true ∧ queue m = [] ∧ wpc m = WDone;
  mo_complete : half_closed m = true → withheld m = false → written m = input_of s m ∨ cancelled s = true;
  mo_bound : (length (queue m) ≤ mirrorTCPQueueDepth)%nat ∧ Forall block_ok (queue m)
}.

Record copies_ok (s : TCPSession) : Prop := {
  co_member : ∀ id m, heap s !! id = Some m → member_ok s id m;
  co_members : ∀ c id, members s !! c = Some id → ∃ m, heap s !! id = Some m ∧ ClientID (target m) = c;
  co_recipients : NoDup (recipients (spc s)) ∧ ∀ id, id ∈ recipients (spc s) → is_Some (heap s !! id);
  co_block : ∀ id, id ∈ recipients (spc s) → block_ok (block (spc s));
  co_snapshot : ∀ payload e, spc s = SSnapshot payload e → block_ok payload;
  co_closed : closed s = true → ended (spc s) = true;
  co_queues : ∀ ids, spc s = SCloseQueues ids → closed s = true ∧ NoDup ids ∧
    ∀ id, id ∈ ids → ∃ m, heap s !! id = Some m ∧ queue_closed m = false;
  co_panic : panicked s = false
}.

(** ** Steps that leave the copies alone *)

Record quiet_member (m m' : tcpMember) : Prop := {
  qm_target : target m' = target m;
  qm_queue : queue m' = queue m;
  qm_queue_closed : queue_closed m' = queue_closed m;
  qm_half : half_closed m' = half_closed m;
  qm_wpc : wpc m' = wpc m;
  qm_joined : joined m' = joined m;
  qm_written : written m' = written m;
  qm_withheld : withheld m' = withheld m;
  qm_stopped : stopped m = true → stopped m' = true;
  qm_conn : m_close m = ConnClosed → m_close m' = ConnClosed
}.

Lemma quiet_refl m : quiet_member m m.
Proof. by constructor. Qed.

Lemma quiet_trans m m' m'' : quiet_member m m' → quiet_member m' m'' → quiet_member m m''.
Proof. intros [] []. constructor; try congruence; auto. Qed.

Lemma close_quiet m : quiet_member m (close m).
Proof. unfold close, stopped. destruct (m_close m) eqn:E; constructor; cbn; rewrite ?E; done. Qed.

Lemma role_quiet s ok m : quiet_member m (updateMemberRoleLocked s ok m).
Proof.
  unfold updateMemberRoleLocked. destruct ok.
  - by constructor.
  - eapply quiet_trans; [apply close_quiet|]. by constructor.
Qed.

Record quiet (s s' : TCPSession) : Prop := {
  q_log : log s' = log s;
  q_recipients : recipients (spc s') = recipients (spc s);
  q_block : block (spc s') = block (spc s);
  q_late : late (spc s') = late (spc s);
  q_ended : ended (spc s') = ended (spc s);
  q_closing : closing (spc s') = closing (spc s);
  q_queues ids : spc s' = SCloseQueues ids → spc s = SCloseQueues ids;
  q_snapshot payload e : spc s' = SSnapshot payload e → spc s = SSnapshot payload e;
  q_closed : closed s' = closed s;
  q_panicked : panicked s' = panicked s;
  q_cancelled : cancelled s = true → cancelled s' = true;
  q_next : (next_id s ≤ next_id s')%nat;
  q_keep id m : heap s !! id = Some m → ∃ m', heap s' !! id = Some m' ∧ quiet_member m m';
  q_heap id m' : heap s' !! id = Some m' →
    (∃ m, heap s !! id = Some m ∧ quiet_member m m') ∨
    id = next_id s ∧ next_id s' = S id ∧ closed s = false ∧ ∃ t, m' = new_member t (length (log s));
  q_members c id : members s' !! c = Some id →
    members s !! c = Some id ∨ ∃ m', heap s' !! id = Some m' ∧ ClientID (target m') = c ∧ id = next_id s
}.

Lemma pending_quiet s s' id : quiet s s' → pending s' id = pending s id.
Proof. intros Q. unfold pending. by rewrite (q_recipients _ _ Q), (q_block _ _ Q). Qed.

Lemma fresh_not_recipient s : copies_ok s → next_id s ∉ recipients (spc s).
Proof.
  intros I Hin. destruct (proj2 (co_recipients _ I) _ Hin) as [m Hm]. pose proof (mo_id _ _ _ (co_member _ I _ _ Hm)). lia.
Qed.

Lemma new_member_ok s s' t : copies_ok s → quiet s s' → next_id s' = S (next_id s) →
  member_ok s' (next_id s) (new_member t (length (log s))).
Proof.
  intros I Q Hn.
  assert (Ep : pending s' (next_id s) = []).
  { rewrite (pending_quiet _ _ _ Q). unfold pending. by rewrite bool_decide_eq_false_2 by by apply fresh_not_recipient. }
  assert (Ei : input_of s' (new_member t (length (log s))) = []).
  { unfold input_of. cbn. rewrite (q_log _ _ Q). apply drop_all. }
  constructor; cbn; rewrite ?Ep, ?Ei, ?(q_log _ _ Q); try done; try lia.
  - intros _ _. by left.
  - split; [lia|constructor].
Qed.

Lemma quiet_member_ok s s' id m m' : copies_ok s → quiet s s' → heap s !! id = Some m → quiet_member m m' → member_ok s' id m'.
Proof.
  intros I Q Hm QM. pose proof (co_member _ I _ _ Hm) as M.
  assert (Ew : on_its_way m' = on_its_way m) by (unfold on_its_way; by rewrite (qm_wpc _ _ QM), (qm_queue _ _ QM)).
  assert (Ei : input_of s' m' = input_of s m) by (unfold input_of; by rewrite (q_log _ _ Q), (qm_joined _ _ QM)).
  assert (El : live m' → live m).
  { intros (H1 & H2 & H3). split_and!; [by rewrite <- (qm_withheld _ _ QM)| |by rewrite <- (qm_wpc _ _ QM)].
    intros H. by apply H2, (qm_conn _ _ QM). }
  constructor; rewrite ?(pending_quiet _ _ _ Q), ?Ew, ?Ei, ?(q_log _ _ Q), ?(q_closed _ _ Q), ?(q_late _ _ Q),
    ?(qm_queue _ _ QM), ?(qm_queue_closed _ _ QM), ?(qm_half _ _ QM), ?(qm_wpc _ _ QM), ?(qm_joined _ _ QM),
    ?(qm_written _ _ QM), ?(qm_withheld _ _ QM); try apply M.
  - pose proof (mo_id _ _ _ M). pose proof (q_next _ _ Q). lia.
  - intros H. by apply (qm_stopped _ _ QM), M.
  - intros H. destruct (mo_done _ _ _ M H); [by left|right; by apply (qm_stopped _ _ QM)].
  - intros L T. destruct (mo_exact _ _ _ M (El L)) as [?|[? ?]]; [|by left|right; split; [by apply (q_cancelled _ _ Q)|done]].
    destruct T as [T|T]; [|right; by rewrite <- (qm_queue_closed _ _ QM), <- (q_closing _ _ Q)]. rewrite (qm_target _ _ QM) in T.
    destruct (q_members _ _ Q _ _ T) as [?|(m'' & ? & ? & Hf)]; [by left|].
    pose proof (mo_id _ _ _ M). lia.
  - intros L. by apply (mo_prefix _ _ _ M), El.
  - intros H1 H2. destruct (mo_complete _ _ _ M H1 H2); [by left|right; by apply (q_cancelled _ _ Q)].
Qed.

Lemma quiet_copies s s' : copies_ok s → quiet s s' → copies_ok s'.
Proof.
  intros I Q. constructor.
  - intros id m' Hm'. destruct (q_heap _ _ Q _ _ Hm') as [(m & Hm & QM)|(-> & Hn & _ & t & ->)].
    + by eapply quiet_member_ok.
    + by apply new_member_ok.
  - intros c id Hc. destruct (q_members _ _ Q _ _ Hc) as [Hc'|(m' & ? & ? & _)]; [|eauto].
    destruct (co_members _ I _ _ Hc') as (m & Hm & Ht). destruct (q_keep _ _ Q _ _ Hm) as (m' & Hm' & QM).
    exists m'. by rewrite (qm_target _ _ QM).
  - rewrite (q_recipients _ _ Q). split; [apply I|]. intros id Hid.
    destruct (proj2 (co_recipients _ I) _ Hid) as [m Hm]. destruct (q_keep _ _ Q _ _ Hm) as (m' & ? & _). by exists m'.
  - intros id. rewrite (q_recipients _ _ Q), (q_block _ _ Q). apply I.
  - intros payload e H%(q_snapshot _ _ Q). by eapply co_snapshot.
  - rewrite (q_closed _ _ Q), (q_ended _ _ Q). apply I.
  - intros ids Hs%(q_queues _ _ Q). destruct (co_queues _ I _ Hs) as (? & ? & Hq). rewrite (q_closed _ _ Q). split_and!; try done.
    intros id Hid. destruct (Hq _ Hid) as (m & Hm & Hf). destruct (q_keep _ _ Q _ _ Hm) as (m' & ? & QM).
    exists m'. by rewrite (qm_queue_closed _ _ QM).
  - by rewrite (q_panicked _ _ Q), (co_panic _ I).
Qed.

(** Updates of one member, and of fields that do not matter here. *)
Lemma heap_on_member id f s id' :
  heap (on_member id f s) !! id' = if decide (id = id') then f <$> heap s !! id' else heap s !! id'.
Proof. unfold on_member. cbn. rewrite lookup_alter. case_decide; by subst. Qed.

Lemma quiet_on_member id f s : (∀ m, heap s !! id = Some m → quiet_member m (f m)) → quiet s (on_member id f s).
Proof.
  intros Hf. constructor; try done.
  - intros id' m Hm. rewrite heap_on_member, Hm. case_decide; subst; cbn; eexists; (split; [done|]); [by apply Hf|apply quiet_refl].
  - intros id' m'. rewrite heap_on_member. case_decide; subst; [|intros ?; left; eexists; split; [done|apply quiet_refl]].
    destruct (heap s !! id') as [m|] eqn:E; [|done]. intros [= <-]. left. exists m. split; [done|by apply Hf].
  - intros c id' Hc. by left.
Qed.


(** The fields the copies depend on. *)
Record same (s s' : TCPSession) : Prop := {
  same_heap : heap s' = heap s;
  same_members : members s' = members s;
  same_log : log s' = log s;
  same_spc : spc s' = spc s;
  same_closed : closed s' = closed s;
  same_panicked : panicked s' = panicked s;
  same_next : next_id s' = next_id s;
  same_cancelled : cancelled s = true → cancelled s' = true
}.

Lemma quiet_of_same s s' : same s s' → quiet s s'.
Proof.
  intros [Eh Em El Es Ec Ep En Hc]. constructor; rewrite ?Eh, ?Em, ?El, ?Es, ?Ec, ?Ep, ?En; try done; eauto using quiet_refl.
Qed.

Lemma same_quiet s s0 s' : same s s0 → quiet s0 s' → quiet s s'.
Proof.
  intros [Eh Em El Es Ec Ep En Hc] []. constructor; rewrite <- ?Eh, <- ?Em, <- ?El, <- ?Es, <- ?Ec, <- ?Ep, <- ?En; auto.
Qed.

Lemma quiet_same s s0 s' : quiet s s0 → same s0 s' → quiet s s'.
Proof.
  intros [] [Eh Em El Es Ec Ep En Hc]. constructor; rewrite ?Eh, ?Em, ?El, ?Es, ?Ec, ?Ep, ?En; auto.
Qed.

Lemma quiet_reader id f s s0 : same s s0 → (∀ m, heap s !! id = Some m → quiet_member m (f m)) → quiet s (on_member id f s0).
Proof.
  intros Hs Hf. eapply same_quiet; [done|]. apply quiet_on_member. intros m. rewrite (same_heap _ _ Hs). apply Hf.
Qed.

Lemma reader_goto_quiet id pc s s0 : same s s0 → quiet s (reader_goto id pc s0).
Proof. intros Hs. apply quiet_reader; [done|]. intros m _. by constructor. Qed.

Lemma reader_fail_quiet id s s0 : same s s0 → quiet s (reader_fail id s0).
Proof.
  intros Hs. apply quiet_reader; [done|]. intros m _. eapply quiet_trans; [apply close_quiet|]. by constructor.
Qed.

Lemma reader_quiet id c s s' : reader_step id c s = Some s' → quiet s s'.
Proof.
  unfold reader_step, acquireResponse. intros H.
  repeat case_match; simplify_eq; first [apply reader_goto_quiet | apply reader_fail_quiet]; by constructor.
Qed.

Lemma update_roles_quiet failing s : quiet s (update_roles failing s).
Proof.
  constructor; try done.
  - intros id m Hm. cbn. rewrite map_lookup_imap, Hm. cbn. eexists. split; [done|].
    case_match; [apply role_quiet|apply quiet_refl].
  - intros id m'. cbn. rewrite map_lookup_imap. destruct (heap s !! id) as [m|] eqn:Em; [|done]. cbn. intros [= <-].
    left. exists m. split; [done|]. case_match; [apply role_quiet|apply quiet_refl].
  - intros c id Hc. by left.
Qed.

Lemma set_primary_quiet clientID failing ok s : quiet s (SetPrimary clientID failing ok s).
Proof.
  unfold SetPrimary. case_match; [by apply quiet_of_same|].
  eapply same_quiet; [|eapply quiet_same; [apply (update_roles_quiet failing)|]]; cycle 1.
  - repeat case_match; by constructor.
  - by constructor.
Qed.

(** Workers and their table do not matter. *)
Lemma quiet_next s s' : heap s' = heap s → members s' = members s → log s' = log s → spc s' = spc s →
  closed s' = closed s → panicked s' = panicked s → (next_id s ≤ next_id s')%nat → cancelled s' = cancelled s → quiet s s'.
Proof.
  intros Eh Em El Es Ec Ep En Ex. constructor; rewrite ?Eh, ?Em, ?El, ?Es, ?Ec, ?Ep, ?Ex; try done; eauto using quiet_refl.
Qed.

Lemma add_target_fields t s : let s' := (AddTarget t s).1 in
  heap s' = heap s ∧ members s' = members s ∧ log s' = log s ∧ spc s' = spc s ∧
  closed s' = closed s ∧ panicked s' = panicked s ∧ (next_id s ≤ next_id s')%nat ∧ cancelled s' = cancelled s.
Proof.
  unfold AddTarget. repeat case_match; cbn; split_and!; try done; lia.
Qed.

Lemma add_target_quiet t s : quiet s (AddTarget t s).1.
Proof. destruct (add_target_fields t s) as (? & ? & ? & ? & ? & ? & ? & ?). by apply quiet_next. Qed.

Lemma add_connection_quiet t s s' r : addConnection t s = (s', r) → heap s !! next_id s = None → quiet s s'.
Proof.
  unfold addConnection. destruct (closed s) eqn:Ec; intros [= <- <-] Hn; [by apply quiet_of_same|].
  constructor; try done; cbn; [lia| | |].
  - intros id m Hm. exists m. rewrite lookup_insert_ne by congruence. split; [done|apply quiet_refl].
  - intros id m'. rewrite lookup_insert. case_decide; subst.
    + intros [= <-]. right. eauto.
    + intros Hm. left. exists m'. split; [done|apply quiet_refl].
  - intros c id. rewrite lookup_insert. case_decide; subst; [|by left]. intros [= <-]. right.
    eexists. rewrite lookup_insert_eq. eauto.
Qed.

Lemma forget_worker_same w k s : same s (forget_worker w k s).
Proof. unfold forget_worker. case_match; by constructor. Qed.

Lemma on_worker_quiet w f s s0 : quiet s s0 → quiet s (on_worker w f s0).
Proof. intros Q. eapply quiet_same; [done|]. by constructor. Qed.

Lemma close_member_quiet id s : quiet s (on_member id close s).
Proof. apply quiet_on_member. intros m _. apply close_quiet. Qed.

Lemma delete_member_quiet c s : quiet s (s <| members := delete c (members s) |>).
Proof.
  constructor; try done; cbn; eauto using quiet_refl. intros c' id. rewrite lookup_delete. case_decide; [done|by left].
Qed.

Lemma worker_quiet w c s s' : worker_step w c s = Some s' → heap s !! next_id s = None → quiet s s'.
Proof.
  unfold worker_step, when, worker_goto. intros H Hn.
  repeat (case_match; try done); simplify_eq;
    try (apply on_worker_quiet; first
      [ apply quiet_of_same; first [by constructor | apply forget_worker_same]
      | apply close_member_quiet | apply delete_member_quiet ]).
  all: apply on_worker_quiet; by eapply add_connection_quiet.
Qed.

Definition is_copy_step (a : Action) : bool := match a with ServeStep _ | WriterStep _ _ => true | _ => false end.

Section steps.
Context (ρ : go_range string nat).

Lemma step_quiet a s s' : step ρ a s = Some s' → is_copy_step a = false → heap s !! next_id s = None → quiet s s'.
Proof.
  intros H Ha Hn. destruct a; try done; cbn in H; unfold when in H.
  - simplify_eq. by apply quiet_of_same.
  - simplify_eq. apply set_primary_quiet.
  - simplify_eq. apply add_target_quiet.
  - case_match; simplify_eq. bool_to_prop.
    constructor; cbn; try done; match goal with E : spc s = SIdle |- _ => rewrite ?E end; eauto using quiet_refl.
  - simplify_eq. by apply quiet_of_same.
  - by eapply reader_quiet.
  - by eapply worker_quiet.
  - unfold member_is in H. repeat case_match; simplify_eq. apply quiet_on_member. intros m Hm. simplify_eq. bool_to_prop.
    unfold stopped. constructor; cbn; try done.
  - case_match; simplify_eq. by apply quiet_of_same.
  - repeat case_match; simplify_eq. apply close_member_quiet.
  - repeat case_match; simplify_eq. apply close_member_quiet.
Qed.
End steps.

(** ** Writers *)

Lemma member_ok_ext s s' id m : next_id s' = next_id s → log s' = log s → closed s' = closed s → members s' = members s →
  recipients (spc s') = recipients (spc s) → block (spc s') = block (spc s) → late (spc s') = late (spc s) →
  closing (spc s') = closing (spc s) → cancelled s' = cancelled s → member_ok s id m → member_ok s' id m.
Proof.
  intros En El Ec Em Er Eb Ea Eg Ex M.
  assert (Ep : pending s' id = pending s id) by (unfold pending; by rewrite Er, Eb).
  assert (Ei : input_of s' m = input_of s m) by (unfold input_of; by rewrite El).
  constructor; unfold tracked; rewrite ?En, ?Ec, ?Em, ?Ea, ?Eg, ?Ex, ?Ep, ?Ei, ?El; apply M.
Qed.

Lemma on_member_ok s id f : copies_ok s →
  (∀ m, heap s !! id = Some m → member_ok s id m →
     target (f m) = target m ∧ queue_closed (f m) = queue_closed m ∧ member_ok s id (f m)) →
  copies_ok (on_member id f s).
Proof.
  intros I Hf.
  assert (Hl : ∀ id' m, heap s !! id' = Some m → ∃ m', heap (on_member id f s) !! id' = Some m' ∧
    target m' = target m ∧ queue_closed m' = queue_closed m ∧ member_ok s id' m').
  { intros id' m Hm. pose proof (co_member _ I _ _ Hm). rewrite heap_on_member, Hm. case_decide; subst; cbn; eauto. }
  constructor; try apply I.
  - intros id' m' Hm'. apply (member_ok_ext s); try done. rewrite heap_on_member in Hm'. case_decide; [subst|by apply I].
    destruct (heap s !! id') as [m|] eqn:Em; [|done]. cbn in Hm'. injection Hm' as <-. by apply Hf, I.
  - intros c id' Hc. destruct (co_members _ I _ _ Hc) as (m & Hm & <-). destruct (Hl _ _ Hm) as (m' & ? & Et & _).
    exists m'. by rewrite Et.
  - split; [apply I|]. intros id' Hid. destruct (proj2 (co_recipients _ I) _ Hid) as [m Hm].
    destruct (Hl _ _ Hm) as (m' & ? & _). by exists m'.
  - intros ids Hs. destruct (co_queues _ I _ Hs) as (Hc & Hnd & Hq). split_and!; [done..|]. intros id' Hid.
    destruct (Hq _ Hid) as (m & Hm & Hf'). destruct (Hl _ _ Hm) as (m' & ? & _ & Eq & _). exists m'. by rewrite Eq.
Qed.

Lemma close_stopped m : stopped (close m) = true.
Proof. unfold close, stopped. by destruct (m_close m) eqn:E; cbn; rewrite ?E. Qed.

(** A writer that gives up. *)
Lemma finish_write_ok s id m m' : member_ok s id m → wpc m ≠ WDone → quiet_member m m' → stopped m' = true →
  member_ok s id (m' <| wpc := WDone |>).
Proof.
  intros M Hw QM Hs.
  assert (Hh : half_closed m = true → False) by (intros Hh; apply Hw, (mo_half _ _ _ M Hh)).
  assert (Ei : input_of s (m' <| wpc := WDone |>) = input_of s m) by (unfold input_of; cbn; by rewrite (qm_joined _ _ QM)).
  constructor; rewrite ?Ei; cbn; rewrite ?(qm_queue _ _ QM), ?(qm_queue_closed _ _ QM), ?(qm_half _ _ QM),
    ?(qm_joined _ _ QM), ?(qm_written _ _ QM), ?(qm_withheld _ _ QM); try apply M; try done.
  - intros _. by right.
  - by intros (_ & _ & ?).
  - by intros (_ & _ & ?).
Qed.

(** A writer that moves bytes along. *)
Lemma advance_ok s id m m' : member_ok s id m → wpc m ≠ WDone → wpc m' ≠ WDone → (queue m' = queue m ∨ queue m' = tail (queue m)) →
  target m' = target m → queue_closed m' = queue_closed m → m_close m' = m_close m → half_closed m' = half_closed m →
  joined m' = joined m → withheld m' = withheld m →
  written m' ++ on_its_way m' = written m ++ on_its_way m →
  (m_close m ≠ ConnClosed ∨ written m' = written m) → member_ok s id m'.
Proof.
  intros M Hw Hw' Hq Et Ec Em Eh Ej Ew Er Hc.
  assert (Ei : input_of s m' = input_of s m) by (unfold input_of; by rewrite Ej).
  assert (El : live m' → live m) by (unfold live; by rewrite Ew, Em; intros (? & ? & _)).
  assert (Hh : half_closed m = true → False) by (intros Hh; apply Hw, (mo_half _ _ _ M Hh)).
  constructor; rewrite ?Ei, ?Ec, ?Ej, ?Ew, ?Eh, ?Em; try apply M; try done.
  - unfold stopped. rewrite Em. apply M.
  - unfold tracked. rewrite Et, Ec. intros L T. rewrite (app_assoc (written m')), Er, <- app_assoc. by apply (mo_exact _ _ _ M); [apply El|].
  - intros L. rewrite (app_assoc (written m')), Er, <- app_assoc. by apply (mo_prefix _ _ _ M), El.
  - intros Hf. destruct Hc as [Hc| ->]; [|by apply M].
    etrans; [|apply (mo_prefix _ _ _ M)]; [|by split_and!]. rewrite app_assoc, <- Er, <- app_assoc. by apply prefix_app_r.
  - destruct (mo_bound _ _ _ M) as [Hl Hb]. destruct Hq as [->| ->]; [done|].
    destruct (queue m); [done|]. cbn in *. split; [lia|by inversion Hb].
Qed.

(** The queue is closed and empty: the copy is complete. *)
Lemma half_ok s id m : copies_ok s → member_ok s id m → wpc m = WSelect → queue m = [] → queue_closed m = true →
  m_close m ≠ ConnClosed → member_ok s id (m <| half_closed := true |> <| wpc := WDone |>).
Proof.
  intros I M Hw Hq Hc Hm.
  assert (Hr : recipients (spc s) = []).
  { pose proof (co_closed _ I (mo_queue_closed _ _ _ M Hc)). by destruct (spc s). }
  assert (Hp : pending s id = []) by (unfold pending; by rewrite Hr).
  constructor; cbn; try apply M; try done.
  - intros _. by left.
  - by intros (_ & _ & ?).
  - by intros (_ & _ & ?).
  - intros _ Hf. assert (L : live m) by (split_and!; try done; by rewrite Hw).
    destruct (mo_exact _ _ _ M L (or_intror (or_introl Hc))) as [E|[? _]]; [left|by right]. unfold on_its_way in E. rewrite Hw, Hq, Hp in E. cbn in E. by rewrite !app_nil_r in E.
Qed.

Lemma writer_ok id c s s' : copies_ok s → writer_step id c s = Some s' → copies_ok s'.
Proof.
  intros I. unfold writer_step. destruct (heap s !! id) as [m|] eqn:Em; [|done]. intros H.
  repeat (case_match; try done); simplify_eq; apply on_member_ok; try done; intros m0 Hm0 M; simplify_eq; bool_to_prop;
    try (split_and!; [by destruct (close_quiet m)|by destruct (close_quiet m)|];
         eapply finish_write_ok; [done|congruence|apply close_quiet|apply close_stopped]);
    (split_and!; [done|done|]);
    try (eapply advance_ok; try done; cbn; try congruence; unfold on_its_way; cbn;
         repeat match goal with E : wpc _ = _ |- _ => rewrite E | E : queue _ = _ |- _ => rewrite E end; auto; fail).
  - eapply finish_write_ok; [done|congruence|apply quiet_refl|done].
  - by apply half_ok.
  - eapply advance_ok; try done; cbn; try congruence; auto. unfold on_its_way.
    match goal with E : wpc _ = _, R : rest = [] |- _ => by rewrite E, R end.
  - eapply advance_ok; try done; cbn; try congruence; auto. unfold on_its_way. cbn.
    match goal with E : wpc _ = _ |- _ => rewrite E end. cbn. by rewrite <- app_assoc, (app_assoc (take n rest)), take_drop.
Qed.

(** ** Serve *)

Lemma pending_none s id : recipients (spc s) = [] → pending s id = [].
Proof. unfold pending. by intros ->. Qed.

(** [Serve] goes on where no block is being handed out; [c]: the input ends. *)
Lemma goto_ok pc s c : copies_ok s → recipients (spc s) = [] → recipients pc = [] →
  late pc = true ∨ late (spc s) = false ∨ cancelled s = false →
  (c || closed s = true → ended pc = true) → (∀ payload e, pc = SSnapshot payload e → block_ok payload) →
  (∀ ids, pc = SCloseQueues ids → closed s = false ∧ c = true ∧ NoDup ids ∧ ∀ id, id ∈ ids → ∃ c, members s !! c = Some id) →
  copies_ok (serve_goto pc (s <| closed := c || closed s |>)).
Proof.
  intros I Hr Hr' Hl Hc Hs Hq. set (s' := serve_goto _ _).
  assert (Er : recipients (spc s') = []) by done.
  constructor; rewrite ?Er; try apply I; try done.
  - intros id m Hm. change (heap s') with (heap s) in Hm. pose proof (co_member _ I _ _ Hm) as M.
    assert (Ep : pending s' id = pending s id) by (by rewrite !pending_none).
    constructor; rewrite ?Ep; try apply M; change (closed s') with (c || closed s).
    { intros H%(mo_queue_closed _ _ _ M). by rewrite H, orb_true_r. }
    intros L T.
    assert (T' : tracked s id m).
    { destruct T as [T|[T|T]]; [by left|right; by left|]. left. cbn in T. destruct pc; try by apply elem_of_nil in T.
      destruct (Hq _ eq_refl) as (_ & _ & _ & Hp). destruct (Hp _ T) as [cl Hcl].
      destruct (co_members _ I _ _ Hcl) as (m' & Hm' & <-). by simplify_eq. }
    destruct (mo_exact _ _ _ M L T') as [E|[Hx Hla]]; [left; exact E|right]. split; [done|].
    change (late pc = true). destruct Hl as [?|[Hl|Hl]]; [done|congruence|congruence].
  - split; [constructor|]. by intros id ?%elem_of_nil.
  - by intros id ?%elem_of_nil.
  - intros ids Hi. destruct (Hq _ Hi) as (Hf & -> & ? & Hp). split_and!; try done. intros id Hid.
    destruct (Hp _ Hid) as [cl Hcl]. destruct (co_members _ I _ _ Hcl) as (m & Hm & _). exists m. split; [done|].
    destruct (queue_closed m) eqn:E; [|done]. apply (mo_queue_closed _ _ _ (co_member _ I _ _ Hm)) in E. congruence.
Qed.

Lemma goto_plain pc s : copies_ok s → recipients (spc s) = [] → recipients pc = [] → closing pc = [] →
  late pc = true ∨ late (spc s) = false ∨ cancelled s = false → ended (spc s) = false ∨ ended pc = true →
  (∀ payload e, pc = SSnapshot payload e → block_ok payload) → (∀ ids, pc ≠ SCloseQueues ids) → copies_ok (serve_goto pc s).
Proof.
  intros I Hr Hr' Hg Hl He Hs Hq. replace s with (s <| closed := false || closed s |>) by (by destruct s).
  apply goto_ok; try done; [|intros ids ->; by destruct (Hq ids)]. cbn. intros Hc. apply (co_closed _ I) in Hc. naive_solver congruence.
Qed.

Lemma tracked_less s s' id m : members s' = members s → closing (spc s') = [] → tracked s' id m → tracked s id m.
Proof. unfold tracked. intros -> ->. rewrite elem_of_nil. naive_solver. Qed.

(** One recipient less. *)
Lemma deliver_ok s s' id rest payload e : copies_ok s → recipients (spc s) = id :: rest → block (spc s) = payload →
  closed s = false → spc s' = SFan payload rest e → log s' = log s → members s' = members s → closed s' = closed s →
  cancelled s' = cancelled s → next_id s' = next_id s → panicked s' = panicked s →
  (∀ id', id' ≠ id → heap s' !! id' = heap s !! id') →
  (∀ m, heap s !! id = Some m → ∃ m', heap s' !! id = Some m' ∧ target m' = target m ∧
     (pending s' id = [] → pending s id = payload → member_ok s' id m')) →
  copies_ok s'.
Proof.
  intros I Hr Hb Hc Es El Em Ec Ex En Ep Hother Hid.
  destruct (co_recipients _ I) as [Hnd Hex]. rewrite Hr in Hnd, Hex. apply NoDup_cons in Hnd as [Hin Hnd].
  assert (Ep' : ∀ id', id' ≠ id → pending s' id' = pending s id').
  { intros id' Hne. unfold pending. rewrite Es, Hr, Hb. cbn. erewrite bool_decide_ext; [done|]. rewrite elem_of_cons. naive_solver. }
  assert (Ep1 : pending s' id = []) by (unfold pending; by rewrite Es, bool_decide_eq_false_2).
  assert (Ep2 : pending s id = payload).
  { unfold pending. rewrite Hr, Hb. by rewrite bool_decide_eq_true_2 by by left. }
  assert (Hla : late (spc s) = true) by (by destruct (spc s)).
  assert (Hl : ∀ id' m, heap s !! id' = Some m → ∃ m', heap s' !! id' = Some m' ∧ target m' = target m ∧ member_ok s' id' m').
  { intros id' m Hm. destruct (decide (id' = id)) as [->|Hne].
    { destruct (Hid _ Hm) as (m' & ? & ? & ?). eauto 10. }
    exists m. rewrite Hother by done. split_and!; try done. pose proof (co_member _ I _ _ Hm) as M.
    assert (Ei : input_of s' m = input_of s m) by (unfold input_of; by rewrite El).
    constructor; rewrite ?En, ?Ec, ?Ex, ?(Ep' _ Hne), ?Ei, ?El, ?Es; try apply M.
    intros L T%(tracked_less s); [|done|by rewrite Es]. destruct (mo_exact _ _ _ M L T) as [?|[? _]]; auto. }
  constructor; rewrite ?Es, ?Ec, ?Ep, ?Em; try done; try congruence.
  - intros id' m' Hm'. destruct (heap s !! id') as [m|] eqn:E.
    + destruct (Hl _ _ E) as (m'' & E' & _ & ?). congruence.
    + destruct (decide (id' = id)) as [->|Hne]; [|rewrite Hother in Hm' by done; congruence].
      destruct (Hex id) as [? ?]; [by left|congruence].
  - intros c id' Hc'. destruct (co_members _ I _ _ Hc') as (m & Hm & <-). destruct (Hl _ _ Hm) as (m' & ? & Et & _).
    exists m'. by rewrite Et.
  - split; [done|]. intros id' Hid'. destruct (Hex id') as [m Hm]; [by right|]. destruct (Hl _ _ Hm) as (m' & ? & _). by exists m'.
  - intros id' Hid'. cbn. rewrite <- Hb. apply (co_block _ I id'). rewrite Hr. by right.
  - apply I.
Qed.

Lemma not_closed s : copies_ok s → ended (spc s) = false → closed s = false.
Proof. intros I He. destruct (closed s) eqn:E; [|done]. apply (co_closed _ I) in E. congruence. Qed.

Lemma open_queue s id m : copies_ok s → heap s !! id = Some m → ended (spc s) = false → queue_closed m = false ∧ half_closed m = false.
Proof.
  intros I Hm He. pose proof (co_member _ I _ _ Hm) as M. pose proof (not_closed _ I He) as Hc.
  assert (Hq : queue_closed m = false) by (destruct (queue_closed m) eqn:E; [apply (mo_queue_closed _ _ _ M) in E; congruence|done]).
  split; [done|]. destruct (half_closed m) eqn:E; [|done]. destruct (mo_half _ _ _ M E). congruence.
Qed.

(** The block is queued. *)
Lemma send_ok s id rest payload e m : copies_ok s → recipients (spc s) = id :: rest → block (spc s) = payload →
  heap s !! id = Some m → has_room m = true → copies_ok (serve_goto (SFan payload rest e) (send id payload s)).
Proof.
  intros I Hr Hb Hm Hroom. assert (He : ended (spc s) = false) by (by destruct (spc s)).
  destruct (open_queue _ _ _ I Hm He) as [Hq Hh]. unfold send, member_is. rewrite Hm, Hq.
  assert (Hp : block_ok payload) by (rewrite <- Hb; apply (co_block _ I id); rewrite Hr; by left).
  pose proof (co_member _ I _ _ Hm) as M. unfold has_room in Hroom. bool_to_prop.
  eapply deliver_ok; try done; [by apply not_closed| |].
  { intros id' Hne. cbn. by rewrite lookup_alter_ne. }
  intros m0 Hm0. assert (m0 = m) as -> by congruence. exists (m <| queue := queue m ++ [payload] |>).
  split; [cbn; by rewrite lookup_alter_eq, Hm|]. split; [done|]. intros Ep' Ep.
  assert (Ew : on_its_way (m <| queue := queue m ++ [payload] |>) = on_its_way m ++ pending s id).
  { unfold on_its_way. cbn. rewrite concat_app, Ep, <- app_assoc. cbn. by rewrite app_nil_r. }
  constructor; rewrite ?Ep', ?Ew, ?app_nil_r; try apply M; cbn; try congruence.
  - intros L T%(tracked_less s); [|done|done]. destruct (mo_exact _ _ _ M L T) as [E|[Hx _]]; auto.
  - rewrite length_app. cbn. destruct (mo_bound _ _ _ M) as [_ Hbs]. split; [lia|]. apply Forall_app. by split; [|constructor].
Qed.

(** The block is dropped for a member that is being closed, or with the session. *)
Lemma skip_ok s id rest payload e f : copies_ok s → recipients (spc s) = id :: rest → block (spc s) = payload →
  (∀ m, heap s !! id = Some m → f m = m ∧ (m_close m = ConnClosed ∨ cancelled s = true) ∨
                                f m = m <| withheld := true |> ∧ stopped m = true) →
  copies_ok (serve_goto (SFan payload rest e) (on_member id f s)).
Proof.
  intros I Hr Hb Hf. assert (He : ended (spc s) = false) by (by destruct (spc s)).
  eapply deliver_ok; try done; [by apply not_closed| |].
  { intros id' Hne. cbn. by rewrite lookup_alter_ne. }
  intros m Hm. exists (f m). cbn. rewrite lookup_alter_eq, Hm. split; [done|].
  pose proof (co_member _ I _ _ Hm) as M. destruct (open_queue _ _ _ I Hm He) as [Hq Hh].
  destruct (Hf _ Hm) as [[-> Hd]|[-> Hs]]; (split; [done|]); intros Ep' Ep.
  - constructor; rewrite ?Ep', ?app_nil_r; try apply M; cbn.
    + intros L T. destruct Hd as [Hd|Hd]; [by destruct L as (_ & ? & _)|auto].
    + intros L. etrans; [|by apply (mo_prefix _ _ _ M)]. rewrite app_assoc. by apply prefix_app_r.
  - constructor; try apply M; cbn; try done; try (by intros (? & _ & _)); try congruence.
Qed.

(** A block is read: every member gets it. *)
Section fan.
Context (ρ : go_range string nat).

Lemma snapshot_spec s id : id ∈ snapshotMembers ρ s ↔ ∃ c, members s !! c = Some id.
Proof.
  unfold snapshotMembers. rewrite list_elem_of_fmap. split.
  - intros ([c id'] & -> & Hin). exists c. by apply range_elem in Hin.
  - intros [c Hc]. exists (c, id). by rewrite range_elem.
Qed.

Lemma snapshot_NoDup s : copies_ok s → NoDup (snapshotMembers ρ s).
Proof.
  intros I. unfold snapshotMembers. apply NoDup_fmap_2_strong; [|apply (NoDup_fmap_1 fst), range_NoDup].
  intros [c id] [c' id'] H1 H2 E. cbn in E. subst id'. apply range_elem in H1, H2.
  destruct (co_members _ I _ _ H1) as (m & Hm & <-). destruct (co_members _ I _ _ H2) as (m' & Hm' & <-). congruence.
Qed.

Lemma fan_ok s payload e : copies_ok s → spc s = SSnapshot payload e →
  copies_ok (serve_goto (SFan payload (snapshotMembers ρ s) e) (s <| log := log s ++ payload |>)).
Proof.
  intros I Hs. assert (He : ended (spc s) = false) by (by rewrite Hs). pose proof (not_closed _ I He) as Hc.
  set (s' := serve_goto _ _). constructor; try apply I; try done.
  - intros id m Hm. change (heap s') with (heap s) in Hm. pose proof (co_member _ I _ _ Hm) as M. destruct (open_queue _ _ _ I Hm He) as [Hq Hh].
    pose proof (mo_joined _ _ _ M) as Hj.
    assert (Ep : pending s id = []) by (apply pending_none; by rewrite Hs).
    assert (Ei : input_of s' m = input_of s m ++ payload) by (unfold input_of; by apply drop_app_le).
    assert (Hin : members s !! ClientID (target m) = Some id → pending s' id = payload).
    { intros T. unfold pending. by rewrite bool_decide_eq_true_2 by (apply snapshot_spec; eauto). }
    assert (Hout : members s !! ClientID (target m) = Some id ∨ pending s' id = []).
    { unfold pending. case_bool_decide as Hr; [left|by right]. apply snapshot_spec in Hr as [c Hr].
      destruct (co_members _ I _ _ Hr) as (m' & Hm' & <-). by simplify_eq. }
    assert (Hx : live m → members s !! ClientID (target m) = Some id → written m ++ on_its_way m ++ pending s' id = input_of s' m).
    { intros L T. destruct (mo_exact _ _ _ M L (or_introl T)) as [E|[_ Hl]]; [|by rewrite Hs in Hl].
      rewrite Ep, app_nil_r in E. by rewrite (Hin T), Ei, <- E, <- app_assoc. }
    constructor; try apply M; try done; try congruence.
    + unfold s'. cbn. rewrite length_app. lia.
    + intros L [T|[T|T%elem_of_nil]]; [|congruence|done]. left. by apply Hx.
    + intros L. destruct Hout as [T|E]; [rewrite Hx by done; reflexivity|]. rewrite E, Ei, app_nil_r.
      pose proof (mo_prefix _ _ _ M L) as Hp. rewrite Ep, app_nil_r in Hp. by apply prefix_app_r.
    + intros Hw. rewrite Ei. apply prefix_app_r. by apply M.
  - split; [by apply snapshot_NoDup|]. intros id [c Hid]%snapshot_spec. destruct (co_members _ I _ _ Hid) as (m & ? & _). by exists m.
  - intros id _. by eapply co_snapshot.
  - change (closed s') with (closed s). congruence.
Qed.
End fan.

Lemma close_queue_ok s id rest : copies_ok s → spc s = SCloseQueues (id :: rest) →
  copies_ok (serve_goto (SCloseQueues rest) (close_queue id s)).
Proof.
  intros I Hs. destruct (co_queues _ I _ Hs) as (Hc & Hnd & Hq). apply NoDup_cons in Hnd as [Hin Hnd].
  destruct (Hq id) as (m & Hm & Hf); [by left|]. unfold close_queue, member_is. rewrite Hm, Hf.
  set (s' := serve_goto _ _).
  assert (Hh : ∀ id', heap s' !! id' = if decide (id = id') then Some (m <| queue_closed := true |>) else heap s !! id').
  { intros id'. unfold s'. cbn. rewrite lookup_alter. case_decide; [|done]. subst. by rewrite Hm. }
  assert (Hl : ∀ id' m', heap s' !! id' = Some m' → ∃ m0, heap s !! id' = Some m0 ∧
    (m' = m0 ∧ id ≠ id' ∨ id = id' ∧ m' = m0 <| queue_closed := true |>)).
  { intros id' m'. rewrite Hh. case_decide as E; [subst|by eauto]. intros [= <-]. exists m. eauto. }
  assert (Hp : ∀ id', pending s' id' = pending s id') by (intros id'; by rewrite !pending_none by (cbn; by rewrite ?Hs)).
  constructor; try apply I; try done.
  - intros id' m' Hm'. destruct (Hl _ _ Hm') as (m0 & Hm0 & [[-> Hne]|[-> ->]]); pose proof (co_member _ I _ _ Hm0) as M.
    + constructor; rewrite ?Hp; try apply M. intros L T. destruct (mo_exact _ _ _ M L) as [E|[? _]]; [|by left|by right].
      destruct T as [T|[T|T]]; [by left|right; by left|right; right]. rewrite Hs. by right.
    + constructor; rewrite ?Hp; try apply M; try done.
      * intros L _. destruct (mo_exact _ _ _ M L) as [E|[? _]]; [|by left|by right]. right. right. rewrite Hs. by left.
      * cbn. intros H. split; [done|]. by apply M.
  - intros c id' Hc'. destruct (co_members _ I _ _ Hc') as (m0 & Hm0 & <-). rewrite Hh. case_decide; subst; [|by eauto].
    assert (m0 = m) as -> by congruence. eauto.
  - split; [constructor|]. by intros id' ?%elem_of_nil.
  - by intros id' ?%elem_of_nil.
  - intros ids [= <-]. split_and!; try done. intros id' Hid'. destruct (Hq id') as (m0 & Hm0 & ?); [by right|].
    exists m0. rewrite Hh, decide_False by congruence. done.
Qed.

Section serve.
Context (ρ : go_range string nat).

Lemma close_input_goto failing pc s : copies_ok s → recipients (spc s) = [] → recipients pc = [] → ended pc = true → late pc = true →
  (∀ ids, pc = SCloseQueues ids → closed s = false ∧ ids = snapshotMembers ρ s) →
  copies_ok (serve_goto pc (closeInput ρ failing s).1).
Proof.
  intros I Hr Hr' He Hl Hq. unfold closeInput. destruct (closed s) eqn:Ec; cbn [fst].
  { apply goto_plain; try done; [destruct pc; try done; by destruct (Hq _ eq_refl)|auto|auto|..]; by destruct pc; try done; intros ? [= ->]; destruct (Hq _ eq_refl). }
  assert (E : serve_goto pc (update_roles failing (s <| closed := true |>))
              = update_roles failing (serve_goto pc (s <| closed := true || closed s |>))) by done.
  rewrite E. eapply quiet_copies; [|apply update_roles_quiet]. apply goto_ok; try done; auto.
  - intros payload e ->. done.
  - intros ids Hi. destruct (Hq _ Hi) as [_ ->]. split_and!; try done; [by apply snapshot_NoDup|]. intros id. by rewrite snapshot_spec.
Qed.

Lemma refan_ok pc s id rest : copies_ok s → recipients (spc s) = id :: rest → recipients pc = id :: rest →
  block pc = block (spc s) → copies_ok (serve_goto pc s).
Proof.
  intros I Hr Hr' Hb. eapply quiet_copies; [done|].
  constructor; try done; cbn; try congruence; eauto using quiet_refl; by destruct pc; destruct (spc s).
Qed.

Lemma on_member_id id s : on_member id (λ m, m) s = s.
Proof. unfold on_member. destruct s. cbn. f_equal. apply map_eq. intros id'. rewrite lookup_alter. case_decide; [subst|done]. by destruct (_ !! _). Qed.

Lemma enqueue_ok s id m payload rest e : copies_ok s → recipients (spc s) = id :: rest → block (spc s) = payload →
  heap s !! id = Some m → copies_ok (enqueue id m payload rest e s).
Proof.
  intros I Hr Hb Hm. unfold enqueue. repeat case_match.
  - by eapply send_ok.
  - eapply refan_ok; [eapply quiet_copies; [done|apply close_member_quiet]|done|done|done].
  - by eapply refan_ok.
Qed.

Lemma serve_ok c s s' : copies_ok s → serve_step ρ c s = Some s' → copies_ok s'.
Proof.
  intros I. unfold serve_step, when. destruct (spc s) as [|[|t targets] ready|[|channel ready]| | |payload e|payload [|id rest] e|
    payload id rest e|payload id rest e changed|e| |[|id rest]| | | | |] eqn:Es; intros H;
    repeat (case_match; try done); simplify_eq;
    try (apply goto_plain; rewrite ?Es; try done; auto; fail).
  - match goal with E : AddTarget t s = _ |- _ => pose proof (add_target_quiet t s) as Q;
      pose proof (add_target_fields t s) as (_ & _ & _ & Ef & _); rewrite E in Q, Ef end. cbn [fst] in *.
    apply goto_plain; rewrite ?Ef, ?Es; try done; auto. by eapply quiet_copies.
  - apply goto_plain; rewrite ?Es; try done; auto. intros ? ? [= <- <-]. bool_to_prop.
    split; [|lia]. destruct chunk; [done|cbn; lia].
  - by apply fan_ok.
  - apply enqueue_ok; rewrite ?Es; done.
  - rewrite <- (on_member_id id s). eapply skip_ok; rewrite ?Es; try done. intros m Hm. left. split; [done|left].
    unfold member_is in *. rewrite Hm in *. by bool_to_prop.
  - eapply skip_ok; rewrite ?Es; try done. intros m Hm. right. split; [done|]. unfold member_is in *. by rewrite Hm in *.
  - rewrite <- (on_member_id id s). eapply skip_ok; rewrite ?Es; try done. intros m Hm. left. auto.
  - unfold member_is in *. case_match; [|done]. eapply send_ok; rewrite ?Es; done.
  - eapply refan_ok; rewrite ?Es; done.
  - match goal with E : closeInput ρ ?ids s = (?t, ?l) |- _ => assert (t = (closeInput ρ ids s).1) as -> by (by rewrite E);
      assert (l = (closeInput ρ ids s).2) as -> by (by rewrite E) end.
    assert (Hc : closed s = false) by (apply not_closed; [done|by rewrite Es]).
    apply close_input_goto; rewrite ?Es; try done. intros ids' [= <-]. unfold closeInput. by rewrite Hc.
  - by apply close_queue_ok.
  - apply close_input_goto; rewrite ?Es; done.
  - apply goto_plain; try done; cbn; rewrite ?Es; auto. eapply quiet_copies; [done|]. by apply quiet_of_same.
  - apply goto_plain; try done; cbn; rewrite ?Es; auto. eapply quiet_copies; [done|]. by apply quiet_of_same.
Qed.

Lemma step_copies_ok a s s' : copies_ok s → step ρ a s = Some s' → copies_ok s'.
Proof.
  intros I H. destruct (is_copy_step a) eqn:Ea.
  - destruct a; try done; [by eapply serve_ok|by eapply writer_ok].
  - eapply quiet_copies; [done|]. eapply step_quiet; try done. apply eq_None_not_Some. intros [m Hm].
    pose proof (mo_id _ _ _ (co_member _ I _ _ Hm)). lia.
Qed.

Lemma reachable_copies s : reachable ρ s → copies_ok s.
Proof.
  induction 1 as [|s a s' _ IH H]; [|by eapply step_copies_ok].
  constructor; cbn; try done; [split; [constructor|]|]; by intros id ?%elem_of_nil.
Qed.
End serve.

(** ** An abstract feed

    What a mirror group promises: one growing input, and copies that each
    follow it from the point where they joined, without gaps or repetition.  A
    copy may be abandoned at any time, and ends only when the input has ended
    and the copy is complete. *)

Record Copy := { from : nat; sent : list byte; finished : bool }.
Record Feed := { input : list byte; input_closed : bool; copies : gmap nat Copy }.

Inductive feed_step : Feed → Feed → Prop :=
| feed_input l cs bs : feed_step {| input := l; input_closed := false; copies := cs |}
    {| input := l ++ bs; input_closed := false; copies := cs |}
| feed_close l cs : feed_step {| input := l; input_closed := false; copies := cs |}
    {| input := l; input_closed := true; copies := cs |}
| feed_join l cs id : cs !! id = None → feed_step {| input := l; input_closed := false; copies := cs |}
    {| input := l; input_closed := false; copies := <[id := {| from := length l; sent := []; finished := false |}]> cs |}
| feed_send l b cs id n bs cs' bs' : cs !! id = Some {| from := n; sent := bs; finished := false |} →
    bs ++ bs' `prefix_of` drop n l → cs' = <[id := {| from := n; sent := bs ++ bs'; finished := false |}]> cs →
    feed_step {| input := l; input_closed := b; copies := cs |} {| input := l; input_closed := b; copies := cs' |}
| feed_finish l cs id n : cs !! id = Some {| from := n; sent := drop n l; finished := false |} →
    feed_step {| input := l; input_closed := true; copies := cs |}
      {| input := l; input_closed := true; copies := <[id := {| from := n; sent := drop n l; finished := true |}]> cs |}
| feed_abandon l b cs id : feed_step {| input := l; input_closed := b; copies := cs |}
    {| input := l; input_closed := b; copies := delete id cs |}.

(** The copies that have not been given up. *)
Definition copy_of (m : tcpMember) : option Copy :=
  if stopped m then None else Some {| from := joined m; sent := written m; finished := half_closed m |}.

Definition feed_of (s : TCPSession) : Feed :=
  {| input := log s; input_closed := closed s; copies := omap copy_of (heap s) |}.

Lemma abandon_all l b (cs' cs : gmap nat Copy) : cs' ⊆ cs →
  rtc feed_step {| input := l; input_closed := b; copies := cs |} {| input := l; input_closed := b; copies := cs' |}.
Proof.
  remember (size cs) as n eqn:En. revert cs En. induction n as [n IH] using lt_wf_ind. intros cs -> Hsub.
  destruct (decide (map_Forall (λ id _, is_Some (cs' !! id)) cs)) as [Hd|Hd].
  { assert (cs' = cs) as ->; [|done]. apply map_eq. intros id. destruct (cs !! id) as [c|] eqn:Hc; [|by eapply lookup_weaken_None].
    destruct (Hd _ _ Hc) as [c' Hc']. rewrite Hc', <- Hc. symmetry. by eapply lookup_weaken. }
  apply map_not_Forall in Hd as (id & c & Hc & Hout%eq_None_not_Some); [|apply _].
  eapply rtc_l; [apply (feed_abandon l b cs id)|]. eapply IH; [|reflexivity|].
  - rewrite map_size_delete, Hc. pose proof (map_size_ne_0_lookup_2 cs id (mk_is_Some _ _ Hc)). lia.
  - apply map_subseteq_spec. intros id' c' Hc'. rewrite lookup_delete_ne by congruence. by apply (lookup_weaken _ cs) in Hc'.
Qed.

Lemma copy_quiet m m' c : quiet_member m m' → copy_of m' = Some c → copy_of m = Some c.
Proof.
  intros Q. unfold copy_of. destruct (stopped m) eqn:E; [by rewrite (qm_stopped _ _ Q E)|]. destruct (stopped m'); [done|].
  by rewrite (qm_joined _ _ Q), (qm_written _ _ Q), (qm_half _ _ Q).
Qed.

(** Copies are only abandoned. *)
Lemma calm_refines s s' : log s' = log s → closed s' = closed s →
  (∀ id m' c, heap s' !! id = Some m' → copy_of m' = Some c → ∃ m, heap s !! id = Some m ∧ copy_of m = Some c) →
  rtc feed_step (feed_of s) (feed_of s').
Proof.
  intros El Ec Hh. unfold feed_of. rewrite El, Ec. apply abandon_all. apply map_subseteq_spec. intros id c.
  rewrite !lookup_omap. destruct (heap s' !! id) as [m'|] eqn:E; [|done]. cbn. intros Hc.
  destruct (Hh _ _ _ E Hc) as (m & -> & ?). done.
Qed.

Lemma quiet_refines s s' : quiet s s' → heap s !! next_id s = None → rtc feed_step (feed_of s) (feed_of s').
Proof.
  intros Q Hn.
  assert (Hold : ∀ id m' c, id ≠ next_id s → heap s' !! id = Some m' → copy_of m' = Some c → ∃ m, heap s !! id = Some m ∧ copy_of m = Some c).
  { intros id m' c Hne Hm' Hc. destruct (q_heap _ _ Q _ _ Hm') as [(m & ? & QM)|[-> _]]; [|done]. eauto using copy_quiet. }
  destruct (heap s' !! next_id s) as [m'|] eqn:Em.
  - destruct (q_heap _ _ Q _ _ Em) as [(m & ? & _)|(_ & _ & Hc & t & ->)]; [congruence|].
    eapply rtc_l; [unfold feed_of; rewrite Hc; apply (feed_join _ _ (next_id s)); by rewrite lookup_omap, Hn|].
    unfold feed_of. rewrite (q_log _ _ Q), (q_closed _ _ Q), Hc. apply abandon_all. apply map_subseteq_spec. intros id c.
    rewrite lookup_omap, lookup_insert. case_decide as E; [subst id; by rewrite Em|]. rewrite lookup_omap.
    destruct (heap s' !! id) as [m'|] eqn:Em'; [|done]. cbn. intros Hcm.
    destruct (Hold _ _ _ (not_eq_sym E) Em' Hcm) as (m & -> & ?). done.
  - apply calm_refines; [apply Q|apply Q|]. intros id m' c Hm'. apply Hold; congruence.
Qed.

(** A change of one member the feed sees or does not see. *)
Lemma on_member_calm s id f : (∀ m c, heap s !! id = Some m → copy_of (f m) = Some c → copy_of m = Some c) →
  rtc feed_step (feed_of s) (feed_of (on_member id f s)).
Proof.
  intros Hf. apply calm_refines; try done. intros id' m' c. rewrite heap_on_member. case_decide as E; [subst|eauto].
  destruct (heap s !! id') as [m|] eqn:Em; [|done]. cbn. intros [= <-] Hc. eauto.
Qed.

Lemma omap_on_member s id f m : heap s !! id = Some m →
  omap copy_of (heap (on_member id f s)) = partial_alter (λ _, copy_of (f m)) id (omap copy_of (heap s)).
Proof.
  intros Hm. apply map_eq. intros id'. rewrite lookup_omap, heap_on_member. case_decide as E.
  - subst. by rewrite lookup_partial_alter_eq, Hm.
  - by rewrite lookup_partial_alter_ne, lookup_omap.
Qed.

Lemma copy_close m c pc : copy_of ((close m) <| wpc := pc |>) = Some c → False.
Proof. unfold copy_of. change (stopped ((close m) <| wpc := pc |>)) with (stopped (close m)). by rewrite close_stopped. Qed.

(** A live copy, as the feed sees it. *)
Lemma copy_live s id m : member_ok s id m → wpc m ≠ WDone → stopped m = false →
  live m ∧ copy_of m = Some {| from := joined m; sent := written m; finished := false |}.
Proof.
  intros M Hw Hs. split.
  - split_and!; [|unfold stopped in Hs; bool_to_prop; congruence|done].
    destruct (withheld m) eqn:E; [|done]. apply (mo_withheld _ _ _ M) in E. congruence.
  - unfold copy_of. rewrite Hs. destruct (half_closed m) eqn:E; [|done]. by destruct (mo_half _ _ _ M E) as (_ & _ & ?).
Qed.

Lemma send_refines s id m rest n : member_ok s id m → heap s !! id = Some m → wpc m = WWrite rest →
  rtc feed_step (feed_of s)
    (feed_of (on_member id (λ m, m <| written := written m ++ take n rest |> <| wpc := WWrite (drop n rest) |>) s)).
Proof.
  intros M Hm Hw. destruct (stopped m) eqn:Hs.
  { apply on_member_calm. intros m0 c Hm0 Hc. simplify_eq. unfold copy_of in Hc. change (stopped _) with (stopped m) in Hc. by rewrite Hs in Hc. }
  destruct (copy_live _ _ _ M) as [L Hc]; [by rewrite Hw|done|].
  apply rtc_once. unfold feed_of. rewrite (omap_on_member _ _ _ m) by done. cbn.
  eapply (feed_send _ _ _ id (joined m) (written m) _ (take n rest)); [by rewrite lookup_omap, Hm| |].
  - etrans; [|apply (mo_prefix _ _ _ M L)]. unfold on_its_way. rewrite Hw. cbn. rewrite <- (take_drop n rest) at 2.
    rewrite <- !(app_assoc (take n rest)), (app_assoc (written m)). by apply prefix_app_r.
  - unfold copy_of at 1. change (stopped _) with (stopped m). rewrite Hs. unfold copy_of in Hc. rewrite Hs in Hc.
    injection Hc as Hh. cbn. by rewrite Hh.
Qed.

Lemma finish_refines s id m : copies_ok s → cancelled s = false → heap s !! id = Some m → wpc m = WSelect → queue m = [] →
  queue_closed m = true → rtc feed_step (feed_of s) (feed_of (on_member id (λ m, m <| half_closed := true |> <| wpc := WDone |>) s)).
Proof.
  intros I Hx Hm Hw Hq Hc. pose proof (co_member _ I _ _ Hm) as M. destruct (stopped m) eqn:Hs.
  { apply on_member_calm. intros m0 c Hm0 Hc'. simplify_eq. unfold copy_of in Hc'. change (stopped _) with (stopped m) in Hc'. by rewrite Hs in Hc'. }
  destruct (copy_live _ _ _ M) as [L Hcp]; [by rewrite Hw|done|].
  assert (Hr : recipients (spc s) = []) by (pose proof (co_closed _ I (mo_queue_closed _ _ _ M Hc)); by destruct (spc s)).
  destruct (mo_exact _ _ _ M L (or_intror (or_introl Hc))) as [E|[? _]]; [|congruence].
  unfold on_its_way in E. rewrite Hw, Hq, pending_none in E by done. cbn in E. rewrite app_nil_r in E.
  apply rtc_once. unfold feed_of. rewrite (omap_on_member _ _ _ m), (mo_queue_closed _ _ _ M Hc) by done. cbn.
  assert (Ec : copy_of (m <| half_closed := true |> <| wpc := WDone |>) = Some {| from := joined m; sent := input_of s m; finished := true |}).
  { unfold copy_of. change (stopped _) with (stopped m). by rewrite Hs, <- E. }
  cbn in Ec. rewrite Ec, ?(mo_queue_closed _ _ _ M Hc). apply feed_finish. rewrite lookup_omap, Hm. cbn. rewrite Hcp.
  unfold input_of in E. by rewrite <- E.
Qed.

Lemma writer_refines id c s s' : copies_ok s → cancelled s = false → writer_step id c s = Some s' → rtc feed_step (feed_of s) (feed_of s').
Proof.
  intros I Hx. unfold writer_step. destruct (heap s !! id) as [m|] eqn:Em; [|done]. pose proof (co_member _ I _ _ Em) as M. intros H.
  repeat (case_match; try done); simplify_eq;
    try (apply on_member_calm; intros m0 c0 Hm0 Hc0; first [exact Hc0 | exfalso; by eapply copy_close]).
  - bool_to_prop. by apply finish_refines with (m := m).
  - by eapply send_refines.
Qed.

Lemma same_feed s s' : log s' = log s → closed s' = closed s → heap s' = heap s → rtc feed_step (feed_of s) (feed_of s').
Proof. intros El Ec Eh. unfold feed_of. by rewrite El, Ec, Eh. Qed.

Lemma send_calm s id payload : rtc feed_step (feed_of s) (feed_of (send id payload s)).
Proof.
  unfold send. etrans; [|apply on_member_calm; by intros]. apply same_feed; by case_match.
Qed.

Lemma queue_calm s id : rtc feed_step (feed_of s) (feed_of (close_queue id s)).
Proof.
  unfold close_queue. etrans; [|apply on_member_calm; by intros]. apply same_feed; by case_match.
Qed.

Lemma close_calm s id : rtc feed_step (feed_of s) (feed_of (on_member id close s)).
Proof. apply on_member_calm. intros m c _ Hc. unfold copy_of in Hc. by rewrite close_stopped in Hc. Qed.

Section refines.
Context (ρ : go_range string nat).

Lemma close_input_refines failing s : copies_ok s → rtc feed_step (feed_of s) (feed_of (closeInput ρ failing s).1).
Proof.
  intros I. unfold closeInput. destruct (closed s) eqn:Ec; cbn [fst]; [done|].
  etrans; [apply rtc_once; unfold feed_of; rewrite Ec; apply feed_close|].
  change (rtc feed_step (feed_of (s <| closed := true |>)) (feed_of (update_roles failing (s <| closed := true |>)))).
  apply (quiet_refines (s <| closed := true |>)); [apply update_roles_quiet|]. apply eq_None_not_Some. intros [m Hm].
  pose proof (mo_id _ _ _ (co_member _ I _ _ Hm)) as Hlt. cbn in Hlt. lia.
Qed.

Lemma serve_refines c s s' : copies_ok s → serve_step ρ c s = Some s' → rtc feed_step (feed_of s) (feed_of s').
Proof.
  intros I. unfold serve_step, when. destruct (spc s) as [|[|t targets] ready|[|channel ready]| | |payload e|payload [|id rest] e|
    payload id rest e|payload id rest e changed|e| |[|id rest]| | | | |] eqn:Es; intros H;
    repeat (case_match; try done); simplify_eq; try (by apply same_feed).
  - match goal with E : AddTarget t s = _ |- _ => pose proof (add_target_fields t s) as Hf; rewrite E in Hf end.
    destruct Hf as (Eh & _ & El & _ & Ec & _). by apply same_feed; [exact El|exact Ec|exact Eh].
  - assert (Hc : closed s = false) by (apply not_closed; [done|by rewrite Es]). apply rtc_once. unfold feed_of. cbn. rewrite Hc.
    apply feed_input.
  - unfold enqueue. repeat case_match; [exact (send_calm s id payload)|exact (close_calm s id)|by apply same_feed].
  - apply (on_member_calm s id). intros m c _ Hc. exact Hc.
  - exact (send_calm s id payload).
  - match goal with E : closeInput ρ ?ids s = _ |- _ => pose proof (close_input_refines ids s I) as Hr; by rewrite E in Hr end.
  - exact (queue_calm s id).
  - exact (close_input_refines ids s I).
Qed.

Lemma step_refines a s s' : copies_ok s → cancelled s = false → step ρ a s = Some s' → rtc feed_step (feed_of s) (feed_of s').
Proof.
  intros I Hx H. destruct (is_copy_step a) eqn:Ea.
  - destruct a; try done; [by eapply serve_refines|by eapply writer_refines].
  - assert (Hn : heap s !! next_id s = None).
    { apply eq_None_not_Some. intros [m Hm]. pose proof (mo_id _ _ _ (co_member _ I _ _ Hm)). lia. }
    apply quiet_refines; [by eapply step_quiet|done].
Qed.

Lemma writer_cancelled id c s s' : writer_step id c s = Some s' → cancelled s' = cancelled s.
Proof. unfold writer_step. intros H. by repeat (case_match; try done); simplify_eq. Qed.

Lemma serve_cancelled c s s' : serve_step ρ c s = Some s' → cancelled s = true → cancelled s' = true.
Proof.
  unfold serve_step, when, enqueue, send, close_queue. intros H Hx. repeat (case_match; try done); simplify_eq; try done.
  - match goal with E : AddTarget ?t s = _ |- _ => pose proof (add_target_fields t s) as Hf; rewrite E in Hf end.
    destruct Hf as (_ & _ & _ & _ & _ & _ & _ & E). cbn in *. congruence.
  - match goal with E : closeInput _ _ _ = _ |- _ => unfold closeInput in E end. case_match; by simplify_eq.
  - unfold closeInput. by case_match.
Qed.

Lemma step_cancelled a s s' : step ρ a s = Some s' → copies_ok s → cancelled s' = false → cancelled s = false.
Proof.
  intros H I Hx. destruct (cancelled s) eqn:E; [|done]. rewrite <- Hx. symmetry. destruct (is_copy_step a) eqn:Ea.
  - destruct a; try done; [by eapply serve_cancelled|erewrite writer_cancelled by done; done].
  - eapply q_cancelled; [eapply step_quiet; [done..|]|done]. apply eq_None_not_Some. intros [m Hm].
    pose proof (mo_id _ _ _ (co_member _ I _ _ Hm)). lia.
Qed.
End refines.

(** ** What visitors' input becomes *)

Section theorems.
Context (ρ : go_range string nat).

(** C15: Until it is cancelled, a mirror session refines the abstract feed:
    every step, of whatever thread, is one the feed allows.  The input only
    grows, a member starts where it joined, what it is sent continues what it
    was sent before exactly along the input, and its connection is half-closed
    only at the end of the input and with the whole of it sent. *)
Theorem mirror_refines_feed s : reachable ρ s → cancelled s = false → rtc feed_step (feed_of NewTCPSession) (feed_of s).
Proof using Type.
  induction 1 as [|s a s' Hr IH H]; intros Hx; [done|]. pose proof (reachable_copies _ _ Hr) as I.
  pose proof (step_cancelled _ _ _ _ H I Hx) as Hx'. etrans; [by apply IH|by eapply step_refines].
Qed.

(** While a member is in service nothing of the input since it joined is
    missing or out of place: what its connection has accepted, what its writer
    holds, its queue and the block that is being handed out are together that
    input.  The queue has at most 32 blocks of at most 32 KiB, and no queue is
    sent to or closed after it was closed. *)
Theorem copies_exact s id m : reachable ρ s → heap s !! id = Some m → published s id m = true → stopped m = false → cancelled s = false →
  written m ++ inflight (wpc m) ++ concat (queue m) ++ pending s id = drop (joined m) (log s) ∧
  (length (queue m) ≤ 32)%nat ∧ Forall (λ payload, 0 < Z.of_nat (length payload) ≤ 32768) (queue m) ∧ panicked s = false.
Proof using Type.
  intros Hr Hm Hp Hs Hx. pose proof (reachable_copies _ _ Hr) as I. pose proof (co_member _ I _ _ Hm) as M.
  unfold published in Hp. bool_to_prop. destruct (mo_bound _ _ _ M) as [Hl Hb]. split_and!; [|done| |apply I]; cycle 1.
  { eapply Forall_impl; [exact Hb|]. intros payload. unfold block_ok, mirrorTCPChunkSize. lia. }
  destruct (decide (wpc m = WDone)) as [Hw|Hw].
  - destruct (mo_done _ _ _ M Hw) as [Hh|]; [|congruence]. destruct (mo_half _ _ _ M Hh) as (Hc & Hq & _).
    assert (Hf : withheld m = false).
    { destruct (withheld m) eqn:E; [|done]. apply (mo_withheld _ _ _ M) in E. congruence. }
    destruct (mo_complete _ _ _ M Hh Hf) as [E|?]; [|congruence].
    rewrite pending_none by (pose proof (co_closed _ I (mo_queue_closed _ _ _ M Hc)); by destruct (spc s)).
    rewrite Hw, Hq. cbn. by rewrite app_nil_r.
  - destruct (copy_live _ _ _ M Hw Hs) as [L _]. destruct (mo_exact _ _ _ M L) as [E|[? _]]; [by left| |congruence].
    unfold on_its_way, input_of in E. by rewrite <- E, <- !app_assoc.
Qed.

(** Unless the select of [enqueue] withheld a block from a Primary that was
    being closed, what a member receives is a contiguous part of the input,
    from where it joined, also while it is closed and afterwards; and when its
    connection is half-closed, with the session intact, it has all of it. *)
Theorem copies_contiguous s id m : reachable ρ s → heap s !! id = Some m → withheld m = false →
  written m `prefix_of` drop (joined m) (log s) ∧
  (half_closed m = true → cancelled s = false → closed s = true ∧ written m = drop (joined m) (log s)).
Proof using Type.
  intros Hr Hm Hf. pose proof (reachable_copies _ _ Hr) as I. pose proof (co_member _ I _ _ Hm) as M.
  split; [by apply (mo_written _ _ _ M)|]. intros Hh Hx. destruct (mo_half _ _ _ M Hh) as (Hc & _ & _).
  split; [by apply M|]. by destruct (mo_complete _ _ _ M Hh Hf); [|congruence].
Qed.
End theorems.

(** ** A run *)

Fixpoint run (ρ : go_range string nat) (actions : list Action) (s : TCPSession) : option TCPSession :=
  match actions with
  | [] => Some s
  | a :: actions => step ρ a s ≫= run ρ actions
  end.

Lemma run_reachable ρ actions : ∀ s s', reachable ρ s → run ρ actions s = Some s' → reachable ρ s'.
Proof.
  induction actions as [|a actions IH]; intros s s' Hr; cbn; [by intros [= <-]|].
  destruct (step ρ a s) as [s1|] eqn:E; [|done]. apply IH. by eapply reachable_step.
Qed.

Module DemoMirror.
Definition primary : Target := {| ClientID := "p"; SessionID := "s"; BindingName := "web"; BindingID := "b"; Writer := 0 |}.
Definition x1 : byte := byte_of 1.
Definition x2 : byte := byte_of 2.
Definition x3 : byte := byte_of 3.

(** The Primary joins: worker 0, member 1. *)
Definition join : list Action :=
  [SetCurrent "p" (Some primary); DoSetPrimary "p" ∅ true; DoAddTarget primary; WorkerStep 0 Next; WorkerStep 0 Next;
   WorkerStep 0 Next; WorkerStep 0 Next; WorkerStep 0 (Outcome true); WorkerStep 0 Next; WorkerStep 0 Next;
   DoServe []; ServeStep Next; ServeStep Next].

(** A block is read and offered to the Primary. *)
Definition feed (x : byte) (c : Choice) : list Action :=
  [ServeStep Next; ServeStep (Read [x] None); ServeStep Next; ServeStep Next; ServeStep c; ServeStep Next; ServeStep Next].

(** The writer takes a block and the connection accepts it. *)
Definition forward : list Action :=
  [WriterStep 1 OnQueue; WriterStep 1 (Outcome true); WriterStep 1 (Accept 1); WriterStep 1 (Outcome true)].

(** The reader of the Primary fails and closes [stopped]. *)
Definition reset : list Action := [ReaderStep 1 (Read [] (Some ReadFailed)); ReaderStep 1 Next].

Definition healthy : list Action := join ++ feed x1 OnQueue ++ feed x2 OnQueue ++ forward.
Definition gap : list Action := join ++ feed x1 OnQueue ++ reset ++ feed x2 OnStopped ++ feed x3 OnQueue ++ forward ++ forward.

Definition after (actions : list Action) : TCPSession := default NewTCPSession (run any_range actions NewTCPSession).
Lemma after_reachable actions : is_some (run any_range actions NewTCPSession) = true → reachable any_range (after actions).
Proof.
  unfold after. destruct (run _ _ _) as [s|] eqn:E; [|done]. intros _. cbn. eapply run_reachable; [apply reachable_new|done].
Qed.
Definition member (actions : list Action) : tcpMember := default (new_member primary 0) (heap (after actions) !! 1%nat).
End DemoMirror.

Lemma mirror_refines_feed_witness : rtc feed_step (feed_of NewTCPSession) (feed_of (DemoMirror.after DemoMirror.healthy)).
Proof.
  apply (mirror_refines_feed any_range); [apply DemoMirror.after_reachable; vm_compute; reflexivity|vm_compute; reflexivity].
Defined.

Lemma copies_exact_witness : written (DemoMirror.member DemoMirror.healthy) = [DemoMirror.x1] ∧
  concat (queue (DemoMirror.member DemoMirror.healthy)) = [DemoMirror.x2].
Proof.
  assert (H := copies_exact any_range (DemoMirror.after DemoMirror.healthy) 1 (DemoMirror.member DemoMirror.healthy)).
  destruct H as [H _]; [apply DemoMirror.after_reachable; vm_compute; reflexivity|vm_compute; reflexivity..|].
  split; vm_compute; reflexivity.
Defined.

Lemma copies_contiguous_witness : written (DemoMirror.member DemoMirror.healthy) `prefix_of` [DemoMirror.x1; DemoMirror.x2].
Proof.
  destruct (copies_contiguous any_range (DemoMirror.after DemoMirror.healthy) 1 (DemoMirror.member DemoMirror.healthy)) as [H _];
    [apply DemoMirror.after_reachable; vm_compute; reflexivity|vm_compute; reflexivity..|].
  vm_compute in H. exact H.
Defined.

(** C16: [close] closes [stopped] before the connection, and for a Primary that
    is stopped the select of [enqueue] may take either branch.  A block can be
    dropped and the next one queued and sent while the connection is still
    open: the Primary then receives the first and the third block of the
    input without the second. *)
Theorem closing_primary_gap :
  reachable any_range (DemoMirror.after DemoMirror.gap) ∧
  heap (DemoMirror.after DemoMirror.gap) !! 1%nat = Some (DemoMirror.member DemoMirror.gap) ∧
  isPrimary (DemoMirror.after DemoMirror.gap) (DemoMirror.member DemoMirror.gap) = true ∧
  cancelled (DemoMirror.after DemoMirror.gap) = false ∧
  drop (joined (DemoMirror.member DemoMirror.gap)) (log (DemoMirror.after DemoMirror.gap)) = [DemoMirror.x1; DemoMirror.x2; DemoMirror.x3] ∧
  written (DemoMirror.member DemoMirror.gap) = [DemoMirror.x1; DemoMirror.x3].
Proof. split_and!; [apply DemoMirror.after_reachable|..]; vm_compute; reflexivity. Qed.
