(* ===== verification/MirrorResponses.v ===== *)
(** * Who may answer a mirrored visitor, and how long a member may block

    The responses of a mirror group go through one gate.  A member that writes
    to the visitor was the Primary when it was admitted, it is the only one,
    and it has a deadline as soon as it is no longer the Primary; nothing
    follows the half-close of the visitor.  In the other direction the write
    deadline and the drain timer of a member follow its role. *)

From S2P Require Import Prelude GoTime NetAddr MirrorTcp MirrorCopies.

Local Open Scope Z_scope.

(** ** The response gate *)

Definition holding (pc : ReaderPc) : bool :=
  match pc with
  | RAdmit _ _ | RWriting _ _ _ | RRelease _ _ | RFree _ _ | REofAdmit | REofClose | REofFree _ => true
  | _ => false
  end.
Definition may_write (pc : ReaderPc) : bool := match pc with RWriting _ _ _ | RRelease _ _ => true | _ => false end.

(** What a write in progress knows. *)
Definition writing_ok (s : TCPSession) (id : nat) (m : tcpMember) : Prop :=
  ∀ authority rest e, rpc m = RWriting authority rest e →
    responseWriter s = Some id ∧ authority = Some (ClientID (target m)) ∧ responseClosed s = false ∧
    (cancelled s = true ∨ visitor_deadline s = negb (isPrimary s m)).

Record responses_ok (s : TCPSession) : Prop := {
  ro_holds id m : heap s !! id = Some m → holding (rpc m) = true → responseGate s = Some id;
  ro_gate id : responseGate s = Some id → ∃ m, heap s !! id = Some m ∧ holding (rpc m) = true;
  ro_writer id : responseWriter s = Some id → ∃ m, heap s !! id = Some m ∧ may_write (rpc m) = true;
  ro_writing id m : heap s !! id = Some m → writing_ok s id m;
  ro_output id authority bs : (id, authority, bs) ∈ output s → ∃ m, heap s !! id = Some m ∧ authority = Some (ClientID (target m));
  ro_half : visitor_half s = true → responseClosed s = true;
  ro_closing id m : heap s !! id = Some m → rpc m = REofClose → responseClosed s = true
}.

(** *** Steps that do not touch it *)

Definition same_reader (m m' : tcpMember) : Prop := rpc m' = rpc m ∧ target m' = target m.

Lemma same_reader_close m : same_reader m (close m).
Proof. unfold close. by destruct (m_close m). Qed.

Lemma same_reader_role s ok m : same_reader m (updateMemberRoleLocked s ok m).
Proof. unfold updateMemberRoleLocked. destruct ok; [done|]. destruct (same_reader_close m) as [E1 E2]. split; cbn; by rewrite ?E1, ?E2. Qed.

Record aside (s s' : TCPSession) : Prop := {
  as_gate : responseGate s' = responseGate s;
  as_writer : responseWriter s' = responseWriter s;
  as_closed : responseClosed s' = responseClosed s;
  as_half : visitor_half s' = visitor_half s;
  as_output : output s' = output s;
  as_primary : primaryClientID s' = primaryClientID s;
  as_deadline : visitor_deadline s' = visitor_deadline s;
  as_cancelled : cancelled s = true → cancelled s' = true;
  as_keep id m : heap s !! id = Some m → ∃ m', heap s' !! id = Some m' ∧ same_reader m m';
  as_heap id m' : heap s' !! id = Some m' → (∃ m, heap s !! id = Some m ∧ same_reader m m') ∨ rpc m' = RRead
}.

Lemma aside_refl s : aside s s.
Proof. constructor; eauto; intros id m ?; [|left]; exists m; by repeat split. Qed.

Lemma aside_trans s s0 s' : aside s s0 → aside s0 s' → aside s s'.
Proof.
  intros A B. constructor; try (etrans; [apply B|apply A]); [by intros ?%A%B| |].
  - intros id m Hm. destruct (as_keep _ _ A _ _ Hm) as (m0 & Hm0 & E1 & E2). destruct (as_keep _ _ B _ _ Hm0) as (m' & ? & E3 & E4).
    exists m'. split; [done|]. split; congruence.
  - intros id m' Hm'. destruct (as_heap _ _ B _ _ Hm') as [(m0 & Hm0 & E1 & E2)|?]; [|by right].
    destruct (as_heap _ _ A _ _ Hm0) as [(m & Hm & E3 & E4)|?]; [left; exists m; split; [done|]; split; congruence|right; congruence].
Qed.

Lemma aside_on_member id f s : (∀ m, same_reader m (f m)) → aside s (on_member id f s).
Proof.
  intros Hf. constructor; try done.
  - intros id' m Hm. rewrite heap_on_member, Hm. case_decide; cbn; eexists; (split; [done|]); [apply Hf|done].
  - intros id' m'. rewrite heap_on_member. case_decide; [|intros ?; left; exists m'; by repeat split].
    destruct (heap s !! id') as [m|]; [|done]. cbn. intros [= <-]. left. exists m. split; [done|apply Hf].
Qed.

(** Only fields that have nothing to do with responses changed. *)
Definition unrelated (s s' : TCPSession) : Prop :=
  responseGate s' = responseGate s ∧ responseWriter s' = responseWriter s ∧ responseClosed s' = responseClosed s ∧
  visitor_half s' = visitor_half s ∧ output s' = output s ∧ primaryClientID s' = primaryClientID s ∧
  visitor_deadline s' = visitor_deadline s ∧ (cancelled s = true → cancelled s' = true) ∧ heap s' = heap s.

Lemma aside_unrelated s s' : unrelated s s' → aside s s'.
Proof.
  intros (? & ? & ? & ? & ? & ? & ? & ? & Eh). constructor; try done; rewrite Eh; intros id m ?; [|left]; exists m; by repeat split.
Qed.

Lemma aside_roles failing s : aside s (update_roles failing s).
Proof.
  constructor; try done; intros id m; cbn; rewrite map_lookup_imap.
  - intros ->. cbn. eexists. split; [done|]. case_match; [apply same_reader_role|done].
  - destruct (heap s !! id) as [m0|]; [|done]. cbn. intros [= <-]. left. exists m0. split; [done|].
    case_match; [apply same_reader_role|done].
Qed.

Lemma aside_writer id c s s' : writer_step id c s = Some s' → aside s s'.
Proof.
  unfold writer_step. intros H. repeat (case_match; try done); simplify_eq; apply aside_on_member; intros m;
    first [done|destruct (same_reader_close m) as [E1 E2]; split; cbn; by rewrite ?E1, ?E2].
Qed.

Lemma aside_add_target t s : aside s (AddTarget t s).1.
Proof. apply aside_unrelated. unfold AddTarget. by repeat case_match. Qed.

Lemma aside_forget w k f s : aside s (on_worker w f (forget_worker w k s)).
Proof. apply aside_unrelated. unfold forget_worker. by case_match. Qed.

Lemma aside_worker w c s s' : worker_step w c s = Some s' → heap s !! next_id s = None → aside s s'.
Proof.
  unfold worker_step, when, worker_goto, addConnection. intros H Hn.
  repeat (case_match; try done); simplify_eq; try (by apply aside_unrelated); try apply aside_forget;
    try (eapply aside_trans; [apply aside_on_member, same_reader_close|by apply aside_unrelated]).
  constructor; try done; cbn; intros id m.
  - intros Hm. rewrite lookup_insert_ne by congruence. exists m. by repeat split.
  - rewrite lookup_insert. case_decide; [intros [= <-]; by right|]. intros ?. left. exists m. by repeat split.
Qed.

Section aside.
Context (ρ : go_range string nat).

Lemma aside_close_input failing s : aside s (closeInput ρ failing s).1.
Proof.
  unfold closeInput. case_match; [apply aside_refl|]. cbn [fst].
  eapply aside_trans; [|apply aside_roles]. by apply aside_unrelated.
Qed.

Lemma aside_goto pc s s' : aside s s' → aside s (serve_goto pc s').
Proof. intros A. eapply aside_trans; [done|]. by apply aside_unrelated. Qed.

Lemma aside_serve c s s' : serve_step ρ c s = Some s' → aside s s'.
Proof.
  unfold serve_step, when, enqueue, send, close_queue. intros H. repeat (case_match; try done); simplify_eq; apply aside_goto;
    try (by apply aside_unrelated); try apply aside_close_input;
    try (by apply aside_on_member); try (apply aside_on_member, same_reader_close);
    try (eapply aside_trans; [|by apply aside_on_member]; by apply aside_unrelated).
  - match goal with E : AddTarget ?t s = _ |- _ => pose proof (aside_add_target t s) as A; by rewrite E in A end.
  - match goal with E : closeInput ρ ?ids s = _ |- _ => pose proof (aside_close_input ids s) as A; by rewrite E in A end.
Qed.

Definition is_response_step (a : Action) : bool := match a with ReaderStep _ _ | DoSetPrimary _ _ _ => true | _ => false end.

Lemma aside_step a s s' : step ρ a s = Some s' → is_response_step a = false → heap s !! next_id s = None → aside s s'.
Proof.
  intros H Ha Hn. destruct a; try done; cbn in H; unfold when in H;
    try (first [by eapply aside_serve|by eapply aside_writer|by eapply aside_worker]);
    try (repeat case_match; simplify_eq; first [by apply aside_unrelated|by apply aside_on_member|apply aside_on_member, same_reader_close]).
  simplify_eq. apply aside_add_target.
Qed.
End aside.

Lemma responses_aside s s' : responses_ok s → aside s s' → responses_ok s'.
Proof.
  intros R A. constructor.
  - intros id m' Hm' Hh. rewrite (as_gate _ _ A). destruct (as_heap _ _ A _ _ Hm') as [(m & Hm & E & _)|E]; [|by rewrite E in Hh].
    apply (ro_holds _ R _ m); [done|by rewrite <- E].
  - intros id. rewrite (as_gate _ _ A). intros Hg. destruct (ro_gate _ R _ Hg) as (m & Hm & Hh).
    destruct (as_keep _ _ A _ _ Hm) as (m' & ? & E & _). exists m'. by rewrite E.
  - intros id. rewrite (as_writer _ _ A). intros Hw. destruct (ro_writer _ R _ Hw) as (m & Hm & Hh).
    destruct (as_keep _ _ A _ _ Hm) as (m' & ? & E & _). exists m'. by rewrite E.
  - intros id m' Hm' a rest e Hp. destruct (as_heap _ _ A _ _ Hm') as [(m & Hm & E & Et)|E]; [|congruence].
    rewrite E in Hp. destruct (ro_writing _ R _ _ Hm _ _ _ Hp) as (H1 & H2 & H3 & H4). unfold isPrimary.
    rewrite (as_writer _ _ A), (as_closed _ _ A), (as_deadline _ _ A), (as_primary _ _ A), Et. split_and!; try done.
    destruct H4 as [H4|H4]; [left; by apply A|by right].
  - intros id a bs. rewrite (as_output _ _ A). intros Hin. destruct (ro_output _ R _ _ _ Hin) as (m & Hm & ->).
    destruct (as_keep _ _ A _ _ Hm) as (m' & ? & _ & E). exists m'. by rewrite E.
  - rewrite (as_half _ _ A), (as_closed _ _ A). apply R.
  - intros id m' Hm' E. destruct (as_heap _ _ A _ _ Hm') as [(m & Hm & Ep & _)|?]; [|congruence].
    rewrite (as_closed _ _ A). apply (ro_closing _ R id m); [done|congruence].
Qed.

(** *** Readers *)

Lemma may_write_holds pc : may_write pc = true → holding pc = true.
Proof. by destruct pc. Qed.

Lemma exclusive s id id' m' : responses_ok s → responseGate s = None ∨ responseGate s = Some id →
  heap s !! id' = Some m' → id' ≠ id → holding (rpc m') = false.
Proof.
  intros R Hg Hm' Hne. destruct (holding (rpc m')) eqn:E; [|done]. pose proof (ro_holds _ R _ _ Hm' E). naive_solver congruence.
Qed.

(** A reader without the gate. *)
Lemma reader_neutral s id m m' s' : responses_ok s → heap s !! id = Some m → heap s' = <[id := m']> (heap s) → target m' = target m →
  holding (rpc m) = false → holding (rpc m') = false → responseGate s' = responseGate s → responseWriter s' = responseWriter s →
  responseClosed s' = responseClosed s → visitor_half s' = visitor_half s → output s' = output s →
  primaryClientID s' = primaryClientID s → visitor_deadline s' = visitor_deadline s → cancelled s' = cancelled s → responses_ok s'.
Proof.
  intros R Hm Eh Et Hh Hh' Eg Ew Ec Ev Eo Ep Ed Ex.
  assert (Hf : ∀ id' m0, heap s !! id' = Some m0 → holding (rpc m0) = true → heap s' !! id' = Some m0).
  { intros id' m0 Hm0 H. rewrite Eh, lookup_insert_ne; [done|]. intros <-. congruence. }
  assert (Hb : ∀ id' m0, heap s' !! id' = Some m0 → holding (rpc m0) = true → heap s !! id' = Some m0).
  { intros id' m0 Hm0 H. rewrite Eh, lookup_insert in Hm0. case_decide; [|done]. simplify_eq. congruence. }
  constructor.
  - intros id' m0 Hm0 H. rewrite Eg. by eapply ro_holds; [|apply Hb|].
  - intros id'. rewrite Eg. intros (m0 & ? & ?)%(ro_gate _ R). exists m0. split; [by apply Hf|done].
  - intros id'. rewrite Ew. intros (m0 & ? & ?)%(ro_writer _ R). exists m0. split; [apply Hf; [done|by apply may_write_holds]|done].
  - intros id' m0 Hm0 a rest e E. assert (H : holding (rpc m0) = true) by (by rewrite E).
    pose proof (ro_writing _ R _ _ (Hb _ _ Hm0 H) _ _ _ E) as Hw. unfold isPrimary in *. by rewrite Ew, Ec, Ep, Ed, Ex.
  - intros id' a bs. rewrite Eo. intros (m0 & Hm0 & ->)%(ro_output _ R). rewrite Eh, lookup_insert. case_decide; [|by eauto].
    simplify_eq. eexists. split; [done|]. by rewrite Et.
  - rewrite Ev, Ec. apply R.
  - intros id' m0 Hm0 E. assert (H : holding (rpc m0) = true) by (by rewrite E). rewrite Ec. by eapply ro_closing; [|apply Hb|].
Qed.

(** A reader that takes, has or gives up the gate. *)
Lemma reader_gate s id m m' s' : responses_ok s → heap s !! id = Some m → heap s' = <[id := m']> (heap s) → target m' = target m →
  responseGate s = None ∨ responseGate s = Some id →
  responseGate s' = (if holding (rpc m') then Some id else None) →
  responseWriter s' = None ∨ responseWriter s' = Some id ∧ may_write (rpc m') = true →
  writing_ok s' id m' →
  output s' = output s ∨ (∃ bs, output s' = output s ++ [(id, Some (ClientID (target m)), bs)]) →
  (visitor_half s' = true → responseClosed s' = true) → (rpc m' = REofClose → responseClosed s' = true) → responses_ok s'.
Proof.
  intros R Hm Eh Et Hg Eg Hw Hwr Ho Hv Hc.
  assert (Hex : ∀ id' m0, heap s' !! id' = Some m0 → id' = id ∧ m0 = m' ∨ id' ≠ id ∧ holding (rpc m0) = false ∧ heap s !! id' = Some m0).
  { intros id' m0. rewrite Eh, lookup_insert. case_decide; [intros [= <-]; by left|].
    intros Hm0. right. split; [done|]. split; [by eapply exclusive|done]. }
  assert (Hid : heap s' !! id = Some m') by (by rewrite Eh, lookup_insert_eq).
  constructor.
  - intros id' m0 Hm0 H. destruct (Hex _ _ Hm0) as [[-> ->]|(_ & ? & _)]; [by rewrite Eg, H|congruence].
  - intros id'. rewrite Eg. destruct (holding (rpc m')) eqn:E; [|done]. intros [= <-]. eauto.
  - intros id' E. destruct Hw as [?|[E' ?]]; [congruence|]. rewrite E in E'. injection E' as ->. eauto.
  - intros id' m0 Hm0. destruct (Hex _ _ Hm0) as [[-> ->]|(_ & H & _)]; [done|]. intros a rest e E. by rewrite E in H.
  - assert (Hold : ∀ id' a bs, (id', a, bs) ∈ output s → ∃ m0, heap s' !! id' = Some m0 ∧ a = Some (ClientID (target m0))).
    { intros id' a bs (m0 & Hm0 & ->)%(ro_output _ R). rewrite Eh, lookup_insert. case_decide; [|by eauto].
      simplify_eq. eexists. split; [done|]. by rewrite Et. }
    intros id' a bs. destruct Ho as [->|[bs' ->]]; [by apply Hold|].
    rewrite elem_of_app, list_elem_of_singleton. intros [?|[= -> -> ->]]; [by eapply Hold|]. exists m'. by rewrite Et.
  - done.
  - intros id' m0 Hm0 E. destruct (Hex _ _ Hm0) as [[-> ->]|(_ & H & _)]; [by apply Hc|by rewrite E in H].
Qed.

Lemma heap_on_insert id f s m : heap s !! id = Some m → heap (on_member id f s) = <[id := f m]> (heap s).
Proof.
  intros Hm. apply map_eq. intros id'. rewrite heap_on_member, lookup_insert. case_decide; [subst|done]. by rewrite Hm.
Qed.

(** Inside the gate, only a reader that may write is the response writer. *)
Lemma no_other_writer s id m : responses_ok s → heap s !! id = Some m → responseGate s = Some id →
  responseWriter s = None ∨ responseWriter s = Some id ∧ may_write (rpc m) = true.
Proof.
  intros R Hm Hg. destruct (responseWriter s) as [w|] eqn:E; [|by left]. destruct (ro_writer _ R _ E) as (m0 & Hm0 & H).
  pose proof (ro_holds _ R _ _ Hm0 (may_write_holds _ H)). right. naive_solver congruence.
Qed.

Lemma not_writing s id m : (∀ a rest e, rpc m ≠ RWriting a rest e) → writing_ok s id m.
Proof. intros H a rest e E. by destruct (H a rest e). Qed.

Section reader.
Context (s : TCPSession) (id : nat) (m : tcpMember) (R : responses_ok s) (Hm : heap s !! id = Some m).

Lemma goto_neutral pc : holding (rpc m) = false → holding pc = false → responses_ok (reader_goto id pc s).
Proof using R Hm. intros. by eapply (reader_neutral s id m (m <| rpc := pc |>)); try done; apply heap_on_insert. Qed.

Lemma fail_neutral : holding (rpc m) = false → responses_ok (reader_fail id s).
Proof using R Hm.
  intros. eapply (reader_neutral s id m ((close m) <| rpc := RDone |>)); try done.
  - exact (heap_on_insert id (λ m, (close m) <| rpc := RDone |>) s m Hm).
  - by destruct (same_reader_close m).
Qed.

Lemma goto_gate pc s0 : heap s0 = heap s → responseGate s = None ∨ responseGate s = Some id →
  responseGate s0 = (if holding pc then Some id else None) →
  responseWriter s0 = None ∨ responseWriter s0 = Some id ∧ may_write pc = true →
  writing_ok s0 id (m <| rpc := pc |>) →
  output s0 = output s ∨ (∃ bs, output s0 = output s ++ [(id, Some (ClientID (target m)), bs)]) →
  (visitor_half s0 = true → responseClosed s0 = true) → (pc = REofClose → responseClosed s0 = true) →
  responses_ok (reader_goto id pc s0).
Proof using R Hm.
  intros Eh. intros. eapply (reader_gate s id m (m <| rpc := pc |>)); try done.
  rewrite <- Eh. apply heap_on_insert. by rewrite Eh.
Qed.

Lemma fail_gate s0 : heap s0 = heap s → responseGate s = Some id → responseGate s0 = None → responseWriter s0 = None →
  output s0 = output s → (visitor_half s0 = true → responseClosed s0 = true) → responses_ok (reader_fail id s0).
Proof using R Hm.
  intros Eh. intros. eapply (reader_gate s id m ((close m) <| rpc := RDone |>)); try done; auto.
  - rewrite <- Eh in Hm |- *. exact (heap_on_insert id (λ m, (close m) <| rpc := RDone |>) s0 m Hm).
  - by destruct (same_reader_close m).
Qed.

Lemma acquire_response_ok s' pc c : holding (rpc m) = false → holding pc = true → may_write pc = false →
  pc ≠ REofClose → acquireResponse id pc c s = Some s' → responses_ok s'.
Proof using R Hm.
  intros Hh Hp Hw Hc. unfold acquireResponse. destruct c; try done; case_match; try done; intros [= <-].
  - by apply fail_neutral.
  - assert (Hg : responseGate s = None) by (by destruct (responseGate s)).
    apply goto_gate; cbn; try done; auto; try (by rewrite Hp).
    + left. destruct (responseWriter s) as [w|] eqn:E; [|done]. destruct (ro_writer _ R _ E) as (m0 & Hm0 & Hmw).
      pose proof (ro_holds _ R _ _ Hm0 (may_write_holds _ Hmw)). congruence.
    + apply not_writing. intros a rest e. cbn. by intros ->.
    + apply R.
Qed.

Lemma reader_ok c s' : reader_step id c s = Some s' → responses_ok s'.
Proof using R Hm.
  unfold reader_step. rewrite Hm.
  assert (Hg : holding (rpc m) = true → responseGate s = Some id) by (by apply ro_holds).
  assert (Hw : holding (rpc m) = true → may_write (rpc m) = false → responseWriter s = None).
  { intros H1 H2. destruct (no_other_writer _ _ _ R Hm (Hg H1)) as [?|[_ ?]]; [done|congruence]. }
  assert (Hv := ro_half _ R). assert (Hwr := ro_writing _ R _ _ Hm).
  destruct (rpc m) eqn:E; cbn in Hg, Hw; try specialize (Hg eq_refl); try specialize (Hw eq_refl eq_refl); intros H;
    lazymatch type of H with acquireResponse _ ?pc _ _ = _ => apply (acquire_response_ok s' pc) in H; rewrite ?E; done | _ => idtac end;
    destruct c; try done; repeat (case_match; try done); simplify_eq;
    try (by apply goto_neutral; rewrite ?E); try (by apply fail_neutral; rewrite ?E); try (by apply fail_gate);
    try (destruct (no_other_writer _ _ _ R Hm Hg) as [?|[? _]]);
    (apply goto_gate; cbn; auto; try (by apply not_writing); try apply (ro_half _ R); try done);
    try (destruct (Hwr _ _ _ E) as (H1 & -> & H2 & H3); first [by eauto | intros a rest' e0 [= <- <- <-]; by split_and!]).
  1,2: match goal with H : responseEligibleLocked s id m = true |- _ => unfold responseEligibleLocked, isPrimary in H end;
    bool_to_prop; intros a rest e0 [= <- <- <-]; cbn; split_and!; try done; right;
    unfold isPrimary; cbn; symmetry; apply negb_false_iff; by apply bool_decide_eq_true.
  all: intros _; by eapply ro_closing.
Qed.
End reader.

(** *** A new Primary *)

Lemma set_primary_responses clientID failing ok s : responses_ok s → responses_ok (SetPrimary clientID failing ok s).
Proof.
  intros R. unfold SetPrimary. case_match; [done|].
  set (s0 := s <| primaryClientID := Some clientID |> <| primaryChanged := S (primaryChanged s) |>).
  pose proof (aside_roles failing s0) as A. set (s1 := update_roles failing s0) in *.
  set (s2 := match responseWriter s1 ≫= _ with Some _ => _ | None => _ end).
  assert (Hk : ∀ id m, heap s !! id = Some m → ∃ m', heap s1 !! id = Some m' ∧ same_reader m m') by apply A.
  assert (Hb : ∀ id m', heap s1 !! id = Some m' → (∃ m, heap s !! id = Some m ∧ same_reader m m') ∨ rpc m' = RRead) by apply A.
  set (s3 := if responseClosed s2 then Cancel s2 else s2).
  assert (F : heap s3 = heap s1 ∧ responseGate s3 = responseGate s ∧ responseWriter s3 = responseWriter s ∧
    responseClosed s3 = responseClosed s ∧ visitor_half s3 = visitor_half s ∧ output s3 = output s ∧ primaryClientID s3 = Some clientID).
  { unfold s3, s2. by destruct (_ ≫= _); [destruct ok|]; case_match. }
  assert (Hd : ∀ id m, responseWriter s = Some id → heap s1 !! id = Some m →
    cancelled s3 = true ∨ visitor_deadline s3 = negb (bool_decide (ClientID (target m) = clientID))).
  { intros id m Hw Hm. unfold s3, s2. change (responseWriter s1) with (responseWriter s). rewrite Hw. cbn [mbind option_bind].
    rewrite Hm. destruct ok; case_match; auto. }
  destruct F as (Eh & Eg & Ew & Ec & Ev & Eo & Ep). constructor; rewrite ?Eh, ?Eg, ?Ew, ?Ec, ?Ev, ?Eo.
  - intros id m' Hm' Hh. destruct (Hb _ _ Hm') as [(m & Hm & E & _)|E]; [|by rewrite E in Hh].
    apply (ro_holds _ R _ m); [done|congruence].
  - intros id (m & Hm & Hh)%(ro_gate _ R). destruct (Hk _ _ Hm) as (m' & ? & E & _). exists m'. by rewrite E.
  - intros id (m & Hm & Hh)%(ro_writer _ R). destruct (Hk _ _ Hm) as (m' & ? & E & _). exists m'. by rewrite E.
  - intros id m' Hm' a rest e Hp. destruct (Hb _ _ Hm') as [(m & Hm & E & Et)|E]; [|congruence].
    rewrite E in Hp. destruct (ro_writing _ R _ _ Hm _ _ _ Hp) as (H1 & H2 & H3 & H4). rewrite Ew, Ec, Et. split_and!; try done.
    destruct (Hd _ _ H1 Hm') as [?| ->]; [by left|right]. f_equal. unfold isPrimary. rewrite Ep. apply bool_decide_ext. naive_solver.
  - intros id a bs (m & Hm & ->)%(ro_output _ R). destruct (Hk _ _ Hm) as (m' & ? & _ & E). exists m'. by rewrite E.
  - apply R.
  - intros id m' Hm' E. destruct (Hb _ _ Hm') as [(m & Hm & Epc & _)|?]; [|congruence].
    apply (ro_closing _ R id m); [done|congruence].
Qed.

Section theorems.
Context (ρ : go_range string nat).

Lemma reachable_responses s : reachable ρ s → responses_ok s.
Proof using Type.
  induction 1 as [|s a s' Hr IH H]; [constructor; cbn; try done; by intros ??? ?%elem_of_nil|]. pose proof (reachable_copies _ _ Hr) as I.
  destruct (is_response_step a) eqn:Ea.
  - destruct a; try done; cbn in H; simplify_eq; [by apply set_primary_responses|].
    pose proof H as H'. unfold reader_step in H'. destruct (heap s !! id) as [m|] eqn:Hm; [|done]. by eapply reader_ok.
  - eapply responses_aside; [done|]. eapply aside_step; try done. apply eq_None_not_Some. intros [m Hm].
    pose proof (mo_id _ _ _ (co_member _ I _ _ Hm)). lia.
Qed.
(** Only a write of the reader that is the response writer reaches the visitor. *)
Lemma output_step a s s' : reachable ρ s → step ρ a s = Some s' → output s' ≠ output s →
  ∃ id m authority rest e n, heap s !! id = Some m ∧ rpc m = RWriting authority rest e ∧
    output s' = output s ++ [(id, authority, take n rest)].
Proof using Type.
  intros Hr H Ho. pose proof (reachable_copies _ _ Hr) as I.
  destruct (is_response_step a) eqn:Ea; [|destruct Ho; eapply as_output, aside_step; [done..|]; apply eq_None_not_Some;
    intros [m Hm]; pose proof (mo_id _ _ _ (co_member _ I _ _ Hm)); lia].
  destruct a; try done; cbn in H.
  - simplify_eq. destruct Ho. unfold SetPrimary. by repeat case_match.
  - unfold reader_step, acquireResponse in H. destruct (heap s !! id) as [m|] eqn:Hm; [|done].
    destruct (rpc m) as [| | |authority rest e| | | | | | | |] eqn:Er; destruct c; try done;
      repeat (case_match; try done); simplify_eq; try (by destruct Ho). by eexists id, m, authority, rest, e, n.
Qed.

(** Whatever reaches the visitor is written by one member: the one that
    was the Primary when its write was admitted.  No other member is writing,
    the response direction has not been half-closed, and unless the session is
    being cancelled the write is free of a deadline exactly as long as its
    member is still the Primary. *)
Theorem response_authority a s s' : reachable ρ s → step ρ a s = Some s' → output s' ≠ output s →
  ∃ id m rest e n, heap s !! id = Some m ∧ rpc m = RWriting (Some (ClientID (target m))) rest e ∧
    output s' = output s ++ [(id, Some (ClientID (target m)), take n rest)] ∧
    (∀ id' m', heap s !! id' = Some m' → holding (rpc m') = true → id' = id) ∧
    visitor_half s = false ∧ (cancelled s = true ∨ visitor_deadline s = negb (isPrimary s m)).
Proof using Type.
  intros Hr H Ho. pose proof (reachable_responses _ Hr) as R.
  destruct (output_step _ _ _ Hr H Ho) as (id & m & authority & rest & e & n & Hm & Hp & E).
  destruct (ro_writing _ R _ _ Hm _ _ _ Hp) as (_ & -> & Hc & Hd). exists id, m, rest, e, n. split_and!; try done.
  - intros id' m' Hm' Hh. pose proof (ro_holds _ R _ _ Hm' Hh). assert (Hh0 : holding (rpc m) = true) by (by rewrite Hp).
    pose proof (ro_holds _ R _ _ Hm Hh0). congruence.
  - destruct (visitor_half s) eqn:Ev; [|done]. apply (ro_half _ R) in Ev. congruence.
Qed.
End theorems.

(** ** Roles *)

Definition role_ok (s : TCPSession) (m : tcpMember) : Prop :=
  (∀ rest, wpc m = WWrite rest → deadline m = negb (isPrimary s m)) ∧
  (closed s = true → is_some (drainTimer m) = negb (isPrimary s m)).

Definition roles_ok (s : TCPSession) : Prop :=
  ∀ id m, heap s !! id = Some m → published s id m = true → stopped m = false → role_ok s m.

(** A member whose deadline and timer stay what they are. *)
Definition steady_member (m m' : tcpMember) : Prop :=
  target m' = target m ∧ (stopped m' = false → stopped m = false ∧ deadline m' = deadline m ∧ drainTimer m' = drainTimer m ∧
  (∀ rest, wpc m' = WWrite rest → ∃ rest', wpc m = WWrite rest')).

Lemma steady_refl m : steady_member m m.
Proof. split; [done|]. intros ?. split_and!; eauto. Qed.

Lemma steady_close m pc pc' : steady_member m ((close m) <| wpc := pc |>) ∧ steady_member m (close m) ∧ steady_member m ((close m) <| rpc := pc' |>).
Proof.
  split_and!; split; try (by destruct (same_reader_close m)); intros Hs; exfalso; revert Hs;
    [change (stopped (close m) ≠ false)|change (stopped (close m) ≠ false)|change (stopped (close m) ≠ false)]; by rewrite close_stopped.
Qed.

Record steady (s s' : TCPSession) : Prop := {
  st_primary : primaryClientID s' = primaryClientID s;
  st_closed : closed s' = closed s;
  st_members c id : members s' !! c = Some id → members s !! c = Some id ∨ id = next_id s;
  st_heap id m' : heap s' !! id = Some m' → (∃ m, heap s !! id = Some m ∧ steady_member m m') ∨
    closed s = false ∧ wpc m' = WSelect
}.

Lemma roles_steady s s' : copies_ok s → roles_ok s → steady s s' → roles_ok s'.
Proof.
  intros I R S id m' Hm' Hp Hs. unfold role_ok. rewrite (st_closed _ _ S).
  destruct (st_heap _ _ S _ _ Hm') as [(m & Hm & Et & Hst)|[Hc Hw]]; cycle 1.
  { split; intros; congruence. }
  destruct (Hst Hs) as (Hs0 & Ed & Edt & Hw). unfold published in Hp. bool_to_prop. rewrite Et in Hp.
  assert (Hp0 : published s id m = true).
  { apply bool_decide_eq_true. destruct (st_members _ _ S _ _ Hp) as [?| ->]; [done|].
    pose proof (mo_id _ _ _ (co_member _ I _ _ Hm)). lia. }
  destruct (R _ _ Hm Hp0 Hs0) as [R1 R2]. unfold isPrimary in *. rewrite (st_primary _ _ S), Et, Ed, Edt. split; [|done].
  intros rest E. destruct (Hw _ E) as [rest' E']. by eapply R1.
Qed.

Lemma steady_on_member id f s : (∀ m, heap s !! id = Some m → steady_member m (f m)) → steady s (on_member id f s).
Proof.
  intros Hf. constructor; try done; [by left|]. intros id' m'. rewrite heap_on_member. case_decide.
  - subst. destruct (heap s !! id') as [m|]; [|done]. cbn. intros [= <-]. left. eauto.
  - intros ?. left. eauto using steady_refl.
Qed.

Definition irrelevant (s s' : TCPSession) : Prop :=
  primaryClientID s' = primaryClientID s ∧ closed s' = closed s ∧ members s' ⊆ members s ∧ heap s' = heap s.

Lemma steady_irrelevant s s' : irrelevant s s' → steady s s'.
Proof.
  intros (? & ? & Hm & Eh). constructor; try done.
  - intros c id Hc. left. by eapply lookup_weaken.
  - intros id m'. rewrite Eh. intros ?. left. eauto using steady_refl.
Qed.

Lemma steady_after s s0 s' : steady s s0 → irrelevant s0 s' → steady s s'.
Proof.
  intros [] (Ep & Ec & Hm & Eh). constructor; rewrite ?Ep, ?Ec, ?Eh; try done. intros c id Hc. eapply st_members0, lookup_weaken; done.
Qed.

Lemma steady_before s s0 s' : irrelevant s s0 → next_id s0 = next_id s → steady s0 s' → steady s s'.
Proof.
  intros (Ep & Ec & Hm & Eh) En []. constructor; rewrite <- ?Ep, <- ?Ec, <- ?Eh, <- ?En; try done.
  intros c id Hc. destruct (st_members0 _ _ Hc) as [?|?]; [left; by eapply lookup_weaken|by right].
Qed.

Ltac irrelevant := unfold irrelevant; split_and!; try done; try apply delete_subseteq.

Lemma steady_reader id c s s' : reader_step id c s = Some s' → steady s s'.
Proof.
  unfold reader_step, acquireResponse, reader_goto, reader_fail. intros H.
  repeat (case_match; try done); simplify_eq;
    (eapply steady_before; [| |apply steady_on_member; intros m _; first [apply (steady_close m WDone RDone)|split; [done|]; by eauto]];
     [irrelevant|done]).
Qed.

Lemma steady_close_member id s : steady s (on_member id close s).
Proof. apply steady_on_member. intros m _. apply (steady_close m WDone RDone). Qed.

Lemma steady_worker_close w f id s : steady s (on_worker w f (on_member id close s)).
Proof. eapply (steady_after _ (on_member id close s)); [apply steady_close_member|irrelevant]. Qed.

Lemma steady_worker w c s s' : worker_step w c s = Some s' → heap s !! next_id s = None → steady s s'.
Proof.
  unfold worker_step, when, worker_goto, addConnection, forget_worker. intros H Hn.
  repeat (case_match; try done); simplify_eq; try (apply steady_irrelevant; by irrelevant); try apply steady_worker_close.
  constructor; try done; cbn.
  - intros c0 id. rewrite lookup_insert. case_decide; [intros [= <-]; by right|by left].
  - intros id m'. rewrite lookup_insert. case_decide; [intros [= <-]; right; by split|]. intros ?. left. eauto using steady_refl.
Qed.

(** After a change of roles every published member has its own. *)
Lemma update_roles_ok failing s : roles_ok (update_roles failing s).
Proof.
  intros id m' Hm' Hp Hs. cbn in Hm'. rewrite map_lookup_imap in Hm'. destruct (heap s !! id) as [m|] eqn:Hm; [|done]. cbn in Hm'.
  injection Hm' as <-. destruct (published s id m) eqn:E; [|change (published s id m = true) in Hp; congruence].
  unfold role_ok, updateMemberRoleLocked in *. destruct (bool_decide (id ∉ failing)).
  - cbn. split; [done|]. intros ->. unfold isPrimary. cbn. case (bool_decide _); done.
  - exfalso. change (stopped (close m) = false) in Hs. by rewrite close_stopped in Hs.
Qed.

Lemma roles_same s s' : roles_ok s → heap s' = heap s → members s' = members s → closed s' = closed s →
  primaryClientID s' = primaryClientID s → roles_ok s'.
Proof.
  intros R Eh Em Ec Ep id m. rewrite Eh. unfold published. rewrite Em. intros Hm Hp Hs. unfold role_ok, isPrimary. rewrite Ec, Ep.
  by apply (R _ _ Hm).
Qed.

Section roles.
Context (ρ : go_range string nat).

Lemma close_input_roles failing s : roles_ok s → roles_ok (closeInput ρ failing s).1.
Proof using Type. unfold closeInput. case_match; [done|]. intros _. apply update_roles_ok. Qed.

Lemma serve_member_roles pc id f s s0 : copies_ok s → roles_ok s → irrelevant s s0 → next_id s0 = next_id s →
  (∀ m, steady_member m (f m)) → roles_ok (serve_goto pc (on_member id f s0)).
Proof using Type.
  intros I R Hi Hn Hf. eapply roles_steady; [done|done|]. eapply (steady_after _ (on_member id f s0)); [|irrelevant].
  eapply steady_before; [done..|]. apply steady_on_member. intros m _. apply Hf.
Qed.

Lemma serve_roles c s s' : copies_ok s → roles_ok s → serve_step ρ c s = Some s' → roles_ok s'.
Proof using Type.
  intros I R. unfold serve_step, when, enqueue, send, close_queue. intros H. repeat (case_match; try done); simplify_eq;
    try (by eapply (roles_same s)); try (eapply roles_same; [by apply (close_input_roles ids)|done..]);
    try (apply (serve_member_roles _ _ _ s); [done|done|irrelevant|done|];
         intros m; first [apply (steady_close m WDone RDone)|split; [done|]; by eauto]).
  - match goal with E : AddTarget ?t s = _ |- _ => pose proof (add_target_fields t s) as Hf; pose proof (aside_add_target t s) as A;
      rewrite E in Hf, A end. destruct Hf as (Eh & Em & _ & _ & Ec & _). apply as_primary in A. by eapply (roles_same s).
  - match goal with E : closeInput ρ ?ids s = _ |- _ => pose proof (close_input_roles ids s R) as Hr; rewrite E in Hr end.
    by eapply roles_same.
Qed.

Lemma writer_roles id c s s' : copies_ok s → roles_ok s → writer_step id c s = Some s' → roles_ok s'.
Proof using Type.
  intros I R. unfold writer_step. destruct (heap s !! id) as [m|] eqn:Hm; [|done]. intros H.
  repeat (case_match; try done); simplify_eq;
    try (eapply roles_steady; [done|done|]; apply steady_on_member; intros m0 Hm0; simplify_eq;
         first [apply (steady_close m WDone RDone)|split; [done|]; intros ?; split_and!; try done; cbn; by eauto]; fail).
  intros id' m' Hm' Hp Hs. rewrite heap_on_member in Hm'. case_decide; [subst|by eapply R].
  rewrite Hm in Hm'. cbn in Hm'. injection Hm' as <-. split; [done|]. by destruct (R _ _ Hm Hp Hs).
Qed.

Lemma reachable_roles s : reachable ρ s → roles_ok s.
Proof using Type.
  induction 1 as [|s a s' Hr IH H]; [intros id m Hm; cbn in Hm; by rewrite lookup_empty in Hm|]. pose proof (reachable_copies _ _ Hr) as I.
  assert (Hn : heap s !! next_id s = None).
  { apply eq_None_not_Some. intros [m Hm]. pose proof (mo_id _ _ _ (co_member _ I _ _ Hm)). lia. }
  destruct a; cbn in H; unfold when in H;
    try (first [by eapply serve_roles|by eapply writer_roles|by eapply roles_steady, steady_reader|by eapply roles_steady, steady_worker]);
    try (repeat case_match; simplify_eq; by eapply (roles_same s)).
  - simplify_eq. unfold SetPrimary. case_match; [done|]. eapply roles_same; [apply (update_roles_ok failing)|..]; by repeat case_match.
  - simplify_eq. pose proof (add_target_fields t s) as (Eh & Em & _ & _ & Ec & _). pose proof (aside_add_target t s) as A.
    apply as_primary in A. by eapply (roles_same s).
  - case_match; simplify_eq. eapply roles_steady; [done|done|]. apply steady_on_member. intros m _.
    split; [done|]. cbn. done.
  - repeat case_match; simplify_eq. eapply roles_steady; [done|done|]. apply steady_close_member.
  - repeat case_match; simplify_eq. eapply roles_steady; [done|done|]. apply steady_close_member.
Qed.

(** The Primary is never cut off by a timer: as long as a member is in
    service and is the Primary, its pending write has no deadline and no drain
    timer runs for it; for every other member in service a pending write has a
    deadline, and after the end of the visitor's input a drain timer runs.
    This follows the role through every change of the Primary. *)
Theorem roles_enforced s id m : reachable ρ s → heap s !! id = Some m → published s id m = true → stopped m = false →
  (∀ rest, wpc m = WWrite rest → deadline m = negb (isPrimary s m)) ∧
  (closed s = true → is_some (drainTimer m) = negb (isPrimary s m)).
Proof using Type. intros Hr Hm Hp Hs. exact (reachable_roles _ Hr _ _ Hm Hp Hs). Qed.
End roles.

(** ** Witnesses *)

Module DemoResponses.
Definition sending : list Action :=
  DemoMirror.join ++ DemoMirror.feed DemoMirror.x1 OnQueue ++ [WriterStep 1 OnQueue; WriterStep 1 (Outcome true)].
Definition admitted : list Action :=
  DemoMirror.join ++ [ReaderStep 1 (Read [DemoMirror.x3] None); ReaderStep 1 OnGate; ReaderStep 1 (Outcome true)].
End DemoResponses.

Lemma roles_enforced_witness : deadline (DemoMirror.member DemoResponses.sending) = false.
Proof.
  assert (H := roles_enforced any_range (DemoMirror.after DemoResponses.sending) 1 (DemoMirror.member DemoResponses.sending)).
  destruct H as [H _]; [apply DemoMirror.after_reachable; vm_compute; reflexivity|vm_compute; reflexivity..|].
  apply (H [DemoMirror.x1]). vm_compute. reflexivity.
Defined.

Lemma response_authority_witness : ∃ s', step any_range (ReaderStep 1 (Accept 1)) (DemoMirror.after DemoResponses.admitted) = Some s' ∧
  ∃ id m n rest, output s' = output (DemoMirror.after DemoResponses.admitted) ++ [(id, Some (ClientID (target m)), take n rest)].
Proof.
  destruct (step any_range (ReaderStep 1 (Accept 1)) (DemoMirror.after DemoResponses.admitted)) as [s'|] eqn:E;
    [|vm_compute in E; discriminate].
  exists s'. split; [reflexivity|].
  destruct (response_authority any_range (ReaderStep 1 (Accept 1)) (DemoMirror.after DemoResponses.admitted) s')
    as (id & m & rest & e & n & _ & _ & Ho & _).
  - apply DemoMirror.after_reachable. vm_compute. reflexivity.
  - exact E.
  - vm_compute in E. injection E as <-. vm_compute. discriminate.
  - exists id, m, n, rest. exact Ho.
Defined.
