(* ===== verification/MirrorLifetime.v ===== *)
(** * The end of a mirror session

    Every link of a session has a worker that waits for its threads, and
    [Serve] waits for the workers: when it returns, no goroutine runs and no
    connection is open.  Once the session is cancelled and its connections are
    closed it does return: the remaining threads cannot run forever, and as
    long as [Serve] has not returned one of them can run. *)

From S2P Require Import Prelude GoTime NetAddr MirrorTcp MirrorCopies MirrorResponses.

Local Open Scope Z_scope.

(** ** Ownership *)

Definition finished_member (m : tcpMember) : Prop := m_close m = ConnClosed ∧ wpc m = WDone ∧ rpc m = RDone.

(** The member a worker is responsible for. *)
Definition holds (pc : WorkerPc) : option nat :=
  match pc with
  | KStart id _ | KServe id | KDrain id | KFlush id | KClose id | KClosing id | KAbandon id | KJoin id | KRemove id => Some id
  | _ => None
  end.

(** How far it has brought that member to an end. *)
Definition progress (pc : WorkerPc) (m : tcpMember) : Prop :=
  match pc with
  | KAbandon _ | KJoin _ => m_close m = ConnClosed
  | KRemove _ => finished_member m
  | _ => True
  end.

Definition delay_ok (k : tcpWorker) : Prop := mirrorTCPRetryInterval <= delay k <= mirrorTCPMaxRetryInterval.

Record owned_ok (s : TCPSession) : Prop := {
  ow_member id m : heap s !! id = Some m → finished_member m ∨ ∃ w k, threads s !! w = Some k ∧ holds (kpc k) = Some id;
  ow_worker w k : threads s !! w = Some k → (w < next_id s)%nat ∧ delay_ok k ∧
    ∀ id, holds (kpc k) = Some id → ∃ m, heap s !! id = Some m ∧ progress (kpc k) m;
  ow_closed : spc s = SCancel ∨ spc s = SJoin ∨ spc s = SDone → closed s = true;
  ow_cancelled : spc s = SJoin ∨ spc s = SDone → cancelled s = true;
  ow_done : spc s = SDone → map_Forall (λ _ k, kpc k = KDone) (threads s) ∧ visitor_closed s = true
}.

(** Members only come closer to their end. *)
Definition later (m m' : tcpMember) : Prop :=
  (m_close m = ConnClosed → m_close m' = ConnClosed) ∧ (wpc m = WDone → wpc m' = WDone) ∧ (rpc m = RDone → rpc m' = RDone).

Lemma later_refl m : later m m.
Proof. by split_and!. Qed.

Lemma later_close m : later m (close m).
Proof. unfold close, later. destruct (m_close m) eqn:E; cbn; by rewrite ?E. Qed.

Lemma later_role s ok m : later m (updateMemberRoleLocked s ok m).
Proof.
  unfold updateMemberRoleLocked. destruct ok; [by split_and!|]. destruct (later_close m) as (H1 & H2 & H3). by split_and!.
Qed.

Definition heap_later (s s' : TCPSession) : Prop :=
  (∀ id m, heap s !! id = Some m → ∃ m', heap s' !! id = Some m' ∧ later m m') ∧
  (∀ id m', heap s' !! id = Some m' → ∃ m, heap s !! id = Some m ∧ later m m').

Lemma heap_later_same s s' : heap s' = heap s → heap_later s s'.
Proof. intros E. split; rewrite E; eauto using later_refl. Qed.

Lemma heap_later_trans s s0 s' : heap_later s s0 → heap_later s0 s' → heap_later s s'.
Proof.
  assert (Ht : ∀ a b c, later a b → later b c → later a c) by (unfold later; intros a b c; intuition).
  intros [A1 A2] [B1 B2]. split.
  - intros id m Hm. destruct (A1 _ _ Hm) as (m0 & Hm0 & ?). destruct (B1 _ _ Hm0) as (m' & ? & ?). eauto.
  - intros id m' Hm'. destruct (B2 _ _ Hm') as (m0 & Hm0 & ?). destruct (A2 _ _ Hm0) as (m & ? & ?). eauto.
Qed.

Lemma heap_later_on id f s : (∀ m, heap s !! id = Some m → later m (f m)) → heap_later s (on_member id f s).
Proof.
  intros Hf. split.
  - intros id' m Hm. rewrite heap_on_member, Hm. case_decide; subst; cbn; eauto using later_refl.
  - intros id' m'. rewrite heap_on_member. case_decide; [subst|by eauto using later_refl].
    destruct (heap s !! id') as [m|]; [|done]. cbn. intros [= <-]. eauto.
Qed.

Lemma heap_later_roles failing s : heap_later s (update_roles failing s).
Proof.
  split; intros id m; cbn; rewrite map_lookup_imap.
  - intros ->. cbn. eexists. split; [done|]. case_match; [apply later_role|apply later_refl].
  - destruct (heap s !! id) as [m0|]; [|done]. cbn. intros [= <-]. exists m0. split; [done|].
    case_match; [apply later_role|apply later_refl].
Qed.

Lemma writer_later id c s s' : writer_step id c s = Some s' → heap_later s s' ∧ threads s' = threads s ∧ spc s' = spc s.
Proof.
  unfold writer_step. intros H. repeat (case_match; try done); simplify_eq; (split; [|done]); apply heap_later_on; intros m Hm; simplify_eq;
    try (by split_and!; cbn; intros; congruence);
    match goal with |- later ?m _ => destruct (later_close m) as (? & ? & ?) end; by split_and!.
Qed.

Lemma reader_goto_later s s0 id pc m : heap s0 = heap s → heap s !! id = Some m → rpc m ≠ RDone → heap_later s (reader_goto id pc s0).
Proof.
  intros E Hm Hr. eapply heap_later_trans; [by apply heap_later_same|]. apply heap_later_on. rewrite E. intros m0 Hm0. simplify_eq.
  by split_and!.
Qed.

Lemma reader_fail_later s s0 id m : heap s0 = heap s → heap s !! id = Some m → heap_later s (reader_fail id s0).
Proof.
  intros E Hm. eapply heap_later_trans; [by apply heap_later_same|]. apply heap_later_on. rewrite E. intros m0 Hm0. assert (m0 = m) as -> by congruence.
  destruct (later_close m) as (H1 & H2 & H3). by split_and!.
Qed.

Lemma reader_later id c s s' : reader_step id c s = Some s' → heap_later s s' ∧ threads s' = threads s ∧ spc s' = spc s.
Proof.
  unfold reader_step, acquireResponse. intros H. destruct (heap s !! id) as [m|] eqn:Hm; [|done]. destruct (rpc m) eqn:E;
    repeat (case_match; try done); simplify_eq; (split; [|done]);
    first [by eapply reader_fail_later | eapply reader_goto_later; [done|done|congruence]].
Qed.

(** A step that leaves the workers alone. *)
Lemma owned_later s s' : owned_ok s → heap_later s s' → threads s' = threads s → (next_id s ≤ next_id s')%nat →
  (spc s' = SCancel ∨ spc s' = SJoin ∨ spc s' = SDone → closed s' = true) →
  (spc s' = SJoin ∨ spc s' = SDone → cancelled s' = true) →
  (spc s' = SDone → map_Forall (λ _ k, kpc k = KDone) (threads s') ∧ visitor_closed s' = true) → owned_ok s'.
Proof.
  intros O [L1 L2] Et Hn Hc Hx Hd. constructor; try done.
  - intros id m' Hm'. destruct (L2 _ _ Hm') as (m & Hm & l1 & l2 & l3). rewrite Et.
    destruct (ow_member _ O _ _ Hm) as [(? & ? & ?)|?]; [left; split_and!; auto|by right].
  - intros w k. rewrite Et. intros Hk. destruct (ow_worker _ O _ _ Hk) as (Hlt & Hdl & Hh). split_and!; [lia|done|].
    intros id Hid. destruct (Hh _ Hid) as (m & Hm & Hp). destruct (L1 _ _ Hm) as (m' & Hm' & l1 & l2 & l3).
    exists m'. split; [done|]. destruct (kpc k); cbn in *; auto. destruct Hp as (? & ? & ?). split_and!; auto.
Qed.

Lemma owned_same_serve s s' : owned_ok s → heap_later s s' → threads s' = threads s → (next_id s ≤ next_id s')%nat → spc s' = spc s →
  (closed s = true → closed s' = true) → (cancelled s = true → cancelled s' = true) → (visitor_closed s = true → visitor_closed s' = true) →
  owned_ok s'.
Proof.
  intros O L Et Hn Es Hc Hx Hv. eapply owned_later; try done; rewrite Es.
  - intros H. by apply Hc, O.
  - intros H. by apply Hx, O.
  - intros H. rewrite Et. destruct (ow_done _ O H). auto.
Qed.

(** Workers *)

Lemma holds_alter s w k f (id : nat) : threads s !! w = Some k → holds (kpc k) = None ∨ holds (kpc (f k)) = holds (kpc k) →
  (∃ w' k', threads s !! w' = Some k' ∧ holds (kpc k') = Some id) →
  ∃ w' k', alter f w (threads s) !! w' = Some k' ∧ holds (kpc k') = Some id.
Proof.
  intros Hk Hh (w' & k' & Hk' & Hid). destruct (decide (w = w')) as [<-|Hne].
  - exists w, (f k). rewrite lookup_alter_eq, Hk. split; [done|]. rewrite Hk in Hk'. injection Hk' as <-.
    destruct Hh as [Hh|Hh]; congruence.
  - exists w', k'. by rewrite lookup_alter_ne.
Qed.

(** One worker moves on; [id]: the member it leaves, if it does, is finished. *)
Lemma owned_worker s s0 w k f : owned_ok s → threads s !! w = Some k → heap_later s s0 → threads s0 = threads s →
  (next_id s ≤ next_id s0)%nat → spc s0 = spc s → (closed s = true → closed s0 = true) → (cancelled s = true → cancelled s0 = true) →
  visitor_closed s0 = visitor_closed s →
  kpc k ≠ KDone → delay_ok (f k) →
  (∀ id, holds (kpc k) = Some id → holds (kpc (f k)) = Some id ∨ ∃ m, heap s0 !! id = Some m ∧ finished_member m) →
  (∀ id, holds (kpc (f k)) = Some id → ∃ m, heap s0 !! id = Some m ∧ progress (kpc (f k)) m) →
  owned_ok (on_worker w f s0).
Proof.
  intros O Hk L Et Hn Es Hc Hx Hv Hd Hdl Hleave Hp.
  assert (O0 : owned_ok s0) by (eapply owned_same_serve; try done; by rewrite Hv).
  assert (Hk0 : threads s0 !! w = Some k) by (by rewrite Et). constructor.
  - intros id m Hm. change (heap (on_worker w f s0)) with (heap s0) in Hm.
    destruct (ow_member _ O0 _ _ Hm) as [?|(w' & k' & Hk' & Hid)]; [by left|]. cbn. destruct (decide (w = w')) as [<-|Hne].
    + rewrite Hk0 in Hk'. injection Hk' as <-. destruct (Hleave _ Hid) as [?|(m0 & ? & ?)]; [|left; congruence].
      right. exists w, (f k). by rewrite lookup_alter_eq, Hk0.
    + right. exists w', k'. by rewrite lookup_alter_ne.
  - intros w' k'. cbn. rewrite lookup_alter. case_decide; [subst w'|apply O0]. rewrite Hk0. cbn. intros [= <-].
    split; [by eapply ow_worker|]. by split.
  - apply O0.
  - apply O0.
  - intros Hs. destruct (ow_done _ O0 Hs) as [Hall _]. by destruct Hd, (Hall _ _ Hk0).
Qed.

Lemma delay_double k pc : delay_ok k → delay_ok (k <| delay := Z.min (delay k * 2) mirrorTCPMaxRetryInterval |> <| kpc := pc |>).
Proof. unfold delay_ok, mirrorTCPRetryInterval, mirrorTCPMaxRetryInterval, Second. cbn. lia. Qed.

Lemma forget_worker_later w k s : heap_later s (forget_worker w k s).
Proof. apply heap_later_same. unfold forget_worker. by case_match. Qed.

Lemma publish_link_owned s s0 w k id previous : owned_ok s → threads s !! w = Some k → kpc k = KPublish → heap s !! next_id s = None →
  addConnection (k_target k) s = (s0, Some (id, previous)) → owned_ok (on_worker w (λ k, k <| kpc := KStart id previous |>) s0).
Proof.
  intros O Hk Ek Hn. unfold addConnection. destruct (closed s) eqn:Ec; [done|]. intros [= <- <- <-].
  destruct (ow_worker _ O _ _ Hk) as (Hlt & Hdl & _). constructor; cbn.
  - intros id m. rewrite lookup_insert. case_decide as E.
    + intros _. right. exists w, (k <| kpc := KStart (next_id s) (members s !! ClientID (k_target k)) |>).
      rewrite lookup_alter_eq, Hk. cbn. by rewrite E.
    + intros Hm. destruct (ow_member _ O _ _ Hm) as [?|Hex]; [by left|right]. eapply holds_alter; [done| |done]. left. by rewrite Ek.
  - intros w' k'. rewrite lookup_alter. case_decide.
    + subst w'. rewrite Hk. cbn. intros [= <-]. split_and!; [lia|done|]. intros id [= <-].
      eexists. split; [apply lookup_insert_eq|done].
    + intros Hk'. destruct (ow_worker _ O _ _ Hk') as (? & ? & Hh). split_and!; [lia|done|]. intros id Hid.
      destruct (Hh _ Hid) as (m & Hm & ?). exists m. rewrite lookup_insert_ne by congruence. done.
  - apply O.
  - apply O.
  - intros Hs. destruct (ow_done _ O Hs) as [Hall _]. specialize (Hall _ _ Hk). cbn in Hall. congruence.
Qed.

Lemma worker_owned w c s s' : owned_ok s → heap s !! next_id s = None → worker_step w c s = Some s' → owned_ok s'.
Proof.
  intros O Hn. unfold worker_step, when, worker_goto. destruct (threads s !! w) as [k|] eqn:Hk; [|done].
  destruct (ow_worker _ O _ _ Hk) as (Hlt & Hdl & Hh). intros H.
  destruct (kpc k) eqn:Ek; destruct c; try done; repeat (case_match; try done); simplify_eq;
    try (eapply owned_worker; [done|done|by apply heap_later_same|..]; try done; try congruence; cbn; rewrite ?Ek; try done; eauto; fail);
    try (eapply owned_worker; [done|done|apply forget_worker_later|..]; unfold forget_worker; try (by case_match); try congruence; cbn; rewrite ?Ek; done).
  - by eapply publish_link_owned.
  - match goal with E : addConnection _ _ = _ |- _ => unfold addConnection in E; destruct (closed s); [|done]; simplify_eq end.
    eapply owned_worker; [done|done|by apply heap_later_same|..]; try done; try congruence; cbn; rewrite ?Ek; done.
  - destruct (Hh _ eq_refl) as (m & Hm & _). pose proof (heap_later_on n close s (λ m _, later_close m)) as L.
    destruct (proj1 L _ _ Hm) as (m' & Hm' & _).
    eapply owned_worker; [done|done|exact L|..]; try done; try congruence; cbn [kpc upd eta_tcpWorker]; rewrite ?Ek; eauto.
    intros id [= <-]. by exists m'.
  - destruct (Hh _ eq_refl) as (m & Hm & _). pose proof (heap_later_on member close s (λ m _, later_close m)) as L.
    destruct (proj1 L _ _ Hm) as (m' & Hm' & _).
    eapply owned_worker; [done|done|exact L|..]; try done; try congruence; cbn [kpc upd eta_tcpWorker]; rewrite ?Ek; eauto.
    intros id [= <-]. by exists m'.
  - unfold member_is in *. case_match; [|done]. bool_to_prop.
    eapply owned_worker; [done|done|by apply heap_later_same|..]; try done; try congruence; cbn; rewrite ?Ek; try done; eauto.
    intros id [= <-]. eauto.
  - unfold member_is in *. case_match; [|done]. unfold writer_done, reader_done in *. bool_to_prop.
    destruct (Hh _ eq_refl) as (m & Hm & Hc). simplify_eq. cbn in Hc.
    eapply owned_worker; [done|done|by apply heap_later_same|..]; try done; try congruence; cbn; rewrite ?Ek; try done; eauto.
    intros id [= <-]. eexists. split; [done|]. by split_and!.
  - eapply owned_worker; [done|done|by apply heap_later_same|..]; try done; try congruence; cbn; rewrite ?Ek; try done.
    by apply (delay_double k).
Qed.

Lemma add_target_owned t s : owned_ok s → owned_ok (AddTarget t s).1.
Proof.
  intros O. unfold AddTarget. destruct (negb (IsCurrent s t)); [done|].
  assert (Hstart : closed s = false → ∀ previous, owned_ok
    ((match previous with Some p => on_worker p (λ k, k <| k_cancelled := true |>)
        (s <| workers := <[ClientID t := next_id s]> (workers s) |> <| next_id := S (next_id s) |>)
      | None => s <| workers := <[ClientID t := next_id s]> (workers s) |> <| next_id := S (next_id s) |> end)
       <| threads := <[next_id s := new_worker t previous]>
            (threads match previous with Some p => on_worker p (λ k, k <| k_cancelled := true |>)
                (s <| workers := <[ClientID t := next_id s]> (workers s) |> <| next_id := S (next_id s) |>)
              | None => s <| workers := <[ClientID t := next_id s]> (workers s) |> <| next_id := S (next_id s) |> end) |>)).
  { intros Hc previous.
    set (s1 := match previous with Some _ => _ | None => _ end).
    assert (E : heap s1 = heap s ∧ spc s1 = spc s ∧ closed s1 = closed s ∧ cancelled s1 = cancelled s ∧ next_id s1 = S (next_id s) ∧
      visitor_closed s1 = visitor_closed s) by (unfold s1; by destruct previous).
    assert (Ht : ∀ w k', threads s1 !! w = Some k' → ∃ k, threads s !! w = Some k ∧ kpc k' = kpc k ∧ delay k' = delay k).
    { intros w k'. unfold s1. destruct previous as [p|]; cbn; [|by eauto]. rewrite lookup_alter. case_decide; [subst|by eauto].
      destruct (threads s !! w) as [k|]; [|done]. cbn. intros [= <-]. eauto. }
    assert (Ht' : ∀ w k, threads s !! w = Some k → ∃ k', threads s1 !! w = Some k' ∧ kpc k' = kpc k).
    { intros w k Hk. unfold s1. destruct previous as [p|]; cbn; [|by eauto]. rewrite lookup_alter. case_decide; subst; rewrite Hk; cbn; by eauto. }
    destruct E as (Eh & Es & Ec & Ex & En & Ev). constructor; cbn; rewrite ?Eh, ?Es, ?Ec, ?Ex, ?En, ?Ev.
    - intros id m Hm. destruct (ow_member _ O _ _ Hm) as [?|(w & k & Hk & Hid)]; [by left|right].
      destruct (Ht' _ _ Hk) as (k' & Hk' & Ek). exists w, k'. rewrite lookup_insert_ne, Ek; [done|].
      intros <-. pose proof (proj1 (ow_worker _ O _ _ Hk)). lia.
    - intros w k'. rewrite lookup_insert. case_decide.
      + intros [= <-]. split_and!; [lia|unfold delay_ok; cbn; unfold mirrorTCPRetryInterval, mirrorTCPMaxRetryInterval, Second; lia|done].
      + intros (k & Hk & Ek & Ed)%Ht. destruct (ow_worker _ O _ _ Hk) as (? & Hdl & Hh).
        split_and!; [lia|unfold delay_ok in *; by rewrite Ed|by rewrite Ek].
    - apply O.
    - apply O.
    - intros Hs. assert (closed s = true) by (apply O; auto). congruence. }
  assert (Hfinal : owned_ok (if closed s || cancelled s then (s, None)
    else (let w := next_id s in
          let s0 := s <| workers := <[ClientID t := w]> (workers s) |> <| next_id := S w |> in
          let s0 := match workers s !! ClientID t with Some p => on_worker p (λ k, k <| k_cancelled := true |>) s0 | None => s0 end in
          (s0 <| threads := <[w := new_worker t (workers s !! ClientID t)]> (threads s0) |>, Some w))).1).
  { destruct (closed s) eqn:Ec; [done|]. destruct (cancelled s); [done|]. by apply Hstart. }
  repeat case_match; done.
Qed.

Lemma set_primary_later clientID failing ok s : heap_later s (SetPrimary clientID failing ok s).
Proof.
  unfold SetPrimary. case_match; [by apply heap_later_same|].
  set (s0 := s <| primaryClientID := _ |> <| primaryChanged := _ |>).
  eapply heap_later_trans; [exact (heap_later_roles failing s0)|]. apply heap_later_same. by repeat case_match.
Qed.

Section lifetime.
Context (ρ : go_range string nat).

Lemma close_input_owned failing s : heap_later s (closeInput ρ failing s).1 ∧ threads (closeInput ρ failing s).1 = threads s ∧
  next_id (closeInput ρ failing s).1 = next_id s ∧ closed (closeInput ρ failing s).1 = true ∧ cancelled (closeInput ρ failing s).1 = cancelled s.
Proof using Type.
  unfold closeInput. destruct (closed s) eqn:Ec; cbn [fst]; [by split_and!; [apply heap_later_same|..]|].
  split_and!; try done. eapply heap_later_trans; [|apply heap_later_roles]. by apply heap_later_same.
Qed.

Lemma owned_goto pc s s' : owned_ok s → heap_later s s' → threads s' = threads s → (next_id s ≤ next_id s')%nat →
  match pc with SCancel | SJoin | SDone => False | _ => True end → owned_ok (serve_goto pc s').
Proof using Type. intros O L Et En Hp. eapply (owned_later s); try done; cbn; destruct pc; try done; naive_solver. Qed.

Lemma serve_owned c s s' : owned_ok s → serve_step ρ c s = Some s' → owned_ok s'.
Proof using Type.
  intros O. unfold serve_step, when, enqueue, send, close_queue. intros H. repeat (case_match; try done); simplify_eq;
    try (eapply owned_goto; [done|by apply heap_later_same|done..]);
    try (eapply owned_goto; [done|apply heap_later_on; intros m _; first [apply later_close|by split_and!]|done..]);
    try (eapply owned_goto; [done|eapply heap_later_trans; [|by apply heap_later_on]; by apply heap_later_same|done..]).
  - match goal with E : AddTarget ?t s = _ |- _ => pose proof (add_target_owned t s O) as O'; rewrite E in O' end. cbn in O'.
    eapply owned_goto; [done|by apply heap_later_same|done..].
  - match goal with E : closeInput ρ ?ids s = _ |- _ => pose proof (close_input_owned ids s) as (L & Et & En & _); rewrite E in * end.
    eapply owned_goto; try done. cbn in *. lia.
  - destruct (close_input_owned ids s) as (L & Et & En & Ec & Ex).
    eapply owned_later; [done|exact L|exact Et|cbn; lia|..]; cbn; [intros _; exact Ec|intros [?|?]; done|done].
  - assert (Hc : closed s = true) by (apply O; auto).
    eapply owned_later; [done|by apply heap_later_same|done..].
  - assert (Hc : closed s = true) by (apply O; auto). assert (Hx : cancelled s = true) by (apply O; auto).
    unfold all_done in *. bool_to_prop. eapply owned_later; [done|by apply heap_later_same|done..].
Qed.

Lemma reachable_owned s : reachable ρ s → owned_ok s.
Proof using Type.
  induction 1 as [|s a s' Hr O H]; [constructor; cbn; try done; naive_solver|]. pose proof (reachable_copies _ _ Hr) as I.
  assert (Hn : heap s !! next_id s = None).
  { apply eq_None_not_Some. intros [m Hm]. pose proof (mo_id _ _ _ (co_member _ I _ _ Hm)). lia. }
  destruct a; cbn in H; unfold when in H;
    try (first [by eapply serve_owned|by eapply worker_owned]);
    try (repeat case_match; simplify_eq; by eapply owned_same_serve; [done|apply heap_later_same|..]).
  - simplify_eq. eapply owned_same_serve; [done|apply set_primary_later|..]; unfold SetPrimary; by repeat case_match.
  - simplify_eq. by apply add_target_owned.
  - case_match; [|done]. simplify_eq. bool_to_prop. eapply owned_goto; [done|by apply heap_later_same|done..].
  - destruct (writer_later _ _ _ _ H) as (L & Et & Es). unfold writer_step in H.
    repeat (case_match; try done); simplify_eq; by eapply owned_same_serve; [exact O|..].
  - destruct (reader_later _ _ _ _ H) as (L & Et & Es). unfold reader_step, acquireResponse in H.
    repeat (case_match; try done); simplify_eq; by eapply owned_same_serve; [exact O|..].
  - case_match; [|done]. simplify_eq. eapply owned_same_serve; [done|apply heap_later_on; intros m _; by split_and!|done..].
  - repeat case_match; simplify_eq. eapply owned_same_serve; [done|apply heap_later_on; intros m _; apply later_close|done..].
  - repeat case_match; simplify_eq. eapply owned_same_serve; [done|apply heap_later_on; intros m _; apply later_close|done..].
Qed.

(** When [Serve] returns nothing of the session is left: every worker has
    ended, of every link that was ever opened the writer and the reader have
    ended and the connection is closed, and so is that of the visitor. *)
Theorem session_released s : reachable ρ s → spc s = SDone →
  visitor_closed s = true ∧ map_Forall (λ _ k, kpc k = KDone) (threads s) ∧
  map_Forall (λ _ m, m_close m = ConnClosed ∧ wpc m = WDone ∧ rpc m = RDone) (heap s).
Proof using Type.
  intros Hr Hs. pose proof (reachable_owned _ Hr) as O. destruct (ow_done _ O Hs) as [Hd Hv]. split_and!; try done.
  intros id m Hm. destruct (ow_member _ O _ _ Hm) as [?|(w & k & Hk & Hid)]; [done|].
  specialize (Hd _ _ Hk). cbn in Hd. by rewrite Hd in Hid.
Qed.
End lifetime.

(** ** Termination

    *** Sums over tables *)

Definition total {A} (f : A → nat) (t : gmap nat A) : nat := sum_list_with (λ p, f p.2) (map_to_list t).

Lemma total_delete {A} (f : A → nat) (t : gmap nat A) i x : t !! i = Some x → total f t = (f x + total f (delete i t))%nat.
Proof. intros Hi. unfold total. by rewrite <- (map_to_list_delete t i x Hi). Qed.

Lemma total_alter {A} (f : A → nat) g (t : gmap nat A) i x : t !! i = Some x →
  (total f (alter g i t) + f x = total f t + f (g x))%nat.
Proof.
  intros Hi. rewrite (total_delete f t i x Hi), (total_delete f (alter g i t) i (g x)) by (by rewrite lookup_alter_eq, Hi).
  assert (delete i (alter g i t) = delete i t) as ->; [|lia].
  apply map_eq. intros j. destruct (decide (i = j)) as [<-|Hne]; [by rewrite !lookup_delete_eq|].
  by rewrite !lookup_delete_ne, lookup_alter_ne.
Qed.

Lemma total_le {A} (f : A → nat) : ∀ t t' : gmap nat A,
  (∀ i x', t' !! i = Some x' → ∃ x, t !! i = Some x ∧ (f x' ≤ f x)%nat) → (total f t' ≤ total f t)%nat.
Proof.
  intros t t'. revert t. induction t' as [|i x' t' Hi IH] using map_ind; intros t H; [unfold total at 1; rewrite map_to_list_empty; cbn; lia|].
  destruct (H i x') as (x & Hx & Hle); [apply lookup_insert_eq|].
  rewrite (total_delete f _ i x') by apply lookup_insert_eq. rewrite delete_insert_id by done.
  rewrite (total_delete f t i x Hx). apply Nat.add_le_mono; [done|]. apply IH. intros j y Hy.
  assert (i ≠ j) by congruence. rewrite lookup_delete_ne by done. apply H. by rewrite lookup_insert_ne.
Qed.

(** *** A measure *)

Definition writer_rank (m : tcpMember) : nat :=
  match wpc m with
  | WDone => 0
  | WSelect => 4 * length (queue m) + 1
  | WWrite _ => 4 * length (queue m) + 3
  | WDeadline _ => 4 * length (queue m) + 4
  end.

Definition reader_rank (m : tcpMember) : nat :=
  match rpc m with
  | RDone => 0
  | REofFree _ => 1
  | REofClose => 2
  | REofAdmit => 3
  | REofAcquire => 4
  | RCheck (Some _) => 5
  | RRead => 6
  | RCheck None => 7
  | RFree _ _ => 8
  | RRelease _ _ => 9
  | RWriting _ rest _ => 10 + length rest
  | RAdmit chunk _ => 11 + length chunk
  | RAcquire chunk _ => 12 + length chunk
  end.

Definition member_rank (m : tcpMember) : nat := writer_rank m + reader_rank m.

Definition worker_rank (k : tcpWorker) : nat :=
  match kpc k with
  | KDone => 0
  | KExit => 1
  | KContext _ => 2
  | KGuard => 3
  | KRetry => 4
  | KRemove _ => 5
  | KJoin _ => 6
  | KAbandon _ => 7
  | KClosing _ => 8
  | KClose _ => 9
  | KFlush _ => 10
  | KDrain _ => 11
  | KServe _ => 12
  | KStart _ _ => 13
  | KPublish => 14
  | KOpen => 15
  | KInput => 16
  | KPrevious _ => 17
  end.

(** [n]: the number of members, which only falls. *)
Definition serve_rank (n changed : nat) (pc : ServePc) : nat :=
  match pc with
  | SIdle | SDone => 0
  | SJoin => 1
  | SCancel => 2
  | SExit => 3
  | SDrain | SLoop => 4
  | SCloseQueues ids => 5 + length ids
  | SWait ready => 5 + length ready
  | SAdd targets ready => 6 + 2 * length targets + length ready
  | SClose => 6 + n
  | SCheck _ => 7 + n
  | SFanClose _ _ rest _ => 8 + n + 8 * S (length rest)
  | SFan _ to _ => 9 + n + 8 * length to
  | SFanBlock _ _ rest _ g => 8 + n + 8 * S (length rest) + (if bool_decide (g = changed) then 0 else 2)
  | SSnapshot _ _ => 11 + n + 8 * n
  | SRead => 12 + n + 8 * n
  end.

Definition measure (s : TCPSession) : nat :=
  serve_rank (size (members s)) (primaryChanged s) (spc s) + total member_rank (heap s) + total worker_rank (threads s).

(** Nothing is left to wait for but the threads themselves. *)
Definition winding_down (s : TCPSession) : Prop :=
  cancelled s = true ∧ map_Forall (λ _ m, m_close m = ConnClosed) (heap s).

Lemma serve_rank_mono n n' g pc : (n' ≤ n)%nat → (serve_rank n' g pc ≤ serve_rank n g pc)%nat.
Proof. intros H. destruct pc; cbn; lia. Qed.

Lemma closed_close m : m_close m = ConnClosed → close m = m.
Proof. unfold close. by intros ->. Qed.

Lemma member_measure s id m f s0 : winding_down s → heap s !! id = Some m → heap s0 = heap s → members s0 = members s →
  threads s0 = threads s → spc s0 = spc s → primaryChanged s0 = primaryChanged s → cancelled s0 = true →
  m_close (f m) = ConnClosed → (member_rank (f m) < member_rank m)%nat →
  (measure (on_member id f s0) < measure s)%nat ∧ winding_down (on_member id f s0).
Proof.
  intros [Hx Hc] Hm Eh Em Et Es Ep Ex Hf Hlt. unfold measure. cbn. rewrite Em, Es, Ep, Et, Eh.
  pose proof (total_alter member_rank f (heap s) id m Hm). split; [lia|]. split; [done|]. cbn. rewrite Eh.
  intros id' m'. rewrite lookup_alter. case_decide; [subst|by apply Hc]. rewrite Hm. cbn. by intros [= <-].
Qed.

Lemma writer_measure id c s s' : winding_down s → writer_step id c s = Some s' → (measure s' < measure s)%nat ∧ winding_down s'.
Proof.
  unfold writer_step. destruct (heap s !! id) as [m|] eqn:Hm; [|done]. intros W H.
  assert (Hx : cancelled s = true) by apply W. assert (Hcl : m_close m = ConnClosed) by (by eapply (proj2 W)).
  repeat (case_match; try done); simplify_eq; bool_to_prop; try congruence;
    (eapply (member_measure s id m); [done..| |]); cbn; rewrite ?closed_close by done; try done;
    unfold member_rank, writer_rank, reader_rank; cbn; rewrite ?closed_close by done;
    repeat match goal with E : wpc _ = _ |- _ => rewrite E | E : queue _ = _ |- _ => rewrite E end; cbn; lia.
Qed.

Lemma reader_measure id c s s' : winding_down s → reader_step id c s = Some s' → (measure s' < measure s)%nat ∧ winding_down s'.
Proof.
  unfold reader_step, acquireResponse, reader_goto, reader_fail. destruct (heap s !! id) as [m|] eqn:Hm; [|done]. intros W H.
  assert (Hx : cancelled s = true) by apply W. assert (Hcl : m_close m = ConnClosed) by (by eapply (proj2 W)).
  assert (He : responseEligibleLocked s id m = false) by (unfold responseEligibleLocked; by rewrite Hx).
  destruct (rpc m) eqn:Er; destruct c; try done; repeat (case_match; try done); simplify_eq; unfold some_of in *; bool_to_prop; try congruence;
    (eapply (member_measure s id m); [done..| |]); cbn; rewrite ?closed_close by done; try done;
    unfold member_rank, writer_rank, reader_rank; cbn; rewrite ?closed_close by done; rewrite ?Er, ?length_drop; cbn; try lia.
  all: try (destruct e; lia).
  all: match goal with H : _ ∨ negb _ = false |- _ => destruct H; bool_to_prop; [congruence|] end;
    match goal with H : _ = [] ∧ is_Some _ |- _ => destruct H as [? [? ?]] end; simplify_eq; first [done|cbn; lia].
Qed.

Lemma close_same s id : winding_down s → heap (on_member id close s) = heap s.
Proof.
  intros [_ Hc]. apply map_eq. intros id'. rewrite heap_on_member. case_decide; [|done]. destruct (heap s !! id') as [m|] eqn:E; [|done].
  cbn. f_equal. apply closed_close. by eapply Hc.
Qed.

Lemma moved_measure s s0 w k f : winding_down s → threads s !! w = Some k → threads s0 = threads s → heap s0 = heap s →
  (size (members s0) ≤ size (members s))%nat → spc s0 = spc s → primaryChanged s0 = primaryChanged s → cancelled s0 = true →
  (worker_rank (f k) < worker_rank k)%nat → (measure (on_worker w f s0) < measure s)%nat ∧ winding_down (on_worker w f s0).
Proof.
  intros [Hx Hc] Hk Et Eh Hm Es Ep Ex Hlt. unfold measure, winding_down. cbn. rewrite Et, Eh, Es, Ep. split; [|done].
  pose proof (total_alter worker_rank f (threads s) w k Hk). pose proof (serve_rank_mono _ _ (primaryChanged s) (spc s) Hm). lia.
Qed.

Lemma map_size_delete_le {A} (t : gmap string A) c : (size (delete c t) ≤ size t)%nat.
Proof. rewrite map_size_delete. destruct (t !! c); cbn; lia. Qed.

Lemma forget_worker_fields w k s : threads (forget_worker w k s) = threads s ∧ heap (forget_worker w k s) = heap s ∧
  members (forget_worker w k s) = members s ∧ spc (forget_worker w k s) = spc s ∧
  primaryChanged (forget_worker w k s) = primaryChanged s ∧ cancelled (forget_worker w k s) = cancelled s.
Proof. unfold forget_worker. by case_match. Qed.

Lemma worker_measure w c s s' : winding_down s → worker_step w c s = Some s' → (measure s' < measure s)%nat ∧ winding_down s'.
Proof.
  unfold worker_step, when, worker_goto. destruct (threads s !! w) as [k|] eqn:Hk; [|done]. intros W H.
  assert (Hx : cancelled s = true) by apply W.
  assert (Hw : worker_cancelled s k = true) by (unfold worker_cancelled; rewrite Hx; apply orb_true_r).
  destruct (forget_worker_fields w k s) as (F1 & F2 & F3 & F4 & F5 & F6).
  destruct (kpc k) eqn:Ek; destruct c; try done; repeat (case_match; try done); simplify_eq; bool_to_prop; try congruence;
    (eapply moved_measure; [exact W|exact Hk|try done|try done|try done|try done|try done|try done|]);
    try (unfold worker_rank; cbn; rewrite Ek; cbn; lia); try (by rewrite F3); try (by rewrite F6); try (by apply (close_same s));
    try (by apply map_size_delete_le).
Qed.

Lemma goto_measure s s0 pc n : winding_down s → (total member_rank (heap s0) ≤ total member_rank (heap s) + n)%nat →
  map_Forall (λ _ m, m_close m = ConnClosed) (heap s0) → threads s0 = threads s → members s0 = members s →
  primaryChanged s0 = primaryChanged s → cancelled s0 = true →
  (serve_rank (size (members s)) (primaryChanged s) pc + n < serve_rank (size (members s)) (primaryChanged s) (spc s))%nat →
  (measure (serve_goto pc s0) < measure s)%nat ∧ winding_down (serve_goto pc s0).
Proof.
  intros [Hx Hc] Hh Hc0 Et Em Ep Ex Hlt. unfold measure, winding_down. cbn. rewrite Et, Em, Ep. split; [lia|done].
Qed.

Lemma goto_measure_same s s0 pc : winding_down s → heap s0 = heap s → threads s0 = threads s → members s0 = members s →
  primaryChanged s0 = primaryChanged s → cancelled s0 = true →
  (serve_rank (size (members s)) (primaryChanged s) pc < serve_rank (size (members s)) (primaryChanged s) (spc s))%nat →
  (measure (serve_goto pc s0) < measure s)%nat ∧ winding_down (serve_goto pc s0).
Proof.
  intros W Eh Et Em Ep Ex Hlt. eapply (goto_measure s s0 pc 0); try done; rewrite ?Eh; [lia|apply W|lia].
Qed.

Lemma on_member_measure s s0 id f pc n : winding_down s → heap s0 = heap s → threads s0 = threads s → members s0 = members s →
  primaryChanged s0 = primaryChanged s → cancelled s0 = true →
  (∀ m, m_close (f m) = m_close m ∧ (member_rank (f m) ≤ member_rank m + n)%nat) →
  (serve_rank (size (members s)) (primaryChanged s) pc + n < serve_rank (size (members s)) (primaryChanged s) (spc s))%nat →
  (measure (serve_goto pc (on_member id f s0)) < measure s)%nat ∧ winding_down (serve_goto pc (on_member id f s0)).
Proof.
  intros W Eh Et Em Ep Ex Hf Hlt. eapply (goto_measure s _ pc n); try done; cbn; rewrite Eh.
  - destruct (heap s !! id) as [m|] eqn:Hm.
    + pose proof (total_alter member_rank f (heap s) id m Hm). destruct (Hf m). lia.
    + assert (alter f id (heap s) = heap s) as ->; [|lia]. apply map_eq. intros id'. rewrite lookup_alter. case_decide; [subst|done].
      by rewrite Hm.
  - intros id' m'. rewrite lookup_alter. case_decide; [subst|by apply W]. destruct (heap s !! id') as [m|] eqn:Hm; [|done].
    cbn. intros [= <-]. destruct (Hf m) as [-> _]. by eapply (proj2 W).
Qed.

Lemma add_target_cancelled t s : cancelled s = true → (AddTarget t s).1 = s.
Proof. intros Hx. unfold AddTarget. rewrite Hx, orb_true_r. by repeat case_match. Qed.

Lemma roles_rank s0 ok m : m_close m = ConnClosed →
  m_close (updateMemberRoleLocked s0 ok m) = ConnClosed ∧ member_rank (updateMemberRoleLocked s0 ok m) = member_rank m.
Proof. intros Hc. unfold updateMemberRoleLocked. destruct ok; [done|]. by rewrite closed_close. Qed.

Section winding.
Context (ρ : go_range string nat).

Lemma close_input_measure failing pc s : winding_down s →
  (serve_rank (size (members s)) (primaryChanged s) pc < serve_rank (size (members s)) (primaryChanged s) (spc s))%nat →
  (measure (serve_goto pc (closeInput ρ failing s).1) < measure s)%nat ∧ winding_down (serve_goto pc (closeInput ρ failing s).1).
Proof.
  intros W Hlt. unfold closeInput. destruct (closed s); cbn [fst]; [apply goto_measure_same; try done; apply W|].
  assert (Hr : ∀ id m', heap (update_roles failing (s <| closed := true |>)) !! id = Some m' →
    ∃ m, heap s !! id = Some m ∧ m_close m' = ConnClosed ∧ member_rank m' = member_rank m).
  { intros id m'. cbn. rewrite map_lookup_imap. destruct (heap s !! id) as [m|] eqn:Hm; [|done]. cbn. intros [= <-].
    assert (Hc : m_close m = ConnClosed) by (by eapply (proj2 W)). exists m. split; [done|].
    case_match; [by apply roles_rank|done]. }
  eapply (goto_measure s _ pc 0); try done; [|..|apply W|lia].
  - rewrite Nat.add_0_r. apply total_le. intros id m' Hm'. destruct (Hr _ _ Hm') as (m & ? & _ & E). exists m. split; [done|lia].
  - intros id m' Hm'. by destruct (Hr _ _ Hm') as (m & _ & ? & _).
Qed.

Lemma serve_measure c s s' : winding_down s → serve_step ρ c s = Some s' → (measure s' < measure s)%nat ∧ winding_down s'.
Proof.
  unfold serve_step, when, enqueue, send, close_queue. intros W H. assert (Hx : cancelled s = true) by apply W.
  destruct (spc s) as [|[|t targets] ready|[|channel ready]| | |payload e|payload [|id rest] e|
    payload id rest e|payload id rest e changed|e| |[|id rest]| | | | |] eqn:Es;
    repeat (case_match; try done); simplify_eq; bool_to_prop; try congruence;
    try (eapply goto_measure_same; try done; rewrite Es; cbn; try lia; fail);
    try (eapply (on_member_measure s _ _ _ _ 0); try done; [intros m; split; [done|unfold member_rank, writer_rank, reader_rank; cbn; lia]|rewrite Es; cbn; lia]).
  all: try (eapply (on_member_measure s _ _ _ _ 4); try done; [|rewrite Es; cbn; lia]; intros m; split; [done|];
    unfold member_rank, writer_rank, reader_rank; cbn; rewrite length_app; destruct (wpc m); cbn; lia).
  - match goal with E : AddTarget t s = _ |- _ => pose proof (add_target_cancelled t s Hx) as Ea; rewrite E in Ea; cbn in Ea; subst end.
    eapply goto_measure_same; try done. rewrite Es. cbn. rewrite length_app. cbn. lia.
  - eapply goto_measure_same; try done. rewrite Es. cbn. unfold snapshotMembers. rewrite length_fmap, range_length. lia.
  - eapply goto_measure_same; try done; [by apply close_same|]. rewrite Es. cbn. lia.
  - eapply goto_measure_same; try done. rewrite Es. cbn. rewrite bool_decide_eq_true_2 by done. lia.
  - eapply goto_measure_same; try done. rewrite Es. cbn. rewrite bool_decide_eq_false_2 by done. lia.
  - match goal with E : closeInput ρ ?ids s = (?t, ?l) |- _ => assert (t = (closeInput ρ ids s).1) as -> by (by rewrite E);
      assert (l = (closeInput ρ ids s).2) as -> by (by rewrite E) end.
    apply close_input_measure; [done|]. rewrite Es. cbn. unfold closeInput. case_match; cbn; [lia|].
    unfold snapshotMembers. rewrite length_fmap, range_length. lia.
  - apply close_input_measure; [done|]. rewrite Es. cbn. lia.
Qed.

(** *** Progress *)

Definition is_thread (a : Action) : bool :=
  match a with ServeStep _ | WriterStep _ _ | ReaderStep _ _ | WorkerStep _ _ => true | _ => false end.

Definition thread_step (s s' : TCPSession) : Prop := ∃ a, is_thread a = true ∧ step ρ a s = Some s'.

Lemma thread_measure s s' : winding_down s → thread_step s s' → (measure s' < measure s)%nat ∧ winding_down s'.
Proof.
  intros W (a & Ha & H). destruct a; try done; cbn in H;
    [by eapply serve_measure|by eapply writer_measure|by eapply reader_measure|by eapply worker_measure].
Qed.

Lemma writer_runs s id m : winding_down s → heap s !! id = Some m → wpc m ≠ WDone → ∃ s', thread_step s s'.
Proof.
  intros [Hx _] Hm Hw. destruct (wpc m) as [|payload|rest|] eqn:E; [| | |done];
    [exists (on_member id (λ m, (close m) <| wpc := WDone |>) s), (WriterStep id OnCancelled)
    |exists (on_member id (λ m, (close m) <| wpc := WDone |>) s), (WriterStep id (Outcome false))..];
    (split; [done|]); cbn; unfold writer_step; by rewrite Hm, E, ?Hx.
Qed.

Lemma reader_runs s id m : winding_down s → heap s !! id = Some m → rpc m ≠ RDone → ∃ s', thread_step s s'.
Proof.
  intros [Hx Hc] Hm Hr. assert (Hs : ∃ c, is_Some (reader_step id c s)); cycle 1.
  { destruct Hs as (c & s' & Hs). exists s', (ReaderStep id c). by split. }
  unfold reader_step. rewrite Hm.
  destruct (rpc m) as [| | | | | |[e|]| | | | |] eqn:E; try done;
    [exists (Read [] (Some EOF))|exists OnCancelled|exists (Outcome false)|exists (Outcome false)|exists Next|exists Next|exists Next|exists Next
    |exists OnCancelled|exists Next|exists (Outcome true)|exists Next]; unfold acquireResponse; rewrite ?Hx;
    repeat first [by eexists | case_match]; bool_to_prop; try (cbn in *; lia). naive_solver.
Qed.

Lemma worker_runs s w k : reachable ρ s → winding_down s → threads s !! w = Some k → kpc k ≠ KDone → ∃ s', thread_step s s'.
Proof.
  intros Hr W Hk Hd. assert (Hx : worker_cancelled s k = true) by (unfold worker_cancelled; rewrite (proj1 W); apply orb_true_r).
  destruct (ow_worker _ (reachable_owned _ _ Hr) _ _ Hk) as (_ & _ & Hh).
  assert (Hs : (∃ c, is_Some (worker_step w c s)) → ∃ s', thread_step s s').
  { intros (c & s' & Hs). exists s', (WorkerStep w c). by split. }
  unfold worker_step in Hs. rewrite Hk in Hs. destruct (kpc k) as [[p|]| | | | | | | | | | |id|id|id| | | |] eqn:E; try done;
    try (apply Hs; first [exists Next; by repeat first [by eexists|case_match] | exists OnCancelled; rewrite Hx; by eexists | exists (Outcome false); by eexists]).
  - destruct (Hh _ eq_refl) as (m & Hm & _). apply Hs. exists Next. unfold member_is. rewrite Hm.
    rewrite bool_decide_eq_true_2 by (by eapply (proj2 W)). by eexists.
  - destruct (Hh _ eq_refl) as (m & Hm & _). destruct (decide (wpc m = WDone)) as [Hw|Hw]; [|by eapply writer_runs].
    destruct (decide (rpc m = RDone)) as [Hrd|Hrd]; [|by eapply reader_runs].
    apply Hs. exists OnDone. unfold member_is, writer_done, reader_done. rewrite Hm, !bool_decide_eq_true_2 by done. by eexists.
Qed.

Lemma serve_runs s : reachable ρ s → winding_down s → spc s ≠ SIdle → spc s ≠ SDone → ∃ s', thread_step s s'.
Proof.
  intros Hr W Hi Hd. pose proof (reachable_copies _ _ Hr) as I. assert (Hx : cancelled s = true) by apply W.
  assert (Hs : (∃ c, is_Some (serve_step ρ c s)) → ∃ s', thread_step s s').
  { intros (c & s' & Hs). exists s', (ServeStep c). by split. }
  assert (Hrec : ∀ id, id ∈ recipients (spc s) → ∃ m, heap s !! id = Some m ∧ m_close m = ConnClosed).
  { intros id Hid. destruct (proj2 (co_recipients _ I) _ Hid) as [m Hm]. exists m. split; [done|]. by eapply (proj2 W). }
  unfold serve_step in Hs. destruct (spc s) as [|[|t targets] ready|[|channel ready]| | |payload e|payload [|id rest] e|
    payload id rest e|payload id rest e changed|e| |[|id rest]| | | | |] eqn:Es; try done;
    try (apply Hs; first [exists Next; by eexists | exists OnCancelled; rewrite Hx; by eexists | exists (Failing ∅); by repeat first [by eexists|case_match]]; fail).
  - apply Hs. exists Next. destruct (AddTarget t s). by eexists.
  - apply Hs. exists (Read [] (Some ReadFailed)). rewrite (bool_decide_eq_true_2 (_ ∧ _)), andb_false_r by done.
    rewrite bool_decide_eq_false_2 by apply Nat.nlt_0_r. by eexists.
  - apply Hs. exists Next. destruct (Hrec id) as (m & -> & _); [by left|]. by eexists.
  - apply Hs. exists Next. destruct (Hrec id) as (m & Hm & Hc); [by left|]. unfold member_is. rewrite Hm, bool_decide_eq_true_2 by done.
    by eexists.
  - destruct (decide (map_Forall (λ _ k, kpc k = KDone) (threads s))) as [Hall|Hall].
    + apply Hs. exists OnDone. unfold all_done. rewrite bool_decide_eq_true_2 by done. by eexists.
    + apply map_not_Forall in Hall as (w & k & Hk & Hne); [|apply _]. by eapply worker_runs.
Qed.

Lemma thread_reachable s s' : reachable ρ s → rtc thread_step s s' → reachable ρ s'.
Proof. intros Hr H. induction H as [|s s1 s' (a & _ & Ha)]; [done|]. by apply IHrtc; eapply reachable_step. Qed.

Lemma thread_not_idle s s' : spc s ≠ SIdle → thread_step s s' → spc s' ≠ SIdle.
Proof.
  intros Hi (a & Ha & H). destruct a; try done; cbn in H.
  - unfold serve_step, when, enqueue in H. repeat (case_match; try done); simplify_eq; cbn; by try case_match.
  - by destruct (writer_later _ _ _ _ H) as (_ & _ & ->).
  - by destruct (reader_later _ _ _ _ H) as (_ & _ & ->).
  - unfold worker_step, when, addConnection, forget_worker in H. repeat (case_match; try done); simplify_eq; done.
Qed.

(** C17: A cancelled session ends.  Once its connections are closed, its threads
    cannot run forever, whatever they choose to do, and a run of them stops
    only when [Serve] has returned. *)
Theorem cancelled_session_ends s : reachable ρ s → cancelled s = true → map_Forall (λ _ m, m_close m = ConnClosed) (heap s) →
  spc s ≠ SIdle →
  Acc (flip thread_step) s ∧ ∀ s', rtc thread_step s s' → (∀ s'', ¬ thread_step s' s'') → spc s' = SDone.
Proof.
  intros Hr Hx Hc Hi. assert (W : winding_down s) by (by split). clear Hx Hc. split.
  - clear Hr Hi. remember (measure s) as n eqn:En. revert s W En. induction n as [n IH] using lt_wf_ind. intros s W ->.
    constructor. intros s' H. destruct (thread_measure _ _ W H) as [Hlt W']. by apply (IH (measure s')).
  - intros s' H Hstop. assert (Hinv : winding_down s' ∧ spc s' ≠ SIdle).
    { clear Hstop Hr. induction H as [|s s1 s' H1 _ IH]; [done|]. destruct (thread_measure _ _ W H1) as [_ W1].
      apply IH; first [done|by eapply thread_not_idle]. }
    destruct Hinv as [W' Hi']. destruct (decide (spc s' = SDone)) as [?|Hne]; [done|].
    destruct (serve_runs s') as [s'' Hs'']; try done; [by eapply thread_reachable|]. by destruct (Hstop s'').
Qed.
End winding.

(** ** Witnesses *)

Module DemoLifetime.
(** The session of the Primary is cancelled and its connection closed. *)
Definition cancelling : list Action :=
  DemoMirror.join ++ [DoCancel; CloseCancelled 0; CloseConnection 1; CloseVisitor].

(** One way to the end. *)
Definition ending : list Action := cancelling ++
  [WriterStep 1 OnStopped; ReaderStep 1 (Read [] (Some ReadFailed)); ReaderStep 1 Next; WorkerStep 0 OnStopped; WorkerStep 0 Next;
   WorkerStep 0 Next; WorkerStep 0 Next; WorkerStep 0 OnDone; WorkerStep 0 Next; WorkerStep 0 OnCancelled; WorkerStep 0 Next;
   ServeStep Next; ServeStep (Failing ∅); ServeStep Next; ServeStep OnDone].
End DemoLifetime.

Lemma session_released_witness :
  map_Forall (λ _ m, m_close m = ConnClosed ∧ wpc m = WDone ∧ rpc m = RDone) (heap (DemoMirror.after DemoLifetime.ending)).
Proof.
  destruct (session_released any_range (DemoMirror.after DemoLifetime.ending)) as (_ & _ & H);
    [apply DemoMirror.after_reachable; vm_compute; reflexivity|vm_compute; reflexivity|exact H].
Defined.

Lemma cancelled_session_ends_witness : Acc (flip (thread_step any_range)) (DemoMirror.after DemoLifetime.cancelling).
Proof.
  destruct (cancelled_session_ends any_range (DemoMirror.after DemoLifetime.cancelling)) as [H _].
  - apply DemoMirror.after_reachable. vm_compute. reflexivity.
  - vm_compute. reflexivity.
  - apply (bool_decide_unpack _). vm_compute. exact Logic.I.
  - vm_compute. discriminate.
  - exact H.
Defined.
