(* ===== verification/PeerWire.v ===== *)
(** * Peer signals, datagrams and names ([internal/vnet/peer/peer_wire.go], [peer_identity.go])

    A signal is one UDP packet: an eight byte header, a JSON object and an
    HMAC-SHA256 over both.  A datagram on the direct connection is a twelve
    byte header and one IPv4 packet.  The JSON codec of a signal is the class
    [SignalCodec]; the HMAC is a parameter. *)

From Stdlib Require Import Ascii.
From S2P Require Import Prelude NetAddr GoIO.

Local Open Scope Z_scope.

(** ** Signals *)

Definition peerSignalMagic : list byte := [x10; x57; x56; x50].
Definition peerSignalVersion : Z := 1.
Definition peerSignalHeaderSize : nat := 8.
Definition peerSignalMACSize : nat := 32.
Definition peerSignalMaximumSize : Z := 4096.

(** [PeerSignalKind] is a [uint8]. *)
Definition PeerSignalRegister : Z := 1.
Definition PeerSignalProbe : Z := 2.
Definition PeerSignalProbeAck : Z := 3.

Record PeerSignal := {
  Kind : Z;
  SignalClientID : string;
  SignalSessionID : string;
  SignalPeerClientID : string;
  SignalPeerGeneration : Z;
  Fingerprint : string;
  HostCandidates : list string
}.

#[export] Instance peer_signal_eq_dec : EqDecision PeerSignal.
Proof. solve_decision. Defined.

Class SignalCodec := {
  (** [json.Marshal] *)
  marshal_signal : PeerSignal → option (list byte);
  (** [Decode] of the first value with [DisallowUnknownFields] *)
  decode_signal : list byte → option PeerSignal;
  (** signals whose strings [encoding/json] reproduces *)
  signal_faithful : PeerSignal → Prop;
  decode_marshal_signal s bs :
    signal_faithful s → marshal_signal s = Some bs → decode_signal bs = Some s
}.

Inductive SignalError :=
| InvalidSignal
| SignalTooLarge
| InvalidSignalFrame
| InvalidSignalLength
| InvalidSignalPayload
| InvalidSignalSecret
| InvalidSignalAuthentication.

#[export] Instance signal_error_eq_dec : EqDecision SignalError.
Proof. solve_decision. Defined.

Definition signal_header (kind : Z) (payload : list byte) : list byte :=
  peerSignalMagic ++ [byte_of peerSignalVersion; byte_of kind] ++ PutUint16 (Z.of_nat (length payload)).

Section wire.
Context `{SignalCodec}.
(** [hmac.New(sha256.New, secret)] fed with the data *)
Context (hmac : list byte → list byte → list byte).

Definition EncodePeerSignal (signal : PeerSignal) (secret : list byte) : result SignalError (list byte) :=
  if (Z.of_nat (length secret) <? 16) || bool_decide (SignalClientID signal = "") ||
     (Kind signal <? PeerSignalRegister) || (PeerSignalProbeAck <? Kind signal)
  then Err InvalidSignal
  else
    match marshal_signal signal with
    | None => Err SignalTooLarge
    | Some payload =>
      let room := peerSignalMaximumSize - Z.of_nat peerSignalHeaderSize - Z.of_nat peerSignalMACSize in
      if bool_decide (payload = []) || (room <? Z.of_nat (length payload)) then Err SignalTooLarge
      else
        let authenticated := signal_header (Kind signal) payload ++ payload in
        Ok (authenticated ++ hmac secret authenticated)
    end.

Definition ParsePeerSignal (data : list byte) : result SignalError PeerSignal :=
  let len := Z.of_nat (length data) in
  if (len <? Z.of_nat (peerSignalHeaderSize + peerSignalMACSize)) || (peerSignalMaximumSize <? len) ||
     negb (bool_decide (take 4 data = peerSignalMagic)) ||
     negb (bool_decide (data !! 4%nat = Some (byte_of peerSignalVersion)))
  then Err InvalidSignalFrame
  else
    let length := Uint16 (drop 6 data) in
    if (length =? 0) || negb (Z.of_nat peerSignalHeaderSize + length + Z.of_nat peerSignalMACSize =? len)
    then Err InvalidSignalLength
    else
      match decode_signal (take (Z.to_nat length) (drop peerSignalHeaderSize data)) with
      | None => Err InvalidSignalPayload
      | Some signal =>
        if negb (bool_decide (byte_val <$> data !! 5%nat = Some (Kind signal))) ||
           bool_decide (SignalClientID signal = "")
        then Err InvalidSignalPayload
        else Ok signal
      end.

Definition VerifyPeerSignal (data secret : list byte) : option SignalError :=
  let len := length data in
  if (Z.of_nat (length secret) <? 16) || (Z.of_nat len <? Z.of_nat (peerSignalHeaderSize + peerSignalMACSize))
  then Some InvalidSignalSecret
  else
    let payloadEnd := (len - peerSignalMACSize)%nat in
    if bool_decide (drop payloadEnd data = hmac secret (take payloadEnd data)) then None
    else Some InvalidSignalAuthentication.
End wire.

(** ** Datagrams *)

Definition peerDatagramVersion : Z := 1.
Definition peerDatagramHeaderSize : nat := 12.

(** The frame of [Send]. *)
Definition datagram_frame (generation : Z) (packet : list byte) : list byte :=
  [byte_of peerDatagramVersion; x00] ++ PutUint64 generation
  ++ PutUint16 (Z.of_nat (length packet)) ++ packet.

(** The checks of [readDatagrams] on one frame: the packet, or nothing. *)
Definition read_frame (generation mtu : Z) (frame : list byte) : option (list byte) :=
  let len := Z.of_nat (length frame) in
  if (len <? Z.of_nat peerDatagramHeaderSize) ||
     negb (bool_decide (frame !! 0%nat = Some (byte_of peerDatagramVersion))) ||
     negb (bool_decide (frame !! 1%nat = Some x00)) ||
     negb (Uint64 (drop 2 frame) =? generation)
  then None
  else
    let length := Uint16 (drop 10 frame) in
    if (length =? 0) || (mtu <? length) || negb (Z.of_nat peerDatagramHeaderSize + length =? len) then None
    else Some (drop peerDatagramHeaderSize frame).

(** ** Names and fingerprints *)

(** One hexadecimal digit of [%x]. *)
Definition hex_digit (z : Z) : ascii :=
  ascii_of_N (Z.to_N (if z <? 10 then 48 + z else 87 + z)).

(** [%x] of a number below [16^fuel], without leading zeros, in front of [acc] *)
Fixpoint hex_text (fuel : nat) (z : Z) (acc : string) : string :=
  match fuel with
  | O => acc
  | S fuel =>
    let acc := String (hex_digit (z `mod` 16)) acc in
    if z <? 16 then acc else hex_text fuel (z / 16) acc
  end.

Definition peerServerName (generation : Z) : string := ("p" ++ hex_text 16 generation "")%string.

(** A digit of [strconv.ParseUint] in base 16. *)
Definition hex_value (c : ascii) : option Z :=
  let n := Z.of_N (N_of_ascii c) in
  if (48 <=? n) && (n <=? 57) then Some (n - 48)
  else if (97 <=? n) && (n <=? 102) then Some (n - 87)
  else if (65 <=? n) && (n <=? 70) then Some (n - 55)
  else None.

Fixpoint parse_hex (s : string) (n : Z) : option Z :=
  match s with
  | EmptyString => Some n
  | String c s => d ← hex_value c; if 2 ^ 60 <=? n then None else parse_hex s (n * 16 + d)
  end.

(** [strconv.ParseUint(s, 16, 64)] *)
Definition ParseUint16_64 (s : string) : option Z :=
  if bool_decide (s = "") then None else parse_hex s 0.

Definition parsePeerServerName (value : string) : option Z :=
  match value with
  | String c rest =>
    if (Z.of_nat (String.length value) <? 2) || negb (Ascii.eqb c "p") then None
    else ParseUint16_64 rest
  | EmptyString => None
  end.

(** [hex.EncodeToString] *)
Definition hex_encode (bs : list byte) : string :=
  foldr (λ b acc, String (hex_digit (byte_val b / 16)) (String (hex_digit (byte_val b `mod` 16)) acc))
    EmptyString bs.

(** ASCII case folding; against a text of hexadecimal digits it is
    [strings.EqualFold], since no other rune folds to one of them. *)
Definition fold_case (c : ascii) : ascii :=
  let n := N_of_ascii c in
  if ((65 <=? n) && (n <=? 90))%N then ascii_of_N (n + 32) else c.

Definition EqualFold (s t : string) : bool :=
  bool_decide (fold_case <$> String.list_ascii_of_string s = fold_case <$> String.list_ascii_of_string t).

Inductive FingerprintError := InvalidChain | FingerprintMismatch.

Definition verifyPeerFingerprint (sha256 : list byte → list byte) (expected : string)
    (rawCertificates : list (list byte)) : option FingerprintError :=
  match rawCertificates with
  | [certificate] =>
    if EqualFold (hex_encode (sha256 certificate)) expected then None else Some FingerprintMismatch
  | _ => Some InvalidChain
  end.

(** ** Lemmas *)

Lemma length_signal_header kind payload : length (signal_header kind payload) = 8%nat.
Proof. unfold signal_header. by rewrite !length_app, length_PutUint16. Qed.

(** A two byte field is the encoding of the number it holds. *)
Lemma PutUint16_bytes a b rest : PutUint16 (Uint16 (a :: b :: rest)) = [a; b].
Proof.
  pose proof (be_decode_range [a; b]) as Hr. change (256 ^ Z.of_nat (length [a; b])) with (2 ^ 16) in Hr.
  apply be_decode_inj; [apply length_PutUint16|]. unfold PutUint16, Uint16.
  change (take 2 (a :: b :: rest)) with [a; b].
  rewrite be_decode_encode, (wrap_small 16) by done. by apply Z.mod_small.
Qed.

Lemma Uint64_Put v rest : 0 <= v < 2 ^ 64 → Uint64 (PutUint64 v ++ rest) = v.
Proof.
  intros. unfold Uint64, PutUint64. rewrite wrap_small by done.
  rewrite take_app_le by (rewrite length_be_encode; lia).
  rewrite take_ge by (rewrite length_be_encode; lia).
  rewrite be_decode_encode. by apply Z.mod_small.
Qed.

Section signal_lemmas.
Context `{Hcodec : SignalCodec} (hmac : list byte → list byte → list byte).
(** [mac.Sum] of a SHA-256 HMAC has 32 bytes. *)
Context (hmac_size : ∀ secret data, length (hmac secret data) = peerSignalMACSize).

(** What a frame that parses and verifies looks like. *)
Definition signal_frame (signal : PeerSignal) (secret payload : list byte) : list byte :=
  (signal_header (Kind signal) payload ++ payload) ++ hmac secret (signal_header (Kind signal) payload ++ payload).

Definition signal_accepted (signal : PeerSignal) (secret payload : list byte) : Prop :=
  16 <= Z.of_nat (length secret) ∧ 0 < Z.of_nat (length payload) <= 4056 ∧
  decode_signal payload = Some signal ∧ SignalClientID signal ≠ "" ∧ 0 <= Kind signal < 256.

Lemma length_signal_frame signal secret payload :
  length (signal_frame signal secret payload) = (40 + length payload)%nat.
Proof using hmac_size.
  unfold signal_frame. rewrite !length_app, length_signal_header, hmac_size. unfold peerSignalMACSize. lia.
Qed.

Lemma signal_frame_eq signal secret payload :
  signal_frame signal secret payload =
    x10 :: x57 :: x56 :: x50 :: byte_of peerSignalVersion :: byte_of (Kind signal) ::
    PutUint16 (Z.of_nat (length payload)) ++ payload ++
    hmac secret (signal_header (Kind signal) payload ++ payload).
Proof using. unfold signal_frame. unfold signal_header at 1. by rewrite <- !app_assoc. Qed.

Lemma parse_signal_frame signal secret payload :
  signal_accepted signal secret payload → ParsePeerSignal (signal_frame signal secret payload) = Ok signal.
Proof using hmac_size.
  intros (_ & Hlen & Hdec & Hid & Hkind). unfold ParsePeerSignal.
  rewrite length_signal_frame. unfold peerSignalHeaderSize, peerSignalMACSize, peerSignalMaximumSize.
  rewrite (proj2 (Z.ltb_ge _ _)), (proj2 (Z.ltb_ge 4096 _)) by lia.
  rewrite signal_frame_eq. cbn [firstn skipn lookup list_lookup orb]. cbv zeta.
  rewrite !bool_decide_eq_true_2 by done. cbn [negb orb].
  rewrite !drop_0, Uint16_Put by lia. rewrite (proj2 (Z.eqb_neq _ 0)) by lia.
  rewrite (proj2 (Z.eqb_eq _ _)) by lia. cbn [negb orb].
  rewrite (drop_app_length' (PutUint16 _)) by (by rewrite length_PutUint16).
  rewrite take_app_le by lia. rewrite take_ge by lia. rewrite Hdec.
  cbn [fmap option_fmap option_map]. rewrite byte_val_of, (wrap_small 8) by (simpl; lia).
  rewrite bool_decide_eq_true_2, bool_decide_eq_false_2 by done. done.
Qed.

Lemma verify_signal_frame signal secret payload :
  16 <= Z.of_nat (length secret) → VerifyPeerSignal hmac (signal_frame signal secret payload) secret = None.
Proof using hmac_size.
  intros Hs. unfold VerifyPeerSignal. rewrite length_signal_frame.
  unfold peerSignalHeaderSize, peerSignalMACSize.
  rewrite (proj2 (Z.ltb_ge _ 16)), (proj2 (Z.ltb_ge _ _)) by lia. cbn [orb].
  unfold signal_frame.
  rewrite drop_app_length', take_app_length' by (rewrite length_app, length_signal_header; lia).
  by rewrite bool_decide_eq_true_2.
Qed.

Lemma eight_bytes (data : list byte) :
  (8 <= length data)%nat → ∃ a b c d e f g h rest, data = a :: b :: c :: d :: e :: f :: g :: h :: rest.
Proof. intros Hl. do 8 (destruct data as [|? data]; [simpl in Hl; lia|]). by repeat eexists. Qed.

Lemma accepted_signal_inv data signal secret :
  ParsePeerSignal data = Ok signal → VerifyPeerSignal hmac data secret = None →
  ∃ payload, data = signal_frame signal secret payload ∧ signal_accepted signal secret payload.
Proof using hmac_size.
  unfold ParsePeerSignal, VerifyPeerSignal. cbv zeta.
  destruct ((_ || _) || _ || _) eqn:Hh; [done|]. bool_to_prop. unfold peerSignalHeaderSize, peerSignalMACSize, peerSignalMaximumSize in *.
  destruct (eight_bytes data) as (a & b & c & d & e & f & g & h & rest & ->); [lia|].
  change (drop 6 (a :: b :: c :: d :: e :: f :: g :: h :: rest)) with (g :: h :: rest).
  change (drop 8 (a :: b :: c :: d :: e :: f :: g :: h :: rest)) with rest.
  set (n := Uint16 (g :: h :: rest)). destruct (_ || _) eqn:Hn; [done|]. bool_to_prop.
  unfold peerSignalMagic in *. cbn [skipn firstn lookup list_lookup fmap option_fmap option_map] in *.
  assert (Hr : 0 <= n) by apply be_decode_range.
  set (payload := take (Z.to_nat n) rest). cbn [length] in *.
  assert (Hlen : length rest = (Z.to_nat n + 32)%nat) by lia.
  assert (Hp : length payload = Z.to_nat n) by (unfold payload; rewrite length_take; lia).
  destruct (decode_signal payload) as [s|] eqn:Hdec; [|done].
  destruct (_ || _) eqn:Hk; [done|]. intros [= ->]. bool_to_prop.
  destruct (_ || _) eqn:Hs; [done|]. bool_to_prop. case_bool_decide as Hmac; [|done]. intros _.
  match goal with H : Some (byte_val f) = Some _ |- _ => injection H as Hkind end.
  exists payload. simplify_eq.
  assert (Hpre : take (8 + length rest - 32) (x10 :: x57 :: x56 :: x50 :: byte_of peerSignalVersion :: f :: g :: h :: rest)
                 = signal_header (Kind signal) payload ++ payload).
  { replace (8 + length rest - 32)%nat with (8 + Z.to_nat n)%nat by lia. unfold signal_header.
    rewrite Hp, Z2Nat.id by done. unfold n at 2. rewrite PutUint16_bytes.
    rewrite <- Hkind, byte_of_val. done. }
  split.
  - unfold signal_frame. rewrite <- Hpre. change (8 + length rest - 32)%nat with (S (S (S (S (S (S (S (S (length rest)))))))) - 32)%nat.
    rewrite <- Hmac. by rewrite take_drop.
  - unfold signal_accepted. rewrite <- Hkind.
    pose proof (byte_val_range f). split_and!; done || lia.
Qed.
End signal_lemmas.

(** ** Datagram and name lemmas *)

Lemma datagram_frame_read generation mtu packet :
  0 <= generation < 2 ^ 64 → mtu < 2 ^ 16 → 0 < Z.of_nat (length packet) <= mtu →
  read_frame generation mtu (datagram_frame generation packet) = Some packet.
Proof.
  intros Hg Hm Hp. unfold read_frame.
  assert (Hlen : length (datagram_frame generation packet) = (12 + length packet)%nat).
  { unfold datagram_frame. rewrite !length_app, length_PutUint64, length_PutUint16. simpl. lia. }
  rewrite Hlen. unfold peerDatagramHeaderSize. rewrite (proj2 (Z.ltb_ge _ _)) by lia.
  change (datagram_frame generation packet) with
    (byte_of peerDatagramVersion :: x00 :: PutUint64 generation ++ PutUint16 (Z.of_nat (length packet)) ++ packet).
  set (body := PutUint64 generation ++ PutUint16 (Z.of_nat (length packet)) ++ packet).
  change (drop 2 (byte_of peerDatagramVersion :: x00 :: body)) with body.
  change (drop 10 (byte_of peerDatagramVersion :: x00 :: body)) with (drop 8 body).
  change (drop 12 (byte_of peerDatagramVersion :: x00 :: body)) with (drop 10 body).
  cbn [lookup list_lookup]. rewrite !bool_decide_eq_true_2 by done. cbn [negb orb]. unfold body.
  rewrite Uint64_Put, Z.eqb_refl by done. cbn [negb]. cbv zeta.
  rewrite (drop_app_length' (PutUint64 _) _ 8), Uint16_Put by (rewrite ?length_PutUint64; done || lia).
  rewrite (proj2 (Z.eqb_neq _ 0)), (proj2 (Z.ltb_ge mtu _)), (proj2 (Z.eqb_eq _ _)) by lia. cbn [negb orb].
  rewrite app_assoc, drop_app_length'; [done|]. by rewrite length_app, length_PutUint64, length_PutUint16.
Qed.

Lemma hex_digit_value z : 0 <= z < 16 → hex_value (hex_digit z) = Some z.
Proof.
  intros Hz. assert (Hall : forallb (λ n, bool_decide (hex_value (hex_digit (Z.of_nat n)) = Some (Z.of_nat n))) (seq 0 16) = true)
    by (vm_compute; reflexivity).
  rewrite forallb_forall in Hall. specialize (Hall (Z.to_nat z)).
  rewrite in_seq, Z2Nat.id, bool_decide_eq_true in Hall by lia. apply Hall. lia.
Qed.

(** Parsing what [hex_text] prints continues from the printed value. *)
Lemma parse_hex_text fuel z acc :
  0 <= z < 16 ^ Z.of_nat fuel → (0 < fuel <= 16)%nat → parse_hex (hex_text fuel z acc) 0 = parse_hex acc z.
Proof.
  revert z acc. induction fuel as [|fuel IH]; [lia|]. intros z acc Hz Hf. cbn [hex_text].
  pose proof (Z.mod_pos_bound z 16 ltac:(lia)).
  destruct (Z.ltb_spec z 16) as [Hlt|Hge].
  { cbn [parse_hex]. rewrite Z.mod_small, hex_digit_value by lia. done. }
  assert (Hpow : 16 ^ Z.of_nat (S fuel) = 16 * 16 ^ Z.of_nat fuel)
    by (rewrite Nat2Z.inj_succ, Z.pow_succ_r by lia; done).
  assert (z / 16 < 16 ^ Z.of_nat fuel) by (apply Z.div_lt_upper_bound; lia).
  assert (0 <= z / 16) by (apply Z.div_pos; lia).
  assert (16 ^ Z.of_nat fuel <= 2 ^ 60) by (change (2 ^ 60) with (16 ^ 15); apply Z.pow_le_mono_r; lia).
  destruct fuel as [|fuel]; [simpl in *; lia|].
  rewrite IH by lia. cbn [parse_hex]. rewrite hex_digit_value by done. cbn [mbind option_bind].
  rewrite (proj2 (Z.leb_gt _ _)) by lia. f_equal. pose proof (Z.div_mod z 16 ltac:(lia)). lia.
Qed.

Lemma hex_text_length fuel z acc : (0 < fuel)%nat → (String.length acc < String.length (hex_text fuel z acc))%nat.
Proof.
  revert z acc. induction fuel as [|fuel IH]; [lia|]. intros z acc _. cbn [hex_text].
  destruct (_ <? _); [simpl; lia|]. destruct fuel as [|fuel]; [simpl; lia|].
  etrans; [|apply IH; lia]. simpl. lia.
Qed.

(** ** Properties *)

(** A signal that one side encodes is read back and authenticated by the
    other; and nothing else is: a packet that parses and verifies under a
    secret is, byte for byte, the header, the payload and the HMAC of both
    under that secret, at most 4096 bytes long. *)
Theorem peer_signal_exact `{SignalCodec} hmac signal secret data :
  (∀ secret data, length (hmac secret data) = peerSignalMACSize) →
  (signal_faithful signal → EncodePeerSignal hmac signal secret = Ok data →
     ParsePeerSignal data = Ok signal ∧ VerifyPeerSignal hmac data secret = None) ∧
  (ParsePeerSignal data = Ok signal → VerifyPeerSignal hmac data secret = None →
     Z.of_nat (length data) <= peerSignalMaximumSize ∧
     ∃ payload, decode_signal payload = Some signal ∧ data = signal_frame hmac signal secret payload).
Proof.
  intros Hsize. split.
  - intros Hf. unfold EncodePeerSignal. destruct (_ || _) eqn:Hg; [done|]. bool_to_prop.
    destruct (marshal_signal signal) as [payload|] eqn:Hm; [|done]. cbv zeta.
    destruct (_ || _) eqn:Hl; [done|]. intros [= <-]. bool_to_prop.
    unfold PeerSignalRegister, PeerSignalProbeAck, peerSignalMaximumSize, peerSignalHeaderSize, peerSignalMACSize in *.
    assert (0 < length payload)%nat by (destruct payload; [done|simpl; lia]).
    fold (signal_frame hmac signal secret payload). split.
    + apply parse_signal_frame; [done|]. unfold signal_accepted.
      split_and!; [lia|lia|lia|by apply decode_marshal_signal|done|lia|lia].
    + apply verify_signal_frame; [done|lia].
  - intros Hp Hv. destruct (accepted_signal_inv hmac Hsize data signal secret Hp Hv) as (payload & -> & Ha).
    split; [|exists payload; split; [apply Ha|done]].
    rewrite length_signal_frame by done. destruct Ha as (_ & ? & _). unfold peerSignalMaximumSize. lia.
Qed.

(** The name under which a generation is dialled identifies it: the
    accepting side reads back the same 64-bit number. *)
Theorem peer_name_roundtrip generation :
  0 <= generation < 2 ^ 64 → parsePeerServerName (peerServerName generation) = Some generation.
Proof.
  intros Hg. unfold peerServerName.
  pose proof (hex_text_length 16 generation "" ltac:(lia)) as Hl. change (String.length "") with 0%nat in Hl.
  change ("p" ++ hex_text 16 generation "")%string with (String "p" (hex_text 16 generation "")).
  cbn [parsePeerServerName]. rewrite (proj2 (Z.ltb_ge _ _)) by (cbn [String.length]; lia).
  rewrite Ascii.eqb_refl. cbn [negb orb]. unfold ParseUint16_64.
  rewrite bool_decide_eq_false_2 by (intros E; rewrite E in Hl; cbn [String.length] in Hl; lia).
  rewrite parse_hex_text; [done| |lia]. exact Hg.
Qed.

(** ** Witnesses *)

Definition demo_signal : PeerSignal :=
  {| Kind := PeerSignalProbe; SignalClientID := "a"; SignalSessionID := ""; SignalPeerClientID := "b";
     SignalPeerGeneration := 7; Fingerprint := ""; HostCandidates := [] |}.

(** A codec that knows one signal. *)
#[export] Instance demo_signal_codec : SignalCodec.
Proof.
  refine {| marshal_signal s := if bool_decide (s = demo_signal) then Some [x7b; x7d] else None;
            decode_signal bs := if bool_decide (bs = [x7b; x7d]) then Some demo_signal else None;
            signal_faithful _ := True |}.
  intros s bs _. case_bool_decide; intros; by simplify_eq.
Defined.

(** A stand-in for the HMAC: 32 bytes that depend on the secret. *)
Definition demo_hmac (secret data : list byte) : list byte := take 32 (secret ++ replicate 32 x00).

Lemma demo_hmac_size secret data : length (demo_hmac secret data) = peerSignalMACSize.
Proof. unfold demo_hmac. rewrite length_take, length_app, length_replicate. unfold peerSignalMACSize. lia. Qed.

Lemma peer_signal_exact_witness :
  ∃ data, EncodePeerSignal demo_hmac demo_signal (replicate 16 x01) = Ok data ∧
    ParsePeerSignal data = Ok demo_signal ∧ VerifyPeerSignal demo_hmac data (replicate 16 x01) = None ∧
    VerifyPeerSignal demo_hmac data (replicate 16 x02) ≠ None.
Proof.
  eexists. split; [vm_compute; reflexivity|].
  destruct (peer_signal_exact demo_hmac demo_signal (replicate 16 x01)
    (default [] (match EncodePeerSignal demo_hmac demo_signal (replicate 16 x01) with Ok d => Some d | _ => None end))
    demo_hmac_size) as [H _].
  destruct H as [H1 H2]; [done|vm_compute; reflexivity|]. split; [exact H1|]. split; [exact H2|]. vm_compute. done.
Defined.

Lemma peer_name_roundtrip_witness :
  peerServerName 3054 = "pbee" ∧ parsePeerServerName (peerServerName 3054) = Some 3054.
Proof. split; [reflexivity|]. apply (peer_name_roundtrip 3054). lia. Defined.
