(* ===== verification/HttpRequests.v ===== *)
(** * HTTP requests ([internal/proxy/registry/http.go],
      [internal/proxy/http/binding.go], [internal/config/http.go])

    A public request is routed by its host to the binding of a client, within
    limits for the server, the client and the domain.  The routing decision and
    the reservation of capacity are one critical section of the registry's
    lock; giving the capacity back takes two, the binding's lock first.  In
    between, the registry goes on: clients register, are suspended, detached
    and come back.

    The counters of a client are fields of its state.  [AttachAuthenticated]
    keeps the state of a client that is attached and allocates one otherwise,
    so a state is named by its client and the number of times the client was
    removed before.  [net.SplitHostPort], [strings.ToLower] and header lookup
    are modelled as far as they are used. *)

From Stdlib Require Import Ascii.
From S2P Require Import Prelude GoTime NetAddr GoStrings IPFilter PeerWire ControlFrame Authentication PortPolicy ConfigVNet ConfigProxy ProxyPlane ProxyRegistry ProxySystem.

Local Open Scope Z_scope.

(** ** Configuration *)

Record HTTPConfig := {
  ReadHeaderTimeout : Duration;
  RequestBodyTimeout : Duration;
  PublicIdleTimeout : Duration;
  GracefulShutdownTimeout : Duration;
  IdleConnectionTimeout : Duration;
  ResponseHeaderTimeout : Duration;
  UpgradeIdleTimeout : Duration;
  MaxHeaderBytes : Z;
  MaxRequestBodyBytes : Z;
  MaxConcurrentRequests : Z;
  MaxConcurrentRequestsPerClient : Z;
  MaxConcurrentRequestsPerDomain : Z;
  MaxIdleConnections : Z;
  MaxIdleConnectionsPerDomain : Z;
  MaxUpgradeConnections : Z;
  MaxUpgradeConnectionsPerClient : Z;
  MaxUpgradeConnectionsPerDomain : Z;
  MaxConcurrentHTTP2Streams : Z
}.

Definition Minute : Duration := 60 * Second.

(** The table of limits with their hard maxima ([http_limits.go]). *)
Definition limits_of (c : HTTPConfig) : list (Z * Z) :=
  [(MaxHeaderBytes c, 1024 * 1024); (MaxConcurrentRequests c, 16384); (MaxConcurrentRequestsPerClient c, 2048); (MaxConcurrentRequestsPerDomain c, 1024);
   (MaxIdleConnections c, 4096); (MaxIdleConnectionsPerDomain c, 128); (MaxUpgradeConnections c, 4096); (MaxUpgradeConnectionsPerClient c, 512);
   (MaxUpgradeConnectionsPerDomain c, 256); (MaxConcurrentHTTP2Streams c, 256)].

Definition timeouts_of (c : HTTPConfig) : list (Duration * Duration) :=
  [(ReadHeaderTimeout c, 60 * Second); (RequestBodyTimeout c, 10 * Minute); (PublicIdleTimeout c, 10 * Minute); (IdleConnectionTimeout c, 10 * Minute);
   (ResponseHeaderTimeout c, 10 * Minute); (UpgradeIdleTimeout c, 24 * 60 * Minute)].

(** Whether there is no error; which of several the code reports depends on the
    order of a map. *)
Definition validateHTTPConfig (c : HTTPConfig) : bool :=
  (0 <? GracefulShutdownTimeout c) && (GracefulShutdownTimeout c <=? 2 * Minute) &&
  forallb (λ p, (0 <=? p.1) && (p.1 <=? p.2)) (timeouts_of c) &&
  (0 <=? MaxRequestBodyBytes c) && (MaxRequestBodyBytes c <=? 1024 * 1024 * 1024) &&
  forallb (λ p, (0 <? p.1) && (p.1 <=? p.2)) (limits_of c) &&
  (MaxConcurrentRequestsPerClient c <=? MaxConcurrentRequests c) && (MaxConcurrentRequestsPerDomain c <=? MaxConcurrentRequests c) &&
  (MaxIdleConnectionsPerDomain c <=? MaxIdleConnections c) &&
  (MaxUpgradeConnectionsPerClient c <=? MaxUpgradeConnections c) && (MaxUpgradeConnectionsPerDomain c <=? MaxUpgradeConnections c).

(** ** Hosts *)

(** [bytealg.IndexByteString], [bytealg.LastIndexByteString] *)
Fixpoint IndexByte (c : ascii) (s : string) : option nat :=
  match s with
  | EmptyString => None
  | String d s => if Ascii.eqb d c then Some 0%nat else S <$> IndexByte c s
  end.

Fixpoint LastIndexByte (c : ascii) (s : string) : option nat :=
  match s with
  | EmptyString => None
  | String d s =>
    match LastIndexByte c s with
    | Some i => Some (S i)
    | None => if Ascii.eqb d c then Some 0%nat else None
    end
  end.

(** [net.SplitHostPort]; [None] is an error. *)
Definition SplitHostPort (hostport : string) : option (string * string) :=
  match LastIndexByte ":" hostport with
  | None => None
  | Some i =>
    let port := drop_string (S i) hostport in
    if HasPrefix hostport "[" then
      match IndexByte "]" hostport with
      | None => None
      | Some e =>
        if negb (bool_decide (S e = i)) then None
        else if is_some (IndexByte "[" (drop_string 1 hostport)) || is_some (IndexByte "]" (drop_string (S e) hostport)) then None
        else Some (String.substring 1 (e - 1) hostport, port)
      end
    else
      let host := String.substring 0 i hostport in
      if is_some (IndexByte ":" host) then None
      else if is_some (IndexByte "[" hostport) || is_some (IndexByte "]" hostport) then None
      else Some (host, port)
  end.

(** [strings.ToLower].  Two runes outside ASCII have an ASCII lower case, the
    dotted capital I and the Kelvin sign; the others stay outside ASCII and are
    left as they are, since a domain has none of them. *)
Definition lower_char (c : ascii) : ascii := if is_upper c then ascii_of_N (N_of_ascii c + 32) else c.

Fixpoint lower (s : list ascii) : list ascii :=
  match s with
  | [] => []
  | c :: s1 =>
    match s1 with
    | d :: s2 =>
      if (ascii_z c =? 196) && (ascii_z d =? 176) then "i"%char :: lower s2
      else
        match s2 with
        | e :: s3 => if (ascii_z c =? 226) && (ascii_z d =? 132) && (ascii_z e =? 170) then "k"%char :: lower s3 else lower_char c :: lower s1
        | [] => lower_char c :: lower s1
        end
    | [] => lower_char c :: lower s1
    end
  end.
Definition ToLower (s : string) : string := String.string_of_list_ascii (lower (String.list_ascii_of_string s)).

Section hosts.
Context `{NetipText}.

Definition NormalizeRequestHost (host : string) : option string :=
  if bool_decide (host = "") then None
  else
    let split := match SplitHostPort host with
                 | Some (parsedHost, _) => Some parsedHost
                 | None => if ContainsByte host [":"%char] then None else Some host
                 end in
    match split with
    | None => None
    | Some host =>
      let host := ToLower (TrimSuffix host ".") in
      if ValidateHTTPDomain host then Some host else None
    end.
End hosts.

(** ** Requests *)

(** [TLS] is the server name of the handshake; header names are canonical. *)
Record Request := {
  Method : string;
  Host : string;
  TLS : option string;
  ProtoMajor : Z;
  Header : gmap string (list string)
}.

Definition header_values (q : Request) (name : string) : list string := default [] (Header q !! name).

(** No letter of "upgrade" folds to a rune outside ASCII. *)
Definition IsUpgradeRequest (q : Request) : bool :=
  negb (bool_decide (default "" (head (header_values q "Upgrade")) = "")) &&
  existsb (λ value, existsb (λ token, EqualFold (TrimSpace token) "upgrade") (Split ","%char value)) (header_values q "Connection").

Definition requestScheme (q : Request) : string := if is_some (TLS q) then HTTPPublicSchemeHTTPS else HTTPPublicSchemeHTTP.

Inductive Rejection :=
| MethodNotAllowed
| InvalidHost
| SniHostMismatch
| DomainNotRegistered
| PublicSchemeNotRegistered
| ProxyInactive
| CapacityExceeded.
#[export] Instance rejection_eq_dec : EqDecision Rejection.
Proof. solve_decision. Defined.

Definition status_of (e : Rejection) : Z :=
  match e with
  | MethodNotAllowed => 405
  | InvalidHost => 400
  | SniHostMismatch | DomainNotRegistered | PublicSchemeNotRegistered => 421
  | ProxyInactive | CapacityExceeded => 503
  end.

(** ** Counters *)

Record Activity := { activeRequests : Z; activeUpgrades : Z }.
#[export] Instance eta_Activity : Eta Activity := λ a, {| activeRequests := activeRequests a; activeUpgrades := activeUpgrades a |}.
Definition no_activity : Activity := {| activeRequests := 0; activeUpgrades := 0 |}.

Record Runtime := { domainRequests : Z; domainUpgrades : Z; activeHTTP2 : Z }.
#[export] Instance eta_Runtime : Eta Runtime := λ r, {| domainRequests := domainRequests r; domainUpgrades := domainUpgrades r; activeHTTP2 := activeHTTP2 r |}.
Definition new_runtime : Runtime := {| domainRequests := 0; domainUpgrades := 0; activeHTTP2 := 0 |}.

(** [httpActiveRequests] and [httpActiveUpgrades] go up or down. *)
Definition tick (d : Z) (upgrade : bool) (a : Activity) : Activity :=
  let a := a <| activeRequests := activeRequests a + d |> in
  if upgrade then a <| activeUpgrades := activeUpgrades a + d |> else a.

(** [Binding.Acquire] *)
Definition Acquire (upgrade http2 : bool) (c : HTTPConfig) (r : Runtime) : bool * Runtime :=
  if (MaxConcurrentRequestsPerDomain c <=? domainRequests r) || (http2 && (MaxConcurrentHTTP2Streams c <=? activeHTTP2 r)) ||
     (upgrade && (MaxUpgradeConnectionsPerDomain c <=? domainUpgrades r))
  then (false, r)
  else
    let r := r <| domainRequests := domainRequests r + 1 |> in
    let r := if upgrade then r <| domainUpgrades := domainUpgrades r + 1 |> else r in
    (true, if http2 then r <| activeHTTP2 := activeHTTP2 r + 1 |> else r).

(** [Binding.Release] *)
Definition Release (upgrade http2 : bool) (r : Runtime) : Runtime :=
  let r := r <| domainRequests := domainRequests r - 1 |> in
  let r := if upgrade then r <| domainUpgrades := domainUpgrades r - 1 |> else r in
  if http2 then r <| activeHTTP2 := activeHTTP2 r - 1 |> else r.

(** ** The server's public HTTP *)

(** A state is a client and the number of times it was removed before. *)
Abbreviation StateID := (string * nat)%type.

(** A request that was accepted; [sv_released] says that the runtime has its
    capacity back. *)
Record Served := {
  sv_binding : binding;
  sv_state : StateID;
  sv_upgrade : bool;
  sv_http2 : bool;
  sv_released : bool
}.
#[export] Instance eta_Served : Eta Served := λ s,
  {| sv_binding := sv_binding s; sv_state := sv_state s; sv_upgrade := sv_upgrade s; sv_http2 := sv_http2 s; sv_released := sv_released s |}.

Record HttpWorld := {
  system : ProxySystem.World;
  removals : gmap string nat;
  overall : Activity;
  activities : gmap StateID Activity;
  runtimes : gmap nat Runtime;
  served : gmap nat Served
}.
#[export] Instance eta_HttpWorld : Eta HttpWorld := λ w,
  {| system := system w; removals := removals w; overall := overall w; activities := activities w; runtimes := runtimes w; served := served w |}.

Definition state_id (c : string) (w : HttpWorld) : StateID := (c, default 0%nat (removals w !! c)).
Definition activity (s : StateID) (w : HttpWorld) : Activity := default no_activity (activities w !! s).
Definition runtime (a : nat) (w : HttpWorld) : Runtime := default new_runtime (runtimes w !! a).

Section serving.
Context `{NetipText} (c : HTTPConfig).

(** [ServeHTTP] before it takes the lock. *)
Definition checked_host (q : Request) : result Rejection string :=
  if bool_decide (Method q = "CONNECT") then Err MethodNotAllowed
  else
    match NormalizeRequestHost (Host q) with
    | None => Err InvalidHost
    | Some domain =>
      match TLS q with
      | None => Ok domain
      | Some serverName => if bool_decide (NormalizeRequestHost serverName = Some domain) then Ok domain else Err SniHostMismatch
      end
    end.

Definition route (q : Request) (domain : string) (r : Registry) : result Rejection binding :=
  match httpDomains r !! domain with
  | None => Err DomainNotRegistered
  | Some b =>
    if negb (AllowsPublicScheme (b_declaration b) (requestScheme q)) then Err PublicSchemeNotRegistered
    else
      match clients r !! b_clientID b with
      | None => Err ProxyInactive
      | Some s =>
        if negb (active s) || negb (bool_decide (sessionID s = b_sessionID b)) || negb (bool_decide (client_http (b_clientID b) r !! b_name b = Some b))
        then Err ProxyInactive else Ok b
      end
  end.

Definition over_capacity (upgrade : bool) (total state : Activity) : bool :=
  (MaxConcurrentRequests c <=? activeRequests total) || (MaxConcurrentRequestsPerClient c <=? activeRequests state) ||
  (upgrade && ((MaxUpgradeConnections c <=? activeUpgrades total) || (MaxUpgradeConnectionsPerClient c <=? activeUpgrades state))).

(** [ServeHTTP] up to the end of its critical section: the request that is
    served or why it is rejected, and the state that is left. *)
Definition ServeHTTP (q : Request) (w : HttpWorld) : result Rejection nat * HttpWorld :=
  match checked_host q with
  | Err e => (Err e, w)
  | Ok domain =>
    let upgrade := IsUpgradeRequest q in
    let http2 := ProtoMajor q =? 2 in
    match route q domain (reg (system w)) with
    | Err e => (Err e, w)
    | Ok b =>
      let s := state_id (b_clientID b) w in
      if over_capacity upgrade (overall w) (activity s w) then (Err CapacityExceeded, w)
      else
        let '(acquired, rt) := Acquire upgrade http2 c (runtime (b_addr b) w) in
        let w := w <| runtimes := <[b_addr b := rt]> (runtimes w) |> in
        if negb acquired then (Err CapacityExceeded, w)
        else
          let i := fresh (dom (served w)) in
          let w := w <| overall := tick 1 upgrade (overall w) |> in
          let w := w <| activities := <[s := tick 1 upgrade (activity s w)]> (activities w) |> in
          (Ok i, w <| served := <[i := {| sv_binding := b; sv_state := s; sv_upgrade := upgrade; sv_http2 := http2; sv_released := false |}]> (served w) |>)
    end
  end.

(** The deferred function: the runtime first, then the registry. *)
Definition release_runtime (i : nat) (w : HttpWorld) : option HttpWorld :=
  match served w !! i with
  | Some s =>
    if sv_released s then None
    else
      let a := b_addr (sv_binding s) in
      Some (w <| runtimes := <[a := Release (sv_upgrade s) (sv_http2 s) (runtime a w)]> (runtimes w) |> <| served := <[i := s <| sv_released := true |>]> (served w) |>)
  | None => None
  end.

Definition release_request (i : nat) (w : HttpWorld) : option HttpWorld :=
  match served w !! i with
  | Some s =>
    if sv_released s
    then Some (w <| overall := tick (-1) (sv_upgrade s) (overall w) |>
                 <| activities := <[sv_state s := tick (-1) (sv_upgrade s) (activity (sv_state s) w)]> (activities w) |>
                 <| served := delete i (served w) |>)
    else None
  | None => None
  end.

(** Clients that were removed get a new state when they come back. *)
Definition count_removals (before after : gmap string clientState) (m : gmap string nat) : gmap string nat :=
  set_fold (λ x m, <[x := S (default 0%nat (m !! x))]> m) m (dom before ∖ dom after).

Definition registry_moves (s : ProxySystem.World) (w : HttpWorld) : HttpWorld :=
  w <| removals := count_removals (clients (reg (system w))) (clients (reg s)) (removals w) |> <| system := s |>.

Context (fingerprint_of : list ProxyDeclaration → option digest).
Context (ρ : go_range string binding) (ρe : go_range Z Endpoint) (ρg : go_range Z mirrorGroup).

Inductive http_step : HttpWorld → HttpWorld → Prop :=
| http_registry s w : ProxySystem.step fingerprint_of ρ ρe ρg (system w) s → http_step w (registry_moves s w)
| http_request q w : http_step w (ServeHTTP q w).2
| http_release_runtime i w w' : release_runtime i w = Some w' → http_step w w'
| http_release i w w' : release_request i w = Some w' → http_step w w'.

Definition http_start (https : bool) : HttpWorld :=
  {| system := ProxySystem.start true https; removals := ∅; overall := no_activity; activities := ∅; runtimes := ∅; served := ∅ |}.

Inductive http_reachable (https : bool) : HttpWorld → Prop :=
| http_begins : http_reachable https (http_start https)
| http_goes_on w w' : http_reachable https w → http_step w w' → http_reachable https w'.
End serving.
