(* ===== verification/HttpSafety.v ===== *)
(** * HTTP requests: routing, capacity, hosts

    A request is served only by the binding that owns its host, while the owner
    is attached and active; the counters are exact whatever happens to the
    registry meanwhile, and no limit is exceeded; the spellings of a domain
    lead to the same domain. *)

From Stdlib Require Import Ascii.
From S2P Require Import Prelude GoTime NetAddr GoStrings IPFilter PeerWire ControlFrame Authentication PortPolicy ConfigVNet ConfigProxy ProxyPlane ProxyRegistry ProxySystem ProxyExamples HttpRequests.

Local Open Scope Z_scope.

(** ** Hosts *)

Abbreviation chars := String.list_ascii_of_string.

Lemma chars_app s t : chars (s ++ t) = chars s ++ chars t.
Proof. induction s as [|c s IH]; [done|]. exact (f_equal (cons c) IH). Qed.

Lemma string_append_nil s : (s ++ "")%string = s.
Proof. induction s as [|c s IH]; [done|]. exact (f_equal (String c) IH). Qed.

Lemma string_of_chars s : String.string_of_list_ascii (chars s) = s.
Proof. apply String.string_of_list_ascii_of_string. Qed.

Lemma last_index_none c s : c ∉ chars s → LastIndexByte c s = None.
Proof.
  induction s as [|d s IH]; [done|]. cbn. intros [Hne Hs]%not_elem_of_cons. rewrite IH by done. destruct (Ascii.eqb_spec d c); [by subst|done].
Qed.

Lemma index_none c s : c ∉ chars s → IndexByte c s = None.
Proof.
  induction s as [|d s IH]; [done|]. cbn. intros [Hne Hs]%not_elem_of_cons. rewrite IH by done. destruct (Ascii.eqb_spec d c); [by subst|done].
Qed.

Lemma last_index_at c s t : c ∉ chars t → LastIndexByte c (s ++ String c t) = Some (String.length s).
Proof.
  intros Ht. induction s as [|d s IH]; [|change (match LastIndexByte c (s ++ String c t) with Some i => Some (S i) | None => if Ascii.eqb d c then Some 0%nat else None end = Some (S (String.length s))); by rewrite IH].
  change (LastIndexByte c (String c t) = Some 0%nat). cbn [LastIndexByte]. rewrite last_index_none by done. destruct (Ascii.eqb_spec c c); done.
Qed.

Lemma contains_byte s cs : ContainsByte s cs = false ↔ ∀ c, c ∈ chars s → c ∉ cs.
Proof.
  unfold ContainsByte. induction (chars s) as [|d l IH]; cbn; [split; [intros _ c Hc; by apply elem_of_nil in Hc|done]|].
  rewrite orb_false_iff, bool_decide_eq_false, IH. setoid_rewrite elem_of_cons. naive_solver.
Qed.

(** Lower case, on ASCII. *)
Lemma lower_ascii l : Forall (λ c, ascii_z c < 128) l → lower l = lower_char <$> l.
Proof.
  induction 1 as [|c l Hc Hl IH]; [done|]. cbn [lower fmap list_fmap]. destruct l as [|d l]; [done|]. apply Forall_cons in Hl as [Hd Hl].
  rewrite (proj2 (Z.eqb_neq (ascii_z c) 196)) by lia. cbn [andb]. rewrite (proj2 (Z.eqb_neq (ascii_z c) 226)) by lia. cbn [andb].
  destruct l as [|e l]; by rewrite IH.
Qed.

Definition host_char (c : ascii) : bool := is_lower c || is_digit c || Ascii.eqb c "-"%char || Ascii.eqb c "."%char.

Lemma split_chars P s : forallb P (chars s) = false → P "."%char = true → ∃ part, part ∈ Split "."%char s ∧ forallb P (chars part) = false.
Proof.
  intros Hs Hp. induction s as [|c s IH]; [done|]. cbn in *. destruct (Ascii.eqb_spec c ".") as [->|Hne].
  - rewrite Hp in Hs. cbn in Hs. destruct (IH Hs) as (part & Hin & Hf). exists part. split; [by right|done].
  - destruct (Split "."%char s) as [|part parts] eqn:E.
    + destruct s; cbn in E; [done|]. destruct (Ascii.eqb _ _); [done|]. by destruct (Split _ _).
    + destruct (P c) eqn:Ec; cbn in Hs.
      * destruct (IH Hs) as (x & Hin & Hf). apply elem_of_cons in Hin as [->|Hin]; [|exists x; split; [by right|done]].
        exists (String c part). split; [by left|]. cbn. by rewrite Ec.
      * exists (String c part). split; [by left|]. cbn. by rewrite Ec.
Qed.

Section spellings.
Context `{NetipText}.

Lemma domain_chars d : ValidateHTTPDomain d = true → Forall (λ c, host_char c = true) (chars d).
Proof using Type.
  intros Hv. unfold ValidateHTTPDomain in Hv. rewrite !andb_true_iff in Hv. destruct Hv as [_ Hl]. apply Forall_forall. intros c Hc.
  apply (proj1 (forallb_forall host_char (chars d))); [|by apply list_elem_of_In]. destruct (forallb host_char (chars d)) eqn:E; [done|].
  destruct (split_chars host_char d E eq_refl) as (part & Hin & Hf). rewrite forallb_forall in Hl. specialize (Hl part ltac:(by apply list_elem_of_In)).
  unfold domain_label in Hl. destruct (chars part) as [|x l] eqn:El; [done|]. rewrite !andb_true_iff in Hl. destruct Hl as [_ Hl].
  rewrite <- El in *. exfalso. apply not_true_iff_false in Hf. apply Hf, forallb_forall. intros y Hy. rewrite forallb_forall in Hl. specialize (Hl y Hy).
  unfold host_char. by rewrite Hl.
Qed.

Lemma host_char_range c : host_char c = true → ascii_z c < 128 ∧ is_upper c = false ∧ c ∉ [":"; "["; "]"]%char.
Proof using Type.
  intros Hc. destruct c as [[] [] [] [] [] [] [] []]; cbn in Hc; try done; (split_and!; [done|done|]); rewrite !not_elem_of_cons; split_and!; try done; apply not_elem_of_nil.
Qed.

(** A spelling of a domain: the letters may be capitals. *)
Definition spells (h d : string) : Prop := lower_char <$> chars h = chars d.

Lemma spelled_chars h d : ValidateHTTPDomain d = true → spells h d → Forall (λ c, ascii_z c < 128 ∧ c ∉ [":"; "["; "]"]%char) (chars h).
Proof using Type.
  intros Hv Hs. apply domain_chars in Hv. rewrite <- Hs in Hv. apply Forall_fmap in Hv. eapply Forall_impl; [exact Hv|]. intros c Hc. cbn in Hc.
  destruct c as [[] [] [] [] [] [] [] []]; vm_compute in Hc; try done; (split; [done|]); rewrite !not_elem_of_cons; split_and!; try done; apply not_elem_of_nil.
Qed.

Lemma spelled_lower h d : ValidateHTTPDomain d = true → spells h d → ToLower h = d.
Proof using Type.
  intros Hv Hs. unfold ToLower. rewrite lower_ascii; [by rewrite Hs, string_of_chars|]. eapply Forall_impl; [by apply (spelled_chars h d)|]. by intros c [? _].
Qed.

Lemma dot_lower c : lower_char c = "."%char → c = "."%char.
Proof using Type. destruct c as [[] [] [] [] [] [] [] []]; vm_compute; congruence. Qed.

Lemma spelled_suffix h d : ValidateHTTPDomain d = true → spells h d → HasSuffix h "." = false.
Proof using Type.
  intros Hv Hs. apply not_true_iff_false. intros (t & ->)%HasSuffix_spec. unfold spells in Hs. rewrite chars_app, fmap_app in Hs. cbn in Hs.
  unfold ValidateHTTPDomain in Hv. rewrite !andb_true_iff, !negb_true_iff in Hv. destruct Hv as [[[[_ Hv] _] _] _]. apply not_true_iff_false in Hv.
  apply Hv, HasSuffix_spec. exists (String.string_of_list_ascii (lower_char <$> chars t)). apply (f_equal String.string_of_list_ascii) in Hs. rewrite string_of_chars in Hs.
  rewrite <- Hs. rewrite <- (string_of_chars (_ ++ "."))%string. f_equal. rewrite chars_app, String.list_ascii_of_string_of_list_ascii. done.
Qed.

Lemma spelled_not_empty h d : ValidateHTTPDomain d = true → spells h d → h ≠ "".
Proof using Type. intros Hv Hs ->. destruct d; [|done]. done. Qed.

Lemma normalize_split h d host p : ValidateHTTPDomain d = true → spells host d → h ≠ "" → SplitHostPort h = Some (host, p) → NormalizeRequestHost h = Some d.
Proof using Type.
  intros Hv Hs Hne Hsp. unfold NormalizeRequestHost. rewrite bool_decide_false, Hsp by done. unfold TrimSuffix. rewrite (spelled_suffix host d Hv Hs).
  by rewrite (spelled_lower host d Hv Hs), Hv.
Qed.

Lemma char_absent (c : ascii) h d : ValidateHTTPDomain d = true → spells h d → c ∈ [":"; "["; "]"]%char → c ∉ chars h.
Proof using Type. intros Hv Hs Hc Hin. pose proof (spelled_chars h d Hv Hs) as Hf. rewrite Forall_forall in Hf. by destruct (Hf c Hin). Qed.

Lemma normalize_plain h d tail : ValidateHTTPDomain d = true → spells h d → tail = "" ∨ tail = "." → NormalizeRequestHost (h ++ tail) = Some d.
Proof using Type.
  intros Hv Hs Ht. assert (Hc : ":"%char ∉ chars (h ++ tail)).
  { rewrite chars_app. intros [Hin|Hin]%elem_of_app; [by apply (char_absent ":" h d) in Hin; [|..|left]|]. destruct Ht as [-> | ->]; cbn in Hin; [by apply elem_of_nil in Hin|].
    apply list_elem_of_singleton in Hin. done. }
  unfold NormalizeRequestHost. rewrite bool_decide_false by (destruct h; [by destruct (spelled_not_empty "" d)|done]). unfold SplitHostPort.
  rewrite last_index_none by done. rewrite (proj2 (contains_byte (h ++ tail) [":"%char])) by (intros c Hin ->%list_elem_of_singleton; done).
  assert (E : TrimSuffix (h ++ tail) "." = h).
  { destruct Ht as [-> | ->]; [|apply TrimSuffix_app]. rewrite string_append_nil. unfold TrimSuffix. by rewrite (spelled_suffix h d Hv Hs). }
  by rewrite E, (spelled_lower h d Hv Hs), Hv.
Qed.

Lemma normalize_port h d port : ValidateHTTPDomain d = true → spells h d → ContainsByte port [":"; "["; "]"]%char = false →
  NormalizeRequestHost (h ++ String ":" port) = Some d.
Proof using Type.
  intros Hv Hs Hp. pose proof (proj1 (contains_byte _ _) Hp) as Hport.
  assert (Hc : ":"%char ∉ chars port) by (intros Hin; apply (Hport _ Hin); by left).
  assert (Hb : ∀ c, c ∈ ["["; "]"]%char → c ∉ chars (h ++ String ":" port)).
  { intros c Hc' Hin. rewrite chars_app in Hin. cbn in Hin. apply elem_of_app in Hin as [Hin|[->|Hin]%elem_of_cons].
    - by apply (char_absent c h d) in Hin; [|..|right].
    - rewrite !elem_of_cons, elem_of_nil in Hc'. naive_solver.
    - apply (Hport _ Hin). by right. }
  assert (Hne : h ≠ "") by (by eapply spelled_not_empty).
  eapply (normalize_split _ d h port); [done|done|by destruct h|]. unfold SplitHostPort. rewrite last_index_at by done.
  assert (Hpre : HasPrefix (h ++ String ":" port) "[" = false).
  { apply not_true_iff_false. intros (t & E)%HasPrefix_spec. apply (Hb "["%char); [by left|]. rewrite E, chars_app. by left. }
  rewrite Hpre, substring_app. rewrite (index_none ":" h) by (apply (char_absent ":" h d); [done|done|by left]).
  rewrite !index_none by (apply Hb; (by left) || (right; by left)). cbn [is_some orb]. do 2 f_equal.
  rewrite <- (drop_string_app (h ++ ":") port) at 2. rewrite string_length_app, Nat.add_comm. f_equal. clear. induction h as [|c h IH]; [done|]. exact (f_equal (String c) IH).
Qed.
End spellings.

(** ** Counting requests *)

Definition requests_where (p : Served → bool) (m : gmap nat Served) : Z := sum_of (λ _ s, Z.b2z (p s)) m.

Lemma where_add p m i s : m !! i = None → requests_where p (<[i := s]> m) = requests_where p m + Z.b2z (p s).
Proof. intros Hi. unfold requests_where. rewrite sum_of_insert by done. lia. Qed.

Lemma where_set p m i s s' : m !! i = Some s → requests_where p (<[i := s']> m) = requests_where p m - Z.b2z (p s) + Z.b2z (p s').
Proof. intros Hi. unfold requests_where. rewrite (sum_of_set (λ _ s, Z.b2z (p s))) by done. by rewrite Hi. Qed.

Lemma where_delete p m i s : m !! i = Some s → requests_where p (delete i m) = requests_where p m - Z.b2z (p s).
Proof.
  intros Hi. unfold requests_where. rewrite <- (insert_delete_id m i s Hi) at 2. rewrite sum_of_insert by apply lookup_delete_eq. lia.
Qed.

Lemma where_any m : requests_where (λ _, true) m = Z.of_nat (size m).
Proof.
  unfold requests_where. induction m as [|i s m Hi IH] using map_ind; [done|]. rewrite sum_of_insert, map_size_insert_None, IH by done. cbn. lia.
Qed.

Definition any (s : Served) : bool := true.
Definition of_state (x : StateID) (s : Served) : bool := bool_decide (sv_state s = x).
Definition of_runtime (a : nat) (s : Served) : bool := bool_decide (b_addr (sv_binding s) = a) && negb (sv_released s).
Definition upgraded (p : Served → bool) (s : Served) : bool := p s && sv_upgrade s.
Definition streamed (p : Served → bool) (s : Served) : bool := p s && sv_http2 s.

(** The counters are those of the requests in progress. *)
Record counted (w : HttpWorld) : Prop := {
  ct_overall : overall w = {| activeRequests := requests_where any (served w); activeUpgrades := requests_where (upgraded any) (served w) |};
  ct_state x : activity x w = {| activeRequests := requests_where (of_state x) (served w); activeUpgrades := requests_where (upgraded (of_state x)) (served w) |};
  ct_runtime a : runtime a w = {| domainRequests := requests_where (of_runtime a) (served w); domainUpgrades := requests_where (upgraded (of_runtime a)) (served w);
    activeHTTP2 := requests_where (streamed (of_runtime a)) (served w) |}
}.

Record within (c : HTTPConfig) (w : HttpWorld) : Prop := {
  wi_requests : activeRequests (overall w) <= MaxConcurrentRequests c;
  wi_upgrades : activeUpgrades (overall w) <= MaxUpgradeConnections c;
  wi_state x : activeRequests (activity x w) <= MaxConcurrentRequestsPerClient c ∧ activeUpgrades (activity x w) <= MaxUpgradeConnectionsPerClient c;
  wi_runtime a : domainRequests (runtime a w) <= MaxConcurrentRequestsPerDomain c ∧ domainUpgrades (runtime a w) <= MaxUpgradeConnectionsPerDomain c ∧
    activeHTTP2 (runtime a w) <= MaxConcurrentHTTP2Streams c
}.

Section capacity.
Context `{NetipText} (c : HTTPConfig).
Context (fingerprint_of : list ProxyDeclaration → option digest).
Context (ρ : go_range string binding) (ρe : go_range Z Endpoint) (ρg : go_range Z mirrorGroup).

Lemma activity_set w x y a : default no_activity (<[y := a]> (activities w) !! x) = if decide (y = x) then a else activity x w.
Proof using Type. rewrite lookup_insert. by case_decide. Qed.

Lemma runtime_set w x y a : default new_runtime (<[y := a]> (runtimes w) !! x) = if decide (y = x) then a else runtime x w.
Proof using Type. rewrite lookup_insert. by case_decide. Qed.

Lemma tick_eq d u a : tick d u a = {| activeRequests := activeRequests a + d; activeUpgrades := activeUpgrades a + (if u then d else 0) |}.
Proof using Type. unfold tick. destruct a, u; cbn; f_equal; lia. Qed.

Lemma acquire_eq u h rt rt' : Acquire u h c rt = (true, rt') →
  rt' = {| domainRequests := domainRequests rt + 1; domainUpgrades := domainUpgrades rt + Z.b2z u; activeHTTP2 := activeHTTP2 rt + Z.b2z h |} ∧
  domainRequests rt < MaxConcurrentRequestsPerDomain c ∧ (u = true → domainUpgrades rt < MaxUpgradeConnectionsPerDomain c) ∧ (h = true → activeHTTP2 rt < MaxConcurrentHTTP2Streams c).
Proof using Type.
  unfold Acquire. destruct (_ || _) eqn:E; [done|]. intros [= <-]. apply orb_false_iff in E as [E E3]. apply orb_false_iff in E as [E1 E2].
  apply Z.leb_gt in E1. destruct rt, u, h; cbn in *; rewrite ?Z.add_0_r; split_and!; try done; try lia.
Qed.

Lemma release_eq u h rt : Release u h rt = {| domainRequests := domainRequests rt - 1; domainUpgrades := domainUpgrades rt - Z.b2z u; activeHTTP2 := activeHTTP2 rt - Z.b2z h |}.
Proof using Type. unfold Release. destruct rt, u, h; cbn; f_equal; lia. Qed.

Lemma acquire_refused u h rt rt' : Acquire u h c rt = (false, rt') → rt' = rt.
Proof using Type. unfold Acquire. destruct (_ || _); [by intros [= <-]|done]. Qed.

(** What an accepted request has passed. *)
Lemma serve_accepts q w i w' : ServeHTTP c q w = (Ok i, w') → ∃ d b rt, checked_host q = Ok d ∧ route q d (reg (system w)) = Ok b ∧
  over_capacity c (IsUpgradeRequest q) (overall w) (activity (state_id (b_clientID b) w) w) = false ∧
  Acquire (IsUpgradeRequest q) (ProtoMajor q =? 2) c (runtime (b_addr b) w) = (true, rt) ∧ i = fresh (dom (served w)) ∧
  w' = w <| overall := tick 1 (IsUpgradeRequest q) (overall w) |>
         <| activities := <[state_id (b_clientID b) w := tick 1 (IsUpgradeRequest q) (activity (state_id (b_clientID b) w) w)]> (activities w) |>
         <| runtimes := <[b_addr b := rt]> (runtimes w) |>
         <| served := <[fresh (dom (served w)) := {| sv_binding := b; sv_state := state_id (b_clientID b) w; sv_upgrade := IsUpgradeRequest q;
              sv_http2 := ProtoMajor q =? 2; sv_released := false |}]> (served w) |>.
Proof using Type.
  unfold ServeHTTP. destruct (checked_host q) as [d|e]; [|done]. destruct (route q d (reg (system w))) as [b|e] eqn:Er; [|done].
  destruct (over_capacity _ _ _ _) eqn:Eo; [done|]. destruct (Acquire _ _ _ _) as [[] rt] eqn:Ea; [|done]. intros [= <- <-]. by exists d, b, rt.
Qed.

(** A rejected request leaves every counter as it was. *)
Record unchanged (w w' : HttpWorld) : Prop := {
  un_system : system w' = system w;
  un_removals : removals w' = removals w;
  un_served : served w' = served w;
  un_overall : overall w' = overall w;
  un_activity x : activity x w' = activity x w;
  un_runtime a : runtime a w' = runtime a w
}.

Lemma serve_rejects q w e w' : ServeHTTP c q w = (Err e, w') → unchanged w w'.
Proof using Type.
  unfold ServeHTTP. destruct (checked_host q) as [d|e']; [|by intros [= _ <-]]. destruct (route q d (reg (system w))) as [b|e'] eqn:Er; [|by intros [= _ <-]].
  destruct (over_capacity _ _ _ _) eqn:Eo; [by intros [= _ <-]|]. destruct (Acquire _ _ _ _) as [[] rt] eqn:Ea; [done|]. intros [= _ <-].
  apply acquire_refused in Ea as ->. constructor; try done. intros a. unfold runtime at 1. cbn [runtimes upd]. rewrite runtime_set. by case_decide; subst.
Qed.

Lemma unchanged_counted w w' : unchanged w w' → counted w → counted w'.
Proof using Type. intros [E1 E2 E3 E4 E5 E6] [Ho Hs Hr]. constructor; intros; rewrite ?E3, ?E4, ?E5, ?E6; auto. Qed.

Lemma unchanged_within w w' : unchanged w w' → within c w → within c w'.
Proof using Type. intros [E1 E2 E3 E4 E5 E6] [H1 H2 H3 H4]. constructor; intros; rewrite ?E4, ?E5, ?E6; auto. Qed.

(** Accepting. *)
Lemma accept_counted q w i w' : counted w → ServeHTTP c q w = (Ok i, w') → counted w'.
Proof using Type.
  intros [Ho Hs Hr] (d & b & rt & _ & _ & _ & Ea & _ & ->)%serve_accepts. apply acquire_eq in Ea as (-> & _).
  assert (Hf : served w !! fresh (dom (served w)) = None) by apply not_elem_of_dom, is_fresh.
  constructor; cbn [overall served upd].
  - rewrite tick_eq, Ho, !where_add by done. cbn. by destruct (IsUpgradeRequest q).
  - intros x. unfold activity at 1. cbn [activities upd]. rewrite activity_set, tick_eq, !where_add, !Hs by done. unfold upgraded, of_state. cbn.
    case_decide as E; [subst x; rewrite bool_decide_true by done|rewrite bool_decide_false by done]; cbn; rewrite ?Z.add_0_r; [|done]. by destruct (IsUpgradeRequest q).
  - intros a. unfold runtime at 1. cbn [runtimes upd]. rewrite runtime_set, !where_add, !Hr by done. unfold upgraded, streamed, of_runtime. cbn.
    case_decide as E; [subst a; rewrite bool_decide_true by done|rewrite bool_decide_false by done]; cbn; by rewrite ?Z.add_0_r.
Qed.

Lemma release_runtime_counted i w w' : counted w → release_runtime i w = Some w' → counted w'.
Proof using Type.
  intros [Ho Hs Hr]. unfold release_runtime. destruct (served w !! i) as [s|] eqn:Ei; [|done]. destruct (sv_released s) eqn:Er; [done|]. intros [= <-].
  constructor; cbn [overall served upd].
  - rewrite Ho, !(where_set _ _ _ s) by done. unfold any, upgraded. cbn. f_equal; ring.
  - intros x. unfold activity. cbn [activities upd]. fold (activity x w). rewrite Hs, !(where_set _ _ _ s) by done. unfold upgraded, of_state. cbn. f_equal; ring.
  - intros a. unfold runtime at 1. cbn [runtimes upd]. rewrite runtime_set, release_eq, !(where_set _ _ _ s), !Hr by done. unfold upgraded, streamed, of_runtime. cbn. rewrite Er.
    case_decide as E; [subst a; rewrite bool_decide_true by done|rewrite bool_decide_false by done]; cbn; f_equal; ring.
Qed.

Lemma release_counted i w w' : counted w → release_request i w = Some w' → counted w'.
Proof using Type.
  intros [Ho Hs Hr]. unfold release_request. destruct (served w !! i) as [s|] eqn:Ei; [|done]. destruct (sv_released s) eqn:Er; [|done]. intros [= <-].
  constructor; cbn [overall served upd].
  - rewrite tick_eq, Ho, !(where_delete _ _ _ s) by done. unfold any, upgraded. cbn. destruct (sv_upgrade s); f_equal; cbn; ring.
  - intros x. unfold activity at 1. cbn [activities upd]. rewrite activity_set, tick_eq, !(where_delete _ _ _ s), !Hs by done. unfold upgraded, of_state. cbn.
    case_decide as E; [subst x; rewrite bool_decide_true by done|rewrite bool_decide_false by done]; cbn; [destruct (sv_upgrade s)|]; cbn; f_equal; ring.
  - intros a. unfold runtime. cbn [runtimes upd]. fold (runtime a w). rewrite Hr, !(where_delete _ _ _ s) by done. unfold upgraded, streamed, of_runtime. cbn. rewrite Er, andb_false_r. cbn. f_equal; ring.
Qed.

(** Counters that only go down stay within their limits. *)
Definition below (a b : Activity) : Prop := activeRequests a <= activeRequests b ∧ activeUpgrades a <= activeUpgrades b.

Lemma tick_down u a : below (tick (-1) u a) a.
Proof using Type. rewrite tick_eq. split; cbn; [lia|]. destruct u; lia. Qed.

Lemma accept_within q w i w' : within c w → ServeHTTP c q w = (Ok i, w') → within c w'.
Proof using Type.
  intros [H1 H2 H3 H4] (d & b & rt & _ & _ & Eo & Ea & _ & ->)%serve_accepts. apply acquire_eq in Ea as (-> & L1 & L2 & L3).
  unfold over_capacity in Eo. apply orb_false_iff in Eo as [Eo Eu]. apply orb_false_iff in Eo as [E1%Z.leb_gt E2%Z.leb_gt].
  assert (U : IsUpgradeRequest q = true → activeUpgrades (overall w) < MaxUpgradeConnections c ∧ activeUpgrades (activity (state_id (b_clientID b) w) w) < MaxUpgradeConnectionsPerClient c).
  { intros Hu. rewrite Hu in Eu. cbn in Eu. apply orb_false_iff in Eu as [?%Z.leb_gt ?%Z.leb_gt]. done. }
  constructor; cbn [overall upd].
  - rewrite tick_eq. cbn. lia.
  - rewrite tick_eq. cbn. destruct (IsUpgradeRequest q); [|lia]. specialize (U eq_refl). lia.
  - intros x. unfold activity. cbn [activities upd]. rewrite activity_set. case_decide as E; [|apply H3].
    fold (activity (state_id (b_clientID b) w) w). destruct (H3 (state_id (b_clientID b) w)). rewrite tick_eq. cbn.
    destruct (IsUpgradeRequest q); [specialize (U eq_refl)|]; lia.
  - intros a. unfold runtime. cbn [runtimes upd]. rewrite runtime_set. case_decide as E; [|apply H4].
    fold (runtime (b_addr b) w). destruct (H4 (b_addr b)) as (? & ? & ?). cbn.
    destruct (IsUpgradeRequest q), (ProtoMajor q =? 2); cbn; try specialize (L2 eq_refl); try specialize (L3 eq_refl); lia.
Qed.

Lemma release_runtime_within i w w' : within c w → release_runtime i w = Some w' → within c w'.
Proof using Type.
  intros [H1 H2 H3 H4]. unfold release_runtime. destruct (served w !! i) as [s|] eqn:Ei; [|done]. destruct (sv_released s) eqn:Er; [done|]. intros [= <-].
  constructor; cbn [overall upd]; try done. intros a. unfold runtime. cbn [runtimes upd]. rewrite runtime_set. case_decide as E; [|apply H4].
  fold (runtime (b_addr (sv_binding s)) w). destruct (H4 (b_addr (sv_binding s))) as (? & ? & ?). rewrite release_eq. cbn. destruct (sv_upgrade s), (sv_http2 s); cbn; lia.
Qed.

Lemma release_within i w w' : within c w → release_request i w = Some w' → within c w'.
Proof using Type.
  intros [H1 H2 H3 H4]. unfold release_request. destruct (served w !! i) as [s|] eqn:Ei; [|done]. destruct (sv_released s) eqn:Er; [|done]. intros [= <-].
  destruct (tick_down (sv_upgrade s) (overall w)). constructor; cbn [overall upd]; try lia; try done.
  intros x. unfold activity. cbn [activities upd]. rewrite activity_set. case_decide as E; [|apply H3].
  fold (activity (sv_state s) w). destruct (H3 (sv_state s)), (tick_down (sv_upgrade s) (activity (sv_state s) w)). lia.
Qed.

Lemma positive_limits : validateHTTPConfig c = true → within c (http_start true) ∧ within c (http_start false).
Proof using Type.
  unfold validateHTTPConfig. rewrite !andb_true_iff. intros Hv. assert (Hl : forallb (λ p, (0 <? p.1) && (p.1 <=? p.2)) (limits_of c) = true) by tauto.
  unfold limits_of in Hl. cbn [forallb fst snd] in Hl. rewrite !andb_true_iff, !Z.ltb_lt in Hl.
  split; (constructor; [cbn; lia|cbn; lia|intros x; unfold activity; cbn; rewrite lookup_empty; cbn; lia|intros a; unfold runtime; cbn; rewrite lookup_empty; cbn; lia]).
Qed.

Lemma http_reachable_ok https w : validateHTTPConfig c = true → http_reachable c fingerprint_of ρ ρe ρg https w →
  counted w ∧ within c w ∧ ProxySystem.reachable fingerprint_of ρ ρe ρg true https (system w).
Proof using Type.
  intros Hv. induction 1 as [|w w' _ (IHc & IHw & IHr) Hs].
  - split_and!; [|destruct (positive_limits Hv); by destruct https|constructor]. constructor; try done.
  - destruct Hs as [s w Hs|q w|i w w' E|i w w' E].
    + destruct IHc, IHw. split_and!; [by constructor|by constructor|]. cbn. by eapply reachable_step.
    + destruct (ServeHTTP c q w) as [[i|e] w'] eqn:E; cbn [snd].
      * destruct (serve_accepts _ _ _ _ E) as (d & b & rt & _ & _ & _ & _ & _ & Ew). split_and!; [by eapply accept_counted|by eapply accept_within|]. by rewrite Ew.
      * apply serve_rejects in E as Hu. split_and!; [by eapply unchanged_counted|by eapply unchanged_within|]. by rewrite (un_system _ _ Hu).
    + split_and!; [by eapply release_runtime_counted|by eapply release_runtime_within|]. unfold release_runtime in E. destruct (served w !! i) as [s|]; [|done].
      destruct (sv_released s); [done|]. by injection E as <-.
    + split_and!; [by eapply release_counted|by eapply release_within|]. unfold release_request in E. destruct (served w !! i) as [s|]; [|done].
      destruct (sv_released s); [|done]. by injection E as <-.
Qed.
End capacity.

(** ** Theorems *)

Section http_theorems.
Context `{NetipText} (c : HTTPConfig).
Context (fingerprint_of : list ProxyDeclaration → option digest).
Context (ρ : go_range string binding) (ρe : go_range Z Endpoint) (ρg : go_range Z mirrorGroup).

(** C39: a request is served only by the owner of its host.  Whatever clients
    register, come and go meanwhile, a request that is accepted names, by its
    host and over TLS also by its server name, a valid domain that a binding
    declares together with the scheme of the listener; the client of the
    binding is attached, active and in the session the binding belongs to; and
    a domain reserved for a managed client is served by no other.  A request
    that is rejected is answered with an error and leaves the registry, the
    requests in progress and every counter as they were. *)
Theorem http_requests_owned https w q :
  validateHTTPConfig c = true → http_reachable c fingerprint_of ρ ρe ρg https w →
  match ServeHTTP c q w with
  | (Err e, w') => 400 <= status_of e ∧ unchanged w w'
  | (Ok i, w') => ∃ d b s x, Method q ≠ "CONNECT" ∧ NormalizeRequestHost (Host q) = Some d ∧ ValidateHTTPDomain d = true ∧
      (∀ n, TLS q = Some n → NormalizeRequestHost n = Some d) ∧
      httpDomains (reg (system w)) !! d = Some b ∧ Domain (b_declaration b) = d ∧ AllowsPublicScheme (b_declaration b) (requestScheme q) = true ∧
      clients (reg (system w)) !! b_clientID b = Some s ∧ active s = true ∧ sessionID s = b_sessionID b ∧
      (∀ owner, managedHTTPDomains (reg (system w)) !! d = Some owner → owner ≠ "" → b_clientID b = owner) ∧
      sv_binding x = b ∧ system w' = system w ∧ served w !! i = None ∧ served w' = <[i := x]> (served w)
  end.
Proof using Type.
  intros Hv Hw. destruct (http_reachable_ok c fingerprint_of ρ ρe ρg https w Hv Hw) as (_ & _ & Hsys).
  destruct (ServeHTTP c q w) as [[i|e] w'] eqn:E; [|split; [by destruct e|by eapply serve_rejects]]. apply serve_accepts in E as (d & b & rt & Hh & Hr & _ & _ & -> & ->).
  pose proof (reachable_kept _ _ _ _ _ _ _ Hsys) as [_ _ Hhttp Hres _].
  unfold checked_host in Hh. destruct (bool_decide (Method q = "CONNECT")) eqn:Em; [done|]. apply bool_decide_eq_false in Em.
  destruct (NormalizeRequestHost (Host q)) as [d'|] eqn:En; [|done].
  assert (Hd : d' = d ∧ ∀ n, TLS q = Some n → NormalizeRequestHost n = Some d).
  { destruct (TLS q) as [n|]; [|by injection Hh as <-]. destruct (bool_decide _) eqn:Eb; [|done]. injection Hh as <-. apply bool_decide_eq_true in Eb. split; [done|by intros ? [= <-]]. }
  destruct Hd as [-> Htls]. unfold route in Hr. destruct (httpDomains (reg (system w)) !! d) as [b'|] eqn:Ed; [|done].
  destruct (AllowsPublicScheme _ _) eqn:Ea; [|done]. destruct (clients (reg (system w)) !! b_clientID b') as [s|] eqn:Ec; [|done].
  cbn [negb] in Hr. destruct (_ || _) eqn:Eo; [done|]. injection Hr as ->.
  apply orb_false_iff in Eo as [Eo _]. apply orb_false_iff in Eo as [Ho1%negb_false_iff Ho2%negb_false_iff%bool_decide_eq_true].
  exists d, b, s, {| sv_binding := b; sv_state := state_id (b_clientID b) w; sv_upgrade := IsUpgradeRequest q; sv_http2 := ProtoMajor q =? 2; sv_released := false |}. split_and!; [done|done| |done|done| |done|done|done|done| |reflexivity|done| |done].
  - unfold NormalizeRequestHost in En. destruct (bool_decide _); [done|]. destruct (match SplitHostPort (Host q) with Some _ => _ | None => _ end) as [h|]; [|done].
    destruct (ValidateHTTPDomain (ToLower (TrimSuffix h "."))) eqn:Ev; [|done]. by injection En as <-.
  - by apply (ho_domain _ Hhttp).
  - intros owner Hm Hne. by eapply (ro_http _ Hres).
  - apply not_elem_of_dom, is_fresh.
Qed.

(** C40: capacity is exact and bounded.  However requests and the life of the
    registry interleave, the counters of the server, of every client state and
    of every binding are the numbers of requests that are in progress there, of
    upgrades and of HTTP/2 streams among them; none exceeds its configured
    limit; and when no request is in progress they are all zero again. *)
Theorem http_capacity_exact https w :
  validateHTTPConfig c = true → http_reachable c fingerprint_of ρ ρe ρg https w →
  counted w ∧
  Z.of_nat (size (served w)) <= MaxConcurrentRequests c ∧ requests_where (upgraded any) (served w) <= MaxUpgradeConnections c ∧
  (∀ x, requests_where (of_state x) (served w) <= MaxConcurrentRequestsPerClient c ∧
        requests_where (upgraded (of_state x)) (served w) <= MaxUpgradeConnectionsPerClient c) ∧
  (∀ a, requests_where (of_runtime a) (served w) <= MaxConcurrentRequestsPerDomain c ∧
        requests_where (upgraded (of_runtime a)) (served w) <= MaxUpgradeConnectionsPerDomain c ∧
        requests_where (streamed (of_runtime a)) (served w) <= MaxConcurrentHTTP2Streams c) ∧
  (served w = ∅ → overall w = no_activity ∧ (∀ x, activity x w = no_activity) ∧ ∀ a, runtime a w = new_runtime).
Proof using Type.
  intros Hv Hw. destruct (http_reachable_ok c fingerprint_of ρ ρe ρg https w Hv Hw) as (Hc & [W1 W2 W3 W4] & _). pose proof Hc as [Ho Hs Hr].
  rewrite Ho in W1, W2. cbn in W1, W2. split_and!; try done.
  - by rewrite <- where_any.
  - intros x. specialize (W3 x). by rewrite Hs in W3.
  - intros a. specialize (W4 a). by rewrite Hr in W4.
  - intros E. split_and!; [by rewrite Ho, E|intros x; by rewrite Hs, E|intros a; by rewrite Hr, E].
Qed.

(** The spellings of a host lead to the same domain: capitals, a final dot
    and a port do not matter, and what normalisation yields it yields again. *)
Theorem host_spellings d h port :
  ValidateHTTPDomain d = true → spells h d → ContainsByte port [":"; "["; "]"]%char = false →
  NormalizeRequestHost h = Some d ∧ NormalizeRequestHost (h ++ ".") = Some d ∧ NormalizeRequestHost (h ++ String ":" port) = Some d ∧
  NormalizeRequestHost d = Some d.
Proof using Type.
  intros Hv Hs Hp. split_and!.
  - rewrite <- (string_append_nil h). apply normalize_plain; [done|done|by left].
  - apply normalize_plain; [done|done|by right].
  - by apply normalize_port.
  - rewrite <- (string_append_nil d) at 1. apply normalize_plain; [done| |by left]. unfold spells.
    pose proof (domain_chars d Hv) as Hf. clear Hv Hs. induction Hf as [|x l Hx _ IH]; [done|]. cbn. f_equal; [|exact IH].
    unfold lower_char. by rewrite (proj1 (proj2 (host_char_range x Hx))).
Qed.
End http_theorems.

(** ** The site of the small registry of [ProxyExamples], asked twice *)

Module DemoHttp.
Definition config : HTTPConfig := {|
  ReadHeaderTimeout := 10 * Second; RequestBodyTimeout := 0; PublicIdleTimeout := 0; GracefulShutdownTimeout := 30 * Second; IdleConnectionTimeout := 0;
  ResponseHeaderTimeout := 0; UpgradeIdleTimeout := 0; MaxHeaderBytes := 65536; MaxRequestBodyBytes := 0; MaxConcurrentRequests := 4; MaxConcurrentRequestsPerClient := 2;
  MaxConcurrentRequestsPerDomain := 2; MaxIdleConnections := 4; MaxIdleConnectionsPerDomain := 2; MaxUpgradeConnections := 1; MaxUpgradeConnectionsPerClient := 1;
  MaxUpgradeConnectionsPerDomain := 1; MaxConcurrentHTTP2Streams := 1 |}.

Definition quiet (s : ProxySystem.World) : HttpWorld :=
  {| system := s; removals := ∅; overall := no_activity; activities := ∅; runtimes := ∅; served := ∅ |}.

Abbreviation reaches := (http_reachable (H := Dotted.text) config DemoProxy.fingerprint any_range any_range any_range false).

Lemma quiet_step s s' : reaches (quiet s) → ProxySystem.step (H := Dotted.text) DemoProxy.fingerprint any_range any_range any_range s s' →
  dom (clients (reg s)) ⊆ dom (clients (reg s')) → reaches (quiet s').
Proof.
  intros Hr Hs Hd. assert (E : registry_moves s' (quiet s) = quiet s').
  { unfold registry_moves, quiet. cbn. f_equal. unfold count_removals. cbn. replace (dom (clients (reg s)) ∖ dom (clients (reg s'))) with (∅ : gset string) by set_solver. done. }
  rewrite <- E. eapply http_goes_on; [exact Hr|by apply http_registry].
Qed.

Definition one : ProxySystem.World :=
  (ProxySystem.start true false) <| reg := AttachAuthenticated "a" "s1" (Some 1%nat) (DemoProxy.context ModeShared "a") 0 (reg (ProxySystem.start true false)) |>.
Definition admitting : ProxySystem.World := DemoProxy.attached <| flights := {[0%nat := DemoProxy.flight]} |>.
Definition activated : ProxySystem.World := DemoProxy.applied <| reg := Activate "a" "s1" (reg DemoProxy.applied) |>.

Ltac kept := apply (bool_decide_unpack _); vm_compute; exact I.

Lemma activated_reached : reaches (quiet activated).
Proof.
  assert (H1 : reaches (quiet one)).
  { eapply quiet_step; [apply http_begins|apply (step_attach _ _ _ _ "a" "s1" (Some 1%nat) (DemoProxy.context ModeShared "a") 0)|kept]. intros i f. cbn. by rewrite lookup_empty. }
  assert (H2 : reaches (quiet DemoProxy.attached)).
  { eapply quiet_step; [exact H1|apply (step_attach _ _ _ _ "b" "s2" (Some 2%nat) (DemoProxy.context ModeShared "b") 0)|kept]. intros i f. cbn. by rewrite lookup_empty. }
  assert (H3 : reaches (quiet admitting)).
  { eapply quiet_step; [exact H2| |kept].
    apply (step_admit _ _ _ _ 0 "a" "s1" "r1" DemoProxy.request false (DemoProxy.admitted_with "a" "s1" DemoProxy.request (reg DemoProxy.attached))); [done|]. vm_compute. reflexivity. }
  assert (H4 : reaches (quiet DemoProxy.in_flight)).
  { eapply quiet_step; [exact H3| |kept].
    refine (eq_rect _ (λ w, ProxySystem.step _ _ _ _ _ w) (step_listen _ _ _ _ 0 DemoProxy.flight DemoProxy.socket _ _ _) _ _); [done|done|]. vm_compute. reflexivity. }
  assert (H5 : reaches (quiet DemoProxy.applied)).
  { eapply quiet_step; [exact H4| |kept].
    refine (eq_rect _ (λ w, ProxySystem.step _ _ _ _ _ w) (step_commit _ _ _ _ 0 DemoProxy.listening DemoProxy.supply (reg DemoProxy.attached) DemoProxy.preparation None DemoProxy.outcome.1.1 DemoProxy.outcome.1.2 DemoProxy.outcome.2 _ _ _ _) _ _);
      [done|apply DemoProxy.prepared|vm_compute; reflexivity|]. vm_compute. reflexivity. }
  eapply quiet_step; [exact H5|apply (step_activate _ _ _ _ "a" "s1")|kept].
Qed.

Definition ask : Request := {| Method := "GET"; Host := "A.Example.com:8080"; TLS := None; ProtoMajor := 1; Header := {["Upgrade" := ["websocket"]; "Connection" := ["keep-alive, Upgrade"]]} |}.

Definition upgraded_once : HttpWorld := (ServeHTTP (H := Dotted.text) config ask (quiet activated)).2.

Lemma upgraded_reached : reaches upgraded_once.
Proof. eapply http_goes_on; [apply activated_reached|apply (http_request _ _ _ _ _ ask)]. Qed.
End DemoHttp.

(** The first request is served, a second upgrade is refused. *)
Lemma http_requests_owned_witness :
  (ServeHTTP (H := Dotted.text) DemoHttp.config DemoHttp.ask (DemoHttp.quiet DemoHttp.activated)).1 = Ok 0%nat ∧
  (ServeHTTP (H := Dotted.text) DemoHttp.config DemoHttp.ask DemoHttp.upgraded_once).1 = Err CapacityExceeded ∧
  unchanged DemoHttp.upgraded_once (ServeHTTP (H := Dotted.text) DemoHttp.config DemoHttp.ask DemoHttp.upgraded_once).2.
Proof.
  split; [vm_compute; reflexivity|]. assert (E : (ServeHTTP (H := Dotted.text) DemoHttp.config DemoHttp.ask DemoHttp.upgraded_once).1 = Err CapacityExceeded) by (vm_compute; reflexivity).
  split; [exact E|].
  pose proof (http_requests_owned (H := Dotted.text) DemoHttp.config DemoProxy.fingerprint any_range any_range any_range false _ DemoHttp.ask
    ltac:(vm_compute; reflexivity) DemoHttp.upgraded_reached) as Hq.
  destruct (ServeHTTP DemoHttp.config DemoHttp.ask DemoHttp.upgraded_once) as [[i|e] w']; [discriminate|exact (proj2 Hq)].
Defined.

Lemma http_capacity_exact_witness :
  size (served DemoHttp.upgraded_once) = 1%nat ∧ requests_where (upgraded any) (served DemoHttp.upgraded_once) <= MaxUpgradeConnections DemoHttp.config.
Proof.
  split; [vm_compute; reflexivity|].
  destruct (http_capacity_exact (H := Dotted.text) DemoHttp.config DemoProxy.fingerprint any_range any_range any_range false DemoHttp.upgraded_once
    ltac:(vm_compute; reflexivity) DemoHttp.upgraded_reached) as (_ & _ & Hu & _). exact Hu.
Defined.

Lemma host_spellings_witness : NormalizeRequestHost (H := Dotted.text) "WWW.Example.com:8443" = Some "www.example.com".
Proof.
  apply (host_spellings (H := Dotted.text) "www.example.com" "WWW.Example.com" "8443"); vm_compute; reflexivity.
Defined.
