(* ===== verification/PeerEndpoint.v ===== *)
(** * Direct paths of the virtual network ([internal/vnet/peer/peer_endpoint.go], [peer_flow.go])

    A client keeps, beside its connection to the server, direct QUIC paths to
    other clients.  The server offers a pair of clients a generation; each
    probes the candidates of the other, one dials, and when the server
    activates the generation new flows between the two use the path.  A flow
    that started on the relay stays there; a path that fails or is revoked
    hands its flows back to the relay.

    The endpoint is one record behind one mutex.  Offer states are shared by
    pointer between the tables and the goroutines, so they live in a heap
    ([states]) and the tables hold references.  Every critical section is a
    function on the record; [step] runs the sections of all goroutines in any
    order, with the results of the network, of the timers and of the control
    connection as inputs. *)

From S2P Require Import Prelude GoTime NetAddr GoIO Packet FlowControl PortPolicy PeerWire.

Local Open Scope Z_scope.

(** ** Messages ([internal/protocol/vnetwork.go]) *)

Inductive VNetPeerRole := VNetPeerRoleClient | VNetPeerRoleServer | VNetPeerRoleOther (text : string).
#[export] Instance peer_role_eq_dec : EqDecision VNetPeerRole.
Proof. solve_decision. Defined.

Inductive VNetPeerCandidateType :=
| VNetPeerCandidateHost
| VNetPeerCandidateServerReflexive
| VNetPeerCandidateOther (text : string).
#[export] Instance candidate_type_eq_dec : EqDecision VNetPeerCandidateType.
Proof. solve_decision. Defined.

Record VNetPeerCandidate := { Address : string; CandidateType : VNetPeerCandidateType }.
#[export] Instance candidate_eq_dec : EqDecision VNetPeerCandidate.
Proof. solve_decision. Defined.

Record VNetPeerOffer := {
  PeerGeneration : Z;
  PeerClientID : string;
  PeerVirtualIP : string;
  PeerFingerprint : string;
  PairTicket : string;
  PeerRole : VNetPeerRole;
  Candidates : list VNetPeerCandidate;
  InboundTCP : list PortRange;
  InboundUDP : list PortRange;
  ExpiresAtUnixMS : Z
}.

(** [VNetPeerActivate] and [VNetPeerRevoke] name a generation and a peer. *)
Record VNetPeerPath := { PathGeneration : Z; PathClientID : string }.

Inductive VNetPeerState := VNetPeerStateReady | VNetPeerStateFailed | VNetPeerStateClosed.
#[export] Instance peer_state_eq_dec : EqDecision VNetPeerState.
Proof. solve_decision. Defined.

(** ** State *)

Definition peerProbeAttempts : Z := 3.
Definition peerMaximumCandidates : Z := 16.
Definition peerMaximumTrackedFlows : Z := 65536.
Definition peerFlowRenewInterval : Duration := 20 * Second.
Definition peerTCPFlowIdle : Duration := TCPFlowIdle.
Definition peerUDPFlowIdle : Duration := UDPFlowIdle.

Record peerOfferState := {
  offer : VNetPeerOffer;
  secret : list byte;
  connection : option nat;
  active : bool;
  dialing : bool;
  failedCandidates : gset string;
  probeAttempts : gmap string Z;
  validatedCandidates : list string
}.

Record peerFlowRoute := {
  direct : bool;
  generation : Z;
  expiresAt : Time;
  opener : Flow;
  renewAt : Time
}.

Record PeerEndpoint := {
  cancelled : bool;                      (** the context is done *)
  clientID : string;
  virtualIP : Addr;
  mtu : Z;
  openFlow : bool;                       (** a flow opener is registered *)
  admission : Admission;
  capacityRejected : Z;
  rateRejected : Z;
  fallbacks : Z;
  states : gmap nat peerOfferState;      (** the offer states that pointers refer to *)
  offers : gmap Z nat;
  activeByIP : gmap Addr nat;
  flows : gmap (list byte) peerFlowRoute;
  nextFlowCleanup : Time
}.
#[export] Instance eta_peerOfferState : Eta peerOfferState :=
  λ r, {| offer := offer r; secret := secret r; connection := connection r; active := active r;
          dialing := dialing r; failedCandidates := failedCandidates r;
          probeAttempts := probeAttempts r; validatedCandidates := validatedCandidates r |}.
#[export] Instance eta_peerFlowRoute : Eta peerFlowRoute :=
  λ r, {| direct := direct r; generation := generation r; expiresAt := expiresAt r;
          opener := opener r; renewAt := renewAt r |}.
#[export] Instance eta_PeerEndpoint : Eta PeerEndpoint :=
  λ r, {| cancelled := cancelled r; clientID := clientID r; virtualIP := virtualIP r; mtu := mtu r;
          openFlow := openFlow r; admission := admission r; capacityRejected := capacityRejected r;
          rateRejected := rateRejected r; fallbacks := fallbacks r; states := states r;
          offers := offers r; activeByIP := activeByIP r; flows := flows r;
          nextFlowCleanup := nextFlowCleanup r |}.

(** The zero value of a flow: the opener of a route that the peer opened. *)
Definition zero_flow : Flow :=
  {| Protocol := 0; SourceIP := AddrZero; SourcePort := 0; DestinationIP := AddrZero;
     DestinationPort := 0; TCPFlags := 0 |}.

(** The orders of the loops over the maps. *)
Record PeerRanges := {
  range_flows : go_range (list byte) peerFlowRoute;
  range_pairs : go_range nodePair pairAdmission;
  range_offers : go_range Z nat
}.

Definition any_ranges : PeerRanges :=
  {| range_flows := any_range; range_pairs := any_range; range_offers := any_range |}.

Definition state_of (s : nat) (e : PeerEndpoint) : option peerOfferState := states e !! s.
Definition on_state (s : nat) (f : peerOfferState → peerOfferState) (e : PeerEndpoint) : PeerEndpoint :=
  e <| states := alter f s (states e) |>.

(** [endpoint.offers[state.offer.PeerGeneration] == state] *)
Definition is_current (s : nat) (st : peerOfferState) (e : PeerEndpoint) : bool :=
  bool_decide (offers e !! PeerGeneration (offer st) = Some s).

(** ** Flows *)

Definition peerFlowKey (flow : Flow) : option (list byte) :=
  if negb (Is4 (SourceIP flow)) || negb (Is4 (DestinationIP flow)) ||
     (negb (Protocol flow =? ProtocolTCP) && negb (Protocol flow =? ProtocolUDP))
  then None
  else key_bytes <$> MakeKey flow.

Definition peerFlowExpiry (flow : Flow) (now : Time) : Time :=
  if Protocol flow =? ProtocolUDP then Add now peerUDPFlowIdle else Add now peerTCPFlowIdle.

(** [netip.AddrFrom4([4]byte(key[i : i+4]))] *)
Definition key_addr (i : nat) (key : list byte) : Addr :=
  match drop i key with
  | a :: b :: c :: d :: _ => Addr4 (IP4 a b c d)
  | _ => AddrZero
  end.

Definition release_key (key : list byte) (admission : Admission) : Admission :=
  default admission (Release (key_addr 1 key) (key_addr 7 key) admission).

Definition removeFlowLocked (key : list byte) (e : PeerEndpoint) : PeerEndpoint :=
  match flows e !! key with
  | Some route =>
    (if direct route then e <| admission := release_key key (admission e) |> else e)
      <| flows := delete key (flows e) |>
  | None => e
  end.

Definition idle (now : Time) (route : peerFlowRoute) : bool := negb (Before now (expiresAt route)).

Definition flowLocked (key : list byte) (now : Time) (e : PeerEndpoint) :
    PeerEndpoint * option peerFlowRoute :=
  match flows e !! key with
  | Some route => if idle now route then (removeFlowLocked key e, None) else (e, Some route)
  | None => (e, None)
  end.

(** The loops over the flow table: the entries as they were when reached. *)
Definition expire_flows (now : Time) (l : list (list byte * peerFlowRoute)) (e : PeerEndpoint) :
    PeerEndpoint :=
  foldl (λ e '(key, route), if idle now route then removeFlowLocked key e else e) e l.

Definition relay_flow (g : Z) (key : list byte) (route : peerFlowRoute) (e : PeerEndpoint) : PeerEndpoint :=
  if direct route && (generation route =? g) then
    e <| admission := release_key key (admission e) |>
      <| flows := <[key := route <| direct := false |> <| generation := 0 |>]> (flows e) |>
  else e.

Definition relay_flows (g : Z) (l : list (list byte * peerFlowRoute)) (e : PeerEndpoint) : PeerEndpoint :=
  foldl (λ e '(key, route), relay_flow g key route e) e l.

Definition peerPortAllowed (offer : VNetPeerOffer) (networkProtocol port : Z) : bool :=
  let ranges := if networkProtocol =? ProtocolTCP then InboundTCP offer else InboundUDP offer in
  existsb (λ r, (Start r <=? port) && (port <=? End_ r)) ranges.

Section endpoint.
Context `{NetipText} `{SignalCodec}.
(** [base64.RawURLEncoding.DecodeString] and HMAC-SHA256 *)
Context (DecodeString : string → option (list byte)) (hmac : list byte → list byte → list byte).
Context (ρ : PeerRanges).

(** [peerIP, _ := netip.ParseAddr(offer.PeerVirtualIP)] *)
Definition offer_ip (offer : VNetPeerOffer) : Addr := default AddrZero (ParseAddr (PeerVirtualIP offer)).

Definition expireFlowsLocked (now : Time) (e : PeerEndpoint) : PeerEndpoint :=
  if Before now (nextFlowCleanup e) then e
  else expire_flows now (range_flows ρ (flows e)) (e <| nextFlowCleanup := Add now Second |>).

Definition relayFlowsLocked (g : Z) (e : PeerEndpoint) : PeerEndpoint :=
  relay_flows g (range_flows ρ (flows e)) e.

Definition admitFlowLocked (flow : Flow) (now : Time) (e : PeerEndpoint) : PeerEndpoint * bool :=
  let '(adm, err) := Admit (range_pairs ρ) flow now peerMaximumTrackedFlows (admission e) in
  let e := e <| admission := adm |> in
  match err with
  | None => (e, true)
  | Some ErrFlowRate => (e <| rateRejected := u64 (rateRejected e + 1) |>, false)
  | Some _ => (e <| capacityRejected := u64 (capacityRejected e + 1) |>, false)
  end.

Definition MarkRelay (flow : Flow) (now : Time) (e : PeerEndpoint) : PeerEndpoint :=
  match peerFlowKey flow with
  | None => e
  | Some key =>
    match flowLocked key now (expireFlowsLocked now e) with
    | (e, Some route) => e <| flows := <[key := route <| expiresAt := peerFlowExpiry flow now |>]> (flows e) |>
    | (e, None) =>
      if Z.of_nat (size (flows e)) <? peerMaximumTrackedFlows then
        e <| flows := <[key := {| direct := false; generation := 0; expiresAt := peerFlowExpiry flow now;
                                  opener := zero_flow; renewAt := zero_time |}]> (flows e) |>
      else e
    end
  end.

(** [renewFlowLocked] returns at once unless the route needs the opener, which
    is called with the lock released. *)
Definition needs_renewal (route : peerFlowRoute) (now : Time) (e : PeerEndpoint) : bool :=
  bool_decide (SourceIP (opener route) = virtualIP e) && negb (Before now (renewAt route)) && openFlow e.

(** The rest of [renewFlowLocked] once the opener has returned: the renewed
    route, or an error. *)
Definition renewed (s : nat) (err : bool) (route : peerFlowRoute) (now : Time) (e : PeerEndpoint) :
    option peerFlowRoute :=
  if err then None
  else match state_of s e with
       | Some st =>
         if negb (is_current s st e) || negb (active st) then None
         else Some (route <| renewAt := Add now peerFlowRenewInterval |>)
       | None => None
       end.

(** Where a call of [Send] is when it leaves the lock. *)
Inductive SendNext :=
| SendReturns (sent : bool)
| SendOpens (key : list byte) (s : nat) (route : peerFlowRoute)
| SendWrites (s connection : nat) (g : Z).

(** The end of [Send]'s critical section, from the second look at the flow. *)
Definition send_commit (key : list byte) (s : nat) (flow : Flow) (route : peerFlowRoute) (now : Time)
    (e : PeerEndpoint) : PeerEndpoint * SendNext :=
  match flowLocked key now e with
  | (e, None) => (e, SendReturns true)
  | (e, Some current) =>
    if negb (direct current) || negb (generation current =? generation route) then (e, SendReturns false)
    else
      let e := e <| flows := <[key := route <| expiresAt := peerFlowExpiry flow now |>]> (flows e) |> in
      let e' := if IsTCPReset flow then removeFlowLocked key e else e in
      match state_of s e with
      | Some st => match connection st with
                   | Some c => (e', SendWrites s c (PeerGeneration (offer st)))
                   | None => (e', SendReturns true)
                   end
      | None => (e', SendReturns true)
      end
  end.

(** From the route on: ownership, renewal, commit. *)
Definition send_route (key : list byte) (s : nat) (st : peerOfferState) (flow : Flow) (route : peerFlowRoute)
    (now : Time) (e : PeerEndpoint) : PeerEndpoint * SendNext :=
  if negb (direct route) || negb (generation route =? PeerGeneration (offer st)) then (e, SendReturns false)
  else if needs_renewal route now e then (e, SendOpens key s route)
  else send_commit key s flow route now e.

Definition new_route (st : peerOfferState) (opened : Flow) (flow : Flow) (now : Time) : peerFlowRoute :=
  {| direct := true; generation := PeerGeneration (offer st); expiresAt := peerFlowExpiry flow now;
     opener := opened; renewAt := zero_time |}.

(** The first critical section of [Send]. *)
Definition send_enter (flow : Flow) (packet : list byte) (now : Time) (e : PeerEndpoint) :
    PeerEndpoint * SendNext :=
  match peerFlowKey flow with
  | None => (e, SendReturns false)
  | Some key =>
    if bool_decide (packet = []) || (mtu e <? Z.of_nat (length packet)) then (e, SendReturns false)
    else
      let '(e, found) := flowLocked key now (expireFlowsLocked now e) in
      let path := s ← activeByIP e !! DestinationIP flow; st ← state_of s e; Some (s, st) in
      match found with
      | Some route =>
        if negb (direct route) then
          (e <| flows := <[key := route <| expiresAt := peerFlowExpiry flow now |>]> (flows e) |>, SendReturns false)
        else
          match path with
          | Some (s, st) =>
            if negb (active st) || negb (is_some (connection st)) then (e, SendReturns false)
            else send_route key s st flow route now e
          | None => (e, SendReturns false)
          end
      | None =>
        match path with
        | Some (s, st) =>
          if negb (active st) || negb (is_some (connection st)) then (e, SendReturns false)
          else if peerMaximumTrackedFlows <=? Z.of_nat (size (flows e)) then
            (e <| capacityRejected := u64 (capacityRejected e + 1) |>, SendReturns true)
          else if (Protocol flow =? ProtocolTCP) && negb (IsTCPStart flow) then (e, SendReturns false)
          else
            match admitFlowLocked flow now e with
            | (e, false) => (e, SendReturns true)
            | (e, true) =>
              let route := new_route st flow flow now in
              send_route key s st flow route now (e <| flows := <[key := route]> (flows e) |>)
            end
        | None => (e, SendReturns false)
        end
      end
  end.

(** [authorizeInbound], likewise. *)
Inductive InboundNext :=
| InboundReturns (authorized : bool)
| InboundOpens (key : list byte) (route : peerFlowRoute).

Definition inbound_commit (key : list byte) (flow : Flow) (route : peerFlowRoute) (now : Time)
    (e : PeerEndpoint) : PeerEndpoint * bool :=
  match flows e !! key with
  | Some current =>
    if negb (direct current) || negb (generation current =? generation route) then (e, false)
    else
      let e := e <| flows := <[key := route <| expiresAt := peerFlowExpiry flow now |>]> (flows e) |> in
      ((if IsTCPReset flow then removeFlowLocked key e else e), true)
  | None => (e, false)
  end.

Definition inbound_route (key : list byte) (st : peerOfferState) (flow : Flow) (route : peerFlowRoute)
    (now : Time) (e : PeerEndpoint) : PeerEndpoint * InboundNext :=
  if negb (direct route) || negb (generation route =? PeerGeneration (offer st)) then (e, InboundReturns false)
  else if needs_renewal route now e then (e, InboundOpens key route)
  else let '(e, ok) := inbound_commit key flow route now e in (e, InboundReturns ok).

Definition inbound_enter (s : nat) (flow : Flow) (now : Time) (e : PeerEndpoint) : PeerEndpoint * InboundNext :=
  match peerFlowKey flow, state_of s e with
  | Some key, Some st =>
    if negb (is_current s st e) || negb (active st) then (e, InboundReturns false)
    else
      match flowLocked key now (expireFlowsLocked now e) with
      | (e, Some route) => inbound_route key st flow route now e
      | (e, None) =>
        if peerMaximumTrackedFlows <=? Z.of_nat (size (flows e)) then
          (e <| capacityRejected := u64 (capacityRejected e + 1) |>, InboundReturns false)
        else if ((Protocol flow =? ProtocolTCP) && negb (IsTCPStart flow)) ||
                negb (peerPortAllowed (offer st) (Protocol flow) (DestinationPort flow))
        then (e, InboundReturns false)
        else
          match admitFlowLocked flow now e with
          | (e, false) => (e, InboundReturns false)
          | (e, true) =>
            let route := new_route st zero_flow flow now in
            inbound_route key st flow route now (e <| flows := <[key := route]> (flows e) |>)
          end
      end
  | _, _ => (e, InboundReturns false)
  end.

(** ** Paths *)

Definition SetFlowOpener (present : bool) (e : PeerEndpoint) : PeerEndpoint := e <| openFlow := present |>.

Definition forget_active (s : nat) (st : peerOfferState) (e : PeerEndpoint) : PeerEndpoint :=
  let ip := offer_ip (offer st) in
  if bool_decide (activeByIP e !! ip = Some s) then e <| activeByIP := delete ip (activeByIP e) |> else e.

(** The critical section of [failPath]; [true] when the path was current, in
    which case a status follows. *)
Definition failPath (s : nat) (e : PeerEndpoint) : PeerEndpoint * bool :=
  match state_of s e with
  | Some st =>
    if negb (is_current s st e) then (e, false)
    else
      let e := forget_active s st e in
      let e := if active st then e <| fallbacks := u64 (fallbacks e + 1) |> else e in
      let e := on_state s (λ st, st <| active := false |>) e in
      (relayFlowsLocked (PeerGeneration (offer st)) e, true)
  | None => (e, false)
  end.

Definition Activate (activation : VNetPeerPath) (e : PeerEndpoint) : option PeerEndpoint :=
  s ← offers e !! PathGeneration activation;
  st ← state_of s e;
  if negb (is_some (connection st)) || negb (bool_decide (PeerClientID (offer st) = PathClientID activation))
  then None
  else Some ((on_state s (λ st, st <| active := true |>) e)
               <| activeByIP := <[offer_ip (offer st) := s]> (activeByIP e) |>).

(** [Revoke] and the connection it closes. *)
Definition Revoke (revocation : VNetPeerPath) (e : PeerEndpoint) : PeerEndpoint * option nat :=
  match (s ← offers e !! PathGeneration revocation; st ← state_of s e; Some (s, st)) with
  | Some (s, st) =>
    if bool_decide (PeerClientID (offer st) = PathClientID revocation) then
      let e := on_state s (λ st, st <| active := false |>) e in
      let e := relayFlowsLocked (PathGeneration revocation) e in
      let e := e <| offers := delete (PathGeneration revocation) (offers e) |> in
      (forget_active s st e, connection st)
    else (e, None)
  | None => (e, None)
  end.

(** ** Offers, probes and dialling *)

Inductive OfferError := ErrContext | ErrInvalidOffer | ErrCandidateType | ErrDuplicateOffer.
#[export] Instance offer_error_eq_dec : EqDecision OfferError.
Proof. solve_decision. Defined.

Definition valid_offer (offer : VNetPeerOffer) (now : Time) (e : PeerEndpoint) : bool :=
  match DecodeString (PairTicket offer), ParseAddr (PeerVirtualIP offer) with
  | Some secret, Some peerIP =>
    negb ((Z.of_nat (length secret) <? 16) || negb (Is4 peerIP) || (PeerGeneration offer =? 0) ||
          bool_decide (PeerClientID offer = "") || bool_decide (PeerClientID offer = clientID e) ||
          (negb (bool_decide (PeerRole offer = VNetPeerRoleClient)) &&
           negb (bool_decide (PeerRole offer = VNetPeerRoleServer))) ||
          (ExpiresAtUnixMS offer <=? UnixMilli now) ||
          (peerMaximumCandidates <? Z.of_nat (length (Candidates offer))))
  | _, _ => false
  end.

Definition known_type (candidate : VNetPeerCandidate) : bool :=
  bool_decide (CandidateType candidate = VNetPeerCandidateHost) ||
  bool_decide (CandidateType candidate = VNetPeerCandidateServerReflexive).

Definition new_offer_state (offer : VNetPeerOffer) : peerOfferState :=
  {| offer := offer; secret := default [] (DecodeString (PairTicket offer)); connection := None;
     active := false; dialing := false; failedCandidates := ∅; probeAttempts := ∅;
     validatedCandidates := [] |}.

(** [ApplyOffer] up to the insertion of the new state, allocated at [s]; the
    offer is checked before the lock is taken. *)
Definition ApplyOffer (offer : VNetPeerOffer) (s : nat) (now : Time) (e : PeerEndpoint) :
    result OfferError PeerEndpoint :=
  if cancelled e then Err ErrContext
  else if negb (valid_offer offer now e) then Err ErrInvalidOffer
  else if negb (forallb known_type (Candidates offer)) then Err ErrCandidateType
  else if is_some (offers e !! PeerGeneration offer) then Err ErrDuplicateOffer
  else Ok (e <| states := <[s := new_offer_state offer]> (states e) |>
             <| offers := <[PeerGeneration offer := s]> (offers e) |>).

Definition host_candidates (offer : VNetPeerOffer) : list VNetPeerCandidate :=
  filter (λ c, CandidateType c = VNetPeerCandidateHost) (Candidates offer).
Definition reflexive_candidates (offer : VNetPeerOffer) : list VNetPeerCandidate :=
  filter (λ c, CandidateType c ≠ VNetPeerCandidateHost) (Candidates offer).

Definition offer_expired (st : peerOfferState) (now : Time) : bool :=
  ExpiresAtUnixMS (offer st) <=? UnixMilli now.

(** The condition that ends the loop of [startProbeChecks]. *)
Definition probing_over (s : nat) (st : peerOfferState) (now : Time) (e : PeerEndpoint) : bool :=
  is_some (connection st) || negb (is_current s st e) || offer_expired st now.

(** One turn of [sendProbes]: the attempt is counted, or the candidate is
    skipped. *)
Definition count_probe (s : nat) (candidate : VNetPeerCandidate) (now : Time) (e : PeerEndpoint) :
    option PeerEndpoint :=
  match state_of s e with
  | Some st =>
    if negb (is_current s st e) || is_some (connection st) || offer_expired st now ||
       (peerProbeAttempts <=? count_get (probeAttempts st) (Address candidate))
    then None
    else Some (on_state s (λ st, st <| probeAttempts := count_incr (probeAttempts st) (Address candidate) |>) e)
  | None => None
  end.

Definition probe_signal (kind : Z) (peer : string) (g : Z) (e : PeerEndpoint) : PeerSignal :=
  {| Kind := kind; SignalClientID := clientID e; SignalSessionID := ""; SignalPeerClientID := peer;
     SignalPeerGeneration := g; Fingerprint := ""; HostCandidates := [] |}.

(** The critical section of [startDial]; [true] when the dial starts. *)
Definition startDial (s : nat) (address : string) (now : Time) (e : PeerEndpoint) : PeerEndpoint * bool :=
  match state_of s e with
  | Some st =>
    if negb (is_current s st e) || is_some (connection st) ||
       bool_decide (address ∈ failedCandidates st) ||
       (peerMaximumCandidates <=? Z.of_nat (size (failedCandidates st))) || offer_expired st now
    then (e, false)
    else
      let found := bool_decide (address ∈ validatedCandidates st) in
      if negb found && (peerMaximumCandidates <=? Z.of_nat (length (validatedCandidates st))) then (e, false)
      else
        let e := if found then e
                 else on_state s (λ st, st <| validatedCandidates := validatedCandidates st ++ [address] |>) e in
        if dialing st then (e, false)
        else (on_state s (λ st, st <| dialing := true |>) e, true)
  | None => (e, false)
  end.

(** The critical section after a failed dial: whether the offer is current,
    and the next candidate. *)
Definition dial_failed (s : nat) (address : string) (e : PeerEndpoint) : PeerEndpoint * bool * option string :=
  match state_of s e with
  | Some st =>
    let st' := st <| dialing := false |> <| failedCandidates := {[address]} ∪ failedCandidates st |> in
    (on_state s (λ _, st') e, is_current s st e,
     head (filter (λ c, c ∉ failedCandidates st') (validatedCandidates st')))
  | None => (e, false, None)
  end.

(** The critical section of [publishConnection]; [false] closes the connection. *)
Definition publishConnection (s conn : nat) (now : Time) (e : PeerEndpoint) : PeerEndpoint * bool :=
  match state_of s e with
  | Some st =>
    if negb (is_current s st e) || is_some (connection st) || offer_expired st now then (e, false)
    else (on_state s (λ st, st <| connection := Some conn |>) e, true)
  | None => (e, false)
  end.

(** The state an incoming connection belongs to ([acceptConnections]). *)
Definition accepts (serverName : string) (e : PeerEndpoint) : option nat :=
  g ← parsePeerServerName serverName;
  s ← offers e !! g;
  st ← state_of s e;
  if bool_decide (PeerRole (offer st) = VNetPeerRoleServer) then Some s else None.

(** The state a signal is for, if it is authentic ([readSignals]). *)
Definition signal_state (data : list byte) (e : PeerEndpoint) : option (nat * peerOfferState * PeerSignal) :=
  match ParsePeerSignal data with
  | Err _ => None
  | Ok signal =>
    if (Kind signal =? PeerSignalRegister) || negb (bool_decide (SignalPeerClientID signal = clientID e)) then None
    else
      s ← offers e !! SignalPeerGeneration signal;
      st ← state_of s e;
      if negb (bool_decide (PeerClientID (offer st) = SignalClientID signal)) ||
         is_some (VerifyPeerSignal hmac data (secret st))
      then None else Some (s, st, signal)
  end.

(** The frame checks of [readDatagrams] before [authorizeInbound]. *)
Definition inbound_packet (st : peerOfferState) (frame : list byte) (e : PeerEndpoint) :
    option (list byte * Flow) :=
  packet ← read_frame (PeerGeneration (offer st)) (mtu e) frame;
  match ParseIPv4 packet with
  | Ok flow =>
    if bool_decide (SourceIP flow = offer_ip (offer st)) && bool_decide (DestinationIP flow = virtualIP e)
    then Some (packet, flow) else None
  | Err _ => None
  end.

(** The critical section of [closeSession] and the connections it closes. *)
Definition closeSession (e : PeerEndpoint) : PeerEndpoint * list nat :=
  let live := (range_offers ρ (offers e)).*2 in
  let e' := foldl (λ e s, on_state s (λ st, st <| active := false |>) e) e live in
  (e' <| offers := ∅ |> <| activeByIP := ∅ |> <| flows := ∅ |> <| admission := empty_admission |>,
   omap (λ s, state_of s e ≫= connection) live).

(** ** Goroutines *)

Inductive Pc :=
(** [Send]: the opener runs; the datagram is written; the path is failed *)
| SendOpening (key : list byte) (flow : Flow) (packet : list byte) (s : nat) (route : peerFlowRoute) (now : Time)
| SendWriting (s conn : nat) (g : Z) (packet : list byte)
| Failing (s : nat) (code : string)
(** [readDatagrams] *)
| Reading (s conn : nat)
| InboundOpening (s conn : nat) (packet : list byte) (flow : Flow) (key : list byte) (route : peerFlowRoute) (now : Time)
| Delivering (s conn : nat) (packet : list byte)
(** [startProbeChecks]: top of the loop, in [sendProbes], at the timer *)
| Probing (s : nat) (candidates : list VNetPeerCandidate) (attempt : Z)
| ProbeSending (s : nat) (candidates rest : list VNetPeerCandidate) (attempt : Z)
| ProbeWaiting (s : nat) (candidates : list VNetPeerCandidate) (attempt : Z)
(** the timers of [ApplyOffer] *)
| ReflexiveWaiting (s : nat) (candidates : list VNetPeerCandidate)
| ExpiryWaiting (s : nat)
(** [readSignals] and its call of [startDial] *)
| ReadingSignals
| SignalDialing (s : nat) (address : string)
(** the goroutine of [startDial] *)
| Dialing (s : nat) (address : string)
| Redialing (s : nat) (next : option string)
(** [publishConnection], called by the dial or by [acceptConnections] *)
| Accepting
| Publishing (s conn : nat) (accepted : bool).

Inductive Event :=
| EvOpenFlow (g : Z) (peer : string) (flow : Flow)
| EvDatagram (conn : nat) (frame : list byte)
| EvReceived (packet : list byte)
| EvStatus (g : Z) (peer : string) (state : VNetPeerState) (code : string)
| EvClosed (conn : nat)
| EvProbe (s : nat) (address : string) (message : list byte)
| EvAck (address : string) (message : list byte)
| EvDial (s : nat) (address : string).

Record World := {
  ep : PeerEndpoint;
  threads : gmap nat Pc;
  next : nat;                            (** a name never used for a thread or a state *)
  closed : bool;                         (** [closeOnce] has run *)
  events : list Event
}.
#[export] Instance eta_World : Eta World :=
  λ w, {| ep := ep w; threads := threads w; next := next w; closed := closed w;
          events := events w |}.

Definition emit (evs : list Event) (w : World) : World := w <| events := events w ++ evs |>.
Definition spawn (pc : Pc) (w : World) : World :=
  w <| threads := <[next w := pc]> (threads w) |> <| next := S (next w) |>.
Definition goto (t : nat) (pc : Pc) (w : World) : World := w <| threads := <[t := pc]> (threads w) |>.
Definition exit (t : nat) (w : World) : World := w <| threads := delete t (threads w) |>.
Definition set_ep (e : PeerEndpoint) (w : World) : World := w <| ep := e |>.

Definition startProbeChecks (s : nat) (candidates : list VNetPeerCandidate) (w : World) : World :=
  if bool_decide (candidates = []) then w else spawn (Probing s candidates 0) w.

(** What the environment answers to a goroutine. *)
Inductive Input :=
| Proceed
| Failed
| Frame (frame : list byte)
| Connected (conn : nat)
| SignalPacket (data : list byte) (address : string)
| Incoming (conn : nat) (serverName : string).

(** *** [Send] and [readDatagrams] *)

Definition open_event (s : nat) (flow : Flow) (e : PeerEndpoint) : list Event :=
  match state_of s e with
  | Some st => [EvOpenFlow (PeerGeneration (offer st)) (PeerClientID (offer st)) flow]
  | None => []
  end.

Definition send_next (t : nat) (flow : Flow) (packet : list byte) (now : Time)
    (r : PeerEndpoint * SendNext) (w : World) : World :=
  let w := set_ep r.1 w in
  match r.2 with
  | SendReturns _ => exit t w
  | SendOpens key s route =>
    emit (open_event s (opener route) (ep w)) (goto t (SendOpening key flow packet s route now) w)
  | SendWrites s c g => goto t (SendWriting s c g packet) w
  end.

Definition inbound_next (t s conn : nat) (packet : list byte) (flow : Flow) (now : Time)
    (r : PeerEndpoint * InboundNext) (w : World) : World :=
  let w := set_ep r.1 w in
  match r.2 with
  | InboundReturns true => goto t (Delivering s conn packet) w
  | InboundReturns false => goto t (Reading s conn) w
  | InboundOpens key route =>
    emit (open_event s (opener route) (ep w)) (goto t (InboundOpening s conn packet flow key route now) w)
  end.

Definition read_datagram (t s conn : nat) (frame : list byte) (now : Time) (w : World) : World :=
  match (st ← state_of s (ep w); inbound_packet st frame (ep w)) with
  | Some (packet, flow) => inbound_next t s conn packet flow now (inbound_enter s flow now (ep w)) w
  | None => goto t (Reading s conn) w
  end.

Definition fail_thread (t s : nat) (code : string) (w : World) : World :=
  let '(e, current) := failPath s (ep w) in
  let w := exit t (set_ep e w) in
  match state_of s e with
  | Some st =>
    if current && negb (cancelled e)
    then emit [EvStatus (PeerGeneration (offer st)) (PeerClientID (offer st)) VNetPeerStateFailed code] w
    else w
  | None => w
  end.

(** *** Probes *)

Definition probe_candidate (t s : nat) (candidates rest : list VNetPeerCandidate) (attempt : Z) (resolved : bool)
    (now : Time) (w : World) : World :=
  match rest with
  | [] => if attempt + 1 =? peerProbeAttempts then exit t w else goto t (ProbeWaiting s candidates attempt) w
  | candidate :: rest =>
    let continue := goto t (ProbeSending s candidates rest attempt) in
    match count_probe s candidate now (ep w), state_of s (ep w) with
    | Some e, Some st =>
      let signal := probe_signal PeerSignalProbe (PeerClientID (offer st)) (PeerGeneration (offer st)) e in
      match EncodePeerSignal hmac signal (secret st) with
      | Ok message =>
        emit (if resolved then [EvProbe s (Address candidate) message] else []) (continue (set_ep e w))
      | Err _ => continue (set_ep e w)
      end
    | _, _ => continue w
    end
  end.

Definition probe_check (t s : nat) (candidates : list VNetPeerCandidate) (attempt : Z) (now : Time) (w : World) :
    World :=
  match state_of s (ep w) with
  | Some st =>
    if probing_over s st now (ep w) || cancelled (ep w) then exit t w
    else goto t (ProbeSending s candidates candidates attempt) w
  | None => exit t w
  end.

(** *** Signals, dials, connections *)

Definition begin_dial (s : nat) (address : string) (now : Time) (w : World) : World :=
  let '(e, started) := startDial s address now (ep w) in
  if started then emit [EvDial s address] (spawn (Dialing s address) (set_ep e w)) else set_ep e w.

Definition read_signal (t : nat) (data : list byte) (address : string) (w : World) : World :=
  match signal_state data (ep w) with
  | None => goto t ReadingSignals w
  | Some (s, st, signal) =>
    if Kind signal =? PeerSignalProbe then
      let ack := probe_signal PeerSignalProbeAck (SignalClientID signal) (SignalPeerGeneration signal) (ep w) in
      let message := match EncodePeerSignal hmac ack (secret st) with Ok m => m | Err _ => [] end in
      emit [EvAck address message] (goto t ReadingSignals w)
    else if (Kind signal =? PeerSignalProbeAck) && bool_decide (PeerRole (offer st) = VNetPeerRoleClient)
    then goto t (SignalDialing s address) w
    else goto t ReadingSignals w
  end.

Definition redial (t s : nat) (candidate : option string) (now : Time) (w : World) : World :=
  let w := match candidate with Some address => begin_dial s address now w | None => w end in
  match state_of s (ep w) with
  | Some st => exit t (startProbeChecks s (Candidates (offer st)) w)
  | None => exit t w
  end.

Definition publish (t s conn : nat) (accepted : bool) (now : Time) (w : World) : World :=
  let '(e, published) := publishConnection s conn now (ep w) in
  let w := set_ep e (if accepted then goto t Accepting w else exit t w) in
  if published then
    match state_of s e with
    | Some st =>
      emit [EvStatus (PeerGeneration (offer st)) (PeerClientID (offer st)) VNetPeerStateReady ""]
        (spawn (Reading s conn) w)
    | None => w
    end
  else emit [EvClosed conn] w.

(** One step of a goroutine; [None] when the input does not fit. *)
Definition thread_step (t : nat) (pc : Pc) (input : Input) (now : Time) (w : World) : option World :=
  match pc, input with
  | SendOpening key flow packet s route start, (Proceed | Failed) =>
    let err := match input with Failed => true | _ => false end in
    Some match renewed s err route start (ep w) with
         | None => goto t (Failing s "flow_registration_failed") w
         | Some route => send_next t flow packet start (send_commit key s flow route start (ep w)) w
         end
  | SendWriting s conn g packet, Proceed => Some (emit [EvDatagram conn (datagram_frame g packet)] (exit t w))
  | SendWriting s conn g packet, Failed => Some (goto t (Failing s "datagram_send_failed") w)
  | Failing s code, Proceed => Some (fail_thread t s code w)
  | Reading s conn, Frame frame => Some (read_datagram t s conn frame now w)
  | Reading s conn, Failed => Some (goto t (Failing s "datagram_receive_failed") w)
  | InboundOpening s conn packet flow key route start, (Proceed | Failed) =>
    let err := match input with Failed => true | _ => false end in
    Some match renewed s err route start (ep w) with
         | None => goto t (Reading s conn) w
         | Some route =>
           let '(e, ok) := inbound_commit key flow route start (ep w) in
           inbound_next t s conn packet flow start (e, InboundReturns ok) w
         end
  | Delivering s conn packet, Proceed => Some (emit [EvReceived packet] (goto t (Reading s conn) w))
  | Delivering s conn packet, Failed =>
    Some (emit [EvReceived packet] (goto t (Failing s "packet_delivery_failed") w))
  | Probing s candidates attempt, Proceed => Some (probe_check t s candidates attempt now w)
  | ProbeSending s candidates rest attempt, Proceed => Some (probe_candidate t s candidates rest attempt true now w)
  | ProbeSending s candidates rest attempt, Failed => Some (probe_candidate t s candidates rest attempt false now w)
  | ProbeWaiting s candidates attempt, Proceed => Some (goto t (Probing s candidates (attempt + 1)) w)
  | (ProbeWaiting _ _ _ | ReflexiveWaiting _ _ | ExpiryWaiting _), Failed =>
    if cancelled (ep w) then Some (exit t w) else None
  | ReflexiveWaiting s candidates, Proceed =>
    Some match state_of s (ep w) with
         | Some st =>
           if is_some (connection st) || dialing st then exit t w
           else exit t (startProbeChecks s candidates w)
         | None => exit t w
         end
  | ExpiryWaiting s, Proceed =>
    match state_of s (ep w) with
    | Some st =>
      if negb (offer_expired st now) then None
      else if is_some (connection st) then Some (exit t w)
      else Some (goto t (Failing s "probe_timeout") w)
    | None => Some (exit t w)
    end
  | ReadingSignals, SignalPacket data address => Some (read_signal t data address w)
  | (ReadingSignals | Accepting), Failed => Some (exit t w)
  | SignalDialing s address, Proceed => Some (goto t ReadingSignals (begin_dial s address now w))
  | Dialing s address, Connected conn => Some (goto t (Publishing s conn false) w)
  | Dialing s address, Failed =>
    let '(e, current, candidate) := dial_failed s address (ep w) in
    let w := set_ep e w in
    Some (if current && negb (cancelled e) then goto t (Redialing s candidate) w else exit t w)
  | Redialing s candidate, Proceed => Some (redial t s candidate now w)
  | Accepting, Incoming conn serverName =>
    Some match accepts serverName (ep w) with
         | Some s => goto t (Publishing s conn true) w
         | None => emit [EvClosed conn] (goto t Accepting w)
         end
  | Publishing s conn accepted, Proceed => Some (publish t s conn accepted now w)
  | _, _ => None
  end.

Inductive Action :=
| DoSend (flow : Flow) (packet : list byte) (now : Time)
| DoMarkRelay (flow : Flow) (now : Time)
| DoApplyOffer (offer : VNetPeerOffer) (now : Time)
| DoActivate (activation : VNetPeerPath)
| DoRevoke (revocation : VNetPeerPath)
| DoSetFlowOpener (present : bool)
| DoCancel
| DoClose
| DoThread (t : nat) (input : Input) (now : Time).

Definition apply_offer (offer : VNetPeerOffer) (now : Time) (w : World) : World :=
  let s := next w in
  match ApplyOffer offer s now (ep w) with
  | Err _ => w
  | Ok e =>
    let w := w <| ep := e |> <| next := S s |> in
    let w := startProbeChecks s (host_candidates offer) w in
    spawn (ExpiryWaiting s) (spawn (ReflexiveWaiting s (reflexive_candidates offer)) w)
  end.

Definition step (a : Action) (w : World) : option World :=
  match a with
  | DoSend flow packet now =>
    let t := next w in
    Some (send_next t flow packet now (send_enter flow packet now (ep w)) (w <| next := S t |>))
  | DoMarkRelay flow now => Some (set_ep (MarkRelay flow now (ep w)) w)
  | DoApplyOffer offer now => Some (apply_offer offer now w)
  | DoActivate activation => e ← Activate activation (ep w); Some (set_ep e w)
  | DoRevoke revocation =>
    let '(e, conn) := Revoke revocation (ep w) in
    Some (emit (match conn with Some c => [EvClosed c] | None => [] end) (set_ep e w))
  | DoSetFlowOpener present => Some (set_ep (SetFlowOpener present (ep w)) w)
  | DoCancel => Some (set_ep ((ep w) <| cancelled := true |>) w)
  | DoClose =>
    if cancelled (ep w) && negb (closed w) then
      let '(e, conns) := closeSession (ep w) in
      Some (emit (EvClosed <$> conns) ((set_ep e w) <| closed := true |>))
    else None
  | DoThread t input now => pc ← threads w !! t; thread_step t pc input now w
  end.

(** [newPeerEndpoint] and the two goroutines that [NewEndpoint] starts *)
Definition newPeerEndpoint (client ip : string) (mtu : Z) : option PeerEndpoint :=
  match ParseAddr ip with
  | Some address =>
    if Is4 address then
      Some {| cancelled := false; clientID := client; virtualIP := address; mtu := mtu; openFlow := false;
              admission := empty_admission; capacityRejected := 0; rateRejected := 0; fallbacks := 0;
              states := ∅; offers := ∅; activeByIP := ∅; flows := ∅; nextFlowCleanup := zero_time |}
    else None
  | None => None
  end.

Definition start (client ip : string) (mtu : Z) : option World :=
  e ← newPeerEndpoint client ip mtu;
  Some {| ep := e; threads := <[0%nat := Accepting]> {[1%nat := ReadingSignals]}; next := 2; closed := false; events := [] |}.

(** A generation is a [uint64], the MTU a [uint16]. *)
Definition action_typed (a : Action) : Prop :=
  match a with
  | DoApplyOffer offer _ => 0 <= PeerGeneration offer < 2 ^ 64
  | _ => True
  end.

Inductive reachable : World → Prop :=
| reachable_start client ip mtu w : start client ip mtu = Some w → 0 <= mtu < 2 ^ 16 → reachable w
| reachable_step a w w' : reachable w → action_typed a → step a w = Some w' → reachable w'.
End endpoint.
