(* ===== verification/PeerFlows.v ===== *)
(** * Flows on direct paths: accounting, authority, pinning

    Every critical section of [PeerEndpoint] that touches the flow table is a
    sequence of elementary changes ([change]): remove a route, hand it to the
    relay, refresh it, add one.  What holds of each elementary change holds of
    the sections, and by induction of every reachable endpoint. *)

From stdpp Require Import relations.
From S2P Require Import Prelude GoTime NetAddr GoIO Packet FlowControl PortPolicy PeerWire PeerEndpoint.

Local Open Scope Z_scope.

(** ** Keys *)

Definition key_pair (key : list byte) : option nodePair := makeNodePair (key_addr 1 key) (key_addr 7 key).

Lemma key_bytes_addr k :
  key_addr 1 (key_bytes k) = Addr4 (FirstIP k) ∧ key_addr 7 (key_bytes k) = Addr4 (SecondIP k).
Proof.
  unfold key_bytes, key_addr, ip4_bytes. destruct k as [p [a0 a1 a2 a3] x [b0 b1 b2 b3] y].
  pose proof (length_PutUint16 x). cbn [FirstIP FirstPort SecondIP SecondPort oct0 oct1 oct2 oct3 app].
  destruct (PutUint16 x) as [|h [|l [|? ?]]]; try discriminate. done.
Qed.

(** The pair that a flow is charged to is the pair read back from its key. *)
Lemma flow_key_pair flow key :
  peerFlowKey flow = Some key →
  ∃ p, key_pair key = Some p ∧ makeNodePair (SourceIP flow) (DestinationIP flow) = Some p.
Proof.
  unfold peerFlowKey. destruct (_ || _) eqn:Hf; [done|]. bool_to_prop.
  destruct (Is4_inv (SourceIP flow)) as [a Ha]; [done|]. destruct (Is4_inv (DestinationIP flow)) as [b Hb]; [done|].
  intros (k & Hk & ->)%fmap_Some. destruct (key_bytes_addr k) as [E1 E2]. unfold key_pair. rewrite E1, E2.
  assert (Hp : makeNodePair (Addr4 (FirstIP k)) (Addr4 (SecondIP k)) = makeNodePair (SourceIP flow) (DestinationIP flow)).
  { unfold MakeKey, ordered_endpoints in Hk. rewrite Ha, Hb in Hk |- *. cbn [fst snd] in Hk.
    destruct (endpointLess _ _ _ _); simplify_eq/=; [apply makeNodePair_comm|done]. }
  rewrite Hp, Ha, Hb, makeNodePair_4. eauto.
Qed.

(** ** Accounts *)

Definition direct_charged (key : list byte) (route : peerFlowRoute) (p : nodePair) : Prop :=
  direct route = true ∧ key_pair key = Some p.
#[export] Instance direct_charged_dec key route p : Decision (direct_charged key route p).
Proof. unfold direct_charged. apply _. Defined.

(** The admission counts exactly the direct flows of every pair. *)
Record flow_accounts (e : PeerEndpoint) : Prop := {
  fa_pairs p : live (admission e) p = tally direct_charged (flows e) p;
  fa_admission : admission_ok (admission e);
  fa_size : Z.of_nat (size (flows e)) <= peerMaximumTrackedFlows;
  fa_keys key route : flows e !! key = Some route → is_Some (key_pair key)
}.

(** The fields that changes of the flow table leave alone. *)
Record same_paths (e e' : PeerEndpoint) : Prop := {
  sp_states : states e' = states e;
  sp_offers : offers e' = offers e;
  sp_active : activeByIP e' = activeByIP e;
  sp_ip : virtualIP e' = virtualIP e;
  sp_mtu : mtu e' = mtu e;
  sp_client : clientID e' = clientID e;
  sp_opener : openFlow e' = openFlow e;
  sp_cancelled : cancelled e' = cancelled e
}.
#[export] Instance same_paths_preorder : PreOrder same_paths.
Proof. split; [by constructor|]. intros ??? [] []. constructor; congruence. Qed.

Definition same_admission (e e' : PeerEndpoint) : Prop :=
  admission_ok (admission e) → admission_ok (admission e') ∧ ∀ p, live (admission e') p = live (admission e) p.

Section flows.
Context `{NetipText}.
Context (ρ : PeerRanges).

(** A flow that the peer may open towards this client. *)
Definition inbound_service (offer : VNetPeerOffer) (ip : Addr) (flow : Flow) : Prop :=
  SourceIP flow = offer_ip offer ∧ DestinationIP flow = ip ∧
  peerPortAllowed offer (Protocol flow) (DestinationPort flow) = true ∧
  (Protocol flow = ProtocolTCP → IsTCPStart flow = true).

(** Why a route may be direct: this client opened the flow, or the peer opened
    it on a port that the offer exposes. *)
Definition authority (offer : VNetPeerOffer) (ip : Addr) (key : list byte) (route : peerFlowRoute) : Prop :=
  peerFlowKey (opener route) = Some key ∨
  ∃ flow, inbound_service offer ip flow ∧ peerFlowKey flow = Some key.

(** A direct route belongs to the current, active offer of its generation. *)
Definition route_ok (e : PeerEndpoint) (key : list byte) (route : peerFlowRoute) : Prop :=
  direct route = true →
  ∃ s st, offers e !! generation route = Some s ∧ states e !! s = Some st ∧ active st = true ∧
          PeerGeneration (offer st) = generation route ∧ authority (offer st) (virtualIP e) key route.

(** ** Elementary changes *)

Inductive change (now : Time) : PeerEndpoint → PeerEndpoint → Prop :=
| ch_other e e' :
    flows e' = flows e → same_paths e e' → same_admission e e' → change now e e'
| ch_remove e key route :
    flows e !! key = Some route → direct route = true ∨ idle now route = true →
    change now e (removeFlowLocked key e)
| ch_relay e key route :
    flows e !! key = Some route → direct route = true →
    change now e (e <| admission := release_key key (admission e) |>
                    <| flows := <[key := route <| direct := false |> <| generation := 0 |>]> (flows e) |>)
| ch_refresh e key route route' :
    flows e !! key = Some route → direct route' = direct route → generation route' = generation route →
    opener route' = opener route ∨ route_ok e key route' → idle now route' = false →
    change now e (e <| flows := <[key := route']> (flows e) |>)
| ch_pin e key route :
    flows e !! key = None → direct route = false → is_Some (key_pair key) →
    Z.of_nat (size (flows e)) < peerMaximumTrackedFlows →
    change now e (e <| flows := <[key := route]> (flows e) |>)
| ch_open e e' flow key route :
    admitFlowLocked ρ flow now e = (e', true) → peerFlowKey flow = Some key → flows e !! key = None →
    Z.of_nat (size (flows e)) < peerMaximumTrackedFlows → direct route = true → route_ok e key route →
    change now e (e' <| flows := <[key := route]> (flows e') |>).

Abbreviation changes now := (rtc (change now)).

(** *** What a change preserves *)

Lemma release_key_spec key p adm :
  key_pair key = Some p → admission_ok adm →
  admission_ok (release_key key adm) ∧
  ∀ q, live (release_key key adm) q = if decide (q = p) then Z.max 0 (live adm q - 1) else live adm q.
Proof.
  intros Hp Hok. destruct (Release_spec _ _ _ _ Hp Hok) as (adm' & E & Hok' & Hl).
  unfold release_key. rewrite E. done.
Qed.

Lemma admitted_spec flow key now e e' ok :
  admitFlowLocked ρ flow now e = (e', ok) → peerFlowKey flow = Some key → admission_ok (admission e) →
  same_paths e e' ∧ flows e' = flows e ∧ admission_ok (admission e') ∧
  ∀ p, live (admission e') p = live (admission e) p + (if decide (ok = true ∧ key_pair key = Some p) then 1 else 0).
Proof.
  unfold admitFlowLocked. intros E (p & Hkp & Hp)%flow_key_pair Hok.
  destruct (Admit _ _ _ _ _) as [adm err] eqn:Ea.
  destruct (Admit_spec _ _ _ _ _ _ _ _ Ea Hp Hok) as (Hok' & Hl & _ & _).
  assert (Hgen : same_paths e e' ∧ flows e' = flows e ∧ admission e' = adm ∧ (ok = true ↔ err = None)).
  { destruct err as [[]|]; simplify_eq; by split_and!. }
  destruct Hgen as (? & ? & -> & Hiff). split_and!; [done..|].
  intros q. rewrite Hl, Hkp. do 2 case_decide; naive_solver lia.
Qed.

Lemma charge_set key route p :
  key_pair key = Some p →
  ∀ q, charge direct_charged key route q = if decide (direct route = true ∧ q = p) then 1 else 0.
Proof. intros Hp q. unfold charge. do 2 case_decide; unfold direct_charged in *; naive_solver. Qed.

Lemma remove_accounts key e : flow_accounts e → flow_accounts (removeFlowLocked key e).
Proof.
  intros Ha. unfold removeFlowLocked. destruct (flows e !! key) as [route|] eqn:Hk; [|done].
  destruct (fa_keys _ Ha _ _ Hk) as [p Hp].
  destruct (release_key_spec key p (admission e) Hp (fa_admission _ Ha)) as [Hok Hl].
  assert (Hsz : Z.of_nat (size (delete key (flows e))) <= peerMaximumTrackedFlows)
    by (rewrite map_size_delete, Hk; simpl; pose proof (fa_size _ Ha); lia).
  assert (Hkeys : ∀ k r, delete key (flows e) !! k = Some r → is_Some (key_pair k))
    by (intros k r [_ ?]%lookup_delete_Some; by eapply fa_keys).
  assert (Ht : ∀ q, tally direct_charged (delete key (flows e)) q = live (admission e) q - charge direct_charged key route q)
    by (intros q; by rewrite (tally_delete direct_charged _ _ route), <- fa_pairs).
  destruct (direct route) eqn:Hd; constructor; cbn [upd flows admission]; try done.
  - intros q. rewrite Hl, Ht. pose proof (tally_nonneg direct_charged (delete key (flows e)) q) as Hn.
    rewrite Ht in Hn. rewrite (charge_set key route p Hp) in *. rewrite Hd in *.
    repeat case_decide; naive_solver lia.
  - intros q. rewrite Ht, (charge_set key route p Hp), Hd, decide_False by naive_solver. lia.
  - apply Ha.
Qed.

Lemma relay_accounts key route e :
  flows e !! key = Some route → direct route = true → flow_accounts e →
  flow_accounts (e <| admission := release_key key (admission e) |>
                   <| flows := <[key := route <| direct := false |> <| generation := 0 |>]> (flows e) |>).
Proof.
  intros Hk Hd Ha. destruct (fa_keys _ Ha _ _ Hk) as [p Hp].
  destruct (release_key_spec key p (admission e) Hp (fa_admission _ Ha)) as [Hok Hl].
  constructor; cbn [upd flows admission]; [|done| |].
  - intros q. rewrite Hl, (tally_replace direct_charged _ _ route), <- fa_pairs by done.
    pose proof (tally_nonneg direct_charged (delete key (flows e)) q) as Hn.
    rewrite (tally_delete direct_charged _ _ route), <- fa_pairs in Hn by done.
    rewrite !(charge_set key _ p Hp) in *. cbn [direct upd] in *. rewrite Hd in *.
    repeat case_decide; naive_solver lia.
  - rewrite map_size_insert, Hk. simpl. apply Ha.
  - intros k r [[<- _]|[_ ?]]%lookup_insert_Some; [by rewrite Hp|by eapply fa_keys].
Qed.

Lemma change_accounts now e e' : change now e e' → flow_accounts e → flow_accounts e'.
Proof.
  intros Hc Ha. destruct Hc as [e e' Ef _ Hadm|e key route Hk _|e key route Hk Hd|e key route route' Hk Hd _ _ _
    |e key route Hk Hd Hp Hs|e e' flow key route Hadm Hf Hk Hs Hd _].
  - destruct (Hadm (fa_admission _ Ha)) as [Hok Hl]. constructor; rewrite ?Ef; try done; try apply Ha.
    intros p. rewrite Hl. apply Ha.
  - by apply remove_accounts.
  - by apply relay_accounts.
  - constructor; cbn [upd flows admission]; try apply Ha.
    + intros p. rewrite (tally_replace_same direct_charged _ _ route), <- fa_pairs by (done || (unfold direct_charged; by rewrite Hd)). done.
    + rewrite map_size_insert, Hk. simpl. apply Ha.
    + intros k r [[<- _]|[_ ?]]%lookup_insert_Some; by eapply fa_keys.
  - constructor; cbn [upd flows admission]; try apply Ha.
    + destruct Hp as [p Hp]. intros q. rewrite tally_insert, (charge_set key route p Hp), Hd, decide_False, <- fa_pairs by naive_solver. lia.
    + rewrite map_size_insert_None by done. lia.
    + intros k r [[<- _]|[_ ?]]%lookup_insert_Some; [done|by eapply fa_keys].
  - destruct (admitted_spec _ _ _ _ _ _ Hadm Hf (fa_admission _ Ha)) as (_ & Ef & Hok & Hl).
    destruct (flow_key_pair _ _ Hf) as (p & Hp & _).
    constructor; cbn [upd flows admission]; rewrite ?Ef; try done.
    + intros q. rewrite Hl, tally_insert, (charge_set key route p Hp), <- fa_pairs by done. rewrite Hp.
      repeat case_decide; naive_solver lia.
    + rewrite map_size_insert_None by done. lia.
    + intros k r [[<- _]|[_ ?]]%lookup_insert_Some; [by rewrite Hp|by eapply fa_keys].
Qed.

Lemma remove_paths key e : same_paths e (removeFlowLocked key e).
Proof. unfold removeFlowLocked. destruct (flows e !! key) as [r|]; [destruct (direct r)|]; by constructor. Qed.

Lemma remove_flows key e : flows (removeFlowLocked key e) = delete key (flows e).
Proof.
  unfold removeFlowLocked. destruct (flows e !! key) as [r|] eqn:E; [by destruct (direct r)|].
  by rewrite delete_id.
Qed.

Lemma admit_paths flow now e : same_paths e (admitFlowLocked ρ flow now e).1 ∧ flows (admitFlowLocked ρ flow now e).1 = flows e.
Proof.
  unfold admitFlowLocked. destruct (Admit _ _ _ _ _) as [adm [[]|]]; split; done.
Qed.

Lemma change_paths now e e' : change now e e' → same_paths e e'.
Proof.
  intros []; try done; [apply remove_paths|].
  match goal with Ha : admitFlowLocked _ ?f ?n ?e0 = _ |- _ =>
    destruct (admit_paths f n e0) as [[] _]; rewrite Ha in *; by constructor end.
Qed.

Lemma changes_paths now e e' : changes now e e' → same_paths e e'.
Proof. induction 1 as [|e1 e2 e3 Hc _ IH]; [done|]. etrans; [by eapply change_paths|done]. Qed.

Lemma changes_accounts now e e' : changes now e e' → flow_accounts e → flow_accounts e'.
Proof. induction 1; eauto using change_accounts. Qed.

Lemma route_ok_paths e e' key route : same_paths e e' → route_ok e key route → route_ok e' key route.
Proof.
  intros [Es Eo _ Ei _ _ _ _] Hr Hd. destruct (Hr Hd) as (s & st & ? & ? & ? & ? & ?).
  exists s, st. by rewrite Es, Eo, Ei.
Qed.

Definition routes_ok (e : PeerEndpoint) : Prop := map_Forall (route_ok e) (flows e).

Lemma route_ok_refresh e key route route' :
  direct route' = direct route → generation route' = generation route → opener route' = opener route →
  route_ok e key route → route_ok e key route'.
Proof.
  intros Hd Hg Ho Hr Hd'. rewrite Hd in Hd'. destruct (Hr Hd') as (s & st & ? & ? & ? & ? & Hau).
  exists s, st. rewrite Hg. split_and!; try done.
  destruct Hau as [Hau|Hau]; [left; by rewrite Ho|by right].
Qed.

Lemma change_routes now e e' : change now e e' → routes_ok e → routes_ok e'.
Proof.
  intros Hc Hr. pose proof (change_paths _ _ _ Hc) as Hp.
  assert (Hold : ∀ k r, flows e !! k = Some r → route_ok e' k r)
    by (intros k r Hk; apply (route_ok_paths e); [done|by apply Hr]).
  destruct Hc as [e e' Ef _ _|e key route Hk _|e key route Hk Hd|e key route route' Hk Hd Hg Ho _
    |e key route Hk Hd _ _|e e' flow key route Hadm Hf Hk Hs Hd Hro]; intros k r; cbn [upd flows].
  - rewrite Ef. apply Hold.
  - rewrite remove_flows. intros [_ ?]%lookup_delete_Some. by apply Hold.
  - intros [[<- <-]|[_ ?]]%lookup_insert_Some; [intros Hd'; discriminate Hd'|by apply Hold].
  - intros [[<- <-]|[_ ?]]%lookup_insert_Some; [|by apply Hold].
    destruct Ho as [Ho|Ho]; [|by apply (route_ok_paths e)].
    by apply (route_ok_refresh _ _ route), Hold.
  - intros [[<- <-]|[_ ?]]%lookup_insert_Some; [by intros ?; congruence|by apply Hold].
  - pose proof (admit_paths flow now e) as [_ Ef]. rewrite Hadm in Ef. cbn [fst] in Ef. rewrite Ef.
    intros [[<- <-]|[_ ?]]%lookup_insert_Some; [exact (route_ok_paths _ _ _ _ Hp Hro)|by apply Hold].
Qed.

Lemma changes_routes now e e' : changes now e e' → routes_ok e → routes_ok e'.
Proof. induction 1; eauto using change_routes. Qed.

(** A flow on the relay that is not idle stays on the relay. *)
Definition pinned (now : Time) (e e' : PeerEndpoint) : Prop :=
  ∀ key route, flows e !! key = Some route → direct route = false → idle now route = false →
  ∃ route', flows e' !! key = Some route' ∧ direct route' = false ∧ idle now route' = false.

Lemma change_pinned now e e' : change now e e' → pinned now e e'.
Proof.
  intros Hc key0 r Hk0 Hd0 Hi0.
  destruct Hc as [e e' Ef _ _|e key route Hk Hw|e key route Hk Hd|e key route route' Hk Hd Hg Ho Hi
    |e key route Hk Hd _ _|e e' flow key route Hadm Hf Hk Hs Hd Hro]; cbn [upd flows].
  - rewrite Ef. eauto.
  - rewrite remove_flows. rewrite lookup_delete_ne; [eauto|]. intros ->. simplify_eq. destruct Hw; congruence.
  - rewrite lookup_insert_ne; [eauto|]. intros ->. congruence.
  - destruct (decide (key = key0)) as [->|]; [rewrite lookup_insert_eq|rewrite lookup_insert_ne by done; eauto].
    simplify_eq. exists route'. split_and!; congruence.
  - rewrite lookup_insert_ne; [eauto|]. intros ->. congruence.
  - pose proof (admit_paths flow now e) as [_ Ef]. rewrite Hadm in Ef. cbn [fst] in Ef. rewrite Ef.
    rewrite lookup_insert_ne; [eauto|]. intros ->. congruence.
Qed.

Lemma changes_pinned now e e' : changes now e e' → pinned now e e'.
Proof.
  induction 1 as [e|e1 e2 e3 Hc _ IH]; [by unfold pinned; eauto|].
  intros key r Hk Hd Hi. destruct (change_pinned _ _ _ Hc key r Hk Hd Hi) as (r' & ? & ? & ?). by eapply IH.
Qed.

(** ** The sections as sequences of changes *)

Lemma flowLocked_spec key now e e' o :
  flowLocked key now e = (e', o) →
  changes now e e' ∧ flows e' !! key = o ∧ (∀ r, o = Some r → e' = e ∧ idle now r = false).
Proof.
  unfold flowLocked. destruct (flows e !! key) as [r|] eqn:Hk; [destruct (idle now r) eqn:Hi|]; intros [= <- <-].
  - split_and!; [|by rewrite remove_flows, lookup_delete_eq|done].
    apply rtc_once, (ch_remove now e key r); auto.
  - split_and!; [done|done|]. intros ? [= <-]. done.
  - done.
Qed.

Lemma expire_flows_changes now l e :
  NoDup l.*1 → (∀ k r, (k, r) ∈ l → flows e !! k = Some r) → changes now e (expire_flows now l e).
Proof.
  revert e. induction l as [|[k r] l IH]; intros e Hnd Hin; [done|]. cbn [expire_flows foldl].
  apply NoDup_cons in Hnd as [Hk Hnd]. cbn [fmap list_fmap fst] in *.
  destruct (idle now r) eqn:Hi; [|apply IH; [done|intros; apply Hin; by right]].
  eapply rtc_l; [apply (ch_remove now e k r); [apply Hin; by left|by right]|].
  apply IH; [done|]. intros k' r' Hl. rewrite remove_flows, lookup_delete_ne; [apply Hin; by right|].
  intros <-. apply Hk, list_elem_of_fmap. by exists (k, r').
Qed.

Lemma expire_changes now e : changes now e (expireFlowsLocked ρ now e).
Proof.
  unfold expireFlowsLocked. destruct (Before _ _); [done|].
  eapply rtc_l; [apply (ch_other now e (e <| nextFlowCleanup := Add now Second |>)); [done|by constructor|by intros ?]|].
  apply expire_flows_changes; [apply range_NoDup|]. intros k r. by rewrite range_elem.
Qed.

Lemma relay_flows_changes now g l e :
  NoDup l.*1 → (∀ k r, (k, r) ∈ l → flows e !! k = Some r) → changes now e (relay_flows g l e).
Proof.
  revert e. induction l as [|[k r] l IH]; intros e Hnd Hin; [done|]. cbn [relay_flows foldl].
  apply NoDup_cons in Hnd as [Hk Hnd]. cbn [fmap list_fmap fst] in *. unfold relay_flow.
  destruct (direct r && _) eqn:Hd; [|apply IH; [done|intros; apply Hin; by right]]. bool_to_prop.
  eapply rtc_l; [apply (ch_relay now e k r); [apply Hin; by left|done]|].
  apply IH; [done|]. intros k' r' Hl. cbn [upd flows]. rewrite lookup_insert_ne; [apply Hin; by right|].
  intros <-. apply Hk, list_elem_of_fmap. by exists (k, r').
Qed.

Lemma relay_changes now g e : changes now e (relayFlowsLocked ρ g e).
Proof. apply relay_flows_changes; [apply range_NoDup|]. intros k r. by rewrite range_elem. Qed.

(** The relay loop maps every route, whatever the order. *)
Definition relayed (g : Z) (route : peerFlowRoute) : peerFlowRoute :=
  if direct route && (generation route =? g) then route <| direct := false |> <| generation := 0 |> else route.

Lemma relay_flows_lookup g e key : flows (relayFlowsLocked ρ g e) !! key = relayed g <$> flows e !! key.
Proof.
  transitivity (update_each (λ _ r, Some (relayed g r)) (range_flows ρ (flows e)) (flows e) !! key).
  - unfold relayFlowsLocked, relay_flows, update_each. f_equal.
    assert (Hin : ∀ k r, (k, r) ∈ range_flows ρ (flows e) → flows e !! k = Some r) by (intros k r; by rewrite range_elem).
    assert (Hnd : NoDup (range_flows ρ (flows e)).*1) by apply range_NoDup.
    revert Hin Hnd. generalize (range_flows ρ (flows e)). intros l. revert e.
    induction l as [|[k r] l IH]; intros e Hin Hnd; [done|]. cbn [foldl].
    apply NoDup_cons in Hnd as [Hk Hnd]. cbn [fmap list_fmap fst] in *.
    assert (Hs : flows (relay_flow g k r e) = partial_alter (λ _, Some (relayed g r)) k (flows e)).
    { unfold relay_flow, relayed. destruct (direct r && _); [done|]. symmetry. apply partial_alter_id.
      by rewrite (Hin k r) by left. }
    rewrite <- Hs. apply IH; [|done]. intros k' r' Hl. rewrite Hs, lookup_partial_alter_ne; [apply Hin; by right|].
    intros <-. apply Hk, list_elem_of_fmap. by exists (k, r').
  - rewrite update_each_range. by destruct (flows e !! key).
Qed.

Lemma fresh_expiry flow now route : idle now (route <| expiresAt := peerFlowExpiry flow now |>) = false.
Proof.
  unfold idle, Before, peerFlowExpiry, Add, peerUDPFlowIdle, peerTCPFlowIdle, UDPFlowIdle, TCPFlowIdle, Minute, Second.
  cbn [upd expiresAt]. destruct (_ =? ProtocolUDP); rewrite (proj2 (Z.ltb_lt _ _)) by lia; done.
Qed.

Lemma set_fresh e key route flow now route' :
  flows e !! key = Some route → direct route' = direct route → generation route' = generation route →
  opener route' = opener route ∨ route_ok e key route' →
  change now e (e <| flows := <[key := route' <| expiresAt := peerFlowExpiry flow now |>]> (flows e) |>).
Proof.
  intros Hk Hd Hg Ho. apply (ch_refresh now e key route); [done|done|done| |apply fresh_expiry].
  destruct Ho as [Ho|Ho]; [by left|right]. by apply (route_ok_refresh _ _ route').
Qed.

Lemma mark_relay_changes flow now e : changes now e (MarkRelay ρ flow now e).
Proof.
  unfold MarkRelay. destruct (peerFlowKey flow) as [key|] eqn:Hkey; [|done].
  etrans; [apply expire_changes|].
  destruct (flowLocked key now _) as [e' [route|]] eqn:Ef; destruct (flowLocked_spec _ _ _ _ _ Ef) as (Hc & Hk & _).
  - eapply rtc_r; [exact Hc|]. apply (set_fresh e' key route); auto.
  - destruct (Z.ltb_spec (Z.of_nat (size (flows e'))) peerMaximumTrackedFlows); [|done].
    eapply rtc_r; [exact Hc|]. apply ch_pin; [done|done| |done].
    destruct (flow_key_pair _ _ Hkey) as (p & -> & _). done.
Qed.

(** A refused admission touches the token balance only. *)
Lemma refused_change flow key now e e' :
  admitFlowLocked ρ flow now e = (e', false) → peerFlowKey flow = Some key → change now e e'.
Proof.
  intros Hadm Hkey. pose proof (admit_paths flow now e) as [Hsp Hfl]. rewrite Hadm in Hsp, Hfl.
  apply ch_other; [done|done|]. intros Hok.
  destruct (admitted_spec _ _ _ _ _ _ Hadm Hkey Hok) as (_ & _ & ? & Hl). split; [done|].
  intros p. rewrite Hl, decide_False by naive_solver. lia.
Qed.

(** *** The tables of paths *)

Record paths_ok (e : PeerEndpoint) : Prop := {
  po_offers g s : offers e !! g = Some s → ∃ st, states e !! s = Some st ∧ PeerGeneration (offer st) = g;
  po_active s st : states e !! s = Some st → active st = true →
    offers e !! PeerGeneration (offer st) = Some s ∧ is_Some (connection st);
  po_index ip s : activeByIP e !! ip = Some s →
    ∃ st, states e !! s = Some st ∧ active st = true ∧ offer_ip (offer st) = ip
}.

Lemma paths_ok_same e e' : same_paths e e' → paths_ok e → paths_ok e'.
Proof. intros [Es Eo Ea _ _ _ _ _] []. constructor; by rewrite Es, ?Eo, ?Ea. Qed.

(** A direct route held by a goroutine for the offer state [s]. *)
Definition route_held (e : PeerEndpoint) (s : nat) (key : list byte) (route : peerFlowRoute) : Prop :=
  direct route = true ∧
  ∃ st, states e !! s = Some st ∧ PeerGeneration (offer st) = generation route ∧
        authority (offer st) (virtualIP e) key route.

Lemma held_current e s st key route :
  paths_ok e → states e !! s = Some st → active st = true → route_held e s key route → route_ok e key route.
Proof.
  intros Hp Hs Ha (Hd & st' & Hs' & Hg & Hau) _. simplify_eq. destruct (po_active _ Hp _ _ Hs Ha) as [Ho _].
  exists s, st. by rewrite <- Hg.
Qed.

Lemma current_held e s st key route :
  paths_ok e → states e !! s = Some st → active st = true → PeerGeneration (offer st) = generation route →
  direct route = true → route_ok e key route → route_held e s key route.
Proof.
  intros Hp Hs Ha Hg Hd Hr. split; [done|]. exists st. split_and!; [done|done|].
  destruct (Hr Hd) as (s' & st' & Ho & Hs' & _ & _ & Hau). destruct (po_active _ Hp _ _ Hs Ha) as [Ho' _].
  rewrite Hg in Ho'. by simplify_eq.
Qed.

Lemma renewed_held s err route now e route' key :
  renewed s err route now e = Some route' → route_held e s key route →
  direct route' = true ∧ generation route' = generation route ∧ route_held e s key route' ∧
  ∃ st, states e !! s = Some st ∧ active st = true.
Proof.
  unfold renewed, state_of. destruct err; [done|]. destruct (states e !! s) as [st|] eqn:Hs; [|done].
  destruct (_ || _) eqn:Hc; [done|]. bool_to_prop. intros [= <-] (Hd & Hex). split_and!; [done|done| |eauto].
  split; [done|exact Hex].
Qed.

(** *** [Send] *)

(** What a goroutine of [Send] carries out of the lock. *)
Definition sending_ok (e : PeerEndpoint) (flow : Flow) (r : SendNext) : Prop :=
  match r with
  | SendReturns _ => True
  | SendOpens key s route => peerFlowKey flow = Some key ∧ route_held e s key route
  | SendWrites s c g => ∃ st, states e !! s = Some st ∧ connection st = Some c ∧ g = PeerGeneration (offer st)
  end.

Lemma send_commit_spec key s flow route now e e' r :
  send_commit key s flow route now e = (e', r) → direct route = true → route_ok e key route →
  changes now e e' ∧ sending_ok e' flow r.
Proof.
  unfold send_commit. destruct (flowLocked key now e) as [e1 [current|]] eqn:Ef; cycle 1.
  { destruct (flowLocked_spec _ _ _ _ _ Ef) as (Hc & _ & _). intros [= <- <-] _ _. done. }
  destruct (flowLocked_spec _ _ _ _ _ Ef) as (_ & Hk & Hcur). destruct (Hcur _ eq_refl) as [-> _]. clear Hcur Ef.
  destruct (_ || _) eqn:Hg; [intros [= <- <-]; done|]. bool_to_prop. intros E Hd Hr.
  set (e2 := e <| flows := _ |>) in E.
  assert (Hc2 : change now e e2) by (apply (set_fresh e key current); try congruence; by right).
  assert (Hk2 : flows e2 !! key = Some (route <| expiresAt := peerFlowExpiry flow now |>))
    by (apply lookup_insert_eq).
  set (e3 := if IsTCPReset flow then removeFlowLocked key e2 else e2) in E.
  assert (Hc3 : changes now e e3).
  { eapply rtc_l; [exact Hc2|]. unfold e3. destruct (IsTCPReset flow); [|done].
    apply rtc_once. eapply ch_remove; [exact Hk2|by left]. }
  assert (Hst : states e3 = states e) by (by apply (sp_states _ _ (changes_paths _ _ _ Hc3))).
  unfold state_of in E. change (states e2) with (states e) in E.
  destruct (states e !! s) as [st|] eqn:Hs; [destruct (connection st) as [c|] eqn:Hconn|]; simplify_eq; split; try done.
  exists st. by rewrite Hst.
Qed.

Lemma send_route_spec key s st flow route now e e' r :
  send_route key s st flow route now e = (e', r) →
  peerFlowKey flow = Some key → paths_ok e → states e !! s = Some st → active st = true → route_ok e key route →
  changes now e e' ∧ sending_ok e' flow r.
Proof.
  unfold send_route. intros E Hkey Hp Hs Ha Hr. destruct (_ || _) eqn:Hg; [by simplify_eq|]. bool_to_prop.
  destruct (needs_renewal _ _ _).
  - simplify_eq. split; [done|]. split; [done|]. by apply (current_held _ s st).
  - by eapply send_commit_spec.
Qed.

Lemma send_enter_spec flow packet now e e' r :
  send_enter ρ flow packet now e = (e', r) → paths_ok e → routes_ok e →
  changes now e e' ∧ sending_ok e' flow r.
Proof.
  unfold send_enter. intros E Hp Hr. destruct (peerFlowKey flow) as [key|] eqn:Hkey; [|by simplify_eq].
  destruct (_ || _); [by simplify_eq|].
  destruct (flowLocked key now _) as [e1 found] eqn:Ef.
  destruct (flowLocked_spec _ _ _ _ _ Ef) as (Hc & Hk & _).
  assert (Hc1 : changes now e e1) by (etrans; [apply expire_changes|exact Hc]). clear Ef Hc.
  assert (Hp1 : paths_ok e1) by (by eapply paths_ok_same; [eapply changes_paths|]).
  assert (Hr1 : routes_ok e1) by (by eapply changes_routes).
  assert (Hpath : ∀ s st, (s ← activeByIP e1 !! DestinationIP flow; st ← state_of s e1; Some (s, st)) = Some (s, st) →
    states e1 !! s = Some st ∧ active st = true).
  { intros s st. destruct (activeByIP e1 !! _) as [s'|] eqn:Hi; [|done]. cbn [mbind option_bind].
    unfold state_of. destruct (states e1 !! s') as [st'|] eqn:Hs; [|done]. cbn [mbind option_bind]. intros [= <- <-].
    destruct (po_index _ Hp1 _ _ Hi) as (st & ? & ? & _). by simplify_eq. }
  enough (Hrest : changes now e1 e' ∧ sending_ok e' flow r) by (split; [etrans; [exact Hc1|apply Hrest]|apply Hrest]).
  cbv zeta in E. set (path := (s ← activeByIP e1 !! DestinationIP flow; st ← state_of s e1; Some (s, st))) in *.
  destruct found as [route|]; [destruct (direct route) eqn:Hd|]; cbn [negb] in E.
  - destruct path as [[s st]|]; [|by simplify_eq]. destruct (Hpath _ _ eq_refl) as [Hs Ha].
    destruct (_ || _); [by simplify_eq|]. eapply send_route_spec; try done. by apply Hr1.
  - simplify_eq. split; [|done]. apply rtc_once, (set_fresh e1 key route); auto.
  - destruct path as [[s st]|]; [|by simplify_eq]. destruct (Hpath _ _ eq_refl) as [Hs Ha].
    destruct (_ || _); [by simplify_eq|].
    destruct (Z.leb_spec peerMaximumTrackedFlows (Z.of_nat (size (flows e1)))).
    { simplify_eq. split; [|done]. apply rtc_once, ch_other; [done|by constructor|by intros ?]. }
    destruct (_ && _); [by simplify_eq|].
    assert (Hro : route_ok e1 key (new_route st flow flow now)).
    { intros _. destruct (po_active _ Hp1 _ _ Hs Ha) as [Ho _]. exists s, st. split_and!; try done. by left. }
    destruct (admitFlowLocked ρ flow now e1) as [e2 []] eqn:Hadm; cycle 1.
    { simplify_eq. split; [|done]. by eapply rtc_once, refused_change. }
    assert (Hc2 := ch_open now e1 e2 flow key (new_route st flow flow now) Hadm Hkey Hk ltac:(lia) eq_refl Hro).
    pose proof (change_paths _ _ _ Hc2) as Hsp.
    destruct (send_route_spec _ _ _ _ _ _ _ _ _ E) as [? ?]; try done.
    + by eapply paths_ok_same.
    + by rewrite (sp_states _ _ Hsp).
    + exact (route_ok_paths _ _ _ _ Hsp Hro).
    + split; [by eapply rtc_l|done].
Qed.

(** *** [authorizeInbound] *)

(** The packet that a reader has in hand is from the peer to this client. *)
Definition from_peer (e : PeerEndpoint) (s : nat) (flow : Flow) : Prop :=
  ∃ st, states e !! s = Some st ∧ SourceIP flow = offer_ip (offer st) ∧ DestinationIP flow = virtualIP e.

(** The state is current and active, and the flow has a direct route of its
    generation that is authorised. *)
Definition inbound_authorised (e : PeerEndpoint) (s : nat) (flow : Flow) : Prop :=
  ∃ st key route, states e !! s = Some st ∧ active st = true ∧ offers e !! PeerGeneration (offer st) = Some s ∧
    peerFlowKey flow = Some key ∧ flows e !! key = Some route ∧ route_ok e key route ∧
    direct route = true ∧ generation route = PeerGeneration (offer st).

(** What a reader carries out of the lock: an authorised flow, as of some
    endpoint [e1] within the critical section. *)
Definition inbound_result (now : Time) (e e' : PeerEndpoint) (s : nat) (flow : Flow) (r : InboundNext) : Prop :=
  match r with
  | InboundReturns true => ∃ e1, changes now e e1 ∧ changes now e1 e' ∧ inbound_authorised e1 s flow
  | InboundReturns false => True
  | InboundOpens key route => peerFlowKey flow = Some key ∧ route_held e' s key route
  end.

Lemma inbound_commit_spec key flow route now s st e e' ok :
  inbound_commit key flow route now e = (e', ok) → direct route = true → route_ok e key route →
  peerFlowKey flow = Some key → paths_ok e → states e !! s = Some st → active st = true →
  generation route = PeerGeneration (offer st) →
  changes now e e' ∧ inbound_result now e e' s flow (InboundReturns ok).
Proof.
  unfold inbound_commit. intros E Hd Hr Hkey Hp Hs Ha Hg.
  destruct (flows e !! key) as [current|] eqn:Hk; [|by simplify_eq].
  destruct (_ || _) eqn:Hc; [by simplify_eq|]. bool_to_prop.
  set (e2 := e <| flows := _ |>) in E.
  assert (Hc2 : change now e e2) by (apply (set_fresh e key current); try congruence; by right).
  assert (Hk2 : flows e2 !! key = Some (route <| expiresAt := peerFlowExpiry flow now |>))
    by (apply lookup_insert_eq).
  assert (Hc3 : changes now e2 (if IsTCPReset flow then removeFlowLocked key e2 else e2)).
  { destruct (IsTCPReset flow); [|done]. apply rtc_once. eapply ch_remove; [exact Hk2|by left]. }
  simplify_eq. split; [by eapply rtc_l|]. exists e2. split_and!; [by apply rtc_once|done|].
  exists st, key, (route <| expiresAt := peerFlowExpiry flow now |>). split_and!; try done.
  by apply (po_active _ Hp).
Qed.

Lemma inbound_route_spec key s st flow route now e e' r :
  inbound_route key st flow route now e = (e', r) →
  peerFlowKey flow = Some key → paths_ok e → states e !! s = Some st → active st = true → route_ok e key route →
  changes now e e' ∧ inbound_result now e e' s flow r.
Proof.
  unfold inbound_route. intros E Hkey Hp Hs Ha Hr. destruct (_ || _) eqn:Hg; [by simplify_eq|]. bool_to_prop.
  destruct (needs_renewal _ _ _).
  - simplify_eq. split; [done|]. split; [done|]. by apply (current_held _ s st).
  - destruct (inbound_commit _ _ _ _ _) as [e2 ok] eqn:Ec. simplify_eq. by eapply inbound_commit_spec.
Qed.

Lemma inbound_weaken now e e1 e' s flow r :
  changes now e e1 → inbound_result now e1 e' s flow r → inbound_result now e e' s flow r.
Proof.
  intros Hc. destruct r as [[]|]; [|done|done]. intros (e2 & ? & ? & ?). exists e2. split_and!; [by etrans|done|done].
Qed.

Lemma inbound_enter_spec s flow now e e' r :
  inbound_enter ρ s flow now e = (e', r) → paths_ok e → routes_ok e → from_peer e s flow →
  changes now e e' ∧ inbound_result now e e' s flow r.
Proof.
  unfold inbound_enter. intros E Hp Hr (st & Hs & Hsrc & Hdst). unfold state_of in E. rewrite Hs in E.
  destruct (peerFlowKey flow) as [key|] eqn:Hkey; [|by simplify_eq].
  destruct (_ || _) eqn:Hcur; [by simplify_eq|]. bool_to_prop.
  destruct (flowLocked key now _) as [e1 found] eqn:Ef.
  destruct (flowLocked_spec _ _ _ _ _ Ef) as (Hc & Hk & _).
  assert (Hc1 : changes now e e1) by (etrans; [apply expire_changes|exact Hc]). clear Ef Hc.
  pose proof (changes_paths _ _ _ Hc1) as Hsp.
  assert (Hp1 : paths_ok e1) by (by eapply paths_ok_same).
  assert (Hr1 : routes_ok e1) by (by eapply changes_routes).
  assert (Hs1 : states e1 !! s = Some st) by (by rewrite (sp_states _ _ Hsp)).
  enough (Hrest : changes now e1 e' ∧ inbound_result now e1 e' s flow r).
  { destruct Hrest as [? ?]. split; [by etrans|by eapply inbound_weaken]. }
  destruct found as [route|]; [eapply inbound_route_spec; try done; by apply Hr1|].
  destruct (Z.leb_spec peerMaximumTrackedFlows (Z.of_nat (size (flows e1)))).
  { simplify_eq. split; [|done]. apply rtc_once, ch_other; [done|by constructor|by intros ?]. }
  destruct (_ || _) eqn:Hport; [by simplify_eq|]. bool_to_prop.
  assert (Hro : route_ok e1 key (new_route st zero_flow flow now)).
  { intros _. destruct (po_active _ Hp1 _ _ Hs1) as [Ho _]; [done|]. exists s, st. split_and!; try done.
    right. exists flow. split; [|done]. rewrite (sp_ip _ _ Hsp). split_and!; try done.
    intros Htcp. match goal with Ht : _ ∨ _ |- _ => destruct Ht; bool_to_prop; congruence end. }
  destruct (admitFlowLocked ρ flow now e1) as [e2 []] eqn:Hadm; cycle 1.
  { simplify_eq. split; [|done]. by eapply rtc_once, refused_change. }
  assert (Hc2 := ch_open now e1 e2 flow key (new_route st zero_flow flow now) Hadm Hkey Hk ltac:(lia) eq_refl Hro).
  pose proof (change_paths _ _ _ Hc2) as Hsp2.
  destruct (inbound_route_spec key s st flow _ now _ e' r E) as [? ?]; try done.
  - by eapply paths_ok_same.
  - by rewrite (sp_states _ _ Hsp2).
  - exact (route_ok_paths _ _ _ _ Hsp2 Hro).
  - split; [by eapply rtc_l|]. eapply inbound_weaken; [by apply rtc_once|done].
Qed.
End flows.

Abbreviation changes ρ now := (rtc (change ρ now)).
