(* ===== verification/PeerPaths.v ===== *)
(** * Direct paths: the invariant of an endpoint and its goroutines

    The tables of offers and active paths agree with the heap of offer states
    and with the flow table in every reachable world; what a goroutine carries
    across a released lock stays valid.  From this follow the properties of
    the direct paths. *)

From stdpp Require Import relations.
From S2P Require Import Prelude GoTime NetAddr GoIO Packet FlowControl PortPolicy PeerWire PeerEndpoint PeerFlows.

Local Open Scope Z_scope.

Create HintDb peers.

Section paths.
Context `{NetipText} `{SignalCodec}.
Context (DecodeString : string → option (list byte)) (hmac : list byte → list byte → list byte).
Context (ρ : PeerRanges).

Record ep_ok (e : PeerEndpoint) : Prop := {
  ok_accounts : flow_accounts e;
  ok_routes : routes_ok e;
  ok_paths : paths_ok e
}.

(** Offer states are never freed, keep their offer and their connection. *)
Definition state_le (st st' : peerOfferState) : Prop :=
  offer st' = offer st ∧ secret st' = secret st ∧ ∀ c, connection st = Some c → connection st' = Some c.

(** [new] is the state allocated meanwhile, if any. *)
Record heap_le (new : option nat) (e e' : PeerEndpoint) : Prop := {
  hl_states s st : states e !! s = Some st → ∃ st', states e' !! s = Some st' ∧ state_le st st';
  hl_dom s : states e !! s = None → new ≠ Some s → states e' !! s = None;
  hl_ip : virtualIP e' = virtualIP e;
  hl_mtu : mtu e' = mtu e;
  hl_closed : cancelled e = true → cancelled e' = true ∧ (offers e = ∅ → offers e' = ∅)
}.

#[local] Instance state_le_preorder : PreOrder state_le.
Proof using.
  split; [intros st; by split_and!|]. intros st1 st2 st3 (Ho1 & Hs1 & Hc1) (Ho2 & Hs2 & Hc2).
  split_and!; [congruence..|]. intros c Hc. by apply Hc2, Hc1.
Qed.

#[local] Instance heap_le_refl : Reflexive (heap_le None).
Proof using. intros e. constructor; try done. intros s st Hs. by exists st. Qed.

Lemma changes_ok now e e' : changes ρ now e e' → ep_ok e → ep_ok e' ∧ heap_le None e e'.
Proof using.
  intros Hc [Ha Hr Hp]. pose proof (changes_paths _ _ _ _ Hc) as Hsp. split.
  - constructor; [by eapply changes_accounts|by eapply changes_routes|by eapply paths_ok_same].
  - destruct Hsp as [Es Eo _ Ei Em _ _ Ec]. constructor; rewrite ?Es, ?Eo, ?Ec; try done. intros s st Hs. by exists st.
Qed.

(** *** Updates of one offer state *)

Lemma on_state_lookup s f e s' : states (on_state s f e) !! s' = if decide (s = s') then f <$> states e !! s' else states e !! s'.
Proof using. unfold on_state. cbn [upd states]. rewrite lookup_alter. repeat case_decide; congruence. Qed.

Lemma on_state_le s f e :
  (∀ st, states e !! s = Some st → state_le st (f st)) → heap_le None e (on_state s f e).
Proof using.
  intros Hf. constructor; [| |done..]; intros s'; [intros st Hs|intros Hs _]; rewrite on_state_lookup, Hs.
  - case_decide; subst; [|by exists st]. eexists. split; [done|by apply Hf].
  - by case_decide.
Qed.

(** Updating fields other than [active] keeps the endpoint consistent. *)
Lemma path_touch_ok s f e :
  (∀ st, states e !! s = Some st → state_le st (f st) ∧ active (f st) = active st) →
  ep_ok e → ep_ok (on_state s f e) ∧ heap_le None e (on_state s f e).
Proof using.
  intros Hf [Ha Hr Hp]. split; [|apply on_state_le; intros; by apply Hf]. constructor.
  - by destruct Ha.
  - intros key r Hk Hd. destruct (Hr key r Hk Hd) as (s' & st & Ho & Hs & Hact & Hg & Hau).
    destruct (decide (s = s')) as [<-|Hne].
    + destruct (Hf _ Hs) as [(E & _ & _) Ea]. exists s, (f st).
      rewrite on_state_lookup, decide_True, Hs by done. rewrite E, Ea. done.
    + exists s', st. by rewrite on_state_lookup, decide_False.
  - destruct Hp as [Po Pa Pi]. constructor.
    + intros g s' Ho. destruct (Po _ _ Ho) as (st & Hs & Hg). rewrite on_state_lookup. case_decide; subst; [|eauto].
      rewrite Hs. destruct (Hf _ Hs) as [(E & _ & _) _]. exists (f st). by rewrite E.
    + intros s' st. rewrite on_state_lookup. case_decide; subst; [|apply Pa].
      destruct (states e !! s') as [st0|] eqn:Hs; [|done]. intros [= <-].
      destruct (Hf _ eq_refl) as [(E & _ & Hc) Ea]. rewrite E, Ea. intros Hact.
      destruct (Pa _ _ Hs Hact) as [? [c ?]]. split; [done|]. rewrite (Hc c); done.
    + intros ip s' Hi. destruct (Pi _ _ Hi) as (st & Hs & Hact & Hip). rewrite on_state_lookup.
      case_decide; subst; [|eauto]. rewrite Hs. destruct (Hf _ Hs) as [(E & _ & _) Ea]. exists (f st). by rewrite E, Ea.
Qed.

(** *** Ending a path *)

Definition inactive (st : peerOfferState) : peerOfferState := st <| active := false |>.

(** The common effect of [failPath] and [Revoke]. *)
Lemma drop_path_ok s st e e' :
  ep_ok e → states e !! s = Some st → offers e !! PeerGeneration (offer st) = Some s →
  states e' = alter inactive s (states e) →
  offers e' = offers e ∨ offers e' = delete (PeerGeneration (offer st)) (offers e) →
  (∀ ip s', activeByIP e' !! ip = Some s' → activeByIP e !! ip = Some s' ∧ s' ≠ s) →
  virtualIP e' = virtualIP e → mtu e' = mtu e → cancelled e' = cancelled e → flow_accounts e' →
  (∀ key, flows e' !! key = relayed (PeerGeneration (offer st)) <$> flows e !! key) →
  ep_ok e' ∧ heap_le None e e'.
Proof using.
  intros [_ Hr Hp] Hs Ho Es Eo Ei Eip Emtu Ecan Hacc Hfl.
  assert (Hst : ∀ s', states e' !! s' = if decide (s = s') then inactive <$> states e !! s' else states e !! s')
    by (intros s'; rewrite Es, lookup_alter; repeat case_decide; congruence).
  assert (Hof : ∀ g s', offers e' !! g = Some s' → offers e !! g = Some s').
  { intros g s'. destruct Eo as [->| ->]; [done|]. by intros [_ ?]%lookup_delete_Some. }
  assert (Hof2 : ∀ g s', offers e !! g = Some s' → s' ≠ s → offers e' !! g = Some s').
  { intros g s' Hg Hne. destruct Eo as [->| ->]; [done|]. apply lookup_delete_Some. split; [|done]. congruence. }
  split; [constructor; [done| |constructor]|constructor; [| |done|done|]].
  - intros key r' Hk Hd. rewrite Hfl in Hk. apply fmap_Some in Hk as (r & Hk & ->). unfold relayed in *.
    destruct (direct r && (generation r =? _)) eqn:Hg; [discriminate|].
    destruct (Hr _ _ Hk Hd) as (s2 & st2 & Ho2 & Hs2 & Ha2 & Hg2 & Hau).
    assert (s2 ≠ s). { intros ->. simplify_eq. rewrite Hd, <- Hg2, Z.eqb_refl in Hg. done. }
    exists s2, st2. rewrite Hst, decide_False, Eip by done. split_and!; try done. by apply Hof2.
  - intros g s' Hg. destruct (po_offers _ Hp _ _ (Hof _ _ Hg)) as (st' & Hs' & Hg'). rewrite Hst, Hs'.
    case_decide; [exists (inactive st')|exists st']; done.
  - intros s' st' . rewrite Hst. case_decide as Hne; subst.
    + intros (st0 & _ & ->)%fmap_Some. done.
    + intros Hs' Ha. destruct (po_active _ Hp _ _ Hs' Ha) as [? ?]. split; [|done]. by apply Hof2.
  - intros ip s' [Hi Hne]%Ei. destruct (po_index _ Hp _ _ Hi) as (st' & ? & ? & ?). exists st'.
    by rewrite Hst, decide_False.
  - intros s' st' Hs'. rewrite Hst, Hs'. case_decide; [exists (inactive st')|exists st']; done.
  - intros s' Hs' _. rewrite Hst, Hs'. by case_decide.
  - rewrite Ecan. intros ->. split; [done|]. intros E0. destruct Eo as [->| ->]; rewrite E0; [done|apply delete_empty].
Qed.

Lemma forget_active_spec s st e :
  paths_ok e → states e !! s = Some st →
  ∀ ip s', activeByIP (forget_active s st e) !! ip = Some s' ↔ activeByIP e !! ip = Some s' ∧ s' ≠ s.
Proof using.
  intros Hp Hs ip s'. unfold forget_active.
  assert (Hown : ∀ ip, activeByIP e !! ip = Some s → ip = offer_ip (offer st)).
  { intros ip0 Hi. destruct (po_index _ Hp _ _ Hi) as (st' & ? & _ & ?). by simplify_eq. }
  case_bool_decide as Hc; cbn [upd activeByIP].
  - rewrite lookup_delete_Some. split.
    + intros [Hne Hi]. split; [done|]. intros ->. apply Hown in Hi. congruence.
    + intros [Hi Hne]. split; [|done]. intros <-. congruence.
  - split; [|by intros [? _]]. intros Hi. split; [done|]. intros ->. apply Hc. by rewrite <- (Hown ip).
Qed.

Lemma forget_active_fields s st e :
  states (forget_active s st e) = states e ∧ offers (forget_active s st e) = offers e ∧
  flows (forget_active s st e) = flows e ∧ admission (forget_active s st e) = admission e ∧
  virtualIP (forget_active s st e) = virtualIP e ∧ mtu (forget_active s st e) = mtu e ∧
  cancelled (forget_active s st e) = cancelled e.
Proof using. unfold forget_active. by case_bool_decide. Qed.

Lemma accounts_same e e' : flows e' = flows e → admission e' = admission e → flow_accounts e → flow_accounts e'.
Proof using. intros Ef Ea []. constructor; by rewrite ?Ef, ?Ea. Qed.

Lemma fail_ok s e : ep_ok e → ep_ok (failPath ρ s e).1 ∧ heap_le None e (failPath ρ s e).1.
Proof using.
  intros He. unfold failPath, state_of. destruct (states e !! s) as [st|] eqn:Hs; [|done].
  unfold is_current. case_bool_decide as Ho; [|done]. cbn [negb fst].
  destruct (forget_active_fields s st e) as (Fs & Fo & Ff & Fa & Fip & Fm & Fc).
  pose proof (forget_active_spec s st e (ok_paths _ He) Hs) as Fi.
  set (e1 := forget_active s st e) in *.
  set (e2 := if active st then e1 <| fallbacks := u64 (fallbacks e1 + 1) |> else e1).
  assert (E2 : states e2 = states e1 ∧ offers e2 = offers e1 ∧ flows e2 = flows e1 ∧ admission e2 = admission e1 ∧
    virtualIP e2 = virtualIP e1 ∧ mtu e2 = mtu e1 ∧ activeByIP e2 = activeByIP e1 ∧ cancelled e2 = cancelled e1) by (unfold e2; by destruct (active st)).
  destruct E2 as (Gs & Go & Gf & Ga & Gip & Gm & Gi & Gc).
  set (e3 := on_state s (λ st0, st0 <| active := false |>) e2).
  pose proof (relay_changes ρ 0 (PeerGeneration (offer st)) e3) as Hc. pose proof (changes_paths _ _ _ _ Hc) as Hsp.
  apply (drop_path_ok s st e); try done.
  - rewrite (sp_states _ _ Hsp). unfold e3, on_state. cbn [upd states]. by rewrite Gs, Fs.
  - left. rewrite (sp_offers _ _ Hsp). change (offers e3) with (offers e2). congruence.
  - intros ip s'. rewrite (sp_active _ _ Hsp). change (activeByIP e3) with (activeByIP e2). rewrite Gi. apply Fi.
  - rewrite (sp_ip _ _ Hsp). change (virtualIP e3) with (virtualIP e2). congruence.
  - rewrite (sp_mtu _ _ Hsp). change (mtu e3) with (mtu e2). congruence.
  - rewrite (sp_cancelled _ _ Hsp). change (cancelled e3) with (cancelled e2). congruence.
  - eapply changes_accounts; [exact Hc|]. apply (accounts_same e); [| |apply He].
    + change (flows e3) with (flows e2). congruence.
    + change (admission e3) with (admission e2). congruence.
  - intros key. rewrite relay_flows_lookup. change (flows e3) with (flows e2). by rewrite Gf, Ff.
Qed.

Lemma revoke_ok revocation e : ep_ok e → ep_ok (Revoke ρ revocation e).1 ∧ heap_le None e (Revoke ρ revocation e).1.
Proof using.
  intros He. unfold Revoke. destruct (offers e !! PathGeneration revocation) as [s|] eqn:Ho; [|done].
  destruct (po_offers _ (ok_paths _ He) _ _ Ho) as (st & Hs & Hg). cbn [mbind option_bind]. unfold state_of.
  rewrite Hs. cbn [mbind option_bind]. case_bool_decide; [|done]. cbn [fst]. rewrite <- Hg in *.
  set (e1 := on_state s (λ st0, st0 <| active := false |>) e).
  pose proof (relay_changes ρ 0 (PeerGeneration (offer st)) e1) as Hc. pose proof (changes_paths _ _ _ _ Hc) as Hsp.
  pose proof (relay_flows_lookup ρ (PeerGeneration (offer st)) e1) as Hl.
  assert (Hacc : flow_accounts (relayFlowsLocked ρ (PeerGeneration (offer st)) e1))
    by (eapply changes_accounts; [exact Hc|]; apply (accounts_same e); [done|done|apply He]).
  set (e2 := relayFlowsLocked ρ (PeerGeneration (offer st)) e1) in *.
  set (e3 := e2 <| offers := delete (PeerGeneration (offer st)) (offers e2) |>).
  destruct (forget_active_fields s st e3) as (Fs & Fo & Ff & Fa & Fip & Fm & Fc).
  assert (Hidx : ∀ ip s', activeByIP (forget_active s st e3) !! ip = Some s' → activeByIP e !! ip = Some s' ∧ s' ≠ s).
  { intros ip s'. pose proof (proj1 (forget_active_spec s st e (ok_paths _ He) Hs ip s')) as Hspec.
    intros Hi. apply Hspec. revert Hi. unfold forget_active. change (activeByIP e3) with (activeByIP e2).
    assert (E : activeByIP e2 = activeByIP e) by apply (sp_active _ _ Hsp).
    rewrite E. case_bool_decide; cbn [upd activeByIP]; [done|]. change (activeByIP e3) with (activeByIP e2). by rewrite E. }
  apply (drop_path_ok s st e); try done.
  - rewrite Fs. change (states e3) with (states e2). by rewrite (sp_states _ _ Hsp).
  - right. rewrite Fo. change (offers e3) with (delete (PeerGeneration (offer st)) (offers e2)). by rewrite (sp_offers _ _ Hsp).
  - rewrite Fip. apply (sp_ip _ _ Hsp).
  - rewrite Fm. apply (sp_mtu _ _ Hsp).
  - rewrite Fc. apply (sp_cancelled _ _ Hsp).
  - by apply (accounts_same e2).
  - intros key. rewrite Ff. exact (Hl key).
Qed.

(** *** Beginning a path *)

Lemma path_activate_ok activation e e' : Activate activation e = Some e' → ep_ok e → ep_ok e' ∧ heap_le None e e'.
Proof using.
  intros E He. unfold Activate in E. destruct (offers e !! PathGeneration activation) as [s|] eqn:Ho; [|done].
  destruct (po_offers _ (ok_paths _ He) _ _ Ho) as (st & Hs & Hg). cbn [mbind option_bind] in E. unfold state_of in E.
  rewrite Hs in E. cbn [mbind option_bind] in E. destruct (_ || _) eqn:Hc; [done|]. injection E as <-. bool_to_prop.
  destruct He as [Ha Hr Hp].
  assert (Hst : ∀ s', alter (λ st0, st0 <| active := true |>) s (states e) !! s' =
    if decide (s = s') then Some (st <| active := true |>) else states e !! s')
    by (intros s'; rewrite lookup_alter, Hs; by destruct (decide (s = s'))).
  split; [constructor; [by apply (accounts_same e)| |constructor]|constructor; [| |done..]]; cbn [upd on_state states offers activeByIP].
  - intros key r Hk Hd. destruct (Hr key r Hk Hd) as (s' & st' & Ho' & Hs' & Hact & Hg' & Hau).
    exists s'. cbn [upd on_state states offers virtualIP]. rewrite Hst. case_decide; subst; [|exists st'; done].
    simplify_eq. exists (st <| active := true |>). done.
  - intros g s' Ho'. destruct (po_offers _ Hp _ _ Ho') as (st' & Hs' & Hg'). rewrite Hst.
    case_decide; subst; [simplify_eq; by exists (st <| active := true |>)|eauto].
  - intros s' st'. rewrite Hst. case_decide; subst; [|apply Hp]. intros [= <-] _. cbn [upd offer connection].
    rewrite Hg. split; [done|]. by destruct (connection st).
  - intros ip s' Hi. rewrite Hst. apply lookup_insert_Some in Hi as [[<- <-]|[_ Hi]].
    + rewrite decide_True by done. eauto.
    + destruct (po_index _ Hp _ _ Hi) as (st' & Hs' & ? & ?). case_decide; subst; [simplify_eq; eauto|eauto].
  - intros s' st' Hs'. rewrite Hst. case_decide; subst; [simplify_eq|]; eexists; by split.
  - intros s' Hs' _. rewrite Hst. case_decide; [congruence|done].
Qed.

Lemma path_apply_ok offer s now e e' :
  ApplyOffer DecodeString offer s now e = Ok e' → states e !! s = None → ep_ok e → ep_ok e' ∧ heap_le (Some s) e e'.
Proof using.
  unfold ApplyOffer. destruct (cancelled e) eqn:Hcan; [done|]. destruct (negb (valid_offer _ _ _ _)); [done|].
  destruct (negb _); [done|]. destruct (offers e !! PeerGeneration offer) as [|] eqn:Ho; [done|].
  intros [= <-] Hs [Ha Hr Hp].
  assert (Hother : ∀ s' st, states e !! s' = Some st → <[s := new_offer_state DecodeString offer]> (states e) !! s' = Some st).
  { intros s' st Hs'. rewrite lookup_insert_ne; [done|]. intros ->. congruence. }
  split; [constructor; [by apply (accounts_same e)| |constructor]|constructor; [| |done|done|]]; cbn [upd states offers activeByIP].
  - intros key r Hk Hd. destruct (Hr key r Hk Hd) as (s' & st' & Ho' & Hs' & ? & ? & ?).
    exists s', st'. cbn [upd states offers virtualIP]. rewrite lookup_insert_ne by congruence. eauto 10.
  - intros g s' [[<- <-]|[_ Ho']]%lookup_insert_Some.
    + exists (new_offer_state DecodeString offer). by rewrite lookup_insert_eq.
    + destruct (po_offers _ Hp _ _ Ho') as (st & ? & ?). eauto.
  - intros s' st [[<- <-]|[Hne Hs']]%lookup_insert_Some; [done|]. intros Hact.
    destruct (po_active _ Hp _ _ Hs' Hact) as [? ?]. rewrite lookup_insert_ne by congruence. done.
  - intros ip s' Hi. destruct (po_index _ Hp _ _ Hi) as (st & ? & ? & ?). eauto.
  - intros s' st Hs'. exists st. split; [by apply Hother|done].
  - intros s' Hs' Hne. rewrite lookup_insert_ne; [done|congruence].
  - cbn [upd cancelled]. congruence.
Qed.

(** *** Closing *)

Lemma deactivate_all l e s :
  states (foldl (λ e s, on_state s (λ st, st <| active := false |>) e) e l) !! s =
    (if decide (s ∈ l) then inactive <$> states e !! s else states e !! s).
Proof using.
  revert e. induction l as [|s0 l IH]; intros e; cbn [foldl].
  - by rewrite decide_False by apply not_elem_of_nil.
  - rewrite IH, on_state_lookup. destruct (decide (s0 = s)) as [->|Hne].
    + rewrite (decide_True (P := s ∈ s :: l)) by left. case_decide; [|done].
      by destruct (states e !! s) as [[]|].
    + case_decide; [rewrite decide_True by (by right)|rewrite decide_False]; [done|done|].
      by intros [?|?]%elem_of_cons.
Qed.

Lemma deactivate_fields l e :
  virtualIP (foldl (λ e s, on_state s (λ st, st <| active := false |>) e) e l) = virtualIP e ∧
  mtu (foldl (λ e s, on_state s (λ st, st <| active := false |>) e) e l) = mtu e ∧
  cancelled (foldl (λ e s, on_state s (λ st, st <| active := false |>) e) e l) = cancelled e.
Proof using. revert e. induction l as [|s l IH]; intros e; [done|]. exact (IH (on_state s _ e)). Qed.

Lemma path_close_ok e : ep_ok e → ep_ok (closeSession ρ e).1 ∧ heap_le None e (closeSession ρ e).1.
Proof using.
  intros [Ha Hr Hp]. unfold closeSession. cbn [fst].
  set (l := (range_offers ρ (offers e)).*2).
  pose proof (deactivate_all l e) as Hst. destruct (deactivate_fields l e) as (Hip & Hm & Hcan).
  set (e1 := foldl _ e l) in *. clearbody e1.
  split; [constructor; [constructor|done|constructor]|constructor; [| |done|done|]]; cbn [upd states offers activeByIP flows admission].
  - intros p. by rewrite tally_empty.
  - done.
  - by rewrite map_size_empty.
  - intros ??. by rewrite lookup_empty.
  - intros ??. by rewrite lookup_empty.
  - intros s st. rewrite Hst. case_decide as Hin.
    + intros (st0 & _ & ->)%fmap_Some. done.
    + intros Hs Hact. destruct Hin. destruct (po_active _ Hp _ _ Hs Hact) as [Ho _].
      apply list_elem_of_fmap. eexists (_, s). split; [done|]. by apply range_elem.
  - intros ??. by rewrite lookup_empty.
  - intros s st Hs. rewrite Hst, Hs. case_decide; [exists (inactive st)|exists st]; done.
  - intros s Hs _. rewrite Hst, Hs. by case_decide.
  - cbn [upd cancelled]. rewrite Hcan. done.
Qed.

(** ** Goroutines *)

Definition packet_fits (e : PeerEndpoint) (packet : list byte) : Prop :=
  packet ≠ [] ∧ Z.of_nat (length packet) <= mtu e.

(** What a goroutine relies on when it runs again. *)
Definition thread_ok (e : PeerEndpoint) (pc : Pc) : Prop :=
  match pc with
  | SendOpening key flow packet s route _ =>
    peerFlowKey flow = Some key ∧ packet_fits e packet ∧ route_held e s key route
  | SendWriting s c g packet =>
    packet_fits e packet ∧ ∃ st, states e !! s = Some st ∧ connection st = Some c ∧ g = PeerGeneration (offer st)
  | InboundOpening s _ packet flow key route _ =>
    ParseIPv4 packet = Ok flow ∧ peerFlowKey flow = Some key ∧ from_peer e s flow ∧ route_held e s key route
  | Delivering s _ packet => ∃ flow, ParseIPv4 packet = Ok flow ∧ from_peer e s flow
  | _ => True
  end.

Lemma held_le new e e' s key route : heap_le new e e' → route_held e s key route → route_held e' s key route.
Proof using.
  intros Hle (Hd & st & Hs & Hg & Hau). split; [done|]. destruct (hl_states _ _ _ Hle _ _ Hs) as (st' & Hs' & Eo & _).
  exists st'. by rewrite Eo, (hl_ip _ _ _ Hle).
Qed.

Lemma from_peer_le new e e' s flow : heap_le new e e' → from_peer e s flow → from_peer e' s flow.
Proof using.
  intros Hle (st & Hs & Hsrc & Hdst). destruct (hl_states _ _ _ Hle _ _ Hs) as (st' & Hs' & Eo & _).
  exists st'. by rewrite Eo, (hl_ip _ _ _ Hle).
Qed.

Lemma path_thread_ok_le new e e' pc : heap_le new e e' → thread_ok e pc → thread_ok e' pc.
Proof using.
  intros Hle. destruct pc; try done; cbn [thread_ok]; unfold packet_fits; rewrite ?(hl_mtu _ _ _ Hle).
  - intros (? & ? & ?). split_and!; try done; [naive_solver..|by eapply held_le].
  - intros (? & st & Hs & Hc & ->). destruct (hl_states _ _ _ Hle _ _ Hs) as (st' & Hs' & Eo & _ & Hconn).
    split; [done|]. exists st'. rewrite Eo. eauto.
  - intros (? & ? & ? & ?). split_and!; [done|done|by eapply from_peer_le|by eapply held_le].
  - intros (flow & ? & ?). exists flow. split; [done|by eapply from_peer_le].
Qed.

Record world_ok (w : World) : Prop := {
  wo_ep : ep_ok (ep w);
  wo_threads t pc : threads w !! t = Some pc → thread_ok (ep w) pc;
  wo_fresh s : is_Some (states (ep w) !! s) → (s < next w)%nat;
  wo_closed : closed w = true → cancelled (ep w) = true ∧ offers (ep w) = ∅;
  wo_mtu : 0 <= mtu (ep w) < 2 ^ 16;
  wo_generation s st : states (ep w) !! s = Some st → 0 <= PeerGeneration (offer st) < 2 ^ 64
}.

(** A world with another endpoint, where every goroutine is old or sound. *)
Lemma path_world_ok_step new w w' :
  world_ok w → ep_ok (ep w') → heap_le new (ep w) (ep w') → (next w ≤ next w')%nat →
  (∀ s, new = Some s → (s < next w')%nat ∧
     ∀ st, states (ep w') !! s = Some st → 0 <= PeerGeneration (offer st) < 2 ^ 64) →
  (closed w' = true → closed w = true) →
  (∀ t pc, threads w' !! t = Some pc → threads w !! t = Some pc ∨ thread_ok (ep w') pc) → world_ok w'.
Proof using.
  intros [He Ht Hf Hc Hm Hg] He' Hle Hn Hnew Hcl Hth. constructor; [done| | | |by rewrite (hl_mtu _ _ _ Hle)|].
  - intros t pc [Hold|?]%Hth; [|done]. by eapply path_thread_ok_le, Ht.
  - intros s Hs. destruct (states (ep w) !! s) as [st|] eqn:E; [assert (s < next w)%nat by (apply Hf; eauto); lia|].
    destruct (decide (new = Some s)) as [|Hne]; [by apply Hnew|].
    rewrite (hl_dom _ _ _ Hle _ E Hne) in Hs. by destruct Hs.
  - intros [Hcan Hoff]%Hcl%Hc. destruct (hl_closed _ _ _ Hle Hcan) as [? Ho]. auto.
  - intros s st' Hs'. destruct (states (ep w) !! s) as [st|] eqn:E.
    + destruct (hl_states _ _ _ Hle _ _ E) as (st2 & Hs2 & Eo & _). simplify_eq. rewrite Eo. by eapply Hg.
    + destruct (decide (new = Some s)) as [Hne|Hne]; [by eapply (Hnew s)|].
      rewrite (hl_dom _ _ _ Hle _ E Hne) in Hs'. done.
Qed.

(** The usual case: nothing is allocated. *)
Lemma world_ok_next w w' :
  world_ok w → ep_ok (ep w') → heap_le None (ep w) (ep w') → (next w ≤ next w')%nat → closed w' = closed w →
  (∀ t pc, threads w' !! t = Some pc → threads w !! t = Some pc ∨ thread_ok (ep w') pc) → world_ok w'.
Proof using. intros. eapply (path_world_ok_step None); try done; congruence. Qed.

(** The control operations on worlds. *)
Lemma path_insert_old t pc (w : World) (P : Pc → Prop) :
  P pc → ∀ t' pc', <[t := pc]> (threads w) !! t' = Some pc' → threads w !! t' = Some pc' ∨ P pc'.
Proof using. intros HP t' pc' [[<- <-]|[_ ?]]%lookup_insert_Some; auto. Qed.

Lemma delete_old t (w : World) t' pc' (Q : Prop) : delete t (threads w) !! t' = Some pc' → threads w !! t' = Some pc' ∨ Q.
Proof using. intros [_ ?]%lookup_delete_Some. auto. Qed.

Lemma path_goto_ok t pc w : world_ok w → thread_ok (ep w) pc → world_ok (goto t pc w).
Proof using.
  intros Hw Hpc. apply (world_ok_next w); try done; [apply Hw|]. by apply (path_insert_old t pc w (thread_ok (ep w))).
Qed.
Lemma path_spawn_ok pc w : world_ok w → thread_ok (ep w) pc → world_ok (spawn pc w).
Proof using.
  intros Hw Hpc. apply (world_ok_next w); try done; [apply Hw|cbn; lia|].
  by apply (path_insert_old (next w) pc w (thread_ok (ep w))).
Qed.
Lemma path_exit_ok t w : world_ok w → world_ok (exit t w).
Proof using.
  intros Hw. apply (world_ok_next w); try done; [apply Hw|]. intros t' pc'. apply delete_old.
Qed.
Lemma emit_ok evs w : world_ok w → world_ok (emit evs w).
Proof using. intros Hw. apply (world_ok_next w); try done; [apply Hw|auto]. Qed.
Lemma set_ep_ok e w : world_ok w → ep_ok e → heap_le None (ep w) e → world_ok (set_ep e w).
Proof using. intros Hw He Hle. apply (world_ok_next w); auto. Qed.
Lemma probes_ok s candidates w : world_ok w → world_ok (startProbeChecks s candidates w).
Proof using. intros Hw. unfold startProbeChecks. case_bool_decide; [done|]. by apply path_spawn_ok. Qed.
Hint Resolve path_goto_ok path_spawn_ok path_exit_ok emit_ok set_ep_ok probes_ok : peers.

(** *** Sections that only touch one offer state *)

Definition quiet (e e' : PeerEndpoint) : Prop := ep_ok e → ep_ok e' ∧ heap_le None e e'.

Lemma path_quiet_refl e : quiet e e.
Proof using. by intros ?. Qed.

Lemma quiet_touch s f e :
  (∀ st, states e !! s = Some st → state_le st (f st) ∧ active (f st) = active st) → quiet e (on_state s f e).
Proof using. intros Hf He. by apply path_touch_ok. Qed.

Lemma heap_le_trans e1 e2 e3 : heap_le None e1 e2 → heap_le None e2 e3 → heap_le None e1 e3.
Proof using.
  intros [Hs1 Hd1 Hi1 Hm1 Hc1] [Hs2 Hd2 Hi2 Hm2 Hc2]. constructor; [| |congruence..|].
  - intros s st (st' & Hs & Hle)%Hs1. destruct (Hs2 _ _ Hs) as (st'' & ? & ?). exists st''. split; [done|by etrans].
  - auto.
  - intros [? ?]%Hc1. destruct Hc2; auto.
Qed.

Lemma path_quiet_trans e1 e2 e3 : quiet e1 e2 → quiet e2 e3 → quiet e1 e3.
Proof using. intros H1 H2 He. destruct (H1 He) as [H1' ?]. destruct (H2 H1'). eauto using heap_le_trans. Qed.

Lemma path_quiet_world e w : quiet (ep w) e → world_ok w → world_ok (set_ep e w).
Proof using. intros Hq Hw. destruct (Hq (wo_ep _ Hw)). by apply set_ep_ok. Qed.

Ltac quiet_touch := apply quiet_touch; intros; simplify_eq; split; [split_and!; intros|]; done || congruence.

Lemma dial_quiet s address now e : quiet e (startDial s address now e).1.
Proof using.
  unfold startDial. destruct (state_of s e) as [st|]; [|apply path_quiet_refl]. destruct (_ || _); [apply path_quiet_refl|].
  destruct (_ && _); [apply path_quiet_refl|]. cbv zeta.
  assert (Hq : quiet e (if bool_decide (address ∈ validatedCandidates st) then e
    else on_state s (λ st, st <| validatedCandidates := validatedCandidates st ++ [address] |>) e))
    by (case_bool_decide; [apply path_quiet_refl|quiet_touch]).
  destruct (dialing st); [exact Hq|]. eapply path_quiet_trans; [exact Hq|]. cbn [fst]. quiet_touch.
Qed.

Lemma dial_failed_quiet s address e : quiet e (dial_failed s address e).1.1.
Proof using.
  unfold dial_failed. destruct (state_of s e) as [st|] eqn:Hs; [|apply path_quiet_refl]. unfold state_of in Hs. cbn [fst].
  quiet_touch.
Qed.

Lemma publish_quiet s conn now e : quiet e (publishConnection s conn now e).1.
Proof using.
  unfold publishConnection. destruct (state_of s e) as [st|] eqn:Hs; [|apply path_quiet_refl]. unfold state_of in Hs.
  destruct (_ || _) eqn:Hc; [apply path_quiet_refl|]. bool_to_prop. cbn [fst].
  destruct (connection st) eqn:Hconn; [done|]. quiet_touch.
Qed.

Lemma count_probe_quiet s candidate now e e' : count_probe s candidate now e = Some e' → quiet e e'.
Proof using.
  unfold count_probe. destruct (state_of s e) as [st|]; [|done]. destruct (_ || _); [done|].
  intros [= <-]. quiet_touch.
Qed.

(** *** Every step keeps the invariant *)

Lemma changes_quiet now e e' : changes ρ now e e' → quiet e e'.
Proof using. intros Hc He. by eapply changes_ok. Qed.

Lemma send_next_ok t flow packet now now' r w :
  world_ok w → changes ρ now' (ep w) r.1 → sending_ok r.1 flow r.2 →
  (∃ b, r.2 = SendReturns b) ∨ packet_fits (ep w) packet → world_ok (send_next t flow packet now r w).
Proof using ρ.
  intros Hw Hc Hr Hp. destruct r as [e r]. cbn [fst snd] in *.
  assert (Hw' : world_ok (set_ep e w)) by (apply path_quiet_world; [by eapply changes_quiet|done]).
  assert (Hfit : packet_fits (ep w) packet → packet_fits e packet).
  { unfold packet_fits. by rewrite (sp_mtu _ _ (changes_paths _ _ _ _ Hc)). }
  unfold send_next. cbn [fst snd]. destruct r as [b|key s route|s c g]; cbn [sending_ok] in Hr.
  - by apply path_exit_ok.
  - destruct Hp as [[b ?]|Hp]; [done|]. destruct Hr. apply emit_ok, path_goto_ok; [done|]. split_and!; try done; by apply Hfit.
  - destruct Hp as [[b ?]|Hp]; [done|]. apply path_goto_ok; [done|]. split; [by apply Hfit|done].
Qed.

Lemma send_enter_packet flow packet now e :
  (∃ b, (send_enter ρ flow packet now e).2 = SendReturns b) ∨ packet_fits e packet.
Proof using.
  unfold send_enter. destruct (peerFlowKey flow); [|left; eauto].
  destruct (bool_decide (packet = []) || _) eqn:Hp; [left; eauto|]. right. bool_to_prop. done.
Qed.

Lemma inbound_next_ok t s conn packet flow now now' r w :
  world_ok w → changes ρ now' (ep w) r.1 → inbound_result ρ now' (ep w) r.1 s flow r.2 →
  ParseIPv4 packet = Ok flow → from_peer (ep w) s flow → world_ok (inbound_next t s conn packet flow now r w).
Proof using.
  intros Hw Hc Hr Hparse Hfrom. destruct r as [e r]. cbn [fst snd] in *.
  destruct (changes_ok _ _ _ Hc (wo_ep _ Hw)) as [He Hle].
  assert (Hw' : world_ok (set_ep e w)) by (by apply set_ep_ok).
  assert (from_peer e s flow) by (by eapply from_peer_le).
  unfold inbound_next. cbn [fst snd]. destruct r as [[]|key route].
  - apply path_goto_ok; [done|]. by exists flow.
  - by apply path_goto_ok.
  - destruct Hr. apply emit_ok, path_goto_ok; [done|]. done.
Qed.

Lemma inbound_packet_spec st frame e packet flow :
  inbound_packet st frame e = Some (packet, flow) →
  ParseIPv4 packet = Ok flow ∧ SourceIP flow = offer_ip (offer st) ∧ DestinationIP flow = virtualIP e ∧
  read_frame (PeerGeneration (offer st)) (mtu e) frame = Some packet.
Proof using.
  unfold inbound_packet. destruct (read_frame _ _ _) as [p|]; [|done]. cbn [mbind option_bind].
  destruct (ParseIPv4 p) as [f|] eqn:Hp; [|done]. destruct (_ && _) eqn:Hb; [|done]. intros [= <- <-]. bool_to_prop. done.
Qed.

Lemma read_datagram_ok t s conn frame now w : world_ok w → world_ok (read_datagram ρ t s conn frame now w).
Proof using.
  intros Hw. unfold read_datagram, state_of. destruct (states (ep w) !! s) as [st|] eqn:Hs; cbn [mbind option_bind];
    [|by apply path_goto_ok].
  destruct (inbound_packet st frame (ep w)) as [[packet flow]|] eqn:Hp; [|by apply path_goto_ok].
  destruct (inbound_packet_spec _ _ _ _ _ Hp) as (Hparse & Hsrc & Hdst & _).
  assert (Hfrom : from_peer (ep w) s flow) by (by exists st).
  destruct (inbound_enter ρ s flow now (ep w)) as [e r] eqn:E.
  destruct (inbound_enter_spec _ _ _ _ _ _ _ E (ok_paths _ (wo_ep _ Hw)) (ok_routes _ (wo_ep _ Hw)) Hfrom).
  by eapply inbound_next_ok.
Qed.

Lemma fail_thread_ok t s code w : world_ok w → world_ok (fail_thread ρ t s code w).
Proof using.
  intros Hw. unfold fail_thread. destruct (fail_ok s (ep w) (wo_ep _ Hw)) as [He Hle].
  destruct (failPath ρ s (ep w)) as [e current]. cbn [fst] in *.
  assert (world_ok (exit t (set_ep e w))) by auto with peers.
  destruct (state_of s e); [|done]. destruct (_ && _); auto with peers.
Qed.

Lemma probe_candidate_ok t s candidates rest attempt resolved now w :
  world_ok w → world_ok (probe_candidate hmac t s candidates rest attempt resolved now w).
Proof using.
  intros Hw. unfold probe_candidate. destruct rest as [|candidate rest]; [case_match; auto with peers; by apply path_goto_ok|].
  destruct (count_probe s candidate now (ep w)) as [e|] eqn:Hp; [|by apply path_goto_ok].
  assert (world_ok (set_ep e w)) by (eapply path_quiet_world; [by eapply count_probe_quiet|done]).
  destruct (state_of s (ep w)); [|by apply path_goto_ok].
  destruct (EncodePeerSignal _ _ _); [apply emit_ok|]; by apply path_goto_ok.
Qed.

Lemma begin_dial_ok s address now w : world_ok w → world_ok (begin_dial s address now w).
Proof using.
  intros Hw. unfold begin_dial. pose proof (dial_quiet s address now (ep w)) as Hq.
  destruct (startDial s address now (ep w)) as [e started]. cbn [fst] in Hq. apply (path_quiet_world e w) in Hq; [|done].
  destruct started; [|done]. by apply emit_ok, path_spawn_ok.
Qed.

Lemma redial_ok t s candidate now w : world_ok w → world_ok (redial t s candidate now w).
Proof using.
  intros Hw. unfold redial.
  assert (Hd : world_ok (match candidate with Some address => begin_dial s address now w | None => w end))
    by (destruct candidate; [by apply begin_dial_ok|done]).
  destruct (state_of _ _); auto with peers.
Qed.

Lemma publish_world_ok t s conn accepted now w : world_ok w → world_ok (publish t s conn accepted now w).
Proof using.
  intros Hw. unfold publish. pose proof (publish_quiet s conn now (ep w)) as Hq.
  destruct (publishConnection s conn now (ep w)) as [e published]. cbn [fst] in Hq.
  assert (Hw' : world_ok (set_ep e (if accepted then goto t Accepting w else exit t w))).
  { apply path_quiet_world; destruct accepted; try done; [by apply path_goto_ok|by apply path_exit_ok]. }
  destruct published; [|by apply emit_ok]. destruct (state_of s e); [|done]. by apply emit_ok, path_spawn_ok.
Qed.

Lemma send_opening_ok t key flow packet s route start err w :
  threads w !! t = Some (SendOpening key flow packet s route start) → world_ok w →
  world_ok (match renewed s err route start (ep w) with
            | None => goto t (Failing s "flow_registration_failed") w
            | Some route => send_next t flow packet start (send_commit key s flow route start (ep w)) w
            end).
Proof using ρ.
  intros Ht Hw. destruct (wo_threads _ Hw _ _ Ht) as (Hkey & Hfit & Hheld).
  destruct (renewed s err route start (ep w)) as [route'|] eqn:Hren; [|by apply path_goto_ok].
  destruct (renewed_held _ _ _ _ _ _ _ Hren Hheld) as (Hd & _ & Hheld' & st & Hs & Hact).
  destruct (send_commit key s flow route' start (ep w)) as [e r] eqn:E.
  destruct (send_commit_spec ρ _ _ _ _ _ _ _ _ E Hd) as [Hc Hr];
    [by eapply held_current; [apply Hw|..]|].
  eapply send_next_ok; eauto.
Qed.

Lemma inbound_opening_ok t s conn packet flow key route start err w :
  threads w !! t = Some (InboundOpening s conn packet flow key route start) → world_ok w →
  world_ok (match renewed s err route start (ep w) with
            | None => goto t (Reading s conn) w
            | Some route =>
              let '(e, ok) := inbound_commit key flow route start (ep w) in
              inbound_next t s conn packet flow start (e, InboundReturns ok) w
            end).
Proof using ρ.
  intros Ht Hw. destruct (wo_threads _ Hw _ _ Ht) as (Hparse & Hkey & Hfrom & Hheld).
  destruct (renewed s err route start (ep w)) as [route'|] eqn:Hren; [|by apply path_goto_ok].
  destruct (renewed_held _ _ _ _ _ _ _ Hren Hheld) as (Hd & _ & Hheld' & st & Hs & Hact).
  destruct (inbound_commit key flow route' start (ep w)) as [e ok] eqn:E.
  assert (Hg : generation route' = PeerGeneration (offer st)) by (destruct Hheld' as (_ & st' & ? & ? & _); by simplify_eq).
  destruct (inbound_commit_spec ρ _ _ _ _ s st _ _ _ E Hd) as [Hc Hr]; try done;
    [by eapply held_current; [apply Hw|..]|apply Hw|].
  by eapply inbound_next_ok.
Qed.

Lemma path_thread_step_ok t pc input now w w' :
  threads w !! t = Some pc → thread_step hmac ρ t pc input now w = Some w' → world_ok w → world_ok w'.
Proof using ρ.
  intros Ht E Hw. destruct pc, input; cbn [thread_step] in E; try discriminate E; try (injection E as <-).
  all: try exact (send_opening_ok _ _ _ _ _ _ _ false _ Ht Hw).
  all: try exact (send_opening_ok _ _ _ _ _ _ _ true _ Ht Hw).
  all: try exact (inbound_opening_ok _ _ _ _ _ _ _ _ false _ Ht Hw).
  all: try exact (inbound_opening_ok _ _ _ _ _ _ _ _ true _ Ht Hw).
  all: try (by repeat (apply emit_ok || apply path_exit_ok || apply path_goto_ok)).
  all: auto using fail_thread_ok, read_datagram_ok, probe_candidate_ok, publish_world_ok.
  - unfold probe_check. repeat case_match; auto with peers; by apply path_goto_ok.
  - destruct (cancelled (ep w)); simplify_eq; auto with peers.
  - repeat case_match; auto with peers.
  - destruct (cancelled (ep w)); simplify_eq; auto with peers.
  - repeat case_match; simplify_eq; auto with peers; by apply path_goto_ok.
  - destruct (cancelled (ep w)); simplify_eq; auto with peers.
  - unfold read_signal. repeat case_match; try (apply emit_ok); by apply path_goto_ok.
  - apply path_goto_ok; [|done]. by apply begin_dial_ok.
  - pose proof (dial_failed_quiet s address (ep w)) as Hq. destruct (dial_failed s address (ep w)) as [[e current] candidate].
    cbn [fst] in Hq. apply (path_quiet_world e w) in Hq; [|done]. simplify_eq. destruct (_ && _); [by apply path_goto_ok|by apply path_exit_ok].
  - by apply redial_ok.
  - repeat case_match; [by apply path_goto_ok|]. apply emit_ok. by apply path_goto_ok.
Qed.

Lemma apply_offer_ok offer now w : 0 <= PeerGeneration offer < 2 ^ 64 → world_ok w → world_ok (apply_offer DecodeString offer now w).
Proof using.
  intros Hg Hw. unfold apply_offer. destruct (ApplyOffer _ _ _ _ _) as [e|] eqn:E; [|done]. cbv zeta.
  assert (Hnone : states (ep w) !! next w = None).
  { destruct (states (ep w) !! next w) eqn:Hs; [|done]. assert (next w < next w)%nat by (apply (wo_fresh _ Hw); eauto). lia. }
  destruct (path_apply_ok _ _ _ _ _ E Hnone (wo_ep _ Hw)) as [He Hle].
  do 2 (apply path_spawn_ok; [|done]). apply probes_ok.
  apply (path_world_ok_step (Some (next w)) w); cbn [upd ep next closed threads]; auto.
  intros s [= <-]. split; [lia|]. intros st. unfold ApplyOffer in E. repeat case_match; simplify_eq.
  cbn [upd states]. rewrite lookup_insert_eq. by intros [= <-].
Qed.

Lemma path_step_world_ok a w w' : step DecodeString hmac ρ a w = Some w' → action_typed a → world_ok w → world_ok w'.
Proof using.
  intros E Hty Hw. destruct a; cbn [step] in E.
  - injection E as <-. destruct (send_enter ρ flow packet now (ep w)) as [e r] eqn:Es.
    destruct (send_enter_spec _ _ _ _ _ _ _ Es) as [Hc Hr]; [apply Hw|apply Hw|].
    eapply send_next_ok; cbn [upd ep]; try done.
    + apply (world_ok_next w); cbn; auto using wo_ep; reflexivity.
    + pose proof (send_enter_packet flow packet now (ep w)) as Hp. by rewrite Es in Hp.
  - injection E as <-. apply path_quiet_world; [|done]. eapply changes_quiet, mark_relay_changes.
  - injection E as <-. by apply apply_offer_ok.
  - destruct (Activate activation (ep w)) as [e|] eqn:Ea; [|done]. injection E as <-.
    apply path_quiet_world; [|done]. intros He. by eapply path_activate_ok.
  - destruct (revoke_ok revocation (ep w) (wo_ep _ Hw)) as [He Hle].
    destruct (Revoke ρ revocation (ep w)) as [e conn]. injection E as <-. by apply emit_ok, set_ep_ok.
  - injection E as <-. apply set_ep_ok; [done| |].
    + destruct (wo_ep _ Hw) as [Ha Hr Hp]. constructor; [by apply (accounts_same (ep w))| |].
      * intros key r Hk. by apply Hr.
      * by destruct Hp; constructor.
    + constructor; try done. intros s st Hs. by exists st.
  - injection E as <-. apply set_ep_ok; [done| |].
    + destruct (wo_ep _ Hw) as [Ha Hr Hp]. constructor; [by apply (accounts_same (ep w))| |].
      * intros key r Hk. by apply Hr.
      * by destruct Hp; constructor.
    + constructor; try done. intros s st Hs. by exists st.
  - destruct (_ && _) eqn:Hc; [|done]. bool_to_prop.
    destruct (path_close_ok (ep w) (wo_ep _ Hw)) as [He Hle]. unfold closeSession in *. cbn [fst] in *.
    injection E as <-. apply emit_ok. set (e' := _ <| admission := _ |>) in *.
    assert (Hw' : world_ok (set_ep e' w)) by (by apply set_ep_ok). destruct Hw' as [Ho1 Ho2 Ho3 _ Ho5 Ho6].
    constructor; cbn [upd ep closed threads next set_ep] in *; try done. intros _. split; [|done].
    by apply (hl_closed _ _ _ Hle).
  - destruct (threads w !! t) as [pc|] eqn:Ht; [|done]. by eapply path_thread_step_ok.
Qed.

Lemma start_world_ok client ip mtu w : start client ip mtu = Some w → 0 <= mtu < 2 ^ 16 → world_ok w.
Proof using.
  unfold start, newPeerEndpoint. destruct (ParseAddr ip) as [address|]; [|done].
  destruct (Is4 address); [|done]. cbn [mbind option_bind]. intros [= <-] Hm.
  constructor; cbn [ep threads next closed].
  - constructor; [constructor|done|constructor]; cbn [flows admission states offers activeByIP]; try done.
  - intros t pc [[<- <-]|[_ [<- <-]%lookup_singleton_Some]]%lookup_insert_Some; done.
  - intros s [? Hs]. discriminate Hs.
  - done.
  - exact Hm.
  - intros s st Hs. discriminate Hs.
Qed.

Lemma path_reachable_ok w : reachable DecodeString hmac ρ w → world_ok w.
Proof using. induction 1 as [? ? ? w E|a w w' _ IH Hty E]; [by eapply start_world_ok|by eapply path_step_world_ok]. Qed.
End paths.
