(* ===== verification/PeerSafety.v ===== *)
(** * Direct paths: properties

    Accounting and authority of direct flows, authority of every packet that
    is handed to the device, pinning of relayed flows, exactness of a
    revocation, what is left after closing, and that a datagram written at one
    end is the packet read at the other. *)

From stdpp Require Import relations.
From S2P Require Import Prelude GoTime NetAddr GoIO Packet FlowControl PortPolicy PeerWire PeerEndpoint PeerFlows PeerPaths.

Local Open Scope Z_scope.

Section safety.
Context `{NetipText} `{SignalCodec}.
Context (DecodeString : string → option (list byte)) (hmac : list byte → list byte → list byte).
Context (ρ : PeerRanges).
Abbreviation reachable := (reachable DecodeString hmac ρ).
Abbreviation step := (step DecodeString hmac ρ).

(** ** Deliveries *)

(** At [e] the packets of [flow] that arrive on the path [s] are permitted: the
    path's offer is current and active, the packet goes from the peer's virtual
    address to this client's, and its flow has an authorised direct route of
    the offer's generation, or is one that the peer may open. *)
Definition permitted (e : PeerEndpoint) (s : nat) (flow : Flow) : Prop :=
  ∃ st key, states e !! s = Some st ∧ active st = true ∧ offers e !! PeerGeneration (offer st) = Some s ∧
    SourceIP flow = offer_ip (offer st) ∧ DestinationIP flow = virtualIP e ∧ peerFlowKey flow = Some key ∧
    ((∃ route, flows e !! key = Some route ∧ direct route = true ∧ generation route = PeerGeneration (offer st) ∧
        authority (offer st) (virtualIP e) key route) ∨
     inbound_service (offer st) (virtualIP e) flow).

Lemma remove_flow_subset key e : flows (removeFlowLocked key e) ⊆ flows e.
Proof using. unfold removeFlowLocked. destruct (flows e !! key) as [route|]; [|done]. destruct (direct route); cbn; apply delete_subseteq. Qed.

Lemma expire_subset now e : flows (expireFlowsLocked ρ now e) ⊆ flows e.
Proof using.
  unfold expireFlowsLocked. destruct (Before _ _); [done|]. unfold expire_flows. generalize (range_flows ρ (flows e)) as l.
  change (flows e) with (flows (e <| nextFlowCleanup := Add now Second |>)). generalize (e <| nextFlowCleanup := Add now Second |>) as e0.
  intros e0 l. revert e0. induction l as [|[k route] l IH]; intros e0; [done|]. cbn [foldl]. etrans; [apply IH|].
  destruct (idle now route); [apply remove_flow_subset|done].
Qed.

(** A reader that is let through was permitted when it took the lock. *)
Lemma enter_permitted s flow now e e' : inbound_enter ρ s flow now e = (e', InboundReturns true) →
  paths_ok e → routes_ok e → from_peer e s flow → permitted e s flow.
Proof using.
  unfold inbound_enter. intros E Hp Hr (st & Hs & Hsrc & Hdst). unfold state_of in E. rewrite Hs in E.
  destruct (peerFlowKey flow) as [key|] eqn:Hkey; [|done]. destruct (_ || _) eqn:Hcur; [done|]. bool_to_prop.
  destruct (po_active _ Hp _ _ Hs) as [Ho _]; [done|]. exists st, key. split_and!; [done..|].
  destruct (flowLocked key now _) as [e1 [route|]] eqn:Ef.
  - left. destruct (flowLocked_spec ρ _ _ _ _ _ Ef) as (_ & Hk & He). destruct (He _ eq_refl) as [-> _].
    assert (Hk0 : flows e !! key = Some route) by (eapply lookup_weaken; [exact Hk|apply expire_subset]).
    unfold inbound_route in E. destruct (_ || _) eqn:Hg; [done|]. bool_to_prop. exists route. split_and!; [done..|].
    destruct (Hr _ _ Hk0) as (s' & st' & Ho' & Hs' & _ & _ & Hau); [done|]. match goal with H : generation route = _ |- _ => rewrite H in Ho' end. by simplify_eq.
  - right. destruct (_ <=? _); [done|]. destruct (_ || _) eqn:Hport; [done|]. bool_to_prop. split_and!; [done..|].
    intros Htcp. match goal with Ht : _ ∨ _ |- _ => destruct Ht; bool_to_prop; congruence end.
Qed.

Lemma commit_permitted s key flow route now e e' st : inbound_commit key flow route now e = (e', true) →
  routes_ok e → paths_ok e → from_peer e s flow → peerFlowKey flow = Some key → states e !! s = Some st → active st = true →
  generation route = PeerGeneration (offer st) → permitted e s flow.
Proof using.
  unfold inbound_commit. intros E Hr Hp (st' & Hs' & Hsrc & Hdst) Hkey Hs Ha Hg. assert (st' = st) as -> by congruence.
  destruct (flows e !! key) as [current|] eqn:Hk; [|done]. destruct (_ || _) eqn:Hc; [done|]. bool_to_prop.
  destruct (po_active _ Hp _ _ Hs) as [Ho _]; [done|]. exists st, key. split_and!; [done..|]. left. exists current. split_and!; [done|done|congruence|].
  destruct (Hr _ _ Hk) as (s' & st' & Ho' & Hs'' & _ & _ & Hau); [done|]. assert (s' = s) as -> by congruence. by simplify_eq.
Qed.

(** One step of the endpoint after another. *)
Definition later (w w' : World) : Prop := ∃ a, action_typed a ∧ step a w = Some w'.

(** [packet] was read by a goroutine of this run, on the path [s], in a step
    at whose beginning it was permitted. *)
Definition was_authorised (w : World) (packet : list byte) : Prop :=
  ∃ w0 w1 t input now s conn flow, reachable w0 ∧ step (DoThread t input now) w0 = Some w1 ∧ rtc later w1 w ∧
    threads w1 !! t = Some (Delivering s conn packet) ∧ ParseIPv4 packet = Ok flow ∧ permitted (ep w0) s flow.

Section deliveries.
(** What is claimed of every delivered packet. *)
Context (P : list byte → Prop).

Record deliveries_ok (w : World) : Prop := {
  dv_threads t s conn packet : threads w !! t = Some (Delivering s conn packet) → P packet;
  dv_events packet : EvReceived packet ∈ events w → P packet
}.

(** A step of other goroutines: no new delivery. *)
Definition calm_pc (pc : Pc) : bool := match pc with Delivering _ _ _ => false | _ => true end.
Definition calm_event (e : Event) : bool := match e with EvReceived _ => false | _ => true end.

Lemma dv_set_ep e w : deliveries_ok w → deliveries_ok (set_ep e w).
Proof using. by intros []. Qed.
Lemma dv_goto t pc w : calm_pc pc = true → deliveries_ok w → deliveries_ok (goto t pc w).
Proof using.
  intros Hpc [Ht He]. constructor; [|done]. intros t' s conn packet; cbn [goto spawn upd threads].
  intros [[<- ->]|[_ ?]]%lookup_insert_Some; [done|eauto].
Qed.
Lemma dv_spawn pc w : calm_pc pc = true → deliveries_ok w → deliveries_ok (spawn pc w).
Proof using.
  intros Hpc [Ht He]. constructor; [|done]. intros t' s conn packet; cbn [goto spawn upd threads].
  intros [[<- ->]|[_ ?]]%lookup_insert_Some; [done|eauto].
Qed.
Lemma dv_exit t w : deliveries_ok w → deliveries_ok (exit t w).
Proof using.
  intros [Ht He]. constructor; [|done]. intros t' s conn packet; cbn [exit upd threads].
  intros [_ ?]%lookup_delete_Some. eauto.
Qed.
Lemma dv_emit evs w : forallb calm_event evs = true → deliveries_ok w → deliveries_ok (emit evs w).
Proof using.
  intros Hev [Ht He]. constructor; [done|]. intros packet. cbn [emit upd events]. rewrite elem_of_app.
  intros [?|Hin]; [eauto|]. rewrite forallb_forall in Hev. apply list_elem_of_In, Hev in Hin. done.
Qed.
Lemma dv_probes s candidates w : deliveries_ok w → deliveries_ok (startProbeChecks s candidates w).
Proof using. intros. unfold startProbeChecks. case_bool_decide; [done|]. by apply dv_spawn. Qed.
Hint Resolve dv_set_ep dv_goto dv_spawn dv_exit dv_emit dv_probes : peers.

Lemma dv_received t packet pc w :
  P packet → calm_pc pc = true → deliveries_ok w → deliveries_ok (emit [EvReceived packet] (goto t pc w)).
Proof using.
  intros Ha Hpc Hw. destruct (dv_goto t pc w Hpc Hw) as [Ht He]. constructor; [done|]. intros p.
  cbn [emit upd events]. rewrite elem_of_app, list_elem_of_singleton. intros [?|[= ->]]; eauto.
Qed.

Lemma open_event_calm s flow e : forallb calm_event (open_event s flow e) = true.
Proof using. unfold open_event. by destruct (state_of s e). Qed.

Lemma dv_send_next t flow packet now r w : deliveries_ok w → deliveries_ok (send_next t flow packet now r w).
Proof using.
  intros Hw. unfold send_next. destruct (r.2); auto with peers.
  apply dv_emit; [apply open_event_calm|]. auto with peers.
Qed.

(** The readers: a delivery follows an authorisation in the same section. *)
Lemma dv_inbound_next t s conn packet flow now r w :
  deliveries_ok w →
  (r.2 = InboundReturns true → threads (inbound_next t s conn packet flow now r w) !! t = Some (Delivering s conn packet) → P packet) →
  deliveries_ok (inbound_next t s conn packet flow now r w).
Proof using.
  intros Hw Hnew. destruct r as [e r]. cbn [fst snd] in *. unfold inbound_next in *. cbn [fst snd] in *.
  destruct r as [[]|key route]; [|auto with peers|].
  - destruct (dv_set_ep e w Hw) as [Ht He]. constructor; [|done].
    intros t' s' conn' p; cbn [goto set_ep upd threads]. intros [[_ [= <- <- <-]]|[_ ?]]%lookup_insert_Some; [|by eapply Ht].
    apply Hnew; [done|]. cbn [goto set_ep upd threads]. apply lookup_insert_eq.
  - apply dv_emit; [apply open_event_calm|]. auto with peers.
Qed.

Lemma dv_read t s conn frame now w :
  (∀ packet flow, threads (read_datagram ρ t s conn frame now w) !! t = Some (Delivering s conn packet) →
     ParseIPv4 packet = Ok flow → permitted (ep w) s flow → P packet) →
  reachable w → deliveries_ok w → deliveries_ok (read_datagram ρ t s conn frame now w).
Proof using.
  intros Hnew Hreach Hw. pose proof (path_reachable_ok _ _ _ _ Hreach) as Hok. unfold read_datagram, state_of in *.
  destruct (states (ep w) !! s) as [st|] eqn:Hs; cbn [mbind option_bind] in *; [|auto with peers].
  destruct (inbound_packet st frame (ep w)) as [[packet flow]|] eqn:Hp; [|auto with peers].
  destruct (inbound_packet_spec _ _ _ _ _ Hp) as (Hparse & Hsrc & Hdst & _).
  apply dv_inbound_next; [done|]. intros Hr Hth. apply (Hnew packet flow Hth Hparse).
  destruct (inbound_enter ρ s flow now (ep w)) as [e r] eqn:E. cbn in Hr. subst r.
  eapply enter_permitted; [exact E|apply Hok..|]. by exists st.
Qed.

Lemma dv_inbound_opening t s conn packet flow key route start err w :
  let w' := match renewed s err route start (ep w) with
            | None => goto t (Reading s conn) w
            | Some route =>
              let '(e, ok) := inbound_commit key flow route start (ep w) in
              inbound_next t s conn packet flow start (e, InboundReturns ok) w
            end in
  (threads w' !! t = Some (Delivering s conn packet) → ParseIPv4 packet = Ok flow → permitted (ep w) s flow → P packet) →
  threads w !! t = Some (InboundOpening s conn packet flow key route start) → reachable w → deliveries_ok w →
  deliveries_ok w'.
Proof using.
  intros w' Hnew Ht Hreach Hw. subst w'. pose proof (path_reachable_ok _ _ _ _ Hreach) as Hok.
  destruct (wo_threads _ Hok _ _ Ht) as (Hparse & Hkey & Hfrom & Hheld).
  destruct (renewed s err route start (ep w)) as [route'|] eqn:Hren; [|auto with peers].
  destruct (renewed_held _ _ _ _ _ _ _ Hren Hheld) as (Hd & _ & Hheld' & st & Hs & Hact).
  destruct (inbound_commit key flow route' start (ep w)) as [e ok] eqn:E.
  apply dv_inbound_next; [done|]. intros [= ->] Hth. apply (Hnew Hth Hparse).
  eapply commit_permitted; [exact E|apply Hok..|done|done|done|done|]. destruct Hheld' as (_ & st' & ? & ? & _). by simplify_eq.
Qed.

Lemma dv_begin_dial s address now w : deliveries_ok w → deliveries_ok (begin_dial s address now w).
Proof using. intros. unfold begin_dial. destruct (startDial _ _ _ _) as [e []]; auto with peers. Qed.

Lemma dv_fail t s code w : deliveries_ok w → deliveries_ok (fail_thread ρ t s code w).
Proof using.
  intros. unfold fail_thread. destruct (failPath ρ s (ep w)) as [e current].
  destruct (state_of s e); [destruct (_ && _)|]; auto with peers.
Qed.

Lemma dv_candidate t s candidates rest attempt resolved now w :
  deliveries_ok w → deliveries_ok (probe_candidate hmac t s candidates rest attempt resolved now w).
Proof using.
  intros. unfold probe_candidate. destruct rest as [|candidate rest]; [destruct (_ =? _); auto with peers|].
  destruct (count_probe s candidate now (ep w)), (state_of s (ep w)); auto with peers.
  case_match; [destruct resolved|]; auto with peers.
Qed.

Lemma dv_publish t s conn accepted now w : deliveries_ok w → deliveries_ok (publish t s conn accepted now w).
Proof using.
  intros. unfold publish. destruct (publishConnection _ _ _ _) as [e published].
  assert (deliveries_ok (set_ep e (if accepted then goto t Accepting w else exit t w))) by (destruct accepted; auto with peers).
  destruct published; [destruct (state_of s e)|]; auto with peers.
Qed.

Lemma dv_redial t s candidate now w : deliveries_ok w → deliveries_ok (redial t s candidate now w).
Proof using.
  intros. unfold redial.
  assert (deliveries_ok (match candidate with Some address => begin_dial s address now w | None => w end))
    by (destruct candidate; [by apply dv_begin_dial|done]).
  destruct (state_of _ _); auto with peers.
Qed.

Lemma dv_signal t data address w : deliveries_ok w → deliveries_ok (read_signal hmac t data address w).
Proof using.
  intros. unfold read_signal. destruct (signal_state hmac data (ep w)) as [[[s st] signal]|]; [|auto with peers].
  destruct (_ =? _); [auto with peers|]. destruct (_ && _); auto with peers.
Qed.

Lemma dv_thread t pc input now w w' :
  (∀ s conn packet flow, threads w' !! t = Some (Delivering s conn packet) → ParseIPv4 packet = Ok flow → permitted (ep w) s flow → P packet) →
  threads w !! t = Some pc → thread_step hmac ρ t pc input now w = Some w' → reachable w → deliveries_ok w →
  deliveries_ok w'.
Proof using.
  intros Hnew Ht E Hreach Hw. destruct pc, input; cbn [thread_step] in E; try discriminate E; try (apply (inj Some) in E; subst w').
  all: try (by apply dv_received; [eapply dv_threads|..]).
  all: try (by auto 6 using dv_fail, dv_candidate, dv_publish, dv_redial, dv_signal, dv_begin_dial with peers).
  all: try (apply dv_read; [intros packet0 flow0; apply Hnew|done..]).
  all: try (eapply dv_inbound_opening; [apply Hnew|done..]).
  - case_match; auto using dv_send_next with peers.
  - case_match; auto using dv_send_next with peers.
  - unfold probe_check. destruct (state_of _ _); [destruct (_ || _)|]; auto with peers.
  - destruct (cancelled (ep w)); simplify_eq; auto with peers.
  - destruct (state_of _ _); [destruct (_ || _)|]; auto with peers.
  - destruct (cancelled (ep w)); simplify_eq; auto with peers.
  - destruct (state_of _ _); [destruct (negb _); [done|]; destruct (is_some _)|]; simplify_eq; auto with peers.
  - destruct (cancelled (ep w)); simplify_eq; auto with peers.
  - destruct (dial_failed s address (ep w)) as [[e current] candidate]. simplify_eq. destruct (_ && _); auto with peers.
  - destruct (accepts serverName (ep w)); auto with peers.
Qed.

Lemma dv_step a w w' : step a w = Some w' →
  (∀ t input now s conn packet flow, a = DoThread t input now → threads w' !! t = Some (Delivering s conn packet) →
     ParseIPv4 packet = Ok flow → permitted (ep w) s flow → P packet) →
  reachable w → deliveries_ok w → deliveries_ok w'.
Proof using.
  intros E Hnew Hreach Hw. destruct a; cbn [PeerEndpoint.step] in E.
  - injection E as <-. apply dv_send_next. by destruct Hw.
  - injection E as <-. auto with peers.
  - injection E as <-. unfold apply_offer. case_match; [|done]. cbv zeta. do 2 (apply dv_spawn; [done|]).
    apply dv_probes. by destruct Hw.
  - destruct (Activate _ _); [|done]. injection E as <-. auto with peers.
  - destruct (Revoke _ _ _) as [e [c|]]; injection E as <-; auto with peers.
  - injection E as <-. auto with peers.
  - injection E as <-. auto with peers.
  - destruct (_ && _); [|done]. destruct (closeSession ρ (ep w)) as [e conns]. injection E as <-.
    apply dv_emit; [|by destruct Hw]. rewrite forallb_forall. intros ev (c & <- & _)%in_map_iff. done.
  - destruct (threads w !! t) as [pc|] eqn:Ht; [|done]. eapply dv_thread; [intros; by eapply Hnew|done..].
Qed.
End deliveries.

Lemma deliveries_weaken (P Q : list byte → Prop) w : (∀ packet, P packet → Q packet) → deliveries_ok P w → deliveries_ok Q w.
Proof using. intros HPQ [Ht He]. constructor; eauto. Qed.

Lemma reachable_deliveries w : reachable w → deliveries_ok (was_authorised w) w.
Proof using.
  induction 1 as [? ? ? w E|a w w' Hw IH Hty E].
  - unfold start, newPeerEndpoint in E. destruct (ParseAddr ip) as [address|]; [|done].
    destruct (Is4 address); [|done]. injection E as <-. constructor; cbn [threads events].
    + intros t s conn packet [[_ ?]|[_ [_ ?]%lookup_singleton_Some]]%lookup_insert_Some; done.
    + intros packet ?%elem_of_nil. done.
  - eapply dv_step; [exact E| |done|].
    + intros t input now s conn packet flow -> Hth Hparse Hperm. by exists w, w', t, input, now, s, conn, flow.
    + eapply deliveries_weaken, IH. intros packet (w0 & w1 & t & input & now & s & conn & flow & ? & ? & Hrtc & ?).
      exists w0, w1, t, input, now, s, conn, flow. split_and!; try done; [|naive_solver..]. eapply rtc_r; [exact Hrtc|]. by exists a.
Qed.

(** ** Pinning *)

(** The clock of the section that a step runs, if the section reads it to
    expire flows. *)
Definition clock (a : Action) (w : World) : option Time :=
  match a with
  | DoSend _ _ now | DoMarkRelay _ now => Some now
  | DoThread t _ now =>
    match threads w !! t with
    | Some (SendOpening _ _ _ _ _ start) | Some (InboundOpening _ _ _ _ _ _ start) => Some start
    | Some (Reading _ _) => Some now
    | _ => None
    end
  | _ => None
  end.

(** Relayed flows stay, unless idle at the given time. *)
Definition relay_kept (now : option Time) (e e' : PeerEndpoint) : Prop :=
  ∀ key route, flows e !! key = Some route → direct route = false →
  (∃ route', flows e' !! key = Some route' ∧ direct route' = false) ∨
  (∃ t, now = Some t ∧ expiresAt route <= t).

Lemma kept_same now e e' : flows e' = flows e → relay_kept now e e'.
Proof using. intros E key route Hk Hd. left. exists route. by rewrite E. Qed.

Lemma kept_changes now e e' : changes ρ now e e' → relay_kept (Some now) e e'.
Proof using.
  intros Hc key route Hk Hd. destruct (idle now route) eqn:Hi.
  - right. exists now. split; [done|]. unfold idle, Before in Hi. bool_to_prop. done.
  - left. destruct (changes_pinned _ _ _ _ Hc key route Hk Hd Hi) as (r & ? & ? & _). eauto.
Qed.

Lemma kept_relayed now g e e' : (∀ key, flows e' !! key = relayed g <$> flows e !! key) → relay_kept now e e'.
Proof using.
  intros E key route Hk Hd. left. rewrite E, Hk. exists route. split; [|done]. cbn [fmap option_fmap option_map].
  unfold relayed. by rewrite Hd.
Qed.

Lemma fail_flows s e : ∃ g, ∀ key, flows (failPath ρ s e).1 !! key = relayed g <$> flows e !! key ∨ flows (failPath ρ s e).1 = flows e.
Proof using.
  unfold failPath. destruct (state_of s e) as [st|]; [|exists 0; auto]. destruct (negb _); [exists 0; auto|].
  exists (PeerGeneration (offer st)). intros key. left. cbn [fst]. rewrite relay_flows_lookup.
  unfold forget_active, on_state. by case_bool_decide; destruct (active st).
Qed.

Lemma kept_fail now s e : relay_kept now e (failPath ρ s e).1.
Proof using.
  destruct (fail_flows s e) as [g Hg]. intros key route Hk Hd.
  destruct (Hg key) as [E|E]; [|by apply (kept_same now e _ E)]. left. rewrite E, Hk. exists route. split; [|done].
  cbn [fmap option_fmap option_map]. unfold relayed. by rewrite Hd.
Qed.

Lemma revoke_flows revocation e :
  (∀ key, flows (Revoke ρ revocation e).1 !! key = relayed (PathGeneration revocation) <$> flows e !! key) ∨
  flows (Revoke ρ revocation e).1 = flows e.
Proof using.
  unfold Revoke. destruct (_ ≫= _) as [[s st]|]; [|by right]. case_bool_decide; [|by right]. left. intros key.
  cbn [fst]. destruct (forget_active_fields s st ((relayFlowsLocked ρ (PathGeneration revocation)
    (on_state s (λ st, st <| active := false |>) e)) <| offers := delete (PathGeneration revocation)
    (offers (relayFlowsLocked ρ (PathGeneration revocation) (on_state s (λ st, st <| active := false |>) e))) |>))
    as (_ & _ & -> & _). cbn [upd flows]. by rewrite relay_flows_lookup.
Qed.

Lemma dial_flows s address now e : flows (startDial s address now e).1 = flows e.
Proof using.
  unfold startDial. destruct (state_of s e) as [st|]; [|done]. destruct (_ || _); [done|]. destruct (_ && _); [done|].
  destruct (dialing st), (bool_decide _); done.
Qed.

Lemma begin_dial_flows s address now w : flows (ep (begin_dial s address now w)) = flows (ep w).
Proof using.
  unfold begin_dial. pose proof (dial_flows s address now (ep w)) as Hf.
  destruct (startDial _ _ _ _) as [e []]; exact Hf.
Qed.

Lemma kept_send_next now t flow packet start r w :
  changes ρ now (ep w) r.1 → relay_kept (Some now) (ep w) (ep (send_next t flow packet start r w)).
Proof using. intros Hc. unfold send_next. destruct (r.2); by apply kept_changes. Qed.

Lemma kept_inbound_next now t s conn packet flow start r w :
  changes ρ now (ep w) r.1 → relay_kept (Some now) (ep w) (ep (inbound_next t s conn packet flow start r w)).
Proof using. intros Hc. unfold inbound_next. destruct (r.2) as [[]|]; by apply kept_changes. Qed.

Lemma kept_read t s conn frame now w :
  reachable w → relay_kept (Some now) (ep w) (ep (read_datagram ρ t s conn frame now w)).
Proof using.
  intros Hok%path_reachable_ok. unfold read_datagram, state_of.
  destruct (states (ep w) !! s) as [st|] eqn:Hs; cbn [mbind option_bind]; [|by apply kept_same].
  destruct (inbound_packet st frame (ep w)) as [[packet flow]|] eqn:Hp; [|by apply kept_same].
  destruct (inbound_packet_spec _ _ _ _ _ Hp) as (_ & Hsrc & Hdst & _).
  destruct (inbound_enter ρ s flow now (ep w)) as [e r] eqn:E.
  destruct (inbound_enter_spec _ _ _ _ _ _ _ E (ok_paths _ (wo_ep _ Hok)) (ok_routes _ (wo_ep _ Hok))) as [Hc _];
    [by exists st|]. by apply kept_inbound_next.
Qed.

Lemma kept_opening t key flow packet s route start err w :
  threads w !! t = Some (SendOpening key flow packet s route start) → reachable w →
  relay_kept (Some start) (ep w)
    (ep (match renewed s err route start (ep w) with
         | None => goto t (Failing s "flow_registration_failed") w
         | Some route => send_next t flow packet start (send_commit key s flow route start (ep w)) w
         end)).
Proof using.
  intros Ht Hok%path_reachable_ok. destruct (wo_threads _ Hok _ _ Ht) as (Hkey & Hfit & Hheld).
  destruct (renewed s err route start (ep w)) as [route'|] eqn:Hren; [|by apply kept_same].
  destruct (renewed_held _ _ _ _ _ _ _ Hren Hheld) as (Hd & _ & Hheld' & st & Hs & Hact).
  destruct (send_commit key s flow route' start (ep w)) as [e r] eqn:E.
  destruct (send_commit_spec ρ _ _ _ _ _ _ _ _ E Hd) as [Hc Hr];
    [by eapply held_current; [apply Hok|..]|]. by apply kept_send_next.
Qed.

Lemma kept_inbound_opening t s conn packet flow key route start err w :
  threads w !! t = Some (InboundOpening s conn packet flow key route start) → reachable w →
  relay_kept (Some start) (ep w)
    (ep (match renewed s err route start (ep w) with
         | None => goto t (Reading s conn) w
         | Some route =>
           let '(e, ok) := inbound_commit key flow route start (ep w) in
           inbound_next t s conn packet flow start (e, InboundReturns ok) w
         end)).
Proof using.
  intros Ht Hok%path_reachable_ok. destruct (wo_threads _ Hok _ _ Ht) as (Hparse & Hkey & Hfrom & Hheld).
  destruct (renewed s err route start (ep w)) as [route'|] eqn:Hren; [|by apply kept_same].
  destruct (renewed_held _ _ _ _ _ _ _ Hren Hheld) as (Hd & _ & Hheld' & st & Hs & Hact).
  destruct (inbound_commit key flow route' start (ep w)) as [e ok] eqn:E.
  assert (Hg : generation route' = PeerGeneration (offer st)) by (destruct Hheld' as (_ & st' & ? & ? & _); by simplify_eq).
  destruct (inbound_commit_spec ρ _ _ _ _ s st _ _ _ E Hd) as [Hc Hr]; try done;
    [by eapply held_current; [apply Hok|..]|apply Hok|]. by apply kept_inbound_next.
Qed.

Lemma candidate_flows t s candidates rest attempt resolved now w :
  flows (ep (probe_candidate hmac t s candidates rest attempt resolved now w)) = flows (ep w).
Proof using.
  unfold probe_candidate. destruct rest as [|candidate rest]; [by destruct (_ =? _)|].
  destruct (count_probe s candidate now (ep w)) as [e|] eqn:Hp, (state_of s (ep w)); try done.
  assert (Hf : flows e = flows (ep w)).
  { unfold count_probe in Hp. destruct (state_of _ _); [|done]. destruct (_ || _); [done|]. by simplify_eq. }
  case_match; exact Hf.
Qed.

Lemma publish_flows t s conn accepted now w : flows (ep (publish t s conn accepted now w)) = flows (ep w).
Proof using.
  unfold publish. destruct (publishConnection s conn now (ep w)) as [e published] eqn:Ep.
  assert (Hf : flows e = flows (ep w)).
  { unfold publishConnection in Ep. destruct (state_of _ _); [destruct (_ || _)|]; by simplify_eq. }
  destruct published; [destruct (state_of s e)|]; exact Hf.
Qed.

Lemma redial_flows t s candidate now w : flows (ep (redial t s candidate now w)) = flows (ep w).
Proof using.
  unfold redial.
  assert (Hf : flows (ep (match candidate with Some address => begin_dial s address now w | None => w end)) = flows (ep w))
    by (destruct candidate; [apply begin_dial_flows|done]).
  destruct (state_of _ _); [|exact Hf]. unfold startProbeChecks. by case_bool_decide.
Qed.

Lemma kept_thread t pc input now w w' :
  threads w !! t = Some pc → thread_step hmac ρ t pc input now w = Some w' → reachable w →
  relay_kept (clock (DoThread t input now) w) (ep w) (ep w').
Proof using.
  intros Ht E Hreach. cbn [clock]. rewrite Ht.
  destruct pc, input; cbn [thread_step] in E; try discriminate E; try (injection E as <-).
  all: try exact (kept_opening _ _ _ _ _ _ _ false _ Ht Hreach).
  all: try exact (kept_opening _ _ _ _ _ _ _ true _ Ht Hreach).
  all: try exact (kept_inbound_opening _ _ _ _ _ _ _ _ false _ Ht Hreach).
  all: try exact (kept_inbound_opening _ _ _ _ _ _ _ _ true _ Ht Hreach).
  all: try (by apply kept_read). all: try (by apply kept_same).
  { unfold fail_thread. pose proof (kept_fail None s (ep w)) as Hk. destruct (failPath ρ s (ep w)) as [e current].
    destruct (state_of s e); [destruct (_ && _)|]; exact Hk. }
  all: apply kept_same.
  all: auto using candidate_flows, publish_flows, redial_flows, begin_dial_flows.
  - unfold probe_check. by repeat case_match.
  - by destruct (cancelled (ep w)); simplify_eq.
  - unfold startProbeChecks. by repeat case_match.
  - by destruct (cancelled (ep w)); simplify_eq.
  - by repeat case_match; simplify_eq.
  - by destruct (cancelled (ep w)); simplify_eq.
  - unfold read_signal. by repeat case_match.
  - apply begin_dial_flows.
  - unfold dial_failed in E. repeat case_match; by simplify_eq.
  - by case_match.
Qed.

Lemma kept_step a w w' :
  step a w = Some w' → reachable w → a ≠ DoClose → relay_kept (clock a w) (ep w) (ep w').
Proof using.
  intros E Hreach Hne. destruct a; cbn [PeerEndpoint.step] in E; try done.
  - injection E as <-. destruct (send_enter ρ flow packet now (ep w)) as [e r] eqn:Es.
    destruct (send_enter_spec _ _ _ _ _ _ _ Es) as [Hc Hr]; [by apply path_reachable_ok in Hreach as [[] _ _ _ _ _]..|].
    unfold send_next. destruct r; by apply kept_changes.
  - injection E as <-. apply kept_changes, mark_relay_changes.
  - injection E as <-. apply kept_same. unfold apply_offer, ApplyOffer, startProbeChecks. by repeat case_match; simplify_eq.
  - destruct (Activate activation (ep w)) as [e|] eqn:Ea; [|done]. injection E as <-. apply kept_same.
    unfold Activate in Ea. destruct (offers _ !! _); [|done]. cbn [mbind option_bind] in Ea.
    destruct (state_of _ _); [|done]. cbn [mbind option_bind] in Ea. destruct (_ || _); by simplify_eq.
  - destruct (revoke_flows revocation (ep w)) as [Hf|Hf]; destruct (Revoke ρ revocation (ep w)) as [e conn]; injection E as <-;
      [by eapply kept_relayed|by apply kept_same].
  - injection E as <-. by apply kept_same.
  - injection E as <-. by apply kept_same.
  - destruct (threads w !! t) as [pc|] eqn:Ht; [|done]. by eapply kept_thread.
Qed.

(** ** Properties *)

(** Direct paths, accounting and authority.  In every reachable endpoint
    the admission of each pair of addresses counts exactly the direct flows
    between them, within the quota of a pair and the size of the table; a
    direct flow belongs to the current, active offer of its generation, and was
    opened by this client or by the peer on a port that the offer exposes;
    the index of active paths names only active offers that have a connection. *)
Theorem direct_flows_accounted w :
  reachable w →
  (∀ p, live (admission (ep w)) p = tally direct_charged (flows (ep w)) p ∧
        tally direct_charged (flows (ep w)) p <= MaximumPairFlows) ∧
  Z.of_nat (size (flows (ep w))) <= peerMaximumTrackedFlows ∧
  (∀ key route, flows (ep w) !! key = Some route → direct route = true →
     ∃ s st, offers (ep w) !! generation route = Some s ∧ states (ep w) !! s = Some st ∧ active st = true ∧
             authority (offer st) (virtualIP (ep w)) key route) ∧
  (∀ ip s, activeByIP (ep w) !! ip = Some s →
     ∃ st, states (ep w) !! s = Some st ∧ active st = true ∧ offer_ip (offer st) = ip ∧ is_Some (connection st) ∧
           offers (ep w) !! PeerGeneration (offer st) = Some s).
Proof using.
  intros [[Ha Hr Hp] _ _ _ _ _]%path_reachable_ok. split_and!; [|apply Ha| |].
  - intros p. split; [apply Ha|]. rewrite <- (fa_pairs _ Ha). unfold live.
    destruct (pairs (admission (ep w)) !! p) as [b|] eqn:E; simpl; [|unfold MaximumPairFlows; lia].
    by apply (fa_admission _ Ha p b).
  - intros key route Hk Hd. destruct (Hr _ _ Hk Hd) as (s & st & ? & ? & ? & _ & ?). by exists s, st.
  - intros ip s Hi. destruct (po_index _ Hp _ _ Hi) as (st & Hs & Hact & Hip).
    destruct (po_active _ Hp _ _ Hs Hact) as [Ho Hc]. by exists st.
Qed.


(** A flow on the relay stays there: as long as it has not been idle for
    its whole timeout no step makes it direct, [Send] leaves its packets to the
    relay and packets of the flow that arrive on a direct path are refused. *)
Theorem relayed_flows_pinned a w w' key route :
  reachable w → step a w = Some w' → flows (ep w) !! key = Some route → direct route = false →
  (a = DoClose ∨ (∃ route', flows (ep w') !! key = Some route' ∧ direct route' = false) ∨
   (∃ now, clock a w = Some now ∧ expiresAt route <= now)) ∧
  (∀ flow packet now, peerFlowKey flow = Some key → now < expiresAt route →
     (send_enter ρ flow packet now (ep w)).2 = SendReturns false) ∧
  (∀ s flow now, peerFlowKey flow = Some key → now < expiresAt route →
     (inbound_enter ρ s flow now (ep w)).2 = InboundReturns false).
Proof using.
  intros Hw E Hk Hd.
  assert (Hlook : ∀ flow now, peerFlowKey flow = Some key → now < expiresAt route →
    ∃ route', flowLocked key now (expireFlowsLocked ρ now (ep w)) = (expireFlowsLocked ρ now (ep w), Some route') ∧
              direct route' = false).
  { intros flow now _ Hnow. assert (Hi : idle now route = false) by (unfold idle, Before; by rewrite (proj2 (Z.ltb_lt _ _))).
    destruct (changes_pinned ρ _ _ _ (expire_changes ρ now (ep w)) key route Hk Hd Hi) as (r & Hr & Hrd & Hri).
    exists r. unfold flowLocked. by rewrite Hr, Hri. }
  split_and!.
  - assert (a = DoClose ∨ a ≠ DoClose) as [|Hne] by (destruct a; auto); [by left|]. right. exact (kept_step _ _ _ E Hw Hne key route Hk Hd).
  - intros flow packet now Hkey Hnow. destruct (Hlook _ _ Hkey Hnow) as (r & Hr & Hrd).
    unfold send_enter. rewrite Hkey. destruct (_ || _); [done|]. by rewrite Hr, Hrd.
  - intros s flow now Hkey Hnow. destruct (Hlook _ _ Hkey Hnow) as (r & Hr & Hrd).
    unfold inbound_enter. rewrite Hkey. destruct (state_of s (ep w)); [|done]. destruct (_ || _); [done|].
    rewrite Hr. unfold inbound_route. by rewrite Hrd.
Qed.

(** Revoking a generation ends exactly its path: the offer and its active
    entry are gone and every other one stays, the flows that used the path are
    handed to the relay, every other flow is untouched, their capacity is given
    back and the connection is closed. *)
Theorem revocation_exact w g s st :
  reachable w → offers (ep w) !! g = Some s → states (ep w) !! s = Some st →
  let r := Revoke ρ {| PathGeneration := g; PathClientID := PeerClientID (offer st) |} (ep w) in
  r.2 = connection st ∧
  offers r.1 = delete g (offers (ep w)) ∧
  (∀ ip s', activeByIP r.1 !! ip = Some s' ↔ activeByIP (ep w) !! ip = Some s' ∧ s' ≠ s) ∧
  (∀ key, flows r.1 !! key =
     (λ route, if direct route && (generation route =? g)
               then route <| direct := false |> <| generation := 0 |> else route) <$> flows (ep w) !! key) ∧
  (∀ p, live (admission r.1) p = tally direct_charged (flows r.1) p).
Proof using.
  intros Hw%path_reachable_ok Ho Hs. cbv zeta.
  destruct (revoke_ok ρ {| PathGeneration := g; PathClientID := PeerClientID (offer st) |} (ep w) (wo_ep _ Hw)) as [[Ha _ _] _].
  pose proof (forget_active_spec s st (ep w) (ok_paths _ (wo_ep _ Hw)) Hs) as Hidx.
  revert Ha. unfold Revoke. cbn [PathGeneration PathClientID]. rewrite Ho. cbn [mbind option_bind]. unfold state_of.
  rewrite Hs. cbn [mbind option_bind]. rewrite bool_decide_eq_true_2 by done. cbn [fst snd].
  set (e1 := on_state s (λ st0, st0 <| active := false |>) (ep w)).
  pose proof (changes_paths _ _ _ _ (relay_changes ρ 0 g e1)) as Hsp.
  pose proof (relay_flows_lookup ρ g e1) as Hfl. set (e2 := relayFlowsLocked ρ g e1) in *.
  set (e3 := e2 <| offers := delete g (offers e2) |>).
  destruct (forget_active_fields s st e3) as (_ & Fo & Ff & _). intros Ha. split_and!.
  - done.
  - rewrite Fo. unfold e3. cbn [upd offers]. by rewrite (sp_offers _ _ Hsp).
  - intros ip s'. rewrite <- Hidx. unfold forget_active. change (activeByIP e3) with (activeByIP e2).
    assert (E : activeByIP e2 = activeByIP (ep w)) by apply (sp_active _ _ Hsp). rewrite E.
    case_bool_decide; cbn [upd activeByIP]; [done|]. change (activeByIP e3) with (activeByIP e2). by rewrite E.
  - intros key. rewrite Ff. exact (Hfl key).
  - apply Ha.
Qed.

(** A closed endpoint has no offer, no active path and no direct flow, and
    none comes back whatever messages, packets and timers arrive later. *)
Theorem closed_endpoint_inert w :
  reachable w → closed w = true →
  offers (ep w) = ∅ ∧ activeByIP (ep w) = ∅ ∧
  (∀ key route, flows (ep w) !! key = Some route → direct route = false) ∧
  (∀ p, live (admission (ep w)) p = 0).
Proof using.
  intros Hw%path_reachable_ok Hc. destruct (wo_closed _ Hw Hc) as [_ Ho]. destruct (wo_ep _ Hw) as [Ha Hr Hp].
  assert (Hdir : ∀ key route, flows (ep w) !! key = Some route → direct route = false).
  { intros key route Hk. destruct (direct route) eqn:Hd; [|done].
    destruct (Hr _ _ Hk Hd) as (s & st & Hof & _). rewrite Ho in Hof. done. }
  split_and!; [done| |done|].
  - apply map_empty. intros ip. destruct (activeByIP (ep w) !! ip) as [s|] eqn:Hi; [|done].
    destruct (po_index _ Hp _ _ Hi) as (st & Hs & Hact & _). destruct (po_active _ Hp _ _ Hs Hact) as [Hof _].
    rewrite Ho in Hof. done.
  - intros p. rewrite (fa_pairs _ Ha). unfold tally.
    rewrite map_empty_filter_2; [by rewrite map_size_empty|].
    intros key route Hk [Hd _]. cbn in Hd. by rewrite (Hdir _ _ Hk) in Hd.
Qed.

(** A datagram is read as it was written: what a goroutine of [Send] is
    about to write carries the generation of its offer and a packet within the
    MTU, and the other end of the path, with the same generation and an MTU at
    least as large, reads exactly that packet. *)
Theorem datagrams_intact w t s conn g packet :
  reachable w → threads w !! t = Some (SendWriting s conn g packet) →
  ∃ st, states (ep w) !! s = Some st ∧ connection st = Some conn ∧ PeerGeneration (offer st) = g ∧
    ∀ mtu', mtu (ep w) <= mtu' < 2 ^ 16 → read_frame g mtu' (datagram_frame g packet) = Some packet.
Proof using.
  intros Hw%path_reachable_ok Ht. destruct (wo_threads _ Hw _ _ Ht) as ([Hne Hlen] & st & Hs & Hc & ->).
  exists st. split_and!; [done..|]. intros mtu' Hm. pose proof (wo_generation _ Hw _ _ Hs).
  apply datagram_frame_read; [done|lia|]. destruct packet; [done|]. cbn [length] in *. lia.
Qed.
End safety.

(** ** Witnesses

    Client "a" accepts a connection from "b", which may reach its UDP port 53;
    after the activation a packet from "b" is delivered and one is sent back. *)

Module DemoPeer.
Definition decode (s : string) : option (list byte) := Some (replicate 16 x01).

Definition offer_b : VNetPeerOffer :=
  {| PeerGeneration := 7; PeerClientID := "b"; PeerVirtualIP := "10.0.0.2"; PeerFingerprint := "f";
     PairTicket := "t"; PeerRole := VNetPeerRoleServer; Candidates := []; InboundTCP := [];
     InboundUDP := [{| Start := 53; End_ := 53 |}]; ExpiresAtUnixMS := 1000 |}.

Definition t0 : Time := unixEpoch.

(** UDP from 10.0.0.2:4000 to 10.0.0.1:53, and the answer *)
Definition packet_in : list byte :=
  [x45; x00; x00; x1c; x00; x00; x00; x00; x40; x11; x00; x00; x0a; x00; x00; x02; x0a; x00; x00; x01;
   x0f; xa0; x00; x35; x00; x08; x00; x00].
Definition packet_out : list byte :=
  [x45; x00; x00; x1c; x00; x00; x00; x00; x40; x11; x00; x00; x0a; x00; x00; x01; x0a; x00; x00; x02;
   x00; x35; x0f; xa0; x00; x08; x00; x00].

Definition flow_of (packet : list byte) : Flow := match ParseIPv4 packet with Ok f => f | Err _ => zero_flow end.

Definition steps (l : list Action) : option World :=
  foldl (λ w a, w ≫= step (H := Dotted.text) decode demo_hmac any_ranges a)
    (start (H := Dotted.text) "a" "10.0.0.1" 1400) l.

(** Threads: 0 accepts, 1 reads signals, 3 and 4 are timers of the offer (state
    2), 5 reads the connection, 6 is the call of [Send]. *)
Definition history : list Action :=
  [DoApplyOffer offer_b t0; DoThread 0 (Incoming 9 "p7") t0; DoThread 0 Proceed t0;
   DoActivate {| PathGeneration := 7; PathClientID := "b" |};
   DoThread 5 (Frame (datagram_frame 7 packet_in)) t0; DoThread 5 Proceed t0;
   DoSend (flow_of packet_out) packet_out t0].

Definition busy_ok : is_some (steps history) = true := ltac:(vm_compute; reflexivity).
Definition busy : World := from_some (steps history) busy_ok.

Lemma steps_reachable l w :
  steps l = Some w → Forall action_typed l → reachable (H := Dotted.text) decode demo_hmac any_ranges w.
Proof.
  revert w. induction l as [|a l IH] using rev_ind; intros w.
  - intros E _. eapply (reachable_start (H := Dotted.text)); [exact E|lia].
  - unfold steps. rewrite foldl_app. cbn [foldl]. fold (steps l). intros E [Hl Ha]%Forall_app. rewrite Forall_singleton in Ha.
    destruct (steps l) as [w0|] eqn:E0; [|done]. eapply (reachable_step (H := Dotted.text)); [by apply IH|exact Ha|exact E].
Qed.

Lemma busy_reachable : reachable (H := Dotted.text) decode demo_hmac any_ranges busy.
Proof.
  apply (steps_reachable history); [apply from_some_eq|].
  repeat constructor. all: cbn; lia.
Qed.

(** The same endpoint after a revocation, and after closing. *)
Definition revoked : World :=
  from_some (steps (history ++ [DoRevoke {| PathGeneration := 7; PathClientID := "b" |}])) ltac:(vm_compute; reflexivity).
Lemma revoked_reachable : reachable (H := Dotted.text) decode demo_hmac any_ranges revoked.
Proof.
  apply (steps_reachable (history ++ [DoRevoke {| PathGeneration := 7; PathClientID := "b" |}])); [apply from_some_eq|].
  repeat constructor. all: cbn; lia.
Qed.

Definition shut : World := from_some (steps (history ++ [DoCancel; DoClose])) ltac:(vm_compute; reflexivity).
Lemma shut_reachable : reachable (H := Dotted.text) decode demo_hmac any_ranges shut.
Proof.
  apply (steps_reachable (history ++ [DoCancel; DoClose])); [apply from_some_eq|].
  repeat constructor. all: cbn; lia.
Qed.

Definition key : list byte := from_some (peerFlowKey (flow_of packet_in)) ltac:(vm_compute; reflexivity).
Definition relay_ok : is_some (flows (ep revoked) !! key) = true := ltac:(vm_compute; reflexivity).
Definition relay_route : peerFlowRoute := from_some (flows (ep revoked) !! key) relay_ok.
Definition state_ok : is_some (states (ep busy) !! 2%nat) = true := ltac:(vm_compute; reflexivity).
Definition state_b : peerOfferState := from_some (states (ep busy) !! 2%nat) state_ok.
End DemoPeer.

Lemma direct_flows_accounted_witness :
  ∃ route, flows (ep DemoPeer.busy) !! DemoPeer.key = Some route ∧ direct route = true ∧
    ∃ s st, offers (ep DemoPeer.busy) !! generation route = Some s ∧ states (ep DemoPeer.busy) !! s = Some st ∧
            active st = true ∧ authority (H := Dotted.text) (offer st) (virtualIP (ep DemoPeer.busy)) DemoPeer.key route.
Proof.
  eexists. split; [vm_compute; reflexivity|]. split; [reflexivity|].
  apply (direct_flows_accounted (H := Dotted.text) _ _ _ _ DemoPeer.busy_reachable); vm_compute; reflexivity.
Defined.


Lemma relayed_flows_pinned_witness :
  ∃ route, flows (ep DemoPeer.revoked) !! DemoPeer.key = Some route ∧ direct route = false ∧
    (send_enter any_ranges (DemoPeer.flow_of DemoPeer.packet_out) DemoPeer.packet_out DemoPeer.t0
       (ep DemoPeer.revoked)).2 = SendReturns false.
Proof.
  eexists. split; [vm_compute; reflexivity|]. split; [reflexivity|].
  apply (relayed_flows_pinned (H := Dotted.text) DemoPeer.decode demo_hmac any_ranges DoCancel DemoPeer.revoked
    (set_ep ((ep DemoPeer.revoked) <| cancelled := true |>) DemoPeer.revoked) DemoPeer.key
    DemoPeer.relay_route
    DemoPeer.revoked_reachable eq_refl); vm_compute; reflexivity.
Defined.

Lemma revocation_exact_witness :
  ∃ s st, offers (ep DemoPeer.busy) !! 7 = Some s ∧ states (ep DemoPeer.busy) !! s = Some st ∧
    (Revoke (H := Dotted.text) any_ranges {| PathGeneration := 7; PathClientID := PeerClientID (offer st) |}
       (ep DemoPeer.busy)).2 = connection st ∧ connection st = Some 9%nat.
Proof.
  assert (Ho : offers (ep DemoPeer.busy) !! 7 = Some 2%nat) by (vm_compute; reflexivity).
  assert (Hs : states (ep DemoPeer.busy) !! 2%nat = Some DemoPeer.state_b) by (vm_compute; reflexivity).
  exists 2%nat, DemoPeer.state_b. split; [exact Ho|]. split; [exact Hs|]. split; [|vm_compute; reflexivity].
  exact (proj1 (revocation_exact (H := Dotted.text) DemoPeer.decode demo_hmac any_ranges DemoPeer.busy 7 2%nat
    DemoPeer.state_b DemoPeer.busy_reachable Ho Hs)).
Defined.

Lemma closed_endpoint_inert_witness : closed DemoPeer.shut = true ∧ offers (ep DemoPeer.shut) = ∅.
Proof.
  assert (Hc : closed DemoPeer.shut = true) by (vm_compute; reflexivity). split; [exact Hc|].
  apply (closed_endpoint_inert (H := Dotted.text) _ _ _ _ DemoPeer.shut_reachable Hc).
Defined.

Lemma datagrams_intact_witness :
  threads DemoPeer.busy !! 6%nat = Some (SendWriting 2 9 7 DemoPeer.packet_out) ∧
  read_frame 7 1500 (datagram_frame 7 DemoPeer.packet_out) = Some DemoPeer.packet_out.
Proof.
  assert (Ht : threads DemoPeer.busy !! 6%nat = Some (SendWriting 2 9 7 DemoPeer.packet_out)) by (vm_compute; reflexivity).
  split; [exact Ht|].
  destruct (datagrams_intact (H := Dotted.text) _ _ _ _ _ _ _ _ _ DemoPeer.busy_reachable Ht) as (st & _ & _ & _ & Hread).
  apply Hread. vm_compute. split; [discriminate|reflexivity].
Defined.
