(* ===== verification/PoolBroker.v ===== *)
(** * Channel pools of the virtual network ([internal/vnet/pool.go], [pool_queue.go])

    A client carries its packets over a pool of one to eight data streams.  The
    broker prepares a pool with one ticket per stream, streams claim their
    places, and the pool replaces the previous one when all are acknowledged.
    Packets towards a client wait in one bounded queue per stream, served by a
    writer goroutine.

    Pending pools are shared by pointer between the broker's table and the
    calls of [Bind], so they live in a heap; an activated pool keeps the name
    of the pending pool it came from and shares its channel [done].  The broker
    is one record behind one mutex, the queues of a pool are behind the pool's
    own.  [step] interleaves the critical sections of all calls, the timers and
    the writers. *)

From S2P Require Import Prelude GoTime NetAddr GoIO Authentication.

Local Open Scope Z_scope.

Definition vnetChannelTicketBytes : nat := 32.
Definition poolQueuedPackets : nat := 64.

Record PoolSpec := {
  SpecClientID : string;
  SpecSessionID : string;
  SpecTransportGeneration : Z;
  SpecVirtualIP : string;
  SpecPoolGeneration : Z;
  SpecChannelCount : Z;
  SpecMTU : Z;
  SpecWriteTimeout : Duration;
  SpecAuthentication : Context
}.

(** [protocol.BindVNetChannel] and [protocol.OpenVNetChannel] *)
Record BindVNetChannel := {
  BindClientID : string;
  BindSessionID : string;
  BindTransportGeneration : Z;
  BindVirtualIP : string;
  BindPoolGeneration : Z;
  BindChannelIndex : nat;
  BindChannelCount : Z;
  BindTicket : string
}.
Record OpenVNetChannel := {
  OpenPoolGeneration : Z;
  OpenChannelIndex : nat;
  OpenChannelCount : Z;
  OpenTicket : string;
  OpenExpiresAtUnixMS : Z
}.

Record pendingChannel := {
  ticketDigest : list byte;
  connection : option nat;
  ready : bool
}.
#[export] Instance eta_pendingChannel : Eta pendingChannel :=
  λ c, {| ticketDigest := ticketDigest c; connection := connection c; ready := ready c |}.

Record pendingPool := {
  spec : PoolSpec;
  channels : list pendingChannel;
  expiresAt : Time;
  released : bool                        (** [closeOnce] has run: [done] is closed *)
}.
#[export] Instance eta_pendingPool : Eta pendingPool :=
  λ p, {| spec := spec p; channels := channels p; expiresAt := expiresAt p; released := released p |}.

(** A queued packet; [guard] names the callback [authorized]. *)
Record queuedPacket := {
  payload : list byte;
  deadline : Time;
  guard : nat
}.

(** Where the writer of one queue is. *)
Inductive WriterPc :=
| Waiting                                (** at the outer [select] *)
| Took (q : queuedPacket)                (** received, the counter not yet decremented *)
| Checking (q : queuedPacket)            (** at the second look at [done] *)
| Guarding (q : queuedPacket) (t : Time) (** in [authorized]; the deadline was checked at [t] *)
| Sending (q : queuedPacket)             (** in [SendUntil] *)
| Stopping                               (** the write failed: before [pool.stop] *)
| Draining                               (** in the deferred loop *)
| Drained                                (** in that loop, the counter not yet decremented *)
| Finished.

Record Pool := {
  pool_spec : PoolSpec;
  connections : list nat;
  queues : list (list queuedPacket);
  writers : list WriterPc;
  done : bool
}.
#[export] Instance eta_Pool : Eta Pool :=
  λ p, {| pool_spec := pool_spec p; connections := connections p; queues := queues p;
          writers := writers p; done := done p |}.

Record packetQueueCounters := {
  queued : Z;
  rejected : Z;
  expired : Z;
  revoked : Z;
  writeFailed : Z
}.
#[export] Instance eta_counters : Eta packetQueueCounters :=
  λ c, {| queued := queued c; rejected := rejected c; expired := expired c; revoked := revoked c;
          writeFailed := writeFailed c |}.

Record PoolBroker := {
  counters : packetQueueCounters;
  pendings : gmap nat pendingPool;       (** the heap *)
  pools : gmap nat Pool;                 (** activated pools, by the name of their pending pool *)
  pending : gmap string nat;
  active : gmap string nat;
  closed : bool
}.
#[export] Instance eta_PoolBroker : Eta PoolBroker :=
  λ b, {| counters := counters b; pendings := pendings b; pools := pools b; pending := pending b;
          active := active b; closed := closed b |}.

Definition NewPoolBroker : PoolBroker :=
  {| counters := {| queued := 0; rejected := 0; expired := 0; revoked := 0; writeFailed := 0 |};
     pendings := ∅; pools := ∅; pending := ∅; active := ∅; closed := false |}.

Inductive PoolError :=
| InvalidSpec
| InvalidLifetime
| TicketsUnavailable
| BrokerClosed
| InvalidTicket
| InvalidBinding
| ErrNetClosed
| ErrInvalidPacket
| ErrPacketQueueFull.
#[export] Instance pool_error_eq_dec : EqDecision PoolError.
Proof. solve_decision. Defined.

(** ** Preparing *)

Definition valid_spec (spec : PoolSpec) : bool :=
  negb (bool_decide (SpecClientID spec = "") || bool_decide (SpecSessionID spec = "") ||
        bool_decide (SpecVirtualIP spec = "") || (SpecPoolGeneration spec =? 0) ||
        (SpecChannelCount spec <? 1) || (8 <? SpecChannelCount spec) || (SpecMTU spec <? 68) ||
        (SpecWriteTimeout spec <=? 0)).

Section broker.
(** [base64.RawURLEncoding] and [sha256.Sum256] *)
Context (EncodeToString : list byte → string) (DecodeString : string → option (list byte)).
Context (sha256 : list byte → list byte).

Definition new_pending (spec : PoolSpec) (tickets : list (list byte)) (expiresAt : Time) : pendingPool :=
  {| spec := spec;
     channels := (λ t, {| ticketDigest := sha256 t; connection := None; ready := false |}) <$> tickets;
     expiresAt := expiresAt; released := false |}.

Definition channel_offers (spec : PoolSpec) (tickets : list (list byte)) (expiresAt : Time) :
    list OpenVNetChannel :=
  imap (λ i t, {| OpenPoolGeneration := SpecPoolGeneration spec; OpenChannelIndex := i;
                  OpenChannelCount := SpecChannelCount spec; OpenTicket := EncodeToString t;
                  OpenExpiresAtUnixMS := UnixMilli expiresAt |}) tickets.

(** [Prepare]: [tickets] is what [rand.Read] yields, one per channel, or [None]
    when it fails; [p] is the name of the new pool.  The result also names the
    pending pool that is to be closed. *)
Definition Prepare (spec : PoolSpec) (lifetime : Duration) (tickets : option (list (list byte))) (p : nat)
    (now : Time) (b : PoolBroker) : PoolBroker * result PoolError (list OpenVNetChannel * option nat) :=
  if negb (valid_spec spec) then (b, Err InvalidSpec)
  else if lifetime <=? 0 then (b, Err InvalidLifetime)
  else
    match tickets with
    | None => (b, Err TicketsUnavailable)
    | Some tickets =>
      let expires := Add now lifetime in
      if closed b then (b, Err BrokerClosed)
      else
        (b <| pendings := <[p := new_pending spec tickets expires]> (pendings b) |>
           <| pending := <[SpecClientID spec := p]> (pending b) |>,
         Ok (channel_offers spec tickets expires, pending b !! SpecClientID spec))
    end.

(** ** Binding *)

Definition bindingMatchesPool (binding : BindVNetChannel) (spec : PoolSpec) (auth : Context) : bool :=
  bool_decide (BindClientID binding = SpecClientID spec) &&
  bool_decide (BindSessionID binding = SpecSessionID spec) &&
  (BindTransportGeneration binding =? SpecTransportGeneration spec) &&
  bool_decide (BindVirtualIP binding = SpecVirtualIP spec) &&
  (BindPoolGeneration binding =? SpecPoolGeneration spec) &&
  (BindChannelCount binding =? SpecChannelCount spec) &&
  bool_decide (auth = SpecAuthentication spec).

Definition on_channel (p i : nat) (f : pendingChannel → pendingChannel) (b : PoolBroker) : PoolBroker :=
  b <| pendings := alter (λ pend, pend <| channels := alter f i (channels pend) |>) p (pendings b) |>.

(** The first critical section of [Bind]: the place is claimed. *)
Definition bind_claim (binding : BindVNetChannel) (auth : Context) (conn : nat) (now : Time) (b : PoolBroker) :
    PoolBroker * result PoolError nat :=
  match DecodeString (BindTicket binding) with
  | None => (b, Err InvalidTicket)
  | Some ticket =>
    if negb (bool_decide (length ticket = vnetChannelTicketBytes)) then (b, Err InvalidTicket)
    else if closed b then (b, Err BrokerClosed)
    else
      match (p ← pending b !! BindClientID binding; pend ← pendings b !! p; Some (p, pend)) with
      | None => (b, Err InvalidBinding)
      | Some (p, pend) =>
        if negb (Before now (expiresAt pend)) || negb (bindingMatchesPool binding (spec pend) auth) then
          (b, Err InvalidBinding)
        else
          match channels pend !! BindChannelIndex binding with
          | None => (b, Err InvalidBinding)
          | Some channel =>
            if is_some (connection channel) || negb (bool_decide (sha256 ticket = ticketDigest channel))
            then (b, Err InvalidBinding)
            else (on_channel p (BindChannelIndex binding) (λ c, c <| connection := Some conn |>) b, Ok p)
          end
      end
  end.

(** [activatePendingPool] *)
Definition activatePendingPool (pend : pendingPool) : Pool :=
  {| pool_spec := spec pend;
     connections := (λ c, default 0%nat (connection c)) <$> channels pend;
     queues := (λ _, []) <$> channels pend;
     writers := (λ _, Waiting) <$> channels pend;
     done := released pend |}.

(** The capacity of the channel that is one queue. *)
Definition queue_capacity (pool : Pool) : nat := (poolQueuedPackets / length (connections pool))%nat.

Inductive BindNext :=
| BindLost                               (** the pool is no longer pending: remove its generation *)
| BindWaits (previous : option nat).     (** the pool replaced, if this stream completed the new one *)

(** The second critical section of [Bind], after the acknowledgement. *)
Definition bind_ready (p : nat) (binding : BindVNetChannel) (ctx_done : bool) (now : Time) (b : PoolBroker) :
    PoolBroker * BindNext :=
  match pendings b !! p with
  | None => (b, BindLost)
  | Some pend =>
    if negb (bool_decide (pending b !! BindClientID binding = Some p)) || ctx_done ||
       negb (Before now (expiresAt pend))
    then (b, BindLost)
    else
      let b := on_channel p (BindChannelIndex binding) (λ c, c <| ready := true |>) b in
      let pend := pend <| channels := alter (λ c, c <| ready := true |>) (BindChannelIndex binding) (channels pend) |> in
      if forallb ready (channels pend) then
        (b <| pending := delete (BindClientID binding) (pending b) |>
           <| pools := <[p := activatePendingPool pend]> (pools b) |>
           <| active := <[BindClientID binding := p]> (active b) |>,
         BindWaits (active b !! BindClientID binding))
      else (b, BindWaits None)
  end.

(** ** Removing *)

Definition owned (client_session : string) (generation : Z) (s : PoolSpec) : bool :=
  bool_decide (SpecSessionID s = client_session) && ((generation =? 0) || (SpecPoolGeneration s =? generation)).

(** [RemoveGeneration] and the pools it closes; generation zero is the whole
    session. *)
Definition RemoveGeneration (clientID sessionID : string) (generation : Z) (b : PoolBroker) :
    PoolBroker * option nat * option nat :=
  let pend := p ← pending b !! clientID; pp ← pendings b !! p;
              if owned sessionID generation (spec pp) then Some p else None in
  let pool := p ← active b !! clientID; pp ← pools b !! p;
              if owned sessionID generation (pool_spec pp) then Some p else None in
  (b <| pending := if is_some pend then delete clientID (pending b) else pending b |>
     <| active := if is_some pool then delete clientID (active b) else active b |>, pend, pool).

Definition Remove (clientID sessionID : string) (b : PoolBroker) : PoolBroker * option nat * option nat :=
  RemoveGeneration clientID sessionID 0 b.

(** The timer of [Prepare]. *)
Definition expire (clientID : string) (generation : Z) (b : PoolBroker) : PoolBroker * option nat :=
  let pend := p ← pending b !! clientID; pp ← pendings b !! p;
              if SpecPoolGeneration (spec pp) =? generation then Some p else None in
  (b <| pending := if is_some pend then delete clientID (pending b) else pending b |>, pend).

(** [Close] and the pools it closes, in the orders of the maps. *)
Definition Close (ρ : go_range string nat) (b : PoolBroker) : PoolBroker * list nat * list nat :=
  if closed b then (b, [], [])
  else (b <| closed := true |> <| pending := ∅ |> <| active := ∅ |>, (ρ (pending b)).*2, (ρ (active b)).*2).

Definition Active (clientID : string) (b : PoolBroker) : option nat := active b !! clientID.

(** [closePendingPool]: [done] is closed and the connections claimed so far
    are closed.  [None] would be a second close of the same channel. *)
Definition closePendingPool (p : nat) (b : PoolBroker) : PoolBroker * list nat :=
  match pendings b !! p with
  | Some pend =>
    if released pend then (b, [])
    else (b <| pendings := <[p := pend <| released := true |>]> (pendings b) |>, omap connection (channels pend))
  | None => (b, [])
  end.

(** [pool.stop] *)
Definition stop (p : nat) (b : PoolBroker) : PoolBroker * list nat :=
  match pools b !! p with
  | Some pool =>
    if done pool then (b, []) else (b <| pools := <[p := pool <| done := true |>]> (pools b) |>, connections pool)
  | None => (b, [])
  end.

(** [pool.Send]: a direct write, whose failure closes the pool. *)
Definition Send (p index : nat) (wrote : bool) (b : PoolBroker) : PoolBroker * list nat :=
  match pools b !! p with
  | Some pool => if (length (connections pool) <=? index)%nat || wrote then (b, []) else stop p b
  | None => (b, [])
  end.

(** ** Queues *)

Definition add_queued (n : Z) (b : PoolBroker) : PoolBroker :=
  b <| counters := (counters b) <| queued := queued (counters b) + n |> |>.

Definition Enqueue (p : nat) (packet : list byte) (index : nat) (g : nat) (now : Time) (b : PoolBroker) :
    PoolBroker * option PoolError :=
  match pools b !! p with
  | None => (b, Some ErrNetClosed)
  | Some pool =>
    if done pool then (b, Some ErrNetClosed)
    else
      match queues pool !! index with
      | None => (b, Some ErrInvalidPacket)
      | Some queue =>
        if bool_decide (packet = []) || (SpecMTU (pool_spec pool) <? Z.of_nat (length packet)) then
          (b, Some ErrInvalidPacket)
        else if bool_decide (length queue = queue_capacity pool) then
          (b <| counters := (counters b) <| rejected := u64 (rejected (counters b) + 1) |> |>, Some ErrPacketQueueFull)
        else
          let q := {| payload := packet; deadline := Add now (SpecWriteTimeout (pool_spec pool)); guard := g |} in
          ((add_queued 1 b) <| pools := <[p := pool <| queues := <[index := queue ++ [q]]> (queues pool) |>]> (pools b) |>, None)
      end
  end.

Definition MatchesSession (sessionID : string) (generation : Z) (pool : Pool) : bool :=
  negb (generation =? 0) && bool_decide (SpecSessionID (pool_spec pool) = sessionID) &&
  (SpecPoolGeneration (pool_spec pool) =? generation).

(** What happens around a writer. *)
Inductive WriterInput :=
| SawDone                                (** [<-pool.done] is chosen *)
| Receive                                (** a packet is received, or a step without choice is made *)
| Authorized (answer : bool)             (** [packet.authorized()] answers *)
| Wrote (ok : bool).                     (** [SendUntil] returns *)

Inductive Event :=
| EvClosed (conn : nat)
| EvClaimed (p i conn : nat) (binding : BindVNetChannel) (auth : Context) (ticket : list byte)
| EvQueued (p i : nat) (q : queuedPacket)
| EvSending (p i : nat) (q : queuedPacket) (now : Time).

Definition set_writer (p i : nat) (pool : Pool) (pc : WriterPc) (b : PoolBroker) : PoolBroker :=
  b <| pools := <[p := pool <| writers := <[i := pc]> (writers pool) |>]> (pools b) |>.

Definition count_expired (b : PoolBroker) : PoolBroker :=
  b <| counters := (counters b) <| expired := u64 (expired (counters b) + 1) |> |>.
Definition count_revoked (b : PoolBroker) : PoolBroker :=
  b <| counters := (counters b) <| revoked := u64 (revoked (counters b) + 1) |> |>.
Definition count_failed (b : PoolBroker) : PoolBroker :=
  b <| counters := (counters b) <| writeFailed := u64 (writeFailed (counters b) + 1) |> |>.

(** The head of a queue is received. *)
Definition receive (p i : nat) (pool : Pool) (pc : queuedPacket → WriterPc) (b : PoolBroker) : option PoolBroker :=
  match queues pool !! i with
  | Some (q :: rest) => Some (set_writer p i (pool <| queues := <[i := rest]> (queues pool) |>) (pc q) b)
  | _ => None
  end.

(** One step of the writer goroutine of queue [i] ([startWriters]). *)
Definition writer_step (p i : nat) (input : WriterInput) (now : Time) (b : PoolBroker) :
    option (PoolBroker * list Event) :=
  pool ← pools b !! p;
  pc ← writers pool !! i;
  let goto pc b := set_writer p i pool pc b in
  match pc, input with
  | Waiting, SawDone => if done pool then Some (goto Draining b, []) else None
  | Waiting, Receive => b ← receive p i pool Took b; Some (b, [])
  | Took q, Receive => Some (goto (Checking q) (add_queued (-1) b), [])
  | Checking q, SawDone => if done pool then Some (goto Draining b, []) else None
  | Checking q, Receive =>
    if done pool then None
    else if negb (Before now (deadline q)) then Some (goto Waiting (count_expired b), [])
    else Some (goto (Guarding q now) b, [])
  | Guarding q t, Authorized answer =>
    if answer then Some (goto (Sending q) b, [EvSending p i q t])
    else Some (goto Waiting (count_revoked b), [])
  | Sending q, Wrote true => Some (goto Waiting b, [])
  | Sending q, Wrote false => Some (goto Stopping (count_failed b), [])
  | Stopping, Receive =>
    let '(b, closes) := stop p (goto Draining b) in Some (b, EvClosed <$> closes)
  | Draining, Receive =>
    match queues pool !! i with
    | Some (_ :: _) => b ← receive p i pool (λ _, Drained) b; Some (b, [])
    | _ => Some (goto Finished b, [])
    end
  | Drained, Receive => Some (goto Draining (add_queued (-1) b), [])
  | _, _ => None
  end.

(** ** Calls *)

Inductive Pc :=
| Acking (p : nat) (binding : BindVNetChannel)       (** [onBound] runs *)
| Acked (p : nat) (binding : BindVNetChannel)        (** before the second section *)
| Removing (binding : BindVNetChannel)               (** about to call [RemoveGeneration] *)
| Bound (p : nat) (binding : BindVNetChannel)        (** waiting for the end of the pool *)
| ClosingPending (p : nat)
| ClosingPool (p : nat).

Record World := {
  broker : PoolBroker;
  threads : gmap nat Pc;
  next : nat;                                        (** never used for a pool or a thread *)
  events : list Event
}.
#[export] Instance eta_World : Eta World :=
  λ w, {| broker := broker w; threads := threads w; next := next w; events := events w |}.

Definition set_broker (b : PoolBroker) (w : World) : World := w <| broker := b |>.
Definition emit (evs : list Event) (w : World) : World := w <| events := events w ++ evs |>.
Definition spawn (pc : Pc) (w : World) : World :=
  w <| threads := <[next w := pc]> (threads w) |> <| next := S (next w) |>.
Definition spawn_all (pcs : list Pc) (w : World) : World := foldl (λ w pc, spawn pc w) w pcs.
Definition goto (t : nat) (pc : Pc) (w : World) : World := w <| threads := <[t := pc]> (threads w) |>.
Definition exit (t : nat) (w : World) : World := w <| threads := delete t (threads w) |>.

Definition closers (pend pool : option nat) : list Pc :=
  (match pend with Some p => [ClosingPending p] | None => [] end) ++
  (match pool with Some p => [ClosingPool p] | None => [] end).

Definition remove (clientID sessionID : string) (generation : Z) (w : World) : World :=
  let '(b, pend, pool) := RemoveGeneration clientID sessionID generation (broker w) in
  spawn_all (closers pend pool) (set_broker b w).

Definition remove_binding (binding : BindVNetChannel) (w : World) : World :=
  remove (BindClientID binding) (BindSessionID binding) (BindPoolGeneration binding) w.

Inductive Action :=
| DoPrepare (spec : PoolSpec) (lifetime : Duration) (tickets : option (list (list byte))) (now : Time)
| DoBind (binding : BindVNetChannel) (auth : Context) (conn : nat) (now : Time)
| DoRemove (clientID sessionID : string) (generation : Z)
| DoExpire (clientID : string) (generation : Z)
| DoClose
| DoSend (p index : nat) (wrote : bool)
| DoStop (p : nat)                                   (** a reader of the pool fails ([RunReaders]) *)
| DoEnqueue (p : nat) (packet : list byte) (index g : nat) (now : Time)
| DoWriter (p i : nat) (input : WriterInput) (now : Time)
| DoThread (t : nat) (ok : bool) (now : Time).

(** One step of a call: [ok] is the result of [onBound], that the context is
    not done, or that [done] is chosen. *)
Definition thread_step (t : nat) (pc : Pc) (ok : bool) (now : Time) (w : World) : option World :=
  match pc with
  | Acking p binding => Some (goto t (if ok then Acked p binding else Removing binding) w)
  | Acked p binding =>
    let '(b, r) := bind_ready p binding (negb ok) now (broker w) in
    let w := set_broker b w in
    Some match r with
         | BindLost => goto t (Removing binding) w
         | BindWaits previous => goto t (Bound p binding) (spawn_all (closers None previous) w)
         end
  | Removing binding => Some (exit t (remove_binding binding w))
  | Bound p binding =>
    if ok then
      match pools (broker w) !! p, pendings (broker w) !! p with
      | Some pool, _ => if done pool then Some (exit t w) else None
      | None, Some pend => if released pend then Some (exit t w) else None
      | None, None => None
      end
    else Some (goto t (Removing binding) w)
  | ClosingPending p =>
    let '(b, conns) := closePendingPool p (broker w) in
    Some (exit t (emit (EvClosed <$> conns) (set_broker b w)))
  | ClosingPool p =>
    let '(b, conns) := stop p (broker w) in
    Some (exit t (emit (EvClosed <$> conns) (set_broker b w)))
  end.

Context (ρ : go_range string nat).

Definition step (a : Action) (w : World) : option World :=
  match a with
  | DoPrepare spec lifetime tickets now =>
    match tickets with
    | Some ts => if bool_decide (Z.of_nat (length ts) = SpecChannelCount spec) then Some tt else None
    | None => Some tt
    end ≫= λ _,
    let p := next w in
    let '(b, r) := Prepare spec lifetime tickets p now (broker w) in
    let w := (set_broker b w) <| next := S p |> in
    Some match r with Ok (_, previous) => spawn_all (closers previous None) w | Err _ => w end
  | DoBind binding auth conn now =>
    let '(b, r) := bind_claim binding auth conn now (broker w) in
    let w := set_broker b w in
    Some match r with
         | Ok p =>
           emit [EvClaimed p (BindChannelIndex binding) conn binding auth (default [] (DecodeString (BindTicket binding)))]
             (spawn (Acking p binding) w)
         | Err _ => w
         end
  | DoRemove clientID sessionID generation => Some (remove clientID sessionID generation w)
  | DoExpire clientID generation =>
    let '(b, pend) := expire clientID generation (broker w) in
    Some (spawn_all (closers pend None) (set_broker b w))
  | DoClose =>
    let '(b, pends, actives) := Close ρ (broker w) in
    Some (spawn_all ((ClosingPending <$> pends) ++ (ClosingPool <$> actives)) (set_broker b w))
  | DoSend p index wrote =>
    let '(b, conns) := Send p index wrote (broker w) in Some (emit (EvClosed <$> conns) (set_broker b w))
  | DoStop p =>
    let '(b, conns) := stop p (broker w) in Some (emit (EvClosed <$> conns) (set_broker b w))
  | DoEnqueue p packet index g now =>
    let '(b, err) := Enqueue p packet index g now (broker w) in
    let accepted := match pools b !! p ≫= λ pool, queues pool !! index ≫= last with
                    | Some q => [EvQueued p index q] | None => [] end in
    Some (emit (if is_some err then [] else accepted) (set_broker b w))
  | DoWriter p i input now =>
    '(b, evs) ← writer_step p i input now (broker w);
    Some (emit evs (set_broker b w))
  | DoThread t ok now => pc ← threads w !! t; thread_step t pc ok now w
  end.

Definition start : World := {| broker := NewPoolBroker; threads := ∅; next := 0; events := [] |}.

Inductive reachable : World → Prop :=
| reachable_start : reachable start
| reachable_step a w w' : reachable w → step a w = Some w' → reachable w'.
End broker.
