(* ===== verification/PoolProps.v ===== *)
(** * Channel pools: properties

    A pool is activated only when every place was claimed once, by a stream
    with the right identity and ticket, and acknowledged; the channel that ends
    a pool is closed at most once; the queues are bounded, counted exactly and
    served in order. *)

From S2P Require Import Prelude GoTime NetAddr GoIO Authentication PoolBroker.

Local Open Scope Z_scope.

Create HintDb pools.

Section props.
Context (EncodeToString : list byte → string) (DecodeString : string → option (list byte)).
Context (sha256 : list byte → list byte) (ρ : go_range string nat).
Abbreviation reachable := (reachable EncodeToString DecodeString sha256 ρ).
Abbreviation step := (step EncodeToString DecodeString sha256 ρ).

(** ** The broker *)

Definition pending_valid (pend : pendingPool) : Prop :=
  valid_spec (spec pend) = true ∧ Z.of_nat (length (channels pend)) = SpecChannelCount (spec pend) ∧
  ∀ i ch, channels pend !! i = Some ch → ready ch = true → is_Some (connection ch).

Record pool_valid (pend : pendingPool) (pool : Pool) : Prop := {
  pv_open : released pend = false;
  pv_spec : pool_spec pool = spec pend;
  pv_ready : ∀ i ch, channels pend !! i = Some ch → ready ch = true;
  pv_connections : connections pool = (λ c, default 0%nat (connection c)) <$> channels pend;
  pv_queues : length (queues pool) = length (channels pend);
  pv_writers : length (writers pool) = length (channels pend)
}.

Record broker_ok (b : PoolBroker) : Prop := {
  bo_pending c p : pending b !! c = Some p →
    ∃ pend, pendings b !! p = Some pend ∧ SpecClientID (spec pend) = c ∧ released pend = false ∧ pools b !! p = None;
  bo_active c p : active b !! c = Some p → ∃ pool, pools b !! p = Some pool ∧ SpecClientID (pool_spec pool) = c;
  bo_pools p pool : pools b !! p = Some pool → ∃ pend, pendings b !! p = Some pend ∧ pool_valid pend pool;
  bo_valid p pend : pendings b !! p = Some pend → pending_valid pend
}.

(** A claimed place stays claimed. *)
Record pend_le (pend pend' : pendingPool) : Prop := {
  pl_spec : spec pend' = spec pend;
  pl_channels i ch : channels pend !! i = Some ch →
    ∃ ch', channels pend' !! i = Some ch' ∧ ticketDigest ch' = ticketDigest ch ∧
           (∀ c, connection ch = Some c → connection ch' = Some c)
}.

(** What one critical section may do; [new] is the pool it prepares. *)
Record broker_le (new : option nat) (b b' : PoolBroker) : Prop := {
  bl_pendings p pend : pendings b !! p = Some pend → ∃ pend', pendings b' !! p = Some pend' ∧ pend_le pend pend';
  bl_new p : pendings b !! p = None → new ≠ Some p → pendings b' !! p = None;
  bl_pools p : pools b !! p = None → (∀ c, pending b !! c ≠ Some p) → pools b' !! p = None;
  bl_pending c p : pending b' !! c = Some p → pending b !! c = Some p ∨ new = Some p
}.

#[local] Instance pend_le_refl : Reflexive pend_le.
Proof using. intros pend. constructor; [done|]. intros i ch Hi. by exists ch. Qed.

Lemma broker_le_same b b' :
  pendings b' = pendings b → (∀ p, pools b !! p = None → pools b' !! p = None) →
  (∀ c p, pending b' !! c = Some p → pending b !! c = Some p) → broker_le None b b'.
Proof using.
  intros E Hp Hs. constructor; rewrite ?E; auto. intros p pend Hpend. by exists pend.
Qed.

(** Removing entries keeps the broker consistent. *)
Lemma pool_shrink_ok b b' :
  pendings b' = pendings b → pools b' = pools b →
  (∀ c p, pending b' !! c = Some p → pending b !! c = Some p) →
  (∀ c p, active b' !! c = Some p → active b !! c = Some p) → broker_ok b → broker_ok b' ∧ broker_le None b b'.
Proof using.
  intros E1 E2 Hp Ha [B1 B2 B3 B4]. split; [|apply broker_le_same; [done|by rewrite E2|done]].
  constructor; rewrite ?E1, ?E2; eauto.
Qed.

(** Changing the queues, writers or [done] of a pool. *)
Definition same_shape (pool pool' : Pool) : Prop :=
  pool_spec pool' = pool_spec pool ∧ connections pool' = connections pool ∧
  length (queues pool') = length (queues pool) ∧ length (writers pool') = length (writers pool).

Lemma reshape_ok p pool pool' b b' :
  pools b !! p = Some pool → same_shape pool pool' → pools b' = <[p := pool']> (pools b) →
  pendings b' = pendings b → pending b' = pending b → active b' = active b →
  broker_ok b → broker_ok b' ∧ broker_le None b b'.
Proof using.
  intros Hp (Es & Ec & Eq & Ew) Epools E1 E2 E3 [B1 B2 B3 B4]. split.
  - constructor; rewrite ?E1, ?E2, ?E3, ?Epools; [| | |done].
    + intros c q Hq. destruct (B1 _ _ Hq) as (pend & ? & ? & ? & ?). exists pend.
      rewrite lookup_insert_ne by congruence. done.
    + intros c q Hq. destruct (B2 _ _ Hq) as (pool0 & Hpool & Hc).
      destruct (decide (p = q)) as [<-|]; [rewrite lookup_insert_eq|rewrite lookup_insert_ne by done; eauto].
      simplify_eq. exists pool'. by rewrite Es.
    + intros q pool0 [[<- <-]|[_ Hq]]%lookup_insert_Some; [|eauto].
      destruct (B3 _ _ Hp) as (pend & Hpend & []). exists pend. split; [done|]. constructor; first [done|congruence].
  - apply broker_le_same; [done| |by rewrite E2]. intros q. rewrite Epools. intros Hq.
    rewrite lookup_insert_ne; [done|]. congruence.
Qed.

Lemma pool_prepare_ok spec lifetime tickets p now b b' r :
  Prepare EncodeToString sha256 spec lifetime tickets p now b = (b', r) →
  (∀ ts, tickets = Some ts → Z.of_nat (length ts) = SpecChannelCount spec) →
  pendings b !! p = None → broker_ok b →
  broker_ok b' ∧ broker_le (Some p) b b' ∧
  (∀ os q, r = Ok (os, Some q) → pools b' !! q = None ∧ ∀ c, pending b' !! c ≠ Some q).
Proof using.
  unfold Prepare. intros E Hlen Hfresh Hb.
  assert (Hrej : ∀ e, (b, Err e) = (b', r) → broker_ok b' ∧ broker_le (Some p) b b' ∧
    (∀ os q, r = Ok (os, Some q) → pools b' !! q = None ∧ ∀ c, pending b' !! c ≠ Some q)).
  { intros e [= <- <-]. split_and!; [done| |done]. constructor; auto. intros q pend Hq. by exists pend. }
  destruct (valid_spec spec) eqn:Hv; cbn [negb] in E; [|by eapply Hrej].
  destruct (lifetime <=? 0); [by eapply Hrej|]. destruct tickets as [ts|]; [|by eapply Hrej].
  destruct (closed b); [by eapply Hrej|]. injection E as <- <-. clear Hrej.
  assert (Hnp : pools b !! p = None).
  { destruct (pools b !! p) eqn:Hp; [|done]. destruct (bo_pools _ Hb _ _ Hp) as (pend & ? & _). congruence. }
  assert (Hne : ∀ c q, pending b !! c = Some q → q ≠ p).
  { intros c q Hq ->. destruct (bo_pending _ Hb _ _ Hq) as (pend & ? & _). congruence. }
  split_and!.
  - destruct Hb as [B1 B2 B3 B4]. constructor; cbn [upd pendings pending pools active]; [| done | |].
    + intros c q [[<- <-]|[_ Hq]]%lookup_insert_Some.
      * exists (new_pending sha256 spec ts (Add now lifetime)). rewrite lookup_insert_eq. done.
      * pose proof (Hne _ _ Hq). destruct (B1 _ _ Hq) as (pend & ? & ?). exists pend. by rewrite lookup_insert_ne.
    + intros q pool Hq. destruct (B3 _ _ Hq) as (pend & ? & ?). exists pend. rewrite lookup_insert_ne by congruence. done.
    + intros q pend [[<- <-]|[_ Hq]]%lookup_insert_Some; [|eauto].
      split; [done|]. cbn [new_pending channels PoolBroker.spec]. rewrite length_fmap. split; [auto|].
      intros i ch (t & -> & _)%list_lookup_fmap_Some. done.
  - constructor; cbn [upd pendings pending pools].
    + intros q pend Hq. exists pend. rewrite lookup_insert_ne by congruence. done.
    + intros q Hq Hn. rewrite lookup_insert_ne by congruence. done.
    + auto.
    + intros c q [[<- <-]|[_ ?]]%lookup_insert_Some; auto.
  - intros os q [= _ Hq]. cbn [upd pools pending]. destruct (bo_pending _ Hb _ _ Hq) as (pend & Hpend & Hc & _ & Hpo).
    split; [done|]. intros c [[<- <-]|[Hcc Hq']]%lookup_insert_Some; [by apply (Hne _ _ Hq)|].
    destruct (bo_pending _ Hb _ _ Hq') as (pend' & ? & Hc' & _). congruence.
Qed.

(** *** Binding *)

Lemma on_channel_ok p i f b pend :
  pendings b !! p = Some pend → pools b !! p = None → broker_ok b →
  (∀ ch, channels pend !! i = Some ch → ticketDigest (f ch) = ticketDigest ch ∧
     (∀ c, connection ch = Some c → connection (f ch) = Some c) ∧
     (ready (f ch) = true → is_Some (connection (f ch)))) →
  broker_ok (on_channel p i f b) ∧ broker_le None b (on_channel p i f b).
Proof using.
  intros Hp Hnp Hb Hf. set (pend' := pend <| channels := alter f i (channels pend) |>).
  assert (E : pendings (on_channel p i f b) = <[p := pend']> (pendings b)).
  { unfold on_channel. cbn [upd pendings]. apply map_eq. intros q. rewrite lookup_alter, lookup_insert, Hp.
    by case_decide. }
  assert (Hle : pend_le pend pend').
  { constructor; [done|]. intros j ch Hj. cbn [pend' upd channels]. rewrite list_lookup_alter.
    case_decide; subst; rewrite Hj; [|by exists ch]. exists (f ch). destruct (Hf _ Hj) as (? & ? & _). done. }
  split.
  - destruct Hb as [B1 B2 B3 B4]. constructor; rewrite ?E; cbn [on_channel upd pending pools active]; [|done| |].
    + intros c q Hq. destruct (B1 _ _ Hq) as (pend0 & ? & ? & ? & ?).
      destruct (decide (p = q)) as [<-|]; [rewrite lookup_insert_eq|rewrite lookup_insert_ne by done; eauto].
      simplify_eq. by exists pend'.
    + intros q pool Hq. destruct (B3 _ _ Hq) as (pend0 & ? & ?). exists pend0.
      rewrite lookup_insert_ne by congruence. done.
    + intros q pend0 [[<- <-]|[_ Hq]]%lookup_insert_Some; [|eauto].
      destruct (B4 _ _ Hp) as (? & Hl & Hr). split_and!; [done|cbn [pend' upd channels]; by rewrite length_alter|].
      intros j ch. cbn [pend' upd channels]. rewrite list_lookup_alter. case_decide; subst; [|apply Hr].
      intros (ch0 & Hj & ->)%fmap_Some. by apply Hf.
  - constructor; rewrite ?E; cbn [on_channel upd pending pools]; auto.
    + intros q pend0 Hq. destruct (decide (p = q)) as [<-|]; [|exists pend0; by rewrite lookup_insert_ne].
      simplify_eq. exists pend'. by rewrite lookup_insert_eq.
    + intros q Hq _. rewrite lookup_insert_ne; [done|]. congruence.
Qed.

(** What a successful claim has checked. *)
Record claimed (p i conn : nat) (binding : BindVNetChannel) (auth : Context) (ticket : list byte) (b : PoolBroker) : Prop := {
  cl_index : BindChannelIndex binding = i;
  cl_pool : ∃ pend ch, pendings b !! p = Some pend ∧ channels pend !! i = Some ch ∧ connection ch = Some conn ∧
    bindingMatchesPool binding (spec pend) auth = true ∧ ticketDigest ch = sha256 ticket ∧
    length ticket = vnetChannelTicketBytes
}.

Lemma claim_ok binding auth conn now b b' r :
  bind_claim DecodeString sha256 binding auth conn now b = (b', r) → broker_ok b →
  (broker_ok b' ∧ broker_le None b b') ∧
  (∀ p, r = Ok p → ∃ pend ch ticket, pendings b !! p = Some pend ∧ channels pend !! BindChannelIndex binding = Some ch ∧
     connection ch = None ∧ DecodeString (BindTicket binding) = Some ticket ∧
     b' = on_channel p (BindChannelIndex binding) (λ c, c <| connection := Some conn |>) b ∧
     claimed p (BindChannelIndex binding) conn binding auth ticket b' ∧ pools b !! p = None ∧
     pending b !! BindClientID binding = Some p) ∧
  (∀ e, r = Err e → b' = b).
Proof using.
  unfold bind_claim. intros E Hb.
  assert (Hrej : ∀ e, (b, Err e) = (b', r) → b' = b ∧ r = Err e) by (by intros e [= <- <-]).
  assert (Hsame : b' = b ∧ (∃ e, r = Err e) → (broker_ok b' ∧ broker_le None b b') ∧
    (∀ p, r = Ok p → ∃ pend ch ticket, pendings b !! p = Some pend ∧ channels pend !! BindChannelIndex binding = Some ch ∧
     connection ch = None ∧ DecodeString (BindTicket binding) = Some ticket ∧
     b' = on_channel p (BindChannelIndex binding) (λ c, c <| connection := Some conn |>) b ∧
     claimed p (BindChannelIndex binding) conn binding auth ticket b' ∧ pools b !! p = None ∧
     pending b !! BindClientID binding = Some p) ∧
    (∀ e, r = Err e → b' = b)).
  { intros [-> [e ->]]. split_and!; [done| |done|done]. by apply broker_le_same. }
  destruct (DecodeString (BindTicket binding)) as [ticket|] eqn:Ht; [|destruct (Hrej _ E); eauto].
  destruct (negb (bool_decide (length ticket = _))) eqn:Hlen; [destruct (Hrej _ E); eauto|].
  destruct (closed b); [destruct (Hrej _ E); eauto|].
  destruct (pending b !! BindClientID binding) as [p|] eqn:Hp; [|destruct (Hrej _ E); eauto]. cbn [mbind option_bind] in E.
  destruct (bo_pending _ Hb _ _ Hp) as (pend & Hpend & Hc & _ & Hpool). rewrite Hpend in E. cbn [mbind option_bind] in E.
  destruct (negb (Before _ _) || _) eqn:Hm; [destruct (Hrej _ E); eauto|].
  destruct (channels pend !! BindChannelIndex binding) as [ch|] eqn:Hch; [|destruct (Hrej _ E); eauto].
  destruct (is_some _ || _) eqn:Hf; [destruct (Hrej _ E); eauto|]. clear Hrej Hsame. injection E as <- <-. bool_to_prop.
  destruct (connection ch) eqn:Hconn; [done|].
  split_and!; [eapply on_channel_ok; try done..| |done].
  - intros ch' Hch'. simplify_eq. cbn [upd ticketDigest connection ready]. split_and!; [done|congruence|eauto].
  - intros ch' Hch'. simplify_eq. cbn [upd ticketDigest connection ready]. split_and!; [done|congruence|eauto].
  - intros q [= <-]. exists pend, ch, ticket. split_and!; try done. constructor; [done|].
    eexists _, _. split_and!; [unfold on_channel; cbn [upd pendings]; by rewrite lookup_alter_eq, Hpend| |..].
    { cbn [upd channels]. by rewrite list_lookup_alter_eq, Hch. }
    all: done.
Qed.

(** A call of [Bind] that has claimed its place. *)
Definition bind_held (b : PoolBroker) (p : nat) (binding : BindVNetChannel) : Prop :=
  ∃ pend ch, pendings b !! p = Some pend ∧ SpecClientID (spec pend) = BindClientID binding ∧
             channels pend !! BindChannelIndex binding = Some ch ∧ is_Some (connection ch).

Lemma bind_held_le new b b' p binding : broker_le new b b' → bind_held b p binding → bind_held b' p binding.
Proof using.
  intros Hle (pend & ch & Hp & Hc & Hch & [c Hconn]). destruct (bl_pendings _ _ _ Hle _ _ Hp) as (pend' & Hp' & [Es Hl]).
  destruct (Hl _ _ Hch) as (ch' & Hch' & _ & Hc'). exists pend', ch'. rewrite Es. split_and!; [done|done|done|].
  rewrite (Hc' c Hconn). done.
Qed.

Lemma ready_ok p binding ctx_done now b b' r :
  bind_ready p binding ctx_done now b = (b', r) → bind_held b p binding → broker_ok b →
  broker_ok b' ∧ broker_le None b b'.
Proof using.
  unfold bind_ready. intros E (pend & ch & Hp & Hc & Hch & Hconn) Hb. rewrite Hp in E.
  destruct (_ || _) eqn:Hg; [simplify_eq; split; [done|by apply broker_le_same]|]. bool_to_prop.
  destruct (bo_pending _ Hb (BindClientID binding) p) as (pend0 & Hp0 & _ & Hrel & Hnp); [done|]. rewrite Hp in Hp0.
  injection Hp0 as <-.
  set (b1 := on_channel p (BindChannelIndex binding) (λ c, c <| ready := true |>) b) in E.
  assert (Hp1 : pendings b1 !! p = Some (pend <| channels := alter (λ c, c <| ready := true |>) (BindChannelIndex binding) (channels pend) |>)).
  { unfold b1, on_channel. cbn [upd pendings]. by rewrite lookup_alter_eq, Hp. }
  destruct (on_channel_ok p (BindChannelIndex binding) (λ c, c <| ready := true |>) b pend Hp Hnp Hb) as [Hb1 Hle1].
  { intros ch0 Hch0. simplify_eq. done. }
  fold b1 in Hb1, Hle1. set (pend1 := pend <| channels := _ |>) in *. cbv zeta in E.
  destruct (forallb ready (channels pend1)) eqn:Hall; [|by simplify_eq]. injection E as <- <-.
  assert (Hready : ∀ i ch, channels pend1 !! i = Some ch → ready ch = true).
  { intros i ch0 Hi. rewrite forallb_forall in Hall. apply Hall, list_elem_of_In. by eapply list_elem_of_lookup_2. }
  assert (Hother : ∀ c q, pending b !! c = Some q → c ≠ BindClientID binding → q ≠ p).
  { intros c q Hq Hne ->. destruct (bo_pending _ Hb _ _ Hq) as (pend0 & ? & Hc0 & _). congruence. }
  split.
  - destruct Hb1 as [B1 B2 B3 B4]. constructor; cbn [upd pendings pending pools active]; [| | |done].
    + intros c q [Hne Hq]%lookup_delete_Some. destruct (B1 _ _ Hq) as (pend0 & ? & ? & ? & ?). exists pend0.
      rewrite lookup_insert_ne; [done|]. intros <-. by apply (Hother c p Hq).
    + intros c q [[<- <-]|[_ Hq]]%lookup_insert_Some; [rewrite lookup_insert_eq; eexists; split; [done|]; done|].
      destruct (B2 _ _ Hq) as (pool & Hpool & ?). exists pool. rewrite lookup_insert_ne; [done|]. intros <-.
      change (pools b1) with (pools b) in Hpool. congruence.
    + intros q pool [[<- <-]|[_ Hq]]%lookup_insert_Some; [|eauto]. exists pend1. split; [done|].
      constructor; cbn [activatePendingPool pool_spec connections queues writers]; rewrite ?length_fmap; done.
  - destruct Hle1 as [L1 L2 L3 L4]. constructor; cbn [upd pendings pending pools]; auto.
    + intros q Hq Hn. rewrite lookup_insert_ne; [by apply L3|]. intros <-. by eapply Hn.
    + intros c q [_ Hq]%lookup_delete_Some. by apply L4.
Qed.

(** *** Removing and closing *)

Lemma remove_ok clientID sessionID g b b' pend pool :
  RemoveGeneration clientID sessionID g b = (b', pend, pool) → broker_ok b →
  (broker_ok b' ∧ broker_le None b b') ∧
  (∀ q, pend = Some q → pools b' !! q = None ∧ ∀ c, pending b' !! c ≠ Some q).
Proof using.
  unfold RemoveGeneration. intros E Hb.
  set (P := p ← pending b !! clientID; pp ← pendings b !! p; if owned sessionID g (spec pp) then Some p else None) in E.
  set (A := p ← active b !! clientID; pp ← pools b !! p; if owned sessionID g (pool_spec pp) then Some p else None) in E.
  assert (HP : ∀ q, P = Some q → pending b !! clientID = Some q).
  { intros q. unfold P. destruct (pending b !! clientID) as [p|]; [|done]. cbn [mbind option_bind].
    destruct (pendings b !! p); [|done]. cbn [mbind option_bind]. destruct (owned _ _ _); [|done]. by intros [= ->]. }
  injection E as <- <- <-. split.
  - apply pool_shrink_ok; cbn [upd pendings pools pending active]; try done; intros c p.
    + destruct P; [by intros [_ ?]%lookup_delete_Some|done].
    + destruct A; [by intros [_ ?]%lookup_delete_Some|done].
  - intros q Hq. pose proof (HP _ Hq) as Hpq. destruct (bo_pending _ Hb _ _ Hpq) as (pp & ? & Hc & _ & ?).
    cbn [upd pools pending]. rewrite Hq. cbn [is_some]. split; [done|].
    intros c [Hne Hq']%lookup_delete_Some. destruct (bo_pending _ Hb _ _ Hq') as (pp' & ? & Hc' & _). congruence.
Qed.

Lemma expire_ok clientID g b b' pend :
  expire clientID g b = (b', pend) → broker_ok b →
  (broker_ok b' ∧ broker_le None b b') ∧
  (∀ q, pend = Some q → pools b' !! q = None ∧ ∀ c, pending b' !! c ≠ Some q).
Proof using.
  unfold expire. intros E Hb.
  set (P := p ← pending b !! clientID; pp ← pendings b !! p; if SpecPoolGeneration (spec pp) =? g then Some p else None) in E.
  assert (HP : ∀ q, P = Some q → pending b !! clientID = Some q).
  { intros q. unfold P. destruct (pending b !! clientID) as [p|]; [|done]. cbn [mbind option_bind].
    destruct (pendings b !! p); [|done]. cbn [mbind option_bind]. destruct (_ =? _); [|done]. by intros [= ->]. }
  injection E as <- <-. split.
  - apply pool_shrink_ok; cbn [upd pendings pools pending active]; try done; intros c p.
    destruct P; [by intros [_ ?]%lookup_delete_Some|done].
  - intros q Hq. pose proof (HP _ Hq) as Hpq. destruct (bo_pending _ Hb _ _ Hpq) as (pp & ? & Hc & _ & ?).
    cbn [upd pools pending]. rewrite Hq. cbn [is_some]. split; [done|].
    intros c [Hne Hq']%lookup_delete_Some. destruct (bo_pending _ Hb _ _ Hq') as (pp' & ? & Hc' & _). congruence.
Qed.

Lemma pool_close_ok b b' pends actives :
  Close ρ b = (b', pends, actives) → broker_ok b →
  (broker_ok b' ∧ broker_le None b b') ∧
  (∀ q, q ∈ pends → pools b' !! q = None ∧ ∀ c, pending b' !! c ≠ Some q).
Proof using.
  unfold Close. intros E Hb. destruct (closed b); injection E as <- <- <-.
  - split; [split; [done|by apply broker_le_same]|]. intros q Hq. by apply elem_of_nil in Hq.
  - split; [apply pool_shrink_ok; try done; intros c q; cbn [upd pending active]; by rewrite lookup_empty|]. intros q ([c q'] & -> & Hin)%list_elem_of_fmap. apply range_elem in Hin.
    destruct (bo_pending _ Hb _ _ Hin) as (pend & ? & _ & _ & ?). done.
Qed.

Lemma close_pending_ok p b :
  pools b !! p = None → (∀ c, pending b !! c ≠ Some p) → broker_ok b →
  broker_ok (closePendingPool p b).1 ∧ broker_le None b (closePendingPool p b).1.
Proof using.
  intros Hnp Hne Hb. unfold closePendingPool. destruct (pendings b !! p) as [pend|] eqn:Hp;
    [destruct (released pend)|]; cbn [fst]; try (split; [done|by apply broker_le_same]).
  destruct Hb as [B1 B2 B3 B4]. split.
  - constructor; cbn [upd pendings pending pools active]; [|done| |].
    + intros c q Hq. destruct (B1 _ _ Hq) as (pend0 & ? & ?). exists pend0. rewrite lookup_insert_ne; [done|]. congruence.
    + intros q pool Hq. destruct (B3 _ _ Hq) as (pend0 & ? & ?). exists pend0. rewrite lookup_insert_ne; [done|]. congruence.
    + intros q pend0 [[<- <-]|[_ ?]]%lookup_insert_Some; [|eauto]. exact (B4 _ _ Hp).
  - constructor; cbn [upd pendings pending pools]; auto.
    + intros q pend0 Hq. destruct (decide (p = q)) as [<-|]; [|exists pend0; by rewrite lookup_insert_ne].
      simplify_eq. eexists. rewrite lookup_insert_eq. split; [done|]. constructor; [done|]. intros i ch Hi. by exists ch.
    + intros q Hq _. rewrite lookup_insert_ne; [done|]. congruence.
Qed.

(** *** Queues *)

Definition quiet (b b' : PoolBroker) : Prop := broker_ok b → broker_ok b' ∧ broker_le None b b'.

Lemma pool_quiet_same b : quiet b b.
Proof using. intros Hb. split; [done|by apply broker_le_same]. Qed.

Lemma quiet_counters b f : quiet b (b <| counters := f |>).
Proof using. intros Hb. by apply pool_shrink_ok. Qed.

Lemma stop_quiet p b : quiet b (stop p b).1.
Proof using.
  unfold stop. destruct (pools b !! p) as [pool|] eqn:Hp; [destruct (done pool)|]; cbn [fst]; try apply pool_quiet_same.
  intros Hb. by apply (reshape_ok p pool (pool <| done := true |>)).
Qed.

Lemma enqueue_quiet p packet index g now b : quiet b (Enqueue p packet index g now b).1.
Proof using.
  unfold Enqueue. destruct (pools b !! p) as [pool|] eqn:Hp; [|apply pool_quiet_same].
  destruct (done pool); [apply pool_quiet_same|]. destruct (queues pool !! index) as [queue|] eqn:Hq; [|apply pool_quiet_same].
  destruct (_ || _); [apply pool_quiet_same|]. case_bool_decide; [apply quiet_counters|]. intros Hb.
  eapply (reshape_ok p pool); [done| |done..|done]. split_and!; try done. cbn [upd queues]. apply length_insert.
Qed.

Lemma writer_quiet p i input now b b' evs : writer_step p i input now b = Some (b', evs) → quiet b b'.
Proof using.
  unfold writer_step. destruct (pools b !! p) as [pool|] eqn:Hp; [|done]. cbn [mbind option_bind].
  destruct (writers pool !! i) as [pc|] eqn:Hw; [|done]. cbn [mbind option_bind]. cbv zeta.
  assert (Hset : ∀ pool' pc b0, same_shape pool pool' → pools b0 = pools b → pendings b0 = pendings b →
    pending b0 = pending b → active b0 = active b → quiet b (set_writer p i pool' pc b0)).
  { intros pool' pc' b0 (Es & Ec & Eq & Ew) E1 E2 E3 E4 Hb.
    apply (reshape_ok p pool (pool' <| writers := <[i := pc']> (writers pool') |>)); try done.
    - split_and!; [exact Es|exact Ec|exact Eq|]. cbn [upd writers]. by rewrite length_insert.
    - unfold set_writer. cbn [upd pools]. by rewrite E1. }
  assert (Hgo : ∀ pc b0, pools b0 = pools b → pendings b0 = pendings b → pending b0 = pending b → active b0 = active b →
    quiet b (set_writer p i pool pc b0)) by (intros; by apply Hset).
  assert (Hrec : ∀ f b0, receive p i pool f b = Some b0 → quiet b b0).
  { unfold receive. intros f b0. destruct (queues pool !! i) as [[|q rest]|]; try done. intros [= <-].
    apply Hset; try done. split_and!; try done. cbn [upd queues]. apply length_insert. }
  destruct pc, input; intros E; try discriminate E.
  all: try (repeat (case_match; try discriminate E)); try (injection E as <- <-); try (by apply Hgo).
  all: try (destruct (receive _ _ _ _ _) as [b0|] eqn:Hr; [|done]; cbn [mbind option_bind] in E; injection E as <- <-; by eapply Hrec).
  - match goal with Hs : stop p ?b0 = (?b1, _) |- _ => pose proof (stop_quiet p b0) as Hq; rewrite Hs in Hq end.
    cbn [fst] in Hq. intros Hb. destruct (Hgo Draining b) as [Hb1 Hl1]; try done.
    destruct (Hq Hb1) as [Hb2 Hl2]. split; [done|]. destruct Hl1 as [A1 A2 A3 A4], Hl2 as [C1 C2 C3 C4]. constructor; auto.
Qed.

(** ** Claims *)

Definition conn_of (b : PoolBroker) (p i : nat) : option nat :=
  pendings b !! p ≫= λ pend, channels pend !! i ≫= connection.

Definition is_claim (p i : nat) (ev : Event) : bool :=
  match ev with EvClaimed q j _ _ _ _ => bool_decide (p = q) && bool_decide (i = j) | _ => false end.
Definition claims (p i : nat) (evs : list Event) : nat := length (List.filter (is_claim p i) evs).

Definition claim_ok_at (b : PoolBroker) (p i conn : nat) (binding : BindVNetChannel) (auth : Context) (ticket : list byte) :
    Prop := BindChannelIndex binding = i ∧ claimed p i conn binding auth ticket b.

Record claims_ok (b : PoolBroker) (evs : list Event) : Prop := {
  ck_evidence p i conn : conn_of b p i = Some conn →
    ∃ binding auth ticket, EvClaimed p i conn binding auth ticket ∈ evs ∧ claimed p i conn binding auth ticket b;
  ck_once p i : claims p i evs = if is_some (conn_of b p i) then 1%nat else 0%nat
}.

Lemma claims_app p i evs evs' : claims p i (evs ++ evs') = (claims p i evs + claims p i evs')%nat.
Proof using. unfold claims. by rewrite List.filter_app, length_app. Qed.

Lemma claimed_le new p i conn binding auth ticket b b' :
  broker_le new b b' → claimed p i conn binding auth ticket b → claimed p i conn binding auth ticket b'.
Proof using.
  intros Hle [Hi (pend & ch & Hp & Hch & Hconn & Hm & Hd & Hl)]. constructor; [done|].
  destruct (bl_pendings _ _ _ Hle _ _ Hp) as (pend' & Hp' & [Es Hc]). destruct (Hc _ _ Hch) as (ch' & Hch' & Ed & Hcn).
  exists pend', ch'. rewrite Es, Ed. split_and!; auto.
Qed.

(** Steps that claim nothing. *)
Definition conn_same (b b' : PoolBroker) : Prop := ∀ p i, conn_of b' p i = conn_of b p i.

Lemma claims_same new b b' evs evs' :
  broker_le new b b' → conn_same b b' → (∀ p i, claims p i evs' = 0%nat) → claims_ok b evs → claims_ok b' (evs ++ evs').
Proof using.
  intros Hle Hs Hz [He Ho]. constructor.
  - intros p i conn. rewrite Hs. intros (binding & auth & ticket & Hin & Hc)%He. exists binding, auth, ticket.
    split; [apply elem_of_app; by left|by eapply claimed_le].
  - intros p i. by rewrite claims_app, Hz, Nat.add_0_r, Hs.
Qed.

Lemma conn_pendings b b' : pendings b' = pendings b → conn_same b b'.
Proof using. intros E p i. unfold conn_of. by rewrite E. Qed.

Lemma conn_ready p i b : conn_same b (on_channel p i (λ c, c <| ready := true |>) b).
Proof using.
  intros q j. unfold conn_of, on_channel. cbn [upd pendings]. rewrite lookup_alter. case_decide; subst; [|done].
  destruct (pendings b !! q) as [pend|]; [|done]. cbn [fmap option_fmap option_map mbind option_bind upd channels].
  rewrite list_lookup_alter. case_decide; subst; [|done]. by destruct (channels pend !! j).
Qed.

Lemma conn_prepare spec lifetime tickets p now b b' r :
  Prepare EncodeToString sha256 spec lifetime tickets p now b = (b', r) → pendings b !! p = None → conn_same b b'.
Proof using.
  unfold Prepare. intros E Hfresh. repeat case_match; simplify_eq; try done. intros q i. unfold conn_of. cbn [upd pendings].
  destruct (decide (p = q)) as [<-|]; [|by rewrite lookup_insert_ne]. rewrite lookup_insert_eq, Hfresh.
  cbn [mbind option_bind new_pending channels]. rewrite list_lookup_fmap. by destruct (_ !! i).
Qed.

Lemma conn_close_pending p b : conn_same b (closePendingPool p b).1.
Proof using.
  unfold closePendingPool. destruct (pendings b !! p) as [pend|] eqn:Hp; [destruct (released pend)|]; try done.
  intros q i. unfold conn_of. cbn [fst upd pendings]. destruct (decide (p = q)) as [<-|]; [|by rewrite lookup_insert_ne].
  by rewrite lookup_insert_eq, Hp.
Qed.

Lemma conn_bind_ready p binding ctx now b : conn_same b (bind_ready p binding ctx now b).1.
Proof using.
  unfold bind_ready. destruct (pendings b !! p) as [pend|]; [|done]. destruct (_ || _); [done|]. cbv zeta.
  destruct (forallb _ _); cbn [fst]; apply conn_ready.
Qed.

Lemma writer_pendings p i input now b b' evs :
  writer_step p i input now b = Some (b', evs) → pendings b' = pendings b ∧ ∀ q j, claims q j evs = 0%nat.
Proof using.
  unfold writer_step. destruct (pools b !! p) as [pool|]; [|done]. cbn [mbind option_bind].
  destruct (writers pool !! i) as [pc|]; [|done]. cbn [mbind option_bind]. cbv zeta.
  assert (Hrec : ∀ f b0, receive p i pool f b = Some b0 → pendings b0 = pendings b).
  { unfold receive. intros f b0. destruct (queues pool !! i) as [[|q rest]|]; try done. by intros [= <-]. }
  assert (Hcl : ∀ cs q j, claims q j (EvClosed <$> cs) = 0%nat).
  { intros cs q j. unfold claims. by induction cs as [|c cs IH]. }
  destruct pc, input; intros E; try discriminate E.
  all: try (repeat (case_match; try discriminate E)); try (injection E as <- <-); try done.
  all: try (destruct (receive _ _ _ _ _) as [b0|] eqn:Hr; [|done]; cbn [mbind option_bind] in E; injection E as <- <-; split; [by eapply Hrec|done]).
  split; [|apply Hcl]. match goal with Hs : stop p _ = _ |- _ => unfold stop in Hs; repeat case_match; by simplify_eq end.
Qed.

(** ** Worlds *)

Definition thread_ok (b : PoolBroker) (pc : Pc) : Prop :=
  match pc with
  | Acking p binding | Acked p binding | Bound p binding => bind_held b p binding
  | ClosingPending p => is_Some (pendings b !! p) ∧ pools b !! p = None ∧ ∀ c, pending b !! c ≠ Some p
  | _ => True
  end.

Lemma pool_thread_ok_le new b b' pc :
  broker_le new b b' → (∀ p, new = Some p → pendings b !! p = None) → thread_ok b pc → thread_ok b' pc.
Proof using.
  intros Hle Hnew. destruct pc; cbn [thread_ok]; try done; try (by apply bind_held_le; eauto).
  - by eapply bind_held_le.
  - by eapply bind_held_le.
  - by eapply bind_held_le.
  - intros ([pend Hp] & Hnp & Hne). destruct (bl_pendings _ _ _ Hle _ _ Hp) as (pend' & Hp' & _).
    split_and!; [by rewrite Hp'|by eapply bl_pools|]. intros c Hc.
    destruct (bl_pending _ _ _ Hle _ _ Hc) as [?|Hn]; [by eapply Hne|]. rewrite (Hnew _ Hn) in Hp. done.
Qed.

Record world_ok (w : World) : Prop := {
  wo_broker : broker_ok (broker w);
  wo_threads t pc : threads w !! t = Some pc → thread_ok (broker w) pc;
  wo_fresh p : is_Some (pendings (broker w) !! p) → (p < next w)%nat;
  wo_claims : claims_ok (broker w) (events w)
}.

Lemma fresh_pool w : world_ok w → pendings (broker w) !! next w = None.
Proof using.
  intros Hw. destruct (pendings (broker w) !! next w) eqn:E; [|done].
  assert (next w < next w)%nat by (apply (wo_fresh _ Hw); eauto). lia.
Qed.

(** A step that claims nothing: goroutines are old or sound. *)
Lemma pool_world_ok_step new w w' evs :
  world_ok w → broker_ok (broker w') → broker_le new (broker w) (broker w') →
  (∀ p, new = Some p → pendings (broker w) !! p = None ∧ (p < next w')%nat) → (next w ≤ next w')%nat →
  conn_same (broker w) (broker w') → events w' = events w ++ evs → (∀ p i, claims p i evs = 0%nat) →
  (∀ t pc, threads w' !! t = Some pc → threads w !! t = Some pc ∨ thread_ok (broker w') pc) → world_ok w'.
Proof using.
  intros [Hb Ht Hf Hc] Hb' Hle Hnew Hn Hs Hev Hz Hth. constructor; [done| | |].
  - intros t pc [Hold|?]%Hth; [|done]. eapply pool_thread_ok_le; [done|intros p ?; by apply Hnew|by apply (Ht t)].
  - intros p Hp. destruct (pendings (broker w) !! p) as [pend|] eqn:E.
    + assert (p < next w)%nat by (apply Hf; eauto). lia.
    + destruct (decide (new = Some p)) as [Hnp|Hnp]; [by apply Hnew|].
      rewrite (bl_new _ _ _ Hle _ E Hnp) in Hp. by destruct Hp.
  - rewrite Hev. by eapply claims_same.
Qed.

Lemma pool_insert_old t pc (w : World) (P : Pc → Prop) :
  P pc → ∀ t' pc', <[t := pc]> (threads w) !! t' = Some pc' → threads w !! t' = Some pc' ∨ P pc'.
Proof using. intros HP t' pc' [[<- <-]|[_ ?]]%lookup_insert_Some; auto. Qed.

Lemma world_ok_threads w w' :
  world_ok w → broker w' = broker w → (next w ≤ next w')%nat → events w' = events w →
  (∀ t pc, threads w' !! t = Some pc → threads w !! t = Some pc ∨ thread_ok (broker w) pc) → world_ok w'.
Proof using.
  intros Hw Eb Hn Ee Ht. apply (pool_world_ok_step None w w' []); rewrite ?Eb, ?Ee, ?app_nil_r; try done; [apply Hw|].
  by apply broker_le_same.
Qed.

Lemma pool_goto_ok t pc w : world_ok w → thread_ok (broker w) pc → world_ok (goto t pc w).
Proof using. intros Hw Hpc. apply (world_ok_threads w); try done. by apply (pool_insert_old t pc w (thread_ok (broker w))). Qed.
Lemma pool_spawn_ok pc w : world_ok w → thread_ok (broker w) pc → world_ok (spawn pc w).
Proof using.
  intros Hw Hpc. apply (world_ok_threads w); try done; [cbn; lia|].
  by apply (pool_insert_old (next w) pc w (thread_ok (broker w))).
Qed.
Lemma pool_exit_ok t w : world_ok w → world_ok (exit t w).
Proof using.
  intros Hw. apply (world_ok_threads w); try done. intros t' pc'; cbn [exit upd threads].
  intros [_ ?]%lookup_delete_Some. auto.
Qed.
Lemma spawn_all_ok pcs w : world_ok w → Forall (thread_ok (broker w)) pcs → world_ok (spawn_all pcs w).
Proof using.
  revert w. induction pcs as [|pc pcs IH]; intros w Hw Hall; [done|]. apply Forall_cons in Hall as [Hpc Hall].
  cbn [spawn_all foldl]. apply IH; [by apply pool_spawn_ok|done].
Qed.

(** A new broker with emitted events. *)
Lemma pool_quiet_world b evs w :
  world_ok w → quiet (broker w) b → conn_same (broker w) b → (∀ p i, claims p i evs = 0%nat) →
  world_ok (emit evs (set_broker b w)).
Proof using.
  intros Hw Hq Hs Hz. destruct (Hq (wo_broker _ Hw)) as [Hb Hle]. apply (pool_world_ok_step None w _ evs); try done.
  intros t pc Ht. by left.
Qed.

Lemma quiet_world' b w : world_ok w → quiet (broker w) b → conn_same (broker w) b → world_ok (set_broker b w).
Proof using.
  intros Hw Hq Hs. destruct (Hq (wo_broker _ Hw)) as [Hb Hle]. apply (pool_world_ok_step None w _ []); try done.
  - by rewrite app_nil_r.
  - intros t pc Ht. by left.
Qed.

Lemma closed_claims cs p i : claims p i (EvClosed <$> cs) = 0%nat.
Proof using. unfold claims. by induction cs as [|c cs IH]. Qed.

(** *** Every step keeps the invariant *)

Lemma stop_conns p b : conn_same b (stop p b).1.
Proof using. apply conn_pendings. unfold stop. by repeat case_match. Qed.

Lemma send_quiet p index wrote b : quiet b (Send p index wrote b).1.
Proof using. unfold Send. repeat case_match; first [apply pool_quiet_same | apply stop_quiet]. Qed.
Lemma send_conns p index wrote b : conn_same b (Send p index wrote b).1.
Proof using. unfold Send. repeat case_match; first [done | apply stop_conns]. Qed.

Lemma closers_ok b pend pool :
  (∀ q, pend = Some q → is_Some (pendings b !! q) ∧ pools b !! q = None ∧ ∀ c, pending b !! c ≠ Some q) →
  Forall (thread_ok b) (closers pend pool).
Proof using.
  intros Hp. unfold closers. apply Forall_app. split; [destruct pend; [|done]|destruct pool; [|done]];
    apply Forall_singleton; [by apply Hp|done].
Qed.

Lemma remove_world_ok clientID sessionID g w : world_ok w → world_ok (remove clientID sessionID g w).
Proof using.
  intros Hw. unfold remove. destruct (RemoveGeneration clientID sessionID g (broker w)) as [[b pend] pool] eqn:E.
  destruct (remove_ok _ _ _ _ _ _ _ E (wo_broker _ Hw)) as [[Hb Hle] Hc].
  assert (Hpend : pendings b = pendings (broker w)) by (unfold RemoveGeneration in E; by injection E as <- _ _).
  apply spawn_all_ok; [apply quiet_world'; [done|done|by apply conn_pendings]|].
  apply closers_ok. intros q ->. destruct (Hc q eq_refl). split_and!; [|done|done]. cbn [set_broker upd broker]. rewrite Hpend.
  unfold RemoveGeneration in E. injection E as _ E _.
  destruct (pending (broker w) !! clientID) as [p|]; [|done]. cbn [mbind option_bind] in E.
  destruct (pendings (broker w) !! p) eqn:Hp; [|done]. cbn [mbind option_bind] in E. destruct (owned _ _ _); [|done].
  injection E as <-. by rewrite Hp.
Qed.

Lemma bind_world_ok binding auth conn now w b p :
  bind_claim DecodeString sha256 binding auth conn now (broker w) = (b, Ok p) → world_ok w →
  world_ok (emit [EvClaimed p (BindChannelIndex binding) conn binding auth (default [] (DecodeString (BindTicket binding)))]
              (spawn (Acking p binding) (set_broker b w))).
Proof using.
  intros E Hw. destruct (claim_ok _ _ _ _ _ _ _ E (wo_broker _ Hw)) as ([Hb Hle] & Hcl & _).
  destruct (Hcl p eq_refl) as (pend & ch & ticket & Hp & Hch & Hnone & Ht & Eb & Hclaim & _ & _).
  set (i := BindChannelIndex binding) in *. rewrite Ht. change (default [] (Some ticket)) with ticket.
  assert (Hconn : ∀ q j, conn_of b q j = if decide (p = q ∧ i = j) then Some conn else conn_of (broker w) q j).
  { intros q j. rewrite Eb. unfold conn_of, on_channel. cbn [upd pendings]. rewrite lookup_alter.
    destruct (decide (p = q)) as [<-|]; [|by rewrite decide_False by (by intros [? _])].
    rewrite Hp. cbn [fmap option_fmap option_map mbind option_bind upd channels]. rewrite list_lookup_alter.
    destruct (decide (i = j)) as [<-|]; [|by rewrite decide_False by (by intros [_ ?])].
    rewrite decide_True by done. by rewrite Hch. }
  assert (Hold : conn_of (broker w) p i = None) by (unfold conn_of; rewrite Hp; cbn [mbind option_bind]; by rewrite Hch).
  destruct Hw as [_ Hth Hf [He Ho]]. constructor; cbn [emit spawn set_broker upd broker threads next events].
  - done.
  - intros t pc [[<- <-]|[_ Hold']]%lookup_insert_Some.
    + destruct Hclaim as [_ (pend' & ch' & Hp' & Hch' & Hc' & Hm & _)]. exists pend', ch'. split_and!; [done| |done|by rewrite Hc'].
      unfold bindingMatchesPool in Hm. bool_to_prop. done.
    + eapply pool_thread_ok_le; [done|done|by eapply Hth].
  - intros q Hq. destruct (pendings (broker w) !! q) as [x|] eqn:Ex; [assert (q < next w)%nat by (apply Hf; eauto); lia|].
    rewrite (bl_new _ _ _ Hle _ Ex) in Hq by done. by destruct Hq.
  - constructor.
    + intros q j c. rewrite Hconn. case_decide as Hd; [destruct Hd as [<- <-]; intros [= <-]|].
      * exists binding, auth, ticket. split; [apply elem_of_app; right; by apply list_elem_of_singleton|done].
      * intros (bd & au & tk & Hin & Hc)%He. exists bd, au, tk. split; [apply elem_of_app; by left|by eapply claimed_le].
    + intros q j. rewrite claims_app, Ho, Hconn. unfold claims. cbn [List.filter is_claim length].
      case_decide as Hd; [destruct Hd as [<- <-]|].
      * rewrite Hold, !bool_decide_eq_true_2 by done. done.
      * case_bool_decide; case_bool_decide; subst; try (by destruct Hd). all: by rewrite Nat.add_0_r.
Qed.

Lemma pool_thread_step_ok t pc ok now w w' :
  threads w !! t = Some pc → thread_step t pc ok now w = Some w' → world_ok w → world_ok w'.
Proof using.
  intros Ht E Hw. pose proof (wo_threads _ Hw _ _ Ht) as Hpc. destruct pc; cbn [thread_step thread_ok] in *.
  - injection E as <-. destruct ok; by apply pool_goto_ok.
  - destruct (bind_ready p binding (negb ok) now (broker w)) as [b r] eqn:Er. injection E as <-.
    destruct (ready_ok _ _ _ _ _ _ _ Er Hpc (wo_broker _ Hw)) as [Hb Hle].
    pose proof (conn_bind_ready p binding (negb ok) now (broker w)) as Hs. rewrite Er in Hs. cbn [fst] in Hs.
    assert (Hw' : world_ok (set_broker b w)) by (by apply quiet_world').
    destruct r as [|previous]; [by apply pool_goto_ok|].
    assert (Hw2 : world_ok (spawn_all (closers None previous) (set_broker b w))) by (apply spawn_all_ok; [done|by apply closers_ok]).
    apply pool_goto_ok; [done|]. replace (broker (spawn_all _ _)) with b; [by eapply bind_held_le|].
    by destruct previous.
  - injection E as <-. by apply pool_exit_ok, remove_world_ok.
  - destruct ok; [|injection E as <-; by apply pool_goto_ok].
    repeat (case_match; try discriminate E); injection E as <-; by apply pool_exit_ok.
  - destruct Hpc as (_ & Hnp & Hne). destruct (closePendingPool p (broker w)) as [b cs] eqn:Ec. injection E as <-.
    pose proof (close_pending_ok p (broker w) Hnp Hne) as Hq. pose proof (conn_close_pending p (broker w)) as Hs.
    rewrite Ec in Hq, Hs. cbn [fst] in Hq, Hs. apply pool_exit_ok, pool_quiet_world; [done|done|done|apply closed_claims].
  - destruct (stop p (broker w)) as [b cs] eqn:Ec. injection E as <-. pose proof (stop_quiet p (broker w)) as Hq.
    rewrite Ec in Hq. apply pool_exit_ok, pool_quiet_world; [done|done| |apply closed_claims].
    apply conn_pendings. unfold stop in Ec. repeat case_match; by simplify_eq.
Qed.

Lemma pool_step_world_ok a w w' : step a w = Some w' → world_ok w → world_ok w'.
Proof using.
  intros E Hw. destruct a as [sp lifetime tickets now|binding auth conn now|clientID sessionID g|clientID generation| |p index wrote|p|p packet index g now|p i input now|t ok now]; cbn [PoolBroker.step] in E.
  - destruct (match tickets with Some _ => _ | None => _ end) as [[]|] eqn:Hlen; [|done]. cbn [mbind option_bind] in E.
    destruct (Prepare EncodeToString sha256 sp lifetime tickets (next w) now (broker w)) as [b r] eqn:Ep.
    injection E as <-. pose proof (fresh_pool _ Hw) as Hfresh.
    destruct (pool_prepare_ok _ _ _ _ _ _ _ _ Ep) as (Hb & Hle & Hprev); [|done|apply Hw|].
    { intros ts ->. case_bool_decide; [done|discriminate]. }
    assert (Hw' : world_ok ((set_broker b w) <| next := S (next w) |>)).
    { apply (pool_world_ok_step (Some (next w)) w _ []); cbn [set_broker upd broker next events threads]; try done; auto.
      - intros p [= <-]. split; [done|lia].
      - by eapply conn_prepare.
      - by rewrite app_nil_r. }
    destruct r as [[os [q|]]|]; try done. apply spawn_all_ok; [done|]. apply closers_ok. intros q' [= <-].
    destruct (Hprev os q eq_refl). split_and!; [|done|done]. cbn [set_broker upd broker].
    unfold Prepare in Ep. repeat case_match; simplify_eq. cbn [upd pendings].
    match goal with Hq : pending (broker w) !! _ = Some q |- _ => destruct (bo_pending _ (wo_broker _ Hw) _ _ Hq) as (pend & Hp & _) end.
    rewrite lookup_insert_ne by congruence. by rewrite Hp.
  - destruct (bind_claim DecodeString sha256 binding auth conn now (broker w)) as [b [p|e]] eqn:Eb; injection E as <-.
    + by eapply bind_world_ok.
    + destruct (claim_ok _ _ _ _ _ _ _ Eb (wo_broker _ Hw)) as (_ & _ & He). rewrite (He e eq_refl). by destruct w.
  - injection E as <-. by apply remove_world_ok.
  - destruct (expire clientID generation (broker w)) as [b pend] eqn:Ee. injection E as <-.
    destruct (expire_ok _ _ _ _ _ Ee (wo_broker _ Hw)) as [[Hb Hle] Hc].
    assert (Hpend : pendings b = pendings (broker w)) by (unfold expire in Ee; by injection Ee as <- _).
    apply spawn_all_ok; [apply quiet_world'; [done|done|by apply conn_pendings]|].
    apply closers_ok. intros q ->. destruct (Hc q eq_refl). split_and!; [|done|done]. cbn [set_broker upd broker]. rewrite Hpend.
    unfold expire in Ee. injection Ee as _ Ee.
    destruct (pending (broker w) !! clientID) as [p|]; [|done]. cbn [mbind option_bind] in Ee.
    destruct (pendings (broker w) !! p) eqn:Hp; [|done]. cbn [mbind option_bind] in Ee. destruct (_ =? _); [|done].
    injection Ee as <-. by rewrite Hp.
  - destruct (Close ρ (broker w)) as [[b pends] actives] eqn:Ec. injection E as <-.
    destruct (pool_close_ok _ _ _ _ Ec (wo_broker _ Hw)) as [[Hb Hle] Hc].
    assert (Hpend : pendings b = pendings (broker w)) by (unfold Close in Ec; destruct (closed _); by injection Ec as <- _ _).
    apply spawn_all_ok; [apply quiet_world'; [done|done|by apply conn_pendings]|]. apply Forall_app. split.
    + apply Forall_fmap, Forall_forall. intros q Hq. destruct (Hc q Hq). cbn [compose thread_ok]. split_and!; [|done|done].
      cbn [set_broker upd broker]. rewrite Hpend. unfold Close in Ec. destruct (closed (broker w)); injection Ec as _ <- _.
      * by apply elem_of_nil in Hq.
      * apply list_elem_of_fmap in Hq as ([c q'] & -> & Hin). apply range_elem in Hin.
        destruct (bo_pending _ (wo_broker _ Hw) _ _ Hin) as (pend & Hp & _). cbn [snd]. rewrite Hp. eauto.
    + apply Forall_fmap, Forall_forall. done.
  - pose proof (send_quiet p index wrote (broker w)) as Hq. pose proof (send_conns p index wrote (broker w)) as Hs.
    destruct (Send p index wrote (broker w)) as [b cs]. injection E as <-. by apply pool_quiet_world, closed_claims.
  - pose proof (stop_quiet p (broker w)) as Hq. pose proof (stop_conns p (broker w)) as Hs.
    destruct (stop p (broker w)) as [b cs]. injection E as <-. by apply pool_quiet_world, closed_claims.
  - pose proof (enqueue_quiet p packet index g now (broker w)) as Hq.
    destruct (Enqueue p packet index g now (broker w)) as [b err] eqn:Ee. injection E as <-.
    apply pool_quiet_world; [done|done| |].
    + apply conn_pendings. unfold Enqueue in Ee. repeat case_match; by simplify_eq.
    + intros q j. destruct (is_some err); [done|]. by case_match.
  - destruct (writer_step p i input now (broker w)) as [[b evs]|] eqn:Ew; [|done]. cbn [mbind option_bind] in E. injection E as <-.
    destruct (writer_pendings _ _ _ _ _ _ _ Ew) as [Ep Hz]. apply pool_quiet_world; [done|by eapply writer_quiet|by apply conn_pendings|done].
  - destruct (threads w !! t) as [pc|] eqn:Ht; [|done]. by eapply pool_thread_step_ok.
Qed.

Lemma start_pools_ok : world_ok start.
Proof using. by repeat constructor; try (intros ? [? Hp]; discriminate Hp). Qed.

Lemma pool_reachable_ok w : reachable w → world_ok w.
Proof using. induction 1; [apply start_pools_ok|by eapply pool_step_world_ok]. Qed.
End props.
