(* ===== verification/PoolQueues.v ===== *)
(** * Channel pools: the packet queues

    Each stream of a pool has a bounded queue and a writer.  Over all runs the
    packets a writer sends are a subsequence of those accepted for its stream,
    each is sent before its deadline, the counter of waiting packets is exact,
    and a finished writer leaves nothing behind. *)

From S2P Require Import Prelude GoTime NetAddr GoIO Authentication PoolBroker PoolProps.

Local Open Scope Z_scope.

Definition accepted (p i : nat) : list Event → list queuedPacket :=
  omap (λ ev, match ev with EvQueued q j pkt => if decide (p = q ∧ i = j) then Some pkt else None | _ => None end).
Definition sent (p i : nat) : list Event → list queuedPacket :=
  omap (λ ev, match ev with EvSending q j pkt _ => if decide (p = q ∧ i = j) then Some pkt else None | _ => None end).

(** Packets counted as waiting: those in the queues and those just received. *)
Definition held (pc : WriterPc) : nat := match pc with Took _ | Drained => 1 | _ => 0 end.
Definition load (pool : Pool) : nat := (sum_list_with length (queues pool) + sum_list_with held (writers pool))%nat.

Definition in_flight (pc : WriterPc) : list queuedPacket :=
  match pc with Took q | Checking q | Guarding q _ => [q] | _ => [] end.
Definition over (pc : WriterPc) : bool := match pc with Draining | Drained | Finished => true | _ => false end.

Record lane_ok (cap : nat) (done : bool) (queue : list queuedPacket) (pc : WriterPc)
    (acc snt : list queuedPacket) : Prop := {
  lo_bound : (length queue ≤ cap)%nat;
  lo_order : ∃ used, acc = used ++ queue ∧ snt ++ in_flight pc `sublist_of` used;
  lo_over : over pc = true → done = true;
  lo_finished : pc = Finished → queue = [];
  lo_checked q t : pc = Guarding q t → Before t (deadline q) = true
}.

Lemma accepted_app p i evs evs' : accepted p i (evs ++ evs') = accepted p i evs ++ accepted p i evs'.
Proof. apply omap_app. Qed.
Lemma sent_app p i evs evs' : sent p i (evs ++ evs') = sent p i evs ++ sent p i evs'.
Proof. apply omap_app. Qed.

Definition silent (evs : list Event) : Prop := ∀ p i, accepted p i evs = [] ∧ sent p i evs = [].

Lemma closed_silent cs : silent (EvClosed <$> cs).
Proof. intros p i. unfold accepted, sent. by induction cs as [|c cs IH]. Qed.

(** ** One lane of a pool *)

(** What a critical section does to stream [i] of pool [p]. *)
Record lane_step (p i : nat) (b b' : PoolBroker) (evs : list Event) (pool pool' : Pool)
    (queue queue' : list queuedPacket) (pc pc' : WriterPc) : Prop := {
  ls_pool : pools b !! p = Some pool;
  ls_queue : queues pool !! i = Some queue;
  ls_writer : writers pool !! i = Some pc;
  ls_pools : pools b' = <[p := pool']> (pools b);
  ls_queues : queues pool' = <[i := queue']> (queues pool);
  ls_writers : writers pool' = <[i := pc']> (writers pool);
  ls_connections : connections pool' = connections pool;
  ls_spec : pool_spec pool' = pool_spec pool;
  ls_done : PoolBroker.done pool = true → PoolBroker.done pool' = true;
  ls_count : queued (counters b') + Z.of_nat (length queue) + Z.of_nat (held pc) =
             queued (counters b) + Z.of_nat (length queue') + Z.of_nat (held pc');
  ls_local q j : (q, j) ≠ (p, i) → accepted q j evs = [] ∧ sent q j evs = [];
  ls_ok acc snt : lane_ok (queue_capacity pool) (PoolBroker.done pool) queue pc acc snt →
    lane_ok (queue_capacity pool) (PoolBroker.done pool') queue' pc' (acc ++ accepted p i evs) (snt ++ sent p i evs);
  ls_fresh acc snt q j pkt now : lane_ok (queue_capacity pool) (PoolBroker.done pool) queue pc acc snt →
    EvSending q j pkt now ∈ evs → Before now (deadline pkt) = true;
  ls_size q j pkt : EvQueued q j pkt ∈ evs → q = p ∧
    payload pkt ≠ [] ∧ Z.of_nat (length (payload pkt)) <= SpecMTU (pool_spec pool)
}.

Lemma silent_here p i evs : evs = [] → ∀ acc snt : list queuedPacket, acc ++ accepted p i evs = acc ∧ snt ++ sent p i evs = snt.
Proof. intros -> acc snt. by rewrite !app_nil_r. Qed.

(** The writer keeps its queue. *)
Lemma lane_goto p i b b' evs pool pool' queue pc pc' :
  pools b !! p = Some pool → queues pool !! i = Some queue → writers pool !! i = Some pc →
  pools b' = <[p := pool']> (pools b) → queues pool' = queues pool → writers pool' = <[i := pc']> (writers pool) →
  connections pool' = connections pool → pool_spec pool' = pool_spec pool →
  (PoolBroker.done pool = true → PoolBroker.done pool' = true) →
  queued (counters b') + Z.of_nat (held pc) = queued (counters b) + Z.of_nat (held pc') →
  silent evs → in_flight pc' = [] ∨ in_flight pc' = in_flight pc →
  (over pc' = true → PoolBroker.done pool' = true ∨ over pc = true) → (pc' = Finished → queue = []) →
  (∀ q t, pc' = Guarding q t → Before t (deadline q) = true) →
  (∀ ev, ev ∈ evs → ∃ c, ev = EvClosed c) →
  lane_step p i b b' evs pool pool' queue queue pc pc'.
Proof.
  intros Hp Hq Hw Ep Eq Ew Ec Es Hd Hn Hs Hf Ho Hfin Hchk Hev. constructor; try done.
  - by rewrite Eq, list_insert_id.
  - lia.
  - intros acc snt [Hb (used & -> & Hsub) Hover _ _]. destruct (Hs p i) as [-> ->]. rewrite !app_nil_r.
    constructor; [done| |naive_solver|done|done]. exists used. split; [done|]. destruct Hf as [->| ->]; [|done].
    rewrite app_nil_r. etrans; [|exact Hsub]. by apply sublist_inserts_r.
  - intros acc snt q j pkt now _ Hin. destruct (Hev _ Hin) as [c [=]].
  - intros q j pkt Hin. destruct (Hev _ Hin) as [c [=]].
Qed.

(** The writer receives the head of its queue. *)
Lemma lane_receive p i b b' pool (f : queuedPacket → WriterPc) q rest pc :
  pools b !! p = Some pool → queues pool !! i = Some (q :: rest) → writers pool !! i = Some pc →
  receive p i pool f b = Some b' → held pc = 0%nat → held (f q) = 1%nat → in_flight pc = [] →
  in_flight (f q) = [] ∨ in_flight (f q) = [q] → over (f q) = over pc → f q ≠ Finished → (∀ x t, f q ≠ Guarding x t) →
  ∃ pool', lane_step p i b b' [] pool pool' (q :: rest) rest pc (f q).
Proof.
  unfold receive. intros Hp Hq Hw. rewrite Hq. intros [= <-] Hh Hh' Hfl Hfl' Ho Hne Hng. eexists. constructor; try done.
  - cbn [set_writer upd counters]. rewrite Hh, Hh'. cbn [length]. lia.
  - intros acc snt [Hb (used & -> & Hsub) Hd _ _]. cbn [accepted sent omap list_omap upd PoolBroker.done]. rewrite !app_nil_r.
    constructor; [cbn [length] in Hb; lia| |by rewrite Ho|done|intros x t Hx; by apply Hng in Hx]. exists (used ++ [q]). split; [by rewrite <- app_assoc|].
    rewrite Hfl, app_nil_r in Hsub. apply sublist_app; [done|]. destruct Hfl' as [->| ->]; [apply sublist_nil_l|done].
  - intros acc snt q0 j pkt now _ Hin. by apply elem_of_nil in Hin.
  - intros q0 j pkt Hin. by apply elem_of_nil in Hin.
Qed.

(** The writer passes its checks and sends. *)
Lemma lane_send p i b pool queue q t :
  pools b !! p = Some pool → queues pool !! i = Some queue → writers pool !! i = Some (Guarding q t) →
  ∃ pool', lane_step p i b (set_writer p i pool (Sending q) b) [EvSending p i q t] pool pool' queue queue (Guarding q t) (Sending q).
Proof.
  intros Hp Hq Hw. eexists. constructor; try done.
  - cbn [upd queues]. by rewrite list_insert_id.
  - intros q' j Hne. cbn [accepted sent omap list_omap]. rewrite decide_False; [done|]. intros [-> ->]. done.
  - intros acc snt [Hb (used & -> & Hsub) _ _ _]. cbn [accepted sent omap list_omap]. rewrite decide_True by done.
    rewrite app_nil_r. constructor; [done| |done|done|done]. exists used. split; [done|]. cbn [in_flight] in *. by rewrite app_nil_r.
  - intros acc snt q' j pkt now' [_ _ _ _ Hchk] [=-> -> -> ->]%list_elem_of_singleton. by apply Hchk.
  - intros q' j pkt [=]%list_elem_of_singleton.
Qed.

Lemma lane_enqueue p i packet g now b b' :
  Enqueue p packet i g now b = (b', None) → broker_ok b →
  ∃ pool pool' queue pc q, lane_step p i b b' [EvQueued p i q] pool pool' queue (queue ++ [q]) pc pc ∧
    payload q = packet ∧ PoolBroker.done pool = false.
Proof.
  unfold Enqueue. intros E Hb. destruct (pools b !! p) as [pool|] eqn:Hp; [|done].
  destruct (PoolBroker.done pool) eqn:Hd; [done|]. destruct (queues pool !! i) as [queue|] eqn:Hq; [|done].
  destruct (_ || _) eqn:Hg; [done|]. case_bool_decide as Hcap; [done|]. injection E as <-. bool_to_prop.
  destruct (bo_pools _ Hb _ _ Hp) as (pend & _ & Hv). destruct Hv as [_ _ _ _ Hlq Hlw].
  destruct (lookup_lt_is_Some_2 (writers pool) i) as [pc Hw].
  { rewrite Hlw, <- Hlq. by eapply lookup_lt_Some. }
  set (q := {| payload := packet; deadline := Add now (SpecWriteTimeout (pool_spec pool)); guard := g |}).
  exists pool, (pool <| queues := <[i := queue ++ [q]]> (queues pool) |>), queue, pc, q. split; [|done]. constructor; cbn [add_queued upd pools queues connections pool_spec PoolBroker.done writers counters queued]; try done.
  - by rewrite list_insert_id.
  - rewrite length_app. cbn [length]. lia.
  - intros q' j Hne. cbn [accepted sent omap list_omap]. rewrite decide_False; [done|]. intros [-> ->]. done.
  - intros acc snt [Hbd (used & -> & Hsub) Ho Hf Hck]. cbn [accepted sent omap list_omap]. rewrite decide_True, app_nil_r by done.
    constructor; [|exists used; by rewrite <- app_assoc|done| |done].
    + rewrite length_app. cbn [length]. lia.
    + intros ->. by rewrite Ho in Hd.
  - intros acc snt q' j pkt now' _ [=]%list_elem_of_singleton.
  - intros q' j pkt [=-> -> ->]%list_elem_of_singleton. done.
Qed.

Lemma writer_lane p i input now b b' evs :
  writer_step p i input now b = Some (b', evs) → broker_ok b →
  ∃ pool pool' queue queue' pc pc', lane_step p i b b' evs pool pool' queue queue' pc pc'.
Proof.
  unfold writer_step. intros E Hb. destruct (pools b !! p) as [pool|] eqn:Hp; [|done]. cbn [mbind option_bind] in E.
  destruct (writers pool !! i) as [pc|] eqn:Hw; [|done]. cbn [mbind option_bind] in E. cbv zeta in E.
  destruct (bo_pools _ Hb _ _ Hp) as (pend & _ & Hv). destruct Hv as [_ _ _ _ Hlq Hlw].
  destruct (lookup_lt_is_Some_2 (queues pool) i) as [queue Hq].
  { rewrite Hlq, <- Hlw. by eapply lookup_lt_Some. }
  assert (Hgo : ∀ pc' b0, pools b0 = pools b → queued (counters b0) + Z.of_nat (held pc) = queued (counters b) + Z.of_nat (held pc') →
    in_flight pc' = [] ∨ in_flight pc' = in_flight pc → (over pc' = true → PoolBroker.done pool = true ∨ over pc = true) →
    (pc' = Finished → queue = []) → (∀ q t, pc' = Guarding q t → Before t (deadline q) = true) → ∃ pool', lane_step p i b (set_writer p i pool pc' b0) [] pool pool' queue queue pc pc').
  { intros pc' b0 Ep Hn Hf Ho Hfin Hck. exists (pool <| writers := <[i := pc']> (writers pool) |>). apply lane_goto; try done.
    - unfold set_writer. cbn [upd pools]. by rewrite Ep.
    - intros ev Hin. by apply elem_of_nil in Hin. }
  assert (Hex : ∀ pc' b0, (∃ pool', lane_step p i b b0 evs pool pool' queue queue pc pc') →
    ∃ pool pool' queue queue' pc pc', lane_step p i b b0 evs pool pool' queue queue' pc pc') by naive_solver.
  destruct pc, input; try discriminate E.
  - destruct (PoolBroker.done pool) eqn:Hd; [|done]. injection E as <- <-. eapply Hex, Hgo; try done; auto.
  - destruct (receive _ _ _ _ _) as [b0|] eqn:Hr; [|done]. cbn [mbind option_bind] in E. injection E as <- <-.
    unfold receive in Hr. rewrite Hq in Hr. destruct queue as [|q rest]; [done|].
    destruct (lane_receive p i b b0 pool Took q rest Waiting) as [pool' Hl]; try done; auto.
    { unfold receive. by rewrite Hq. }
    do 6 eexists. exact Hl.
  - injection E as <- <-. eapply Hex, Hgo; try done; auto. cbn [add_queued upd counters queued held]. lia.
  - destruct (PoolBroker.done pool) eqn:Hd; [|done]. injection E as <- <-. eapply Hex, Hgo; try done; auto.
  - destruct (PoolBroker.done pool) eqn:Hd; [done|]. destruct (negb _) eqn:Hn; injection E as <- <-; eapply Hex, Hgo; try done; auto.
    intros x t [= <- <-]. by apply negb_false_iff in Hn.
  - destruct answer; injection E as <- <-; [|eapply Hex, Hgo; try done; auto]. eapply Hex. by apply lane_send.
  - destruct ok; injection E as <- <-; eapply Hex, Hgo; try done; auto.
  - destruct (stop p (set_writer p i pool Draining b)) as [b0 cs] eqn:Hs. injection E as <- <-.
    unfold stop in Hs. cbn [set_writer upd pools] in Hs. rewrite lookup_insert_eq in Hs. cbn [upd PoolBroker.done] in Hs.
    destruct (PoolBroker.done pool) eqn:Hd; injection Hs as <- <-.
    + eapply Hex, Hgo; try done; auto.
    + exists pool, (pool <| writers := <[i := Draining]> (writers pool) |> <| PoolBroker.done := true |>), queue, queue, Stopping, Draining.
      apply lane_goto; try done; auto using closed_silent.
      * cbn [upd pools]. by rewrite insert_insert_eq.
      * intros ev (c & -> & _)%list_elem_of_fmap. eauto.
  - rewrite Hq in E. destruct queue as [|q rest].
    + injection E as <- <-. eapply Hex, Hgo; try done; auto.
    + destruct (receive _ _ _ _ _) as [b0|] eqn:Hr; [|done]. cbn [mbind option_bind] in E. injection E as <- <-.
      destruct (lane_receive p i b b0 pool (λ _, Drained) q rest Draining) as [pool' Hl]; try done; auto.
      do 6 eexists. exact Hl.
  - injection E as <- <-. eapply Hex, Hgo; try done; auto. cbn [add_queued upd counters queued held]. lia.
Qed.

(** ** All pools *)

Definition lane_of (b : PoolBroker) (p i : nat) : option (Pool * list queuedPacket * WriterPc) :=
  pool ← pools b !! p; queue ← queues pool !! i; pc ← writers pool !! i; Some (pool, queue, pc).

Record queues_ok (b : PoolBroker) (evs : list Event) : Prop := {
  qo_lane p i pool queue pc : lane_of b p i = Some (pool, queue, pc) →
    lane_ok (queue_capacity pool) (PoolBroker.done pool) queue pc (accepted p i evs) (sent p i evs);
  qo_none p i : lane_of b p i = None → accepted p i evs = [] ∧ sent p i evs = [];
  qo_count : queued (counters b) = sum_of (λ _ pool, Z.of_nat (load pool)) (pools b);
  qo_fresh p i pkt now : EvSending p i pkt now ∈ evs → Before now (deadline pkt) = true;
  qo_size p i pkt : EvQueued p i pkt ∈ evs → ∃ pool, pools b !! p = Some pool ∧
    payload pkt ≠ [] ∧ Z.of_nat (length (payload pkt)) <= SpecMTU (pool_spec pool)
}.

Lemma lane_of_Some b p i pool queue pc :
  lane_of b p i = Some (pool, queue, pc) ↔
  pools b !! p = Some pool ∧ queues pool !! i = Some queue ∧ writers pool !! i = Some pc.
Proof.
  unfold lane_of. split.
  - destruct (pools b !! p) as [pool0|]; [|done]. cbn. destruct (queues pool0 !! i) eqn:?; [|done]. cbn.
    destruct (writers pool0 !! i) eqn:?; [|done]. by intros [= <- <- <-].
  - intros (-> & Hq & Hw). cbn. by rewrite Hq; cbn; rewrite Hw.
Qed.

Lemma silent_app evs evs' p i : silent evs' → accepted p i (evs ++ evs') = accepted p i evs ∧ sent p i (evs ++ evs') = sent p i evs.
Proof. intros Hs. destruct (Hs p i) as [E1 E2]. by rewrite accepted_app, sent_app, E1, E2, !app_nil_r. Qed.

Lemma silent_In_send evs p i pkt now : silent evs → EvSending p i pkt now ∉ evs.
Proof.
  intros Hs Hin. destruct (Hs p i) as [_ E]. apply (elem_of_nil (A:=queuedPacket) pkt). rewrite <- E.
  apply list_elem_of_omap. eexists. split; [exact Hin|]. cbn beta iota. by rewrite decide_True.
Qed.
Lemma silent_In_queue evs p i pkt : silent evs → EvQueued p i pkt ∉ evs.
Proof.
  intros Hs Hin. destruct (Hs p i) as [E _]. apply (elem_of_nil (A:=queuedPacket) pkt). rewrite <- E.
  apply list_elem_of_omap. eexists. split; [exact Hin|]. cbn beta iota. by rewrite decide_True.
Qed.

(** A pool that keeps its queues and writers. *)
Definition same_lanes (pool pool' : Pool) : Prop :=
  queues pool' = queues pool ∧ writers pool' = writers pool ∧ connections pool' = connections pool ∧
  pool_spec pool' = pool_spec pool ∧ (PoolBroker.done pool = true → PoolBroker.done pool' = true).

(** Steps that touch no queue: pools stay, end, or are activated empty. *)
Record queues_kept (b b' : PoolBroker) : Prop := {
  qk_old p pool : pools b !! p = Some pool → ∃ pool', pools b' !! p = Some pool' ∧ same_lanes pool pool';
  qk_new p pool : pools b !! p = None → pools b' !! p = Some pool →
    Forall (λ q, q = []) (queues pool) ∧ Forall (λ pc, pc = Waiting) (writers pool);
  qk_count : queued (counters b') = queued (counters b)
}.

Lemma queues_kept_same b b' : pools b' = pools b → queued (counters b') = queued (counters b) → queues_kept b b'.
Proof.
  intros Ep En. constructor; [|rewrite Ep; congruence|done]. intros p pool Hp. exists pool. rewrite Ep. by split_and!.
Qed.

Lemma load_new pool : Forall (λ q, q = []) (queues pool) → Forall (λ pc, pc = Waiting) (writers pool) → load pool = 0%nat.
Proof.
  unfold load. intros H1 H2. assert (sum_list_with length (queues pool) = 0%nat) as -> by (induction H1; subst; done).
  induction H2; subst; done.
Qed.

Lemma sum_kept (f : nat → Pool → Z) (m m' : gmap nat Pool) :
  (∀ p pool, m !! p = Some pool → ∃ pool', m' !! p = Some pool' ∧ f p pool' = f p pool) →
  (∀ p pool, m !! p = None → m' !! p = Some pool → f p pool = 0) → sum_of f m' = sum_of f m.
Proof.
  revert m'. induction m as [|p pool m Hp IH] using map_ind; intros m' Ho Hn.
  - apply sum_of_zero. intros p pool. by apply Hn.
  - destruct (Ho p pool) as (pool' & Hp' & Ef); [apply lookup_insert_eq|].
    rewrite <- (insert_delete_id m' p pool') by done.
    rewrite !sum_of_insert, Ef by (done || apply lookup_delete_eq). f_equal. apply IH.
    + intros q pl Hq. assert (p ≠ q) by congruence. destruct (Ho q pl) as (pl' & ? & ?); [by rewrite lookup_insert_ne|].
      exists pl'. by rewrite lookup_delete_ne.
    + intros q pl Hq [Hne Hq']%lookup_delete_Some. apply Hn; [|done]. by rewrite lookup_insert_ne.
Qed.

Lemma queues_kept_ok b b' evs evs' : queues_kept b b' → silent evs' → queues_ok b evs → queues_ok b' (evs ++ evs').
Proof.
  intros [Ho Hn Hc] Hs [Q1 Q2 Q3 Q4 Q5]. constructor.
  - intros p i pool' queue pc (Hp & Hq & Hw)%lane_of_Some. destruct (silent_app evs evs' p i Hs) as [-> ->].
    destruct (pools b !! p) as [pool|] eqn:Eo.
    + destruct (Ho _ _ Eo) as (pool0 & Hp0 & Eq & Ew & Ec & _ & Hd). simplify_eq.
      rewrite Eq in Hq. rewrite Ew in Hw. destruct (Q1 p i pool queue pc) as [A1 A2 A3 A4 A5]; [by apply lane_of_Some|].
      constructor; [by unfold queue_capacity in *; rewrite Ec|done|auto|done|done].
    + destruct (Hn _ _ Eo Hp) as [H1 H2]. assert (El : lane_of b p i = None) by (unfold lane_of; by rewrite Eo).
      destruct (Q2 _ _ El) as [-> ->]. rewrite Forall_lookup in H1. rewrite Forall_lookup in H2. rewrite (H1 _ _ Hq), (H2 _ _ Hw).
      constructor; try done; [cbn; lia|by exists []].
  - intros p i Hnone. destruct (silent_app evs evs' p i Hs) as [-> ->]. apply Q2. revert Hnone. unfold lane_of.
    destruct (pools b !! p) as [pool|] eqn:Eo; [|done]. destruct (Ho _ _ Eo) as (pool0 & -> & Eq & Ew & _). cbn.
    rewrite Eq, Ew. destruct (queues pool !! i); [cbn|done]. by destruct (writers pool !! i).
  - rewrite Hc, Q3. symmetry. apply sum_kept.
    + intros p pool Hp. destruct (Ho _ _ Hp) as (pool' & ? & Eq & Ew & _). exists pool'. unfold load. by rewrite Eq, Ew.
    + intros p pool Hp Hp'. destruct (Hn _ _ Hp Hp'). by rewrite load_new.
  - intros p i pkt now [?|Hin]%elem_of_app; [eauto|]. by apply silent_In_send in Hin.
  - intros p i pkt [Hin|Hin]%elem_of_app; [|by apply silent_In_queue in Hin].
    destruct (Q5 _ _ _ Hin) as (pool & Hp & ? & ?). destruct (Ho _ _ Hp) as (pool' & ? & _ & _ & _ & Es & _).
    exists pool'. by rewrite Es.
Qed.

Lemma lane_step_ok p i b b' evs evs' pool pool' queue queue' pc pc' :
  lane_step p i b b' evs' pool pool' queue queue' pc pc' → queues_ok b evs → queues_ok b' (evs ++ evs').
Proof.
  intros [Hp Hq Hw Ep Eq Ew Ec Es Hd Hn Hl Hok Hf Hz] [Q1 Q2 Q3 Q4 Q5].
  assert (Hcap : queue_capacity pool' = queue_capacity pool) by (unfold queue_capacity; by rewrite Ec).
  assert (Hhere : lane_of b p i = Some (pool, queue, pc)) by (by apply lane_of_Some).
  constructor.
  - intros q j pl ql wl (Hp' & Hq' & Hw')%lane_of_Some. rewrite accepted_app, sent_app.
    destruct (decide ((q, j) = (p, i))) as [[= -> ->]|Hne].
    + rewrite Ep, lookup_insert_eq in Hp'. injection Hp' as <-.
      rewrite Eq, list_lookup_insert_eq in Hq' by (by eapply lookup_lt_Some).
      rewrite Ew, list_lookup_insert_eq in Hw' by (by eapply lookup_lt_Some). simplify_eq. rewrite Hcap. auto.
    + destruct (Hl _ _ Hne) as [-> ->]. rewrite !app_nil_r. destruct (decide (p = q)) as [<-|Hpq].
      * rewrite Ep, lookup_insert_eq in Hp'. injection Hp' as <-. assert (i ≠ j) by congruence.
        rewrite Eq, list_lookup_insert_ne in Hq' by done. rewrite Ew, list_lookup_insert_ne in Hw' by done.
        rewrite Hcap. destruct (Q1 p j pool ql wl) as [A1 A2 A3 A4 A5]; [by apply lane_of_Some|]. constructor; auto.
      * rewrite Ep, lookup_insert_ne in Hp' by done. apply Q1. by apply lane_of_Some.
  - intros q j Hnone. destruct (decide ((q, j) = (p, i))) as [[= -> ->]|Hne].
    + exfalso. revert Hnone. unfold lane_of. rewrite Ep, lookup_insert_eq. cbn.
      rewrite Eq, list_lookup_insert_eq by (by eapply lookup_lt_Some). cbn.
      by rewrite Ew, list_lookup_insert_eq by (by eapply lookup_lt_Some).
    + rewrite accepted_app, sent_app. destruct (Hl _ _ Hne) as [-> ->]. rewrite !app_nil_r. apply Q2.
      revert Hnone. unfold lane_of. rewrite Ep. destruct (decide (p = q)) as [<-|]; [|by rewrite lookup_insert_ne].
      rewrite lookup_insert_eq, Hp. cbn. assert (i ≠ j) by congruence. rewrite Eq, Ew, !list_lookup_insert_ne by done.
      destruct (queues pool !! j); [cbn|done]. by destruct (writers pool !! j).
  - rewrite Ep, (sum_of_set (λ _ pool, Z.of_nat (load pool)) (λ _ pool, Z.of_nat (load pool))) by done.
    rewrite Hp. cbn [fmap option_fmap option_map default]. unfold load at 2 3. rewrite Eq, Ew.
    pose proof (sum_list_insert length (queues pool) i queue queue' Hq).
    pose proof (sum_list_insert held (writers pool) i pc pc' Hw). cbn [default from_option id]. lia.
  - intros q j pkt now [?|Hin]%elem_of_app; eauto.
  - intros q j pkt [Hin|Hin]%elem_of_app.
    + destruct (Q5 _ _ _ Hin) as (pl & Hpl & ? & ?). destruct (decide (p = q)) as [<-|].
      * exists pool'. rewrite Ep, lookup_insert_eq, Es. rewrite Hp in Hpl. by injection Hpl as <-.
      * exists pl. by rewrite Ep, lookup_insert_ne.
    + destruct (Hz _ _ _ Hin) as (-> & ? & ?). exists pool'. by rewrite Ep, lookup_insert_eq, Es.
Qed.

(** ** Runs *)

Section runs.
Context (EncodeToString : list byte → string) (DecodeString : string → option (list byte)).
Context (sha256 : list byte → list byte) (ρ : go_range string nat).
Abbreviation reachable := (reachable EncodeToString DecodeString sha256 ρ).
Abbreviation step := (step EncodeToString DecodeString sha256 ρ).

Lemma spawn_all_frame pcs w : broker (spawn_all pcs w) = broker w ∧ events (spawn_all pcs w) = events w.
Proof using. revert w. induction pcs as [|pc pcs IH]; intros w; [done|]. apply (IH (spawn pc w)). Qed.

Lemma stop_kept p b : queues_kept b (stop p b).1.
Proof using.
  unfold stop. destruct (pools b !! p) as [pool|] eqn:Hp; [destruct (PoolBroker.done pool) eqn:Hd|]; cbn [fst];
    try (by apply queues_kept_same). constructor; cbn [upd pools counters]; [| |done].
  - intros q pl Hq. destruct (decide (p = q)) as [<-|]; [|exists pl; by rewrite lookup_insert_ne].
    simplify_eq. eexists. rewrite lookup_insert_eq. by split_and!.
  - intros q pl Hq [[<- _]|[_ ?]]%lookup_insert_Some; congruence.
Qed.

Lemma send_kept p index wrote b : queues_kept b (Send p index wrote b).1.
Proof using. unfold Send. repeat case_match; first [by apply queues_kept_same | apply stop_kept]. Qed.

Lemma ready_kept p binding ctx_done now b : broker_ok b → queues_kept b (bind_ready p binding ctx_done now b).1.
Proof using.
  intros Hb. unfold bind_ready. destruct (pendings b !! p) as [pend|] eqn:Hp; [|by apply queues_kept_same].
  destruct (_ || _) eqn:Hg; [by apply queues_kept_same|]. cbv zeta. destruct (forallb _ _); [|by apply queues_kept_same].
  bool_to_prop. destruct (bo_pending _ Hb (BindClientID binding) p) as (_ & _ & _ & _ & Hnp); [done|].
  constructor; cbn [fst upd on_channel pools counters]; [| |done].
  - intros q pl Hq. exists pl. rewrite lookup_insert_ne by congruence. by split_and!.
  - intros q pl Hq [[<- <-]|[_ ?]]%lookup_insert_Some; [|congruence]. cbn [activatePendingPool queues writers].
    split; apply Forall_fmap, Forall_true; done.
Qed.

(** The effect of a step on the queues. *)
Definition effect (w w' : World) : Prop :=
  ∃ evs, events w' = events w ++ evs ∧
    ((queues_kept (broker w) (broker w') ∧ silent evs) ∨
     ∃ p i pool pool' queue queue' pc pc', lane_step p i (broker w) (broker w') evs pool pool' queue queue' pc pc').

Lemma effect_kept w w' evs :
  events w' = events w ++ evs → silent evs → queues_kept (broker w) (broker w') → effect w w'.
Proof using. intros. exists evs. auto. Qed.

Lemma effect_frame w w' :
  events w' = events w → pools (broker w') = pools (broker w) → counters (broker w') = counters (broker w) → effect w w'.
Proof using.
  intros Ee Ep Ec. apply (effect_kept w w' []); [by rewrite app_nil_r|done|].
  apply queues_kept_same; [done|by rewrite Ec].
Qed.

Lemma remove_effect clientID sessionID g w : effect w (remove clientID sessionID g w).
Proof using.
  unfold remove. destruct (RemoveGeneration clientID sessionID g (broker w)) as [[b pend] pool] eqn:E.
  unfold RemoveGeneration in E. injection E as <- _ _.
  apply effect_frame; rewrite ?(proj1 (spawn_all_frame _ _)), ?(proj2 (spawn_all_frame _ _)); done.
Qed.

Lemma thread_effect t pc ok now w w' :
  thread_step t pc ok now w = Some w' → broker_ok (broker w) → effect w w'.
Proof using.
  intros E Hb. destruct pc; cbn [thread_step] in E.
  - injection E as <-. by apply effect_frame.
  - pose proof (ready_kept p binding (negb ok) now (broker w) Hb) as Hk.
    destruct (bind_ready p binding (negb ok) now (broker w)) as [b [|previous]]; injection E as <-; cbn [fst] in Hk.
    + apply (effect_kept w _ []); [by rewrite app_nil_r|done|done].
    + apply (effect_kept w _ []); cbn [goto upd events broker]; rewrite ?app_nil_r, ?(proj1 (spawn_all_frame _ _)), ?(proj2 (spawn_all_frame _ _)); done.
  - injection E as <-. exact (remove_effect _ _ _ w).
  - destruct ok; [|injection E as <-; by apply effect_frame].
    repeat (case_match; try discriminate E); injection E as <-; by apply effect_frame.
  - destruct (closePendingPool p (broker w)) as [b cs] eqn:Ec. injection E as <-.
    apply (effect_kept w _ (EvClosed <$> cs)); [done|apply closed_silent|].
    unfold closePendingPool in Ec. repeat case_match; simplify_eq; by apply queues_kept_same.
  - pose proof (stop_kept p (broker w)) as Hk. destruct (stop p (broker w)) as [b cs]. injection E as <-.
    by apply (effect_kept w _ (EvClosed <$> cs)); [|apply closed_silent|].
Qed.

Lemma prepare_pools spec lifetime tickets p now b b' r :
  Prepare EncodeToString sha256 spec lifetime tickets p now b = (b', r) → pools b' = pools b ∧ counters b' = counters b.
Proof using. unfold Prepare. intros E. repeat case_match; by simplify_eq. Qed.
Lemma claim_pools binding auth conn now b b' r :
  bind_claim DecodeString sha256 binding auth conn now b = (b', r) → pools b' = pools b ∧ counters b' = counters b.
Proof using. unfold bind_claim. intros E. repeat case_match; by simplify_eq. Qed.

Lemma enqueue_effect p packet index g now w b err :
  Enqueue p packet index g now (broker w) = (b, err) → broker_ok (broker w) →
  effect w (emit (if is_some err then [] else
    match pools b !! p ≫= λ pool, queues pool !! index ≫= last with Some q => [EvQueued p index q] | None => [] end)
    (set_broker b w)).
Proof using.
  intros E Hb. destruct err as [e|]; cbn [is_some].
  - apply (effect_kept w _ []); [done|done|]. unfold Enqueue in E.
    repeat case_match; simplify_eq; try (by apply queues_kept_same).
  - destruct (lane_enqueue _ _ _ _ _ _ _ E Hb) as (pool & pool' & queue & pc & q & Hl & _). pose proof Hl as [_ Hq _ Ep Eq _ _ _ _ _ _ _ _ _].
    rewrite Ep, lookup_insert_eq. cbn [mbind option_bind]. rewrite Eq, list_lookup_insert_eq by (by eapply lookup_lt_Some).
    cbn [mbind option_bind]. rewrite last_snoc. exists [EvQueued p index q]. split; [done|]. right. by do 8 eexists.
Qed.

Lemma step_effect a w w' : step a w = Some w' → broker_ok (broker w) → effect w w'.
Proof using.
  intros E Hb. destruct a as [sp lifetime tickets now|binding auth conn now|clientID sessionID g|clientID generation| |p index wrote|p|p packet index g now|p i input now|t ok now];
    cbn [PoolBroker.step] in E.
  - destruct (match tickets with Some _ => _ | None => _ end) as [[]|]; [|done]. cbn [mbind option_bind] in E.
    destruct (Prepare EncodeToString sha256 sp lifetime tickets (next w) now (broker w)) as [b r] eqn:Ep.
    destruct (prepare_pools _ _ _ _ _ _ _ _ Ep) as [E1 E2]. injection E as <-.
    destruct r as [[os prev]|]; apply effect_frame; rewrite ?(proj1 (spawn_all_frame _ _)), ?(proj2 (spawn_all_frame _ _)); done.
  - destruct (bind_claim DecodeString sha256 binding auth conn now (broker w)) as [b r] eqn:Eb.
    destruct (claim_pools _ _ _ _ _ _ _ Eb) as [E1 E2]. destruct r; injection E as <-; [|by apply effect_frame].
    eapply effect_kept; [done|done|]. apply queues_kept_same; [done|]. cbn [emit spawn set_broker upd broker]. by rewrite E2.
  - injection E as <-. apply remove_effect.
  - destruct (expire clientID generation (broker w)) as [b pend] eqn:Ee. injection E as <-. unfold expire in Ee. injection Ee as <- _.
    apply effect_frame; rewrite ?(proj1 (spawn_all_frame _ _)), ?(proj2 (spawn_all_frame _ _)); done.
  - destruct (Close ρ (broker w)) as [[b pends] actives] eqn:Ec. injection E as <-. unfold Close in Ec.
    apply effect_frame; rewrite ?(proj1 (spawn_all_frame _ _)), ?(proj2 (spawn_all_frame _ _)); destruct (closed _); by injection Ec as <- _ _.
  - pose proof (send_kept p index wrote (broker w)) as Hk. destruct (Send p index wrote (broker w)) as [b cs]. injection E as <-.
    by apply (effect_kept w _ (EvClosed <$> cs)); [|apply closed_silent|].
  - pose proof (stop_kept p (broker w)) as Hk. destruct (stop p (broker w)) as [b cs]. injection E as <-.
    by apply (effect_kept w _ (EvClosed <$> cs)); [|apply closed_silent|].
  - destruct (Enqueue p packet index g now (broker w)) as [b err] eqn:Ee. injection E as <-. by eapply enqueue_effect.
  - destruct (writer_step p i input now (broker w)) as [[b evs]|] eqn:Ew; [|done]. cbn [mbind option_bind] in E. injection E as <-.
    exists evs. split; [done|]. right. exists p, i. by eapply writer_lane.
  - destruct (threads w !! t) as [pc|]; [|done]. by eapply thread_effect.
Qed.

Lemma reachable_queues w : reachable w → queues_ok (broker w) (events w).
Proof using.
  induction 1 as [|a w w' Hr IH Hs].
  - constructor; try done; intros * Hin; by apply elem_of_nil in Hin.
  - destruct (step_effect _ _ _ Hs) as (evs & -> & [[Hk Hsil]|(p & i & pool & pool' & queue & queue' & pc & pc' & Hl)]).
    + by eapply wo_broker, pool_reachable_ok.
    + by apply queues_kept_ok with (broker w).
    + by eapply lane_step_ok.
Qed.
End runs.
