(* ===== verification/PoolSafety.v ===== *)
(** * Channel pools: what the broker promises

    The properties of [PoolBroker] over all interleavings, with a small run of
    a pool of two streams as their witness. *)

From S2P Require Import Prelude GoTime NetAddr GoIO Authentication PoolBroker PoolProps PoolQueues.

Local Open Scope Z_scope.

Section safety.
Context (EncodeToString : list byte → string) (DecodeString : string → option (list byte)).
Context (sha256 : list byte → list byte) (ρ : go_range string nat).
Abbreviation reachable := (reachable EncodeToString DecodeString sha256 ρ).
Abbreviation step := (step EncodeToString DecodeString sha256 ρ).

Lemma valid_count sp : valid_spec sp = true → 1 <= SpecChannelCount sp <= 8.
Proof using. unfold valid_spec. intros H. bool_to_prop. lia. Qed.

(** Activation is atomic and authenticated.  The pool a client uses has
    between one and eight streams, as many as its specification says, and every
    one of them was claimed exactly once, by a binding for that place that
    names the pool's client, session, transport generation, address, pool
    generation and authentication, with the 32-byte ticket of that place. *)
Theorem pool_activation_exact w c p :
  reachable w → active (broker w) !! c = Some p →
  ∃ pool pend, pools (broker w) !! p = Some pool ∧ pendings (broker w) !! p = Some pend ∧
    SpecClientID (pool_spec pool) = c ∧ pool_spec pool = spec pend ∧
    1 <= Z.of_nat (length (connections pool)) <= 8 ∧
    Z.of_nat (length (connections pool)) = SpecChannelCount (pool_spec pool) ∧
    ∀ i conn, connections pool !! i = Some conn →
      claims p i (events w) = 1%nat ∧
      ∃ binding auth ticket ch, EvClaimed p i conn binding auth ticket ∈ events w ∧
        BindChannelIndex binding = i ∧ bindingMatchesPool binding (pool_spec pool) auth = true ∧
        channels pend !! i = Some ch ∧ ticketDigest ch = sha256 ticket ∧ length ticket = vnetChannelTicketBytes.
Proof using.
  intros Hw Ha. apply pool_reachable_ok in Hw as [Hb _ _ [He Ho]]. destruct (bo_active _ Hb _ _ Ha) as (pool & Hp & Hc).
  destruct (bo_pools _ Hb _ _ Hp) as (pend & Hpend & [_ Es Hr Ec _ _]). destruct (bo_valid _ Hb _ _ Hpend) as (Hv & Hl & Hconn).
  assert (Hn : length (connections pool) = length (channels pend)) by (by rewrite Ec, length_fmap).
  exists pool, pend. rewrite Hn, Es. split_and!; try done; try (rewrite Hl; by apply valid_count). { congruence. }
  intros i conn Hi. rewrite Ec in Hi. apply list_lookup_fmap_Some in Hi as (ch & -> & Hch).
  destruct (Hconn _ _ Hch (Hr _ _ Hch)) as [k Hk].
  assert (Hof : conn_of (broker w) p i = Some k) by (unfold conn_of; rewrite Hpend; cbn; by rewrite Hch).
  rewrite Hk, Ho, Hof. split; [done|]. destruct (He _ _ _ Hof) as (binding & auth & ticket & Hin & [Hix Hcl]).
  destruct Hcl as (pend' & ch' & Hp' & Hch' & _ & Hm & Hd & Hlen). simplify_eq. by exists binding, auth, ticket, ch.
Qed.

(** The channel [done], which a pool shares with the pending pool it came
    from although each has its own [sync.Once], is never closed twice: an
    activated pool's pending pool was not released, no release of it is under
    way, and every release under way finds a pool that was never activated and
    can no longer be. *)
Theorem done_closed_once w p :
  reachable w →
  (∀ pool pend, pools (broker w) !! p = Some pool → pendings (broker w) !! p = Some pend → released pend = false) ∧
  (∀ t, threads w !! t = Some (ClosingPending p) →
     pools (broker w) !! p = None ∧ (∀ c, pending (broker w) !! c ≠ Some p) ∧ (∀ c, active (broker w) !! c ≠ Some p)).
Proof using.
  intros [Hb Ht _ _]%pool_reachable_ok. split.
  - intros pool pend Hp Hpend. destruct (bo_pools _ Hb _ _ Hp) as (pend' & ? & []). by simplify_eq.
  - intros t Hth. destruct (Ht _ _ Hth) as (_ & Hnp & Hne). split_and!; [done..|]. intros c Hc.
    destruct (bo_active _ Hb _ _ Hc) as (pool & ? & _). congruence.
Qed.

(** Queues are bounded, ordered and fresh.  The packets a stream's writer
    starts to send are a subsequence of those accepted for that stream, in
    their order; each was accepted whole, within the MTU, and is sent strictly
    before its deadline; no queue holds more than its share of 64 packets. *)
Theorem queues_in_order w p i :
  reachable w →
  sent p i (events w) `sublist_of` accepted p i (events w) ∧
  (∀ q now, EvSending p i q now ∈ events w → Before now (deadline q) = true) ∧
  (∀ q, EvQueued p i q ∈ events w → ∃ pool, pools (broker w) !! p = Some pool ∧ payload q ≠ [] ∧
     Z.of_nat (length (payload q)) <= SpecMTU (pool_spec pool)) ∧
  (∀ pool queue, pools (broker w) !! p = Some pool → queues pool !! i = Some queue →
     (length queue ≤ poolQueuedPackets / length (connections pool))%nat).
Proof using.
  intros Hw. pose proof (reachable_queues _ _ _ _ _ Hw) as [Q1 Q2 _ Q4 Q5]. split_and!; eauto.
  - destruct (lane_of (broker w) p i) as [[[pool queue] pc]|] eqn:El; [|by destruct (Q2 _ _ El) as [-> ->]].
    destruct (Q1 _ _ _ _ _ El) as [_ (used & -> & Hs) _ _ _]. apply sublist_inserts_r.
    etrans; [|exact Hs]. by apply sublist_inserts_r.
  - intros pool queue Hp Hq. apply pool_reachable_ok in Hw as [Hb _ _ _].
    destruct (bo_pools _ Hb _ _ Hp) as (pend & _ & [_ _ _ _ Hlq Hlw]).
    destruct (lookup_lt_is_Some_2 (writers pool) i) as [pc Hwr]. { rewrite Hlw, <- Hlq. by eapply lookup_lt_Some. }
    apply (Q1 p i pool queue pc). by apply lane_of_Some.
Qed.

(** The statistics are exact: the counter of waiting packets is the number
    of packets in the queues of all pools, activated ever, and of those just
    received and not yet discounted; so it is zero when all writers have
    finished, whatever was queued when their pools ended. *)
Theorem queue_counter_exact w :
  reachable w →
  queued (counters (broker w)) = sum_of (λ _ pool, Z.of_nat (load pool)) (pools (broker w)) ∧
  ((∀ p pool, pools (broker w) !! p = Some pool → Forall (λ pc, pc = Finished) (writers pool)) →
   queued (counters (broker w)) = 0).
Proof using.
  intros Hw. pose proof (reachable_queues _ _ _ _ _ Hw) as [Q1 _ Q3 _ _]. split; [done|]. intros Hfin. rewrite Q3.
  apply sum_of_zero. intros p pool Hp. specialize (Hfin _ _ Hp). rewrite Forall_lookup in Hfin.
  apply pool_reachable_ok in Hw as [Hb _ _ _]. destruct (bo_pools _ Hb _ _ Hp) as (pend & _ & [_ _ _ _ Hlq Hlw]).
  assert (Hq : Forall (λ q, q = []) (queues pool)).
  { apply Forall_lookup. intros i queue Hi. destruct (lookup_lt_is_Some_2 (writers pool) i) as [pc Hwr].
    { rewrite Hlw, <- Hlq. by eapply lookup_lt_Some. }
    destruct (Q1 p i pool queue pc) as [_ _ _ Hf _]; [by apply lane_of_Some|]. eauto. }
  assert (H1 : sum_list_with length (queues pool) = 0%nat) by (clear -Hq; induction Hq; subst; done).
  assert (H2 : sum_list_with held (writers pool) = 0%nat).
  { clear -Hfin. induction (writers pool) as [|pc l IH]; [done|]. cbn [sum_list_with].
    rewrite (Hfin 0%nat pc eq_refl), IH; [done|]. intros i x Hi. by apply (Hfin (S i)). }
  unfold load. by rewrite H1, H2.
Qed.

Fixpoint steps (acts : list Action) (w : World) : option World :=
  match acts with [] => Some w | a :: acts => w ← step a w; steps acts w end.

Lemma pool_steps_reachable acts w w' : steps acts w = Some w' → reachable w → reachable w'.
Proof using.
  revert w. induction acts as [|a acts IH]; intros w; cbn [steps]; [by intros [= <-]|].
  destruct (step a w) as [w1|] eqn:E; [|done]. cbn [mbind option_bind]. intros Hs Hw. eapply IH; [done|]. by eapply reachable_step.
Qed.
End safety.

(** ** A run: two streams are prepared, bound and used *)

Module DemoPool.
Definition auth : Context := {| Mode := "token"; ContextClientID := "a"; CredentialID := []; Generation := 1 |}.
Definition demo_spec : PoolSpec :=
  {| SpecClientID := "a"; SpecSessionID := "s"; SpecTransportGeneration := 1; SpecVirtualIP := "10.0.0.2";
     SpecPoolGeneration := 3; SpecChannelCount := 2; SpecMTU := 1280; SpecWriteTimeout := 1000; SpecAuthentication := auth |}.
Definition ticket (x : byte) : list byte := repeat x 32.
(** A text of one letter stands for a ticket. *)
Definition encode (t : list byte) : string := match t with x01 :: _ => "t" | _ => "u" end.
Definition decode (s : string) : option (list byte) :=
  if bool_decide (s = "t") then Some (ticket x01) else if bool_decide (s = "u") then Some (ticket x02) else None.
Definition binding (i : nat) (t : string) : BindVNetChannel :=
  {| BindClientID := "a"; BindSessionID := "s"; BindTransportGeneration := 1; BindVirtualIP := "10.0.0.2";
     BindPoolGeneration := 3; BindChannelIndex := i; BindChannelCount := 2; BindTicket := t |}.

Definition history : list Action :=
  [DoPrepare demo_spec 100 (Some [ticket x01; ticket x02]) 0;
   DoBind (binding 0 "t") auth 10 1; DoBind (binding 1 "t") auth 11 1; DoBind (binding 1 "u") auth 12 1;
   DoThread 1 true 2; DoThread 2 true 2; DoThread 1 true 3; DoThread 2 true 3;
   DoEnqueue 0 [x45; x00] 1 7 10; DoEnqueue 0 [x45; x01] 1 7 11; DoEnqueue 0 [x45; x02] 0 7 12;
   DoWriter 0 1 Receive 20; DoWriter 0 1 Receive 20; DoWriter 0 1 Receive 20; DoWriter 0 1 (Authorized true) 21; DoWriter 0 1 (Wrote true) 22].

Abbreviation demo_steps acts := (steps encode decode id any_range acts start).

Definition busy_ok : is_some (demo_steps history) = true := ltac:(vm_compute; reflexivity).
Definition busy : World := from_some (demo_steps history) busy_ok.
Lemma busy_pool_reachable : reachable encode decode id any_range busy.
Proof. eapply pool_steps_reachable; [apply (from_some_eq _ busy_ok)|apply reachable_start]. Qed.

(** The session is removed while a packet waits; the writers drain. *)
Definition ending : list Action :=
  history ++ [DoRemove "a" "s" 0; DoThread 3 true 30; DoWriter 0 0 SawDone 31; DoWriter 0 0 Receive 31; DoWriter 0 0 Receive 31;
              DoWriter 0 0 Receive 31; DoWriter 0 1 SawDone 31; DoWriter 0 1 Receive 31; DoWriter 0 1 Receive 31; DoWriter 0 1 Receive 31].
Definition drained_ok : is_some (demo_steps ending) = true := ltac:(vm_compute; reflexivity).
Definition drained : World := from_some (demo_steps ending) drained_ok.
Lemma drained_reachable : reachable encode decode id any_range drained.
Proof. eapply pool_steps_reachable; [apply (from_some_eq _ drained_ok)|apply reachable_start]. Qed.

(** A second preparation replaces the first, which is about to be released. *)
Definition replacing : list Action :=
  [DoPrepare demo_spec 100 (Some [ticket x01; ticket x02]) 0; DoPrepare demo_spec 100 (Some [ticket x01; ticket x02]) 5].
Definition replaced_ok : is_some (demo_steps replacing) = true := ltac:(vm_compute; reflexivity).
Definition replaced : World := from_some (demo_steps replacing) replaced_ok.
Lemma replaced_reachable : reachable encode decode id any_range replaced.
Proof. eapply pool_steps_reachable; [apply (from_some_eq _ replaced_ok)|apply reachable_start]. Qed.
End DemoPool.

Lemma pool_activation_exact_witness :
  ∃ pool, pools (broker DemoPool.busy) !! 0%nat = Some pool ∧ length (connections pool) = 2%nat ∧
          claims 0 1 (events DemoPool.busy) = 1%nat.
Proof.
  destruct (pool_activation_exact _ _ _ _ _ "a" 0 DemoPool.busy_pool_reachable) as (pool & pend & Hp & _ & _ & _ & _ & Hl & Hc);
    [vm_compute; reflexivity|].
  exists pool. split; [exact Hp|]. assert (Hq : pools (broker DemoPool.busy) !! 0%nat = Some pool) by exact Hp.
  vm_compute in Hq. injection Hq as <-. split; [reflexivity|]. apply (Hc 1%nat 12%nat). reflexivity.
Defined.

Lemma done_closed_once_witness :
  threads DemoPool.replaced !! 2%nat = Some (ClosingPending 0) ∧ pools (broker DemoPool.replaced) !! 0%nat = None.
Proof.
  split; [vm_compute; reflexivity|]. apply (proj2 (done_closed_once _ _ _ _ _ 0 DemoPool.replaced_reachable) 2%nat).
  vm_compute. reflexivity.
Defined.

Lemma queues_in_order_witness :
  length (sent 0 1 (events DemoPool.busy)) = 1%nat ∧ length (accepted 0 1 (events DemoPool.busy)) = 2%nat ∧
  sent 0 1 (events DemoPool.busy) `sublist_of` accepted 0 1 (events DemoPool.busy).
Proof.
  split_and!; [vm_compute; reflexivity..|].
  exact (proj1 (queues_in_order _ _ _ _ DemoPool.busy 0 1 DemoPool.busy_pool_reachable)).
Defined.

Lemma queue_counter_exact_witness :
  queued (counters (broker DemoPool.busy)) = 2 ∧ queued (counters (broker DemoPool.drained)) = 0.
Proof.
  split; [vm_compute; reflexivity|].
  apply (proj2 (queue_counter_exact _ _ _ _ DemoPool.drained DemoPool.drained_reachable)).
  intros p pool Hp%elem_of_map_to_list.
  assert (E : ∃ x, map_to_list (pools (broker DemoPool.drained)) = [(0%nat, x)] ∧ writers x = [Finished; Finished])
    by (eexists; split; vm_compute; reflexivity).
  destruct E as (x & E & Hx). rewrite E in Hp. apply list_elem_of_singleton in Hp as [= _ ->]. rewrite Hx. repeat constructor.
Defined.
