(* ===== verification/ServerVNet.v ===== *)
(** * The server's virtual network runtime: data and critical sections
      ([internal/server/vnetwork.go], [vnetwork_peer.go], [vnetwork_notices.go],
      [vnetwork_packet.go], [vnetwork_reload.go])

    The runtime gives every managed client an address and a channel pool,
    routes packets between clients and coordinates direct paths between pairs
    of clients.  One mutex protects the sessions, the pairs of peers and the
    configuration; the router, the pool broker and the control writers have
    their own.  Each session has a notifier: a bounded queue of peer notices
    served by one goroutine.

    This file has the data and one definition per critical section;
    [ServerRuntime] interleaves them.  Control messages go to a writer that may
    fail; JSON, HMAC, base64 and random bytes are parameters.  The counters of
    generations are assumed not to wrap (fewer than 2^64 assignments and
    offers). *)

From S2P Require Import Prelude GoTime NetAddr GoIO PortPolicy ConfigVNet Packet FlowControl Router Authentication PeerWire PeerEndpoint PoolBroker.

Local Open Scope Z_scope.

Definition vnetMTU : Z := 1150.
Definition vnetPoolTicketLifetime : Duration := 10 * Second.
Definition vnetMaximumTrackedFlows : Z := 65536.
Definition vnetChannelWriteTimeout : Duration := 5 * Second.
Definition vnetPeerOfferLifetime : Duration := 15 * Second.
Definition vnetPeerRetryDelay : Duration := 10 * Second.
Definition vnetMaximumPeerPairs : Z := 4096.
Definition vnetMaximumNodePeers : Z := 64.
Definition vnetPeerNoticeTimeout : Duration := 5 * Second.
Definition vnetPeerNoticeCapacity : nat := 128.

(** ** Messages *)

Inductive VNetState :=
| VNetStateDisabled
| VNetStateEnabled
| VNetStateInstallationRequired
| VNetStateReady
| VNetStateActive
| VNetStateRecovering
| VNetStateFailed
| VNetStateOther (text : string).

Record VNetStatus := {
  State : VNetState;
  PoolGeneration : Z;
  ConfigGeneration : Z;
  Code : string
}.

Record VNetAssignment := {
  AssignedMode : string;
  AssignedCIDR : string;
  ClientIP : string;
  AssignedServerIP : string;
  MTU : Z;
  AssignedChannels : Z;
  TransportGeneration : Z;
  AssignedPool : Z;
  AssignedConfig : Z;
  AssignedState : VNetState;
  PeerRegistrationTicket : string
}.

Inductive VNetDeactivateReason :=
| VNetDeactivateDisabled
| VNetDeactivateNodeRemoved
| VNetDeactivatePolicyChanged
| VNetDeactivateChannelFailure.

Inductive ControlMessage :=
| MessageVNetAssignment (a : VNetAssignment)
| MessageVNetActivate (pool config : Z)
| MessageOpenVNetChannel (offer : OpenVNetChannel)
| MessageVNetDeactivate (config : Z) (reason : VNetDeactivateReason).

(** [VNetPeerStatus]; [None] is a state the server does not know. *)
Record VNetPeerStatus := {
  StatusGeneration : Z;
  StatusPeer : string;
  StatusState : option VNetPeerState;
  StatusCode : string
}.

Record VNetPeerFlowOpen := {
  FlowGeneration : Z;
  FlowPeer : string;
  FlowProtocol : Z;
  FlowSourceIP : string;
  FlowSourcePort : Z;
  FlowDestinationIP : string;
  FlowDestinationPort : Z;
  FlowTCPFlags : Z
}.

(** ** Notifiers *)

Inductive PeerNotice :=
| NoticeOffer (offer : VNetPeerOffer)
| NoticeActivate (path : VNetPeerPath)
| NoticeRevoke (path : VNetPeerPath) (reason : string).

Record vnetPeerNotice := { notice : PeerNotice; noticeDeadline : Time }.

(** Where the goroutine of a notifier is. *)
Inductive SenderPc :=
| SenderWaiting
| SenderWriting (n : vnetPeerNotice)
| SenderDone.

(** [owner] is the client of the session that owns the notifier; [accepted]
    and [written] are the notices ever queued and sent. *)
Record vnetPeerNotifier := {
  owner : string;
  noticeQueue : list vnetPeerNotice;
  cancelled : bool;
  sender : SenderPc;
  accepted : list PeerNotice;
  written : list PeerNotice
}.
#[export] Instance eta_notifier : Eta vnetPeerNotifier :=
  λ n, {| owner := owner n; noticeQueue := noticeQueue n; cancelled := cancelled n; sender := sender n;
          accepted := accepted n; written := written n |}.

(** [newPeerNotifier]; its context descends from the runtime's. *)
Definition new_notifier (c : string) (contextDone : bool) : vnetPeerNotifier :=
  {| owner := c; noticeQueue := []; cancelled := contextDone; sender := SenderWaiting; accepted := []; written := [] |}.

(** [abort] and the cancellation in [stop]; aborting also closes the control
    stream. *)
Definition cancel (n : vnetPeerNotifier) : vnetPeerNotifier := n <| cancelled := true |>.

(** [enqueue] of a notifier *)
Definition enqueue (x : PeerNotice) (now : Time) (n : vnetPeerNotifier) : vnetPeerNotifier * bool :=
  if cancelled n then (n, false)
  else if (length (noticeQueue n) <? vnetPeerNoticeCapacity)%nat then
    (n <| noticeQueue := noticeQueue n ++ [{| notice := x; noticeDeadline := Add now vnetPeerNoticeTimeout |}] |>
       <| accepted := accepted n ++ [x] |>, true)
  else (cancel n, false).

(** One step of the sender; [ok] is the result of [WriteUntil], or that the
    cancellation is chosen while waiting. *)
Definition sender_step (ok : bool) (n : vnetPeerNotifier) : option vnetPeerNotifier :=
  match sender n with
  | SenderWaiting =>
    if ok && cancelled n then Some (n <| sender := SenderDone |>)
    else
      match noticeQueue n with
      | [] => None
      | x :: rest =>
        Some (n <| noticeQueue := rest |> <| sender := if cancelled n then SenderDone else SenderWriting x |>)
      end
  | SenderWriting x =>
    Some (if ok then n <| sender := SenderWaiting |> <| written := written n ++ [notice x] |>
          else (cancel n) <| sender := SenderDone |>)
  | SenderDone => None
  end.

(** ** The runtime *)

Record serverVNetSession := {
  sessionID : string;
  generation : Z;
  authentication : Context;
  peerNotifier : nat;
  poolGeneration : Z;
  configGeneration : Z;
  channelsOffered : bool;
  lifecycleMutex : option nat;
  peerRegistrationSecret : list byte;
  peerFingerprint : string;
  peerCandidates : list VNetPeerCandidate;
  peerAddress : string;
  peerNegotiated : bool
}.
#[export] Instance eta_session : Eta serverVNetSession :=
  λ s, {| sessionID := sessionID s; generation := generation s; authentication := authentication s;
          peerNotifier := peerNotifier s; poolGeneration := poolGeneration s;
          configGeneration := configGeneration s; channelsOffered := channelsOffered s;
          lifecycleMutex := lifecycleMutex s; peerRegistrationSecret := peerRegistrationSecret s;
          peerFingerprint := peerFingerprint s; peerCandidates := peerCandidates s;
          peerAddress := peerAddress s; peerNegotiated := peerNegotiated s |}.

Record serverVNetPeerPair := {
  pairGeneration : Z;
  firstID : string;
  secondID : string;
  ready : gset string;
  expiresAt : Time;
  retryAfter : Time;
  active : bool
}.
#[export] Instance eta_pair : Eta serverVNetPeerPair :=
  λ p, {| pairGeneration := pairGeneration p; firstID := firstID p; secondID := secondID p; ready := ready p;
          expiresAt := expiresAt p; retryAfter := retryAfter p; active := active p |}.

Record serverVNetRuntime := {
  configuration : VirtualNetworkConfig;
  runtimeConfigGeneration : Z;
  sessions : gmap string serverVNetSession;
  router : Router;
  device : bool;
  userspaceTCP : bool;
  runtimePoolGeneration : Z;
  peerConnection : bool;
  peerPairs : gmap string serverVNetPeerPair;
  peerSequence : Z;
  notifiers : gmap nat vnetPeerNotifier;
  contextDone : bool
}.
#[export] Instance eta_runtime : Eta serverVNetRuntime :=
  λ r, {| configuration := configuration r; runtimeConfigGeneration := runtimeConfigGeneration r;
          sessions := sessions r; router := router r; device := device r; userspaceTCP := userspaceTCP r;
          runtimePoolGeneration := runtimePoolGeneration r; peerConnection := peerConnection r;
          peerPairs := peerPairs r; peerSequence := peerSequence r; notifiers := notifiers r;
          contextDone := contextDone r |}.

(** The session a map lookup yields when the client has none. *)
Definition zero_session : serverVNetSession :=
  {| sessionID := ""; generation := 0;
     authentication := {| Mode := ""; ContextClientID := ""; CredentialID := []; Generation := 0 |};
     peerNotifier := 0%nat; poolGeneration := 0; configGeneration := 0; channelsOffered := false;
     lifecycleMutex := None; peerRegistrationSecret := []; peerFingerprint := ""; peerCandidates := [];
     peerAddress := ""; peerNegotiated := false |}.

Definition set_session (c : string) (s : serverVNetSession) (r : serverVNetRuntime) : serverVNetRuntime :=
  r <| sessions := <[c := s]> (sessions r) |>.

(** The current session of a client, if it has the given identifier. *)
Definition current_session (c sid : string) (r : serverVNetRuntime) : option serverVNetSession :=
  match sessions r !! c with
  | Some s => if bool_decide (sessionID s = sid) then Some s else None
  | None => None
  end.

(** Queueing for the current session of a client. *)
Definition enqueue_to (c : string) (x : PeerNotice) (now : Time) (r : serverVNetRuntime) : serverVNetRuntime * bool :=
  match s ← sessions r !! c; n ← notifiers r !! peerNotifier s; Some (peerNotifier s, n) with
  | None => (r, false)
  | Some (i, n) =>
    let '(n, ok) := enqueue x now n in
    (r <| notifiers := <[i := n]> (notifiers r) |>, ok)
  end.

(** ** Pairs of peers *)

(** [peerPairKey]: the two identifiers in order, and their key. *)
Definition peerPairKey (left right : string) : string * string * string :=
  let '(a, b) := if String.leb left right then (left, right) else (right, left) in
  ((a ++ String Ascii.zero b)%string, a, b).
Definition pair_key (left right : string) : string := (peerPairKey left right).1.1.

Definition has_peer (c : string) (pr : serverVNetPeerPair) : bool :=
  bool_decide (firstID pr = c) || bool_decide (secondID pr = c).

(** Pairs of a client, as the loop of [offerPeer] counts them. *)
Definition peer_count (c : string) (pairs : gmap string serverVNetPeerPair) : Z :=
  Z.of_nat (size (filter (λ kp, has_peer c kp.2 = true) pairs)).

Definition peerPortRanges (ranges : list PortRange) : list PortRange :=
  (λ r, {| Start := Start r; End_ := End_ r |}) <$> ranges.

Definition zero_node : VNetNodeConfig :=
  {| NodeClientID := ""; NodeIP := ""; NodePorts := {| PortsTCP := []; PortsUDP := [] |} |}.

(** The offer sent to client [to]: [peer] and its session are on the other
    side. *)
Definition make_offer (conf : VirtualNetworkConfig) (g : Z) (to peer : string) (session : serverVNetSession)
    (ticket : string) (role : VNetPeerRole) (expires : Z) : VNetPeerOffer :=
  let node := default zero_node (VNetNode conf to) in
  {| PeerGeneration := g; PeerClientID := peer; PeerVirtualIP := NodeIP (default zero_node (VNetNode conf peer));
     PeerFingerprint := peerFingerprint session; PairTicket := ticket; PeerRole := role;
     Candidates := peerCandidates session; InboundTCP := peerPortRanges (PortsTCP (NodePorts node));
     InboundUDP := peerPortRanges (PortsUDP (NodePorts node)); ExpiresAtUnixMS := expires |}.

Definition IsUnspecified (a : Addr) : bool :=
  match a with Addr4 x => bool_decide (x = IP4 x00 x00 x00 x00) | _ => false end.
Definition IsLoopback (a : Addr) : bool :=
  match a with Addr4 x => bool_decide (oct0 x = x7f) | _ => false end.
Definition IsMulticast (a : Addr) : bool :=
  match a with Addr4 x => Z.land (byte_val (oct0 x)) 240 =? 224 | _ => false end.

Section peers.
(** [netip.ParseAddrPort] and [AddrPort.String] *)
Context (ParseAddrPort : string → option (Addr * Z)) (AddrPortString : Addr * Z → string).

Definition host_candidate (value : string) : option string :=
  match ParseAddrPort value with
  | None => None
  | Some (address, port) =>
    if negb (Is4 address) || (port =? 0) || IsUnspecified address || IsLoopback address || IsMulticast address
    then None
    else Some (AddrPortString (address, port))
  end.

Fixpoint normalize_candidates (values : list string) (seen : gset string) : list VNetPeerCandidate :=
  match values with
  | [] => []
  | value :: values =>
    match host_candidate value with
    | None => normalize_candidates values seen
    | Some normalized =>
      if bool_decide (normalized ∈ seen) then normalize_candidates values seen
      else {| Address := normalized; CandidateType := VNetPeerCandidateHost |} ::
           normalize_candidates values ({[normalized]} ∪ seen)
    end
  end.

Definition normalizePeerCandidates (values : list string) : list VNetPeerCandidate :=
  normalize_candidates (take 15 values) ∅.
End peers.

(** [offerPeer] up to the queueing of the offers.  [ticket] is the text of the
    secret, [None] when [rand.Read] fails; [pool c] says that the broker has an
    active pool for [c].  The result is the new generation and whether both
    offers were queued. *)
Definition offerPeer (sourceID targetID : string) (ticket : option string) (pool : string → bool) (now : Time)
    (r : serverVNetRuntime) : serverVNetRuntime * option (Z * bool) :=
  let '(key, first, second) := peerPairKey sourceID targetID in
  let existing := peerPairs r !! key in
  if match existing with
     | Some pr => IsZero (retryAfter pr) || Before now (retryAfter pr)
     | None =>
       (vnetMaximumPeerPairs <=? Z.of_nat (size (peerPairs r))) ||
       (vnetMaximumNodePeers <=? peer_count sourceID (peerPairs r)) ||
       (vnetMaximumNodePeers <=? peer_count targetID (peerPairs r))
     end
  then (r, None)
  else
    match sessions r !! sourceID, sessions r !! targetID, ticket with
    | Some source, Some target, Some ticket =>
      if bool_decide (peerFingerprint source = "") || bool_decide (peerFingerprint target = "") ||
         negb (pool sourceID) || negb (pool targetID)
      then (r, None)
      else
        let g := peerSequence r + 1 in
        let pr := {| pairGeneration := g; firstID := first; secondID := second; ready := ∅;
                       expiresAt := Add now vnetPeerOfferLifetime; retryAfter := zero_time; active := false |} in
        let r := r <| peerSequence := g |> <| peerPairs := <[key := pr]> (peerPairs r) |> in
        let expires := UnixMilli (expiresAt pr) in
        let conf := configuration r in
        let '(r, sourceQueued) := enqueue_to sourceID
              (NoticeOffer (make_offer conf g sourceID targetID target ticket VNetPeerRoleClient expires)) now r in
        let '(r, targetQueued) := enqueue_to targetID
              (NoticeOffer (make_offer conf g targetID sourceID source ticket VNetPeerRoleServer expires)) now r in
        (r, Some (g, sourceQueued && targetQueued))
    | _, _, _ => (r, None)
    end.

Definition revocation (g : Z) (reason peer : string) : PeerNotice :=
  NoticeRevoke {| PathGeneration := g; PathClientID := peer |} reason.
Definition activation (g : Z) (peer : string) : PeerNotice :=
  NoticeActivate {| PathGeneration := g; PathClientID := peer |}.

(** [notifyPeerRevocationLocked]: to each of the two clients that has a
    session. *)
Definition notifyPeerRevocationLocked (pr : serverVNetPeerPair) (reason : string) (now : Time)
    (r : serverVNetRuntime) : serverVNetRuntime :=
  let revoke := revocation (pairGeneration pr) reason in
  let r := (enqueue_to (firstID pr) (revoke (secondID pr)) now r).1 in
  (enqueue_to (secondID pr) (revoke (firstID pr)) now r).1.

(** [failPeerPairLocked] of the pair stored under [key] *)
Definition failPeerPairLocked (key : string) (pr : serverVNetPeerPair) (reason : string) (now : Time)
    (r : serverVNetRuntime) : serverVNetRuntime :=
  let pr := pr <| ready := ∅ |> <| active := false |> <| retryAfter := Add now vnetPeerRetryDelay |> in
  notifyPeerRevocationLocked pr reason now (r <| peerPairs := <[key := pr]> (peerPairs r) |>).

(** [failPeerPair] *)
Definition failPeerPair (first second : string) (g : Z) (reason : string) (now : Time) (r : serverVNetRuntime) :
    serverVNetRuntime :=
  match peerPairs r !! pair_key first second with
  | Some pr =>
    if negb (pairGeneration pr =? g) || negb (IsZero (retryAfter pr)) then r
    else failPeerPairLocked (pair_key first second) pr reason now r
  | None => r
  end.

Inductive StatusNext :=
| StatusHandled
| StatusInvalid
| StatusFails (first second : string) (g : Z) (reason : string).  (** [failPeerPair] is called next *)

(** [peerStatus] *)
Definition peerStatus (clientID sid : string) (status : VNetPeerStatus) (now : Time) (r : serverVNetRuntime) :
    serverVNetRuntime * StatusNext :=
  let key := pair_key clientID (StatusPeer status) in
  match current_session clientID sid r, peerPairs r !! key with
  | Some _, Some pr =>
    if negb (pairGeneration pr =? StatusGeneration status) then (r, StatusHandled)
    else
      match StatusState status with
      | None => (r, StatusInvalid)
      | Some VNetPeerStateFailed | Some VNetPeerStateClosed =>
        (r, StatusFails clientID (StatusPeer status) (StatusGeneration status) (StatusCode status))
      | Some VNetPeerStateReady =>
        if negb (IsZero (retryAfter pr)) then (r, StatusHandled)
        else if negb (IsZero (expiresAt pr)) && negb (Before now (expiresAt pr)) && negb (active pr) then
          (failPeerPairLocked key pr "offer_expired" now r, StatusHandled)
        else
          let pr := pr <| ready := {[clientID]} ∪ ready pr |> in
          let activate := bool_decide (firstID pr ∈ ready pr) && bool_decide (secondID pr ∈ ready pr) &&
                          negb (active pr) in
          let pr := pr <| active := active pr || activate |> in
          let r := r <| peerPairs := <[key := pr]> (peerPairs r) |> in
          if activate then
            let '(r, firstQueued) := enqueue_to (firstID pr) (activation (pairGeneration pr) (secondID pr)) now r in
            let '(r, secondQueued) := enqueue_to (secondID pr) (activation (pairGeneration pr) (firstID pr)) now r in
            (r, if firstQueued && secondQueued then StatusHandled
                else StatusFails (firstID pr) (secondID pr) (pairGeneration pr) "activation_failed")
          else (r, StatusHandled)
      end
  | _, _ => (r, StatusHandled)
  end.

(** [expirePeerPairs], in the order of the map *)
Definition expire_pair (now : Time) (r : serverVNetRuntime) (kp : string * serverVNetPeerPair) : serverVNetRuntime :=
  let '(key, pr) := kp in
  if negb (IsZero (retryAfter pr)) then
    if negb (Before now (retryAfter pr)) then r <| peerPairs := delete key (peerPairs r) |> else r
  else if negb (active pr) && negb (IsZero (expiresAt pr)) && negb (Before now (expiresAt pr)) then
    failPeerPairLocked key pr "offer_expired" now r
  else r.

Section loops.
Context (ρ : go_range string serverVNetPeerPair).

Definition expirePeerPairs (now : Time) (r : serverVNetRuntime) : serverVNetRuntime :=
  foldl (expire_pair now) r (ρ (peerPairs r)).

(** [revokePeers]: every pair, or those of one client, are deleted first and
    then announced. *)
Definition revoked_by (clientID : string) (pr : serverVNetPeerPair) : bool :=
  bool_decide (clientID = "") || has_peer clientID pr.

Definition revokePeers (clientID reason : string) (now : Time) (r : serverVNetRuntime) : serverVNetRuntime :=
  let pairs := List.filter (λ kp, revoked_by clientID kp.2) (ρ (peerPairs r)) in
  foldl (λ r kp, notifyPeerRevocationLocked kp.2 reason now r)
    (r <| peerPairs := filter (λ kp, revoked_by clientID kp.2 = false) (peerPairs r) |>) pairs.
End loops.

(** ** Sessions *)

Definition on_notifier (i : nat) (f : vnetPeerNotifier → vnetPeerNotifier) (r : serverVNetRuntime) : serverVNetRuntime :=
  r <| notifiers := alter f i (notifiers r) |>.

(** [attach]; [n] is the name of the new notifier. *)
Definition attach (clientID sid : string) (g : Z) (auth : Context) (negotiated : bool) (n : nat) (r : serverVNetRuntime) :
    serverVNetRuntime :=
  let r := match sessions r !! clientID with
           | Some previous => on_notifier (peerNotifier previous) cancel r
           | None => r
           end in
  (set_session clientID
     {| sessionID := sid; generation := g; authentication := auth; peerNotifier := n; poolGeneration := 0;
        configGeneration := 0; channelsOffered := false; lifecycleMutex := None; peerRegistrationSecret := [];
        peerFingerprint := ""; peerCandidates := []; peerAddress := ""; peerNegotiated := negotiated |} r)
    <| notifiers := <[n := new_notifier clientID (contextDone r)]> (notifiers r) |>.

(** The section of [lockSession]; [m] is the name of a new mutex. *)
Definition lockSession (clientID sid : string) (m : nat) (r : serverVNetRuntime) : serverVNetRuntime * option nat :=
  match current_session clientID sid r with
  | None => (r, None)
  | Some session =>
    match lifecycleMutex session with
    | Some mutex => (r, Some mutex)
    | None => (set_session clientID (session <| lifecycleMutex := Some m |>) r, Some m)
    end
  end.

(** What [assignLocked] reads in its first section. *)
Record AssignPlan := {
  planSession : serverVNetSession;
  planConfiguration : VirtualNetworkConfig;
  planGeneration : Z;
  planNode : VNetNodeConfig;
  planState : VNetState
}.

Definition assign_state (conf : VirtualNetworkConfig) (deviceReady userspaceReady : bool) : VNetState :=
  if Enabled conf then
    if deviceReady then
      if bool_decide (EffectiveVNetNetworkMode conf = "loopback") && negb userspaceReady then VNetStateFailed
      else VNetStateEnabled
    else VNetStateInstallationRequired
  else VNetStateDisabled.

(** The first section of [assignLocked]; the plan is absent when the session
    is no longer current or has no node. *)
Definition assign_read (clientID sid : string) (r : serverVNetRuntime) : option AssignPlan :=
  session ← current_session clientID sid r;
  node ← VNetNode (configuration r) clientID;
  Some {| planSession := session; planConfiguration := configuration r; planGeneration := runtimeConfigGeneration r;
          planNode := node; planState := assign_state (configuration r) (device r) (userspaceTCP r) |}.

(** The second section of [assignLocked], with the secret it generated; the
    result is the new session. *)
Definition assign_commit (clientID sid : string) (plan : AssignPlan) (pool : Z) (secret : list byte)
    (r : serverVNetRuntime) : option (serverVNetRuntime * serverVNetSession) :=
  let current := default zero_session (sessions r !! clientID) in
  if negb (bool_decide (sessionID current = sid)) then None
  else
    let current := current <| poolGeneration := pool |> <| configGeneration := planGeneration plan |>
                           <| channelsOffered := false |>
                           <| peerRegistrationSecret :=
                                if peerNegotiated current && Enabled (planConfiguration plan) then secret else [] |>
                           <| peerFingerprint := "" |> <| peerCandidates := [] |> <| peerAddress := "" |> in
    Some (set_session clientID current r, current).

Definition assignment (EncodeToString : list byte → string) (plan : AssignPlan) (pool : Z)
    (current : serverVNetSession) : VNetAssignment :=
  {| AssignedMode := EffectiveVNetNetworkMode (planConfiguration plan); AssignedCIDR := CIDR (planConfiguration plan);
     ClientIP := NodeIP (planNode plan); AssignedServerIP := ServerIP (planConfiguration plan); MTU := vnetMTU;
     AssignedChannels := u8 (PacketChannels (planConfiguration plan));
     TransportGeneration := generation (planSession plan); AssignedPool := pool;
     AssignedConfig := configGeneration current; AssignedState := planState plan;
     PeerRegistrationTicket :=
       if bool_decide (peerRegistrationSecret current = []) then "" else EncodeToString (peerRegistrationSecret current) |}.

Inductive ActivateNext :=
| ActivateIgnored
| ActivateFailed                         (** continue with [replaceFailedPoolLocked] *)
| ActivateReady.

(** [activate] up to the checks of the status *)
Definition activate_read (clientID sid : string) (status : VNetStatus) (r : serverVNetRuntime) : ActivateNext :=
  let current := default zero_session (sessions r !! clientID) in
  if bool_decide (sessionID current = sid) &&
     (negb (Enabled (configuration r)) || negb (is_some (VNetNode (configuration r) clientID)) ||
      (poolGeneration current =? 0) || (PoolGeneration status <? poolGeneration current))
  then ActivateIgnored
  else
    match State status with
    | VNetStateFailed =>
      if bool_decide (Code status = "network_conflict") || bool_decide (Code status = "userspace_stack_unavailable")
      then ActivateIgnored else ActivateFailed
    | VNetStateReady => ActivateReady
    | _ => ActivateIgnored
    end.

(** Whether a status is about the current assignment of a session. *)
Definition status_matches (status : VNetStatus) (session : serverVNetSession) : bool :=
  (poolGeneration session =? PoolGeneration status) && (ConfigGeneration status =? configGeneration session).

(** The section of [activate] that claims the offer of channels; [None] when
    the status is stale or the channels were offered. *)
Definition activate_claim (clientID sid : string) (status : VNetStatus) (r : serverVNetRuntime) :
    serverVNetRuntime * option (serverVNetSession * VirtualNetworkConfig) :=
  match current_session clientID sid r with
  | Some session =>
    if negb (status_matches status session) || channelsOffered session then (r, None)
    else
      let session := session <| channelsOffered := true |> in
      (set_session clientID session r, Some (session, configuration r))
  | None => (r, None)
  end.

(** The specification [activate] gives to [Prepare]. *)
Definition pool_spec (clientID sid : string) (status : VNetStatus) (session : serverVNetSession)
    (conf : VirtualNetworkConfig) (node : VNetNodeConfig) : PoolSpec :=
  {| SpecClientID := clientID; SpecSessionID := sid; SpecTransportGeneration := generation session;
     SpecVirtualIP := NodeIP node; SpecPoolGeneration := PoolGeneration status;
     SpecChannelCount := u8 (PacketChannels conf); SpecMTU := vnetMTU; SpecWriteTimeout := vnetChannelWriteTimeout;
     SpecAuthentication := authentication session |}.

Definition resetOffered (clientID sid : string) (g : Z) (r : serverVNetRuntime) : serverVNetRuntime :=
  match current_session clientID sid r with
  | Some session =>
    if poolGeneration session =? g then set_session clientID (session <| channelsOffered := false |>) r else r
  | None => r
  end.

(** The section of [replaceFailedPoolLocked]; [None] when the status is stale. *)
Definition failed_pool (clientID sid : string) (status : VNetStatus) (r : serverVNetRuntime) : option serverVNetRuntime :=
  match current_session clientID sid r with
  | Some session =>
    if status_matches status session then Some (set_session clientID (session <| channelsOffered := false |>) r) else None
  | None => None
  end.

Definition poolIsCurrent (clientID sid : string) (g : Z) (r : serverVNetRuntime) : bool :=
  match current_session clientID sid r with Some session => poolGeneration session =? g | None => false end.

(** ** Registrations, flows, detaching and reloading *)

Section runtime.
Context `{NetipText} `{SignalCodec}.
Context (hmac : list byte → list byte → list byte) (sha256 : list byte → list byte).
Context (ParseAddrPort : string → option (Addr * Z)) (AddrPortString : Addr * Z → string).
Context (o : Orders) (ρf : go_range Key flowState) (ρs : go_range string serverVNetSession).

(** The checks of [readPeerRegistrations], made in both of its sections. *)
Definition registered (data : list byte) (signal : PeerSignal) (r : serverVNetRuntime) : option serverVNetSession :=
  session ← current_session (SignalClientID signal) (SignalSessionID signal) r;
  if is_some (VerifyPeerSignal hmac data (peerRegistrationSecret session)) then None else Some session.

Definition registration (data : list byte) : option PeerSignal :=
  match ParsePeerSignal data with
  | Err _ => None
  | Ok signal =>
    if negb (PeerWire.Kind signal =? PeerSignalRegister) || bool_decide (SignalSessionID signal = "") ||
       bool_decide (Fingerprint signal = "")
    then None else Some signal
  end.

(** The second section of [readPeerRegistrations]. *)
Definition register_commit (data : list byte) (signal : PeerSignal) (address : string) (r : serverVNetRuntime) :
    serverVNetRuntime :=
  match registered data signal r with
  | None => r
  | Some session =>
    let candidates := normalizePeerCandidates ParseAddrPort AddrPortString (HostCandidates signal) ++
                      [{| Address := address; CandidateType := VNetPeerCandidateServerReflexive |}] in
    set_session (SignalClientID signal)
      (session <| peerFingerprint := Fingerprint signal |> <| peerCandidates := candidates |>
               <| peerAddress := address |>) r
  end.

Inductive FlowOutcome := FlowIgnored | FlowAuthorised | FlowRefused.

Definition flow_open (request : VNetPeerFlowOpen) (source destination : Addr) : Flow :=
  {| Protocol := FlowProtocol request; SourceIP := source; SourcePort := FlowSourcePort request;
     DestinationIP := destination; DestinationPort := FlowDestinationPort request; TCPFlags := FlowTCPFlags request |}.

(** [openPeerFlow] *)
Definition openPeerFlow (clientID sid : string) (request : VNetPeerFlowOpen) (now : Time) (r : serverVNetRuntime) :
    serverVNetRuntime * FlowOutcome :=
  match current_session clientID sid r, peerPairs r !! pair_key clientID (FlowPeer request) with
  | Some _, Some pr =>
    if negb (active pr) || negb (pairGeneration pr =? FlowGeneration request) then (r, FlowIgnored)
    else
      match ParseAddr (FlowSourceIP request), ParseAddr (FlowDestinationIP request),
            VNetNode (configuration r) (FlowPeer request) with
      | Some source, Some destination, Some target =>
        if negb (bool_decide (NodeIP target = FlowDestinationIP request)) then (r, FlowRefused)
        else
          let '(router', result) := AuthorizePeerFlow sha256 o clientID (flow_open request source destination) now (router r) in
          let r := r <| router := router' |> in
          match result with
          | Ok dest =>
            match Router.Kind dest with
            | DestinationClient => if bool_decide (DestClientID dest = FlowPeer request) then (r, FlowAuthorised) else (r, FlowRefused)
            | DestinationServer => (r, FlowRefused)
            end
          | Err _ => (r, FlowRefused)
          end
      | _, _, _ => (r, FlowRefused)
      end
  | _, _ => (r, FlowIgnored)
  end.

(** The section of [detach]; the result is the session it removed. *)
Definition detach_section (clientID sid : string) (r : serverVNetRuntime) : serverVNetRuntime * option serverVNetSession :=
  match current_session clientID sid r with
  | Some session =>
    (r <| sessions := delete clientID (sessions r) |> <| router := RemoveClient ρf clientID (router r) |>, Some session)
  | None => (r, None)
  end.

Definition vnetAssignmentChanged (previous conf : VirtualNetworkConfig) (clientID : string) : bool :=
  let oldNode := VNetNode previous clientID in
  let newNode := VNetNode conf clientID in
  negb (bool_decide (Enabled previous = Enabled conf)) || negb (PacketChannels previous =? PacketChannels conf) ||
  negb (bool_decide (CIDR previous = CIDR conf)) || negb (bool_decide (ServerIP previous = ServerIP conf)) ||
  negb (bool_decide (is_some oldNode = is_some newNode)) ||
  negb (bool_decide (NodeIP (default zero_node oldNode) = NodeIP (default zero_node newNode))).

Definition network_changed (previous conf : VirtualNetworkConfig) : bool :=
  negb (bool_decide (CIDR previous = CIDR conf)) || negb (bool_decide (ServerIP previous = ServerIP conf)).

(** Nodes whose flows end with a configuration. *)
Definition node_removed (previous conf : VirtualNetworkConfig) (node : VNetNodeConfig) : bool :=
  network_changed previous conf ||
  match VNetNode conf (NodeClientID node) with
  | None => true
  | Some replacement => negb (bool_decide (NodeIP replacement = NodeIP node))
  end.

Definition remove_nodes (previous conf : VirtualNetworkConfig) (rt : Router) : Router :=
  foldl (λ rt node, if node_removed previous conf node then RemoveClient ρf (NodeClientID node) rt else rt)
    rt (Nodes previous).

(** The section of [applyConfiguration]; the result is the snapshot of the
    sessions. *)
Definition apply_section (conf : VirtualNetworkConfig) (g : Z) (r : serverVNetRuntime) :
    serverVNetRuntime * list (string * string) :=
  let previous := configuration r in
  let drop := negb (Enabled conf) || network_changed previous conf in
  let rt := remove_nodes previous conf (router r) in
  let rt := default rt (ApplyPolicy ρf conf rt) in
  (r <| configuration := conf |> <| runtimeConfigGeneration := g |>
     <| device := if drop then false else device r |> <| userspaceTCP := if drop then false else userspaceTCP r |>
     <| router := rt |>
     <| sessions := map_imap (λ c s, Some (if vnetAssignmentChanged previous conf c
                                            then s <| poolGeneration := 0 |> <| channelsOffered := false |> else s))
                      (sessions r) |>,
   (λ cs, (cs.1, sessionID cs.2)) <$> ρs (sessions r)).

(** What [updateSessionConfiguration] tells a client first. *)
Definition deactivate_reason (previous conf : VirtualNetworkConfig) (clientID : string) : VNetDeactivateReason :=
  if Enabled previous && negb (Enabled conf) then VNetDeactivateDisabled
  else if is_some (VNetNode previous clientID) && negb (is_some (VNetNode conf clientID)) then VNetDeactivateNodeRemoved
  else VNetDeactivatePolicyChanged.
Definition deactivates (previous conf : VirtualNetworkConfig) (clientID : string) : bool :=
  Enabled previous || is_some (VNetNode previous clientID) ||
  negb (bool_decide (NodeIP (default zero_node (VNetNode previous clientID)) =
                     NodeIP (default zero_node (VNetNode conf clientID)))).

(** The section of [updateSessionConfiguration]. *)
Definition update_section (clientID sid : string) (r : serverVNetRuntime) : serverVNetRuntime :=
  let current := default zero_session (sessions r !! clientID) in
  if bool_decide (sessionID current = sid) then set_session clientID (current <| poolGeneration := 0 |>) r else r.

(** The section that publishes a prepared device ([prepareRuntimeDevice]);
    [stack] says that the user-space stack could be created. *)
Definition publish_device (conf : VirtualNetworkConfig) (stack : bool) (r : serverVNetRuntime) :
    option (serverVNetRuntime * list (string * string)) :=
  if device r || negb (Enabled (configuration r)) || network_changed (configuration r) conf then None
  else Some (r <| device := true |>
               <| userspaceTCP := userspaceTCP r || (bool_decide (EffectiveVNetNetworkMode conf = "loopback") && stack) |>,
             (λ cs, (cs.1, sessionID cs.2)) <$> ρs (sessions r)).

(** The loss of the device ([readDevice]). *)
Definition lose_device (r : serverVNetRuntime) : serverVNetRuntime :=
  if device r then r <| device := false |> <| userspaceTCP := false |> else r.
End runtime.
