(* ===== verification/ServerRuntime.v ===== *)
(** * The server's virtual network runtime: interleavings

    The critical sections of [ServerVNet] composed as the calls compose them:
    control messages of the clients, registrations by UDP, packets, the sender
    goroutines of the notifiers, the pool broker (a whole [PoolBroker.World]),
    reloads and the ticker, each of them interrupted wherever the code holds no
    lock. *)

From S2P Require Import Prelude GoTime NetAddr GoIO PortPolicy ConfigVNet Packet FlowControl Router Authentication PeerWire PeerEndpoint PoolBroker ServerVNet.

Local Open Scope Z_scope.

(** What a call does once it holds the lifecycle mutex of a session. *)
Inductive Task :=
| TaskAssign                                          (** [assign] *)
| TaskActivate (status : VNetStatus)                  (** [activate] *)
| TaskReaders (pool : Z)                              (** the end of [RunReaders] in [bind] *)
| TaskUpdate (previous conf : VirtualNetworkConfig) (g : Z).  (** [updateSessionConfiguration] *)

(** Calls between two of their sections; [l] is the mutex they hold. *)
Inductive Pc :=
| Locking (c sid : string) (task : Task)
| Awaiting (m : nat) (c sid : string) (task : Task)
| Holding (l : option nat) (c sid : string) (task : Task)
| AssignRead (l : option nat) (c sid : string)
| AssignNumber (l : option nat) (c sid : string) (plan : AssignPlan)
| AssignCommit (l : option nat) (c sid : string) (plan : AssignPlan) (pool : Z)
| Writing (l : option nat) (c sid : string) (messages : list ControlMessage) (undo : option Z)
| ActivateClaim (l : option nat) (c sid : string) (status : VNetStatus)
| ActivatePrepare (l : option nat) (c sid : string) (status : VNetStatus) (s : serverVNetSession) (conf : VirtualNetworkConfig)
| ActivateReset (l : option nat) (c sid : string) (pool : Z)
| FailedPool (l : option nat) (c sid : string) (status : VNetStatus)
| RemovePool (l : option nat) (c sid : string)        (** [broker.Remove], then [assignLocked] *)
| ReadersCheck (l : option nat) (c sid : string) (pool : Z)
| UpdateNotify (l : option nat) (c sid : string) (message : option ControlMessage) (exists_ : bool)
| UpdateSection (l : option nat) (c sid : string) (exists_ : bool)
| UpdateRemove (l : option nat) (c sid : string) (exists_ : bool)
| DetachStop (c sid : string) (n : nat)
| DetachWait (c sid : string) (n : nat)
| DetachRevoke (c sid : string)
| DetachRemove (c sid : string)
| ReloadRemove (previous conf : VirtualNetworkConfig) (g : Z) (todo all : list (string * string))
| ReloadPeers (previous conf : VirtualNetworkConfig) (g : Z) (all : list (string * string))
| FailPair (first second : string) (g : Z) (reason : string) (next : option (Destination * list byte))
| Offering (source target : string) (next : option (Destination * list byte))  (** about to call [offerPeer] *)
| Routing (c : string) (packet : list byte)
| Dispatching (dest : Destination) (packet : list byte)
| Registering (data : list byte) (signal : PeerSignal) (address : string).

Inductive Event :=
| EvWrote (c sid : string) (message : ControlMessage)
| EvReady (c : string) (g : Z)                        (** a session of [c] reported a ready path *)
| EvToDevice (packet : list byte).

Record World := {
  rt : serverVNetRuntime;
  pools : PoolBroker.World;
  guards : gmap nat (Destination * nat);              (** the closures [authorized] of queued packets *)
  passed : gset (nat * nat);                          (** writers whose closure has seen a current session *)
  held : gset nat;                                    (** mutexes that are locked *)
  used : gset string;                                 (** identifiers of all sessions so far *)
  threads : gmap nat Pc;
  next : nat;                                         (** never used for a thread, mutex or notifier *)
  events : list Event
}.
#[export] Instance eta_server_World : Eta World :=
  λ w, {| rt := rt w; pools := pools w; guards := guards w; passed := passed w; held := held w; used := used w; threads := threads w; next := next w;
          events := events w |}.

Definition set_rt (r : serverVNetRuntime) (w : World) : World := w <| rt := r |>.
Definition emit (evs : list Event) (w : World) : World := w <| events := events w ++ evs |>.
Definition spawn (pc : Pc) (w : World) : World :=
  w <| threads := <[next w := pc]> (threads w) |> <| next := S (next w) |>.
Definition spawn_all (pcs : list Pc) (w : World) : World := foldl (λ w pc, spawn pc w) w pcs.
Definition goto (t : nat) (pc : Pc) (w : World) : World := w <| threads := <[t := pc]> (threads w) |>.
Definition exit (t : nat) (w : World) : World := w <| threads := delete t (threads w) |>.

(** The deferred unlock and the return. *)
Definition unlock (l : option nat) (w : World) : World :=
  match l with Some m => w <| held := held w ∖ {[m]} |> | None => w end.
Definition leave (t : nat) (l : option nat) (w : World) : World := exit t (unlock l w).

Section runtime.
Context `{NetipText} `{SignalCodec}.
Context (hmac : list byte → list byte → list byte) (sha256 : list byte → list byte).
Context (EncodeToString : list byte → string) (DecodeString : string → option (list byte)).
Context (ParseAddrPort : string → option (Addr * Z)) (AddrPortString : Addr * Z → string).
Context (o : Orders) (ρf : go_range Key flowState) (ρs : go_range string serverVNetSession).
Context (ρp : go_range string serverVNetPeerPair) (ρb : go_range string nat).

Abbreviation pool_step := (PoolBroker.step EncodeToString DecodeString sha256 ρb).

(** A call of the pool broker. *)
Definition call_pools (a : PoolBroker.Action) (w : World) : World :=
  match pool_step a (pools w) with Some p => w <| pools := p |> | None => w end.

Definition has_pool (w : World) (c : string) : bool := is_some (PoolBroker.Active c (broker (pools w))).

(** What the environment decides in a step. *)
Record Input := {
  ok : bool;                                          (** a write succeeds *)
  now : Time;
  secret : option (list byte);                        (** [rand.Read] of 32 bytes *)
  tickets : option (list (list byte))                 (** [rand.Read] of the channel tickets *)
}.

(** [activate] after the claim: prepare the pool, then write the messages. *)
Definition prepare_pool (t : nat) (l : option nat) (c sid : string) (status : VNetStatus) (s : serverVNetSession)
    (conf : VirtualNetworkConfig) (i : Input) (w : World) : World :=
  match VNetNode conf c with
  | Some node =>
    if Enabled conf then
      let sp := pool_spec c sid status s conf node in
      let w' := call_pools (DoPrepare sp vnetPoolTicketLifetime (tickets i) (now i)) w in
      match (Prepare EncodeToString sha256 sp vnetPoolTicketLifetime (tickets i) (PoolBroker.next (pools w)) (now i)
               (broker (pools w))).2 with
      | Ok (offers, _) =>
        goto t (Writing l c sid (MessageVNetActivate (PoolGeneration status) (configGeneration s) ::
                                 (MessageOpenVNetChannel <$> offers)) (Some (PoolGeneration status))) w'
      | Err _ => goto t (ActivateReset l c sid (PoolGeneration status)) w'
      end
    else goto t (ActivateReset l c sid (PoolGeneration status)) w
  | None => goto t (ActivateReset l c sid (PoolGeneration status)) w
  end.

(** One step of a call that holds, or was refused, the mutex of a session. *)
Definition holding_step (t : nat) (l : option nat) (c sid : string) (task : Task) (w : World) : World :=
  match task with
  | TaskAssign => goto t (AssignRead l c sid) w
  | TaskActivate status =>
    match activate_read c sid status (rt w) with
    | ActivateIgnored => leave t l w
    | ActivateFailed => goto t (FailedPool l c sid status) w
    | ActivateReady => goto t (ActivateClaim l c sid status) w
    end
  | TaskReaders pool => goto t (ReadersCheck l c sid pool) (call_pools (DoRemove c sid pool) w)
  | TaskUpdate previous conf g =>
    if vnetAssignmentChanged previous conf c then
      goto t (UpdateNotify l c sid (if deactivates previous conf c
                                    then Some (MessageVNetDeactivate g (deactivate_reason previous conf c)) else None)
                (is_some (VNetNode conf c))) w
    else leave t l w
  end.

(** A reload is split over the sessions of its snapshot. *)
Definition reload_updates (previous conf : VirtualNetworkConfig) (g : Z) (all : list (string * string)) : list Pc :=
  (λ cs, Locking cs.1 cs.2 (TaskUpdate previous conf g)) <$> all.

Definition reload_done (t : nat) (previous conf : VirtualNetworkConfig) (g : Z) (all : list (string * string)) (i : Input)
    (w : World) : World :=
  exit t (spawn_all (reload_updates previous conf g all)
            (set_rt (revokePeers ρp "" "configuration_changed" (now i) (rt w)) w)).

(** The rest of [routeClientPacket] after the offer. *)
Definition continue (t : nat) (next : option (Destination * list byte)) (w : World) : World :=
  match next with Some (dest, packet) => goto t (Dispatching dest packet) w | None => exit t w end.

Definition offer_next (t : nat) (source target : string) (next : option (Destination * list byte)) (i : Input) (w : World) :
    World :=
  let '(r, result) := offerPeer source target (EncodeToString <$> secret i) (has_pool w) (now i) (rt w) in
  let w := set_rt r w in
  match result with
  | Some (g, false) => goto t (FailPair source target g "offer_failed" next) w
  | _ => continue t next w
  end.

(** [routeClientPacket] *)
Definition route_step (t : nat) (c : string) (packet : list byte) (i : Input) (w : World) : World :=
  let '(router', result) := RouteClientPacket sha256 o c packet (now i) (router (rt w)) in
  let w := set_rt ((rt w) <| router := router' |>) w in
  match result with
  | Ok dest =>
    match Router.Kind dest with
    | DestinationClient =>
      if bool_decide (DestClientID dest = c) then goto t (Dispatching dest packet) w
      else goto t (Offering c (DestClientID dest) (Some (dest, packet))) w
    | DestinationServer => goto t (Dispatching dest packet) w
    end
  | Err _ => exit t w
  end.

(** [dispatch]; the queued packet keeps the name of the closure [authorized]. *)
Definition dispatch_step (t : nat) (dest : Destination) (packet : list byte) (i : Input) (w : World) : World :=
  if negb (Router.IsCurrent dest (router (rt w))) then exit t w
  else
    match Router.Kind dest with
    | DestinationServer => exit t (if device (rt w) && ok i then emit [EvToDevice packet] w else w)
    | DestinationClient =>
      match PoolBroker.Active (DestClientID dest) (broker (pools w)) with
      | Some p => 
        exit t ((call_pools (DoEnqueue p packet (Z.to_nat (DestChannelIndex dest)) (next w) (now i)) w)
                  <| guards := <[next w := (dest, p)]> (guards w) |> <| next := S (next w) |>)
      | None => exit t w
      end
    end.

(** The closure [authorized] of a queued packet looks at the session first and
    at the router then. *)
Definition guarded (p j : nat) (w : World) : option (Destination * Pool) :=
  pool ← PoolBroker.pools (broker (pools w)) !! p;
  pc ← writers pool !! j;
  match pc with
  | Guarding q _ => dp ← guards w !! guard q; Some (dp.1, pool)
  | _ => None
  end.

Definition guard_session (dest : Destination) (pool : Pool) (w : World) : bool :=
  let s := default zero_session (sessions (rt w) !! DestClientID dest) in
  MatchesSession (sessionID s) (poolGeneration s) pool.

Definition guard_step (p j : nat) (now : Time) (w : World) : option World :=
  '(dest, pool) ← guarded p j w;
  let answer b := pw ← pool_step (DoWriter p j (Authorized b) now) (pools w); Some (w <| pools := pw |>) in
  if bool_decide ((p, j) ∈ passed w) then
    w ← answer (Router.IsCurrent dest (router (rt w)));
    Some (w <| passed := passed w ∖ {[(p, j)]} |>)
  else if guard_session dest pool w then Some (w <| passed := {[(p, j)]} ∪ passed w |>)
  else answer false.

(** Steps of the broker that the runtime does not decide. *)
Definition own_step (a : PoolBroker.Action) : bool :=
  match a with DoWriter _ _ (Authorized _) _ => false | _ => true end.

Definition thread_step (t : nat) (pc : Pc) (i : Input) (w : World) : option World :=
  match pc with
  | Locking c sid task =>
    let '(r, l) := lockSession c sid (next w) (rt w) in
    let w := (set_rt r w) <| next := S (next w) |> in
    Some (goto t (match l with Some m => Awaiting m c sid task | None => Holding None c sid task end) w)
  | Awaiting m c sid task =>
    if bool_decide (m ∈ held w) then None
    else Some (goto t (Holding (Some m) c sid task) (w <| held := {[m]} ∪ held w |>))
  | Holding l c sid task => Some (holding_step t l c sid task w)
  | AssignRead l c sid =>
    Some (match assign_read c sid (rt w) with
          | Some plan => goto t (AssignNumber l c sid plan) w
          | None => leave t l w
          end)
  | AssignNumber l c sid plan =>
    let pool := runtimePoolGeneration (rt w) + 1 in
    Some (goto t (AssignCommit l c sid plan pool) (set_rt ((rt w) <| runtimePoolGeneration := pool |>) w))
  | AssignCommit l c sid plan pool =>
    Some (match secret i with
          | None => leave t l w
          | Some bytes =>
            match assign_commit c sid plan pool bytes (rt w) with
            | None => leave t l w
            | Some (r, current) =>
              goto t (Writing l c sid [MessageVNetAssignment (assignment EncodeToString plan pool current)] None) (set_rt r w)
            end
          end)
  | Writing l c sid [] undo => Some (leave t l w)
  | Writing l c sid (message :: messages) undo =>
    Some (if ok i then goto t (Writing l c sid messages undo) (emit [EvWrote c sid message] w)
          else match undo with
               | Some pool => goto t (ActivateReset l c sid pool) (call_pools (DoRemove c sid 0) w)
               | None => leave t l w
               end)
  | ActivateClaim l c sid status =>
    let '(r, claimed) := activate_claim c sid status (rt w) in
    let w := set_rt r w in
    Some (match claimed with
          | Some (s, conf) => goto t (ActivatePrepare l c sid status s conf) w
          | None => leave t l w
          end)
  | ActivatePrepare l c sid status s conf => Some (prepare_pool t l c sid status s conf i w)
  | ActivateReset l c sid pool => Some (leave t l (set_rt (resetOffered c sid pool (rt w)) w))
  | FailedPool l c sid status =>
    Some (match failed_pool c sid status (rt w) with
          | Some r => goto t (RemovePool l c sid) (set_rt r w)
          | None => leave t l w
          end)
  | RemovePool l c sid => Some (goto t (AssignRead l c sid) (call_pools (DoRemove c sid 0) w))
  | ReadersCheck l c sid pool =>
    Some (if negb (contextDone (rt w)) && poolIsCurrent c sid pool (rt w) then goto t (AssignRead l c sid) w else leave t l w)
  | UpdateNotify l c sid (Some message) exists_ =>
    Some (if ok i then goto t (UpdateSection l c sid exists_) (emit [EvWrote c sid message] w) else leave t l w)
  | UpdateNotify l c sid None exists_ => Some (goto t (UpdateSection l c sid exists_) w)
  | UpdateSection l c sid exists_ =>
    Some (goto t (UpdateRemove l c sid exists_) (set_rt (update_section c sid (rt w)) w))
  | UpdateRemove l c sid exists_ =>
    let w := call_pools (DoRemove c sid 0) w in
    Some (if exists_ then goto t (AssignRead l c sid) w
          else leave t l (set_rt ((rt w) <| router := RemoveClient ρf c (router (rt w)) |>) w))
  | DetachStop c sid n => Some (goto t (DetachWait c sid n) (set_rt (on_notifier n cancel (rt w)) w))
  | DetachWait c sid n =>
    match sender <$> notifiers (rt w) !! n with
    | Some SenderDone => Some (goto t (DetachRevoke c sid) w)
    | _ => None
    end
  | DetachRevoke c sid =>
    Some (goto t (DetachRemove c sid) (set_rt (revokePeers ρp c "session_closed" (now i) (rt w)) w))
  | DetachRemove c sid => Some (exit t (call_pools (DoRemove c sid 0) w))
  | ReloadRemove previous conf g [] all =>
    let connection := if negb (Enabled conf) then false
                      else if Enabled previous then peerConnection (rt w) else ok i in
    Some (goto t (ReloadPeers previous conf g all) (set_rt ((rt w) <| peerConnection := connection |>) w))
  | ReloadRemove previous conf g ((c, sid) :: todo) all =>
    Some (goto t (ReloadRemove previous conf g todo all)
            (if vnetAssignmentChanged previous conf c then call_pools (DoRemove c sid 0) w else w))
  | ReloadPeers previous conf g all => Some (reload_done t previous conf g all i w)
  | FailPair first second g reason next =>
    Some (continue t next (set_rt (failPeerPair first second g reason (now i) (rt w)) w))
  | Offering source target next => Some (offer_next t source target next i w)
  | Routing c packet => Some (route_step t c packet i w)
  | Dispatching dest packet => Some (dispatch_step t dest packet i w)
  | Registering data signal address =>
    Some (exit t (set_rt (register_commit hmac ParseAddrPort AddrPortString data signal address (rt w)) w))
  end.

Inductive Action :=
| DoAttach (c sid : string) (g : Z) (auth : Context) (negotiated : bool)
| DoTask (c sid : string) (task : Task)
| DoDetach (c sid : string)
| DoPeerStatus (c sid : string) (status : VNetPeerStatus) (now : Time)
| DoOpenFlow (c sid : string) (request : VNetPeerFlowOpen) (now : Time)
| DoClientPacket (c sid : string) (pool : Z) (packet : list byte)
| DoServerPacket (packet : list byte) (now : Time)
| DoRegister (data : list byte) (address : string)
| DoApply (conf : VirtualNetworkConfig) (g : Z)
| DoTick (now : Time)
| DoSender (n : nat) (ok : bool)
| DoPools (a : PoolBroker.Action)
| DoGuard (p j : nat) (now : Time)
| DoDevice (conf : VirtualNetworkConfig) (stack : bool)
| DoDeviceLost
| DoClose
| DoThread (t : nat) (i : Input).

(** A task a control connection or a reader starts for its session. *)
Definition task_started (task : Task) : bool := match task with TaskUpdate _ _ _ => false | _ => true end.

Definition step (a : Action) (w : World) : option World :=
  match a with
  | DoAttach c sid g auth negotiated =>
    if bool_decide (sid ∈ used w) || bool_decide (sid = "") || negb (ValidateClientID c) then None
    else Some ((set_rt (attach c sid g auth negotiated (next w) (rt w)) w) <| next := S (next w) |>
                 <| used := {[sid]} ∪ used w |>)
  | DoTask c sid task => if task_started task && bool_decide (sid ∈ used w) then Some (spawn (Locking c sid task) w) else None
  | DoDetach c sid =>
    let '(r, removed) := detach_section ρf c sid (rt w) in
    let w := set_rt r w in
    Some (match removed with Some s => spawn (DetachStop c sid (peerNotifier s)) w | None => w end)
  | DoPeerStatus c sid status now =>
    let ready := match current_session c sid (rt w), StatusState status with
                 | Some _, Some VNetPeerStateReady => [EvReady c (StatusGeneration status)] | _, _ => [] end in
    let '(r, result) := peerStatus c sid status now (rt w) in
    let w := emit ready (set_rt r w) in
    Some (match result with StatusFails a b g reason => spawn (FailPair a b g reason None) w | _ => w end)
  | DoOpenFlow c sid request now =>
    let '(r, result) := openPeerFlow sha256 o c sid request now (rt w) in
    let w := set_rt r w in
    Some (match result with
          | FlowRefused => spawn (FailPair c (FlowPeer request) (FlowGeneration request) "flow_rejected" None) w
          | _ => w
          end)
  | DoClientPacket c sid pool packet =>
    if poolIsCurrent c sid pool (rt w) then Some (spawn (Routing c packet) w) else None
  | DoServerPacket packet now =>
    let '(router', result) := RouteServerPacket sha256 o packet now (router (rt w)) in
    let w := set_rt ((rt w) <| router := router' |>) w in
    Some (match result with Ok dest => spawn (Dispatching dest packet) w | Err _ => w end)
  | DoRegister data address =>
    if negb (peerConnection (rt w)) then None
    else Some (match registration data with
               | Some signal => if is_some (registered hmac data signal (rt w)) then spawn (Registering data signal address) w else w
               | None => w
               end)
  | DoApply conf g =>
    let previous := configuration (rt w) in
    let '(r, all) := apply_section ρf ρs conf g (rt w) in
    Some (spawn (ReloadRemove previous conf g all all) (set_rt r w))
  | DoTick now => Some (set_rt (expirePeerPairs ρp now (rt w)) w)
  | DoSender n ok =>
    nt ← notifiers (rt w) !! n;
    nt ← sender_step ok nt;
    Some (set_rt ((rt w) <| notifiers := <[n := nt]> (notifiers (rt w)) |>) w)
  | DoPools a => if own_step a then p ← pool_step a (pools w); Some (w <| pools := p |>) else None
  | DoGuard p j now => guard_step p j now w
  | DoDevice conf stack =>
    '(r, all) ← publish_device ρs conf stack (rt w);
    Some (spawn_all ((λ cs, Locking cs.1 cs.2 TaskAssign) <$> all) (set_rt r w))
  | DoDeviceLost => Some (set_rt (lose_device (rt w)) w)
  | DoClose =>
    Some (call_pools PoolBroker.DoClose
            (set_rt ((rt w) <| notifiers := cancel <$> notifiers (rt w) |> <| contextDone := true |> <| peerConnection := false |>
                            <| device := false |> <| userspaceTCP := false |>) w))
  | DoThread t i => pc ← threads w !! t; thread_step t pc i w
  end.

(** [newServerVNetRuntime] and the start of the coordinator. *)
Definition newServerVNetRuntime (conf : VirtualNetworkConfig) (installed listening : bool) : option serverVNetRuntime :=
  rtr ← NewRouter conf vnetMaximumTrackedFlows;
  Some {| configuration := conf; runtimeConfigGeneration := 1; sessions := ∅; router := rtr; device := installed;
          userspaceTCP := installed && bool_decide (EffectiveVNetNetworkMode conf = "loopback");
          runtimePoolGeneration := 0; peerConnection := listening; peerPairs := ∅; peerSequence := 0; notifiers := ∅;
          contextDone := false |}.

Definition start (r : serverVNetRuntime) : World :=
  {| rt := r; pools := PoolBroker.start; guards := ∅; passed := ∅; held := ∅; used := ∅; threads := ∅; next := 0; events := [] |}.

(** The clock reads times after the zero time. *)
Definition timed (a : Action) : Prop :=
  match a with
  | DoPeerStatus _ _ _ now | DoOpenFlow _ _ _ now | DoTick now => 0 <= now
  | DoThread _ i => 0 <= now i
  | _ => True
  end.

Inductive reachable : World → Prop :=
| reachable_start conf installed listening r : newServerVNetRuntime conf installed listening = Some r → reachable (start r)
| reachable_step a w w' : reachable w → timed a → step a w = Some w' → reachable w'.
End runtime.
