(* ===== verification/ServerPeers.v ===== *)
(** * Direct paths on the server: invariants

    The table of pairs is bounded and names each pair by a unique generation;
    notices are queued in an order that never grants authority after it was
    revoked; and every client that was offered a path which is no longer
    current has been told so, or its session is being closed. *)

From S2P Require Import Prelude GoTime NetAddr GoIO PortPolicy ConfigVNet Packet FlowControl Router Authentication PeerWire PeerEndpoint PoolBroker ServerVNet ServerRuntime.

Local Open Scope Z_scope.

Create HintDb peers.

(** ** Keys *)

Definition no_nul (s : string) : Prop := Forall (λ c, c ≠ Ascii.zero) (String.list_ascii_of_string s).

Lemma client_no_nul c : ValidateClientID c = true → no_nul c.
Proof.
  unfold ValidateClientID, no_nul. intros Hv. bool_to_prop. apply Forall_forall. intros x Hx ->.
  rewrite forallb_forall in H0. apply list_elem_of_In, H0 in Hx. by vm_compute in Hx.
Qed.

Lemma append_nul_inj a b c d :
  no_nul a → no_nul c → (a ++ String Ascii.zero b)%string = (c ++ String Ascii.zero d)%string → a = c ∧ b = d.
Proof.
  revert c. induction a as [|x a IH]; intros [|y c] Ha Hc; cbn [String.append].
  - by intros [= ->].
  - intros [= <- _]. apply Forall_cons in Hc as [Hy _]. done.
  - intros [= -> _]. apply Forall_cons in Ha as [Hx _]. done.
  - intros [= -> E]. apply Forall_cons in Ha as [_ Ha]. apply Forall_cons in Hc as [_ Hc].
    destruct (IH c Ha Hc E) as [-> ->]. done.
Qed.

Lemma pair_key_sorted a b : ∃ x y, peerPairKey a b = (pair_key a b, x, y) ∧ pair_key a b = (x ++ String Ascii.zero y)%string ∧
  ((x = a ∧ y = b) ∨ (x = b ∧ y = a)).
Proof. unfold pair_key, peerPairKey. destruct (String.leb a b); naive_solver. Qed.

(** ** The table *)

Definition live (pr : serverVNetPeerPair) : Prop := retryAfter pr = zero_time.

Record table_ok (pairs : gmap string serverVNetPeerPair) (seq : Z) : Prop := {
  to_key k pr : pairs !! k = Some pr → k = (firstID pr ++ String Ascii.zero (secondID pr))%string ∧
    ValidateClientID (firstID pr) = true ∧ ValidateClientID (secondID pr) = true;
  to_seq k pr : pairs !! k = Some pr → 0 < pairGeneration pr <= seq;
  to_unique k k' pr pr' : pairs !! k = Some pr → pairs !! k' = Some pr' → pairGeneration pr = pairGeneration pr' → k = k';
  to_size : Z.of_nat (size pairs) <= vnetMaximumPeerPairs;
  to_count c : peer_count c pairs <= vnetMaximumNodePeers
}.

Lemma peer_count_mono c (m m' : gmap string serverVNetPeerPair) :
  (∀ k pr, m' !! k = Some pr → ∃ pr0, m !! k = Some pr0 ∧ has_peer c pr0 = has_peer c pr) → peer_count c m' <= peer_count c m.
Proof.
  intros Hsub. unfold peer_count. apply inj_le. rewrite <- !size_dom. apply subseteq_size. intros k.
  rewrite !elem_of_dom. intros [pr [Hk Hp]%map_lookup_filter_Some]. destruct (Hsub _ _ Hk) as (pr0 & Hk0 & E).
  exists pr0. apply map_lookup_filter_Some. cbn in *. split; congruence.
Qed.

Lemma peer_count_insert c (m : gmap string serverVNetPeerPair) k pr :
  m !! k = None → peer_count c (<[k := pr]> m) = peer_count c m + (if has_peer c pr then 1 else 0).
Proof.
  intros Hk. unfold peer_count. destruct (has_peer c pr) eqn:E.
  - rewrite map_filter_insert_True by done. rewrite map_size_insert_None; [lia|]. apply map_lookup_filter_None. by left.
  - rewrite map_filter_insert_False by (cbn; congruence). rewrite delete_id by done. lia.
Qed.

(** Entries keep their identity: marking, deleting. *)
Definition same_pair (pr pr' : serverVNetPeerPair) : Prop :=
  pairGeneration pr' = pairGeneration pr ∧ firstID pr' = firstID pr ∧ secondID pr' = secondID pr.

Lemma table_shrink m m' seq :
  (∀ k pr', m' !! k = Some pr' → ∃ pr, m !! k = Some pr ∧ same_pair pr pr') → table_ok m seq → table_ok m' seq.
Proof.
  intros Hsub [T1 T2 T3 T4 T5]. constructor.
  - intros k pr' Hk. destruct (Hsub _ _ Hk) as (pr & Hk0 & E1 & -> & ->). by eapply T1.
  - intros k pr' Hk. destruct (Hsub _ _ Hk) as (pr & Hk0 & -> & _). by eapply T2.
  - intros k k' pr pr' Hk Hk'. destruct (Hsub _ _ Hk) as (p0 & H0 & -> & _), (Hsub _ _ Hk') as (p1 & H1 & -> & _). by eapply T3.
  - etrans; [|exact T4]. apply inj_le. rewrite <- !size_dom. apply subseteq_size. intros k. rewrite !elem_of_dom.
    intros [pr' Hk]. destruct (Hsub _ _ Hk) as (pr & ? & _). eauto.
  - intros c. etrans; [|exact (T5 c)]. apply peer_count_mono. intros k pr' Hk.
    destruct (Hsub _ _ Hk) as (pr & ? & _ & E1 & E2). exists pr. unfold has_peer. by rewrite E1, E2.
Qed.

Lemma table_mark m seq k pr pr' : m !! k = Some pr → same_pair pr pr' → table_ok m seq → table_ok (<[k := pr']> m) seq.
Proof.
  intros Hk Hs. apply table_shrink. intros k' x [[<- <-]|[Hne Hx]]%lookup_insert_Some; [eauto|]. by exists x.
Qed.

(** A new pair, or a new generation of a pair that failed. *)
Lemma table_offer m seq k pr :
  table_ok m seq → k = (firstID pr ++ String Ascii.zero (secondID pr))%string →
  ValidateClientID (firstID pr) = true → ValidateClientID (secondID pr) = true →
  pairGeneration pr = seq + 1 → 0 <= seq →
  (m !! k = None → Z.of_nat (size m) < vnetMaximumPeerPairs ∧
     ∀ c, has_peer c pr = true → peer_count c m < vnetMaximumNodePeers) →
  table_ok (<[k := pr]> m) (seq + 1).
Proof.
  intros [T1 T2 T3 T4 T5] Ek Hv1 Hv2 Hg Hseq Hroom. constructor.
  - intros k' x [[<- <-]|[_ Hx]]%lookup_insert_Some; [done|eauto].
  - intros k' x [[<- <-]|[_ Hx]]%lookup_insert_Some; [lia|]. apply T2 in Hx. lia.
  - intros k1 k2 x1 x2 [[<- <-]|[_ H1]]%lookup_insert_Some [[<- <-]|[_ H2]]%lookup_insert_Some; [done|..].
    + apply T2 in H2. lia.
    + apply T2 in H1. lia.
    + by eapply T3.
  - destruct (m !! k) as [old|] eqn:E.
    + rewrite map_size_insert_Some by eauto. done.
    + rewrite map_size_insert_None by done. destruct (Hroom eq_refl). lia.
  - intros c. destruct (m !! k) as [old|] eqn:E.
    + etrans; [|exact (T5 c)]. apply peer_count_mono. intros k' x [[<- <-]|[_ Hx]]%lookup_insert_Some; [|eauto].
      exists old. split; [done|]. destruct (T1 _ _ E) as (E1 & Hv & _). rewrite Ek in E1.
      apply append_nul_inj in E1 as [E1 E2]; [|by apply client_no_nul..]. unfold has_peer. by rewrite E1, E2.
    + rewrite peer_count_insert by done. specialize (T5 c). destruct (has_peer c pr) eqn:Hp; [|lia].
      apply (proj2 (Hroom eq_refl)) in Hp. lia.
Qed.

(** ** Notices *)

Definition notice_gen (x : PeerNotice) : Z :=
  match x with
  | NoticeOffer offer => PeerGeneration offer
  | NoticeActivate path | NoticeRevoke path _ => PathGeneration path
  end.
Definition is_revoke (x : PeerNotice) : bool := match x with NoticeRevoke _ _ => true | _ => false end.

Definition revoked (l : list PeerNotice) (g : Z) : Prop := ∃ x, x ∈ l ∧ is_revoke x = true ∧ notice_gen x = g.

(** Nothing is granted for a generation after it was revoked. *)
Definition ordered (l : list PeerNotice) : Prop :=
  ∀ l1 x l2 y, l = l1 ++ x :: l2 → is_revoke x = true → y ∈ l2 → notice_gen y = notice_gen x → is_revoke y = true.

Lemma ordered_snoc l x : ordered l → (is_revoke x = false → ¬ revoked l (notice_gen x)) → ordered (l ++ [x]).
Proof.
  intros Ho Hx l1 y l2 z E Hy Hz Eg. destruct l2 as [|a l2 _] using rev_ind; [by apply elem_of_nil in Hz|].
  change (l1 ++ y :: l2 ++ [a]) with (l1 ++ (y :: l2) ++ [a]) in E. rewrite app_assoc in E. apply app_inj_tail in E as [-> ->].
  apply elem_of_app in Hz as [Hz| ->%list_elem_of_singleton]; [by eapply Ho|].
  destruct (is_revoke a) eqn:E; [done|]. exfalso. apply Hx; [done|]. exists y. split_and!; [|done|done].
  apply elem_of_app. right. apply elem_of_cons. by left.
Qed.

(** What an offer says of the configuration. *)
Definition offer_conf (conf : VirtualNetworkConfig) (to : string) (offer : VNetPeerOffer) : Prop :=
  InboundTCP offer = peerPortRanges (PortsTCP (NodePorts (default zero_node (VNetNode conf to)))) ∧
  InboundUDP offer = peerPortRanges (PortsUDP (NodePorts (default zero_node (VNetNode conf to)))) ∧
  PeerVirtualIP offer = NodeIP (default zero_node (VNetNode conf (PeerClientID offer))).

Definition in_sender (pc : SenderPc) : list PeerNotice := match pc with SenderWriting x => [notice x] | _ => [] end.

(** The sender works through the accepted notices in order. *)
Definition fifo (n : vnetPeerNotifier) : Prop :=
  match sender n with
  | SenderDone => written n `prefix_of` accepted n
  | pc => accepted n = written n ++ in_sender pc ++ (notice <$> noticeQueue n)
  end.

Definition live_gen (r : serverVNetRuntime) (g : Z) : Prop :=
  ∃ k pr, peerPairs r !! k = Some pr ∧ pairGeneration pr = g ∧ live pr.

Record logs_ok (evs : list Event) (stale : Prop) (r : serverVNetRuntime) : Prop := {
  lg_session c s : sessions r !! c = Some s → ValidateClientID c = true ∧
    ∃ n, notifiers r !! peerNotifier s = Some n ∧ owner n = c;
  lg_ready k pr c : peerPairs r !! k = Some pr → c ∈ ready pr → EvReady c (pairGeneration pr) ∈ evs;
  lg_active k pr : peerPairs r !! k = Some pr → active pr = true → live pr ∧ firstID pr ∈ ready pr ∧ secondID pr ∈ ready pr;
  lg_seq i n x : notifiers r !! i = Some n → x ∈ accepted n → notice_gen x <= peerSequence r;
  lg_offer i n offer : notifiers r !! i = Some n → NoticeOffer offer ∈ accepted n →
    (∃ k pr, peerPairs r !! k = Some pr ∧ pairGeneration pr = PeerGeneration offer) →
    offer_conf (configuration r) (owner n) offer ∨ stale;
  lg_activate i n path : notifiers r !! i = Some n → NoticeActivate path ∈ accepted n →
    EvReady (owner n) (PathGeneration path) ∈ evs ∧ EvReady (PathClientID path) (PathGeneration path) ∈ evs;
  lg_revoke i n g : notifiers r !! i = Some n → revoked (accepted n) g → ¬ live_gen r g;
  lg_order i n : notifiers r !! i = Some n → ordered (accepted n);
  lg_fifo i n : notifiers r !! i = Some n → fifo n
}.

(** A path offered to the current session of its client. *)
Definition excused (todo : list serverVNetPeerPair) (r : serverVNetRuntime) (i : nat) (n : vnetPeerNotifier) (g : Z) : Prop :=
  ∃ pr s, (pr ∈ todo ∨ ∃ k, peerPairs r !! k = Some pr ∧ live pr) ∧ pairGeneration pr = g ∧
          has_peer (owner n) pr = true ∧ sessions r !! owner n = Some s ∧ peerNotifier s = i.

(** Every path offered is current, revoked, or its session is ending; [todo]
    are pairs about to be announced, [S] the notifiers about to be stopped. *)
Definition held_ok (S : nat → Prop) (todo : list serverVNetPeerPair) (r : serverVNetRuntime) : Prop :=
  ∀ i n offer, notifiers r !! i = Some n → NoticeOffer offer ∈ accepted n →
    cancelled n = true ∨ revoked (accepted n) (PeerGeneration offer) ∨ S i ∨ excused todo r i n (PeerGeneration offer).

Record peers_inv (evs : list Event) (stale : Prop) (S : nat → Prop) (todo : list serverVNetPeerPair)
    (r : serverVNetRuntime) : Prop := {
  pi_table : table_ok (peerPairs r) (peerSequence r);
  pi_seq : 0 <= peerSequence r;
  pi_logs : logs_ok evs stale r;
  pi_held : held_ok S todo r;
  pi_todo pr : pr ∈ todo → pairGeneration pr <= peerSequence r ∧ ¬ live_gen r (pairGeneration pr)
}.

(** *** Queueing *)

(** What a queueing attempt does. *)
Inductive queueing (c : string) (x : PeerNotice) (r : serverVNetRuntime) : serverVNetRuntime → bool → Prop :=
| queue_none : sessions r !! c = None → queueing c x r r false
| queue_some s n n' ok' : sessions r !! c = Some s → notifiers r !! peerNotifier s = Some n → owner n = c →
    owner n' = c → sender n' = sender n → written n' = written n →
    (ok' = true ∧ cancelled n = false ∧ cancelled n' = false ∧ accepted n' = accepted n ++ [x] ∧
     notice <$> noticeQueue n' = (notice <$> noticeQueue n) ++ [x] ∨
     ok' = false ∧ cancelled n' = true ∧ accepted n' = accepted n ∧ noticeQueue n' = noticeQueue n) →
    queueing c x r (r <| notifiers := <[peerNotifier s := n']> (notifiers r) |>) ok'.

Lemma enqueue_queueing evs stale c x now r : logs_ok evs stale r → queueing c x r (enqueue_to c x now r).1 (enqueue_to c x now r).2.
Proof.
  intros Hl. unfold enqueue_to. destruct (sessions r !! c) as [s|] eqn:Hs; [|by apply queue_none].
  destruct (lg_session _ _ _ Hl _ _ Hs) as (_ & n & Hn & Ho). cbn [mbind option_bind]. rewrite Hn. cbn [mbind option_bind].
  unfold enqueue. destruct (cancelled n) eqn:Hc; [|destruct (_ <? _)%nat]; cbn [fst snd].
  - apply queue_some with n; try done. right. done.
  - apply queue_some with n; try done. left. split_and!; try done. cbn [upd noticeQueue]. by rewrite fmap_app.
  - apply queue_some with n; try done. right. done.
Qed.

(** What may be queued. *)
Definition allowed (evs : list Event) (stale : Prop) (r : serverVNetRuntime) (c : string) (x : PeerNotice) : Prop :=
  notice_gen x <= peerSequence r ∧
  match x with
  | NoticeOffer offer => (offer_conf (configuration r) c offer ∨ stale) ∧
      ∃ k pr, peerPairs r !! k = Some pr ∧ pairGeneration pr = PeerGeneration offer ∧ live pr ∧ has_peer c pr = true
  | NoticeActivate path => live_gen r (PathGeneration path) ∧
      EvReady c (PathGeneration path) ∈ evs ∧ EvReady (PathClientID path) (PathGeneration path) ∈ evs
  | NoticeRevoke path _ => ¬ live_gen r (PathGeneration path)
  end.

Lemma revoked_snoc l x g : revoked (l ++ [x]) g ↔ revoked l g ∨ (is_revoke x = true ∧ notice_gen x = g).
Proof.
  unfold revoked. setoid_rewrite elem_of_app. setoid_rewrite list_elem_of_singleton. naive_solver.
Qed.

Lemma fifo_push n n' x :
  sender n' = sender n → written n' = written n → accepted n' = accepted n ++ [x] →
  notice <$> noticeQueue n' = (notice <$> noticeQueue n) ++ [x] → fifo n → fifo n'.
Proof.
  unfold fifo. intros -> -> -> Eq. destruct (sender n); [intros ->; by rewrite Eq, !app_assoc..|]. intros Hp. by apply prefix_app_r.
Qed.

Lemma queueing_inv evs stale S todo c x r r' ok' :
  queueing c x r r' ok' → peers_inv evs stale S todo r → allowed evs stale r c x → peers_inv evs stale S todo r'.
Proof.
  intros Hq [Ht Hseq Hl Hh Htd] [Hg Hx]. destruct Hq as [|s n n' ok' Hs Hn Ho Ho' Es Ew Hcase]; [done|].
  destruct Hl as [L1 L2 L3 L4 L5 L6 L7 L8 L9]. set (i := peerNotifier s) in *.
  assert (Hin : ∀ y, y ∈ accepted n' → y ∈ accepted n ∨ y = x).
  { intros y. destruct Hcase as [(_ & _ & _ & -> & _)|(_ & _ & -> & _)]; [|auto].
    intros [?| ->%list_elem_of_singleton]%elem_of_app; auto. }
  assert (Hrev : ∀ g, revoked (accepted n') g → revoked (accepted n) g ∨ (is_revoke x = true ∧ notice_gen x = g)).
  { intros g. destruct Hcase as [(_ & _ & _ & -> & _)|(_ & _ & -> & _)]; [apply revoked_snoc|auto]. }
  constructor; [done|done| | |done].
  - constructor; cbn [upd sessions peerPairs peerSequence configuration notifiers]; [|exact L2|exact L3|..].
    + intros c0 s0 Hs0. destruct (L1 _ _ Hs0) as (Hv & n0 & Hn0 & Ho0). split; [done|].
      destruct (decide (i = peerNotifier s0)) as [Ei|]; [|exists n0; by rewrite lookup_insert_ne].
      exists n'. rewrite Ei, lookup_insert_eq. rewrite <- Ei, Hn in Hn0. split; congruence.
    + intros j m y [[<- <-]|[_ Hm]]%lookup_insert_Some; [|by eapply L4]. intros [?| ->]%Hin; [by eapply L4|done].
    + intros j m offer [[<- <-]|[_ Hm]]%lookup_insert_Some; [|by eapply L5]. rewrite Ho'.
      intros [Hin'|Ex]%Hin; [rewrite <- Ho; by eapply L5|]. subst x. by destruct Hx.
    + intros j m path [[<- <-]|[_ Hm]]%lookup_insert_Some; [|by eapply L6]. rewrite Ho'.
      intros [Hin'|Ex]%Hin; [rewrite <- Ho; by eapply L6|]. subst x. by destruct Hx as [_ ?].
    + intros j m g [[<- <-]|[_ Hm]]%lookup_insert_Some; [|by eapply L7].
      intros [Hr|[Hr <-]]%Hrev; [by eapply L7|]. destruct x; try done.
    + intros j m [[<- <-]|[_ Hm]]%lookup_insert_Some; [|by eapply L8].
      destruct Hcase as [(_ & _ & _ & -> & _)|(_ & _ & -> & _)]; [|by eapply L8]. apply ordered_snoc; [by eapply L8|].
      intros Hr Hrv. eapply (L7 i n); [done|exact Hrv|]. destruct x; try done.
      * destruct Hx as (_ & k & pr & ? & ? & ? & _). exists k, pr. done.
      * by destruct Hx.
    + intros j m [[<- <-]|[_ Hm]]%lookup_insert_Some; [|by eapply L9]. pose proof (L9 _ _ Hn) as Hf.
      destruct Hcase as [(_ & _ & _ & Ea & Eq)|(_ & _ & Ea & Eq)]; [by eapply fifo_push|].
      unfold fifo in *. by rewrite Es, Ew, Ea, Eq.
  - intros j m offer. cbn [upd notifiers]. intros [[<- <-]|[_ Hm]]%lookup_insert_Some Hoff; [|exact (Hh _ _ _ Hm Hoff)].
    destruct Hcase as [(_ & Hnc & _ & Ea & _)|(_ & -> & _)]; [|by left]. rewrite Ea in Hoff |- *.
    apply elem_of_app in Hoff as [Hoff|Ex%list_elem_of_singleton].
    + destruct (Hh _ _ _ Hn Hoff) as [Hc|[Hr|[?|He]]]; [|right; left; apply revoked_snoc; by left|by auto|].
      * congruence.
      * right. right. right. destruct He as (pr & s0 & Hpr & Eg & Hp & Hs0 & Ei). exists pr, s0. rewrite Ho', <- Ho. done.
    + subst x. destruct Hx as (_ & k & pr & Hk & Eg & Hlv & Hp). right. right. right. exists pr, s.
      rewrite Ho'. split_and!; eauto.
Qed.

(** *** Retiring pairs *)

Lemma retire_inv evs stale S todo todo' r m' :
  let r' := r <| peerPairs := m' |> in
  (∀ k pr', m' !! k = Some pr' → ∃ pr, peerPairs r !! k = Some pr ∧ same_pair pr pr' ∧
     (pr' = pr ∨ (¬ live pr' ∧ ready pr' = ∅ ∧ active pr' = false))) →
  (∀ k pr, peerPairs r !! k = Some pr → live pr → m' !! k = Some pr ∨ pr ∈ todo') →
  (∀ pr, pr ∈ todo → pr ∈ todo') →
  (∀ pr, pr ∈ todo' → pr ∈ todo ∨ ((∃ k, peerPairs r !! k = Some pr) ∧ ¬ live_gen r' (pairGeneration pr))) →
  peers_inv evs stale S todo r → peers_inv evs stale S todo' r'.
Proof.
  intros r' Hsub Hkeep Hold Hnew [Ht Hseq [L1 L2 L3 L4 L5 L6 L7 L8 L9] Hh Htd].
  assert (Hlive : ∀ g, live_gen r' g → live_gen r g).
  { intros g (k & pr' & Hk & Eg & Hl). destruct (Hsub _ _ Hk) as (pr & Hk0 & _ & [->|(Hn & _)]); [|done]. by exists k, pr. }
  constructor; [|done| | |].
  - eapply table_shrink; [|exact Ht]. intros k pr' Hk. destruct (Hsub _ _ Hk) as (pr & ? & ? & _). eauto.
  - constructor; cbn [r' upd sessions peerPairs peerSequence configuration notifiers];
      [exact L1| | |exact L4| |exact L6| |exact L8|exact L9].
    + intros k pr' c Hk Hc. destruct (Hsub _ _ Hk) as (pr & Hk0 & (Eg & _) & [->|(_ & Hr & _)]); [by eapply L2|].
      rewrite Hr in Hc. set_solver.
    + intros k pr' Hk Ha. destruct (Hsub _ _ Hk) as (pr & Hk0 & _ & [->|(_ & _ & Hf)]); [by eapply L3|congruence].
    + intros i n offer Hn Ho (k & pr' & Hk & Eg). destruct (Hsub _ _ Hk) as (pr & Hk0 & (Eg0 & _) & _).
      eapply L5; [done|done|]. exists k, pr. split; [done|congruence].
    + intros i n g Hn Hr Hlg. by eapply L7, Hlive.
  - intros i n offer Hn Ho. destruct (Hh i n offer Hn Ho) as [?|[?|[?|He]]]; [by auto..|]. right. right. right.
    destruct He as (pr & s & Hpr & Eg & Hp & Hs & Ei). exists pr, s. split_and!; try done.
    destruct Hpr as [Hpr|(k & Hk & Hl)]; [left; by apply Hold|]. destruct (Hkeep _ _ Hk Hl) as [?|?]; [right; by exists k|by left].
  - intros pr Hpr. destruct (Hnew _ Hpr) as [Hin|[[k Hk] Hd]].
    + destruct (Htd _ Hin) as [? Hd]. split; [done|]. intros Hlg. by apply Hd, Hlive.
    + split; [|done]. by apply (to_seq _ _ Ht k pr).
Qed.

Lemma queueing_frame c x r r' ok' : queueing c x r r' ok' →
  sessions r' = sessions r ∧ peerPairs r' = peerPairs r ∧ peerSequence r' = peerSequence r ∧ configuration r' = configuration r.
Proof. by destruct 1. Qed.

(** Queueing never forgets, and an attempt is heard or ends the session. *)
Definition heard (r : serverVNetRuntime) (c : string) (g : Z) : Prop :=
  ∀ s n, sessions r !! c = Some s → notifiers r !! peerNotifier s = Some n → cancelled n = true ∨ revoked (accepted n) g.

Lemma queueing_heard c x r r' ok' g :
  queueing c x r r' ok' → is_revoke x = true → notice_gen x = g → heard r' c g.
Proof.
  intros [Hs|s n n' ok2 Hs Hn Ho Ho' Es Ew Hcase] Hr Hg s0 n0 Hs0 Hn0; [congruence|]. cbn [upd sessions notifiers] in *.
  simplify_eq. rewrite lookup_insert_eq in Hn0. injection Hn0 as <-.
  destruct Hcase as [(_ & _ & _ & -> & _)|(_ & -> & _)]; [right; apply revoked_snoc; by right|by left].
Qed.

Lemma queueing_heard_mono c x r r' ok' c' g : queueing c x r r' ok' → heard r c' g → heard r' c' g.
Proof.
  intros [Hs|s n n' ok2 Hs Hn Ho Ho' Es Ew Hcase] Hh; [done|]. intros s0 n0 Hs0. cbn [upd sessions notifiers] in *.
  intros [[E <-]|[_ Hn0]]%lookup_insert_Some; [|by eapply Hh]. rewrite E in Hn.
  destruct (Hh s0 n Hs0 Hn) as [Hc|Hr]; destruct Hcase as [(_ & Hnc & _ & -> & _)|(_ & Hcn & -> & _)]; auto.
  - congruence.
  - right. apply revoked_snoc. by left.
Qed.

Lemma notify_inv evs stale S todo pr reason now r :
  peers_inv evs stale S (pr :: todo) r → peers_inv evs stale S todo (notifyPeerRevocationLocked pr reason now r).
Proof.
  intros Hi. unfold notifyPeerRevocationLocked. cbv zeta. set (revoke := revocation (pairGeneration pr) reason).
  destruct (pi_todo _ _ _ _ _ Hi pr) as [Hg Hd]; [apply elem_of_cons; by left|].
  assert (Hal : ∀ r0 c peer, peerPairs r0 = peerPairs r → peerSequence r0 = peerSequence r → allowed evs stale r0 c (revoke peer)).
  { intros r0 c peer E1 E2. split; [by rewrite E2|]. intros (k & p0 & Hk & ?). apply Hd. exists k, p0. by rewrite E1 in Hk. }
  pose proof (enqueue_queueing evs stale (firstID pr) (revoke (secondID pr)) now r (pi_logs _ _ _ _ _ Hi)) as Q1.
  set (r1 := (enqueue_to (firstID pr) (revoke (secondID pr)) now r).1) in *.
  pose proof (queueing_inv _ _ _ _ _ _ _ _ _ Q1 Hi (Hal _ _ _ eq_refl eq_refl)) as Hi1.
  destruct (queueing_frame _ _ _ _ _ Q1) as (Es1 & Ep1 & Eq1 & _).
  pose proof (enqueue_queueing evs stale (secondID pr) (revoke (firstID pr)) now r1 (pi_logs _ _ _ _ _ Hi1)) as Q2.
  set (r2 := (enqueue_to (secondID pr) (revoke (firstID pr)) now r1).1) in *.
  pose proof (queueing_inv _ _ _ _ _ _ _ _ _ Q2 Hi1 (Hal _ _ _ Ep1 Eq1)) as [Ht Hseq Hl Hh Htd].
  assert (Hheard : ∀ c, has_peer c pr = true → heard r2 c (pairGeneration pr)).
  { intros c. unfold has_peer. intros [<-%bool_decide_eq_true|<-%bool_decide_eq_true]%orb_true_iff.
    - eapply queueing_heard_mono; [exact Q2|]. by eapply queueing_heard; [exact Q1|..].
    - by eapply queueing_heard; [exact Q2|..]. }
  constructor; [done|done|done| |].
  - intros i n offer Hn Ho. destruct (Hh i n offer Hn Ho) as [?|[?|[?|He]]]; [by auto..|].
    destruct He as (p0 & s & Hp0 & Eg & Hp & Hs & Ei).
    destruct Hp0 as [[->|Hp0]%elem_of_cons|Hp0]; [|right; right; right; exists p0, s; by auto..].
    rewrite <- Ei in Hn. rewrite <- Eg. destruct (Hheard (owner n) Hp s n Hs Hn) as [?|?]; auto.
  - intros p0 Hp0. apply Htd. apply elem_of_cons. by right.
Qed.


Lemma notify_same pr pr' reason now r :
  same_pair pr pr' → notifyPeerRevocationLocked pr' reason now r = notifyPeerRevocationLocked pr reason now r.
Proof. intros (E1 & E2 & E3). unfold notifyPeerRevocationLocked. by rewrite E1, E2, E3. Qed.

Lemma fail_inv evs stale S todo key pr reason now r :
  0 <= now → peerPairs r !! key = Some pr → peers_inv evs stale S todo r →
  peers_inv evs stale S todo (failPeerPairLocked key pr reason now r).
Proof.
  intros Hnow Hk Hi. unfold failPeerPairLocked. cbv zeta. set (pr' := pr <| ready := ∅ |> <| active := false |> <| retryAfter := _ |>).
  assert (Hdead : ¬ live pr').
  { unfold live, zero_time, pr'. cbn [upd retryAfter]. unfold Add, vnetPeerRetryDelay, Second. lia. }
  rewrite (notify_same pr pr') by done. apply notify_inv. eapply retire_inv; [..|exact Hi].
  - intros k x [[<- <-]|[_ Hx]]%lookup_insert_Some; [exists pr|exists x]; (split_and!; [done|by split_and!|]); auto.
  - intros k x Hx Hl. destruct (decide (key = k)) as [<-|]; [right|left; by rewrite lookup_insert_ne].
    simplify_eq. apply elem_of_cons. by left.
  - intros x Hx. apply elem_of_cons. by right.
  - intros x [->|Hx]%elem_of_cons; [right|by left]. split; [by exists key|].
    intros (k & y & Hy & Eg & Hl). cbn [upd peerPairs] in Hy. apply lookup_insert_Some in Hy as [[<- <-]|[Hne Hy]]; [done|].
    apply Hne. eapply (to_unique _ _ (pi_table _ _ _ _ _ Hi)); [exact Hk|exact Hy|congruence].
Qed.

Lemma fail_pair_inv evs stale S todo first second g reason now r :
  0 <= now → peers_inv evs stale S todo r → peers_inv evs stale S todo (failPeerPair first second g reason now r).
Proof.
  intros Hnow Hi. unfold failPeerPair. destruct (peerPairs r !! pair_key first second) as [pr|] eqn:Hk; [|done].
  destruct (_ || _); [done|by apply fail_inv].
Qed.

(** *** The ticker and revocations *)

Lemma enqueue_frame c x now r : ∃ m, (enqueue_to c x now r).1 = r <| notifiers := m |>.
Proof.
  unfold enqueue_to. destruct (_ ≫= _) as [[i n]|]; [destruct (enqueue x now n); by eexists|].
  exists (notifiers r). by destruct r.
Qed.

Lemma notify_frame pr reason now r : ∃ m, notifyPeerRevocationLocked pr reason now r = r <| notifiers := m |>.
Proof.
  unfold notifyPeerRevocationLocked. cbv zeta.
  destruct (enqueue_frame (firstID pr) (revocation (pairGeneration pr) reason (secondID pr)) now r) as [m ->].
  destruct (enqueue_frame (secondID pr) (revocation (pairGeneration pr) reason (firstID pr)) now (r <| notifiers := m |>)) as [m' ->].
  by exists m'.
Qed.

Lemma expire_inv evs stale S todo now l r :
  0 <= now → NoDup l.*1 → (∀ k pr, (k, pr) ∈ l → peerPairs r !! k = Some pr) → peers_inv evs stale S todo r →
  peers_inv evs stale S todo (foldl (expire_pair now) r l).
Proof.
  intros Hnow. revert r. induction l as [|[k pr] l IH]; intros r Hnd Hin Hi; [done|]. cbn [foldl].
  apply NoDup_cons in Hnd as [Hk Hnd]. assert (Hpr : peerPairs r !! k = Some pr) by (apply Hin, elem_of_cons; by left).
  assert (Hrest : ∀ k' pr', (k', pr') ∈ l → k ≠ k' ∧ peerPairs r !! k' = Some pr').
  { intros k' pr' Hl. split; [|apply Hin, elem_of_cons; by right]. intros <-. apply Hk. apply list_elem_of_fmap. by exists (k, pr'). }
  apply IH; [done| |].
  - intros k' pr' [Hne Hl]%Hrest. unfold expire_pair, failPeerPairLocked. cbv zeta.
    destruct (negb (IsZero _)); [destruct (negb (Before _ _))|destruct (_ && _)]; try done.
    + cbn [upd peerPairs]. by rewrite lookup_delete_ne.
    + destruct (notify_frame (pr <| ready := ∅ |> <| active := false |> <| retryAfter := Add now vnetPeerRetryDelay |>) "offer_expired" now
        (r <| peerPairs := <[k := pr <| ready := ∅ |> <| active := false |> <| retryAfter := Add now vnetPeerRetryDelay |>]> (peerPairs r) |>)) as [m ->].
      cbn [upd peerPairs]. by rewrite lookup_insert_ne.
  - unfold expire_pair. destruct (negb (IsZero _)) eqn:Hz; [destruct (negb (Before _ _))|destruct (_ && _)]; try done; [|by apply fail_inv].
    eapply retire_inv; [..|exact Hi]; [| |done|auto].
    + intros k' x [_ Hx]%lookup_delete_Some. exists x. split_and!; [done|by split_and!|by left].
    + intros k' x Hx Hl. left. apply lookup_delete_Some. split; [|done]. intros ->. simplify_eq.
      unfold live in Hl. unfold IsZero in Hz. by rewrite Hl in Hz.
Qed.

Lemma revoke_inv evs stale S todo l reason now r :
  peers_inv evs stale S (l ++ todo) r →
  peers_inv evs stale S todo (foldl (λ r pr, notifyPeerRevocationLocked pr reason now r) r l).
Proof. revert r. induction l as [|pr l IH]; intros r Hi; [done|]. cbn [foldl]. by apply IH, notify_inv. Qed.

Lemma foldl_map {A B C} (f : A → C → A) (g : B → C) (l : list B) a : foldl (λ a x, f a (g x)) a l = foldl f a (g <$> l).
Proof. revert a. induction l as [|x l IH]; intros a; [done|]. apply IH. Qed.

Lemma revoke_peers_inv evs stale S ρp clientID reason now r :
  peers_inv evs stale S [] r → peers_inv evs stale S [] (revokePeers ρp clientID reason now r).
Proof.
  intros Hi. unfold revokePeers. cbv zeta. rewrite (foldl_map (λ r pr, notifyPeerRevocationLocked pr reason now r) snd).
  apply revoke_inv. rewrite app_nil_r. set (l := List.filter _ _).
  assert (Hl : ∀ pr, pr ∈ l.*2 → ∃ k, peerPairs r !! k = Some pr ∧ revoked_by clientID pr = true).
  { intros pr ([k pr'] & -> & [Hin Hr]%list_elem_of_In%List.filter_In)%list_elem_of_fmap. exists k.
    split; [|done]. by apply list_elem_of_In, range_elem in Hin. }
  eapply retire_inv; [..|exact Hi]; [| |by intros ? ?%elem_of_nil|].
  - intros k x [Hx _]%map_lookup_filter_Some. exists x. split_and!; [done|by split_and!|by left].
  - intros k x Hx _. destruct (revoked_by clientID x) eqn:Hr; [right|left; by apply map_lookup_filter_Some].
    apply list_elem_of_fmap. exists (k, x). split; [done|]. apply list_elem_of_In, List.filter_In. split; [|done].
    apply list_elem_of_In. by apply range_elem.
  - intros x Hx. right. destruct (Hl _ Hx) as (k & Hk & Hr). split; [by exists k|].
    intros (k' & y & [Hy Hf]%map_lookup_filter_Some & Eg & _). cbn in Hf.
    assert (k' = k) as -> by (by eapply (to_unique _ _ (pi_table _ _ _ _ _ Hi))). congruence.
Qed.

(** *** Offers and status reports *)

Lemma insert_inv evs stale S k pr r :
  peers_inv evs stale S [] r → (∀ old, peerPairs r !! k = Some old → ¬ live old) →
  table_ok (<[k := pr]> (peerPairs r)) (peerSequence r + 1) → pairGeneration pr = peerSequence r + 1 →
  ready pr = ∅ → active pr = false →
  peers_inv evs stale S [] (r <| peerSequence := peerSequence r + 1 |> <| peerPairs := <[k := pr]> (peerPairs r) |>).
Proof.
  intros [Ht Hseq [L1 L2 L3 L4 L5 L6 L7 L8 L9] Hh _] Hdead Ht' Hg Hr Ha.
  constructor; cbn [upd peerPairs peerSequence]; [done|lia| | |by intros ? ?%elem_of_nil].
  - constructor; cbn [upd sessions peerPairs peerSequence configuration notifiers]; [exact L1| | | | |exact L6| |exact L8|exact L9].
    + intros k' x c [[<- <-]|[_ Hx]]%lookup_insert_Some; [rewrite Hr; set_solver|by eapply L2].
    + intros k' x [[<- <-]|[_ Hx]]%lookup_insert_Some; [congruence|by eapply L3].
    + intros i n x Hn Hx. specialize (L4 _ _ _ Hn Hx). lia.
    + intros i n offer Hn Ho (k' & x & [[<- <-]|[_ Hx]]%lookup_insert_Some & Eg); [|by eapply L5; eauto].
      specialize (L4 _ _ _ Hn Ho). cbn [notice_gen] in L4. lia.
    + intros i n g Hn Hrv (k' & x & Hx & Eg & Hl). cbn [upd peerPairs] in Hx.
      apply lookup_insert_Some in Hx as [[<- <-]|[_ Hx]].
      * destruct Hrv as (y & Hy & _ & Ey). specialize (L4 _ _ _ Hn Hy). lia.
      * eapply L7; [done|done|]. by exists k', x.
  - intros i n offer Hn Ho. destruct (Hh i n offer Hn Ho) as [?|[?|[?|He]]]; [by auto..|]. right. right. right.
    destruct He as (p0 & s & [[]%elem_of_nil|(k' & Hk & Hl)] & ?). exists p0, s. split; [|done]. right. exists k'.
    split; [|done]. cbn [upd peerPairs]. rewrite lookup_insert_ne; [done|]. intros ->. by apply (Hdead _ Hk).
Qed.

Lemma has_peer_either x y a b : (x = a ∧ y = b) ∨ (x = b ∧ y = a) → ∀ g rd e ra ac,
  let pr := {| pairGeneration := g; firstID := x; secondID := y; ready := rd; expiresAt := e; retryAfter := ra; active := ac |} in
  has_peer a pr = true ∧ has_peer b pr = true ∧ ∀ c, has_peer c pr = true → c = a ∨ c = b.
Proof.
  intros Hxy g rd e ra ac pr. unfold has_peer, pr. cbn [firstID secondID]. setoid_rewrite orb_true_iff.
  setoid_rewrite bool_decide_eq_true. naive_solver.
Qed.

Lemma offer_inv evs stale S sourceID targetID ticket pool now r :
  peers_inv evs stale S [] r → peers_inv evs stale S [] (offerPeer sourceID targetID ticket pool now r).1.
Proof.
  intros Hi. unfold offerPeer. destruct (pair_key_sorted sourceID targetID) as (x & y & -> & Ek & Hxy).
  destruct (match peerPairs r !! _ with Some _ => _ | None => _ end) eqn:Hg; [done|].
  destruct (sessions r !! sourceID) as [source|] eqn:Hs; [|done]. destruct (sessions r !! targetID) as [target|] eqn:Ht; [|done].
  destruct ticket as [ticket|]; [|done]. destruct (bool_decide (peerFingerprint source = _) || _ || _ || _) eqn:Hb; [exact Hi|]. cbv zeta.
  destruct (lg_session _ _ _ (pi_logs _ _ _ _ _ Hi) _ _ Hs) as [Hv1 _].
  destruct (lg_session _ _ _ (pi_logs _ _ _ _ _ Hi) _ _ Ht) as [Hv2 _].
  set (k := pair_key sourceID targetID) in *.
  set (pr := {| pairGeneration := peerSequence r + 1; firstID := x |}).
  destruct (has_peer_either x y sourceID targetID Hxy (peerSequence r + 1) ∅ (Add now vnetPeerOfferLifetime) zero_time false) as (Hp1 & Hp2 & Hp3).
  fold pr in Hp1, Hp2, Hp3.
  set (r1 := r <| peerSequence := _ |> <| peerPairs := _ |>).
  assert (Hi1 : peers_inv evs stale S [] r1).
  { apply insert_inv; try done.
    - intros old Hold. rewrite Hold in Hg. unfold live. intros E. unfold IsZero in Hg. by rewrite E in Hg.
    - apply table_offer; try done; [apply Hi| | |apply Hi|].
      + destruct Hxy as [[-> ->]|[-> ->]]; done.
      + destruct Hxy as [[-> ->]|[-> ->]]; done.
      + intros Hnone. rewrite Hnone in Hg. bool_to_prop. split; [lia|]. intros c [->| ->]%Hp3; lia. }
  assert (Hpk : ∀ r0, peerPairs r0 = peerPairs r1 → peerPairs r0 !! k = Some pr) by (intros r0 ->; apply lookup_insert_eq).
  set (o1 := make_offer _ _ sourceID targetID target ticket VNetPeerRoleClient _).
  set (o2 := make_offer _ _ targetID sourceID source ticket VNetPeerRoleServer _).
  pose proof (enqueue_queueing evs stale sourceID (NoticeOffer o1) now r1 (pi_logs _ _ _ _ _ Hi1)) as Q1.
  destruct (enqueue_to sourceID (NoticeOffer o1) now r1) as [r2 b1] eqn:E1. cbn [fst snd] in Q1.
  destruct (queueing_frame _ _ _ _ _ Q1) as (Es & Ep & Eq & Ec).
  assert (Hi2 : peers_inv evs stale S [] r2).
  { eapply queueing_inv; [exact Q1|exact Hi1|]. split; [cbn; lia|]. split; [left; by split_and!|]. exists k, pr. by split_and!; [apply Hpk|..]. }
  pose proof (enqueue_queueing evs stale targetID (NoticeOffer o2) now r2 (pi_logs _ _ _ _ _ Hi2)) as Q2.
  destruct (enqueue_to targetID (NoticeOffer o2) now r2) as [r3 b2] eqn:E2. cbn [fst snd] in Q2 |- *.
  eapply queueing_inv; [exact Q2|exact Hi2|]. split; [rewrite Eq; cbn; lia|]. split; [left; rewrite Ec; by split_and!|].
  exists k, pr. by split_and!; [apply Hpk|..].
Qed.

Lemma peers_inv_mono (evs evs' : list Event) (stale stale' : Prop) (S S' : nat → Prop) todo r :
  (∀ e, e ∈ evs → e ∈ evs') → (stale → stale') → (∀ i, S i → S' i) → peers_inv evs stale S todo r → peers_inv evs' stale' S' todo r.
Proof.
  intros He Hst HS [Ht Hseq [L1 L2 L3 L4 L5 L6 L7 L8 L9] Hh Htd]. constructor; [done|done| | |done].
  - constructor; try done.
    + intros k pr c Hk Hc. by eapply He, L2.
    + intros i n offer Hn Ho Hex. destruct (L5 _ _ _ Hn Ho Hex); auto.
    + intros i n path Hn Ha. destruct (L6 _ _ _ Hn Ha). auto.
  - intros i n offer Hn Ho. destruct (Hh i n offer Hn Ho) as [?|[?|[?|?]]]; auto.
Qed.

Lemma mark_inv evs stale S k pr pr' r :
  peers_inv evs stale S [] r → peerPairs r !! k = Some pr → same_pair pr pr' → retryAfter pr' = retryAfter pr →
  (∀ c, c ∈ ready pr' → EvReady c (pairGeneration pr') ∈ evs) →
  (active pr' = true → live pr' ∧ firstID pr' ∈ ready pr' ∧ secondID pr' ∈ ready pr') →
  peers_inv evs stale S [] (r <| peerPairs := <[k := pr']> (peerPairs r) |>).
Proof.
  intros [Ht Hseq [L1 L2 L3 L4 L5 L6 L7 L8 L9] Hh _] Hk Hsame Hr Hrd Hact. pose proof Hsame as (Eg & E1 & E2).
  constructor; cbn [upd peerPairs peerSequence]; [by eapply table_mark|done| | |by intros ? ?%elem_of_nil].
  - constructor; cbn [upd sessions peerPairs peerSequence configuration notifiers]; [exact L1| | |exact L4| |exact L6| |exact L8|exact L9].
    + intros k' x c [[<- <-]|[_ Hx]]%lookup_insert_Some; [by apply Hrd|by eapply L2].
    + intros k' x [[<- <-]|[_ Hx]]%lookup_insert_Some; [done|by eapply L3].
    + intros i n offer Hn Ho (k' & x & [[<- <-]|[_ Hx]]%lookup_insert_Some & E); [|by eapply L5; eauto].
      eapply L5; [done|done|]. exists k, pr. split; [done|congruence].
    + intros i n g Hn Hrv (k' & x & Hx & Ex & Hl). cbn [upd peerPairs] in Hx.
      eapply L7; [done|done|]. apply lookup_insert_Some in Hx as [[<- <-]|[_ Hx]]; [exists k, pr|by exists k', x].
      unfold live in *. split_and!; congruence.
  - intros i n offer Hn Ho. destruct (Hh i n offer Hn Ho) as [?|[?|[?|He]]]; [by auto..|]. right. right. right.
    destruct He as (p0 & s & [[]%elem_of_nil|(k' & Hk' & Hl)] & Ep & Hp & Hs & Ei).
    destruct (decide (k = k')) as [<-|Hne].
    + simplify_eq. exists pr', s. split_and!; try done; [right; exists k; split; [apply lookup_insert_eq|unfold live in *; congruence]|congruence|].
      unfold has_peer in *. by rewrite E1, E2.
    + exists p0, s. split; [|done]. right. exists k'. cbn [upd peerPairs]. by rewrite lookup_insert_ne.
Qed.

Lemma status_inv evs stale S c sid status now r :
  0 <= now → (is_Some (current_session c sid r) → StatusState status = Some VNetPeerStateReady → EvReady c (StatusGeneration status) ∈ evs) →
  peers_inv evs stale S [] r → peers_inv evs stale S [] (peerStatus c sid status now r).1.
Proof.
  intros Hnow Hev Hi. unfold peerStatus. cbv zeta. destruct (current_session c sid r) as [s|]; [|done].
  destruct (peerPairs r !! pair_key c (StatusPeer status)) as [pr|] eqn:Hk; [|done].
  destruct (pairGeneration pr =? StatusGeneration status) eqn:Hg; cbn [negb]; [|done]. apply Z.eqb_eq in Hg.
  destruct (StatusState status) as [[]|] eqn:Hst; try done.
  destruct (negb (IsZero (retryAfter pr))) eqn:Hz; [done|]. destruct (_ && _ && negb (active pr)) eqn:He; [by apply fail_inv|].
  assert (Hlive : live pr) by (unfold live; unfold IsZero in Hz; bool_to_prop; done).
  assert (HevR : EvReady c (StatusGeneration status) ∈ evs) by eauto.
  set (pr1 := pr <| ready := {[c]} ∪ ready pr |>). set (act := bool_decide (firstID pr1 ∈ _) && _ && _).
  set (pr2 := pr1 <| active := active pr1 || act |>). set (r1 := r <| peerPairs := _ |>).
  pose proof (pi_logs _ _ _ _ _ Hi) as Hl.
  assert (Hready : ∀ c0, c0 ∈ ready pr2 → EvReady c0 (pairGeneration pr2) ∈ evs).
  { intros c0. cbn [pr2 pr1 upd ready pairGeneration]. intros [->%elem_of_singleton|Hc0]%elem_of_union; [by rewrite Hg|].
    by eapply (lg_ready _ _ _ Hl). }
  assert (Hboth : act = true → firstID pr2 ∈ ready pr2 ∧ secondID pr2 ∈ ready pr2).
  { unfold act. intros Hact. bool_to_prop. done. }
  assert (Hi1 : peers_inv evs stale S [] r1).
  { apply (mark_inv _ _ _ _ pr); try done. intros [Ha|Ha]%orb_true_iff; [|split; [done|by apply Hboth]].
    destruct (lg_active _ _ _ Hl _ _ Hk Ha) as (? & ? & ?). cbn [pr2 pr1 upd ready firstID secondID]. set_solver. }
  destruct act eqn:Hact; [|done]. destruct (Hboth eq_refl) as [Hf Hs2].
  assert (Hal : ∀ r0, peerPairs r0 = peerPairs r1 → peerSequence r0 = peerSequence r1 → ∀ a b, a ∈ ready pr2 → b ∈ ready pr2 →
    allowed evs stale r0 a (activation (pairGeneration pr2) b)).
  { intros r0 Ep Eq a b Ha Hb. split; [rewrite Eq; cbn; by apply (to_seq _ _ (pi_table _ _ _ _ _ Hi) _ _ Hk)|]. cbn [PathGeneration PathClientID].
    split_and!; [|by apply Hready..]. eexists _, pr2. split_and!; [rewrite Ep; apply lookup_insert_eq|done|done]. }
  pose proof (enqueue_queueing evs stale (firstID pr2) (activation (pairGeneration pr2) (secondID pr2)) now r1 (pi_logs _ _ _ _ _ Hi1)) as Q1.
  destruct (enqueue_to (firstID pr2) _ now r1) as [r2 b1] eqn:E1. cbn [fst snd] in Q1.
  destruct (queueing_frame _ _ _ _ _ Q1) as (_ & Ep & Eq & _).
  assert (Hi2 : peers_inv evs stale S [] r2) by (eapply queueing_inv; [exact Q1|exact Hi1|by apply Hal]).
  pose proof (enqueue_queueing evs stale (secondID pr2) (activation (pairGeneration pr2) (firstID pr2)) now r2 (pi_logs _ _ _ _ _ Hi2)) as Q2.
  destruct (enqueue_to (secondID pr2) _ now r2) as [r3 b2] eqn:E2. cbn [fst snd] in Q2 |- *.
  eapply queueing_inv; [exact Q2|exact Hi2|by apply Hal].
Qed.

(** *** Sessions and notifiers *)

Definition session_key (s : serverVNetSession) : nat * string := (peerNotifier s, sessionID s).

Definition same_peers (r r' : serverVNetRuntime) : Prop :=
  peerPairs r' = peerPairs r ∧ peerSequence r' = peerSequence r ∧ notifiers r' = notifiers r ∧
  ∀ c, session_key <$> sessions r' !! c = session_key <$> sessions r !! c.

Lemma same_inv evs stale S r r' :
  same_peers r r' → configuration r' = configuration r ∨ stale → peers_inv evs stale S [] r → peers_inv evs stale S [] r'.
Proof.
  intros (Ep & Eq & En & Es) Hconf [Ht Hseq [L1 L2 L3 L4 L5 L6 L7 L8 L9] Hh _].
  assert (Hlg : ∀ g, live_gen r' g ↔ live_gen r g) by (intros g; unfold live_gen; by rewrite Ep).
  constructor; rewrite ?Ep, ?Eq; [done|done| | |by intros ? ?%elem_of_nil].
  - constructor; rewrite ?Ep, ?Eq, ?En; try done.
    + intros c s Hs. specialize (Es c). rewrite Hs in Es. cbn in Es. symmetry in Es. apply fmap_Some in Es as (s0 & Hs0 & [= -> _]). by apply L1.
    + intros i n offer Hn Ho Hex. destruct Hconf as [->|?]; [by eapply L5|by right].
    + intros i n g Hn Hr. rewrite Hlg. by eapply L7.
  - intros i n offer. rewrite En. intros Hn Ho. destruct (Hh i n offer Hn Ho) as [?|[?|[?|He]]]; [by auto..|]. right. right. right.
    destruct He as (pr & s & Hpr & Eg & Hp & Hs & Ei). specialize (Es (owner n)). rewrite Hs in Es.
    apply fmap_Some in Es as (s' & Hs' & [= E _]). exists pr, s'. rewrite Ep. split_and!; [|done..|congruence].
    destruct Hpr as [Hpr|?]; [by apply elem_of_nil in Hpr|by right].
Qed.

Lemma notifier_inv evs stale (S S' : nat → Prop) r m' :
  (∀ i n', m' !! i = Some n' → ∃ n, notifiers r !! i = Some n ∧ owner n' = owner n ∧ accepted n' = accepted n ∧
     (cancelled n = true → cancelled n' = true) ∧ (fifo n → fifo n')) →
  (∀ i n, notifiers r !! i = Some n → is_Some (m' !! i)) →
  (∀ i, S i → S' i ∨ ∀ n', m' !! i = Some n' → cancelled n' = true) →
  peers_inv evs stale S [] r → peers_inv evs stale S' [] (r <| notifiers := m' |>).
Proof.
  intros Hback Hfwd HS [Ht Hseq [L1 L2 L3 L4 L5 L6 L7 L8 L9] Hh _].
  constructor; [done|done| | |by intros ? ?%elem_of_nil].
  - constructor; cbn [upd sessions peerPairs peerSequence configuration notifiers]; [|exact L2|exact L3|..].
    + intros c s Hs. destruct (L1 _ _ Hs) as (Hv & n & Hn & Ho). split; [done|]. destruct (Hfwd _ _ Hn) as [n' Hn'].
      destruct (Hback _ _ Hn') as (n0 & ? & E & _). exists n'. split; [done|]. congruence.
    + intros i n' x Hn' Hx. destruct (Hback _ _ Hn') as (n & Hn & _ & Ea & _). rewrite Ea in Hx. by eapply L4.
    + intros i n' offer Hn' Ho Hex. destruct (Hback _ _ Hn') as (n & Hn & -> & Ea & _). rewrite Ea in Ho. by eapply L5.
    + intros i n' path Hn' Ha. destruct (Hback _ _ Hn') as (n & Hn & -> & Ea & _). rewrite Ea in Ha. by eapply L6.
    + intros i n' g Hn' Hr. destruct (Hback _ _ Hn') as (n & Hn & _ & Ea & _). rewrite Ea in Hr. by eapply (L7 i n g).
    + intros i n' Hn'. destruct (Hback _ _ Hn') as (n & Hn & _ & -> & _). by eapply L8.
    + intros i n' Hn'. destruct (Hback _ _ Hn') as (n & Hn & _ & _ & _ & Hf). by eapply Hf, L9.
  - intros i n' offer Hn' Ho. cbn [upd notifiers] in Hn'. destruct (Hback _ _ Hn') as (n & Hn & Ew & Ea & Hc & _). rewrite Ea in Ho.
    rewrite Ea. destruct (Hh i n offer Hn Ho) as [?|[?|[Hs|He]]]; [by auto..| |].
    + destruct (HS _ Hs) as [?|Hcn]; [by auto|]. left. by apply Hcn.
    + right. right. right. unfold excused in *. by rewrite Ew.
Qed.

Lemma cancel_inv evs stale S i r :
  peers_inv evs stale (λ j, S j ∨ j = i) [] r → peers_inv evs stale S [] (on_notifier i cancel r).
Proof.
  apply notifier_inv.
  - intros j n'. rewrite lookup_alter. case_decide as E; [subst j|intros Hn; by exists n'].
    intros (n & Hn & ->)%fmap_Some. by exists n.
  - intros j n Hn. rewrite lookup_alter. case_decide; [subst j; by rewrite Hn|by rewrite Hn].
  - intros j [?| ->]; [by left|]. right. intros n'. rewrite lookup_alter_eq. by intros (n & _ & ->)%fmap_Some.
Qed.

Lemma sender_inv evs stale S i n n' ok' r :
  notifiers r !! i = Some n → sender_step ok' n = Some n' →
  peers_inv evs stale S [] r → peers_inv evs stale S [] (r <| notifiers := <[i := n']> (notifiers r) |>).
Proof.
  intros Hn E. apply notifier_inv; [| |auto].
  - intros j m [[<- <-]|[_ Hm]]%lookup_insert_Some; [|by exists m]. exists n. split; [done|].
    unfold sender_step in E. destruct (sender n) eqn:Es.
    + destruct (ok' && cancelled n) eqn:Hoc; [injection E as <-; split_and!; try done|].
      * unfold fifo. rewrite Es. intros ->. cbn. apply prefix_app_r. done.
      * destruct (noticeQueue n) as [|x rest] eqn:Eq; [done|]. injection E as <-. split_and!; try done.
        unfold fifo. cbn [upd sender accepted written noticeQueue]. rewrite Es, Eq. intros Ha.
        destruct (cancelled n); [rewrite Ha; by apply prefix_app_r|]. by rewrite Ha.
    + injection E as <-. destruct ok'; split_and!; try done; unfold fifo; cbn [cancel upd sender accepted written noticeQueue]; rewrite Es; intros ->.
      * by rewrite <- app_assoc.
      * by apply prefix_app_r.
    + done.
  - intros j m Hm. destruct (decide (i = j)) as [<-|]; [rewrite lookup_insert_eq; eauto|rewrite lookup_insert_ne; eauto].
Qed.

Lemma cancel_all_inv evs stale S r : peers_inv evs stale S [] r → peers_inv evs stale S [] (r <| notifiers := cancel <$> notifiers r |>).
Proof.
  apply notifier_inv; [| |auto].
  - intros j n'. rewrite lookup_fmap. intros (n & Hn & ->)%fmap_Some. by exists n.
  - intros j n Hn. rewrite lookup_fmap, Hn. eauto.
Qed.

Lemma server_detach_inv evs stale S c s r :
  sessions r !! c = Some s → peers_inv evs stale S [] r →
  peers_inv evs stale (λ j, S j ∨ j = peerNotifier s) [] (r <| sessions := delete c (sessions r) |>).
Proof.
  intros Hs [Ht Hseq [L1 L2 L3 L4 L5 L6 L7 L8 L9] Hh _]. constructor; [done|done| | |by intros ? ?%elem_of_nil].
  - constructor; cbn [upd sessions peerPairs peerSequence configuration notifiers]; try done.
    intros c0 s0 [_ Hs0]%lookup_delete_Some. by apply L1.
  - intros i n offer Hn Ho. destruct (Hh i n offer Hn Ho) as [?|[?|[?|He]]]; [by auto..|].
    destruct He as (pr & s0 & Hpr & Eg & Hp & Hs0 & Ei). destruct (decide (owner n = c)) as [<-|Hne].
    + simplify_eq. right. right. left. by right.
    + right. right. right. exists pr, s0. split_and!; try done. cbn [upd sessions]. by rewrite lookup_delete_ne.
Qed.

Lemma attach_inv evs stale S c sid g auth neg n r :
  ValidateClientID c = true → notifiers r !! n = None → peers_inv evs stale S [] r →
  peers_inv evs stale S [] (attach c sid g auth neg n r).
Proof.
  intros Hv Hfresh Hi. unfold attach. cbv zeta.
  set (r0 := match sessions r !! c with Some previous => on_notifier (peerNotifier previous) cancel r | None => r end).
  assert (Hi0 : peers_inv evs stale S [] r0).
  { unfold r0. destruct (sessions r !! c); [|done]. apply cancel_inv. eapply peers_inv_mono; [..|exact Hi]; auto. }
  assert (Hold : ∀ s, sessions r0 !! c = Some s → ∀ m, notifiers r0 !! peerNotifier s = Some m → cancelled m = true).
  { unfold r0. destruct (sessions r !! c) as [s0|] eqn:E; [|congruence]. cbn [on_notifier upd sessions notifiers]. intros s Hs m.
    rewrite E in Hs. injection Hs as <-. rewrite lookup_alter_eq. by intros (m0 & _ & ->)%fmap_Some. }
  assert (Hf0 : notifiers r0 !! n = None).
  { unfold r0. destruct (sessions r !! c); [|done]. cbn [on_notifier upd notifiers]. rewrite lookup_alter. by case_decide; subst; rewrite ?Hfresh. }
  clearbody r0. destruct Hi0 as [Ht Hseq [L1 L2 L3 L4 L5 L6 L7 L8 L9] Hh _].
  set (s' := {| sessionID := sid |}).
  assert (Hne : ∀ c0 s0, sessions r0 !! c0 = Some s0 → n ≠ peerNotifier s0).
  { intros c0 s0 Hs0 ->. destruct (L1 _ _ Hs0) as (_ & n0 & ? & _). congruence. }
  constructor; [done|done| | |by intros ? ?%elem_of_nil].
  - constructor; cbn [set_session upd sessions peerPairs peerSequence configuration notifiers]; [|exact L2|exact L3|..].
    + intros c0 s0 [[<- <-]|[_ Hs0]]%lookup_insert_Some.
      * split; [done|]. eexists. by rewrite lookup_insert_eq.
      * destruct (L1 _ _ Hs0) as (? & n0 & ? & ?). split; [done|]. exists n0. rewrite lookup_insert_ne; [done|by eapply Hne].
    + intros i m x [[<- <-]|[_ Hm]]%lookup_insert_Some; [by intros Hx; apply elem_of_nil in Hx|by eapply L4].
    + intros i m x [[<- <-]|[_ Hm]]%lookup_insert_Some; [by intros Hx; apply elem_of_nil in Hx|by eapply L5].
    + intros i m x [[<- <-]|[_ Hm]]%lookup_insert_Some; [by intros Hx; apply elem_of_nil in Hx|by eapply L6].
    + intros i m x [[<- <-]|[_ Hm]]%lookup_insert_Some; [by intros (? & Hx & _); apply elem_of_nil in Hx|by eapply L7].
    + intros i m [[<- <-]|[_ Hm]]%lookup_insert_Some; [intros [|? l1] ? ? ?; discriminate|by eapply L8].
    + intros i m [[<- <-]|[_ Hm]]%lookup_insert_Some; [done|by eapply L9].
  - intros i m offer. cbn [set_session upd notifiers].
    intros [[<- <-]|[_ Hm]]%lookup_insert_Some Ho; [by apply elem_of_nil in Ho|].
    destruct (Hh i m offer Hm Ho) as [?|[?|[?|He]]]; [by auto..|]. destruct He as (pr & s0 & Hpr & Eg & Hp & Hs0 & Ei).
    destruct (decide (owner m = c)) as [<-|Hnc]; [left; subst i; by eapply Hold|].
    right. right. right. exists pr, s0. split_and!; try done. cbn [set_session upd sessions]. by rewrite lookup_insert_ne.
Qed.

(** *** What the operations on pairs leave alone *)

Record peer_frame (r r' : serverVNetRuntime) : Prop := {
  pf_sessions : sessions r' = sessions r;
  pf_configuration : configuration r' = configuration r;
  pf_router : router r' = router r;
  pf_notifiers i : is_Some (notifiers r' !! i) → is_Some (notifiers r !! i)
}.

#[global] Instance peer_frame_refl : Reflexive peer_frame.
Proof. by constructor. Qed.
#[global] Instance peer_frame_trans : Transitive peer_frame.
Proof. intros r1 r2 r3 [A1 A2 A3 A4] [B1 B2 B3 B4]. constructor; [congruence..|auto]. Qed.

Lemma enqueue_peer_frame c x now r : peer_frame r (enqueue_to c x now r).1.
Proof.
  unfold enqueue_to. destruct (sessions r !! c) as [s|]; [|done]. cbn [mbind option_bind].
  destruct (notifiers r !! peerNotifier s) as [n|] eqn:Hn; [|done]. cbn [mbind option_bind]. destruct (enqueue x now n) as [n' ok'].
  constructor; [done..|]. intros i. cbn [fst upd notifiers]. intros [m [[<- _]|[_ Hm]]%lookup_insert_Some]; [by rewrite Hn|by rewrite Hm].
Qed.

Lemma notify_peer_frame pr reason now r : peer_frame r (notifyPeerRevocationLocked pr reason now r).
Proof. unfold notifyPeerRevocationLocked. cbv zeta. etrans; apply enqueue_peer_frame. Qed.

Lemma pairs_peer_frame m r : peer_frame r (r <| peerPairs := m |>).
Proof. by constructor. Qed.

Lemma fail_peer_frame key pr reason now r : peer_frame r (failPeerPairLocked key pr reason now r).
Proof. unfold failPeerPairLocked. cbv zeta. etrans; [apply pairs_peer_frame|apply notify_peer_frame]. Qed.

Lemma foldl_peer_frame {A} (f : serverVNetRuntime → A → serverVNetRuntime) l r :
  (∀ r x, peer_frame r (f r x)) → peer_frame r (foldl f r l).
Proof. intros Hf. revert r. induction l as [|x l IH]; intros r; [done|]. cbn [foldl]. etrans; [apply Hf|apply IH]. Qed.

Lemma revoke_peer_frame ρp c reason now r : peer_frame r (revokePeers ρp c reason now r).
Proof. unfold revokePeers. cbv zeta. etrans; [apply pairs_peer_frame|]. apply foldl_peer_frame. intros. apply notify_peer_frame. Qed.

Lemma expire_peer_frame ρp now r : peer_frame r (expirePeerPairs ρp now r).
Proof.
  apply foldl_peer_frame. intros r0 [k pr]. unfold expire_pair.
  destruct (negb (IsZero _)); [destruct (negb (Before _ _))|destruct (_ && _)]; try done. apply fail_peer_frame.
Qed.

Lemma offer_peer_frame source target ticket pool now r : peer_frame r (offerPeer source target ticket pool now r).1.
Proof.
  unfold offerPeer. destruct (peerPairKey source target) as [[k x] y]. destruct (match _ with Some _ => _ | None => _ end); [done|].
  destruct (sessions r !! source) as [s|]; [|done]. destruct (sessions r !! target) as [s'|]; [|done]. destruct ticket; [|done].
  destruct (bool_decide (peerFingerprint s = _) || _ || _ || _); [done|]. cbv zeta.
  set (r1 := r <| peerSequence := _ |> <| peerPairs := _ |>). assert (H1 : peer_frame r r1) by done. clearbody r1.
  match goal with |- context [enqueue_to source ?x now r1] => pose proof (enqueue_peer_frame source x now r1) as H2; destruct (enqueue_to source x now r1) as [r2 b1] end.
  match goal with |- context [enqueue_to target ?x now r2] => pose proof (enqueue_peer_frame target x now r2) as H3; destruct (enqueue_to target x now r2) as [r3 b2] end.
  cbn [fst] in *. etrans; [exact H1|]. etrans; [exact H2|exact H3].
Qed.

Lemma status_peer_frame c sid status now r : peer_frame r (peerStatus c sid status now r).1.
Proof.
  unfold peerStatus. cbv zeta. destruct (current_session c sid r); [|done]. destruct (peerPairs r !! _) as [pr|]; [|done].
  destruct (negb _); [done|]. destruct (StatusState status) as [[]|]; try done. destruct (negb _); [done|].
  destruct (_ && _ && negb (active pr)); [apply fail_peer_frame|].
  set (r1 := r <| peerPairs := _ |>). assert (H1 : peer_frame r r1) by done. clearbody r1.
  destruct (_ && _); [|done].
  match goal with |- context [enqueue_to ?c ?x now r1] => pose proof (enqueue_peer_frame c x now r1) as H2; destruct (enqueue_to c x now r1) as [r2 b1] end.
  match goal with |- context [enqueue_to ?c ?x now r2] => pose proof (enqueue_peer_frame c x now r2) as H3; destruct (enqueue_to c x now r2) as [r3 b2] end.
  cbn [fst] in *. etrans; [exact H1|]. etrans; [exact H2|exact H3].
Qed.

(** A reload ends with no pair left. *)
Lemma revoke_all_pairs ρp reason now r : peerPairs (revokePeers ρp "" reason now r) = ∅.
Proof.
  unfold revokePeers. cbv zeta.
  assert (E : ∀ l r0, peerPairs (foldl (λ r (kp : string * serverVNetPeerPair), notifyPeerRevocationLocked kp.2 reason now r) r0 l) = peerPairs r0).
  { induction l as [|x l IH]; intros r0; [done|]. cbn [foldl]. rewrite IH. by destruct (notify_frame x.2 reason now r0) as [m ->]. }
  rewrite E. cbn [upd peerPairs]. apply map_empty. intros k. apply map_lookup_filter_None. right. intros pr _.
  unfold revoked_by. by rewrite bool_decide_eq_true_2.
Qed.

Lemma no_pairs_inv evs stale stale' S r : peerPairs r = ∅ → peers_inv evs stale S [] r → peers_inv evs stale' S [] r.
Proof.
  intros E [Ht Hseq [L1 L2 L3 L4 L5 L6 L7 L8 L9] Hh Htd]. constructor; [done|done| |done|done]. constructor; try done.
  intros i n offer Hn Ho (k & pr & Hk & _). by rewrite E in Hk.
Qed.
