(* ===== verification/ServerWorlds.v ===== *)
(** * The server's virtual network runtime: reachable states

    Every step of [ServerRuntime] keeps the invariant of [ServerPeers], with
    the sessions that are being detached and the reloads under way read off the
    calls in progress. *)

From S2P Require Import Prelude GoTime NetAddr GoIO PortPolicy ConfigVNet Packet FlowControl Router Authentication PeerWire PeerEndpoint PoolBroker ServerVNet ServerRuntime ServerPeers.

Local Open Scope Z_scope.

(** The sessions a call is about. *)
Definition pc_sids (pc : Pc) : list string :=
  match pc with
  | Locking _ sid _ | Awaiting _ _ sid _ | Holding _ _ sid _ | AssignRead _ _ sid | AssignNumber _ _ sid _
  | AssignCommit _ _ sid _ _ | Writing _ _ sid _ _ | ActivateClaim _ _ sid _ | ActivatePrepare _ _ sid _ _ _
  | ActivateReset _ _ sid _ | FailedPool _ _ sid _ | RemovePool _ _ sid | ReadersCheck _ _ sid _
  | UpdateNotify _ _ sid _ _ | UpdateSection _ _ sid _ | UpdateRemove _ _ sid _ => [sid]
  | ReloadRemove _ _ _ todo all => (todo ++ all).*2
  | ReloadPeers _ _ _ all => all.*2
  | _ => []
  end.
Definition sids_ok (U : gset string) (pc : Pc) : Prop := ∀ sid, sid ∈ pc_sids pc → sid ∈ U.

Definition stopping (w : World) (i : nat) : Prop := ∃ t c sid, threads w !! t = Some (DetachStop c sid i).
Definition reload_pc (pc : Pc) : bool := match pc with ReloadRemove _ _ _ _ _ | ReloadPeers _ _ _ _ => true | _ => false end.
Definition reloading (w : World) : Prop := ∃ t pc, threads w !! t = Some pc ∧ reload_pc pc = true.

Definition fresh_threads (w : World) : Prop := ∀ t, is_Some (threads w !! t) → (t < next w)%nat.

(** What a step does to the calls in progress; [t] is the call that moves. *)
Record kept (t : option nat) (U : gset string) (w w' : World) : Prop := {
  kt_old t' pc : Some t' ≠ t → threads w !! t' = Some pc → threads w' !! t' = Some pc;
  kt_new t' pc : threads w' !! t' = Some pc → threads w !! t' = Some pc ∨ sids_ok U pc;
  kt_next : (next w ≤ next w')%nat;
  kt_fresh : fresh_threads w'
}.

Lemma kept_refl t U w : fresh_threads w → kept t U w w.
Proof. intros Hf. by constructor; auto. Qed.

(** Changes of the other parts of the world. *)
Lemma server_kept_same t U w w1 w2 : threads w2 = threads w1 → (next w1 ≤ next w2)%nat → kept t U w w1 → kept t U w w2.
Proof.
  intros Et En [K1 K2 K3 K4]. constructor; rewrite ?Et; [done|done|lia|]. intros t'. rewrite Et. intros Ht. specialize (K4 t' Ht). lia.
Qed.

Lemma kept_spawn t U w w1 pc : sids_ok U pc → kept t U w w1 → kept t U w (spawn pc w1).
Proof.
  intros Hs [K1 K2 K3 K4]. constructor; cbn [spawn upd threads next]; [| |lia|].
  - intros t' pc' Hne Hp. rewrite lookup_insert_ne; [by apply K1|]. intros <-. pose proof (K1 _ _ Hne Hp) as Ht.
    specialize (K4 (next w1)). rewrite Ht in K4. specialize (K4 ltac:(eauto)). lia.
  - intros t' pc' [[<- <-]|[_ Ht]]%lookup_insert_Some; [by right|by apply K2].
  - intros t'; cbn [spawn upd threads next]. intros [pc' [[<- <-]|[_ Ht]]%lookup_insert_Some]; [lia|]. specialize (K4 t' ltac:(eauto)). lia.
Qed.

Lemma kept_spawn_all t U w w1 pcs : Forall (sids_ok U) pcs → kept t U w w1 → kept t U w (spawn_all pcs w1).
Proof.
  intros Hs. revert w1. induction Hs as [|pc pcs Hpc Hs IH]; intros w1 Hk; [done|]. cbn [spawn_all foldl].
  by apply IH, kept_spawn.
Qed.

Lemma kept_goto t U w w1 pc : is_Some (threads w !! t) → fresh_threads w → sids_ok U pc → kept (Some t) U w w1 → kept (Some t) U w (goto t pc w1).
Proof.
  intros Ht Hf Hs [K1 K2 K3 K4]. constructor; cbn [goto upd threads next]; [| |done|].
  - intros t' pc' Hne Hp. rewrite lookup_insert_ne by congruence. by apply K1.
  - intros t' pc' [[<- <-]|[_ Hp]]%lookup_insert_Some; [by right|by apply K2].
  - intros t'; cbn [goto upd threads next]. intros [pc' [[<- <-]|[_ Hp]]%lookup_insert_Some]; [specialize (Hf t Ht); lia|]. apply K4. eauto.
Qed.

Lemma kept_exit t U w w1 : kept (Some t) U w w1 → kept (Some t) U w (exit t w1).
Proof.
  intros [K1 K2 K3 K4]. constructor; cbn [exit upd threads next]; [| |done|].
  - intros t' pc' Hne Hp. rewrite lookup_delete_ne by congruence. by apply K1.
  - intros t' pc' [_ Hp]%lookup_delete_Some. by apply K2.
  - intros t'; cbn [exit upd threads next]. intros [pc' [_ Hp]%lookup_delete_Some]. apply K4. eauto.
Qed.

Lemma kept_leave t U l w w1 : kept (Some t) U w w1 → kept (Some t) U w (leave t l w1).
Proof. intros Hk. apply kept_exit. destruct l; [|done]. by eapply server_kept_same; [..|exact Hk]. Qed.

(** ** Critical sections that leave the peers alone *)

Lemma current_session_Some c sid r s : current_session c sid r = Some s → sessions r !! c = Some s ∧ sessionID s = sid.
Proof. unfold current_session. destruct (sessions r !! c) as [s0|]; [|done]. case_bool_decide; [|done]. by intros [= <-]. Qed.

#[global] Instance same_peers_refl : Reflexive same_peers.
Proof. intros r. by split_and!. Qed.

Lemma set_session_same c s s' r : sessions r !! c = Some s → session_key s' = session_key s → same_peers r (set_session c s' r).
Proof.
  intros Hs E. split_and!; try done. intros c0. cbn [set_session upd sessions]. destruct (decide (c = c0)) as [<-|]; [|by rewrite lookup_insert_ne].
  rewrite lookup_insert_eq, Hs. cbn. by rewrite E.
Qed.

Lemma lock_same c sid m r r' l : lockSession c sid m r = (r', l) → same_peers r r' ∧ configuration r' = configuration r.
Proof.
  unfold lockSession. destruct (current_session c sid r) as [s|] eqn:Hs; [|by intros [= <- _]].
  apply current_session_Some in Hs as [Hs _]. destruct (lifecycleMutex s); intros [= <- _]; [done|].
  split; [by eapply set_session_same|done].
Qed.

(** A session identifier that is not empty names a session of the map. *)
Lemma default_session c sid r :
  sid ≠ "" → sessionID (default zero_session (sessions r !! c)) = sid → sessions r !! c = Some (default zero_session (sessions r !! c)).
Proof. intros Hne. destruct (sessions r !! c); [done|]. cbn. congruence. Qed.

Lemma commit_same c sid plan pool secret r r' s : sid ≠ "" →
  assign_commit c sid plan pool secret r = Some (r', s) → same_peers r r' ∧ configuration r' = configuration r.
Proof.
  intros Hne. unfold assign_commit. cbv zeta. case_bool_decide as Hs; [|done]. cbn [negb]. intros [= <- _].
  split; [|done]. eapply set_session_same; [by eapply default_session|done].
Qed.

Lemma claim_same c sid status r r' x : activate_claim c sid status r = (r', x) → same_peers r r' ∧ configuration r' = configuration r.
Proof.
  unfold activate_claim. destruct (current_session c sid r) as [s|] eqn:Hs; [|by intros [= <- _]].
  apply current_session_Some in Hs as [Hs _]. destruct (_ || _); intros [= <- _]; [done|]. split; [by eapply set_session_same|done].
Qed.

Lemma reset_same c sid g r : same_peers r (resetOffered c sid g r) ∧ configuration (resetOffered c sid g r) = configuration r.
Proof.
  unfold resetOffered. destruct (current_session c sid r) as [s|] eqn:Hs; [|done]. apply current_session_Some in Hs as [Hs _].
  destruct (_ =? _); [|done]. split; [by eapply set_session_same|done].
Qed.

Lemma failed_same c sid status r r' : failed_pool c sid status r = Some r' → same_peers r r' ∧ configuration r' = configuration r.
Proof.
  unfold failed_pool. destruct (current_session c sid r) as [s|] eqn:Hs; [|done]. apply current_session_Some in Hs as [Hs _].
  destruct (status_matches _ _); intros [= <-]. split; [by eapply set_session_same|done].
Qed.

Lemma update_same c sid r : sid ≠ "" → same_peers r (update_section c sid r) ∧ configuration (update_section c sid r) = configuration r.
Proof.
  intros Hne. unfold update_section. cbv zeta. case_bool_decide as Hs; [|done]. split; [|done].
  eapply set_session_same; [by eapply default_session|done].
Qed.

(** ** The invariant of the world *)

Record world_ok (w : World) : Prop := {
  wk_peers : peers_inv (events w) (reloading w) (stopping w) [] (rt w);
  wk_notifiers i : is_Some (notifiers (rt w) !! i) → (i < next w)%nat;
  wk_threads : fresh_threads w;
  wk_sids t pc : threads w !! t = Some pc → sids_ok (used w) pc;
  wk_sessions c s : sessions (rt w) !! c = Some s → sessionID s ∈ used w;
  wk_used : "" ∉ used w
}.

(** A call that is neither stopping a notifier nor reloading. *)
Definition plain (pc : Pc) : bool := match pc with DetachStop _ _ _ => false | _ => negb (reload_pc pc) end.

Definition plain_at (t : option nat) (w : World) : Prop := ∀ t0 pc, t = Some t0 → threads w !! t0 = Some pc → plain pc = true.

Lemma kept_stopping t U w w' i : kept t U w w' → plain_at t w → stopping w i → stopping w' i.
Proof.
  intros Hk Hp (t' & c & sid & Ht'). exists t', c, sid. eapply kt_old; [exact Hk| |exact Ht'].
  intros <-. by specialize (Hp t' _ eq_refl Ht').
Qed.
Lemma kept_reloading t U w w' : kept t U w w' → plain_at t w → reloading w → reloading w'.
Proof.
  intros Hk Hp (t' & pc & Ht' & Hr). exists t', pc. split; [|done]. eapply kt_old; [exact Hk| |exact Ht'].
  intros <-. specialize (Hp t' _ eq_refl Ht'). destruct pc; done.
Qed.

Lemma world_step t w w' (stale : Prop) (S : nat → Prop) :
  world_ok w → kept t (used w') w w' → used w ⊆ used w' → "" ∉ used w' →
  (∀ c s, sessions (rt w') !! c = Some s → sessionID s ∈ used w') →
  (∀ i, is_Some (notifiers (rt w') !! i) → (i < next w')%nat) →
  peers_inv (events w') stale S [] (rt w') → (stale → reloading w') → (∀ i, S i → stopping w' i) → world_ok w'.
Proof.
  intros [W1 W2 W3 W4 W5 W6] Hk Hu Hne Hs Hn Hp Hst HS. constructor; [|done|by apply Hk| |done|done].
  - eapply peers_inv_mono; [..|exact Hp]; auto.
  - intros t' pc Ht. destruct (kt_new _ _ _ _ Hk _ _ Ht) as [Ho|?]; [|done]. intros sid Hsid. by apply Hu, (W4 _ _ Ho).
Qed.

(** Steps that leave the peers alone. *)
Lemma same_world t w w' evs :
  world_ok w → kept t (used w) w w' → plain_at t w → used w' = used w → events w' = events w ++ evs →
  same_peers (rt w) (rt w') → configuration (rt w') = configuration (rt w) → world_ok w'.
Proof.
  intros Hw Hk Hp Eu Ee Hsame Hc. pose proof Hsame as (_ & _ & En & Es).
  apply (world_step t w w' (reloading w) (stopping w)); rewrite ?Eu; try done; try apply Hw.
  - intros c s Hs. specialize (Es c). rewrite Hs in Es. symmetry in Es. apply fmap_Some in Es as (s0 & Hs0 & [= _ ->]).
    by eapply (wk_sessions _ Hw).
  - intros i. rewrite En. intros Hi. pose proof (wk_notifiers _ Hw _ Hi). pose proof (kt_next _ _ _ _ Hk). lia.
  - rewrite Ee. eapply same_inv; [exact Hsame|by left|]. eapply peers_inv_mono; [..|apply Hw]; try done.
    intros e He. apply elem_of_app. by left.
  - by eapply kept_reloading.
  - intros i. by eapply kept_stopping.
Qed.

(** Steps that only change pairs and notices. *)
Lemma frame_world t w w' evs :
  world_ok w → kept t (used w) w w' → plain_at t w → used w' = used w → events w' = events w ++ evs →
  peer_frame (rt w) (rt w') →
  (peers_inv (events w') (reloading w) (stopping w) [] (rt w) → peers_inv (events w') (reloading w) (stopping w) [] (rt w')) → world_ok w'.
Proof.
  intros Hw Hk Hp Eu Ee [Fs Fc _ Fn] Hinv. apply (world_step t w w' (reloading w) (stopping w)); rewrite ?Eu, ?Fs; try done; try apply Hw.
  - intros i Hi. pose proof (wk_notifiers _ Hw _ (Fn _ Hi)). pose proof (kt_next _ _ _ _ Hk). lia.
  - apply Hinv. rewrite Ee. eapply peers_inv_mono; [..|apply Hw]; try done. intros e He. apply elem_of_app. by left.
  - by eapply kept_reloading.
  - intros i. by eapply kept_stopping.
Qed.

Section worlds.
Context `{NetipText} `{SignalCodec}.
Context (hmac : list byte → list byte → list byte) (sha256 : list byte → list byte).
Context (EncodeToString : list byte → string) (DecodeString : string → option (list byte)).
Context (ParseAddrPort : string → option (Addr * Z)) (AddrPortString : Addr * Z → string).
Context (o : Orders) (ρf : go_range Key flowState) (ρs : go_range string serverVNetSession).
Context (ρp : go_range string serverVNetPeerPair) (ρb : go_range string nat).

Abbreviation call_pools := (call_pools sha256 EncodeToString DecodeString ρb).
Abbreviation thread_step := (thread_step hmac sha256 EncodeToString DecodeString ParseAddrPort AddrPortString o ρf ρp ρb).
Abbreviation step := (step hmac sha256 EncodeToString DecodeString ParseAddrPort AddrPortString o ρf ρs ρp ρb).
Abbreviation reachable := (reachable hmac sha256 EncodeToString DecodeString ParseAddrPort AddrPortString o ρf ρs ρp ρb).

(** Calls of the broker change nothing else. *)
Lemma call_pools_frame a w :
  rt (call_pools a w) = rt w ∧ threads (call_pools a w) = threads w ∧ next (call_pools a w) = next w ∧
  used (call_pools a w) = used w ∧ events (call_pools a w) = events w ∧ held (call_pools a w) = held w.
Proof using. unfold ServerRuntime.call_pools. by destruct (PoolBroker.step _ _ _ _ _ _). Qed.

Lemma kept_pools t U w w1 a : kept t U w w1 → kept t U w (call_pools a w1).
Proof using. destruct (call_pools_frame a w1) as (_ & Et & En & _). apply server_kept_same; [done|by rewrite En]. Qed.

Lemma register_same data signal address r :
  same_peers r (register_commit hmac ParseAddrPort AddrPortString data signal address r) ∧
  configuration (register_commit hmac ParseAddrPort AddrPortString data signal address r) = configuration r.
Proof using.
  unfold register_commit, registered. destruct (current_session _ _ r) as [s|] eqn:Hs; [|done]. cbn [mbind option_bind].
  apply current_session_Some in Hs as [Hs _]. destruct (is_some _); [done|]. split; [by eapply set_session_same|done].
Qed.

Lemma flow_same c sid request now r r' x :
  openPeerFlow sha256 o c sid request now r = (r', x) → same_peers r r' ∧ configuration r' = configuration r.
Proof using.
  unfold openPeerFlow. intros E. destruct (current_session c sid r); [|by simplify_eq]. destruct (peerPairs r !! _); [|by simplify_eq].
  destruct (_ || _); [by simplify_eq|]. destruct (ParseAddr _); [|by simplify_eq]. destruct (ParseAddr _); [|by simplify_eq].
  destruct (VNetNode _ _); [|by simplify_eq]. destruct (negb _); [by simplify_eq|].
  destruct (AuthorizePeerFlow _ _ _ _ _ _) as [rt' res]. destruct res as [d|]; [destruct (Router.Kind d); [|destruct (bool_decide _)]|]; by simplify_eq.
Qed.

Lemma pools_rt a w : rt (call_pools a w) = rt w.
Proof using. apply call_pools_frame. Qed.
Lemma pools_events a w : events (call_pools a w) = events w.
Proof using. apply call_pools_frame. Qed.
Lemma pools_used a w : used (call_pools a w) = used w.
Proof using. apply call_pools_frame. Qed.

Lemma leave_frame t l w : rt (leave t l w) = rt w ∧ events (leave t l w) = events w ∧ used (leave t l w) = used w.
Proof using. by destruct l. Qed.
Lemma spawn_all_rt pcs w :
  rt (spawn_all pcs w) = rt w ∧ events (spawn_all pcs w) = events w ∧ used (spawn_all pcs w) = used w ∧ (next w ≤ next (spawn_all pcs w))%nat.
Proof using.
  revert w. induction pcs as [|pc pcs IH]; intros w; [done|]. change (spawn_all (pc :: pcs) w) with (spawn_all pcs (spawn pc w)).
  destruct (IH (spawn pc w)) as (-> & -> & -> & Hn). split_and!; try done. cbn [spawn upd next] in Hn. lia.
Qed.

(** The shape of a call's next state. *)
Ltac shape :=
  repeat match goal with
  | |- kept _ _ _ (goto _ _ _) => apply kept_goto; [eauto|done|try done|]
  | |- kept _ _ _ (leave _ _ _) => apply kept_leave
  | |- kept _ _ _ (exit _ _) => apply kept_exit
  | |- kept _ _ _ (spawn_all _ _) => apply kept_spawn_all; [try done|]
  | |- kept _ _ _ (spawn _ _) => apply kept_spawn; [try done|]
  | |- kept _ _ _ (ServerRuntime.call_pools _ _ _ _ _ _) => apply kept_pools
  | |- kept _ _ ?w ?w => by apply kept_refl
  | |- kept _ _ _ (set_rt _ ?w1) => apply (server_kept_same _ _ _ w1); [reflexivity|done|]
  | |- kept _ _ _ (emit _ ?w1) => apply (server_kept_same _ _ _ w1); [reflexivity|done|]
  | |- kept _ _ _ (upd _ _ ?w1) => apply (server_kept_same _ _ _ w1); [reflexivity|cbn [set_rt upd next]; lia|]
  | |- kept _ _ ?w _ => apply (server_kept_same _ _ _ w); [reflexivity|cbn [next]; lia|]
  end.
Ltac parts :=
  rewrite ?(proj1 (leave_frame _ _ _)), ?(proj1 (proj2 (leave_frame _ _ _))), ?(proj2 (proj2 (leave_frame _ _ _)));
  cbn [goto exit spawn set_rt emit upd rt events used];
  rewrite ?pools_rt, ?pools_events, ?pools_used; cbn [goto exit spawn set_rt emit upd rt events used].
(** A call that leaves the peers alone. *)
Ltac quiet_call t w evs :=
  apply (same_world (Some t) w _ evs); [assumption|shape|assumption|parts; rewrite ?app_nil_r; try done..].

Lemma holding_ok t l c sid task w :
  threads w !! t = Some (Holding l c sid task) → world_ok w →
  world_ok (holding_step sha256 EncodeToString DecodeString ρb t l c sid task w).
Proof using.
  intros Ht Hw. pose proof (wk_threads _ Hw) as Hf. pose proof (wk_sids _ Hw _ _ Ht) as Hsid.
  assert (Hp : plain_at (Some t) w) by (intros t0 pc [= <-]; rewrite Ht; by intros [= <-]).
  unfold holding_step. destruct task.
  - quiet_call t w (@nil Event).
  - destruct (activate_read _ _ _ _); quiet_call t w (@nil Event).
  - quiet_call t w (@nil Event).
  - destruct (vnetAssignmentChanged _ _ _); quiet_call t w (@nil Event).
Qed.

Lemma server_prepare_ok t l c sid status s conf i w :
  threads w !! t = Some (ActivatePrepare l c sid status s conf) → world_ok w →
  world_ok (prepare_pool sha256 EncodeToString DecodeString ρb t l c sid status s conf i w).
Proof using.
  intros Ht Hw. pose proof (wk_threads _ Hw) as Hf. pose proof (wk_sids _ Hw _ _ Ht) as Hsid.
  assert (Hp : plain_at (Some t) w) by (intros t0 pc [= <-]; rewrite Ht; by intros [= <-]).
  unfold prepare_pool. destruct (VNetNode conf c); [|quiet_call t w (@nil Event)]. destruct (Enabled conf); [|quiet_call t w (@nil Event)].
  cbv zeta. destruct (Prepare _ _ _ _ _ _ _ _).2 as [[offers prev]|]; quiet_call t w (@nil Event).
Qed.

Lemma used_sid w sid : world_ok w → sid ∈ used w → sid ≠ "".
Proof using. intros Hw Hs ->. by apply (wk_used _ Hw). Qed.

(** The calls of a session. *)
Lemma session_call_ok t pc i w w' :
  threads w !! t = Some pc → thread_step t pc i w = Some w' → world_ok w → length (pc_sids pc) = 1%nat → reload_pc pc = false → world_ok w'.
Proof using.
  intros Ht E Hw Hone Hnr. pose proof (wk_threads _ Hw) as Hf. pose proof (wk_sids _ Hw _ _ Ht) as Hsid.
  destruct pc; try discriminate Hone; try discriminate Hnr; cbn [ServerRuntime.thread_step] in E.
  all: assert (Hp : plain_at (Some t) w) by (intros t0 pc0 [= <-]; rewrite Ht; by intros [= <-]).
  all: assert (Hne : sid ≠ "") by (eapply used_sid; [done|apply Hsid; by apply list_elem_of_singleton]).
  - destruct (lockSession c sid (next w) (rt w)) as [r l] eqn:El. injection E as <-. destruct (lock_same _ _ _ _ _ _ El) as [Hs Hc].
    quiet_call t w (@nil Event). by destruct l.
  - case_bool_decide; [done|]. injection E as <-. quiet_call t w (@nil Event).
  - injection E as <-. by apply holding_ok.
  - injection E as <-. destruct (assign_read c sid (rt w)); quiet_call t w (@nil Event).
  - injection E as <-. quiet_call t w (@nil Event).
  - injection E as <-. destruct (secret i); [|quiet_call t w (@nil Event)].
    destruct (assign_commit c sid plan pool _ (rt w)) as [[r s]|] eqn:Ec; [|quiet_call t w (@nil Event)].
    destruct (commit_same _ _ _ _ _ _ _ _ Hne Ec) as [Hs Hc]. quiet_call t w (@nil Event).
  - destruct messages as [|m messages]; injection E as <-; [quiet_call t w (@nil Event)|].
    destruct (ok i); [quiet_call t w [EvWrote c sid m]|]. destruct undo; quiet_call t w (@nil Event).
  - destruct (activate_claim c sid status (rt w)) as [r claimed] eqn:Ec. injection E as <-.
    destruct (claim_same _ _ _ _ _ _ Ec) as [Hs Hc]. destruct claimed as [[s conf]|]; quiet_call t w (@nil Event).
  - injection E as <-. by apply server_prepare_ok.
  - injection E as <-. destruct (reset_same c sid pool (rt w)) as [Hs Hc]. quiet_call t w (@nil Event).
  - injection E as <-. destruct (failed_pool c sid status (rt w)) as [r|] eqn:Ef; [|quiet_call t w (@nil Event)].
    destruct (failed_same _ _ _ _ _ Ef) as [Hs Hc]. quiet_call t w (@nil Event).
  - injection E as <-. quiet_call t w (@nil Event).
  - injection E as <-. destruct (_ && _); quiet_call t w (@nil Event).
  - destruct message as [m|]; injection E as <-; [|quiet_call t w (@nil Event)]. destruct (ok i); [quiet_call t w [EvWrote c sid m]|quiet_call t w (@nil Event)].
  - injection E as <-. destruct (update_same c sid (rt w) Hne) as [Hs Hc]. quiet_call t w (@nil Event).
  - injection E as <-. destruct exists_; quiet_call t w (@nil Event).
Qed.

Lemma thread_at_plain t pc w : threads w !! t = Some pc → plain pc = true → plain_at (Some t) w.
Proof using. intros Ht Hp t0 pc0 [= <-]. rewrite Ht. by intros [= <-]. Qed.

Lemma nil_sids U pc : pc_sids pc = [] → sids_ok U pc.
Proof using. intros E sid. rewrite E. by intros ?%elem_of_nil. Qed.

Lemma continue_shape t U w w1 nxt : is_Some (threads w !! t) → fresh_threads w → kept (Some t) U w w1 → kept (Some t) U w (continue t nxt w1).
Proof using. intros Ht Hf Hk. destruct nxt as [[dest packet]|]; cbn [continue]; [apply kept_goto; try done; by apply nil_sids|by apply kept_exit]. Qed.

Lemma fail_pair_frame a b g reason now r : peer_frame r (failPeerPair a b g reason now r).
Proof using. unfold failPeerPair. destruct (peerPairs r !! _); [|done]. destruct (_ || _); [done|apply fail_peer_frame]. Qed.

(** The only call that stops a notifier gives up its claim by cancelling it. *)
Lemma stop_ok t c sid n w :
  threads w !! t = Some (DetachStop c sid n) → world_ok w →
  world_ok (goto t (DetachWait c sid n) (set_rt (on_notifier n cancel (rt w)) w)).
Proof using.
  intros Ht Hw. pose proof (wk_threads _ Hw) as Hf. set (w' := goto _ _ _).
  assert (Hk : kept (Some t) (used w) w w') by (unfold w'; shape; by apply nil_sids).
  apply (world_step (Some t) w w' (reloading w) (λ i, stopping w' i)); try done; try apply Hw.
  - intros i. cbn [w' goto set_rt on_notifier upd rt notifiers next]. rewrite lookup_alter. intros Hi. apply (wk_notifiers _ Hw).
    case_decide; [subst; by destruct (notifiers (rt w) !! i); destruct Hi|done].
  - apply cancel_inv. eapply peers_inv_mono; [..|apply Hw]; try done. intros i (t' & c' & sid' & Ht').
    destruct (decide (t' = t)) as [->|Hne]; [right; congruence|]. left. exists t', c', sid'. eapply kt_old; [exact Hk|congruence|done].
  - intros (t' & pc & Ht' & Hr). exists t', pc. split; [|done]. eapply kt_old; [exact Hk| |done]. intros [= ->].
    rewrite Ht in Ht'. by injection Ht' as <-.
Qed.

(** A reload between its sections. *)
Lemma reload_moves t pc pc' w w1 :
  threads w !! t = Some pc → reload_pc pc = true → reload_pc pc' = true → sids_ok (used w) pc' → world_ok w →
  threads w1 = threads w → next w1 = next w → used w1 = used w → events w1 = events w →
  same_peers (rt w) (rt w1) → configuration (rt w1) = configuration (rt w) → world_ok (goto t pc' w1).
Proof using.
  intros Ht Hr Hr' Hs' Hw Et Enx Eu Ee Hsame Hc. pose proof (wk_threads _ Hw) as Hf. set (w' := goto _ _ _).
  assert (Hk : kept (Some t) (used w) w w').
  { unfold w'. apply kept_goto; [eauto|done|done|]. apply (server_kept_same _ _ _ w); [done|by rewrite Enx|by apply kept_refl]. }
  pose proof Hsame as (_ & _ & En & Es).
  apply (world_step (Some t) w w' (reloading w) (stopping w)); cbn [w' goto upd used events rt]; rewrite ?Eu, ?Ee; try done; try apply Hw.
  - intros c s Hs. specialize (Es c). rewrite Hs in Es. symmetry in Es. apply fmap_Some in Es as (s0 & Hs0 & [= _ ->]).
    by eapply (wk_sessions _ Hw).
  - intros i. change (next w') with (next w1). rewrite En, Enx. apply (wk_notifiers _ Hw).
  - eapply same_inv; [exact Hsame|by left|apply Hw].
  - intros _. exists t, pc'. split; [apply lookup_insert_eq|done].
  - intros i (t' & c & sid & Ht'). exists t', c, sid. eapply kt_old; [exact Hk| |done]. intros [= ->].
    rewrite Ht in Ht'. by injection Ht' as ->.
Qed.

Lemma reload_done_ok t previous conf g all i w :
  threads w !! t = Some (ReloadPeers previous conf g all) → world_ok w → world_ok (reload_done ρp t previous conf g all i w).
Proof using.
  intros Ht Hw. pose proof (wk_threads _ Hw) as Hf. pose proof (wk_sids _ Hw _ _ Ht) as Hsid. unfold reload_done.
  set (r := revokePeers ρp "" _ _ _). set (w1 := spawn_all _ _).
  destruct (spawn_all_rt (reload_updates previous conf g all) (set_rt r w)) as (Er & Ee & Eu & En). fold w1 in Er, Ee, Eu, En.
  assert (Hk : kept (Some t) (used w) w (exit t w1)).
  { unfold w1. shape. apply Forall_fmap, Forall_forall. intros cs Hcs sid Hs. apply Hsid. cbn in Hs.
    apply list_elem_of_singleton in Hs as ->. apply list_elem_of_fmap. by exists cs. }
  pose proof (revoke_peer_frame ρp "" "configuration_changed" (now i) (rt w)) as [Fs Fc _ Fn].
  apply (world_step (Some t) w (exit t w1) False (stopping w)); cbn [exit upd used rt events]; rewrite ?Eu, ?Er, ?Ee; try done; try apply Hw.
  - intros c s. cbn [set_rt upd rt]. unfold r. rewrite Fs. apply (wk_sessions _ Hw).
  - intros j Hj. cbn [set_rt upd rt] in Hj. apply Fn in Hj. apply (wk_notifiers _ Hw) in Hj. cbn [exit upd next]. cbn [set_rt upd next] in En. lia.
  - cbn [set_rt upd rt events]. eapply no_pairs_inv; [apply revoke_all_pairs|]. apply revoke_peers_inv. apply Hw.
  - intros j (t' & c & sid & Ht'). exists t', c, sid. eapply kt_old; [exact Hk| |done]. intros [= ->]. congruence.
Qed.

Lemma thread_ok t pc i w w' :
  threads w !! t = Some pc → 0 <= now i → thread_step t pc i w = Some w' → world_ok w → world_ok w'.
Proof using.
  intros Ht Hnow E Hw. pose proof (wk_threads _ Hw) as Hf. pose proof (wk_sids _ Hw _ _ Ht) as Hsid.
  destruct pc; try (by eapply session_call_ok); cbn [ServerRuntime.thread_step] in E.
  - injection E as <-. by apply stop_ok.
  - destruct (sender <$> notifiers (rt w) !! n) as [[]|]; try done. injection E as <-.
    pose proof (thread_at_plain _ _ _ Ht eq_refl) as Hp. quiet_call t w (@nil Event).
  - injection E as <-. pose proof (thread_at_plain _ _ _ Ht eq_refl) as Hp.
    apply (frame_world (Some t) w _ []); [done|shape; by apply nil_sids|done|done|by rewrite app_nil_r|apply revoke_peer_frame|apply revoke_peers_inv].
  - injection E as <-. pose proof (thread_at_plain _ _ _ Ht eq_refl) as Hp. quiet_call t w (@nil Event).
  - destruct todo as [|[c sid] todo]; injection E as <-.
    + eapply reload_moves; [exact Ht|done|done|exact Hsid|done..].
    + assert (Hs' : sids_ok (used w) (ReloadRemove previous conf g todo all)) by (intros s Hs; apply Hsid; cbn; by apply elem_of_cons; right).
      destruct (vnetAssignmentChanged previous conf c); [|eapply reload_moves; [exact Ht|done..]].
      destruct (call_pools_frame (DoRemove c sid 0) w) as (Er & Et & En & Eu & Ee & _).
      eapply reload_moves; [exact Ht|done..| |]; by rewrite Er.
  - injection E as <-. by apply reload_done_ok.
  - injection E as <-. pose proof (thread_at_plain _ _ _ Ht eq_refl) as Hp.
    apply (frame_world (Some t) w _ []); [done|apply continue_shape; [eauto|done|shape]|done|..].
    all: destruct next as [[dest packet]|]; cbn [continue goto exit set_rt upd used events rt]; rewrite ?app_nil_r; try done.
    all: first [apply fail_pair_frame | by apply fail_pair_inv].
  - injection E as <-. pose proof (thread_at_plain _ _ _ Ht eq_refl) as Hp. unfold offer_next.
    pose proof (offer_peer_frame source target (EncodeToString <$> secret i) (has_pool w) (now i) (rt w)) as Hfr.
    pose proof (offer_inv (events w) (reloading w) (stopping w) source target (EncodeToString <$> secret i) (has_pool w) (now i) (rt w)) as Hin.
    destruct (offerPeer source target (EncodeToString <$> secret i) (has_pool w) (now i) (rt w)) as [r res]. cbn [fst] in *.
    destruct res as [[g []]|]; (apply (frame_world (Some t) w _ []); [done|first [apply continue_shape; [eauto|done|shape]|shape]|done|..]);
      try (destruct next as [[dest packet]|]); cbn [continue goto exit set_rt upd used events rt]; rewrite ?app_nil_r; done.
  - injection E as <-. pose proof (thread_at_plain _ _ _ Ht eq_refl) as Hp. unfold route_step.
    destruct (RouteClientPacket _ _ _ _ _ _) as [rtr [dest|]]; [destruct (Router.Kind dest); [|destruct (bool_decide _)]|]; quiet_call t w (@nil Event).
  - injection E as <-. pose proof (thread_at_plain _ _ _ Ht eq_refl) as Hp. unfold dispatch_step.
    destruct (negb _); [quiet_call t w (@nil Event)|]. destruct (Router.Kind dest).
    + destruct (_ && _); [quiet_call t w [EvToDevice packet]|quiet_call t w (@nil Event)].
    + destruct (Active _ _) as [p|]; [|quiet_call t w (@nil Event)].
      destruct (call_pools_frame (DoEnqueue p packet (Z.to_nat (DestChannelIndex dest)) (next w) (now i)) w) as (Er & Et & En & Eu & Ee & _).
      apply (same_world (Some t) w _ []); cbn [exit upd rt used events]; rewrite ?Er, ?Eu, ?Ee, ?app_nil_r; try done.
      apply kept_exit. apply (server_kept_same _ _ _ w); [exact Et|cbn [upd next]; lia|by apply kept_refl].
  - injection E as <-. pose proof (thread_at_plain _ _ _ Ht eq_refl) as Hp. destruct (register_same data signal address (rt w)) as [Hs Hc].
    quiet_call t w (@nil Event).
Qed.

Lemma plain_none w : plain_at None w.
Proof using. by intros t pc [=]. Qed.

Lemma server_attach_ok c sid g auth neg w w' :
  step (DoAttach c sid g auth neg) w = Some w' → world_ok w → world_ok w'.
Proof using.
  cbn [ServerRuntime.step]. intros E Hw. destruct (_ || _) eqn:Hg; [done|]. injection E as <-. bool_to_prop.
  pose proof (wk_threads _ Hw) as Hf.
  match goal with |- world_ok ?x => set (w' := x) end.
  assert (Hk : kept None (used w') w w') by (apply (server_kept_same _ _ _ w); [done|cbn; lia|by apply kept_refl]).
  assert (Hfresh : notifiers (rt w) !! next w = None).
  { destruct (notifiers (rt w) !! next w) eqn:En; [|done]. pose proof (wk_notifiers _ Hw (next w) ltac:(eauto)). lia. }
  apply (world_step None w w' (reloading w) (stopping w)); try done; cbn [w' set_rt upd rt events used].
  - set_solver.
  - pose proof (wk_used _ Hw). set_solver.
  - intros c0 s0. unfold attach. cbn [set_session upd sessions].
    intros [[<- <-]|[_ Hs0]]%lookup_insert_Some; [cbn; set_solver|]. apply elem_of_union_r.
    eapply (wk_sessions _ Hw). by destruct (sessions (rt w) !! c).
  - intros i. unfold attach. cbn [set_session upd notifiers w' set_rt next]. intros [n [[<- _]|[_ Hn]]%lookup_insert_Some]; [lia|].
    assert (is_Some (notifiers (rt w) !! i)) as Hi%(wk_notifiers _ Hw); [|lia].
    destruct (sessions (rt w) !! c); [|by eauto]. cbn [on_notifier upd notifiers] in Hn. rewrite lookup_alter in Hn.
    case_decide as Ei; [rewrite <- Ei|by eauto]. apply fmap_Some in Hn as (m & Hm & _). eauto.
  - apply attach_inv; [done|done|apply Hw].
Qed.

Lemma server_detach_ok c sid w w' : step (DoDetach c sid) w = Some w' → world_ok w → world_ok w'.
Proof using.
  cbn [ServerRuntime.step]. unfold detach_section. intros E Hw. destruct (current_session c sid (rt w)) as [s|] eqn:Hs; [|injection E as <-; by destruct w].
  injection E as <-. apply current_session_Some in Hs as [Hs _]. pose proof (wk_threads _ Hw) as Hf.
  set (w' := spawn _ _).
  assert (Hk : kept None (used w) w w') by (unfold w'; shape; by apply nil_sids).
  apply (world_step None w w' (reloading w) (λ j, stopping w j ∨ j = peerNotifier s)); try done; try apply Hw.
  - intros c0 s0. cbn [w' spawn set_rt upd rt sessions used]. intros [_ Hs0]%lookup_delete_Some. by eapply (wk_sessions _ Hw).
  - intros i Hi. apply (wk_notifiers _ Hw) in Hi. cbn [w' spawn set_rt upd next]. lia.
  - cbn [w' spawn set_rt upd rt events]. apply (same_inv _ _ _ ((rt w) <| sessions := delete c (sessions (rt w)) |>)); [done|by left|].
    apply server_detach_inv; [done|apply Hw].
  - by apply (kept_reloading _ _ _ _ Hk), plain_none.
  - intros j [Hj| ->]; [by apply (kept_stopping _ _ _ _ _ Hk (plain_none w) Hj)|]. exists (next w), c, sid. cbn. apply lookup_insert_eq.
Qed.

Lemma server_apply_ok conf g w w' : step (DoApply conf g) w = Some w' → world_ok w → world_ok w'.
Proof using.
  cbn [ServerRuntime.step]. intros E Hw. destruct (apply_section ρf ρs conf g (rt w)) as [r all] eqn:Ea. injection E as <-.
  pose proof (wk_threads _ Hw) as Hf. set (w' := spawn _ _). unfold apply_section in Ea. injection Ea as Er Eall.
  assert (Hkey : ∀ c, session_key <$> sessions r !! c = session_key <$> sessions (rt w) !! c).
  { intros c. rewrite <- Er. cbn [upd sessions]. rewrite map_lookup_imap. destruct (sessions (rt w) !! c); [|done].
    cbn [mbind option_bind]. by destruct (vnetAssignmentChanged _ _ _). }
  assert (Hall : sids_ok (used w) (ReloadRemove (configuration (rt w)) conf g all all)).
  { intros sid. cbn [pc_sids]. rewrite fmap_app, elem_of_app. intros Hin. assert (Hin' : sid ∈ all.*2) by naive_solver.
    rewrite <- Eall in Hin'. rewrite <- list_fmap_compose in Hin'. apply list_elem_of_fmap in Hin' as ([c s] & -> & Hin').
    apply range_elem in Hin'. by eapply (wk_sessions _ Hw). }
  assert (Hk : kept None (used w) w w') by (unfold w'; shape).
  assert (Hsame : same_peers (rt w) r) by (split_and!; [by rewrite <- Er..|exact Hkey]).
  apply (world_step None w w' True (stopping w)); try done; try apply Hw.
  - intros c s Hs. change (rt w') with r in Hs. specialize (Hkey c). rewrite Hs in Hkey. symmetry in Hkey.
    apply fmap_Some in Hkey as (s0 & Hs0 & [= _ ->]). by eapply (wk_sessions _ Hw).
  - intros i Hi. change (rt w') with r in Hi. rewrite <- Er in Hi. apply (wk_notifiers _ Hw) in Hi. cbn [w' spawn set_rt upd next]. lia.
  - change (rt w') with r. change (events w') with (events w). eapply same_inv; [exact Hsame|by right|].
    eapply peers_inv_mono; [..|apply Hw]; done.
  - intros _. exists (next w), (ReloadRemove (configuration (rt w)) conf g all all). split; [apply lookup_insert_eq|done].
  - intros i. apply (kept_stopping _ _ _ _ _ Hk (plain_none w)).
Qed.

Lemma status_ok c sid status now w w' :
  step (DoPeerStatus c sid status now) w = Some w' → 0 <= now → world_ok w → world_ok w'.
Proof using.
  cbn [ServerRuntime.step]. intros E Hnow Hw. pose proof (wk_threads _ Hw) as Hf.
  set (ready := match current_session c sid (rt w) with Some _ => _ | None => _ end) in E.
  pose proof (status_peer_frame c sid status now (rt w)) as Hfr.
  assert (Hin : peers_inv (events w ++ ready) (reloading w) (stopping w) [] (rt w) →
                peers_inv (events w ++ ready) (reloading w) (stopping w) [] (peerStatus c sid status now (rt w)).1).
  { apply status_inv; [done|]. intros [s Hs] Hst. apply elem_of_app. right. unfold ready. rewrite Hs, Hst. by apply list_elem_of_singleton. }
  destruct (peerStatus c sid status now (rt w)) as [r res]. cbn [fst] in *. injection E as <-.
  destruct res; apply (frame_world None w _ ready); try done; try apply plain_none; shape; by apply nil_sids.
Qed.

Lemma quiet_ok w w' :
  world_ok w → kept None (used w) w w' → used w' = used w → events w' = events w →
  same_peers (rt w) (rt w') → configuration (rt w') = configuration (rt w) → world_ok w'.
Proof using. intros Hw Hk Eu Ee Hs Hc. apply (same_world None w w' []); rewrite ?app_nil_r; try done. Qed.

Lemma device_ok conf stack w w' : step (DoDevice conf stack) w = Some w' → world_ok w → world_ok w'.
Proof using.
  cbn [ServerRuntime.step]. unfold publish_device. intros E Hw. pose proof (wk_threads _ Hw) as Hf. destruct (_ || _); [done|].
  cbn [mbind option_bind] in E. injection E as <-.
  match goal with |- world_ok (spawn_all ?pcs ?w1) => destruct (spawn_all_rt pcs w1) as (Er & Ee & Eu & _) end.
  apply (quiet_ok w); rewrite ?Er, ?Ee, ?Eu; try done. apply kept_spawn_all; [|shape].
  apply Forall_fmap, Forall_forall. intros [c sid] Hin s. cbn [compose pc_sids fst snd]. intros ->%list_elem_of_singleton.
  apply list_elem_of_fmap in Hin as ([c0 s0] & [= -> ->] & Hin). apply range_elem in Hin. by eapply (wk_sessions _ Hw).
Qed.

Lemma guard_ok p j now w w' : step (DoGuard p j now) w = Some w' → world_ok w → world_ok w'.
Proof using.
  cbn [ServerRuntime.step]. unfold guard_step. intros E Hw. pose proof (wk_threads _ Hw) as Hf.
  destruct (guarded p j w) as [[dest pool]|]; [|done]. cbn [mbind option_bind] in E.
  destruct (bool_decide _).
  - destruct (PoolBroker.step _ _ _ _ _ _); [|done]. cbn [mbind option_bind] in E. injection E as <-. apply (quiet_ok w); try done. shape.
  - destruct (guard_session _ _ _); [injection E as <-; apply (quiet_ok w); try done; shape|].
    destruct (PoolBroker.step _ _ _ _ _ _); [|done]. cbn [mbind option_bind] in E. injection E as <-. apply (quiet_ok w); try done. shape.
Qed.

Lemma server_step_ok a w w' : timed a → step a w = Some w' → world_ok w → world_ok w'.
Proof using.
  intros Ht E Hw. pose proof (wk_threads _ Hw) as Hf. destruct a as [c sid g auth neg|c sid task|c sid|c sid status tm|c sid request tm|c sid pool packet|packet tm|data address|conf g|tm|n b|a|p j tm|conf stack| | |t i];
    cbn [timed] in Ht.
  - by eapply server_attach_ok.
  - cbn [ServerRuntime.step] in E. destruct (_ && _) eqn:Hg; [|done]. injection E as <-. bool_to_prop. apply (quiet_ok w); try done. shape.
    intros s Hs. apply list_elem_of_singleton in Hs as ->. done.
  - by eapply server_detach_ok.
  - by eapply status_ok.
  - cbn [ServerRuntime.step] in E. destruct (openPeerFlow sha256 o c sid request tm (rt w)) as [r res] eqn:Eo. injection E as <-.
    destruct (flow_same _ _ _ _ _ _ _ Eo) as [Hs Hc]. destruct res; apply (quiet_ok w); try done; shape; by apply nil_sids.
  - cbn [ServerRuntime.step] in E. destruct (poolIsCurrent _ _ _ _); [|done]. injection E as <-. apply (quiet_ok w); try done. shape; by apply nil_sids.
  - cbn [ServerRuntime.step] in E. destruct (RouteServerPacket sha256 o packet tm (router (rt w))) as [rtr res]. injection E as <-.
    destruct res; apply (quiet_ok w); try done; shape; by apply nil_sids.
  - cbn [ServerRuntime.step] in E. destruct (negb _); [done|]. injection E as <-. destruct (registration data); [|by destruct w].
    destruct (is_some _); [|by destruct w]. apply (quiet_ok w); try done. shape; by apply nil_sids.
  - by eapply server_apply_ok.
  - cbn [ServerRuntime.step] in E. injection E as <-. apply (frame_world None w _ []); [done|shape|apply plain_none|done|by rewrite app_nil_r|apply expire_peer_frame|].
    intros Hi. apply expire_inv; [done|apply range_NoDup| |done]. intros k pr Hin. by apply range_elem in Hin.
  - cbn [ServerRuntime.step] in E. destruct (notifiers (rt w) !! n) as [nt|] eqn:Hn; [|done]. cbn [mbind option_bind] in E.
    destruct (sender_step b nt) as [nt'|] eqn:Es; [|done]. cbn [mbind option_bind] in E. injection E as <-.
    apply (frame_world None w _ []); [done|shape|apply plain_none|done|by rewrite app_nil_r| |by eapply sender_inv].
    constructor; [done..|]. intros i. cbn [set_rt upd rt notifiers]. intros [m [[<- _]|[_ Hm]]%lookup_insert_Some]; eauto.
  - cbn [ServerRuntime.step] in E. destruct (own_step a); [|done]. destruct (PoolBroker.step _ _ _ _ _ _); [|done].
    cbn [mbind option_bind] in E. injection E as <-. apply (quiet_ok w); try done. shape.
  - by eapply guard_ok.
  - by eapply device_ok.
  - cbn [ServerRuntime.step] in E. injection E as <-. unfold lose_device. destruct (device (rt w)); apply (quiet_ok w); try done; shape.
  - cbn [ServerRuntime.step] in E. injection E as <-.
    match goal with |- world_ok (ServerRuntime.call_pools _ _ _ _ ?a ?w1) => destruct (call_pools_frame a w1) as (Er & Et & En & Eu & Ee & _); set (w2 := w1) in * end.
    apply (frame_world None w _ []); rewrite ?Er, ?Eu, ?Ee, ?app_nil_r; [done| |apply plain_none|done|done| |].
    + apply kept_pools. unfold w2. shape.
    + constructor; [done..|]. intros i. cbn [w2 set_rt upd rt notifiers]. rewrite lookup_fmap. by intros [m (n & -> & _)%fmap_Some].
    + intros Hi. apply (same_inv _ _ _ ((rt w) <| notifiers := cancel <$> notifiers (rt w) |>)); [done|by left|]. by apply cancel_all_inv.
  - cbn [ServerRuntime.step] in E. destruct (threads w !! t) as [pc|] eqn:Hpc; [|done]. by eapply thread_ok.
Qed.

Lemma server_start_ok conf installed listening r : newServerVNetRuntime conf installed listening = Some r → world_ok (start r).
Proof using.
  unfold newServerVNetRuntime. destruct (NewRouter _ _) as [rtr|]; [|done]. cbn [mbind option_bind]. intros [= <-].
  constructor; cbn [start rt next used threads events notifiers sessions]; try done; try (by intros ? [? Hx]; discriminate Hx).
  constructor; cbn [peerPairs peerSequence]; try done; try (by constructor). all: by intros ? ?%elem_of_nil.
Qed.

Lemma server_reachable_ok w : reachable w → world_ok w.
Proof using. induction 1; [by eapply server_start_ok|by eapply server_step_ok]. Qed.
End worlds.
