(* ===== verification/ServerPolicy.v ===== *)
(** * The router's policy and the configuration of the server's runtime

    Whatever the runtime does, its router keeps its own invariant and serves
    the policy of the runtime's current configuration, whenever a policy can be
    built from it. *)

From S2P Require Import Prelude GoTime NetAddr GoIO PortPolicy ConfigVNet Packet FlowControl Router Authentication PeerWire PeerEndpoint PoolBroker ServerVNet ServerRuntime ServerPeers ServerWorlds.

Local Open Scope Z_scope.

(** The runtime's router is left alone. *)
Definition keeps_router (r r' : serverVNetRuntime) : Prop := router r' = router r ∧ configuration r' = configuration r.

#[global] Instance keeps_router_refl : Reflexive keeps_router.
Proof. by split. Qed.

Lemma peer_frame_router r r' : peer_frame r r' → keeps_router r r'.
Proof. intros [_ Hc Hr _]. by split. Qed.

Section policy.
Context `{NetipText} `{SignalCodec}.
Context (hmac : list byte → list byte → list byte) (sha256 : list byte → list byte).
Context (EncodeToString : list byte → string) (DecodeString : string → option (list byte)).
Context (ParseAddrPort : string → option (Addr * Z)) (AddrPortString : Addr * Z → string).
Context (o : Orders) (ρf : go_range Key flowState) (ρs : go_range string serverVNetSession).
Context (ρp : go_range string serverVNetPeerPair) (ρb : go_range string nat).
Abbreviation thread_step := (thread_step hmac sha256 EncodeToString DecodeString ParseAddrPort AddrPortString o ρf ρp ρb).
Abbreviation step := (step hmac sha256 EncodeToString DecodeString ParseAddrPort AddrPortString o ρf ρs ρp ρb).
Abbreviation reachable := (reachable hmac sha256 EncodeToString DecodeString ParseAddrPort AddrPortString o ρf ρs ρp ρb).

(** [ApplyPolicy] is called with every new configuration and its error is
    ignored: a configuration without a policy leaves the old one in force. *)
Record policy_current (r : serverVNetRuntime) : Prop := {
  pc_router : router_ok (router r);
  pc_policy p : buildRoutingPolicy (configuration r) = Some p → policy (router r) = p
}.

Lemma keeps_current r r' : keeps_router r r' → policy_current r → policy_current r'.
Proof using. intros [Er Ec] [Ho Hp]. constructor; rewrite Er; [done|]. by rewrite Ec. Qed.

(** The router routes, or forgets a client. *)
Lemma routed_current r rtr now accepts owns res : routed (router r) rtr now accepts owns res → policy_current r →
  policy_current (r <| router := rtr |>).
Proof using. intros (Ho & Hs & _) [_ Hp]. constructor; [done|]. cbn [upd router configuration]. intros p Hb. rewrite (ss_policy _ _ Hs). by apply Hp. Qed.

Lemma removed_current c r : policy_current r → policy_current (r <| router := RemoveClient ρf c (router r) |>).
Proof using.
  intros [Ho Hp]. destruct (RemoveClient_spec ρf c (router r) Ho) as (Ho' & Ep & _). constructor; [done|]. cbn. intros p Hb. rewrite Ep. by apply Hp.
Qed.

Lemma remove_nodes_ok previous conf rtr : router_ok rtr → router_ok (remove_nodes ρf previous conf rtr).
Proof using.
  unfold remove_nodes. generalize (Nodes previous) as nodes. intros nodes. revert rtr.
  induction nodes as [|node nodes IH]; intros rtr Hr; [done|]. cbn [foldl]. apply IH. case_match; [|done]. by apply RemoveClient_spec.
Qed.

(** The new policy is in force as soon as the configuration is published. *)
Lemma apply_current conf g r : policy_current r → policy_current (apply_section ρf ρs conf g r).1.
Proof using.
  intros [Ho _]. unfold apply_section. cbn [fst]. pose proof (remove_nodes_ok (configuration r) conf _ Ho) as Hr.
  destruct (ApplyPolicy ρf conf (remove_nodes ρf (configuration r) conf (router r))) as [rtr|] eqn:E; cbn [default].
  - destruct (ApplyPolicy_spec _ _ _ _ E Hr) as (Ho' & _ & _ & Eb & _). constructor; [done|]. cbn. intros p Hb. congruence.
  - constructor; [done|]. cbn. intros p Hb. unfold ApplyPolicy in E. by rewrite Hb in E.
Qed.

Lemma call_pools_rt a w : rt (call_pools sha256 EncodeToString DecodeString ρb a w) = rt w.
Proof using. unfold call_pools. by destruct (PoolBroker.step _ _ _ _ _ _). Qed.

Lemma spawned_rt pcs : ∀ w, rt (spawn_all pcs w) = rt w.
Proof using. induction pcs as [|pc pcs IH]; intros w; [done|]. cbn. unfold spawn_all in IH. by rewrite IH. Qed.

Lemma leave_rt t l w : rt (leave t l w) = rt w.
Proof using. by destruct l. Qed.

(** Sections of the sessions. *)
Lemma lock_router c sid m r : keeps_router r (lockSession c sid m r).1.
Proof using. unfold lockSession. destruct (current_session c sid r); [|done]. by case_match. Qed.
Lemma commit_router c sid plan pool bytes r r' s : assign_commit c sid plan pool bytes r = Some (r', s) → keeps_router r r'.
Proof using. unfold assign_commit. cbv zeta. destruct (negb _); [done|]. intros E%(inj Some). apply (f_equal fst) in E. cbn in E. by subst r'. Qed.
Lemma claim_router c sid status r : keeps_router r (activate_claim c sid status r).1.
Proof using. unfold activate_claim. destruct (current_session c sid r); [|done]. by case_match. Qed.
Lemma reset_router c sid g r : keeps_router r (resetOffered c sid g r).
Proof using. unfold resetOffered. destruct (current_session c sid r); [|done]. by case_match. Qed.
Lemma failed_router c sid status r r' : failed_pool c sid status r = Some r' → keeps_router r r'.
Proof using. unfold failed_pool. destruct (current_session c sid r); [|done]. destruct (status_matches _ _); [|done]. by intros <-%(inj Some). Qed.
Lemma update_router c sid r : keeps_router r (update_section c sid r).
Proof using. unfold update_section. cbv zeta. by case_match. Qed.
Lemma register_router data signal address r : keeps_router r (register_commit hmac ParseAddrPort AddrPortString data signal address r).
Proof using. unfold register_commit. by case_match. Qed.
Lemma fail_pair_router first second g reason now r : keeps_router r (failPeerPair first second g reason now r).
Proof using.
  unfold failPeerPair. destruct (peerPairs r !! _); [|done]. case_match; [done|]. apply peer_frame_router, fail_peer_frame.
Qed.
Lemma attach_router c sid g auth neg n r : keeps_router r (attach c sid g auth neg n r).
Proof using. unfold attach. by destruct (sessions r !! c). Qed.

(** A call that leaves the router alone. *)
Lemma quiet_current w w' : keeps_router (rt w) (rt w') → policy_current (rt w) → policy_current (rt w').
Proof using. apply keeps_current. Qed.

Ltac quiet := eapply quiet_current; [|eassumption]; cbn [set_rt goto spawn exit emit upd rt]; rewrite ?leave_rt, ?call_pools_rt, ?spawned_rt;
  cbn [set_rt goto spawn exit emit upd rt]; rewrite ?call_pools_rt; cbn [set_rt goto spawn exit emit upd rt]; try done.

Lemma holding_current t l c sid task w : policy_current (rt w) →
  policy_current (rt (holding_step sha256 EncodeToString DecodeString ρb t l c sid task w)).
Proof using. intros Hw. unfold holding_step. destruct task; [quiet| | |]; repeat case_match; quiet. Qed.

Lemma prepare_current t l c sid status s conf i w : policy_current (rt w) →
  policy_current (rt (prepare_pool sha256 EncodeToString DecodeString ρb t l c sid status s conf i w)).
Proof using. intros Hw. unfold prepare_pool. cbv zeta. repeat case_match; quiet. Qed.

Lemma offer_current t source target next i w : policy_current (rt w) → policy_current (rt (offer_next EncodeToString t source target next i w)).
Proof using.
  intros Hw. unfold offer_next. pose proof (offer_peer_frame source target (EncodeToString <$> secret i) (has_pool w) (now i) (rt w)) as Hf%peer_frame_router.
  destruct (offerPeer _ _ _ _ _ _) as [r res]. cbn [fst] in Hf. unfold continue. repeat case_match; by quiet.
Qed.

Lemma route_current t c packet i w : policy_current (rt w) → policy_current (rt (route_step sha256 o t c packet i w)).
Proof using.
  intros Hw. unfold route_step. destruct (RouteClientPacket _ _ _ _ _ _) as [rtr res] eqn:E.
  pose proof (routed_current _ _ _ _ _ _ (RouteClientPacket_spec _ _ _ _ _ _ _ _ E (pc_router _ Hw)) Hw) as Hr. clear E.
  repeat case_match; exact Hr.
Qed.

Lemma dispatch_current t dest packet i w : policy_current (rt w) →
  policy_current (rt (dispatch_step sha256 EncodeToString DecodeString ρb t dest packet i w)).
Proof using. intros Hw. unfold dispatch_step. repeat case_match; quiet. Qed.

Lemma thread_current t pc i w w' : thread_step t pc i w = Some w' → policy_current (rt w) → policy_current (rt w').
Proof using.
  intros E Hw. destruct pc; cbn [ServerRuntime.thread_step] in E.
  - pose proof (lock_router c sid (next w) (rt w)) as Hl. destruct (lockSession c sid (next w) (rt w)) as [r l]. cbn [fst] in Hl.
    apply (inj Some) in E as <-. by quiet.
  - case_match; [done|]. apply (inj Some) in E as <-. quiet.
  - apply (inj Some) in E as <-. by apply holding_current.
  - apply (inj Some) in E as <-. case_match; quiet.
  - apply (inj Some) in E as <-. quiet.
  - apply (inj Some) in E as <-. destruct (secret i); [|quiet]. destruct (assign_commit _ _ _ _ _ _) as [[r s]|] eqn:Ec; [|quiet].
    apply commit_router in Ec. by quiet.
  - destruct messages as [|message messages]; apply (inj Some) in E as <-; [quiet|]. destruct (ok i); [quiet|]. destruct undo; quiet.
  - pose proof (claim_router c sid status (rt w)) as Hl. destruct (activate_claim _ _ _ _) as [r x]. cbn [fst] in Hl.
    apply (inj Some) in E as <-. destruct x as [[??]|]; by quiet.
  - apply (inj Some) in E as <-. by apply prepare_current.
  - apply (inj Some) in E as <-. quiet. apply reset_router.
  - apply (inj Some) in E as <-. destruct (failed_pool _ _ _ _) as [r|] eqn:Ef; [|quiet]. apply failed_router in Ef. by quiet.
  - apply (inj Some) in E as <-. quiet.
  - apply (inj Some) in E as <-. case_match; quiet.
  - destruct message; apply (inj Some) in E as <-; [destruct (ok i)|]; quiet.
  - apply (inj Some) in E as <-. quiet. apply update_router.
  - apply (inj Some) in E as <-. case_match; [quiet|]. rewrite leave_rt. cbn [set_rt upd rt]. rewrite call_pools_rt. by apply removed_current.
  - apply (inj Some) in E as <-. quiet.
  - repeat case_match; try done. apply (inj Some) in E as <-. quiet.
  - apply (inj Some) in E as <-. quiet. apply peer_frame_router, revoke_peer_frame.
  - apply (inj Some) in E as <-. quiet.
  - destruct todo as [|[c sid] todo]; apply (inj Some) in E as <-; [quiet|]. case_match; quiet.
  - apply (inj Some) in E as <-. unfold reload_done. quiet. apply peer_frame_router, revoke_peer_frame.
  - apply (inj Some) in E as <-. unfold continue. repeat case_match; quiet; apply fail_pair_router.
  - apply (inj Some) in E as <-. by apply offer_current.
  - apply (inj Some) in E as <-. by apply route_current.
  - apply (inj Some) in E as <-. by apply dispatch_current.
  - apply (inj Some) in E as <-. quiet. apply register_router.
Qed.

Lemma open_flow_current c sid request now r : policy_current r → policy_current (openPeerFlow sha256 o c sid request now r).1.
Proof using.
  intros Hr. unfold openPeerFlow. destruct (current_session c sid r); [|done]. destruct (peerPairs r !! _); [|done]. case_match; [done|].
  destruct (ParseAddr (FlowSourceIP request)), (ParseAddr (FlowDestinationIP request)), (VNetNode (configuration r) (FlowPeer request)); try done. case_match; [done|].
  destruct (AuthorizePeerFlow _ _ _ _ _ _) as [rtr res] eqn:E.
  pose proof (routed_current _ _ _ _ _ _ (AuthorizePeerFlow_spec _ _ _ _ _ _ _ _ E (pc_router _ Hr)) Hr) as Hc. repeat case_match; exact Hc.
Qed.

Lemma step_current a w w' : step a w = Some w' → policy_current (rt w) → policy_current (rt w').
Proof using.
  intros E Hw. destruct a; cbn [ServerRuntime.step] in E.
  - case_match; [done|]. apply (inj Some) in E as <-. quiet. apply attach_router.
  - case_match; [|done]. apply (inj Some) in E as <-. quiet.
  - unfold detach_section in E. destruct (current_session c sid (rt w)); apply (inj Some) in E as <-; [|quiet].
    apply keeps_current with ((rt w) <| router := RemoveClient ρf c (router (rt w)) |>); [done|]. by apply removed_current.
  - pose proof (status_peer_frame c sid status now (rt w)) as Hf%peer_frame_router. destruct (peerStatus _ _ _ _ _) as [r res]. cbn [fst] in Hf.
    apply (inj Some) in E as <-. destruct res; by quiet.
  - pose proof (open_flow_current c sid request now (rt w) Hw) as Hf. destruct (openPeerFlow _ _ _ _ _ _ _) as [r res]. cbn [fst] in Hf.
    apply (inj Some) in E as <-. by destruct res.
  - case_match; [|done]. apply (inj Some) in E as <-. quiet.
  - destruct (RouteServerPacket _ _ _ _ _) as [rtr res] eqn:Er.
    pose proof (routed_current _ _ _ _ _ _ (RouteServerPacket_spec _ _ _ _ _ _ _ Er (pc_router _ Hw)) Hw) as Hr. clear Er.
    apply (inj Some) in E as <-. by destruct res.
  - case_match; [done|]. apply (inj Some) in E as <-. repeat case_match; quiet.
  - pose proof (apply_current conf g (rt w) Hw) as Ha. destruct (apply_section _ _ _ _ _) as [r all]. by apply (inj Some) in E as <-.
  - apply (inj Some) in E as <-. quiet. apply peer_frame_router, expire_peer_frame.
  - destruct (notifiers (rt w) !! n); [|done]. cbn [mbind option_bind] in E. destruct (sender_step _ _); [|done]. apply (inj Some) in E as <-. quiet.
  - case_match; [|done]. destruct (PoolBroker.step _ _ _ _ _ _); [|done]. apply (inj Some) in E as <-. quiet.
  - unfold guard_step in E. destruct (guarded p j w) as [[dest pool]|]; [|done]. cbn [mbind option_bind] in E.
    destruct (bool_decide _); [|case_match].
    + destruct (PoolBroker.step _ _ _ _ _ _); [|done]. apply (inj Some) in E as <-. quiet.
    + apply (inj Some) in E as <-. quiet.
    + destruct (PoolBroker.step _ _ _ _ _ _); [|done]. apply (inj Some) in E as <-. quiet.
  - unfold publish_device in E. case_match; [done|]. apply (inj Some) in E as <-. quiet.
  - apply (inj Some) in E as <-. unfold lose_device. case_match; quiet.
  - apply (inj Some) in E as <-. quiet.
  - destruct (threads w !! t) as [pc|]; [|done]. by eapply thread_current.
Qed.

Lemma reachable_policy w : reachable w → policy_current (rt w).
Proof using.
  induction 1 as [conf installed listening r Hnew|a w w' Hw IH _ E]; [|by eapply step_current].
  unfold newServerVNetRuntime in Hnew. destruct (NewRouter conf vnetMaximumTrackedFlows) as [rtr|] eqn:En; [|done].
  cbn [mbind option_bind] in Hnew. apply (inj Some) in Hnew as <-. constructor; cbn [start rt router configuration].
  - by apply NewRouter_ok in En as [? _].
  - intros p Hb. unfold NewRouter in En. rewrite Hb in En. cbn in En. apply (inj Some) in En as <-. done.
Qed.
End policy.
