(* ===== verification/ServerSafety.v ===== *)
(** * The server's virtual network runtime: what it promises about direct paths *)

From S2P Require Import Prelude GoTime NetAddr GoIO PortPolicy ConfigVNet Packet FlowControl Router Authentication PeerWire PeerEndpoint PoolBroker ServerVNet ServerRuntime ServerPeers ServerWorlds ServerPolicy.

Local Open Scope Z_scope.

Section safety.
Context `{NetipText} `{SignalCodec}.
Context (hmac : list byte → list byte → list byte) (sha256 : list byte → list byte).
Context (EncodeToString : list byte → string) (DecodeString : string → option (list byte)).
Context (ParseAddrPort : string → option (Addr * Z)) (AddrPortString : Addr * Z → string).
Context (o : Orders) (ρf : go_range Key flowState) (ρs : go_range string serverVNetSession).
Context (ρp : go_range string serverVNetPeerPair) (ρb : go_range string nat).
Abbreviation step := (step hmac sha256 EncodeToString DecodeString ParseAddrPort AddrPortString o ρf ρs ρp ρb).
Abbreviation reachable := (reachable hmac sha256 EncodeToString DecodeString ParseAddrPort AddrPortString o ρf ρs ρp ρb).

(** The table of pairs is bounded: at most 4096 pairs, at most 64 of them
    for one client, each named by its own generation. *)
Theorem peer_pairs_bounded w :
  reachable w →
  Z.of_nat (size (peerPairs (rt w))) <= vnetMaximumPeerPairs ∧
  (∀ c, peer_count c (peerPairs (rt w)) <= vnetMaximumNodePeers) ∧
  (∀ k k' pr pr', peerPairs (rt w) !! k = Some pr → peerPairs (rt w) !! k' = Some pr' →
     pairGeneration pr = pairGeneration pr' → k = k').
Proof using. intros Hw%server_reachable_ok. destruct (pi_table _ _ _ _ _ (wk_peers _ Hw)) as [_ _ ? ? ?]. by split_and!. Qed.

(** C24: No stale authority.  Whenever a path was offered to a client, one of
    these holds: the path is still current for the session it was offered to;
    its revocation was queued for that session; the session's notifier was
    cancelled, so that the control stream closes or is being retired; or the
    session is being detached and its notifier is about to be cancelled.  A
    notice that cannot be queued never goes unnoticed. *)
Theorem offered_paths_accounted w i n offer :
  reachable w → notifiers (rt w) !! i = Some n → NoticeOffer offer ∈ accepted n →
  cancelled n = true ∨
  revoked (accepted n) (PeerGeneration offer) ∨
  (∃ t c sid, threads w !! t = Some (DetachStop c sid i)) ∨
  (∃ k pr s, peerPairs (rt w) !! k = Some pr ∧ retryAfter pr = zero_time ∧ pairGeneration pr = PeerGeneration offer ∧
     has_peer (owner n) pr = true ∧ sessions (rt w) !! owner n = Some s ∧ peerNotifier s = i).
Proof using.
  intros Hw%server_reachable_ok Hn Ho. destruct (pi_held _ _ _ _ _ (wk_peers _ Hw) _ _ _ Hn Ho) as [?|[?|[?|He]]]; [by auto..|].
  right. right. right. destruct He as (pr & s & [[]%elem_of_nil|(k & Hk & Hl)] & ? & ? & ? & ?). by exists k, pr, s.
Qed.

(** Notices are ordered and justified.  What a client receives is a prefix
    of what was queued for it; after the revocation of a path nothing grants
    that path again; and a path is activated only after sessions of both its
    clients reported it ready. *)
Theorem notices_in_order w i n :
  reachable w → notifiers (rt w) !! i = Some n →
  written n `prefix_of` accepted n ∧
  (∀ l1 l2 path reason x, accepted n = l1 ++ NoticeRevoke path reason :: l2 → x ∈ l2 → notice_gen x = PathGeneration path →
     is_revoke x = true) ∧
  (∀ path, NoticeActivate path ∈ accepted n →
     EvReady (owner n) (PathGeneration path) ∈ events w ∧ EvReady (PathClientID path) (PathGeneration path) ∈ events w).
Proof using.
  intros Hw%server_reachable_ok Hn. destruct (pi_logs _ _ _ _ _ (wk_peers _ Hw)) as [_ _ _ _ _ L6 _ L8 L9]. split_and!.
  - specialize (L9 _ _ Hn). unfold fifo in L9. destruct (sender n); [rewrite L9; by apply prefix_app_r..|done].
  - intros l1 l2 path reason x E Hx Eg. by eapply (L8 _ _ Hn).
  - intros path. by apply (L6 i n).
Qed.

Lemma port_ranges_id ranges : peerPortRanges ranges = ranges.
Proof using. unfold peerPortRanges. induction ranges as [|[s e] ranges IH]; [done|]. cbn. by rewrite IH. Qed.

(** What the router serves at the address of a node. *)
Lemma served_ports w node : reachable w → validateVirtualNetworkConfig (configuration (rt w)) = None → node ∈ Nodes (configuration (rt w)) →
  ∃ address, byClientID (policy (router (rt w))) !! NodeClientID node = Some address ∧
    ∀ proto port, serviceAllowed (policy (router (rt w))) address proto port = true ↔
      (proto = ProtocolTCP ∧ port_in_ranges port (PortsTCP (NodePorts node)) = true) ∨
      (proto = ProtocolUDP ∧ port_in_ranges port (PortsUDP (NodePorts node)) = true).
Proof using.
  intros Hw%reachable_policy Hv Hin. destruct (valid_configuration_routed _ 1 Hv) as (rtr & En & _ & Hserve); [lia|].
  assert (Ep : policy (router (rt w)) = policy rtr).
  { unfold NewRouter in En. destruct (buildRoutingPolicy (configuration (rt w))) as [p|] eqn:Eb; [|done]. cbn in En. apply (inj Some) in En as <-.
    by apply (pc_policy _ Hw). }
  destruct (Hserve _ Hin) as (address & _ & Hc & Hs). exists address. by rewrite Ep.
Qed.

(** C25: The direct path enforces the relay's policy.  While no reload is in
    progress and the configuration is one that passes the validation of the
    loader, the offer of a path that is in the table admits exactly the ports
    that the running router, with the policy it has at that moment, allows
    towards the address of the offer's recipient, for TCP and for UDP, and names
    the peer's current address. *)
Theorem direct_ports_match_relay w i n offer k pr node :
  reachable w → ¬ reloading w → validateVirtualNetworkConfig (configuration (rt w)) = None →
  notifiers (rt w) !! i = Some n → NoticeOffer offer ∈ accepted n →
  peerPairs (rt w) !! k = Some pr → pairGeneration pr = PeerGeneration offer →
  VNetNode (configuration (rt w)) (owner n) = Some node →
  (∃ address, byClientID (policy (router (rt w))) !! owner n = Some address ∧
     ∀ proto port, proto = ProtocolTCP ∨ proto = ProtocolUDP →
       peerPortAllowed offer proto port = serviceAllowed (policy (router (rt w))) address proto port) ∧
  PeerVirtualIP offer = NodeIP (default zero_node (VNetNode (configuration (rt w)) (PeerClientID offer))).
Proof using.
  intros Hw Hnr Hv Hn Ho Hk Eg Hnode. pose proof (server_reachable_ok _ _ _ _ _ _ _ _ _ _ _ _ Hw) as Hok.
  destruct (pi_logs _ _ _ _ _ (wk_peers _ Hok)) as [_ _ _ _ L5 _ _ _ _].
  destruct (L5 _ _ _ Hn Ho) as [(E1 & E2 & E3)|?]; [eauto| |done]. split; [|done]. rewrite Hnode in E1, E2. cbn [default] in E1, E2.
  rewrite port_ranges_id in E1, E2. apply find_some in Hnode as [Hin Hid]. apply bool_decide_eq_true in Hid.
  destruct (served_ports w node Hw Hv) as (address & Hc & Hs); [by apply list_elem_of_In|]. exists address. split; [by rewrite <- Hid|].
  intros proto port Hpr. apply eq_true_iff_eq. rewrite Hs. unfold peerPortAllowed, port_in_ranges. rewrite E1, E2.
  assert (ProtocolTCP ≠ ProtocolUDP) by done. destruct Hpr as [-> | ->]; cbn [Z.eqb]; naive_solver.
Qed.

Fixpoint steps (acts : list Action) (w : World) : option World :=
  match acts with [] => Some w | a :: acts => w ← step a w; steps acts w end.

Lemma server_steps_reachable acts w w' : steps acts w = Some w' → Forall timed acts → reachable w → reachable w'.
Proof using.
  revert w. induction acts as [|a acts IH]; intros w; cbn [steps]; [by intros [= <-]|].
  destruct (step a w) as [w1|] eqn:E; [|done]. cbn [mbind option_bind]. intros Hs [Ha Hacts]%Forall_cons Hw.
  eapply IH; [done|done|]. by eapply reachable_step.
Qed.
End safety.

(** ** A run

    Clients "a" and "b" attach, get an address, register and bind their pools;
    a packet from "a" to "b" makes the server offer a direct path, and both
    report it ready. *)

Module DemoVNet.
Definition conf : VirtualNetworkConfig :=
  {| Enabled := true; NetworkMode := "tun"; CIDR := "172.20.0.0/24"; ServerIP := "172.20.0.1"; PacketChannels := 1;
     ServerPorts := tcp_only 22;
     Nodes := [{| NodeClientID := "a"; NodeIP := "172.20.0.2"; NodePorts := tcp_only 443 |};
               {| NodeClientID := "b"; NodeIP := "172.20.0.3"; NodePorts := tcp_only 80 |}] |}.

Definition signal (c sid fp : string) : PeerSignal :=
  {| PeerWire.Kind := PeerSignalRegister; SignalClientID := c; SignalSessionID := sid; SignalPeerClientID := "";
     SignalPeerGeneration := 0; Fingerprint := fp; HostCandidates := ["x"; "x"] |}.

(** A codec that knows the two registrations. *)
Definition codec : SignalCodec.
Proof.
  refine {| marshal_signal s := if bool_decide (s = signal "a" "s1" "fa") then Some [x01]
                                else if bool_decide (s = signal "b" "s2" "fb") then Some [x02] else None;
            decode_signal bs := if bool_decide (bs = [x01]) then Some (signal "a" "s1" "fa")
                                else if bool_decide (bs = [x02]) then Some (signal "b" "s2" "fb") else None;
            signal_faithful _ := True |}.
  intros s bs _. repeat case_bool_decide; intros; by simplify_eq.
Defined.

Definition secret : list byte := repeat x09 32.
Definition frame (payload : byte) : list byte :=
  signal_header PeerSignalRegister [payload] ++ [payload] ++ demo_hmac secret [].
Definition ticket : list byte := repeat x05 32.
Definition decode (s : string) : option (list byte) := Some ticket.
Definition addr_port (s : string) : option (Addr * Z) := Some (Addr4 (IP4 xc0 xa8 x00 x05), 4000).
Definition auth (c : string) : Context := {| Mode := "managed"; ContextClientID := c; CredentialID := []; Generation := 1 |}.
Definition i0 : Input := {| ok := true; now := Second; ServerRuntime.secret := Some secret; tickets := Some [ticket] |}.

Definition binding (c sid ip : string) (g : Z) : BindVNetChannel :=
  {| BindClientID := c; BindSessionID := sid; BindTransportGeneration := 1; BindVirtualIP := ip; BindPoolGeneration := g;
     BindChannelIndex := 0; BindChannelCount := 1; BindTicket := "t" |}.
Definition ready (g : Z) : VNetStatus := {| State := VNetStateReady; PoolGeneration := g; ConfigGeneration := 1; Code := "" |}.
Definition peer_ready (peer : string) : VNetPeerStatus :=
  {| StatusGeneration := 1; StatusPeer := peer; StatusState := Some VNetPeerStateReady; StatusCode := "" |}.

Abbreviation demo_steps := (steps (H := Dotted.text) (H0 := codec) demo_hmac demo_hash (λ _, "t") decode addr_port (λ _, "192.168.0.5:4000")
  demo_orders any_range any_range any_range any_range).
Definition begin : World :=
  {| rt := from_some (newServerVNetRuntime (H := Dotted.text) conf true true) ltac:(vm_compute; reflexivity);
     pools := PoolBroker.start; guards := ∅; passed := ∅; held := ∅; used := ∅; threads := ∅; next := 0; events := [] |}.

Definition threads_run (t : nat) (n : nat) : list Action := replicate n (DoThread t i0).
(** A client is assigned, registers, and its pool is prepared and bound. *)
Definition setup (c sid ip : string) (payload : byte) (t : nat) (g : Z) (p : nat) : list Action :=
  [DoTask c sid TaskAssign] ++ threads_run t 8 ++ [DoRegister (frame payload) "1.2.3.4:5"] ++ threads_run (t + 2) 1 ++
  [DoTask c sid (TaskActivate (ready g))] ++ threads_run (t + 3) 8 ++
  [DoPools (DoBind (binding c sid ip g) (auth c) 7 Second); DoPools (PoolBroker.DoThread p true Second);
   DoPools (PoolBroker.DoThread p true Second)].

Definition history : list Action :=
  [DoAttach "a" "s1" 1 (auth "a") true; DoAttach "b" "s2" 1 (auth "b") true] ++
  setup "a" "s1" "172.20.0.2" x01 2 1 1 ++ setup "b" "s2" "172.20.0.3" x02 7 2 3 ++
  [DoClientPacket "a" "s1" 1 demo_packet] ++ threads_run 12 3 ++ [DoSender 0 true; DoSender 0 true].
Definition offered_ok : is_some (demo_steps history begin) = true := ltac:(vm_compute; reflexivity).
Definition offered : World := from_some (demo_steps history begin) offered_ok.

(** Both report the path ready, and each is told that it is active. *)
Definition linked_ok :
  is_some (demo_steps [DoPeerStatus "a" "s1" (peer_ready "b") Second; DoPeerStatus "b" "s2" (peer_ready "a") Second] offered) = true :=
  ltac:(vm_compute; reflexivity).
Definition linked : World := from_some _ linked_ok.

(** Both clients come back under new sessions; the handlers of the old ones
    end after that. *)
Definition replaced_ok :
  is_some (demo_steps [DoAttach "a" "s3" 2 (auth "a") true; DoAttach "b" "s4" 2 (auth "b") true;
                       DoDetach "a" "s1"; DoDetach "b" "s2"] linked) = true :=
  ltac:(vm_compute; reflexivity).
Definition replaced : World := from_some _ replaced_ok.

Abbreviation demo_reachable := (reachable (H := Dotted.text) (H0 := codec) demo_hmac demo_hash (λ _, "t") decode addr_port (λ _, "192.168.0.5:4000")
  demo_orders any_range any_range any_range any_range).

Lemma begin_reachable : demo_reachable begin.
Proof. eapply reachable_start. apply from_some_eq. Qed.

Lemma offered_reachable : demo_reachable offered.
Proof.
  eapply server_steps_reachable; [apply (from_some_eq _ offered_ok)| |apply begin_reachable].
  unfold history, setup, threads_run. cbn [replicate app]. repeat (apply Forall_cons; split; [by vm_compute|]). by apply Forall_nil.
Qed.

Lemma linked_reachable : demo_reachable linked.
Proof. eapply server_steps_reachable; [apply (from_some_eq _ linked_ok)| |apply offered_reachable]. by repeat (apply Forall_cons; split; [by vm_compute|]). Qed.

Lemma replaced_sessions_reachable : demo_reachable replaced.
Proof. eapply server_steps_reachable; [apply (from_some_eq _ replaced_ok)| |apply linked_reachable]. by repeat (apply Forall_cons; split; [by vm_compute|]). Qed.
End DemoVNet.

Lemma peer_pairs_bounded_witness :
  size (peerPairs (rt DemoVNet.linked)) = 1%nat ∧ peer_count "a" (peerPairs (rt DemoVNet.linked)) <= vnetMaximumNodePeers.
Proof.
  split; [vm_compute; reflexivity|].
  exact (proj1 (proj2 (peer_pairs_bounded _ _ _ _ _ _ _ _ _ _ _ _ DemoVNet.linked_reachable)) "a").
Defined.

(** The notifier of a world, and the first offer it was given. *)
Definition demo_notifier (w : World) (i : nat) : vnetPeerNotifier := default (new_notifier "" false) (notifiers (rt w) !! i).
Definition offer_of (x : PeerNotice) : option VNetPeerOffer := match x with NoticeOffer offer => Some offer | _ => None end.
Definition demo_offer_ok : is_some (head (accepted (demo_notifier DemoVNet.linked 0)) ≫= offer_of) = true := ltac:(vm_compute; reflexivity).
Definition demo_offer : VNetPeerOffer := from_some _ demo_offer_ok.

Lemma offered_paths_accounted_witness :
  PeerGeneration demo_offer = 1 ∧
  (∃ k pr s, peerPairs (rt DemoVNet.linked) !! k = Some pr ∧ pairGeneration pr = PeerGeneration demo_offer ∧ sessions (rt DemoVNet.linked) !! "a" = Some s).
Proof.
  split; [vm_compute; reflexivity|].
  destruct (offered_paths_accounted _ _ _ _ _ _ _ _ _ _ _ _ 0 (demo_notifier DemoVNet.linked 0) demo_offer DemoVNet.linked_reachable)
    as [Hc|[Hc|[Hc|Hc]]]; [vm_compute; reflexivity|vm_compute; by left|..].
  - vm_compute in Hc. discriminate.
  - exfalso. destruct Hc as (x & Hx & Hr & _).
    assert (E : Forall (λ x, is_revoke x = false) (accepted (demo_notifier DemoVNet.linked 0))) by (vm_compute; repeat constructor).
    rewrite Forall_forall in E. pose proof (E _ Hx) as E'. rewrite E' in Hr. discriminate Hr.
  - exfalso. destruct Hc as (t & c & sid & Ht). assert (E : threads DemoVNet.linked = ∅) by (vm_compute; reflexivity).
    rewrite E, lookup_empty in Ht. discriminate Ht.
  - destruct Hc as (k & pr & s & Hk & _ & Hg & _ & Hs & _). exists k, pr, s. split; [exact Hk|]. split; [exact Hg|].
    assert (E : owner (demo_notifier DemoVNet.linked 0) = "a") by (vm_compute; reflexivity). rewrite E in Hs. exact Hs.
Defined.

Lemma notices_in_order_witness :
  length (written (demo_notifier DemoVNet.linked 0)) = 1%nat ∧ length (accepted (demo_notifier DemoVNet.linked 0)) = 2%nat ∧
  EvReady "b" 1 ∈ events DemoVNet.linked.
Proof.
  split_and!; [vm_compute; reflexivity..|].
  assert (Hn : notifiers (rt DemoVNet.linked) !! 0%nat = Some (demo_notifier DemoVNet.linked 0)) by (vm_compute; reflexivity).
  apply (proj2 (proj2 (notices_in_order _ _ _ _ _ _ _ _ _ _ _ _ 0 (demo_notifier DemoVNet.linked 0) DemoVNet.linked_reachable Hn))
           {| PathGeneration := 1; PathClientID := "b" |}).
  vm_compute. right. left.
Defined.

Lemma direct_ports_match_relay_witness :
  peerPortAllowed demo_offer ProtocolTCP 443 = true ∧ PeerVirtualIP demo_offer = "172.20.0.3".
Proof.
  set (node := {| NodeClientID := "a"; NodeIP := "172.20.0.2"; NodePorts := tcp_only 443 |}).
  assert (Hp : is_some (peerPairs (rt DemoVNet.linked) !! pair_key "a" "b") = true) by (vm_compute; reflexivity).
  destruct (direct_ports_match_relay _ _ _ _ _ _ _ _ _ _ _ DemoVNet.linked 0 (demo_notifier DemoVNet.linked 0) demo_offer (pair_key "a" "b")
              (from_some _ Hp) node DemoVNet.linked_reachable) as [(address & Hc & Ha) He].
  - intros (t & pc & Ht & _). assert (E : threads DemoVNet.linked = ∅) by (vm_compute; reflexivity).
    rewrite E, lookup_empty in Ht. discriminate Ht.
  - vm_compute. reflexivity.
  - vm_compute. reflexivity.
  - vm_compute. left.
  - apply from_some_eq.
  - vm_compute. reflexivity.
  - vm_compute. reflexivity.
  - assert (Ec : byClientID (policy (router (rt DemoVNet.linked))) !! "a" = Some (Addr4 (IP4 xac x14 x00 x02))) by (vm_compute; reflexivity).
    assert (Eo : owner (demo_notifier DemoVNet.linked 0) = "a") by (vm_compute; reflexivity). rewrite Eo, Ec in Hc. apply (inj Some) in Hc.
    split; [rewrite (Ha ProtocolTCP 443 (or_introl eq_refl)), <- Hc; vm_compute; reflexivity|].
    rewrite He. vm_compute. reflexivity.
Defined.

(** What [offerPeer] and [expirePeerPairs] do about a path that stands. *)
Lemma standing_pair_offers_nothing source target ticket pool now r pr :
  peerPairs r !! pair_key source target = Some pr → retryAfter pr = zero_time →
  offerPeer source target ticket pool now r = (r, None).
Proof.
  unfold pair_key, offerPeer. destruct (peerPairKey source target) as [[key first] second]. cbn [fst]. intros -> Hr.
  by rewrite Hr.
Qed.

Lemma standing_pairs_do_not_expire (ρ : go_range string serverVNetPeerPair) now r :
  (∀ k pr, peerPairs r !! k = Some pr → active pr = true ∧ retryAfter pr = zero_time) → expirePeerPairs ρ now r = r.
Proof.
  intros Hall. unfold expirePeerPairs.
  assert (Hl : Forall (λ kp, active kp.2 = true ∧ retryAfter kp.2 = zero_time) (ρ (peerPairs r))).
  { apply Forall_forall. intros [k pr] Hk. by apply (Hall k), (range_elem ρ). }
  induction Hl as [|[k pr] l [Ha Hr] Hl IH]; [done|]. cbn [foldl expire_pair]. cbn [snd] in Ha, Hr. by rewrite Ha, Hr.
Qed.

(** C26: Replaced sessions keep a dead path.  Both clients of an active path come
    back under new sessions before the handlers of the old ones end.  The pair
    stays in the table as an active one although neither new session was
    offered anything; from there [offerPeer] offers nothing and
    [expirePeerPairs] removes nothing, whatever the time. *)
Theorem replaced_sessions_keep_pair :
  DemoVNet.demo_reachable DemoVNet.replaced ∧
  (∀ c s, sessions (rt DemoVNet.replaced) !! c = Some s →
     accepted <$> notifiers (rt DemoVNet.replaced) !! peerNotifier s = Some []) ∧
  (∃ pr, peerPairs (rt DemoVNet.replaced) !! pair_key "a" "b" = Some pr ∧ active pr = true) ∧
  (∀ ticket pool now, offerPeer "a" "b" ticket pool now (rt DemoVNet.replaced) = (rt DemoVNet.replaced, None)) ∧
  (∀ (ρ : go_range string serverVNetPeerPair) now, expirePeerPairs ρ now (rt DemoVNet.replaced) = rt DemoVNet.replaced).
Proof.
  assert (Hp : is_some (peerPairs (rt DemoVNet.replaced) !! pair_key "a" "b") = true) by (vm_compute; reflexivity).
  split; [apply DemoVNet.replaced_sessions_reachable|]. split_and!.
  - intros c s Hs%elem_of_map_to_list.
    assert (E : Forall (λ cs, accepted <$> notifiers (rt DemoVNet.replaced) !! peerNotifier cs.2 = Some [])
                  (map_to_list (sessions (rt DemoVNet.replaced)))) by (vm_compute; repeat constructor).
    rewrite Forall_forall in E. exact (E _ Hs).
  - exists (from_some _ Hp). split; [apply from_some_eq|]. vm_compute. reflexivity.
  - intros ticket pool now. apply (standing_pair_offers_nothing _ _ _ _ _ _ (from_some _ Hp) (from_some_eq _ Hp)).
    vm_compute. reflexivity.
  - intros ρ now. apply standing_pairs_do_not_expire. intros k pr Hk%elem_of_map_to_list.
    assert (E : Forall (λ kp, active kp.2 = true ∧ retryAfter kp.2 = zero_time) (map_to_list (peerPairs (rt DemoVNet.replaced))))
      by (vm_compute; repeat constructor).
    rewrite Forall_forall in E. exact (E _ Hk).
Qed.
