(* ===== verification/SecureRecords.v ===== *)
(** * The record layer of the token transport

    [internal/transport/tcp/token/connection.go]: a connection that seals what
    is written in numbered records and opens the records it reads.  AES-GCM is
    the class [AEAD]; the raw connection is a [Writer] and a [Reader] of
    [GoIO].  A world couples the writing half of one connection with the reading
    half of its peer over a network that may deliver any bytes at all. *)

From Equations Require Import Equations.
From S2P Require Import Prelude NetAddr GoIO.

Local Open Scope Z_scope.

(** [cipher.AEAD] as [cipher.NewGCM] returns it: sealing adds [Overhead] bytes
    and opening what was sealed under the same key, nonce and additional data
    gives the plaintext back. *)
Class AEAD := {
  Overhead : nat;
  Seal : list byte → list byte → list byte → list byte → list byte;
  Open : list byte → list byte → list byte → list byte → option (list byte);
  Seal_length key nonce plaintext data : length (Seal key nonce plaintext data) = (length plaintext + Overhead)%nat;
  Open_Seal key nonce plaintext data : Open key nonce (Seal key nonce plaintext data) data = Some plaintext;
  Overhead_small : Z.of_nat Overhead < 2 ^ 16
}.

Definition recordHeaderSize : nat := 12.
Definition maxRecordPlaintext : Z := 64 * 1024.
Definition MaxUint64 : Z := 2 ^ 64 - 1.

Inductive RecordError :=
| RecordIO (e : io_error)
| WrongSequence (expected got : Z)
| InvalidRecordLength (n : Z)
| RecordAuthentication
| SequenceExhausted.

(** The two buffers for ciphertext and the one for plaintext are scratch
    memory: a record is only read once [readBuffer] is empty.  [sealed] holds
    the sequence number and plaintext of every record given to [Seal],
    [opened] the sequence number, ciphertext and plaintext of every record
    [Open] accepted. *)
Record secureConnection := {
  readKey : list byte;
  writeKey : list byte;
  readSequence : Z;
  writeSequence : Z;
  readError : option RecordError;
  writeError : option RecordError;
  readBuffer : list byte;
  rawClosed : bool;
  sealed : list (Z * list byte);
  opened : list (Z * list byte * list byte)
}.
#[export] Instance eta_secureConnection : Eta secureConnection :=
  λ c, {| readKey := readKey c; writeKey := writeKey c; readSequence := readSequence c; writeSequence := writeSequence c;
          readError := readError c; writeError := writeError c; readBuffer := readBuffer c; rawClosed := rawClosed c;
          sealed := sealed c; opened := opened c |}.

(** [aes.NewCipher] takes keys of 16, 24 or 32 bytes. *)
Definition newAEAD (key : list byte) : option (list byte) :=
  if bool_decide (length key ∈ [16; 24; 32]%nat) then Some key else None.

Definition newSecureConnection (read_key write_key : list byte) : option secureConnection :=
  readAEAD ← newAEAD read_key;
  writeAEAD ← newAEAD write_key;
  Some {| readKey := readAEAD; writeKey := writeAEAD; readSequence := 0; writeSequence := 0; readError := None; writeError := None;
          readBuffer := []; rawClosed := false; sealed := []; opened := [] |}.

Definition recordNonce (sequence : Z) : list byte := repeat x00 4 ++ PutUint64 sequence.

(** The header of a record, which is also its additional data. *)
Definition record_header (ciphertextLength : nat) (sequence : Z) : list byte :=
  PutUint32 (Z.of_nat ciphertextLength) ++ PutUint64 sequence.

Section records.
Context `{AEAD}.

Definition seal_record (key : list byte) (sequence : Z) (plaintext : list byte) : list byte :=
  Seal key (recordNonce sequence) plaintext (record_header (length plaintext + Overhead) sequence).

Definition encode_record (key : list byte) (sequence : Z) (plaintext : list byte) : list byte :=
  record_header (length plaintext + Overhead) sequence ++ seal_record key sequence plaintext.

Section write.
Context {W : Type} `{Writer W}.

Definition writeRecord (plaintext : list byte) (c : secureConnection) (w : W) : secureConnection * W * option RecordError :=
  if writeSequence c =? MaxUint64 then (c, w, Some SequenceExhausted)
  else
    let c := c <| sealed := sealed c ++ [(writeSequence c, plaintext)] |> in
    match writeAll ErrShortWrite w (encode_record (writeKey c) (writeSequence c) plaintext) with
    | (w, Some e) => (c, w, Some (RecordIO e))
    | (w, None) => (c <| writeSequence := writeSequence c + 1 |>, w, None)
    end.

(** The loop of [Write] with records of at most [S more] bytes; the result
    counts the bytes of complete records. *)
Equations? write_loop (more : nat) (source : list byte) (done : nat) (c : secureConnection) (w : W) :
    secureConnection * W * nat * option RecordError by wf (length source) lt :=
  write_loop more [] done c w := (c, w, done, None);
  write_loop more (b :: rest) done c w with writeRecord (b :: take more rest) c w => {
    | ((c', w'), Some e) := (c' <| writeError := Some e |> <| rawClosed := true |>, w', done, Some e);
    | ((c', w'), None) := write_loop more (drop more rest) (done + length (b :: take more rest)) c' w'
  }.
Proof. rewrite length_drop. simpl. lia. Qed.

(** [secureConnection.Write] *)
Definition SecureWrite (source : list byte) (c : secureConnection) (w : W) : secureConnection * W * nat * option RecordError :=
  match writeError c with
  | Some e => (c, w, 0%nat, Some e)
  | None => write_loop (Z.to_nat (maxRecordPlaintext - 1)) source 0 c w
  end.
End write.

(** The deferred function of [readRecord]. *)
Definition fail_read (consumed : bool) (e : RecordError) (c : secureConnection) : secureConnection * option RecordError :=
  (if consumed then c <| readError := Some e |> <| rawClosed := true |> else c, Some e).

(** [readRecord] after the header. *)
Definition read_body (header : list byte) (c : secureConnection) (r : Reader) : secureConnection * Reader * option RecordError :=
  let fail e r := let '(c, e) := fail_read true e c in (c, r, e) in
  let ciphertextLength := Uint32 header in
  let sequence := Uint64 (drop 4 header) in
  if negb (sequence =? readSequence c) then fail (WrongSequence (readSequence c) sequence) r
  else if (ciphertextLength <? Z.of_nat Overhead) || (maxRecordPlaintext + Z.of_nat Overhead <? ciphertextLength)
  then fail (InvalidRecordLength ciphertextLength) r
  else
    match ReadFull (Z.to_nat ciphertextLength) r with
    | (r, Err ErrEOF) => fail (RecordIO ErrUnexpectedEOF) r
    | (r, Err e) => fail (RecordIO e) r
    | (r, Ok ciphertext) =>
      match Open (readKey c) (recordNonce (readSequence c)) ciphertext header with
      | None => fail RecordAuthentication r
      | Some plaintext =>
        if readSequence c =? MaxUint64 then fail SequenceExhausted r
        else (c <| readSequence := readSequence c + 1 |> <| readBuffer := plaintext |>
                <| opened := opened c ++ [(readSequence c, ciphertext, plaintext)] |>, r, None)
      end
    end.

Definition readRecord (c : secureConnection) (r : Reader) : secureConnection * Reader * option RecordError :=
  match ReadFull recordHeaderSize r with
  | (r', Err e) => let '(c, e) := fail_read (negb (bool_decide (pending r = []))) (RecordIO e) c in (c, r', e)
  | (r', Ok header) => read_body header c r'
  end.

(** [secureConnection.Read] into a buffer of [n] bytes *)
Definition SecureRead (n : nat) (c : secureConnection) (r : Reader) :
    secureConnection * Reader * result RecordError (list byte) :=
  if (n =? 0)%nat then (c, r, Ok [])
  else
    match readError c with
    | Some e => (c, r, Err e)
    | None =>
      let '(c, r, e) := if bool_decide (readBuffer c = []) then readRecord c r else (c, r, None) in
      match e with
      | Some e => (c, r, Err e)
      | None => (c <| readBuffer := drop n (readBuffer c) |>, r, Ok (take n (readBuffer c)))
      end
    end.

(** ** Worlds *)

(** [offered] is what the callers of [Write] passed while the connection took
    writes, [confirmed] what [Write] reported written, [delivered] what the
    calls of [Read] at the other end returned. *)
Record World {W : Type} := {
  sender : secureConnection;
  wire : W;
  receiver : secureConnection;
  input : Reader;
  offered : list byte;
  confirmed : list byte;
  delivered : list byte
}.
#[global] Arguments World W : clear implicits.
#[export] Instance eta_record_World {W} : Eta (World W) :=
  λ w, {| sender := sender w; wire := wire w; receiver := receiver w; input := input w; offered := offered w;
          confirmed := confirmed w; delivered := delivered w |}.

(** The network delivers any bytes, then an error. *)
Inductive Action :=
| DoWrite (source : list byte)
| DoArrive (bytes : list byte) (failure : io_error)
| DoRead (n : nat).

Definition step {W} `{Writer W} (a : Action) (w : World W) : World W :=
  match a with
  | DoWrite source =>
    let '(c, s, n, _) := SecureWrite source (sender w) (wire w) in
    w <| sender := c |> <| wire := s |> <| confirmed := confirmed w ++ take n source |>
      <| offered := match writeError (sender w) with Some _ => offered w | None => offered w ++ source end |>
  | DoArrive bytes e => w <| input := {| pending := pending (input w) ++ bytes; failure := e |} |>
  | DoRead n =>
    let '(c, r, x) := SecureRead n (receiver w) (input w) in
    w <| receiver := c |> <| input := r |> <| delivered := delivered w ++ match x with Ok bs => bs | Err _ => [] end |>
  end.

(** The two ends agree on the key of this direction. *)
Inductive reachable {W} `{Writer W} : World W → Prop :=
| reachable_start rk wk rk' c c' s r :
    newSecureConnection rk wk = Some c → newSecureConnection wk rk' = Some c' →
    reachable {| sender := c; wire := s; receiver := c'; input := r; offered := []; confirmed := []; delivered := [] |}
| reachable_step a w : reachable w → reachable (step a w).

(** No forgery: every record the receiver accepted carries nonce, ciphertext
    and additional data that the sender produced. *)
Definition sealed_as (key : list byte) (q : Z * list byte) : list byte * list byte * list byte :=
  (recordNonce q.1, seal_record key q.1 q.2, record_header (length q.2 + Overhead) q.1).
Definition opened_as (o : Z * list byte * list byte) : list byte * list byte * list byte :=
  (recordNonce o.1.1, o.1.2, record_header (length o.1.2) o.1.1).
Definition unforged {W} (w : World W) : Prop :=
  ∀ o, o ∈ opened (receiver w) → ∃ q, q ∈ sealed (sender w) ∧ opened_as o = sealed_as (writeKey (sender w)) q.
End records.
