(* ===== verification/SecureStreams.v ===== *)
(** * The record layer of the token transport: integrity and round trip *)

From Equations Require Import Equations.
From S2P Require Import Prelude NetAddr GoIO SecureRecords.

Local Open Scope Z_scope.

(** ** Headers and nonces *)

Lemma be_encode_decode bs : be_encode (length bs) (be_decode bs) = bs.
Proof.
  apply be_decode_inj; [apply length_be_encode|]. rewrite be_decode_encode. apply Z.mod_small, be_decode_range.
Qed.

Lemma record_Uint64_Put v rest : 0 <= v < 2 ^ 64 → Uint64 (PutUint64 v ++ rest) = v.
Proof.
  intros. unfold Uint64, PutUint64. rewrite wrap_small by done.
  rewrite take_app_le by (rewrite length_be_encode; lia). rewrite take_ge by (rewrite length_be_encode; lia).
  rewrite be_decode_encode. by apply Z.mod_small.
Qed.

Lemma PutUint32_Uint32 bs : length bs = 4%nat → PutUint32 (Uint32 bs) = bs.
Proof.
  intros E. unfold PutUint32, Uint32. rewrite take_ge by lia. pose proof (be_decode_range bs) as Hr. rewrite E in Hr.
  rewrite wrap_small by exact Hr. rewrite <- E at 1. apply be_encode_decode.
Qed.

Lemma PutUint64_Uint64 bs : length bs = 8%nat → PutUint64 (Uint64 bs) = bs.
Proof.
  intros E. unfold PutUint64, Uint64. rewrite take_ge by lia. pose proof (be_decode_range bs) as Hr. rewrite E in Hr.
  rewrite wrap_small by exact Hr. rewrite <- E at 1. apply be_encode_decode.
Qed.

Lemma recordNonce_inj s s' : 0 <= s < 2 ^ 64 → 0 <= s' < 2 ^ 64 → recordNonce s = recordNonce s' → s = s'.
Proof.
  intros Hs Hs' E. unfold recordNonce in E. apply (inj (app _)) in E.
  rewrite <- (record_Uint64_Put s [] Hs), <- (record_Uint64_Put s' [] Hs'). by rewrite E.
Qed.

Lemma length_record_header n s : length (record_header n s) = recordHeaderSize.
Proof. unfold record_header. by rewrite length_app, length_PutUint32, length_PutUint64. Qed.

(** The header is determined by the length and the number it carries. *)
Lemma header_fields header :
  length header = recordHeaderSize → record_header (Z.to_nat (Uint32 header)) (Uint64 (drop 4 header)) = header.
Proof.
  intros El. unfold recordHeaderSize in El. rewrite <- (take_drop 4 header) at 3. unfold record_header.
  assert (E4 : Uint32 header = Uint32 (take 4 header)) by (unfold Uint32; by rewrite take_take).
  rewrite Z2Nat.id, E4 by (apply be_decode_range).
  rewrite PutUint32_Uint32 by (rewrite length_take; lia). by rewrite PutUint64_Uint64 by (rewrite length_drop; lia).
Qed.

Lemma header_decoded n s :
  Z.of_nat n < 2 ^ 32 → 0 <= s < 2 ^ 64 →
  Uint32 (record_header n s) = Z.of_nat n ∧ Uint64 (drop 4 (record_header n s)) = s.
Proof.
  intros Hn Hs. unfold record_header. split; [by apply Uint32_Put; lia|].
  rewrite drop_app_ge by (rewrite length_PutUint32; lia). rewrite length_PutUint32. cbn [Nat.sub drop].
  rewrite <- (app_nil_r (PutUint64 s)). by apply record_Uint64_Put.
Qed.

(** ** The writing half *)

Definition plain (c : secureConnection) : list byte := concat (sealed c).*2.

Record writer_ok (c : secureConnection) : Prop := {
  wo_numbers i q : sealed c !! i = Some q → q.1 = Z.of_nat i;
  wo_next : writeError c = None → writeSequence c = Z.of_nat (length (sealed c));
  wo_bound : Z.of_nat (length (sealed c)) <= MaxUint64
}.

(** What the writing half leaves alone. *)
Definition same_reader (c c' : secureConnection) : Prop :=
  readKey c' = readKey c ∧ writeKey c' = writeKey c ∧ readSequence c' = readSequence c ∧ readError c' = readError c ∧
  readBuffer c' = readBuffer c ∧ opened c' = opened c.

(** The bytes of the records sealed from number [n] on. *)
Fixpoint encode_from `{AEAD} (key : list byte) (n : Z) (chunks : list (list byte)) : list byte :=
  match chunks with [] => [] | p :: chunks => encode_record key n p ++ encode_from key (n + 1) chunks end.

Section streams.
Context `{AEAD}.

Section write.
Context {W : Type} `{Writer W}.

Lemma writeRecord_spec p c w c' w' err :
  writeRecord p c w = (c', w', err) → writer_ok c → writeError c = None →
  same_reader c c' ∧ writeError c' = None ∧
  match err with
  | None => writer_ok c' ∧ sealed c' = sealed c ++ [(writeSequence c, p)] ∧
            written w' = written w ++ encode_record (writeKey c) (writeSequence c) p
  | Some e => ∀ c2, c2 = c' <| writeError := Some e |> <| rawClosed := true |> →
              writer_ok c2 ∧ (sealed c' = sealed c ∨ sealed c' = sealed c ++ [(writeSequence c, p)])
  end.
Proof.
  intros E [Hn Hx Hb] He. unfold writeRecord in E. specialize (Hx He).
  assert (Hlast : ∀ i q, (sealed c ++ [(writeSequence c, p)]) !! i = Some q → q.1 = Z.of_nat i).
  { intros i q [Hq|[Hi0 Hq]]%lookup_app_Some; [by apply Hn|]. apply list_lookup_singleton_Some in Hq as [Hi <-]. cbn. lia. }
  destruct (Z.eqb_spec (writeSequence c) MaxUint64) as [Em|Em].
  - injection E as <- <- <-. split_and!; try done. intros c2 ->. split; [|by left]. constructor; cbn; [done..|lia].
  - cbn [writeKey writeSequence] in E.
    destruct (writeAll ErrShortWrite w _) as [w1 [e|]] eqn:Ew; injection E as <- <- <-; cbn in *.
    + split_and!; try done. intros c2 ->. split; [|by right]. constructor; cbn [sealed writeError writeSequence]; [done..|]. rewrite length_app. cbn [length]. lia.
    + split_and!; try done; [|by apply writeAll_ok in Ew].
      constructor; cbn [sealed writeError writeSequence]; [done|intros _; rewrite length_app; cbn [length]; lia|rewrite length_app; cbn [length]; lia].
Qed.

Lemma write_loop_spec more source done c w c' w' n err :
  write_loop more source done c w = (c', w', n, err) → writer_ok c → writeError c = None →
  writer_ok c' ∧ same_reader c c' ∧ writeError c' = err ∧
  ∃ k m, n = (done + k)%nat ∧ (k <= m <= length source)%nat ∧ plain c' = plain c ++ take m source ∧
    (err = None → k = length source ∧ ∃ chunks, (sealed c').*2 = (sealed c).*2 ++ chunks ∧
       Forall (λ p, (0 < length p <= S more)%nat) chunks ∧
       written w' = written w ++ encode_from (writeKey c) (writeSequence c) chunks).
Proof.
  revert c' w' n err. funelim (write_loop more source done c w); intros c2 w2 n err; try (rewrite <- Heqcall);
    intros E Hok He; simplify_eq.
  - split_and!; try done. exists 0%nat, 0%nat. rewrite app_nil_r. split_and!; try done; try (simpl; lia).
    intros _. split; [done|]. exists []. by rewrite !app_nil_r.
  - destruct (writeRecord_spec _ _ _ _ _ _ Heq Hok He) as (Hs & He' & Hw). specialize (Hw _ eq_refl) as [Hok' Hse].
    split_and!; try done. destruct Hse as [Es|Es].
    + exists 0%nat, 0%nat. unfold plain. cbn. rewrite Es, app_nil_r. split_and!; try done; simpl; lia.
    + exists 0%nat, (S (length (take more rest))). unfold plain. cbn. rewrite Es, fmap_app, concat_app. cbn.
      rewrite app_nil_r. split_and!; try done; try (rewrite ?length_take; lia).
      f_equal. f_equal. rewrite length_take. destruct (le_lt_dec (length rest) more).
      * by rewrite !take_ge by lia.
      * by rewrite Nat.min_l by lia.
  - destruct (writeRecord_spec _ _ _ _ _ _ Heq Hok He) as ((R1 & R2 & R3 & R4 & R5 & R6) & He' & Hok' & Es & Ew).
    match goal with IH : ∀ _ _ _ _, write_loop _ _ _ _ _ = _ → _ |- _ => destruct (IH _ _ _ _ E Hok' He') as
      (Hok2 & (S1 & S2 & S3 & S4 & S5 & S6) & He2 & k & m & En & Hk & Ep & Hall) end.
    rewrite length_drop in Hk, Hall. cbn [length] in En. rewrite length_take in En.
    split_and!; try done; [split_and!; congruence|].
    exists (S (length (take more rest)) + k)%nat, (S (length (take more rest)) + m)%nat. rewrite length_take.
    split_and!; try (simpl; lia).
    + rewrite Ep. unfold plain. rewrite Es, fmap_app, concat_app. cbn. rewrite app_nil_r, <- !app_assoc. f_equal. cbn. f_equal.
      destruct (le_lt_dec (length rest) more) as [Hle|Hlt].
      * rewrite (drop_ge rest more), take_nil, app_nil_r by done. by rewrite !take_ge by lia.
      * rewrite Nat.min_l by lia. by rewrite take_take_drop.
    + intros Hn. destruct (Hall Hn) as (-> & chunks & Ec & Hc & Ew2). split; [simpl; lia|].
      exists ((b :: take more rest) :: chunks). rewrite Ec, Es, fmap_app, <- app_assoc. split_and!; [done| |].
      * constructor; [|done]. cbn. rewrite length_take. lia.
      * rewrite Ew2, Ew, <- app_assoc. f_equal. cbn. f_equal. rewrite R2. f_equal.
        destruct Hok' as [_ Hx _]. rewrite (Hx He'), Es, length_app. cbn. destruct Hok as [_ Hx0 _]. rewrite (Hx0 He). lia.
Qed.
End write.

(** ** The reading half *)

(** An accepted record opened under its own number and header. *)
Definition opens (key : list byte) (o : Z * list byte * list byte) : Prop :=
  Open key (recordNonce o.1.1) o.1.2 (record_header (length o.1.2) o.1.1) = Some o.2.

Record reader_ok (c : secureConnection) : Prop := {
  ro_numbers i o : opened c !! i = Some o → o.1.1 = Z.of_nat i;
  ro_next : readSequence c = Z.of_nat (length (opened c));
  ro_bound : Z.of_nat (length (opened c)) <= MaxUint64;
  ro_opens o : o ∈ opened c → opens (readKey c) o
}.

Definition received (c : secureConnection) : list byte := concat (opened c).*2.

Lemma fail_read_spec consumed e c c' e' :
  fail_read consumed e c = (c', e') → reader_ok c →
  e' = Some e ∧ reader_ok c' ∧ opened c' = opened c ∧ readBuffer c' = readBuffer c ∧ readKey c' = readKey c.
Proof using. unfold fail_read. destruct consumed; intros [= <- <-] []; by split_and!. Qed.

Lemma read_body_spec header c r c' r' err :
  read_body header c r = (c', r', err) → length header = recordHeaderSize → reader_ok c → readBuffer c = [] →
  reader_ok c' ∧ readKey c' = readKey c ∧
  match err with
  | None => received c' = received c ++ readBuffer c'
  | Some _ => readBuffer c' = [] ∧ received c' = received c
  end.
Proof using.
  intros E Hl Hok Hb. unfold read_body in E.
  assert (Hfail : ∀ e, (let '(c0, e0) := fail_read true e c in (c0, r', e0)) = (c', r', err) →
    reader_ok c' ∧ readKey c' = readKey c ∧
    match err with None => received c' = received c ++ readBuffer c' | Some _ => readBuffer c' = [] ∧ received c' = received c end).
  { intros e Ef. destruct (fail_read true e c) as [c0 e0] eqn:Ef'. injection Ef as <- <-.
    destruct (fail_read_spec _ _ _ _ _ Ef' Hok) as (-> & Hok' & Eo & Ebuf & Ek). unfold received. rewrite Eo, Ebuf. done. }
  destruct (Z.eqb_spec (Uint64 (drop 4 header)) (readSequence c)) as [Eseq|]; cbn [negb] in E;
    [|injection E as <- <- <-; by eapply Hfail].
  destruct (_ || _) eqn:Er in E; [injection E as <- <- <-; by eapply Hfail|].
  destruct (ReadFull (Z.to_nat (Uint32 header)) r) as [r1 [ct|e]] eqn:Ef; cycle 1.
  { destruct e; injection E as <- <- <-; by eapply Hfail. }
  destruct (Open _ _ ct header) as [pt|] eqn:Eo; [|injection E as <- <- <-; by eapply Hfail].
  destruct (Z.eqb_spec (readSequence c) MaxUint64) as [|Hlt]; injection E as <- <- <-; [by eapply Hfail|].
  apply ReadFull_ok in Ef as (El & _ & _). destruct Hok as [Hn Hx Hbd Ho]. split_and!; try done.
  - constructor; cbn.
    + intros i o [Hi|[Hi Hq]]%lookup_app_Some; [by apply Hn|]. apply list_lookup_singleton_Some in Hq as [Hi' <-]. cbn. lia.
    + rewrite length_app. cbn [length]. lia.
    + rewrite length_app. cbn [length]. lia.
    + intros o [Hin|Hin%list_elem_of_singleton]%elem_of_app; [by apply Ho|]. subst o. unfold opens. cbn [fst snd].
      rewrite <- Eseq, El, header_fields by done. by rewrite Eseq.
  - unfold received. cbn. rewrite fmap_app, concat_app. cbn. by rewrite app_nil_r.
Qed.

Lemma readRecord_spec c r c' r' err :
  readRecord c r = (c', r', err) → reader_ok c → readBuffer c = [] →
  reader_ok c' ∧ readKey c' = readKey c ∧
  match err with
  | None => received c' = received c ++ readBuffer c'
  | Some _ => readBuffer c' = [] ∧ received c' = received c
  end.
Proof using.
  intros E Hok Hb. unfold readRecord in E. destruct (ReadFull recordHeaderSize r) as [r1 [header|e]] eqn:Ef.
  - apply ReadFull_ok in Ef as (El & _ & _). by eapply read_body_spec.
  - destruct (fail_read _ _ c) as [c0 e0] eqn:Ef'. injection E as <- <- <-.
    destruct (fail_read_spec _ _ _ _ _ Ef' Hok) as (-> & Hok' & Eo & Ebuf & Ek). unfold received. by rewrite Eo, Ebuf.
Qed.

Lemma SecureRead_spec n c r c' r' x :
  SecureRead n c r = (c', r', x) → reader_ok c →
  reader_ok c' ∧ readKey c' = readKey c ∧
  ∃ tail, received c' = received c ++ tail ∧ readBuffer c ++ tail = match x with Ok bs => bs | Err _ => [] end ++ readBuffer c'.
Proof using.
  intros E Hok. unfold SecureRead in E. destruct (n =? 0)%nat; [injection E as <- <- <-; split_and!; [done..|]; exists []; by rewrite !app_nil_r|].
  destruct (readError c); [injection E as <- <- <-; split_and!; [done..|]; exists []; by rewrite !app_nil_r|].
  destruct (bool_decide_reflect (readBuffer c = [])) as [Hb|Hb].
  - destruct (readRecord c r) as [[c1 r1] err] eqn:Er. destruct (readRecord_spec _ _ _ _ _ Er Hok Hb) as (Hok1 & Ek & Hx).
    destruct err; injection E as <- <- <-.
    + destruct Hx as [E1 E2]. split_and!; [done..|]. exists []. by rewrite !app_nil_r, Hb, E1.
    + split_and!; [by destruct Hok1|done|]. exists (readBuffer c1). rewrite Hb. cbn. by rewrite take_drop.
  - injection E as <- <- <-. split_and!; [by destruct Hok|done|]. exists []. cbn. by rewrite take_drop, !app_nil_r.
Qed.

(** ** Worlds *)

Section worlds.
Context {W : Type} `{Writer W}.
Implicit Types w : World W.

Record world_ok w : Prop := {
  ok_writer : writer_ok (sender w);
  ok_reader : reader_ok (receiver w);
  ok_key : readKey (receiver w) = writeKey (sender w);
  ok_offered : plain (sender w) `prefix_of` offered w;
  ok_confirmed : confirmed w `prefix_of` plain (sender w);
  ok_writing : writeError (sender w) = None → confirmed w = offered w;
  ok_received : received (receiver w) = delivered w ++ readBuffer (receiver w)
}.

Lemma newSecureConnection_ok rk wk c :
  newSecureConnection rk wk = Some c →
  writer_ok c ∧ reader_ok c ∧ readKey c = rk ∧ writeKey c = wk ∧ sealed c = [] ∧ opened c = [] ∧ readBuffer c = [] ∧
  writeError c = None ∧ writeSequence c = 0 ∧ readError c = None.
Proof using.
  unfold newSecureConnection, newAEAD. repeat case_bool_decide; cbn; intros [= <-]. split_and!; try done; constructor; cbn; try done; by intros ? ?%elem_of_nil.
Qed.

Lemma write_ok w source : world_ok w → world_ok (step (DoWrite source) w).
Proof using.
  intros [H1 H2 H3 H4 H5 H6 H7]. cbn [step]. unfold SecureWrite. destruct (writeError (sender w)) as [e|] eqn:Ee.
  { constructor; cbn; try done; [by rewrite app_nil_r|by rewrite Ee]. }
  destruct (write_loop _ source 0 (sender w) (wire w)) as [[[c s] n] err] eqn:Ew.
  destruct (write_loop_spec _ _ _ _ _ _ _ _ _ Ew H1 Ee) as (Hok & (S1 & S2 & S3 & S4 & S5 & S6) & Ec & k & m & -> & Hk & Ep & Hall).
  specialize (H6 eq_refl). constructor; cbn; try done.
  - congruence.
  - rewrite Ep. rewrite <- H6. assert (Epl : plain (sender w) = confirmed w) by (apply (anti_symm prefix); [by rewrite H6|done]).
    rewrite Epl. apply prefix_app, prefix_take.
  - assert (Epl : plain (sender w) = confirmed w) by (apply (anti_symm prefix); [by rewrite H6|done]).
    rewrite Ep, Epl. apply prefix_app. rewrite <- (Nat.min_l k m) by lia. rewrite <- take_take. apply prefix_take.
  - intros E. destruct (Hall ltac:(congruence)) as [-> _]. by rewrite H6, firstn_all.
Qed.

Lemma read_ok w n : world_ok w → world_ok (step (DoRead n) w).
Proof using.
  intros [H1 H2 H3 H4 H5 H6 H7]. cbn [step]. destruct (SecureRead n (receiver w) (input w)) as [[c r] x] eqn:Er.
  destruct (SecureRead_spec _ _ _ _ _ _ Er H2) as (Hok & Ek & tail & Et & Eb). constructor; cbn; try done; [congruence|].
  by rewrite Et, H7, <- !app_assoc, Eb.
Qed.

Lemma secure_reachable_ok w : reachable w → world_ok w.
Proof using.
  induction 1 as [rk wk rk' c c' s r Hc Hc'|[source|bytes e|n] w _ Hok].
  - apply newSecureConnection_ok in Hc as (? & _ & _ & Ek & Es & _). apply newSecureConnection_ok in Hc' as (_ & ? & Ek' & _ & _ & Eo & Eb & _).
    constructor; cbn; try done; unfold plain, received; rewrite ?Es, ?Eo, ?Eb; [congruence|done..].
  - by apply write_ok.
  - destruct Hok. by constructor.
  - by apply read_ok.
Qed.

(** Nonces are never reused.  Every record a connection gives to the cipher
    carries its own number, the numbers are consecutive from zero and the
    largest 64-bit number is never used, also when a write fails half way and
    the caller tries again. *)
Theorem nonces_unique w :
  reachable w →
  NoDup (recordNonce <$> (sealed (sender w)).*1) ∧
  ∀ i q, sealed (sender w) !! i = Some q → q.1 = Z.of_nat i ∧ q.1 < MaxUint64.
Proof using.
  intros Hw%secure_reachable_ok. destruct (ok_writer _ Hw) as [Hn _ Hb].
  assert (Hlt : ∀ i q, sealed (sender w) !! i = Some q → q.1 = Z.of_nat i ∧ q.1 < MaxUint64).
  { intros i q Hq. pose proof (lookup_lt_Some _ _ _ Hq). rewrite (Hn _ _ Hq). lia. }
  split; [|done]. apply NoDup_alt. intros i j x. rewrite !list_lookup_fmap.
  destruct (sealed (sender w) !! i) as [q|] eqn:Hi, (sealed (sender w) !! j) as [q'|] eqn:Hj; try done. intros Ex Ey.
  assert (E : recordNonce q.1 = recordNonce q'.1) by (cbn [fmap option_fmap option_map] in Ex, Ey; congruence).
  destruct (Hlt _ _ Hi), (Hlt _ _ Hj). unfold MaxUint64 in *. apply recordNonce_inj in E; lia.
Qed.

Lemma opened_sealed w i o :
  world_ok w → unforged w → opened (receiver w) !! i = Some o → snd <$> sealed (sender w) !! i = Some o.2.
Proof using.
  intros Hw Hu Hi. destruct (ok_reader _ Hw) as [Rn _ Rb Ro], (ok_writer _ Hw) as [Wn _ Wb].
  pose proof (list_elem_of_lookup_2 _ _ _ Hi) as Hin. destruct (Hu _ Hin) as (q & [j Hj]%list_elem_of_lookup_1 & E).
  unfold opened_as, sealed_as in E. apply pair_equal_spec in E as [[E1 E2]%pair_equal_spec E3]. pose proof (lookup_lt_Some _ _ _ Hi). pose proof (lookup_lt_Some _ _ _ Hj).
  pose proof (Rn _ _ Hi) as Ei. pose proof (Wn _ _ Hj) as Ej. unfold MaxUint64 in *.
  apply recordNonce_inj in E1; [|lia..]. assert (i = j) as -> by lia. rewrite Hj. cbn. f_equal.
  specialize (Ro _ Hin). unfold opens in Ro. rewrite (ok_key _ Hw), E3, E2, E1 in Ro. unfold seal_record in Ro. rewrite Open_Seal in Ro.
  congruence.
Qed.

Lemma received_prefix w : world_ok w → unforged w → (opened (receiver w)).*2 `prefix_of` (sealed (sender w)).*2.
Proof using.
  intros Hw Hu. assert (Hall : ∀ i p, (opened (receiver w)).*2 !! i = Some p → (sealed (sender w)).*2 !! i = Some p).
  { intros i p. rewrite !list_lookup_fmap. destruct (opened (receiver w) !! i) as [o|] eqn:Hi; [|done]. intros [= <-].
    by eapply opened_sealed. }
  revert Hall. generalize (opened (receiver w)).*2 (sealed (sender w)).*2. intros l. induction l as [|p l IH]; intros k Hall.
  - apply prefix_nil.
  - pose proof (Hall 0%nat p eq_refl) as H0'. destruct k as [|p' k]; [done|]. injection H0' as ->. apply prefix_cons, IH.
    intros i x Hx. by apply (Hall (S i)).
Qed.

(** C27: The stream is authentic.  Whatever bytes the network delivers (lost,
    repeated, reordered, truncated or altered records), as long as no record is
    forged, what the calls of [Read] return is a prefix of what the peer's
    callers passed to [Write], in order and without gaps; and what [Write]
    reported written is a prefix of it too. *)
Theorem secure_stream_authentic w :
  reachable w → unforged w → delivered w `prefix_of` offered w ∧ confirmed w `prefix_of` offered w.
Proof using.
  intros Hw%secure_reachable_ok Hu. split; [|etrans; [apply (ok_confirmed _ Hw)|apply (ok_offered _ Hw)]].
  transitivity (received (receiver w)); [rewrite (ok_received _ Hw); by apply prefix_app_r|].
  transitivity (plain (sender w)); [|apply (ok_offered _ Hw)].
  destruct (received_prefix _ Hw Hu) as [l E]. unfold received, plain. rewrite E, concat_app. by apply prefix_app_r.
Qed.
End worlds.

(** ** Round trip *)

(** Reading with buffers of [n] bytes until an error. *)
Fixpoint read_all (fuel n : nat) (c : secureConnection) (r : Reader) :
    secureConnection * Reader * list byte * option RecordError :=
  match fuel with
  | O => (c, r, [], None)
  | S fuel =>
    match SecureRead n c r with
    | (c, r, Ok bs) => let '(c, r, rest, e) := read_all fuel n c r in (c, r, bs ++ rest, e)
    | (c, r, Err e) => (c, r, [], Some e)
    end
  end.

Lemma readRecord_encoded c p rest e :
  0 <= readSequence c < MaxUint64 → Z.of_nat (length p) <= maxRecordPlaintext →
  readRecord c {| pending := encode_record (readKey c) (readSequence c) p ++ rest; failure := e |} =
    (c <| readSequence := readSequence c + 1 |> <| readBuffer := p |>
       <| opened := opened c ++ [(readSequence c, seal_record (readKey c) (readSequence c) p, p)] |>,
     {| pending := rest; failure := e |}, None).
Proof using.
  intros Hs Hp. pose proof Overhead_small. unfold maxRecordPlaintext, MaxUint64 in *. unfold readRecord, encode_record.
  rewrite <- app_assoc, ReadFull_app by apply length_record_header. unfold read_body.
  destruct (header_decoded (length p + Overhead) (readSequence c)) as [-> ->]; [lia..|].
  rewrite Z.eqb_refl, Nat2Z.id. cbn [negb]. unfold maxRecordPlaintext.
  destruct (Z.ltb_spec (Z.of_nat (length p + Overhead)) (Z.of_nat Overhead)); [lia|].
  destruct (Z.ltb_spec (64 * 1024 + Z.of_nat Overhead) (Z.of_nat (length p + Overhead))); [lia|]. cbn [orb].
  unfold seal_record. rewrite ReadFull_app by apply Seal_length. rewrite Open_Seal.
  destruct (Z.eqb_spec (readSequence c) MaxUint64) as [Em|]; [unfold MaxUint64 in Em; lia|done].
Qed.

Definition readable (c : secureConnection) (n : nat) : Prop := readError c = None ∧ 0 <= readSequence c ∧ readSequence c + Z.of_nat n <= MaxUint64.

Lemma read_all_encoded n e chunks : (0 < n)%nat → ∀ fuel c,
  readable c (length chunks) → Forall (λ p, 0 < Z.of_nat (length p) <= maxRecordPlaintext) chunks →
  (length (readBuffer c) + length (concat chunks) < fuel)%nat →
  ∃ c', read_all fuel n c {| pending := encode_from (readKey c) (readSequence c) chunks; failure := e |} =
          (c', {| pending := []; failure := e |}, readBuffer c ++ concat chunks, Some (RecordIO e)) ∧
        readError c' = None.
Proof using.
  intros Hn fuel. revert chunks. induction fuel as [|fuel IH]; intros chunks c (He & H0' & Hs) Hall Hf; [lia|].
  cbn [read_all]. unfold SecureRead. destruct (Nat.eqb_spec n 0); [lia|]. rewrite He.
  destruct (bool_decide_reflect (readBuffer c = [])) as [Hb|Hb].
  - rewrite Hb in *. destruct chunks as [|p chunks]; cbn [encode_from concat app length] in *.
    { unfold readRecord. cbn. exists c. by rewrite He. }
    apply Forall_cons in Hall as [Hp Hall]. rewrite readRecord_encoded by (unfold MaxUint64 in *; lia). cbn [fst snd].
    set (c1 := c <| readSequence := _ |> <| readBuffer := p |> <| opened := _ |>). set (c2 := c1 <| readBuffer := drop n (readBuffer c1) |>).
    destruct (IH chunks c2) as (c' & E & He').
    + split_and!; cbn; [done|lia|lia].
    + done.
    + rewrite length_app in Hf. cbn. rewrite length_drop. lia.
    + change (readKey c2) with (readKey c) in E. change (readSequence c2) with (readSequence c + 1) in E. rewrite E.
      exists c'. split; [|done]. cbn. by rewrite app_assoc, take_drop.
  - set (c2 := c <| readBuffer := drop n (readBuffer c) |>).
    assert (Hl : (length (readBuffer c) ≠ 0)%nat) by (by destruct (readBuffer c)).
    destruct (IH chunks c2) as (c' & E & He').
    + by split_and!.
    + done.
    + cbn. rewrite length_drop. lia.
    + change (readKey c2) with (readKey c) in E. change (readSequence c2) with (readSequence c) in E. rewrite E.
      exists c'. split; [|done]. cbn. by rewrite app_assoc, take_drop.
Qed.

Lemma encode_from_app key n l k : encode_from key n (l ++ k) = encode_from key n l ++ encode_from key (n + Z.of_nat (length l)) k.
Proof using.
  revert n. induction l as [|p l IH]; intros n; cbn [encode_from app length]; [by rewrite Z.add_0_r|].
  rewrite IH, <- app_assoc. do 3 f_equal. lia.
Qed.

Section roundtrip.
Context {W : Type} `{Writer W}.

(** Writes that all succeed. *)
Fixpoint write_sources (sources : list (list byte)) (c : secureConnection) (s : W) : option (secureConnection * W) :=
  match sources with
  | [] => Some (c, s)
  | source :: sources => match SecureWrite source c s with (c, s, _, None) => write_sources sources c s | _ => None end
  end.

Lemma write_sources_encoded sources : ∀ c s c' s',
  write_sources sources c s = Some (c', s') → writer_ok c → writeError c = None →
  ∃ chunks, written s' = written s ++ encode_from (writeKey c) (writeSequence c) chunks ∧ concat chunks = concat sources ∧
    Forall (λ p, 0 < Z.of_nat (length p) <= maxRecordPlaintext) chunks ∧
    writeSequence c + Z.of_nat (length chunks) <= MaxUint64.
Proof using.
  induction sources as [|source sources IH]; intros c s c' s'; cbn [write_sources].
  - intros [= <- <-] [_ Hx Hb] He. exists []. rewrite app_nil_r. split_and!; try done. rewrite (Hx He). cbn. lia.
  - unfold SecureWrite. intros E Hok He. rewrite He in E.
    destruct (write_loop _ source 0 c s) as [[[c1 s1] n] [err|]] eqn:Ew; [done|].
    destruct (write_loop_spec _ _ _ _ _ _ _ _ _ Ew Hok He) as (Hok1 & (S1 & S2 & _) & Ec & k & m & _ & Hk & Ep & Hall).
    destruct (Hall eq_refl) as (-> & chunks & Es & Hc & Ewr). assert (m = length source) as -> by lia. rewrite firstn_all in Ep.
    destruct (IH _ _ _ _ E Hok1 Ec) as (chunks' & E1 & E2 & E3 & E4).
    assert (Eseq : writeSequence c1 = writeSequence c + Z.of_nat (length chunks)).
    { destruct Hok as [_ Hx _], Hok1 as [_ Hx1 _]. rewrite (Hx He), (Hx1 Ec), <- (length_fmap snd (sealed c1)), Es, length_app, length_fmap. lia. }
    exists (chunks ++ chunks'). rewrite length_app, concat_app, E2, encode_from_app, E1, Ewr, S2, <- Eseq, app_assoc. split_and!; try done.
    + change (concat (source :: sources)) with (source ++ concat sources). f_equal. unfold plain in Ep.
      rewrite Es, concat_app in Ep. by apply app_inv_head in Ep.
    + apply Forall_app. split; [|done]. eapply Forall_impl; [done|]. cbn. intros p Hp. unfold maxRecordPlaintext in *. lia.
    + lia.
Qed.

(** C28: Writing and reading round-trip.  What any sequence of successful writes
    put on the wire, the peer reads back exactly, whatever its buffer size, and
    then meets the error of the raw connection at a record boundary, which
    leaves the connection usable.  One call per byte and one more are enough. *)
Theorem secure_roundtrip rk wk rk' c c' sources (s s' : W) c1 n e fuel :
  newSecureConnection rk wk = Some c → newSecureConnection wk rk' = Some c' →
  write_sources sources c s = Some (c1, s') → (0 < n)%nat → (length (concat sources) < fuel)%nat →
  ∃ c2, read_all fuel n c' {| pending := drop (length (written s)) (written s'); failure := e |} =
          (c2, {| pending := []; failure := e |}, concat sources, Some (RecordIO e)) ∧ readError c2 = None.
Proof using.
  intros Hc Hc' Hw Hn Hf. pose proof (newSecureConnection_ok _ _ _ Hc) as (Hok & _ & _ & Ek & _ & _ & _ & He & Hseq & _).
  pose proof (newSecureConnection_ok _ _ _ Hc') as (_ & Hok' & Ek' & _ & _ & Eo & Eb & _ & _ & Her).
  destruct (write_sources_encoded _ _ _ _ _ Hw Hok He) as (chunks & E1 & E2 & E3 & E4).
  pose proof (ro_next _ Hok') as Hr. rewrite Eo in Hr. cbn in Hr.
  destruct (read_all_encoded n e chunks Hn fuel c') as (c2 & E & He2); [split_and!; [done|lia|lia]|done|by rewrite Eb, E2|].
  exists c2. split; [|done]. rewrite E1, drop_app_length, Hseq, Ek. rewrite Ek', Hr, Eb, E2 in E. exact E.
Qed.
End roundtrip.
End streams.

(** ** A run *)

Module DemoRecords.
(** A cipher in name only: the tag is a checksum of all it covers. *)
Definition checksum (bs : list byte) : Z := foldl (λ acc b, u64 (acc * 257 + byte_val b + 1)) 7 bs.
Definition tag (key nonce plaintext data : list byte) : list byte :=
  PutUint64 (checksum (key ++ nonce)) ++ PutUint64 (checksum (data ++ plaintext)).
Definition demo_seal (key nonce plaintext data : list byte) : list byte := plaintext ++ tag key nonce plaintext data.
Definition demo_open (key nonce ciphertext data : list byte) : option (list byte) :=
  let plaintext := take (length ciphertext - 16) ciphertext in
  if bool_decide (drop (length ciphertext - 16) ciphertext = tag key nonce plaintext data) then Some plaintext else None.

Lemma length_tag key nonce plaintext data : length (tag key nonce plaintext data) = 16%nat.
Proof. unfold tag. by rewrite length_app, !length_PutUint64. Qed.

Definition cipher : AEAD.
Proof.
  refine {| Overhead := 16; Seal := demo_seal; Open := demo_open |}.
  - intros. unfold demo_seal. by rewrite length_app, length_tag.
  - intros. unfold demo_open, demo_seal. rewrite length_app, length_tag, Nat.add_sub, take_app_length, drop_app_length.
    by rewrite bool_decide_eq_true_2.
  - done.
Defined.
#[local] Existing Instance cipher.

Definition key : list byte := repeat x0a 32.
Definition demo_connection : secureConnection := from_some (newSecureConnection key key) eq_refl.
Definition begin (room : nat) : World Sink :=
  {| sender := demo_connection; wire := {| GoIO.accepted := []; room := room |}; receiver := demo_connection;
     input := {| pending := []; failure := ErrEOF |}; offered := []; confirmed := []; delivered := [] |}.
Lemma begin_secure room : reachable (begin room).
Proof. apply (reachable_start key key key); vm_compute; reflexivity. Qed.

(** The second write fails half way and is tried again. *)
Definition failed : World Sink := step (DoWrite [x43]) (step (DoWrite [x43]) (step (DoWrite [x41; x42]) (begin 40))).
Lemma failed_reachable : reachable failed.
Proof. repeat apply reachable_step. apply begin_secure. Qed.

(** The network repeats the first record. *)
Definition sent : World Sink := step (DoWrite [x43]) (step (DoWrite [x41; x42]) (begin 1000)).
Definition replayed : World Sink :=
  step (DoRead 1) (step (DoRead 1) (step (DoRead 1) (step (DoArrive (take 30 (GoIO.accepted (wire sent)) ++ take 30 (GoIO.accepted (wire sent))) ErrEOF) sent))).
Lemma replayed_reachable : reachable replayed.
Proof. repeat apply reachable_step. apply begin_secure. Qed.
End DemoRecords.

Lemma nonces_unique_witness :
  (sealed (sender DemoRecords.failed)).*1 = [0; 1] ∧ NoDup (recordNonce <$> (sealed (sender DemoRecords.failed)).*1).
Proof. split; [vm_compute; reflexivity|]. exact (proj1 (nonces_unique _ DemoRecords.failed_reachable)). Defined.

Lemma secure_stream_authentic_witness :
  delivered DemoRecords.replayed = [x41; x42] ∧ readError (receiver DemoRecords.replayed) = Some (WrongSequence 1 0) ∧
  delivered DemoRecords.replayed `prefix_of` offered DemoRecords.replayed.
Proof.
  split_and!; [vm_compute; reflexivity..|]. apply (secure_stream_authentic _ DemoRecords.replayed_reachable).
  assert (E : opened_as <$> opened (receiver DemoRecords.replayed) =
              sealed_as (H := DemoRecords.cipher) DemoRecords.key <$> [(0, [x41; x42])]) by (vm_compute; reflexivity).
  intros o Ho. apply (list_elem_of_fmap_2 opened_as) in Ho. rewrite E in Ho. apply list_elem_of_singleton in Ho.
  exists (0, [x41; x42]). split; [vm_compute; left|exact Ho].
Defined.

Lemma secure_roundtrip_witness :
  ∃ c1 s' c2, write_sources (H := DemoRecords.cipher) [[x41; x42]; [x43]] DemoRecords.demo_connection {| GoIO.accepted := []; room := 1000 |} = Some (c1, s') ∧
    read_all (H := DemoRecords.cipher) 5 2 DemoRecords.demo_connection {| pending := GoIO.accepted s'; failure := ErrEOF |} =
      (c2, {| pending := []; failure := ErrEOF |}, [x41; x42; x43], Some (RecordIO ErrEOF)).
Proof.
  assert (Hs : is_some (write_sources (H := DemoRecords.cipher) [[x41; x42]; [x43]] DemoRecords.demo_connection {| GoIO.accepted := []; room := 1000 |}) = true)
    by (vm_compute; reflexivity).
  pose proof (from_some_eq _ Hs) as E. destruct (from_some _ Hs) as [c1 s']. 
  destruct (secure_roundtrip (H := DemoRecords.cipher) DemoRecords.key DemoRecords.key DemoRecords.key DemoRecords.demo_connection DemoRecords.demo_connection
              [[x41; x42]; [x43]] {| GoIO.accepted := []; room := 1000 |} s' c1 2 ErrEOF 5) as (c2 & Ec & _);
    [vm_compute; reflexivity|vm_compute; reflexivity|exact E|lia|vm_compute; lia|].
  exists c1, s', c2. split; [exact E|exact Ec].
Defined.
