(* ===== verification/TokenHandshake.v ===== *)
(** * The handshake of the token transport

    [internal/transport/tcp/token/handshake.go]: client and server prove to each
    other that they hold the same token and derive the keys of the two
    directions.  HMAC-SHA-256, HKDF and the random source are parameters; the
    deadlines of the raw connection show as errors of its reader and writer. *)

From S2P Require Import Prelude NetAddr GoIO ControlFrame Authentication SecureRecords SecureStreams.

Local Open Scope Z_scope.

Definition handshakeNonceSize : nat := 32.
Definition handshakeProofSize : nat := 32.
Definition handshakeSelectorSize : nat := 32.
Definition handshakeHeaderSize : nat := length Magic + 2 + handshakeSelectorSize + handshakeNonceSize.

Inductive HandshakeError :=
| AuthenticationFailed
| UnsupportedRole
| InvalidHeaderSize
| InvalidMagic
| UnsupportedVersion (version : Z)
| InvalidRole
| RandomFailed
| HandshakeIO (e : io_error)
| KeyFailed.

(** [protocol.Role] is a byte; every value but two stands for no role. *)
Definition role_number (role : Role) : Z := match role with RoleUnknown => 0 | RoleControl => 1 | RoleData => 2 end.
Definition role_of (b : byte) : Role :=
  if byte_val b =? 1 then RoleControl else if byte_val b =? 2 then RoleData else RoleUnknown.

Definition text_bytes (s : string) : list byte := String.list_byte_of_string s.

Definition makeHandshakeHeader (role : Role) : list byte :=
  Magic ++ [byte_of CoreVersion; byte_of (role_number role)] ++ repeat x00 (handshakeSelectorSize + handshakeNonceSize).

(** A header with the selector and the nonce copied into place. *)
Definition hello (role : Role) (selector nonce : list byte) : list byte :=
  put_at (6 + handshakeSelectorSize) nonce (put_at 6 selector (makeHandshakeHeader role)).

Definition validateHandshakeHeader (header : list byte) (expectedRole : Role) : option HandshakeError :=
  if negb (length header =? handshakeHeaderSize)%nat then Some InvalidHeaderSize
  else if negb (bool_decide (take 4 header = Magic)) then Some InvalidMagic
  else
    let version := byte_val (default x00 (header !! 4%nat)) in
    if negb (version =? CoreVersion) then Some (UnsupportedVersion version)
    else
      let role := role_of (default x00 (header !! 5%nat)) in
      if negb (Role_Valid role) || negb (bool_decide (role = expectedRole)) then Some InvalidRole else None.

(** The parts of a header. *)
Definition selector_of (header : list byte) : list byte := take handshakeSelectorSize (drop 6 header).
Definition nonce_of (header : list byte) : list byte := drop (6 + handshakeSelectorSize) header.

Section handshake.
Context {W : Type} `{Writer W}.
Context (hmac : list byte → list byte → list byte) (sha256 : string → digest).
(** [hkdf.Key(sha256.New, secret, salt, info, length)] *)
Context (hkdf : list byte → list byte → string → nat → option (list byte)).

Definition handshakeProof (token peer : string) (transcript : list byte) : list byte :=
  hmac (text_bytes token) (text_bytes ("portway-token-v1/" +:+ peer) ++ transcript).

Definition role_label (role : Role) : string :=
  "portway-token-v1/role/" +:+ match role with RoleUnknown => "0" | RoleControl => "1" | RoleData => "2" end +:+ "/".

Definition deriveDirectionalKeys (token : string) (clientNonce serverNonce : list byte) (role : Role) :
    option (list byte * list byte) :=
  let salt := clientNonce ++ serverNonce in
  clientKey ← hkdf (text_bytes token) salt (role_label role +:+ "client-to-server") 32;
  serverKey ← hkdf (text_bytes token) salt (role_label role +:+ "server-to-client") 32;
  Some (clientKey, serverKey).

(** [clientTokenHandshake] after the server's message has been read. *)
Definition client_reply (token : string) (role : Role) (clientHello serverMessage : list byte) (w : W) :
    W * result HandshakeError secureConnection :=
  let serverHello := take handshakeHeaderSize serverMessage in
  match validateHandshakeHeader serverHello role with
  | Some e => (w, Err e)
  | None =>
    let transcript := clientHello ++ serverHello in
    if negb (bool_decide (drop handshakeHeaderSize serverMessage = handshakeProof token "server" transcript))
    then (w, Err AuthenticationFailed)
    else
      match writeAll ErrShortWrite w (handshakeProof token "client" transcript) with
      | (w, Some e) => (w, Err (HandshakeIO e))
      | (w, None) =>
        (w, match deriveDirectionalKeys token (nonce_of clientHello) (nonce_of serverHello) role with
            | None => Err KeyFailed
            | Some (clientKey, serverKey) =>
              match newSecureConnection serverKey clientKey with None => Err KeyFailed | Some c => Ok c end
            end)
      end
  end.

(** [random] is the outcome of [rand.Read]. *)
Definition clientTokenHandshake (token : string) (role : Role) (random : option (list byte)) (w : W) (r : Reader) :
    W * Reader * result HandshakeError secureConnection :=
  if negb (Role_Valid role) then (w, r, Err UnsupportedRole)
  else
    match random with
    | None => (w, r, Err RandomFailed)
    | Some nonce =>
      let clientHello := hello role (Selector sha256 token) nonce in
      match writeAll ErrShortWrite w clientHello with
      | (w, Some e) => (w, r, Err (HandshakeIO e))
      | (w, None) =>
        match ReadFull (handshakeHeaderSize + handshakeProofSize) r with
        | (r, Err e) => (w, r, Err (HandshakeIO e))
        | (r, Ok serverMessage) => let '(w, x) := client_reply token role clientHello serverMessage w in (w, r, x)
        end
      end
    end.

(** [record.Token = string(make([]byte, 32))] for an unknown selector *)
Definition dummy_token : string := String.string_of_list_byte (repeat x00 32).

(** [serverTokenHandshakeContext] once the proof of the client has been read. *)
Definition server_verdict (record : option AuthRecord) (role : Role) (clientHello serverHello clientProof : list byte) :
    result HandshakeError (secureConnection * Role * Context) :=
  let token := match record with Some record => Token record | None => dummy_token end in
  let proofValid := bool_decide (clientProof = handshakeProof token "client" (clientHello ++ serverHello)) in
  match record with
  | None => Err AuthenticationFailed
  | Some record =>
    if negb proofValid then Err AuthenticationFailed
    else
      match deriveDirectionalKeys token (nonce_of clientHello) (nonce_of serverHello) role with
      | None => Err KeyFailed
      | Some (clientKey, serverKey) =>
        match newSecureConnection clientKey serverKey with
        | None => Err KeyFailed
        | Some c => Ok (c, role, RecordContext record)
        end
      end
  end.

(** [serverTokenHandshakeContext] once the hello of the client has been read
    and accepted. *)
Definition server_reply (store : Store) (role : Role) (random : option (list byte)) (clientHello : list byte) (w : W) (r : Reader) :
    W * Reader * result HandshakeError (secureConnection * Role * Context) :=
  let record := Store_Resolve store (selector_of clientHello) in
  let token := match record with Some record => Token record | None => dummy_token end in
  match random with
  | None => (w, r, Err RandomFailed)
  | Some nonce =>
    let serverHello := hello role (selector_of clientHello) nonce in
    let transcript := clientHello ++ serverHello in
    match writeAll ErrShortWrite w (serverHello ++ handshakeProof token "server" transcript) with
    | (w, Some e) => (w, r, Err (HandshakeIO e))
    | (w, None) =>
      match ReadFull handshakeProofSize r with
      | (r, Err e) => (w, r, Err (HandshakeIO e))
      | (r, Ok clientProof) => (w, r, server_verdict record role clientHello serverHello clientProof)
      end
    end
  end.

(** A missing store is [None]. *)
Definition serverTokenHandshakeContext (credentials : option Store) (allowedRoles : list Role) (random : option (list byte))
    (w : W) (r : Reader) : W * Reader * result HandshakeError (secureConnection * Role * Context) :=
  match credentials with
  | None => (w, r, Err AuthenticationFailed)
  | Some store =>
    match ReadFull handshakeHeaderSize r with
    | (r, Err e) => (w, r, Err (HandshakeIO e))
    | (r, Ok clientHello) =>
      let role := role_of (default x00 (clientHello !! 5%nat)) in
      match validateHandshakeHeader clientHello role with
      | Some e => (w, r, Err e)
      | None =>
        if negb (bool_decide (allowedRoles = [])) && negb (bool_decide (role ∈ allowedRoles)) then (w, r, Err UnsupportedRole)
        else server_reply store role random clientHello w r
      end
    end
  end.
End handshake.
