(* ===== verification/TokenAuth.v ===== *)
(** * The handshake of the token transport: what success means *)

From S2P Require Import Prelude NetAddr GoIO ControlFrame Authentication SecureRecords SecureStreams TokenHandshake.

Local Open Scope Z_scope.

(** ** Headers *)

Lemma hello_eq role selector nonce :
  length selector = handshakeSelectorSize → length nonce = handshakeNonceSize →
  hello role selector nonce = Magic ++ [byte_of CoreVersion; byte_of (role_number role)] ++ selector ++ nonce.
Proof.
  intros Hs Hn. unfold handshakeSelectorSize, handshakeNonceSize in *. unfold hello, put_at, makeHandshakeHeader, handshakeSelectorSize, handshakeNonceSize.
  rewrite Hs, Hn. set (z := repeat x00 (32 + 32)).
  assert (E : take 6 (Magic ++ [byte_of CoreVersion; byte_of (role_number role)] ++ z) ++ selector ++
              drop (6 + 32) (Magic ++ [byte_of CoreVersion; byte_of (role_number role)] ++ z) =
              (Magic ++ [byte_of CoreVersion; byte_of (role_number role)] ++ selector) ++ repeat x00 32) by done.
  rewrite E. rewrite take_app_length' by (rewrite !length_app, Hs; done). rewrite drop_ge by (rewrite !length_app, Hs; done).
  by rewrite app_nil_r, <- !app_assoc.
Qed.

Lemma length_hello role selector nonce :
  length selector = handshakeSelectorSize → length nonce = handshakeNonceSize →
  length (hello role selector nonce) = handshakeHeaderSize.
Proof. intros Hs Hn. rewrite hello_eq by done. rewrite !length_app, Hs, Hn. done. Qed.

Lemma role_of_number role : role_of (byte_of (role_number role)) = role.
Proof. destruct role; vm_compute; reflexivity. Qed.

Lemma hello_fields role selector nonce :
  length selector = handshakeSelectorSize → length nonce = handshakeNonceSize → Role_Valid role = true →
  validateHandshakeHeader (hello role selector nonce) role = None ∧ role_of (default x00 (hello role selector nonce !! 5%nat)) = role ∧
  selector_of (hello role selector nonce) = selector ∧ nonce_of (hello role selector nonce) = nonce.
Proof.
  intros Hs Hn Hr. unfold validateHandshakeHeader. rewrite length_hello, Nat.eqb_refl by done. rewrite hello_eq by done.
  unfold selector_of, nonce_of. cbn [negb]. split_and!.
  - rewrite bool_decide_eq_true_2 by done. cbn [negb].
    change (default x00 _) with (byte_of CoreVersion) at 1. change (byte_val (byte_of CoreVersion) =? CoreVersion) with true. cbn [negb].
    change (default x00 _) with (byte_of (role_number role)). rewrite role_of_number, Hr. by rewrite bool_decide_eq_true_2.
  - apply role_of_number.
  - change (drop 6 (Magic ++ [byte_of CoreVersion; byte_of (role_number role)] ++ selector ++ nonce)) with (selector ++ nonce).
    by rewrite take_app_length'.
  - change (drop (6 + handshakeSelectorSize) (Magic ++ [byte_of CoreVersion; byte_of (role_number role)] ++ selector ++ nonce))
      with (drop handshakeSelectorSize (selector ++ nonce)). by rewrite drop_app_length'.
Qed.

Lemma validated header role :
  validateHandshakeHeader header role = None →
  length header = handshakeHeaderSize ∧ role_of (default x00 (header !! 5%nat)) = role ∧ Role_Valid role = true.
Proof.
  unfold validateHandshakeHeader. destruct (Nat.eqb_spec (length header) handshakeHeaderSize); [|done]. cbn [negb].
  case_bool_decide; [|done]. cbn [negb]. destruct (_ =? CoreVersion); [|done]. cbn [negb].
  destruct (Role_Valid _) eqn:Hv; [|done]. cbn [negb orb]. case_bool_decide; [|done]. intros _. by subst role.
Qed.

Lemma new_connection_keys rk wk c : newSecureConnection rk wk = Some c → readKey c = rk ∧ writeKey c = wk.
Proof. unfold newSecureConnection, newAEAD. repeat case_bool_decide; cbn; by intros [= <-]. Qed.

(** What a side wrote or read, cut at the end of its first message. *)
Definition client_transcript (wrote read : list byte) : list byte := take handshakeHeaderSize wrote ++ take handshakeHeaderSize read.
Definition server_transcript (wrote read : list byte) : list byte := take handshakeHeaderSize read ++ take handshakeHeaderSize wrote.
(** The client's proof follows its hello. *)
Definition proof_after_hello (bytes : list byte) : list byte := take handshakeProofSize (drop handshakeHeaderSize bytes).

Section handshake.
Context {W : Type} `{Writer W}.
Context (hmac : list byte → list byte → list byte) (sha256 : string → digest).
Context (hkdf : list byte → list byte → string → nat → option (list byte)).
(** The sizes that HMAC-SHA-256, SHA-256 and [rand.Read] guarantee. *)
Context (hmac_size : ∀ key data, length (hmac key data) = handshakeProofSize).
Context (sha256_size : ∀ token, length (sha256 token) = handshakeSelectorSize).

Abbreviation client := (clientTokenHandshake (W := W) hmac sha256 hkdf).
Abbreviation server := (serverTokenHandshakeContext (W := W) hmac hkdf).
Abbreviation proof_of := (handshakeProof hmac).
Abbreviation derive := (deriveDirectionalKeys hkdf).

Definition fresh (w w' : W) : list byte := drop (length (written w)) (written w').

Lemma fresh_app w w' bs : written w' = written w ++ bs → fresh w w' = bs.
Proof using. intros E. unfold fresh. by rewrite E, drop_app_length. Qed.

Lemma length_proof token peer t : length (proof_of token peer t) = handshakeProofSize.
Proof using hmac_size. apply hmac_size. Qed.

Lemma client_success token role nonce (w w' : W) r r' c :
  client token role (Some nonce) w r = (w', r', Ok c) → length nonce = handshakeNonceSize →
  ∃ serverHello, 
    let clientHello := hello role (Selector sha256 token) nonce in
    let transcript := clientHello ++ serverHello in
    Role_Valid role = true ∧ validateHandshakeHeader serverHello role = None ∧
    pending r = serverHello ++ proof_of token "server" transcript ++ pending r' ∧
    written w' = written w ++ clientHello ++ proof_of token "client" transcript ∧
    ∃ ck sk, derive token (nonce_of clientHello) (nonce_of serverHello) role = Some (ck, sk) ∧ newSecureConnection sk ck = Some c.
Proof using sha256_size.
  unfold clientTokenHandshake. destruct (Role_Valid role) eqn:Hv; [|done]. cbn [negb]. intros E Hn.
  destruct (writeAll ErrShortWrite w _) as [w1 [e|]] eqn:Ew1; [done|].
  destruct (ReadFull _ r) as [r1 [sm|e]] eqn:Er; [|done]. unfold client_reply in E.
  destruct (validateHandshakeHeader (take handshakeHeaderSize sm) role) eqn:Ev; [done|].
  case_bool_decide as Ep; [|done]. cbn [negb] in E.
  destruct (writeAll ErrShortWrite w1 _) as [w2 [e|]] eqn:Ew2; [done|].
  destruct (derive _ _ _ _) as [[ck sk]|] eqn:Ed; [|done]. destruct (newSecureConnection sk ck) as [c0|] eqn:Ec; [|done].
  injection E as <- <- <-. apply ReadFull_ok in Er as (El & Epend & _). apply writeAll_ok in Ew1, Ew2.
  exists (take handshakeHeaderSize sm). cbn zeta. split_and!; try done.
  - rewrite Epend, app_assoc. f_equal. rewrite <- Ep. by rewrite take_drop.
  - by rewrite Ew2, Ew1, <- app_assoc.
  - eauto.
Qed.

Lemma server_success store allowed nonce (w w' : W) r r' c role ctx :
  server (Some store) allowed (Some nonce) w r = (w', r', Ok (c, role, ctx)) → length nonce = handshakeNonceSize →
  ∃ clientHello record,
    let serverHello := hello role (selector_of clientHello) nonce in
    let transcript := clientHello ++ serverHello in
    validateHandshakeHeader clientHello role = None ∧ (allowed = [] ∨ role ∈ allowed) ∧
    Store_Resolve store (selector_of clientHello) = Some record ∧ ctx = RecordContext record ∧
    pending r = clientHello ++ proof_of (Token record) "client" transcript ++ pending r' ∧
    written w' = written w ++ serverHello ++ proof_of (Token record) "server" transcript ∧
    ∃ ck sk, derive (Token record) (nonce_of clientHello) (nonce_of serverHello) role = Some (ck, sk) ∧
             newSecureConnection ck sk = Some c.
Proof using.
  unfold serverTokenHandshakeContext. intros E Hn. destruct (ReadFull handshakeHeaderSize r) as [r1 [ch|e]] eqn:Er; [|done].
  destruct (validateHandshakeHeader ch _) eqn:Ev; [done|].
  destruct (negb (bool_decide (allowed = [])) && _) eqn:Ea; [done|].
  unfold server_reply in E. destruct (writeAll ErrShortWrite w _) as [w1 [e|]] eqn:Ew; [done|].
  destruct (ReadFull handshakeProofSize r1) as [r2 [cp|e]] eqn:Er2; [|done]. unfold server_verdict in E.
  destruct (Store_Resolve store (selector_of ch)) as [record|] eqn:Es; [|done].
  case_bool_decide as Ep; [|done]. cbn [negb] in E. destruct (derive _ _ _ _) as [[ck sk]|] eqn:Ed; [|done].
  destruct (newSecureConnection ck sk) as [c0|] eqn:Ec; [|done]. injection E as <- <- <- <- <-.
  apply ReadFull_ok in Er as (El & Epend & _). apply ReadFull_ok in Er2 as (El2 & Epend2 & _). apply writeAll_ok in Ew.
  exists ch, record. cbn zeta. split_and!; try done.
  - repeat case_bool_decide; naive_solver.
  - by rewrite Epend, Epend2, Ep.
  - eauto.
Qed.

(** The server never accepts a selector that resolves to no record. *)
Lemma server_resolves credentials allowed random (w w' : W) r r' x :
  server credentials allowed random w r = (w', r', Ok x) →
  ∃ store, credentials = Some store ∧ is_Some (Store_Resolve store (selector_of (take handshakeHeaderSize (pending r)))).
Proof using.
  unfold serverTokenHandshakeContext. destruct credentials as [store|]; [|done]. intros E. exists store. split; [done|].
  destruct (ReadFull handshakeHeaderSize r) as [r1 [ch|e]] eqn:Er; [|done]. apply ReadFull_ok in Er as (El & -> & _). rewrite take_app_length' by done.
  destruct (validateHandshakeHeader ch _); [done|]. destruct (negb (bool_decide (allowed = [])) && _); [done|]. unfold server_reply in E.
  destruct random as [nonce|]; [|done]. destruct (writeAll ErrShortWrite w _) as [w1 [e|]]; [done|].
  destruct (ReadFull handshakeProofSize r1) as [r2 [cp|e]]; [|done]. unfold server_verdict in E.
  destruct (Store_Resolve store (selector_of ch)); [eauto|done].
Qed.

(** Two inputs of HMAC, a key and a message each, do not collide. *)
Definition no_collision (key data key' data' : list byte) : Prop := hmac key data = hmac key' data' → key = key' ∧ data = data'.

(** What the client authenticates: the label and the transcript. *)
Definition proof_input (transcript : list byte) : list byte := text_bytes ("portway-token-v1/" +:+ "client") ++ transcript.

Lemma text_bytes_inj s t : text_bytes s = text_bytes t → s = t.
Proof using. intros E. rewrite <- (String.string_of_list_byte_of_string s), <- (String.string_of_list_byte_of_string t). by f_equal. Qed.

(** The bytes of a side's whole part of the handshake: its hello and its proof. *)
Definition flight (bytes : list byte) : list byte := take (handshakeHeaderSize + handshakeProofSize) bytes.

(** C29: A completed handshake means agreement.  Suppose a client and a server
    both finish, the proof the server read is the one this client wrote, and the
    inputs of HMAC the two computed it from do not collide.  Then both saw the
    same handshake: what the client wrote is what the server read, and what the
    server wrote is what the client read, hellos and proofs; the client's token
    is that of the record its selector resolves to, the two agree on the role,
    which the server allows, the server reports the identity of that record,
    and the keys of the two directions match crosswise.  And whatever the
    server reads, a selector that resolves to no record never succeeds. *)
Theorem handshake_agreement :
  (∀ token role nonce_c (wc wc' : W) rc rc' cc store allowed nonce_s (ws ws' : W) rs rs' cs role_s ctx,
    client token role (Some nonce_c) wc rc = (wc', rc', Ok cc) →
    server (Some store) allowed (Some nonce_s) ws rs = (ws', rs', Ok (cs, role_s, ctx)) →
    length nonce_c = handshakeNonceSize → length nonce_s = handshakeNonceSize →
    proof_after_hello (fresh wc wc') = proof_after_hello (pending rs) →
    (∀ record, Store_Resolve store (selector_of (take handshakeHeaderSize (pending rs))) = Some record →
       no_collision (text_bytes token) (proof_input (client_transcript (fresh wc wc') (pending rc)))
         (text_bytes (Token record)) (proof_input (server_transcript (fresh ws ws') (pending rs)))) →
    flight (fresh wc wc') = flight (pending rs) ∧ flight (fresh ws ws') = flight (pending rc) ∧
    ∃ record, Store_Resolve store (Selector sha256 token) = Some record ∧ Token record = token ∧ ctx = RecordContext record ∧
      role_s = role ∧ (allowed = [] ∨ role ∈ allowed) ∧
      readKey cc = writeKey cs ∧ writeKey cc = readKey cs) ∧
  (∀ store allowed random (w w' : W) r r' x,
    Store_Resolve store (selector_of (take handshakeHeaderSize (pending r))) = None →
    server (Some store) allowed random w r ≠ (w', r', Ok x)).
Proof using hmac_size sha256_size.
  split; [|intros store allowed random w w' r r' x Hnone (s & [= <-] & [record Hr])%server_resolves; congruence].
  intros token role nonce_c wc wc' rc rc' cc store allowed nonce_s ws ws' rs rs' cs role_s ctx.
  intros Ec Es Hnc Hns Hp Hcol. destruct (client_success _ _ _ _ _ _ _ _ Ec Hnc) as (sh & Hv & Hvs & Epc & Ewc & ck & sk & Ed & Eck).
  destruct (server_success _ _ _ _ _ _ _ _ _ _ Es Hns) as (ch & record & Hvc & Hal & Hres & -> & Eps & Ews & ck' & sk' & Ed' & Eck').
  destruct (validated _ _ Hvs) as (Lsh & Rsh & _). destruct (validated _ _ Hvc) as (Lch & Rch & Hvalid).
  set (chc := hello role (Selector sha256 token) nonce_c) in *. set (shs := hello role_s (selector_of ch) nonce_s) in *.
  assert (Lchc : length chc = handshakeHeaderSize) by (apply length_hello; [apply sha256_size|done]).
  assert (Lsel : length (selector_of ch) = handshakeSelectorSize).
  { unfold selector_of. rewrite length_take, length_drop, Lch. done. }
  assert (Lshs : length shs = handshakeHeaderSize) by (by apply length_hello).
  apply fresh_app in Ewc, Ews. rewrite Ewc, Ews in *. unfold client_transcript, server_transcript, proof_after_hello in *.
  rewrite Epc, Eps in *. rewrite !take_app_length' in Hcol by done. rewrite !drop_app_length' in Hp by done.
  rewrite (take_ge (proof_of _ _ _)) in Hp by (rewrite length_proof; done). rewrite take_app_length' in Hp by (symmetry; apply length_proof).
  destruct (Hcol record Hres Hp) as [Htok%text_bytes_inj Et]. unfold proof_input in Et. apply app_inv_head in Et. apply app_inj_1 in Et as [Ech Esh]; [|congruence].
  destruct (hello_fields role (Selector sha256 token) nonce_c (sha256_size _) Hnc Hv) as (Hvh & Hrh & Hsel & _). fold chc in Hvh, Hrh, Hsel.
  assert (Erole : role_s = role) by congruence. rewrite <- Ech, Hsel in Hres.
  rewrite <- Htok, <- Ech, <- Esh, Erole, Ed in Ed'. injection Ed' as <- <-.
  apply new_connection_keys in Eck as [K1 K2], Eck' as [K3 K4].
  assert (Hcut : ∀ a b t, length a = handshakeHeaderSize → length b = handshakeProofSize → flight (a ++ b ++ t) = a ++ b).
  { intros x y t Lx Ly. unfold flight. rewrite app_assoc. apply take_app_length'. by rewrite length_app, Lx, Ly. }
  assert (Hcut' : ∀ a b, length a = handshakeHeaderSize → length b = handshakeProofSize → flight (a ++ b) = a ++ b).
  { intros x y Lx Ly. unfold flight. apply take_ge. by rewrite length_app, Lx, Ly. }
  rewrite !Hcut, !Hcut' by (done || apply length_proof). split; [congruence|]. split; [congruence|].
  exists record. split_and!; try done; congruence.
Qed.

(** The handshake completes.  A client whose token the store holds and a
    server that allows its role, each reading what the other wrote, both finish
    with one connection whose keys match crosswise, leaving the bytes that
    follow for the record layer. *)
Theorem handshake_completes token role nonce_c nonce_s store allowed record ck sk (wc wc1 wc2 ws ws1 : W) rest_c rest_s ec es :
  Role_Valid role = true → (allowed = [] ∨ role ∈ allowed) →
  length nonce_c = handshakeNonceSize → length nonce_s = handshakeNonceSize →
  Store_Resolve store (Selector sha256 token) = Some record → Token record = token →
  derive token nonce_c nonce_s role = Some (ck, sk) → length ck = 32%nat → length sk = 32%nat →
  let clientHello := hello role (Selector sha256 token) nonce_c in
  let serverHello := hello role (Selector sha256 token) nonce_s in
  let transcript := clientHello ++ serverHello in
  let clientProof := proof_of token "client" transcript in
  let serverProof := proof_of token "server" transcript in
  writeAll ErrShortWrite wc clientHello = (wc1, None) → writeAll ErrShortWrite wc1 clientProof = (wc2, None) →
  writeAll ErrShortWrite ws (serverHello ++ serverProof) = (ws1, None) →
  ∃ cc cs,
    client token role (Some nonce_c) wc {| pending := serverHello ++ serverProof ++ rest_c; failure := ec |} =
      (wc2, {| pending := rest_c; failure := ec |}, Ok cc) ∧
    server (Some store) allowed (Some nonce_s) ws {| pending := clientHello ++ clientProof ++ rest_s; failure := es |} =
      (ws1, {| pending := rest_s; failure := es |}, Ok (cs, role, RecordContext record)) ∧
    newSecureConnection sk ck = Some cc ∧ newSecureConnection ck sk = Some cs.
Proof using hmac_size sha256_size.
  intros Hv Hal Hnc Hns Hres Htok Hd Hck Hsk ch sh t cp sp Ew1 Ew2 Ews.
  destruct (hello_fields role (Selector sha256 token) nonce_c (sha256_size _) Hnc Hv) as (Vc & Rc & Sc & Nc).
  destruct (hello_fields role (Selector sha256 token) nonce_s (sha256_size _) Hns Hv) as (Vs & Rs & Ss & Ns).
  assert (Lc : length ch = handshakeHeaderSize) by (apply length_hello; [apply sha256_size|done]).
  assert (Ls : length sh = handshakeHeaderSize) by (apply length_hello; [apply sha256_size|done]).
  fold ch sh in Vc, Rc, Sc, Nc, Vs, Rs, Ss, Ns.
  assert (Hnew : ∀ a b : list byte, length a = 32%nat → length b = 32%nat → is_Some (newSecureConnection a b)).
  { intros a b Ha Hb. unfold newSecureConnection, newAEAD. rewrite Ha, Hb. cbn. eauto. }
  destruct (Hnew sk ck Hsk Hck) as [cc Ecc], (Hnew ck sk Hck Hsk) as [cs Ecs]. exists cc, cs. split_and!; [| |done|done].
  - unfold clientTokenHandshake. rewrite Hv. cbn [negb]. fold ch. rewrite Ew1, app_assoc.
    rewrite ReadFull_app by (rewrite length_app, Ls; f_equal; apply length_proof).
    unfold client_reply. rewrite take_app_length' by done. rewrite drop_app_length' by done. rewrite Vs. fold t sp cp.
    rewrite bool_decide_eq_true_2 by done. cbn [negb]. rewrite Ew2, Nc, Ns, Hd, Ecc. done.
  - unfold serverTokenHandshakeContext. rewrite ReadFull_app by done. rewrite Rc, Vc.
    destruct (negb (bool_decide (allowed = [])) && negb (bool_decide (role ∈ allowed))) eqn:Ea.
    { repeat case_bool_decide; naive_solver. }
    unfold server_reply. rewrite Sc, Hres. fold sh t. rewrite Htok. fold sp. rewrite Ews.
    rewrite ReadFull_app by apply length_proof. unfold server_verdict. rewrite Htok. fold t cp.
    rewrite bool_decide_eq_true_2 by done. cbn [negb]. rewrite Nc, Ns, Hd, Ecs. done.
Qed.
End handshake.

(** ** A run *)

Module DemoHandshake.
Definition hmac (key data : list byte) : list byte :=
  let c := DemoRecords.checksum (key ++ [x00] ++ data) in PutUint64 c ++ PutUint64 (c + 1) ++ PutUint64 c ++ PutUint64 c.
Definition sha256 : string → digest := DemoAuth.pad_hash.
Definition hkdf (secret salt : list byte) (info : string) (n : nat) : option (list byte) :=
  Some (hmac secret (salt ++ text_bytes info)).

Lemma hmac_size key data : length (hmac key data) = handshakeProofSize.
Proof. unfold hmac. by rewrite !length_app, !length_PutUint64. Qed.
Lemma sha256_size token : length (sha256 token) = handshakeSelectorSize.
Proof. unfold sha256, DemoAuth.pad_hash. rewrite length_take, length_fmap, length_app, length_replicate. unfold handshakeSelectorSize. lia. Qed.

Definition nonce_c : list byte := repeat x11 32.
Definition nonce_s : list byte := repeat x22 32.
Definition selector : digest := Selector sha256 "token-a".
Definition client_hello : list byte := hello RoleData selector nonce_c.
Definition server_hello : list byte := hello RoleData selector nonce_s.
Definition client_proof : list byte := handshakeProof hmac "token-a" "client" (client_hello ++ server_hello).
Definition server_proof : list byte := handshakeProof hmac "token-a" "server" (client_hello ++ server_hello).
Definition out (bs : list byte) (n : nat) : Sink := {| GoIO.accepted := bs; room := n |}.
Definition from (bs : list byte) : Reader := {| pending := bs; failure := ErrEOF |}.
Definition keys : list byte * list byte := default ([], []) (deriveDirectionalKeys hkdf "token-a" nonce_c nonce_s RoleData).
Definition at_client : secureConnection := from_some (newSecureConnection keys.2 keys.1) ltac:(vm_compute; reflexivity).
Definition at_server : secureConnection := from_some (newSecureConnection keys.1 keys.2) ltac:(vm_compute; reflexivity).
End DemoHandshake.

Lemma handshake_completes_witness :
  clientTokenHandshake DemoHandshake.hmac DemoHandshake.sha256 DemoHandshake.hkdf "token-a" RoleData (Some DemoHandshake.nonce_c)
    (DemoHandshake.out [] 102) (DemoHandshake.from (DemoHandshake.server_hello ++ DemoHandshake.server_proof ++ [x07])) =
    (DemoHandshake.out (DemoHandshake.client_hello ++ DemoHandshake.client_proof) 0, DemoHandshake.from [x07], Ok DemoHandshake.at_client).
Proof.
  destruct (handshake_completes DemoHandshake.hmac DemoHandshake.sha256 DemoHandshake.hkdf DemoHandshake.hmac_size DemoHandshake.sha256_size
              "token-a" RoleData DemoHandshake.nonce_c DemoHandshake.nonce_s DemoAuth.store [RoleControl; RoleData]
              {| RecordContext := DemoAuth.context_a; Token := "token-a" |} DemoHandshake.keys.1 DemoHandshake.keys.2
              (DemoHandshake.out [] 102) (DemoHandshake.out DemoHandshake.client_hello 32)
              (DemoHandshake.out (DemoHandshake.client_hello ++ DemoHandshake.client_proof) 0)
              (DemoHandshake.out [] 102) (DemoHandshake.out (DemoHandshake.server_hello ++ DemoHandshake.server_proof) 0) [x07] [] ErrEOF ErrEOF)
    as (cc & cs & Ec & _ & Ek & _); [vm_compute; reflexivity|right; right; left|vm_compute; reflexivity..|].
  assert (E : cc = DemoHandshake.at_client)
    by (unfold DemoHandshake.at_client; apply (inj Some); rewrite <- from_some_eq; symmetry; exact Ek).
  rewrite E in Ec. exact Ec.
Defined.

Lemma handshake_agreement_witness :
  ∃ record, Store_Resolve DemoAuth.store (Selector DemoHandshake.sha256 "token-a") = Some record ∧ Token record = "token-a" ∧
    RecordContext record = DemoAuth.context_a ∧ readKey DemoHandshake.at_client = writeKey DemoHandshake.at_server.
Proof.
  destruct (proj1 (handshake_agreement DemoHandshake.hmac DemoHandshake.sha256 DemoHandshake.hkdf DemoHandshake.hmac_size DemoHandshake.sha256_size)
              "token-a" RoleData DemoHandshake.nonce_c (DemoHandshake.out [] 102)
              (DemoHandshake.out (DemoHandshake.client_hello ++ DemoHandshake.client_proof) 0)
              (DemoHandshake.from (DemoHandshake.server_hello ++ DemoHandshake.server_proof)) (DemoHandshake.from []) DemoHandshake.at_client
              DemoAuth.store [RoleControl; RoleData] DemoHandshake.nonce_s (DemoHandshake.out [] 102)
              (DemoHandshake.out (DemoHandshake.server_hello ++ DemoHandshake.server_proof) 0)
              (DemoHandshake.from (DemoHandshake.client_hello ++ DemoHandshake.client_proof)) (DemoHandshake.from []) DemoHandshake.at_server
              RoleData DemoAuth.context_a) as (_ & _ & record & H1 & H2 & H3 & _ & _ & H4 & _);
    [vm_compute; reflexivity|vm_compute; reflexivity|vm_compute; reflexivity|vm_compute; reflexivity|vm_compute; reflexivity|..].
  - intros record Hr _.
    assert (Hrec : Some record = Some {| RecordContext := DemoAuth.context_a; Token := "token-a" |}) by (rewrite <- Hr; vm_compute; reflexivity).
    injection Hrec as ->. split; [reflexivity|vm_compute; reflexivity].
  - exists record. split; [exact H1|]. split; [exact H2|]. split; [symmetry; exact H3|exact H4].
Defined.
