(* ===== verification/ConfigurationSync.v ===== *)
(** * Synchronising a client's configuration

    [internal/server/configuration_sync.go, configuration_sync_cache.go]: one
    request declares all proxies and forwards of a session.  The forward
    registry and the proxy registry prepare their generations separately and
    publish them together; answers are kept, so that a repeated request gets
    the answer it had. *)

From S2P Require Import Prelude GoTime NetAddr ControlFrame Authentication ConfigVNet ConfigUDP UdpLimiter ConfigForward LinkBroker ForwardRegistry ProxyPlane ConfigProxy ProxyRegistry ProxySystem ProxyPermissions.

Local Open Scope Z_scope.

(** ** Messages *)

Record SyncConfiguration := {
  SyncRevision : Z;
  SyncProxies : list ProxyDeclaration;
  SyncForwards : list ForwardDeclaration
}.

Inductive ConfigurationResourceKind := ConfigurationResourceNone | ConfigurationResourceProxy | ConfigurationResourceForward.

(** The codes of the two registries are carried over; the others belong to the
    synchronisation itself. *)
Inductive ConfigurationErrorCode :=
| ProxyCode (code : ErrorCode)
| ForwardCode (code : ForwardErrorCode)
| ConfigurationErrorProxyTypeNotAllowed
| ConfigurationErrorForwardTypeNotAllowed
| ConfigurationErrorInvalidRequest.

Record ConfigurationError := {
  ConfigurationCode : ConfigurationErrorCode;
  ResourceKind : ConfigurationResourceKind;
  ResourceName : string;
  Retryable : bool
}.

(** An applied [SyncConfigurationResult]. *)
Record SyncConfigurationResult := {
  AppliedRevision : Z;
  AppliedProxies : list ProxyResult;
  AppliedForwards : list ForwardResult
}.

Definition configurationProxyError (source : option RegistryError) : option ConfigurationError :=
  (λ e, {| ConfigurationCode := ProxyCode (ErrCode e); ResourceKind := ConfigurationResourceProxy;
           ResourceName := ErrProxyName e; Retryable := ErrRetryable e |}) <$> source.

(** [forwardError] of the forward registry never marks an error as
    retryable. *)
Definition configurationForwardError (source : ForwardRegistry.ForwardError) : ConfigurationError :=
  {| ConfigurationCode := ForwardCode (Code source); ResourceKind := ConfigurationResourceForward;
     ResourceName := ErrorForward source; Retryable := false |}.

Definition invalidConfigurationRequest : ConfigurationError :=
  {| ConfigurationCode := ConfigurationErrorInvalidRequest; ResourceKind := ConfigurationResourceNone; ResourceName := "";
     Retryable := false |}.

(** ** Checks that need no registry *)

Definition validateConfigurationNames (request : SyncConfiguration) : option ConfigurationError :=
  if bool_decide (SyncForwards request = []) || bool_decide (SyncProxies request = []) then None
  else
    let names : gset string := list_to_set (DeclaredName <$> SyncProxies request) in
    (λ d, configurationForwardError (forwardError ForwardErrorInvalidForward (DeclarationName d))) <$>
      head (filter (λ d, DeclarationName d ∈ names) (SyncForwards request)).

Definition proxy_capability (t : ProxyType) : string :=
  match t with ProxyTypeTCP => "tcp" | ProxyTypeUDP => "udp" | ProxyTypeHTTP => "http" | ProxyTypeOther name => name end.
Definition forward_capability (t : ForwardType) : string :=
  match t with ForwardTypeUDP => "udp_forward" | _ => "tcp_forward" end.

Definition validateConfigurationCapabilities (request : SyncConfiguration) (capabilities : list string) : option ConfigurationError :=
  match head (filter (λ d, proxy_capability (DeclaredType d) ∉ capabilities) (SyncProxies request)) with
  | Some d => Some {| ConfigurationCode := ConfigurationErrorProxyTypeNotAllowed; ResourceKind := ConfigurationResourceProxy;
                      ResourceName := DeclaredName d; Retryable := false |}
  | None =>
    (λ d, {| ConfigurationCode := ConfigurationErrorForwardTypeNotAllowed; ResourceKind := ConfigurationResourceForward;
             ResourceName := DeclarationName d; Retryable := false |}) <$>
      head (filter (λ d, forward_capability (DeclarationType d) ∉ capabilities) (SyncForwards request))
  end.

Definition count_forwards (t : ForwardType) (ds : list ForwardDeclaration) : Z :=
  Z.of_nat (length (filter (λ d, DeclarationType d = t) ds)).

Definition validateGovernedForwardLimits (clientID : string) (declarations : list ForwardDeclaration) (c : ProxyServerConfig) :
    option ConfigurationError :=
  match GovernedProxyClients c !! clientID with
  | None => Some (configurationForwardError (forwardError ForwardErrorInvalidRequest ""))
  | Some governed =>
    let l := ForwardLimits governed in
    if exceeds (ForwardMaxTotal l) (Z.of_nat (length declarations)) || exceeds (ForwardMaxTCP l) (count_forwards ForwardTypeTCP declarations) ||
       exceeds (ForwardMaxUDP l) (count_forwards ForwardTypeUDP declarations)
    then Some (configurationForwardError (forwardError ForwardErrorLimitExceeded "")) else None
  end.

(** ** The answers kept *)

Definition maxCachedConfigurationRequests : nat := 16.

Record configurationRequestRecord := {
  record_revision : Z;
  record_fingerprint : digest;
  record_result : SyncConfigurationResult
}.

Record configurationSyncState := {
  state_revision : Z;
  state_fingerprint : digest;
  state_result : SyncConfigurationResult;
  state_requests : gmap string configurationRequestRecord;
  requestOrder : list string
}.

Abbreviation SyncStates := (gmap string configurationSyncState).

Definition configurationSyncKey (clientID sessionID : string) : string :=
  clientID +:+ String (Ascii.ascii_of_nat 0) EmptyString +:+ sessionID.

(** [fp] is the fingerprint of the request, [None] when it cannot be encoded.
    [Ok None] lets the request proceed. *)
Definition checkConfigurationSync (clientID sessionID requestID : string) (fp : option digest) (request : SyncConfiguration)
    (states : SyncStates) : result ConfigurationError (option SyncConfigurationResult) :=
  if is_some (ValidateRequestID requestID) then Err invalidConfigurationRequest
  else
    match fp with
    | None => Err invalidConfigurationRequest
    | Some fp =>
      match states !! configurationSyncKey clientID sessionID with
      | None => Ok None
      | Some state =>
        match state_requests state !! requestID with
        | Some cached =>
          if (record_revision cached =? SyncRevision request) && bool_decide (record_fingerprint cached = fp)
          then Ok (Some (record_result cached)) else Err invalidConfigurationRequest
        | None =>
          if (SyncRevision request =? 0) || (SyncRevision request <? state_revision state) then Err invalidConfigurationRequest
          else if SyncRevision request =? state_revision state then
            if bool_decide (state_fingerprint state = fp) then Ok (Some (state_result state)) else Err invalidConfigurationRequest
          else Ok None
        end
      end
    end.

Definition cacheConfigurationSync (clientID sessionID requestID : string) (revision : Z) (fp : digest)
    (res : SyncConfigurationResult) (states : SyncStates) : SyncStates :=
  let key := configurationSyncKey clientID sessionID in
  let requests := match states !! key with Some state => state_requests state | None => ∅ end in
  let order := match states !! key with Some state => requestOrder state | None => [] end in
  let '(requests, order) :=
    if (length order =? maxCachedConfigurationRequests)%nat then
      match order with oldest :: rest => (delete oldest requests, rest) | [] => (requests, order) end
    else (requests, order) in
  <[key := {| state_revision := revision; state_fingerprint := fp; state_result := res;
              state_requests := <[requestID := {| record_revision := revision; record_fingerprint := fp; record_result := res |}]> requests;
              requestOrder := order ++ [requestID] |}]> states.

Definition clearConfigurationSync (clientID sessionID : string) (states : SyncStates) : SyncStates :=
  delete (configurationSyncKey clientID sessionID) states.

(** ** Publication *)

Abbreviation ForwardReg := ForwardRegistry.Registry.
Abbreviation ProxyReg := ProxyRegistry.Registry.

(** [CommitWith] of the forward registry around a companion that works on other
    state; the companion runs only when the prepared generation still stands. *)
Definition CommitAround {A} (policy : Context → ForwardDeclaration → bool * bool) (companion : A → A * bool)
    (t : SyncTransaction) (fr : ForwardReg) (a : A) : bool * SyncTransaction * ForwardReg * A :=
  match CommitWith policy None t fr with
  | (false, t', fr') => (false, t', fr', a)
  | (true, _, _) =>
    let '(a', published) := companion a in
    let '(ok, t', fr') := CommitWith policy (Some published) t fr in
    (ok, t', fr', a')
  end.

(** What the proxy registry has come to when it is about to publish. *)
Inductive ProxyOutcome :=
| ProxyRefused (answer : SyncResult)
| ProxyCached (answer : SyncResult)
| ProxyPrepared (pr : Preparation).

Section publish.
Context (ρf : go_range string ForwardRegistry.binding) (ρ : go_range string ProxyPlane.binding) (ρe : go_range Z Endpoint).

(** [publishSync] as a companion; what it retires is kept for later. *)
Definition publish_companion (pr : Preparation) (a : ProxyReg * option (SyncResult * option Retirement)) :
    (ProxyReg * option (SyncResult * option Retirement)) * bool :=
  let '(res, retired, r) := publishSync ρ ρe pr a.1 in
  ((r, Some (res, retired)), bool_decide (Status res = SyncStatusApplied)).

(** [SyncCoordinated] from the moment the proxy registry publishes, with
    [CommitWith] of a forward transaction as the barrier. *)
Definition coordinate (policy : Context → ForwardDeclaration → bool * bool) (t : SyncTransaction) (outcome : ProxyOutcome)
    (fr : ForwardReg) (r : ProxyReg) : SyncResult * option Retirement * SyncTransaction * ForwardReg * ProxyReg :=
  match outcome with
  | ProxyRefused answer => (answer, None, t, fr, r)
  | ProxyCached answer =>
    let '(ok, t', fr', _) := CommitAround policy (λ u : unit, (u, true)) t fr tt in
    (coordinateCachedSync answer (Some ok), None, t', fr', r)
  | ProxyPrepared pr =>
    let '(ok, t', fr', (r', published)) := CommitAround policy (publish_companion pr) t fr (r, None) in
    let res := default zero_result (fst <$> published) in
    (if negb ok && negb (bool_decide (Status res = SyncStatusRejected))
     then rejectedSyncResult (RequestRevision (pr_request pr)) ErrorSessionInactive "" else res,
     published ≫= snd, t', fr', r')
  end.

(** The end of [synchronizeConfiguration]: the answer, and the forward bindings
    whose links are cancelled. *)
Inductive SyncAnswer :=
| SyncApplied (res : SyncConfigurationResult)
| SyncRejected (rejection : option ConfigurationError)
| SyncFailed.

Record Service := {
  forwards : ForwardReg;
  proxies : ProxyReg;
  syncStates : SyncStates
}.

Definition conclude (policy : Context → ForwardDeclaration → bool * bool) (clientID sessionID requestID : string) (request : SyncConfiguration)
    (fp : digest) (t : SyncTransaction) (outcome : ProxyOutcome) (s : Service) : Service * SyncAnswer * list string :=
  let '(res, _, t', fr, r) := coordinate policy t outcome (forwards s) (proxies s) in
  match Status res with
  | SyncStatusApplied =>
    let answer := {| AppliedRevision := SyncRevision request; AppliedProxies := ResultProxies res; AppliedForwards := tx_results t' |} in
    ({| forwards := fr; proxies := r;
        syncStates := cacheConfigurationSync clientID sessionID requestID (SyncRevision request) fp answer (syncStates s) |},
     SyncApplied answer, (Retire ρf t' fr).1)
  | SyncStatusRejected =>
    ({| forwards := fr; proxies := r; syncStates := syncStates s |}, SyncRejected (configurationProxyError (ResultError res)), (Retire ρf t' fr).1)
  | SyncStatusUnset => ({| forwards := fr; proxies := r; syncStates := syncStates s |}, SyncFailed, (Retire ρf t' fr).1)
  end.

(** The authenticated scope of a control connection. *)
Record configurationSyncSession := {
  sync_client : string;
  sync_session : string;
  sync_writer : option nat;
  sync_authentication : Context;
  sync_capabilities : list string
}.

(** [synchronizeConfiguration] up to the preparation of the forwards: an answer,
    or the transaction to publish. *)
Inductive Started :=
| Answered (answer : SyncAnswer)
| Begun (fp : digest) (t : SyncTransaction).

Definition start_sync `{NetipText} (fingerprint_of : SyncConfiguration → option digest)
    (policy : Context → ForwardDeclaration → bool * bool) (udpConfig : UDPConfig) (c : ProxyServerConfig) (ids : list (option string))
    (session : configurationSyncSession) (requestID : string) (request : SyncConfiguration) (s : Service) : Started * Service :=
  let mode := Mode (sync_authentication session) in
  if bool_decide (mode = ModeManaged) then (Answered SyncFailed, s)
  else if bool_decide (SyncProxies request = []) && bool_decide (SyncForwards request = []) then (Answered SyncFailed, s)
  else
    match checkConfigurationSync (sync_client session) (sync_session session) requestID (fingerprint_of request) request (syncStates s) with
    | Err e => (Answered (SyncRejected (Some e)), s)
    | Ok (Some res) => (Answered (SyncApplied res), s)
    | Ok None =>
      let fp := default [] (fingerprint_of request) in
      match validateConfigurationNames request with
      | Some e => (Answered (SyncRejected (Some e)), s)
      | None =>
        match validateConfigurationCapabilities request (sync_capabilities session) with
        | Some e => (Answered (SyncRejected (Some e)), s)
        | None =>
          let governed := bool_decide (mode = ModeGoverned) in
          match (if governed then validateGovernedForwardLimits (sync_client session) (SyncForwards request) c else None) with
          | Some e => (Answered (SyncRejected (Some e)), s)
          | None =>
            match (if governed then validateGovernedProxies (sync_client session)
                                      {| RequestRevision := SyncRevision request; RequestProxies := SyncProxies request |} c else None) with
            | Some (code, name) =>
              (Answered (SyncRejected (configurationProxyError (ResultError (rejectedSyncResult (SyncRevision request) code name)))), s)
            | None =>
              let limit := if governed
                           then match GovernedProxyClients c !! sync_client session with
                                | Some g => ForwardMaxActiveLinks (ForwardLimits g) | None => 0 end
                           else 0 in
              match BeginSync policy udpConfig (sync_client session) (sync_session session) (sync_writer session)
                      (sync_authentication session) limit ids (SyncForwards request) (forwards s) with
              | (Err e, fr) =>
                (Answered (SyncRejected (Some (configurationForwardError e))),
                 {| forwards := fr; proxies := proxies s; syncStates := syncStates s |})
              | (Ok t, fr) => (Begun fp t, {| forwards := fr; proxies := proxies s; syncStates := syncStates s |})
              end
            end
          end
        end
      end
    end.
End publish.
