(* ===== verification/ConfigurationAtomic.v ===== *)
(** * Synchronising a client's configuration: all or nothing, and once *)

From S2P Require Import Prelude GoTime NetAddr ControlFrame Authentication ConfigVNet ConfigUDP UdpLimiter ConfigForward LinkBroker ForwardRegistry ProxyPlane ConfigProxy ProxyRegistry ProxySystem ProxyPermissions ProxyExamples ConfigurationSync.

Local Open Scope Z_scope.

(** ** Two registries *)

Lemma CommitWith_true policy t fr : CommitWith policy (Some true) t fr = CommitWith policy None t fr.
Proof. done. Qed.

Lemma CommitAround_spec {A} policy (companion : A → A * bool) t fr (a : A) ok t' fr' a' :
  CommitAround policy companion t fr a = (ok, t', fr', a') →
  (ok = true ∧ companion a = (a', true) ∧ CommitWith policy None t fr = (true, t', fr')) ∨
  (ok = false ∧ fr' = fr ∧ tx_retire t' = tx_retire t ∧ (a' = a ∨ companion a = (a', false))).
Proof.
  unfold CommitAround. destruct (CommitWith policy None t fr) as [[[] t1] fr1] eqn:E.
  - destruct (companion a) as [a1 []] eqn:Ec.
    + rewrite CommitWith_true, E. intros [= <- <- <- <-]. by left.
    + intros Ex. right. unfold CommitWith in E, Ex. destruct (negb (tx_live t)); [done|]. destruct (_ || _); [done|].
      destruct (negb (bool_decide _)); [done|]. rewrite bool_decide_eq_true_2 in Ex by done. injection Ex as <- <- <- <-. by auto.
  - intros [= <- <- <- <-]. right. unfold CommitWith in E. destruct (negb (tx_live t)); [injection E as <- <-; by auto|].
    destruct (_ || _); [injection E as <- <-; by auto|]. destruct (negb (bool_decide _)); [injection E as <- <-; by auto|].
    by rewrite bool_decide_eq_false_2 in E.
Qed.

(** What a published forward generation looks like. *)
Definition forwards_exactly (policy : Context → ForwardDeclaration → bool * bool) (client session : string) (auth : Context)
    (declarations : list ForwardDeclaration) (fr : ForwardReg) : Prop :=
  (∀ d, d ∈ declarations → ∃ b, ForwardRegistry.bindingLocked client session (DeclarationName d) fr = Some b ∧ declaration b = d ∧
     ForwardRegistry.authentication b = auth ∧ policy auth d = (true, is_active b)) ∧
  (∀ name b, ForwardRegistry.bindingLocked client session name fr = Some b → declaration b ∈ declarations).

Lemma committed_exactly `{NetipText} policy0 policy udp client session w auth limit ids declarations fr0 t fr1 fr t' fr' :
  BeginSync policy0 udp client session w auth limit ids declarations fr0 = (Ok t, fr1) →
  CommitWith policy None t fr = (true, t', fr') → allocated fr →
  forwards_exactly policy client session auth declarations fr' ∧
  (∀ c s name, (c, s) ≠ (client, session) → ForwardRegistry.bindingLocked c s name fr' = ForwardRegistry.bindingLocked c s name fr).
Proof.
  intros Eb Ec Hr. unfold BeginSync, Validate in Eb. destruct (_ <? _); [done|].
  destruct (ForwardRegistry.validate_declarations _ _ _ _) eqn:Ev; [done|]. apply validate_declarations_names in Ev as [Hnd _].
  destruct (registry_closed fr0); [done|]. destruct (reserve _ _) as [a0 r0]. 
  destruct (prepare _ _ _ _ _ _ _ _ _ _ _) as [[next results]|] eqn:Ep; [|done]. injection Eb as <- <-.
  destruct (commit_spec _ _ _ _ _ _ _ Ec Hr) as (_ & _ & _ & _ & _ & Hcur & _ & a & _ & _ & Es & Ea & Hkeep).
  cbn [tx_next tx_session] in *. destruct (prepare_spec _ _ _ _ _ _ _ _ _ _ _ _ _ Ep Hnd) as (Hin & Hback & _).
  assert (Hb : ∀ name, ForwardRegistry.bindingLocked client session name fr' = next !! name).
  { intros name. unfold ForwardRegistry.bindingLocked. rewrite Es, lookup_insert_eq. cbn. by rewrite Ea. }
  split; [split|].
  - intros d Hd. destruct (Hin _ Hd) as (b & Hbb & Hdb & Hau). exists b. rewrite Hb. split_and!; try done.
    pose proof (Hcur _ _ Hbb) as Hp. unfold still_current in Hp. by rewrite Hdb, Hau in Hp.
  - intros name b. rewrite Hb. intros Hn. by destruct (Hback _ _ Hn) as [?|?].
  - intros c s name Hne. unfold ForwardRegistry.bindingLocked. rewrite Es, lookup_insert_ne by congruence.
    destruct (ForwardRegistry.sessions fr !! (c, s)) as [a'|] eqn:Hs; [|done]. cbn. rewrite Hkeep; [done|].
    apply elem_of_dom. by eapply Hr.
Qed.

Section atomic.
Context `{NetipText}.
Context (fingerprint_of : list ProxyDeclaration → option digest).
Context (ρf : go_range string ForwardRegistry.binding) (ρ : go_range string ProxyPlane.binding) (ρe : go_range Z Endpoint) (ρg : go_range Z mirrorGroup).

(** The three kinds of proxies of a session are what was declared. *)
Definition proxies_exactly (client session : string) (ds : list ProxyDeclaration) (r : ProxyReg) : Prop :=
  declared_exactly session (of_type ProxyTypeTCP ds) (client_proxies client (tcp r)) (routed (tcp r)) ∧
  declared_exactly session (of_type ProxyTypeUDP ds) (client_proxies client (udp r)) (routed (udp r)) ∧
  declared_exactly session (of_type ProxyTypeHTTP ds) (client_http client r) (λ b, httpDomains r !! domain_of b = Some b).

Lemma coordinate_prepared policy t pr fr r res retired t' fr' r' :
  coordinate ρ ρe policy t (ProxyPrepared pr) fr r = (res, retired, t', fr', r') →
  (Status res = SyncStatusApplied ∧ publishSync ρ ρe pr r = (res, retired, r') ∧ CommitWith policy None t fr = (true, t', fr')) ∨
  (Status res = SyncStatusRejected ∧ fr' = fr ∧ r' = r ∧ tx_retire t' = tx_retire t).
Proof using Type.
  cbn [coordinate]. destruct (CommitAround policy _ t fr _) as [[[ok t1] fr1] [r1 published]] eqn:E.
  intros [= <- <- <- <- <-]. pose proof (commit_cases ρ ρe pr None r) as Hc. cbn [commitSync] in Hc.
  unfold publish_companion in E. destruct (publishSync ρ ρe pr r) as [[res ret] r'] eqn:Ep. specialize (Hc _ _ _ eq_refl).
  apply CommitAround_spec in E as [(-> & Eq & Ec)|(-> & -> & Ht & Eq)]; cbn [fst] in Eq; rewrite ?Ep in Eq.
  - injection Eq as <- <- Hs%bool_decide_eq_true. left. cbn. by rewrite Hs.
  - right. destruct Eq as [[= -> ->]|[= <- <- Hs%bool_decide_eq_false]]; [done|].
    destruct Hc as [(? & _)|(Hrej & -> & ->)]; [done|]. cbn. rewrite Hrej. by rewrite bool_decide_eq_true_2.
Qed.

Lemma cache_lookup client session requestID revision fp res states :
  ∃ state, cacheConfigurationSync client session requestID revision fp res states !! configurationSyncKey client session = Some state ∧
    state_requests state !! requestID = Some {| record_revision := revision; record_fingerprint := fp; record_result := res |}.
Proof using Type.
  unfold cacheConfigurationSync. repeat case_match; eexists; (split; [apply lookup_insert_eq|]); cbn; apply lookup_insert_eq.
Qed.

(** C30: A configuration is applied as a whole or not at all.  Whatever happened
    since a session's forwards and proxies were prepared, replacements of the
    mirror groups and of the reservations included, the final step of a
    synchronisation either publishes both generations, so that the proxies and
    the forwards of the session are exactly the declarations of the request,
    every forward is as active as the policy says at that moment, no other
    session's forward changes, and repeating the request gives the same answer;
    or it changes neither registry, keeps no answer and cancels no link. *)
Theorem configuration_sync_atomic http https w i f supply seen pr policy0 policy udp wr auth limit ids request fr0 t fr1 requestID fp s s' answer cancelled :
  reachable fingerprint_of ρ ρe ρg http https w → flights w !! i = Some f → prepare_flight f supply seen = Ok pr →
  RequestProxies (fl_request f) = SyncProxies request →
  BeginSync policy0 udp (fl_client f) (fl_session f) wr auth limit ids (SyncForwards request) fr0 = (Ok t, fr1) →
  proxies s = reg w → allocated (forwards s) → ValidateRequestID requestID = None →
  conclude ρf ρ ρe policy (fl_client f) (fl_session f) requestID request fp t (ProxyPrepared pr) s = (s', answer, cancelled) →
  match answer with
  | SyncApplied res =>
    proxies_exactly (fl_client f) (fl_session f) (SyncProxies request) (proxies s') ∧
    forwards_exactly policy (fl_client f) (fl_session f) auth (SyncForwards request) (forwards s') ∧
    (∀ c sid name, (c, sid) ≠ (fl_client f, fl_session f) →
       ForwardRegistry.bindingLocked c sid name (forwards s') = ForwardRegistry.bindingLocked c sid name (forwards s)) ∧
    checkConfigurationSync (fl_client f) (fl_session f) requestID (Some fp) request (syncStates s') = Ok (Some res)
  | _ => s' = s ∧ cancelled = []
  end.
Proof using Type.
  intros Hw Hf Epr Eds Eb Es Hr Hid E. unfold conclude in E.
  destruct (coordinate ρ ρe policy t (ProxyPrepared pr) (forwards s) (proxies s)) as [[[[res ret] t'] fr'] r'] eqn:Ec.
  destruct (coordinate_prepared _ _ _ _ _ _ _ _ _ _ Ec) as [(Hst & Ep & Ecm)|(Hst & -> & -> & Ht)]; rewrite Hst in E.
  - injection E as <- <- <-. cbn [proxies forwards syncStates]. rewrite Es in Ep.
    destruct (applied_exactly fingerprint_of ρ ρe ρg _ _ _ Hw _ _ Hf _ _ _ Epr None _ _ _ Ep Hst) as (H1 & H2 & H3). rewrite Eds in H1, H2, H3.
    destruct (committed_exactly _ _ _ _ _ _ _ _ _ _ _ _ _ _ _ _ Eb Ecm Hr) as [Hfw Hoth]. split_and!; try done.
    unfold checkConfigurationSync. rewrite Hid. cbn [is_some].
    edestruct (cache_lookup (fl_client f) (fl_session f)) as (st & -> & ->). cbn. rewrite Z.eqb_refl. by rewrite bool_decide_eq_true_2.
  - assert (Hret : tx_retire t = false).
    { unfold BeginSync in Eb. destruct (Validate _ _ _); [done|]. destruct (registry_closed fr0); [done|]. destruct (reserve _ _).
      destruct (prepare _ _ _ _ _ _ _ _ _ _ _) as [[??]|]; [|done]. by injection Eb as <- <-. }
    injection E as <- <- <-. unfold Retire. rewrite Ht, Hret. split; [by destruct s|done].
Qed.
End atomic.

(** ** The answers kept *)

(** The requests a session had applied, oldest first; each was admitted by
    [checkConfigurationSync] before its answer was kept. *)
Inductive applied_requests (client session : string) : SyncStates → list (string * configurationRequestRecord) → Prop :=
| no_requests states : states !! configurationSyncKey client session = None → applied_requests client session states []
| one_request states l requestID fp request res :
    applied_requests client session states l →
    checkConfigurationSync client session requestID (Some fp) request states = Ok None →
    applied_requests client session (cacheConfigurationSync client session requestID (SyncRevision request) fp res states)
      (l ++ [(requestID, {| record_revision := SyncRevision request; record_fingerprint := fp; record_result := res |})]).

(** The latest sixteen. *)
Definition kept (l : list (string * configurationRequestRecord)) : list (string * configurationRequestRecord) :=
  drop (length l - maxCachedConfigurationRequests) l.

Record cache_state (state : configurationSyncState) (l : list (string * configurationRequestRecord)) : Prop := {
  cs_order : requestOrder state = (kept l).*1;
  cs_unique : NoDup (kept l).*1;
  cs_requests id rec : state_requests state !! id = Some rec ↔ (id, rec) ∈ kept l;
  cs_last : ∃ x, last l = Some x ∧ state_revision state = record_revision x.2 ∧ state_fingerprint state = record_fingerprint x.2 ∧
                 state_result state = record_result x.2;
  cs_increasing : ∀ i j x y, (i < j)%nat → l !! i = Some x → l !! j = Some y → record_revision x.2 < record_revision y.2
}.

Lemma check_admitted client session requestID fp request states :
  checkConfigurationSync client session requestID (Some fp) request states = Ok None →
  match states !! configurationSyncKey client session with
  | None => True
  | Some state => state_requests state !! requestID = None ∧ state_revision state < SyncRevision request
  end.
Proof.
  unfold checkConfigurationSync. destruct (is_some _); [done|]. destruct (states !! _) as [state|]; [|done].
  destruct (state_requests state !! requestID); [by case_match|].
  destruct (Z.eqb_spec (SyncRevision request) 0); [done|]. destruct (Z.ltb_spec (SyncRevision request) (state_revision state)); [done|].
  cbn [orb]. destruct (Z.eqb_spec (SyncRevision request) (state_revision state)); [by case_bool_decide|]. intros _. split; [done|lia].
Qed.

Lemma kept_snoc l x :
  kept (l ++ [x]) = (if (length (kept l) =? maxCachedConfigurationRequests)%nat then drop 1 (kept l) else kept l) ++ [x].
Proof.
  unfold kept, maxCachedConfigurationRequests. rewrite length_app, length_drop. cbn [length].
  destruct (Nat.eqb_spec (length l - (length l - 16)) 16) as [E|E].
  - rewrite drop_drop, drop_app_le by lia. do 2 f_equal. lia.
  - rewrite drop_app_le by lia. do 2 f_equal. lia.
Qed.

Lemma last_increasing l x y i :
  (∀ i j x y, (i < j)%nat → l !! i = Some x → l !! j = Some y → record_revision (x : string * configurationRequestRecord).2 < record_revision y.2) →
  last l = Some x → l !! i = Some y → record_revision y.2 <= record_revision x.2.
Proof.
  intros Hinc Hl Hy. rewrite last_lookup in Hl. pose proof (lookup_lt_Some _ _ _ Hy).
  destruct (decide (i = pred (length l))) as [->|]; [rewrite Hl in Hy; injection Hy as <-; lia|].
  pose proof (Hinc i (pred (length l)) _ _ ltac:(lia) Hy Hl). lia.
Qed.

Lemma applied_cache client session states l :
  applied_requests client session states l →
  match states !! configurationSyncKey client session with None => l = [] | Some state => cache_state state l end.
Proof.
  induction 1 as [states E|states l id fp request res Hl IH Hc]; [by rewrite E|].
  pose proof (check_admitted _ _ _ _ _ _ Hc) as Ha. unfold cacheConfigurationSync. clear Hc.
  set (x := (id, {| record_revision := SyncRevision request; record_fingerprint := fp; record_result := res |})).
  destruct (states !! configurationSyncKey client session) as [state|] eqn:Es.
  - destruct IH as [Ho Hu Hq (y & Hlast & Er & _) Hinc], Ha as [Hid Hrev].
    assert (Hnew : id ∉ (kept l).*1).
    { intros ([id' rec] & -> & Hin)%list_elem_of_fmap. apply Hq in Hin. cbn in Hid. by rewrite Hid in Hin. }
    assert (Hinc' : ∀ i j a b, (i < j)%nat → (l ++ [x]) !! i = Some a → (l ++ [x]) !! j = Some b → record_revision a.2 < record_revision b.2).
    { intros i j a b Hij Hi [Hj|[Hj1 Hj]]%lookup_app_Some.
      - rewrite lookup_app_l in Hi by (apply lookup_lt_Some in Hj; lia). by eapply Hinc.
      - apply list_lookup_singleton_Some in Hj as [Hj <-]. rewrite lookup_app_l in Hi by lia.
        pose proof (last_increasing _ _ _ _ Hinc Hlast Hi). cbn. lia. }
    assert (Hlen : length (requestOrder state) = length (kept l)) by (by rewrite Ho, length_fmap).
    rewrite Hlen, Ho. pose proof (kept_snoc l x) as Ek. destruct (length (kept l) =? _)%nat eqn:E16.
    + apply Nat.eqb_eq in E16. destruct (kept l) as [|[old rec] rest] eqn:Ekl; [done|]. cbn [fmap list_fmap fst] in *. rewrite lookup_insert_eq.
      apply NoDup_cons in Hu as [Hold Hu]. apply not_elem_of_cons in Hnew as [Hne Hnew].
      constructor; cbn [requestOrder state_requests state_revision state_fingerprint state_result].
      * rewrite Ek. cbn. by rewrite fmap_app.
      * rewrite Ek. cbn. rewrite fmap_app. apply NoDup_app. split_and!; [done| |apply NoDup_singleton].
        intros z Hz ->%list_elem_of_singleton. done.
      * intros id' rec'. rewrite Ek. cbn. rewrite elem_of_app, list_elem_of_singleton, lookup_insert_Some, lookup_delete_Some, Hq, elem_of_cons.
        split; [intros [[<- <-]|(Hne' & Hne2 & [[= -> _]|Hin])]; [by right|done|by left]|].
        intros [Hin|[= -> ->]]; [right|by left]. assert (id' ∈ rest.*1) by (apply list_elem_of_fmap; by exists (id', rec')).
        split_and!; [congruence|congruence|by right].
      * exists x. by rewrite last_snoc.
      * done.
    + rewrite lookup_insert_eq. constructor; cbn [requestOrder state_requests state_revision state_fingerprint state_result].
      * rewrite Ek. by rewrite fmap_app.
      * rewrite Ek, fmap_app. apply NoDup_app. split_and!; [done| |apply NoDup_singleton].
        intros z Hz ->%list_elem_of_singleton. done.
      * intros id' rec'. rewrite Ek, elem_of_app, list_elem_of_singleton, lookup_insert_Some, Hq.
        split; [intros [[<- <-]|[_ Hin]]; [by right|by left]|].
        intros [Hin|[= -> ->]]; [right|by left]. split; [|done]. intros ->. apply Hnew, list_elem_of_fmap. by exists (id', rec').
      * exists x. by rewrite last_snoc.
      * done.
  - subst l. cbn [length Nat.eqb maxCachedConfigurationRequests]. rewrite lookup_insert_eq. constructor; cbn.
    + done.
    + apply NoDup_singleton.
    + intros id' rec'. rewrite lookup_insert_Some, lookup_empty, list_elem_of_singleton. naive_solver.
    + by exists x.
    + intros [|[]] [|[]]; cbn; intros; try lia; done.
Qed.

(** A repeated request is answered, not applied again.  After any sequence of
    applied requests, repeating one of the latest sixteen under its identifier
    with the same content gives the answer it had, with other content it is
    refused; a request under a new identifier proceeds only with a revision
    above all applied ones, and one that repeats the latest revision and
    content gets the latest answer.  No more than sixteen answers are kept. *)
Theorem requests_applied_once client session states l id fp request :
  applied_requests client session states l → ValidateRequestID id = None →
  (∀ rec, (id, rec) ∈ kept l →
     checkConfigurationSync client session id (Some fp) request states =
       if (record_revision rec =? SyncRevision request) && bool_decide (record_fingerprint rec = fp)
       then Ok (Some (record_result rec)) else Err invalidConfigurationRequest) ∧
  (id ∉ (kept l).*1 → ∀ last_id rec, last l = Some (last_id, rec) →
     checkConfigurationSync client session id (Some fp) request states =
       if (SyncRevision request =? 0) || (SyncRevision request <? record_revision rec) then Err invalidConfigurationRequest
       else if SyncRevision request =? record_revision rec then
         if bool_decide (record_fingerprint rec = fp) then Ok (Some (record_result rec)) else Err invalidConfigurationRequest
       else Ok None) ∧
  (∀ i x y last_id rec, last l = Some (last_id, rec) → l !! i = Some (x, y) → record_revision y <= record_revision rec) ∧
  (∀ state, states !! configurationSyncKey client session = Some state → (size (state_requests state) <= maxCachedConfigurationRequests)%nat).
Proof.
  intros Hl%applied_cache Hid. unfold checkConfigurationSync. rewrite Hid. cbn [is_some].
  destruct (states !! configurationSyncKey client session) as [state|]; cycle 1.
  { subst l. split_and!; [by intros rec ?%elem_of_nil|done..]. }
  destruct Hl as [Ho Hu Hq (y & Hlast & E1 & E2 & E3) Hinc]. split_and!.
  - intros rec Hin%Hq. by rewrite Hin.
  - intros Hn last_id rec Hlast'. rewrite Hlast in Hlast'. injection Hlast' as ->. cbn in E1, E2, E3. rewrite E1, E2, E3.
    destruct (state_requests state !! id) as [rec'|] eqn:E; [|done]. destruct Hn. apply list_elem_of_fmap. exists (id, rec'). by rewrite <- Hq.
  - intros i x z last_id rec Hlast' Hi. exact (last_increasing l _ _ _ Hinc Hlast' Hi).
  - intros state' [= <-].
    assert (Hsub : dom (state_requests state) ⊆ list_to_set (kept l).*1).
    { intros z [rec Hz]%elem_of_dom. apply elem_of_list_to_set, list_elem_of_fmap. exists (z, rec). by rewrite <- Hq. }
    apply subseteq_size in Hsub. rewrite size_dom, size_list_to_set, length_fmap in Hsub by done.
    unfold kept in Hsub. rewrite length_drop in Hsub. lia.
Qed.

(** ** A run *)

Module DemoSync.
Definition everything (auth : Context) (d : ForwardDeclaration) : bool * bool := (true, true).
Definition ssh : ForwardDeclaration := {| DeclarationName := "ssh"; DeclarationType := ForwardTypeTCP; TargetIP := "10.0.0.1"; TargetPort := 22 |}.
Definition request : SyncConfiguration :=
  {| SyncRevision := 1; SyncProxies := RequestProxies DemoProxy.request; SyncForwards := [ssh] |}.
Definition auth : Context := DemoProxy.context ModeShared "a".
Definition begun := BeginSync (H := Dotted.text) everything zero_UDPConfig "a" "s1" (Some 1%nat) auth 0 [Some "f1"] [ssh] (New zero_UDPConfig).
Definition no_transaction : SyncTransaction :=
  {| tx_live := false; tx_session := ("", ""); tx_next := ∅; tx_previous := 0; tx_results := []; tx_retire := false |}.
Definition tx : SyncTransaction := match begun.1 with Ok t => t | Err _ => no_transaction end.
Definition service : Service := {| forwards := begun.2; proxies := reg DemoProxy.in_flight; syncStates := ∅ |}.
Definition ended := conclude any_range any_range any_range everything "a" "s1" "r1" request [x07] tx (ProxyPrepared DemoProxy.preparation) service.
Definition answer : SyncConfigurationResult :=
  match ended.1.2 with SyncApplied res => res | _ => {| AppliedRevision := 0; AppliedProxies := []; AppliedForwards := [] |} end.

Lemma service_allocated : allocated (forwards service).
Proof.
  apply (proj1 (begin_live (H := Dotted.text) everything zero_UDPConfig "a" "s1" (Some 1%nat) auth 0 [Some "f1"] [ssh] (New zero_UDPConfig)
    begun.1 begun.2 (surjective_pairing _) (New_allocated _))).
Qed.
End DemoSync.

Lemma configuration_sync_atomic_witness :
  AppliedRevision DemoSync.answer = 1 ∧
  forwards_exactly DemoSync.everything "a" "s1" DemoSync.auth [DemoSync.ssh] (forwards DemoSync.ended.1.1) ∧
  proxies_exactly "a" "s1" (RequestProxies DemoProxy.request) (proxies DemoSync.ended.1.1).
Proof.
  split; [vm_compute; reflexivity|].
  assert (Eb : DemoSync.begun = (Ok DemoSync.tx, DemoSync.begun.2)) by (vm_compute; reflexivity).
  assert (Ea : DemoSync.ended.1.2 = SyncApplied DemoSync.answer) by (vm_compute; reflexivity).
  destruct (configuration_sync_atomic (H := Dotted.text) DemoProxy.fingerprint any_range any_range any_range any_range true false DemoProxy.in_flight 0
    DemoProxy.listening DemoProxy.supply (reg DemoProxy.attached) DemoProxy.preparation DemoSync.everything DemoSync.everything zero_UDPConfig (Some 1%nat)
    DemoSync.auth 0 [Some "f1"] DemoSync.request (New zero_UDPConfig) DemoSync.tx DemoSync.begun.2 "r1" [x07] DemoSync.service
    DemoSync.ended.1.1 (SyncApplied DemoSync.answer) DemoSync.ended.2 DemoProxy.in_flight_reachable eq_refl DemoProxy.prepared eq_refl Eb eq_refl
    DemoSync.service_allocated eq_refl) as (Hp & Hf & _).
  - rewrite <- Ea. change (DemoSync.ended = (DemoSync.ended.1.1, DemoSync.ended.1.2, DemoSync.ended.2)).
    rewrite (surjective_pairing DemoSync.ended) at 1. by rewrite (surjective_pairing DemoSync.ended.1) at 1.
  - split; [exact Hf|exact Hp].
Defined.

(** Two requests applied one after the other. *)
Definition DemoSync_states : SyncStates :=
  cacheConfigurationSync "a" "s1" "r2" 2 [x08] DemoSync.answer (cacheConfigurationSync "a" "s1" "r1" 1 [x07] DemoSync.answer ∅).
Definition DemoSync_second : SyncConfiguration := {| SyncRevision := 2; SyncProxies := []; SyncForwards := [DemoSync.ssh] |}.

Lemma requests_applied_once_witness :
  checkConfigurationSync "a" "s1" "r1" (Some [x07]) DemoSync.request DemoSync_states = Ok (Some DemoSync.answer).
Proof.
  assert (Hl : applied_requests "a" "s1" DemoSync_states
    ([] ++ [("r1", {| record_revision := 1; record_fingerprint := [x07]; record_result := DemoSync.answer |})] ++
           [("r2", {| record_revision := 2; record_fingerprint := [x08]; record_result := DemoSync.answer |})])).
  { apply (one_request "a" "s1" _ _ "r2" [x08] DemoSync_second); [|reflexivity].
    apply (one_request "a" "s1" ∅ [] "r1" [x07] DemoSync.request); [by apply no_requests|reflexivity]. }
  rewrite (proj1 (requests_applied_once "a" "s1" _ _ "r1" [x07] DemoSync.request Hl eq_refl)
             {| record_revision := 1; record_fingerprint := [x07]; record_result := DemoSync.answer |}); [reflexivity|left].
Defined.
