(* ===== verification/ClientForwards.v ===== *)
(** * Forwards on the client ([internal/client/forward_manager.go,
      forward_capacity.go])

    A client listens for the visitors of its Forwards.  Each visitor is served
    by a goroutine of its own: it takes a lease from the capacity of the
    manager, asks the server for a link, waits for the offer, opens a data
    stream, binds it and copies.  The offers arrive on the control connection;
    a visitor may give up, a link may expire or be cancelled, a Forward may be
    revoked, and the whole manager may be closed at any point in between.

    [step] interleaves the goroutines at the granularity of their critical
    sections and calls.  What the environment decides (whether a listener can
    be opened, a message be written, a stream be opened or bound) is part of
    the action. *)

From S2P Require Import Prelude GoTime NetAddr Authentication ConfigVNet ConfigUDP UdpLimiter ConfigForward LinkBroker ForwardRegistry.

Local Open Scope Z_scope.

(** ** Capacity *)

Definition maxForwardPending : Z := 128.
Definition maxForwardPendingPerName : Z := 64.
Definition maxForwardConnections : Z := 512.
Definition maxForwardConnectionsPerName : Z := 256.

Record forwardCounts := { count_pending : Z; count_total : Z }.
Definition zero_counts : forwardCounts := {| count_pending := 0; count_total := 0 |}.
#[export] Instance forward_counts_eq_dec : EqDecision forwardCounts.
Proof. solve_decision. Defined.

Record forwardCapacity := { capacity_all : forwardCounts; capacity_names : gmap string forwardCounts }.

Record forwardLease := { lease_name : string; lease_pending : bool; lease_closed : bool }.
#[export] Instance eta_forwardLease : Eta forwardLease := λ l,
  {| lease_name := lease_name l; lease_pending := lease_pending l; lease_closed := lease_closed l |}.

Definition counts_of (name : string) (c : forwardCapacity) : forwardCounts := default zero_counts (capacity_names c !! name).

Definition acquire (name : string) (c : forwardCapacity) : option forwardLease * forwardCapacity :=
  let counts := counts_of name c in
  let all := capacity_all c in
  if (maxForwardPending <=? count_pending all) || (maxForwardPendingPerName <=? count_pending counts) ||
     (maxForwardConnections <=? count_total all) || (maxForwardConnectionsPerName <=? count_total counts)
  then (None, c)
  else
    (Some {| lease_name := name; lease_pending := true; lease_closed := false |},
     {| capacity_all := {| count_pending := count_pending all + 1; count_total := count_total all + 1 |};
        capacity_names := <[name := {| count_pending := count_pending counts + 1; count_total := count_total counts + 1 |}]>
                            (capacity_names c) |}).

Definition activate_lease (l : forwardLease) (c : forwardCapacity) : forwardLease * forwardCapacity :=
  if lease_closed l || negb (lease_pending l) then (l, c)
  else
    let counts := counts_of (lease_name l) c in
    let all := capacity_all c in
    (l <| lease_pending := false |>,
     {| capacity_all := {| count_pending := count_pending all - 1; count_total := count_total all |};
        capacity_names := <[lease_name l := {| count_pending := count_pending counts - 1; count_total := count_total counts |}]>
                            (capacity_names c) |}).

Definition close_capacity (l : forwardLease) (c : forwardCapacity) : forwardLease * forwardCapacity :=
  if lease_closed l then (l, c)
  else
    let counts := counts_of (lease_name l) c in
    let all := capacity_all c in
    let pending := if lease_pending l then 1 else 0 in
    let counts := {| count_pending := count_pending counts - pending; count_total := count_total counts - 1 |} in
    (l <| lease_closed := true |>,
     {| capacity_all := {| count_pending := count_pending all - pending; count_total := count_total all - 1 |};
        capacity_names := if count_total counts =? 0 then delete (lease_name l) (capacity_names c)
                          else <[lease_name l := counts]> (capacity_names c) |}).

(** ** Contexts

    A context is the list of its own cancellation and those of its ancestors;
    it is done when one of them has been called. *)

Abbreviation Ctx := (list nat) (only parsing).
Definition done_in (dead : gset nat) (ctx : list nat) : bool := existsb (λ n, bool_decide (n ∈ dead)) ctx.

(** ** The manager *)

(** [rt_listening] says that [tcp] or [udp] is not nil. *)
Record forwardRuntime := {
  rt_context : list nat;
  rt_configuration : ForwardConfig;
  rt_bindingID : string;
  rt_active : bool;
  rt_udpConfig : UDPConfig;
  rt_listening : bool
}.
#[export] Instance eta_forwardRuntime : Eta forwardRuntime := λ r,
  {| rt_context := rt_context r; rt_configuration := rt_configuration r; rt_bindingID := rt_bindingID r;
     rt_active := rt_active r; rt_udpConfig := rt_udpConfig r; rt_listening := rt_listening r |}.

Record forwardLink := { link_context : list nat; link_offer : ForwardLinkOffer }.

Record forwardOfferRequest := {
  rq_context : list nat;
  rq_runtime : forwardRuntime;
  rq_ready : option ForwardLinkOffer;
  rq_link : option nat;
  rq_delivered : bool
}.
#[export] Instance eta_forwardOfferRequest : Eta forwardOfferRequest := λ r,
  {| rq_context := rq_context r; rq_runtime := rq_runtime r; rq_ready := rq_ready r; rq_link := rq_link r;
     rq_delivered := rq_delivered r |}.

(** Requests and links are shared by pointer: [requests] and [linkHeap] are
    what the pointers in [offers], [links] and the goroutines refer to.
    [served] are the copies of runtimes that listeners accept visitors for. *)
Record forwardManager := {
  mg_context : list nat;
  runtimes : gmap string forwardRuntime;
  offers : gmap string nat;
  links : gmap string nat;
  requests : gmap nat forwardOfferRequest;
  linkHeap : gmap nat forwardLink;
  tcpCapacity : forwardCapacity;
  mg_udpConfig : UDPConfig;
  mg_udpLimiter : option Limiter;
  started : bool;
  served : list forwardRuntime;
  dead : gset nat;
  supply : nat
}.
#[export] Instance eta_forwardManager : Eta forwardManager := λ m,
  {| mg_context := mg_context m; runtimes := runtimes m; offers := offers m; links := links m; requests := requests m;
     linkHeap := linkHeap m; tcpCapacity := tcpCapacity m; mg_udpConfig := mg_udpConfig m; mg_udpLimiter := mg_udpLimiter m;
     started := started m; served := served m; dead := dead m; supply := supply m |}.

Definition done_ctx (m : forwardManager) (ctx : list nat) : bool := done_in (dead m) ctx.

(** [context.WithCancel]: the cancellation is a fresh number. *)
Definition cancel_ctx (ctx : list nat) (m : forwardManager) : forwardManager :=
  match ctx with n :: _ => m <| dead := {[n]} ∪ dead m |> | [] => m end.

Definition add_runtime (m : forwardManager) (c : ForwardConfig) : forwardManager :=
  let rt := {| rt_context := supply m :: mg_context m; rt_configuration := c; rt_bindingID := ""; rt_active := false;
               rt_udpConfig := zero_UDPConfig; rt_listening := false |} in
  m <| runtimes := <[ForwardName c := rt]> (runtimes m) |> <| supply := S (supply m) |>.

Definition newForwardManager (configurations : list ForwardConfig) : forwardManager :=
  foldl add_runtime
    {| mg_context := [0%nat]; runtimes := ∅; offers := ∅; links := ∅; requests := ∅; linkHeap := ∅;
       tcpCapacity := {| capacity_all := zero_counts; capacity_names := ∅ |}; mg_udpConfig := zero_UDPConfig;
       mg_udpLimiter := None; started := false; served := []; dead := ∅; supply := 1 |} configurations.

Definition applyUDPConfig (c : UDPConfig) (m : forwardManager) : forwardManager :=
  if negb (is_some (mg_udpLimiter m)) || negb (bool_decide (mg_udpConfig m = c))
  then m <| mg_udpConfig := c |> <| mg_udpLimiter := Some (NewLimiter c) |> else m.

Inductive BindingsError := CountMismatch | BindingMismatch | MissingUDP | BadUDP (e : UDPError).

Section bindings.
(** [platformUDPMaxDatagramSize] *)
Context (platform : option Z).

(** The limits a result of a UDP Forward carries. *)
Definition binding_udp (t : ForwardType) (wire : option ForwardUDPConfig) : result BindingsError (option UDPConfig) :=
  if bool_decide (t = ForwardTypeUDP) then
    match wire with
    | None => Err MissingUDP
    | Some w =>
      let c := ForwardUDPConfigFromProtocol w in
      match ValidateUDPConfig platform c with Some e => Err (BadUDP e) | None => Ok (Some c) end
    end
  else Ok None.

Definition with_udp (udp : option UDPConfig) (rt : forwardRuntime) (m : forwardManager) : forwardRuntime * forwardManager :=
  match udp with
  | Some c => (rt <| rt_udpConfig := c |>, applyUDPConfig c m)
  | None => (rt, m)
  end.

Fixpoint apply_results (results : list ForwardResult) (m : forwardManager) : option BindingsError * forwardManager :=
  match results with
  | [] => (None, m)
  | res :: results =>
    match runtimes m !! ResultName res with
    | None => (Some BindingMismatch, m)
    | Some rt =>
      if negb (bool_decide (Type_ (rt_configuration rt) = ResultType res)) || bool_decide (ResultBindingID res = "")
      then (Some BindingMismatch, m)
      else
        match binding_udp (ResultType res) (ResultUDP res) with
        | Err e => (Some e, m)
        | Ok udp =>
          let '(rt, m) := with_udp udp rt m in
          let rt := rt <| rt_bindingID := ResultBindingID res |> <| rt_active := ResultActive res |> in
          apply_results results (m <| runtimes := <[ResultName res := rt]> (runtimes m) |>)
        end
    end
  end.

Definition applyBindings (results : list ForwardResult) (m : forwardManager) : option BindingsError * forwardManager :=
  if negb (bool_decide (length results = size (runtimes m))) then (Some CountMismatch, m) else apply_results results m.

(** [prepareRuntime]; [listens] is whether the address can be bound. *)
Definition prepareRuntime (listens : bool) (rt : forwardRuntime) : option forwardRuntime :=
  if listens then Some (rt <| rt_listening := true |>) else None.

(** The loop of [start]: the runtimes prepared, or the failure of one. *)
Fixpoint start_runtimes (todo : list (string * forwardRuntime)) (listens : string → bool) (m : forwardManager)
    (prepared : list forwardRuntime) : option (list forwardRuntime) * forwardManager :=
  match todo with
  | [] => (Some prepared, m)
  | (name, rt) :: todo =>
    if rt_active rt then
      match prepareRuntime (listens name) rt with
      | None => (None, m)
      | Some rt => start_runtimes todo listens (m <| runtimes := <[name := rt]> (runtimes m) |>) (prepared ++ [rt])
      end
    else start_runtimes todo listens m prepared
  end.

(** [start]; the listeners are served once all of them are open. *)
Definition start (ρ : go_range string forwardRuntime) (listens : string → bool) (m : forwardManager) : bool * forwardManager :=
  let m := m <| started := true |> in
  match start_runtimes (ρ (runtimes m)) listens m [] with
  | (None, m) => (false, m)
  | (Some prepared, m) => (true, m <| served := served m ++ prepared |>)
  end.

(** [revoke] and [activate] run on the goroutine of the control connection. *)
Record ForwardBindingRevoked := { RevokedName : string; RevokedBindingID : string }.
Record ForwardBindingActivated := {
  ActivatedName : string; ActivatedType : ForwardType; ActivatedBindingID : string; ActivatedUDP : option ForwardUDPConfig
}.

Definition revoke (revocation : ForwardBindingRevoked) (m : forwardManager) : forwardManager :=
  match runtimes m !! RevokedName revocation with
  | Some rt =>
    if bool_decide (rt_bindingID rt = RevokedBindingID revocation) then
      let m := m <| runtimes := <[RevokedName revocation :=
                                   rt <| rt_active := false |> <| rt_bindingID := "" |> <| rt_listening := false |>]> (runtimes m) |> in
      cancel_ctx (rt_context rt) m
    else m
  | None => m
  end.

Definition activate (listens : bool) (activation : ForwardBindingActivated) (m : forwardManager) : bool * forwardManager :=
  match runtimes m !! ActivatedName activation with
  | None => (false, m)
  | Some rt =>
    if negb (bool_decide (Type_ (rt_configuration rt) = ActivatedType activation)) || bool_decide (ActivatedBindingID activation = "")
    then (false, m)
    else
      match binding_udp (ActivatedType activation) (ActivatedUDP activation) with
      | Err _ => (false, m)
      | Ok udp =>
        let '(rt, m) := with_udp udp rt m in
        if rt_active rt && bool_decide (rt_bindingID rt = ActivatedBindingID activation)
        then (true, m <| runtimes := <[ActivatedName activation := rt]> (runtimes m) |>)
        else
          let rt := rt <| rt_context := supply m :: mg_context m |> <| rt_bindingID := ActivatedBindingID activation |>
                       <| rt_active := true |> in
          let m := m <| supply := S (supply m) |> in
          match prepareRuntime listens rt with
          | None =>
            (false, m <| runtimes := <[ActivatedName activation := rt <| rt_active := false |> <| rt_bindingID := "" |>]> (runtimes m) |>)
          | Some rt =>
            let m := m <| runtimes := <[ActivatedName activation := rt]> (runtimes m) |> in
            (true, if started m then m <| served := served m ++ [rt] |> else m)
          end
      end
  end.
End bindings.

(** ** Offers and links *)

(** The first critical section of [requestForwardOffer]. *)
Definition register_offer (requestID : string) (ctx : list nat) (rt : forwardRuntime) (m : forwardManager) :
    option nat * forwardManager :=
  if (maxForwardPending <=? Z.of_nat (size (offers m))) || done_ctx m (mg_context m) then (None, m)
  else
    let a := supply m in
    let request := {| rq_context := ctx; rq_runtime := rt; rq_ready := None; rq_link := None; rq_delivered := false |} in
    (Some a, m <| offers := <[requestID := a]> (offers m) |> <| requests := <[a := request]> (requests m) |>
               <| supply := S (supply m) |>).

(** What is written to the server. *)
Definition link_request (requestID : string) (rt : forwardRuntime) : RequestForwardLink :=
  {| RequestID := requestID; RequestName := ForwardName (rt_configuration rt); RequestType := Type_ (rt_configuration rt);
     RequestBindingID := rt_bindingID rt |}.

(** The deferred one: the link the request was given, if any. *)
Definition leave_offer (requestID : string) (a : nat) (m : forwardManager) : option nat * forwardManager :=
  (requests m !! a ≫= rq_link, m <| offers := delete requestID (offers m) |>).

Definition offer_fits (offer : ForwardLinkOffer) (rt : forwardRuntime) (now : Time) : bool :=
  negb (is_some (OfferError offer)) && negb (bool_decide (ForwardLinkID offer = "")) &&
  negb (bool_decide (ForwardTicket offer = "")) && bool_decide (ForwardBindingID offer = rt_bindingID rt) &&
  bool_decide (ForwardOfferType offer = Type_ (rt_configuration rt)) &&
  bool_decide (ForwardOfferName offer = ForwardName (rt_configuration rt)) &&
  (GoTime.UnixMilli now <? ForwardExpiresAtUnixMS offer).

(** The send on [ready], which has room for one offer. *)
Definition send_ready (offer : ForwardLinkOffer) (r : forwardOfferRequest) : forwardOfferRequest :=
  match rq_ready r with None => r <| rq_ready := Some offer |> | Some _ => r end.

Definition deliverOffer (offer : ForwardLinkOffer) (now : Time) (m : forwardManager) : forwardManager :=
  match offers m !! OfferRequestID offer ≫= λ a, (λ r, (a, r)) <$> requests m !! a with
  | None => m
  | Some (a, request) =>
    if rq_delivered request then m
    else
      let request := request <| rq_delivered := true |> in
      if offer_fits offer (rq_runtime request) now then
        match links m !! ForwardLinkID offer with
        | Some _ => m <| requests := <[a := request]> (requests m) |>
        | None =>
          let l := supply m in
          let link := {| link_context := S l :: rq_context request; link_offer := offer |} in
          m <| requests := <[a := send_ready offer (request <| rq_link := Some l |>)]> (requests m) |>
            <| links := <[ForwardLinkID offer := l]> (links m) |> <| linkHeap := <[l := link]> (linkHeap m) |>
            <| supply := S (S l) |>
        end
      else m <| requests := <[a := send_ready offer request]> (requests m) |>
  end.

Definition cancel_link (l : nat) (m : forwardManager) : forwardManager :=
  match linkHeap m !! l with Some link => cancel_ctx (link_context link) m | None => m end.

Definition cancelLink (linkID : string) (m : forwardManager) : forwardManager :=
  match links m !! linkID with Some l => cancel_link l m | None => m end.

Definition releaseForwardLink (l : nat) (m : forwardManager) : forwardManager :=
  let m := cancel_link l m in
  match linkHeap m !! l with
  | Some link =>
    if bool_decide (links m !! ForwardLinkID (link_offer link) = Some l)
    then m <| links := delete (ForwardLinkID (link_offer link)) (links m) |> else m
  | None => m
  end.

(** What [bindForwardStream] sends. *)
Definition bind_request (clientID sessionID : string) (offer : ForwardLinkOffer) : BindLink :=
  {| BindClientID := clientID; BindSessionID := sessionID; BindLinkID := ForwardLinkID offer;
     BindProxyType := type_string (ForwardOfferType offer); BindBindingID := ForwardBindingID offer;
     BindTicket := ForwardTicket offer; BindDirection := LinkDirectionForward |}.

Definition close (ρ : go_range string forwardRuntime) (ρl : go_range string nat) (m : forwardManager) : forwardManager :=
  let m := cancel_ctx (mg_context m) m in
  let m := foldl (λ m '(_, l), cancel_link l m) m (ρl (links m)) in
  foldl (λ m '(_, rt), cancel_ctx (rt_context rt) m) m (ρ (runtimes m)).

(** ** The goroutines of visitors *)

(** How a link ended for the visitor it was offered to.  The errors of
    [writer.Write] are ignored, so a message to the server was written or lost. *)
Inductive Outcome := Copied | CancelSent (written : bool) | FailureSent (code : LinkErrorCode) (written : bool).

(** [requestForwardOffer] up to [Leaving], then [serveForwardStream]; [Dropping]
    and [DropCancel] are the deferred function of a request that was not
    accepted, [Closing] is the deferred [lease.close]. *)
Inductive Pc :=
| Starting (ctx : list nat)
| Registered (requestID : string) (a : nat)
| Waiting (requestID : string) (a : nat)
| Leaving (requestID : string) (a : nat) (accepted : bool)
| Dropping (l : nat)
| DropCancel (l : nat)
| Serve (l : nat)
| Open (l : nat)
| Bind (l : nat)
| Confirm (l : nat)
| Handle (l : nat)
| Copying (l : nat)
| CancelOffer (l : nat)
| Report (l : nat) (code : LinkErrorCode)
| Release (l : nat)
| Closing
| Finished.

Inductive Timer := TimerIdle | TimerArmed | TimerFired | TimerStopped.
#[export] Instance timer_eq_dec : EqDecision Timer.
Proof. solve_decision. Defined.

(** [v_log] are the outcomes this goroutine has brought about. *)
Record Visitor := {
  v_pc : Pc;
  v_runtime : forwardRuntime;
  v_lease : option forwardLease;
  v_timer : Timer;
  v_log : list (nat * Outcome)
}.
#[export] Instance eta_Visitor : Eta Visitor := λ v,
  {| v_pc := v_pc v; v_runtime := v_runtime v; v_lease := v_lease v; v_timer := v_timer v; v_log := v_log v |}.

(** What the environment answers to a goroutine. *)
Inductive Choice :=
| Drawn (requestID : option string)         (* newRequestID *)
| Written (ok : bool)                       (* writer.Write *)
| Offered | TimedOut | ContextDone          (* the three cases of the select *)
| Opened (ok : bool)                        (* OpenDataStream *)
| Bound (failure : option LinkErrorCode)    (* bindForwardStream *)
| Continue.

Definition LinkErrorTransportFailed : LinkErrorCode := LinkErrorOther "transport_failed".

Definition goto (pc : Pc) (v : Visitor) : Visitor := v <| v_pc := pc |>.
Definition log (l : nat) (o : Outcome) (v : Visitor) : Visitor := v <| v_log := v_log v ++ [(l, o)] |>.

Definition link_done (m : forwardManager) (l : nat) : bool :=
  match linkHeap m !! l with Some link => done_ctx m (link_context link) | None => true end.

(** [timer.Stop] reports whether it stopped the timer. *)
Definition stop_timer (v : Visitor) : bool * Visitor :=
  if bool_decide (v_timer v = TimerArmed) then (true, v <| v_timer := TimerStopped |>) else (false, v).

Definition requesting (c : Choice) (m : forwardManager) (v : Visitor) : option (forwardManager * Visitor) :=
  match v_pc v, c with
  | Starting ctx, Drawn requestID =>
    if done_ctx m ctx then Some (m, goto Closing v)
    else
      match requestID with
      | None => Some (m, goto Closing v)
      | Some id =>
        match register_offer id ctx (v_runtime v) m with
        | (None, m) => Some (m, goto Closing v)
        | (Some a, m) => Some (m, goto (Registered id a) v)
        end
      end
  | Registered id a, Written ok => Some (m, goto (if ok then Waiting id a else Leaving id a false) v)
  | Waiting id a, Offered =>
    match requests m !! a with
    | None => None
    | Some r =>
      match rq_ready r with
      | None => None
      | Some offer =>
        Some (m <| requests := <[a := r <| rq_ready := None |>]> (requests m) |>,
              goto (Leaving id a (negb (is_some (OfferError offer) || negb (is_some (rq_link r))))) v)
      end
    end
  | Waiting id a, TimedOut => Some (m, goto (Leaving id a false) v)
  | Waiting id a, ContextDone =>
    match requests m !! a with
    | Some r => if done_ctx m (rq_context r) then Some (m, goto (Leaving id a false) v) else None
    | None => None
    end
  | Leaving id a accepted, Continue =>
    match leave_offer id a m with
    | (Some l, m) => Some (m, goto (if accepted then Serve l else Dropping l) v)
    | (None, m) => Some (m, goto Closing v)
    end
  | Dropping l, Continue => Some (releaseForwardLink l m, goto (DropCancel l) v)
  | DropCancel l, Written ok => Some (m, goto Closing (log l (CancelSent ok) v))
  | _, _ => None
  end.

Definition serving (c : Choice) (m : forwardManager) (v : Visitor) : option (forwardManager * Visitor) :=
  match v_pc v, c with
  | Serve l, Continue =>
    let v := v <| v_timer := TimerArmed |> in
    Some (m, goto (if link_done m l then CancelOffer l else Open l) v)
  | Open l, Opened ok => Some (m, goto (if ok then Bind l else Report l LinkErrorTransportFailed) v)
  | Bind l, Bound failure => Some (m, goto (match failure with Some code => Report l code | None => Confirm l end) v)
  | Confirm l, Continue =>
    let '(stopped, v) := stop_timer v in
    Some (m, goto (if negb stopped || link_done m l then CancelOffer l else Handle l) v)
  | Handle l, Continue =>
    match v_lease v with
    | Some lease =>
      let '(lease, capacity) := activate_lease lease (tcpCapacity m) in
      Some (m <| tcpCapacity := capacity |>, goto (Copying l) (v <| v_lease := Some lease |>))
    | None => Some (m, goto (Copying l) v)
    end
  | Copying l, Continue => Some (m, goto (Release l) (log l Copied v))
  | CancelOffer l, Written ok => Some (m, goto (Release l) (log l (CancelSent ok) v))
  | Report l code, Written ok => Some (m, goto (Release l) (log l (FailureSent code ok) v))
  | Release l, Continue => Some (releaseForwardLink l m, goto Closing (snd (stop_timer v)))
  | Closing, Continue =>
    match v_lease v with
    | Some lease =>
      let '(lease, capacity) := close_capacity lease (tcpCapacity m) in
      Some (m <| tcpCapacity := capacity |>, goto Finished (v <| v_lease := Some lease |>))
    | None => Some (m, goto Finished v)
    end
  | _, _ => None
  end.

Definition advance (c : Choice) (m : forwardManager) (v : Visitor) : option (forwardManager * Visitor) :=
  match requesting c m v with Some mv => Some mv | None => serving c m v end.

(** ** The system *)

Record World := { manager : forwardManager; visitors : gmap nat Visitor }.

Definition visitor_of (ctx : list nat) (rt : forwardRuntime) (lease : option forwardLease) : Visitor :=
  {| v_pc := Starting ctx; v_runtime := rt; v_lease := lease; v_timer := TimerIdle; v_log := [] |}.

(** The callback of [serveRuntime] for TCP. *)
Definition accept_visitor (i k : nat) (w : World) : option World :=
  match served (manager w) !! k, visitors w !! i with
  | Some rt, None =>
    if bool_decide (Type_ (rt_configuration rt) = ForwardTypeTCP) then
      match acquire (ForwardName (rt_configuration rt)) (tcpCapacity (manager w)) with
      | (None, _) => Some w
      | (Some lease, capacity) =>
        Some {| manager := (manager w) <| tcpCapacity := capacity |>;
                visitors := <[i := visitor_of (rt_context rt) rt (Some lease)]> (visitors w) |}
      end
    else None
  | _, _ => None
  end.

(** The one for UDP: an association has a context of its own. *)
Definition accept_association (i k : nat) (w : World) : option World :=
  match served (manager w) !! k, visitors w !! i with
  | Some rt, None =>
    if bool_decide (Type_ (rt_configuration rt) = ForwardTypeTCP) then None
    else
      let m := manager w in
      Some {| manager := m <| supply := S (supply m) |>;
              visitors := <[i := visitor_of (supply m :: rt_context rt) rt None]> (visitors w) |}
  | _, _ => None
  end.

Definition fire_timer (i : nat) (now : Time) (w : World) : option World :=
  match visitors w !! i with
  | Some v =>
    if bool_decide (v_timer v = TimerArmed) then
      match v_pc v with
      | CancelOffer l | Open l | Bind l | Confirm l | Report l _ | Release l =>
        match linkHeap (manager w) !! l with
        | Some link =>
          if ForwardExpiresAtUnixMS (link_offer link) <=? GoTime.UnixMilli now
          then Some {| manager := cancel_link l (manager w); visitors := <[i := v <| v_timer := TimerFired |>]> (visitors w) |}
          else None
        | None => None
        end
      | _ => None
      end
    else None
  | None => None
  end.

Inductive Action :=
| ApplyBindings (results : list ForwardResult)
| StartListeners (listens : string → bool)
| AcceptVisitor (i k : nat)
| AcceptAssociation (i k : nat)
| EndContext (n : nat)
| Advance (i : nat) (c : Choice)
| FireTimer (i : nat) (now : Time)
| DeliverOffer (offer : ForwardLinkOffer) (now : Time)
| CancelLink (linkID : string)
| RevokeBinding (revocation : ForwardBindingRevoked)
| ActivateBinding (listens : bool) (activation : ForwardBindingActivated)
| CloseManager.

Section step.
Context (platform : option Z) (ρ : go_range string forwardRuntime) (ρl : go_range string nat).

Definition on_manager (f : forwardManager → forwardManager) (w : World) : World :=
  {| manager := f (manager w); visitors := visitors w |}.

Definition step (a : Action) (w : World) : option World :=
  match a with
  | ApplyBindings results => Some (on_manager (λ m, snd (applyBindings platform results m)) w)
  | StartListeners listens => Some (on_manager (λ m, snd (start ρ listens m)) w)
  | AcceptVisitor i k => accept_visitor i k w
  | AcceptAssociation i k => accept_association i k w
  | EndContext n => Some (on_manager (λ m, m <| dead := {[n]} ∪ dead m |>) w)
  | Advance i c =>
    match visitors w !! i with
    | Some v =>
      match advance c (manager w) v with
      | Some (m, v) => Some {| manager := m; visitors := <[i := v]> (visitors w) |}
      | None => None
      end
    | None => None
    end
  | FireTimer i now => fire_timer i now w
  | DeliverOffer offer now => Some (on_manager (deliverOffer offer now) w)
  | CancelLink linkID => Some (on_manager (cancelLink linkID) w)
  | RevokeBinding revocation => Some (on_manager (revoke revocation) w)
  | ActivateBinding listens activation => Some (on_manager (λ m, snd (activate platform listens activation m)) w)
  | CloseManager => Some (on_manager (close ρ ρl) w)
  end.

Inductive reachable (configurations : list ForwardConfig) : World → Prop :=
| reach_init : reachable configurations {| manager := newForwardManager configurations; visitors := ∅ |}
| reach_step w a w' : reachable configurations w → step a w = Some w' → reachable configurations w'.

(** Running a script of actions. *)
Fixpoint run (script : list Action) (w : World) : option World :=
  match script with
  | [] => Some w
  | a :: script => match step a w with Some w => run script w | None => None end
  end.

Lemma reachable_run configurations script w w' :
  reachable configurations w → run script w = Some w' → reachable configurations w'.
Proof.
  revert w. induction script as [|a script IH]; intros w Hw E; cbn in E; [by injection E as <-|].
  destruct (step a w) eqn:Es; [|done]. eapply IH; [by eapply reach_step|done].
Qed.
End step.
