(* ===== verification/ClientForwardSafety.v ===== *)
(** * Links of the client's Forwards: settled, released, bounded *)

From S2P Require Import Prelude GoTime NetAddr Authentication ConfigVNet ConfigUDP UdpLimiter ConfigForward LinkBroker ForwardRegistry ClientForwards.

Local Open Scope Z_scope.

(** ** What a visitor is responsible for *)

Definition request_of (v : Visitor) : option (string * nat) :=
  match v_pc v with
  | Registered id a | Waiting id a | Leaving id a _ => Some (id, a)
  | _ => None
  end.

(** The link a visitor still has to settle or to release. *)
Definition holds (m : forwardManager) (v : Visitor) : option nat :=
  match v_pc v with
  | Registered _ a | Waiting _ a | Leaving _ a _ => requests m !! a ≫= rq_link
  | Dropping l | DropCancel l | Serve l | Open l | Bind l | Confirm l | Handle l | Copying l
  | CancelOffer l | Report l _ | Release l => Some l
  | Starting _ | Closing | Finished => None
  end.

(** The link it still has to take out of [links]. *)
Definition owns (m : forwardManager) (v : Visitor) : option nat :=
  match v_pc v with DropCancel _ => None | _ => holds m v end.

Definition some_visitor (P : Visitor → Prop) (vs : gmap nat Visitor) : Prop := ∃ i v, vs !! i = Some v ∧ P v.

(** The offer of a link is for the Forward the visitor came to. *)
Definition offer_matches (m : forwardManager) (v : Visitor) (l : nat) : Prop :=
  ∃ link, linkHeap m !! l = Some link ∧
    ForwardBindingID (link_offer link) = rt_bindingID (v_runtime v) ∧
    ForwardOfferName (link_offer link) = ForwardName (rt_configuration (v_runtime v)) ∧
    ForwardOfferType (link_offer link) = Type_ (rt_configuration (v_runtime v)).

Definition settled (l : nat) (v : Visitor) : Prop := ∃ o, (l, o) ∈ v_log v.

Record links_ok (m : forwardManager) (vs : gmap nat Visitor) : Prop := {
  lo_offers id a : offers m !! id = Some a → some_visitor (λ v, request_of v = Some (id, a)) vs;
  lo_size : Z.of_nat (size (offers m)) <= maxForwardPending;
  lo_request i v id a : vs !! i = Some v → request_of v = Some (id, a) → ∃ r, requests m !! a = Some r ∧ rq_runtime r = v_runtime v;
  lo_distinct i j v u id id' a : vs !! i = Some v → vs !! j = Some u → request_of v = Some (id, a) → request_of u = Some (id', a) → i = j;
  lo_requests a r : requests m !! a = Some r → (a < supply m)%nat;
  lo_heap l link : linkHeap m !! l = Some link → (l < supply m)%nat ∧ some_visitor (λ v, holds m v = Some l ∨ settled l v) vs;
  lo_given a r l : requests m !! a = Some r → rq_link r = Some l → rq_delivered r = true ∧ is_Some (linkHeap m !! l);
  lo_links id l : links m !! id = Some l →
    (∃ link, linkHeap m !! l = Some link ∧ ForwardLinkID (link_offer link) = id) ∧ some_visitor (λ v, owns m v = Some l) vs;
  lo_matches i v l : vs !! i = Some v → holds m v = Some l ∨ settled l v → offer_matches m v l;
  lo_owner i j v u l : vs !! i = Some v → vs !! j = Some u → holds m v = Some l → holds m u = Some l → i = j;
  lo_accepted i v id a : vs !! i = Some v → v_pc v = Leaving id a true → is_Some (requests m !! a ≫= rq_link);
  lo_release i v l : vs !! i = Some v → v_pc v = Release l → settled l v
}.

Lemma some_mono (P Q : Visitor → Prop) vs : (∀ i v, vs !! i = Some v → P v → Q v) → some_visitor P vs → some_visitor Q vs.
Proof. intros H (i & v & Hv & Hp). exists i, v. eauto. Qed.

Lemma some_set (P Q : Visitor → Prop) vs i v v' :
  vs !! i = Some v → (P v → Q v') → (∀ j u, j ≠ i → vs !! j = Some u → P u → Q u) → some_visitor P vs → some_visitor Q (<[i := v']> vs).
Proof.
  intros Hv H1 H2 (j & u & Hu & Hp). destruct (decide (j = i)) as [->|Hne].
  - exists i, v'. rewrite lookup_insert_eq. split; [done|]. apply H1. by simplify_eq.
  - exists j, u. rewrite lookup_insert_ne by done. eauto.
Qed.

(** ** Steps that concern no link *)

Record quiet (m m' : forwardManager) : Prop := {
  q_offers : offers m' = offers m;
  q_links : links m' = links m;
  q_requests : requests m' = requests m;
  q_heap : linkHeap m' = linkHeap m;
  q_supply : (supply m <= supply m')%nat
}.

#[export] Instance quiet_preorder : PreOrder quiet.
Proof. split; [intros m; by constructor|]. intros m1 m2 m3 [] []. constructor; try congruence. lia. Qed.

Lemma quiet_holds m m' v : quiet m m' → holds m' v = holds m v.
Proof. intros []. unfold holds. case_match; congruence. Qed.

Lemma quiet_owns m m' v : quiet m m' → owns m' v = owns m v.
Proof. intros Hq. unfold owns. case_match; try done; by apply quiet_holds. Qed.

Lemma quiet_matches m m' v l : quiet m m' → offer_matches m v l → offer_matches m' v l.
Proof. intros [] (link & ? & ?). exists link. split; [congruence|done]. Qed.

Lemma links_quiet m m' vs : links_ok m vs → quiet m m' → links_ok m' vs.
Proof.
  intros [] Hq. pose proof Hq as [Ho Hl Hr Hh Hs]. constructor; intros.
  - rewrite Ho in *. eauto.
  - by rewrite Ho.
  - rewrite Hr. eauto.
  - eauto.
  - rewrite Hr in *. assert (a < supply m)%nat by eauto. lia.
  - rewrite Hh in *. edestruct lo_heap0 as [? Hv]; [done|]. split; [lia|]. eapply some_mono, Hv. cbn. intros ? u ?. by rewrite (quiet_holds m m').
  - rewrite Hr, Hh in *. eauto.
  - rewrite Hl, Hh in *. edestruct lo_links0 as [? Hv]; [done|]. split; [done|]. eapply some_mono, Hv. cbn. intros ? u ?. by rewrite (quiet_owns m m').
  - rewrite (quiet_holds m m') in * by done. eapply quiet_matches; eauto.
  - rewrite (quiet_holds m m') in * by done. eauto.
  - rewrite Hr. eauto.
  - eauto.
Qed.

(** A change of the requests that keeps the link of each of them. *)
Lemma holds_requests m m' v : (∀ a, requests m' !! a ≫= rq_link = requests m !! a ≫= rq_link) → holds m' v = holds m v.
Proof. intros H. unfold holds. case_match; done. Qed.

Lemma owns_requests m m' v : (∀ a, requests m' !! a ≫= rq_link = requests m !! a ≫= rq_link) → owns m' v = owns m v.
Proof. intros H. unfold owns. case_match; try done; by apply holds_requests. Qed.

(** A visitor that moves on: it may let go of its request and of its link, and
    then the link is settled and no longer in [links]. *)
Record moves (m m' : forwardManager) (v v' : Visitor) : Prop := {
  mv_requests : requests m' = requests m;
  mv_heap : linkHeap m' = linkHeap m;
  mv_supply : supply m' = supply m;
  mv_offers id a : offers m' !! id = Some a → offers m !! id = Some a ∧ (request_of v = Some (id, a) → request_of v' = Some (id, a));
  mv_size : (size (offers m') <= size (offers m))%nat;
  mv_links id l : links m' !! id = Some l → links m !! id = Some l ∧ (owns m v = Some l → owns m v' = Some l);
  mv_request id a : request_of v' = Some (id, a) → request_of v = Some (id, a);
  mv_holds l : holds m v' = Some l → holds m v = Some l;
  mv_settles l : holds m v = Some l → holds m v' = Some l ∨ settled l v';
  mv_keeps l : settled l v → settled l v';
  mv_new l : settled l v' → settled l v ∨ holds m v = Some l;
  mv_runtime : v_runtime v' = v_runtime v;
  mv_accepted id a : v_pc v' = Leaving id a true → is_Some (requests m !! a ≫= rq_link);
  mv_release l : v_pc v' = Release l → settled l v'
}.

Lemma links_move m m' vs i v v' : links_ok m vs → vs !! i = Some v → moves m m' v v' → links_ok m' (<[i := v']> vs).
Proof.
  intros [] Hv [Er Eh Es Eo Esz El Eq Eho Est Ek En Ert Ea Ere].
  assert (Hho : ∀ u, holds m' u = holds m u) by (intros u; apply holds_requests; by rewrite Er).
  assert (Hown : ∀ u, owns m' u = owns m u) by (intros u; apply owns_requests; by rewrite Er).
  assert (Hm : ∀ u l, offer_matches m' u l ↔ offer_matches m u l) by (intros u l; unfold offer_matches; by rewrite Eh).
  constructor.
  - intros id a Hid. apply Eo in Hid as [Hid Hx]. eapply some_set; [done| | |eauto]; cbn; [done|done].
  - lia.
  - intros j u id a Hu Hr. rewrite Er. apply lookup_insert_Some in Hu as [[<- <-]|[_ Hu]]; [|eauto]. rewrite Ert. eauto.
  - intros j k u u' id id' a Hu Hu' Hr Hr'. apply lookup_insert_Some in Hu as [[<- <-]|[? Hu]], Hu' as [[<- <-]|[? Hu']]; eauto.
  - intros a r. rewrite Er, Es. eauto.
  - intros l link. rewrite Eh, Es. intros Hl. destruct (lo_heap0 _ _ Hl) as [? Hs]. split; [done|].
    eapply some_set; [done| | |exact Hs]; cbn; [|intros; by rewrite Hho]. rewrite Hho. intros [?|?]; eauto.
  - intros a r l. rewrite Er, Eh. eauto.
  - intros id l Hl. apply El in Hl as [Hl Hx]. rewrite Eh. destruct (lo_links0 _ _ Hl) as [? Hs]. split; [done|].
    eapply some_set; [done| | |exact Hs]; cbn; [by rewrite Hown|intros; by rewrite Hown].
  - intros j u l Hu. rewrite Hho, Hm. apply lookup_insert_Some in Hu as [[<- <-]|[_ Hu]]; [|eauto].
    unfold offer_matches. rewrite Ert. intros [Hx|Hx]; [by eapply lo_matches0, or_introl, Eho|]. edestruct En as [?|?]; [done|..]; [eapply lo_matches0; [done|by right]|eapply lo_matches0; [done|by left]].
  - intros j k u u' l Hu Hu'. rewrite !Hho. apply lookup_insert_Some in Hu as [[<- <-]|[? Hu]], Hu' as [[<- <-]|[? Hu']]; eauto.
  - intros j u id a Hu. rewrite Er. apply lookup_insert_Some in Hu as [[<- <-]|[_ Hu]]; eauto.
  - intros j u l Hu. apply lookup_insert_Some in Hu as [[<- <-]|[_ Hu]]; eauto.
Qed.

(** ** Operations on the runtimes concern no link *)

Lemma quiet_cancel ctx m : quiet m (cancel_ctx ctx m).
Proof. by destruct ctx. Qed.

Lemma quiet_cancel_link l m : quiet m (cancel_link l m).
Proof. unfold cancel_link. case_match; [apply quiet_cancel|done]. Qed.

Lemma quiet_cancelLink id m : quiet m (cancelLink id m).
Proof. unfold cancelLink. case_match; [apply quiet_cancel_link|done]. Qed.

Lemma quiet_runtimes rts m : quiet m (m <| runtimes := rts |>).
Proof. done. Qed.

Lemma quiet_with_udp udp rt m rt' m' : with_udp udp rt m = (rt', m') → quiet m m'.
Proof. unfold with_udp, applyUDPConfig. repeat case_match; intros [= <- <-]; done. Qed.

Lemma quiet_apply platform results m : quiet m (apply_results platform results m).2.
Proof.
  revert m. induction results as [|res results IH]; intros m; cbn; [done|]. repeat case_match; cbn; try done.
  etrans; [by eapply quiet_with_udp|]. etrans; [|apply IH]. done.
Qed.

Lemma quiet_start_runtimes listens todo m prepared : quiet m (start_runtimes todo listens m prepared).2.
Proof.
  revert m prepared. induction todo as [|[name rt] todo IH]; intros m prepared; cbn; [done|].
  repeat case_match; cbn; try done. etrans; [|apply IH]. done.
Qed.

Lemma quiet_start ρ listens m : quiet m (start ρ listens m).2.
Proof.
  unfold start. pose proof (quiet_start_runtimes listens (ρ (runtimes m)) (m <| started := true |>) []) as Hq.
  cbn in *. repeat case_match; cbn in *; try done; by destruct Hq.
Qed.

Lemma quiet_revoke r m : quiet m (revoke r m).
Proof. unfold revoke. repeat case_match; try done. etrans; [|apply quiet_cancel]. done. Qed.

Lemma quiet_activate platform listens a m : quiet m (activate platform listens a m).2.
Proof.
  unfold activate. repeat case_match; cbn; try done; (etrans; [by eapply quiet_with_udp|]); constructor; cbn; done || lia.
Qed.

Lemma quiet_fold {A} (f : forwardManager → A → forwardManager) (l : list A) m :
  (∀ m a, quiet m (f m a)) → quiet m (foldl f m l).
Proof. intros Hf. revert m. induction l as [|a l IH]; intros m; cbn; [done|]. etrans; [apply Hf|apply IH]. Qed.

Lemma quiet_close ρ ρl m : quiet m (close ρ ρl m).
Proof.
  unfold close. etrans; [apply (quiet_cancel (mg_context m))|]. etrans; [|apply quiet_fold; intros ? [??]; apply quiet_cancel].
  apply quiet_fold. intros ? [??]. apply quiet_cancel_link.
Qed.

(** ** Registering, delivering, leaving, releasing *)

(** A new visitor holds nothing. *)
Lemma links_spawn m vs i v : links_ok m vs → vs !! i = None → request_of v = None → holds m v = None → v_log v = [] →
  links_ok m (<[i := v]> vs).
Proof.
  intros [] Hi Hq Hh Hl.
  assert (Hs : ∀ P : Visitor → Prop, some_visitor P vs → some_visitor P (<[i := v]> vs)).
  { intros P (j & u & Hu & Hp). exists j, u. rewrite lookup_insert_ne by congruence. done. }
  assert (Hnl : ∀ l, ¬ settled l v). { intros l (o & Ho). rewrite Hl in Ho. by apply not_elem_of_nil in Ho. }
  constructor; intros.
  - eauto.
  - done.
  - apply lookup_insert_Some in H as [[<- <-]|[_ ?]]; [congruence|eauto].
  - apply lookup_insert_Some in H as [[<- <-]|[? ?]], H0 as [[<- <-]|[? ?]]; try congruence; eauto.
  - eauto.
  - edestruct lo_heap0; eauto.
  - eauto.
  - edestruct lo_links0; eauto.
  - apply lookup_insert_Some in H as [[<- <-]|[_ ?]]; [|eauto]. destruct H0 as [?|Hn]; [congruence|]. by apply Hnl in Hn.
  - apply lookup_insert_Some in H as [[<- <-]|[? ?]], H0 as [[<- <-]|[? ?]]; try congruence; eauto.
  - apply lookup_insert_Some in H as [[<- <-]|[_ ?]]; [|eauto]. unfold request_of in Hq. by rewrite H0 in Hq.
  - apply lookup_insert_Some in H as [[<- <-]|[_ ?]]; [|eauto]. unfold holds in Hh. by rewrite H0 in Hh.
Qed.

Lemma links_register m vs i v id ctx a m' :
  links_ok m vs → vs !! i = Some v → request_of v = None → holds m v = None →
  register_offer id ctx (v_runtime v) m = (Some a, m') → links_ok m' (<[i := goto (Registered id a) v]> vs).
Proof.
  intros [] Hv Hq Hh E. unfold register_offer in E. destruct (_ || _) eqn:Eg; [done|]. injection E as <- <-. bool_to_prop.
  assert (Hfr : requests m !! supply m = None).
  { destruct (requests m !! supply m) eqn:E; [|done]. apply lo_requests0 in E. lia. }
  assert (Hrq : ∀ a, (<[supply m := {| rq_context := ctx; rq_runtime := v_runtime v; rq_ready := None; rq_link := None; rq_delivered := false |}]>
                        (requests m)) !! a ≫= rq_link = requests m !! a ≫= rq_link).
  { intros b. destruct (decide (b = supply m)) as [->|]; [by rewrite lookup_insert_eq, Hfr|by rewrite lookup_insert_ne by done]. }
  match goal with |- links_ok ?m' _ =>
    assert (Hho : ∀ u, holds m' u = holds m u) by (intros u; by apply holds_requests);
    assert (Hown : ∀ u, owns m' u = owns m u) by (intros u; by apply owns_requests) end.
  assert (Hlt : ∀ j u id a, vs !! j = Some u → request_of u = Some (id, a) → (a < supply m)%nat).
  { intros j u id' a Hu Hr. destruct (lo_request0 _ _ _ _ Hu Hr) as (r & Hr' & _). by eapply lo_requests0. }
  constructor; cbn [offers links requests linkHeap supply upd].
  - intros id' b Hb. apply lookup_insert_Some in Hb as [[<- <-]|[? Hb]].
    + exists i. eexists. by rewrite lookup_insert_eq.
    + eapply some_set; [done| | |eauto]; cbn; [congruence|done].
  - destruct (offers m !! id) eqn:Ei; [|rewrite map_size_insert_None by done; lia]. rewrite map_size_insert_Some by done. lia.
  - intros j u id' b Hu Hr. apply lookup_insert_Some in Hu as [[<- <-]|[Hne Hu]].
    + cbn in Hr. injection Hr as <- <-. eexists. by rewrite lookup_insert_eq.
    + pose proof (Hlt _ _ _ _ Hu Hr). rewrite lookup_insert_ne by lia. eauto.
  - intros j k u u' id1 id2 b Hu Hu' Hr Hr'. apply lookup_insert_Some in Hu as [[<- <-]|[? Hu]], Hu' as [[<- <-]|[? Hu']]; try done.
    + cbn in Hr. injection Hr as <- <-. pose proof (Hlt _ _ _ _ Hu' Hr'). lia.
    + cbn in Hr'. injection Hr' as <- <-. pose proof (Hlt _ _ _ _ Hu Hr). lia.
    + eauto.
  - intros b r Hb. apply lookup_insert_Some in Hb as [[<- <-]|[? Hb]]; [lia|]. apply lo_requests0 in Hb. lia.
  - intros l link Hl. destruct (lo_heap0 _ _ Hl) as [? Hs]. split; [lia|]. eapply some_set; [done| | |exact Hs]; cbn; [|intros; by rewrite Hho].
    intros [?|?]; [congruence|by right].
  - intros b r l Hb Hr. apply lookup_insert_Some in Hb as [[<- <-]|[? Hb]]; [done|eauto].
  - intros id' l Hl. destruct (lo_links0 _ _ Hl) as [? Hs]. split; [done|]. eapply some_set; [done| | |exact Hs]; cbn; [|intros; by rewrite Hown].
    intros Ho. unfold owns in Ho. case_match; try done; congruence.
  - intros j u l Hu. apply lookup_insert_Some in Hu as [[<- <-]|[? Hu]]; [|rewrite Hho; eauto]. rewrite Hho.
    intros [Hx|Hx]; [cbn in Hx; by rewrite Hfr in Hx|]. exact (lo_matches0 i v l Hv (or_intror Hx)).
  - intros j k u u' l Hu Hu'. rewrite !Hho. apply lookup_insert_Some in Hu as [[<- <-]|[? Hu]], Hu' as [[<- <-]|[? Hu']]; try done; cbn; rewrite ?Hfr; try done; eauto.
  - intros j u id' b Hu Hp. apply lookup_insert_Some in Hu as [[<- <-]|[? Hu]]; [done|]. rewrite Hrq. eauto.
  - intros j u l Hu Hp. apply lookup_insert_Some in Hu as [[<- <-]|[? Hu]]; [done|]. eauto.
Qed.

(** A request whose channel or flag changes. *)
Lemma links_request m vs a r r' : links_ok m vs → requests m !! a = Some r →
  rq_runtime r' = rq_runtime r → rq_link r' = rq_link r → (rq_delivered r = true → rq_delivered r' = true) →
  links_ok (m <| requests := <[a := r']> (requests m) |>) vs.
Proof.
  intros [] Ha Hrt Hlk Hdl.
  assert (Hrq : ∀ b, (<[a := r']> (requests m)) !! b ≫= rq_link = requests m !! b ≫= rq_link).
  { intros b. destruct (decide (b = a)) as [->|]; [by rewrite lookup_insert_eq, Ha|by rewrite lookup_insert_ne by done]. }
  match goal with |- links_ok ?m' _ =>
    assert (Hho : ∀ u, holds m' u = holds m u) by (intros u; by apply holds_requests);
    assert (Hown : ∀ u, owns m' u = owns m u) by (intros u; by apply owns_requests) end.
  constructor; cbn [offers links requests linkHeap supply upd]; intros; rewrite ?Hho in *; eauto.
  - edestruct lo_request0 as (r0 & Hr0 & ?); [done|done|]. destruct (decide (a = a0)) as [->|].
    + rewrite lookup_insert_eq. exists r'. split; [done|]. simplify_eq. congruence.
    + rewrite lookup_insert_ne by done. eauto.
  - apply lookup_insert_Some in H as [[<- <-]|[? ?]]; eauto.
  - edestruct lo_heap0 as [? Hs]; [done|]. split; [done|]. eapply some_mono, Hs. cbn. intros. by rewrite Hho.
  - apply lookup_insert_Some in H as [[<- <-]|[? ?]]; [|eauto]. edestruct lo_given0; [done|by rewrite <- Hlk|]. eauto.
  - edestruct lo_links0 as [? Hs]; [done|]. split; [done|]. eapply some_mono, Hs. cbn. intros. by rewrite Hown.
  - rewrite Hrq. eauto.
Qed.

(** The link a request is given is new and belongs to the visitor that waits. *)
Lemma links_give m vs a r offer i v id :
  links_ok m vs → requests m !! a = Some r → rq_delivered r = false → vs !! i = Some v → request_of v = Some (id, a) →
  links m !! ForwardLinkID offer = None → offer_matches (m <| linkHeap := {[supply m := {| link_context := []; link_offer := offer |}]} |>) v (supply m) →
  links_ok (m <| requests := <[a := send_ready offer (r <| rq_delivered := true |> <| rq_link := Some (supply m) |>)]> (requests m) |>
              <| links := <[ForwardLinkID offer := supply m]> (links m) |>
              <| linkHeap := <[supply m := {| link_context := S (supply m) :: rq_context r; link_offer := offer |}]> (linkHeap m) |>
              <| supply := S (S (supply m)) |>) vs.
Proof.
  intros [] Ha Hdl Hv Hq Hnew Hmt. set (l := supply m).
  set (r' := send_ready offer (r <| rq_delivered := true |> <| rq_link := Some l |>)).
  set (link := {| link_context := S l :: rq_context r; link_offer := offer |}).
  assert (Hr' : rq_link r' = Some l ∧ rq_delivered r' = true ∧ rq_runtime r' = rq_runtime r).
  { unfold r', send_ready. cbn. by case_match. }
  destruct Hr' as (Hr1 & Hr2 & Hr3).
  assert (Hfh : linkHeap m !! l = None). { destruct (linkHeap m !! l) eqn:E; [|done]. destruct (lo_heap0 _ _ E). unfold l in *. lia. }
  assert (Hnol : rq_link r = None). { destruct (rq_link r) eqn:E; [|done]. destruct (lo_given0 _ _ _ Ha E). congruence. }
  set (m' := m <| requests := <[a := r']> (requests m) |> <| links := <[ForwardLinkID offer := l]> (links m) |>
               <| linkHeap := <[l := link]> (linkHeap m) |> <| supply := S (S l) |>).
  assert (Hqv : ∀ j u, vs !! j = Some u → (∃ id', request_of u = Some (id', a)) → j = i).
  { intros j u Hu (id' & Hr). by eapply lo_distinct0. }
  assert (Hv' : holds m v = None ∧ owns m v = None ∧ holds m' v = Some l ∧ owns m' v = Some l).
  { clear -Hq Ha Hnol Hr1. unfold request_of in Hq. unfold owns, holds. unfold m'. cbn [requests upd].
    destruct (v_pc v); simplify_eq; cbn; rewrite Ha, lookup_insert_eq; cbn; done. }
  destruct Hv' as (Hv1 & Hv2 & Hv3 & Hv4).
  assert (Hho : ∀ j u, vs !! j = Some u → j ≠ i → holds m' u = holds m u ∧ owns m' u = owns m u).
  { intros j u Hu Hne. assert (Hn : ∀ id', request_of u ≠ Some (id', a)) by (intros id' Hr; apply Hne; eauto).
    clear -Hn. unfold owns, holds, m'. cbn [requests upd]. unfold request_of in Hn.
    destruct (v_pc u); try done; rewrite lookup_insert_ne by (intros <-; by eapply Hn); done. }
  assert (Hold : ∀ j u k, vs !! j = Some u → holds m u = Some k → k ≠ l).
  { intros j u k Hu Hk ->. destruct (lo_matches0 _ _ _ Hu (or_introl Hk)) as (? & ? & _). congruence. }
  assert (Hnset : ∀ j u, vs !! j = Some u → ¬ settled l u).
  { intros j u Hu Hs. destruct (lo_matches0 _ _ _ Hu (or_intror Hs)) as (? & ? & _). congruence. }
  constructor; unfold m'; cbn [offers links requests linkHeap supply upd].
  - eauto.
  - done.
  - intros j u id' b Hu Hr. destruct (lo_request0 _ _ _ _ Hu Hr) as (r0 & Hr0 & ?). destruct (decide (a = b)) as [->|].
    + rewrite lookup_insert_eq. exists r'. simplify_eq. split; [done|congruence].
    + rewrite lookup_insert_ne by done. eauto.
  - eauto.
  - intros b r0 Hb. apply lookup_insert_Some in Hb as [[<- <-]|[? Hb]]; [apply lo_requests0 in Ha; unfold l; lia|].
    apply lo_requests0 in Hb. unfold l. lia.
  - intros k lk Hk. apply lookup_insert_Some in Hk as [[<- <-]|[Hne Hk]].
    + split; [lia|]. exists i, v. split; [done|]. by left.
    + destruct (lo_heap0 _ _ Hk) as [? (j & u & Hu & Hs)]. split; [unfold l; lia|]. exists j, u. split; [done|].
      change (holds m' u = Some k ∨ settled k u).
      destruct (decide (j = i)) as [->|Hji]; [|destruct (Hho _ _ Hu Hji) as [-> _]; done].
      simplify_eq. destruct Hs as [?|?]; [congruence|by right].
  - intros b r0 k Hb Hk. apply lookup_insert_Some in Hb as [[<- <-]|[? Hb]].
    + rewrite Hr1 in Hk. injection Hk as <-. split; [done|]. rewrite lookup_insert_eq. by eexists.
    + destruct (lo_given0 _ _ _ Hb Hk) as [? Hx]. split; [done|]. rewrite lookup_insert_ne; [done|]. intros <-. destruct Hx. congruence.
  - intros id' k Hk. apply lookup_insert_Some in Hk as [[<- <-]|[Hne Hk]].
    + split; [exists link; rewrite lookup_insert_eq; done|]. exists i, v. done.
    + destruct (lo_links0 _ _ Hk) as [(lk & Hlk & He) (j & u & Hu & Hs)].
      split; [exists lk; rewrite lookup_insert_ne by congruence; done|]. exists j, u. split; [done|].
      change (owns m' u = Some k).
      destruct (decide (j = i)) as [->|Hji]; [simplify_eq; congruence|]. by destruct (Hho _ _ Hu Hji) as [_ ->].
  - intros j u k Hu Hk. change (holds m' u = Some k ∨ settled k u) in Hk. destruct (decide (j = i)) as [->|Hji].
    + simplify_eq. destruct Hk as [Hk|Hk].
      * rewrite Hv3 in Hk. injection Hk as <-. destruct Hmt as (lk & Hlk & Hx). cbn in Hlk. rewrite lookup_singleton_eq in Hlk.
        injection Hlk as <-. exists link. split; [apply lookup_insert_eq|done].
      * destruct (lo_matches0 _ _ _ Hv (or_intror Hk)) as (lk & Hlk & Hx). exists lk.
        split; [cbn; rewrite lookup_insert_ne by congruence|]; done.
    + destruct (Hho _ _ Hu Hji) as [Hh _]. rewrite Hh in Hk. destruct (lo_matches0 _ _ _ Hu Hk) as (lk & Hlk & Hx). exists lk.
      split; [cbn; rewrite lookup_insert_ne by congruence|]; done.
  - intros j k u u' x Hu Hu' Hx Hx'. change (holds m' u = Some x) in Hx. change (holds m' u' = Some x) in Hx'.
    destruct (decide (j = i)) as [->|Hji], (decide (k = i)) as [->|Hki]; [done|..].
    + rewrite Hv in Hu. injection Hu as <-. rewrite Hv3 in Hx. injection Hx as <-. destruct (Hho _ _ Hu' Hki) as [Hh _]. rewrite Hh in Hx'. exfalso. exact (Hold _ _ _ Hu' Hx' eq_refl).
    + rewrite Hv in Hu'. injection Hu' as <-. rewrite Hv3 in Hx'. injection Hx' as <-. destruct (Hho _ _ Hu Hji) as [Hh _]. rewrite Hh in Hx. exfalso. exact (Hold _ _ _ Hu Hx eq_refl).
    + destruct (Hho _ _ Hu Hji) as [Hh _], (Hho _ _ Hu' Hki) as [Hh' _]. rewrite Hh in Hx. rewrite Hh' in Hx'. eauto.
  - intros j u id' b Hu Hp. destruct (decide (b = a)) as [->|]; [rewrite lookup_insert_eq; cbn; rewrite Hr1; by eexists|].
    rewrite lookup_insert_ne by done. eauto.
  - eauto.
Qed.

Lemma links_deliver m vs offer now : links_ok m vs → links_ok (deliverOffer offer now m) vs.
Proof.
  intros Hok. unfold deliverOffer. destruct (offers m !! OfferRequestID offer) as [a|] eqn:Eo; [|done]. cbn.
  destruct (requests m !! a) as [r|] eqn:Ea; [|done]. cbn. destruct (rq_delivered r) eqn:Ed; [done|].
  destruct (lo_offers _ _ Hok _ _ Eo) as (i & v & Hv & Hq).
  assert (Hu : ∀ r' : forwardOfferRequest, rq_runtime r' = rq_runtime r → rq_link r' = rq_link r → rq_delivered r' = true →
            links_ok (m <| requests := <[a := r']> (requests m) |>) vs).
  { intros r' H1 H2 H3. by eapply links_request. }
  destruct (offer_fits _ _ _) eqn:Ef; [|apply Hu; unfold send_ready; cbn; by case_match].
  destruct (links m !! ForwardLinkID offer) eqn:El; [by apply Hu|].
  apply (links_give m vs a r offer i v (OfferRequestID offer)); try done.
  unfold offer_fits in Ef. bool_to_prop. cbn in *. destruct (lo_request _ _ Hok _ _ _ _ Hv Hq) as (r0 & Hr0 & Hrt). simplify_eq.
  repeat match goal with H : bool_decide _ = true |- _ => apply bool_decide_eq_true in H end.
  eexists. cbn. rewrite lookup_singleton_eq, <- Hrt. split; [done|]. cbn. by auto.
Qed.

(** ** Steps of a visitor *)

Lemma settled_log k l o v : settled k (log l o v) ↔ settled k v ∨ k = l.
Proof.
  unfold settled. cbn. split.
  - intros (o' & [?|Hx%list_elem_of_singleton]%elem_of_app); [eauto|]. injection Hx as -> ->. by right.
  - intros [(o' & ?)| ->]; [exists o'|exists o]; apply elem_of_app; [by left|right]. by apply list_elem_of_singleton.
Qed.

Lemma settled_goto k pc v : settled k (goto pc v) ↔ settled k v.
Proof. done. Qed.

(** A step inside the life of a request or of a link. *)
Lemma moves_inside m v v' :
  v_runtime v' = v_runtime v → request_of v' = request_of v → holds m v' = holds m v → owns m v' = owns m v → v_log v' = v_log v →
  (∀ id a, v_pc v' = Leaving id a true → is_Some (requests m !! a ≫= rq_link)) → (∀ l, v_pc v' ≠ Release l) → moves m m v v'.
Proof.
  intros E1 E2 E3 E4 E5 E6 E7. constructor; unfold settled; try done; rewrite ?E2, ?E3, ?E4, ?E5; auto.
  intros l Hl. by apply E7 in Hl.
Qed.

Lemma moves_settle m v l o : holds m v = Some l → owns m v = Some l → request_of v = None →
  moves m m v (goto (Release l) (log l o v)).
Proof.
  intros Hh Ho Hq. constructor; try done; cbn; intros; rewrite ?Hh, ?Ho, ?Hq in *; auto.
  - by apply settled_goto, settled_log; left.
  - apply settled_goto, settled_log in H as [?| ->]; auto.
  - apply settled_goto, settled_log. right. congruence.
Qed.

(** What [releaseForwardLink] does to the tables. *)
Lemma release_links m l :
  let m' := releaseForwardLink l m in
  requests m' = requests m ∧ linkHeap m' = linkHeap m ∧ supply m' = supply m ∧ offers m' = offers m ∧
  (∀ id k, links m' !! id = Some k → links m !! id = Some k) ∧
  (∀ id link, linkHeap m !! l = Some link → ForwardLinkID (link_offer link) = id → links m' !! id ≠ Some l).
Proof.
  cbn. unfold releaseForwardLink. pose proof (quiet_cancel_link l m) as [Ho Hl Hr Hh _].
  assert (Es : supply (cancel_link l m) = supply m).
  { unfold cancel_link. case_match; [|done]. unfold cancel_ctx. by case_match. }
  rewrite Hh. destruct (linkHeap m !! l) as [link|] eqn:E.
  - rewrite Hl. case_bool_decide as Hb; cbn; rewrite ?Hl; split_and!; try done.
    + intros id k Hk. by apply lookup_delete_Some in Hk as [_ ?].
    + intros id lk [= <-] <-. by rewrite lookup_delete_eq.
    + intros id lk [= <-] <-. done.
  - split_and!; try done. by rewrite Hl.
Qed.

Lemma moves_release m vs i v v' l : links_ok m vs → vs !! i = Some v → holds m v = Some l → owns m v = Some l → request_of v = None →
  v_runtime v' = v_runtime v → v_log v' = v_log v → request_of v' = None → owns m v' = None → (∀ id a, v_pc v' ≠ Leaving id a true) →
  (∀ k, v_pc v' ≠ Release k) → (holds m v' = Some l ∨ holds m v' = None ∧ settled l v) → moves m (releaseForwardLink l m) v v'.
Proof.
  intros Hok Hv Hh Ho Hq Hrt Hlg Hq' Ho' Hna Hnr Hx. destruct (release_links m l) as (E1 & E2 & E3 & E4 & E5 & E6).
  assert (Hst : ∀ k, settled k v' ↔ settled k v) by (intros k; unfold settled; by rewrite Hlg).
  constructor; try done; rewrite ?E4, ?Hq, ?Hq', ?Ho', ?Hh; try done.
  - intros id k Hk. split; [by apply E5|]. rewrite Ho. intros [= <-]. pose proof (E5 _ _ Hk) as Hl.
    destruct (lo_links _ _ Hok _ _ Hl) as [(link & Hlk & Hid) _]. by apply (E6 _ _ Hlk Hid) in Hk.
  - intros k. destruct Hx as [Hx|[Hx _]]; rewrite Hx; done.
  - intros k [= <-]. destruct Hx as [?|[_ ?]]; [by left|]. right. by apply Hst.
  - intros k. by rewrite Hst.
  - intros k. rewrite Hst. by left.
  - intros id a Ha. by apply Hna in Ha.
  - intros k Hk. by apply Hnr in Hk.
Qed.

(** A step that only changes the program counter within one phase. *)
Ltac inside :=
  match goal with
  | E : v_pc ?v = _, Hok : links_ok ?m ?vs, Hv : ?vs !! ?i = Some ?v |- links_ok ?m (<[?i := _]> ?vs) =>
    eapply links_move; [exact Hok|exact Hv|]; apply moves_inside; unfold request_of, owns, holds; cbn; rewrite ?E; done
  end.

Lemma links_requesting m vs i v c m' v' : links_ok m vs → vs !! i = Some v → requesting c m v = Some (m', v') →
  links_ok m' (<[i := v']> vs).
Proof.
  intros Hok Hv E. unfold requesting in E. destruct (v_pc v) as [ctx|id a|id a|id a acc|l|l|l|l|l|l|l|l|l|l ?|l| |] eqn:Ep; try done.
  - destruct c as [id| | | | | | |]; try done. destruct (done_ctx m ctx); [injection E as <- <-; inside|].
    destruct id as [id|]; [|injection E as <- <-; inside].
    destruct (register_offer id ctx (v_runtime v) m) as [[a|] m1] eqn:Er.
    + injection E as <- <-. eapply links_register; [done|done|by unfold request_of; rewrite Ep|by unfold holds; rewrite Ep|done].
    + assert (m1 = m) as -> by (unfold register_offer in Er; destruct (_ || _); [congruence|done]). injection E as <- <-. inside.
  - destruct c as [|[]| | | | | |]; try done; injection E as <- <-; inside.
  - destruct c; try done.
    + destruct (requests m !! a) as [r|] eqn:Ea; [|done]. destruct (rq_ready r) as [offer|]; [|done]. injection E as <- <-.
      assert (Hok' : links_ok (m <| requests := <[a := r <| rq_ready := None |>]> (requests m) |>) vs) by by eapply links_request.
      eapply links_move; [exact Hok'|done|].
      apply moves_inside; unfold request_of, owns, holds; cbn; rewrite ?Ep; try done.
      intros id' a' [= -> -> Hacc]. rewrite lookup_insert_eq. cbn. destruct (rq_link r); [by eexists|].
      by rewrite orb_true_r in Hacc.
    + injection E as <- <-. inside.
    + destruct (requests m !! a); [|done]. destruct (done_ctx _ _); [|done]. injection E as <- <-. inside.
  - destruct c; try done. unfold leave_offer in E.
    assert (Hh : holds m v = requests m !! a ≫= rq_link) by (unfold holds; by rewrite Ep).
    assert (Ho : owns m v = requests m !! a ≫= rq_link) by (unfold owns; rewrite Ep; done).
    assert (Hq : request_of v = Some (id, a)) by (unfold request_of; by rewrite Ep).
    destruct (requests m !! a ≫= rq_link) as [l|] eqn:El; injection E as <- <-; (eapply links_move; [done|done|]); constructor;
      try done; cbn [offers links requests linkHeap supply upd]; rewrite ?Hh, ?Ho, ?Hq.
    all: try (intros id' b Hb; apply lookup_delete_Some in Hb as [? ?]; split; [done|congruence]).
    all: try (apply map_subseteq_size, delete_subseteq).
    all: try (intros k [= <-]; left; by destruct acc).
    all: try by destruct acc.
    all: try (by intros l'; left).
  - destruct c; try done. injection E as <- <-. eapply links_move; [done|done|].
    eapply moves_release; try done; unfold owns, holds, request_of; cbn; rewrite ?Ep; try done. by left.
  - destruct c; try done. injection E as <- <-. eapply links_move; [done|done|].
    assert (Hh : holds m v = Some l) by (unfold holds; by rewrite Ep).
    constructor; try done; unfold owns, request_of; cbn; rewrite ?Ep, ?Hh; try done.
    + intros k [= <-]. right. apply settled_goto, settled_log. by right.
    + intros k Hk. apply settled_goto, settled_log. by left.
    + intros k [?| ->]%settled_goto%settled_log; by auto.
Qed.

Lemma links_serving m vs i v c m' v' : links_ok m vs → vs !! i = Some v → serving c m v = Some (m', v') →
  links_ok m' (<[i := v']> vs).
Proof.
  intros Hok Hv E. unfold serving in E. destruct (v_pc v) as [ctx|id a|id a|id a acc|l|l|l|l|l|l|l|l|l|l ?|l| |] eqn:Ep; try done;
    destruct c; try done.
  - injection E as <- <-. destruct (link_done m l); inside.
  - injection E as <- <-. destruct ok; inside.
  - injection E as <- <-. destruct failure; inside.
  - destruct (stop_timer v) as [stopped v1] eqn:Et. unfold stop_timer in Et. injection E as <- <-.
    destruct (bool_decide _); injection Et as <- <-; destruct (_ || _); inside.
  - assert (Hin : ∀ lease, links_ok m (<[i := goto (Copying l) (v <| v_lease := lease |>)]> vs)) by (intros lease; inside).
    destruct (v_lease v) as [lease|] eqn:Elz.
    + destruct (activate_lease lease (tcpCapacity m)) as [lease' capacity]. injection E as <- <-. eapply links_quiet; [apply Hin|done].
    + injection E as <- <-. replace v with (v <| v_lease := None |>) by (destruct v; cbn in *; congruence). apply Hin.
  - injection E as <- <-. eapply links_move; [done|done|]. apply moves_settle; unfold owns, holds, request_of; by rewrite Ep.
  - injection E as <- <-. eapply links_move; [done|done|]. apply moves_settle; unfold owns, holds, request_of; by rewrite Ep.
  - injection E as <- <-. eapply links_move; [done|done|]. apply moves_settle; unfold owns, holds, request_of; by rewrite Ep.
  - injection E as <- <-. eapply links_move; [done|done|]. pose proof (lo_release _ _ Hok _ _ _ Hv Ep) as Hst.
    unfold stop_timer. destruct (bool_decide _); cbn [snd];
      (eapply moves_release; try done; unfold owns, holds, request_of; cbn; rewrite ?Ep; try done; by right).
  - assert (Hin : ∀ lease, links_ok m (<[i := goto Finished (v <| v_lease := lease |>)]> vs)) by (intros lease; inside).
    destruct (v_lease v) as [lease|] eqn:Elz.
    + destruct (close_capacity lease (tcpCapacity m)) as [lease' capacity]. injection E as <- <-. eapply links_quiet; [apply Hin|done].
    + injection E as <- <-. replace v with (v <| v_lease := None |>) by (destruct v; cbn in *; congruence). apply Hin.
Qed.

(** ** Capacity *)

(** What a visitor counts for, in all or under a name. *)
Definition counted (sel : option string) (l : forwardLease) : bool :=
  negb (lease_closed l) && match sel with Some name => bool_decide (lease_name l = name) | None => true end.
Definition lease_total (sel : option string) (lease : option forwardLease) : Z :=
  match lease with Some l => if counted sel l then 1 else 0 | None => 0 end.
Definition lease_waits (sel : option string) (lease : option forwardLease) : Z :=
  match lease with Some l => if counted sel l && lease_pending l then 1 else 0 | None => 0 end.
Definition live_counts (sel : option string) (vs : gmap nat Visitor) : forwardCounts :=
  {| count_pending := sum_of (λ _ v, lease_waits sel (v_lease v)) vs; count_total := sum_of (λ _ v, lease_total sel (v_lease v)) vs |}.

#[local] Arguments live_counts : simpl never.

Record capacity_ok (c : forwardCapacity) (vs : gmap nat Visitor) : Prop := {
  co_all : capacity_all c = live_counts None vs;
  co_name name : counts_of name c = live_counts (Some name) vs;
  co_entry name n : capacity_names c !! name = Some n → 0 < count_total n;
  co_bound : count_pending (capacity_all c) <= maxForwardPending ∧ count_total (capacity_all c) <= maxForwardConnections;
  co_bound_name name : count_pending (counts_of name c) <= maxForwardPendingPerName ∧ count_total (counts_of name c) <= maxForwardConnectionsPerName
}.

Lemma counts_eq a b : count_pending a = count_pending b → count_total a = count_total b → a = b.
Proof. destruct a, b; cbn; congruence. Qed.

Lemma live_set sel vs i v' :
  live_counts sel (<[i := v']> vs) =
    {| count_pending := count_pending (live_counts sel vs) - lease_waits sel (vs !! i ≫= v_lease) + lease_waits sel (v_lease v');
       count_total := count_total (live_counts sel vs) - lease_total sel (vs !! i ≫= v_lease) + lease_total sel (v_lease v') |}.
Proof.
  unfold live_counts. cbn. f_equal.
  - rewrite (sum_of_set (λ _ v, lease_waits sel (v_lease v))) by done. by destruct (vs !! i).
  - rewrite (sum_of_set (λ _ v, lease_total sel (v_lease v))) by done. by destruct (vs !! i).
Qed.

Lemma live_same sel vs i v' : vs !! i ≫= v_lease = v_lease v' → live_counts sel (<[i := v']> vs) = live_counts sel vs.
Proof. intros E. rewrite live_set, E. apply counts_eq; cbn; lia. Qed.

Lemma capacity_same c vs i v' : capacity_ok c vs → vs !! i ≫= v_lease = v_lease v' → capacity_ok c (<[i := v']> vs).
Proof. intros [] E. constructor; intros; rewrite ?(live_same _ _ _ _ E); eauto. Qed.

Lemma counts_insert name n name' c all :
  counts_of name' {| capacity_all := all; capacity_names := <[name := n]> (capacity_names c) |} =
    if bool_decide (name = name') then n else counts_of name' c.
Proof.
  unfold counts_of. cbn. case_bool_decide as E; [subst; by rewrite lookup_insert_eq|by rewrite lookup_insert_ne].
Qed.

Lemma counts_forget name name' c all :
  counts_of name' {| capacity_all := all; capacity_names := delete name (capacity_names c) |} =
    if bool_decide (name = name') then zero_counts else counts_of name' c.
Proof.
  unfold counts_of. cbn. case_bool_decide as E; [subst; by rewrite lookup_delete_eq|by rewrite lookup_delete_ne].
Qed.

(** Fewer wait than there are. *)
Lemma sum_of_le {A} (f g : nat → A → Z) items : (∀ i a, 0 <= f i a <= g i a) → 0 <= sum_of f items <= sum_of g items.
Proof.
  intros H. induction items as [|i a items Hi IH] using map_ind; [done|]. rewrite !sum_of_insert by done. specialize (H i a). lia.
Qed.

Lemma live_le sel vs : 0 <= count_pending (live_counts sel vs) <= count_total (live_counts sel vs).
Proof.
  apply (sum_of_le (λ _ v, lease_waits sel (v_lease v))). intros i v. unfold lease_waits, lease_total.
  destruct (v_lease v) as [l|]; [|lia]. destruct (counted sel l), (lease_pending l); cbn; lia.
Qed.

Lemma capacity_acquire c vs i name lease c' v : capacity_ok c vs → vs !! i = None → acquire name c = (Some lease, c') → v_lease v = Some lease →
  capacity_ok c' (<[i := v]> vs).
Proof.
  intros [] Hi E Hl. unfold acquire in E. destruct (_ || _) eqn:Eg; [done|]. injection E as <- <-. bool_to_prop.
  constructor; cbn [capacity_all capacity_names].
  - rewrite live_set, Hl, Hi, <- co_all0. apply counts_eq; cbn; lia.
  - intros name'. rewrite counts_insert, live_set, Hl, Hi, <- co_name0. cbn. case_bool_decide as E; subst; apply counts_eq; cbn; lia.
  - intros name' n Hn. apply lookup_insert_Some in Hn as [[<- <-]|[_ Hn]]; [|eauto]. cbn. rewrite co_name0. pose proof (live_le (Some name) vs). lia.
  - cbn. unfold maxForwardPending, maxForwardConnections in *. lia.
  - intros name'. rewrite counts_insert. case_bool_decide; [|eauto]. cbn. unfold maxForwardPendingPerName, maxForwardConnectionsPerName in *. lia.
Qed.

Lemma capacity_activate c vs i v v' lease lease' c' : capacity_ok c vs → vs !! i = Some v → v_lease v = Some lease →
  activate_lease lease c = (lease', c') → v_lease v' = Some lease' → capacity_ok c' (<[i := v']> vs).
Proof.
  intros Hok Hi Hl E Hl'. unfold activate_lease in E. destruct (_ || _) eqn:Eg.
  { injection E as <- <-. apply capacity_same; [done|]. by rewrite Hi, Hl'. }
  injection E as <- <-. bool_to_prop. destruct Hok. destruct lease as [name waits closed_]; cbn in *. subst.
  assert (Hpos : 0 < count_total (counts_of name c)).
  { rewrite co_name0. assert (E := live_set (Some name) vs i (v <| v_lease := None |>)).
    pose proof (live_le (Some name) (<[i := v <| v_lease := None |>]> vs)) as Hle. rewrite E in Hle. rewrite Hi in Hle. cbn in Hle. rewrite Hl in Hle.
    cbn in Hle. rewrite bool_decide_eq_true_2 in Hle by done. cbn in *. lia. }
  constructor; cbn [capacity_all capacity_names].
  - rewrite live_set, Hl', Hi. cbn. rewrite Hl, <- co_all0. apply counts_eq; cbn; lia.
  - intros name'. rewrite counts_insert, live_set, Hl', Hi. cbn. rewrite Hl, <- co_name0. cbn.
    case_bool_decide as E; subst; apply counts_eq; cbn; lia.
  - intros name' n Hn. apply lookup_insert_Some in Hn as [[<- <-]|[_ Hn]]; [|eauto]. done.
  - cbn. lia.
  - intros name'. rewrite counts_insert. case_bool_decide; [|eauto]. cbn. specialize (co_bound_name0 name). lia.
Qed.

Lemma capacity_close c vs i v v' lease lease' c' : capacity_ok c vs → vs !! i = Some v → v_lease v = Some lease →
  close_capacity lease c = (lease', c') → v_lease v' = Some lease' → capacity_ok c' (<[i := v']> vs).
Proof.
  intros Hok Hi Hl E Hl'. unfold close_capacity in E. destruct (lease_closed lease) eqn:Eg.
  { injection E as <- <-. apply capacity_same; [done|]. by rewrite Hi, Hl'. }
  injection E as <- <-. pose proof Hok as []. destruct lease as [name waits closed_]; cbn in *. subst.
  set (n := {| count_pending := count_pending (counts_of name c) - (if waits then 1 else 0); count_total := count_total (counts_of name c) - 1 |}).
  assert (Hn : n = live_counts (Some name) (<[i := v']> vs)).
  { rewrite live_set, Hl', Hi. cbn. rewrite Hl, <- co_name0. cbn. rewrite bool_decide_eq_true_2 by done. apply counts_eq; destruct waits; cbn; lia. }
  assert (Hz : count_total n = 0 → n = zero_counts).
  { pose proof (live_le (Some name) (<[i := v']> vs)) as Hle. rewrite <- Hn in Hle. intros Hz. apply counts_eq; [change (count_pending n = 0)|change (count_total n = 0)]; lia. }
  assert (Hc : ∀ name', counts_of name' {| capacity_all := {| count_pending := count_pending (capacity_all c) - (if waits then 1 else 0);
                                                             count_total := count_total (capacity_all c) - 1 |};
                          capacity_names := if count_total n =? 0 then delete name (capacity_names c) else <[name := n]> (capacity_names c) |} =
                        if bool_decide (name = name') then n else counts_of name' c).
  { intros name'. destruct (count_total n =? 0) eqn:Ez; [|by rewrite counts_insert]. rewrite counts_forget. rewrite Hz by lia. done. }
  constructor; cbn [capacity_all capacity_names].
  - rewrite live_set, Hl', Hi. cbn. rewrite Hl, <- co_all0. apply counts_eq; destruct waits; cbn; lia.
  - intros name'. rewrite Hc. case_bool_decide as E; [by subst|]. rewrite live_set, Hl', Hi. cbn. rewrite Hl, co_name0. cbn.
    rewrite bool_decide_eq_false_2 by done. apply counts_eq; cbn; lia.
  - pose proof (live_le (Some name) (<[i := v']> vs)) as Hle. rewrite <- Hn in Hle. intros name' n'.
    change (count_total (counts_of name c) - 1) with (count_total n). destruct (count_total n =? 0) eqn:Ez; [intros [_ ?]%lookup_delete_Some; eauto|].
    intros [[<- <-]|[_ ?]]%lookup_insert_Some; [lia|eauto].
  - cbn. destruct waits; lia.
  - intros name'. rewrite Hc. case_bool_decide; [|eauto]. cbn. specialize (co_bound_name0 name). destruct waits; lia.
Qed.

(** ** The system *)

Record forwards_ok (w : World) : Prop := {
  fo_links : links_ok (manager w) (visitors w);
  fo_capacity : capacity_ok (tcpCapacity (manager w)) (visitors w);
  fo_finished i v : visitors w !! i = Some v → v_pc v = Finished → lease_total None (v_lease v) = 0
}.

(** Operations on the manager leave the capacity alone. *)
Lemma capacity_cancel ctx m : tcpCapacity (cancel_ctx ctx m) = tcpCapacity m.
Proof. by destruct ctx. Qed.
Lemma capacity_cancel_link l m : tcpCapacity (cancel_link l m) = tcpCapacity m.
Proof. unfold cancel_link. case_match; [apply capacity_cancel|done]. Qed.
Lemma capacity_with_udp udp rt m rt' m' : with_udp udp rt m = (rt', m') → tcpCapacity m' = tcpCapacity m.
Proof. unfold with_udp, applyUDPConfig. repeat case_match; by intros [= <- <-]. Qed.
Lemma capacity_apply platform results m : tcpCapacity (apply_results platform results m).2 = tcpCapacity m.
Proof.
  revert m. induction results as [|res results IH]; intros m; cbn; [done|]. repeat case_match; cbn; try done.
  rewrite IH. cbn. by eapply capacity_with_udp.
Qed.
Lemma capacity_start_runtimes listens todo m prepared : tcpCapacity (start_runtimes todo listens m prepared).2 = tcpCapacity m.
Proof.
  revert m prepared. induction todo as [|[name rt] todo IH]; intros m prepared; cbn; [done|]. repeat case_match; cbn; try done. by rewrite IH.
Qed.
Lemma capacity_start ρ listens m : tcpCapacity (start ρ listens m).2 = tcpCapacity m.
Proof.
  unfold start. pose proof (capacity_start_runtimes listens (ρ (runtimes m)) (m <| started := true |>) []) as Hq.
  cbn in *. repeat case_match; cbn in *; done.
Qed.
Lemma capacity_revoke r m : tcpCapacity (revoke r m) = tcpCapacity m.
Proof. unfold revoke. repeat case_match; try done. by rewrite capacity_cancel. Qed.
Lemma capacity_activate_binding platform listens a m : tcpCapacity (activate platform listens a m).2 = tcpCapacity m.
Proof. unfold activate. repeat case_match; cbn; try done; by eapply capacity_with_udp. Qed.
Lemma capacity_fold {A} (f : forwardManager → A → forwardManager) l m :
  (∀ m a, tcpCapacity (f m a) = tcpCapacity m) → tcpCapacity (foldl f m l) = tcpCapacity m.
Proof. intros Hf. revert m. induction l as [|a l IH]; intros m; cbn; [done|]. by rewrite IH. Qed.
Lemma capacity_close_manager ρ ρl m : tcpCapacity (close ρ ρl m) = tcpCapacity m.
Proof.
  unfold close. rewrite capacity_fold by (intros ? [??]; apply capacity_cancel).
  rewrite capacity_fold by (intros ? [??]; apply capacity_cancel_link). apply capacity_cancel.
Qed.
Lemma capacity_deliver offer now m : tcpCapacity (deliverOffer offer now m) = tcpCapacity m.
Proof. unfold deliverOffer. repeat case_match; done. Qed.
Lemma capacity_release l m : tcpCapacity (releaseForwardLink l m) = tcpCapacity m.
Proof. unfold releaseForwardLink. repeat case_match; cbn; apply capacity_cancel_link. Qed.

Lemma on_manager_ok w f : forwards_ok w → links_ok (f (manager w)) (visitors w) → tcpCapacity (f (manager w)) = tcpCapacity (manager w) →
  forwards_ok (on_manager f w).
Proof. intros [] Hl Hc. constructor; cbn; [done|by rewrite Hc|done]. Qed.

(** The lease of a visitor changes only when its stream is handled and when it ends. *)
Lemma advance_capacity c m vs i v m' v' : capacity_ok (tcpCapacity m) vs → vs !! i = Some v → advance c m v = Some (m', v') →
  capacity_ok (tcpCapacity m') (<[i := v']> vs) ∧ (v_pc v' = Finished → lease_total None (v_lease v') = 0).
Proof.
  intros Hok Hv E.
  assert (Hkeep : ∀ u, v_lease u = v_lease v → capacity_ok (tcpCapacity m) (<[i := u]> vs)).
  { intros u Hu. apply capacity_same; [done|]. by rewrite Hv. }
  unfold advance in E. destruct (requesting c m v) as [[m1 v1]|] eqn:Er.
  - injection E as <- <-. unfold requesting, register_offer, leave_offer in Er. repeat (case_match; simplify_eq/=); rewrite ?capacity_release; split; try done; by apply Hkeep.
  - unfold serving in E. destruct (v_pc v) as [ctx|id a|id a|id a acc|l|l|l|l|l|l|l|l|l|l ?|l| |]; try done; destruct c; try done.
    + injection E as <- <-. split; [by apply Hkeep|by destruct (link_done m l)].
    + injection E as <- <-. split; [by apply Hkeep|by destruct ok].
    + injection E as <- <-. split; [by apply Hkeep|by destruct failure].
    + unfold stop_timer in E. destruct (bool_decide _); injection E as <- <-; (split; [by apply Hkeep|by cbn; repeat case_match]).
    + destruct (v_lease v) as [lease|] eqn:El; [|injection E as <- <-; split; [by apply Hkeep|done]].
      destruct (activate_lease lease (tcpCapacity m)) as [lease' cap] eqn:Ea. injection E as <- <-. split; [|done]. by eapply capacity_activate.
    + injection E as <- <-. split; [by apply Hkeep|done].
    + injection E as <- <-. split; [by apply Hkeep|done].
    + injection E as <- <-. split; [by apply Hkeep|done].
    + injection E as <- <-. rewrite capacity_release. split; [|done]. apply Hkeep. unfold stop_timer. by destruct (bool_decide _).
    + destruct (v_lease v) as [lease|] eqn:El; [|injection E as <- <-; split; [by apply Hkeep|by cbn; rewrite El]].
      destruct (close_capacity lease (tcpCapacity m)) as [lease' cap] eqn:Ea. injection E as <- <-. split; [by eapply capacity_close|].
      intros _. cbn. unfold close_capacity in Ea. destruct (lease_closed lease) eqn:Ec; injection Ea as <- <-; unfold counted; cbn; by rewrite ?Ec.
Qed.

Section invariant.
Context (platform : option Z) (ρ : go_range string forwardRuntime) (ρl : go_range string nat).

Lemma visitor_step_ok a w w' : forwards_ok w → step platform ρ ρl a w = Some w' → forwards_ok w'.
Proof.
  intros Hok E. pose proof Hok as [Hl Hc Hf]. destruct a as [results|listens|i k|i k|n|i c|i now|offer now|id|revocation|listens activation| ]; cbn in E.
  - injection E as <-. apply on_manager_ok; [done| |]; unfold applyBindings; case_match; cbn; try done.
    + eapply links_quiet; [done|apply quiet_apply]. + apply capacity_apply.
  - injection E as <-. apply on_manager_ok; [done|eapply links_quiet; [done|apply quiet_start]|apply capacity_start].
  - unfold accept_visitor in E. destruct (served _ !! k) as [rt|]; [|done]. destruct (visitors w !! i) eqn:Ei; [done|].
    destruct (bool_decide _); [|done]. destruct (acquire _ _) as [[lease|] cap] eqn:Ea; injection E as <-; [|done].
    constructor; cbn.
    + apply (links_quiet (manager w)); [by apply links_spawn|done].
    + by eapply capacity_acquire.
    + intros j v Hv Hp. apply lookup_insert_Some in Hv as [[<- <-]|[_ Hv]]; [done|eauto].
  - unfold accept_association in E. destruct (served _ !! k) as [rt|]; [|done]. destruct (visitors w !! i) eqn:Ei; [done|].
    destruct (bool_decide _); [done|]. injection E as <-. constructor; cbn.
    + apply (links_quiet (manager w)); [by apply links_spawn|]. constructor; cbn; done || lia.
    + apply capacity_same; [done|]. by rewrite Ei.
    + intros j v Hv Hp. apply lookup_insert_Some in Hv as [[<- <-]|[_ Hv]]; [done|eauto].
  - injection E as <-. apply on_manager_ok; [done|by eapply links_quiet|done].
  - destruct (visitors w !! i) as [v|] eqn:Ei; [|done]. destruct (advance c (manager w) v) as [[m v']|] eqn:Ea; [|done]. injection E as <-.
    destruct (advance_capacity _ _ _ _ _ _ _ Hc Ei Ea) as [Hcap Hfin]. constructor; cbn; [|done|].
    + unfold advance in Ea. destruct (requesting _ _ _) as [[m1 v1]|] eqn:Er; [injection Ea as <- <-; by eapply links_requesting|by eapply links_serving].
    + intros j u Hu Hp. apply lookup_insert_Some in Hu as [[<- <-]|[_ Hu]]; [by apply Hfin|eauto].
  - unfold fire_timer in E. destruct (visitors w !! i) as [v|] eqn:Ei; [|done]. destruct (bool_decide _); [|done].
    destruct (v_pc v) as [ctx|id a|id a|id a acc|l|l|l|l|l|l|l|l|l|l ?|l| |] eqn:Ep; try done;
      (destruct (linkHeap _ !! l); [|done]; destruct (_ <=? _); [|done]; injection E as <-; constructor; cbn;
       [eapply links_quiet; [|apply quiet_cancel_link]; eapply links_move; [done|done|]|rewrite capacity_cancel_link; apply capacity_same; [done|by rewrite Ei]|
        intros j u Hu Hp; apply lookup_insert_Some in Hu as [[<- <-]|[_ Hu]]; [cbn in Hp; congruence|eauto]]).
    all: try (apply moves_inside; unfold request_of, owns, holds; cbn; rewrite ?Ep; done).
    pose proof (lo_release _ _ Hl _ _ _ Ei Ep) as Hst.
    constructor; try done; unfold owns, holds, request_of; cbn; rewrite ?Ep; try done; auto. by intros l' [= <-].
  - injection E as <-. apply on_manager_ok; [done|by apply links_deliver|apply capacity_deliver].
  - injection E as <-. apply on_manager_ok; [done|eapply links_quiet; [done|apply quiet_cancelLink]|]. unfold cancelLink. case_match; [apply capacity_cancel_link|done].
  - injection E as <-. apply on_manager_ok; [done|eapply links_quiet; [done|apply quiet_revoke]|apply capacity_revoke].
  - injection E as <-. apply on_manager_ok; [done|eapply links_quiet; [done|apply quiet_activate]|apply capacity_activate_binding].
  - injection E as <-. apply on_manager_ok; [done|eapply links_quiet; [done|apply quiet_close]|apply capacity_close_manager].
Qed.
End invariant.

Lemma new_manager_empty configurations :
  let m := newForwardManager configurations in
  offers m = ∅ ∧ links m = ∅ ∧ requests m = ∅ ∧ linkHeap m = ∅ ∧ capacity_all (tcpCapacity m) = zero_counts ∧ capacity_names (tcpCapacity m) = ∅.
Proof.
  cbn. unfold newForwardManager. rewrite capacity_fold by done. match goal with |- context [foldl _ ?m0 _] => set (m := m0) end.
  assert (Hq : quiet m (foldl add_runtime m configurations)) by (apply quiet_fold; intros ? ?; constructor; cbn; done || lia).
  destruct Hq as [-> -> -> -> _]. done.
Qed.

Lemma start_links_ok configurations : forwards_ok {| manager := newForwardManager configurations; visitors := ∅ |}.
Proof.
  destruct (new_manager_empty configurations) as (E1 & E2 & E3 & E4 & E5 & E6). constructor; cbn [manager visitors]; [| |done].
  - constructor; try (by intros ? ?; rewrite ?E1, ?E2, ?E3, ?E4); try done. by rewrite E1.
  - constructor; unfold counts_of; rewrite ?E5, ?E6; try done.
Qed.

Section theorems.
Context (platform : option Z) (ρ : go_range string forwardRuntime) (ρl : go_range string nat).

Lemma reachable_forwards configurations w : reachable platform ρ ρl configurations w → forwards_ok w.
Proof using Type. induction 1; [apply start_links_ok|by eapply visitor_step_ok]. Qed.

(** What the goroutine of a visitor has done about a link it no longer holds:
    the stream was copied, or the server was told that the link was cancelled
    or failed, or the write of that message failed. *)
Definition ended (l : nat) (v : Visitor) : Prop :=
  (l, Copied) ∈ v_log v ∨
  (l, CancelSent true) ∈ v_log v ∨ (∃ code, (l, FailureSent code true) ∈ v_log v) ∨
  (l, CancelSent false) ∈ v_log v ∨ (∃ code, (l, FailureSent code false) ∈ v_log v).

Lemma settled_ended l v : settled l v → ended l v.
Proof using Type. unfold ended. intros [[|[]|code []] Ho]; eauto 8. Qed.

(** C33: No link of a client's Forwards is lost on the client.  Whatever visitors
    come and go, offers arrive late or twice, links expire or are cancelled and
    Forwards are revoked, every link the client ever accepted was offered for
    the binding, name and type of the Forward its visitor came to, and that
    visitor is still responsible for it, or has copied its stream, or has sent
    the server the message that it was cancelled or failed; the code ignores
    errors of that write, so the message was written or its write failed.  No
    two visitors are responsible for the same link.  At most 128 offers are
    outstanding, and when no visitor is left the tables of offers and links are
    empty. *)
Theorem forward_links_settled configurations w : reachable platform ρ ρl configurations w →
  (∀ l link, linkHeap (manager w) !! l = Some link →
     ∃ i v, visitors w !! i = Some v ∧ offer_matches (manager w) v l ∧ (holds (manager w) v = Some l ∨ ended l v)) ∧
  (∀ i j v u l, visitors w !! i = Some v → visitors w !! j = Some u → holds (manager w) v = Some l → holds (manager w) u = Some l → i = j) ∧
  Z.of_nat (size (offers (manager w))) <= maxForwardPending ∧
  ((∀ i v, visitors w !! i = Some v → v_pc v = Finished) → offers (manager w) = ∅ ∧ links (manager w) = ∅).
Proof using Type.
  intros [[] _ _]%reachable_forwards. split_and!; [|eauto|done|].
  - intros l link Hl. destruct (lo_heap0 _ _ Hl) as [_ (i & v & Hv & Hs)]. exists i, v. destruct Hs as [Hs|Hs]; [|pose proof (settled_ended _ _ Hs)]; eauto 6.
  - intros Hfin. split; apply map_empty; intros id.
    + destruct (offers _ !! id) eqn:E; [|done]. destruct (lo_offers0 _ _ E) as (i & v & Hv & Hq). unfold request_of in Hq. by rewrite (Hfin _ _ Hv) in Hq.
    + destruct (links _ !! id) eqn:E; [|done]. destruct (lo_links0 _ _ E) as [_ (i & v & Hv & Hq)]. unfold owns, holds in Hq.
      by rewrite (Hfin _ _ Hv) in Hq.
Qed.

(** The capacity of the TCP Forwards is exact.  The counters of the manager
    are the numbers of its visitors, in all and under each name, that hold a
    lease, and of those whose stream is not yet copied; they never exceed 128
    pending and 512 in all, 64 and 256 under a name; when no visitor is left
    they are zero and no name is kept. *)
Theorem forward_capacity_exact configurations w : reachable platform ρ ρl configurations w →
  let c := tcpCapacity (manager w) in
  capacity_all c = live_counts None (visitors w) ∧
  (∀ name, counts_of name c = live_counts (Some name) (visitors w)) ∧
  count_pending (capacity_all c) <= 128 ∧ count_total (capacity_all c) <= 512 ∧
  (∀ name, count_pending (counts_of name c) <= 64 ∧ count_total (counts_of name c) <= 256) ∧
  ((∀ i v, visitors w !! i = Some v → v_pc v = Finished) → capacity_all c = zero_counts ∧ capacity_names c = ∅).
Proof using Type.
  intros [_ [] Hf]%reachable_forwards. cbn. split_and!; [done|done|apply co_bound0|apply co_bound0|apply co_bound_name0|].
  intros Hfin.
  assert (Hz : ∀ sel, count_total (live_counts sel (visitors w)) = 0).
  { intros sel. unfold live_counts. cbn. apply sum_of_zero. intros i v Hv. specialize (Hf _ _ Hv (Hfin _ _ Hv)). unfold lease_total, counted in *.
    destruct (v_lease v) as [l|]; [|done]. destruct (lease_closed l); [done|]. done. }
  assert (Hzero : ∀ sel, live_counts sel (visitors w) = zero_counts).
  { intros sel. pose proof (live_le sel (visitors w)). specialize (Hz sel). apply counts_eq; cbn; lia. }
  split; [by rewrite co_all0|]. apply map_empty. intros name. destruct (capacity_names _ !! name) as [n|] eqn:E; [|done].
  specialize (co_name0 name). unfold counts_of in co_name0. rewrite E, Hzero in co_name0. cbn in co_name0. apply co_entry0 in E. by rewrite co_name0 in E.
Qed.

(** How far a visitor is from its end. *)
Definition rank (v : Visitor) : nat :=
  match v_pc v with
  | Starting _ => 12 | Registered _ _ => 11 | Waiting _ _ => 10 | Leaving _ _ _ => 9 | Serve _ => 8 | Open _ => 7 | Bind _ => 6
  | Confirm _ => 5 | Handle _ => 4 | Copying _ | CancelOffer _ | Report _ _ | Dropping _ => 3 | Release _ | DropCancel _ => 2
  | Closing => 1 | Finished => 0
  end.

Lemma advance_rank c m v m' v' : advance c m v = Some (m', v') → (rank v' < rank v)%nat.
Proof using Type.
  unfold advance, rank. destruct (requesting c m v) as [[m1 v1]|] eqn:Er; intros E.
  - injection E as <- <-. unfold requesting in Er. destruct (v_pc v); try done; destruct c; repeat (case_match; simplify_eq/=); try lia;
      destruct (_ : bool); cbn; lia.
  - unfold serving, stop_timer in E. destruct (v_pc v); try done; destruct c; repeat (case_match; simplify_eq/=); try lia;
      destruct (_ : bool); cbn; lia.
Qed.
End theorems.

(** Visitors come to an end.  A visitor that has not finished can always go
    on, whatever the state of the manager: its next step needs no other visitor
    and no message of the server.  Every step it takes brings it nearer to its
    end, which is at most twelve steps away, so that closing the manager, which
    waits for its visitors, waits for a bounded number of steps. *)
Theorem visitors_finish platform ρ ρl configurations w i v : reachable platform ρ ρl configurations w → visitors w !! i = Some v →
  (v_pc v = Finished ∨ ∃ c w', step platform ρ ρl (Advance i c) w = Some w') ∧
  (∀ c w' v', step platform ρ ρl (Advance i c) w = Some w' → visitors w' !! i = Some v' → (rank v' < rank v <= 12)%nat).
Proof.
  intros Hw Hv. cbn [step]. rewrite Hv. split.
  - destruct (v_pc v) as [ctx|id a|id a|id a acc|l|l|l|l|l|l|l|l|l|l ?|l| |] eqn:Ep; [| | | | | | | | | | | | | | | |by left]; right;
      unfold advance, requesting, serving.
    1: exists (Drawn None); rewrite Ep; destruct (done_ctx _ _); by eexists.
    1: exists (Written true); rewrite Ep; by eexists.
    1: exists TimedOut; rewrite Ep; by eexists.
    1: exists Continue; rewrite Ep; destruct (leave_offer _ _ _) as [[]]; by eexists.
    1: exists Continue; rewrite Ep; by eexists.
    1: exists (Written true); rewrite Ep; by eexists.
    1: exists Continue; rewrite Ep; by eexists.
    1: exists (Opened true); rewrite Ep; by eexists.
    1: exists (Bound None); rewrite Ep; by eexists.
    1: exists Continue; rewrite Ep; destruct (stop_timer v); by eexists.
    1: exists Continue; rewrite Ep; destruct (v_lease v) as [l0|]; [destruct (activate_lease _ _)|]; by eexists.
    1: exists Continue; rewrite Ep; by eexists.
    1: exists (Written true); rewrite Ep; by eexists.
    1: exists (Written true); rewrite Ep; by eexists.
    1: exists Continue; rewrite Ep; by eexists.
    1: exists Continue; rewrite Ep; destruct (v_lease v) as [l0|]; [destruct (close_capacity _ _)|]; by eexists.
  - intros c w' v' E Hv'. destruct (advance c (manager w) v) as [[m u]|] eqn:Ea; [|done]. injection E as <-. cbn in Hv'.
    rewrite lookup_insert_eq in Hv'. injection Hv' as <-. apply advance_rank in Ea. split; [done|]. unfold rank. case_match; lia.
Qed.

(** The two ends of a Forward agree on its links.  When the server answers
    the request of a client's visitor with an offer, the client accepts the
    offer until it expires, and the binding that the client then sends on a data
    stream is the one the server's broker waits for: presented before the
    deadline with the authentication of the session and the ticket of the offer,
    the pending link becomes active. *)
Theorem offered_links_bind ρr policy client session rt requestID now creds r b offer r' b' events current now1 now2 :
  Offer ρr policy client session (link_request requestID rt) now (Some creds) true true r b = (offer, r', b', events) →
  OfferError offer = None → bindingLocked client session (ForwardName (rt_configuration rt)) r = Some current →
  credLinkID creds ≠ "" → credTicket creds ≠ "" → GoTime.UnixMilli now1 < GoTime.UnixMilli (Add now pendingTimeout) → now2 < Add now pendingTimeout →
  OfferRequestID offer = requestID ∧ offer_fits offer rt now1 = true ∧
  ∃ p b2, bind_section (bind_request client session offer) (authentication current) (credDigest creds) now2 b' = (b2, [], Promoted p) ∧
    active b2 !! credLinkID creds = Some (target p) ∧ BindingID (target p) = rt_bindingID rt.
Proof.
  intros E He Hb Hid Htk H1 H2. unfold Offer in E. cbn [negb] in E.
  destruct (Offer_locked _ _ _ _ _ _ _ _ _) as [[[[o lease]|[code lease]] r1] b1] eqn:El; [|injection E as <- <- <- <-; done].
  injection E as <- <- <- <-. unfold Offer_locked in El. cbn [link_request RequestName RequestType RequestBindingID] in El. rewrite Hb in El.
  destruct (_ || _) eqn:Eg; [done|]. destruct (negb (snd (policy _ _))) eqn:Epol; [done|].
  destruct (if bool_decide (Type_ _ = ForwardTypeUDP) then _ else _) as [[lease'|] lim]; [|done].
  destruct (OfferStream _ _ _ _) as [b2 [o'|err]] eqn:Eo; [|by destruct err]. injection El as -> -> <- ->.
  unfold OfferStream, createPending in Eo. destruct (closed b || _) eqn:Ec; [done|]. unfold commit_pending in Eo. rewrite Ec in Eo.
  injection Eo as <- <-. cbn. split_and!; [done| |].
  - unfold offer_fits. cbn. rewrite !(bool_decide_eq_false_2 (_ = "")) by done. rewrite !bool_decide_eq_true_2 by done. cbn. by apply Z.ltb_lt.
  - unfold bind_section. cbn. rewrite lookup_insert_eq. unfold Before. cbn [expiresAt]. rewrite (proj2 (Z.ltb_lt _ _) H2). cbn [negb].
    unfold binding_matches. cbn. rewrite !bool_decide_eq_true_2 by done. cbn. eexists _, _. split; [done|]. split; [|done].
    cbn. apply lookup_insert_eq.
Qed.

(** ** Witnesses *)

Module DemoVisitors.
Definition endpoint (port : Z) : EndpointConfig := {| EndpointIP := "127.0.0.1"; EndpointPort := port |}.
Definition web : ForwardConfig := {| ForwardName := "web"; Type_ := ForwardTypeTCP; Listen := endpoint 8080; ConfigForward.Target := endpoint 80 |}.
Definition bound : ForwardResult :=
  {| ResultName := "web"; ResultType := ForwardTypeTCP; ResultBindingID := "b1"; ResultActive := true; ResultUDP := None |}.
Definition offer (request link : string) : ForwardLinkOffer :=
  {| OfferRequestID := request; ForwardLinkID := link; ForwardOfferName := "web"; ForwardOfferType := ForwardTypeTCP;
     ForwardBindingID := "b1"; ForwardTicket := "t"; ForwardExpiresAtUnixMS := 2000; OfferError := None |}.
Definition initial : World := {| manager := newForwardManager [web]; visitors := ∅ |}.

(** Two visitors ask for links.  The first one's stream is copied; the offer
    for the second arrives after it has given up, and is returned. *)
Definition script : list Action :=
  [ApplyBindings [bound]; StartListeners (λ _, true); AcceptVisitor 0 0; AcceptVisitor 1 0;
   Advance 0 (Drawn (Some "r0")); Advance 0 (Written true); Advance 1 (Drawn (Some "r1")); Advance 1 (Written true);
   DeliverOffer (offer "r0" "l0") GoTime.unixEpoch; Advance 0 Offered; Advance 0 Continue; Advance 0 Continue;
   Advance 1 TimedOut; DeliverOffer (offer "r1" "l1") GoTime.unixEpoch; Advance 1 Continue; Advance 1 Continue;
   Advance 0 (Opened true); Advance 0 (Bound None); Advance 0 Continue; Advance 0 Continue].
Definition settling : list Action :=
  [Advance 1 (Written true); Advance 1 Continue; Advance 0 Continue; Advance 0 Continue; Advance 0 Continue].

Definition busy_run : option World := run (Some 65507) any_range any_range script initial.
Definition busy : World := from_some busy_run ltac:(vm_compute; reflexivity).
Lemma visitors_busy_reachable : reachable (Some 65507) any_range any_range [web] busy.
Proof. eapply reachable_run; [apply reach_init|]. apply from_some_eq. Qed.

Definition idle_run : option World := run (Some 65507) any_range any_range settling busy.
Definition idle : World := from_some idle_run ltac:(vm_compute; reflexivity).
Lemma idle_reachable : reachable (Some 65507) any_range any_range [web] idle.
Proof. eapply reachable_run; [apply visitors_busy_reachable|]. apply from_some_eq. Qed.

Lemma idle_finished i v : visitors idle !! i = Some v → v_pc v = Finished.
Proof.
  intros Hv. assert (Hf : map_Forall (λ _ u, (if v_pc u is Finished then true else false) = true) (visitors idle)).
  { apply (bool_decide_eq_true_1 (map_Forall (λ _ u, (if v_pc u is Finished then true else false) = true) (visitors idle))). vm_compute. reflexivity. }
  specialize (Hf _ _ Hv). cbn in Hf. by destruct (v_pc v).
Qed.
End DemoVisitors.

Lemma forward_links_settled_witness : offers (manager DemoVisitors.idle) = ∅ ∧ links (manager DemoVisitors.idle) = ∅.
Proof.
  apply (forward_links_settled (Some 65507) any_range any_range [DemoVisitors.web] DemoVisitors.idle DemoVisitors.idle_reachable).
  exact DemoVisitors.idle_finished.
Defined.

Lemma forward_capacity_exact_witness :
  count_total (capacity_all (tcpCapacity (manager DemoVisitors.busy))) = 2 ∧
  capacity_all (tcpCapacity (manager DemoVisitors.busy)) = live_counts None (visitors DemoVisitors.busy).
Proof.
  split; [vm_compute; reflexivity|].
  exact (proj1 (forward_capacity_exact (Some 65507) any_range any_range [DemoVisitors.web] DemoVisitors.busy DemoVisitors.visitors_busy_reachable)).
Defined.

Lemma visitors_finish_witness : ∃ v, visitors DemoVisitors.busy !! 0%nat = Some v ∧
  (v_pc v = Finished ∨ ∃ c w', step (Some 65507) any_range any_range (Advance 0 c) DemoVisitors.busy = Some w').
Proof.
  assert (H : is_some (visitors DemoVisitors.busy !! 0%nat) = true) by (vm_compute; reflexivity).
  exists (from_some _ H). split; [apply from_some_eq|].
  exact (proj1 (visitors_finish (Some 65507) any_range any_range [DemoVisitors.web] DemoVisitors.busy 0 (from_some _ H)
    DemoVisitors.visitors_busy_reachable (from_some_eq _ H))).
Defined.

Module DemoOffer.
Definition rt : forwardRuntime :=
  {| rt_context := []; rt_configuration := {| ForwardName := "web"; Type_ := ForwardTypeTCP; Listen := DemoVisitors.endpoint 8080; ConfigForward.Target := DemoVisitors.endpoint 80 |};
     rt_bindingID := "b1"; rt_active := true; rt_udpConfig := zero_UDPConfig; rt_listening := true |}.
Definition answer := Offer any_range DemoForward.pol "m" "s" (link_request "r" rt) 1000 (Some DemoForward.creds) true true DemoForward.published NewBroker.
Definition reply := fst (fst (fst answer)).
Definition broker := snd (fst answer).
End DemoOffer.

Lemma offered_links_bind_witness : offer_fits DemoOffer.reply DemoOffer.rt 1000 = true ∧
  ∃ p b2, bind_section (bind_request "m" "s" DemoOffer.reply) (authentication DemoForward.current) (credDigest DemoForward.creds) 1000 DemoOffer.broker =
    (b2, [], Promoted p) ∧ active b2 !! credLinkID DemoForward.creds = Some (target p) ∧ BindingID (target p) = rt_bindingID DemoOffer.rt.
Proof.
  apply (offered_links_bind any_range DemoForward.pol "m" "s" DemoOffer.rt "r" 1000 DemoForward.creds DemoForward.published NewBroker DemoOffer.reply
    (snd (fst (fst DemoOffer.answer))) DemoOffer.broker (snd DemoOffer.answer) DemoForward.current 1000 1000).
  - unfold DemoOffer.reply, DemoOffer.broker, DemoOffer.answer. by destruct (Offer _ _ _ _ _ _ _ _ _ _ _) as [[[??]?]?].
  - vm_compute. reflexivity.
  - vm_compute. reflexivity.
  - discriminate.
  - discriminate.
  - vm_compute. reflexivity.
  - vm_compute. reflexivity.
Defined.
