(* ===== verification/ManagedConfig.v ===== *)
(** * Managed configurations ([internal/protocol/managed.go],
      [internal/server/managed_session.go], [internal/client/managed_rollout.go],
      [internal/config/validation.go])

    The server owns the proxies and forwards of a managed client.  It sends
    them as one generation, identified by a revision and a digest; the client
    recomputes the digest, validates the configuration again and rebuilds the
    proxies and forwards from the message.  JSON encoding and SHA-256 are
    parameters. *)

From S2P Require Import Prelude GoTime NetAddr GoStrings Authentication PortPolicy ConfigVNet ConfigForward ConfigProxy ForwardRegistry ProxyPlane ProxyRegistry ProxySystem ProxyPermissions PeerWire ConfigurationSync.

Local Open Scope Z_scope.

(** ** Messages *)

Record ManagedProxy := {
  mp_name : string;
  mp_type : ProxyType;
  mp_localIP : string;
  mp_localPort : Z;
  mp_remotePort : Z;
  mp_domain : string;
  mp_schemes : list string
}.

Record ManagedForward := {
  mf_name : string;
  mf_type : ForwardType;
  mf_listenIP : string;
  mf_listenPort : Z;
  mf_targetIP : string;
  mf_targetPort : Z
}.

(** [None] is a nil slice of forwards, as older servers send it. *)
Record ManagedConfigPrepare := {
  PrepareRevision : Z;
  PrepareDigest : string;
  PrepareProxies : list ManagedProxy;
  PrepareForwards : option (list ManagedForward)
}.

Record ManagedConfigStatus := { StatusRevision : Z; StatusDigest : string }.
#[export] Instance managed_status_eq_dec : EqDecision ManagedConfigStatus.
Proof. solve_decision. Defined.

Record ManagedConfigActivate := {
  ActivateRevision : Z;
  ActivateDigest : string;
  ActivateForwards : list ForwardResult
}.

(** ** The configuration of the server *)

Record ManagedConfiguration := {
  ManagedRevision : Z;
  ManagedProxies : list ProxyConfig;
  ManagedForwardConfigs : list ForwardConfig
}.

Section payload.
Context (MarshalProxies : list ManagedProxy → option (list byte)).
Context (MarshalConfiguration : list ManagedProxy → list ManagedForward → option (list byte)).
Context (sha256 : list byte → list byte).

(** [None] when no set of forwards is passed. *)
Definition ManagedConfigurationDigest (proxies : list ManagedProxy) (forwards : option (list ManagedForward)) : option string :=
  match forwards with
  | None => (λ encoded, hex_encode (sha256 encoded)) <$> MarshalProxies proxies
  | Some forwards => (λ encoded, hex_encode (sha256 encoded)) <$> MarshalConfiguration proxies forwards
  end.

Definition managed_proxy (p : ProxyConfig) : ManagedProxy :=
  {| mp_name := ProxyName p; mp_type := ProxyKind p; mp_localIP := LocalIP p; mp_localPort := LocalPort p;
     mp_remotePort := PublicPort p; mp_domain := PublicDomain p; mp_schemes := Schemes p |}.

Definition managed_forward (f : ForwardConfig) : ManagedForward :=
  {| mf_name := ForwardName f; mf_type := Type_ f; mf_listenIP := EndpointIP (Listen f); mf_listenPort := EndpointPort (Listen f);
     mf_targetIP := EndpointIP (Target f); mf_targetPort := EndpointPort (Target f) |}.

(** [config.ForwardDeclaration] *)
Definition ForwardDeclaration_of (f : ForwardConfig) : ForwardDeclaration :=
  {| DeclarationName := ForwardName f; DeclarationType := Type_ f; TargetIP := EndpointIP (Target f); TargetPort := EndpointPort (Target f) |}.

Definition managedConfigurationPayload (c : ManagedConfiguration) : option (ManagedConfigPrepare * SyncConfiguration) :=
  let proxies := managed_proxy <$> ManagedProxies c in
  let forwards := managed_forward <$> ManagedForwardConfigs c in
  match ManagedConfigurationDigest proxies (Some forwards) with
  | None => None
  | Some digest =>
    Some ({| PrepareRevision := ManagedRevision c; PrepareDigest := digest; PrepareProxies := proxies; PrepareForwards := Some forwards |},
          {| SyncRevision := ManagedRevision c; SyncProxies := ProxyDeclaration_of <$> ManagedProxies c;
             SyncForwards := ForwardDeclaration_of <$> ManagedForwardConfigs c |})
  end.

(** ** The client *)

Inductive ManagedError :=
| InvalidGeneration
| EncodeFailed
| DigestMismatch
| InvalidProxies (e : ProxyConfigError)
| InvalidForwards (e : ConfigForward.ForwardError)
| ConflictingRollout
| StaleRevision
| ActivationMismatch
| InvalidBindings
| ListenFailed.

Definition proxy_of_managed (p : ManagedProxy) : ProxyConfig :=
  {| ProxyName := mp_name p; ProxyKind := mp_type p; LocalIP := mp_localIP p; LocalPort := mp_localPort p;
     PublicPort := mp_remotePort p; PublicDomain := mp_domain p; Schemes := mp_schemes p |}.

Definition forward_of_managed (f : ManagedForward) : ForwardConfig :=
  {| ForwardName := mf_name f; Type_ := mf_type f; Listen := {| EndpointIP := mf_listenIP f; EndpointPort := mf_listenPort f |};
     Target := {| EndpointIP := mf_targetIP f; EndpointPort := mf_targetPort f |} |}.

Definition status_of (p : ManagedConfigPrepare) : ManagedConfigStatus :=
  {| StatusRevision := PrepareRevision p; StatusDigest := PrepareDigest p |}.

Context `{NetipText}.

(** [validateManagedConfiguration]; the proxies with their defaults filled in. *)
Definition validateManagedConfiguration (c : ManagedConfiguration) : result ManagedError ManagedConfiguration :=
  match validateProxies (ManagedProxies c) with
  | Err e => Err (InvalidProxies e)
  | Ok proxies =>
    match validateForwards (ManagedForwardConfigs c) with
    | Some e => Err (InvalidForwards e)
    | None =>
      match validateProxyForwardNames (ProxyName <$> proxies) (ManagedForwardConfigs c) with
      | Some e => Err (InvalidForwards e)
      | None => Ok {| ManagedRevision := ManagedRevision c; ManagedProxies := proxies; ManagedForwardConfigs := ManagedForwardConfigs c |}
      end
    end
  end.

Definition validateManagedPreparation (p : ManagedConfigPrepare) : result ManagedError (list ProxyConfig * ManagedConfigStatus) :=
  if (PrepareRevision p =? 0) || bool_decide (PrepareDigest p = "") then Err InvalidGeneration
  else
    match ManagedConfigurationDigest (PrepareProxies p) (PrepareForwards p) with
    | None => Err EncodeFailed
    | Some digest =>
      if negb (bool_decide (digest = PrepareDigest p)) then Err DigestMismatch
      else
        match validateProxies (proxy_of_managed <$> PrepareProxies p) with
        | Err e => Err (InvalidProxies e)
        | Ok proxies => Ok (proxies, status_of p)
        end
    end.

Definition managedForwardConfigurations (forwards : option (list ManagedForward)) : result ManagedError (list ForwardConfig) :=
  let configurations := forward_of_managed <$> default [] forwards in
  match validateForwards configurations with
  | Some e => Err (InvalidForwards e)
  | None => Ok configurations
  end.

(** ** What the server sends, the client accepts unchanged *)

Lemma proxy_of_managed_proxy p : proxy_of_managed (managed_proxy p) = p.
Proof using Type. by destruct p. Qed.
Lemma forward_of_managed_forward f : forward_of_managed (managed_forward f) = f.
Proof using Type. by destruct f as [? ? [] []]. Qed.

Lemma proxies_of_managed (ps : list ProxyConfig) : proxy_of_managed <$> (managed_proxy <$> ps) = ps.
Proof using Type. induction ps as [|p ps IH]; [done|]. rewrite !fmap_cons, IH. f_equal. apply proxy_of_managed_proxy. Qed.
Lemma forwards_of_managed (fs : list ForwardConfig) : forward_of_managed <$> (managed_forward <$> fs) = fs.
Proof using Type. induction fs as [|f fs IH]; [done|]. rewrite !fmap_cons, IH. f_equal. apply forward_of_managed_forward. Qed.

(** The default address is one that is printed as it is read. *)
Definition loopback_text : Prop := ∃ a, ParseAddr "127.0.0.1" = Some a ∧ AddrString a = "127.0.0.1".

Lemma with_local_again index p q : loopback_text → with_local index p = Ok q →
  with_local index q = Ok q ∧ ProxyName q = ProxyName p ∧ ProxyKind q = ProxyKind p ∧ PublicPort q = PublicPort p ∧
  PublicDomain q = PublicDomain p ∧ Schemes q = Schemes p.
Proof using Type.
  intros (a & Ha & Hs) E. unfold with_local in E. case_bool_decide as El.
  - cbn in E. destruct (LocalPort p =? 0) eqn:Ep; [done|]. injection E as <-. split; [|done]. unfold with_local. cbn [LocalIP LocalPort upd].
    rewrite bool_decide_eq_false_2 by done. rewrite Ha, bool_decide_eq_true_2 by exact Hs. cbn. by rewrite Ep.
  - destruct (ParseAddr (LocalIP p)) as [ip|] eqn:Epa; [|done]. case_bool_decide as Ea; [|done]. destruct (LocalPort p =? 0) eqn:Ep; [done|].
    injection E as <-. split; [|done]. unfold with_local. rewrite bool_decide_eq_false_2 by done. rewrite Epa, bool_decide_eq_true_2 by done.
    by rewrite Ep.
Qed.

(** Checking a proxy again, after defaults have been filled in, changes nothing. *)
Lemma check_proxy_again index p seen q seen' r : check_proxy index p seen = Ok (q, seen') →
  ProxyName r = ProxyName q → ProxyKind r = ProxyKind q → PublicPort r = PublicPort q → PublicDomain r = PublicDomain q → Schemes r = Schemes q →
  ProxyName q = ProxyName p ∧ check_proxy index r seen = Ok (r, seen').
Proof using Type.
  intros E Hn Hk Hp Hd Hs. unfold check_proxy in E. destruct (ProxyKind p) eqn:Ek; try done.
  - destruct (_ || _ || _) eqn:Eb; [done|]. case_bool_decide as Et; [done|]. injection E as <- <-. split; [done|].
    unfold check_proxy. rewrite Hk, Ek, Hp, Hd, Hs, Eb. by rewrite bool_decide_eq_false_2.
  - destruct (negb _) eqn:Ep; [done|]. destruct (negb (ValidateHTTPDomain _)) eqn:Ed; [done|].
    destruct (negb (validateHTTPPublicSchemes _)) eqn:Es; [done|]. case_bool_decide as Em; [done|]. injection E as <- <-.
    assert (Hq : ProxyName (with_schemes p) = ProxyName p ∧ ProxyKind (with_schemes p) = ProxyKind p ∧ PublicPort (with_schemes p) = PublicPort p ∧
                 PublicDomain (with_schemes p) = PublicDomain p ∧ Schemes (with_schemes p) ≠ []).
    { unfold with_schemes. case_bool_decide; cbn; done. }
    destruct Hq as (H1 & H2 & H3 & H4 & H5). split; [done|]. unfold check_proxy. rewrite Hk, H2, Ek, Hp, H3, Ep, Hd, H4, Ed.
    assert (Hr : with_schemes r = r) by (unfold with_schemes; by rewrite bool_decide_eq_false_2 by congruence).
    rewrite Hr, Hs, Es, Hd, H4. rewrite H4 in Em. by rewrite bool_decide_eq_false_2.
  - destruct (_ || _ || _) eqn:Eb; [done|]. case_bool_decide as Et; [done|]. injection E as <- <-. split; [done|].
    unfold check_proxy. rewrite Hk, Ek, Hp, Hd, Hs, Eb. by rewrite bool_decide_eq_false_2.
Qed.

Lemma validate_again index seen ps qs : loopback_text → validate_proxies_from index seen ps = Ok qs →
  validate_proxies_from index seen qs = Ok qs ∧ length qs = length ps.
Proof using Type.
  intros Hlo. revert index seen qs. induction ps as [|p ps IH]; intros index seen qs E; cbn in E; [by injection E as <-|].
  destruct (negb (ValidateResourceName _)) eqn:En; [done|]. case_bool_decide as Ed; [done|].
  destruct (check_proxy index p _) as [[q seen']|e] eqn:Ec; [|done]. destruct (with_local index q) as [r|e] eqn:El; [|done].
  destruct (validate_proxies_from (S index) seen' ps) as [rs|e] eqn:Er; [|done]. injection E as <-.
  destruct (with_local_again _ _ _ Hlo El) as (Hl & H1 & H2 & H3 & H4 & H5).
  destruct (check_proxy_again _ _ _ _ _ r Ec H1 H2 H3 H4 H5) as [Hn Hc]. destruct (IH _ _ _ Er) as [Hr Hlen]. split; [|cbn; by rewrite Hlen].
  cbn. rewrite H1, Hn, En, bool_decide_eq_false_2 by done. by rewrite Hc, Hl, Hr.
Qed.

Lemma validateProxies_again ps qs : loopback_text → validateProxies ps = Ok qs → validateProxies qs = Ok qs.
Proof using Type.
  intros Hlo E. unfold validateProxies in *. destruct (_ <? _) eqn:El; [done|]. destruct (validate_again _ _ _ _ Hlo E) as [Ev Hlen].
  by rewrite Hlen, El.
Qed.

(** A client accepts the configuration the server has for it.  When a
    managed configuration has passed the validation of the server, with its
    defaults filled in, the generation sent for it passes every check of the
    client: the digest agrees, and the client rebuilds exactly the proxies and
    forwards of the server's configuration, under the same revision and digest. *)
Theorem managed_payload_accepted c0 c preparation declarations :
  loopback_text → (∀ bs, length (sha256 bs) = 32%nat) →
  validateManagedConfiguration c0 = Ok c → ManagedRevision c ≠ 0 → managedConfigurationPayload c = Some (preparation, declarations) →
  validateManagedPreparation preparation = Ok (ManagedProxies c, status_of preparation) ∧
  managedForwardConfigurations (PrepareForwards preparation) = Ok (ManagedForwardConfigs c) ∧
  StatusRevision (status_of preparation) = ManagedRevision c ∧
  SyncProxies declarations = ProxyDeclaration_of <$> ManagedProxies c ∧
  SyncForwards declarations = ForwardDeclaration_of <$> ManagedForwardConfigs c.
Proof using Type.
  intros Hlo Hsha Ev Hrev Ep. unfold managedConfigurationPayload in Ep.
  destruct (ManagedConfigurationDigest _ _) as [digest|] eqn:Ed; [|done]. injection Ep as <- <-.
  unfold validateManagedConfiguration in Ev. destruct (validateProxies (ManagedProxies c0)) as [qs|] eqn:Eq; [|done].
  destruct (validateForwards _) eqn:Ef; [done|]. destruct (validateProxyForwardNames _ _); [done|]. injection Ev as <-. cbn in *.
  assert (Hdig : digest ≠ "").
  { destruct (MarshalConfiguration _ _) as [bs|]; [|done]. injection Ed as <-. specialize (Hsha bs). by destruct (sha256 bs). }
  split_and!; try done.
  - unfold validateManagedPreparation. cbn. rewrite (proj2 (Z.eqb_neq _ _) Hrev), bool_decide_eq_false_2 by done. cbn.
    rewrite Ed. cbn. rewrite bool_decide_eq_true_2 by done. cbn. rewrite proxies_of_managed. by rewrite (validateProxies_again _ _ Hlo Eq).
  - unfold managedForwardConfigurations. cbn. by rewrite forwards_of_managed, Ef.
Qed.
End payload.

(** ** Witness *)

Module DemoManaged.
(** A digest of its own for every text. *)
Definition pad (bs : list byte) : list byte := take 32 (bs ++ replicate 32 Byte.x00).
Definition marshal_proxies (ps : list ManagedProxy) : option (list byte) := Some (String.list_byte_of_string (String.concat "," (mp_name <$> ps))).
Definition marshal (ps : list ManagedProxy) (fs : list ManagedForward) : option (list byte) :=
  Some (String.list_byte_of_string (String.concat "," (mp_name <$> ps) +:+ "/" +:+ String.concat "," (mf_name <$> fs))).
Definition ssh : ProxyConfig :=
  {| ProxyName := "ssh"; ProxyKind := ProxyTypeTCP; LocalIP := ""; LocalPort := 22; PublicPort := 7001; PublicDomain := ""; Schemes := [] |}.
Definition db : ForwardConfig :=
  {| ForwardName := "db"; Type_ := ForwardTypeTCP; Listen := {| EndpointIP := "127.0.0.1"; EndpointPort := 5432 |};
     Target := {| EndpointIP := "10.0.0.1"; EndpointPort := 5432 |} |}.
Definition written (revision : Z) : ManagedConfiguration := {| ManagedRevision := revision; ManagedProxies := [ssh]; ManagedForwardConfigs := [db] |}.
Definition loaded (revision : Z) : ManagedConfiguration :=
  {| ManagedRevision := revision; ManagedProxies := [ssh <| LocalIP := "127.0.0.1" |>]; ManagedForwardConfigs := [db] |}.
Definition payload (revision : Z) := managedConfigurationPayload marshal_proxies marshal pad (loaded revision).
Lemma payload_is_some revision : is_some (payload revision) = true.
Proof. reflexivity. Qed.
Definition sent (revision : Z) := from_some (payload revision) (payload_is_some revision).
Lemma pad_length bs : length (pad bs) = 32%nat.
Proof. unfold pad. rewrite length_take, length_app, length_replicate. lia. Qed.
Lemma loopback : loopback_text (H := Dotted.text).
Proof. eexists. split; vm_compute; reflexivity. Qed.
End DemoManaged.

Lemma managed_payload_accepted_witness :
  validateManagedPreparation DemoManaged.marshal_proxies DemoManaged.marshal DemoManaged.pad (H := Dotted.text) (DemoManaged.sent 3).1 =
    Ok (ManagedProxies (DemoManaged.loaded 3), status_of (DemoManaged.sent 3).1).
Proof.
  apply (managed_payload_accepted DemoManaged.marshal_proxies DemoManaged.marshal DemoManaged.pad (H := Dotted.text)
    (DemoManaged.written 3) (DemoManaged.loaded 3) (DemoManaged.sent 3).1 (DemoManaged.sent 3).2).
  - exact DemoManaged.loopback.
  - exact DemoManaged.pad_length.
  - vm_compute. reflexivity.
  - done.
  - rewrite <- surjective_pairing. apply from_some_eq.
Defined.
