(* ===== verification/ConfigurationReload.v ===== *)
(** * Reloading the server's configuration
      ([internal/server/configuration_reload.go],
      [internal/config/authentication_files.go])

    A changed configuration is compared with the current one: which clients
    lose their authentication, which managed clients get a new generation, and
    whether the revisions of the managed configurations move forward.  The
    authentication records are those of [Authentication], the managed
    configurations those of [ManagedConfig]. *)

From stdpp Require Import sorting.
From S2P Require Import Prelude GoTime NetAddr Authentication PortPolicy ConfigVNet ConfigForward ConfigProxy ProxyPlane ProxyRegistry ProxyPermissions ManagedConfig.

Local Open Scope Z_scope.

(** [reflect.DeepEqual]; it also tells a nil slice from an empty one, which the
    lists of the model do not. *)
Class DeepEqual (A : Type) := {
  deep_equal : A → A → bool;
  deep_equal_sound a b : deep_equal a b = true → a = b
}.

(** ** Clients of the configuration *)

Record GovernedClient := { governed_id : string; governed_token : string; governed_permissions : GovernedPermissions }.
Record ManagedClient := {
  managed_id : string;
  managed_token : string;
  managed_rules : list ForwardIPRule;
  managed_configuration : ManagedConfiguration
}.

Record ReloadConfig := {
  SharedToken : option string;
  GovernedClientsPath : string;
  ManagedClientsPath : string;
  GovernedByID : gmap string GovernedClient;
  ManagedByID : gmap string ManagedClient
}.
#[export] Instance eta_ReloadConfig : Eta ReloadConfig := λ c,
  {| SharedToken := SharedToken c; GovernedClientsPath := GovernedClientsPath c; ManagedClientsPath := ManagedClientsPath c;
     GovernedByID := GovernedByID c; ManagedByID := ManagedByID c |}.

Section reload.
Context `{Coll} `{!DeepEqual ManagedConfiguration} `{!DeepEqual GovernedClient}.
Context (sha256 : string → digest).
Context (ρg : go_range string GovernedClient) (ρm : go_range string ManagedClient).

Definition auth_record (mode clientID token : string) : AuthRecord :=
  {| RecordContext := {| Mode := mode; ContextClientID := clientID; CredentialID := []; Generation := 0 |}; Token := token |}.

Definition auth_records (c : ReloadConfig) : list AuthRecord :=
  let sharedToken := default "" (SharedToken c) in
  (if bool_decide (sharedToken = "") then [] else [auth_record ModeShared "" sharedToken]) ++
  ((λ g, auth_record ModeGoverned (governed_id g) (governed_token g)) <$> (ρg (GovernedByID c)).*2) ++
  ((λ g, auth_record ModeManaged (managed_id g) (managed_token g)) <$> (ρm (ManagedByID c)).*2).

Definition BuildAuthenticationSnapshot (c : ReloadConfig) : option Snapshot := NewSnapshot sha256 (auth_records c).

(** The clients of a governed context differ between two configurations. *)
Definition governed_changed (clientID : string) (current candidate : ReloadConfig) : bool :=
  match GovernedByID current !! clientID, GovernedByID candidate !! clientID with
  | Some g, Some g' => negb (deep_equal g g')
  | None, None => false
  | _, _ => true
  end.

Definition revoked_context (candidateSnapshot : Snapshot) (current candidate : ReloadConfig) (context : Context) : bool :=
  if negb (ContainsRecord (Some candidateSnapshot) context) then true
  else bool_decide (Mode context = ModeGoverned) && governed_changed (ContextClientID context) current candidate.

(** [coll.SliceFilter] keeps the order. *)
Definition revokedAuthenticationContexts (currentSnapshot candidateSnapshot : Snapshot) (current candidate : ReloadConfig) : list Context :=
  filter (λ c, revoked_context candidateSnapshot current candidate c = true) (Contexts (Some currentSnapshot)).

Definition changed_managed (current : ReloadConfig) (clientID : string) (next : ManagedClient) : option string :=
  match ManagedByID current !! clientID with
  | None => None
  | Some previous =>
    if negb (bool_decide (managed_token previous = managed_token next)) then None
    else if negb (deep_equal (managed_configuration previous) (managed_configuration next)) then Some clientID else None
  end.

Definition string_le (a b : string) : Prop := String.leb a b = true.
#[local] Instance string_le_dec : RelDecision string_le.
Proof using Type. intros a b. unfold string_le. apply _. Defined.

(** [sort.Strings] *)
Definition changedManagedClients (current candidate : ReloadConfig) : list string :=
  merge_sort string_le (default [] (MapFilterToSlice (ManagedByID candidate) (changed_managed current))).

(** One round of the loop; the error names the client. *)
Definition bad_transition (current : ReloadConfig) (entry : string * ManagedClient) : bool :=
  let '(clientID, next) := entry in
  match ManagedByID current !! clientID with
  | None => false
  | Some previous =>
    if negb (bool_decide (managed_token previous = managed_token next)) ||
       deep_equal (managed_configuration previous) (managed_configuration next) then false
    else ManagedRevision (managed_configuration next) <=? ManagedRevision (managed_configuration previous)
  end.

Definition validateManagedRevisionTransitions (current candidate : ReloadConfig) : option string :=
  fst <$> head (filter (λ e, bad_transition current e = true) (ρm (ManagedByID candidate))).

(** [(added, changed, removed)] *)
Definition mapChangeCounts {T} (equal : T → T → bool) (ρ : go_range string T) (current candidate : gmap string T) : Z * Z * Z :=
  let '(added, changed) :=
    foldl (λ '(added, changed) '(key, next),
             match current !! key with
             | None => (added + 1, changed)
             | Some previous => if negb (equal previous next) then (added, changed + 1) else (added, changed)
             end) (0, 0) (ρ candidate) in
  (added, changed, foldl (λ removed '(key, _), if is_some (candidate !! key) then removed else removed + 1) 0 (ρ current)).

Definition serverTokenRequiresGeneration (c : ReloadConfig) : bool :=
  match SharedToken c with
  | Some token => bool_decide (token = "")
  | None => bool_decide (GovernedClientsPath c = "") && bool_decide (ManagedClientsPath c = "")
  end.

(** ** What a reload does to the sessions of managed clients *)

(** The files name clients by their identifiers. *)
Definition keyed (c : ReloadConfig) : Prop :=
  (∀ id g, GovernedByID c !! id = Some g → governed_id g = id) ∧ (∀ id g, ManagedByID c !! id = Some g → managed_id g = id).

(** The records in use are those of a configuration, whatever their generations. *)
Definition holds_records (s : Store) (snapshot : Snapshot) : Prop :=
  ∀ k, set_generation 0 <$> current s !! k = set_generation 0 <$> snapshot !! k.

Lemma records_elem c r : r ∈ auth_records c → Mode (RecordContext r) = ModeManaged →
  ∃ id g, ManagedByID c !! id = Some g ∧ r = auth_record ModeManaged (managed_id g) (managed_token g).
Proof using Type.
  unfold auth_records. intros [Hr|[Hr|Hr]%elem_of_app]%elem_of_app Hm.
  - case_bool_decide; [by apply not_elem_of_nil in Hr|]. apply list_elem_of_singleton in Hr as ->. done.
  - apply list_elem_of_fmap in Hr as (g & -> & _). done.
  - apply list_elem_of_fmap in Hr as (g & -> & ([id g'] & -> & Hg)%list_elem_of_fmap). apply range_elem in Hg. eauto.
Qed.

Lemma records_managed c id g : ManagedByID c !! id = Some g → auth_record ModeManaged (managed_id g) (managed_token g) ∈ auth_records c.
Proof using Type.
  intros Hg. unfold auth_records. apply elem_of_app. right. apply elem_of_app. right. apply list_elem_of_fmap. exists g. split; [done|].
  apply list_elem_of_fmap. exists (id, g). split; [done|]. by apply range_elem.
Qed.

(** A record is kept under the selector of its token. *)
Lemma index_keys records index s : index_records sha256 index records = Some s →
  (∀ k r, index !! k = Some r → k = sha256 (Token r) ∧ CredentialID (RecordContext r) = k) →
  ∀ k r, s !! k = Some r → k = sha256 (Token r) ∧ CredentialID (RecordContext r) = k.
Proof using Type.
  revert index. induction records as [|r records IH]; intros index E Hi; cbn in E; [by injection E as <-|].
  destruct (index !! _); [done|]. eapply IH; [exact E|]. intros k r' Hk. apply lookup_insert_Some in Hk as [[<- <-]|[_ Hk]]; [done|eauto].
Qed.

(** A managed record of a snapshot is that of a managed client. *)
Lemma snapshot_managed c snapshot k r : BuildAuthenticationSnapshot c = Some snapshot → keyed c → snapshot !! k = Some r →
  Mode (RecordContext r) = ModeManaged →
  ∃ g, ManagedByID c !! ContextClientID (RecordContext r) = Some g ∧ k = sha256 (managed_token g).
Proof using Type.
  intros Eb [_ Hk] Hr Hm. unfold BuildAuthenticationSnapshot, NewSnapshot in Eb.
  assert (Hs : k = sha256 (Token r)) by (eapply index_keys; [exact Eb|intros ? ? Hx; by rewrite lookup_empty in Hx|done]).
  apply index_records_spec in Eb as (_ & _ & Hout).
  destruct (Hout _ _ Hr) as [Hx|(r0 & Hr0 & ->)]; [by rewrite lookup_empty in Hx|]. cbn in Hm.
  destruct (records_elem _ _ Hr0 Hm) as (id & g & Hg & ->). cbn. exists g. rewrite (Hk _ _ Hg). split; [done|]. exact Hs.
Qed.

Lemma snapshot_of_managed c snapshot id g : BuildAuthenticationSnapshot c = Some snapshot → keyed c → ManagedByID c !! id = Some g →
  ∃ r, snapshot !! sha256 (managed_token g) = Some r ∧ Mode (RecordContext r) = ModeManaged ∧ ContextClientID (RecordContext r) = id.
Proof using Type.
  intros Eb [_ Hk] Hg. unfold BuildAuthenticationSnapshot, NewSnapshot in Eb. apply index_records_spec in Eb as (_ & Hin & _).
  pose proof (Hin _ (records_managed _ _ _ Hg)) as Hr. eexists. split; [exact Hr|]. cbn. split; [done|]. by apply Hk.
Qed.

(** The context of a current session is that of one record. *)
Lemma current_record s c : Store_IsCurrent s c = true →
  ∃ r, Authentication.current s !! CredentialID c = Some r ∧ Mode (RecordContext r) = Mode c ∧ ContextClientID (RecordContext r) = ContextClientID c.
Proof using Type.
  intros (r & Hr & Hi%same_identity_spec & _)%IsCurrent_spec. exists r. split; [done|]. destruct Hi. done.
Qed.

(** The records in use are kept under the selectors of their tokens. *)
Lemma store_keys s c snapshot k r : BuildAuthenticationSnapshot c = Some snapshot → holds_records s snapshot →
  Authentication.current s !! k = Some r → CredentialID (RecordContext r) = k.
Proof using Type.
  intros Eb Hrec Hr. pose proof (Hrec k) as Hx. rewrite Hr in Hx. destruct (snapshot !! k) as [r0|] eqn:Hr0; [|done].
  assert (Hk : CredentialID (RecordContext r0) = k) by (eapply index_keys; [exact Eb|intros ? ? Hy; by rewrite lookup_empty in Hy|done]).
  apply (f_equal (λ o, (λ x, CredentialID (RecordContext x)) <$> o)) in Hx. cbn in Hx. congruence.
Qed.

(** A reload treats every managed session in exactly one way.  Let the
    authentication records in use be those of the current configuration, and let
    a candidate pass the check of its revisions.  The session of a managed
    client stays authenticated over the reload exactly when the candidate still
    has the client with the same token.  Then either the client's configuration
    is the same as before, or the client is among those that the new generation
    is rolled out to, and its revision is greater than the current one. *)
Theorem reload_exact ρ current candidate snapshot0 snapshot s c :
  keyed current → keyed candidate → BuildAuthenticationSnapshot current = Some snapshot0 → BuildAuthenticationSnapshot candidate = Some snapshot →
  holds_records s snapshot0 → store_ok s → nextGeneration s + Z.of_nat (size snapshot) < 2 ^ 64 →
  (∀ t t', sha256 t = sha256 t' → t = t') → validateManagedRevisionTransitions current candidate = None →
  Store_IsCurrent s c = true → Mode c = ModeManaged →
  let revoked := revokedAuthenticationContexts (Authentication.current s) snapshot current candidate in
  let id := ContextClientID c in
  ∃ old, ManagedByID current !! id = Some old ∧
  (Store_IsCurrent (ReplaceRevoking ρ snapshot revoked s) c = true ↔ ∃ new, ManagedByID candidate !! id = Some new ∧ managed_token new = managed_token old) ∧
  (∀ new, ManagedByID candidate !! id = Some new → managed_token new = managed_token old →
     managed_configuration new = managed_configuration old ∨
     id ∈ changedManagedClients current candidate ∧
     ManagedRevision (managed_configuration old) < ManagedRevision (managed_configuration new)).
Proof using Type.
  intros Hk0 Hk E0 E1 Hrec Hok Hov Hsha Hval Hcur Hm revoked id.
  destruct (current_record s c Hcur) as (r & Hr & Hrm & Hrid).
  pose proof (Hrec (CredentialID c)) as Hx. rewrite Hr in Hx. cbn in Hx. destruct (snapshot0 !! CredentialID c) as [r0|] eqn:Hr0; [|done].
  cbn in Hx. assert (Hr0m : Mode (RecordContext r0) = ModeManaged ∧ ContextClientID (RecordContext r0) = id).
  { apply (f_equal (λ o, (λ x, (Mode (RecordContext x), ContextClientID (RecordContext x))) <$> o)) in Hx. cbn in Hx. unfold id. split; congruence. }
  destruct Hr0m as [Hr0m Hr0i]. destruct (snapshot_managed _ _ _ _ E0 Hk0 Hr0 Hr0m) as (old & Hold & Hsel). rewrite Hr0i in Hold.
  exists old. split; [done|].
  assert (Hcont : ContainsRecord (Some snapshot) c = true ↔ ∃ new, ManagedByID candidate !! id = Some new ∧ managed_token new = managed_token old).
  { rewrite ContainsRecord_spec. split.
    - intros (r1 & Hr1 & [H1 H2]%same_identity_spec). rewrite Hm in H1. destruct (snapshot_managed _ _ _ _ E1 Hk Hr1 H1) as (new & Hnew & Hsel').
      exists new. rewrite H2 in Hnew. split; [done|]. apply Hsha. congruence.
    - intros (new & Hnew & Ht). destruct (snapshot_of_managed _ _ _ _ E1 Hk Hnew) as (r1 & Hr1 & H1 & H2). exists r1. rewrite Hsel, <- Ht. split; [done|].
      apply same_identity_spec. by rewrite H1, H2. }
  split.
  - rewrite replace_revokes by done. rewrite Hcont. split; [by intros [? _]|]. intros Hn. split; [done|]. apply Hcont in Hn.
    intros (c' & Hid & Hc')%list_elem_of_fmap. unfold revoked, revokedAuthenticationContexts in Hc'. apply list_elem_of_filter in Hc' as [Hrv Hc'].
    unfold Contexts in Hc'. apply MapFilterToSlice_elem in Hc' as (k & r' & Hr' & [= <-]).
    assert (r' = r) as ->. { pose proof (store_keys s current snapshot0 k r' E0 Hrec Hr') as Hkk. rewrite <- Hid in Hkk. congruence. }
    unfold revoked_context in Hrv. rewrite Hrm, Hm in Hrv.
    assert (Hcr : ContainsRecord (Some snapshot) (RecordContext r) = true).
    { apply ContainsRecord_spec in Hn as (r1 & Hr1 & [H1 H2]%same_identity_spec). apply ContainsRecord_spec. exists r1. rewrite <- Hid. split; [done|].
      apply same_identity_spec. split; congruence. }
    rewrite Hcr in Hrv. done.
  - intros new Hnew Ht. destruct (deep_equal (managed_configuration old) (managed_configuration new)) eqn:Ed.
    + left. symmetry. by apply deep_equal_sound.
    + right. split.
      * unfold changedManagedClients. rewrite merge_sort_Permutation. apply MapFilterToSlice_elem. exists id, new. split; [done|].
        unfold changed_managed. rewrite Hold, bool_decide_eq_true_2 by done. cbn. by rewrite Ed.
      * apply Z.nle_gt. intros Hle. unfold validateManagedRevisionTransitions in Hval.
        assert (Hb : (id, new) ∈ filter (λ e, bad_transition current e = true) (ρm (ManagedByID candidate))).
        { apply list_elem_of_filter. split; [|by apply range_elem]. cbn. rewrite Hold, bool_decide_eq_true_2 by done. cbn. rewrite Ed. by apply Z.leb_le. }
        destruct (filter _ _); [by apply not_elem_of_nil in Hb|done].
Qed.
End reload.

(** ** Witness *)

Module DemoReload.
#[local] Instance endpoint_eq_dec : EqDecision EndpointConfig.
Proof. solve_decision. Defined.
#[local] Instance forward_config_eq_dec : EqDecision ForwardConfig.
Proof. solve_decision. Defined.
#[local] Instance proxy_config_eq_dec : EqDecision ProxyConfig.
Proof. solve_decision. Defined.
#[local] Instance managed_configuration_eq_dec : EqDecision ManagedConfiguration.
Proof. solve_decision. Defined.
Definition managed_equal : DeepEqual ManagedConfiguration :=
  {| deep_equal a b := bool_decide (a = b); deep_equal_sound a b := bool_decide_eq_true_1 (a = b) |}.
Definition never_equal : DeepEqual GovernedClient :=
  {| deep_equal _ _ := false; deep_equal_sound a b (H : false = true) := match Bool.diff_false_true H with end |}.

Definition text_hash (token : string) : digest := String.list_byte_of_string token.
Definition config (revision : Z) : ReloadConfig :=
  {| SharedToken := None; GovernedClientsPath := ""; ManagedClientsPath := "managed"; GovernedByID := ∅;
     ManagedByID := {["m" := {| managed_id := "m"; managed_token := "secret"; managed_rules := []; managed_configuration := DemoManaged.loaded revision |}]} |}.
Definition snapshot_of (revision : Z) : option Snapshot := BuildAuthenticationSnapshot text_hash any_range any_range (config revision).
Lemma snapshot_is_some : is_some (snapshot_of 3) = true.
Proof. vm_compute. reflexivity. Qed.
Definition snapshot : Snapshot := from_some _ snapshot_is_some.
Definition store : Store := NewStore (H := LoopColl.coll) snapshot.
Definition context : Context := {| Mode := ModeManaged; ContextClientID := "m"; CredentialID := text_hash "secret"; Generation := 1 |}.

Lemma text_hash_inj t t' : text_hash t = text_hash t' → t = t'.
Proof.
  unfold text_hash. intros E. rewrite <- (String.string_of_list_byte_of_string t), <- (String.string_of_list_byte_of_string t'). by rewrite E.
Qed.
Lemma config_keyed revision : keyed (config revision).
Proof. split; intros id g Hg; cbn in Hg; [done|]. apply lookup_singleton_Some in Hg as [<- <-]. done. Qed.
Lemma store_holds : holds_records store snapshot.
Proof.
  intros k. unfold store, NewStore, withGeneration. cbn [Authentication.current]. rewrite MapCollect_lookup by done. by destruct (snapshot !! k).
Qed.
End DemoReload.

Lemma reload_exact_witness : ∃ old, ManagedByID (DemoReload.config 3) !! "m" = Some old ∧
  (∀ new, ManagedByID (DemoReload.config 4) !! "m" = Some new → managed_token new = managed_token old →
     managed_configuration new = managed_configuration old ∨
     "m" ∈ changedManagedClients (H := LoopColl.coll) (DeepEqual0 := DemoReload.managed_equal) (DemoReload.config 3) (DemoReload.config 4) ∧
     ManagedRevision (managed_configuration old) < ManagedRevision (managed_configuration new)).
Proof.
  edestruct (reload_exact (H := LoopColl.coll) (DeepEqual0 := DemoReload.managed_equal) (DeepEqual1 := DemoReload.never_equal) DemoReload.text_hash
    any_range any_range any_range (DemoReload.config 3) (DemoReload.config 4) DemoReload.snapshot DemoReload.snapshot DemoReload.store DemoReload.context)
    as (old & Hold & _ & Hnew).
  - apply DemoReload.config_keyed.
  - apply DemoReload.config_keyed.
  - apply from_some_eq.
  - exact (from_some_eq (DemoReload.snapshot_of 3) DemoReload.snapshot_is_some).
  - apply DemoReload.store_holds.
  - apply NewStore_ok.
  - vm_compute. reflexivity.
  - apply DemoReload.text_hash_inj.
  - vm_compute. reflexivity.
  - vm_compute. reflexivity.
  - reflexivity.
  - exists old. exact (conj Hold Hnew).
Defined.
