(* ===== verification/ReloadApply.v ===== *)
(** * Applying a reloaded configuration
      ([internal/server/configuration_prepare.go, configuration_reload.go,
      configuration_manager.go], [internal/config/defaults.go])

    A candidate is prepared and published while the authentication barrier is
    held; registrations of clients hold its read side.  What is retired by the
    publication is cleaned up after the barrier is released, one effect after
    the other.  The published parts are those of [ConfigurationReload],
    [Authentication], [Session], [ProxyRegistry] and [ForwardRegistry]. *)

From S2P Require Import Prelude GoTime NetAddr Authentication Session PortPolicy ConfigVNet ConfigUDP ConfigForward LinkBroker ForwardRegistry ProxyPlane ConfigProxy ProxyRegistry ProxyPermissions ConfigurationSync ManagedConfig ConfigurationReload.

Local Open Scope Z_scope.

(** ** Configurations *)

Record HTTPSCertificateConfig := { CertificateDomains : list string; CertFile : string; KeyFile : string }.
Record SecurityConfig := { IPDenyFile : string; HTTPClientIPHeader : string }.

#[export] Instance security_eq_dec : EqDecision SecurityConfig.
Proof. solve_decision. Defined.

Record configurationChanges := {
  ch_authentication : bool;
  ch_governedClients : bool;
  ch_managedClients : bool;
  ch_forwards : bool;
  ch_virtualNetwork : bool;
  ch_mirror : bool;
  ch_httpsCertificates : bool;
  ch_logLevel : bool
}.

Definition authenticationChanged (c : configurationChanges) : bool :=
  ch_authentication c || ch_governedClients c || ch_managedClients c.
Definition changes_forwardPolicy (c : configurationChanges) : bool :=
  ch_forwards c || ch_governedClients c || ch_managedClients c.
Definition changes_any (c : configurationChanges) : bool :=
  authenticationChanged c || ch_forwards c || ch_virtualNetwork c || ch_mirror c || ch_httpsCertificates c || ch_logLevel c.

Inductive ReloadError :=
| ForwardsInvalid (e : ConfigForward.ForwardError)
| MirrorInvalid (e : MirrorError)
| RestartRequired (field : string)
| TokenUnavailable
| CertificatesUnreadable
| RevisionNotGreater (clientID : string)
| TokensInvalid
| ReservationsConflict
| MirrorConflict
| LogLevelInvalid.

(** [reflect.DeepEqual] of two maps with these entries. *)
Definition maps_equal {A} `{!DeepEqual A} (m m' : gmap string A) : bool :=
  bool_decide (dom m = dom m') &&
  bool_decide (map_Forall (λ k a, match m' !! k with Some a' => deep_equal a a' | None => false end = true) m).

Section apply.
(** The transport and HTTP settings are only compared. *)
Context {ServerTransportConfig HTTPConfig : Type}.
Context `{!DeepEqual ServerTransportConfig} `{!DeepEqual HTTPConfig} `{!DeepEqual (list HTTPSCertificateConfig)}.
Context `{!DeepEqual UDPConfig} `{!DeepEqual ForwardServerConfig} `{!DeepEqual VirtualNetworkConfig} `{!DeepEqual ProxyMirrorConfig}.
Context `{!DeepEqual ManagedConfiguration} `{!DeepEqual GovernedClient} `{!DeepEqual ManagedClient}.

Record Configuration := {
  Transport : ServerTransportConfig;
  BindIP : string;
  HTTPListen : string;
  HTTPSettings : HTTPConfig;
  HTTPSListen : string;
  Certificates : list HTTPSCertificateConfig;
  ProxiesUDP : UDPConfig;
  ProxiesMirror : ProxyMirrorConfig;
  Security : SecurityConfig;
  OperationsListen : string;
  ForwardSettings : ForwardServerConfig;
  VirtualNetwork : VirtualNetworkConfig;
  LogLevel : string;
  Accounts : ReloadConfig;
  SourceDigest : string;
  ConfigGeneration : Z;
  SharedTokenGenerated : bool
}.
#[export] Instance eta_Configuration : Eta Configuration := λ c,
  {| Transport := Transport c; BindIP := BindIP c; HTTPListen := HTTPListen c; HTTPSettings := HTTPSettings c; HTTPSListen := HTTPSListen c;
     Certificates := Certificates c; ProxiesUDP := ProxiesUDP c; ProxiesMirror := ProxiesMirror c; Security := Security c;
     OperationsListen := OperationsListen c; ForwardSettings := ForwardSettings c; VirtualNetwork := VirtualNetwork c; LogLevel := LogLevel c;
     Accounts := Accounts c; SourceDigest := SourceDigest c; ConfigGeneration := ConfigGeneration c; SharedTokenGenerated := SharedTokenGenerated c |}.

(** What the checks of the Forwards and of the proxies read. *)
Definition forward_view (c : Configuration) : ServerConfig :=
  {| Forwards := ForwardSettings c;
     GovernedClients := (λ g, ForwardRules (governed_permissions g)) <$> GovernedByID (Accounts c);
     ManagedClients := (λ g, {| ManagedRules := managed_rules g; ManagedForwards := ManagedForwardConfigs (managed_configuration g) |}) <$> ManagedByID (Accounts c) |}.

Definition proxy_view (c : Configuration) : ProxyServerConfig :=
  {| HTTPListenAddress := HTTPListen c; HTTPSListenAddress := HTTPSListen c; Mirror := ProxiesMirror c;
     GovernedProxyClients := governed_permissions <$> GovernedByID (Accounts c);
     ManagedProxyClients := (λ g, ManagedProxies (managed_configuration g)) <$> ManagedByID (Accounts c) |}.

Context `{Coll} `{NetipText}.
Context (sha256 : string → digest) (platform : option Z).
Context (ρg : go_range string GovernedClient) (ρm : go_range string ManagedClient).
Context (ρfg : go_range string (list ForwardIPRule)) (ρfm : go_range string ManagedClientConfig).
Context (sorted : gmap string (list ProxyConfig) → list (string * list ProxyConfig)).

(** ** Preparing a candidate *)

(** What the environment answers while a candidate is applied: a generated
    token, whether the certificates can be read, and the memory new mirror
    groups are allocated in. *)
Record ReloadEnv := { env_token : option string; env_certificates : bool; env_address : nat }.

Definition toolkitLogLevel (level : string) : bool :=
  bool_decide (level ∈ ["trace"; "debug"; "info"; "warn"; "error"]).

Definition with_token (token : string) (c : Configuration) : Configuration :=
  c <| Accounts := (Accounts c) <| SharedToken := Some token |> |> <| SharedTokenGenerated := true |>.

Definition EnsureServerToken (generated : option string) (c : Configuration) : option Configuration :=
  let a := Accounts c in
  if negb (bool_decide (default "" (SharedToken a) = "")) then Some c
  else if negb (is_some (SharedToken a)) &&
          (negb (bool_decide (GovernedClientsPath a = "")) || negb (bool_decide (ManagedClientsPath a = ""))) then Some c
  else (λ token, with_token token c) <$> generated.

(** The shared token of the current configuration stays in use when the
    candidate leaves it to be generated. *)
Definition keep_token (current candidate : Configuration) : result ReloadError Configuration :=
  match SharedToken (Accounts current) with
  | Some token =>
    if serverTokenRequiresGeneration (Accounts candidate) then
      if SharedTokenGenerated current then Ok (with_token token candidate)
      else Err (RestartRequired "authentication.shared_token")
    else Ok candidate
  | None => Ok candidate
  end.

(** Settings that only a restart changes; the first difference is reported. *)
Definition restart_required (current candidate : Configuration) : option string :=
  if negb (deep_equal (Transport candidate) (Transport current)) then Some "transport"
  else if negb (bool_decide (BindIP candidate = BindIP current)) then Some "proxies.bind_ip"
  else if negb (bool_decide (HTTPListen candidate = HTTPListen current)) then Some "proxies.http.listen_address"
  else if negb (bool_decide (HTTPSListen candidate = HTTPSListen current)) then Some "proxies.https.listen_address"
  else if negb (deep_equal (HTTPSettings candidate) (HTTPSettings current)) then Some "proxies.http"
  else None.

Definition restart_required_late (current candidate : Configuration) : option string :=
  if negb (deep_equal (ProxiesUDP candidate) (ProxiesUDP current)) then Some "proxies.udp"
  else if negb (bool_decide (Security candidate = Security current)) then Some "security"
  else if negb (bool_decide (OperationsListen candidate = OperationsListen current)) then Some "operations"
  else None.

(** [serves_https] says that the service has a certificate store. *)
Definition certificates_change (serves_https : bool) (env : ReloadEnv) (current candidate : Configuration) : result ReloadError bool :=
  if deep_equal (Certificates candidate) (Certificates current) then Ok false
  else if negb serves_https then Err (RestartRequired "proxies.https.certificates")
  else if env_certificates env then Ok true else Err CertificatesUnreadable.

Definition changes_between (https : bool) (current candidate : Configuration) : configurationChanges :=
  let a := Accounts candidate in
  let b := Accounts current in
  {| ch_authentication := negb (bool_decide (SharedToken a = SharedToken b) && bool_decide (GovernedClientsPath a = GovernedClientsPath b) &&
                                bool_decide (ManagedClientsPath a = ManagedClientsPath b));
     ch_governedClients := negb (maps_equal (GovernedByID a) (GovernedByID b));
     ch_managedClients := negb (maps_equal (ManagedByID a) (ManagedByID b));
     ch_forwards := negb (deep_equal (ForwardSettings candidate) (ForwardSettings current));
     ch_virtualNetwork := negb (deep_equal (VirtualNetwork candidate) (VirtualNetwork current));
     ch_mirror := negb (deep_equal (ProxiesMirror candidate) (ProxiesMirror current));
     ch_httpsCertificates := https;
     ch_logLevel := negb (bool_decide (LogLevel candidate = LogLevel current)) |}.

Definition validateVNetConfigurationTransition (current candidate : VirtualNetworkConfig) : result ReloadError unit :=
  if bool_decide (EffectiveVNetNetworkMode current = EffectiveVNetNetworkMode candidate) then Ok tt
  else Err (RestartRequired "virtual_network.network_mode").

Definition require {E A} (e : A → E) (o : option A) : result E unit := match o with Some a => Err (e a) | None => Ok tt end.

Definition prepareConfigurationCandidate (serves_https : bool) (env : ReloadEnv) (current candidate : Configuration) :
    result ReloadError (Configuration * configurationChanges) :=
  let! _ := require ForwardsInvalid (ValidateForwardConfiguration platform ρfg ρfm (forward_view candidate)) in
  let! _ := require MirrorInvalid (validateProxyMirrorConfiguration sorted (proxy_view candidate)) in
  let! _ := validateVNetConfigurationTransition (VirtualNetwork current) (VirtualNetwork candidate) in
  let! candidate := keep_token current candidate in
  match EnsureServerToken (env_token env) candidate with
  | None => Err TokenUnavailable
  | Some candidate =>
    let! _ := require RestartRequired (restart_required current candidate) in
    let! https := certificates_change serves_https env current candidate in
    let! _ := require RestartRequired (restart_required_late current candidate) in
    let! _ := require RevisionNotGreater (validateManagedRevisionTransitions ρm (Accounts current) (Accounts candidate)) in
    Ok (candidate, changes_between https current candidate)
  end.

(** ** Publishing it *)

Context (ρs : go_range digest AuthRecord) (ρc : go_range string clientRecord).
Context (ρb : go_range string ProxyPlane.binding) (ρgr : go_range Z mirrorGroup).
Context (ρf : go_range string ForwardRegistry.binding) (ρfs : go_range (string * string) nat).

(** What is left to do when the barrier is released. *)
Inductive Effect :=
| RevokeTransport (contexts : list Context)
| CleanUp (retirement : option Retirement)
| RemoveForwards (client session : string)
| CloseConnection (conn : Session.Conn)
| ApplyForwardPolicy (current : Configuration)
| ApplyVirtualNetwork (c : VirtualNetworkConfig) (generation : Z)
| RollOut (clientIDs : list string).

Record Service := {
  configuration : Configuration;
  store : Store;
  registered : Session.Registry;
  proxies : ProxyReg;
  forwards : ForwardReg
}.
#[export] Instance eta_apply_Service : Eta Service := λ s,
  {| configuration := configuration s; store := store s; registered := registered s; proxies := proxies s; forwards := forwards s |}.

Definition managed_list (c : Configuration) : list (string * list ProxyRegistry.ManagedProxy) :=
  (λ '(id, g), managed_client (id, ManagedProxies (managed_configuration g))) <$> ρm (ManagedByID (Accounts c)).

(** One revoked session leaves the proxy registry. *)
Definition detach_revoked (acc : list Effect * ProxyReg) (e : ExpiredClient) : list Effect * ProxyReg :=
  let '(cleanup, r) := Detach ρb (ExpiredClientID e) (ExpiredSessionID e) acc.2 in
  (acc.1 ++ [CleanUp cleanup], r).

Definition forget_revoked (e : ExpiredClient) : list Effect :=
  RemoveForwards (ExpiredClientID e) (ExpiredSessionID e) ::
  (if is_some (ExpiredConnection e) then [CloseConnection (ExpiredConnection e)] else []).

(** [applyConfigurationCandidateContext] while the barrier is held; the
    effects that remain, or [None] when nothing has changed. *)
Definition applyConfigurationCandidate (serves_https : bool) (env : ReloadEnv) (candidate : Configuration) (s : Service) :
    result ReloadError (option (list Effect)) * Service :=
  let current := configuration s in
  match prepareConfigurationCandidate serves_https env current candidate with
  | Err e => (Err e, s)
  | Ok (candidate, changes) =>
    if negb (changes_any changes) then (Ok None, s <| configuration := current <| SourceDigest := SourceDigest candidate |> |>)
    else
      match BuildAuthenticationSnapshot sha256 ρg ρm (Accounts candidate) with
      | None => (Err TokensInvalid, s)
      | Some snapshot =>
        let revoked := revokedAuthenticationContexts (Authentication.current (store s)) snapshot (Accounts current) (Accounts candidate) in
        let managedChanges := changedManagedClients (Accounts current) (Accounts candidate) in
        match BeginManagedReservationUpdate (managed_list candidate) (Some (ProxiesMirror candidate)) (proxies s) (proxies s) with
        | None => (Err ReservationsConflict, s)
        | Some reservations =>
          match (if ch_mirror changes then snd <$> ConfigureMirrorGroups ρgr ρb (ProxiesMirror candidate) (env_address env) (proxies s)
                 else Some (proxies s)) with
          | None => (Err MirrorConflict, s)
          | Some mirrored =>
            if ch_logLevel changes && negb (toolkitLogLevel (LogLevel candidate)) then (Err LogLevelInvalid, s <| proxies := mirrored |>)
            else
              let candidate := candidate <| ConfigGeneration := u64 (ConfigGeneration current + 1) |> in
              let reserved := CommitReservations reservations mirrored in
              let '(registered', gone) := if authenticationChanged changes then RevokeAuthentication ρc revoked (registered s) else (registered s, []) in
              let '(cleanups, detached) := foldl detach_revoked ([], reserved) gone in
              (Ok (Some ([RevokeTransport revoked] ++ cleanups ++ (gone ≫= forget_revoked) ++
                         (if changes_forwardPolicy changes then [ApplyForwardPolicy current] else []) ++
                         (if ch_virtualNetwork changes then [ApplyVirtualNetwork (VirtualNetwork candidate) (ConfigGeneration candidate)] else []) ++
                         [RollOut managedChanges])),
               {| configuration := candidate; store := ReplaceRevoking ρs snapshot revoked (store s); registered := registered';
                  proxies := detached; forwards := forwards s |})
          end
        end
      end
  end.

(** One effect after the barrier; only the Forwards are part of the state here. *)
Definition retire_effect (e : Effect) (s : Service) : Service :=
  match e with
  | RemoveForwards client session => s <| forwards := (ForwardRegistry.Remove ρf client session (forwards s)).2 |>
  | ApplyForwardPolicy current =>
    let candidate := configuration s in
    s <| forwards := (ForwardRegistry.ApplyPolicy (forwardPolicy (forward_view candidate)) (forwardPolicyChanged (forward_view current) (forward_view candidate))
                        (EffectiveForwardUDPConfig (ForwardSettings candidate)) (ConfigGeneration candidate) ρf ρfs (forwards s)).2 |>
  | _ => s
  end.
End apply.
