(* ===== verification/ReloadSafety.v ===== *)
(** * Applying a reloaded configuration: what is published and what is revoked

    A candidate that is refused leaves no trace.  One that is applied is
    published as a whole: sessions whose authentication it revokes leave every
    registry, and in every history of registrations and reloads the sessions
    that remain are authenticated by records in use. *)

From S2P Require Import Prelude GoTime NetAddr Authentication Session PortPolicy ConfigVNet ConfigUDP ConfigForward LinkBroker ForwardRegistry ProxyPlane ConfigProxy ProxyPlacement ProxyRegistry ProxyPermissions ConfigurationSync ManagedConfig ConfigurationReload ReloadApply.

Local Open Scope Z_scope.

(** ** Unchanged accounts revoke nobody *)

Lemma maps_equal_sound {A} `{!DeepEqual A} (m m' : gmap string A) : maps_equal m m' = true →
  m = m' ∧ ∀ k a, m !! k = Some a → deep_equal a a = true.
Proof.
  unfold maps_equal. intros [Hd%bool_decide_eq_true Hm%bool_decide_eq_true]%andb_true_iff.
  assert (Heq : ∀ k a, m !! k = Some a → m' !! k = Some a ∧ deep_equal a a = true).
  { intros k a Hk. specialize (Hm _ _ Hk). cbn in Hm. destruct (m' !! k) as [a'|]; [|done]. pose proof (deep_equal_sound _ _ Hm) as <-. done. }
  split; [|intros k a Hk; by apply (Heq k)]. apply map_eq. intros k. destruct (m !! k) as [a|] eqn:E.
  - symmetry. by apply Heq.
  - symmetry. apply not_elem_of_dom. rewrite <- Hd. by apply not_elem_of_dom.
Qed.

(** The accounts of a session survive its operations; only a registration
    brings its own. *)
Lemma op_authentication op r c b : Session.clients (apply_op op r) !! c = Some b →
  (∃ a, Session.clients r !! c = Some a ∧ Session.authentication b = Session.authentication a) ∨
  (∃ client resume session conn now, op = OpRegister client resume session conn now (Session.authentication b)).
Proof.
  intros Hb. destruct (Session.clients r !! c) as [a|] eqn:Ha.
  - destruct op as [c' resume s conn now auth|c' s now|ρ ctx|c' s n now|c' s now|c' s|ρ now tm].
    { cbn [apply_op] in Hb. unfold RegisterAuthenticated in Hb. destruct (Session.clients r !! c') as [rec|] eqn:Hc.
      - repeat case_match; cbn [fst] in Hb; try (left; exists a; split; congruence).
        rewrite set_record_lookup in Hb. case_decide; [|left; exists a; split; congruence]. right. injection Hb as <-. cbn. eauto 10.
      - repeat case_match; cbn [fst] in Hb; try (left; exists a; split; congruence).
        rewrite set_record_lookup in Hb. case_decide; [|left; exists a; split; congruence]. congruence. }
    all: left; exists a; split; [done|]; destruct (apply_op_transition _ _ _ _ _ Ha Hb); done.
  - pose proof (apply_op_created _ _ _ _ Ha Hb) as Hi. destruct op as [c' resume s conn now auth| | | | | |]; try done.
    cbn [apply_op] in Hb. unfold RegisterAuthenticated in Hb. right. repeat case_match; cbn [fst] in Hb; try congruence;
      rewrite set_record_lookup in Hb; case_decide; simplify_eq; cbn; eauto 10.
Qed.

Section safety.
Context {ServerTransportConfig HTTPConfig : Type}.
Context `{!DeepEqual ServerTransportConfig} `{!DeepEqual HTTPConfig} `{!DeepEqual (list HTTPSCertificateConfig)}.
Context `{!DeepEqual UDPConfig} `{!DeepEqual ForwardServerConfig} `{!DeepEqual VirtualNetworkConfig} `{!DeepEqual ProxyMirrorConfig}.
Context `{!DeepEqual ManagedConfiguration} `{!DeepEqual GovernedClient} `{!DeepEqual ManagedClient}.
Context `{Coll} `{NetipText}.
Context (sha256 : string → digest) (platform : option Z).
Context (ρg : go_range string GovernedClient) (ρm : go_range string ManagedClient).
Context (ρfg : go_range string (list ForwardIPRule)) (ρfm : go_range string ManagedClientConfig).
Context (sorted : gmap string (list ProxyConfig) → list (string * list ProxyConfig)).
Context (ρs : go_range digest AuthRecord) (ρc : go_range string clientRecord).
Context (ρb : go_range string ProxyPlane.binding) (ρgr : go_range Z mirrorGroup).
Context (ρf : go_range string ForwardRegistry.binding) (ρfs : go_range (string * string) nat).

Abbreviation Config := (Configuration (ServerTransportConfig := ServerTransportConfig) (HTTPConfig := HTTPConfig)).
Abbreviation Serv := (Service (ServerTransportConfig := ServerTransportConfig) (HTTPConfig := HTTPConfig)).
Abbreviation Eff := (Effect (ServerTransportConfig := ServerTransportConfig) (HTTPConfig := HTTPConfig)).
Abbreviation prepare := (prepareConfigurationCandidate platform ρm ρfg ρfm sorted).
Abbreviation apply_candidate := (applyConfigurationCandidate sha256 platform ρg ρm ρfg ρfm sorted ρs ρc ρb ρgr).
Abbreviation snapshot_of := (BuildAuthenticationSnapshot sha256 ρg ρm).

(** ** What a prepared candidate is *)

Lemma ensure_token_accounts generated (c c' : Config) : EnsureServerToken generated c = Some c' →
  GovernedByID (Accounts c') = GovernedByID (Accounts c) ∧ ManagedByID (Accounts c') = ManagedByID (Accounts c) ∧
  LogLevel c' = LogLevel c ∧ SourceDigest c' = SourceDigest c.
Proof using Type. unfold EnsureServerToken. repeat case_match; try (by intros [= <-]). destruct generated; [|done]. by intros [= <-]. Qed.

Lemma keep_token_accounts (current c c' : Config) : keep_token current c = Ok c' →
  GovernedByID (Accounts c') = GovernedByID (Accounts c) ∧ ManagedByID (Accounts c') = ManagedByID (Accounts c) ∧
  LogLevel c' = LogLevel c ∧ SourceDigest c' = SourceDigest c.
Proof using Type. unfold keep_token. repeat case_match; try done; by intros [= <-]. Qed.

Lemma prepare_accounts https env (current candidate c : Config) ch : prepare https env current candidate = Ok (c, ch) →
  GovernedByID (Accounts c) = GovernedByID (Accounts candidate) ∧ ManagedByID (Accounts c) = ManagedByID (Accounts candidate) ∧
  LogLevel c = LogLevel candidate ∧ SourceDigest c = SourceDigest candidate ∧ ∃ h, ch = changes_between h current c.
Proof using Type.
  unfold prepareConfigurationCandidate. destruct (require _ _); [|done]. destruct (require _ _); [|done].
  destruct (validateVNetConfigurationTransition _ _); [|done]. destruct (keep_token _ _) as [c1|] eqn:Ek; [|done].
  destruct (EnsureServerToken _ _) as [c2|] eqn:Ee; [|done]. destruct (require _ _); [|done]. destruct (certificates_change _ _ _ _) as [h|]; [|done].
  do 2 (destruct (require _ _); [|done]). intros [= <- <-]. apply keep_token_accounts in Ek as (? & ? & ? & ?). apply ensure_token_accounts in Ee as (? & ? & ? & ?).
  split_and!; [congruence..|]. by exists h.
Qed.

Lemma keyed_same c c' : GovernedByID c' = GovernedByID c → ManagedByID c' = ManagedByID c → keyed c → keyed c'.
Proof using Type. intros E1 E2 []. split; [rewrite E1|rewrite E2]; done. Qed.

Lemma accounts_unchanged h (current c : Config) : authenticationChanged (changes_between h current c) = false →
  Accounts c = Accounts current ∧ ∀ id g, GovernedByID (Accounts current) !! id = Some g → deep_equal g g = true.
Proof using Type.
  unfold authenticationChanged, changes_between. cbn. intros [[E1 E2%negb_false_iff]%orb_false_iff E3%negb_false_iff]%orb_false_iff.
  apply negb_false_iff, andb_true_iff in E1 as [[T1%bool_decide_eq_true T2%bool_decide_eq_true]%andb_true_iff T3%bool_decide_eq_true].
  apply maps_equal_sound in E2 as [E2 Hg], E3 as [E3 _]. split; [|intros id g; rewrite <- E2; apply Hg].
  destruct (Accounts c), (Accounts current). cbn in *. congruence.
Qed.

(** ** Who stays authenticated *)

Lemma context_of_record s snapshot0 current k r : snapshot_of current = Some snapshot0 → holds_records s snapshot0 →
  Authentication.current s !! k = Some r → CredentialID (RecordContext r) = k.
Proof using Type. apply store_keys. Qed.

Lemma revoked_elem s snapshot current candidate c : c ∈ revokedAuthenticationContexts (Authentication.current s) snapshot current candidate ↔
  revoked_context snapshot current candidate c = true ∧ ∃ k r, Authentication.current s !! k = Some r ∧ RecordContext r = c.
Proof using Type.
  unfold revokedAuthenticationContexts. rewrite list_elem_of_filter. unfold Contexts. rewrite MapFilterToSlice_elem.
  split; intros [? (k & r & Hr & E)]; (split; [done|]); exists k, r; (split; [done|]); congruence.
Qed.

Lemma kept_current snapshot0 snapshot current candidate s c : snapshot_of current = Some snapshot0 → holds_records s snapshot0 → store_ok s →
  nextGeneration s + Z.of_nat (size snapshot) < 2 ^ 64 → Store_IsCurrent s c = true →
  let revoked := revokedAuthenticationContexts (Authentication.current s) snapshot current candidate in
  (¬ ∃ x, x ∈ revoked ∧ CredentialID x = CredentialID c ∧ Generation x = Generation c) →
  Store_IsCurrent (ReplaceRevoking ρs snapshot revoked s) c = true.
Proof using Type.
  intros E0 Hrec Hok Hov Hcur revoked Hnot. pose proof Hcur as (r & Hr & Hid & Hg)%IsCurrent_spec.
  pose proof (context_of_record _ _ _ _ _ E0 Hrec Hr) as Hkr. apply replace_revokes; [done|done|done|]. split.
  - destruct (ContainsRecord (Some snapshot) c) eqn:Ec; [done|]. exfalso. apply Hnot. exists (RecordContext r). split; [|done].
    apply revoked_elem. split; [|by exists (CredentialID c), r]. unfold revoked_context.
    destruct (ContainsRecord (Some snapshot) (RecordContext r)) eqn:Ed; [|done]. exfalso.
    apply ContainsRecord_spec in Ed as (r1 & Hr1 & Hi1). rewrite Hkr in Hr1.
    assert (ContainsRecord (Some snapshot) c = true); [|congruence]. apply ContainsRecord_spec. exists r1. split; [done|].
    apply same_identity_spec in Hid, Hi1. apply same_identity_spec. destruct Hid, Hi1. split; congruence.
  - intros (x & Hx & Hin)%list_elem_of_fmap. apply Hnot. exists x. split; [done|]. split; [done|].
    apply revoked_elem in Hin as [_ (k & r' & Hr' & <-)]. pose proof (context_of_record _ _ _ _ _ E0 Hrec Hr') as Hk'.
    assert (r' = r) as -> by congruence. done.
Qed.

(** Without a change of the accounts nothing is revoked. *)
Lemma nothing_revoked snapshot0 current s : snapshot_of current = Some snapshot0 → holds_records s snapshot0 →
  (∀ id g, GovernedByID current !! id = Some g → deep_equal g g = true) →
  revokedAuthenticationContexts (Authentication.current s) snapshot0 current current = [].
Proof using Type.
  intros E0 Hrec Hdeep. destruct (revokedAuthenticationContexts _ _ _ _) as [|c l] eqn:E; [done|]. exfalso.
  assert (Hc : c ∈ revokedAuthenticationContexts (Authentication.current s) snapshot0 current current) by (rewrite E; left).
  apply revoked_elem in Hc as [Hrv (k & r & Hr & <-)]. pose proof (context_of_record _ _ _ _ _ E0 Hrec Hr) as Hk.
  unfold revoked_context in Hrv.
  assert (Hcr : ContainsRecord (Some snapshot0) (RecordContext r) = true).
  { apply ContainsRecord_spec. rewrite Hk. pose proof (Hrec k) as Hx. rewrite Hr in Hx. destruct (snapshot0 !! k) as [r0|]; [|done]. exists r0. split; [done|].
    apply same_identity_spec. apply (f_equal (λ o, (λ x, (Mode (RecordContext x), ContextClientID (RecordContext x))) <$> o)) in Hx. cbn in Hx. split; congruence. }
  rewrite Hcr in Hrv. cbn in Hrv. apply andb_true_iff in Hrv as [_ Hrv]. unfold governed_changed in Hrv.
  destruct (GovernedByID current !! _) as [g|] eqn:Eg; [|done]. by rewrite (Hdeep _ _ Eg) in Hrv.
Qed.

Lemma replaced_holds snapshot revoked s : store_ok s → nextGeneration s + Z.of_nat (size snapshot) < 2 ^ 64 →
  store_ok (ReplaceRevoking ρs snapshot revoked s) ∧ holds_records (ReplaceRevoking ρs snapshot revoked s) snapshot.
Proof using Type.
  intros Hok Hov. destruct (ReplaceRevoking_spec ρs snapshot revoked s Hok Hov) as (Hok' & _ & Hcases). split; [done|].
  intros k. specialize (Hcases k). destruct (snapshot !! k) as [r|]; [|by rewrite Hcases].
  destruct Hcases as (r' & -> & g & -> & _). done.
Qed.

(** ** What an applied candidate publishes *)

Lemma report_elem contexts (r : Session.Registry) e : e ∈ omap (report_revoked contexts) (map_to_list (Session.clients r)) ↔
  ∃ c record, Session.clients r !! c = Some record ∧ revoked_by contexts record = true ∧ e = expired_client c record.
Proof using Type.
  rewrite list_elem_of_omap. split.
  - intros ([c record] & Hin & E). apply elem_of_map_to_list in Hin. unfold report_revoked in E. cbn in E. destruct (revoked_by contexts record) eqn:Er; [|done].
    injection E as <-. eauto.
  - intros (c & record & Hc & Hr & ->). exists (c, record). split; [by apply elem_of_map_to_list|]. unfold report_revoked. cbn. by rewrite Hr.
Qed.

(** The Forwards that are removed by a list of effects. *)
Definition removals (l : list Eff) : list (string * string) := omap (λ e, match e with RemoveForwards c session => Some (c, session) | _ => None end) l.

Definition gone_key (e : ExpiredClient) : string * string := (ExpiredClientID e, ExpiredSessionID e).

Lemma removals_app l l' : removals (l ++ l') = removals l ++ removals l'.
Proof using Type. apply omap_app. Qed.

Lemma removals_gone gone : removals (gone ≫= forget_revoked) = gone_key <$> gone.
Proof using Type.
  induction gone as [|e gone IH]; [done|]. cbn. fold (forget_revoked (ServerTransportConfig := ServerTransportConfig) (HTTPConfig := HTTPConfig)).
  rewrite removals_app, IH. by destruct (is_some _).
Qed.

Lemma apply_policy_sessions policy affected udp generation (r : ForwardReg) :
  ForwardRegistry.sessions (ForwardRegistry.ApplyPolicy policy affected udp generation ρf ρfs r).2 = ForwardRegistry.sessions r.
Proof using Type. unfold ForwardRegistry.ApplyPolicy. cbn zeta. destruct (foldl _ _ _) as [[??]?]. done. Qed.

(** Running the effects removes those Forwards and no others. *)
Lemma retire_sessions (l : list Eff) (s : Serv) key :
  ForwardRegistry.sessions (forwards (foldl (λ s e, retire_effect ρf ρfs e s) s l)) !! key =
    if decide (key ∈ removals l) then None else ForwardRegistry.sessions (forwards s) !! key.
Proof using Type.
  revert s. induction l as [|e l IH]; intros s; [by rewrite decide_False by apply not_elem_of_nil|]. cbn [foldl]. rewrite IH.
  assert (Hk : key ∈ removals (e :: l) ↔ removals [e] = [key] ∨ key ∈ removals l).
  { change (e :: l) with ([e] ++ l). rewrite removals_app, elem_of_app. f_equiv.
    destruct e; cbn; (split; [first [by intros ?%elem_of_nil|by intros ->%list_elem_of_singleton]|first [done|intros [= <-]; left]]). }
  destruct (decide (key ∈ removals l)) as [Hin|Hin]; [by rewrite decide_True by (rewrite Hk; by right)|].
  destruct e; cbn [retire_effect forwards upd]; try (rewrite decide_False by (rewrite Hk; intros [?|?]; done); done).
  - unfold ForwardRegistry.Remove. cbn. rewrite lookup_delete. case_decide as E; [subst key; by rewrite decide_True by (rewrite Hk; by left)|].
    rewrite decide_False by (rewrite Hk; intros [[= <-]|?]; done). done.
  - rewrite apply_policy_sessions. rewrite decide_False by (rewrite Hk; intros [?|?]; done). done.
Qed.

(** Detaching the revoked sessions. *)
Lemma Detach_clients c session (r : ProxyReg) k : clients (Detach ρb c session r).2 !! k =
  if decide (k = c ∧ sessionID <$> clients r !! c = Some session) then None else clients r !! k.
Proof using Type.
  unfold Detach. destruct (clients r !! c) as [st|] eqn:E; [|by rewrite decide_False by (intros [_ ?]; done)]. cbn.
  case_bool_decide as Eb; cbn.
  - destruct (detachPlane _ _ _) as [[??]?], (detachPlane _ _ _) as [[??]?]. cbn. rewrite lookup_delete.
    destruct (decide (c = k)) as [->|Hne]; [rewrite decide_True; [done|split; congruence]|]. by rewrite decide_False by (intros [-> _]; done).
  - rewrite decide_False; [done|]. intros [_ [= ?]]. done.
Qed.

Lemma detach_all_clients gone : ∀ (acc : list Eff * ProxyReg) k,
  let r := (foldl (detach_revoked ρb) acc gone).2 in
  (clients r !! k = clients acc.2 !! k ∨ clients r !! k = None) ∧
  (k ∉ ExpiredClientID <$> gone → clients r !! k = clients acc.2 !! k) ∧
  (∀ e st, e ∈ gone → clients r !! ExpiredClientID e = Some st → sessionID st ≠ ExpiredSessionID e).
Proof using Type.
  induction gone as [|e gone IH]; intros acc k; cbn [foldl].
  - split_and!; [by left|done|by intros ? ? ?%not_elem_of_nil].
  - set (acc' := detach_revoked ρb acc e).
    assert (Ea : clients acc'.2 = clients (Detach ρb (ExpiredClientID e) (ExpiredSessionID e) acc.2).2).
    { unfold acc', detach_revoked. by destruct (Detach _ _ _ _). }
    destruct (IH acc' k) as (H1 & H2 & _). rewrite Ea, Detach_clients in H1, H2. split_and!.
    + case_decide; [right|]; destruct H1; auto.
    + cbn. intros [Hne Hn]%not_elem_of_cons. rewrite H2 by done. rewrite decide_False; [done|]. by intros [-> _].
    + intros x st [->|Hx]%elem_of_cons Hst; [|by eapply (IH acc' (ExpiredClientID x))].
      destruct (IH acc' (ExpiredClientID e)) as ([E|E] & _); rewrite E in Hst; [|done]. rewrite Ea, Detach_clients in Hst. case_decide as Hd; [done|].
      intros Es. apply Hd. split; [done|]. by rewrite Hst, <- Es.
Qed.

Lemma cleanups_remove gone : ∀ acc : list Eff * ProxyReg, removals (foldl (detach_revoked ρb) acc gone).1 = removals acc.1.
Proof using Type.
  induction gone as [|e gone IH]; intros acc; [done|]. cbn. rewrite IH. unfold detach_revoked. destruct (Detach _ _ _ _). cbn.
  rewrite removals_app. by rewrite app_nil_r.
Qed.

Lemma configure_clients mirror addr (r : ProxyReg) r' : snd <$> ConfigureMirrorGroups ρgr ρb mirror addr r = Some r' → clients r' = clients r.
Proof using Type. unfold ConfigureMirrorGroups. repeat case_match; try done. by intros [= <-]. Qed.

(** *** The proxies of a client that stays *)

(** [b] belongs to [client]'s membership of the group on [port]. *)
Definition member (p : Plane) (port : Z) (client : string) (b : ProxyPlane.binding) : Prop :=
  ∃ g, mirrorGroups p !! port = Some g ∧ g_members g !! client = Some b.

(** A client gets no new proxies, and only loses one whose membership of a
    mirror group has ended, when the groups were replaced. *)
Definition plane_kept (replaced : bool) (c : string) (p p' : Plane) : Prop :=
  client_proxies c p' ⊆ client_proxies c p ∧
  ∀ n b, client_proxies c p !! n = Some b →
    client_proxies c p' !! n = Some b ∨ replaced = true ∧ ∃ port client, member p port client b ∧ ¬ member p' port client b.

Definition members_shrink (p p' : Plane) : Prop := ∀ port client b, member p' port client b → member p port client b.

Lemma plane_kept_refl replaced c p : plane_kept replaced c p p.
Proof using Type. split; [done|]. by left. Qed.

Lemma plane_kept_detached replaced c p p1 p2 : plane_kept replaced c p p1 → client_proxies c p2 = client_proxies c p1 → members_shrink p1 p2 →
  plane_kept replaced c p p2.
Proof using Type.
  intros [Hs Hl] E Hm. split; [by rewrite E|]. intros n b Hb. rewrite E. destruct (Hl n b Hb) as [|(? & port & client & Hin & Hout)]; [by left|].
  right. split; [done|]. exists port, client. split; [done|]. intros Hx. by apply Hout, Hm.
Qed.

Lemma detach_binding_shrinks client acc b : members_shrink acc.1.1 (detach_binding client acc b).1.1 ∧
  ProxyPlane.proxies (detach_binding client acc b).1.1 = ProxyPlane.proxies acc.1.1.
Proof using Type.
  destruct acc as [[p closing] sessions]. unfold detach_binding. cbn [fst].
  assert (Hdel : ∀ q g f, mirrorGroups p !! q = Some g → g_members (f g) = delete client (g_members g) →
    members_shrink p (p <| mirrorGroups := <[q := f g]> (mirrorGroups p) |>)).
  { intros q g f Hg Hf port k x (g' & Hg' & Hx). cbn in Hg'. rewrite lookup_insert in Hg'. case_decide; [|by exists g'].
    injection Hg' as <-. subst port. exists g. split; [done|]. rewrite Hf in Hx. by apply lookup_delete_Some in Hx as [_ Hx]. }
  assert (Hsame : ∀ p', mirrorGroups p' = mirrorGroups p → members_shrink p p') by (intros p' E port k x Hx; unfold member in *; by rewrite E in Hx).
  assert (Hord : let acc' := if bool_decide (endpoints p !! b_port b = b_endpoint b)
      then (p <| endpoints := delete (b_port b) (endpoints p) |> <| endpointBindings := delete (b_port b) (endpointBindings p) |>,
            match b_endpoint b with Some e => <[b_port b := e]> closing | None => closing end, sessions) else (p, closing, sessions) in
    members_shrink p acc'.1.1 ∧ ProxyPlane.proxies acc'.1.1 = ProxyPlane.proxies p) by (case_bool_decide; (split; [by apply Hsame|done])).
  destruct (mirrorGroups p !! b_port b) as [g|] eqn:Eg; [|exact Hord]. destruct (bool_decide (g_members g !! client = Some b)); [|exact Hord].
  destruct (bool_decide _ && bool_decide _); (split; [|done]).
  - by apply (Hdel (b_port b) g (λ g, (g <| g_members := delete client (g_members g) |>) <| g_endpoint := None |>)).
  - by apply (Hdel (b_port b) g (λ g, g <| g_members := delete client (g_members g) |>)).
Qed.

Lemma detach_plane_keeps client p c : c ≠ client →
  client_proxies c (detachPlane ρb client p).1.1 = client_proxies c p ∧ members_shrink p (detachPlane ρb client p).1.1.
Proof using Type.
  intros Hne. unfold detachPlane.
  assert (Hf : ∀ l acc, members_shrink acc.1.1 (foldl (detach_binding client) acc l).1.1 ∧
    ProxyPlane.proxies (foldl (detach_binding client) acc l).1.1 = ProxyPlane.proxies acc.1.1).
  { induction l as [|b l IH]; intros acc; [split; [by intros ???|done]|]. cbn [foldl]. destruct (IH (detach_binding client acc b)) as [H1 H2].
    destruct (detach_binding_shrinks client acc b) as [H3 H4]. split; [|by rewrite H2]. intros port k x Hx. by apply H3, H1. }
  destruct (Hf (ρb (client_proxies client p)).*2 (p, ∅, ∅)) as [Hm Hp]. destruct (foldl _ _ _) as [[p' ?] ?]. cbn in *.
  split; [unfold client_proxies; cbn; by rewrite Hp, lookup_delete_ne by done|]. exact Hm.
Qed.

(** What all registries of proxies hold for one client. *)
Definition proxies_kept (replaced : bool) (c : string) (r r' : ProxyReg) : Prop :=
  client_http c r' = client_http c r ∧ plane_kept replaced c (tcp r) (tcp r') ∧ plane_kept replaced c (udp r) (udp r').

Lemma Detach_keeps replaced c client session (r0 r : ProxyReg) : c ≠ client → proxies_kept replaced c r0 r →
  proxies_kept replaced c r0 (Detach ρb client session r).2.
Proof using Type.
  intros Hne (Hh & Ht & Hu). unfold Detach. destruct (clients r !! client) as [st|]; [|done]. case_match; [done|].
  destruct (detach_plane_keeps client (tcp r) c Hne) as [Et Mt], (detach_plane_keeps client (udp r) c Hne) as [Eu Mu].
  destruct (detachPlane _ _ (tcp r)) as [[??]?], (detachPlane _ _ (udp r)) as [[??]?]. cbn in *. unfold proxies_kept, client_http. cbn.
  rewrite lookup_delete_ne by done. split; [done|]. split; by eapply plane_kept_detached.
Qed.

Lemma detach_all_keeps replaced c (r0 : ProxyReg) gone : ∀ acc : list Eff * ProxyReg, (∀ e, e ∈ gone → ExpiredClientID e ≠ c) →
  proxies_kept replaced c r0 acc.2 → proxies_kept replaced c r0 (foldl (detach_revoked ρb) acc gone).2.
Proof using Type.
  induction gone as [|e gone IH]; intros acc Hn Hk; [done|]. cbn [foldl]. apply IH; [intros x Hx; apply Hn; by right|].
  unfold detach_revoked. pose proof (Detach_keeps replaced c (ExpiredClientID e) (ExpiredSessionID e) r0 acc.2) as Hd. destruct (Detach _ _ _ _).
  apply Hd; [|done]. intros ->. eapply Hn; [left|done].
Qed.

Lemma drop_fold_kept l : ∀ table c n b, default (∅ : gmap string ProxyPlane.binding) (table !! c) !! n = Some b →
  default ∅ (foldl drop_proxy table l !! c) !! n = Some b ∨ b ∈ l.
Proof using Type.
  induction l as [|x l IH]; intros table c n b Hb; [by left|]. cbn [foldl].
  destruct (decide (x = b)) as [->|Hne]; [right; left|]. destruct (IH (drop_proxy table x) c n b) as [|]; [|by left|right; by right].
  rewrite drop_proxy_lookup, decide_False; [done|]. intros (_ & _ & E). congruence.
Qed.

Lemma configure_plane_keeps stable ms candidates p p' removed dropped c : configurePlane stable ms ρgr ρb candidates p = Some (p', removed, dropped) →
  plane_kept true c p p'.
Proof using Type.
  unfold configurePlane. case_bool_decide as Hall; [|done]. intros E%(inj Some). 
  set (cs := map_imap _ candidates) in E. set (d := dropped_members _ _ cs p) in E.
  apply (f_equal (λ x, x.1.1)) in E. cbn in E. subst p'. split.
  - apply map_subseteq_spec. intros n b. unfold client_proxies. cbn. apply drop_fold_subset.
  - intros n b Hb. destruct (drop_fold_kept d _ c n b Hb) as [Hk|Hd]; [by left|]. right. split; [done|].
    unfold d, dropped_members in Hd. apply list_elem_of_bind in Hd as ([port g] & Hx & Hg).
    apply list_elem_of_fmap in Hx as ([k b'] & -> & Hx). apply list_elem_of_filter in Hx as [Hkeep Hx]. cbn in *.
    apply range_elem in Hg. apply range_elem in Hx. exists port, k. split; [by exists g|]. intros (g' & Hg' & Hm). cbn in Hg'.
    rewrite lookup_fmap, map_lookup_imap in Hg'. unfold keeps in Hkeep. destruct (cs !! port) as [cand|]; [|done]. cbn in Hg'.
    apply (inj Some) in Hg'. apply bool_decide_eq_false in Hkeep. apply Hkeep. rewrite <- Hm, <- Hg'. case_match; cbn; by rewrite kept_owner_members.
Qed.

Lemma configure_keeps c mirror addr (r : ProxyReg) r' : snd <$> ConfigureMirrorGroups ρgr ρb mirror addr r = Some r' → proxies_kept true c r r'.
Proof using Type.
  unfold ConfigureMirrorGroups. destruct (candidateGroups _ _ _), (candidateGroups _ _ _), (closed r); [done|].
  destruct (configurePlane true _ _ _ _ _) as [[[??]?]|] eqn:Et; [|done]. destruct (configurePlane false _ _ _ _ _) as [[[??]?]|] eqn:Eu; [|done].
  intros <-%(inj Some). split; [done|]. split; by eapply configure_plane_keeps.
Qed.

(** Everything a call of [applyConfigurationCandidate] can come to. *)
Lemma apply_inv https env (candidate : Config) (s : Serv) res s' : apply_candidate https env candidate s = (res, s') →
  match res with
  | Err _ => toolkitLogLevel (LogLevel candidate) = true → s' = s
  | Ok None => s' = s <| configuration := (configuration s) <| SourceDigest := SourceDigest candidate |> |>
  | Ok (Some todo) => ∃ next h snapshot reservations mirrored rest,
      let changes := changes_between h (configuration s) next in
      let revoked := revokedAuthenticationContexts (Authentication.current (store s)) snapshot (Accounts (configuration s)) (Accounts next) in
      let gone := if authenticationChanged changes then snd (RevokeAuthentication ρc revoked (registered s)) else [] in
      let detached := foldl (detach_revoked ρb) ([], CommitReservations reservations mirrored) gone in
      prepare https env (configuration s) candidate = Ok (next, changes) ∧ snapshot_of (Accounts next) = Some snapshot ∧
      BeginManagedReservationUpdate (managed_list ρm next) (Some (ProxiesMirror next)) (proxies s) (proxies s) = Some reservations ∧
      clients mirrored = clients (proxies s) ∧ (∀ c, proxies_kept (ch_mirror changes) c (proxies s) mirrored) ∧ removals rest = [] ∧
      todo = [RevokeTransport revoked] ++ detached.1 ++ (gone ≫= forget_revoked) ++ rest ∧
      s' = {| configuration := next <| ConfigGeneration := u64 (ConfigGeneration (configuration s) + 1) |>;
              store := ReplaceRevoking ρs snapshot revoked (store s);
              registered := if authenticationChanged changes then fst (RevokeAuthentication ρc revoked (registered s)) else registered s;
              proxies := detached.2; forwards := forwards s |}
  end.
Proof using Type.
  unfold applyConfigurationCandidate. destruct (prepare https env (configuration s) candidate) as [[next ch]|] eqn:Ep; [|by intros [= <- <-]].
  pose proof (prepare_accounts _ _ _ _ _ _ Ep) as (_ & _ & Hl & Hd & h & ->). set (changes := changes_between h (configuration s) next) in *.
  destruct (negb (changes_any changes)). { intros [= <- <-]. by rewrite Hd. }
  destruct (snapshot_of (Accounts next)) as [snapshot|] eqn:Es; [|by intros [= <- <-]].
  destruct (BeginManagedReservationUpdate _ _ _ _) as [reservations|] eqn:Er; [|by intros [= <- <-]].
  match goal with |- context [match ?x with Some mirrored => _ | None => (Err MirrorConflict, s) end] => destruct x as [mirrored|] eqn:Em end; [|by intros [= <- <-]].
  assert (Hm : clients mirrored = clients (proxies s)). { destruct (ch_mirror changes); [by eapply configure_clients|by apply (inj Some) in Em as <-]. }
  assert (Hpk : ∀ c, proxies_kept (ch_mirror changes) c (proxies s) mirrored).
  { intros c. destruct (ch_mirror changes); [by eapply configure_keeps|]. apply (inj Some) in Em as <-. split; [done|]. split; apply plane_kept_refl. }
  destruct (ch_logLevel changes && negb (toolkitLogLevel (LogLevel next))) eqn:Ev.
  { intros [= <- <-] Hok. rewrite Hl, Hok, andb_false_r in Ev. done. }
  set (revoked := revokedAuthenticationContexts _ _ _ _). destruct (RevokeAuthentication ρc revoked (registered s)) as [kept gone] eqn:Eg.
  set (rest := _ ++ _ ++ [RollOut _]). assert (Hrest : removals rest = []) by (unfold rest; by destruct (changes_forwardPolicy changes), (ch_virtualNetwork changes)).
  destruct (authenticationChanged changes) eqn:Ea; cbn [fst snd]; destruct (foldl _ _ _) as [cleanups detached] eqn:Ef; intros [= <- <-];
    exists next, h, snapshot, reservations, mirrored, rest; cbv zeta; fold changes; fold revoked; rewrite Ea, ?Eg; cbn [fst snd]; rewrite Ef; done.
Qed.

(** ** The system *)

Record World := { service : Serv; pending : list Eff }.

(** The counter of authentication generations does not overflow. *)
Definition roomy https env (candidate : Config) (s : Serv) : Prop :=
  ∀ next ch snapshot, prepare https env (configuration s) candidate = Ok (next, ch) → snapshot_of (Accounts next) = Some snapshot →
    nextGeneration (store s) + Z.of_nat (size snapshot) < 2 ^ 64.

Inductive reload_step (w : World) : World → Prop :=
| step_register client resume session conn now auth :
    (* the check and the registration hold the read side of the barrier *)
    Store_IsCurrent (store (service w)) auth = true →
    reload_step w {| service := (service w) <| registered := apply_op (OpRegister client resume session conn now auth) (registered (service w)) |>; pending := pending w |}
| step_session op : (∀ ρ contexts, op ≠ OpRevoke ρ contexts) → (∀ c r s conn now auth, op ≠ OpRegister c r s conn now auth) →
    reload_step w {| service := (service w) <| registered := apply_op op (registered (service w)) |>; pending := pending w |}
| step_registries proxies' forwards' :
    reload_step w {| service := (service w) <| proxies := proxies' |> <| forwards := forwards' |>; pending := pending w |}
| step_reload https env candidate res s' : pending w = [] → keyed (Accounts candidate) → roomy https env candidate (service w) →
    apply_candidate https env candidate (service w) = (res, s') →
    reload_step w {| service := s'; pending := match res with Ok (Some todo) => todo | _ => [] end |}
| step_retire e rest : pending w = e :: rest →
    reload_step w {| service := retire_effect ρf ρfs e (service w); pending := rest |}.

(** The service starts without sessions. *)
Inductive reload_reachable : World → Prop :=
| reload_start c snapshot limit proxies forwards : keyed (Accounts c) → snapshot_of (Accounts c) = Some snapshot →
    reload_reachable {| service := {| configuration := c; store := NewStore snapshot; registered := NewRegistryWithLimit limit; proxies := proxies; forwards := forwards |};
                        pending := [] |}
| reload_more w w' : reload_reachable w → reload_step w w' → reload_reachable w'.

Record service_ok (s : Serv) : Prop := {
  so_keyed : keyed (Accounts (configuration s));
  so_snapshot : ∃ snapshot, snapshot_of (Accounts (configuration s)) = Some snapshot ∧ holds_records (store s) snapshot;
  so_store : store_ok (store s);
  so_sessions c record : Session.clients (registered s) !! c = Some record → Store_IsCurrent (store s) (Session.authentication record) = true
}.

Section publication.
Context (s : Serv) (next : Config) (h : bool) (snapshot : Snapshot).
Context (Hs : service_ok s) (Hsnap : snapshot_of (Accounts next) = Some snapshot).
Context (Hov : nextGeneration (store s) + Z.of_nat (size snapshot) < 2 ^ 64).
Let changes := changes_between h (configuration s) next.
Let revoked := revokedAuthenticationContexts (Authentication.current (store s)) snapshot (Accounts (configuration s)) (Accounts next).
Let gone := if authenticationChanged changes then snd (RevokeAuthentication ρc revoked (registered s)) else [].
Let registered' := if authenticationChanged changes then fst (RevokeAuthentication ρc revoked (registered s)) else registered s.

Lemma revoked_unchanged : authenticationChanged changes = false → revoked = [].
Proof using Hs Hsnap.
  intros Ec. apply accounts_unchanged in Ec as [Ea Hd]. destruct Hs as [_ (snapshot0 & E0 & Hrec) _ _]. unfold revoked.
  pose proof Hsnap as E. rewrite Ea, E0 in E. injection E as E. rewrite <- E, Ea. by apply nothing_revoked.
Qed.

Lemma revoked_by_nil record : revoked_by [] record = false.
Proof using Type. done. Qed.

Lemma gone_elem e : e ∈ gone ↔ ∃ c record, Session.clients (registered s) !! c = Some record ∧ revoked_by revoked record = true ∧ e = expired_client c record.
Proof using Hs Hsnap.
  unfold gone. destruct (authenticationChanged changes) eqn:Ec.
  - destruct (Revoke_spec ρc revoked (registered s)) as (_ & _ & ->). apply report_elem.
  - rewrite (revoked_unchanged Ec). split; [by intros ?%elem_of_nil|]. by intros (? & ? & _ & ? & _).
Qed.

Lemma registered_after c record : Session.clients registered' !! c = Some record ↔
  Session.clients (registered s) !! c = Some record ∧ revoked_by revoked record = false.
Proof using Hs Hsnap.
  unfold registered'. destruct (authenticationChanged changes) eqn:Ec.
  - destruct (Revoke_spec ρc revoked (registered s)) as (-> & _ & _). apply map_lookup_filter_Some.
  - rewrite (revoked_unchanged Ec). naive_solver.
Qed.

Lemma current_after c record : Session.clients (registered s) !! c = Some record →
  Store_IsCurrent (ReplaceRevoking ρs snapshot revoked (store s)) (Session.authentication record) = negb (revoked_by revoked record).
Proof using Hs Hov.
  intros Hr. destruct Hs as [_ (snapshot0 & E0 & Hrec) Hok Hcur]. specialize (Hcur _ _ Hr). unfold revoked_by. case_bool_decide as Hin.
  - apply not_true_is_false. intros Hc. apply replace_revokes in Hc as [_ Hn]; [|done..]. apply Hn.
    apply list_elem_of_fmap in Hin as (x & E & Hx). apply list_elem_of_fmap. exists x. split; [congruence|done].
  - eapply kept_current; [done..|]. intros (x & Hx & E1 & E2). apply Hin, list_elem_of_fmap. exists x. split; [congruence|done].
Qed.
End publication.

Lemma step_service_ok w w' : service_ok (service w) → reload_step w w' → service_ok (service w').
Proof using Type.
  intros Hok []; cbn [service]; pose proof Hok as [Hk Hsn Hst Hse].
  - constructor; try done. cbn [registered upd]. intros c record Hr. apply op_authentication in Hr as [(a & Ha & ->)|(? & ? & ? & ? & ? & [= -> -> -> -> -> ->])]; eauto.
  - constructor; try done. cbn [registered upd]. intros c record Hr. apply op_authentication in Hr as [(a & Ha & ->)|(? & ? & ? & ? & ? & ->)]; [eauto|naive_solver].
  - by constructor.
  - pose proof (apply_inv _ _ _ _ _ _ H4) as Hi. destruct res as [[todo|]|]; [|by subst s'; constructor|].
    + destruct Hi as (next & h & snapshot & reservations & mirrored & rest & Ep & Es & _ & _ & _ & _ & _ & ->).
      pose proof (H3 _ _ _ Ep Es) as Hov. pose proof (prepare_accounts _ _ _ _ _ _ Ep) as (Eg & Em & _). constructor; cbn [configuration store registered].
      * by eapply keyed_same.
      * exists snapshot. split; [done|]. by apply replaced_holds.
      * by apply replaced_holds.
      * intros c record Hr%registered_after; [|done..]. destruct Hr as [Hr Hn]. erewrite current_after by done. by rewrite Hn.
    + unfold applyConfigurationCandidate in H4. repeat case_match; try done; injection H4 as <- <-; try done; by constructor.
  - destruct e; by constructor.
Qed.

Lemma new_store_holds snapshot : holds_records (NewStore snapshot) snapshot.
Proof using Type.
  intros k. unfold NewStore, withGeneration. cbn [Authentication.current]. rewrite MapCollect_lookup by done. by destruct (snapshot !! k).
Qed.

Lemma reachable_service_ok w : reload_reachable w → service_ok (service w).
Proof using Type.
  induction 1 as [c snapshot limit proxies forwards Hk Es|]; [|by eapply step_service_ok]. constructor; cbn.
  - done.
  - exists snapshot. split; [done|]. apply new_store_holds.
  - apply NewStore_ok.
  - by intros c' record Hr; rewrite lookup_empty in Hr.
Qed.

(** C34: A registered session is always authenticated by a record in use.
    Whatever registrations, session operations and reloads are interleaved, every
    client session of the registry, active, suspended or being initialised, is
    authenticated by a context that is current in the authentication store, and
    the store holds exactly the accounts of the published configuration: no
    session outlives the reload that takes its account away. *)
Theorem sessions_authenticated w : reload_reachable w →
  (∀ c record, Session.clients (registered (service w)) !! c = Some record → Store_IsCurrent (store (service w)) (Session.authentication record) = true) ∧
  ∃ snapshot, snapshot_of (Accounts (configuration (service w))) = Some snapshot ∧ holds_records (store (service w)) snapshot.
Proof using Type. intros [_ Hsn _ Hse]%reachable_service_ok. done. Qed.

(** What a reload makes of one session. *)
Definition fate (s s' : Serv) (todo : list Eff) (c : string) (record : clientRecord) : Prop :=
  let key := (c, Session.sessionID record) in
  let after := foldl (λ s e, retire_effect ρf ρfs e s) s' todo in
  if Store_IsCurrent (store s') (Session.authentication record)
  then Session.clients (registered s') !! c = Some record ∧ clients (proxies s') !! c = clients (proxies s) !! c ∧
       proxies_kept (negb (deep_equal (ProxiesMirror (configuration s')) (ProxiesMirror (configuration s)))) c (proxies s) (proxies s') ∧
       ForwardRegistry.sessions (forwards after) !! key = ForwardRegistry.sessions (forwards s) !! key
  else Session.clients (registered s') !! c = None ∧ (∀ st, clients (proxies s') !! c = Some st → sessionID st ≠ Session.sessionID record) ∧
       ForwardRegistry.sessions (forwards after) !! key = None ∧
       (Session.connection record ≠ None → CloseConnection (Session.connection record) ∈ todo).

Lemma session_fate s next h snapshot reservations mirrored rest c record :
  service_ok s → snapshot_of (Accounts next) = Some snapshot → nextGeneration (store s) + Z.of_nat (size snapshot) < 2 ^ 64 →
  clients mirrored = clients (proxies s) → (∀ c, proxies_kept (ch_mirror (changes_between h (configuration s) next)) c (proxies s) mirrored) → removals rest = [] →
  let changes := changes_between h (configuration s) next in
  let revoked := revokedAuthenticationContexts (Authentication.current (store s)) snapshot (Accounts (configuration s)) (Accounts next) in
  let gone := if authenticationChanged changes then snd (RevokeAuthentication ρc revoked (registered s)) else [] in
  let detached := foldl (detach_revoked ρb) ([], CommitReservations reservations mirrored) gone in
  Session.clients (registered s) !! c = Some record →
  fate s {| configuration := next <| ConfigGeneration := u64 (ConfigGeneration (configuration s) + 1) |>;
            store := ReplaceRevoking ρs snapshot revoked (store s);
            registered := if authenticationChanged changes then fst (RevokeAuthentication ρc revoked (registered s)) else registered s;
            proxies := detached.2; forwards := forwards s |}
       ([RevokeTransport revoked] ++ detached.1 ++ (gone ≫= forget_revoked) ++ rest) c record.
Proof using Type.
  intros Hok Es Hov Hm Hpk Hrest changes revoked gone detached Hr. unfold fate. cbn [store registered proxies forwards configuration].
  assert (Hrem : removals ([RevokeTransport revoked] ++ detached.1 ++ (gone ≫= forget_revoked) ++ rest) = gone_key <$> gone).
  { rewrite !removals_app, Hrest. unfold detached. rewrite cleanups_remove, removals_gone, app_nil_r. done. }
  assert (Hg : ∀ e, e ∈ gone ↔ ∃ c record, Session.clients (registered s) !! c = Some record ∧ revoked_by revoked record = true ∧ e = expired_client c record)
    by (intros e; by eapply gone_elem).
  pose proof (current_after s next snapshot Hok Hov c record Hr) as Hcur. fold revoked in Hcur.
  rewrite retire_sessions. cbn [forwards]. rewrite Hcur, Hrem.
  destruct (detach_all_clients gone ([], CommitReservations reservations mirrored) c) as (_ & Hkeep & Hgone). fold detached in Hkeep, Hgone.
  destruct (revoked_by revoked record) eqn:Er; cbn [negb].
  - assert (Hin : expired_client c record ∈ gone) by (apply Hg; eauto). split_and!.
    + apply eq_None_not_Some. intros [x Ex]. apply (registered_after s next h snapshot Hok Es) in Ex as [Hx Hn]. fold revoked in Hn. congruence.
    + intros st Hst. by apply (Hgone (expired_client c record) st).
    + rewrite decide_True; [done|]. apply list_elem_of_fmap. by exists (expired_client c record).
    + intros Hc. apply elem_of_app. right. apply elem_of_app. right. apply elem_of_app. left. apply list_elem_of_bind.
      exists (expired_client c record). split; [|done]. unfold forget_revoked. cbn. destruct (Session.connection record); [|done]. right. left.
  - assert (Hn : ∀ e, e ∈ gone → ExpiredClientID e ≠ c).
    { intros e (c' & record' & Hr' & Hb & ->)%Hg. cbn. intros ->. rewrite Hr in Hr'. injection Hr' as <-. congruence. }
    split_and!.
    + apply (registered_after s next h snapshot Hok Es). done.
    + rewrite Hkeep; [cbn; by rewrite Hm|]. intros (e & -> & He)%list_elem_of_fmap. by apply (Hn e).
    + apply (detach_all_keeps (ch_mirror changes) c (proxies s) gone); [done|]. exact (Hpk c).
    + rewrite decide_False; [done|]. intros (e & E & He)%list_elem_of_fmap. injection E as E _. apply (Hn e); done.
Qed.

End safety.

(** ** A run *)

Module DemoApply.
#[export] Instance endpoint_dec : EqDecision EndpointConfig.
Proof. solve_decision. Defined.
#[export] Instance forward_config_dec : EqDecision ForwardConfig.
Proof. solve_decision. Defined.
#[export] Instance proxy_config_dec : EqDecision ProxyConfig.
Proof. solve_decision. Defined.
#[export] Instance managed_configuration_dec : EqDecision ManagedConfiguration.
Proof. solve_decision. Defined.
#[export] Instance managed_client_dec : EqDecision ManagedClient.
Proof. solve_decision. Defined.
#[export] Instance governed_client_dec : EqDecision GovernedClient.
Proof. unfold EqDecision. intros [] []; unfold Decision; repeat decide equality; apply _. Defined.
#[export] Instance certificate_dec : EqDecision HTTPSCertificateConfig.
Proof. solve_decision. Defined.
#[export] Instance forward_server_dec : EqDecision ForwardServerConfig.
Proof. solve_decision. Defined.
#[export] Instance vnet_ports_dec : EqDecision VNetPortPermissions.
Proof. solve_decision. Defined.
#[export] Instance vnet_node_dec : EqDecision VNetNodeConfig.
Proof. solve_decision. Defined.
#[export] Instance vnet_dec : EqDecision VirtualNetworkConfig.
Proof. solve_decision. Defined.
#[export] Instance mirror_group_dec : EqDecision ProxyMirrorGroupConfig.
Proof. solve_decision. Defined.
#[export] Instance mirror_dec : EqDecision ProxyMirrorConfig.
Proof. solve_decision. Defined.

(** Comparison of values with decidable equality. *)
#[export] Instance compared {A} `{EqDecision A} : DeepEqual A :=
  {| deep_equal a b := bool_decide (a = b); deep_equal_sound a b := bool_decide_eq_true_1 (a = b) |}.

Definition accounts (managed : gmap string ManagedClient) : ReloadConfig :=
  {| SharedToken := Some "shared"; GovernedClientsPath := ""; ManagedClientsPath := "managed"; GovernedByID := ∅; ManagedByID := managed |}.
Definition m : ManagedClient := {| managed_id := "m"; managed_token := "secret"; managed_rules := []; managed_configuration := DemoManaged.loaded 1 |}.
Definition network : VirtualNetworkConfig :=
  {| Enabled := false; NetworkMode := ""; CIDR := ""; ServerIP := ""; PacketChannels := 0; ServerPorts := {| PortsTCP := []; PortsUDP := [] |}; Nodes := [] |}.
Definition rule : ForwardIPRule := {| IPRange := "10.0.0.0/8"; RuleTCP := [{| Start := 1; End_ := 65535 |}]; RuleUDP := [] |}.
Definition config (managed : gmap string ManagedClient) : Configuration (ServerTransportConfig := string) (HTTPConfig := string) :=
  {| Transport := "tcp"; BindIP := "0.0.0.0"; HTTPListen := ""; HTTPSettings := ""; HTTPSListen := ""; Certificates := []; ProxiesUDP := zero_UDPConfig;
     ProxiesMirror := {| MirrorGoverned := []; MirrorManaged := [] |}; Security := {| IPDenyFile := ""; HTTPClientIPHeader := "" |}; OperationsListen := "";
     ForwardSettings := {| ForwardEnabled := true; Rules := [rule]; ForwardUDP := zero_UDPConfig; Configured := true |};
     VirtualNetwork := network; LogLevel := "info"; Accounts := accounts managed; SourceDigest := "d"; ConfigGeneration := 1; SharedTokenGenerated := false |}.
Definition env : ReloadEnv := {| env_token := Some "t"; env_certificates := true; env_address := 1 |}.
Definition sorted (managed : gmap string (list ProxyConfig)) : list (string * list ProxyConfig) := map_to_list managed.
Definition snapshot_run := BuildAuthenticationSnapshot DemoReload.text_hash any_range any_range (accounts {["m" := m]}).
Definition snapshot : Snapshot := from_some snapshot_run (ltac:(vm_compute; reflexivity) : is_some snapshot_run = true).
Definition context : Context := {| Mode := ModeManaged; ContextClientID := "m"; CredentialID := DemoReload.text_hash "secret"; Generation := 1 |}.
Definition Apply (candidate : Configuration (ServerTransportConfig := string) (HTTPConfig := string)) :=
  applyConfigurationCandidate (H := LoopColl.coll) (H0 := Dotted.text) DemoReload.text_hash (Some 65507) any_range any_range any_range any_range sorted any_range any_range any_range any_range
    false env candidate.
Definition Reachable := reload_reachable (H := LoopColl.coll) (H0 := Dotted.text) (ServerTransportConfig := string) (HTTPConfig := string) DemoReload.text_hash (Some 65507)
  any_range any_range any_range any_range sorted any_range any_range any_range any_range any_range any_range.
Definition begin : World := {|
  service := {| configuration := config {["m" := m]}; store := NewStore (H := LoopColl.coll) snapshot; registered := NewRegistryWithLimit 8;
                proxies := newRegistry true false; forwards := New zero_UDPConfig |}; pending := [] |}.
Definition joined : World := {|
  service := (service begin) <| registered := apply_op (OpRegister "m" "" "s1" (Some 7) 5 context) (registered (service begin)) |>; pending := [] |}.
Definition revoking := Apply (config ∅) (service joined).

Lemma begin_apply : Reachable begin.
Proof.
  apply reload_start; [|exact (from_some_eq snapshot_run _)]. split; [done|]. intros id g Hg. cbn in Hg. apply lookup_singleton_Some in Hg as [<- <-]. done.
Qed.
Lemma joined_apply : Reachable joined.
Proof. eapply reload_more; [exact begin_apply|]. apply (step_register _ _ _ _ _ _ _ _ _ _ _ _ _ begin "m" "" "s1" (Some 7) 5 context). vm_compute. reflexivity. Qed.

Definition todo : list (Effect (ServerTransportConfig := string) (HTTPConfig := string)) :=
  match revoking.1 with Ok (Some todo) => todo | _ => [] end.
Lemma revoking_eq : revoking = (Ok (Some todo), revoking.2).
Proof. rewrite (surjective_pairing revoking) at 1. f_equal. Qed.
Lemma roomy_demo : roomy (H0 := Dotted.text) DemoReload.text_hash (Some 65507) any_range any_range any_range any_range sorted
  false env (config ∅) (service joined).
Proof.
  intros next ch snapshot' Ep Es. 
  assert (E : prepareConfigurationCandidate (H0 := Dotted.text) (Some 65507) any_range any_range any_range sorted false env (configuration (service joined)) (config ∅) =
    Ok (config ∅, changes_between false (configuration (service joined)) (config ∅))) by (vm_compute; reflexivity).
  rewrite E in Ep. injection Ep as <- _. apply (f_equal (fmap size)) in Es. cbn [fmap option_fmap option_map] in Es.
  assert (Ec : size <$> BuildAuthenticationSnapshot DemoReload.text_hash any_range any_range (Accounts (config ∅)) = Some 1%nat) by (vm_compute; reflexivity).
  cbn [fmap option_fmap option_map] in Ec. rewrite Ec in Es. injection Es as <-. vm_compute. reflexivity.
Qed.
Lemma member_some : is_some (Session.clients (registered (service joined)) !! "m") = true.
Proof. vm_compute. reflexivity. Qed.
Definition member : clientRecord := from_some _ member_some.
End DemoApply.
Import DemoApply.

Lemma sessions_authenticated_witness : Store_IsCurrent (store (service joined)) (Session.authentication member) = true.
Proof.
  apply (proj1 (sessions_authenticated (H := LoopColl.coll) (H0 := Dotted.text) DemoReload.text_hash (Some 65507) any_range any_range any_range any_range sorted
    any_range any_range any_range any_range any_range any_range joined joined_apply) "m" member). apply from_some_eq.
Defined.


