(* ===== verification/ManagedRollout.v ===== *)
(** * The rollout of managed configurations
      ([internal/server/managed_rollout.go, managed_session.go,
      managed_coordinator.go, configuration_reload.go],
      [internal/client/managed_rollout.go, control_loop.go])

    The server brings a generation to a managed client in two rounds: the
    client first prepares it and acknowledges, then activates it and
    acknowledges; only then does the server publish the proxies and forwards.
    The exchange runs at the start of a control connection, where the server
    reads the acknowledgements itself, and again on open connections whenever
    the configuration changes, where the reader of the connection hands them
    over through two channels of capacity one.

    The system has one managed client with any number of successive control
    connections.  A connection is a pair of queues; messages are delivered in
    order or not at all.  Rollouts, readers, the client, broken connections and
    time-outs interleave freely. *)

From S2P Require Import Prelude GoTime NetAddr Authentication ConfigVNet ConfigUDP ConfigForward LinkBroker ForwardRegistry ProxyPlane ConfigProxy ProxyRegistry ProxySystem ProxyPermissions ConfigurationSync ClientForwards ManagedConfig.

Local Open Scope Z_scope.

(** ** Connections *)

Inductive Down := MPrepare (p : ManagedConfigPrepare) | MActivate (a : ManagedConfigActivate).
Inductive Up := MPrepared (st : ManagedConfigStatus) | MApplied (st : ManagedConfigStatus).

(** [pendingManagedConfiguration]; [pd_source] is the message it was built from. *)
Record pendingManagedConfiguration := {
  pd_proxies : list ProxyConfig;
  pd_forwards : forwardManager;
  pd_status : ManagedConfigStatus;
  pd_source : ManagedConfigPrepare
}.

(** What the client does on a connection: [receiveManagedConfiguration] before
    and after the preparation, then the control loop with the active forwards
    and the pending generation. *)
Inductive Phase :=
| Receiving
| Staged (pending : pendingManagedConfiguration)
| Looping (current : option forwardManager) (pending : option pendingManagedConfiguration)
| Stopped.

(** [cn_serving] says that the server reads the connection with
    [serveControlMessages], [cn_left] that its control goroutine has returned. *)
Record Conn := {
  cn_session : string;
  cn_down : list Down;
  cn_up : list Up;
  cn_open : bool;
  cn_resumed : bool;
  cn_serving : bool;
  cn_left : bool;
  cn_phase : Phase
}.
#[export] Instance eta_Conn : Eta Conn := λ c,
  {| cn_session := cn_session c; cn_down := cn_down c; cn_up := cn_up c; cn_open := cn_open c; cn_resumed := cn_resumed c;
     cn_serving := cn_serving c; cn_left := cn_left c; cn_phase := cn_phase c |}.

(** ** The client *)

(** A generation the client has switched to, on which connection, and the one
    it replaced. *)
Record Generation := {
  g_conn : nat;
  g_online : bool;
  g_before : ManagedConfigStatus;
  g_status : ManagedConfigStatus;
  g_proxies : list ProxyConfig;
  g_source : ManagedConfigPrepare
}.

Record Client := { managedStatus : ManagedConfigStatus; runtimeProxies : list ProxyConfig; history : list Generation }.
Definition zero_status : ManagedConfigStatus := {| StatusRevision := 0; StatusDigest := "" |}.

(** ** The server and the system: data *)

Record managedSession := {
  ms_sessionID : string;
  ms_conn : nat;
  ms_prepared : option ManagedConfigStatus;
  ms_applied : option ManagedConfigStatus;
  ms_locked : bool
}.
#[export] Instance eta_managedSession : Eta managedSession := λ s,
  {| ms_sessionID := ms_sessionID s; ms_conn := ms_conn s; ms_prepared := ms_prepared s; ms_applied := ms_applied s; ms_locked := ms_locked s |}.

(** Of the coordinator only the entry of the one client; sessions are shared by
    pointer. *)
Record Server := {
  sv_forwards : ForwardReg;
  sv_proxies : ProxyReg;
  sv_registered : option nat;
  sv_sessions : gmap nat managedSession
}.
#[export] Instance eta_Server : Eta Server := λ s,
  {| sv_forwards := sv_forwards s; sv_proxies := sv_proxies s; sv_registered := sv_registered s; sv_sessions := sv_sessions s |}.

(** The steps of [applyManagedGeneration]: [Lock] and the drains only on an
    open session; [Restore] is the activation of the proxies on the way out. *)
Inductive RolloutPc :=
| Lock | DrainPrepared | DrainApplied | WritePrepare | AwaitPrepared | Begin | Deactivating | WriteActivate | AwaitApplied
| Committing | Restore (ok : bool) | Unlock (ok : bool) | Ended (ok : bool).

#[export] Instance rollout_pc_eq_dec : EqDecision RolloutPc.
Proof. solve_decision. Defined.

(** [ro_online] is the session of an exchange on an open connection. *)
Record Rollout := {
  ro_conn : nat;
  ro_online : option nat;
  ro_preparation : ManagedConfigPrepare;
  ro_declarations : SyncConfiguration;
  ro_transaction : option SyncTransaction;
  ro_pc : RolloutPc
}.
#[export] Instance eta_Rollout : Eta Rollout := λ r,
  {| ro_conn := ro_conn r; ro_online := ro_online r; ro_preparation := ro_preparation r; ro_declarations := ro_declarations r;
     ro_transaction := ro_transaction r; ro_pc := ro_pc r |}.

(** What the environment answers to a rollout. *)
Inductive RolloutChoice :=
| Proceed
| Transmitted (ok : bool)
| Received
| Expired
| Synced (policy : Context → ForwardDeclaration → bool * bool) (udp : UDPConfig) (ids : list (option string))
| Published (policy : Context → ForwardDeclaration → bool * bool) (outcome : ProxyOutcome).

(** [published] are the generations the server has made public, each with the
    connection it was agreed on; [suspended] are the sessions whose connection
    has ended. *)
Record World := {
  server : Server;
  client : Client;
  conns : gmap nat Conn;
  rollouts : gmap nat Rollout;
  published : list (nat * ManagedConfigPrepare);
  suspended : gset string
}.
#[export] Instance eta_rollout_World : Eta World := λ w,
  {| server := server w; client := client w; conns := conns w; rollouts := rollouts w; published := published w; suspended := suspended w |}.

Inductive Action :=
| Connect (k : nat) (session : string) (resume : option string)
| BeginInitial (i k : nat) (c : ManagedConfiguration)
| FinishInitial (i o : nat)
| BeginRollout (i : nat) (c : ManagedConfiguration)
| AdvanceRollout (i : nat) (ch : RolloutChoice)
| ServerRead (k : nat)
| ClientRead (k : nat) (listens : string → bool)
| Break (k : nat)
| ClientLeaves (k : nat)
| Disconnect (k : nat)
| OtherWork (fr : ForwardReg) (r : ProxyReg).

Section rollout.
Context (MarshalProxies : list ManagedProxy → option (list byte)).
Context (MarshalConfiguration : list ManagedProxy → list ManagedForward → option (list byte)).
Context (sha256 : list byte → list byte).
Context `{NetipText}.
Context (platform : option Z) (ρr : go_range string forwardRuntime).

Definition prepared_configuration (p : ManagedConfigPrepare) : result ManagedError (list ProxyConfig * ManagedConfigStatus * list ForwardConfig) :=
  match validateManagedPreparation MarshalProxies MarshalConfiguration sha256 p with
  | Err e => Err e
  | Ok (proxies, status) =>
    match managedForwardConfigurations (PrepareForwards p) with
    | Err e => Err e
    | Ok forwards => Ok (proxies, status, forwards)
    end
  end.

Definition candidate_of (p : ManagedConfigPrepare) : result ManagedError pendingManagedConfiguration :=
  match prepared_configuration p with
  | Err e => Err e
  | Ok (proxies, status, forwards) =>
    Ok {| pd_proxies := proxies; pd_forwards := newForwardManager forwards; pd_status := status; pd_source := p |}
  end.

Definition prepareManagedConfiguration (p : ManagedConfigPrepare) (pending : option pendingManagedConfiguration) (current : ManagedConfigStatus) :
    result ManagedError pendingManagedConfiguration :=
  match candidate_of p with
  | Err e => Err e
  | Ok candidate =>
    match pending with
    | Some pending => if negb (bool_decide (pd_status candidate = pd_status pending)) then Err ConflictingRollout else Ok pending
    | None =>
      let status := pd_status candidate in
      if (StatusRevision status <? StatusRevision current) ||
         ((StatusRevision status =? StatusRevision current) && negb (bool_decide (StatusDigest status = StatusDigest current)))
      then Err StaleRevision else Ok candidate
    end
  end.

(** The manager that is current afterwards, closed ones left out. *)
Definition replaceManagedForwardRuntime (current : option forwardManager) (candidate : forwardManager) (bindings : list ForwardResult)
    (listens : string → bool) : option forwardManager * option ManagedError :=
  match applyBindings platform bindings candidate with
  | (Some _, _) => (current, Some InvalidBindings)
  | (None, candidate) =>
    match start ρr listens candidate with
    | (false, _) => (None, Some ListenFailed)
    | (true, candidate) => (Some candidate, None)
    end
  end.

Definition matches_activation (a : ManagedConfigActivate) (st : ManagedConfigStatus) : bool :=
  (ActivateRevision a =? StatusRevision st) && bool_decide (ActivateDigest a = StatusDigest st).

(** [pending.activate] up to its effects on the service. *)
Definition activate_pending (current : option forwardManager) (pending : pendingManagedConfiguration) (a : ManagedConfigActivate)
    (listens : string → bool) : option forwardManager * option ManagedError :=
  if negb (matches_activation a (pd_status pending)) then (current, Some ActivationMismatch)
  else replaceManagedForwardRuntime current (pd_forwards pending) (ActivateForwards a) listens.

Definition switch_to (k : nat) (online : bool) (pending : pendingManagedConfiguration) (cl : Client) : Client :=
  {| managedStatus := pd_status pending; runtimeProxies := pd_proxies pending;
     history := history cl ++ [{| g_conn := k; g_online := online; g_before := managedStatus cl; g_status := pd_status pending;
                                  g_proxies := pd_proxies pending; g_source := pd_source pending |}] |}.

(** Writing on a connection; the session ends when it fails. *)
Definition client_write (msg : Up) (phase : Phase) (c : Conn) : Conn :=
  if cn_open c then c <| cn_up := cn_up c ++ [msg] |> <| cn_phase := phase |> else c <| cn_phase := Stopped |>.

Definition client_stop (c : Conn) : Conn := c <| cn_phase := Stopped |> <| cn_open := false |>.

(** The client handles the next message of connection [k]. *)
Definition client_handle (k : nat) (listens : string → bool) (msg : Down) (c : Conn) (cl : Client) : Conn * Client :=
  match cn_phase c, msg with
  | Receiving, MPrepare p =>
    match candidate_of p with
    | Err _ => (client_stop c, cl)
    | Ok candidate => (client_write (MPrepared (pd_status candidate)) (Staged candidate) c, cl)
    end
  | Staged pending, MActivate a =>
    match activate_pending None pending a listens with
    | (Some manager, None) => (client_write (MApplied (pd_status pending)) (Looping (Some manager) None) c, switch_to k false pending cl)
    | _ => (client_stop c, cl)
    end
  | Looping current pending, MPrepare p =>
    match prepareManagedConfiguration p pending (managedStatus cl) with
    | Err _ => (client_stop c, cl)
    | Ok candidate => (client_write (MPrepared (pd_status candidate)) (Looping current (Some candidate)) c, cl)
    end
  | Looping current None, MActivate a =>
    if matches_activation a (managedStatus cl)
    then (client_write (MApplied (managedStatus cl)) (Looping current None) c, cl)
    else (client_stop c, cl)
  | Looping current (Some pending), MActivate a =>
    match activate_pending current pending a listens with
    | (Some manager, None) => (client_write (MApplied (pd_status pending)) (Looping (Some manager) None) c, switch_to k true pending cl)
    | _ => (client_stop c, cl)
    end
  | _, _ => (client_stop c, cl)
  end.

(** ** The server *)

Definition register (o : nat) (s : managedSession) (sv : Server) : Server :=
  sv <| sv_registered := Some o |> <| sv_sessions := <[o := s]> (sv_sessions sv) |>.

Definition get (sv : Server) : option (nat * managedSession) :=
  match sv_registered sv with Some o => (λ s, (o, s)) <$> sv_sessions sv !! o | None => None end.

Definition unregister (sessionID : string) (sv : Server) : Server :=
  match get sv with
  | Some (_, s) => if bool_decide (ms_sessionID s = sessionID) then sv <| sv_registered := None |> else sv
  | None => sv
  end.

(** A send on a channel of capacity one. *)
Definition offer_status (st : ManagedConfigStatus) (ch : option ManagedConfigStatus) : option (option ManagedConfigStatus) :=
  match ch with None => Some (Some st) | Some _ => None end.

Definition publish (sessionID : string) (msg : Up) (sv : Server) : bool * Server :=
  match get sv with
  | None => (false, sv)
  | Some (o, s) =>
    if negb (bool_decide (ms_sessionID s = sessionID)) then (false, sv)
    else
      match msg with
      | MPrepared st =>
        match offer_status st (ms_prepared s) with
        | Some ch => (true, sv <| sv_sessions := <[o := s <| ms_prepared := ch |>]> (sv_sessions sv) |>)
        | None => (false, sv)
        end
      | MApplied st =>
        match offer_status st (ms_applied s) with
        | Some ch => (true, sv <| sv_sessions := <[o := s <| ms_applied := ch |>]> (sv_sessions sv) |>)
        | None => (false, sv)
        end
      end
  end.

Context (ρf : go_range string ForwardRegistry.binding) (ρ : go_range string ProxyPlane.binding) (ρe : go_range Z Endpoint).
Context (clientID : string) (auth : Context) (limit : Z).

Definition goto_pc (pc : RolloutPc) (r : Rollout) : Rollout := r <| ro_pc := pc |>.

Definition set_session (o : nat) (f : managedSession → managedSession) (sv : Server) : Server :=
  match sv_sessions sv !! o with Some s => sv <| sv_sessions := <[o := f s]> (sv_sessions sv) |> | None => sv end.

Definition server_write (msg : Down) (ok : bool) (next failed : RolloutPc) (c : Conn) (r : Rollout) : Conn * Rollout :=
  if ok && cn_open c then (c <| cn_down := cn_down c ++ [msg] |>, goto_pc next r) else (c, goto_pc failed r).

(** [waitManagedStatus] on the channel, [expectManagedStatus] on the connection. *)
Definition take_status (applied : bool) (sv : Server) (c : Conn) (r : Rollout) : option (option ManagedConfigStatus * Server * Conn) :=
  match ro_online r with
  | Some o =>
    match sv_sessions sv !! o with
    | Some s =>
      if applied then (λ st, (Some st, set_session o (λ s, s <| ms_applied := None |>) sv, c)) <$> ms_applied s
      else (λ st, (Some st, set_session o (λ s, s <| ms_prepared := None |>) sv, c)) <$> ms_prepared s
    | None => None
    end
  | None =>
    match cn_up c with
    | [] => None
    | msg :: up =>
      let c := c <| cn_up := up |> in
      match applied, msg with
      | true, MApplied st | false, MPrepared st => Some (Some st, sv, c)
      | _, _ => Some (None, sv, c)
      end
    end
  end.

(** Leaving before the proxies were deactivated. *)
Definition failed_pc (r : Rollout) : RolloutPc := if is_some (ro_online r) then Unlock false else Ended false.

Definition rollout_step (ch : RolloutChoice) (r : Rollout) (sv : Server) (c : Conn) : option (Rollout * Server * Conn) :=
  let status := status_of (ro_preparation r) in
  match ro_pc r, ch with
  | Lock, Proceed =>
    match ro_online r ≫= λ o, sv_sessions sv !! o with
    | Some s => if ms_locked s then None
                else Some (goto_pc DrainPrepared r, set_session (default 0%nat (ro_online r)) (λ s, s <| ms_locked := true |>) sv, c)
    | None => None
    end
  | DrainPrepared, Proceed => Some (goto_pc DrainApplied r, set_session (default 0%nat (ro_online r)) (λ s, s <| ms_prepared := None |>) sv, c)
  | DrainApplied, Proceed => Some (goto_pc WritePrepare r, set_session (default 0%nat (ro_online r)) (λ s, s <| ms_applied := None |>) sv, c)
  | WritePrepare, Transmitted ok =>
    let '(c, r) := server_write (MPrepare (ro_preparation r)) ok AwaitPrepared (failed_pc r) c r in Some (r, sv, c)
  | AwaitPrepared, Received =>
    match take_status false sv c r with
    | Some (Some st, sv, c) => Some (goto_pc (if bool_decide (st = status) then Begin else failed_pc r) r, sv, c)
    | Some (None, sv, c) => Some (goto_pc (failed_pc r) r, sv, c)
    | None => None
    end
  | AwaitPrepared, Expired => Some (goto_pc (failed_pc r) r, sv, c)
  | Begin, Synced policy udp ids =>
    match BeginSync policy udp clientID (cn_session c) (Some (ro_conn r)) auth limit ids (SyncForwards (ro_declarations r)) (sv_forwards sv) with
    | (Err _, fr) => Some (goto_pc (failed_pc r) r, sv <| sv_forwards := fr |>, c)
    | (Ok t, fr) => Some (goto_pc Deactivating (r <| ro_transaction := Some t |>), sv <| sv_forwards := fr |>, c)
    end
  | Deactivating, Proceed =>
    Some (goto_pc WriteActivate r,
          if is_some (ro_online r) then sv <| sv_proxies := Deactivate clientID (cn_session c) (sv_proxies sv) |> else sv, c)
  | WriteActivate, Transmitted ok =>
    let forwards := match ro_transaction r with Some t => tx_results t | None => [] end in
    let activation := {| ActivateRevision := StatusRevision status; ActivateDigest := StatusDigest status; ActivateForwards := forwards |} in
    let '(c, r) := server_write (MActivate activation) ok AwaitApplied (Restore false) c r in Some (r, sv, c)
  | AwaitApplied, Received =>
    match take_status true sv c r with
    | Some (Some st, sv, c) => Some (goto_pc (if bool_decide (st = status) then Committing else Restore false) r, sv, c)
    | Some (None, sv, c) => Some (goto_pc (Restore false) r, sv, c)
    | None => None
    end
  | AwaitApplied, Expired => Some (goto_pc (Restore false) r, sv, c)
  | Committing, Published policy outcome =>
    match ro_transaction r with
    | Some t =>
      let '(res, _, t, fr, proxies) := coordinate ρ ρe policy t outcome (sv_forwards sv) (sv_proxies sv) in
      Some (goto_pc (Restore (bool_decide (Status res = SyncStatusApplied))) (r <| ro_transaction := Some t |>),
            sv <| sv_forwards := fr |> <| sv_proxies := proxies |>, c)
    | None => None
    end
  | Restore ok, Proceed =>
    Some (goto_pc (if is_some (ro_online r) then Unlock ok else Ended ok) r,
          if is_some (ro_online r) then sv <| sv_proxies := Activate clientID (cn_session c) (sv_proxies sv) |> else sv, c)
  | Unlock ok, Proceed =>
    Some (goto_pc (Ended ok) r, set_session (default 0%nat (ro_online r)) (λ s, s <| ms_locked := false |>) sv,
          if ok then c else c <| cn_open := false |>)
  | _, _ => None
  end.

(** ** The system *)

Definition payload_of (c : ManagedConfiguration) := managedConfigurationPayload MarshalProxies MarshalConfiguration sha256 c.

Definition new_rollout (k : nat) (online : option nat) (c : ManagedConfiguration) : option Rollout :=
  (λ '(preparation, declarations),
     {| ro_conn := k; ro_online := online; ro_preparation := preparation; ro_declarations := declarations; ro_transaction := None;
        ro_pc := if is_some online then Lock else WritePrepare |}) <$> payload_of c.

Definition is_stopped (p : Phase) : bool := match p with Stopped => true | _ => false end.
Definition initial_on (k : nat) (r : Rollout) : bool := bool_decide (ro_conn r = k) && negb (is_some (ro_online r)).

(** A new control connection, once the client has left the previous ones; its
    session identifier is new.  When it resumes a session, the proxies of that
    one are suspended. *)
Definition connect (k : nat) (session : string) (resume : option string) (w : World) : option World :=
  if is_some (conns w !! k) then None
  else if negb (bool_decide (map_Forall (λ _ c, is_stopped (cn_phase c) = true ∧ cn_session c ≠ session) (conns w))) then None
  else
    let r := sv_proxies (server w) in
    let r := match resume with Some previous => (Suspend ρ clientID previous r).2 | None => r end in
    let cn := {| cn_session := session; cn_down := []; cn_up := []; cn_open := true; cn_resumed := is_some resume; cn_serving := false;
                 cn_left := false; cn_phase := Receiving |} in
    Some (w <| conns := <[k := cn]> (conns w) |>
            <| server := (server w) <| sv_proxies := AttachAuthenticated clientID session (Some k) auth limit r |> |>
            <| suspended := match resume with Some previous => {[previous]} ∪ suspended w | None => suspended w end |>).

(** [initializeManagedSession] starts an exchange for the configuration it has read. *)
Definition begin_initial (i k : nat) (c : ManagedConfiguration) (w : World) : option World :=
  match rollouts w !! i, conns w !! k, new_rollout k None c with
  | None, Some cn, Some r =>
    if cn_serving cn || cn_left cn || negb (bool_decide (map_Forall (λ _ r, initial_on k r = false ∨ ro_pc r = Ended true) (rollouts w))) then None
    else Some (w <| rollouts := <[i := r]> (rollouts w) |>)
  | _, _, _ => None
  end.

(** It ends with the registration of the session when the configuration has not
    changed in the meantime. *)
Definition finish_initial (i o : nat) (w : World) : option World :=
  match rollouts w !! i with
  | Some r =>
    match conns w !! ro_conn r with
    | Some cn =>
      if is_some (ro_online r) || cn_serving cn || cn_left cn || is_some (sv_sessions (server w) !! o) || negb (bool_decide (ro_pc r = Ended true)) ||
         negb (bool_decide (map_Forall (λ _ r', initial_on (ro_conn r) r' = false ∨ ro_pc r' = Ended true) (rollouts w))) then None
      else
        let session := {| ms_sessionID := cn_session cn; ms_conn := ro_conn r; ms_prepared := None; ms_applied := None; ms_locked := false |} in
        let sv := server w in
        let sv := sv <| sv_proxies := Activate clientID (cn_session cn) (sv_proxies sv) |> in
        Some (w <| server := register o session sv |> <| conns := <[ro_conn r := cn <| cn_serving := true |>]> (conns w) |>)
    | None => None
    end
  | None => None
  end.

(** [rolloutManagedConfiguration] *)
Definition begin_rollout (i : nat) (c : ManagedConfiguration) (w : World) : option World :=
  match rollouts w !! i, get (server w) with
  | None, Some (o, s) => (λ r, w <| rollouts := <[i := r]> (rollouts w) |>) <$> new_rollout (ms_conn s) (Some o) c
  | _, _ => None
  end.

Definition advance_rollout (i : nat) (ch : RolloutChoice) (w : World) : option World :=
  match rollouts w !! i with
  | Some r =>
    match conns w !! ro_conn r with
    | Some cn =>
      match rollout_step ch r (server w) cn with
      | Some (r', sv, cn') =>
        Some (w <| server := sv |> <| conns := <[ro_conn r := cn']> (conns w) |> <| rollouts := <[i := r']> (rollouts w) |>
                <| published := if bool_decide (ro_pc r = Committing) && bool_decide (ro_pc r' = Restore true)
                                then published w ++ [(ro_conn r, ro_preparation r)] else published w |>)
      | None => None
      end
    | None => None
    end
  | None => None
  end.

(** The control goroutine of the server leaves: the session is unregistered;
    when it can be resumed its proxies are suspended, otherwise removed. *)
Definition disconnect (k : nat) (w : World) : option World :=
  match conns w !! k with
  | Some cn =>
    if cn_left cn then None
    else
      let sv := server w in
      let r := sv_proxies sv in
      let r := if cn_resumed cn || cn_serving cn then (Suspend ρ clientID (cn_session cn) r).2 else (Detach ρ clientID (cn_session cn) r).2 in
      let sv := sv <| sv_proxies := r |> <| sv_forwards := (ForwardRegistry.Remove ρf clientID (cn_session cn) (sv_forwards sv)).2 |> in
      Some (w <| server := if cn_serving cn then unregister (cn_session cn) sv else sv |>
              <| conns := <[k := cn <| cn_open := false |> <| cn_serving := false |> <| cn_left := true |>]> (conns w) |>
              <| suspended := {[cn_session cn]} ∪ suspended w |>)
  | None => None
  end.

Definition is_ended (pc : RolloutPc) : bool := match pc with Ended _ => true | _ => false end.

(** The reader of the server hands an acknowledgement over, or gives up. *)
Definition server_read (k : nat) (w : World) : option World :=
  match conns w !! k with
  | Some cn =>
    match cn_serving cn, cn_up cn with
    | true, msg :: up =>
      let w := w <| conns := <[k := cn <| cn_up := up |>]> (conns w) |> in
      match publish (cn_session cn) msg (server w) with
      | (true, sv) => Some (w <| server := sv |>)
      | (false, _) => disconnect k w
      end
    | _, _ => None
    end
  | None => None
  end.

Definition client_read (k : nat) (listens : string → bool) (w : World) : option World :=
  match conns w !! k with
  | Some cn =>
    match cn_phase cn, cn_down cn with
    | Stopped, _ | _, [] => None
    | _, msg :: down =>
      let '(cn', cl) := client_handle k listens msg (cn <| cn_down := down |>) (client w) in
      Some (w <| conns := <[k := cn']> (conns w) |> <| client := cl |>)
    end
  | None => None
  end.

Definition step (a : Action) (w : World) : option World :=
  match a with
  | Connect k session resume => connect k session resume w
  | BeginInitial i k c => begin_initial i k c w
  | FinishInitial i o => finish_initial i o w
  | BeginRollout i c => begin_rollout i c w
  | AdvanceRollout i ch => advance_rollout i ch w
  | ServerRead k => server_read k w
  | ClientRead k listens => client_read k listens w
  | Break k => (λ cn, w <| conns := <[k := cn <| cn_open := false |>]> (conns w) |>) <$> conns w !! k
  | ClientLeaves k => (λ cn, w <| conns := <[k := client_stop cn]> (conns w) |>) <$> conns w !! k
  | Disconnect k =>
    if bool_decide (map_Forall (λ _ r, initial_on k r = false ∨ is_ended (ro_pc r) = true) (rollouts w)) then disconnect k w else None
  | OtherWork fr r =>
    (* other sessions change the registries, not the entry of this client *)
    if bool_decide (active <$> clients r !! clientID = active <$> clients (sv_proxies (server w)) !! clientID) &&
       bool_decide (sessionID <$> clients r !! clientID = sessionID <$> clients (sv_proxies (server w)) !! clientID)
    then Some (w <| server := (server w) <| sv_forwards := fr |> <| sv_proxies := r |> |>) else None
  end.

Definition initial (fr : ForwardReg) (r : ProxyReg) : World :=
  {| server := {| sv_forwards := fr; sv_proxies := r; sv_registered := None; sv_sessions := ∅ |};
     client := {| managedStatus := zero_status; runtimeProxies := []; history := [] |};
     conns := ∅; rollouts := ∅; published := []; suspended := ∅ |}.

Inductive reachable (fr : ForwardReg) (r : ProxyReg) : World → Prop :=
| reach_start : clients r !! clientID = None → reachable fr r (initial fr r)
| reach_action w a w' : reachable fr r w → step a w = Some w' → reachable fr r w'.
End rollout.
