(* ===== verification/ManagedSafety.v ===== *)
(** * The rollout of managed configurations: agreement and availability *)

From S2P Require Import Prelude GoTime NetAddr Authentication ConfigVNet ConfigUDP ConfigForward LinkBroker ForwardRegistry ProxyPlane ConfigProxy ProxyRegistry ProxySystem ProxyExamples ProxyPermissions ConfigurationSync ConfigurationAtomic ClientForwards ManagedConfig ManagedRollout.

Local Open Scope Z_scope.

Section safety.
Context (MarshalProxies : list ManagedProxy → option (list byte)).
Context (MarshalConfiguration : list ManagedProxy → list ManagedForward → option (list byte)).
Context (sha256 : list byte → list byte).
Context `{NetipText}.
Context (platform : option Z) (ρr : go_range string forwardRuntime).
Context (ρf : go_range string ForwardRegistry.binding) (ρ : go_range string ProxyPlane.binding) (ρe : go_range Z Endpoint).
Context (clientID : string) (auth : Context) (limit : Z).

Abbreviation payload := (payload_of MarshalProxies MarshalConfiguration sha256).
Abbreviation candidate := (candidate_of MarshalProxies MarshalConfiguration sha256).
Abbreviation Step := (step MarshalProxies MarshalConfiguration sha256 platform ρr ρf ρ ρe clientID auth limit).
Abbreviation Reachable := (reachable MarshalProxies MarshalConfiguration sha256 platform ρr ρf ρ ρe clientID auth limit).

(** ** What the client has switched to *)

Definition applied (cl : Client) (st : ManagedConfigStatus) : Prop := ∃ g, g ∈ history cl ∧ g_status g = st.

(** A generation was built from its message. *)
Definition built (g : Generation) : Prop :=
  ∃ pd, candidate (g_source g) = Ok pd ∧ g_status g = pd_status pd ∧ g_proxies g = pd_proxies pd.

Definition pending_of (p : Phase) : list pendingManagedConfiguration :=
  match p with Staged pd | Looping _ (Some pd) => [pd] | _ => [] end.

Record conn_ok (cl : Client) (c : Conn) : Prop := {
  ck_pending pd : pd ∈ pending_of (cn_phase c) → candidate (pd_source pd) = Ok pd;
  ck_looping m pd : cn_phase c = Looping m pd → history cl ≠ [];
  ck_up st : MApplied st ∈ cn_up c → applied cl st
}.

Record rollout_ok (w : World) : Prop := {
  rk_conns k c : conns w !! k = Some c → conn_ok (client w) c;
  rk_history g : g ∈ history (client w) → built g;
  rk_last : history (client w) ≠ [] → applied (client w) (managedStatus (client w));
  rk_channels o s st : sv_sessions (server w) !! o = Some s → ms_applied s = Some st → applied (client w) st;
  rk_commit i r : rollouts w !! i = Some r → ro_pc r = Committing → applied (client w) (status_of (ro_preparation r));
  rk_published k p : (k, p) ∈ published w → applied (client w) (status_of p)
}.

(** The client only adds to its history. *)
Definition grows (cl cl' : Client) : Prop := ∀ g, g ∈ history cl → g ∈ history cl'.

Lemma applied_grows cl cl' st : grows cl cl' → applied cl st → applied cl' st.
Proof using Type. intros Hg (g & Hin & <-). exists g. auto. Qed.

Lemma conn_grows cl cl' c : grows cl cl' → conn_ok cl c → conn_ok cl' c.
Proof using Type.
  intros Hg []. constructor; [done| |eauto using applied_grows]. intros m pd Hp E. apply ck_looping0 in Hp.
  destruct (history cl) as [|g gs] eqn:Eh; [done|]. specialize (Hg g ltac:(rewrite Eh; left)). rewrite E in Hg. by apply not_elem_of_nil in Hg.
Qed.

Lemma candidate_source p pd : candidate p = Ok pd → pd_source pd = p.
Proof using Type. unfold candidate_of. repeat case_match; try done. by intros [= <-]. Qed.

Lemma prepare_candidate p pending st pd :
  prepareManagedConfiguration MarshalProxies MarshalConfiguration sha256 p pending st = Ok pd → candidate p = Ok pd ∨ pending = Some pd.
Proof using Type.
  unfold prepareManagedConfiguration. destruct (candidate p) as [c|e] eqn:E; [|done]. destruct pending as [q|]; case_match; try done;
    intros [= <-]; auto.
Qed.

Lemma switch_history k online pd cl g : g ∈ history (switch_to k online pd cl) →
  g ∈ history cl ∨ g = {| g_conn := k; g_online := online; g_before := managedStatus cl; g_status := pd_status pd; g_proxies := pd_proxies pd; g_source := pd_source pd |}.
Proof using Type. cbn. intros [?|?%list_elem_of_singleton]%elem_of_app; auto. Qed.

Lemma switch_grows k online pd cl : grows cl (switch_to k online pd cl).
Proof using Type. intros g Hg. cbn. apply elem_of_app. by left. Qed.

Lemma switch_applied k online pd cl : applied (switch_to k online pd cl) (pd_status pd).
Proof using Type. eexists. split; [apply elem_of_app; right; by apply list_elem_of_singleton|done]. Qed.

(** ** The client handles a message *)

Lemma write_conn cl msg phase c : conn_ok cl c → (∀ pd, pd ∈ pending_of phase → candidate (pd_source pd) = Ok pd) →
  (∀ m pd, phase = Looping m pd → history cl ≠ []) → (∀ st, msg = MApplied st → applied cl st) → conn_ok cl (client_write msg phase c).
Proof using Type.
  intros [] Hp Hl Hm. unfold client_write. destruct (cn_open c); constructor; cbn; [exact Hp|exact Hl| | |done|done].
  - intros st [?|Hx%list_elem_of_singleton]%elem_of_app; [eauto|]. by apply Hm.
  - by intros pd ?%not_elem_of_nil.
Qed.

Lemma stop_conn cl c : conn_ok cl c → conn_ok cl (client_stop c).
Proof using Type. intros []. constructor; cbn; [by intros pd ?%not_elem_of_nil|done|done]. Qed.

Lemma handle_ok k listens msg c cl c' cl' : conn_ok cl c → (∀ g, g ∈ history cl → built g) → (history cl ≠ [] → applied cl (managedStatus cl)) →
  client_handle MarshalProxies MarshalConfiguration sha256 platform ρr k listens msg c cl = (c', cl') →
  grows cl cl' ∧ conn_ok cl' c' ∧ (∀ g, g ∈ history cl' → built g) ∧ (history cl' ≠ [] → applied cl' (managedStatus cl')).
Proof using Type.
  intros Hc Hb Hl E. pose proof Hc as [Hp Hlo Hu].
  assert (Hkeep : ∀ c1, conn_ok cl c1 → grows cl cl ∧ conn_ok cl c1 ∧ (∀ g, g ∈ history cl → built g) ∧ (history cl ≠ [] → applied cl (managedStatus cl))).
  { intros c1 Hc1. split_and!; [by intros g|done|done|done]. }
  assert (Hswitch : ∀ online m pd, candidate (pd_source pd) = Ok pd →
    let cl1 := switch_to k online pd cl in
    grows cl cl1 ∧ conn_ok cl1 (client_write (MApplied (pd_status pd)) (Looping (Some m) None) c) ∧ (∀ g, g ∈ history cl1 → built g) ∧
    (history cl1 ≠ [] → applied cl1 (managedStatus cl1))).
  { intros online m pd Hcand. split_and!.
    - apply switch_grows.
    - apply write_conn; [eapply conn_grows; [apply switch_grows|done]|by intros ? ?%not_elem_of_nil| |intros st [= <-]; apply switch_applied].
      intros _ _ _. cbn. by destruct (history cl).
    - intros g [?| ->]%switch_history; [eauto|]. exists pd. done.
    - intros _. apply switch_applied. }
  unfold client_handle in E. destruct (cn_phase c) as [|pd|m [pd|]|] eqn:Ep; destruct msg as [p|a]; cbn [pending_of] in *.
  all: try (injection E as <- <-; apply Hkeep, stop_conn, Hc).
  - destruct (candidate p) as [pd|e] eqn:Ec; injection E as <- <-; apply Hkeep; [|by apply stop_conn].
    apply write_conn; [done| |done|done]. intros pd' ->%list_elem_of_singleton. by rewrite (candidate_source _ _ Ec).
  - destruct (activate_pending _ _ _ _ _ _) as [[m|] [e|]]; injection E as <- <-; try (apply Hkeep, stop_conn, Hc).
    apply Hswitch. apply Hp. by apply list_elem_of_singleton.
  - destruct (prepareManagedConfiguration _ _ _ _ _ _) as [pd'|e] eqn:Ec; injection E as <- <-; apply Hkeep; [|by apply stop_conn].
    apply write_conn; [done| |intros; by eapply Hlo|done]. cbn. intros q ->%list_elem_of_singleton. destruct (prepare_candidate _ _ _ _ Ec) as [Hx|[= ->]].
    + by rewrite (candidate_source _ _ Hx).
    + apply Hp. by apply list_elem_of_singleton.
  - destruct (activate_pending _ _ _ _ _ _) as [[m'|] [e|]]; injection E as <- <-; try (apply Hkeep, stop_conn, Hc).
    apply Hswitch. apply Hp. by apply list_elem_of_singleton.
  - destruct (prepareManagedConfiguration _ _ _ _ _ _) as [pd'|e] eqn:Ec; injection E as <- <-; apply Hkeep; [|by apply stop_conn].
    apply write_conn; [done| |intros; by eapply Hlo|done]. cbn. intros q ->%list_elem_of_singleton. destruct (prepare_candidate _ _ _ _ Ec) as [Hx|[= ->]].
    by rewrite (candidate_source _ _ Hx).
  - destruct (matches_activation _ _); injection E as <- <-; apply Hkeep; [|by apply stop_conn].
    apply write_conn; [done|by intros ? ?%not_elem_of_nil|intros; by eapply Hlo|]. intros st [= <-]. apply Hl. by eapply Hlo.
Qed.

(** ** The server handles acknowledgements *)

(** Channels hold what the client has applied. *)
Definition channels_ok (cl : Client) (sv : Server) : Prop :=
  ∀ o s st, sv_sessions sv !! o = Some s → ms_applied s = Some st → applied cl st.

Lemma set_session_channels cl o f sv : channels_ok cl sv → (∀ s st, ms_applied (f s) = Some st → ms_applied s = Some st) →
  channels_ok cl (set_session o f sv).
Proof using Type.
  intros Hc Hf. unfold set_session. destruct (sv_sessions sv !! o) as [s|] eqn:E; [|done].
  intros o' s' st Hs. cbn in Hs. apply lookup_insert_Some in Hs as [[<- <-]|[_ Hs]]; [|by eapply Hc]. intros Hst. eapply Hc; [done|by apply Hf].
Qed.

Lemma publish_channels cl session msg sv ok sv' : channels_ok cl sv → (∀ st, msg = MApplied st → applied cl st) →
  publish session msg sv = (ok, sv') → channels_ok cl sv'.
Proof using Type.
  intros Hc Hm E. unfold publish in E. destruct (get sv) as [[o s]|] eqn:Eg; [|by injection E as <- <-].
  assert (Hs : sv_sessions sv !! o = Some s).
  { unfold get in Eg. destruct (sv_registered sv) as [o'|]; [|done]. destruct (sv_sessions sv !! o') eqn:Ex; [|done]. by injection Eg as -> ->. }
  destruct (negb _); [by injection E as <- <-|]. destruct msg as [st|st]; unfold offer_status in E; case_match; injection E as <- <-; try done;
    intros o' s' st' Hs' Ha; cbn in Hs'; apply lookup_insert_Some in Hs' as [[<- <-]|[_ Hs']]; try (by eapply Hc); cbn in Ha.
  all: try (by eapply Hc). destruct (ms_applied s); [done|]. injection H0 as <-. injection Ha as <-. by apply Hm.
Qed.

Lemma unregister_channels cl session sv : channels_ok cl sv → channels_ok cl (unregister session sv).
Proof using Type. intros Hc. unfold unregister. repeat case_match; done. Qed.

(** A step of a rollout: what the client has applied is all it can learn. *)
Lemma take_status_ok cl done_ sv c r st sv' c' : channels_ok cl sv → conn_ok cl c →
  take_status done_ sv c r = Some (st, sv', c') →
  channels_ok cl sv' ∧ conn_ok cl c' ∧ (done_ = true → ∀ x, st = Some x → applied cl x).
Proof using Type.
  intros Hc Hk E. unfold take_status in E. destruct (ro_online r) as [o|].
  - destruct (sv_sessions sv !! o) as [s|] eqn:Es; [|done]. destruct done_.
    + destruct (ms_applied s) as [x|] eqn:Ea; [|done]. injection E as <- <- <-. split_and!; [apply set_session_channels; done|done|].
      intros _ y [= <-]. by eapply Hc.
    + destruct (ms_prepared s) as [x|] eqn:Ea; [|done]. injection E as <- <- <-. split_and!; [apply set_session_channels; done|done|done].
  - destruct Hk as [Hp Hl Hu]. destruct (cn_up c) as [|msg up] eqn:Eu; [done|].
    assert (Hk' : conn_ok cl (c <| cn_up := up |>)).
    { constructor; cbn; [done|done|]. intros x Hx. apply Hu. by right. }
    destruct done_, msg as [x|x]; injection E as <- <- <-; split_and!; try done. intros _ y [= <-]. apply Hu. left.
Qed.

Lemma server_write_ok cl msg ok next failed c r c' r' : conn_ok cl c → server_write msg ok next failed c r = (c', r') →
  conn_ok cl c' ∧ ro_preparation r' = ro_preparation r ∧ (ro_pc r' = next ∨ ro_pc r' = failed).
Proof using Type.
  intros [] E. unfold server_write in E. destruct (_ && _); injection E as <- <-; (split; [|by auto]); by constructor.
Qed.

Lemma rollout_step_ok cl ch r sv c r' sv' c' : channels_ok cl sv → conn_ok cl c → (ro_pc r = Committing → applied cl (status_of (ro_preparation r))) →
  rollout_step ρ ρe clientID auth limit ch r sv c = Some (r', sv', c') →
  channels_ok cl sv' ∧ conn_ok cl c' ∧ ro_preparation r' = ro_preparation r ∧ (ro_pc r' = Committing → applied cl (status_of (ro_preparation r))).
Proof using Type.
  intros Hc Hk Hcom E. unfold rollout_step in E. destruct (ro_pc r) eqn:Ep; destruct ch; try done.
  - destruct (ro_online r ≫= _) as [s|]; [|done]. destruct (ms_locked s); [done|]. injection E as <- <- <-. split_and!; try done. by apply set_session_channels.
  - injection E as <- <- <-. split_and!; try done. by apply set_session_channels.
  - injection E as <- <- <-. split_and!; try done. by apply set_session_channels.
  - destruct (server_write _ _ _ _ _ _) as [c1 r1] eqn:Ew. injection E as <- <- <-. destruct (server_write_ok _ _ _ _ _ _ _ _ _ Hk Ew) as (? & ? & Hpc).
    split_and!; try done. unfold failed_pc in Hpc. destruct Hpc as [-> | ->]; [done|]. by case_match.
  - destruct (take_status false sv c r) as [[[[st|] sv1] c1]|] eqn:Et; [| |done]; injection E as <- <- <-;
      destruct (take_status_ok _ _ _ _ _ _ _ _ Hc Hk Et) as (? & ? & _); split_and!; try done; cbn; unfold failed_pc; repeat case_match; done.
  - injection E as <- <- <-. split_and!; try done. cbn. unfold failed_pc. by case_match.
  - destruct (BeginSync _ _ _ _ _ _ _ _ _ _) as [[t|e] fr]; injection E as <- <- <-; split_and!; try done. cbn. unfold failed_pc. by case_match.
  - injection E as <- <- <-. split_and!; try done. by destruct (is_some _).
  - destruct (server_write _ _ _ _ _ _) as [c1 r1] eqn:Ew. injection E as <- <- <-. destruct (server_write_ok _ _ _ _ _ _ _ _ _ Hk Ew) as (? & ? & Hpc).
    split_and!; try done. by destruct Hpc as [-> | ->].
  - destruct (take_status true sv c r) as [[[[st|] sv1] c1]|] eqn:Et; [| |done]; injection E as <- <- <-;
      destruct (take_status_ok _ _ _ _ _ _ _ _ Hc Hk Et) as (? & ? & Hst); split_and!; try done; cbn. case_bool_decide as Es; [|done]. intros _. subst. by apply Hst.
  - injection E as <- <- <-. by split_and!.
  - destruct (ro_transaction r) as [t|]; [|done]. destruct (coordinate _ _ _ _ _ _ _) as [[[[res ret] t'] fr] pr]. injection E as <- <- <-. by split_and!.
  - injection E as <- <- <-. split_and!; try done; [by destruct (is_some _)|]. cbn. by case_match.
  - injection E as <- <- <-. split_and!; try done; [by apply set_session_channels|]. destruct ok; [done|]. destruct Hk. by constructor.
Qed.

(** ** The invariant *)

Lemma set_conn_ok cl (cs : gmap nat Conn) k c : (∀ j c', cs !! j = Some c' → conn_ok cl c') → conn_ok cl c → ∀ j c', <[k := c]> cs !! j = Some c' → conn_ok cl c'.
Proof using Type. intros Hcs Hc j c' [[<- <-]|[_ ?]]%lookup_insert_Some; eauto. Qed.

Lemma disconnect_ok w k w' : rollout_ok w → disconnect ρf ρ clientID k w = Some w' → rollout_ok w'.
Proof using Type.
  intros [] E. unfold disconnect in E. destruct (conns w !! k) as [cn|] eqn:Ek; [|done]. destruct (cn_left cn); [done|]. injection E as <-.
  constructor; cbn [conns client server rollouts published upd]; try done.
  - apply set_conn_ok; [done|]. destruct (rk_conns0 _ _ Ek). by constructor.
  - destruct (cn_serving cn); [by apply unregister_channels|done].
Qed.

Lemma step_rollout_ok a w w' : rollout_ok w → Step a w = Some w' → rollout_ok w'.
Proof using Type.
  intros Hok E. pose proof Hok as []. destruct a as [k session resume|i k c|i o|i c|i ch|k|k listens|k|k|k|fr r]; cbn [step] in E.
  - unfold connect in E. destruct (is_some _); [done|]. destruct (negb _); [done|]. injection E as <-. constructor; cbn; try done.
    apply set_conn_ok; [done|]. constructor; cbn; [by intros ? ?%not_elem_of_nil|done|by intros ? ?%not_elem_of_nil].
  - unfold begin_initial in E. destruct (rollouts w !! i) eqn:Ei; [done|]. destruct (conns w !! k); [|done]. destruct (new_rollout _ _ _ _ _ _) as [r|] eqn:En; [|done].
    destruct (_ || _); [done|]. injection E as <-. constructor; cbn; try done. intros j r' Hr Hp. apply lookup_insert_Some in Hr as [[<- <-]|[_ Hr]]; [|eauto].
    unfold new_rollout in En. destruct (payload c) as [[??]|]; [|done]. by injection En as <-.
  - unfold finish_initial in E. destruct (rollouts w !! i) as [r|]; [|done]. destruct (conns w !! ro_conn r) as [cn|] eqn:Ek; [|done].
    destruct (_ || _); [done|]. injection E as <-. constructor; cbn; try done.
    + apply set_conn_ok; [done|]. destruct (rk_conns0 _ _ Ek). by constructor.
    + intros o' s st Hs Ha. apply lookup_insert_Some in Hs as [[<- <-]|[_ Hs]]; [done|eauto].
  - unfold begin_rollout in E. destruct (rollouts w !! i) eqn:Ei; [done|]. destruct (get (server w)) as [[o s]|]; [|done].
    destruct (new_rollout _ _ _ _ _ _) as [r|] eqn:En; [|done]. injection E as <-. constructor; cbn; try done. intros j r' Hr Hp.
    apply lookup_insert_Some in Hr as [[<- <-]|[_ Hr]]; [|eauto]. unfold new_rollout in En. destruct (payload c) as [[??]|]; [|done]. by injection En as <-.
  - unfold advance_rollout in E. destruct (rollouts w !! i) as [r|] eqn:Ei; [|done]. destruct (conns w !! ro_conn r) as [cn|] eqn:Ek; [|done].
    destruct (rollout_step _ _ _ _ _ _ _ _ _) as [[[r' sv] cn']|] eqn:Es; [|done]. injection E as <-.
    destruct (rollout_step_ok (client w) ch r (server w) cn r' sv cn' rk_channels0 (rk_conns0 _ _ Ek) (rk_commit0 _ _ Ei) Es) as (Hc & Hk & Hp & Hcom).
    constructor; cbn; try done.
    + by apply set_conn_ok.
    + intros j r1 Hr Hpc. apply lookup_insert_Some in Hr as [[<- <-]|[_ Hr]]; [|eauto]. rewrite Hp. by apply Hcom.
    + intros k p. case_match eqn:Eb; [|eauto]. intros [?|Hx%list_elem_of_singleton]%elem_of_app; [eauto|]. injection Hx as -> ->.
      apply andb_true_iff in Eb as [Eb _]. apply bool_decide_eq_true in Eb. eauto.
  - unfold server_read in E. destruct (conns w !! k) as [cn|] eqn:Ek; [|done]. destruct (cn_serving cn); [|done]. destruct (cn_up cn) as [|msg up] eqn:Eu; [done|].
    pose proof (rk_conns0 _ _ Ek) as Hk.
    assert (Hok' : rollout_ok (w <| conns := <[k := cn <| cn_up := up |>]> (conns w) |>)).
    { constructor; cbn; try done. apply set_conn_ok; [done|]. destruct Hk as [Hp Hl Hu]. constructor; cbn; [done|done|]. intros st Hst. apply Hu. rewrite Eu. by right. }
    cbn [server upd] in E. destruct (publish _ _ _) as [[] sv] eqn:Ep; [|by eapply disconnect_ok]. injection E as <-. destruct Hok'. constructor; cbn in *; try done.
    eapply publish_channels; [exact rk_channels0| |exact Ep]. intros st ->. destruct Hk as [_ _ Hu]. apply Hu. rewrite Eu. left.
  - unfold client_read in E. destruct (conns w !! k) as [cn|] eqn:Ek; [|done].
    assert (Hk : conn_ok (client w) cn) by eauto.
    destruct (cn_phase cn) eqn:Eph; [| | |done]; (destruct (cn_down cn) as [|msg down] eqn:Ed; [done|]);
      (destruct (client_handle _ _ _ _ _ _ _ _ _ _) as [cn' cl] eqn:Eh; injection E as <-);
      (assert (Hk1 : conn_ok (client w) (cn <| cn_down := down |>)) by (destruct Hk; by constructor));
      destruct (handle_ok _ _ _ _ _ _ _ Hk1 rk_history0 rk_last0 Eh) as (Hg & Hk' & Hh & Hl);
      (constructor; cbn; [|done|done| | |]; [|intros; eapply applied_grows; [done|]; eauto ..]);
      (apply set_conn_ok; [intros; eapply conn_grows; [done|eauto]|done]).
  - destruct (conns w !! k) as [cn|] eqn:Ek; [|done]. injection E as <-. constructor; cbn; try done. apply set_conn_ok; [done|].
    destruct (rk_conns0 _ _ Ek). by constructor.
  - destruct (conns w !! k) as [cn|] eqn:Ek; [|done]. injection E as <-. constructor; cbn; try done. apply set_conn_ok; [done|]. apply stop_conn. eauto.
  - case_bool_decide; [by eapply disconnect_ok|done].
  - destruct (_ && _); [|done]. injection E as <-. by constructor.
Qed.

Lemma reachable_rollout_ok fr r w : Reachable fr r w → rollout_ok w.
Proof using Type.
  induction 1 as [|w a w' _ IH E]; [|by eapply step_rollout_ok]. constructor; cbn; try done; by intros ? ?%not_elem_of_nil || by intros ? ? ?%not_elem_of_nil.
Qed.

(** No two of these messages have the same digest and different contents. *)
Definition unambiguous (ps : list ManagedConfigPrepare) : Prop :=
  ∀ p q, p ∈ ps → q ∈ ps → PrepareDigest p = PrepareDigest q → PrepareProxies p = PrepareProxies q ∧ PrepareForwards p = PrepareForwards q.

Definition messages (w : World) : list ManagedConfigPrepare := (g_source <$> history (client w)) ++ (published w).*2.

(** C31: Server and client agree on every generation.  Whatever connections
    break, messages are left unread, acknowledgements arrive after their rollout
    has been given up and rollouts are repeated, when the server has made a
    generation public, the client has switched to a generation of the same
    revision and digest before; as long as digests do not collide, that
    generation was built from the same proxies and forwards, and the client's
    proxies were the server's with their defaults filled in. *)
Theorem rollout_agreement fr r w k p : Reachable fr r w → unambiguous (messages w) → (k, p) ∈ published w →
  ∃ g, g ∈ history (client w) ∧ g_status g = status_of p ∧
    PrepareProxies (g_source g) = PrepareProxies p ∧ PrepareForwards (g_source g) = PrepareForwards p ∧
    validateProxies (proxy_of_managed <$> PrepareProxies p) = Ok (g_proxies g).
Proof using Type.
  intros Hw Hu Hp. apply reachable_rollout_ok in Hw as []. destruct (rk_published0 _ _ Hp) as (g & Hg & Hst). exists g. split; [done|]. split; [done|].
  destruct (rk_history0 _ Hg) as (pd & Hc & Hs & Hpx). unfold candidate_of, prepared_configuration, validateManagedPreparation in Hc.
  destruct (_ || _); [done|]. destruct (ManagedConfigurationDigest _ _ _ _ _) as [d|]; [|done]. destruct (negb _); [done|].
  destruct (validateProxies _) as [ps|] eqn:Ev; [|done]. destruct (managedForwardConfigurations _); [|done]. injection Hc as <-. cbn in *.
  assert (Hd : PrepareProxies (g_source g) = PrepareProxies p ∧ PrepareForwards (g_source g) = PrepareForwards p).
  { apply Hu.
    - unfold messages. apply elem_of_app. left. apply list_elem_of_fmap. by exists g.
    - unfold messages. apply elem_of_app. right. apply list_elem_of_fmap. by exists (k, p).
    - rewrite Hs in Hst. by injection Hst. }
  destruct Hd as [Hd1 Hd2]. split_and!; [done|done|]. by rewrite <- Hd1, Hpx.
Qed.

(** ** Generations move forward *)

(** Not older than, and the same as when of the same revision. *)
Definition not_stale (before st : ManagedConfigStatus) : Prop :=
  StatusRevision before <= StatusRevision st ∧ (StatusRevision before = StatusRevision st → StatusDigest before = StatusDigest st).

Record order_ok (w : World) : Prop := {
  oo_live j k c c' : conns w !! j = Some c → conns w !! k = Some c' → is_stopped (cn_phase c) = false → is_stopped (cn_phase c') = false → j = k;
  oo_pending k c m pd : conns w !! k = Some c → cn_phase c = Looping m (Some pd) → not_stale (managedStatus (client w)) (pd_status pd);
  oo_history g : g ∈ history (client w) → g_online g = true → not_stale (g_before g) (g_status g)
}.

Lemma prepare_not_stale p st pd :
  prepareManagedConfiguration MarshalProxies MarshalConfiguration sha256 p None st = Ok pd → not_stale st (pd_status pd).
Proof using Type.
  unfold prepareManagedConfiguration. destruct (candidate p) as [c|]; [|done]. destruct (_ || _) eqn:E; [done|]. intros [= <-].
  apply orb_false_iff in E as [E1 E2]. apply Z.ltb_ge in E1. split; [done|]. intros Heq. apply andb_false_iff in E2 as [E2|E2].
  - apply Z.eqb_neq in E2. congruence.
  - apply negb_false_iff, bool_decide_eq_true in E2. congruence.
Qed.

Lemma prepare_pending p q st pd :
  prepareManagedConfiguration MarshalProxies MarshalConfiguration sha256 p (Some q) st = Ok pd → pd = q.
Proof using Type.
  unfold prepareManagedConfiguration. destruct (candidate p); [|done]. destruct (negb _); [done|]. by intros [= <-].
Qed.

(** The phase a message leads to. *)
Lemma write_phase msg phase c : cn_phase (client_write msg phase c) = phase ∨ cn_phase (client_write msg phase c) = Stopped.
Proof using Type. unfold client_write. destruct (cn_open c); auto. Qed.

Lemma handle_order k listens msg c cl c' cl' :
  (∀ m pd, cn_phase c = Looping m (Some pd) → not_stale (managedStatus cl) (pd_status pd)) →
  (∀ g, g ∈ history cl → g_online g = true → not_stale (g_before g) (g_status g)) →
  client_handle MarshalProxies MarshalConfiguration sha256 platform ρr k listens msg c cl = (c', cl') →
  (∀ m pd, cn_phase c' = Looping m (Some pd) → not_stale (managedStatus cl') (pd_status pd)) ∧
  (∀ g, g ∈ history cl' → g_online g = true → not_stale (g_before g) (g_status g)).
Proof using Type.
  intros Hp Hh E. unfold client_handle in E.
  assert (Hstop : (∀ m pd, cn_phase (client_stop c) = Looping m (Some pd) → not_stale (managedStatus cl) (pd_status pd)) ∧
                  (∀ g, g ∈ history cl → g_online g = true → not_stale (g_before g) (g_status g))) by done.
  assert (Hwrite : ∀ msg phase cl1, (∀ m pd, phase = Looping m (Some pd) → not_stale (managedStatus cl1) (pd_status pd)) →
            ∀ m pd, cn_phase (client_write msg phase c) = Looping m (Some pd) → not_stale (managedStatus cl1) (pd_status pd)).
  { intros msg0 phase cl1 Hx m pd Hw. destruct (write_phase msg0 phase c) as [Hv|Hv]; rewrite Hv in Hw; [eauto|done]. }
  destruct (cn_phase c) as [|q|m [q|]|] eqn:Ep; destruct msg as [p|a]; try (injection E as <- <-; exact Hstop).
  - destruct (candidate p); injection E as <- <-; [split; [by apply Hwrite|done]|exact Hstop].
  - destruct (activate_pending _ _ _ _ _ _) as [[m|] [e|]]; injection E as <- <-; try exact Hstop. split; [by apply Hwrite|].
    intros g [?| ->]%switch_history; [eauto|done].
  - destruct (prepareManagedConfiguration _ _ _ _ _ _) as [pd|] eqn:Ec; injection E as <- <-; [|exact Hstop]. split; [|done].
    apply Hwrite. intros m' pd' [= <- <-]. apply prepare_pending in Ec as ->. eauto.
  - destruct (activate_pending _ _ _ _ _ _) as [[m'|] [e|]]; injection E as <- <-; try exact Hstop. split; [by apply Hwrite|].
    intros g [?| ->]%switch_history; [eauto|]. intros _. by eapply Hp.
  - destruct (prepareManagedConfiguration _ _ _ _ _ _) as [pd|] eqn:Ec; injection E as <- <-; [|exact Hstop]. split; [|done].
    apply Hwrite. intros m' pd' [= <- <-]. by apply prepare_not_stale in Ec.
  - destruct (matches_activation _ _); injection E as <- <-; [|exact Hstop]. split; [|done]. by apply Hwrite.
Qed.

(** Replacing a connection by one in the same phase, or a stopped one. *)
Lemma order_conn w k c c' w' : order_ok w → conns w !! k = Some c → (cn_phase c' = cn_phase c ∨ cn_phase c' = Stopped) →
  conns w' = <[k := c']> (conns w) → client w' = client w → order_ok w'.
Proof using Type.
  intros [] Hk Hph Hcs Hcl. constructor; rewrite ?Hcl, ?Hcs; [| |done].
  - intros i j x y Hx Hy Sx Sy.
    assert (Hold : ∀ l z, <[k := c']> (conns w) !! l = Some z → is_stopped (cn_phase z) = false → ∃ z0, conns w !! l = Some z0 ∧ is_stopped (cn_phase z0) = false).
    { intros l z [[<- <-]|[_ Hz]]%lookup_insert_Some Sz; [|eauto]. exists c. split; [done|]. destruct Hph as [<-|Hs]; [done|]. by rewrite Hs in Sz. }
    destruct (Hold _ _ Hx Sx) as (x0 & ? & ?), (Hold _ _ Hy Sy) as (y0 & ? & ?). eauto.
  - intros j x m pd [[<- <-]|[_ Hx]]%lookup_insert_Some Hp; [|eauto]. destruct Hph as [Hs|Hs]; rewrite Hs in Hp; [eauto|done].
Qed.

Lemma rollout_step_conn ch r sv c r' sv' c' : rollout_step ρ ρe clientID auth limit ch r sv c = Some (r', sv', c') →
  cn_phase c' = cn_phase c ∧ cn_session c' = cn_session c ∧ cn_serving c' = cn_serving c ∧ ro_conn r' = ro_conn r ∧ ro_online r' = ro_online r.
Proof using Type.
  assert (Hw : ∀ msg ok next failed c1 r1 r0, server_write msg ok next failed c r0 = (c1, r1) →
    cn_phase c1 = cn_phase c ∧ cn_session c1 = cn_session c ∧ cn_serving c1 = cn_serving c ∧ ro_conn r1 = ro_conn r0 ∧ ro_online r1 = ro_online r0).
  { intros * E. unfold server_write in E. destruct (_ && _); by injection E as <- <-. }
  assert (Ht : ∀ b st sv1 c1, take_status b sv c r = Some (st, sv1, c1) → cn_phase c1 = cn_phase c ∧ cn_session c1 = cn_session c ∧ cn_serving c1 = cn_serving c).
  { intros * E. unfold take_status in E. destruct (ro_online r) as [o|].
    - destruct (sv_sessions sv !! o) as [s|]; [|done]. destruct b; [destruct (ms_applied s)|destruct (ms_prepared s)]; [|done| |done]; by injection E as <- <- <-.
    - destruct (cn_up c) as [|[]]; [done| |]; destruct b; by injection E as <- <- <-. }
  intros E. unfold rollout_step in E. destruct (ro_pc r) eqn:Ep; destruct ch; try done.
  - destruct (ro_online r ≫= _) as [s|]; [|done]. destruct (ms_locked s); [done|]. by injection E as <- <- <-.
  - by injection E as <- <- <-.
  - by injection E as <- <- <-.
  - destruct (server_write _ _ _ _ _ _) as [c1 r1] eqn:Ew. injection E as <- <- <-. by eapply Hw.
  - destruct (take_status false sv c r) as [[[[st|] sv1] c1]|] eqn:Et; [| |done]; injection E as <- <- <-; destruct (Ht _ _ _ _ Et) as (-> & -> & ->); done.
  - by injection E as <- <- <-.
  - destruct (BeginSync _ _ _ _ _ _ _ _ _ _) as [[t|e] fr]; by injection E as <- <- <-.
  - by injection E as <- <- <-.
  - destruct (server_write _ _ _ _ _ _) as [c1 r1] eqn:Ew. injection E as <- <- <-. by eapply Hw.
  - destruct (take_status true sv c r) as [[[[st|] sv1] c1]|] eqn:Et; [| |done]; injection E as <- <- <-; destruct (Ht _ _ _ _ Et) as (-> & -> & ->); done.
  - by injection E as <- <- <-.
  - destruct (ro_transaction r) as [t|]; [|done]. destruct (coordinate _ _ _ _ _ _ _) as [[[[res ret] t'] fr] pr]. by injection E as <- <- <-.
  - by injection E as <- <- <-.
  - injection E as <- <- <-. by destruct ok.
Qed.

Lemma step_order a w w' : order_ok w → Step a w = Some w' → order_ok w'.
Proof using Type.
  intros Hok E. pose proof Hok as []. destruct a as [k session resume|i k c|i o|i c|i ch|k|k listens|k|k|k|fr r]; cbn [step] in E.
  - unfold connect in E. destruct (is_some _); [done|]. destruct (negb _) eqn:Eall; [done|]. injection E as <-.
    apply negb_false_iff, bool_decide_eq_true in Eall. constructor; cbn.
    + intros i j x y [[<- <-]|[_ Hx]]%lookup_insert_Some [[<- <-]|[_ Hy]]%lookup_insert_Some Sx Sy; try done;
        [destruct (Eall _ _ Hy)|destruct (Eall _ _ Hx)|destruct (Eall _ _ Hx)]; congruence.
    + intros j x m pd [[<- <-]|[_ Hx]]%lookup_insert_Some Hp; [done|eauto].
    + done.
  - unfold begin_initial in E. repeat (case_match; try done). by injection E as <-.
  - unfold finish_initial in E. destruct (rollouts w !! i) as [r|]; [|done]. destruct (conns w !! ro_conn r) as [cn|] eqn:Ek; [|done].
    destruct (_ || _); [done|]. injection E as <-. eapply order_conn; [done|exact Ek| |done|done]. by left.
  - unfold begin_rollout in E. repeat (case_match; try done). destruct (new_rollout _ _ _ _ _ _); [|done]. by injection E as <-.
  - unfold advance_rollout in E. destruct (rollouts w !! i) as [r|]; [|done]. destruct (conns w !! ro_conn r) as [cn|] eqn:Ek; [|done].
    destruct (rollout_step _ _ _ _ _ _ _ _ _) as [[[r' sv] cn']|] eqn:Es; [|done]. injection E as <-. apply rollout_step_conn in Es as (Hph & _).
    eapply order_conn; [done|exact Ek| |done|done]. by left.
  - unfold server_read in E. destruct (conns w !! k) as [cn|] eqn:Ek; [|done]. destruct (cn_serving cn); [|done]. destruct (cn_up cn) as [|msg up]; [done|].
    destruct (publish _ _ _) as [[] sv].
    + injection E as <-. eapply order_conn; [done|exact Ek| |done|done]. by left.
    + unfold disconnect in E. cbn in E. rewrite lookup_insert_eq in E. cbn in E. destruct (cn_left cn); [done|]. injection E as <-. eapply order_conn; [done|exact Ek| |cbn; by rewrite insert_insert_eq|done]. by left.
  - unfold client_read in E. destruct (conns w !! k) as [cn|] eqn:Ek; [|done].
    assert (Hrun : is_stopped (cn_phase cn) = false ∧ ∃ msg down, cn_down cn = msg :: down ∧
      (let '(cn', cl) := client_handle MarshalProxies MarshalConfiguration sha256 platform ρr k listens msg (cn <| cn_down := down |>) (client w) in
       Some (w <| conns := <[k := cn']> (conns w) |> <| client := cl |>)) = Some w').
    { destruct (cn_phase cn); try done; (destruct (cn_down cn) as [|msg down]; [done|]); (split; [done|]); exists msg, down; done. }
    destruct Hrun as (Hlive & msg & down & _ & Er). destruct (client_handle _ _ _ _ _ _ _ _ _ _) as [cn' cl] eqn:Eh. injection Er as <-.
    destruct (handle_order k listens msg (cn <| cn_down := down |>) (client w) cn' cl) as [Hp Hh]; [intros m pd Hph; by eapply oo_pending0|done|exact Eh|].
    constructor; cbn.
    + intros i j x y [[<- <-]|[_ Hx]]%lookup_insert_Some [[<- <-]|[_ Hy]]%lookup_insert_Some Sx Sy; eauto.
    + intros j x m pd [[<- <-]|[Hne Hx]]%lookup_insert_Some Hph; [eauto|]. exfalso. apply Hne. eapply oo_live0; [exact Ek|exact Hx|done|by rewrite Hph].
    + done.
  - destruct (conns w !! k) as [cn|] eqn:Ek; [|done]. injection E as <-. eapply order_conn; [done|exact Ek| |done|done]. by left.
  - destruct (conns w !! k) as [cn|] eqn:Ek; [|done]. injection E as <-. eapply order_conn; [done|exact Ek| |done|done]. by right.
  - case_bool_decide; [|done]. unfold disconnect in E. destruct (conns w !! k) as [cn|] eqn:Ek; [|done]. destruct (cn_left cn); [done|]. injection E as <-. eapply order_conn; [done|exact Ek| |done|done]. by left.
  - destruct (_ && _); [|done]. injection E as <-. by constructor.
Qed.

(** Generations move forward while a connection is open.  A client that
    switches to a generation rolled out on an open connection never goes back to
    a smaller revision, and keeps the digest when the revision is the same; it
    has at most one control connection in use at a time. *)
Theorem generations_move_forward fr r w : Reachable fr r w →
  (∀ g, g ∈ history (client w) → g_online g = true → not_stale (g_before g) (g_status g)) ∧
  (∀ j k c c', conns w !! j = Some c → conns w !! k = Some c' → is_stopped (cn_phase c) = false → is_stopped (cn_phase c') = false → j = k).
Proof using Type.
  intros Hw. assert (Hok : order_ok w) by (induction Hw as [|w a w' _ IH E]; [constructor; cbn; try done; by intros ? ?%not_elem_of_nil|by eapply step_order]).
  destruct Hok. split; eauto.
Qed.

(** ** Availability *)

(** Between the deactivation of the proxies and their activation. *)
Definition in_window (pc : RolloutPc) : bool := match pc with WriteActivate | AwaitApplied | Committing | Restore _ => true | _ => false end.

Definition being_rolled_out (k : nat) (w : World) : Prop :=
  ∃ i r, rollouts w !! i = Some r ∧ ro_conn r = k ∧ is_some (ro_online r) = true ∧ in_window (ro_pc r) = true.

(** The entry of the client in the proxy registry. *)
Definition entry (r : ProxyReg) : option (string * bool) := (λ s, (sessionID s, active s)) <$> clients r !! clientID.

Record available_ok (w : World) : Prop := {
  ao_sessions j k c c' : conns w !! j = Some c → conns w !! k = Some c' → cn_session c = cn_session c' → j = k;
  ao_active k c b : conns w !! k = Some c → cn_serving c = true → cn_session c ∉ suspended w → entry (sv_proxies (server w)) = Some (cn_session c, b) →
    b = true ∨ being_rolled_out k w
}.

Lemma entry_update session f r : entry (update_session clientID session f r) =
  match clients r !! clientID with
  | Some s => if bool_decide (sessionID s = session) then Some (sessionID (f s), active (f s)) else Some (sessionID s, active s)
  | None => None
  end.
Proof using Type.
  unfold entry, update_session. destruct (clients r !! clientID) as [s|] eqn:E; [|by rewrite E]. case_bool_decide; cbn; [by rewrite lookup_insert_eq|by rewrite E].
Qed.

Lemma entry_publish pr r res ret r' : publishSync ρ ρe pr r = (res, ret, r') → entry r' = entry r.
Proof using Type.
  unfold publishSync. destruct (clients r !! pr_client pr) as [s|] eqn:E; [|by intros [= _ _ <-]]. destruct (_ || _); [by intros [= _ _ <-]|].
  destruct (publish_rejection _ _ _ _) as [[??]|]; [by intros [= _ _ <-]|]. destruct (publishPlane _ _ _ _ _ _), (publishPlane _ _ _ _ _ _).
  intros [= _ _ <-]. unfold entry. cbn. destruct (decide (pr_client pr = clientID)) as [<-|Hne]; [|by rewrite lookup_insert_ne by done].
  rewrite lookup_insert_eq, E. cbn. unfold cacheSyncRequest. repeat case_match; done.
Qed.

Lemma entry_coordinate policy t outcome fr r res ret t' fr' r' : coordinate ρ ρe policy t outcome fr r = (res, ret, t', fr', r') → entry r' = entry r.
Proof using Type.
  destruct outcome as [answer|answer|pr]; cbn.
  - by intros [= _ _ _ _ <-].
  - destruct (CommitAround _ _ _ _ _) as [[[??]?]?]. by intros [= _ _ _ _ <-].
  - destruct (CommitAround _ _ _ _ _) as [[[ok t1] fr1] [r1 pub]] eqn:E. intros [= _ _ _ _ <-].
    apply CommitAround_spec in E as [(_ & E & _)|(_ & _ & _ & [[= -> _]|E])]; [|done|]; unfold publish_companion in E; cbn in E;
      destruct (publishSync ρ ρe pr r) as [[res1 ret1] r2] eqn:Ep; injection E as <- _ _; by eapply entry_publish.
Qed.

Definition window (r : Rollout) : bool := is_some (ro_online r) && in_window (ro_pc r).

Lemma rollout_step_entry ch r sv c r' sv' c' : rollout_step ρ ρe clientID auth limit ch r sv c = Some (r', sv', c') →
  (entry (sv_proxies sv') = entry (sv_proxies sv) ∧ window r' = window r) ∨
  (window r' = true ∧ sv_proxies sv' = Deactivate clientID (cn_session c) (sv_proxies sv)) ∨
  (window r = true ∧ sv_proxies sv' = Activate clientID (cn_session c) (sv_proxies sv)).
Proof using Type.
  assert (Hset : ∀ o f, sv_proxies (set_session o f sv) = sv_proxies sv) by (intros; unfold set_session; by case_match).
  assert (Hfail : in_window (failed_pc r) = false) by (unfold failed_pc; by destruct (is_some _)).
  assert (Ht : ∀ b st sv1 c1, take_status b sv c r = Some (st, sv1, c1) → sv_proxies sv1 = sv_proxies sv).
  { intros * E. unfold take_status in E. destruct (ro_online r) as [o|].
    - destruct (sv_sessions sv !! o) as [s|]; [|done]. destruct b; [destruct (ms_applied s)|destruct (ms_prepared s)]; [|done| |done]; injection E as <- <- <-; apply Hset.
    - destruct (cn_up c) as [|[]]; [done| |]; destruct b; by injection E as <- <- <-. }
  intros E. unfold rollout_step in E. unfold window. destruct (ro_pc r) eqn:Ep; destruct ch; try done; cbn [in_window].
  - destruct (ro_online r ≫= _) as [s|]; [|done]. destruct (ms_locked s); [done|]. injection E as <- <- <-. left. by rewrite Hset.
  - injection E as <- <- <-. left. by rewrite Hset.
  - injection E as <- <- <-. left. by rewrite Hset.
  - unfold server_write in E. destruct (_ && _); injection E as <- <- <-; left; (split; [done|]); cbn; by rewrite ?Hfail.
  - destruct (take_status false sv c r) as [[[[st|] sv1] c1]|] eqn:Et; [| |done]; injection E as <- <- <-; left; rewrite (Ht _ _ _ _ Et); (split; [done|]); cbn;
      [case_bool_decide|]; by rewrite ?Hfail.
  - injection E as <- <- <-. left. split; [done|]. cbn. by rewrite Hfail.
  - destruct (BeginSync _ _ _ _ _ _ _ _ _ _) as [[t|e] fr]; injection E as <- <- <-; left; (split; [done|]); cbn; by rewrite ?Hfail.
  - injection E as <- <- <-. cbn. destruct (is_some (ro_online r)); [right; by left|by left].
  - unfold server_write in E. destruct (_ && _); injection E as <- <- <-; by left.
  - destruct (take_status true sv c r) as [[[[st|] sv1] c1]|] eqn:Et; [| |done]; injection E as <- <- <-; left; rewrite (Ht _ _ _ _ Et); (split; [done|]); cbn; [by case_bool_decide|done].
  - injection E as <- <- <-. by left.
  - destruct (ro_transaction r) as [t|]; [|done]. destruct (coordinate _ _ _ _ _ _ _) as [[[[res ret] t'] fr] pr] eqn:Ec. injection E as <- <- <-. left.
    cbn. split; [by eapply entry_coordinate|done].
  - injection E as <- <- <-. cbn. destruct (is_some (ro_online r)); [right; by right|by left].
  - injection E as <- <- <-. left. rewrite Hset. done.
Qed.

(** Steps that leave the entry, the sessions and the rollouts as they are. *)
Lemma available_frame w w' : available_ok w → entry (sv_proxies (server w')) = entry (sv_proxies (server w)) →
  (∀ k c', conns w' !! k = Some c' → ∃ c, conns w !! k = Some c ∧ cn_session c' = cn_session c ∧ (cn_serving c' = true → cn_serving c = true)) →
  suspended w ⊆ suspended w' → (∀ k, being_rolled_out k w → being_rolled_out k w') → available_ok w'.
Proof using Type.
  intros [] He Hc Hs Hr. constructor.
  - intros j k c c' Hj Hk E. destruct (Hc _ _ Hj) as (? & ? & ? & _), (Hc _ _ Hk) as (? & ? & ? & _). eapply ao_sessions0; [done|done|congruence].
  - intros k c b Hk Sv Hn Hent. destruct (Hc _ _ Hk) as (c0 & Hk0 & Hcs & Hsv). rewrite He in Hent. rewrite Hcs in *.
    destruct (ao_active0 _ _ _ Hk0 (Hsv Sv) ltac:(set_solver) Hent); auto.
Qed.

Lemma set_conn_frame (cs : gmap nat Conn) k c c1 : cs !! k = Some c → cn_session c1 = cn_session c → (cn_serving c1 = true → cn_serving c = true) →
  ∀ j c', <[k := c1]> cs !! j = Some c' → ∃ c0, cs !! j = Some c0 ∧ cn_session c' = cn_session c0 ∧ (cn_serving c' = true → cn_serving c0 = true).
Proof using Type. intros Hk Hs Hv j c' [[<- <-]|[_ Hj]]%lookup_insert_Some; eauto. Qed.

Lemma entry_suspend session r : (∀ s b, entry r = Some (s, b) → s ≠ session) → entry (Suspend ρ clientID session r).2 = entry r.
Proof using Type.
  intros Hn. unfold Suspend. destruct (clients r !! clientID) as [s|] eqn:E; [|done]. case_bool_decide as Eb; [|done]. exfalso.
  eapply Hn; [|exact Eb]. unfold entry. by rewrite E.
Qed.

Lemma unregister_proxies session sv : sv_proxies (unregister session sv) = sv_proxies sv.
Proof using Type. unfold unregister. repeat case_match; done. Qed.

Lemma suspend_entry session r s b : entry (Suspend ρ clientID session r).2 = Some (s, b) → s ≠ session → entry r = Some (s, b).
Proof using Type.
  intros E Hne. unfold Suspend in E. destruct (clients r !! clientID) as [st|] eqn:Ec; [|done]. case_bool_decide as Eb; [|done]. cbn in E.
  unfold Deactivate in E. rewrite entry_update, Ec, bool_decide_eq_true_2 in E by done. cbn in E. congruence.
Qed.

Lemma detach_entry session r s b : entry (Detach ρ clientID session r).2 = Some (s, b) → entry r = Some (s, b).
Proof using Type.
  unfold Detach. destruct (clients r !! clientID) as [st|] eqn:Ec; [|done]. case_bool_decide as Eb; [|done]. cbn.
  destruct (detachPlane _ _ _) as [[??]?], (detachPlane _ _ _) as [[??]?]. unfold entry. cbn. by rewrite lookup_delete_eq.
Qed.

Lemma disconnect_available w k w' : available_ok w → disconnect ρf ρ clientID k w = Some w' → available_ok w'.
Proof using Type.
  intros [] E. unfold disconnect in E. destruct (conns w !! k) as [cn|] eqn:Ek; [|done]. destruct (cn_left cn); [done|]. injection E as <-. constructor; cbn [conns server suspended upd].
  - intros i j c c' Hi Hj Es. edestruct (set_conn_frame (conns w) k cn) as (? & ? & ? & _); [exact Ek| | |exact Hi|]; [done|done|].
    edestruct (set_conn_frame (conns w) k cn) as (? & ? & ? & _); [exact Ek| | |exact Hj|]; [done|done|].
    eapply ao_sessions0; [done|done|congruence].
  - intros j c b [[<- <-]|[Hne Hj]]%lookup_insert_Some Sv Hn Hent; [done|].
    assert (He : entry (sv_proxies (server w)) = Some (cn_session c, b)).
    { destruct (cn_serving cn), (cn_resumed cn); rewrite ?unregister_proxies in Hent; cbn in Hent;
        (apply detach_entry in Hent; done) || (apply suspend_entry in Hent; [done|set_solver]). }
    eapply ao_active0; [done|done|set_solver|done].
Qed.

Lemma handle_conn k listens msg c cl c' cl' : client_handle MarshalProxies MarshalConfiguration sha256 platform ρr k listens msg c cl = (c', cl') →
  cn_session c' = cn_session c ∧ cn_serving c' = cn_serving c.
Proof using Type.
  assert (Hw : ∀ m p, cn_session (client_write m p c) = cn_session c ∧ cn_serving (client_write m p c) = cn_serving c).
  { intros. unfold client_write. by destruct (cn_open c). }
  intros E. unfold client_handle in E. repeat case_match; injection E as <- <-; done || apply Hw.
Qed.

Lemma rolled_out_insert k w i r (w' : World) : rollouts w !! i = None → rollouts w' = <[i := r]> (rollouts w) → being_rolled_out k w → being_rolled_out k w'.
Proof using Type.
  intros Hi Er (j & r0 & Hj & Hx). exists j, r0. rewrite Er, lookup_insert_ne by congruence. done.
Qed.

Lemma entry_activate_other session r s b : entry (Activate clientID session r) = Some (s, b) → s ≠ session → entry r = Some (s, b).
Proof using Type.
  unfold Activate. rewrite entry_update. unfold entry. destruct (clients r !! clientID) as [st|]; [|done]. cbn. case_bool_decide; intros [= <- <-] Hne; [done|done].
Qed.

Lemma entry_activate_same session r b : entry (Activate clientID session r) = Some (session, b) → b = true.
Proof using Type.
  unfold Activate. rewrite entry_update. destruct (clients r !! clientID) as [st|]; [|done]. case_bool_decide as Eb; cbn; intros [= ? ?]; [done|]. congruence.
Qed.

Lemma entry_deactivate_other session r s b : entry (Deactivate clientID session r) = Some (s, b) → s ≠ session → entry r = Some (s, b).
Proof using Type.
  unfold Deactivate. rewrite entry_update. unfold entry. destruct (clients r !! clientID) as [st|]; [|done]. cbn. case_bool_decide; intros [= <- <-] Hne; [done|done].
Qed.

Lemma advance_available w i ch w' : available_ok w → advance_rollout ρ ρe clientID auth limit i ch w = Some w' → available_ok w'.
Proof using Type.
  intros Hok E. pose proof Hok as []. unfold advance_rollout in E. destruct (rollouts w !! i) as [r|] eqn:Ei; [|done].
  destruct (conns w !! ro_conn r) as [cn|] eqn:Ek; [|done]. destruct (rollout_step _ _ _ _ _ _ _ _ _) as [[[r' sv] cn']|] eqn:Es; [|done].
  injection E as <-. pose proof (rollout_step_conn _ _ _ _ _ _ _ Es) as (_ & Hcs & Hcv & Hrk & Hro).
  assert (Hfr : ∀ j c', <[ro_conn r := cn']> (conns w) !! j = Some c' → ∃ c0, conns w !! j = Some c0 ∧ cn_session c' = cn_session c0 ∧ (cn_serving c' = true → cn_serving c0 = true)).
  { apply (set_conn_frame (conns w) _ cn); [done|done|by rewrite Hcv]. }
  assert (Hother : ∀ j c0, conns w !! j = Some c0 → j ≠ ro_conn r → cn_session c0 ≠ cn_session cn).
  { intros j c0 Hj Hne Heq. apply Hne. by eapply ao_sessions0. }
  assert (Hroll : ∀ k, (window r = true → ro_conn r = k → window r' = true) → being_rolled_out k w → ∃ j r0, <[i := r']> (rollouts w) !! j = Some r0 ∧ ro_conn r0 = k ∧ is_some (ro_online r0) = true ∧ in_window (ro_pc r0) = true).
  { intros k Hwin (j & r0 & Hj & Hk & Ho & Hp). destruct (decide (j = i)) as [->|Hne].
    - rewrite Ei in Hj. injection Hj as <-. assert (Hw : window r' = true) by (apply Hwin; [unfold window; by rewrite Ho, Hp|done]).
      unfold window in Hw. apply andb_true_iff in Hw as [? ?]. exists i, r'. split_and!; [apply lookup_insert_eq|congruence|done|done].
    - exists j, r0. rewrite lookup_insert_ne by done. done. }
  destruct (rollout_step_entry _ _ _ _ _ _ _ Es) as [[He Hw]|[[Hw Hd]|[Hw Ha]]].
  - eapply available_frame; [done|exact He|exact Hfr|done|]. intros k Hb. apply Hroll; [by rewrite Hw|done].
  - constructor; cbn [conns server suspended upd].
    + intros j k c c' Hj Hk Heq. destruct (Hfr _ _ Hj) as (? & ? & ? & _), (Hfr _ _ Hk) as (? & ? & ? & _). eapply ao_sessions0; [done|done|congruence].
    + intros j c b Hj Sv Hn Hent. destruct (Hfr _ _ Hj) as (c0 & Hc0 & Hs0 & Hv0). destruct (decide (j = ro_conn r)) as [->|Hne].
      * right. exists i, r'. cbn. rewrite lookup_insert_eq. unfold window in Hw. apply andb_true_iff in Hw as [? ?]. done.
      * rewrite Hd in Hent. apply entry_deactivate_other in Hent; [|rewrite Hs0; by eapply Hother]. rewrite Hs0 in *.
        destruct (ao_active0 _ _ _ Hc0 (Hv0 Sv) Hn Hent) as [?|Hb]; [by left|right]. apply Hroll; [congruence|done].
  - constructor; cbn [conns server suspended upd].
    + intros j k c c' Hj Hk Heq. destruct (Hfr _ _ Hj) as (? & ? & ? & _), (Hfr _ _ Hk) as (? & ? & ? & _). eapply ao_sessions0; [done|done|congruence].
    + intros j c b Hj Sv Hn Hent. destruct (Hfr _ _ Hj) as (c0 & Hc0 & Hs0 & Hv0). rewrite Ha in Hent. destruct (decide (j = ro_conn r)) as [->|Hne].
      * left. rewrite Hs0 in Hent. rewrite Ek in Hc0. injection Hc0 as <-. by eapply entry_activate_same.
      * apply entry_activate_other in Hent; [|rewrite Hs0; by eapply Hother]. rewrite Hs0 in *.
        destruct (ao_active0 _ _ _ Hc0 (Hv0 Sv) Hn Hent) as [?|Hb]; [by left|right]. apply Hroll; [congruence|done].
Qed.

Lemma step_available a w w' : available_ok w → Step a w = Some w' → available_ok w'.
Proof using Type.
  intros Hok E. pose proof Hok as []. destruct a as [k session resume|i k c|i o|i c|i ch|k|k listens|k|k|k|fr r]; cbn [step] in E.
  - unfold connect in E. destruct (is_some _); [done|]. destruct (negb _) eqn:Eall; [done|]. injection E as <-.
    apply negb_false_iff, bool_decide_eq_true in Eall. constructor; cbn.
    + intros i j x y [[<- <-]|[_ Hx]]%lookup_insert_Some [[<- <-]|[_ Hy]]%lookup_insert_Some Es; try done; eauto;
        [destruct (Eall _ _ Hy)|destruct (Eall _ _ Hx)]; by cbn in Es.
    + intros j x b [[<- <-]|[_ Hx]]%lookup_insert_Some Sv Hn Hent; [done|]. unfold entry in Hent. cbn in Hent. rewrite lookup_insert_eq in Hent. cbn in Hent.
      injection Hent as Hs _. destruct (Eall _ _ Hx). congruence.
  - unfold begin_initial in E. destruct (rollouts w !! i) eqn:Ei; [done|]. repeat (case_match; try done). injection E as <-.
    eapply available_frame; [done|done|eauto|done|]. intros k'. by eapply rolled_out_insert.
  - unfold finish_initial in E. destruct (rollouts w !! i) as [r|]; [|done]. destruct (conns w !! ro_conn r) as [cn|] eqn:Ek; [|done].
    destruct (_ || _); [done|]. injection E as <-. constructor; cbn.
    + intros j k x y [[<- <-]|[_ Hx]]%lookup_insert_Some [[<- <-]|[_ Hy]]%lookup_insert_Some Es; try done; eauto.
    + intros j x b [[<- <-]|[Hne Hx]]%lookup_insert_Some Sv Hn Hent.
      * left. by eapply entry_activate_same.
      * apply entry_activate_other in Hent; [|intros Heq; apply Hne; by eapply ao_sessions0]. eauto.
  - unfold begin_rollout in E. destruct (rollouts w !! i) eqn:Ei; [done|]. destruct (get (server w)) as [[o s]|]; [|done]. destruct (new_rollout _ _ _ _ _ _); [|done].
    injection E as <-. eapply available_frame; [done|done|eauto|done|]. intros k'. by eapply rolled_out_insert.
  - by eapply advance_available.
  - unfold server_read in E. destruct (conns w !! k) as [cn|] eqn:Ek; [|done]. destruct (cn_serving cn); [|done]. destruct (cn_up cn) as [|msg up]; [done|].
    assert (Hok' : available_ok (w <| conns := <[k := cn <| cn_up := up |>]> (conns w) |>)).
    { eapply available_frame; [done|done| |done|done]. by eapply set_conn_frame. }
    cbn [server upd] in E. destruct (publish _ _ _) as [[] sv] eqn:Ep; [|by eapply disconnect_available]. injection E as <-.
    eapply available_frame; [exact Hok'| |eauto|done|done]. cbn. unfold publish in Ep. repeat case_match; simplify_eq; done.
  - unfold client_read in E. destruct (conns w !! k) as [cn|] eqn:Ek; [|done].
    destruct (cn_phase cn); try done; (destruct (cn_down cn) as [|msg down]; [done|]); destruct (client_handle _ _ _ _ _ _ _ _ _ _) as [cn' cl] eqn:Eh; injection E as <-;
      apply handle_conn in Eh as [Hs Hv]; (eapply available_frame; [done|done| |done|done]); (eapply set_conn_frame; [exact Ek|exact Hs|by rewrite Hv]).
  - destruct (conns w !! k) as [cn|] eqn:Ek; [|done]. injection E as <-. eapply available_frame; [done|done| |done|done]. by eapply set_conn_frame.
  - destruct (conns w !! k) as [cn|] eqn:Ek; [|done]. injection E as <-. eapply available_frame; [done|done| |done|done]. by eapply set_conn_frame.
  - case_bool_decide; [by eapply disconnect_available|done].
  - destruct (_ && _) eqn:Eb; [|done]. injection E as <-. apply andb_true_iff in Eb as [E1%bool_decide_eq_true E2%bool_decide_eq_true].
    eapply available_frame; [done| |eauto|done|done]. cbn. unfold entry.
    destruct (clients r !! clientID) as [x|], (clients (sv_proxies (server w)) !! clientID) as [y|]; cbn in *; congruence.
Qed.

(** A rollout interrupts the traffic of its session only while it runs.
    A session that is established and has not been suspended accepts public
    traffic unless a rollout to it is between the deactivation of its proxies
    and their activation: however a rollout ends, by success, refusal, a
    mismatched acknowledgement, a failed write or a time-out, the proxies of the
    session are active again. *)
Theorem rollout_restores fr r w k c : Reachable fr r w → conns w !! k = Some c → cn_serving c = true → cn_session c ∉ suspended w →
  sessionID <$> clients (sv_proxies (server w)) !! clientID = Some (cn_session c) →
  Active clientID (cn_session c) (sv_proxies (server w)) = true ∨ being_rolled_out k w.
Proof using Type.
  intros Hw Hk Sv Hn Hs.
  assert (Hok : available_ok w).
  { clear -Hw. induction Hw as [|w a w' _ IH E]; [constructor; cbn; done|by eapply step_available]. }
  destruct (clients (sv_proxies (server w)) !! clientID) as [s|] eqn:Ec; [|done]. injection Hs as Hs.
  destruct (ao_active _ Hok k c (active s) Hk Sv Hn) as [Ha|?]; [|left|by right].
  - unfold entry. rewrite Ec. cbn. by rewrite Hs.
  - unfold Active. rewrite Ec, Ha, bool_decide_eq_true_2 by done. done.
Qed.
End safety.

(** ** A run *)

Module DemoRollout.
Definition auth : Context := DemoProxy.context ModeManaged "m".
Definition Step := step DemoManaged.marshal_proxies DemoManaged.marshal DemoManaged.pad (H := Dotted.text) (Some 65507) any_range any_range any_range any_range "m" auth 0.
Definition Reachable := reachable DemoManaged.marshal_proxies DemoManaged.marshal DemoManaged.pad (H := Dotted.text) (Some 65507) any_range any_range any_range any_range "m" auth 0.
Definition registry : ProxyReg := ProxySystem.reg (ProxySystem.start true false).
Definition first : World := initial (New zero_UDPConfig) registry.

Fixpoint run (actions : list Action) (w : World) : option World :=
  match actions with [] => Some w | a :: actions => match Step a w with Some w => run actions w | None => None end end.

Lemma rollout_run_reachable actions w w' : Reachable (New zero_UDPConfig) registry w → run actions w = Some w' → Reachable (New zero_UDPConfig) registry w'.
Proof.
  revert w. induction actions as [|a actions IH]; intros w Hw; cbn [run]; [by intros [= <-]|].
  destruct (Step a w) as [w1|] eqn:E; [|done]. apply IH. by eapply reach_action.
Qed.

(** What the proxy registry prepares for the first generation. *)
Definition request : SyncRequest :=
  {| RequestRevision := 1; RequestProxies := [DemoProxy.tcp_proxy "ssh" 7001] |}.
Definition attached : ProxyReg := AttachAuthenticated "m" "s1" (Some 1%nat) auth 0 registry.
Definition flight : Flight :=
  {| fl_client := "m"; fl_session := "s1"; fl_requestID := "r1"; fl_request := request;
     fl_admitted := DemoProxy.admitted_with "m" "s1" request attached; fl_sockets := {[7001 := {| ep_id := 1; ep_port := 7001 |}]}; fl_socketsUDP := ∅ |}.
Definition preparation : Preparation :=
  match prepare_flight flight DemoProxy.supply attached with Ok pr => pr | Err _ => DemoProxy.preparation end.

Definition everything := DemoSync.everything.
Definition listens (name : string) : bool := true.

(** The first exchange of a connection, and the publication of its generation. *)
Definition establish : list Action :=
  [Connect 1 "s1" None; BeginInitial 0 1 (DemoManaged.loaded 1); AdvanceRollout 0 (Transmitted true); ClientRead 1 listens;
   AdvanceRollout 0 Received; AdvanceRollout 0 (Synced everything zero_UDPConfig [Some "f1"]); AdvanceRollout 0 ManagedRollout.Proceed;
   AdvanceRollout 0 (Transmitted true); ClientRead 1 listens; AdvanceRollout 0 Received;
   AdvanceRollout 0 (Published everything (ProxyPrepared preparation)); AdvanceRollout 0 ManagedRollout.Proceed; FinishInitial 0 7].

(** A rollout up to the answer of the client to the activation. *)
Definition upgrade : list Action :=
  [BeginRollout 1 (DemoManaged.loaded 2); AdvanceRollout 1 ManagedRollout.Proceed; AdvanceRollout 1 ManagedRollout.Proceed; AdvanceRollout 1 ManagedRollout.Proceed;
   AdvanceRollout 1 (Transmitted true); ClientRead 1 listens; ServerRead 1; AdvanceRollout 1 Received;
   AdvanceRollout 1 (Synced everything zero_UDPConfig [Some "f2"]); AdvanceRollout 1 ManagedRollout.Proceed; AdvanceRollout 1 (Transmitted true);
   ClientRead 1 listens].

Definition upgrading_run : option World := run (establish ++ upgrade) first.
Definition upgrading : World := from_some upgrading_run (ltac:(vm_compute; reflexivity) : is_some upgrading_run = true).
Lemma upgrading_reachable : Reachable (New zero_UDPConfig) registry upgrading.
Proof. apply (rollout_run_reachable (establish ++ upgrade) first); [by apply reach_start|apply from_some_eq]. Qed.

(** The connection ends while the rollout waits for the client, which times out. *)
Definition abandoned_run : option World :=
  run (establish ++ upgrade ++ [Disconnect 1; AdvanceRollout 1 Expired; AdvanceRollout 1 ManagedRollout.Proceed; AdvanceRollout 1 ManagedRollout.Proceed]) first.
Definition abandoned : World := from_some abandoned_run (ltac:(vm_compute; reflexivity) : is_some abandoned_run = true).
Lemma abandoned_reachable : Reachable (New zero_UDPConfig) registry abandoned.
Proof. eapply (rollout_run_reachable _ first); [by apply reach_start|apply from_some_eq]. Qed.

Definition first_message : ManagedConfigPrepare := (DemoManaged.sent 1).1.

Lemma upgrading_unambiguous : unambiguous (messages upgrading).
Proof.
  assert (Hall : Forall (λ p, PrepareProxies p = PrepareProxies first_message ∧ PrepareForwards p = PrepareForwards first_message) (messages upgrading)).
  { vm_compute. repeat constructor. }
  rewrite Forall_forall in Hall. intros p q Hp Hq _. destruct (Hall _ Hp) as [-> ->], (Hall _ Hq) as [-> ->]. done.
Qed.
End DemoRollout.

Lemma rollout_agreement_witness : ∃ g, g ∈ history (client DemoRollout.upgrading) ∧ g_status g = status_of DemoRollout.first_message ∧
  PrepareProxies (g_source g) = PrepareProxies DemoRollout.first_message.
Proof.
  destruct (rollout_agreement DemoManaged.marshal_proxies DemoManaged.marshal DemoManaged.pad (H := Dotted.text) (Some 65507) any_range any_range any_range any_range "m"
    DemoRollout.auth 0 (New zero_UDPConfig) DemoRollout.registry DemoRollout.upgrading 1 DemoRollout.first_message DemoRollout.upgrading_reachable
    DemoRollout.upgrading_unambiguous) as (g & Hg & Hs & Hp & _).
  - apply list_elem_of_lookup. exists 0%nat. vm_compute. reflexivity.
  - exists g. done.
Defined.

Lemma generations_move_forward_witness :
  ∀ g, g ∈ history (client DemoRollout.upgrading) → g_online g = true → not_stale (g_before g) (g_status g).
Proof.
  exact (proj1 (generations_move_forward DemoManaged.marshal_proxies DemoManaged.marshal DemoManaged.pad (H := Dotted.text) (Some 65507) any_range any_range any_range
    any_range "m" DemoRollout.auth 0 (New zero_UDPConfig) DemoRollout.registry DemoRollout.upgrading DemoRollout.upgrading_reachable)).
Defined.

Lemma rollout_restores_witness :
  let w := DemoRollout.upgrading in Active "m" "s1" (sv_proxies (server w)) = true ∨ being_rolled_out 1 w.
Proof.
  assert (Hc : is_some (conns DemoRollout.upgrading !! 1%nat) = true) by (vm_compute; reflexivity).
  assert (Es : cn_session (from_some _ Hc) = "s1") by (vm_compute; reflexivity). cbn zeta. rewrite <- Es.
  apply (rollout_restores DemoManaged.marshal_proxies DemoManaged.marshal DemoManaged.pad (H := Dotted.text) (Some 65507) any_range any_range any_range any_range "m"
    DemoRollout.auth 0 (New zero_UDPConfig) DemoRollout.registry DemoRollout.upgrading 1 (from_some _ Hc) DemoRollout.upgrading_reachable).
  - apply from_some_eq.
  - vm_compute. reflexivity.
  - rewrite Es. assert (E : bool_decide ("s1" ∈ suspended DemoRollout.upgrading) = false) by (vm_compute; reflexivity). by apply bool_decide_eq_false in E.
  - vm_compute. reflexivity.
Defined.

(** C32: A rollout can reopen a session that has been suspended.  There is a run
    in which the control connection of a managed client ends while a rollout to
    it waits for an acknowledgement: the proxies of the session are suspended,
    but when the rollout times out it activates them again, and they stay active
    although no connection serves the session and no rollout runs. *)
Theorem suspended_session_reactivated : ∃ w c,
  DemoRollout.Reachable (New zero_UDPConfig) DemoRollout.registry w ∧ conns w !! 1%nat = Some c ∧
  cn_serving c = false ∧ cn_session c ∈ suspended w ∧ map_Forall (λ _ r, is_ended (ro_pc r) = true) (rollouts w) ∧
  Active "m" (cn_session c) (sv_proxies (server w)) = true.
Proof.
  assert (Hc : is_some (conns DemoRollout.abandoned !! 1%nat) = true) by (vm_compute; reflexivity).
  exists DemoRollout.abandoned, (from_some _ Hc). split_and!.
  - exact DemoRollout.abandoned_reachable.
  - apply from_some_eq.
  - vm_compute. reflexivity.
  - apply (bool_decide_eq_true_1 (cn_session (from_some _ Hc) ∈ suspended DemoRollout.abandoned)). vm_compute. reflexivity.
  - apply (bool_decide_eq_true_1 (map_Forall (λ _ r, is_ended (ro_pc r) = true) (rollouts DemoRollout.abandoned))). vm_compute. reflexivity.
  - vm_compute. reflexivity.
Qed.
